(* ===== verification/_CoqProject ===== *)
-Q . S2P
Prelude.v
Bytes.v
CastkmsSys.v
Grant.v
GrantHelperProtocol.v
Text.v
Castkms.v
CastkmsEvent.v
CastkmsCec.v
CecBridge.v
CastkmsCapture.v
CaptureClient.v
CaptureInvariant.v
CaptureResources.v
CapturePhases.v
DisplayState.v
Ordering.v
Output.v
Slot.v
Time.v
Actor.v
MediaTimeline.v
EncodedVideo.v
Identity.v
Edid.v
EdidLayout.v
Feedback.v
PipewireBuffers.v
VideoSource.v
MediaSession.v
MediaPolicy.v
BackendProtocol.v
PublicTypes.v
DeviceInventory.v
BackendSession.v
AggregateInventory.v
Preparation.v
DisplayId.v
DisplaySetup.v
CastDisplaySlot.v
PublicState.v
ReplaceableSession.v
DeviceSession.v
DeviceRecovery.v
MediaDriver.v
KernelCapture.v
KernelActor.v
KernelProtocol.v
KernelCec.v
PortLife.v
CastVideoSender.v
CastAudioSender.v
CastMedia.v
CastMediaInvariant.v
CastMediaOutcome.v
CastDiscovery.v
CastDevice.v
CastLifecycle.v
