(* ===== verification/Prelude.v ===== *)
(** * Pronk: a verification development

    Pronk shows a Linux desktop on a network display.  A daemon ([crates/pronk])
    obtains a grant for a virtual connector of the CastKMS kernel driver,
    attaches a monitor to it with an EDID made for the device, captures the
    frames the compositor draws there and offers them as a PipeWire source.  A
    backend process ([crates/pronk-chromiacast]) reads that source, encodes it
    ([crates/pronk-media]) and sends it to the device.  HDMI-CEC messages that
    the desktop sends to the virtual monitor become device controls.

    ** Parts of the program and the files that model them

    Paths are under src/crates.  A definition has the name of the Rust item it
    models unless that clashes with another; one file models one source file
    except where said, and its own header says how.

    The vocabulary:

    - Prelude (this file), Bytes, Text, Ordering, Time: values, errors and panics
      ([outcome]); integers of a width, checked buffer access; [str]; [Ord],
      sorting and [PathBuf]; [Duration] and [Instant].
    - Actor: actors as state passing, and the triple [runs] their invariants are
      proved with.  PortLife: the life of something that is handed over, held
      and let go of.

    The kernel interface (castkms-sys, pronk-core):

    - CastkmsSys: castkms-sys/src/lib.rs.  Grant: grant.rs, the lease a grant is
      held by.  GrantHelperProtocol: grant_helper/protocol.rs, the datagrams
      exchanged with the privileged helper.
    - Castkms: castkms.rs, the client of the driver.  CastkmsEvent:
      castkms_event.rs, the DRM event stream.  CastkmsCec: castkms_cec.rs.
    - CastkmsCapture, CaptureClient: castkms_capture.rs, the tracker of capture
      streams and buffers and the client's operations on it; CaptureInvariant,
      CaptureResources and CapturePhases hold the proofs.
    - Output: output.rs.  Identity: identity.rs.  Edid: edid.rs, with its proofs
      in EdidLayout.

    The display in the daemon (pronk):

    - Slot: slot.rs.  DisplayId, DisplaySetup: display.rs, the operation that adds
      a display.  Preparation: preparation.rs.  DisplayState: display_state.rs.
    - CastDisplaySlot: cast_display_slot.rs, the actor that owns a display once it
      is added.  PublicState: the projections of dbus.rs to the types of
      PublicTypes (pronk-dbus/src/lib.rs).
    - KernelCapture, KernelActor: castkms_actor.rs with the interfaces of
      kernel_display_port.rs and kernel_display.rs, the actor that owns the grant;
      KernelProtocol and KernelCec hold the proofs.  CecBridge: cec_bridge.rs.

    Media in the daemon (pronk, pronk-pipewire):

    - PipewireBuffers: types.rs, model.rs and policy_gate.rs; VideoSource:
      video_source_actor.rs.
    - MediaPolicy: media_policy.rs decides; MediaSession: media_session.rs orders
      the phases; MediaDriver: media_driver.rs and media_pipeline_port.rs carries
      them out on the capture pipeline and the device session.
    - DeviceSession: device_session.rs and device_session_port.rs, the adapter to
      the backend; ReplaceableSession: replaceable_device_session.rs;
      DeviceRecovery: device_recovery.rs.

    Backends (pronk-backend-protocol, pronk-backend-host, pronk):

    - BackendProtocol: the messages and their validation.  DeviceInventory:
      inventory.rs.  BackendSession: session.rs.  AggregateInventory: the
      inventory of manager.rs.

    The Cast backend (pronk-media, pronk-chromiacast):

    - MediaTimeline: media_timeline.rs.  EncodedVideo: h264.rs, vp8.rs,
      encoded_output.rs.  Feedback: feedback.rs.
    - CastVideoSender, CastAudioSender: sender_actor.rs, audio_sender_actor.rs and
      the types of transport.rs.  CastMedia: media.rs and the caps of model.rs;
      CastMediaInvariant holds the proofs, CastMediaOutcome what each operation
      does to the session's state.  CastDiscovery: discovery.rs.
      CastDevice: device.rs.
    - CastLifecycle composes the device actor of CastDevice with the daemon's
      DeviceSession: a call is a turn of the actor, and its answer may be lost.

    ** How the code is translated

    A function that returns [Result] returns an [outcome]: [Ok], [Err] or
    [Panic].  Slicing, indexing, [expect] and [debug_assert] panic where Rust
    does, so the absence of panics is a theorem.  An operation on [&mut self]
    returns the state it leaves with its result, also when it fails half-way.
    Integers are [Z]; wrapping, saturating, checked and truncating arithmetic
    is written out.  Maps are [gmap]s, or lists where the order is observable.

    An actor is its state with a record of what it did, and a function for one
    turn of its loop: what the [select!] took is an argument, and so are the
    answers of whatever the turn waits for.  A run is a list of turns, so a
    theorem about runs holds for every order in which things can happen.  Where
    two actors share something, the list interleaves their operations.

    Code outside the repository, and what the outside world answers, is a class
    of parameters: the DRM ioctls and [fcntl] ([FdQueries], [DrmQueries],
    [CaptureKernel], the kernel of CastkmsCec), the file system ([Machine]),
    Unicode tables ([Unicode]), SHA-256 ([Sha256]), and for the actors [World],
    [SlotWorld], [KernelWorld], [DriverPorts], [ManagedSource],
    [MediaSessionDriver], [MediaPorts], [DevicePorts] and [DiscoveryPorts].  Their
    members are arbitrary functions of the record of what was done so far, so the
    world may fail at any point and change its mind between calls.  The theorems
    hold for every instance; where one needs documented behaviour of such code it is a
    named hypothesis, with a witness that instantiates it.

    ** What the theorems show

    - Wire formats: decoding inverts encoding and accepts only what encoding
      produces (GrantHelperProtocol); however reads cut the DRM event stream, the
      decoder yields the records of the whole stream (CastkmsEvent); the
      validators of BackendProtocol and PublicTypes decide their declarative
      meaning; a prepared device always has an EDID that frames and reads back
      (EdidLayout, Preparation).
    - Ownership: every kernel resource of the capture client is owned by one
      buffer or was released once (CaptureResources); a setup that fails leaves
      nothing behind (DisplaySetup, but for the finding named below); a stop that
      succeeds leaves nothing of a capture generation (KernelProtocol); device
      sessions are owned once and broken before a new one is made
      (ReplaceableSession, DeviceRecovery); every Cast transport and every
      connection to a device is held or was let go of once (CastVideoSender,
      CastAudioSender, CastMediaInvariant, CastDevice); display slots refine a set
      of live reservations (Slot).
    - Protocols: the capture client, the kernel actor, the media session, the
      driver, the CEC client and the daemon's calls to a backend each refine an
      abstract transition system (CaptureInvariant, KernelProtocol, MediaSession,
      MediaDriver, CastkmsCec, DeviceSession); that of the capture client says of
      each operation which transition it makes.  The daemon's view of the backend
      agrees with what the backend is, as long as its actor runs (CastLifecycle).
    - State that is shown: snapshots are valid and revisions grow (PublicState,
      DisplayState); inventories follow their backends and replay from their
      events (DeviceInventory, AggregateInventory), and the events of the Cast
      backend bring the host to its inventory (CastDiscovery).
    - Media: timestamps are monotone across source clock changes (MediaTimeline);
      congestion never leaves a receiver with a delta frame whose predecessors
      were dropped, from the encoder's output (EncodedVideo) to the transport
      (CastVideoSender); the feedback loop is bounded and converges (Feedback).
    - Progress: a display whose session is lost waits for a request that is under
      way (CastDisplaySlot); the policy comes to rest (MediaPolicy); cleaning up a
      generation succeeds as soon as the backend answers (DeviceSession,
      CastLifecycle); every control operation is answered (KernelCec, CastDevice).

    Some theorems are about behaviour that the code does not seem to intend; they
    say so where they stand: CastLifecycle.never_admitted_never_stopped,
    DisplaySetup.attach_task_failure_leaves_session,
    PublicState.multiline_error_is_refused, Feedback.nack_at_maximum_lowers_delay,
    MediaSession.rollback_error_exceeds_bound,
    MediaSession.cancel_phase_before_install_is_lost,
    KernelProtocol.refused_start_ends_actor, KernelCec.transmit_read_at_stop_is_lost.

    ** Loops and bounds

    Loops over data are structural.  The others run on fuel: [push_loop] on the
    input's length plus a constant, as a step consumes input; [nal_loop] on the
    access unit's length, as a start code is nonempty; [chunks_exact] on the
    buffer's length; [gcd_loop] on its second number, which decreases
    ([greatest_common_divisor_gcd]); connector queries on the source's
    own retry limit.  Where running out of fuel would be a panic of the model,
    the theorems rule it out.  The loops of the actors are lists of turns; the
    loops inside a turn are structural on what the turn was given.

    ** Not modelled

    The transport of the grant helper, the D-Bus objects, polkit and process
    start-up of the daemon, the connections to backend processes and their
    supervision, GStreamer pipelines, PipeWire streams, the RTP transports of the
    Cast backend, the mock backend, the systemd helpers and pronkctl: they are calls into the operating system or a library.  In the
    modelled files: [load_system] of identity.rs, the waiting itself of an
    asynchronous wait (its result is an argument), the volume levels of device.rs
    (floating point), and the text of error messages except where it is data.
    Native-endian reads are little-endian and a [usize] has 64 bits. *)

From Stdlib Require Export ZArith Lia.
From stdpp Require Export base list numbers strings option gmap.

Global Open Scope Z_scope.

(** ** Outcomes

    A Rust function of this program returns a value, returns an error through
    [Result], or panics (slice index out of range, [expect] on [None],
    arithmetic overflow with overflow checks on).  [outcome] keeps the three
    apart, so that "never panics" is a statement about the definitions. *)
Inductive outcome (E A : Type) : Type :=
  | Ok (a : A)
  | Err (e : E)
  | Panic.
Arguments Ok {E A} _.
Arguments Err {E A} _.
Arguments Panic {E A}.

Definition obind {E A B} (m : outcome E A) (k : A -> outcome E B) : outcome E B :=
  match m with
  | Ok a => k a
  | Err e => Err e
  | Panic => Panic
  end.

(** [map_err] of [Result]. *)
Definition omap_err {E F A} (f : E -> F) (m : outcome E A) : outcome F A :=
  match m with
  | Ok a => Ok a
  | Err e => Err (f e)
  | Panic => Panic
  end.

(** [Option::ok_or] and [Option::expect]. *)
Definition ok_or {E A} (o : option A) (e : E) : outcome E A :=
  match o with Some a => Ok a | None => Err e end.

Definition expect {E A} (o : option A) : outcome E A :=
  match o with Some a => Ok a | None => Panic end.

(** [if cond { return Err(e) }]. *)
Definition reject {E} (cond : bool) (e : E) : outcome E unit :=
  if cond then Err e else Ok tt.

Declare Scope rust_scope.
Delimit Scope rust_scope with rust.
Notation "'let?' x := m 'in' k" := (obind m (fun x => k))
  (at level 10, x name, m at level 200, k at level 200,
   format "'[v' 'let?'  x  :=  m  'in' '/' k ']'") : rust_scope.
Notation "'let?' ' p := m 'in' k" := (obind m (fun x => match x with p => k end))
  (at level 10, p pattern, m at level 200, k at level 200) : rust_scope.
Notation "'try?' m ; k" := (obind m (fun _ => k))
  (at level 10, m at level 200, k at level 200,
   format "'[v' 'try?'  m ; '/' k ']'") : rust_scope.
Global Open Scope rust_scope.

Definition is_ok {E A} (m : outcome E A) : bool :=
  match m with Ok _ => true | _ => false end.

(** [oks m P]: [m] returns a value, and the value satisfies [P]. *)
Definition oks {E A} (m : outcome E A) (P : A -> Prop) : Prop :=
  match m with Ok a => P a | _ => False end.

(** [safe m P]: [m] does not panic, and a returned value satisfies [P]. *)
Definition safe {E A} (m : outcome E A) (P : A -> Prop) : Prop :=
  match m with Ok a => P a | Err _ => True | Panic => False end.

Global Instance outcome_eq_dec {E A} `{EqDecision E, EqDecision A} : EqDecision (outcome E A).
Proof. solve_decision. Defined.

Lemma obind_ok {E A B} (m : outcome E A) (k : A -> outcome E B) b :
  obind m k = Ok b <-> exists a, m = Ok a /\ k a = Ok b.
Proof. destruct m; simpl; naive_solver. Qed.

Lemma reject_ok {E} (c : bool) (e : E) u : reject c e = Ok u <-> c = false.
Proof. destruct c, u; simpl; naive_solver. Qed.

Lemma ok_or_ok {E A} (o : option A) (e : E) a : ok_or o e = Ok a <-> o = Some a.
Proof. destruct o; simpl; naive_solver. Qed.

Lemma reject_seq_ok {E A} (c : bool) (e : E) (k : outcome E A) a :
  obind (reject c e) (fun _ => k) = Ok a <-> c = false /\ k = Ok a.
Proof. destruct c; simpl; naive_solver. Qed.

Lemma query_seq_ok {E F A B} (f : E -> F) (m : outcome E A) (k : A -> outcome F B) b :
  obind (omap_err f m) k = Ok b <-> exists a, m = Ok a /\ k a = Ok b.
Proof. destruct m; simpl; naive_solver. Qed.

Lemma seq_ok {E A} (m : outcome E unit) (k : outcome E A) a :
  obind m (fun _ => k) = Ok a <-> m = Ok tt /\ k = Ok a.
Proof. destruct m as [[]| |]; simpl; naive_solver. Qed.

Lemma oks_bind {E A B} (m : outcome E A) (k : A -> outcome E B) (Q : A -> Prop) P :
  oks m Q -> (forall a, Q a -> oks (k a) P) -> oks (obind m k) P.
Proof. destruct m; simpl; naive_solver. Qed.

Lemma oks_weaken {E A} (m : outcome E A) (P Q : A -> Prop) :
  oks m P -> (forall a, P a -> Q a) -> oks m Q.
Proof. destruct m; simpl; naive_solver. Qed.

Lemma oks_ok {E A} (m : outcome E A) P : oks m P <-> exists a, m = Ok a /\ P a.
Proof. destruct m; simpl; naive_solver. Qed.

Lemma safe_bind {E A B} (m : outcome E A) (k : A -> outcome E B) (Q : A -> Prop) P :
  safe m Q -> (forall a, Q a -> safe (k a) P) -> safe (obind m k) P.
Proof. destruct m; simpl; naive_solver. Qed.

Lemma safe_weaken {E A} (m : outcome E A) (P Q : A -> Prop) :
  safe m P -> (forall a, P a -> Q a) -> safe m Q.
Proof. destruct m; simpl; naive_solver. Qed.

Lemma safe_no_panic {E A} (m : outcome E A) P : safe m P -> m <> Panic.
Proof. by intros H ->. Qed.

Lemma safe_ok {E A} (m : outcome E A) P a : safe m P -> m = Ok a -> P a.
Proof. by intros H ->. Qed.

Lemma oks_safe {E A} (m : outcome E A) P : oks m P -> safe m P.
Proof. by destruct m. Qed.

Lemma safe_reject {E} (c : bool) (e : E) : safe (reject c e) (fun _ => c = false).
Proof. by destruct c. Qed.

Lemma safe_reject_seq {E A} (c : bool) (e : E) (k : outcome E A) P :
  (c = false -> safe k P) -> safe (obind (reject c e) (fun _ => k)) P.
Proof. destruct c; simpl; auto. Qed.

Lemma safe_ok_or {E A} (o : option A) (e : E) : safe (ok_or o e) (fun a => o = Some a).
Proof. by destruct o. Qed.

Lemma omap_err_ok {E F A} (f : E -> F) (m : outcome E A) a : omap_err f m = Ok a <-> m = Ok a.
Proof. destruct m; simpl; split; congruence. Qed.

Lemma safe_map_err {E F A} (f : E -> F) (m : outcome E A) P :
  safe m P -> safe (omap_err f m) P.
Proof. by destruct m. Qed.

(** ** Lists *)

(** Each element is related to the one before it, [prev] before the first. *)
Fixpoint paced {A} (R : A -> A -> Prop) (prev : option A) (l : list A) : Prop :=
  match l with
  | [] => True
  | x :: l' => match prev with Some y => R y x | None => True end /\ paced R (Some x) l'
  end.

Lemma paced_app {A} (R : A -> A -> Prop) prev l1 l2 :
  paced R prev (l1 ++ l2) <->
  paced R prev l1 /\ paced R (match last l1 with Some x => Some x | None => prev end) l2.
Proof.
  revert prev. induction l1 as [|x l1 IH]; intros prev; simpl; [tauto|].
  rewrite IH, last_cons. destruct (last l1); tauto.
Qed.

(** ** Tactics *)

(** Peel the binds of a hypothesis [... = Ok _], naming nothing. *)
Ltac ok_step :=
  match goal with
  | H : obind _ _ = Ok _ |- _ => apply obind_ok in H as (? & ? & H)
  | H : reject _ _ = Ok _ |- _ => apply reject_ok in H
  | H : ok_or _ _ = Ok _ |- _ => apply ok_or_ok in H
  | H : Ok _ = Ok _ |- _ => injection H as H
  | H : Some _ = Some _ |- _ => injection H as H
  | H : Err _ = Ok _ |- _ => discriminate H
  | H : Panic = Ok _ |- _ => discriminate H
  | H : None = Some _ |- _ => discriminate H
  | H : Some _ = None |- _ => discriminate H
  end.
Ltac ok_inv := repeat ok_step.

(** Turn boolean tests into the propositions they decide. *)
Ltac breflect :=
  repeat match goal with
  | H : negb _ = true |- _ => apply negb_true_iff in H
  | H : negb _ = false |- _ => apply negb_false_iff in H
  | H : _ && _ = true |- _ => apply andb_true_iff in H as [? H]
  | H : _ || _ = false |- _ => apply orb_false_iff in H as [? H]
  | H : (_ =? _) = true |- _ => apply Z.eqb_eq in H
  | H : (_ =? _) = false |- _ => apply Z.eqb_neq in H
  | H : (_ <? _) = true |- _ => apply Z.ltb_lt in H
  | H : (_ <? _) = false |- _ => apply Z.ltb_ge in H
  | H : (_ <=? _) = true |- _ => apply Z.leb_le in H
  | H : (_ <=? _) = false |- _ => apply Z.leb_gt in H
  | H : bool_decide _ = true |- _ => apply bool_decide_eq_true in H
  | H : bool_decide _ = false |- _ => apply bool_decide_eq_false in H
  end.

(** The exact acceptance condition of a chain of checks: rewrite [chain = Ok _]
    into the conjunction of what each check requires. *)
Create Rewrite HintDb accept.
#[export] Hint Rewrite @reject_seq_ok @query_seq_ok @seq_ok @reject_ok @ok_or_ok
  negb_false_iff negb_true_iff orb_false_iff andb_true_iff
  Z.eqb_eq Z.eqb_neq Z.ltb_ge Z.ltb_lt Z.leb_le Z.leb_gt : accept.

(** Case split on the innermost scrutinee of a hypothesis or of the goal. *)
Ltac case_in H :=
  match type of H with
  | context [match ?x with _ => _ end] => destruct x eqn:?; try discriminate H
  end.
