(* ===== verification/Bytes.v ===== *)
(** * Machine integers and byte buffers

    Unsigned and signed integers of a given width are [Z] with the range kept
    as a predicate; conversions ([as u8], [wrapping_add], two's complement) are
    written out.  Byte buffers are [list Z] with every element in [0, 256).
    Slicing and [copy_from_slice] are checked: out of range they panic, as the
    Rust operations do. *)

From S2P Require Import Prelude.

(** ** Fixed-width integers *)

Definition uint (w : Z) (z : Z) : Prop := 0 <= z < 2 ^ w.
Definition sint (w : Z) (z : Z) : Prop := - 2 ^ (w - 1) <= z < 2 ^ (w - 1).
Abbreviation u8 := (uint 8).
Abbreviation u16 := (uint 16).
Abbreviation u32 := (uint 32).
Abbreviation u64 := (uint 64).
Abbreviation i32 := (sint 32).
Abbreviation i64 := (sint 64).

Definition u16_MAX : Z := 65535.
Definition u32_MAX : Z := 4294967295.
Definition u64_MAX : Z := 18446744073709551615.

(** [x as uN] and the wrapping operations. *)
Definition wrap (w : Z) (z : Z) : Z := z mod 2 ^ w.

(** Reading the bits of an unsigned value as two's complement. *)
Definition to_signed (w : Z) (z : Z) : Z :=
  if z <? 2 ^ (w - 1) then z else z - 2 ^ w.

(** [u64::saturating_add(_, 1)] and [u64::checked_add]. *)
Definition saturating_add64 (a b : Z) : Z := Z.min (a + b) u64_MAX.
Definition checked_add64 (a b : Z) : option Z :=
  if a + b <=? u64_MAX then Some (a + b) else None.
Definition checked_sub (a b : Z) : option Z :=
  if b <=? a then Some (a - b) else None.
Definition checked_mul32 (a b : Z) : option Z :=
  if a * b <=? u32_MAX then Some (a * b) else None.
Definition checked_mul64 (a b : Z) : option Z :=
  if a * b <=? u64_MAX then Some (a * b) else None.

(** [NonZeroU32::new] and [NonZeroU64::new]: a nonzero integer is the integer. *)
Definition nonzero (z : Z) : option Z := if z =? 0 then None else Some z.

(** Subtraction and addition with overflow checks. *)
Definition sub_checked {E} (a b : Z) : outcome E Z := expect (checked_sub a b).

(** ** Byte buffers *)

Abbreviation bytes_ok := (Forall u8).
Definition blen (l : list Z) : Z := Z.of_nat (length l).

(** [&l[a..b]]. *)
Definition slice {E} (l : list Z) (a b : nat) : outcome E (list Z) :=
  if bool_decide (a <= b <= length l)%nat then Ok (take (b - a) (drop a l)) else Panic.

(** [l[i]]. *)
Definition index {E A} (l : list A) (i : nat) : outcome E A := expect (l !! i).

(** [l[off..off + d.len()].copy_from_slice(d)] as a total function, and with
    its range check. *)
Definition splice (l : list Z) (off : nat) (d : list Z) : list Z :=
  take off l ++ d ++ drop (off + length d) l.
Definition copy_at {E} (l : list Z) (off : nat) (d : list Z) : outcome E (list Z) :=
  if bool_decide (off + length d <= length l)%nat then Ok (splice l off d) else Panic.

(** [l[i] = v] (and [|=], with the old value given to [f]). *)
Definition update_at {E} (l : list Z) (i : nat) (f : Z -> Z) : outcome E (list Z) :=
  let? old := index l i in Ok (<[i := f old]> l).
Definition set_at {E} (l : list Z) (i : nat) (v : Z) : outcome E (list Z) :=
  update_at l i (fun _ => v).

(** ** Little-endian conversion: [to_le_bytes] and [from_le_bytes] *)

Fixpoint le_bytes (n : nat) (v : Z) : list Z :=
  match n with
  | O => []
  | S n' => v mod 256 :: le_bytes n' (v / 256)
  end.

Fixpoint of_le (l : list Z) : Z :=
  match l with
  | [] => 0
  | b :: l' => b + 256 * of_le l'
  end.

Definition get_le {E} (l : list Z) (off n : nat) : outcome E Z :=
  let? s := slice l off (off + n) in Ok (of_le s).

(** ** Lemmas: integers *)

Lemma wrap_range w z : 0 <= w -> uint w (wrap w z).
Proof. intros. apply Z.mod_pos_bound, Z.pow_pos_nonneg; lia. Qed.

Lemma wrap_id w z : uint w z -> wrap w z = z.
Proof. apply Z.mod_small. Qed.

Lemma to_signed_range w z : 0 < w -> uint w z -> sint w (to_signed w z).
Proof.
  unfold uint, sint, to_signed. intros Hw Hz.
  assert (2 ^ w = 2 * 2 ^ (w - 1)) as Hp
    by (rewrite <- Z.pow_succ_r by lia; f_equal; lia).
  destruct (z <? 2 ^ (w - 1)) eqn:E; breflect; lia.
Qed.

Lemma to_signed_wrap w z : 0 < w -> sint w z -> to_signed w (wrap w z) = z.
Proof.
  unfold sint, to_signed, wrap. intros Hw Hz.
  assert (2 ^ w = 2 * 2 ^ (w - 1)) as Hp
    by (rewrite <- Z.pow_succ_r by lia; f_equal; lia).
  assert (0 < 2 ^ (w - 1)) by (apply Z.pow_pos_nonneg; lia).
  destruct (decide (0 <= z)).
  - rewrite Z.mod_small by lia. destruct (z <? 2 ^ (w - 1)) eqn:E; breflect; lia.
  - replace (z mod 2 ^ w) with (z + 2 ^ w)
      by (apply (Z.mod_unique_pos z (2 ^ w) (-1)); lia).
    destruct (z + 2 ^ w <? 2 ^ (w - 1)) eqn:E; breflect; lia.
Qed.

Lemma wrap_to_signed w z : 0 < w -> uint w z -> wrap w (to_signed w z) = z.
Proof.
  unfold uint, to_signed, wrap. intros Hw Hz.
  destruct (z <? 2 ^ (w - 1)); [by apply Z.mod_small|].
  symmetry; apply (Z.mod_unique_pos _ (2 ^ w) (-1)); lia.
Qed.

Lemma nonzero_some z z' : nonzero z = Some z' <-> z' = z /\ z <> 0.
Proof. unfold nonzero. destruct (z =? 0) eqn:E; breflect; naive_solver. Qed.

Lemma nonzero_ne z : z <> 0 -> nonzero z = Some z.
Proof. intros. by apply nonzero_some. Qed.

(** ** Lemmas: buffers *)

Lemma length_splice l off d :
  (off + length d <= length l)%nat -> length (splice l off d) = length l.
Proof. intros. unfold splice. rewrite !length_app, length_take, length_drop. lia. Qed.

Lemma copy_at_ok {E} l off d :
  (off + length d <= length l)%nat -> copy_at (E:=E) l off d = Ok (splice l off d).
Proof. intros. unfold copy_at. by rewrite bool_decide_eq_true_2. Qed.

Lemma splice_lookup_in l off d i :
  (off + length d <= length l)%nat -> (off <= i < off + length d)%nat ->
  splice l off d !! i = d !! (i - off)%nat.
Proof.
  intros. unfold splice. rewrite lookup_app_r by (rewrite length_take; lia).
  rewrite length_take, lookup_app_l by lia. f_equal. lia.
Qed.

Lemma splice_lookup_out l off d i :
  (off + length d <= length l)%nat -> (i < off \/ off + length d <= i)%nat ->
  splice l off d !! i = l !! i.
Proof.
  intros Hl [Hi|Hi]; unfold splice.
  - rewrite lookup_app_l by (rewrite length_take; lia). apply lookup_take_lt; lia.
  - rewrite lookup_app_r by (rewrite length_take; lia).
    rewrite length_take, lookup_app_r by lia.
    rewrite lookup_drop. f_equal. lia.
Qed.

Lemma splice_bytes l off d : bytes_ok l -> bytes_ok d -> bytes_ok (splice l off d).
Proof.
  intros. unfold splice.
  by repeat apply Forall_app_2; [apply Forall_take| |apply Forall_drop].
Qed.

Lemma slice_ok {E} l a b :
  (a <= b <= length l)%nat -> slice (E:=E) l a b = Ok (take (b - a) (drop a l)).
Proof. intros. unfold slice. by rewrite bool_decide_eq_true_2. Qed.

Lemma slice_inv {E} l a b s :
  slice (E:=E) l a b = Ok s -> (a <= b <= length l)%nat /\ s = take (b - a) (drop a l).
Proof. unfold slice. case_bool_decide; naive_solver. Qed.

(** Reading back what was just written, and reading past a disjoint write. *)
Lemma slice_splice_same {E} l off d :
  (off + length d <= length l)%nat -> slice (E:=E) (splice l off d) off (off + length d) = Ok d.
Proof.
  intros. rewrite slice_ok by (rewrite length_splice; lia). f_equal.
  unfold splice. rewrite drop_app_length' by (rewrite length_take; lia).
  rewrite take_app_le by lia. apply take_ge. lia.
Qed.

Lemma take_drop_lookup {A} (l : list A) a n i :
  (i < n)%nat -> take n (drop a l) !! i = l !! (a + i)%nat.
Proof. intros. rewrite lookup_take_lt by lia. by rewrite lookup_drop. Qed.

Lemma take_drop_ext {A} (l k : list A) a n :
  (forall i, (a <= i < a + n)%nat -> l !! i = k !! i) ->
  take n (drop a l) = take n (drop a k).
Proof.
  intros H. apply list_eq. intros i. destruct (decide (i < n)%nat).
  - rewrite !take_drop_lookup by lia. apply H. lia.
  - by rewrite !lookup_take_ge by lia.
Qed.

Lemma drop_past {A} (l k : list A) n : n = length l -> drop n (l ++ k) = k.
Proof. intros ->. apply drop_app_length. Qed.

Lemma slice_splice_other {E} l off d a b :
  (off + length d <= length l)%nat -> (b <= off \/ off + length d <= a)%nat ->
  slice (E:=E) (splice l off d) a b = slice l a b.
Proof.
  intros Hl Ho. unfold slice. rewrite length_splice by done.
  case_bool_decide; [|done]. f_equal. apply take_drop_ext.
  intros i Hi. apply splice_lookup_out; lia.
Qed.

Lemma slice_bytes {E} l a b s : bytes_ok l -> slice (E:=E) l a b = Ok s -> bytes_ok s.
Proof. intros Hl [_ ->]%slice_inv. by apply Forall_take, Forall_drop. Qed.

(** Deciding that a concrete buffer holds bytes. *)
Definition bytes_okb (l : list Z) : bool := forallb (fun b => (0 <=? b) && (b <? 256)) l.

Lemma bytes_okb_ok l : bytes_okb l = true -> bytes_ok l.
Proof.
  induction l as [|b l IH]; simpl; [constructor|]. intros H.
  apply andb_true_iff in H as [Hb Hl]. constructor; [|auto].
  apply andb_true_iff in Hb as [? ?]. unfold uint. breflect. lia.
Qed.

(** ** Lemmas: little-endian *)

Lemma length_le_bytes n v : length (le_bytes n v) = n.
Proof. revert v. induction n; simpl; auto. Qed.

Lemma le_bytes_ok n v : bytes_ok (le_bytes n v).
Proof.
  revert v. induction n; intros; simpl; constructor; auto.
  unfold uint. apply Z.mod_pos_bound. lia.
Qed.

Lemma of_le_le_bytes n v : of_le (le_bytes n v) = v mod 256 ^ Z.of_nat n.
Proof.
  revert v. induction n as [|n IH]; intros v; simpl le_bytes.
  - simpl. symmetry. apply Z.mod_1_r.
  - cbn [of_le]. rewrite IH, Nat2Z.inj_succ, Z.pow_succ_r by lia.
    rewrite Z.rem_mul_r by lia. lia.
Qed.

Lemma of_le_range l : bytes_ok l -> 0 <= of_le l < 256 ^ Z.of_nat (length l).
Proof.
  induction 1 as [|b l Hb Hl IH]; cbn [of_le length]; [lia|].
  rewrite Nat2Z.inj_succ, Z.pow_succ_r by lia. unfold uint in Hb. lia.
Qed.

Lemma le_bytes_of_le l : bytes_ok l -> le_bytes (length l) (of_le l) = l.
Proof.
  induction 1 as [|b l Hb Hl IH]; [done|]. cbn [length le_bytes of_le].
  unfold uint in Hb. rewrite (Z.mul_comm 256). f_equal.
  - rewrite Z_mod_plus_full. apply Z.mod_small. lia.
  - rewrite Z_div_plus_full by lia. rewrite Z.div_small by lia. by rewrite Z.add_0_l.
Qed.

Lemma le_bytes_get l off n :
  bytes_ok l -> (off + n <= length l)%nat ->
  le_bytes n (of_le (take n (drop off l))) = take n (drop off l).
Proof.
  intros Hl Hn.
  rewrite <- (le_bytes_of_le (take n (drop off l))) at 2 by by apply Forall_take, Forall_drop.
  f_equal. rewrite length_take, length_drop. lia.
Qed.

Lemma get_le_ok {E} l off n :
  (off + n <= length l)%nat -> get_le (E:=E) l off n = Ok (of_le (take n (drop off l))).
Proof.
  intros. unfold get_le. rewrite slice_ok by lia. simpl. do 3 f_equal. lia.
Qed.

Lemma get_le_splice_same {E} l off n v :
  (off + n <= length l)%nat -> uint (8 * Z.of_nat n) v ->
  get_le (E:=E) (splice l off (le_bytes n v)) off n = Ok v.
Proof.
  intros Hl Hv. unfold get_le.
  rewrite <- (length_le_bytes n v) at 2.
  rewrite slice_splice_same by by rewrite length_le_bytes.
  simpl. rewrite of_le_le_bytes, Z.mod_small; [done|].
  unfold uint in Hv. by rewrite Z.pow_mul_r in Hv by lia.
Qed.

Lemma get_le_splice_other {E} l off d a n :
  (off + length d <= length l)%nat -> (a + n <= off \/ off + length d <= a)%nat ->
  get_le (E:=E) (splice l off d) a n = get_le l a n.
Proof. intros. unfold get_le. by rewrite slice_splice_other. Qed.

Lemma get_le_range {E} l off n v :
  bytes_ok l -> get_le (E:=E) l off n = Ok v -> uint (8 * Z.of_nat n) v.
Proof.
  unfold get_le. intros Hl H. ok_inv.
  match goal with Hs : slice _ _ _ = Ok _ |- _ =>
    pose proof (slice_bytes _ _ _ _ Hl Hs) as Hb; apply slice_inv in Hs as [? ->] end.
  subst. apply of_le_range in Hb. unfold uint.
  rewrite Z.pow_mul_r by lia. change (2 ^ 8) with 256.
  rewrite length_take, length_drop in Hb.
  by replace (Z.of_nat ((off + n - off) `min` (length l - off))) with (Z.of_nat n) in Hb by lia.
Qed.

(** ** Lemmas: buffers as concatenations of fields *)

Lemma get_le_here {E} n v rest :
  uint (8 * Z.of_nat n) v -> get_le (E:=E) (le_bytes n v ++ rest) 0 n = Ok v.
Proof.
  intros Hv. rewrite get_le_ok by (rewrite length_app, length_le_bytes; lia).
  rewrite drop_0, take_app_le, take_ge by (rewrite length_le_bytes; lia).
  rewrite of_le_le_bytes, Z.mod_small; [done|].
  unfold uint in Hv. by rewrite Z.pow_mul_r in Hv by lia.
Qed.

Lemma get_le_skip {E} (x y : list Z) off n :
  (length x <= off)%nat -> get_le (E:=E) (x ++ y) off n = get_le y (off - length x) n.
Proof.
  intros. unfold get_le, slice. rewrite length_app.
  replace (bool_decide (off <= off + n <= length x + length y)%nat)
    with (bool_decide (off - length x <= off - length x + n <= length y)%nat)
    by (apply bool_decide_ext; lia).
  case_bool_decide; [|done]. simpl. do 2 f_equal.
  replace (off + n - off)%nat with n by lia.
  replace (off - length x + n - (off - length x))%nat with n by lia.
  f_equal. rewrite drop_app_ge by lia. done.
Qed.

Lemma get_le_skip_field {E} k v (y : list Z) off n :
  (k <= off)%nat -> get_le (E:=E) (le_bytes k v ++ y) off n = get_le y (off - k) n.
Proof. intros. rewrite get_le_skip; by rewrite length_le_bytes. Qed.

Lemma get_le_last {E} n v :
  uint (8 * Z.of_nat n) v -> get_le (E:=E) (le_bytes n v) 0 n = Ok v.
Proof. intros. rewrite <- (app_nil_r (le_bytes n v)). by apply get_le_here. Qed.

(** The bytes a successful read saw. *)
Lemma get_le_chunk {E} l off n v :
  bytes_ok l -> get_le (E:=E) l off n = Ok v -> take n (drop off l) = le_bytes n v.
Proof.
  unfold get_le. intros Hl H. ok_inv.
  match goal with Hs : slice _ _ _ = Ok _ |- _ => apply slice_inv in Hs as [? ->] end.
  subst. replace (off + n - off)%nat with n by lia. symmetry. apply le_bytes_get; [done|lia].
Qed.

Lemma chunk_split {A} (l : list A) off n : drop off l = take n (drop off l) ++ drop (off + n) l.
Proof. by rewrite <- drop_drop, take_drop. Qed.

Lemma existsb_nonzero_false l : existsb (fun v => negb (v =? 0)) l = false <-> l = replicate (length l) 0.
Proof.
  induction l as [|a l IH]; [done|]. cbn [existsb length replicate].
  rewrite orb_false_iff, negb_false_iff, Z.eqb_eq, IH.
  split; [by intros [-> ->]; rewrite length_replicate|by intros [= -> ?]].
Qed.

(** Read a field of a concatenation of little-endian fields at a literal
    offset: skip the fields before it, then read it. *)
Ltac read_field :=
  first
    [ rewrite get_le_here by (unfold uint, sint in *; lia)
    | rewrite get_le_last by (unfold uint, sint in *; lia)
    | rewrite get_le_skip_field by lia; cbn [Nat.sub] ].
Ltac read_fields := repeat (read_field; cbn [obind]).
