(* ===== verification/CastkmsSys.v ===== *)
(** * castkms-sys: the CastKMS UAPI

    The constants and [#[repr(C)]] structures of crates/castkms-sys/src/lib.rs
    that the client uses.  Structures exchanged with an ioctl are records of
    [Z]; the event structures are given as field lists, from which the C
    layout ([size_of], field offsets) is computed. *)

From S2P Require Import Prelude Bytes.

Definition DRM_MODE_CONNECTED : Z := 1.
Definition DRM_MODE_DISCONNECTED : Z := 2.
Definition DRM_MODE_UNKNOWN_CONNECTION : Z := 3.
Definition DRM_MODE_CONNECTOR_VIRTUAL : Z := 15.

Definition CAPTURE_UAPI_MAJOR : Z := 0.
Definition CAPTURE_UAPI_MINOR : Z := 12.
Definition CAPTURE_MAX_DISPLAY_NAME_SIZE : nat := 79.

Definition CAPTURE_CAP_SYNCOBJ_TIMELINE : Z := Z.shiftl 1 0.
Definition CAPTURE_CAP_IMPLICIT_SYNC : Z := Z.shiftl 1 1.
Definition CAPTURE_CAP_GRANT_FD : Z := Z.shiftl 1 3.
Definition CAPTURE_CAP_GRANT_CONTROL_FD : Z := Z.shiftl 1 4.

Definition GRANT_CAPTURE_PIXELS : Z := Z.shiftl 1 0.
Definition GRANT_MANAGE_ATTACHMENT : Z := Z.shiftl 1 1.
Definition GRANT_UPDATE_EDID : Z := Z.shiftl 1 2.
Definition GRANT_READ_CURSOR : Z := Z.shiftl 1 3.
Definition GRANT_MANAGE_CEC : Z := Z.shiftl 1 4.
Definition GRANT_CAPTURE_AUDIO : Z := Z.shiftl 1 5.

Definition DISPLAY_V1_RIGHTS : Z :=
  Z.lor (Z.lor (Z.lor GRANT_CAPTURE_PIXELS GRANT_MANAGE_ATTACHMENT) GRANT_UPDATE_EDID)
        GRANT_READ_CURSOR.
Definition DISPLAY_CEC_V1_RIGHTS : Z := Z.lor DISPLAY_V1_RIGHTS GRANT_MANAGE_CEC.
Definition DISPLAY_CEC_AUDIO_V1_RIGHTS : Z := Z.lor DISPLAY_CEC_V1_RIGHTS GRANT_CAPTURE_AUDIO.

Definition AUDIO_FORMAT_S16_LE : Z := 1.
Definition AUDIO_TAP_RATE : Z := 48000.
Definition AUDIO_TAP_CHANNELS : Z := 2.
Definition AUDIO_TAP_FRAME_BYTES : Z := 4.

Definition GRANT_FLAG_ADMIN : Z := Z.shiftl 1 0.
Definition GRANT_FLAG_DELEGATED : Z := Z.shiftl 1 1.
Definition GRANT_FLAGS_MASK : Z := Z.lor GRANT_FLAG_ADMIN GRANT_FLAG_DELEGATED.

Definition GRANT_STATE_PENDING : Z := 0.
Definition GRANT_STATE_ACTIVE : Z := 1.
Definition GRANT_STATE_SUSPENDED_NO_MASTER : Z := 2.
Definition GRANT_STATE_SUSPENDED_OTHER_MASTER : Z := 3.
Definition GRANT_STATE_SUSPENDED_FOREIGN_CONTENT : Z := 4.
Definition GRANT_STATE_REVOKED : Z := 5.

Definition CAPTURE_EVENT_FRAME : Z := 0x80000000.
Definition CAPTURE_EVENT_GRANT_REVOKED : Z := 0x80000003.
Definition CAPTURE_EVENT_GRANT_STATE : Z := 0x80000004.

Definition CEC_UAPI_MAJOR : Z := 0.
Definition CEC_UAPI_MINOR : Z := 1.
Definition CEC_CAP_ASYNC_TX : Z := Z.shiftl 1 0.
Definition CEC_CAP_RX_INJECT : Z := Z.shiftl 1 1.
Definition CEC_CAP_TRANSPORT_STATE : Z := Z.shiftl 1 3.
Definition CEC_CAP_EDID_PHYS_ADDR : Z := Z.shiftl 1 4.
Definition CEC_TRANSPORT_ONLINE : Z := Z.shiftl 1 0.
Definition CEC_STATE_TRANSPORT_ONLINE : Z := Z.shiftl 1 0.
Definition CEC_STATE_MONITOR_ATTACHED : Z := Z.shiftl 1 1.
Definition CEC_STATE_ADAPTER_ENABLED : Z := Z.shiftl 1 2.
Definition CEC_STATE_MASK : Z :=
  Z.lor (Z.lor CEC_STATE_TRANSPORT_ONLINE CEC_STATE_MONITOR_ATTACHED) CEC_STATE_ADAPTER_ENABLED.
Definition CEC_EVENT_TX : Z := 0x80000001.
Definition CEC_TX_STATUS_OK : Z := Z.shiftl 1 0.
Definition CEC_TX_STATUS_NACK : Z := Z.shiftl 1 2.
Definition CEC_TX_STATUS_ERROR : Z := Z.shiftl 1 4.

Definition CAPTURE_FRAME_MODE_CHANGED : Z := Z.shiftl 1 1.
Definition CAPTURE_START_EXCLUSIVE : Z := Z.shiftl 1 0.
Definition CAPTURE_START_EXCLUDE_CURSOR : Z := Z.shiftl 1 1.
Definition CAPTURE_BUFFER_IMPLICIT_SYNC : Z := Z.shiftl 1 0.
Definition CAPTURE_BUFFER_EXPLICIT_SYNC : Z := Z.shiftl 1 1.
Definition CAPTURE_QUEUE_IMPLICIT_SYNC : Z := Z.shiftl 1 0.
Definition CAPTURE_QUEUE_EXPLICIT_SYNC : Z := Z.shiftl 1 1.

(** [u32::from_le_bytes] of the bytes of "XR24". *)
Definition DRM_FORMAT_XRGB8888 : Z := of_le [88; 82; 50; 52].
Definition DRM_FORMAT_MOD_LINEAR : Z := 0.

(** Linux error numbers the client distinguishes (asm-generic). *)
Definition ENOENT : Z := 2.
Definition EAGAIN : Z := 11.
Definition ENOLINK : Z := 67.
Definition ENOTCONN : Z := 107.
Definition ESTALE : Z := 116.

(** ** [#[repr(C)]] layout of the event structures *)

Inductive ctype :=
  | CU8 | CU16 | CU32 | CU64 | CI32 | CI64
  | CBytes (n : nat)            (* [u8; n] *)
  | CBase.                      (* an embedded DrmEvent: two u32 *)

Definition csize (t : ctype) : nat :=
  match t with
  | CU8 => 1 | CU16 => 2 | CU32 | CI32 => 4 | CU64 | CI64 => 8
  | CBytes n => n
  | CBase => 8
  end.

Definition calign (t : ctype) : nat :=
  match t with
  | CU8 | CBytes _ => 1 | CU16 => 2 | CU32 | CI32 | CBase => 4 | CU64 | CI64 => 8
  end.

Definition align_up (off a : nat) : nat := (((off + a - 1) / a) * a)%nat.

(** The offset of every field, then the unpadded end. *)
Fixpoint coffsets (off : nat) (fields : list ctype) : list nat * nat :=
  match fields with
  | [] => ([], off)
  | t :: rest =>
      let here := align_up off (calign t) in
      let '(offs, e) := coffsets (here + csize t) rest in
      (here :: offs, e)
  end.

Definition size_of (fields : list ctype) : nat :=
  align_up (coffsets 0 fields).2 (foldr Nat.max 1%nat (calign <$> fields)).

Definition DrmEvent : list ctype := [CU32; CU32].
Definition DrmEventCastkmsGrantRevoked : list ctype := [CBase; CU32; CI32; CU64].
Definition DrmEventCastkmsGrantState : list ctype := [CBase; CU32; CU32; CI32; CU32; CU64].
Definition DrmEventCastkmsCaptureFrame : list ctype :=
  [CBase; CU64; CU64; CI64; CU64; CU32; CU32; CI32; CU32; CU32; CI32; CI32; CU32; CU32;
   CU32; CU32; CI32; CI32; CU32; CU32; CU32; CU32; CU32].
Definition DrmEventCastkmsCecTx : list ctype :=
  [CBase; CU32; CU32; CU64; CU64; CU64; CU32; CU32; CU8; CU8; CBytes 16; CU16; CU32].

(** ** Ioctl argument structures *)

Record DrmCastkmsGetGrant := {
  gg_grant_id : Z; gg_connector_id : Z; gg_rights : Z; gg_state : Z;
  gg_flags : Z; gg_output_index : Z; gg_reserved : Z }.

Record DrmModeGetConnector := {
  gc_encoder_id : Z; gc_connector_id : Z; gc_connector_type : Z; gc_connector_type_id : Z;
  gc_connection : Z; gc_pad : Z }.

Record DrmCastkmsGetOutput := {
  go_connector_id : Z; go_flags : Z; go_output_index : Z; go_reserved : Z }.

Record DrmModeGetEncoder := { ge_encoder_id : Z; ge_crtc_id : Z }.

Record DrmModeModeInfo := {
  mi_hdisplay : Z; mi_vdisplay : Z; mi_vrefresh : Z; mi_flags : Z }.

Record DrmModeCrtc := { cr_crtc_id : Z; cr_mode_valid : Z; cr_mode : DrmModeModeInfo }.

Record DrmCastkmsOpenAudioTap := {
  at_connector_id : Z; at_flags : Z; at_fd : Z; at_fd_flags : Z; at_format : Z;
  at_rate : Z; at_channels : Z; at_frame_bytes : Z; at_buffer_frames : Z; at_reserved : Z }.

Record DrmCastkmsCecQueryCaps := {
  qc_connector_id : Z; qc_flags : Z; qc_uapi_major : Z; qc_uapi_minor : Z;
  qc_capabilities : Z; qc_max_msg_size : Z; qc_output_index : Z; qc_has_adapter : Z;
  qc_reserved : Z }.

Record DrmCastkmsCecBindTransport := {
  bt_connector_id : Z; bt_flags : Z; bt_transport_id : Z; bt_reserved : Z;
  bt_transport_generation : Z; bt_state_generation : Z; bt_output_index : Z;
  bt_state_flags : Z; bt_phys_addr : Z; bt_logical_addr_mask : Z; bt_pad0 : Z }.

Record DrmModeCreateDumb := {
  cd_height : Z; cd_width : Z; cd_bpp : Z; cd_flags : Z; cd_handle : Z; cd_pitch : Z;
  cd_size : Z }.

Record DrmModeFbCmd2 := {
  fb_fb_id : Z; fb_width : Z; fb_height : Z; fb_pixel_format : Z; fb_flags : Z;
  fb_handles : list Z; fb_pitches : list Z; fb_offsets : list Z; fb_modifier : list Z }.

Record DrmCastkmsCaptureFormat := { cf_format : Z; cf_flags : Z; cf_modifier : Z }.

Record DrmCastkmsCaptureQueryCaps := {
  qp_uapi_major : Z; qp_uapi_minor : Z; qp_crtc_id : Z; qp_format_count : Z;
  qp_flags : Z; qp_max_registered_buffers : Z; qp_reserved : Z }.

Record DrmCastkmsCaptureStart := {
  cs_crtc_id : Z; cs_flags : Z; cs_stream_id : Z; cs_reserved : Z; cs_mode_generation : Z }.

Record DrmCastkmsCaptureRegisterBuffer := {
  rb_stream_id : Z; rb_fb_id : Z; rb_ready_syncobj_handle : Z; rb_reuse_syncobj_handle : Z;
  rb_flags : Z; rb_buffer_id : Z; rb_mode_generation : Z }.
