(* ===== verification/Grant.v ===== *)
(** * Grants: ownership and validation (crates/pronk-core/src/grant.rs)

    A grant is a kernel capability for one connector.  [GrantLease] is the
    validated holder; it is built only by [from_compositor],
    [from_external_administrator] and [from_administrator], which check the
    metadata a provider reported against the request and against what the
    kernel says about the descriptor itself. *)

From S2P Require Import Prelude Bytes CastkmsSys.

(** ** Data *)

Inductive GrantProfile := DisplayV1 | DisplayCecV1 | DisplayCecAudioV1.

Global Instance GrantProfile_eq_dec : EqDecision GrantProfile.
Proof. solve_decision. Defined.

Definition profile_rights (p : GrantProfile) : Z :=
  match p with
  | DisplayV1 => DISPLAY_V1_RIGHTS
  | DisplayCecV1 => DISPLAY_CEC_V1_RIGHTS
  | DisplayCecAudioV1 => DISPLAY_CEC_AUDIO_V1_RIGHTS
  end.

Record GrantMetadata := {
  gm_grant_id : Z; gm_connector_id : Z; gm_output_index : Z; gm_rights : Z; gm_flags : Z;
  gm_initial_state : Z; gm_capture_uapi_major : Z; gm_capture_uapi_minor : Z }.

(** Descriptors are their numbers. *)
Inductive GrantLifetime :=
  | ExternalGrantor
  | Administrative (control : Z).

Record GrantLease := {
  gl_holder : Z; gl_lifetime : GrantLifetime; gl_metadata : GrantMetadata }.

Inductive GrantValidationError :=
  | InvalidMetadata (what : string)
  | HolderQuery (errno : Z)
  | InvalidHolder (what : string).

(** ** The descriptor queries

    [fcntl] and the grant ioctl belong to the kernel: a world answers them,
    each with a value or an error number. *)
Class FdQueries := {
  fcntl_getfd : Z -> outcome Z Z;
  fcntl_getfl : Z -> outcome Z Z;
  drm_ioctl_castkms_get_grant : Z -> outcome Z DrmCastkmsGetGrant }.

Definition FD_CLOEXEC : Z := 1.
Definition O_NONBLOCK : Z := 0x800.
Definition contains_flag (bits flag : Z) : bool := Z.land bits flag =? flag.

Definition is_live_grant_state (state : Z) : bool :=
  (state <=? GRANT_STATE_SUSPENDED_FOREIGN_CONTENT) && negb (state =? GRANT_STATE_REVOKED).

Definition validate_metadata (m : GrantMetadata)
    (expected_connector_id expected_rights expected_flags : Z)
    : outcome GrantValidationError unit :=
  try? reject (gm_grant_id m =? 0) (InvalidMetadata "zero grant ID");
  try? reject (negb (gm_connector_id m =? expected_connector_id)) (InvalidMetadata "connector ID");
  try? reject (negb (gm_rights m =? expected_rights)) (InvalidMetadata "rights");
  try? reject (negb (gm_flags m =? expected_flags)) (InvalidMetadata "grant flags");
  try? reject (negb (is_live_grant_state (gm_initial_state m)))
         (InvalidMetadata "initial grant state");
  reject (negb (gm_capture_uapi_major m =? CAPTURE_UAPI_MAJOR)
          || (gm_capture_uapi_minor m <? CAPTURE_UAPI_MINOR))
         (InvalidMetadata "capture UAPI version").

Section Validation.
Context `{W : FdQueries}.

Definition validate_control (control : Z) : outcome GrantValidationError unit :=
  let? descriptor_flags := omap_err HolderQuery (fcntl_getfd control) in
  reject (negb (contains_flag descriptor_flags FD_CLOEXEC)) (InvalidHolder "control FD_CLOEXEC").

Definition validate_holder (holder : Z) (m : GrantMetadata) : outcome GrantValidationError unit :=
  let? descriptor_flags := omap_err HolderQuery (fcntl_getfd holder) in
  try? reject (negb (contains_flag descriptor_flags FD_CLOEXEC)) (InvalidHolder "FD_CLOEXEC");
  let? status_flags := omap_err HolderQuery (fcntl_getfl holder) in
  try? reject (negb (contains_flag status_flags O_NONBLOCK)) (InvalidHolder "O_NONBLOCK");
  let? query := omap_err HolderQuery (drm_ioctl_castkms_get_grant holder) in
  try? reject (negb (gg_reserved query =? 0)) (InvalidHolder "reserved field");
  try? reject (negb (gg_grant_id query =? gm_grant_id m)
               || negb (gg_connector_id query =? gm_connector_id m)
               || negb (gg_output_index query =? gm_output_index m)
               || negb (gg_rights query =? gm_rights m)
               || negb (gg_flags query =? gm_flags m))
              (InvalidHolder "grant identity");
  reject (negb (is_live_grant_state (gg_state query))) (InvalidHolder "grant state").

Definition from_compositor (holder : Z) (m : GrantMetadata)
    (expected_connector_id expected_rights : Z) : outcome GrantValidationError GrantLease :=
  try? validate_metadata m expected_connector_id expected_rights 0;
  try? validate_holder holder m;
  Ok {| gl_holder := holder; gl_lifetime := ExternalGrantor; gl_metadata := m |}.

Definition from_external_administrator (holder : Z) (m : GrantMetadata)
    (expected_connector_id expected_rights : Z) : outcome GrantValidationError GrantLease :=
  try? validate_metadata m expected_connector_id expected_rights GRANT_FLAG_ADMIN;
  try? validate_holder holder m;
  Ok {| gl_holder := holder; gl_lifetime := ExternalGrantor; gl_metadata := m |}.

Definition from_administrator (holder control : Z) (m : GrantMetadata)
    (expected_connector_id expected_rights : Z) : outcome GrantValidationError GrantLease :=
  try? validate_metadata m expected_connector_id expected_rights GRANT_FLAG_ADMIN;
  try? reject (holder =? control) (InvalidHolder "administrative descriptor alias");
  try? validate_control control;
  try? validate_holder holder m;
  Ok {| gl_holder := holder; gl_lifetime := Administrative control; gl_metadata := m |}.

End Validation.

(** Accessors of [GrantLease]. *)
Definition lease_grant_id (l : GrantLease) : Z := gm_grant_id (gl_metadata l).
Definition lease_connector_id (l : GrantLease) : Z := gm_connector_id (gl_metadata l).
Definition lease_output_index (l : GrantLease) : Z := gm_output_index (gl_metadata l).
Definition lease_rights (l : GrantLease) : Z := gm_rights (gl_metadata l).
Definition lease_flags (l : GrantLease) : Z := gm_flags (gl_metadata l).
Definition lease_capture_uapi_major (l : GrantLease) : Z := gm_capture_uapi_major (gl_metadata l).
Definition lease_capture_uapi_minor (l : GrantLease) : Z := gm_capture_uapi_minor (gl_metadata l).

(** ** What a validated holder is *)

(** The reported metadata is what the request asked for. *)
Definition metadata_matches (m : GrantMetadata) (connector rights flags : Z) : Prop :=
  gm_grant_id m <> 0 /\ gm_connector_id m = connector /\ gm_rights m = rights /\
  gm_flags m = flags /\ gm_initial_state m <= GRANT_STATE_SUSPENDED_FOREIGN_CONTENT /\
  gm_capture_uapi_major m = CAPTURE_UAPI_MAJOR /\ CAPTURE_UAPI_MINOR <= gm_capture_uapi_minor m.

(** The kernel's own view of the descriptor agrees with the metadata. *)
Definition kernel_confirms `{FdQueries} (holder : Z) (m : GrantMetadata) : Prop :=
  exists fdflags flflags q,
    fcntl_getfd holder = Ok fdflags /\ contains_flag fdflags FD_CLOEXEC = true /\
    fcntl_getfl holder = Ok flflags /\ contains_flag flflags O_NONBLOCK = true /\
    drm_ioctl_castkms_get_grant holder = Ok q /\
    gg_reserved q = 0 /\ gg_grant_id q = gm_grant_id m /\
    gg_connector_id q = gm_connector_id m /\ gg_output_index q = gm_output_index m /\
    gg_rights q = gm_rights m /\ gg_flags q = gm_flags m /\
    gg_state q <= GRANT_STATE_SUSPENDED_FOREIGN_CONTENT.

Lemma is_live_grant_state_spec s :
  is_live_grant_state s = true <-> s <= GRANT_STATE_SUSPENDED_FOREIGN_CONTENT.
Proof.
  unfold is_live_grant_state, GRANT_STATE_SUSPENDED_FOREIGN_CONTENT, GRANT_STATE_REVOKED.
  rewrite andb_true_iff, negb_true_iff, Z.leb_le, Z.eqb_neq. lia.
Qed.

Lemma validate_metadata_ok m c r f u :
  validate_metadata m c r f = Ok u <-> metadata_matches m c r f.
Proof.
  unfold validate_metadata, metadata_matches. autorewrite with accept.
  rewrite is_live_grant_state_spec. tauto.
Qed.

Lemma validate_holder_ok `{FdQueries} holder m u :
  validate_holder holder m = Ok u <-> kernel_confirms holder m.
Proof.
  unfold validate_holder, kernel_confirms. autorewrite with accept. split.
  - intros (fdf & Hfd & Hk). autorewrite with accept in Hk.
    destruct Hk as (? & flf & ? & Hk). autorewrite with accept in Hk.
    destruct Hk as (? & q & ? & Hk). autorewrite with accept in Hk.
    rewrite is_live_grant_state_spec in Hk. destruct_and?. by exists fdf, flf, q.
  - intros (fdf & flf & q & ?). destruct_and?.
    exists fdf; split; [done|]. autorewrite with accept. split; [done|].
    exists flf; split; [done|]. autorewrite with accept. split; [done|].
    exists q; split; [done|]. autorewrite with accept.
    rewrite is_live_grant_state_spec. tauto.
Qed.

(** A lease is created from a compositor's reply exactly when the
    reported metadata is the requested one (connector, rights, no mode flags,
    supported UAPI) and the kernel confirms the descriptor carries that very
    grant, close-on-exec and nonblocking, in a live state; the lease then owns
    that descriptor and that metadata, and no control descriptor. *)
Lemma from_compositor_iff `{FdQueries} holder m connector rights l :
  from_compositor holder m connector rights = Ok l <->
  metadata_matches m connector rights 0 /\ kernel_confirms holder m /\
  l = {| gl_holder := holder; gl_lifetime := ExternalGrantor; gl_metadata := m |}.
Proof.
  unfold from_compositor. rewrite !seq_ok, validate_metadata_ok, validate_holder_ok.
  naive_solver.
Qed.

(** The one-shot helper's reply becomes a lease exactly when the reported
    metadata is the requested connector and rights with the administrative
    flag, the holder and control descriptors are distinct, the control
    descriptor is close-on-exec, and the kernel confirms the holder carries
    that very grant in a live state; the lease then keeps the control
    descriptor private.  No weaker reply is accepted. *)
Theorem from_administrator_iff `{FdQueries} holder control m connector rights l :
  from_administrator holder control m connector rights = Ok l <->
  metadata_matches m connector rights GRANT_FLAG_ADMIN /\ holder <> control /\
  (exists fdflags, fcntl_getfd control = Ok fdflags /\ contains_flag fdflags FD_CLOEXEC = true) /\
  kernel_confirms holder m /\
  l = {| gl_holder := holder; gl_lifetime := Administrative control; gl_metadata := m |}.
Proof.
  unfold from_administrator, validate_control.
  rewrite seq_ok, reject_seq_ok, !seq_ok, validate_metadata_ok, validate_holder_ok, query_seq_ok.
  setoid_rewrite reject_ok. setoid_rewrite negb_false_iff. rewrite Z.eqb_neq. naive_solver.
Qed.
