(* ===== verification/GrantHelperProtocol.v ===== *)
(** * One-shot grant-helper protocol
      (crates/pronk-core/src/grant_helper/protocol.rs)

    Fixed-layout little-endian datagrams: HELLO, CREATE_REQUEST and
    CREATE_RESULT, each behind a 32-byte header.  [encode] writes a message
    into a zeroed buffer field by field; [decode] checks the header and every
    reserved byte and reads the fields back.  Reads and writes are the checked
    buffer operations, so an offset outside the datagram would be [Panic]. *)

From S2P Require Import Prelude Bytes Grant.

(** ** Data *)

Definition MAGIC : list Z := [80; 82; 78; 75].   (* "PRNK" *)
Definition PROTOCOL_MAJOR : Z := 2.
Definition PROTOCOL_MINOR : Z := 0.
Definition HEADER_LENGTH : nat := 32.
Definition MAX_MESSAGE_LENGTH : nat := 128.
Definition HELLO_LENGTH : nat := 64.
Definition CREATE_REQUEST_LENGTH : nat := 64.
Definition CREATE_RESULT_LENGTH : nat := 80.

Inductive MessageType := MT_Hello | MT_CreateRequest | MT_CreateResult.

Inductive DiagnosticStage :=
  | DS_None | DS_Protocol | DS_Caller | DS_Device | DS_Connector | DS_CreateGrant
  | DS_VerifyGrant | DS_DropMaster | DS_SendResult.

Record BuildVersion := { bv_major : Z; bv_minor : Z; bv_patch : Z }.

Record Hello := {
  he_build : BuildVersion; he_pkexec_uid : Z; he_helper_pid : Z; he_parent_pid : Z;
  he_supported_profiles : Z; he_helper_features : Z }.

Record CreateRequest := {
  rq_expected_daemon_pid : Z; rq_device_major : Z; rq_device_minor : Z;
  rq_connector_id : Z; rq_profile : GrantProfile }.

Record CreateResult := {
  rs_status : Z; rs_diagnostic_stage : DiagnosticStage; rs_grant_id : Z;
  rs_connector_id : Z; rs_output_index : Z; rs_actual_rights : Z; rs_grant_flags : Z;
  rs_initial_grant_state : Z; rs_capture_uapi_major : Z; rs_capture_uapi_minor : Z;
  rs_helper_features : Z }.

Inductive Message :=
  | M_Hello (hello : Hello)
  | M_CreateRequest (request_id : Z) (request : CreateRequest)
  | M_CreateResult (request_id : Z) (result : CreateResult).

Inductive ProtocolError :=
  | HeaderTooShort | MessageTooLong | MisalignedLength | InvalidMagic
  | UnsupportedMajor (v : Z) | UnsupportedMinor (v : Z)
  | UnknownMessageType (v : Z) | InvalidHeaderLength (v : Z)
  | DeclaredLengthMismatch (declared actual : Z)
  | WrongMessageLength (t : MessageType) (expected actual : nat)
  | UnknownHeaderFlags (v : Z) | NonzeroReserved
  | HelloRequestIdNotZero | ZeroRequestId
  | UnknownGrantProfile (v : Z) | UnknownDiagnosticStage (v : Z)
  | PositiveResultStatus | FailureContainsGrantMetadata | SuccessContainsDiagnosticStage
  | WrongFileDescriptorCount (expected actual : nat).

Global Instance MessageType_eq_dec : EqDecision MessageType.
Proof. solve_decision. Defined.
Global Instance DiagnosticStage_eq_dec : EqDecision DiagnosticStage.
Proof. solve_decision. Defined.

(** ** Numeric values of the enumerations ([as u16]/[as u32]) and [TryFrom] *)

Definition MessageType_code (t : MessageType) : Z :=
  match t with MT_Hello => 1 | MT_CreateRequest => 2 | MT_CreateResult => 3 end.

Definition MessageType_try_from (v : Z) : outcome ProtocolError MessageType :=
  if v =? 1 then Ok MT_Hello
  else if v =? 2 then Ok MT_CreateRequest
  else if v =? 3 then Ok MT_CreateResult
  else Err (UnknownMessageType v).

Definition GrantProfile_code (p : GrantProfile) : Z :=
  match p with DisplayV1 => 1 | DisplayCecV1 => 2 | DisplayCecAudioV1 => 3 end.

Definition GrantProfile_try_from (v : Z) : outcome ProtocolError GrantProfile :=
  if v =? 1 then Ok DisplayV1
  else if v =? 2 then Ok DisplayCecV1
  else if v =? 3 then Ok DisplayCecAudioV1
  else Err (UnknownGrantProfile v).

Definition DiagnosticStage_code (s : DiagnosticStage) : Z :=
  match s with
  | DS_None => 0 | DS_Protocol => 1 | DS_Caller => 2 | DS_Device => 3 | DS_Connector => 4
  | DS_CreateGrant => 5 | DS_VerifyGrant => 6 | DS_DropMaster => 7 | DS_SendResult => 8
  end.

Definition DiagnosticStage_try_from (v : Z) : outcome ProtocolError DiagnosticStage :=
  if v =? 0 then Ok DS_None
  else if v =? 1 then Ok DS_Protocol
  else if v =? 2 then Ok DS_Caller
  else if v =? 3 then Ok DS_Device
  else if v =? 4 then Ok DS_Connector
  else if v =? 5 then Ok DS_CreateGrant
  else if v =? 6 then Ok DS_VerifyGrant
  else if v =? 7 then Ok DS_DropMaster
  else if v =? 8 then Ok DS_SendResult
  else Err (UnknownDiagnosticStage v).

(** ** Field access *)

Definition get_u16 (bytes : list Z) (off : nat) : outcome ProtocolError Z := get_le bytes off 2.
Definition get_u32 (bytes : list Z) (off : nat) : outcome ProtocolError Z := get_le bytes off 4.
Definition get_u64 (bytes : list Z) (off : nat) : outcome ProtocolError Z := get_le bytes off 8.
Definition get_i32 (bytes : list Z) (off : nat) : outcome ProtocolError Z :=
  let? v := get_le bytes off 4 in Ok (to_signed 32 v).

Definition put_u16 (bytes : list Z) (off : nat) (v : Z) : outcome ProtocolError (list Z) :=
  copy_at bytes off (le_bytes 2 v).
Definition put_u32 (bytes : list Z) (off : nat) (v : Z) : outcome ProtocolError (list Z) :=
  copy_at bytes off (le_bytes 4 v).
Definition put_u64 (bytes : list Z) (off : nat) (v : Z) : outcome ProtocolError (list Z) :=
  copy_at bytes off (le_bytes 8 v).
Definition put_i32 (bytes : list Z) (off : nat) (v : Z) : outcome ProtocolError (list Z) :=
  copy_at bytes off (le_bytes 4 (wrap 32 v)).

Definition require_nonzero_request_id (request_id : Z) : outcome ProtocolError unit :=
  reject (request_id =? 0) ZeroRequestId.

(** [bytes[a..b].iter().any(|value| *value != 0)]. *)
Definition any_nonzero (bytes : list Z) (a b : nat) : outcome ProtocolError bool :=
  let? s := slice bytes a b in Ok (existsb (fun v => negb (v =? 0)) s).

(** ** Bodies *)

Definition validate_create_result (r : CreateResult) : outcome ProtocolError unit :=
  try? reject (0 <? rs_status r) PositiveResultStatus;
  try? reject ((rs_status r =? 0) && negb (bool_decide (rs_diagnostic_stage r = DS_None)))
         SuccessContainsDiagnosticStage;
  reject ((rs_status r <? 0)
          && (negb (rs_grant_id r =? 0) || negb (rs_connector_id r =? 0)
              || negb (rs_output_index r =? 0) || negb (rs_actual_rights r =? 0)
              || negb (rs_grant_flags r =? 0) || negb (rs_initial_grant_state r =? 0)))
         FailureContainsGrantMetadata.

Definition encode_hello (bytes : list Z) (h : Hello) : outcome ProtocolError (list Z) :=
  let? b := put_u32 bytes 32 (bv_major (he_build h)) in
  let? b := put_u32 b 36 (bv_minor (he_build h)) in
  let? b := put_u32 b 40 (bv_patch (he_build h)) in
  let? b := put_u32 b 44 (he_pkexec_uid h) in
  let? b := put_u32 b 48 (he_helper_pid h) in
  let? b := put_u32 b 52 (he_parent_pid h) in
  let? b := put_u32 b 56 (he_supported_profiles h) in
  put_u32 b 60 (he_helper_features h).

Definition decode_hello (bytes : list Z) (request_id : Z) : outcome ProtocolError Message :=
  let? major := get_u32 bytes 32 in
  let? minor := get_u32 bytes 36 in
  let? patch := get_u32 bytes 40 in
  let? pkexec_uid := get_u32 bytes 44 in
  let? helper_pid := get_u32 bytes 48 in
  let? parent_pid := get_u32 bytes 52 in
  let? supported_profiles := get_u32 bytes 56 in
  let? helper_features := get_u32 bytes 60 in
  Ok (M_Hello {| he_build := {| bv_major := major; bv_minor := minor; bv_patch := patch |};
                 he_pkexec_uid := pkexec_uid; he_helper_pid := helper_pid;
                 he_parent_pid := parent_pid; he_supported_profiles := supported_profiles;
                 he_helper_features := helper_features |}).

Definition encode_create_request (bytes : list Z) (r : CreateRequest)
    : outcome ProtocolError (list Z) :=
  let? b := put_u32 bytes 32 (rq_expected_daemon_pid r) in
  let? b := put_u32 b 36 (rq_device_major r) in
  let? b := put_u32 b 40 (rq_device_minor r) in
  let? b := put_u32 b 44 (rq_connector_id r) in
  put_u16 b 48 (GrantProfile_code (rq_profile r)).

Definition decode_create_request (bytes : list Z) (request_id : Z)
    : outcome ProtocolError Message :=
  let? reserved := any_nonzero bytes 50 64 in
  try? reject reserved NonzeroReserved;
  let? expected_daemon_pid := get_u32 bytes 32 in
  let? device_major := get_u32 bytes 36 in
  let? device_minor := get_u32 bytes 40 in
  let? connector_id := get_u32 bytes 44 in
  let? raw_profile := get_u16 bytes 48 in
  let? profile := GrantProfile_try_from raw_profile in
  Ok (M_CreateRequest request_id
        {| rq_expected_daemon_pid := expected_daemon_pid; rq_device_major := device_major;
           rq_device_minor := device_minor; rq_connector_id := connector_id;
           rq_profile := profile |}).

Definition encode_create_result (bytes : list Z) (r : CreateResult)
    : outcome ProtocolError (list Z) :=
  try? validate_create_result r;
  let? b := put_i32 bytes 32 (rs_status r) in
  let? b := put_u32 b 36 (DiagnosticStage_code (rs_diagnostic_stage r)) in
  let? b := put_u32 b 40 (rs_grant_id r) in
  let? b := put_u32 b 44 (rs_connector_id r) in
  let? b := put_u32 b 48 (rs_output_index r) in
  let? b := put_u32 b 52 (rs_actual_rights r) in
  let? b := put_u32 b 56 (rs_grant_flags r) in
  let? b := put_u32 b 60 (rs_initial_grant_state r) in
  let? b := put_u16 b 64 (rs_capture_uapi_major r) in
  let? b := put_u16 b 66 (rs_capture_uapi_minor r) in
  put_u32 b 68 (rs_helper_features r).

Definition decode_create_result (bytes : list Z) (request_id : Z)
    : outcome ProtocolError Message :=
  let? reserved := any_nonzero bytes 72 80 in
  try? reject reserved NonzeroReserved;
  let? status := get_i32 bytes 32 in
  let? raw_stage := get_u32 bytes 36 in
  let? stage := DiagnosticStage_try_from raw_stage in
  let? grant_id := get_u32 bytes 40 in
  let? connector_id := get_u32 bytes 44 in
  let? output_index := get_u32 bytes 48 in
  let? actual_rights := get_u32 bytes 52 in
  let? grant_flags := get_u32 bytes 56 in
  let? initial_grant_state := get_u32 bytes 60 in
  let? capture_uapi_major := get_u16 bytes 64 in
  let? capture_uapi_minor := get_u16 bytes 66 in
  let? helper_features := get_u32 bytes 68 in
  let result := {| rs_status := status; rs_diagnostic_stage := stage; rs_grant_id := grant_id;
                   rs_connector_id := connector_id; rs_output_index := output_index;
                   rs_actual_rights := actual_rights; rs_grant_flags := grant_flags;
                   rs_initial_grant_state := initial_grant_state;
                   rs_capture_uapi_major := capture_uapi_major;
                   rs_capture_uapi_minor := capture_uapi_minor;
                   rs_helper_features := helper_features |} in
  try? validate_create_result result;
  Ok (M_CreateResult request_id result).

(** ** Whole messages *)

Definition expected_message_length (t : MessageType) : nat :=
  match t with
  | MT_Hello => HELLO_LENGTH
  | MT_CreateRequest => CREATE_REQUEST_LENGTH
  | MT_CreateResult => CREATE_RESULT_LENGTH
  end.

Record Header := { hd_message_type : MessageType; hd_request_id : Z }.

Definition decode_header (bytes : list Z) : outcome ProtocolError Header :=
  try? reject (bool_decide (length bytes < HEADER_LENGTH)%nat) HeaderTooShort;
  try? reject (bool_decide (MAX_MESSAGE_LENGTH < length bytes)%nat) MessageTooLong;
  try? reject (negb (bool_decide (length bytes mod 8 = 0)%nat)) MisalignedLength;
  let? magic := slice bytes 0 4 in
  try? reject (negb (bool_decide (magic = MAGIC))) InvalidMagic;
  let? major := get_u16 bytes 4 in
  try? reject (negb (major =? PROTOCOL_MAJOR)) (UnsupportedMajor major);
  let? minor := get_u16 bytes 6 in
  try? reject (negb (minor =? PROTOCOL_MINOR)) (UnsupportedMinor minor);
  let? raw_type := get_u16 bytes 8 in
  let? message_type := MessageType_try_from raw_type in
  let? header_length := get_u16 bytes 10 in
  try? reject (negb (header_length =? Z.of_nat HEADER_LENGTH)) (InvalidHeaderLength header_length);
  let? declared := get_u32 bytes 12 in
  try? reject (negb (declared =? blen bytes)) (DeclaredLengthMismatch declared (blen bytes));
  let expected := expected_message_length message_type in
  try? reject (negb (bool_decide (length bytes = expected)))
         (WrongMessageLength message_type expected (length bytes));
  let? flags := get_u32 bytes 24 in
  try? reject (negb (flags =? 0)) (UnknownHeaderFlags flags);
  let? reserved := get_u32 bytes 28 in
  try? reject (negb (reserved =? 0)) NonzeroReserved;
  let? request_id := get_u64 bytes 16 in
  try? match message_type with
       | MT_Hello => reject (negb (request_id =? 0)) HelloRequestIdNotZero
       | MT_CreateRequest | MT_CreateResult => reject (request_id =? 0) ZeroRequestId
       end;
  Ok {| hd_message_type := message_type; hd_request_id := request_id |}.

(** The message type, request identifier and length [encode] starts from. *)
Definition message_frame (m : Message) : outcome ProtocolError (MessageType * Z * nat) :=
  match m with
  | M_Hello _ => Ok (MT_Hello, 0, HELLO_LENGTH)
  | M_CreateRequest request_id _ =>
      try? require_nonzero_request_id request_id;
      Ok (MT_CreateRequest, request_id, CREATE_REQUEST_LENGTH)
  | M_CreateResult request_id _ =>
      try? require_nonzero_request_id request_id;
      Ok (MT_CreateResult, request_id, CREATE_RESULT_LENGTH)
  end.

Definition encode (m : Message) : outcome ProtocolError (list Z) :=
  let? frame := message_frame m in
  let '(message_type, request_id, total_length) := frame in
  let bytes := replicate total_length 0 in
  let? b := copy_at bytes 0 MAGIC in
  let? b := put_u16 b 4 PROTOCOL_MAJOR in
  let? b := put_u16 b 6 PROTOCOL_MINOR in
  let? b := put_u16 b 8 (MessageType_code message_type) in
  let? b := put_u16 b 10 (Z.of_nat HEADER_LENGTH) in
  let? b := put_u32 b 12 (Z.of_nat total_length) in
  let? b := put_u64 b 16 request_id in
  match m with
  | M_Hello hello => encode_hello b hello
  | M_CreateRequest _ request => encode_create_request b request
  | M_CreateResult _ result => encode_create_result b result
  end.

Definition decode (bytes : list Z) : outcome ProtocolError Message :=
  let? header := decode_header bytes in
  match hd_message_type header with
  | MT_Hello => decode_hello bytes (hd_request_id header)
  | MT_CreateRequest => decode_create_request bytes (hd_request_id header)
  | MT_CreateResult => decode_create_result bytes (hd_request_id header)
  end.

Definition validate_received_fd_count (m : Message) (count : nat) : outcome ProtocolError unit :=
  let expected := match m with
                  | M_CreateResult _ r => if rs_status r =? 0 then 2%nat else 0%nat
                  | _ => 0%nat
                  end in
  if bool_decide (count = expected) then Ok tt else Err (WrongFileDescriptorCount expected count).

(** ** Well-typed messages: every field in the range of its Rust type *)

Definition hello_typed (h : Hello) : Prop :=
  u32 (bv_major (he_build h)) /\ u32 (bv_minor (he_build h)) /\ u32 (bv_patch (he_build h)) /\
  u32 (he_pkexec_uid h) /\ u32 (he_helper_pid h) /\ u32 (he_parent_pid h) /\
  u32 (he_supported_profiles h) /\ u32 (he_helper_features h).

Definition request_typed (r : CreateRequest) : Prop :=
  u32 (rq_expected_daemon_pid r) /\ u32 (rq_device_major r) /\ u32 (rq_device_minor r) /\
  u32 (rq_connector_id r).

Definition result_typed (r : CreateResult) : Prop :=
  i32 (rs_status r) /\ u32 (rs_grant_id r) /\ u32 (rs_connector_id r) /\
  u32 (rs_output_index r) /\ u32 (rs_actual_rights r) /\ u32 (rs_grant_flags r) /\
  u32 (rs_initial_grant_state r) /\ u16 (rs_capture_uapi_major r) /\
  u16 (rs_capture_uapi_minor r) /\ u32 (rs_helper_features r).

Definition message_typed (m : Message) : Prop :=
  match m with
  | M_Hello h => hello_typed h
  | M_CreateRequest id r => u64 id /\ request_typed r
  | M_CreateResult id r => u64 id /\ result_typed r
  end.

(** The messages the protocol admits: request identifiers are nonzero and
    results pass [validate_create_result]. *)
Definition message_admissible (m : Message) : Prop :=
  match m with
  | M_Hello _ => True
  | M_CreateRequest id _ => id <> 0
  | M_CreateResult id r => id <> 0 /\ validate_create_result r = Ok tt
  end.

(** ** Wire layout: [encode] as a concatenation of little-endian fields *)

Definition header_layout (t : MessageType) (id : Z) (len : nat) : list Z :=
  MAGIC ++ le_bytes 2 PROTOCOL_MAJOR ++ le_bytes 2 PROTOCOL_MINOR ++
  le_bytes 2 (MessageType_code t) ++ le_bytes 2 (Z.of_nat HEADER_LENGTH) ++
  le_bytes 4 (Z.of_nat len) ++ le_bytes 8 id ++ le_bytes 4 0 ++ le_bytes 4 0.

Definition body_layout (m : Message) : list Z :=
  match m with
  | M_Hello h =>
      le_bytes 4 (bv_major (he_build h)) ++ le_bytes 4 (bv_minor (he_build h)) ++
      le_bytes 4 (bv_patch (he_build h)) ++ le_bytes 4 (he_pkexec_uid h) ++
      le_bytes 4 (he_helper_pid h) ++ le_bytes 4 (he_parent_pid h) ++
      le_bytes 4 (he_supported_profiles h) ++ le_bytes 4 (he_helper_features h)
  | M_CreateRequest _ r =>
      le_bytes 4 (rq_expected_daemon_pid r) ++ le_bytes 4 (rq_device_major r) ++
      le_bytes 4 (rq_device_minor r) ++ le_bytes 4 (rq_connector_id r) ++
      le_bytes 2 (GrantProfile_code (rq_profile r)) ++ replicate 14 0
  | M_CreateResult _ r =>
      le_bytes 4 (wrap 32 (rs_status r)) ++
      le_bytes 4 (DiagnosticStage_code (rs_diagnostic_stage r)) ++
      le_bytes 4 (rs_grant_id r) ++ le_bytes 4 (rs_connector_id r) ++
      le_bytes 4 (rs_output_index r) ++ le_bytes 4 (rs_actual_rights r) ++
      le_bytes 4 (rs_grant_flags r) ++ le_bytes 4 (rs_initial_grant_state r) ++
      le_bytes 2 (rs_capture_uapi_major r) ++ le_bytes 2 (rs_capture_uapi_minor r) ++
      le_bytes 4 (rs_helper_features r) ++ replicate 8 0
  end.

Definition frame_of (m : Message) : MessageType * Z * nat :=
  match m with
  | M_Hello _ => (MT_Hello, 0, HELLO_LENGTH)
  | M_CreateRequest id _ => (MT_CreateRequest, id, CREATE_REQUEST_LENGTH)
  | M_CreateResult id _ => (MT_CreateResult, id, CREATE_RESULT_LENGTH)
  end.

Definition wire (m : Message) : list Z :=
  let '(t, id, len) := frame_of m in header_layout t id len ++ body_layout m.

Lemma message_frame_ok m : message_admissible m -> message_frame m = Ok (frame_of m).
Proof.
  destruct m; simpl; [done| |intros [? _]; revert H]; intros Hid; unfold require_nonzero_request_id;
    by rewrite (proj2 (Z.eqb_neq _ _) Hid).
Qed.

Lemma encode_wire m : message_admissible m -> encode m = Ok (wire m).
Proof.
  intros Hm. unfold encode. rewrite message_frame_ok by done.
  destruct m as [h|id r|id r]; cbn [obind frame_of].
  - reflexivity.
  - reflexivity.
  - unfold encode_create_result. rewrite (proj2 Hm). reflexivity.
Qed.

Lemma encode_ok_admissible m b : encode m = Ok b -> message_admissible m.
Proof.
  unfold encode. intros H. apply obind_ok in H as ([[t i] n] & Hf & H).
  destruct m as [h|id r|id r]; simpl in Hf |- *; [done| |];
    apply seq_ok in Hf as [Hid _]; unfold require_nonzero_request_id in Hid;
    apply reject_ok, Z.eqb_neq in Hid; [done|split; [done|]].
  ok_inv. unfold encode_create_result in H. by apply seq_ok in H as [? _].
Qed.

(** ** Decoding what was encoded *)

Lemma header_layout_split t id len rest :
  u64 id -> (len <= 128)%nat ->
  let b := header_layout t id len ++ rest in
  slice (E:=ProtocolError) b 0 4 = Ok MAGIC /\
  get_u16 b 4 = Ok PROTOCOL_MAJOR /\ get_u16 b 6 = Ok PROTOCOL_MINOR /\
  get_u16 b 8 = Ok (MessageType_code t) /\ get_u16 b 10 = Ok (Z.of_nat HEADER_LENGTH) /\
  get_u32 b 12 = Ok (Z.of_nat len) /\ get_u64 b 16 = Ok id /\
  get_u32 b 24 = Ok 0 /\ get_u32 b 28 = Ok 0.
Proof.
  intros Hid Hlen b. subst b. unfold header_layout, get_u16, get_u32, get_u64.
  rewrite <- !app_assoc.
  assert (uint (8 * Z.of_nat 2) (MessageType_code t)) by (destruct t; done).
  split_and!; first reflexivity; unfold PROTOCOL_MAJOR, PROTOCOL_MINOR, HEADER_LENGTH;
    (rewrite get_le_skip by (cbn; lia); cbn [length MAGIC Nat.sub]); read_fields; done.
Qed.

Lemma MessageType_round t : MessageType_try_from (MessageType_code t) = Ok t.
Proof. by destruct t. Qed.
Lemma GrantProfile_round p : GrantProfile_try_from (GrantProfile_code p) = Ok p.
Proof. by destruct p. Qed.
Lemma DiagnosticStage_round s : DiagnosticStage_try_from (DiagnosticStage_code s) = Ok s.
Proof. by destruct s. Qed.

Lemma length_header_layout t id len : length (header_layout t id len) = 32%nat.
Proof. reflexivity. Qed.

Lemma decode_header_layout t id body :
  u64 id -> length body = (expected_message_length t - 32)%nat ->
  (match t with MT_Hello => id = 0 | _ => id <> 0 end) ->
  decode_header (header_layout t id (expected_message_length t) ++ body) =
  Ok {| hd_message_type := t; hd_request_id := id |}.
Proof.
  intros Hid Hb Ht. set (b := header_layout t id (expected_message_length t) ++ body).
  assert (length b = expected_message_length t) as Hlen
    by (subst b; rewrite length_app, length_header_layout, Hb; by destruct t).
  assert (expected_message_length t <= 128)%nat as Hle by (destruct t; by apply Nat.leb_le).
  destruct (header_layout_split t id _ body Hid Hle) as (Hm & H4 & H6 & H8 & H10 & H12 & H16 & H24 & H28).
  fold b in Hm, H4, H6, H8, H10, H12, H16, H24, H28.
  unfold decode_header, blen. rewrite Hlen, Hm, H4, H6, H8, H10, H12, H16, H24, H28.
  cbn [obind]. rewrite MessageType_round. cbn [obind].
  destruct t; cbn [expected_message_length] in *; simpl; [by subst id|..];
    by rewrite (proj2 (Z.eqb_neq _ _) Ht).
Qed.

Lemma any_nonzero_replicate pre n :
  any_nonzero (pre ++ replicate n 0) (length pre) (length pre + n) = Ok false.
Proof.
  unfold any_nonzero. rewrite slice_ok by (rewrite length_app, length_replicate; lia).
  simpl. f_equal. apply existsb_nonzero_false.
  rewrite drop_app_length, take_ge by (rewrite length_replicate; lia).
  by rewrite length_replicate.
Qed.

(** Reads of the body go past the header. *)
Lemma get_le_body t id len body off n :
  get_le (E:=ProtocolError) (header_layout t id len ++ body) (32 + off) n = get_le body off n.
Proof. rewrite get_le_skip by (rewrite length_header_layout; lia). f_equal. rewrite length_header_layout. lia. Qed.

Lemma decode_hello_layout id h : hello_typed h ->
  decode_hello (wire (M_Hello h)) id = Ok (M_Hello h).
Proof.
  intros Ht. unfold hello_typed in Ht. destruct_and!.
  unfold decode_hello, wire, get_u32, frame_of, body_layout.
  rewrite (get_le_body _ _ _ _ 0), (get_le_body _ _ _ _ 4), (get_le_body _ _ _ _ 8),
    (get_le_body _ _ _ _ 12), (get_le_body _ _ _ _ 16), (get_le_body _ _ _ _ 20),
    (get_le_body _ _ _ _ 24), (get_le_body _ _ _ _ 28).
  read_fields. 
  by destruct h as [[]].
Qed.

(** Reserved trailing zeros of a message of known length. *)
Lemma wire_trailing_zero m pre n :
  wire m = pre ++ replicate n 0 ->
  any_nonzero (wire m) (length pre) (length pre + n) = Ok false.
Proof. intros ->. apply any_nonzero_replicate. Qed.

Lemma decode_create_request_layout id r : request_typed r ->
  decode_create_request (wire (M_CreateRequest id r)) id = Ok (M_CreateRequest id r).
Proof.
  intros Ht. unfold request_typed in Ht. destruct_and!.
  unfold decode_create_request.
  rewrite (wire_trailing_zero _
    (header_layout MT_CreateRequest id CREATE_REQUEST_LENGTH ++
     le_bytes 4 (rq_expected_daemon_pid r) ++ le_bytes 4 (rq_device_major r) ++
     le_bytes 4 (rq_device_minor r) ++ le_bytes 4 (rq_connector_id r) ++
     le_bytes 2 (GrantProfile_code (rq_profile r))) 14)
    by (unfold wire, frame_of, body_layout; by rewrite <- !app_assoc).
  cbn [obind reject].
  unfold wire, get_u32, get_u16, frame_of, body_layout.
  rewrite (get_le_body _ _ _ _ 0), (get_le_body _ _ _ _ 4), (get_le_body _ _ _ _ 8),
    (get_le_body _ _ _ _ 12), (get_le_body _ _ _ _ 16).
  assert (uint (8 * Z.of_nat 2) (GrantProfile_code (rq_profile r))) by by destruct (rq_profile r).
  read_fields. rewrite GrantProfile_round. by destruct r.
Qed.

Lemma decode_create_result_layout id r :
  result_typed r -> validate_create_result r = Ok tt ->
  decode_create_result (wire (M_CreateResult id r)) id = Ok (M_CreateResult id r).
Proof.
  intros Ht Hv. unfold result_typed in Ht. destruct_and!.
  unfold decode_create_result.
  rewrite (wire_trailing_zero _
    (header_layout MT_CreateResult id CREATE_RESULT_LENGTH ++
     le_bytes 4 (wrap 32 (rs_status r)) ++
     le_bytes 4 (DiagnosticStage_code (rs_diagnostic_stage r)) ++
     le_bytes 4 (rs_grant_id r) ++ le_bytes 4 (rs_connector_id r) ++
     le_bytes 4 (rs_output_index r) ++ le_bytes 4 (rs_actual_rights r) ++
     le_bytes 4 (rs_grant_flags r) ++ le_bytes 4 (rs_initial_grant_state r) ++
     le_bytes 2 (rs_capture_uapi_major r) ++ le_bytes 2 (rs_capture_uapi_minor r) ++
     le_bytes 4 (rs_helper_features r)) 8)
    by (unfold wire, frame_of, body_layout; by rewrite <- !app_assoc).
  cbn [obind reject].
  unfold wire, get_u32, get_u16, get_i32, frame_of, body_layout.
  rewrite (get_le_body _ _ _ _ 0), (get_le_body _ _ _ _ 4), (get_le_body _ _ _ _ 8),
    (get_le_body _ _ _ _ 12), (get_le_body _ _ _ _ 16), (get_le_body _ _ _ _ 20),
    (get_le_body _ _ _ _ 24), (get_le_body _ _ _ _ 28), (get_le_body _ _ _ _ 32),
    (get_le_body _ _ _ _ 34), (get_le_body _ _ _ _ 36).
  assert (uint (8 * Z.of_nat 4) (DiagnosticStage_code (rs_diagnostic_stage r)))
    by by destruct (rs_diagnostic_stage r).
  assert (uint (8 * Z.of_nat 4) (wrap 32 (rs_status r))) by (apply wrap_range; lia).
  read_fields. rewrite DiagnosticStage_round. cbn [obind]. read_fields.
  rewrite to_signed_wrap by (done || lia). destruct r. simpl. by rewrite Hv.
Qed.

(** C30: every well-typed message the protocol admits survives the wire:
    [encode] succeeds with a datagram of the message's fixed length, and
    [decode] of that datagram is the message. *)
Theorem encode_decode_roundtrip m :
  message_typed m -> message_admissible m ->
  exists b, encode m = Ok b /\ length b = (frame_of m).2 /\ decode b = Ok m.
Proof.
  intros Ht Ha. exists (wire m). split; [by apply encode_wire|].
  split; [by destruct m|]. unfold decode.
  destruct m as [h|id r|id r]; simpl in Ht, Ha.
  - unfold wire at 1. cbn [frame_of].
    rewrite (decode_header_layout MT_Hello) by done. by apply decode_hello_layout.
  - unfold wire at 1. cbn [frame_of]. destruct Ht.
    rewrite (decode_header_layout MT_CreateRequest) by done. by apply decode_create_request_layout.
  - unfold wire at 1. cbn [frame_of]. destruct Ht, Ha.
    rewrite (decode_header_layout MT_CreateResult) by done. by apply decode_create_result_layout.
Qed.

(** ** Decoding is canonical *)

Ltac chunks Hb :=
  repeat match goal with
  | H : get_u16 _ _ = Ok _ |- _ => apply (get_le_chunk _ _ _ _ Hb) in H
  | H : get_u32 _ _ = Ok _ |- _ => apply (get_le_chunk _ _ _ _ Hb) in H
  | H : get_u64 _ _ = Ok _ |- _ => apply (get_le_chunk _ _ _ _ Hb) in H
  end.

Ltac split_chunk l off n := rewrite (chunk_split l off n); cbn [Nat.add].

Lemma MessageType_try_from_inv v t : MessageType_try_from v = Ok t -> v = MessageType_code t.
Proof. unfold MessageType_try_from. intros H. repeat case_in H; ok_inv; subst; by breflect. Qed.
Lemma GrantProfile_try_from_inv v t : GrantProfile_try_from v = Ok t -> v = GrantProfile_code t.
Proof. unfold GrantProfile_try_from. intros H. repeat case_in H; ok_inv; subst; by breflect. Qed.
Lemma DiagnosticStage_try_from_inv v t :
  DiagnosticStage_try_from v = Ok t -> v = DiagnosticStage_code t.
Proof. unfold DiagnosticStage_try_from. intros H. repeat case_in H; ok_inv; subst; by breflect. Qed.

Lemma decode_header_inv bytes h :
  bytes_ok bytes -> decode_header bytes = Ok h ->
  take 32 bytes = header_layout (hd_message_type h) (hd_request_id h)
                    (expected_message_length (hd_message_type h)) /\
  length bytes = expected_message_length (hd_message_type h) /\
  match hd_message_type h with MT_Hello => hd_request_id h = 0 | _ => hd_request_id h <> 0 end.
Proof.
  intros Hb H. unfold decode_header in H. ok_inv. subst h. cbn [hd_message_type hd_request_id].
  breflect. subst.
  match goal with H : slice _ _ _ = Ok _ |- _ => apply slice_inv in H as [? Hmagic] end.
  match goal with H : MessageType_try_from _ = Ok _ |- _ => apply MessageType_try_from_inv in H as -> end.
  chunks Hb. split_and!; [|done|].
  - rewrite <- (drop_0 bytes) at 1.
  split_chunk bytes 0%nat 4%nat.
  split_chunk bytes 4%nat 2%nat.
  split_chunk bytes 6%nat 2%nat.
  split_chunk bytes 8%nat 2%nat.
  split_chunk bytes 10%nat 2%nat.
  split_chunk bytes 12%nat 4%nat.
  split_chunk bytes 16%nat 8%nat.
  split_chunk bytes 24%nat 4%nat.
  split_chunk bytes 28%nat 4%nat.
    cbn [Nat.add Nat.sub] in Hmagic. rewrite <- Hmagic.
    repeat match goal with H : take _ (drop _ _) = _ |- _ => rewrite H; clear H end.
    unfold header_layout, blen. 
    match goal with H : length bytes = _ |- _ => rewrite H end. reflexivity.
  - match goal with H : (match ?t with _ => _ end) = Ok _ |- _ => destruct t end;
      ok_inv; breflect; done.
Qed.

Lemma decode_body_split bytes h :
  bytes_ok bytes -> decode_header bytes = Ok h ->
  bytes = header_layout (hd_message_type h) (hd_request_id h)
            (expected_message_length (hd_message_type h)) ++ drop 32 bytes.
Proof. intros Hb H. destruct (decode_header_inv _ _ Hb H) as [<- _]. by rewrite take_drop. Qed.

Lemma any_nonzero_false bytes a n :
  any_nonzero bytes a (a + n) = Ok false -> take n (drop a bytes) = replicate n 0.
Proof.
  unfold any_nonzero. intros H. ok_inv.
  match goal with H : slice _ _ _ = Ok _ |- _ => apply slice_inv in H as [? ->] end.
  apply existsb_nonzero_false in H. rewrite length_take, length_drop in H.
  replace (a + n - a)%nat with n in H by lia.
  by replace (n `min` (length bytes - a))%nat with n in H by lia.
Qed.

Lemma decode_hello_inv bytes id m :
  bytes_ok bytes -> length bytes = HELLO_LENGTH -> decode_hello bytes id = Ok m ->
  drop 32 bytes = body_layout m /\ exists h, m = M_Hello h.
Proof.
  intros Hb Hl H. unfold decode_hello in H. ok_inv. subst m. chunks Hb. split; [|by eexists].
  cbn [body_layout he_build bv_major bv_minor bv_patch he_pkexec_uid he_helper_pid he_parent_pid
       he_supported_profiles he_helper_features].
  split_chunk bytes 32%nat 4%nat.
  split_chunk bytes 36%nat 4%nat.
  split_chunk bytes 40%nat 4%nat.
  split_chunk bytes 44%nat 4%nat.
  split_chunk bytes 48%nat 4%nat.
  split_chunk bytes 52%nat 4%nat.
  split_chunk bytes 56%nat 4%nat.
  split_chunk bytes 60%nat 4%nat.
  repeat match goal with H : take _ (drop _ _) = _ |- _ => rewrite H; clear H end.
  rewrite (drop_ge bytes) by (rewrite Hl; unfold HELLO_LENGTH; lia). by rewrite app_nil_r.
Qed.

Lemma decode_create_request_inv bytes id m :
  bytes_ok bytes -> length bytes = CREATE_REQUEST_LENGTH ->
  decode_create_request bytes id = Ok m ->
  drop 32 bytes = body_layout m /\ exists r, m = M_CreateRequest id r.
Proof.
  intros Hb Hl H. unfold decode_create_request in H. ok_inv. subst m.
  match goal with H : any_nonzero _ _ _ = Ok ?r, E : ?r = false |- _ =>
    rewrite E in H; apply (any_nonzero_false _ 50 14) in H end.
  match goal with H : GrantProfile_try_from _ = Ok _ |- _ =>
    apply GrantProfile_try_from_inv in H as -> end.
  chunks Hb. split; [|by eexists].
  cbn [body_layout rq_expected_daemon_pid rq_device_major rq_device_minor rq_connector_id rq_profile].
  split_chunk bytes 32%nat 4%nat.
  split_chunk bytes 36%nat 4%nat.
  split_chunk bytes 40%nat 4%nat.
  split_chunk bytes 44%nat 4%nat.
  split_chunk bytes 48%nat 2%nat.
  split_chunk bytes 50%nat 14%nat.
  repeat match goal with H : take _ (drop _ _) = _ |- _ => rewrite H; clear H end.
  rewrite (drop_ge bytes) by (rewrite Hl; unfold CREATE_REQUEST_LENGTH; lia). by rewrite app_nil_r.
Qed.

Lemma decode_create_result_inv bytes id m :
  bytes_ok bytes -> length bytes = CREATE_RESULT_LENGTH ->
  decode_create_result bytes id = Ok m ->
  drop 32 bytes = body_layout m /\
  exists r, m = M_CreateResult id r /\ validate_create_result r = Ok tt.
Proof.
  intros Hb Hl H. unfold decode_create_result in H. ok_inv. subst m.
  match goal with H : any_nonzero _ _ _ = Ok ?r, E : ?r = false |- _ =>
    rewrite E in H; apply (any_nonzero_false _ 72 8) in H end.
  match goal with H : DiagnosticStage_try_from _ = Ok _ |- _ =>
    apply DiagnosticStage_try_from_inv in H as -> end.
  match goal with H : validate_create_result _ = Ok ?u |- _ => destruct u; rename H into Hv end.
  match goal with H : get_i32 _ _ = Ok _ |- _ => unfold get_i32 in H; ok_inv end.
  match goal with H : get_le _ 32 4 = Ok _ |- _ =>
    pose proof (get_le_range _ _ _ _ Hb H) as Hr; apply (get_le_chunk _ _ _ _ Hb) in H end.
  chunks Hb. split; [|eexists; split; [done|exact Hv]].
  cbn [body_layout rs_status rs_diagnostic_stage rs_grant_id rs_connector_id rs_output_index
       rs_actual_rights rs_grant_flags rs_initial_grant_state rs_capture_uapi_major
       rs_capture_uapi_minor rs_helper_features].
  subst. rewrite wrap_to_signed by (done || lia).
  split_chunk bytes 32%nat 4%nat.
  split_chunk bytes 36%nat 4%nat.
  split_chunk bytes 40%nat 4%nat.
  split_chunk bytes 44%nat 4%nat.
  split_chunk bytes 48%nat 4%nat.
  split_chunk bytes 52%nat 4%nat.
  split_chunk bytes 56%nat 4%nat.
  split_chunk bytes 60%nat 4%nat.
  split_chunk bytes 64%nat 2%nat.
  split_chunk bytes 66%nat 2%nat.
  split_chunk bytes 68%nat 4%nat.
  split_chunk bytes 72%nat 8%nat.
  repeat match goal with H : take _ (drop _ _) = _ |- _ => rewrite H; clear H end.
  rewrite (drop_ge bytes) by (rewrite Hl; unfold CREATE_RESULT_LENGTH; lia). by rewrite app_nil_r.
Qed.

(** The decoder accepts only canonical datagrams: whatever byte string it
    accepts is exactly what [encode] produces for the decoded message, so no
    two datagrams mean the same message and no byte (reserved ones included)
    is ignored. *)
Theorem decode_canonical bytes m :
  bytes_ok bytes -> decode bytes = Ok m -> encode m = Ok bytes.
Proof.
  intros Hb H. unfold decode in H. apply obind_ok in H as (h & Hh & H).
  destruct (decode_header_inv _ _ Hb Hh) as (_ & Hlen & Hid).
  rewrite (decode_body_split _ _ Hb Hh).
  destruct (hd_message_type h); cbn [expected_message_length] in *.
  - destruct (decode_hello_inv _ _ _ Hb Hlen H) as [-> [r ->]].
    rewrite encode_wire by done. by rewrite Hid.
  - destruct (decode_create_request_inv _ _ _ Hb Hlen H) as [-> [r ->]].
    by rewrite encode_wire.
  - destruct (decode_create_result_inv _ _ _ Hb Hlen H) as (-> & r & -> & ?).
    by rewrite encode_wire.
Qed.

(** ** Safety *)

Ltac safe_read :=
  repeat match goal with
  | |- safe (obind (reject _ _) _) _ => apply safe_reject_seq; intros ?
  | |- safe (obind (obind (Ok _) _) _) _ => cbn [obind]
  | |- safe (obind (Ok _) _) _ => cbn [obind]
  | |- safe (obind (get_le _ _ _) _) _ => rewrite get_le_ok by lia
  | |- safe (obind (slice _ _ _) _) _ => rewrite slice_ok by lia
  | |- safe (Ok _) _ => exact I
  | |- safe (let _ := _ in _) _ => cbv zeta
  | |- safe (obind (obind (slice _ _ _) _) _) _ => rewrite slice_ok by lia
  | |- safe (obind (obind (get_le _ _ _) _) _) _ => rewrite get_le_ok by lia
  end.

Lemma try_from_safe :
  (forall v, safe (MessageType_try_from v) (fun _ => True)) /\
  (forall v, safe (GrantProfile_try_from v) (fun _ => True)) /\
  (forall v, safe (DiagnosticStage_try_from v) (fun _ => True)).
Proof.
  unfold MessageType_try_from, GrantProfile_try_from, DiagnosticStage_try_from.
  split_and!; intros v; repeat case_match; done.
Qed.

Lemma decode_header_safe bytes :
  safe (decode_header bytes) (fun h => length bytes = expected_message_length (hd_message_type h)).
Proof.
  unfold decode_header, get_u16, get_u32, get_u64.
  apply safe_reject_seq; intros Hshort. breflect. unfold HEADER_LENGTH in Hshort.
  safe_read. eapply safe_bind; [apply try_from_safe|intros t ?]. safe_read.
  breflect. destruct t; safe_read; done.
Qed.

(** Decoding never panics, whatever the datagram: every offset the body
    readers use lies inside the length the header check established. *)
Theorem decode_never_panics bytes : decode bytes <> Panic.
Proof.
  apply (safe_no_panic _ (fun _ => True)). unfold decode.
  eapply safe_bind; [apply decode_header_safe|]. intros h.
  unfold decode_hello, decode_create_request, decode_create_result, any_nonzero,
    get_u16, get_u32, get_i32.
  destruct (hd_message_type h); intros Hlen; cbv [expected_message_length HELLO_LENGTH CREATE_REQUEST_LENGTH
    CREATE_RESULT_LENGTH] in Hlen; safe_read.
  - eapply safe_bind; [apply try_from_safe|intros t ?]. done.
  - eapply safe_bind; [apply try_from_safe|intros t ?]. safe_read.
    eapply safe_bind; [|done]. unfold validate_create_result. safe_read.
    eapply safe_weaken; [apply safe_reject|done].
Qed.

(** ** Concrete instances *)

Definition sample_failure : Message :=
  M_CreateResult 7
    {| rs_status := -13; rs_diagnostic_stage := DS_Caller; rs_grant_id := 0;
       rs_connector_id := 0; rs_output_index := 0; rs_actual_rights := 0; rs_grant_flags := 0;
       rs_initial_grant_state := 0; rs_capture_uapi_major := 0; rs_capture_uapi_minor := 12;
       rs_helper_features := 1 |}.

Lemma encode_decode_roundtrip_witness :
  exists b, encode sample_failure = Ok b /\ length b = 80%nat /\ decode b = Ok sample_failure.
Proof.
  apply (encode_decode_roundtrip sample_failure).
  - cbn. unfold result_typed, uint, sint. cbn [rs_status rs_grant_id rs_connector_id rs_output_index
      rs_actual_rights rs_grant_flags rs_initial_grant_state rs_capture_uapi_major
      rs_capture_uapi_minor rs_helper_features]. lia.
  - split; [done|reflexivity].
Defined.

Lemma decode_canonical_witness : encode sample_failure = Ok (wire sample_failure).
Proof.
  apply (decode_canonical (wire sample_failure) sample_failure).
  - apply bytes_okb_ok. vm_compute. reflexivity.
  - vm_compute. reflexivity.
Defined.
