(* ===== verification/Text.v ===== *)
(** * Rust strings

    A [str] is its sequence of Unicode scalar values; [utf8] is the byte
    string Rust stores.  Lengths and limits in the program are byte lengths of
    the encoding.  [is_control] and [is_whitespace] are the Unicode classes
    the standard library uses (general category Cc, property White_Space). *)

From stdpp Require Import pretty.
From S2P Require Import Prelude Bytes.

(** ** Characters *)

Definition scalar (c : Z) : Prop := 0 <= c < 0xD800 \/ 0xE000 <= c < 0x110000.

Definition utf8_char (c : Z) : list Z :=
  if c <? 0x80 then [c]
  else if c <? 0x800 then [0xC0 + c / 64; 0x80 + c mod 64]
  else if c <? 0x10000 then [0xE0 + c / 4096; 0x80 + (c / 64) mod 64; 0x80 + c mod 64]
  else [0xF0 + c / 262144; 0x80 + (c / 4096) mod 64; 0x80 + (c / 64) mod 64; 0x80 + c mod 64].

Definition utf8 (s : list Z) : list Z := concat (utf8_char <$> s).

(** [str::len]. *)
Definition str_len (s : list Z) : nat := length (utf8 s).

(** [char::is_control], [char::is_whitespace]. *)
Definition is_control (c : Z) : bool :=
  ((0 <=? c) && (c <=? 0x1F)) || ((0x7F <=? c) && (c <=? 0x9F)).

Definition is_whitespace (c : Z) : bool :=
  ((9 <=? c) && (c <=? 13)) || (c =? 0x20) || (c =? 0x85) || (c =? 0xA0) || (c =? 0x1680)
  || ((0x2000 <=? c) && (c <=? 0x200A)) || (c =? 0x2028) || (c =? 0x2029) || (c =? 0x202F)
  || (c =? 0x205F) || (c =? 0x3000).

(** [str::trim]. *)
Fixpoint trim_start (s : list Z) : list Z :=
  match s with
  | c :: s' => if is_whitespace c then trim_start s' else s
  | [] => []
  end.
Definition trim (s : list Z) : list Z := reverse (trim_start (reverse (trim_start s))).

(** [str::lines]: split at newlines, without the line terminator. *)
Fixpoint lines_from (line : list Z) (s : list Z) : list (list Z) :=
  match s with
  | [] => if bool_decide (line = []) then [] else [reverse line]
  | c :: s' =>
      if c =? 10
      then reverse (match line with 13 :: line' => line' | _ => line end) :: lines_from [] s'
      else lines_from (c :: line) s'
  end.

(** The scalar values of a literal. *)
Definition codes (s : string) : list Z :=
  (fun a => Z.of_nat (Ascii.nat_of_ascii a)) <$> String.list_ascii_of_string s.

Lemma codes_scalar s : Forall scalar (codes s).
Proof.
  unfold codes. apply Forall_fmap, Forall_true. intros a. left.
  pose proof (Ascii.nat_ascii_bounded a). simpl. lia.
Qed.

(** ** Character boundaries *)

(** [str::is_char_boundary] on the bytes of a string: the ends, and the
    positions of bytes that are not continuation bytes. *)
Definition is_char_boundary (l : list Z) (i : nat) : bool :=
  match i with
  | O => true
  | _ => match l !! i with
         | None => bool_decide (i = length l)
         | Some b => (b <? 128) || (192 <=? b)
         end
  end.

(** [while !s.is_char_boundary(end) { end -= 1; }]. *)
Fixpoint floor_char_boundary {E} (l : list Z) (e : nat) : outcome E nat :=
  if is_char_boundary l e then Ok e
  else match e with
       | O => Panic
       | S e' => floor_char_boundary l e'
       end.

(** ** The loop finds the longest prefix of whole characters *)

Lemma floor_char_boundary_spec {E} l e :
  oks (floor_char_boundary (E:=E) l e)
    (fun m => (m <= e)%nat /\ is_char_boundary l m = true /\
              forall j, (m < j <= e)%nat -> is_char_boundary l j = false).
Proof.
  induction e as [|e IH]; cbn [floor_char_boundary].
  - simpl. split_and!; [lia|done|lia].
  - destruct (is_char_boundary l (S e)) eqn:Hb.
    + simpl. split_and!; [lia|done|lia].
    + eapply oks_weaken; [exact IH|]. intros m (? & ? & Hj). split_and!; [lia|done|].
      intros j Hjr. destruct (decide (j = S e)) as [->|]; [done|]. apply Hj. lia.
Qed.

Lemma utf8_char_lead c : scalar c ->
  exists b rest, utf8_char c = b :: rest /\ (b < 128 \/ 192 <= b) /\
                 Forall (fun x => 128 <= x < 192) rest.
Proof.
  intros Hc. unfold scalar in Hc. unfold utf8_char.
  assert (forall x, 128 <= 128 + x mod 64 < 192) as Hcont
    by (intros x; pose proof (Z.mod_pos_bound x 64); lia).
  assert (0 <= c) by lia. pose proof (Z.div_pos c 64). pose proof (Z.div_pos c 4096).
  pose proof (Z.div_pos c 262144).
  repeat case_match; breflect; do 2 eexists; split_and!; try reflexivity;
    repeat constructor; try apply Hcont; lia.
Qed.

Lemma utf8_cons c s : utf8 (c :: s) = utf8_char c ++ utf8 s.
Proof. done. Qed.

(** Boundaries are exactly the lengths of whole-character prefixes. *)
Lemma utf8_boundary_prefix s i :
  Forall scalar s -> (i <= length (utf8 s))%nat -> is_char_boundary (utf8 s) i = true ->
  exists k, (k <= length s)%nat /\ i = length (utf8 (take k s)).
Proof.
  intros Hs. revert i. induction Hs as [|c s Hc Hs IH]; intros i Hi Hb.
  - exists O. simpl in *. lia.
  - destruct i as [|i]; [exists O; simpl; lia|].
    rewrite utf8_cons in Hi, Hb. rewrite length_app in Hi.
    destruct (utf8_char_lead c Hc) as (b & rest & Hu & _ & Hrest).
    destruct (decide (S i < length (utf8_char c))%nat) as [Hlt|Hge].
    + exfalso. unfold is_char_boundary in Hb. rewrite lookup_app_l in Hb by done.
      rewrite Hu in Hb, Hlt. simpl in Hb, Hlt.
      destruct (lookup_lt_is_Some_2 rest i) as [x Hx]; [lia|].
      rewrite Hx in Hb. eapply Forall_lookup_1 in Hrest; [|exact Hx].
      apply orb_true_iff in Hb as [Hb|Hb]; breflect; lia.
    + destruct (IH (S i - length (utf8_char c))%nat) as (k & Hk & Hik); [lia| |].
      * unfold is_char_boundary in Hb |- *. rewrite lookup_app_r in Hb by lia.
        destruct (S i - length (utf8_char c))%nat eqn:Hd; [done|].
        case_match; [done|]. breflect. rewrite length_app in Hb.
        apply bool_decide_eq_true. lia.
      * exists (S k). split; [simpl; lia|]. cbn [take]. rewrite utf8_cons, length_app. lia.
Qed.

Lemma utf8_prefix_boundary s k :
  Forall scalar s -> is_char_boundary (utf8 s) (length (utf8 (take k s))) = true.
Proof.
  intros Hs. revert k. induction Hs as [|c s Hc Hs IH]; intros k.
  - by destruct k.
  - destruct k as [|k]; [done|]. cbn [take]. rewrite !utf8_cons, length_app.
    specialize (IH k). destruct (utf8_char_lead c Hc) as (b & rest & Hu & _).
    unfold is_char_boundary in *. 
    destruct (length (utf8_char c) + length (utf8 (take k s)))%nat eqn:Hn;
      [rewrite Hu in Hn; simpl in Hn; lia|]. rewrite <- Hn.
    rewrite lookup_app_r by lia.
    replace (length (utf8_char c) + length (utf8 (take k s)) - length (utf8_char c))%nat
      with (length (utf8 (take k s))) by lia.
    destruct (length (utf8 (take k s))) eqn:Hk.
    + destruct s as [|c' s']; simpl.
      * apply bool_decide_eq_true. rewrite app_nil_r. lia.
      * inversion Hs; subst. destruct (utf8_char_lead c') as (b' & r' & Hu' & Hb' & _); [done|].
        rewrite utf8_cons, Hu'. simpl. apply orb_true_iff.
        destruct Hb'; [left; by apply Z.ltb_lt|right; by apply Z.leb_le].
    + case_match; [done|]. breflect. apply bool_decide_eq_true. rewrite length_app. lia.
Qed.

Lemma utf8_take_prefix s k : utf8 (take k s) = take (length (utf8 (take k s))) (utf8 s).
Proof.
  rewrite <- (take_drop k s) at 3. unfold utf8 at 3. rewrite fmap_app, concat_app.
  by rewrite take_app_length.
Qed.

(** The truncation loop keeps the longest prefix of whole characters that fits. *)
Lemma floor_char_boundary_utf8 {E} s n :
  Forall scalar s -> (n <= length (utf8 s))%nat ->
  exists k, floor_char_boundary (E:=E) (utf8 s) n = Ok (length (utf8 (take k s))) /\
    (k <= length s)%nat /\ (length (utf8 (take k s)) <= n)%nat /\
    (forall k', (k' <= length s)%nat -> (length (utf8 (take k' s)) <= n)%nat ->
                (length (utf8 (take k' s)) <= length (utf8 (take k s)))%nat).
Proof.
  intros Hs Hn. pose proof (floor_char_boundary_spec (E:=E) (utf8 s) n) as H.
  apply oks_ok in H as (m & -> & Hm & Hb & Hmax).
  destruct (utf8_boundary_prefix s m) as (k & Hk & ->); [done|lia|done|].
  exists k. split_and!; [done|done|done|]. intros k' _ Hk'n.
  apply Nat.nlt_ge. intros Hlt. specialize (Hmax (length (utf8 (take k' s)))).
  rewrite utf8_prefix_boundary in Hmax by done. discriminate Hmax. lia.
Qed.

(** ** Bounded text

    The same loop on a [String] given by its bytes.  Position 0 is a boundary,
    so the loop ends there at the latest. *)
Fixpoint floor_boundary (l : list Z) (e : nat) : nat :=
  match e with
  | O => O
  | S e' => if is_char_boundary l e then e else floor_boundary l e'
  end.

Lemma floor_boundary_ok {E} l e : floor_char_boundary (E:=E) l e = Ok (floor_boundary l e).
Proof. induction e as [|e IH]; [done|]. cbn [floor_char_boundary floor_boundary]. by case_match. Qed.

Lemma floor_boundary_le l e : (floor_boundary l e <= e)%nat.
Proof. induction e; simpl; [lia|]. case_match; lia. Qed.

(** [bounded_text]: at most [maximum] bytes of [value]. *)
Definition bounded_text (value : list Z) (maximum : nat) : list Z :=
  if (length value <=? maximum)%nat then value else take (floor_boundary value maximum) value.

Lemma bounded_text_le value maximum : (length (bounded_text value maximum) <= maximum)%nat.
Proof.
  unfold bounded_text. destruct (Nat.leb_spec (length value) maximum); [done|].
  rewrite length_take. pose proof (floor_boundary_le value maximum). lia.
Qed.

(** What is kept of a well-formed text is a well-formed prefix of it. *)
Lemma bounded_text_utf8 s maximum :
  Forall scalar s -> exists k, bounded_text (utf8 s) maximum = utf8 (take k s).
Proof.
  intros Hs. unfold bounded_text. destruct (Nat.leb_spec (length (utf8 s)) maximum).
  - exists (length s). by rewrite take_ge.
  - destruct (floor_char_boundary_utf8 (E:=unit) s maximum) as (k & Hk & _); [done|lia|].
    rewrite floor_boundary_ok in Hk. injection Hk as ->. exists k. by rewrite <- utf8_take_prefix.
Qed.

(** The same on the characters: the longest prefix that fits. *)
Fixpoint bounded_chars (s : list Z) (maximum : nat) : list Z :=
  match s with
  | [] => []
  | c :: s' =>
      if (length (utf8_char c) <=? maximum)%nat
      then c :: bounded_chars s' (maximum - length (utf8_char c)) else []
  end.

Lemma bounded_chars_prefix s maximum : exists k, bounded_chars s maximum = take k s.
Proof.
  revert maximum. induction s as [|c s IH]; intros maximum; [by exists O|]. cbn [bounded_chars].
  case_match; [|by exists O]. destruct (IH (maximum - length (utf8_char c))%nat) as [k ->]. by exists (S k).
Qed.

Lemma bounded_chars_le s maximum : (str_len (bounded_chars s maximum) <= maximum)%nat.
Proof.
  revert maximum. induction s as [|c s IH]; intros maximum; [unfold str_len; simpl; lia|]. cbn [bounded_chars].
  destruct (Nat.leb_spec (length (utf8_char c)) maximum); [|unfold str_len; simpl; lia].
  specialize (IH (maximum - length (utf8_char c))%nat). unfold str_len in *. rewrite utf8_cons, length_app. lia.
Qed.

(** A prefix that fits is a prefix of what is kept. *)
Lemma bounded_chars_max s maximum k :
  (str_len (take k s) <= maximum)%nat -> (str_len (take k s) <= str_len (bounded_chars s maximum))%nat.
Proof.
  revert maximum k. induction s as [|c s IH]; intros maximum k Hk; [by rewrite take_nil|].
  destruct k as [|k]; [unfold str_len; simpl; lia|]. cbn [take bounded_chars] in *. unfold str_len in *.
  rewrite utf8_cons, length_app in Hk. destruct (Nat.leb_spec (length (utf8_char c)) maximum); [|lia].
  rewrite !utf8_cons, !length_app. specialize (IH (maximum - length (utf8_char c))%nat k). lia.
Qed.

Lemma bounded_chars_text s maximum :
  Forall scalar s -> utf8 (bounded_chars s maximum) = bounded_text (utf8 s) maximum.
Proof.
  intros Hs. destruct (bounded_chars_prefix s maximum) as [j Hj].
  pose proof (bounded_chars_le s maximum) as Hle. pose proof (bounded_chars_max s maximum) as Hmax.
  unfold str_len in *. rewrite Hj in *. rewrite utf8_take_prefix. unfold bounded_text.
  destruct (Nat.leb_spec (length (utf8 s)) maximum) as [Hall|Hlong].
  - specialize (Hmax (length s)). rewrite take_ge in Hmax by done. apply take_ge, Hmax. done.
  - destruct (floor_char_boundary_utf8 (E:=unit) s maximum Hs) as (k & Hk & Hkl & Hkm & Hkmax); [lia|].
    rewrite floor_boundary_ok in Hk. injection Hk as ->. f_equal. apply Nat.le_antisymm.
    + destruct (decide (j <= length s)%nat); [by apply Hkmax|]. rewrite (take_ge s j) in * by lia.
      rewrite <- (take_ge s (length s)) at 1 by done. apply Hkmax; [done|]. by rewrite take_ge.
    + by apply Hmax.
Qed.

Lemma bounded_chars_Forall (P : Z -> Prop) s maximum : Forall P s -> Forall P (bounded_chars s maximum).
Proof. intros Hs. destruct (bounded_chars_prefix s maximum) as [k ->]. by apply Forall_take. Qed.

(** The same with an ellipsis in the place of what was cut off. *)
Definition elided_chars (s : list Z) (maximum : nat) : list Z :=
  if (str_len s <=? maximum)%nat then s else bounded_chars s (maximum - 3) ++ codes "...".

Lemma utf8_char_length c : (1 <= length (utf8_char c) <= 4)%nat.
Proof. unfold utf8_char. repeat case_match; simpl; lia. Qed.

Lemma bounded_chars_nonempty s maximum : s <> [] -> (4 <= maximum)%nat -> bounded_chars s maximum <> [].
Proof.
  destruct s as [|c s]; [done|]. intros _ Hm. cbn [bounded_chars]. pose proof (utf8_char_length c).
  by rewrite (proj2 (Nat.leb_le _ _)) by lia.
Qed.

(** [trim] cuts at both ends. *)
Lemma utf8_app s t : utf8 (s ++ t) = utf8 s ++ utf8 t.
Proof. unfold utf8. by rewrite fmap_app, concat_app. Qed.

Lemma elided_chars_le s maximum : (3 <= maximum)%nat -> (str_len (elided_chars s maximum) <= maximum)%nat.
Proof.
  intros Hm. unfold elided_chars. destruct (Nat.leb_spec (str_len s) maximum); [done|].
  unfold str_len. rewrite utf8_app, length_app. pose proof (bounded_chars_le s (maximum - 3)). unfold str_len in *.
  assert (length (utf8 (codes "...")) = 3%nat) as -> by (by vm_compute). lia.
Qed.

Lemma trim_start_suffix s : exists a, s = a ++ trim_start s.
Proof.
  induction s as [|c s [a IH]]; [by exists []|]. cbn [trim_start].
  destruct (is_whitespace c); [exists (c :: a); cbn; by f_equal|by exists []].
Qed.

Lemma trim_infix s : exists a b, s = a ++ trim s ++ b.
Proof.
  destruct (trim_start_suffix s) as [a Ha]. destruct (trim_start_suffix (reverse (trim_start s))) as [b Hb].
  exists a, (reverse b). rewrite Ha at 1. f_equal. unfold trim.
  rewrite <- reverse_app, <- Hb. by rewrite reverse_involutive.
Qed.

Lemma trim_len s : (str_len (trim s) <= str_len s)%nat.
Proof. destruct (trim_infix s) as (a & b & E). rewrite E at 2. unfold str_len. rewrite !utf8_app, !length_app. lia. Qed.

Lemma trim_Forall (P : Z -> Prop) s : Forall P s -> Forall P (trim s).
Proof. destruct (trim_infix s) as (a & b & E). rewrite E at 1. rewrite !Forall_app. tauto. Qed.

Lemma trim_utf8_Forall (P : Z -> Prop) s : Forall P (utf8 s) -> Forall P (utf8 (trim s)).
Proof. destruct (trim_infix s) as (a & b & E). rewrite E at 1. rewrite !utf8_app, !Forall_app. tauto. Qed.

(** [Display] of an unsigned integer. *)
Definition display_uint (n : Z) : list Z := codes (pretty n).
