(* ===== verification/Castkms.v ===== *)
(** * Connector-scoped CastKMS operations (crates/pronk-core/src/castkms.rs)

    Operations of [CastKmsClient] that use only the grant lease: the grant
    query, the attachment/route topology, EDID framing, monitor attach and
    detach, EDID publication and the audio tap.  The CEC and capture trackers
    the client also owns are in CastkmsCec.v and CastkmsCapture.v. *)

From S2P Require Import Prelude Bytes Text CastkmsSys Grant.

Definition EDID_BLOCK_SIZE : nat := 128.
Definition EDID_MAX_BLOCKS : nat := 4.

(** ** Grant state *)

Inductive GrantState :=
  | Pending | Active | SuspendedNoMaster | SuspendedOtherMaster | SuspendedForeignContent
  | Revoked.

Global Instance GrantState_eq_dec : EqDecision GrantState.
Proof. solve_decision. Defined.

Definition is_terminal (s : GrantState) : bool := bool_decide (s = Revoked).

Inductive EdidError :=
  | InvalidSize (n : nat)
  | InvalidHeader
  | ExtensionCount (declared actual : Z)
  | InvalidChecksum (block : nat).

Inductive CastKmsError :=
  | QueryGrant (errno : Z) | InvalidGrant (what : string) | UnknownGrantState (v : Z)
  | RevokedGrant | MissingRights (required actual : Z) | InvalidDisplayName (what : string)
  | AttachMonitor (errno : Z) | SetOutputEdid (errno : Z) | DetachMonitor (errno : Z)
  | QueryConnector (errno : Z) | QueryEncoder (errno : Z) | QueryCrtc (errno : Z)
  | InvalidOutputTopology (what : string)
  | QueryCecCapabilities (errno : Z) | BindCecTransport (errno : Z)
  | SetCecTransportState (errno : Z) | CompleteCecTransmit (errno : Z)
  | ReceiveCecMessage (errno : Z) | UnbindCecTransport (errno : Z)
  | InvalidCecMetadata (what : string) | InvalidCecState (what : string)
  | OpenAudioTap (errno : Z) | InspectAudioTap (errno : Z) | InvalidAudioTap (what : string).

Definition GrantState_try_from (v : Z) : outcome CastKmsError GrantState :=
  if v =? GRANT_STATE_PENDING then Ok Pending
  else if v =? GRANT_STATE_ACTIVE then Ok Active
  else if v =? GRANT_STATE_SUSPENDED_NO_MASTER then Ok SuspendedNoMaster
  else if v =? GRANT_STATE_SUSPENDED_OTHER_MASTER then Ok SuspendedOtherMaster
  else if v =? GRANT_STATE_SUSPENDED_FOREIGN_CONTENT then Ok SuspendedForeignContent
  else if v =? GRANT_STATE_REVOKED then Ok Revoked
  else Err (UnknownGrantState v).

Record GrantInfo := {
  gi_grant_id : Z; gi_connector_id : Z; gi_output_index : Z; gi_rights : Z;
  gi_state : GrantState; gi_flags : Z }.

Inductive MonitorAttachmentState := Detached | Attached | Unknown.

Global Instance MonitorAttachmentState_eq_dec : EqDecision MonitorAttachmentState.
Proof. solve_decision. Defined.

Record CastKmsAudioTap := { tap_fd : Z; tap_buffer_frames : Z }.

Record ActiveOutputRoute := {
  ro_crtc_id : Z; ro_width : Z; ro_height : Z; ro_refresh_millihz : Z; ro_mode_flags : Z }.

Record OutputTopology := {
  ot_attachment : MonitorAttachmentState; ot_route : option ActiveOutputRoute }.

(** ** EDID framing *)

Definition EDID_HEADER : list Z := [0x00; 0xff; 0xff; 0xff; 0xff; 0xff; 0xff; 0x00].

(** [bytes.iter().copied().fold(0_u8, u8::wrapping_add)]. *)
Definition sum8 (l : list Z) : Z := foldl (fun acc b => wrap 8 (acc + b)) 0 l.

(** [bytes.chunks_exact(n)]: the complete chunks of [n] bytes. *)
Fixpoint chunks_exact (fuel : nat) (n : nat) (l : list Z) : list (list Z) :=
  match fuel with
  | O => []
  | S f => if bool_decide (n <= length l)%nat then take n l :: chunks_exact f n (drop n l) else []
  end.

Fixpoint check_blocks (block : nat) (blocks : list (list Z)) : outcome EdidError unit :=
  match blocks with
  | [] => Ok tt
  | b :: rest =>
      try? reject (negb (sum8 b =? 0)) (InvalidChecksum block);
      check_blocks (S block) rest
  end.

Definition validate_edid (bytes : list Z) : outcome EdidError unit :=
  try? reject (bool_decide (length bytes = 0)%nat
               || bool_decide (EDID_BLOCK_SIZE * EDID_MAX_BLOCKS < length bytes)%nat
               || negb (bool_decide (length bytes mod EDID_BLOCK_SIZE = 0)%nat))
         (InvalidSize (length bytes));
  let? header := slice bytes 0 8 in
  try? reject (negb (bool_decide (header = EDID_HEADER))) InvalidHeader;
  let? actual_extensions :=
    expect (checked_sub (Z.of_nat (length bytes / EDID_BLOCK_SIZE)) 1) in
  let? declared_extensions := index bytes 126 in
  try? reject (negb (declared_extensions =? actual_extensions))
         (ExtensionCount declared_extensions actual_extensions);
  check_blocks 0 (chunks_exact (length bytes) EDID_BLOCK_SIZE bytes).

(** [ValidatedEdid::new]: the bytes, once validated. *)
Definition ValidatedEdid_new (bytes : list Z) : outcome EdidError (list Z) :=
  try? validate_edid bytes; Ok bytes.

(** ** Ioctl arguments; a pointer field is modelled by the bytes it points to *)

Record AttachMonitorArgs := {
  am_connector_id : Z; am_edid_size : Z; am_display_name_size : Z;
  am_edid : list Z; am_display_name : list Z }.
Record SetOutputEdidArgs := { se_connector_id : Z; se_edid_size : Z; se_edid : list Z }.

(** Read-only DRM queries and the audio-tap ioctl on the holder. *)
Class DrmQueries := {
  drm_ioctl_mode_getconnector : Z -> outcome Z DrmModeGetConnector;
  drm_ioctl_mode_getencoder : Z -> outcome Z DrmModeGetEncoder;
  drm_ioctl_mode_getcrtc : Z -> outcome Z DrmModeCrtc;
  drm_ioctl_castkms_open_audio_tap : Z -> Z -> outcome Z DrmCastkmsOpenAudioTap }.

(** ** Operations on the lease *)

Definition require_rights (lease : GrantLease) (required : Z) : outcome CastKmsError unit :=
  let actual := lease_rights lease in
  if Z.land actual required =? required then Ok tt else Err (MissingRights required actual).

Definition query_grant `{FdQueries} (lease : GrantLease) : outcome CastKmsError GrantInfo :=
  let? q := omap_err QueryGrant (drm_ioctl_castkms_get_grant (gl_holder lease)) in
  try? reject (negb (gg_reserved q =? 0)) (InvalidGrant "reserved field");
  try? reject (negb (Z.land (gg_flags q) (u32_MAX - GRANT_FLAGS_MASK) =? 0)) (InvalidGrant "flags");
  try? reject (negb (gg_grant_id q =? lease_grant_id lease)) (InvalidGrant "grant ID");
  try? reject (negb (gg_connector_id q =? lease_connector_id lease)) (InvalidGrant "connector ID");
  try? reject (negb (gg_output_index q =? lease_output_index lease)) (InvalidGrant "output index");
  try? reject (negb (gg_rights q =? lease_rights lease)) (InvalidGrant "rights");
  try? reject (negb (gg_flags q =? lease_flags lease)) (InvalidGrant "mode flags");
  let? state := GrantState_try_from (gg_state q) in
  Ok {| gi_grant_id := gg_grant_id q; gi_connector_id := gg_connector_id q;
        gi_output_index := gg_output_index q; gi_rights := gg_rights q;
        gi_state := state; gi_flags := gg_flags q |}.

(** [CastKmsClient::new]: a revoked grant is refused. *)
Definition client_new `{FdQueries} (lease : GrantLease) : outcome CastKmsError GrantLease :=
  let? info := query_grant lease in
  try? reject (is_terminal (gi_state info)) RevokedGrant;
  Ok lease.

Definition output_topology_from_kernel (attachment : MonitorAttachmentState)
    (expected_crtc_id : Z) (crtc : DrmModeCrtc) : outcome CastKmsError OutputTopology :=
  try? reject (negb (cr_crtc_id crtc =? expected_crtc_id)) (InvalidOutputTopology "CRTC identity");
  if cr_mode_valid crtc =? 0 then Ok {| ot_attachment := attachment; ot_route := None |}
  else if cr_mode_valid crtc =? 1 then
    let mode := cr_mode crtc in
    let? width := ok_or (nonzero (mi_hdisplay mode)) (InvalidOutputTopology "active mode width") in
    let? height := ok_or (nonzero (mi_vdisplay mode)) (InvalidOutputTopology "active mode height") in
    let refresh_hz := if mi_vrefresh mode =? 0 then 60 else mi_vrefresh mode in
    let? millihz := ok_or (checked_mul32 refresh_hz 1000)
                      (InvalidOutputTopology "active mode refresh") in
    let? refresh_millihz := expect (nonzero millihz) in
    Ok {| ot_attachment := attachment;
          ot_route := Some {| ro_crtc_id := expected_crtc_id; ro_width := width;
                              ro_height := height; ro_refresh_millihz := refresh_millihz;
                              ro_mode_flags := mi_flags mode |} |}
  else Err (InvalidOutputTopology "CRTC mode-valid field").

Definition query_output_topology `{DrmQueries} (lease : GrantLease)
    : outcome CastKmsError OutputTopology :=
  let? connector := omap_err QueryConnector (drm_ioctl_mode_getconnector (lease_connector_id lease)) in
  try? reject (negb (gc_connector_id connector =? lease_connector_id lease)
               || negb (gc_pad connector =? 0))
         (InvalidOutputTopology "connector identity or padding");
  let? attachment :=
    if gc_connection connector =? DRM_MODE_CONNECTED then Ok Attached
    else if gc_connection connector =? DRM_MODE_DISCONNECTED then Ok Detached
    else if gc_connection connector =? DRM_MODE_UNKNOWN_CONNECTION then Ok Unknown
    else Err (InvalidOutputTopology "connector connection state") in
  if negb (bool_decide (attachment = Attached)) || (gc_encoder_id connector =? 0) then
    Ok {| ot_attachment := attachment; ot_route := None |}
  else
    let? encoder := omap_err QueryEncoder (drm_ioctl_mode_getencoder (gc_encoder_id connector)) in
    try? reject (negb (ge_encoder_id encoder =? gc_encoder_id connector))
           (InvalidOutputTopology "encoder identity");
    match nonzero (ge_crtc_id encoder) with
    | None => Ok {| ot_attachment := attachment; ot_route := None |}
    | Some crtc_id =>
        let? crtc := omap_err QueryCrtc (drm_ioctl_mode_getcrtc crtc_id) in
        output_topology_from_kernel attachment crtc_id crtc
    end.

(** The name the kernel receives: no control bytes, at most 79 bytes, cut at a
    character boundary. *)
Definition display_name_for_uapi (display_name : list Z) : outcome CastKmsError (list Z) :=
  try? reject (bool_decide (length display_name = 0)%nat) (InvalidDisplayName "name is empty");
  try? reject (existsb (fun b => (b <? 0x20) || (b =? 0x7f)) display_name)
         (InvalidDisplayName "name contains an ASCII control byte");
  let? e := floor_char_boundary display_name
              (Nat.min (length display_name) CAPTURE_MAX_DISPLAY_NAME_SIZE) in
  slice display_name 0 e.

Definition attach_monitor (ioctl : AttachMonitorArgs -> outcome Z unit)
    (lease : GrantLease) (edid display_name : list Z) : outcome CastKmsError unit :=
  try? require_rights lease (Z.lor GRANT_MANAGE_ATTACHMENT GRANT_UPDATE_EDID);
  let? display_name := display_name_for_uapi display_name in
  omap_err AttachMonitor
    (ioctl {| am_connector_id := lease_connector_id lease; am_edid_size := blen edid;
              am_display_name_size := blen display_name; am_edid := edid;
              am_display_name := display_name |}).

Definition set_output_edid (ioctl : SetOutputEdidArgs -> outcome Z unit)
    (lease : GrantLease) (edid : list Z) : outcome CastKmsError unit :=
  try? require_rights lease GRANT_UPDATE_EDID;
  omap_err SetOutputEdid
    (ioctl {| se_connector_id := lease_connector_id lease; se_edid_size := blen edid;
              se_edid := edid |}).

Definition clear_output_edid (ioctl : SetOutputEdidArgs -> outcome Z unit)
    (lease : GrantLease) : outcome CastKmsError unit :=
  try? require_rights lease GRANT_UPDATE_EDID;
  omap_err SetOutputEdid
    (ioctl {| se_connector_id := lease_connector_id lease; se_edid_size := 0; se_edid := [] |}).

Definition open_audio_tap `{FdQueries, DrmQueries} (lease : GrantLease) (nonblocking : bool)
    : outcome CastKmsError CastKmsAudioTap :=
  try? require_rights lease GRANT_CAPTURE_AUDIO;
  let requested := if nonblocking then O_NONBLOCK else 0 in
  let? args := omap_err OpenAudioTap
                 (drm_ioctl_castkms_open_audio_tap (lease_connector_id lease) requested) in
  try? reject (at_fd args <? 0) (InvalidAudioTap "negative descriptor");
  try? reject (negb (at_connector_id args =? lease_connector_id lease)
               || negb (at_flags args =? 0) || negb (at_fd_flags args =? requested)
               || negb (at_format args =? AUDIO_FORMAT_S16_LE)
               || negb (at_rate args =? AUDIO_TAP_RATE)
               || negb (at_channels args =? AUDIO_TAP_CHANNELS)
               || negb (at_frame_bytes args =? AUDIO_TAP_FRAME_BYTES)
               || (at_buffer_frames args =? 0) || negb (at_reserved args =? 0))
         (InvalidAudioTap "format or identity");
  let? descriptor_flags := omap_err InspectAudioTap (fcntl_getfd (at_fd args)) in
  try? reject (negb (contains_flag descriptor_flags FD_CLOEXEC)) (InvalidAudioTap "FD_CLOEXEC");
  let? status_flags := omap_err InspectAudioTap (fcntl_getfl (at_fd args)) in
  try? reject (negb (Bool.eqb (contains_flag status_flags O_NONBLOCK) nonblocking))
         (InvalidAudioTap "O_NONBLOCK");
  Ok {| tap_fd := at_fd args; tap_buffer_frames := at_buffer_frames args |}.

(** ** Lemmas *)

Lemma sum8_from l acc : 0 <= acc < 256 ->
  foldl (fun a b => wrap 8 (a + b)) acc l = (acc + foldr Z.add 0 l) mod 256.
Proof.
  revert acc. induction l as [|b l IH]; intros acc Ha; cbn [foldl foldr].
  - rewrite Z.add_0_r, Z.mod_small; lia.
  - rewrite IH by (apply wrap_range; lia). unfold wrap. change (2 ^ 8) with 256.
    rewrite Zplus_mod_idemp_l. f_equal. lia.
Qed.

(** The wrapping byte sum is the sum modulo 256. *)
Lemma sum8_mod l : sum8 l = foldr Z.add 0 l mod 256.
Proof. unfold sum8. by rewrite sum8_from by lia. Qed.

Lemma foldr_add_app l k : foldr Z.add 0 (l ++ k) = foldr Z.add 0 l + foldr Z.add 0 k.
Proof. rewrite foldr_app. induction l; simpl; lia. Qed.

Lemma sum8_app l k : sum8 (l ++ k) = wrap 8 (sum8 l + sum8 k).
Proof. rewrite !sum8_mod, foldr_add_app. unfold wrap. by rewrite <- Zplus_mod. Qed.

(** [n] complete blocks, in order. *)
Lemma chunks_exact_blocks fuel n k l :
  (0 < n)%nat -> length l = (k * n)%nat -> (k < fuel)%nat ->
  chunks_exact fuel n l = (fun i => take n (drop (i * n) l)) <$> seq 0 k.
Proof.
  intros Hn. revert k l. induction fuel as [|fuel IH]; intros k l Hl Hf; [lia|].
  cbn [chunks_exact]. destruct k as [|k].
  - simpl in Hl. case_bool_decide; [lia|done].
  - case_bool_decide as Hle; [|simpl in Hl; lia].
    rewrite (IH k) by (rewrite ?length_drop; simpl in Hl; lia).
    cbn [seq fmap list_fmap]. rewrite drop_0. f_equal.
    rewrite <- fmap_S_seq, <- list_fmap_compose. apply list_fmap_ext. intros j i _. simpl.
    f_equal. rewrite drop_drop. f_equal.
Qed.

Lemma check_blocks_ok b blocks u :
  check_blocks b blocks = Ok u <-> Forall (fun x => sum8 x = 0) blocks.
Proof.
  destruct u. revert b. induction blocks as [|x rest IH]; intros b; simpl.
  - split; intros; [constructor|done].
  - rewrite reject_seq_ok, negb_false_iff, Z.eqb_eq, IH, Forall_cons. done.
Qed.

(** What a well-framed EDID is: 1 to 4 blocks of 128 bytes, the fixed header,
    the extension count, and every block summing to zero modulo 256. *)
Definition edid_framed (bytes : list Z) : Prop :=
  exists n, (1 <= n <= EDID_MAX_BLOCKS)%nat /\ length bytes = (n * EDID_BLOCK_SIZE)%nat /\
    take 8 bytes = EDID_HEADER /\ bytes !! 126%nat = Some (Z.of_nat n - 1) /\
    forall i, (i < n)%nat ->
      foldr Z.add 0 (take EDID_BLOCK_SIZE (drop (i * EDID_BLOCK_SIZE) bytes)) mod 256 = 0.

Lemma edid_blocks_sum bytes n :
  length bytes = (n * EDID_BLOCK_SIZE)%nat ->
  Forall (fun x => sum8 x = 0) (chunks_exact (length bytes) EDID_BLOCK_SIZE bytes) <->
  forall i, (i < n)%nat ->
    foldr Z.add 0 (take EDID_BLOCK_SIZE (drop (i * EDID_BLOCK_SIZE) bytes)) mod 256 = 0.
Proof.
  intros Hl. destruct n as [|n].
  { simpl in Hl. rewrite Hl. simpl. split; [lia|constructor]. }
  rewrite (chunks_exact_blocks _ _ (S n)) by (rewrite ?Hl; unfold EDID_BLOCK_SIZE; lia).
  rewrite Forall_fmap, Forall_forall. setoid_rewrite elem_of_seq. unfold compose.
  split; intros H i Hi; specialize (H i); rewrite sum8_mod in *; apply H; lia.
Qed.


(** The size check, as arithmetic. *)
Lemma edid_size_check (len : nat) :
  bool_decide (len = 0)%nat || bool_decide (EDID_BLOCK_SIZE * EDID_MAX_BLOCKS < len)%nat
    || negb (bool_decide (len mod EDID_BLOCK_SIZE = 0)%nat) = false <->
  exists n, (1 <= n <= EDID_MAX_BLOCKS)%nat /\ len = (n * EDID_BLOCK_SIZE)%nat.
Proof.
  rewrite !orb_false_iff, negb_false_iff, !bool_decide_eq_false, bool_decide_eq_true.
  unfold EDID_BLOCK_SIZE, EDID_MAX_BLOCKS. split.
  - intros [[H0 H1] H2]. apply Nat.Div0.div_exact in H2. exists (len / 128)%nat. lia.
  - intros (n & Hn & ->). rewrite Nat.Div0.mod_mul. lia.
Qed.

Lemma validate_edid_framing bytes :
  (validate_edid bytes = Ok tt <-> edid_framed bytes) /\ validate_edid bytes <> Panic.
Proof.
  unfold validate_edid.
  match goal with |- context [reject ?c _] => destruct c eqn:Hc end.
  { split; [|done]. simpl. split; [done|]. intros (n & Hn & Hl & _).
    assert (exists n, (1 <= n <= EDID_MAX_BLOCKS)%nat /\ length bytes = (n * EDID_BLOCK_SIZE)%nat)
      as Hsz by eauto. apply edid_size_check in Hsz. congruence. }
  apply edid_size_check in Hc as (n & Hn & Hl). cbn [reject obind].
  unfold EDID_BLOCK_SIZE, EDID_MAX_BLOCKS in Hn, Hl.
  rewrite slice_ok by lia. cbn [obind]. rewrite drop_0, Nat.sub_0_r.
  replace (length bytes / EDID_BLOCK_SIZE)%nat with n by (rewrite Hl; unfold EDID_BLOCK_SIZE; by rewrite Nat.div_mul).
  unfold checked_sub. rewrite (proj2 (Z.leb_le 1 (Z.of_nat n))) by lia. cbn [expect obind].
  unfold index. destruct (lookup_lt_is_Some_2 bytes 126) as [d Hd]; [lia|].
  rewrite Hd. cbn [expect obind]. split.
  - rewrite !reject_seq_ok, !negb_false_iff, bool_decide_eq_true, Z.eqb_eq, check_blocks_ok.
    rewrite (edid_blocks_sum bytes n) by done. split.
    + intros (Hh & He & Hb). exists n. rewrite Hd. split_and!; [unfold EDID_MAX_BLOCKS; lia..|done|done|congruence|done].
    + intros (n' & Hn' & Hl' & Hh & He & Hb). unfold EDID_BLOCK_SIZE in *.
      assert (n' = n) as -> by lia. rewrite Hd in He. split_and!; [done|congruence|done].
  - assert (forall b l, check_blocks b l <> Panic) as Hnp
      by (intros b l; revert b; induction l as [|x l IH]; intros b; simpl; [done|];
          destruct (negb _); [done|apply IH]).
    destruct (negb (bool_decide _)); [done|]. destruct (negb (d =? _)); [done|]. apply Hnp.
Qed.

(** EDID framing accepts exactly the well-framed blobs: one to four
    complete 128-byte blocks with the EDID header, a matching extension count
    and every block sum zero modulo 256; on any other byte string it returns
    an error, and it never panics. *)
Theorem validate_edid_iff bytes :
  (validate_edid bytes = Ok tt <-> edid_framed bytes) /\ validate_edid bytes <> Panic.
Proof. apply validate_edid_framing. Qed.

(** ** Topology *)

(** An active route is reported only along a connected chain: the queried
    connector is this grant's and is connected, the encoder it names answers
    with that identity and names a nonzero CRTC, that CRTC answers with that
    identity and a valid mode, and the route carries its nonzero size and a
    refresh in millihertz (60 Hz when the kernel gives none). *)
Theorem query_output_topology_route `{DrmQueries} lease t r :
  query_output_topology lease = Ok t -> ot_route t = Some r ->
  ot_attachment t = Attached /\
  exists connector encoder crtc,
    drm_ioctl_mode_getconnector (lease_connector_id lease) = Ok connector /\
    gc_connector_id connector = lease_connector_id lease /\
    gc_connection connector = DRM_MODE_CONNECTED /\
    drm_ioctl_mode_getencoder (gc_encoder_id connector) = Ok encoder /\
    ge_encoder_id encoder = gc_encoder_id connector /\
    drm_ioctl_mode_getcrtc (ge_crtc_id encoder) = Ok crtc /\
    cr_crtc_id crtc = ro_crtc_id r /\ ro_crtc_id r = ge_crtc_id encoder /\ ro_crtc_id r <> 0 /\
    cr_mode_valid crtc = 1 /\
    ro_width r = mi_hdisplay (cr_mode crtc) /\ ro_width r <> 0 /\
    ro_height r = mi_vdisplay (cr_mode crtc) /\ ro_height r <> 0 /\
    ro_refresh_millihz r
      = 1000 * (if mi_vrefresh (cr_mode crtc) =? 0 then 60 else mi_vrefresh (cr_mode crtc)) /\
    ro_refresh_millihz r <= u32_MAX.
Proof.
  unfold query_output_topology. intros Hq Hr.
  rewrite query_seq_ok in Hq. destruct Hq as (connector & Hc & Hq).
  rewrite reject_seq_ok, obind_ok in Hq. destruct Hq as (Hid & att & Hatt & Hq).
  destruct (negb (bool_decide (att = Attached)) || _) eqn:Hn in Hq; [ok_inv; by subst|].
  breflect. rewrite query_seq_ok in Hq. destruct Hq as (encoder & He & Hq).
  rewrite reject_seq_ok in Hq. destruct Hq as (Hei & Hq).
  destruct (nonzero _) as [crtc_id|] eqn:Hnz; [|ok_inv; by subst].
  apply nonzero_some in Hnz as [-> Hnz]. rewrite query_seq_ok in Hq.
  destruct Hq as (crtc & Hcr & Hq). unfold output_topology_from_kernel in Hq.
  rewrite reject_seq_ok in Hq. destruct Hq as (Hci & Hq).
  destruct (cr_mode_valid crtc =? 0) eqn:Hv0; [ok_inv; by subst|].
  destruct (cr_mode_valid crtc =? 1) eqn:Hv1; [|done].
  ok_inv. subst t. simpl in *. injection Hr as <-. simpl. breflect. subst att.
  repeat match goal with E : nonzero _ = Some _ |- _ => apply nonzero_some in E as [-> ?] end.
  match goal with E : expect (nonzero ?m) = _, C : checked_mul32 _ _ = _ |- _ =>
    unfold checked_mul32 in C; destruct (nonzero m) eqn:Hm; [|done];
    apply nonzero_some in Hm as [-> ?]; simpl in E; injection E as <-;
    destruct (_ <=? u32_MAX) eqn:Hle in C; [|done]; injection C as <- end.
  breflect. split; [done|]. exists connector, encoder, crtc.
  repeat case_in Hatt. breflect. split_and!; try done; lia.
Qed.

Lemma query_output_topology_route_witness : exists (W : DrmQueries) lease t r,
  query_output_topology lease = Ok t /\ ot_route t = Some r /\ ot_attachment t = Attached.
Proof.
  set (W := {| drm_ioctl_mode_getconnector := fun c => Ok {| gc_encoder_id := 7; gc_connector_id := c;
    gc_connector_type := 15; gc_connector_type_id := 1; gc_connection := 1; gc_pad := 0 |};
     drm_ioctl_mode_getencoder := fun e => Ok {| ge_encoder_id := e; ge_crtc_id := 9 |};
     drm_ioctl_mode_getcrtc := fun c => Ok {| cr_crtc_id := c; cr_mode_valid := 1;
        cr_mode := {| mi_hdisplay := 1920; mi_vdisplay := 1080; mi_vrefresh := 0; mi_flags := 5 |} |};
     drm_ioctl_castkms_open_audio_tap := fun _ _ => Err 0 |}).
  set (lease := {| gl_holder := 3; gl_lifetime := ExternalGrantor;
     gl_metadata := {| gm_grant_id := 1; gm_connector_id := 42; gm_output_index := 0;
       gm_rights := DISPLAY_V1_RIGHTS; gm_flags := 0; gm_initial_state := 1;
       gm_capture_uapi_major := 0; gm_capture_uapi_minor := 12 |} |}).
  set (r := {| ro_crtc_id := 9; ro_width := 1920; ro_height := 1080;
               ro_refresh_millihz := 60000; ro_mode_flags := 5 |}).
  exists W, lease, {| ot_attachment := Attached; ot_route := Some r |}, r.
  split; [reflexivity|]. split; [reflexivity|].
  exact (proj1 (query_output_topology_route (H := W) lease _ r eq_refl eq_refl)).
Defined.

(** ** Monitor attachment *)

Lemma utf8_char_controls c : scalar c ->
  existsb (fun b => (b <? 0x20) || (b =? 0x7f)) (utf8_char c) = (c <? 0x20) || (c =? 0x7f).
Proof.
  intros Hc. destruct (decide (c < 128)).
  { unfold utf8_char. rewrite (proj2 (Z.ltb_lt _ _)) by done. simpl. by rewrite orb_false_r. }
  replace ((c <? 32) || (c =? 127)) with false
    by (symmetry; apply orb_false_iff; split; [apply Z.ltb_ge|apply Z.eqb_neq]; lia).
  apply not_true_is_false. intros (b & Hb & Hx)%existsb_exists.
  assert (128 <= b) as Hge; [|apply orb_true_iff in Hx as [Hx|Hx]; breflect; lia].
  unfold scalar in Hc. unfold utf8_char in Hb.
  assert (forall x, 128 <= 128 + x mod 64) by (intros x; pose proof (Z.mod_pos_bound x 64); lia).
  pose proof (Z.div_pos c 64). pose proof (Z.div_pos c 4096). pose proof (Z.div_pos c 262144).
  repeat case_match; breflect; simpl in Hb; intuition (subst; auto; lia).
Qed.

(** The control bytes of the encoding are the control characters of the text. *)
Lemma utf8_controls s : Forall scalar s ->
  existsb (fun b => (b <? 0x20) || (b =? 0x7f)) (utf8 s)
  = existsb (fun c => (c <? 0x20) || (c =? 0x7f)) s.
Proof.
  induction 1 as [|c s Hc Hs IH]; [done|].
  rewrite utf8_cons, existsb_app, utf8_char_controls, IH by done. done.
Qed.

Lemma utf8_nil s : Forall scalar s -> length (utf8 s) = O -> s = [].
Proof.
  destruct 1 as [|c s Hc Hs]; [done|]. rewrite utf8_cons.
  destruct (utf8_char_lead c Hc) as (b & rest & -> & _). done.
Qed.

Lemma display_name_for_uapi_spec s :
  Forall scalar s -> s <> [] -> existsb (fun c => (c <? 0x20) || (c =? 0x7f)) s = false ->
  exists k, display_name_for_uapi (utf8 s) = Ok (utf8 (take k s)) /\ (k <= length s)%nat /\
    (length (utf8 (take k s)) <= CAPTURE_MAX_DISPLAY_NAME_SIZE)%nat /\
    (forall k', (length (utf8 (take k' s)) <= CAPTURE_MAX_DISPLAY_NAME_SIZE)%nat ->
                (length (utf8 (take k' s)) <= length (utf8 (take k s)))%nat).
Proof.
  intros Hs Hne Hc.
  set (n := Nat.min (length (utf8 s)) CAPTURE_MAX_DISPLAY_NAME_SIZE).
  destruct (floor_char_boundary_utf8 (E:=CastKmsError) s n) as (k & Hf & Hk & Hle & Hmax);
    [done|unfold n; lia|].
  exists k. unfold display_name_for_uapi. rewrite bool_decide_eq_false_2
    by (intros ?%utf8_nil; done).
  cbn [reject obind]. rewrite utf8_controls, Hc by done. cbn [reject obind].
  fold n. rewrite Hf. cbn [obind].
  assert (forall j, length (utf8 (take j s)) <= length (utf8 s))%nat as Hall
    by (intros j; rewrite utf8_take_prefix, length_take; lia).
  rewrite slice_ok by (split; [lia|apply Hall]).
  rewrite drop_0, Nat.sub_0_r, <- utf8_take_prefix. split_and!; [done|done|unfold n in *; lia|].
  intros k' Hk'. destruct (decide (k' <= length s)%nat) as [Hkl|Hkl].
  - apply Hmax; [done|]. unfold n. pose proof (Hall k'). lia.
  - pose proof (Hall k'). rewrite (take_ge s k') in * by lia.
    specialize (Hmax (length s)). rewrite take_ge in Hmax by done. apply Hmax; [done|].
    unfold n. lia.
Qed.

(** Attaching a monitor sends the kernel the grant's connector, the whole
    EDID and the longest prefix of whole characters of the display name that
    fits in 79 bytes (never a torn character), exactly when the lease has both
    the attachment and the EDID right and the name is a nonempty text without
    control characters; otherwise it fails without an ioctl. *)
Theorem attach_monitor_sends ioctl lease edid s :
  Forall scalar s ->
  let both := Z.lor GRANT_MANAGE_ATTACHMENT GRANT_UPDATE_EDID in
  let bad := existsb (fun c => (c <? 0x20) || (c =? 0x7f)) s in
  (Z.land (lease_rights lease) both <> both ->
     attach_monitor ioctl lease edid (utf8 s) = Err (MissingRights both (lease_rights lease))) /\
  (Z.land (lease_rights lease) both = both -> s = [] \/ bad = true ->
     exists why, attach_monitor ioctl lease edid (utf8 s) = Err (InvalidDisplayName why)) /\
  (Z.land (lease_rights lease) both = both -> s <> [] -> bad = false ->
     exists k, (k <= length s)%nat /\
       (length (utf8 (take k s)) <= 79)%nat /\
       (forall k', (length (utf8 (take k' s)) <= 79)%nat ->
                   (length (utf8 (take k' s)) <= length (utf8 (take k s)))%nat) /\
       attach_monitor ioctl lease edid (utf8 s)
       = omap_err AttachMonitor (ioctl
           {| am_connector_id := lease_connector_id lease; am_edid_size := blen edid;
              am_display_name_size := blen (utf8 (take k s)); am_edid := edid;
              am_display_name := utf8 (take k s) |})).
Proof.
  intros Hs both bad. unfold attach_monitor, require_rights. fold both. split_and!; intros Hr.
  - by rewrite (proj2 (Z.eqb_neq _ _)).
  - rewrite (proj2 (Z.eqb_eq _ _)) by done. cbn [obind]. intros [->|Hb].
    + by eexists.
    + unfold display_name_for_uapi. case_bool_decide; [by eexists|].
      cbn [reject obind]. rewrite utf8_controls by done. fold bad. rewrite Hb. by eexists.
  - intros Hne Hb. rewrite (proj2 (Z.eqb_eq _ _)) by done. cbn [obind].
    destruct (display_name_for_uapi_spec s) as (k & -> & Hk & H79 & Hmax); [done..|].
    by exists k.
Qed.

(** A two-byte character straddling the limit is dropped whole. *)
Lemma attach_monitor_sends_witness :
  let s := replicate 78 65 ++ [233] in
  let lease := {| gl_holder := 3; gl_lifetime := ExternalGrantor;
     gl_metadata := {| gm_grant_id := 1; gm_connector_id := 42; gm_output_index := 0;
       gm_rights := DISPLAY_V1_RIGHTS; gm_flags := 0; gm_initial_state := 1;
       gm_capture_uapi_major := 0; gm_capture_uapi_minor := 12 |} |} in
  Forall scalar s /\
  (exists k, attach_monitor (fun a => Err (am_display_name_size a)) lease [1] (utf8 s)
    = Err (AttachMonitor (blen (utf8 (take k s))))) /\
  attach_monitor (fun a => Err (am_display_name_size a)) lease [1] (utf8 s)
  = Err (AttachMonitor 78).
Proof.
  intros s lease.
  assert (Forall scalar s) as Hs.
  { apply Forall_app; split; [apply Forall_replicate|repeat constructor]; unfold scalar; lia. }
  split; [exact Hs|]. split; [|reflexivity].
  destruct (attach_monitor_sends (fun a => Err (am_display_name_size a)) lease [1] s Hs)
    as (_ & _ & H).
  destruct H as (k & _ & _ & _ & Hk); [reflexivity|discriminate|reflexivity|].
  exists k. exact Hk.
Defined.

(** ** The grant query *)

Lemma GrantState_live v st : 0 <= v -> GrantState_try_from v = Ok st ->
  is_terminal st = negb (is_live_grant_state v).
Proof.
  intros Hv H. apply Bool.eq_iff_eq_true. rewrite negb_true_iff, <- not_true_iff_false.
  rewrite is_live_grant_state_spec. unfold is_terminal. rewrite bool_decide_eq_true.
  unfold GrantState_try_from in H.
  repeat case_in H; ok_inv; subst; breflect;
    unfold GRANT_STATE_PENDING, GRANT_STATE_ACTIVE, GRANT_STATE_SUSPENDED_NO_MASTER,
      GRANT_STATE_SUSPENDED_OTHER_MASTER, GRANT_STATE_SUSPENDED_FOREIGN_CONTENT,
      GRANT_STATE_REVOKED in *; subst; split; intros; try done; lia.
Qed.

Lemma GrantState_try_from_known v : 0 <= v ->
  (exists st, GrantState_try_from v = Ok st) <-> v <= GRANT_STATE_REVOKED.
Proof.
  intros Hv. unfold GrantState_try_from, GRANT_STATE_PENDING, GRANT_STATE_ACTIVE,
    GRANT_STATE_SUSPENDED_NO_MASTER, GRANT_STATE_SUSPENDED_OTHER_MASTER,
    GRANT_STATE_SUSPENDED_FOREIGN_CONTENT, GRANT_STATE_REVOKED.
  split.
  - intros [st H]. repeat case_in H; breflect; lia.
  - intros. repeat (case_match; breflect; [by eexists|]). lia.
Qed.

Lemma query_grant_ok `{FdQueries} lease info :
  query_grant lease = Ok info <->
  exists q, drm_ioctl_castkms_get_grant (gl_holder lease) = Ok q /\
    gg_reserved q = 0 /\ Z.land (gg_flags q) (u32_MAX - GRANT_FLAGS_MASK) = 0 /\
    gg_grant_id q = lease_grant_id lease /\ gg_connector_id q = lease_connector_id lease /\
    gg_output_index q = lease_output_index lease /\ gg_rights q = lease_rights lease /\
    gg_flags q = lease_flags lease /\
    GrantState_try_from (gg_state q) = Ok (gi_state info) /\
    info = {| gi_grant_id := gg_grant_id q; gi_connector_id := gg_connector_id q;
              gi_output_index := gg_output_index q; gi_rights := gg_rights q;
              gi_state := gi_state info; gi_flags := gg_flags q |}.
Proof.
  unfold query_grant. autorewrite with accept. f_equiv. intros q.
  autorewrite with accept. rewrite obind_ok. split.
  - intros (-> & ? & ? & ? & ? & ? & ? & ? & st & Hst & [= <-]). simpl. naive_solver.
  - intros (-> & ? & ? & ? & ? & ? & ? & ? & Hst & Hi). split_and!; try done.
    eexists. split; [exact Hst|]. by f_equal.
Qed.

(** A client is created for a lease exactly when the kernel answers the
    grant query on the holder with the lease's own identity, scope, rights and
    mode flags, no reserved bits, and a state that grant validation also calls
    live: the two independent notions of a live state agree. *)
Theorem client_new_iff `{FdQueries} lease lease' :
  (forall q, drm_ioctl_castkms_get_grant (gl_holder lease) = Ok q -> 0 <= gg_state q) ->
  client_new lease = Ok lease' <->
  lease' = lease /\
  exists q, drm_ioctl_castkms_get_grant (gl_holder lease) = Ok q /\
    gg_reserved q = 0 /\ Z.land (gg_flags q) (u32_MAX - GRANT_FLAGS_MASK) = 0 /\
    gg_grant_id q = lease_grant_id lease /\ gg_connector_id q = lease_connector_id lease /\
    gg_output_index q = lease_output_index lease /\ gg_rights q = lease_rights lease /\
    gg_flags q = lease_flags lease /\ is_live_grant_state (gg_state q) = true.
Proof.
  intros Hpos. unfold client_new. rewrite obind_ok. split.
  - intros (info & Hi & Ht). rewrite reject_seq_ok in Ht. destruct Ht as [Ht [= ->]].
    split; [done|]. apply query_grant_ok in Hi as (q & Hq & ? & ? & ? & ? & ? & ? & ? & Hst & _).
    exists q. split_and!; try done. apply GrantState_live in Hst; [|by apply Hpos].
    rewrite Ht in Hst. by apply negb_false_iff.
  - intros (-> & q & Hq & ? & ? & ? & ? & ? & ? & ? & Hl).
    assert (exists st, GrantState_try_from (gg_state q) = Ok st) as [st Hst].
    { apply GrantState_try_from_known; [by apply Hpos|]. apply is_live_grant_state_spec in Hl.
      unfold GRANT_STATE_SUSPENDED_FOREIGN_CONTENT, GRANT_STATE_REVOKED in *. lia. }
    exists {| gi_grant_id := gg_grant_id q; gi_connector_id := gg_connector_id q;
              gi_output_index := gg_output_index q; gi_rights := gg_rights q;
              gi_state := st; gi_flags := gg_flags q |}.
    split; [apply query_grant_ok; exists q; by split_and!|].
    rewrite reject_seq_ok. split; [|done]. simpl.
    rewrite (GrantState_live (gg_state q)) by (try done; by apply Hpos). by rewrite Hl.
Qed.

Lemma client_new_iff_witness : exists (W : FdQueries) lease, client_new lease = Ok lease.
Proof.
  set (W := {| fcntl_getfd := fun _ => Ok 1; fcntl_getfl := fun _ => Ok 2;
    drm_ioctl_castkms_get_grant := fun _ => Ok {| gg_grant_id := 1; gg_connector_id := 42;
      gg_rights := DISPLAY_V1_RIGHTS; gg_state := 2; gg_flags := 0; gg_output_index := 0;
      gg_reserved := 0 |} |}).
  set (lease := {| gl_holder := 3; gl_lifetime := ExternalGrantor;
     gl_metadata := {| gm_grant_id := 1; gm_connector_id := 42; gm_output_index := 0;
       gm_rights := DISPLAY_V1_RIGHTS; gm_flags := 0; gm_initial_state := 1;
       gm_capture_uapi_major := 0; gm_capture_uapi_minor := 12 |} |}).
  exists W, lease. apply (client_new_iff (H := W) lease lease).
  - intros q [= <-]. simpl. lia.
  - split; [reflexivity|]. eexists. split; [reflexivity|]. simpl. split_and!; reflexivity.
Defined.
