(* ===== verification/CastkmsEvent.v ===== *)
(** * DRM events of a grant holder (crates/pronk-core/src/castkms_event.rs)

    The incremental decoder of the byte stream read from the holder, the scope
    check on decoded events and the nonblocking drain.  Native-endian reads
    are little-endian, as on the x86-64 and AArch64 hosts of the program.

    The decoder keeps an incomplete record in [carry] between reads.  Its
    specification, [parse], decodes a whole stream at once; [push] is proved
    to compute [parse] of everything pushed so far, however the stream is cut
    into reads. *)

From S2P Require Import Prelude Bytes Text CastkmsSys Grant Castkms.

Definition DRM_EVENT_HEADER_SIZE : nat := size_of DrmEvent.
Definition DRM_EVENT_READ_SIZE : nat := Z.to_nat 4096.
Definition MAX_DRM_EVENT_SIZE : nat := Z.to_nat 4096.
Definition MAX_EVENTS_PER_READINESS : nat := Z.to_nat 1024.

Definition GRANT_REVOKED_EVENT_SIZE : nat := size_of DrmEventCastkmsGrantRevoked.
Definition GRANT_STATE_EVENT_SIZE : nat := size_of DrmEventCastkmsGrantState.
Definition CAPTURE_FRAME_EVENT_SIZE : nat := size_of DrmEventCastkmsCaptureFrame.
Definition CEC_TRANSMIT_EVENT_SIZE : nat := size_of DrmEventCastkmsCecTx.

(** ** Events *)

Record GrantRevokedEvent := { re_grant_id : Z; re_status : Z; re_timestamp_ns : Z }.

Record GrantStateEvent := {
  gse_grant_id : Z; gse_state : GrantState; gse_status : Z; gse_timestamp_ns : Z }.

Record CaptureFrameEvent := {
  fe_user_data : Z; fe_sequence : Z; fe_timestamp_ns : Z; fe_mode_generation : Z;
  fe_stream_id : Z; fe_buffer_id : Z; fe_status : Z; fe_flags : Z; fe_dropped_frames : Z;
  fe_damage_x : Z; fe_damage_y : Z; fe_damage_width : Z; fe_damage_height : Z;
  fe_cursor_serial : Z; fe_cursor_flags : Z; fe_cursor_x : Z; fe_cursor_y : Z;
  fe_cursor_hotspot_x : Z; fe_cursor_hotspot_y : Z; fe_cursor_width : Z;
  fe_cursor_height : Z }.

Record CecTransmitEvent := {
  te_transport_id : Z; te_transport_generation : Z; te_state_generation : Z;
  te_cookie : Z; te_connector_id : Z; te_output_index : Z; te_attempts : Z;
  te_signal_free_time : Z; te_message_length : Z; te_message : list Z }.

(** [CecTransmitEvent::message]. *)
Definition cec_message {E} (e : CecTransmitEvent) : outcome E (list Z) :=
  slice (te_message e) 0 (Z.to_nat (te_message_length e)).

Record UnknownEvent := { ue_event_type : Z; ue_length : Z }.

Inductive CastKmsEvent :=
  | CaptureFrame (e : CaptureFrameEvent)
  | CecTransmit (e : CecTransmitEvent)
  | GrantStateChanged (e : GrantStateEvent)
  | GrantRevoked (e : GrantRevokedEvent)
  | UnknownRecord (e : UnknownEvent).

Inductive EventDecodeError :=
  | InputTooLarge (actual maximum : nat)
  | LengthTooSmall (event_type length : Z)
  | LengthTooLarge (event_type length : Z) (maximum : nat)
  | KnownEventTooShort (event_type actual : Z) (minimum : nat)
  | NonZeroReserved (event_type value : Z)
  | UnknownGrantStateEvent (state : Z)
  | InvalidCecTransmit (what : string)
  | Truncated (buffered : nat) (expected : option Z).

(** ** Decoding one record *)

Definition read_u16 {E} (bytes : list Z) (offset : nat) : outcome E Z := get_le bytes offset 2.
Definition read_u32 {E} (bytes : list Z) (offset : nat) : outcome E Z := get_le bytes offset 4.
Definition read_u64 {E} (bytes : list Z) (offset : nat) : outcome E Z := get_le bytes offset 8.
Definition read_i32 {E} (bytes : list Z) (offset : nat) : outcome E Z :=
  let? v := get_le bytes offset 4 in Ok (to_signed 32 v).
Definition read_i64 {E} (bytes : list Z) (offset : nat) : outcome E Z :=
  let? v := get_le bytes offset 8 in Ok (to_signed 64 v).

Definition validate_declared_length (event_type declared_length : Z)
    : outcome EventDecodeError nat :=
  let length := Z.to_nat declared_length in
  try? reject (bool_decide (length < DRM_EVENT_HEADER_SIZE)%nat)
         (LengthTooSmall event_type declared_length);
  try? reject (bool_decide (MAX_DRM_EVENT_SIZE < length)%nat)
         (LengthTooLarge event_type declared_length MAX_DRM_EVENT_SIZE);
  Ok length.

Definition require_known_prefix (event_type actual : Z) (minimum : nat)
    : outcome EventDecodeError unit :=
  if bool_decide (minimum <= Z.to_nat actual)%nat then Ok tt
  else Err (KnownEventTooShort event_type actual minimum).

Definition require_zero_reserved (event_type value : Z) : outcome EventDecodeError unit :=
  if value =? 0 then Ok tt else Err (NonZeroReserved event_type value).

Fixpoint require_all (checks : list (bool * string)) : outcome EventDecodeError unit :=
  match checks with
  | [] => Ok tt
  | (valid, field) :: rest =>
      try? reject (negb valid) (InvalidCecTransmit field); require_all rest
  end.

Definition decode_grant_revoked (bytes : list Z) (event_type declared_length : Z)
    : outcome EventDecodeError CastKmsEvent :=
  try? require_known_prefix event_type declared_length GRANT_REVOKED_EVENT_SIZE;
  let? grant_id := read_u32 bytes 8 in
  let? status := read_i32 bytes 12 in
  let? timestamp_ns := read_u64 bytes 16 in
  Ok (GrantRevoked {| re_grant_id := grant_id; re_status := status;
                      re_timestamp_ns := timestamp_ns |}).

Definition decode_grant_state (bytes : list Z) (event_type declared_length : Z)
    : outcome EventDecodeError CastKmsEvent :=
  try? require_known_prefix event_type declared_length GRANT_STATE_EVENT_SIZE;
  let? raw_state := read_u32 bytes 12 in
  let? state := omap_err (fun _ => UnknownGrantStateEvent raw_state)
                  (GrantState_try_from raw_state) in
  let? reserved := read_u32 bytes 20 in
  try? require_zero_reserved event_type reserved;
  let? grant_id := read_u32 bytes 8 in
  let? status := read_i32 bytes 16 in
  let? timestamp_ns := read_u64 bytes 24 in
  Ok (GrantStateChanged {| gse_grant_id := grant_id; gse_state := state; gse_status := status;
                           gse_timestamp_ns := timestamp_ns |}).

Definition decode_capture_frame (bytes : list Z) (event_type declared_length : Z)
    : outcome EventDecodeError CastKmsEvent :=
  try? require_known_prefix event_type declared_length CAPTURE_FRAME_EVENT_SIZE;
  let? reserved := read_u32 bytes 108 in
  try? require_zero_reserved event_type reserved;
  let? user_data := read_u64 bytes 8 in
  let? sequence := read_u64 bytes 16 in
  let? timestamp_ns := read_i64 bytes 24 in
  let? mode_generation := read_u64 bytes 32 in
  let? stream_id := read_u32 bytes 40 in
  let? buffer_id := read_u32 bytes 44 in
  let? status := read_i32 bytes 48 in
  let? flags := read_u32 bytes 52 in
  let? dropped_frames := read_u32 bytes 56 in
  let? damage_x := read_i32 bytes 60 in
  let? damage_y := read_i32 bytes 64 in
  let? damage_width := read_u32 bytes 68 in
  let? damage_height := read_u32 bytes 72 in
  let? cursor_serial := read_u32 bytes 76 in
  let? cursor_flags := read_u32 bytes 80 in
  let? cursor_x := read_i32 bytes 84 in
  let? cursor_y := read_i32 bytes 88 in
  let? cursor_hotspot_x := read_u32 bytes 92 in
  let? cursor_hotspot_y := read_u32 bytes 96 in
  let? cursor_width := read_u32 bytes 100 in
  let? cursor_height := read_u32 bytes 104 in
  Ok (CaptureFrame
        {| fe_user_data := user_data; fe_sequence := sequence; fe_timestamp_ns := timestamp_ns;
           fe_mode_generation := mode_generation; fe_stream_id := stream_id;
           fe_buffer_id := buffer_id; fe_status := status; fe_flags := flags;
           fe_dropped_frames := dropped_frames; fe_damage_x := damage_x;
           fe_damage_y := damage_y; fe_damage_width := damage_width;
           fe_damage_height := damage_height; fe_cursor_serial := cursor_serial;
           fe_cursor_flags := cursor_flags; fe_cursor_x := cursor_x; fe_cursor_y := cursor_y;
           fe_cursor_hotspot_x := cursor_hotspot_x; fe_cursor_hotspot_y := cursor_hotspot_y;
           fe_cursor_width := cursor_width; fe_cursor_height := cursor_height |}).

Definition decode_cec_transmit (bytes : list Z) (event_type declared_length : Z)
    : outcome EventDecodeError CastKmsEvent :=
  try? require_known_prefix event_type declared_length CEC_TRANSMIT_EVENT_SIZE;
  let? reserved0 := read_u32 bytes 12 in
  try? require_zero_reserved event_type reserved0;
  let? reserved1 := read_u16 bytes 66 in
  try? require_zero_reserved event_type reserved1;
  let? transport_id := read_u32 bytes 8 in
  let? transport_generation := read_u64 bytes 16 in
  let? state_generation := read_u64 bytes 24 in
  let? cookie := read_u64 bytes 32 in
  let? connector_id := read_u32 bytes 40 in
  let? attempts := index bytes 48 in
  let? message_length := index bytes 49 in
  try? require_all
    [(negb (transport_id =? 0), "transport ID");
     (negb (transport_generation =? 0), "transport generation");
     (negb (state_generation =? 0), "state generation");
     (negb (cookie =? 0), "transaction cookie");
     (negb (connector_id =? 0), "connector ID");
     (negb (attempts =? 0), "attempt count");
     ((1 <=? message_length) && (message_length <=? 16), "message length")];
  let? message := slice bytes 50 66 in
  let? output_index := read_u32 bytes 44 in
  let? signal_free_time := read_u32 bytes 68 in
  Ok (CecTransmit
        {| te_transport_id := transport_id; te_transport_generation := transport_generation;
           te_state_generation := state_generation; te_cookie := cookie;
           te_connector_id := connector_id; te_output_index := output_index;
           te_attempts := attempts; te_signal_free_time := signal_free_time;
           te_message_length := message_length; te_message := message |}).

Definition decode_event (bytes : list Z) (event_type declared_length : Z)
    : outcome EventDecodeError CastKmsEvent :=
  if event_type =? CAPTURE_EVENT_GRANT_REVOKED then
    decode_grant_revoked bytes event_type declared_length
  else if event_type =? CAPTURE_EVENT_GRANT_STATE then
    decode_grant_state bytes event_type declared_length
  else if event_type =? CAPTURE_EVENT_FRAME then
    decode_capture_frame bytes event_type declared_length
  else if event_type =? CEC_EVENT_TX then
    decode_cec_transmit bytes event_type declared_length
  else Ok (UnknownRecord {| ue_event_type := event_type; ue_length := declared_length |}).

(** ** The incremental decoder

    The decoder's state is its carry.  A call returns the state it leaves and
    its result; the [while] loop runs on fuel, and running out is a panic, so
    that the absence of panics includes the loop's termination. *)

Definition EventDecoder_new : list Z := [].
Definition buffered_len (carry : list Z) : nat := length carry.

Definition decoded := (list Z * outcome EventDecodeError (list CastKmsEvent))%type.

(** The record header of a carry that holds one, with its length validated. *)
Definition read_header (carry : list Z) : outcome EventDecodeError (Z * Z * nat) :=
  let? event_type := read_u32 carry 0 in
  let? declared_length := read_u32 carry 4 in
  let? event_length := validate_declared_length event_type declared_length in
  Ok (event_type, declared_length, event_length).

(** The loop body once the carry holds a header: absorb up to the end of the
    record (the subtraction panics on a carry longer than its record), and
    decode it when complete. *)
Definition push_body (carry input : list Z)
    : list Z * list Z * outcome EventDecodeError (option CastKmsEvent) :=
  match read_header carry with
  | Ok (event_type, declared_length, event_length) =>
      if bool_decide (event_length < length carry)%nat then (carry, input, Panic)
      else
        let count := Nat.min (event_length - length carry) (length input) in
        let carry := carry ++ take count input in
        let input := drop count input in
        if bool_decide (length carry < event_length)%nat then (carry, input, Ok None)
        else (carry, input,
              let? event := decode_event carry event_type declared_length in Ok (Some event))
  | Err e => (carry, input, Err e)
  | Panic => (carry, input, Panic)
  end.

Fixpoint push_loop (fuel : nat) (carry input : list Z) (events : list CastKmsEvent) : decoded :=
  match fuel with
  | O => (carry, Panic)
  | S fuel' =>
      if bool_decide (input = []) then (carry, Ok events)
      else
        let count :=
          if bool_decide (length carry < DRM_EVENT_HEADER_SIZE)%nat
          then Nat.min (DRM_EVENT_HEADER_SIZE - length carry) (length input) else O in
        let carry := carry ++ take count input in
        let input := drop count input in
        if bool_decide (length carry < DRM_EVENT_HEADER_SIZE)%nat then (carry, Ok events)
        else
          match push_body carry input with
          | (carry, _, Ok None) => (carry, Ok events)
          | (_, input, Ok (Some event)) => push_loop fuel' [] input (events ++ [event])
          | (carry, _, Err e) => (carry, Err e)
          | (carry, _, Panic) => (carry, Panic)
          end
  end.

Definition push (carry bytes : list Z) : decoded :=
  if bool_decide (DRM_EVENT_READ_SIZE < length bytes)%nat
  then (carry, Err (InputTooLarge (length bytes) DRM_EVENT_READ_SIZE))
  else push_loop (S (S (length bytes))) carry bytes [].

Definition finish (carry : list Z) : outcome EventDecodeError unit :=
  if bool_decide (carry = []) then Ok tt
  else
    let? expected :=
      if bool_decide (DRM_EVENT_HEADER_SIZE <= length carry)%nat
      then let? len := read_u32 carry 4 in Ok (Some len) else Ok None in
    Err (Truncated (length carry) expected).

(** ** The specification: decoding a whole stream at once *)

Fixpoint parse (fuel : nat) (l : list Z)
    : outcome EventDecodeError (list CastKmsEvent * list Z) :=
  match fuel with
  | O => Panic
  | S fuel' =>
      if bool_decide (length l < DRM_EVENT_HEADER_SIZE)%nat then Ok ([], l)
      else
        match read_header l with
        | Ok (event_type, declared_length, event_length) =>
            if bool_decide (length l < event_length)%nat then Ok ([], l)
            else
              let? event := decode_event (take event_length l) event_type declared_length in
              let? parsed := parse fuel' (drop event_length l) in
              Ok (event :: parsed.1, parsed.2)
        | Err e => Err e
        | Panic => Panic
        end
  end.

Definition parse_stream (l : list Z) := parse (S (length l)) l.

(** A carry that needs more input: less than a header, or less than the
    record its header announces. *)
Definition incomplete (carry : list Z) : Prop :=
  (length carry < DRM_EVENT_HEADER_SIZE)%nat \/
  exists ty dl el, read_header carry = Ok (ty, dl, el) /\ (length carry < el)%nat.

Lemma header_size : DRM_EVENT_HEADER_SIZE = 8%nat.
Proof. reflexivity. Qed.

Lemma get_le_app_l {E} (x y : list Z) off n :
  (off + n <= length x)%nat -> get_le (E:=E) (x ++ y) off n = get_le x off n.
Proof.
  intros. rewrite !get_le_ok by (rewrite ?length_app; lia).
  by rewrite drop_app_le, take_app_le by (rewrite ?length_drop; lia).
Qed.

Lemma read_header_app carry x :
  (DRM_EVENT_HEADER_SIZE <= length carry)%nat -> read_header (carry ++ x) = read_header carry.
Proof.
  rewrite header_size. intros. unfold read_header, read_u32.
  by rewrite !get_le_app_l by lia.
Qed.

Lemma read_header_inv l ty dl el : read_header l = Ok (ty, dl, el) ->
  el = Z.to_nat dl /\ (DRM_EVENT_HEADER_SIZE <= el <= MAX_DRM_EVENT_SIZE)%nat.
Proof.
  unfold read_header, validate_declared_length. intros H. ok_inv. breflect.
  simplify_eq. split; [done|lia].
Qed.

Lemma read_header_safe l : (DRM_EVENT_HEADER_SIZE <= length l)%nat -> read_header l <> Panic.
Proof.
  rewrite header_size. intros. unfold read_header, read_u32.
  rewrite !get_le_ok by lia. simpl. unfold validate_declared_length.
  do 2 (match goal with |- context [reject ?c _] => destruct c end; [done|]; simpl). done.
Qed.

(** *** Decoding never reads out of range *)

Lemma safe_get_le {E} l off n P : (off + n <= length l)%nat ->
  (forall v, P v) -> safe (get_le (E:=E) l off n) P.
Proof. intros. rewrite get_le_ok by done. simpl. auto. Qed.

Lemma safe_require_known_prefix ty dl m :
  safe (require_known_prefix ty dl m) (fun _ => (m <= Z.to_nat dl)%nat).
Proof. unfold require_known_prefix. by case_bool_decide. Qed.

Lemma safe_require_zero_reserved ty v : safe (require_zero_reserved ty v) (fun _ => v = 0).
Proof. unfold require_zero_reserved. case_match; breflect; done. Qed.

Lemma safe_require_all l : safe (require_all l) (fun _ => Forall (fun c => c.1 = true) l).
Proof.
  induction l as [|[c s] l IH]; [constructor|]. simpl. apply safe_reject_seq. intros Hc.
  eapply safe_weaken; [exact IH|]. intros u H. constructor; [|done]. by apply negb_false_iff in Hc.
Qed.

Lemma safe_index {E} (l : list Z) i P : (i < length l)%nat -> (forall v, P v) ->
  safe (index (E:=E) l i) P.
Proof.
  intros Hi HP. unfold index. destruct (lookup_lt_is_Some_2 l i Hi) as [x Hx]. rewrite Hx. simpl. auto.
Qed.

Ltac safe_read :=
  match goal with
  | |- safe (obind (obind (get_le _ _ _) _) _) _ =>
      eapply safe_bind with (Q := fun _ => True);
      [eapply safe_bind with (Q := fun _ => True); [apply safe_get_le; [lia|done]|done]|intros ? _]
  | |- safe (obind (get_le _ _ _) _) _ =>
      eapply safe_bind with (Q := fun _ => True); [apply safe_get_le; [lia|done]|intros ? _]
  | |- safe (obind (index _ _) _) _ =>
      eapply safe_bind with (Q := fun _ => True); [apply safe_index; [lia|done]|intros ? _]
  | |- safe (obind (require_zero_reserved _ _) _) _ =>
      eapply safe_bind; [apply safe_require_zero_reserved|intros ? _]
  | |- safe (obind (require_all _) _) _ =>
      eapply safe_bind; [apply safe_require_all|intros ? ?]
  end.

Lemma decode_event_safe bytes ty dl :
  (Z.to_nat dl <= length bytes)%nat -> safe (decode_event bytes ty dl) (fun _ => True).
Proof.
  intros Hl. unfold decode_event.
  repeat match goal with |- safe (if ?c then _ else _) _ => destruct c end; [| | | |done].
  all: unfold decode_grant_revoked, decode_grant_state, decode_capture_frame,
    decode_cec_transmit, read_u16, read_u32, read_u64, read_i32, read_i64;
    eapply safe_bind; [apply safe_require_known_prefix|]; intros u; cbv beta;
    match goal with |- (?m <= _)%nat -> _ => let v := eval vm_compute in m in change m with v end;
    intros Hm; repeat safe_read.
  - done.
  - eapply safe_bind with (Q := fun _ => True); [apply safe_map_err|intros; repeat safe_read; done].
    unfold GrantState_try_from. by repeat case_match.
  - done.
  - rewrite slice_ok by lia. cbn [obind]. repeat safe_read. done.
Qed.

(** *** The specification, unfolded *)

Lemma parse_fuel f1 f2 l :
  (length l < f1)%nat -> (length l < f2)%nat -> parse f1 l = parse f2 l.
Proof.
  revert f2 l. induction f1 as [|f1 IH]; intros [|f2] l H1 H2; [lia..|].
  cbn [parse]. case_bool_decide as Hs; [done|].
  destruct (read_header l) as [[[ty dl] el]| |] eqn:Hh; [|done..].
  apply read_header_inv in Hh as [_ Hel]. rewrite header_size in *.
  case_bool_decide; [done|]. by rewrite (IH f2) by (rewrite length_drop; lia).
Qed.

Lemma parse_stream_short l : (length l < DRM_EVENT_HEADER_SIZE)%nat -> parse_stream l = Ok ([], l).
Proof. intros. unfold parse_stream. cbn [parse]. by rewrite bool_decide_eq_true_2. Qed.

Lemma parse_stream_long l : (DRM_EVENT_HEADER_SIZE <= length l)%nat ->
  parse_stream l =
  match read_header l with
  | Ok (ty, dl, el) =>
      if bool_decide (length l < el)%nat then Ok ([], l)
      else
        let? event := decode_event (take el l) ty dl in
        let? parsed := parse_stream (drop el l) in
        Ok (event :: parsed.1, parsed.2)
  | Err e => Err e
  | Panic => Panic
  end.
Proof.
  intros Hl. unfold parse_stream at 1. cbn [parse]. rewrite bool_decide_eq_false_2 by lia.
  destruct (read_header l) as [[[ty dl] el]| |] eqn:Hh; [|done..].
  apply read_header_inv in Hh as [_ Hel]. rewrite header_size in *.
  case_bool_decide; [done|]. unfold parse_stream.
  by rewrite (parse_fuel _ (S (length (drop el l)))) by (rewrite ?length_drop; lia).
Qed.

Lemma parse_stream_incomplete l : incomplete l -> parse_stream l = Ok ([], l).
Proof.
  intros [H|(ty & dl & el & Hh & H)]; [by apply parse_stream_short|].
  destruct (decide (DRM_EVENT_HEADER_SIZE <= length l)%nat); [|apply parse_stream_short; lia].
  rewrite parse_stream_long, Hh by done. by rewrite bool_decide_eq_true_2.
Qed.

(** The specification never panics, and what it leaves is incomplete. *)
Lemma parse_stream_safe l : safe (parse_stream l) (fun p => incomplete p.2).
Proof.
  induction l as [l IH] using (induction_ltof1 _ length). unfold ltof in IH.
  destruct (decide (DRM_EVENT_HEADER_SIZE <= length l)%nat) as [Hl|Hl];
    [|rewrite parse_stream_short by lia; left; simpl; lia].
  rewrite parse_stream_long by done.
  destruct (read_header l) as [[[ty dl] el]| |] eqn:Hh; [|done|by eapply read_header_safe].
  pose proof (read_header_inv _ _ _ _ Hh) as [Hdl Hel]. rewrite header_size in *.
  case_bool_decide as Hc; [right; simpl; eauto|].
  eapply safe_bind; [apply decode_event_safe; rewrite length_take; lia|]. intros ev _.
  eapply safe_bind; [apply IH; rewrite length_drop; lia|]. by intros [es r].
Qed.

(** *** The decoder computes the specification *)

(** The body of the loop on a carry with a complete header: it stops with the
    whole input absorbed, or decodes the first record of [carry ++ input]. *)
Lemma push_body_spec carry input ty dl el :
  read_header carry = Ok (ty, dl, el) -> (length carry <= el)%nat ->
  push_body carry input =
  if bool_decide (length (carry ++ input) < el)%nat then (carry ++ input, [], Ok None)
  else (take el (carry ++ input), drop el (carry ++ input),
        let? event := decode_event (take el (carry ++ input)) ty dl in Ok (Some event)).
Proof.
  intros Hh Hc. unfold push_body. rewrite Hh, bool_decide_eq_false_2 by lia. cbn zeta.
  rewrite length_app. destruct (decide (length carry + length input < el)%nat) as [Hlt|Hge].
  - replace ((el - length carry) `min` length input)%nat with (length input) by lia.
    rewrite firstn_all, skipn_all, length_app, !bool_decide_eq_true_2 by lia. done.
  - replace ((el - length carry) `min` length input)%nat with (el - length carry)%nat by lia.
    rewrite length_app, length_take, !bool_decide_eq_false_2 by lia.
    rewrite (take_app carry input), (drop_app carry input), (take_ge carry), (drop_ge carry) by lia.
    done.
Qed.

(** Completing the header first: the loop's intermediate carry. *)
Lemma incomplete_step carry input :
  incomplete carry -> input <> [] ->
  let count := if bool_decide (length carry < DRM_EVENT_HEADER_SIZE)%nat
               then Nat.min (DRM_EVENT_HEADER_SIZE - length carry) (length input) else O in
  let carry1 := carry ++ take count input in
  carry1 ++ drop count input = carry ++ input /\
  (length carry1 < DRM_EVENT_HEADER_SIZE /\ drop count input = [] \/
   DRM_EVENT_HEADER_SIZE <= length carry1 /\
   (length (drop count input) < length input \/
    exists ty dl el, read_header carry1 = Ok (ty, dl, el) /\ length carry1 < el) /\
   forall ty dl el, read_header carry1 = Ok (ty, dl, el) -> length carry1 <= el)%nat.
Proof.
  intros Hi Hne count carry1. subst carry1. rewrite header_size in *.
  split; [by rewrite <- app_assoc, take_drop|].
  assert (0 < length input)%nat by (destruct input; simpl; [done|lia]).
  destruct (decide (length carry < 8)%nat) as [Hs|Hs].
  - assert (count = (8 - length carry) `min` length input)%nat as Hct
      by (unfold count; rewrite header_size; by rewrite bool_decide_eq_true_2).
    rewrite length_app, length_take, Hct.
    destruct (decide (length carry + length input < 8)%nat).
    + left. split; [lia|]. apply drop_ge. lia.
    + right. split_and!; [lia|left; rewrite length_drop; lia|].
      intros ty dl el Hh. apply read_header_inv in Hh as [_ Hel]. rewrite header_size in Hel. lia.
  - assert (count = O) as -> by (unfold count; rewrite header_size; by rewrite bool_decide_eq_false_2).
    rewrite take_0, drop_0, app_nil_r. right. destruct Hi as [?|(ty & dl & el & Hh & Hlt)].
    { rewrite header_size in *. lia. }
    split_and!; [lia|right; eauto|]. intros ty' dl' el' Hh'. rewrite Hh in Hh'. simplify_eq. lia.
Qed.

Lemma push_loop_parse fuel carry input events :
  incomplete carry -> (length input < fuel)%nat ->
  match parse_stream (carry ++ input) with
  | Ok (es, r) => push_loop fuel carry input events = (r, Ok (events ++ es))
  | Err e => exists r, push_loop fuel carry input events = (r, Err e)
  | Panic => False
  end.
Proof.
  revert carry input events. induction fuel as [|fuel IH]; intros carry input events Hi Hf; [lia|].
  cbn [push_loop]. case_bool_decide as Hn.
  { subst input. rewrite app_nil_r, parse_stream_incomplete by done. by rewrite app_nil_r. }
  destruct (incomplete_step carry input Hi Hn) as [Happ Hcase].
  set (count := if bool_decide _ then _ else _) in *. cbn zeta in *.
  set (carry1 := carry ++ take count input) in *. set (input1 := drop count input) in *.
  rewrite <- Happ. destruct Hcase as [[Hs He]|(Hs & Hprog & Hmax)].
  { rewrite He, app_nil_r, bool_decide_eq_true_2, parse_stream_short by done.
    by rewrite app_nil_r. }
  rewrite bool_decide_eq_false_2 by lia.
  rewrite parse_stream_long, read_header_app by (rewrite ?length_app; lia).
  destruct (read_header carry1) as [[[ty dl] el]| |] eqn:Hh.
  - rewrite (push_body_spec _ _ _ _ _ Hh) by by eapply Hmax.
    case_bool_decide as Hc; [by rewrite app_nil_r|].
    pose proof (read_header_inv _ _ _ _ Hh) as [Hdl Hel]. rewrite header_size in Hel.
    destruct (decode_event _ ty dl) as [ev|e|] eqn:Hd; simpl.
    + assert (length (drop el (carry1 ++ input1)) < fuel)%nat as Hf'.
      { rewrite length_drop, length_app in *. specialize (Hmax _ _ _ eq_refl).
        assert (length input1 <= length input)%nat by (unfold input1; rewrite length_drop; lia).
        destruct Hprog as [?|(?&?&?&Hx&?)]; [lia|]. simplify_eq. lia. }
      specialize (IH [] (drop el (carry1 ++ input1)) (events ++ [ev])). simpl in IH.
      pose proof (IH ltac:(left; simpl; rewrite header_size; lia) Hf') as IH'. clear IH.
      destruct (parse_stream (drop el (carry1 ++ input1))) as [[es r]|e|]; simpl.
      * by rewrite IH', <- app_assoc.
      * done.
      * done.
    + by eexists.
    + eapply safe_no_panic; [|exact Hd]. apply decode_event_safe. rewrite length_take. lia.
  - unfold push_body. rewrite Hh. by eexists.
  - by eapply read_header_safe.
Qed.

Lemma push_parse carry input :
  incomplete carry -> (length input <= DRM_EVENT_READ_SIZE)%nat ->
  match parse_stream (carry ++ input) with
  | Ok (es, r) => push carry input = (r, Ok es)
  | Err e => exists r, push carry input = (r, Err e)
  | Panic => False
  end.
Proof.
  intros Hi Hl. unfold push. rewrite bool_decide_eq_false_2 by lia.
  exact (push_loop_parse (S (S (length input))) carry input [] Hi ltac:(lia)).
Qed.

(** *** Cutting the stream *)

(** Successive reads pushed into one decoder; the first error ends the stream. *)
Fixpoint feed (carry : list Z) (chunks : list (list Z)) : decoded :=
  match chunks with
  | [] => (carry, Ok [])
  | c :: rest =>
      match push carry c with
      | (carry', Ok es) =>
          match feed carry' rest with
          | (r, Ok es') => (r, Ok (es ++ es'))
          | other => other
          end
      | other => other
      end
  end.

Lemma parse_stream_app a b :
  match parse_stream a with
  | Ok (es, r) =>
      parse_stream (a ++ b)
      = (let? p := parse_stream (r ++ b) in Ok (es ++ p.1, p.2))
  | Err e => parse_stream (a ++ b) = Err e
  | Panic => False
  end.
Proof.
  induction a as [a IH] using (induction_ltof1 _ length). unfold ltof in IH.
  assert (forall m : outcome EventDecodeError (list CastKmsEvent * list Z),
    m = let? p := m in Ok ([] ++ p.1, p.2)) as Hid by (intros [[? ?]| |]; done).
  destruct (decide (DRM_EVENT_HEADER_SIZE <= length a)%nat) as [Hl|Hl];
    [|rewrite parse_stream_short by lia; apply Hid].
  rewrite (parse_stream_long a), (parse_stream_long (a ++ b)), read_header_app
    by (rewrite ?length_app; lia).
  destruct (read_header a) as [[[ty dl] el]| |] eqn:Hh; [|done|by eapply read_header_safe].
  pose proof (read_header_inv _ _ _ _ Hh) as [Hdl Hel]. rewrite header_size in *.
  case_bool_decide as Hc.
  { rewrite <- Hid, (parse_stream_long (a ++ b)), read_header_app, Hh
      by (rewrite ?length_app, ?header_size; lia). done. }
  rewrite bool_decide_eq_false_2 by (rewrite length_app; lia).
  rewrite take_app_le, drop_app_le by lia.
  destruct (decode_event (take el a) ty dl) as [ev| |] eqn:Hd; cbn [obind]; [|done|].
  - specialize (IH (drop el a) ltac:(rewrite length_drop; lia)).
    destruct (parse_stream (drop el a)) as [[es r]| |]; cbn [obind]; [|by rewrite IH|done].
    simpl. rewrite IH. destruct (parse_stream (r ++ b)); done.
  - eapply safe_no_panic; [|exact Hd]. apply decode_event_safe. rewrite length_take. lia.
Qed.

Lemma feed_parse carry chunks :
  incomplete carry -> Forall (fun c => (length c <= DRM_EVENT_READ_SIZE)%nat) chunks ->
  match parse_stream (carry ++ concat chunks) with
  | Ok (es, r) => feed carry chunks = (r, Ok es)
  | Err e => exists r, feed carry chunks = (r, Err e)
  | Panic => False
  end.
Proof.
  intros Hi Hc. revert carry Hi. induction Hc as [|c rest Hc _ IH]; intros carry Hi.
  { simpl. by rewrite app_nil_r, parse_stream_incomplete. }
  cbn [concat feed]. rewrite app_assoc.
  pose proof (parse_stream_app (carry ++ c) (concat rest)) as Ha.
  pose proof (push_parse carry c Hi Hc) as Hp.
  pose proof (parse_stream_safe (carry ++ c)) as Hs.
  destruct (parse_stream (carry ++ c)) as [[es r]|e|]; [|destruct Hp as [r Hp]|done].
  - rewrite Ha, Hp. specialize (IH r Hs).
    destruct (parse_stream (r ++ concat rest)) as [[es' r']|e|]; simpl; [by rewrite IH| |done].
    destruct IH as [r' ->]. by eexists.
  - rewrite Ha, Hp. by eexists.
Qed.

(** C39: Cutting the event stream into reads does not matter: whatever reads of
    at most 4096 bytes deliver a stream, the decoder returns the events of the
    stream decoded at once and keeps its incomplete tail, or reports the error
    that decoding it at once reports; in particular it terminates and does not
    panic. *)
Theorem feed_chunking chunks :
  Forall (fun c => (length c <= DRM_EVENT_READ_SIZE)%nat) chunks ->
  match parse_stream (concat chunks) with
  | Ok (es, r) => feed EventDecoder_new chunks = (r, Ok es) /\ incomplete r
  | Err e => exists r, feed EventDecoder_new chunks = (r, Err e)
  | Panic => False
  end.
Proof.
  intros Hc. pose proof (feed_parse [] chunks ltac:(left; simpl; rewrite header_size; lia) Hc) as H.
  pose proof (parse_stream_safe (concat chunks)) as Hs. simpl in H.
  destruct (parse_stream (concat chunks)) as [[es r]|e|]; [by split|done|done].
Qed.

(** A revocation record followed by half of the next header, in three reads. *)
Lemma feed_chunking_witness :
  let stream := le_bytes 4 CAPTURE_EVENT_GRANT_REVOKED ++ le_bytes 4 24 ++ le_bytes 4 7
                ++ le_bytes 4 0 ++ le_bytes 8 99 ++ [3; 0; 0; 128] in
  let chunks := [take 5 stream; take 14 (drop 5 stream); drop 19 stream] in
  feed EventDecoder_new chunks =
    ([3; 0; 0; 128],
     Ok [GrantRevoked {| re_grant_id := 7; re_status := 0; re_timestamp_ns := 99 |}])
  /\ incomplete [3; 0; 0; 128].
Proof.
  intros stream chunks.
  assert (Forall (fun c => (length c <= DRM_EVENT_READ_SIZE)%nat) chunks) as Hc.
  { repeat (apply Forall_cons; split; [apply Nat.leb_le; vm_compute; reflexivity|]). constructor. }
  exact (feed_chunking chunks Hc).
Defined.

(** *** Every reachable decoder state *)

Inductive reached : list Z -> Prop :=
  | reached_new : reached EventDecoder_new
  | reached_push c input : reached c -> reached (push c input).1.

(** What holds also after an error: at most a header, or at most the record
    the header announces. *)
Definition bounded (carry : list Z) : Prop :=
  (length carry <= DRM_EVENT_HEADER_SIZE)%nat \/
  exists ty dl el, read_header carry = Ok (ty, dl, el) /\ (length carry <= el)%nat.

Lemma incomplete_bounded c : incomplete c -> bounded c.
Proof. intros [?|(ty & dl & el & Hh & ?)]; [left; lia|right; exists ty, dl, el; split; [done|lia]]. Qed.

Lemma read_header_take l ty dl el :
  read_header l = Ok (ty, dl, el) -> (el <= length l)%nat ->
  read_header (take el l) = Ok (ty, dl, el).
Proof.
  intros Hh Hl. pose proof (read_header_inv _ _ _ _ Hh) as [_ Hel].
  pose proof (read_header_app (take el l) (drop el l)) as Ha. rewrite take_drop in Ha.
  rewrite <- Ha; [done|]. rewrite length_take. lia.
Qed.

(** One iteration from a bounded carry leaves a bounded carry, and does not
    panic; another iteration starts from an empty carry. *)
Lemma push_body_bounded carry input :
  bounded carry -> (DRM_EVENT_HEADER_SIZE <= length carry)%nat ->
  bounded (push_body carry input).1.1 /\ (push_body carry input).2 <> Panic /\
  (length (push_body carry input).1.2 <= length input)%nat.
Proof.
  intros Hb Hl. destruct (read_header carry) as [[[ty dl] el]| |] eqn:Hh.
  2: { unfold push_body. rewrite Hh. simpl. by split_and!. }
  2: { by apply read_header_safe in Hh. }
  pose proof (read_header_inv _ _ _ _ Hh) as [Hdl Hel].
  assert (length carry <= el)%nat as Hce.
  { destruct Hb as [?|(?&?&?&Hx&?)]; [lia|]. rewrite Hh in Hx. simplify_eq. lia. }
  rewrite (push_body_spec _ _ _ _ _ Hh Hce). case_bool_decide as Hc; cbn [fst snd].
  - split_and!; [|done|simpl; lia]. right. exists ty, dl, el. rewrite read_header_app by lia.
    split; [done|lia].
  - split_and!.
    + right. exists ty, dl, el. rewrite (read_header_take _ ty dl); [|by rewrite read_header_app|lia].
      split; [done|]. rewrite length_take. lia.
    + intros Hp. destruct (decode_event _ ty dl) eqn:Hd; [done..|].
      eapply safe_no_panic; [|exact Hd]. apply decode_event_safe. rewrite length_take. lia.
    + rewrite length_drop, length_app. lia.
Qed.

Lemma push_loop_bounded fuel carry input events :
  bounded carry ->
  (length carry < DRM_EVENT_HEADER_SIZE /\ length input < fuel \/ S (length input) < fuel)%nat ->
  bounded (push_loop fuel carry input events).1 /\ (push_loop fuel carry input events).2 <> Panic.
Proof.
  revert carry input events.
  induction fuel as [|fuel IH]; intros carry input events Hb Hf; [lia|].
  cbn [push_loop]. case_bool_decide as Hn; [done|].
  set (count := if bool_decide (length carry < DRM_EVENT_HEADER_SIZE)%nat then _ else _).
  cbn zeta.
  set (carry1 := carry ++ take count input). set (input1 := drop count input).
  assert (length carry1 <= DRM_EVENT_HEADER_SIZE /\
          (DRM_EVENT_HEADER_SIZE <= length carry1 -> length input1 < length input) \/
          DRM_EVENT_HEADER_SIZE <= length carry /\ carry1 = carry)%nat as Hc1.
  { unfold carry1, input1, count. case_bool_decide; [left|right].
    - rewrite length_app, length_take, length_drop. lia.
    - rewrite take_0, app_nil_r. split; [lia|done]. }
  case_bool_decide as Hs; [split; [left; simpl; lia|done]|].
  destruct (push_body_bounded carry1 input1) as (Hb' & Hp & Hi);
    [destruct Hc1 as [[? _]|[_ ->]]; [by left|done]|lia|].
  assert (length input1 <= length input)%nat by (unfold input1; rewrite length_drop; lia).
  destruct (push_body carry1 input1) as [[c' i'] [[ev|]|e|]]; simpl in *; [|done..].
  apply IH; [left; simpl; lia|]. left. simpl. rewrite header_size in *. lia.
Qed.

Lemma reached_bounded c : reached c -> bounded c.
Proof.
  induction 1 as [|c input _ IH]; [left; simpl; lia|]. unfold push.
  case_bool_decide; [done|]. apply push_loop_bounded; [done|]. right. lia.
Qed.

(** In every state the decoder can reach, errors included, its carry holds
    at most 4096 bytes, and neither a further read of any size nor the end of
    the stream makes it panic or loop. *)
Theorem decoder_bounded c : reached c ->
  (length c <= MAX_DRM_EVENT_SIZE)%nat /\ (forall input, (push c input).2 <> Panic) /\
  finish c <> Panic.
Proof.
  intros Hb%reached_bounded. split_and!.
  - destruct Hb as [Hb|(ty & dl & el & Hh & Hb)].
    + rewrite header_size in Hb. unfold MAX_DRM_EVENT_SIZE. lia.
    + apply read_header_inv in Hh as [_ ?]. lia.
  - intros input. unfold push. case_bool_decide; [done|].
    apply push_loop_bounded; [done|]. right. lia.
  - unfold finish. case_bool_decide; [done|]. case_bool_decide as Hl; [|done].
    unfold read_u32. rewrite header_size in Hl. by rewrite get_le_ok by lia.
Qed.

(** A record whose declared length is below the header: the error is sticky. *)
Lemma decoder_bounded_witness :
  let c := (push EventDecoder_new [1; 0; 0; 0; 7; 0; 0; 0; 9]).1 in
  reached c /\ length c = 8%nat /\ (push c [1]).2 = Err (LengthTooSmall 1 7) /\
  (push c [2]).2 <> Panic.
Proof.
  intros c. assert (reached c) as Hr by apply reached_push, reached_new.
  split; [exact Hr|]. split; [reflexivity|]. split; [reflexivity|].
  destruct (decoder_bounded c Hr) as (_ & H & _). apply H.
Defined.

(** ** Records as the kernel lays them out

    [cencode] writes a [#[repr(C)]] structure field by field at the offsets of
    its layout.  A record is its structure, in which the header carries the
    event type and the total length, followed by extension bytes a newer
    kernel may append. *)
Fixpoint cencode (off : nat) (fields : list ctype) (vals : list Z) : list Z :=
  match fields, vals with
  | t :: fs, v :: vs =>
      let here := align_up off (calign t) in
      replicate (here - off) 0 ++ le_bytes (csize t) v ++ cencode (here + csize t) fs vs
  | _, _ => []
  end.

Definition GrantState_code (s : GrantState) : Z :=
  match s with
  | Pending => GRANT_STATE_PENDING
  | Active => GRANT_STATE_ACTIVE
  | SuspendedNoMaster => GRANT_STATE_SUSPENDED_NO_MASTER
  | SuspendedOtherMaster => GRANT_STATE_SUSPENDED_OTHER_MASTER
  | SuspendedForeignContent => GRANT_STATE_SUSPENDED_FOREIGN_CONTENT
  | Revoked => GRANT_STATE_REVOKED
  end.

(** The event type, the structure and the values after the header. *)
Definition record_layout (ev : CastKmsEvent) : Z * list ctype * list Z :=
  match ev with
  | GrantRevoked e => (CAPTURE_EVENT_GRANT_REVOKED, DrmEventCastkmsGrantRevoked,
      [re_grant_id e; wrap 32 (re_status e); re_timestamp_ns e])
  | GrantStateChanged e => (CAPTURE_EVENT_GRANT_STATE, DrmEventCastkmsGrantState,
      [gse_grant_id e; GrantState_code (gse_state e); wrap 32 (gse_status e); 0;
       gse_timestamp_ns e])
  | CaptureFrame e => (CAPTURE_EVENT_FRAME, DrmEventCastkmsCaptureFrame,
      [fe_user_data e; fe_sequence e; wrap 64 (fe_timestamp_ns e); fe_mode_generation e;
       fe_stream_id e; fe_buffer_id e; wrap 32 (fe_status e); fe_flags e; fe_dropped_frames e;
       wrap 32 (fe_damage_x e); wrap 32 (fe_damage_y e); fe_damage_width e;
       fe_damage_height e; fe_cursor_serial e; fe_cursor_flags e; wrap 32 (fe_cursor_x e);
       wrap 32 (fe_cursor_y e); fe_cursor_hotspot_x e; fe_cursor_hotspot_y e;
       fe_cursor_width e; fe_cursor_height e; 0])
  | CecTransmit e => (CEC_EVENT_TX, DrmEventCastkmsCecTx,
      [te_transport_id e; 0; te_transport_generation e; te_state_generation e; te_cookie e;
       te_connector_id e; te_output_index e; te_attempts e; te_message_length e;
       of_le (te_message e); 0; te_signal_free_time e])
  | UnknownRecord e => (ue_event_type e, [CBase], [])
  end.

Definition encode_record (rec : CastKmsEvent * list Z) : list Z :=
  let '(ev, ext) := rec in
  let '(ty, fields, vals) := record_layout ev in
  let len := Z.of_nat (size_of fields + length ext) in
  cencode 0 fields (ty + 2 ^ 32 * len :: vals) ++ ext.

(** The values a record of the kernel can hold. *)
Definition event_ok (ev : CastKmsEvent) : Prop :=
  match ev with
  | GrantRevoked e => u32 (re_grant_id e) /\ i32 (re_status e) /\ u64 (re_timestamp_ns e)
  | GrantStateChanged e =>
      u32 (gse_grant_id e) /\ i32 (gse_status e) /\ u64 (gse_timestamp_ns e)
  | CaptureFrame e =>
      u64 (fe_user_data e) /\ u64 (fe_sequence e) /\ i64 (fe_timestamp_ns e) /\
      u64 (fe_mode_generation e) /\ u32 (fe_stream_id e) /\ u32 (fe_buffer_id e) /\
      i32 (fe_status e) /\ u32 (fe_flags e) /\ u32 (fe_dropped_frames e) /\
      i32 (fe_damage_x e) /\ i32 (fe_damage_y e) /\ u32 (fe_damage_width e) /\
      u32 (fe_damage_height e) /\ u32 (fe_cursor_serial e) /\ u32 (fe_cursor_flags e) /\
      i32 (fe_cursor_x e) /\ i32 (fe_cursor_y e) /\ u32 (fe_cursor_hotspot_x e) /\
      u32 (fe_cursor_hotspot_y e) /\ u32 (fe_cursor_width e) /\ u32 (fe_cursor_height e)
  | CecTransmit e =>
      u32 (te_transport_id e) /\ u64 (te_transport_generation e) /\
      u64 (te_state_generation e) /\ u64 (te_cookie e) /\ u32 (te_connector_id e) /\
      u32 (te_output_index e) /\ u8 (te_attempts e) /\ u8 (te_message_length e) /\
      u32 (te_signal_free_time e) /\ bytes_ok (te_message e) /\
      length (te_message e) = 16%nat /\
      te_transport_id e <> 0 /\ te_transport_generation e <> 0 /\
      te_state_generation e <> 0 /\ te_cookie e <> 0 /\ te_connector_id e <> 0 /\
      te_attempts e <> 0 /\ 1 <= te_message_length e <= 16
  | UnknownRecord e =>
      u32 (ue_event_type e) /\ ue_event_type e <> CAPTURE_EVENT_GRANT_REVOKED /\
      ue_event_type e <> CAPTURE_EVENT_GRANT_STATE /\ ue_event_type e <> CAPTURE_EVENT_FRAME /\
      ue_event_type e <> CEC_EVENT_TX
  end.

Definition record_ok (rec : CastKmsEvent * list Z) : Prop :=
  event_ok rec.1 /\ (length (encode_record rec) <= MAX_DRM_EVENT_SIZE)%nat /\
  match rec.1 with
  | UnknownRecord e => ue_length e = Z.of_nat (length (encode_record rec))
  | _ => True
  end.

(** The layouts have no padding: the computed offsets are the ones the decoder
    reads at, and the sizes those of the UAPI header. *)
Lemma event_layouts :
  (coffsets 0 DrmEventCastkmsGrantRevoked).1 = [0; 8; 12; 16]%nat /\
  (coffsets 0 DrmEventCastkmsGrantState).1 = [0; 8; 12; 16; 20; 24]%nat /\
  (coffsets 0 DrmEventCastkmsCaptureFrame).1
  = [0; 8; 16; 24; 32; 40; 44; 48; 52; 56; 60; 64; 68; 72; 76; 80; 84; 88; 92; 96; 100; 104;
     108]%nat /\
  (coffsets 0 DrmEventCastkmsCecTx).1
  = [0; 8; 12; 16; 24; 32; 40; 44; 48; 49; 50; 66; 68]%nat /\
  GRANT_REVOKED_EVENT_SIZE = 24%nat /\ GRANT_STATE_EVENT_SIZE = 32%nat /\
  CAPTURE_FRAME_EVENT_SIZE = 112%nat /\ CEC_TRANSMIT_EVENT_SIZE = 72%nat.
Proof. by vm_compute. Qed.

Lemma of_le_app a b : of_le (a ++ b) = of_le a + 256 ^ Z.of_nat (length a) * of_le b.
Proof.
  induction a as [|x a IH]; [by simpl; lia|]. cbn [app of_le length].
  rewrite IH, Nat2Z.inj_succ, Z.pow_succ_r by lia. lia.
Qed.

(** A header is its two words. *)
Lemma base_bytes ty len : u32 ty -> u32 len ->
  le_bytes 8 (ty + 2 ^ 32 * len) = le_bytes 4 ty ++ le_bytes 4 len.
Proof.
  unfold uint. intros Ht Hl.
  rewrite <- (le_bytes_of_le (le_bytes 4 ty ++ le_bytes 4 len))
    by (apply Forall_app; split; apply le_bytes_ok).
  rewrite length_app, !length_le_bytes, of_le_app, length_le_bytes, !of_le_le_bytes.
  change (256 ^ Z.of_nat 4) with (2 ^ 32). rewrite !Z.mod_small by lia. done.
Qed.

Lemma slice_skip_field {E} k v (y : list Z) a b :
  (k <= a <= b)%nat -> slice (E:=E) (le_bytes k v ++ y) a b = slice y (a - k) (b - k).
Proof.
  intros. unfold slice. rewrite length_app, length_le_bytes.
  replace (bool_decide (a <= b <= k + length y)%nat)
    with (bool_decide (a - k <= b - k <= length y)%nat) by (apply bool_decide_ext; lia).
  case_bool_decide; [|done]. f_equal.
  rewrite drop_app_ge, length_le_bytes by (rewrite length_le_bytes; lia). f_equal. lia.
Qed.

Lemma index_skip_field {E} k v (y : list Z) i :
  (k <= i)%nat -> index (E:=E) (le_bytes k v ++ y) i = index y (i - k).
Proof. intros. unfold index. by rewrite lookup_app_r, length_le_bytes by (rewrite length_le_bytes; lia). Qed.

Lemma index_here {E} v (y : list Z) : u8 v -> index (E:=E) (le_bytes 1 v ++ y) 0 = Ok v.
Proof. intros Hv. unfold index. simpl. unfold uint in Hv. by rewrite Z.mod_small by lia. Qed.

Lemma length_cencode off fields vals :
  length fields = length vals ->
  length (cencode off fields vals) = ((coffsets off fields).2 - off)%nat.
Proof.
  revert off vals. induction fields as [|t fs IH]; intros off [|v vs] Hl; try done; simpl; [lia|].
  assert (off <= align_up off (calign t))%nat.
  { unfold align_up. assert (0 < calign t)%nat by (destruct t; simpl; lia).
    pose proof (Nat.div_mod_eq (off + calign t - 1) (calign t)).
    pose proof (Nat.mod_upper_bound (off + calign t - 1) (calign t)). lia. }
  assert (forall o fs, o <= (coffsets o fs).2)%nat as Hmono.
  { clear. intros o fs. revert o. induction fs as [|t fs IH]; intros o; simpl; [lia|].
    specialize (IH (align_up o (calign t) + csize t)%nat).
    assert (o <= align_up o (calign t))%nat; [|destruct (coffsets _ fs); simpl in *; lia].
    unfold align_up. assert (0 < calign t)%nat by (destruct t; simpl; lia).
    pose proof (Nat.div_mod_eq (o + calign t - 1) (calign t)).
    pose proof (Nat.mod_upper_bound (o + calign t - 1) (calign t)). lia. }
  rewrite !length_app, length_replicate, length_le_bytes, IH by (simpl in Hl; lia).
  specialize (Hmono (align_up off (calign t) + csize t)%nat fs).
  destruct (coffsets _ fs) as [offs e]. simpl in *. lia.
Qed.

Lemma encode_record_length ev ext :
  length (encode_record (ev, ext)) = (size_of (record_layout ev).1.2 + length ext)%nat.
Proof.
  assert (size_of (record_layout ev).1.2 = (coffsets 0 (record_layout ev).1.2).2 - 0)%nat as ->
    by by destruct ev; vm_compute.
  assert (length (record_layout ev).1.2 = S (length (record_layout ev).2)) as Hl
    by by destruct ev.
  unfold encode_record. destruct (record_layout ev) as [[ty fields] vals]. cbn [fst snd] in *.
  rewrite length_app, length_cencode by done. done.
Qed.

Lemma record_type_range ev : event_ok ev -> u32 (record_layout ev).1.1.
Proof.
  destruct ev; intros Hok; cbn [record_layout fst]; [| | | |apply Hok].
  all: split; apply Z.leb_le || apply Z.ltb_lt; reflexivity.
Qed.

(** The record as the concatenation of its fields, header first. *)
Lemma encode_record_header ev ext :
  event_ok ev -> (length (encode_record (ev, ext)) <= MAX_DRM_EVENT_SIZE)%nat ->
  exists fs vs, (record_layout ev).1.2 = CBase :: fs /\ (record_layout ev).2 = vs /\
  encode_record (ev, ext)
  = le_bytes 4 (record_layout ev).1.1 ++ le_bytes 4 (Z.of_nat (length (encode_record (ev, ext))))
    ++ cencode 8 fs vs ++ ext.
Proof.
  intros Hok Hlen.
  pose proof (record_type_range ev Hok) as Hty.
  assert (u32 (Z.of_nat (length (encode_record (ev, ext))))) as Hl.
  { unfold MAX_DRM_EVENT_SIZE in Hlen. unfold uint. lia. }
  destruct (record_layout ev) as [[ty fields] vals] eqn:Hlay.
  assert (exists fs, fields = CBase :: fs) as [fs ->] by (destruct ev; inversion Hlay; by eexists).
  exists fs, vals. split_and!; [done..|]. cbn [fst snd] in *.
  rewrite encode_record_length, Hlay in Hl |- *. unfold encode_record at 1. rewrite Hlay.
  cbn [cencode csize fst snd] in *. change (align_up 0 (calign CBase)) with O.
  cbn [replicate Nat.sub app Nat.add]. rewrite base_bytes by done.
  by rewrite <- !app_assoc.
Qed.

Lemma read_header_record ev ext :
  event_ok ev -> (length (encode_record (ev, ext)) <= MAX_DRM_EVENT_SIZE)%nat ->
  let len := length (encode_record (ev, ext)) in
  read_header (encode_record (ev, ext)) = Ok ((record_layout ev).1.1, Z.of_nat len, len).
Proof.
  intros Hok Hlen len. destruct (encode_record_header ev ext Hok Hlen) as (fs & vs & _ & _ & He).
  pose proof (record_type_range ev Hok) as Hty.
  assert (u32 (Z.of_nat len)) as Hl.
  { unfold MAX_DRM_EVENT_SIZE in Hlen. fold len in Hlen. unfold uint. lia. }
  assert (8 <= len)%nat as H8.
  { unfold len. rewrite encode_record_length.
    destruct ev; simpl record_layout; cbn [fst snd];
      match goal with |- context [size_of ?f] => let v := eval vm_compute in (size_of f) in
        change (size_of f) with v end; lia. }
  unfold read_header, read_u32. rewrite He. fold len.
  rewrite get_le_here by done. cbn [obind].
  rewrite get_le_skip_field by lia. cbn [Nat.sub]. rewrite get_le_here by done. cbn [obind].
  unfold validate_declared_length. rewrite Nat2Z.id.
  rewrite !bool_decide_eq_false_2 by (rewrite ?header_size; unfold len in *; lia). done.
Qed.

Lemma GrantState_code_roundtrip s : GrantState_try_from (GrantState_code s) = Ok s.
Proof. by destruct s. Qed.

Lemma GrantState_code_range s : u32 (GrantState_code s).
Proof. destruct s; split; apply Z.leb_le || apply Z.ltb_lt; reflexivity. Qed.

(** Unfold a layout into the concatenation of its fields. *)
Ltac layout :=
  cbn [cencode calign csize];
  repeat match goal with
  | |- context [align_up ?a ?b] =>
      let v := eval vm_compute in (align_up a b) in change (align_up a b) with v;
      cbn [Nat.add Nat.sub replicate]; rewrite ?app_nil_l
  end; rewrite <- ?app_assoc; cbn [app].

(** Read one value of the concatenation. *)
Ltac read_value :=
  first
    [ rewrite get_le_here by (first [done | apply wrap_range; lia | unfold uint; lia])
    | rewrite index_here by done
    | rewrite get_le_skip_field by lia; cbn [Nat.sub]
    | rewrite index_skip_field by lia; cbn [Nat.sub]
    | rewrite slice_skip_field by lia; cbn [Nat.sub] ].
Ltac read_values := repeat (repeat read_value; cbn [obind]).

Lemma slice_here {E} (x y : list Z) n : length x = n -> slice (E:=E) (x ++ y) 0 n = Ok x.
Proof.
  intros <-. rewrite slice_ok by (rewrite length_app; lia).
  by rewrite drop_0, Nat.sub_0_r, take_app_length.
Qed.

Lemma require_prefix_ok ty len n : (n <= len)%nat ->
  require_known_prefix ty (Z.of_nat len) n = Ok tt.
Proof. intros. unfold require_known_prefix. by rewrite bool_decide_eq_true_2 by lia. Qed.

(** Each structure decodes to the values written, whatever follows it. *)
Lemma decode_revoked e x0 x1 len ext : event_ok (GrantRevoked e) -> (24 <= len)%nat ->
  decode_grant_revoked
    (le_bytes 4 x0 ++ le_bytes 4 x1
     ++ cencode 8 (tail DrmEventCastkmsGrantRevoked) (record_layout (GrantRevoked e)).2 ++ ext)
    x0 (Z.of_nat len) = Ok (GrantRevoked e).
Proof.
  intros (? & ? & ?) Hl. cbn [tail DrmEventCastkmsGrantRevoked record_layout snd]. layout.
  unfold decode_grant_revoked. rewrite require_prefix_ok by done. cbn [obind].
  unfold read_u32, read_i32, read_u64. read_values. rewrite to_signed_wrap by (done || lia).
  by destruct e.
Qed.

Lemma decode_state e x0 x1 len ext : event_ok (GrantStateChanged e) -> (32 <= len)%nat ->
  decode_grant_state
    (le_bytes 4 x0 ++ le_bytes 4 x1
     ++ cencode 8 (tail DrmEventCastkmsGrantState) (record_layout (GrantStateChanged e)).2 ++ ext)
    x0 (Z.of_nat len) = Ok (GrantStateChanged e).
Proof.
  intros (? & ? & ?) Hl. cbn [tail DrmEventCastkmsGrantState record_layout snd]. layout.
  pose proof (GrantState_code_range (gse_state e)).
  unfold decode_grant_state. rewrite require_prefix_ok by done. cbn [obind].
  unfold read_u32, read_i32, read_u64. read_values. rewrite GrantState_code_roundtrip.
  cbn [omap_err obind]. read_values. rewrite to_signed_wrap by (done || lia).
  by destruct e.
Qed.

Lemma decode_frame e x0 x1 len ext : event_ok (CaptureFrame e) -> (112 <= len)%nat ->
  decode_capture_frame
    (le_bytes 4 x0 ++ le_bytes 4 x1
     ++ cencode 8 (tail DrmEventCastkmsCaptureFrame) (record_layout (CaptureFrame e)).2 ++ ext)
    x0 (Z.of_nat len) = Ok (CaptureFrame e).
Proof.
  intros H Hl. cbn [event_ok] in H. destruct_and! H.
  cbn [tail DrmEventCastkmsCaptureFrame record_layout snd]. layout.
  unfold decode_capture_frame. rewrite require_prefix_ok by done. cbn [obind].
  unfold read_u32, read_i32, read_u64, read_i64. read_values.
  cbn [require_zero_reserved Z.eqb obind]. read_values.
  rewrite !to_signed_wrap by (done || lia). by destruct e.
Qed.

Lemma decode_cec e x0 x1 len ext : event_ok (CecTransmit e) -> (72 <= len)%nat ->
  decode_cec_transmit
    (le_bytes 4 x0 ++ le_bytes 4 x1
     ++ cencode 8 (tail DrmEventCastkmsCecTx) (record_layout (CecTransmit e)).2 ++ ext)
    x0 (Z.of_nat len) = Ok (CecTransmit e).
Proof.
  intros H Hl. cbn [event_ok] in H. destruct_and! H.
  cbn [tail DrmEventCastkmsCecTx record_layout snd]. layout.
  unfold decode_cec_transmit. rewrite require_prefix_ok by done. cbn [obind].
  unfold read_u16, read_u32, read_u64. read_values.
  cbn [require_zero_reserved Z.eqb obind]. read_values.
  cbn [require_zero_reserved Z.eqb obind]. read_values.
  cbn [require_all]. rewrite !(proj2 (Z.eqb_neq _ _)) by done.
  rewrite !(proj2 (Z.leb_le _ _)) by lia. cbn [negb andb reject obind]. read_values.
  rewrite slice_here by by rewrite length_le_bytes. cbn [obind]. read_values.
  match goal with L : length _ = 16%nat |- _ => rewrite <- L at 1 end.
  rewrite le_bytes_of_le by done. by destruct e.
Qed.

(** A record at the head of a stream is decoded, and nothing past it is read. *)
Lemma decode_record ev ext :
  record_ok (ev, ext) ->
  decode_event (encode_record (ev, ext)) (record_layout ev).1.1
    (Z.of_nat (length (encode_record (ev, ext)))) = Ok ev.
Proof.
  intros (Hok & Hlen & Hu). cbn [fst] in *.
  destruct (encode_record_header ev ext Hok Hlen) as (fs & vs & Hf & Hv & He).
  pose proof (encode_record_length ev ext) as Hl.
  remember (length (encode_record (ev, ext))) as len eqn:Hlen'. rewrite He. subst vs. clear He Hlen'.
  assert (size_of (record_layout ev).1.2 <= len)%nat as Hs by lia. clear Hl Hlen.
  assert (fs = tail (record_layout ev).1.2) as -> by by rewrite Hf. clear Hf.
  destruct ev as [e|e|e|e|e].
  - apply decode_frame; [done|]. exact Hs.
  - apply decode_cec; [done|]. exact Hs.
  - apply decode_state; [done|]. exact Hs.
  - apply decode_revoked; [done|]. exact Hs.
  - destruct Hok as (_ & ? & ? & ? & ?). unfold decode_event. cbn [record_layout fst].
    rewrite !(proj2 (Z.eqb_neq _ _)) by done. rewrite <- Hu. by destruct e.
Qed.

Lemma parse_stream_record ev ext rest :
  record_ok (ev, ext) ->
  parse_stream (encode_record (ev, ext) ++ rest)
  = (let? p := parse_stream rest in Ok (ev :: p.1, p.2)).
Proof.
  intros Hr. pose proof Hr as (Hok & Hlen & _). cbn [fst] in *.
  pose proof (read_header_record ev ext Hok Hlen) as Hh. cbn zeta in Hh.
  pose proof (read_header_inv _ _ _ _ Hh) as [_ Hel].
  rewrite parse_stream_long, read_header_app, Hh by (rewrite ?length_app; lia).
  rewrite bool_decide_eq_false_2 by (rewrite length_app; lia).
  by rewrite take_app_length, drop_app_length, decode_record.
Qed.

Lemma parse_stream_records recs :
  Forall record_ok recs -> parse_stream (concat (encode_record <$> recs)) = Ok (recs.*1, []).
Proof.
  induction 1 as [|[ev ext] recs Hr _ IH]; [reflexivity|]. cbn [fmap list_fmap concat].
  rewrite parse_stream_record by done. cbn [fmap list_fmap] in IH. by rewrite IH.
Qed.

(** C29: Decoding inverts the kernel's layout: any sequence of records written
    with the [repr(C)] layout of the UAPI structures, each followed by any
    extension bytes up to 4096 in all, and cut into reads at any points, is
    decoded to exactly the events written, in order, with nothing left over. *)
Theorem stream_roundtrip recs chunks :
  Forall record_ok recs -> concat chunks = concat (encode_record <$> recs) ->
  Forall (fun c => (length c <= DRM_EVENT_READ_SIZE)%nat) chunks ->
  feed EventDecoder_new chunks = ([], Ok (recs.*1)).
Proof.
  intros Hr Hc Hl.
  pose proof (feed_parse [] chunks ltac:(left; simpl; rewrite header_size; lia) Hl) as H.
  rewrite app_nil_l, Hc, parse_stream_records in H by done. exact H.
Qed.

(** A state change with three extension bytes and an unknown record, cut in
    the middle of both. *)
Lemma stream_roundtrip_witness :
  let e := {| gse_grant_id := 7; gse_state := SuspendedNoMaster; gse_status := -5;
              gse_timestamp_ns := 10 ^ 12 |} in
  let recs := [(GrantStateChanged e, [1; 2; 3]);
               (UnknownRecord {| ue_event_type := 9; ue_length := 10 |}, [0; 255])] in
  let stream := concat (encode_record <$> recs) in
  feed EventDecoder_new [take 19 stream; take 20 (drop 19 stream); drop 39 stream]
  = ([], Ok (recs.*1)).
Proof.
  intros e recs stream.
  assert (Forall record_ok recs) as Hr.
  { assert (length (encode_record (GrantStateChanged e, [1; 2; 3])) = 35%nat) as H1 by reflexivity.
    assert (length (encode_record (UnknownRecord {| ue_event_type := 9; ue_length := 10 |}, [0; 255]))
            = 10%nat) as H2 by reflexivity.
    assert (35 <= MAX_DRM_EVENT_SIZE)%nat as H3 by (unfold MAX_DRM_EVENT_SIZE; lia).
    apply Forall_cons; split; [|apply Forall_cons; split; [|by constructor]].
    - split; [|by rewrite H1]. unfold event_ok, uint, sint, e. simpl. lia.
    - split; [|cbn [fst]; rewrite H2; split; [lia|reflexivity]].
      unfold event_ok, uint. simpl. split; [lia|done]. }
  apply (stream_roundtrip recs); [exact Hr|reflexivity|].
  repeat (apply Forall_cons; split; [apply Nat.leb_le; vm_compute; reflexivity|]). constructor.
Defined.

(** ** Draining the holder

    The kernel is a script of the results its [read] calls return; a wait for
    readability opens a new script.  A script that ends before the function
    returns means that it is still running ([None]). *)

Inductive EventReadError (CaptureProtocolError : Type) :=
  | Wait (errno : Z)
  | Read (errno : Z)
  | Decode (e : EventDecodeError)
  | StreamClosed
  | ForeignGrant (expected actual : Z)
  | ForeignConnector (expected actual : Z)
  | TooManyEvents (maximum : nat)
  | CaptureProtocol (e : CaptureProtocolError).
Arguments Wait {_} _.
Arguments Read {_} _.
Arguments Decode {_} _.
Arguments StreamClosed {_}.
Arguments ForeignGrant {_} _ _.
Arguments ForeignConnector {_} _ _.
Arguments TooManyEvents {_} _.
Arguments CaptureProtocol {_} _.

Inductive ReadResult :=
  | ReadBytes (data : list Z)
  | ReadErr (errno : Z).

Definition EINTR : Z := 4.

(** [read_nonblocking] retries interrupted calls: the results its calls return. *)
Definition read_nonblocking (reads : list ReadResult) : list ReadResult :=
  List.filter (fun r => match r with ReadErr e => negb (e =? EINTR) | ReadBytes _ => true end) reads.

Section Drain.
Context {C : Type}.
Local Abbreviation Error := (EventReadError C).

Definition validate_event_scope (expected_grant expected_connector : Z) (event : CastKmsEvent)
    : outcome Error unit :=
  let actual_grant :=
    match event with
    | GrantStateChanged e => Some (gse_grant_id e)
    | GrantRevoked e => Some (re_grant_id e)
    | CaptureFrame _ | CecTransmit _ | UnknownRecord _ => None
    end in
  try? match actual_grant with
       | Some actual => reject (negb (actual =? expected_grant)) (ForeignGrant expected_grant actual)
       | None => Ok tt
       end;
  match event with
  | CecTransmit e =>
      reject (negb (te_connector_id e =? expected_connector))
             (ForeignConnector expected_connector (te_connector_id e))
  | _ => Ok tt
  end.

Fixpoint validate_scopes (scope : option (Z * Z)) (decoded : list CastKmsEvent)
    : outcome Error unit :=
  match decoded with
  | [] => Ok tt
  | event :: rest =>
      try? match scope with
           | Some (grant_id, connector_id) => validate_event_scope grant_id connector_id event
           | None => Ok tt
           end;
      validate_scopes scope rest
  end.

Definition append_decoded_events (carry bytes : list Z) (scope : option (Z * Z))
    (events : list CastKmsEvent) : list Z * outcome Error (list CastKmsEvent) :=
  let '(carry, result) := push carry bytes in
  (carry,
   let? decoded := omap_err Decode result in
   try? reject (bool_decide (MAX_EVENTS_PER_READINESS < length events + length decoded)%nat)
          (TooManyEvents MAX_EVENTS_PER_READINESS);
   try? validate_scopes scope decoded;
   Ok (events ++ decoded)).

(** The read loop: [Ok] when a read would block. *)
Fixpoint drain_loop (reads : list ReadResult) (carry : list Z) (scope : option (Z * Z))
    (events : list CastKmsEvent) : option (list Z * outcome Error (list CastKmsEvent)) :=
  match reads with
  | [] => None
  | ReadBytes [] :: _ =>
      Some (carry, try? omap_err Decode (finish carry); Err StreamClosed)
  | ReadBytes data :: rest =>
      match append_decoded_events carry data scope events with
      | (carry, Ok events) => drain_loop rest carry scope events
      | stopped => Some stopped
      end
  | ReadErr errno :: _ =>
      Some (carry, if errno =? EAGAIN then Ok events else Err (Read errno))
  end.

Definition try_read_event_batch (reads : list ReadResult) (carry : list Z)
    (scope : option (Z * Z)) : option (list Z * outcome Error (list CastKmsEvent)) :=
  drain_loop (read_nonblocking reads) carry scope [].

(** [read_event_batch]: one script per successful wait for readability. *)
Fixpoint read_event_batch (cycles : list (outcome Z (list ReadResult))) (carry : list Z)
    (scope : option (Z * Z)) : option (list Z * outcome Error (list CastKmsEvent)) :=
  match cycles with
  | [] => None
  | Ok reads :: rest =>
      match drain_loop (read_nonblocking reads) carry scope [] with
      | Some (carry, Ok []) => read_event_batch rest carry scope
      | other => other
      end
  | Err errno :: _ => Some (carry, Err (Wait errno))
  | Panic :: _ => Some (carry, Panic)
  end.

(** *** What a drain returns *)

Definition event_in_scope (scope : option (Z * Z)) (event : CastKmsEvent) : Prop :=
  match scope, event with
  | Some (g, _), GrantStateChanged e => gse_grant_id e = g
  | Some (g, _), GrantRevoked e => re_grant_id e = g
  | Some (_, c), CecTransmit e => te_connector_id e = c
  | _, _ => True
  end.

Lemma validate_scopes_ok scope decoded u :
  validate_scopes scope decoded = Ok u <-> Forall (event_in_scope scope) decoded.
Proof.
  destruct u. induction decoded as [|ev rest IH]; simpl; [split; [constructor|done]|].
  rewrite seq_ok, IH, Forall_cons. f_equiv. destruct scope as [[g c]|]; [|done].
  unfold validate_event_scope, event_in_scope.
  destruct ev; cbn [obind]; rewrite ?seq_ok, ?reject_ok, ?negb_false_iff, ?Z.eqb_eq; naive_solver.
Qed.

Definition read_data (reads : list ReadResult) : list Z :=
  concat ((fun r => match r with ReadBytes d => d | ReadErr _ => [] end) <$> reads).

Lemma read_data_cons d reads : read_data (ReadBytes d :: reads) = d ++ read_data reads.
Proof. done. Qed.

Lemma validate_scopes_safe scope decoded : validate_scopes scope decoded <> Panic.
Proof.
  induction decoded as [|ev es IH]; [done|]. cbn [validate_scopes].
  destruct scope as [[g c]|]; [|exact IH]. unfold validate_event_scope.
  destruct ev; cbn [obind]; try (destruct (negb _); cbn [reject obind]; [done|]); exact IH.
Qed.

Lemma append_decoded_safe carry bytes scope events c' :
  incomplete carry -> (length bytes <= DRM_EVENT_READ_SIZE)%nat ->
  append_decoded_events carry bytes scope events <> (c', Panic).
Proof.
  intros Hi Hl. pose proof (push_parse carry bytes Hi Hl) as Hp. unfold append_decoded_events.
  destruct (parse_stream (carry ++ bytes)) as [[es r]|e|]; [|destruct Hp as [r Hp]|done];
    rewrite Hp; cbn [omap_err obind]; [|done].
  destruct (bool_decide _); cbn [reject obind]; [done|].
  pose proof (validate_scopes_safe scope es). by destruct (validate_scopes scope es).
Qed.

Lemma append_decoded_ok carry bytes scope events c' events' :
  incomplete carry -> (length bytes <= DRM_EVENT_READ_SIZE)%nat ->
  append_decoded_events carry bytes scope events = (c', Ok events') ->
  exists es, parse_stream (carry ++ bytes) = Ok (es, c') /\ events' = events ++ es /\
    incomplete c' /\ Forall (event_in_scope scope) es /\
    (length events' <= MAX_EVENTS_PER_READINESS)%nat.
Proof.
  intros Hi Hl H. pose proof (push_parse carry bytes Hi Hl) as Hp.
  pose proof (parse_stream_safe (carry ++ bytes)) as Hs. unfold append_decoded_events in H.
  destruct (parse_stream (carry ++ bytes)) as [[es r]|e|]; [|destruct Hp as [r Hp]|done];
    rewrite Hp in H; cbn [omap_err obind] in H; [|done].
  injection H as <- H. rewrite reject_seq_ok, seq_ok, validate_scopes_ok in H.
  destruct H as (Hn & Hsc & [= <-]). breflect. exists es. rewrite length_app.
  split_and!; try done. lia.
Qed.

(** The loop up to a point: what was read so far parses to what was collected. *)
Lemma drain_loop_spec reads carry scope events :
  incomplete carry ->
  Forall (fun r => match r with ReadBytes d => (length d <= DRM_EVENT_READ_SIZE)%nat | _ => True end)
    reads ->
  Forall (event_in_scope scope) events -> (length events <= MAX_EVENTS_PER_READINESS)%nat ->
  match drain_loop reads carry scope events with
  | None =>
      exists es c', parse_stream (carry ++ read_data reads) = Ok (es, c') /\
        (length (events ++ es) <= MAX_EVENTS_PER_READINESS)%nat
  | Some (c', Ok out) =>
      exists n es, out = events ++ es /\ incomplete c' /\
        parse_stream (carry ++ read_data (take n reads)) = Ok (es, c') /\
        reads !! n = Some (ReadErr EAGAIN) /\
        Forall (event_in_scope scope) out /\ (length out <= MAX_EVENTS_PER_READINESS)%nat
  | Some (_, Err _) => True
  | Some (_, Panic) => False
  end.
Proof.
  intros Hi Hr. revert carry events Hi. induction Hr as [|r reads Hr _ IH]; intros carry events Hi Hs Hm.
  { simpl. exists [], carry. rewrite !app_nil_r. by rewrite parse_stream_incomplete. }
  destruct r as [data|errno]; cbn [drain_loop].
  2: { destruct (errno =? EAGAIN) eqn:He; breflect; [|done]. subst. exists O, [].
       cbn [take read_data fmap list_fmap concat]. rewrite !app_nil_r.
       by rewrite parse_stream_incomplete. }
  destruct data as [|b data'].
  { pose proof (incomplete_bounded _ Hi) as Hb. unfold finish.
    case_bool_decide; [done|]. case_bool_decide as Hl; [|done]. unfold read_u32.
    rewrite header_size in Hl. by rewrite get_le_ok by lia. }
  set (data := b :: data') in *. clearbody data.
  destruct (append_decoded_events carry data scope events) as [c1 [ev1|e|]] eqn:Ha; [|done|].
  - apply append_decoded_ok in Ha as (es1 & Hp1 & -> & Hi1 & Hs1 & Hm1); [|done..].
    specialize (IH c1 (events ++ es1) Hi1 ltac:(by apply Forall_app) Hm1).
    pose proof (fun x => parse_stream_app (carry ++ data) x) as Hjoin. rewrite Hp1 in Hjoin.
    destruct (drain_loop reads c1 scope (events ++ es1)) as [[c2 [out|e|]]|]; [|done..|].
    + destruct IH as (n & es & -> & Hi2 & Hp2 & Hn & Hs2 & Hm2).
      exists (S n), (es1 ++ es). rewrite firstn_cons, read_data_cons, (app_assoc carry data), Hjoin, Hp2.
      rewrite <- app_assoc in *. by split_and!.
    + destruct IH as (es & c2 & Hp2 & Hm2). exists (es1 ++ es), c2.
      rewrite read_data_cons, (app_assoc carry data), Hjoin, Hp2. by rewrite <- app_assoc in Hm2.
  - by eapply append_decoded_safe.
Qed.

Lemma parse_stream_consumed l es r :
  parse_stream l = Ok (es, r) -> (length l <= MAX_DRM_EVENT_SIZE * length es + length r)%nat.
Proof.
  revert es r. induction l as [l IH] using (induction_ltof1 _ length). unfold ltof in IH.
  intros es r H. destruct (decide (DRM_EVENT_HEADER_SIZE <= length l)%nat) as [Hl|Hl];
    [|rewrite parse_stream_short in H by lia; simplify_eq; lia].
  rewrite parse_stream_long in H by done.
  destruct (read_header l) as [[[ty dl] el]| |] eqn:Hh; [|done..].
  apply read_header_inv in Hh as [_ Hel]. rewrite header_size in *.
  case_bool_decide as Hc; [simplify_eq; lia|]. ok_inv.
  destruct x0 as [es' r']. simplify_eq. cbn [fst snd length].
  match goal with E : parse_stream _ = _ |- _ => apply IH in E; [|rewrite length_drop; lia] end.
  rewrite length_drop in *. lia.
Qed.

Lemma incomplete_small c : incomplete c -> (length c < MAX_DRM_EVENT_SIZE)%nat.
Proof.
  intros [H|(ty & dl & el & Hh & H)].
  - rewrite header_size in H. unfold MAX_DRM_EVENT_SIZE. lia.
  - apply read_header_inv in Hh as [_ ?]. lia.
Qed.

Lemma read_data_nonblocking reads : read_data (read_nonblocking reads) = read_data reads.
Proof.
  induction reads as [|[d|e] reads IH]; [done| |].
  - change (read_data (ReadBytes d :: read_nonblocking reads) = d ++ read_data reads).
    by rewrite read_data_cons, IH.
  - cbn [read_nonblocking List.filter]. by destruct (negb _).
Qed.

(** A drain of the holder is bounded and scoped: on any sequence of read
    results of at most 4096 bytes, from a decoder between records, it does not
    panic; it collects at most 1024 events, all of them of this grant and
    connector and exactly those of the bytes read before the read that would
    block; and it returns before the kernel has delivered 1025 * 4096 bytes,
    however long the kernel keeps delivering. *)
Theorem try_read_event_batch_bounded reads carry scope :
  incomplete carry ->
  Forall (fun r => match r with ReadBytes d => (length d <= DRM_EVENT_READ_SIZE)%nat | _ => True end)
    reads ->
  match try_read_event_batch reads carry scope with
  | None => (length (read_data reads) < (S MAX_EVENTS_PER_READINESS) * MAX_DRM_EVENT_SIZE)%nat
  | Some (c', Ok out) =>
      incomplete c' /\ (length out <= MAX_EVENTS_PER_READINESS)%nat /\
      Forall (event_in_scope scope) out /\
      exists n, read_nonblocking reads !! n = Some (ReadErr EAGAIN) /\
        parse_stream (carry ++ read_data (take n (read_nonblocking reads))) = Ok (out, c')
  | Some (_, Err _) => True
  | Some (_, Panic) => False
  end.
Proof.
  intros Hi Hr. unfold try_read_event_batch.
  assert (Forall (fun r => match r with ReadBytes d => (length d <= DRM_EVENT_READ_SIZE)%nat
                                      | _ => True end) (read_nonblocking reads)) as Hr'.
  { rewrite Forall_forall in *. intros r Hin. apply Hr, list_elem_of_In.
    apply list_elem_of_In, filter_In in Hin. by destruct Hin. }
  pose proof (drain_loop_spec (read_nonblocking reads) carry scope [] Hi Hr') as H.
  specialize (H ltac:(constructor) ltac:(simpl; lia)).
  destruct (drain_loop (read_nonblocking reads) carry scope []) as [[c' [out|e|]]|]; [|done..|].
  - destruct H as (n & es & -> & ? & ? & ? & ? & ?). rewrite app_nil_l in *.
    split_and!; try done. by exists n.
  - destruct H as (es & c' & Hp & Hm). rewrite app_nil_l in Hm. rewrite read_data_nonblocking in Hp.
    pose proof (parse_stream_safe (carry ++ read_data reads)) as Hs. rewrite Hp in Hs.
    apply incomplete_small in Hs. apply parse_stream_consumed in Hp. rewrite length_app in Hp.
    cbn [snd] in Hs. clear -Hs Hp Hm. revert Hs Hp Hm.
    generalize MAX_DRM_EVENT_SIZE MAX_EVENTS_PER_READINESS. nia.
Qed.
End Drain.

(** One read with an interrupted call before it, then nothing more to read. *)
Lemma try_read_event_batch_bounded_witness :
  let rec1 := encode_record
    (GrantRevoked {| re_grant_id := 7; re_status := 0; re_timestamp_ns := 5 |}, []) in
  let reads := [ReadErr EINTR; ReadBytes rec1; ReadErr EAGAIN] in
  try_read_event_batch (C := unit) reads [] (Some (7, 3))
  = Some ([], Ok [GrantRevoked {| re_grant_id := 7; re_status := 0; re_timestamp_ns := 5 |}]) /\
  try_read_event_batch (C := unit) reads [] (Some (8, 3)) = Some ([], Err (ForeignGrant 8 7)) /\
  incomplete [].
Proof.
  intros rec1 reads. split; [reflexivity|]. split; [reflexivity|].
  assert (incomplete []) as Hi by (left; apply Nat.ltb_lt; reflexivity).
  assert (Forall (fun r => match r with ReadBytes d => (length d <= DRM_EVENT_READ_SIZE)%nat
                                      | _ => True end) reads) as Hr.
  { apply Forall_cons; split; [done|]. apply Forall_cons; split; [|by repeat constructor].
    apply Nat.leb_le. vm_compute. reflexivity. }
  exact (proj1 (try_read_event_batch_bounded (C := unit) reads [] (Some (7, 3)) Hi Hr)).
Defined.
