(* ===== verification/CastkmsCec.v ===== *)
(** * The CEC transport of a grant (crates/pronk-core/src/castkms_cec.rs)

    [CecTracker] is the client's view of the kernel's CEC transport: the
    binding, the one transmit being processed, and whether the next transmit
    must prove that it belongs to a newer online interval.  An ioctl is an
    argument of the operation that issues it, from its structure to a result;
    an operation returns the tracker it leaves and its own result. *)

From S2P Require Import Prelude Bytes Text CastkmsSys Grant Castkms CastkmsEvent.

Definition CEC_REQUIRED_CAPABILITIES : Z :=
  Z.lor (Z.lor (Z.lor CEC_CAP_ASYNC_TX CEC_CAP_RX_INJECT) CEC_CAP_TRANSPORT_STATE)
        CEC_CAP_EDID_PHYS_ADDR.
Definition CEC_MAX_MESSAGE_SIZE : Z := 16.

Record CecCapabilities := {
  cc_connector_id : Z; cc_output_index : Z; cc_capabilities : Z; cc_uapi_minor : Z }.

Record CecTransportBinding := {
  cb_transport_id : Z; cb_transport_generation : Z; cb_state_generation : Z;
  cb_output_index : Z; cb_physical_address : Z; cb_logical_address_mask : Z;
  cb_online : bool }.

Record CecCompletion := {
  co_status : Z; co_arb_lost_count : Z; co_nack_count : Z; co_low_drive_count : Z;
  co_error_count : Z }.

Inductive CecTransmitAdmission := Accepted | Stale.

Definition succeeded : CecCompletion :=
  {| co_status := CEC_TX_STATUS_OK; co_arb_lost_count := 0; co_nack_count := 0;
     co_low_drive_count := 0; co_error_count := 0 |}.
Definition not_acknowledged (attempts : Z) : CecCompletion :=
  {| co_status := CEC_TX_STATUS_NACK; co_arb_lost_count := 0; co_nack_count := attempts;
     co_low_drive_count := 0; co_error_count := 0 |}.
Definition failed : CecCompletion :=
  {| co_status := CEC_TX_STATUS_ERROR; co_arb_lost_count := 0; co_nack_count := 0;
     co_low_drive_count := 0; co_error_count := 1 |}.

Record PendingTransmit := { pt_transport_generation : Z; pt_cookie : Z }.

Record CecTracker := {
  ct_binding : option CecTransportBinding;
  ct_pending : option PendingTransmit;
  ct_requires_state_advance : bool }.

Definition CecTracker_default : CecTracker :=
  {| ct_binding := None; ct_pending := None; ct_requires_state_advance := false |}.

(** ** Tracker operations *)

Definition is_bound (t : CecTracker) : bool := bool_decide (is_Some (ct_binding t)).

Definition tracker_binding (t : CecTracker) : outcome CastKmsError CecTransportBinding :=
  ok_or (ct_binding t) (InvalidCecState "CEC transport is not bound").

Definition with_online (b : CecTransportBinding) (online : bool) : CecTransportBinding :=
  {| cb_transport_id := cb_transport_id b; cb_transport_generation := cb_transport_generation b;
     cb_state_generation := cb_state_generation b; cb_output_index := cb_output_index b;
     cb_physical_address := cb_physical_address b;
     cb_logical_address_mask := cb_logical_address_mask b; cb_online := online |}.

Definition with_state_generation (b : CecTransportBinding) (g : Z) : CecTransportBinding :=
  {| cb_transport_id := cb_transport_id b; cb_transport_generation := cb_transport_generation b;
     cb_state_generation := g; cb_output_index := cb_output_index b;
     cb_physical_address := cb_physical_address b;
     cb_logical_address_mask := cb_logical_address_mask b; cb_online := cb_online b |}.

Definition install (t : CecTracker) (b : CecTransportBinding) : CecTracker * outcome CastKmsError unit :=
  if is_bound t then (t, Err (InvalidCecState "CEC transport is already bound"))
  else ({| ct_binding := Some b; ct_pending := ct_pending t;
           ct_requires_state_advance := ct_requires_state_advance t |}, Ok tt).

Definition set_online (t : CecTracker) (online : bool) : CecTracker * outcome CastKmsError unit :=
  if bool_decide (is_Some (ct_pending t)) && negb online then
    (t, Err (InvalidCecState "cannot take CEC transport offline with a pending transmit"))
  else
    match ct_binding t with
    | None => (t, Err (InvalidCecState "CEC transport is not bound"))
    | Some b =>
        if Bool.eqb (cb_online b) online then (t, Ok tt)
        else ({| ct_binding := Some (with_online b online); ct_pending := ct_pending t;
                 ct_requires_state_advance := true |}, Ok tt)
    end.

Definition record_authority_suspended (t : CecTracker) : CecTracker * outcome CastKmsError unit :=
  match ct_binding t with
  | None => (t, Err (InvalidCecState "CEC transport is not bound"))
  | Some b => ({| ct_binding := Some (with_online b false); ct_pending := None;
                  ct_requires_state_advance := true |}, Ok tt)
  end.

Definition record_transmit (t : CecTracker) (event : CecTransmitEvent)
    : CecTracker * outcome CastKmsError CecTransmitAdmission :=
  let admitted :=
    let? b := tracker_binding t in
    if negb (cb_online b) then Ok None
    else
      try? reject (negb (te_transport_id event =? cb_transport_id b)
                   || negb (te_transport_generation event =? cb_transport_generation b)
                   || negb (te_output_index event =? cb_output_index b))
             (InvalidCecMetadata "transmit binding identity");
      let? state_generation := ok_or (nonzero (te_state_generation event))
                                 (InvalidCecMetadata "transmit state generation") in
      if (state_generation <? cb_state_generation b)
         || (ct_requires_state_advance t && (state_generation =? cb_state_generation b))
      then Ok None
      else
        let? transport_generation := ok_or (nonzero (te_transport_generation event))
                                       (InvalidCecMetadata "transmit transport generation") in
        let? cookie := ok_or (nonzero (te_cookie event)) (InvalidCecMetadata "transmit cookie") in
        try? reject (bool_decide (is_Some (ct_pending t)))
               (InvalidCecState "a second CEC transmit arrived before completion");
        Ok (Some {| ct_binding := Some (with_state_generation b state_generation);
                    ct_pending := Some {| pt_transport_generation := transport_generation;
                                          pt_cookie := cookie |};
                    ct_requires_state_advance := false |}) in
  match admitted with
  | Ok (Some t') => (t', Ok Accepted)
  | Ok None => (t, Ok Stale)
  | Err e => (t, Err e)
  | Panic => (t, Panic)
  end.

Definition validate_completion (t : CecTracker) (event : CecTransmitEvent)
    : outcome CastKmsError unit :=
  let? pending := ok_or (ct_pending t)
                    (InvalidCecState "CEC transmit has no pending transaction") in
  reject (negb (pt_transport_generation pending =? te_transport_generation event)
          || negb (pt_cookie pending =? te_cookie event))
         (InvalidCecMetadata "transmit completion identity").

Definition complete (t : CecTracker) : CecTracker :=
  {| ct_binding := ct_binding t; ct_pending := None;
     ct_requires_state_advance := ct_requires_state_advance t |}.

Definition remove (t : CecTracker) : CecTracker * outcome CastKmsError CecTransportBinding :=
  if bool_decide (is_Some (ct_pending t)) then
    (t, Err (InvalidCecState "cannot unbind CEC transport with a pending transmit"))
  else
    match ct_binding t with
    | None => (t, Err (InvalidCecState "CEC transport is not bound"))
    | Some b => ({| ct_binding := None; ct_pending := ct_pending t;
                    ct_requires_state_advance := false |}, Ok b)
    end.

Definition decode_cec_capabilities (connector_id : Z) (q : DrmCastkmsCecQueryCaps)
    : outcome CastKmsError (option CecCapabilities) :=
  try? reject (negb (qc_connector_id q =? connector_id)) (InvalidCecMetadata "connector identity");
  try? reject (negb (qc_flags q =? 0) || negb (qc_reserved q =? 0))
         (InvalidCecMetadata "capability padding");
  try? reject (negb (qc_uapi_major q =? CEC_UAPI_MAJOR) || (qc_uapi_minor q <? CEC_UAPI_MINOR))
         (InvalidCecMetadata "UAPI version");
  try? reject (negb (Z.land (qc_capabilities q) CEC_REQUIRED_CAPABILITIES
                     =? CEC_REQUIRED_CAPABILITIES))
         (InvalidCecMetadata "required capability bits");
  try? reject (negb (qc_max_msg_size q =? CEC_MAX_MESSAGE_SIZE))
         (InvalidCecMetadata "maximum message size");
  try? reject (1 <? qc_has_adapter q) (InvalidCecMetadata "adapter availability");
  if qc_has_adapter q =? 0 then Ok None
  else
    let? c := ok_or (nonzero (qc_connector_id q)) (InvalidCecMetadata "connector ID") in
    Ok (Some {| cc_connector_id := c; cc_output_index := qc_output_index q;
                cc_capabilities := qc_capabilities q; cc_uapi_minor := qc_uapi_minor q |}).

(** ** Client operations *)

Record DrmCastkmsCecSetTransportState := {
  st_connector_id : Z; st_transport_id : Z; st_flags : Z }.
Record DrmCastkmsCecTxComplete := {
  tc_connector_id : Z; tc_transport_id : Z; tc_transport_generation : Z; tc_cookie : Z;
  tc_status : Z; tc_arb_lost_cnt : Z; tc_nack_cnt : Z; tc_low_drive_cnt : Z; tc_error_cnt : Z }.
Record DrmCastkmsCecReceive := {
  rx_connector_id : Z; rx_transport_id : Z; rx_transport_generation : Z; rx_length : Z;
  rx_msg : list Z }.
Record DrmCastkmsCecUnbindTransport := { ub_connector_id : Z; ub_transport_id : Z }.

(** What the kernel answers to the CEC ioctls of one call. *)
Record CecKernel := {
  drm_ioctl_castkms_cec_query_caps : Z -> outcome Z DrmCastkmsCecQueryCaps;
  drm_ioctl_castkms_cec_bind_transport : Z -> outcome Z DrmCastkmsCecBindTransport;
  drm_ioctl_castkms_cec_set_transport_state : DrmCastkmsCecSetTransportState -> outcome Z unit;
  drm_ioctl_castkms_cec_tx_complete : DrmCastkmsCecTxComplete -> outcome Z unit;
  drm_ioctl_castkms_cec_receive : DrmCastkmsCecReceive -> outcome Z unit;
  drm_ioctl_castkms_cec_unbind_transport : DrmCastkmsCecUnbindTransport -> outcome Z unit }.

Definition cec_transport_online (t : CecTracker) : bool :=
  match ct_binding t with Some b => cb_online b | None => false end.

Definition query_cec_capabilities (K : CecKernel) (lease : GrantLease)
    : outcome CastKmsError (option CecCapabilities) :=
  try? require_rights lease GRANT_MANAGE_CEC;
  let? q := omap_err QueryCecCapabilities
              (drm_ioctl_castkms_cec_query_caps K (lease_connector_id lease)) in
  decode_cec_capabilities (lease_connector_id lease) q.

(** The checks on what a bind returned. *)
Definition bound_from_kernel (lease : GrantLease) (capabilities : CecCapabilities)
    (bind : DrmCastkmsCecBindTransport) : outcome CastKmsError CecTransportBinding :=
  try? reject (negb (bt_connector_id bind =? lease_connector_id lease)
               || negb (bt_flags bind =? 0) || negb (bt_reserved bind =? 0)
               || negb (bt_pad0 bind =? 0))
         (InvalidCecMetadata "binding identity or padding");
  try? reject (negb (bt_output_index bind =? cc_output_index capabilities))
         (InvalidCecMetadata "binding output identity");
  try? reject (negb (Z.land (bt_state_flags bind) (u32_MAX - CEC_STATE_MASK) =? 0)
               || negb (Z.land (bt_state_flags bind) CEC_STATE_TRANSPORT_ONLINE =? 0)
               || (Z.land (bt_state_flags bind) CEC_STATE_MONITOR_ATTACHED =? 0))
         (InvalidCecMetadata "initial binding state");
  let? transport_id := ok_or (nonzero (bt_transport_id bind)) (InvalidCecMetadata "transport ID") in
  let? transport_generation := ok_or (nonzero (bt_transport_generation bind))
                                 (InvalidCecMetadata "transport generation") in
  let? state_generation := ok_or (nonzero (bt_state_generation bind))
                             (InvalidCecMetadata "state generation") in
  Ok {| cb_transport_id := transport_id; cb_transport_generation := transport_generation;
        cb_state_generation := state_generation; cb_output_index := bt_output_index bind;
        cb_physical_address := bt_phys_addr bind;
        cb_logical_address_mask := bt_logical_addr_mask bind; cb_online := false |}.

Definition bind_cec_transport (K : CecKernel) (lease : GrantLease) (t : CecTracker)
    (capabilities : CecCapabilities) : CecTracker * outcome CastKmsError CecTransportBinding :=
  let checked :=
    try? require_rights lease GRANT_MANAGE_CEC;
    try? reject (is_bound t) (InvalidCecState "CEC transport is already bound");
    try? reject (negb (cc_connector_id capabilities =? lease_connector_id lease))
           (InvalidCecMetadata "capability connector identity");
    let? bind := omap_err BindCecTransport
                   (drm_ioctl_castkms_cec_bind_transport K (lease_connector_id lease)) in
    bound_from_kernel lease capabilities bind in
  match checked with
  | Ok b => let '(t', r) := install t b in (t', try? r; Ok b)
  | Err e => (t, Err e)
  | Panic => (t, Panic)
  end.

Definition set_cec_transport_online (K : CecKernel) (lease : GrantLease) (t : CecTracker)
    (online : bool) : CecTracker * outcome CastKmsError unit :=
  match tracker_binding t with
  | Ok b =>
      if Bool.eqb (cb_online b) online then (t, Ok tt)
      else if negb online && bool_decide (is_Some (ct_pending t)) then
        (t, Err (InvalidCecState "cannot take CEC transport offline with a pending transmit"))
      else
        match drm_ioctl_castkms_cec_set_transport_state K
                {| st_connector_id := lease_connector_id lease;
                   st_transport_id := cb_transport_id b;
                   st_flags := if online then CEC_TRANSPORT_ONLINE else 0 |} with
        | Ok _ => set_online t online
        | Err errno => (t, Err (SetCecTransportState errno))
        | Panic => (t, Panic)
        end
  | Err e => (t, Err e)
  | Panic => (t, Panic)
  end.

Definition record_cec_transmit (lease : GrantLease) (t : CecTracker) (event : CecTransmitEvent)
    : CecTracker * outcome CastKmsError CecTransmitAdmission :=
  if negb (te_connector_id event =? lease_connector_id lease)
  then (t, Err (InvalidCecMetadata "transmit connector identity"))
  else record_transmit t event.

Definition complete_cec_transmit (K : CecKernel) (lease : GrantLease) (t : CecTracker)
    (event : CecTransmitEvent) (completion : CecCompletion)
    : CecTracker * outcome CastKmsError unit :=
  let sent :=
    try? validate_completion t event;
    let? b := tracker_binding t in
    omap_err CompleteCecTransmit
      (drm_ioctl_castkms_cec_tx_complete K
         {| tc_connector_id := lease_connector_id lease; tc_transport_id := cb_transport_id b;
            tc_transport_generation := te_transport_generation event;
            tc_cookie := te_cookie event; tc_status := co_status completion;
            tc_arb_lost_cnt := co_arb_lost_count completion;
            tc_nack_cnt := co_nack_count completion;
            tc_low_drive_cnt := co_low_drive_count completion;
            tc_error_cnt := co_error_count completion |}) in
  match sent with
  | Ok _ => (complete t, Ok tt)
  | Err e => (t, Err e)
  | Panic => (t, Panic)
  end.

Definition inject_cec_message (K : CecKernel) (lease : GrantLease) (t : CecTracker)
    (message : list Z) : outcome CastKmsError unit :=
  try? reject (bool_decide (message = []) || (CEC_MAX_MESSAGE_SIZE <? blen message))
         (InvalidCecMetadata "receive message size");
  let? b := tracker_binding t in
  try? reject (negb (cb_online b))
         (InvalidCecState "cannot inject CEC message while transport is offline");
  let? msg := copy_at (replicate 16 0) 0 message in
  omap_err ReceiveCecMessage
    (drm_ioctl_castkms_cec_receive K
       {| rx_connector_id := lease_connector_id lease; rx_transport_id := cb_transport_id b;
          rx_transport_generation := cb_transport_generation b;
          rx_length := wrap 8 (blen message); rx_msg := msg |}).

(** The final [debug_assert_eq!] compares the removed binding with the one
    read before the ioctl. *)
Global Instance CecTransportBinding_eq_dec : EqDecision CecTransportBinding.
Proof. solve_decision. Defined.

Definition unbind_cec_transport (K : CecKernel) (lease : GrantLease) (t : CecTracker)
    : CecTracker * outcome CastKmsError unit :=
  let checked :=
    let? b := tracker_binding t in
    try? reject (cb_online b) (InvalidCecState "CEC transport must be offline before unbind");
    try? reject (bool_decide (is_Some (ct_pending t)))
           (InvalidCecState "cannot unbind CEC transport with a pending transmit");
    try? omap_err UnbindCecTransport
           (drm_ioctl_castkms_cec_unbind_transport K
              {| ub_connector_id := lease_connector_id lease;
                 ub_transport_id := cb_transport_id b |});
    Ok b in
  match checked with
  | Ok b =>
      let '(t', r) := remove t in
      (t', let? removed := r in if bool_decide (removed = b) then Ok tt else Panic)
  | Err e => (t, Err e)
  | Panic => (t, Panic)
  end.

(** [CastKmsClient::detach_monitor] (castkms.rs) refuses while a transport is
    bound. *)
Definition detach_monitor (ioctl : Z -> outcome Z unit) (lease : GrantLease) (t : CecTracker)
    : outcome CastKmsError unit :=
  try? reject (is_bound t)
         (InvalidCecState "CEC transport must be unbound before monitor detach");
  try? require_rights lease GRANT_MANAGE_ATTACHMENT;
  omap_err DetachMonitor (ioctl (lease_connector_id lease)).

(** ** Histories

    A history is any sequence of the operations that change the tracker, with
    any kernel answers and any events, failed operations included.  Its labels
    record what took effect. *)
Inductive label :=
  | LBound (b : CecTransportBinding)
  | LInterval
  | LAccepted (event : CecTransmitEvent)
  | LCompleted (event : CecTransmitEvent)
  | LUnbound.

Definition when {E A} (r : outcome E A) (l : A -> list label) : list label :=
  match r with Ok a => l a | _ => [] end.

Inductive cec_step (lease : GrantLease) : CecTracker -> list label -> CecTracker -> Prop :=
  | step_bind K t caps t' r :
      bind_cec_transport K lease t caps = (t', r) ->
      cec_step lease t (when r (fun b => [LBound b])) t'
  | step_online K t online t' r :
      set_cec_transport_online K lease t online = (t', r) ->
      cec_step lease t
        (when r (fun _ => if Bool.eqb (cec_transport_online t) online then [] else [LInterval])) t'
  | step_suspended t t' r :
      record_authority_suspended t = (t', r) -> cec_step lease t (when r (fun _ => [LInterval])) t'
  | step_transmit t event t' r :
      record_cec_transmit lease t event = (t', r) ->
      cec_step lease t
        (when r (fun a => match a with Accepted => [LAccepted event] | Stale => [] end)) t'
  | step_complete K t event completion t' r :
      complete_cec_transmit K lease t event completion = (t', r) ->
      cec_step lease t (when r (fun _ => [LCompleted event])) t'
  | step_unbind K t t' r :
      unbind_cec_transport K lease t = (t', r) ->
      cec_step lease t (when r (fun _ => [LUnbound])) t'.

(** A history between two trackers, oldest label first. *)
Inductive cec_history (lease : GrantLease) : CecTracker -> list label -> CecTracker -> Prop :=
  | history_nil t : cec_history lease t [] t
  | history_snoc t ls t1 l t2 :
      cec_history lease t ls t1 -> cec_step lease t1 l t2 -> cec_history lease t (ls ++ l) t2.

Definition cec_reachable (lease : GrantLease) (t : CecTracker) : Prop :=
  exists ls, cec_history lease CecTracker_default ls t.

(** *** The invariant *)

Record cec_inv (t : CecTracker) : Prop := {
  inv_unbound : ct_binding t = None -> ct_pending t = None /\ ct_requires_state_advance t = false;
  inv_pending p : ct_pending t = Some p ->
    exists b, ct_binding t = Some b /\ cb_online b = true /\
      pt_transport_generation p = cb_transport_generation b /\
      ct_requires_state_advance t = false;
  inv_nonzero b : ct_binding t = Some b ->
    cb_transport_id b <> 0 /\ cb_transport_generation b <> 0 /\ cb_state_generation b <> 0 }.

(** The shape of each operation that took effect. *)
Lemma record_transmit_inv t event t' r :
  record_transmit t event = (t', r) ->
  (t' = t /\ r <> Ok Accepted) \/
  (r = Ok Accepted /\ ct_pending t = None /\ exists b,
     ct_binding t = Some b /\ cb_online b = true /\
     te_transport_id event = cb_transport_id b /\
     te_transport_generation event = cb_transport_generation b /\
     te_transport_generation event <> 0 /\ te_cookie event <> 0 /\
     te_state_generation event <> 0 /\
     cb_state_generation b <= te_state_generation event /\
     (ct_requires_state_advance t = true -> cb_state_generation b < te_state_generation event) /\
     t' = {| ct_binding := Some (with_state_generation b (te_state_generation event));
             ct_pending := Some {| pt_transport_generation := te_transport_generation event;
                                   pt_cookie := te_cookie event |};
             ct_requires_state_advance := false |}).
Proof.
  unfold record_transmit. intros H.
  match type of H with (match ?m with _ => _ end) = _ => destruct m as [[t1|]|e|] eqn:Hm end;
    injection H as <- <-; [right|left; done..].
  split; [done|]. unfold tracker_binding in Hm. rewrite obind_ok in Hm.
  destruct Hm as (b & Hb & Hm). apply ok_or_ok in Hb.
  destruct (cb_online b) eqn:Ho; simpl in Hm; [|done].
  rewrite reject_seq_ok, obind_ok in Hm. destruct Hm as (Hid & g & Hg & Hm).
  apply ok_or_ok, nonzero_some in Hg as [-> Hg].
  destruct ((_ <? _) || _) eqn:Hst in Hm; [done|].
  rewrite obind_ok in Hm. destruct Hm as (tg & Htg & Hm). apply ok_or_ok, nonzero_some in Htg as [-> Htg].
  rewrite obind_ok in Hm. destruct Hm as (ck & Hck & Hm). apply ok_or_ok, nonzero_some in Hck as [-> Hck].
  rewrite reject_seq_ok in Hm. destruct Hm as (Hp & [= <-]).
  breflect. split; [destruct (ct_pending t); [exfalso; eauto|done]|].
  exists b. split_and!; try done.
  intros Hr. rewrite Hr in *. simpl in *. breflect. lia.
Qed.

Lemma bound_from_kernel_inv lease caps bind b :
  bound_from_kernel lease caps bind = Ok b ->
  cb_online b = false /\ cb_transport_id b <> 0 /\ cb_transport_generation b <> 0 /\
  cb_state_generation b <> 0.
Proof.
  unfold bound_from_kernel. intros H. ok_inv. subst b. simpl.
  repeat match goal with E : nonzero _ = Some _ |- _ => apply nonzero_some in E as [-> ?] end. done.
Qed.

Lemma bind_inv K lease t caps t' r :
  bind_cec_transport K lease t caps = (t', r) ->
  (t' = t /\ forall b, r <> Ok b) \/
  (exists b, r = Ok b /\ ct_binding t = None /\ cb_online b = false /\ cb_transport_id b <> 0 /\
     cb_transport_generation b <> 0 /\ cb_state_generation b <> 0 /\
     t' = {| ct_binding := Some b; ct_pending := ct_pending t;
             ct_requires_state_advance := ct_requires_state_advance t |}).
Proof.
  unfold bind_cec_transport. intros H.
  match type of H with (match ?m with _ => _ end) = _ => destruct m as [b|e|] eqn:Hm end;
    [|injection H as <- <-; by left..].
  rewrite seq_ok, reject_seq_ok in Hm. destruct Hm as (_ & Hb & Hm).
  rewrite reject_seq_ok, obind_ok in Hm. destruct Hm as (_ & bind & _ & Hm).
  apply bound_from_kernel_inv in Hm. unfold install in H. rewrite Hb in H. injection H as <- <-.
  right. exists b. unfold is_bound in Hb. breflect.
  split_and!; try done; try apply Hm. destruct (ct_binding t); [exfalso; eauto|done].
Qed.

Lemma set_cec_online_inv K lease t online t' r :
  cec_inv t -> set_cec_transport_online K lease t online = (t', r) ->
  (t' = t /\ (r = Ok tt -> cec_transport_online t = online)) \/
  (r = Ok tt /\ cec_transport_online t = negb online /\ ct_pending t = None /\
   exists b, ct_binding t = Some b /\
     t' = {| ct_binding := Some (with_online b online); ct_pending := None;
             ct_requires_state_advance := true |}).
Proof.
  intros Hinv. unfold set_cec_transport_online, tracker_binding, cec_transport_online.
  destruct (ct_binding t) as [b|] eqn:Hb; cbn [ok_or]; [|intros [= <- <-]; by left].
  destruct (Bool.eqb (cb_online b) online) eqn:Heq.
  { apply Bool.eqb_prop in Heq. intros [= <- <-]. by left. }
  assert (cb_online b = negb online) as Ho by (destruct (cb_online b), online; done).
  destruct (negb online && _) eqn:Hp; [intros [= <- <-]; by left|].
  destruct (drm_ioctl_castkms_cec_set_transport_state K _); [|intros [= <- <-]; by left..].
  assert (ct_pending t = None) as Hn.
  { destruct (ct_pending t) as [p|] eqn:Hpe; [exfalso|done].
    apply inv_pending in Hpe as (b' & Hb' & Hon & _); [|done]. rewrite Hb in Hb'. simplify_eq.
    destruct online; simpl in *; congruence. }
  unfold set_online. rewrite Hn, Hb, Heq. cbn [andb]. 
  rewrite bool_decide_eq_false_2 by (by intros [? ?]). simpl.
  intros [= <- <-]. right. split_and!; try done. by exists b.
Qed.

Lemma complete_inv K lease t event completion t' r :
  complete_cec_transmit K lease t event completion = (t', r) ->
  (t' = t /\ r <> Ok tt) \/
  (r = Ok tt /\ t' = complete t /\
   ct_pending t = Some {| pt_transport_generation := te_transport_generation event;
                          pt_cookie := te_cookie event |}).
Proof.
  unfold complete_cec_transmit. intros H.
  match type of H with (match ?m with _ => _ end) = _ => destruct m as [u|e|] eqn:Hm end;
    injection H as <- <-; [right|by left..].
  rewrite seq_ok in Hm. destruct Hm as (Hv & _). unfold validate_completion in Hv.
  rewrite obind_ok in Hv. destruct Hv as ([tg ck] & Hp & Hv).
  apply ok_or_ok in Hp. apply reject_ok in Hv. breflect. simpl in *. subst. done.
Qed.

Lemma unbind_inv K lease t t' r :
  unbind_cec_transport K lease t = (t', r) ->
  (t' = t /\ r <> Ok tt /\ (r = Panic ->
     exists a, drm_ioctl_castkms_cec_unbind_transport K a = Panic)) \/
  (r = Ok tt /\ ct_pending t = None /\ exists b, ct_binding t = Some b /\ cb_online b = false /\
   t' = {| ct_binding := None; ct_pending := None; ct_requires_state_advance := false |}).
Proof.
  unfold unbind_cec_transport, tracker_binding. intros H.
  destruct (ct_binding t) as [b|] eqn:Hb; cbn [ok_or obind] in H;
    [|injection H as <- <-; by left].
  destruct (cb_online b) eqn:Ho; cbn [reject obind] in H; [injection H as <- <-; by left|].
  destruct (ct_pending t) as [p|] eqn:Hp.
  { rewrite bool_decide_eq_true_2 in H by eauto. injection H as <- <-. by left. }
  rewrite bool_decide_eq_false_2 in H by (by intros [? ?]). cbn [reject obind] in H.
  match type of H with context [drm_ioctl_castkms_cec_unbind_transport K ?a] =>
    destruct (drm_ioctl_castkms_cec_unbind_transport K a) eqn:Hk end;
    cbn [omap_err obind] in H; [|injection H as <- <-; left; by split_and!|].
  - unfold remove in H. rewrite Hp, Hb in H.
    rewrite bool_decide_eq_false_2 in H by (by intros [? ?]). cbn [obind] in H.
    rewrite bool_decide_eq_true_2 in H by done. injection H as <- <-.
    right. split_and!; try done. by exists b.
  - injection H as <- <-. left. split_and!; try done. eauto.
Qed.

Lemma cec_step_inv lease t l t' : cec_inv t -> cec_step lease t l t' -> cec_inv t'.
Proof.
  intros Hi Hs. destruct Hs as [K t caps t' r H|K t online t' r H|t t' r H|t event t' r H
    |K t event completion t' r H|K t t' r H].
  - apply bind_inv in H as [[-> _]|(b & _ & Hb & Ho & ? & ? & ? & ->)]; [done|].
    apply Hi in Hb as [Hp Hr]. split; simpl; [done|by rewrite Hp|by intros ? [= <-]].
  - apply set_cec_online_inv in H as [[-> _]|(_ & _ & Hp & b & Hb & ->)]; [done| |done].
    split; simpl; [done|done|intros ? [= <-]; by apply Hi in Hb].
  - unfold record_authority_suspended in H. destruct (ct_binding t) as [b|] eqn:Hb;
      injection H as <- _; [|done]. split; simpl; [done|done|intros ? [= <-]; by apply Hi in Hb].
  - unfold record_cec_transmit in H. destruct (negb _); [injection H as <- _; done|].
    apply record_transmit_inv in H as [[-> _]|(_ & _ & b & Hb & Ho & ? & ? & ? & ? & ? & ? & ? & ->)];
      [done|]. apply Hi in Hb as (? & ? & ?).
    split; simpl; [done| |by intros ? [= <-]]. intros p [= <-]. eexists. split_and!; [done..|].
    simpl. done.
  - apply complete_inv in H as [[-> _]|(_ & -> & Hp)]; [done|].
    split; simpl; [|done|apply Hi]. intros Hn. apply Hi in Hn as [_ ?]. done.
  - apply unbind_inv in H as [[-> _]|(_ & Hp & b & Hb & Ho & ->)]; [done|].
    by split.
Qed.

Lemma cec_history_inv lease t ls t' : cec_history lease t ls t' -> cec_inv t -> cec_inv t'.
Proof. induction 1; eauto using cec_step_inv. Qed.

Lemma cec_inv_default : cec_inv CecTracker_default.
Proof. by split. Qed.

Lemma cec_reachable_inv lease t : cec_reachable lease t -> cec_inv t.
Proof. intros [ls H]. eauto using cec_history_inv, cec_inv_default. Qed.

(** *** The abstract transport

    What the client promises, in terms of labels only: the newest state
    generation seen in this binding, whether a newer one is required, and the
    identity of the transmit being processed.  [None] is an illegal history. *)
Record abstract := { a_generation : option Z; a_strict : bool; a_pending : option (Z * Z) }.

Definition a_init : abstract := {| a_generation := None; a_strict := false; a_pending := None |}.

Definition event_key (e : CecTransmitEvent) : Z * Z := (te_transport_generation e, te_cookie e).

Definition a_next (a : abstract) (l : label) : option abstract :=
  match l, a_generation a, a_pending a with
  | LBound b, None, None =>
      Some {| a_generation := Some (cb_state_generation b); a_strict := false; a_pending := None |}
  | LInterval, Some g, _ => Some {| a_generation := Some g; a_strict := true; a_pending := None |}
  | LAccepted e, Some g, None =>
      if (if a_strict a then g <? te_state_generation e else g <=? te_state_generation e)
      then Some {| a_generation := Some (te_state_generation e); a_strict := false;
                   a_pending := Some (event_key e) |}
      else None
  | LCompleted e, Some g, Some k =>
      if bool_decide (k = event_key e)
      then Some {| a_generation := Some g; a_strict := a_strict a; a_pending := None |} else None
  | LUnbound, Some _, None => Some a_init
  | _, _, _ => None
  end.

Fixpoint a_run (a : abstract) (ls : list label) : option abstract :=
  match ls with
  | [] => Some a
  | l :: ls => match a_next a l with Some a' => a_run a' ls | None => None end
  end.

Definition abstraction (t : CecTracker) : abstract :=
  {| a_generation := cb_state_generation <$> ct_binding t;
     a_strict := ct_requires_state_advance t;
     a_pending := (fun p => (pt_transport_generation p, pt_cookie p)) <$> ct_pending t |}.

Lemma a_run_app a ls ls' :
  a_run a (ls ++ ls') = match a_run a ls with Some a' => a_run a' ls' | None => None end.
Proof. revert a. induction ls as [|l ls IH]; intros a; simpl; [done|]. by destruct (a_next a l). Qed.

(** Each step of the tracker is a step of the abstract transport. *)
Lemma cec_step_simulates lease t l t' :
  cec_inv t -> cec_step lease t l t' -> a_run (abstraction t) l = Some (abstraction t').
Proof.
  intros Hi Hs. destruct Hs as [K t caps t' r H|K t online t' r H|t t' r H|t event t' r H
    |K t event completion t' r H|K t t' r H]; unfold abstraction.
  - apply bind_inv in H as [[-> Hr]|(b & -> & Hb & Ho & ? & ? & ? & ->)].
    + destruct r; [by destruct (Hr a)|done..].
    + pose proof (inv_unbound _ Hi Hb) as [Hp Hst]. simpl. by rewrite Hb, Hp, Hst.
  - apply set_cec_online_inv in H as [[-> Hr]|(-> & Ho & Hp & b & Hb & ->)]; [| |done].
    + destruct r as [[]| |]; [|done..]. simpl. rewrite Hr by done. by destruct online.
    + simpl. rewrite Ho. assert (Bool.eqb (negb online) online = false) as -> by by destruct online.
      simpl. by rewrite Hb.
  - unfold record_authority_suspended in H. destruct (ct_binding t) as [b|] eqn:Hb;
      injection H as <- <-; simpl; rewrite ?Hb; done.
  - unfold record_cec_transmit in H. destruct (negb _); [injection H as <- <-; done|].
    apply record_transmit_inv in H
      as [[-> Hr]|(-> & Hp & b & Hb & Ho & ? & ? & ? & ? & ? & Hg & Hstrict & ->)].
    + by destruct r as [[]| |].
    + simpl. rewrite Hb, Hp. simpl. destruct (ct_requires_state_advance t).
      * by rewrite (proj2 (Z.ltb_lt _ _)) by auto.
      * by rewrite (proj2 (Z.leb_le _ _)) by auto.
  - apply complete_inv in H as [[-> Hr]|(-> & -> & Hp)]; [by destruct r as [[]| |]|].
    destruct (inv_pending _ Hi _ Hp) as (b & Hb & _). simpl. rewrite Hb, Hp. simpl.
    by rewrite bool_decide_eq_true_2.
  - apply unbind_inv in H as [(-> & Hr & _)|(-> & Hp & b & Hb & Ho & ->)].
    + by destruct r as [[]| |].
    + simpl. by rewrite Hb, Hp.
Qed.

Lemma cec_history_simulates lease t ls t' :
  cec_inv t -> cec_history lease t ls t' -> a_run (abstraction t) ls = Some (abstraction t').
Proof.
  intros Hi Hh. induction Hh as [|t ls t1 l t2 Hh IH Hs]; [done|].
  rewrite a_run_app, IH by done. eauto using cec_step_simulates, cec_history_inv.
Qed.

(** C33: The CEC transport of a client refines the abstract transport: every
    history of its operations, whatever the kernel answers and whatever events
    arrive, is a legal history of the abstract transport and leaves the
    tracker in the corresponding abstract state. *)
Theorem cec_refines lease ls t :
  cec_history lease CecTracker_default ls t -> a_run a_init ls = Some (abstraction t).
Proof. intros H. by apply (cec_history_simulates _ _ _ _ cec_inv_default) in H. Qed.

(** *** Consequences for every history *)

Definition is_bound_label (l : label) : bool := match l with LBound _ => true | _ => false end.

Lemma a_run_mono mid a a' g :
  a_generation a = Some g -> existsb is_bound_label mid = false -> a_run a mid = Some a' ->
  a_generation a' = None \/
  exists g', a_generation a' = Some g' /\ g <= g' /\
    (a_strict a = true \/ In LInterval mid -> g < g' \/ a_strict a' = true).
Proof.
  revert a g. induction mid as [|l mid IH]; intros a g Hg Hb Hr.
  { injection Hr as <-. right. exists g. split_and!; [done|lia|]. intros [?|[]]; by right. }
  simpl in Hb. apply orb_false_iff in Hb as [Hl Hb]. cbn [a_run] in Hr.
  destruct (a_next a l) as [a1|] eqn:Hn; [|done]. unfold a_next in Hn. rewrite Hg in Hn.
  assert (forall a1, a_generation a1 = None -> a_run a1 mid = Some a' -> a_generation a' = None)
    as Hnone.
  { clear -Hb. induction mid as [|l mid IH]; intros a1 H1 Hr; [by injection Hr as <-|].
    simpl in Hb. apply orb_false_iff in Hb as [Hl Hb]. cbn [a_run] in Hr. unfold a_next in Hr.
    rewrite H1 in Hr. by destruct l. }
  destruct l as [b| |e|e|]; [done| | | |].
  - injection Hn as <-. pose proof (fun g H => IH _ g H Hb Hr) as IH'; cbn [a_generation] in IH';
    destruct (IH' g eq_refl) as [?|(g' & Hg' & Hle & Hs)]; [by left|].
    right. exists g'. split_and!; [done..|]. intros _. apply Hs. by left.
  - destruct (a_pending a); [done|].
    destruct (if a_strict a then _ else _) eqn:Hc; [|done]. injection Hn as <-.
    pose proof (fun g H => IH _ g H Hb Hr) as IH'; cbn [a_generation] in IH';
    destruct (IH' _ eq_refl) as [?|(g' & Hg' & Hle & Hs)]; [by left|]. cbn [a_strict] in Hs.
    right. exists g'. destruct (a_strict a) eqn:Hst; breflect.
    + split_and!; [done|lia|]. intros _. left. lia.
    + split_and!; [done|lia|]. intros [?|[?|Hin]]; [done..|].
      destruct (Hs (or_intror Hin)); [left; lia|by right].
  - destruct (a_pending a); [|done]. case_bool_decide; [|done]. injection Hn as <-.
    pose proof (fun g H => IH _ g H Hb Hr) as IH'; cbn [a_generation] in IH';
    destruct (IH' g eq_refl) as [?|(g' & Hg' & Hle & Hs)]; [by left|].
    right. exists g'. split_and!; [done..|]. intros [?|[?|Hin]]; [apply Hs; by left|done|].
    apply Hs. by right.
  - destruct (a_pending a); [done|]. injection Hn as <-. left. by eapply Hnone, Hr.
Qed.

(** State generations separate online intervals: within one binding, a
    transmit is accepted only with a state generation no older than every
    transmit accepted before it, and strictly newer once the transport went
    offline, came online or had its authority suspended in between.  A
    transmit of a finished interval is therefore never processed. *)
Theorem cec_generation_order lease pre e1 mid e2 post t :
  cec_history lease CecTracker_default (pre ++ LAccepted e1 :: mid ++ LAccepted e2 :: post) t ->
  existsb is_bound_label mid = false ->
  te_state_generation e1 <= te_state_generation e2 /\
  (In LInterval mid -> te_state_generation e1 < te_state_generation e2).
Proof.
  intros H Hb. apply (cec_history_simulates _ _ _ _ cec_inv_default) in H.
  rewrite a_run_app in H. destruct (a_run _ pre) as [a0|]; [|done]. cbn [a_run] in H.
  destruct (a_next a0 (LAccepted e1)) as [a1|] eqn:H1; [|done].
  rewrite a_run_app in H. destruct (a_run a1 mid) as [a2|] eqn:Hm; [|done]. cbn [a_run] in H.
  destruct (a_next a2 (LAccepted e2)) as [a3|] eqn:H2; [|done]. clear H.
  assert (a_generation a1 = Some (te_state_generation e1)) as Hg.
  { unfold a_next in H1. destruct (a_generation a0), (a_pending a0); try done.
    destruct (if a_strict a0 then _ else _); [|done]. by injection H1 as <-. }
  destruct (a_run_mono _ _ _ _ Hg Hb Hm) as [Hn|(g' & Hg' & Hle & Hs)].
  { unfold a_next in H2. by rewrite Hn in H2. }
  unfold a_next in H2. rewrite Hg' in H2. destruct (a_pending a2); [done|].
  destruct (a_strict a2) eqn:Hst; destruct (_ : bool) eqn:Hc in H2; try done; breflect.
  - split; lia.
  - split; [lia|]. intros Hin. destruct (Hs (or_intror Hin)); [lia|done].
Qed.

Lemma a_run_pending ls a k :
  a_run a_init ls = Some a -> a_pending a = Some k ->
  exists ls' e, ls = ls' ++ [LAccepted e] /\ event_key e = k.
Proof.
  destruct ls as [|l ls _] using rev_ind; [by intros [= <-]|].
  rewrite a_run_app. destruct (a_run a_init ls) as [a0|]; [|done]. cbn [a_run].
  destruct (a_next a0 l) as [a1|] eqn:Hn; [|done]. intros [= <-] Hk. exists ls.
  unfold a_next in Hn. destruct l as [b| |e|e|], (a_generation a0), (a_pending a0); try done;
    repeat match type of Hn with context [if ?c then _ else _] => destruct c end; try done;
    injection Hn as <-; simpl in Hk; try done. injection Hk as <-. by exists e.
Qed.

(** Transmits are completed once and by name: the operation before a
    completion that took effect is the acceptance of the transmit with the
    same transport generation and cookie, so no transmit is completed twice,
    without being accepted, or after its interval ended. *)
Theorem cec_completes_accepted lease pre e post t :
  cec_history lease CecTracker_default (pre ++ LCompleted e :: post) t ->
  exists pre' e', pre = pre' ++ [LAccepted e'] /\ event_key e' = event_key e.
Proof.
  intros H. apply (cec_history_simulates _ _ _ _ cec_inv_default) in H.
  rewrite a_run_app in H. change (abstraction CecTracker_default) with a_init in H.
  destruct (a_run a_init pre) as [a0|] eqn:Hp; [|done]. cbn [a_run] in H. unfold a_next in H.
  destruct (a_generation a0); [|done]. destruct (a_pending a0) as [k|] eqn:Hk; [|done].
  case_bool_decide as Heq; [|done]. subst k. by apply (a_run_pending pre) in Hk.
Qed.

(** In every reachable state a transmit is in progress only on a bound,
    online transport of its own generation; unbinding does not trip the
    debug assertion on the removed binding, and never leaves state behind; and
    a monitor is detached only from a transport with neither a binding nor a
    transmit in progress. *)
Theorem cec_reachable_sound lease t :
  cec_reachable lease t ->
  (forall p, ct_pending t = Some p -> exists b, ct_binding t = Some b /\ cb_online b = true /\
     pt_transport_generation p = cb_transport_generation b) /\
  (forall K t' r, (forall a, drm_ioctl_castkms_cec_unbind_transport K a <> Panic) ->
     unbind_cec_transport K lease t = (t', r) ->
     r <> Panic /\ (r = Ok tt -> t' = CecTracker_default) /\ (r <> Ok tt -> t' = t)) /\
  (forall ioctl, detach_monitor ioctl lease t = Ok tt -> t = CecTracker_default).
Proof.
  intros Hi%cec_reachable_inv. split_and!.
  - intros p Hp. destruct (inv_pending _ Hi _ Hp) as (b & ? & ? & ? & _). eauto.
  - intros K t' r HK H. apply unbind_inv in H as [(-> & Hr & Hp)|(-> & _ & b & _ & _ & ->)].
    + split_and!; [|done|done]. intros ->. destruct (Hp eq_refl) as [a Ha]. by apply (HK a).
    + by split_and!.
  - intros ioctl H. unfold detach_monitor in H. rewrite reject_seq_ok in H.
    destruct H as [Hb _]. unfold is_bound in Hb. breflect.
    destruct t as [[b|] pend ra]; [exfalso; eauto|].
    destruct (inv_unbound _ Hi eq_refl) as [Hp Hr]. simpl in *. by subst.
Qed.

(** *** A concrete history: two transmits with a suspension in between *)

Definition ex_lease : GrantLease :=
  {| gl_holder := 3; gl_lifetime := ExternalGrantor;
     gl_metadata := {| gm_grant_id := 1; gm_connector_id := 42; gm_output_index := 0;
       gm_rights := DISPLAY_CEC_V1_RIGHTS; gm_flags := 0; gm_initial_state := 1;
       gm_capture_uapi_major := 0; gm_capture_uapi_minor := 12 |} |}.

Definition ex_kernel : CecKernel :=
  {| drm_ioctl_castkms_cec_query_caps := fun c => Err 0;
     drm_ioctl_castkms_cec_bind_transport := fun c => Ok
       {| bt_connector_id := c; bt_flags := 0; bt_transport_id := 5; bt_reserved := 0;
          bt_transport_generation := 9; bt_state_generation := 1; bt_output_index := 0;
          bt_state_flags := CEC_STATE_MONITOR_ATTACHED; bt_phys_addr := 4096;
          bt_logical_addr_mask := 0; bt_pad0 := 0 |};
     drm_ioctl_castkms_cec_set_transport_state := fun _ => Ok tt;
     drm_ioctl_castkms_cec_tx_complete := fun _ => Ok tt;
     drm_ioctl_castkms_cec_receive := fun _ => Ok tt;
     drm_ioctl_castkms_cec_unbind_transport := fun _ => Ok tt |}.

Definition ex_caps : CecCapabilities :=
  {| cc_connector_id := 42; cc_output_index := 0; cc_capabilities := CEC_REQUIRED_CAPABILITIES;
     cc_uapi_minor := 1 |}.

Definition ex_event (generation cookie : Z) : CecTransmitEvent :=
  {| te_transport_id := 5; te_transport_generation := 9; te_state_generation := generation;
     te_cookie := cookie; te_connector_id := 42; te_output_index := 0; te_attempts := 1;
     te_signal_free_time := 7; te_message_length := 2;
     te_message := [4; 54] ++ replicate 14 0 |}.

Definition ex_binding : CecTransportBinding :=
  {| cb_transport_id := 5; cb_transport_generation := 9; cb_state_generation := 1;
     cb_output_index := 0; cb_physical_address := 4096; cb_logical_address_mask := 0;
     cb_online := false |}.

Definition ex_labels : list label :=
  [LBound ex_binding; LInterval; LAccepted (ex_event 2 11); LCompleted (ex_event 2 11);
   LInterval; LInterval; LAccepted (ex_event 4 12); LCompleted (ex_event 4 12); LInterval; LUnbound].

(** The tracker after the transmits, before going offline, and at the end. *)
Lemma ex_history : cec_history ex_lease CecTracker_default ex_labels CecTracker_default.
Proof.
  pose (t1 := (bind_cec_transport ex_kernel ex_lease CecTracker_default ex_caps).1).
  pose (t2 := (set_cec_transport_online ex_kernel ex_lease t1 true).1).
  pose (t3 := (record_cec_transmit ex_lease t2 (ex_event 2 11)).1).
  pose (t4 := (complete_cec_transmit ex_kernel ex_lease t3 (ex_event 2 11) succeeded).1).
  pose (t5 := (record_authority_suspended t4).1).
  pose (t6 := (set_cec_transport_online ex_kernel ex_lease t5 true).1).
  pose (t7 := (record_cec_transmit ex_lease t6 (ex_event 2 11)).1).
  pose (t8 := (record_cec_transmit ex_lease t7 (ex_event 4 12)).1).
  pose (t9 := (complete_cec_transmit ex_kernel ex_lease t8 (ex_event 4 12) failed).1).
  pose (t10 := (set_cec_transport_online ex_kernel ex_lease t9 false).1).
  pose proof (history_nil ex_lease CecTracker_default) as H.
  pose proof (history_snoc _ _ _ _ _ _ H (step_bind ex_lease ex_kernel CecTracker_default ex_caps _ _ (surjective_pairing _))) as H1.
  pose proof (history_snoc _ _ _ _ _ _ H1 (step_online ex_lease ex_kernel t1 true _ _ (surjective_pairing _))) as H2.
  pose proof (history_snoc _ _ _ _ _ _ H2 (step_transmit ex_lease t2 (ex_event 2 11) _ _ (surjective_pairing _))) as H3.
  pose proof (history_snoc _ _ _ _ _ _ H3
    (step_complete ex_lease ex_kernel t3 (ex_event 2 11) succeeded _ _ (surjective_pairing _))) as H4.
  pose proof (history_snoc _ _ _ _ _ _ H4 (step_suspended ex_lease t4 _ _ (surjective_pairing _))) as H5.
  pose proof (history_snoc _ _ _ _ _ _ H5 (step_online ex_lease ex_kernel t5 true _ _ (surjective_pairing _))) as H6.
  pose proof (history_snoc _ _ _ _ _ _ H6 (step_transmit ex_lease t6 (ex_event 2 11) _ _ (surjective_pairing _))) as H7.
  pose proof (history_snoc _ _ _ _ _ _ H7 (step_transmit ex_lease t7 (ex_event 4 12) _ _ (surjective_pairing _))) as H8.
  pose proof (history_snoc _ _ _ _ _ _ H8
    (step_complete ex_lease ex_kernel t8 (ex_event 4 12) failed _ _ (surjective_pairing _))) as H9.
  pose proof (history_snoc _ _ _ _ _ _ H9 (step_online ex_lease ex_kernel t9 false _ _ (surjective_pairing _))) as H10.
  exact (history_snoc _ _ _ _ _ _ H10 (step_unbind ex_lease ex_kernel t10 _ _ (surjective_pairing _))).
Qed.

Lemma cec_refines_witness : a_run a_init ex_labels = Some a_init.
Proof. exact (cec_refines ex_lease ex_labels CecTracker_default ex_history). Defined.

Lemma cec_generation_order_witness :
  te_state_generation (ex_event 2 11) < te_state_generation (ex_event 4 12).
Proof.
  apply (cec_generation_order ex_lease [LBound ex_binding; LInterval] (ex_event 2 11)
    [LCompleted (ex_event 2 11); LInterval; LInterval] (ex_event 4 12)
    [LCompleted (ex_event 4 12); LInterval; LUnbound] CecTracker_default ex_history);
    [reflexivity|simpl; auto].
Defined.

Lemma cec_completes_accepted_witness : exists pre' e',
  [LBound ex_binding; LInterval; LAccepted (ex_event 2 11); LCompleted (ex_event 2 11);
   LInterval; LInterval; LAccepted (ex_event 4 12)] = pre' ++ [LAccepted e'] /\
  event_key e' = (9, 12).
Proof.
  exact (cec_completes_accepted ex_lease (take 7 ex_labels) (ex_event 4 12) [LInterval; LUnbound]
    CecTracker_default ex_history).
Defined.

Lemma cec_reachable_sound_witness :
  cec_reachable ex_lease CecTracker_default /\
  (detach_monitor (fun _ => Ok tt) ex_lease CecTracker_default = Ok tt ->
   CecTracker_default = CecTracker_default).
Proof.
  assert (cec_reachable ex_lease CecTracker_default) as H
    by (exists ex_labels; exact ex_history).
  split; [exact H|]. exact (proj2 (proj2 (cec_reachable_sound ex_lease _ H)) _).
Defined.
