(* ===== verification/CecBridge.v ===== *)
(** * HDMI-CEC to Device control (crates/pronk/src/cec_bridge.rs)

    The bridge answers CEC messages as a TV (address 0) and an audio system
    (address 5).  Its state is the key that is held down.  The operations it
    produces are those of crates/pronk/src/device_control_port.rs. *)

From S2P Require Import Prelude Bytes.

Inductive DeviceControlKind :=
  | Activate | Deactivate | Power | Standby | KeyDown | KeyUp | Volume | Mute.

Record DeviceControlOperation := {
  op_kind : DeviceControlKind; op_code : option string; op_value : Z }.

Definition simple (kind : DeviceControlKind) : DeviceControlOperation :=
  {| op_kind := kind; op_code := None; op_value := 0 |}.
Definition coded (kind : DeviceControlKind) (code : string) : DeviceControlOperation :=
  {| op_kind := kind; op_code := Some code; op_value := 0 |}.
Definition valued (kind : DeviceControlKind) (code : string) (value : Z) : DeviceControlOperation :=
  {| op_kind := kind; op_code := Some code; op_value := value |}.

Definition LOGICAL_ADDRESS_TV : Z := 0.
Definition LOGICAL_ADDRESS_AUDIO_SYSTEM : Z := 5.
Definition LOGICAL_ADDRESS_BROADCAST : Z := 15.

Definition OPCODE_FEATURE_ABORT : Z := 0x00.
Definition OPCODE_IMAGE_VIEW_ON : Z := 0x04.
Definition OPCODE_TEXT_VIEW_ON : Z := 0x0d.
Definition OPCODE_STANDBY : Z := 0x36.
Definition OPCODE_USER_CONTROL_PRESSED : Z := 0x44.
Definition OPCODE_USER_CONTROL_RELEASED : Z := 0x45.
Definition OPCODE_SET_AUDIO_VOLUME_LEVEL : Z := 0x73.
Definition OPCODE_ACTIVE_SOURCE : Z := 0x82.
Definition OPCODE_INACTIVE_SOURCE : Z := 0x9d.

Definition ABORT_UNRECOGNIZED_OPCODE : Z := 0x00.
Definition ABORT_INVALID_OPERAND : Z := 0x03.

Definition UI_POWER : Z := 0x40.
Definition UI_VOLUME_UP : Z := 0x41.
Definition UI_VOLUME_DOWN : Z := 0x42.
Definition UI_MUTE : Z := 0x43.
Definition UI_POWER_TOGGLE : Z := 0x6b.
Definition UI_POWER_OFF : Z := 0x6c.
Definition UI_POWER_ON : Z := 0x6d.

Definition RELATIVE_VOLUME_STEP_PERCENT : Z := 5.

Inductive CecBridgeAction :=
  | Acknowledge
  | NotAcknowledged
  | Reply (message : list Z)
  | Control (operation : DeviceControlOperation).

(** [CecBridge]: the key held down. *)
Definition CecBridge := option string.
Definition CecBridge_new : CecBridge := None.

Definition is_remote_address (address : Z) : bool :=
  (address =? LOGICAL_ADDRESS_TV) || (address =? LOGICAL_ADDRESS_AUDIO_SYSTEM).

Definition abort_or_acknowledge (initiator destination opcode reason : Z) : CecBridgeAction :=
  if (destination =? LOGICAL_ADDRESS_BROADCAST) || (initiator =? LOGICAL_ADDRESS_BROADCAST)
  then Acknowledge
  else Reply [Z.lor (wrap 8 (Z.shiftl destination 4)) initiator; OPCODE_FEATURE_ABORT; opcode;
              reason].

(** [format!("cec-ui-{code:02x}")]. *)
Definition hex_digit (d : Z) : string :=
  String (Ascii.ascii_of_nat (Z.to_nat (if d <? 10 then 48 + d else 87 + d))) EmptyString.
Definition key_name (code : Z) : string :=
  String.append "cec-ui-" (String.append (hex_digit (code / 16)) (hex_digit (code mod 16))).

Definition user_control_pressed (pressed : CecBridge) (code : Z) : CecBridge * CecBridgeAction :=
  if code =? UI_VOLUME_UP then
    (pressed, Control (valued Volume "relative" RELATIVE_VOLUME_STEP_PERCENT))
  else if code =? UI_VOLUME_DOWN then
    (pressed, Control (valued Volume "relative" (- RELATIVE_VOLUME_STEP_PERCENT)))
  else if code =? UI_MUTE then (pressed, Control (coded Mute "toggle"))
  else if (code =? UI_POWER) || (code =? UI_POWER_TOGGLE) then
    (pressed, Control (coded Power "toggle"))
  else if code =? UI_POWER_OFF then (pressed, Control (simple Standby))
  else if code =? UI_POWER_ON then (pressed, Control (coded Power "on"))
  else (Some (key_name code), Control (coded KeyDown (key_name code))).

Definition user_control_released (pressed : CecBridge) : CecBridge * CecBridgeAction :=
  match pressed with
  | Some code => (None, Control (coded KeyUp code))
  | None => (None, Acknowledge)
  end.

(** [CecBridge::translate].  The indexed reads are checked, as in Rust. *)
Definition translate (pressed : CecBridge) (message : list Z)
    : outcome Empty_set (CecBridge * CecBridgeAction) :=
  if bool_decide (message = []) || bool_decide (16 < length message)%nat
  then Ok (pressed, NotAcknowledged)
  else
    let? header := index message 0 in
    let initiator := Z.shiftr header 4 in
    let destination := Z.land header 0x0f in
    let len := blen message in
    if len =? 1 then
      Ok (pressed, if (initiator =? destination) && is_remote_address destination
                   then Acknowledge else NotAcknowledged)
    else if negb (is_remote_address destination)
            && negb (destination =? LOGICAL_ADDRESS_BROADCAST) then Ok (pressed, NotAcknowledged)
    else
      let? opcode := index message 1 in
      (* the third byte, read only where the length was checked *)
      let? operand := if len =? 3 then index message 2 else Ok 0 in
      Ok (if ((opcode =? OPCODE_IMAGE_VIEW_ON) || (opcode =? OPCODE_TEXT_VIEW_ON))
             && ((destination =? LOGICAL_ADDRESS_TV) && (len =? 2)) then
            (pressed, Control (simple Activate))
          else if (opcode =? OPCODE_ACTIVE_SOURCE)
                  && ((destination =? LOGICAL_ADDRESS_BROADCAST) && (len =? 4)) then
            (pressed, Control (simple Activate))
          else if (opcode =? OPCODE_INACTIVE_SOURCE)
                  && ((destination =? LOGICAL_ADDRESS_BROADCAST) && (len =? 4)) then
            (pressed, Control (simple Deactivate))
          else if (opcode =? OPCODE_STANDBY) && (len =? 2) then (pressed, Control (simple Standby))
          else if (opcode =? OPCODE_USER_CONTROL_PRESSED)
                  && (is_remote_address destination && (len =? 3)) then
            user_control_pressed pressed operand
          else if (opcode =? OPCODE_USER_CONTROL_RELEASED)
                  && (is_remote_address destination && (len =? 2)) then
            user_control_released pressed
          else if (opcode =? OPCODE_SET_AUDIO_VOLUME_LEVEL)
                  && (is_remote_address destination && (len =? 3) && (operand <=? 100)) then
            (pressed, Control (valued Volume "absolute" operand))
          else if (opcode =? OPCODE_IMAGE_VIEW_ON) || (opcode =? OPCODE_TEXT_VIEW_ON)
                  || (opcode =? OPCODE_ACTIVE_SOURCE) || (opcode =? OPCODE_INACTIVE_SOURCE)
                  || (opcode =? OPCODE_STANDBY) || (opcode =? OPCODE_USER_CONTROL_PRESSED)
                  || (opcode =? OPCODE_USER_CONTROL_RELEASED)
                  || (opcode =? OPCODE_SET_AUDIO_VOLUME_LEVEL) then
            (pressed, abort_or_acknowledge initiator destination opcode ABORT_INVALID_OPERAND)
          else (pressed,
                abort_or_acknowledge initiator destination opcode ABORT_UNRECOGNIZED_OPCODE)).

(** ** Replies *)

Lemma address_byte d i : 0 <= i < 16 -> 0 <= d < 16 ->
  Z.lor (wrap 8 (Z.shiftl d 4)) i = 16 * d + i.
Proof.
  intros Hi Hd.
  assert (forallb (fun d => forallb (fun i => Z.lor (wrap 8 (Z.shiftl d 4)) i =? 16 * d + i)
            (seqZ 0 16)) (seqZ 0 16) = true) as H by reflexivity.
  rewrite forallb_forall in H. specialize (H d). rewrite forallb_forall in H.
  apply Z.eqb_eq, H; apply list_elem_of_In, elem_of_seqZ; lia.
Qed.

Lemma abort_reply i d o r m :
  0 <= i < 16 -> 0 <= d < 16 ->
  abort_or_acknowledge i d o r = Reply m ->
  d <> 15 /\ i <> 15 /\ m = [16 * d + i; OPCODE_FEATURE_ABORT; o; r].
Proof.
  intros Hi Hd. unfold abort_or_acknowledge, LOGICAL_ADDRESS_BROADCAST.
  destruct (_ || _) eqn:Hb; [done|]. breflect. intros [= <-]. split_and!; try done. f_equal.
  by apply address_byte.
Qed.

(** The bridge answers every message without a panic, and it replies on the
    bus only to a message addressed directly to one of its own addresses by a
    registered initiator: the reply is a Feature Abort of the same opcode, from
    the address that was addressed back to the initiator, naming a reason; a
    broadcast is never answered. *)
Theorem translate_replies pressed message :
  bytes_ok message ->
  oks (translate pressed message) (fun '(_, action) =>
    forall m, action = Reply m ->
    exists header opcode rest reason, message = header :: opcode :: rest /\
      (length message <= 16)%nat /\
      (header mod 16 = LOGICAL_ADDRESS_TV \/ header mod 16 = LOGICAL_ADDRESS_AUDIO_SYSTEM) /\
      header / 16 <> LOGICAL_ADDRESS_BROADCAST /\
      m = [16 * (header mod 16) + header / 16; OPCODE_FEATURE_ABORT; opcode; reason] /\
      (reason = ABORT_UNRECOGNIZED_OPCODE \/ reason = ABORT_INVALID_OPERAND)).
Proof.
  intros Hb. unfold translate. case_bool_decide as Hn; [done|]. case_bool_decide as Hl; [done|].
  cbn [orb]. destruct message as [|header [|opcode rest]]; [done| |].
  { cbn [index lookup list_lookup expect obind]. change (blen [header] =? 1) with true.
    cbn iota. by case_match. }
  cbn [index lookup list_lookup expect obind].
  rewrite (proj2 (Z.eqb_neq _ 1)) by (unfold blen; simpl; lia).
  destruct (negb _ && _) eqn:Hd; [done|].
  assert (exists v, (if blen (header :: opcode :: rest) =? 3
            then index (E:=Empty_set) (header :: opcode :: rest) 2 else Ok 0) = Ok v) as [v ->].
  { destruct (_ =? 3) eqn:E; [|by eexists]. breflect. unfold blen in E. simpl in E.
    destruct rest as [|x rest]; [simpl in E; lia|]. by exists x. }
  cbn [obind]. inversion Hb as [|? ? Hh _]; subst. unfold uint in Hh.
  assert (Z.land header 15 = header mod 16) as Hland by (change 15 with (Z.ones 4); by rewrite Z.land_ones).
  assert (Z.shiftr header 4 = header / 16) as Hshr by (by rewrite Z.shiftr_div_pow2).
  rewrite Hland, Hshr in *. pose proof (Z.mod_pos_bound header 16 ltac:(lia)).
  assert (0 <= header / 16 < 16) by (split; [apply Z.div_pos|apply Z.div_lt_upper_bound]; lia).
  assert (forall o r m, abort_or_acknowledge (header / 16) (header mod 16) o r = Reply m ->
    (header mod 16 = LOGICAL_ADDRESS_TV \/ header mod 16 = LOGICAL_ADDRESS_AUDIO_SYSTEM) /\
    header / 16 <> LOGICAL_ADDRESS_BROADCAST /\
    m = [16 * (header mod 16) + header / 16; OPCODE_FEATURE_ABORT; o; r]) as Hab.
  { intros o r m Hm. apply abort_reply in Hm as (? & ? & ->); [|lia..].
    split_and!; [|done|done]. unfold is_remote_address in Hd.
    apply andb_false_iff in Hd as [Hd|Hd]; breflect; [|done].
    apply orb_true_iff in Hd as [Hd|Hd]; breflect; auto. }
  assert (forall p r m, r = ABORT_UNRECOGNIZED_OPCODE \/ r = ABORT_INVALID_OPERAND ->
    (p : CecBridge, abort_or_acknowledge (header / 16) (header mod 16) opcode r).2 = Reply m ->
    exists h o re reason, header :: opcode :: rest = h :: o :: re /\
      (length (header :: opcode :: rest) <= 16)%nat /\
      (h mod 16 = LOGICAL_ADDRESS_TV \/ h mod 16 = LOGICAL_ADDRESS_AUDIO_SYSTEM) /\
      h / 16 <> LOGICAL_ADDRESS_BROADCAST /\
      m = [16 * (h mod 16) + h / 16; OPCODE_FEATURE_ABORT; o; reason] /\
      (reason = ABORT_UNRECOGNIZED_OPCODE \/ reason = ABORT_INVALID_OPERAND)) as Hfin.
  { intros p r m Hr Hm. simpl in Hm. apply Hab in Hm as (? & ? & ->).
    exists header, opcode, rest, r. split_and!; try done. lia. }
  unfold user_control_pressed, user_control_released.
  repeat match goal with
  | |- oks (Ok (if ?c then _ else _)) _ => destruct c
  | |- oks (Ok (match ?c with _ => _ end)) _ => destruct c
  end; try done; simpl; intros m Hm; eapply (Hfin pressed _ m); try exact Hm; auto.
Qed.

Lemma translate_replies_witness : exists p, translate CecBridge_new [0x45; 0x99; 1] =
  Ok (p, Reply [0x54; 0; 0x99; 0]) /\
  oks (translate CecBridge_new [0x45; 0x99; 1]) (fun '(_, a) => forall m, a = Reply m -> exists header opcode rest reason, [0x45; 0x99; 1] = header :: opcode :: rest /\
      (length [0x45; 0x99; 1] <= 16)%nat /\
      (header mod 16 = LOGICAL_ADDRESS_TV \/ header mod 16 = LOGICAL_ADDRESS_AUDIO_SYSTEM) /\
      header / 16 <> LOGICAL_ADDRESS_BROADCAST /\
      m = [16 * (header mod 16) + header / 16; OPCODE_FEATURE_ABORT; opcode; reason] /\
      (reason = ABORT_UNRECOGNIZED_OPCODE \/ reason = ABORT_INVALID_OPERAND)).
Proof.
  exists None. split; [reflexivity|].
  apply (translate_replies CecBridge_new [0x45; 0x99; 1]). apply bytes_okb_ok. reflexivity.
Defined.

(** ** Keys *)

(** A stream of messages, translated in order. *)
Fixpoint translate_all (pressed : CecBridge) (messages : list (list Z))
    : outcome Empty_set (list CecBridgeAction) :=
  match messages with
  | [] => Ok []
  | m :: rest =>
      let? '(pressed, action) := translate pressed m in
      let? actions := translate_all pressed rest in
      Ok (action :: actions)
  end.

(** The key effect of an action on a Device. *)
Definition key_effect (held : option string) (action : CecBridgeAction) : option string :=
  match action with
  | Control op => match op_kind op with
                  | KeyDown => op_code op
                  | KeyUp => None
                  | _ => held
                  end
  | _ => held
  end.

Definition is_key (action : CecBridgeAction) : bool :=
  match action with
  | Control op => match op_kind op with KeyDown | KeyUp => true | _ => false end
  | _ => false
  end.

(** The bridge's key is the key its actions left held down, and a key is
    released only when it is the one held. *)
Lemma translate_key pressed m :
  oks (translate pressed m) (fun '(pressed', action) =>
    pressed' = key_effect pressed action /\
    forall code v, action = Control {| op_kind := KeyUp; op_code := code; op_value := v |} ->
      code = pressed /\ is_Some pressed).
Proof.
  unfold translate. case_bool_decide as Hn; [done|]. case_bool_decide as Hl; [done|].
  cbn [orb]. destruct m as [|header [|opcode rest]]; [done| |].
  { cbn [index lookup list_lookup expect obind]. change (blen [header] =? 1) with true.
    cbn iota. by case_match. }
  cbn [index lookup list_lookup expect obind].
  rewrite (proj2 (Z.eqb_neq _ 1)) by (unfold blen; simpl; lia).
  destruct (negb _ && _) eqn:Hd; [done|].
  assert (exists v, (if blen (header :: opcode :: rest) =? 3
            then index (E:=Empty_set) (header :: opcode :: rest) 2 else Ok 0) = Ok v) as [v ->].
  { destruct (_ =? 3) eqn:E; [|by eexists]. breflect. unfold blen in E. simpl in E.
    destruct rest as [|x rest]; [simpl in E; lia|]. by exists x. }
  cbn [obind]. unfold user_control_pressed, user_control_released, abort_or_acknowledge.
  repeat match goal with
  | |- oks (Ok (if ?c then _ else _)) _ => destruct c
  | |- oks (Ok (match ?c with _ => _ end)) _ => destruct c
  | |- oks (Ok (_, if ?c then _ else _)) _ => destruct c
  end; simpl; split; try done; intros ? ? [=]; subst; eauto.
Qed.

Lemma translate_all_held pressed messages :
  oks (translate_all pressed messages) (fun actions =>
    forall pre code v post,
      actions = pre ++ Control {| op_kind := KeyUp; op_code := code; op_value := v |} :: post ->
      code = foldl key_effect pressed pre /\ is_Some code).
Proof.
  revert pressed. induction messages as [|m rest IH]; intros pressed; [by intros []|].
  cbn [translate_all]. eapply oks_bind; [apply translate_key|]. intros [p a] [-> Hup].
  eapply oks_bind; [apply IH|]. intros actions Ha. simpl. intros pre code v post Heq.
  destruct pre as [|b pre]; injection Heq as -> Heq.
  - destruct (Hup code v eq_refl) as [-> Hs]. done.
  - by eapply Ha.
Qed.

Lemma held_last pre code :
  foldl key_effect None pre = Some code ->
  exists pre1 v pre2,
    pre = pre1 ++ Control {| op_kind := KeyDown; op_code := Some code; op_value := v |} :: pre2 /\
    existsb is_key pre2 = false.
Proof.
  induction pre as [|a pre IH] using rev_ind; [done|]. rewrite foldl_app. simpl.
  destruct a as [| |m|[kind c v]]; simpl.
  4: destruct kind; simpl.
  8: { intros ->. by exists pre, v, []. }
  8: done.
  all: intros H; destruct (IH H) as (pre1 & v' & pre2 & -> & Hk);
    eexists pre1, v', (pre2 ++ [_]); rewrite <- app_assoc;
    (split; [reflexivity|]); by rewrite existsb_app, Hk.
Qed.

(** Keys are released in step with being pressed: from a new bridge, over
    any sequence of messages, a key-up operation carries the code of the last
    key operation before it, which was the key-down of that key; no key is
    released twice or without having been pressed. *)
Theorem key_up_matches messages :
  oks (translate_all CecBridge_new messages) (fun actions =>
    forall pre code v post,
      actions = pre ++ Control {| op_kind := KeyUp; op_code := code; op_value := v |} :: post ->
      exists pre1 v' pre2,
        pre = pre1 ++ Control {| op_kind := KeyDown; op_code := code; op_value := v' |} :: pre2 /\
        existsb is_key pre2 = false).
Proof.
  eapply oks_weaken; [apply translate_all_held|]. intros actions H pre code v post Heq.
  destruct (H _ _ _ _ Heq) as [Hc [c ->]]. by apply held_last.
Qed.
