(* ===== verification/CastkmsCapture.v ===== *)
(** * Capture ownership (crates/pronk-core/src/castkms_capture.rs)

    The capture half of [CastKmsClient]: capability queries, the capture
    stream, its registered buffers and their ownership states, and the private
    GEM, framebuffer, DMA-BUF and syncobj resources of every buffer.

    An operation runs in a state monad over the tracker and the log of the
    system calls issued so far; an error keeps the state reached, as in Rust.
    The kernel is any function of that log and of the call's arguments
    ([CaptureKernel]).  Closing an owned descriptor (the drop of an [OwnedFd])
    is logged as [CloseFd]. *)

From S2P Require Import Prelude Bytes Text CastkmsSys Grant Castkms CastkmsEvent.

Definition MAX_CAPTURE_FORMATS : Z := 256.
Definition MAX_TRACKED_CAPTURE_BUFFERS : Z := 64.
Definition MAX_CAPTURE_BUFFER_BYTES : Z := 1024 * 1024 * 1024.
Definition MAX_OUTSTANDING_CAPTURE_REQUESTS : nat := 1.

(** ** Data *)

Record CaptureFormat := { fm_format : Z; fm_modifier : Z }.

Record CaptureCapabilities := {
  ca_uapi_major : Z; ca_uapi_minor : Z; ca_crtc_id : Z; ca_flags : Z;
  ca_formats : list CaptureFormat; ca_max_registered_buffers : Z }.

Definition max_registered_buffers (c : CaptureCapabilities) : Z :=
  Z.min (ca_max_registered_buffers c) MAX_TRACKED_CAPTURE_BUFFERS.
Definition supports_explicit_sync (c : CaptureCapabilities) : bool :=
  negb (Z.land (ca_flags c) CAPTURE_CAP_SYNCOBJ_TIMELINE =? 0).
Definition supports_implicit_sync (c : CaptureCapabilities) : bool :=
  negb (Z.land (ca_flags c) CAPTURE_CAP_IMPLICIT_SYNC =? 0).

Inductive CursorCaptureMode := IncludeInFrame | ExcludeFromFrame.
Inductive CaptureSynchronization := Implicit | Explicit.

Record CaptureStreamInfo := {
  si_stream_id : Z; si_crtc_id : Z; si_mode_generation : Z; si_width : Z; si_height : Z;
  si_refresh_hz : Z; si_cursor_mode : CursorCaptureMode }.

Record CaptureBufferLayout := {
  la_width : Z; la_height : Z; la_format : Z; la_modifier : Z; la_pitch : Z; la_size : Z }.

Inductive CaptureBufferState := Idle | Queued | Completed | ConsumerOwned.

Global Instance CursorCaptureMode_eq_dec : EqDecision CursorCaptureMode.
Proof. solve_decision. Defined.
Global Instance CaptureBufferState_eq_dec : EqDecision CaptureBufferState.
Proof. solve_decision. Defined.

Record CaptureBufferInfo := {
  bi_stream_id : Z; bi_buffer_id : Z; bi_framebuffer_id : Z;
  bi_synchronization : CaptureSynchronization; bi_layout : option CaptureBufferLayout;
  bi_state : CaptureBufferState }.

Record CaptureReady := {
  cr_stream_id : Z; cr_buffer_id : Z; cr_user_data : Z; cr_ready_point : option Z }.

(** The fences carry the identity of their queue; the descriptor is a number. *)
Record ImplicitCaptureFence := {
  if_stream_id : Z; if_buffer_id : Z; if_user_data : Z; if_fence : Z }.
Record ExplicitCaptureFence := {
  ef_stream_id : Z; ef_buffer_id : Z; ef_user_data : Z; ef_ready_point : Z; ef_event : Z }.

(** The evidence a completed wait produces. *)
Definition implicit_wait (f : ImplicitCaptureFence) : CaptureReady :=
  {| cr_stream_id := if_stream_id f; cr_buffer_id := if_buffer_id f;
     cr_user_data := if_user_data f; cr_ready_point := None |}.
Definition explicit_wait (f : ExplicitCaptureFence) : CaptureReady :=
  {| cr_stream_id := ef_stream_id f; cr_buffer_id := ef_buffer_id f;
     cr_user_data := ef_user_data f; cr_ready_point := Some (ef_ready_point f) |}.

Record CaptureQueue := {
  q_stream_id : Z; q_buffer_id : Z; q_user_data : Z; q_ready_point : option Z;
  q_reuse_point : option Z }.

Global Instance CaptureQueue_eq_dec : EqDecision CaptureQueue.
Proof. solve_decision. Defined.

Record CaptureCompletion := { cm_queue : CaptureQueue; cm_frame : CaptureFrameEvent }.

Definition mode_changed (c : CaptureCompletion) : bool :=
  negb (Z.land (fe_flags (cm_frame c)) CAPTURE_FRAME_MODE_CHANGED =? 0).

Record CaptureRelease := { rl_stream_id : Z; rl_buffer_id : Z; rl_reuse_point : option Z }.

Record RetiredCaptureStream := {
  rs_stream : CaptureStreamInfo; rs_buffers : list CaptureBufferInfo }.

Record CaptureStopOutcome := {
  so_stream : CaptureStreamInfo; so_kernel_stream_was_gone : bool;
  so_waiting_buffer_count : nat }.

Inductive GrantStateEvidence :=
  | EvQuery
  | EvEvent (e : GrantStateEvent)
  | EvCaptureInvalidated (errno : Z).

Inductive GrantCaptureReconciliation :=
  | NoCapture
  | Retained (s : CaptureStreamInfo)
  | Retired (o : CaptureStopOutcome)
  | Retiring (s : CaptureStreamInfo).

Record GrantStateReconciliation := {
  gr_grant : GrantInfo; gr_evidence : GrantStateEvidence;
  gr_capture : GrantCaptureReconciliation }.

Inductive CaptureError :=
  | Client (e : CastKmsError)
  | QueryCapabilities (errno : Z) | Start (errno : Z) | Stop (errno : Z)
  | RegisterBuffer (errno : Z) | UnregisterBuffer (errno : Z) | QueueBuffer (errno : Z)
  | CaptureQueryCrtc (errno : Z) | CreateDumbBuffer (errno : Z) | AddFramebuffer (errno : Z)
  | ExportDmaBuf (errno : Z) | DuplicateDmaBuf (errno : Z) | ExportImplicitFence (errno : Z)
  | ExportReadySyncobj (errno : Z) | ExportReuseSyncobj (errno : Z)
  | CreateReadySyncobj (errno : Z) | CreateReuseSyncobj (errno : Z)
  | DestroyReadySyncobj (errno : Z) | DestroyReuseSyncobj (errno : Z)
  | CreateExplicitEventFd (errno : Z) | ArmExplicitFence (errno : Z)
  | SignalReusePoint (errno : Z) | RemoveFramebuffer (errno : Z) | DestroyDumbBuffer (errno : Z)
  | GrantNotActive (s : GrantState)
  | InvalidCapabilities (what : string) | InvalidCrtcMode (what : string)
  | InvalidBufferAllocation (what : string) | InvalidKernelResult (what : string)
  | TooManyFormats (actual maximum : Z)
  | CapabilitiesChanged | ActiveStreamExists | RetiredStreamExists | NoActiveStream
  | StaleStream | ExplicitSyncUnsupported | ImplicitSyncUnsupported
  | BufferLimit (n : Z) | ZeroKernelIdentifier (what : string) | DuplicateBufferId (n : Z)
  | UnknownBuffer (n : Z) | ExternalBuffer (n : Z) | NotImplicitBuffer (n : Z)
  | NotExplicitBuffer (n : Z)
  | InvalidBufferState (buffer_id : Z) (expected actual : CaptureBufferState)
  | CaptureQueueFull | DuplicateUserData (n : Z)
  | ReadyUserDataMismatch (expected actual : Z)
  | ReadyPointMismatch (expected actual : option Z)
  | ReadyPointOverflow | ReusePointOverflow
  | UnknownRetiredStream (n : Z) | RetiredStreamBusy | CancelledQueueMismatch
  | ForeignGrantStateEvent (expected actual : Z)
  | TerminalGrantStateEvent
  | InvalidGrantStateEventStatus (s : GrantState) (expected actual : Z)
  | InvalidCaptureInvalidation (errno : Z).

Inductive CaptureProtocolError :=
  | FrameUnknownStream (n : Z)
  | FrameUnknownBuffer (stream_id buffer_id : Z)
  | UnexpectedBufferState (buffer_id : Z) (actual : CaptureBufferState)
  | UserDataMismatch (expected actual : Z)
  | GenerationMismatch (expected actual : Z)
  | ZeroModeGeneration
  | InvalidModeChangeStatus (actual : Z)
  | UnchangedModeGeneration (n : Z).

(** ** The tracker *)

Record OwnedSyncobjPair := { sp_ready_handle : Z; sp_reuse_handle : Z }.

Inductive TrackedSynchronization :=
  | TImplicit
  | TExplicit (pair : OwnedSyncobjPair).

Definition sync_public (s : TrackedSynchronization) : CaptureSynchronization :=
  match s with TImplicit => Implicit | TExplicit _ => Explicit end.

Record OwnedFramebuffer := { of_gem_handle : Z; of_layout : CaptureBufferLayout; of_dma_buf : Z }.

Inductive TrackedBufferState :=
  | TIdle
  | TQueued (q : CaptureQueue)
  | TCompleted (c : CaptureCompletion)
  | TConsumerOwned (c : CaptureCompletion).

Definition state_public (s : TrackedBufferState) : CaptureBufferState :=
  match s with
  | TIdle => Idle | TQueued _ => Queued | TCompleted _ => Completed
  | TConsumerOwned _ => ConsumerOwned
  end.

Record TrackedBuffer := {
  tb_id : Z; tb_framebuffer_id : Z; tb_synchronization : TrackedSynchronization;
  tb_next_ready_point : Z; tb_last_release_point : Z; tb_state : TrackedBufferState;
  tb_owned_framebuffer : option OwnedFramebuffer }.

Record TrackedStream := {
  ts_info : CaptureStreamInfo; ts_capabilities : CaptureCapabilities; ts_stale : bool;
  ts_buffers : list TrackedBuffer }.

Record CaptureTracker := { active : option TrackedStream; retired : option TrackedStream }.

Definition CaptureTracker_default : CaptureTracker := {| active := None; retired := None |}.

Record QueuePoints := { qp_ready : option Z; qp_reuse : option Z; qp_next_ready : option Z }.

(** *** Field updates *)

Definition with_state (b : TrackedBuffer) (s : TrackedBufferState) : TrackedBuffer :=
  {| tb_id := tb_id b; tb_framebuffer_id := tb_framebuffer_id b;
     tb_synchronization := tb_synchronization b; tb_next_ready_point := tb_next_ready_point b;
     tb_last_release_point := tb_last_release_point b; tb_state := s;
     tb_owned_framebuffer := tb_owned_framebuffer b |}.
Definition with_next_ready (b : TrackedBuffer) (p : Z) : TrackedBuffer :=
  {| tb_id := tb_id b; tb_framebuffer_id := tb_framebuffer_id b;
     tb_synchronization := tb_synchronization b; tb_next_ready_point := p;
     tb_last_release_point := tb_last_release_point b; tb_state := tb_state b;
     tb_owned_framebuffer := tb_owned_framebuffer b |}.
Definition with_last_release (b : TrackedBuffer) (p : Z) : TrackedBuffer :=
  {| tb_id := tb_id b; tb_framebuffer_id := tb_framebuffer_id b;
     tb_synchronization := tb_synchronization b; tb_next_ready_point := tb_next_ready_point b;
     tb_last_release_point := p; tb_state := tb_state b;
     tb_owned_framebuffer := tb_owned_framebuffer b |}.
Definition with_owned (b : TrackedBuffer) (o : OwnedFramebuffer) : TrackedBuffer :=
  {| tb_id := tb_id b; tb_framebuffer_id := tb_framebuffer_id b;
     tb_synchronization := tb_synchronization b; tb_next_ready_point := tb_next_ready_point b;
     tb_last_release_point := tb_last_release_point b; tb_state := tb_state b;
     tb_owned_framebuffer := Some o |}.
Definition with_buffers (s : TrackedStream) (l : list TrackedBuffer) : TrackedStream :=
  {| ts_info := ts_info s; ts_capabilities := ts_capabilities s; ts_stale := ts_stale s;
     ts_buffers := l |}.
Definition with_stale (s : TrackedStream) : TrackedStream :=
  {| ts_info := ts_info s; ts_capabilities := ts_capabilities s; ts_stale := true;
     ts_buffers := ts_buffers s |}.

(** *** Streams and buffers *)

Definition named (id : Z) (s : TrackedStream) : bool := si_stream_id (ts_info s) =? id.

Definition keep {A} (p : A -> bool) (o : option A) : option A :=
  match o with Some a => if p a then Some a else None | None => None end.

Definition stream (t : CaptureTracker) (stream_id : Z) : option TrackedStream :=
  match keep (named stream_id) (active t) with
  | Some s => Some s
  | None => keep (named stream_id) (retired t)
  end.

(** [stream_mut]: replace the stream [stream] finds. *)
Definition set_stream (t : CaptureTracker) (stream_id : Z) (s : TrackedStream) : CaptureTracker :=
  match keep (named stream_id) (active t) with
  | Some _ => {| active := Some s; retired := retired t |}
  | None => {| active := active t; retired := Some s |}
  end.

Definition buffer (s : TrackedStream) (id : Z) : option TrackedBuffer :=
  List.find (fun b => tb_id b =? id) (ts_buffers s).

Fixpoint position (id : Z) (l : list TrackedBuffer) : option nat :=
  match l with
  | [] => None
  | b :: rest => if tb_id b =? id then Some O else S <$> position id rest
  end.
Definition buffer_index (s : TrackedStream) (id : Z) : option nat := position id (ts_buffers s).

(** An assignment through [buffer_mut]: the first buffer with this identifier. *)
Fixpoint update_first (id : Z) (f : TrackedBuffer -> TrackedBuffer) (l : list TrackedBuffer)
    : list TrackedBuffer :=
  match l with
  | [] => []
  | b :: rest => if tb_id b =? id then f b :: rest else b :: update_first id f rest
  end.
Definition buffer_mut (s : TrackedStream) (id : Z) (f : TrackedBuffer -> TrackedBuffer)
    : TrackedStream :=
  with_buffers s (update_first id f (ts_buffers s)).

Definition buffer_info (b : TrackedBuffer) (stream_id : Z) : CaptureBufferInfo :=
  {| bi_stream_id := stream_id; bi_buffer_id := tb_id b;
     bi_framebuffer_id := tb_framebuffer_id b;
     bi_synchronization := sync_public (tb_synchronization b);
     bi_layout := of_layout <$> tb_owned_framebuffer b; bi_state := state_public (tb_state b) |}.

Definition buffer_infos (s : TrackedStream) : list CaptureBufferInfo :=
  (fun b => buffer_info b (si_stream_id (ts_info s))) <$> ts_buffers s.

Definition is_queued (b : TrackedBuffer) : bool :=
  match tb_state b with TQueued _ => true | _ => false end.
Definition is_busy (b : TrackedBuffer) : bool :=
  negb (bool_decide (state_public (tb_state b) = Idle)).

Definition has_capture_queue_capacity (s : TrackedStream) : bool :=
  bool_decide (length (List.filter is_queued (ts_buffers s)) < MAX_OUTSTANDING_CAPTURE_REQUESTS)%nat.

(** The queue a buffer in flight carries. *)
Definition in_flight (b : TrackedBuffer) : option CaptureQueue :=
  match tb_state b with
  | TIdle => None
  | TQueued q => Some q
  | TCompleted c | TConsumerOwned c => Some (cm_queue c)
  end.
Definition uses_user_data (user_data : Z) (b : TrackedBuffer) : bool :=
  match in_flight b with Some q => q_user_data q =? user_data | None => false end.

Definition require_buffer_state (b : TrackedBuffer) (expected : CaptureBufferState)
    : outcome CaptureError unit :=
  let actual := state_public (tb_state b) in
  if bool_decide (actual = expected) then Ok tt
  else Err (InvalidBufferState (tb_id b) expected actual).

Definition queue_points (b : TrackedBuffer) : outcome CaptureError QueuePoints :=
  match tb_synchronization b with
  | TImplicit => Ok {| qp_ready := None; qp_reuse := None; qp_next_ready := None |}
  | TExplicit _ =>
      let? ready_point := ok_or (nonzero (tb_next_ready_point b)) ReadyPointOverflow in
      let? next_ready_point := ok_or (checked_add64 (tb_next_ready_point b) 1) ReadyPointOverflow in
      Ok {| qp_ready := Some ready_point; qp_reuse := nonzero (tb_last_release_point b);
            qp_next_ready := Some next_ready_point |}
  end.

Definition next_reuse_point (b : TrackedBuffer) : outcome CaptureError (option Z) :=
  match tb_synchronization b with
  | TImplicit => Ok None
  | TExplicit _ =>
      let? p := ok_or (match checked_add64 (tb_last_release_point b) 1 with
                       | Some p => nonzero p | None => None end) ReusePointOverflow in
      Ok (Some p)
  end.

(** [retire_active]: the tracker left, and how many buffers still wait.  The
    [expect] and the debug assertions can panic. *)
Definition retire_active (t : CaptureTracker) : outcome CaptureError (CaptureTracker * nat) :=
  match active t with
  | None => Panic
  | Some s =>
      match retired t with
      | Some _ => Panic
      | None =>
          Ok ({| active := None; retired := if bool_decide (ts_buffers s = []) then None else Some s |},
              length (List.filter is_busy (ts_buffers s)))
      end
  end.

Definition mark_active_stale (t : CaptureTracker) (stream_id : Z) : CaptureTracker :=
  match keep (named stream_id) (active t) with
  | Some s => {| active := Some (with_stale s); retired := retired t |}
  | None => t
  end.

(** [CaptureTracker::record_frame]. *)
Definition frame_changes_mode (event : CaptureFrameEvent) : bool :=
  negb (Z.land (fe_flags event) CAPTURE_FRAME_MODE_CHANGED =? 0).

Definition check_frame_generation (event : CaptureFrameEvent) (stream_generation : Z)
    : outcome CaptureProtocolError unit :=
  try? reject (fe_mode_generation event =? 0) ZeroModeGeneration;
  try? (if frame_changes_mode event then
          try? reject (negb (fe_status event =? - ESTALE))
                 (InvalidModeChangeStatus (fe_status event));
          reject (fe_mode_generation event =? stream_generation)
                 (UnchangedModeGeneration (fe_mode_generation event))
        else Ok tt);
  reject ((fe_status event =? 0) && negb (frame_changes_mode event)
          && negb (fe_mode_generation event =? stream_generation))
         (GenerationMismatch stream_generation (fe_mode_generation event)).

Definition record_frame (t : CaptureTracker) (event : CaptureFrameEvent)
    : CaptureTracker * outcome CaptureProtocolError unit :=
  let recorded :=
    let? stream_id := ok_or (nonzero (fe_stream_id event)) (FrameUnknownStream (fe_stream_id event)) in
    let? buffer_id := ok_or (nonzero (fe_buffer_id event))
                        (FrameUnknownBuffer (fe_stream_id event) (fe_buffer_id event)) in
    let? s := ok_or (stream t stream_id) (FrameUnknownStream (fe_stream_id event)) in
    try? check_frame_generation event (si_mode_generation (ts_info s));
    let? b := ok_or (buffer s buffer_id)
                (FrameUnknownBuffer (fe_stream_id event) (fe_buffer_id event)) in
    let? queue := match tb_state b with
                  | TQueued q => Ok q
                  | state => Err (UnexpectedBufferState (fe_buffer_id event) (state_public state))
                  end in
    try? reject (negb (fe_user_data event =? q_user_data queue))
           (UserDataMismatch (q_user_data queue) (fe_user_data event));
    let s := buffer_mut s buffer_id
               (fun b => with_state b (TCompleted {| cm_queue := queue; cm_frame := event |})) in
    let s := if frame_changes_mode event then with_stale s else s in
    Ok (set_stream t stream_id s) in
  match recorded with
  | Ok t' => (t', Ok tt)
  | Err e => (t, Err e)
  | Panic => (t, Panic)
  end.

(** [AsyncCastKmsClient::record_capture_events] (castkms_event.rs): the frames
    of a batch, in order; the first refusal ends the batch. *)
Fixpoint record_capture_events (t : CaptureTracker) (events : list CastKmsEvent)
    : CaptureTracker * outcome (EventReadError CaptureProtocolError) unit :=
  match events with
  | [] => (t, Ok tt)
  | CaptureFrame frame :: rest =>
      match record_frame t frame with
      | (t', Ok _) => record_capture_events t' rest
      | (t', Err e) => (t', Err (CaptureProtocol e))
      | (t', Panic) => (t', Panic)
      end
  | _ :: rest => record_capture_events t rest
  end.

(** ** Grant-state evidence *)

Definition validate_grant_state_evidence (expected_grant_id : Z) (evidence : GrantStateEvidence)
    : outcome CaptureError unit :=
  match evidence with
  | EvQuery => Ok tt
  | EvEvent event =>
      try? reject (negb (gse_grant_id event =? expected_grant_id))
             (ForeignGrantStateEvent expected_grant_id (gse_grant_id event));
      let? expected :=
        match gse_state event with
        | Pending => Ok (- ENOLINK)
        | Active => Ok 0
        | SuspendedNoMaster | SuspendedOtherMaster => Ok (- EAGAIN)
        | SuspendedForeignContent => Ok (- ESTALE)
        | Revoked => Err TerminalGrantStateEvent
        end in
      reject (negb (gse_status event =? expected))
             (InvalidGrantStateEventStatus (gse_state event) expected (gse_status event))
  | EvCaptureInvalidated errno =>
      if (errno =? ENOENT) || (errno =? EAGAIN) || (errno =? ESTALE) || (errno =? ENOLINK)
         || (errno =? ENOTCONN) then Ok tt
      else Err (InvalidCaptureInvalidation errno)
  end.

Definition capture_restart_required (state : GrantState) (evidence : GrantStateEvidence) : bool :=
  negb (bool_decide (state = Active))
  || match evidence with
     | EvEvent event =>
         match gse_state event with
         | Pending | SuspendedNoMaster | SuspendedOtherMaster | SuspendedForeignContent
         | Revoked => true
         | Active => false
         end
     | EvCaptureInvalidated _ => true
     | EvQuery => false
     end.
