(* ===== verification/CaptureClient.v ===== *)
(** * The capture operations of the client (crates/pronk-core/src/castkms_capture.rs)

    Every operation of [CastKmsClient] on capture, in a state monad over the
    tracker and the log of system calls.  The kernel answers a call as any
    function of the log. *)

From S2P Require Import Prelude Bytes Text CastkmsSys Grant Castkms CastkmsEvent CastkmsCapture.

(** ** System calls *)

Inductive reply (A : Type) := Done (a : A) | Failed (errno : Z).
Arguments Done {A} _.
Arguments Failed {A} _.

Record DrmCastkmsCaptureQueueBuffer := {
  qb_stream_id : Z; qb_buffer_id : Z; qb_flags : Z; qb_user_data : Z; qb_mode_generation : Z;
  qb_ready_point : Z; qb_reuse_point : Z }.
Record DrmPrimeHandle := { ph_handle : Z; ph_flags : Z; ph_fd : Z }.
Record DmaBufExportSyncFile := { es_flags : Z; es_fd : Z }.
Record DrmSyncobjCreate := { sc_handle : Z; sc_flags : Z }.
Record DrmSyncobjHandle := {
  sh_handle : Z; sh_flags : Z; sh_fd : Z; sh_pad : Z; sh_point : Z }.
Record DrmSyncobjEventfd := {
  sv_handle : Z; sv_flags : Z; sv_point : Z; sv_fd : Z; sv_pad : Z }.
(** The arrays the signal ioctl points at, with the immutable fields. *)
Record DrmSyncobjTimelineArray := {
  tl_handles : list Z; tl_points : list Z; tl_pointers_kept : bool; tl_count_handles : Z;
  tl_flags : Z }.

Definition DRM_CLOEXEC : Z := 0x80000.
Definition DRM_RDWR : Z := 0x2.
Definition DRM_SYNCOBJ_HANDLE_TO_FD_FLAGS_NONE : Z := 0.
Definition DMA_BUF_EXPORT_SYNC_WRITE : Z := 2.

(** The calls that act on the kernel, with its answers. *)
Inductive ioctl :=
  | IoStart (args : DrmCastkmsCaptureStart) (r : reply DrmCastkmsCaptureStart)
  | IoStop (stream_id : Z) (r : reply unit)
  | IoRegister (args : DrmCastkmsCaptureRegisterBuffer) (r : reply DrmCastkmsCaptureRegisterBuffer)
  | IoUnregister (stream_id buffer_id : Z) (r : reply unit)
  | IoQueue (args : DrmCastkmsCaptureQueueBuffer) (r : reply unit)
  | IoCreateDumb (args : DrmModeCreateDumb) (r : reply DrmModeCreateDumb)
  | IoDestroyDumb (handle : Z) (r : reply unit)
  | IoAddFb2 (args : DrmModeFbCmd2) (r : reply DrmModeFbCmd2)
  | IoRmFb (fb_id : Z) (r : reply unit)
  | IoPrimeHandleToFd (args : DrmPrimeHandle) (r : reply DrmPrimeHandle)
  | IoExportSyncFile (fd : Z) (args : DmaBufExportSyncFile) (r : reply DmaBufExportSyncFile)
  | IoSyncobjCreate (r : reply DrmSyncobjCreate)
  | IoSyncobjDestroy (handle : Z) (r : reply unit)
  | IoSyncobjHandleToFd (args : DrmSyncobjHandle) (r : reply DrmSyncobjHandle)
  | IoSyncobjEventfd (args : DrmSyncobjEventfd) (r : reply DrmSyncobjEventfd)
  | IoSyncobjTimelineSignal (args : DrmSyncobjTimelineArray) (r : reply DrmSyncobjTimelineArray)
  | IoEventFd (r : reply Z)
  | IoDup (fd : Z) (r : reply Z)
  | CloseFd (fd : Z).

Class CaptureKernel := {
  k_get_grant : list ioctl -> reply DrmCastkmsGetGrant;
  k_query_caps : list ioctl -> Z -> list DrmCastkmsCaptureFormat ->
    reply (DrmCastkmsCaptureQueryCaps * list DrmCastkmsCaptureFormat);
  k_getcrtc : list ioctl -> Z -> reply DrmModeCrtc;
  k_start : list ioctl -> DrmCastkmsCaptureStart -> reply DrmCastkmsCaptureStart;
  k_stop : list ioctl -> Z -> reply unit;
  k_register : list ioctl -> DrmCastkmsCaptureRegisterBuffer -> reply DrmCastkmsCaptureRegisterBuffer;
  k_unregister : list ioctl -> Z -> Z -> reply unit;
  k_queue : list ioctl -> DrmCastkmsCaptureQueueBuffer -> reply unit;
  k_create_dumb : list ioctl -> DrmModeCreateDumb -> reply DrmModeCreateDumb;
  k_destroy_dumb : list ioctl -> Z -> reply unit;
  k_addfb2 : list ioctl -> DrmModeFbCmd2 -> reply DrmModeFbCmd2;
  k_rmfb : list ioctl -> Z -> reply unit;
  k_prime : list ioctl -> DrmPrimeHandle -> reply DrmPrimeHandle;
  k_export_sync_file : list ioctl -> Z -> DmaBufExportSyncFile -> reply DmaBufExportSyncFile;
  k_syncobj_create : list ioctl -> reply DrmSyncobjCreate;
  k_syncobj_destroy : list ioctl -> Z -> reply unit;
  k_syncobj_to_fd : list ioctl -> DrmSyncobjHandle -> reply DrmSyncobjHandle;
  k_syncobj_eventfd : list ioctl -> DrmSyncobjEventfd -> reply DrmSyncobjEventfd;
  k_signal : list ioctl -> DrmSyncobjTimelineArray -> reply DrmSyncobjTimelineArray;
  k_eventfd : list ioctl -> reply Z;
  k_dup : list ioctl -> Z -> reply Z }.

(** ** The monad *)

Record capture_state := { cs_tracker : CaptureTracker; cs_log : list ioctl }.

Definition M (A : Type) : Type := capture_state -> capture_state * outcome CaptureError A.

Definition mret {A} (a : A) : M A := fun s => (s, Ok a).
Definition mbind {A B} (m : M A) (k : A -> M B) : M B :=
  fun s => match m s with
           | (s', Ok a) => k a s'
           | (s', Err e) => (s', Err e)
           | (s', Panic) => (s', Panic)
           end.
Definition lift {A} (o : outcome CaptureError A) : M A := fun s => (s, o).
Definition raise {A} (e : CaptureError) : M A := fun s => (s, Err e).
Definition tracker : M CaptureTracker := fun s => (s, Ok (cs_tracker s)).
Definition set_tracker (t : CaptureTracker) : M unit :=
  fun s => ({| cs_tracker := t; cs_log := cs_log s |}, Ok tt).

(** Issue a call: the kernel answers from the log, which then records it. *)
Definition issue {A} (answer : list ioctl -> reply A) (entry : reply A -> ioctl) : M (reply A) :=
  fun s => let r := answer (cs_log s) in
           ({| cs_tracker := cs_tracker s; cs_log := cs_log s ++ [entry r] |}, Ok r).
(** A query that does not act on the kernel. *)
Definition ask {A} (answer : list ioctl -> reply A) : M (reply A) :=
  fun s => (s, Ok (answer (cs_log s))).
Definition close (fd : Z) : M unit :=
  fun s => ({| cs_tracker := cs_tracker s; cs_log := cs_log s ++ [CloseFd fd] |}, Ok tt).

(** [.map_err(f)?] on a reply. *)
Definition check {A} (f : Z -> CaptureError) (r : reply A) : M A :=
  match r with Done a => mret a | Failed errno => raise (f errno) end.
(** The result of a computation as a value, for [if let Err(e) = ...]. *)
Definition attempt {A} (m : M A) : M (A + CaptureError) :=
  fun s => match m s with
           | (s', Ok a) => (s', Ok (inl a))
           | (s', Err e) => (s', Ok (inr e))
           | (s', Panic) => (s', Panic)
           end.

Declare Scope capture_scope.
Notation "'let!' x := m 'in' k" := (mbind m (fun x => k))
  (at level 10, x name, m at level 200, k at level 200,
   format "'[v' 'let!'  x  :=  m  'in' '/' k ']'") : capture_scope.
Notation "'let!' ' p := m 'in' k" := (mbind m (fun x => match x with p => k end))
  (at level 10, p pattern, m at level 200, k at level 200) : capture_scope.
Notation "'do!' m ; k" := (mbind m (fun _ => k))
  (at level 10, m at level 200, k at level 200,
   format "'[v' 'do!'  m ; '/' k ']'") : capture_scope.
Global Open Scope capture_scope.

Section Client.
Context `{K : CaptureKernel} (lease : GrantLease).

Definition get_or_insert (o : option CaptureError) (e : option CaptureError) : option CaptureError :=
  match o with Some _ => o | None => e end.
Definition fail_with (o : option CaptureError) : M unit :=
  match o with Some e => raise e | None => mret tt end.

(** ** Best-effort and checked release of kernel resources *)

Definition destroy_syncobj (handle : Z) : M (reply unit) :=
  issue (fun log => k_syncobj_destroy log handle) (IoSyncobjDestroy handle).

Definition destroy_syncobj_best_effort (handle : Z) : M unit :=
  do! destroy_syncobj handle; mret tt.

Definition destroy_syncobj_pair (p : OwnedSyncobjPair) : M (option CaptureError) :=
  let! r1 := destroy_syncobj (sp_ready_handle p) in
  let cleanup_error := match r1 with Failed e => Some (DestroyReadySyncobj e) | Done _ => None end in
  let! r2 := destroy_syncobj (sp_reuse_handle p) in
  mret (get_or_insert cleanup_error
          (match r2 with Failed e => Some (DestroyReuseSyncobj e) | Done _ => None end)).

Definition destroy_syncobj_pair_best_effort (sync : TrackedSynchronization) : M unit :=
  match sync with
  | TExplicit p => do! destroy_syncobj_pair p; mret tt
  | TImplicit => mret tt
  end.

Definition remove_framebuffer_best_effort (framebuffer_id : Z) : M unit :=
  if framebuffer_id =? 0 then mret tt
  else do! issue (fun log => k_rmfb log framebuffer_id) (IoRmFb framebuffer_id); mret tt.

Definition destroy_dumb_best_effort (gem_handle : Z) : M unit :=
  if gem_handle =? 0 then mret tt
  else do! issue (fun log => k_destroy_dumb log gem_handle) (IoDestroyDumb gem_handle); mret tt.

Definition stop_stream_best_effort (stream_id : Z) : M unit :=
  if stream_id =? 0 then mret tt
  else do! issue (fun log => k_stop log stream_id) (IoStop stream_id); mret tt.

(** [cleanup_owned_framebuffer]: the descriptor, then the framebuffer and the
    GEM handle; the first error is reported. *)
Definition cleanup_owned_framebuffer (framebuffer_id : Z) (owned : OwnedFramebuffer)
    : M (option CaptureError) :=
  do! close (of_dma_buf owned);
  let! r1 := issue (fun log => k_rmfb log framebuffer_id) (IoRmFb framebuffer_id) in
  let cleanup_error := match r1 with Failed e => Some (RemoveFramebuffer e) | Done _ => None end in
  let! r2 := issue (fun log => k_destroy_dumb log (of_gem_handle owned))
               (IoDestroyDumb (of_gem_handle owned)) in
  mret (get_or_insert cleanup_error
          (match r2 with Failed e => Some (DestroyDumbBuffer e) | Done _ => None end)).

Definition cleanup_tracked_buffer_resources (b : TrackedBuffer) : M (option CaptureError) :=
  let! cleanup_error := match tb_synchronization b with
                        | TImplicit => mret None
                        | TExplicit p => destroy_syncobj_pair p
                        end in
  match tb_owned_framebuffer b with
  | Some owned =>
      let! e := cleanup_owned_framebuffer (tb_framebuffer_id b) owned in
      mret (get_or_insert cleanup_error e)
  | None => mret cleanup_error
  end.

(** [owned_fd_from_kernel]: a descriptor that fails validation is closed. *)
Definition owned_fd_from_kernel (raw_fd : Z) (immutable_fields_valid : bool) (operation : string)
    : M Z :=
  if raw_fd <? 0 then raise (InvalidKernelResult operation)
  else if negb immutable_fields_valid then
    do! close raw_fd; raise (InvalidKernelResult operation)
  else mret raw_fd.

(** ** Syncobjs *)

Definition create_syncobj (map_error : Z -> CaptureError) : M Z :=
  let! r := issue k_syncobj_create IoSyncobjCreate in
  let! args := check map_error r in
  let! handle := lift (ok_or (nonzero (sc_handle args)) (ZeroKernelIdentifier "syncobj handle")) in
  if negb (sc_flags args =? 0) then
    do! destroy_syncobj_best_effort handle;
    raise (InvalidKernelResult "syncobj creation modified immutable flags")
  else mret handle.

Definition create_syncobj_pair : M OwnedSyncobjPair :=
  let! ready_handle := create_syncobj CreateReadySyncobj in
  let! r := attempt (create_syncobj CreateReuseSyncobj) in
  match r with
  | inr error => do! destroy_syncobj_best_effort ready_handle; raise error
  | inl reuse_handle =>
      if ready_handle =? reuse_handle then
        do! destroy_syncobj_best_effort ready_handle;
        raise (InvalidKernelResult "syncobj creation returned duplicate live handles")
      else mret {| sp_ready_handle := ready_handle; sp_reuse_handle := reuse_handle |}
  end.

Definition signal_syncobj_point (handle point : Z) : M unit :=
  let args := {| tl_handles := [handle]; tl_points := [point]; tl_pointers_kept := true;
                 tl_count_handles := 1; tl_flags := 0 |} in
  let! r := issue (fun log => k_signal log args) (IoSyncobjTimelineSignal args) in
  let! out := check SignalReusePoint r in
  if negb (tl_pointers_kept out) || negb (tl_count_handles out =? 1) || negb (tl_flags out =? 0)
     || negb (bool_decide (tl_handles out = [handle])) || negb (bool_decide (tl_points out = [point]))
  then raise (InvalidKernelResult "syncobj timeline signal modified immutable fields")
  else mret tt.

Definition export_syncobj_fd (handle : Z) (map_error : Z -> CaptureError) : M Z :=
  let args := {| sh_handle := handle; sh_flags := DRM_SYNCOBJ_HANDLE_TO_FD_FLAGS_NONE;
                 sh_fd := -1; sh_pad := 0; sh_point := 0 |} in
  let! r := issue (fun log => k_syncobj_to_fd log args) (IoSyncobjHandleToFd args) in
  let! out := check map_error r in
  owned_fd_from_kernel (sh_fd out)
    ((sh_handle out =? handle) && (sh_flags out =? DRM_SYNCOBJ_HANDLE_TO_FD_FLAGS_NONE)
     && (sh_pad out =? 0) && (sh_point out =? 0)) "syncobj fd export".

(** ** Queries *)

Definition reply_outcome {A} (r : reply A) : outcome Z A :=
  match r with Done a => Ok a | Failed e => Err e end.

Definition capture_query_grant : M GrantInfo :=
  let! r := ask k_get_grant in
  let W := {| fcntl_getfd := fun _ => Err 0; fcntl_getfl := fun _ => Err 0;
              drm_ioctl_castkms_get_grant := fun _ => reply_outcome r |} in
  lift (omap_err Client (query_grant (H := W) lease)).

Definition require_capture_rights (required : Z) : M unit :=
  lift (omap_err Client (require_rights lease required)).

Definition query_crtc_mode (crtc_id : Z) : M (Z * Z * Z) :=
  let! r := ask (fun log => k_getcrtc log crtc_id) in
  let! crtc := check CaptureQueryCrtc r in
  lift (try? reject (negb (cr_crtc_id crtc =? crtc_id))
               (InvalidKernelResult "CRTC query changed the CRTC ID");
        try? reject (negb (cr_mode_valid crtc =? 1)) (InvalidCrtcMode "CRTC has no active mode");
        let? width := ok_or (nonzero (mi_hdisplay (cr_mode crtc)))
                        (InvalidCrtcMode "zero horizontal display") in
        let? height := ok_or (nonzero (mi_vdisplay (cr_mode crtc)))
                         (InvalidCrtcMode "zero vertical display") in
        let? refresh_hz := ok_or (nonzero (mi_vrefresh (cr_mode crtc)))
                             (InvalidCrtcMode "zero refresh rate") in
        Ok (width, height, refresh_hz)).

Definition validate_capability_header (crtc_id : Z) (q : DrmCastkmsCaptureQueryCaps)
    : outcome CaptureError unit :=
  try? reject (negb (qp_uapi_major q =? CAPTURE_UAPI_MAJOR)
               || (qp_uapi_minor q <? CAPTURE_UAPI_MINOR)
               || negb (qp_uapi_major q =? lease_capture_uapi_major lease)
               || (qp_uapi_minor q <? lease_capture_uapi_minor lease))
         (InvalidCapabilities "UAPI version");
  try? reject (negb (qp_crtc_id q =? crtc_id)) (InvalidCapabilities "CRTC ID");
  try? reject (negb (qp_reserved q =? 0)) (InvalidCapabilities "reserved field");
  try? reject (Z.land (qp_flags q) CAPTURE_CAP_GRANT_FD =? 0)
         (InvalidCapabilities "grant-fd capability");
  try? reject (Z.land (qp_flags q) CAPTURE_CAP_GRANT_CONTROL_FD =? 0)
         (InvalidCapabilities "grant-control-fd capability");
  try? reject (Z.land (qp_flags q) (Z.lor CAPTURE_CAP_SYNCOBJ_TIMELINE CAPTURE_CAP_IMPLICIT_SYNC)
               =? 0) (InvalidCapabilities "synchronization modes");
  reject (qp_max_registered_buffers q =? 0) (InvalidCapabilities "zero buffer limit").

Fixpoint check_formats (raw : list DrmCastkmsCaptureFormat)
    : outcome CaptureError (list CaptureFormat) :=
  match raw with
  | [] => Ok []
  | f :: rest =>
      try? reject ((cf_format f =? 0) || negb (cf_flags f =? 0)) (InvalidCapabilities "format entry");
      let? formats := check_formats rest in
      Ok ({| fm_format := cf_format f; fm_modifier := cf_modifier f |} :: formats)
  end.

Definition query_capture_capabilities (crtc_id : Z) : M CaptureCapabilities :=
  do! require_capture_rights GRANT_CAPTURE_PIXELS;
  let! r1 := ask (fun log => k_query_caps log crtc_id []) in
  let! '(count_query, _) := check QueryCapabilities r1 in
  do! lift (validate_capability_header crtc_id count_query);
  do! lift (reject (qp_format_count count_query =? 0) (InvalidCapabilities "empty format list"));
  do! lift (reject (MAX_CAPTURE_FORMATS <? qp_format_count count_query)
              (TooManyFormats (qp_format_count count_query) MAX_CAPTURE_FORMATS));
  let raw := replicate (Z.to_nat (qp_format_count count_query))
               {| cf_format := 0; cf_flags := 0; cf_modifier := 0 |} in
  let! r2 := ask (fun log => k_query_caps log crtc_id raw) in
  let! '(fill_query, raw) := check QueryCapabilities r2 in
  do! lift (validate_capability_header crtc_id fill_query);
  do! lift (reject (negb (qp_uapi_major fill_query =? qp_uapi_major count_query)
                    || negb (qp_uapi_minor fill_query =? qp_uapi_minor count_query)
                    || negb (qp_flags fill_query =? qp_flags count_query)
                    || negb (qp_max_registered_buffers fill_query
                             =? qp_max_registered_buffers count_query)
                    || (qp_format_count count_query <? qp_format_count fill_query))
              CapabilitiesChanged);
  let raw := take (Z.to_nat (qp_format_count fill_query)) raw in
  do! lift (reject (bool_decide (length raw = 0)%nat) (InvalidCapabilities "empty format list"));
  let! formats := lift (check_formats raw) in
  mret {| ca_uapi_major := wrap 16 (qp_uapi_major count_query);
          ca_uapi_minor := wrap 16 (qp_uapi_minor count_query); ca_crtc_id := crtc_id;
          ca_flags := qp_flags count_query; ca_formats := formats;
          ca_max_registered_buffers := qp_max_registered_buffers count_query |}.

(** ** The stream *)

Definition active_stream : M TrackedStream :=
  let! t := tracker in lift (ok_or (active t) NoActiveStream).

(** The [expect]s on the active stream after a synchronous ioctl. *)
Definition expect_active : M TrackedStream :=
  let! t := tracker in lift (expect (active t)).
Definition put_active (s : TrackedStream) : M unit :=
  let! t := tracker in set_tracker {| active := Some s; retired := retired t |}.

Definition retire : M nat :=
  let! t := tracker in
  let! '(t', waiting) := lift (retire_active t) in
  do! set_tracker t'; mret waiting.

Definition start_capture (capabilities : CaptureCapabilities) (cursor_mode : CursorCaptureMode)
    : M CaptureStreamInfo :=
  let! t := tracker in
  do! lift (reject (bool_decide (is_Some (active t))) ActiveStreamExists);
  do! lift (reject (bool_decide (is_Some (retired t))) RetiredStreamExists);
  do! require_capture_rights GRANT_CAPTURE_PIXELS;
  do! (if bool_decide (cursor_mode = IncludeInFrame)
       then require_capture_rights GRANT_READ_CURSOR else mret tt);
  let! grant := capture_query_grant in
  do! lift (reject (negb (bool_decide (gi_state grant = Active))) (GrantNotActive (gi_state grant)));
  let! '(width, height, refresh_hz) := query_crtc_mode (ca_crtc_id capabilities) in
  let flags := if bool_decide (cursor_mode = ExcludeFromFrame)
               then Z.lor CAPTURE_START_EXCLUSIVE CAPTURE_START_EXCLUDE_CURSOR
               else CAPTURE_START_EXCLUSIVE in
  let args := {| cs_crtc_id := ca_crtc_id capabilities; cs_flags := flags; cs_stream_id := 0;
                 cs_reserved := 0; cs_mode_generation := 0 |} in
  let! r := issue (fun log => k_start log args) (IoStart args) in
  let! out := check Start r in
  if negb (cs_crtc_id out =? ca_crtc_id capabilities) || negb (cs_flags out =? flags)
     || negb (cs_reserved out =? 0) then
    do! stop_stream_best_effort (cs_stream_id out);
    raise (InvalidKernelResult "capture start modified immutable fields")
  else
    let! stream_id := lift (ok_or (nonzero (cs_stream_id out)) (ZeroKernelIdentifier "stream ID")) in
    match nonzero (cs_mode_generation out) with
    | None =>
        do! stop_stream_best_effort stream_id; raise (ZeroKernelIdentifier "mode generation")
    | Some mode_generation =>
        let info := {| si_stream_id := stream_id; si_crtc_id := ca_crtc_id capabilities;
                       si_mode_generation := mode_generation; si_width := width;
                       si_height := height; si_refresh_hz := refresh_hz;
                       si_cursor_mode := cursor_mode |} in
        do! put_active {| ts_info := info; ts_capabilities := capabilities; ts_stale := false;
                          ts_buffers := [] |};
        mret info
    end.

Definition stop_capture : M CaptureStopOutcome :=
  let! s := active_stream in
  let info := ts_info s in
  let! r := issue (fun log => k_stop log (si_stream_id info)) (IoStop (si_stream_id info)) in
  let! gone := match r with
               | Done _ => mret false
               | Failed errno => if errno =? ENOENT then mret true else raise (Stop errno)
               end in
  let! waiting := retire in
  mret {| so_stream := info; so_kernel_stream_was_gone := gone;
          so_waiting_buffer_count := waiting |}.

Definition retire_invalidated_capture : M CaptureStopOutcome :=
  let! s := active_stream in
  let! waiting := retire in
  mret {| so_stream := ts_info s; so_kernel_stream_was_gone := true;
          so_waiting_buffer_count := waiting |}.

Definition active_capture_requires_restart (t : CaptureTracker) : bool :=
  match active t with Some s => ts_stale s | None => false end.

Definition reconcile_grant_state (evidence : GrantStateEvidence) : M GrantStateReconciliation :=
  do! lift (validate_grant_state_evidence (lease_grant_id lease) evidence);
  let! grant := capture_query_grant in
  let restart := capture_restart_required (gi_state grant) evidence in
  let! t := tracker in
  let! capture :=
    match active t with
    | Some s =>
        if restart then
          let! stopped := if is_terminal (gi_state grant) then retire_invalidated_capture
                          else stop_capture in
          mret (Retired stopped)
        else mret (Retained (ts_info s))
    | None =>
        match retired t with
        | Some s => mret (Retiring (ts_info s))
        | None => mret NoCapture
        end
    end in
  mret {| gr_grant := grant; gr_evidence := evidence; gr_capture := capture |}.

(** ** Buffers *)

Definition capture_buffers (t : CaptureTracker) (stream_id : Z) : list CaptureBufferInfo :=
  match stream t stream_id with Some s => buffer_infos s | None => [] end.

(** A registration the kernel answered wrongly: stop, retire, release. *)
Definition abandon_registration {A} (stream_id : Z) (sync : TrackedSynchronization)
    (e : CaptureError) : M A :=
  do! stop_stream_best_effort stream_id;
  do! retire;
  do! destroy_syncobj_pair_best_effort sync;
  raise e.

Definition register_capture_buffer (framebuffer_id : Z) (synchronization : CaptureSynchronization)
    : M CaptureBufferInfo :=
  let! s := active_stream in
  do! lift (reject (ts_stale s) StaleStream);
  let info := ts_info s in
  let max_buffers := max_registered_buffers (ts_capabilities s) in
  do! lift (reject (max_buffers <=? wrap 32 (Z.of_nat (length (ts_buffers s))))
              (BufferLimit max_buffers));
  let! sync :=
    match synchronization with
    | Implicit =>
        do! lift (reject (negb (supports_implicit_sync (ts_capabilities s))) ImplicitSyncUnsupported);
        mret TImplicit
    | Explicit =>
        do! lift (reject (negb (supports_explicit_sync (ts_capabilities s))) ExplicitSyncUnsupported);
        let! p := create_syncobj_pair in
        mret (TExplicit p)
    end in
  let '(flags, ready_handle, reuse_handle) :=
    match sync with
    | TImplicit => (CAPTURE_BUFFER_IMPLICIT_SYNC, 0, 0)
    | TExplicit p => (CAPTURE_BUFFER_EXPLICIT_SYNC, sp_ready_handle p, sp_reuse_handle p)
    end in
  let args := {| rb_stream_id := si_stream_id info; rb_fb_id := framebuffer_id;
                 rb_ready_syncobj_handle := ready_handle; rb_reuse_syncobj_handle := reuse_handle;
                 rb_flags := flags; rb_buffer_id := 0;
                 rb_mode_generation := si_mode_generation info |} in
  let! r := issue (fun log => k_register log args) (IoRegister args) in
  match r with
  | Failed errno =>
      do! (if errno =? ESTALE then
             let! t := tracker in set_tracker (mark_active_stale t (si_stream_id info))
           else mret tt);
      do! destroy_syncobj_pair_best_effort sync;
      raise (RegisterBuffer errno)
  | Done out =>
      match nonzero (rb_buffer_id out) with
      | None => abandon_registration (si_stream_id info) sync (ZeroKernelIdentifier "buffer ID")
      | Some buffer_id =>
          if negb (rb_stream_id out =? si_stream_id info) || negb (rb_fb_id out =? framebuffer_id)
             || negb (rb_ready_syncobj_handle out =? ready_handle)
             || negb (rb_reuse_syncobj_handle out =? reuse_handle)
             || negb (rb_flags out =? flags)
             || negb (rb_mode_generation out =? si_mode_generation info) then
            abandon_registration (si_stream_id info) sync
              (InvalidKernelResult "buffer registration modified immutable fields")
          else
            let! s := expect_active in
            if existsb (fun b => tb_id b =? buffer_id) (ts_buffers s) then
              abandon_registration (si_stream_id info) sync (DuplicateBufferId buffer_id)
            else
              do! put_active (with_buffers s (ts_buffers s ++
                    [{| tb_id := buffer_id; tb_framebuffer_id := framebuffer_id;
                        tb_synchronization := sync; tb_next_ready_point := 1;
                        tb_last_release_point := 0; tb_state := TIdle;
                        tb_owned_framebuffer := None |}]));
              mret {| bi_stream_id := si_stream_id info; bi_buffer_id := buffer_id;
                      bi_framebuffer_id := framebuffer_id;
                      bi_synchronization := synchronization; bi_layout := None;
                      bi_state := Idle |}
      end
  end.

Definition validate_dumb_allocation (info : CaptureStreamInfo) (dumb : DrmModeCreateDumb)
    : outcome CaptureError Z :=
  try? reject (negb (cd_width dumb =? si_width info) || negb (cd_height dumb =? si_height info)
               || negb (cd_bpp dumb =? 32) || negb (cd_flags dumb =? 0))
         (InvalidKernelResult "dumb-buffer creation modified immutable fields");
  let? handle := ok_or (nonzero (cd_handle dumb)) (InvalidBufferAllocation "zero GEM handle") in
  let? pitch := ok_or (nonzero (cd_pitch dumb)) (InvalidBufferAllocation "zero pitch") in
  let? size := ok_or (nonzero (cd_size dumb)) (InvalidBufferAllocation "zero size") in
  let? minimum_pitch := ok_or (checked_mul32 (si_width info) 4)
                          (InvalidBufferAllocation "pitch overflow") in
  try? reject (pitch <? minimum_pitch)
         (InvalidBufferAllocation "pitch is smaller than one XRGB row");
  let? minimum_size := ok_or (checked_mul64 pitch (si_height info))
                         (InvalidBufferAllocation "size overflow") in
  try? reject (size <? minimum_size)
         (InvalidBufferAllocation "size is smaller than pitch times height");
  try? reject (MAX_CAPTURE_BUFFER_BYTES <? size)
         (InvalidBufferAllocation "size exceeds the client allocation bound");
  Ok handle.

Definition validate_framebuffer_result (fb : DrmModeFbCmd2) (layout : CaptureBufferLayout)
    (gem_handle : Z) : outcome CaptureError Z :=
  try? reject (negb (fb_width fb =? la_width layout) || negb (fb_height fb =? la_height layout)
               || negb (fb_pixel_format fb =? la_format layout) || negb (fb_flags fb =? 0)
               || negb (bool_decide (fb_handles fb = [gem_handle; 0; 0; 0]))
               || negb (bool_decide (fb_pitches fb = [la_pitch layout; 0; 0; 0]))
               || negb (bool_decide (fb_offsets fb = [0; 0; 0; 0]))
               || negb (bool_decide (fb_modifier fb = [la_modifier layout; 0; 0; 0])))
         (InvalidKernelResult "framebuffer creation modified immutable fields");
  ok_or (nonzero (fb_fb_id fb)) (InvalidBufferAllocation "zero framebuffer ID").

(** [match r { Ok(v) => v, Err(error) => { unwind; return Err(error) } }]. *)
Definition or_unwind {A} (m : M A) (unwind : M unit) : M A :=
  let! r := attempt m in
  match r with
  | inl a => mret a
  | inr error => do! unwind; raise error
  end.

Definition allocate_linear_xrgb8888_buffer (synchronization : CaptureSynchronization)
    : M CaptureBufferInfo :=
  let! s := active_stream in
  do! lift (reject (ts_stale s) StaleStream);
  let max_buffers := max_registered_buffers (ts_capabilities s) in
  do! lift (reject (max_buffers <=? wrap 32 (Z.of_nat (length (ts_buffers s))))
              (BufferLimit max_buffers));
  do! lift (reject (negb (existsb (fun f => (fm_format f =? DRM_FORMAT_XRGB8888)
                                           && (fm_modifier f =? DRM_FORMAT_MOD_LINEAR))
                          (ca_formats (ts_capabilities s))))
              (InvalidCapabilities "linear XRGB8888 is unavailable"));
  let info := ts_info s in
  let dumb := {| cd_height := si_height info; cd_width := si_width info; cd_bpp := 32;
                 cd_flags := 0; cd_handle := 0; cd_pitch := 0; cd_size := 0 |} in
  let! r := issue (fun log => k_create_dumb log dumb) (IoCreateDumb dumb) in
  let! dumb := check CreateDumbBuffer r in
  let! gem_handle := or_unwind (lift (validate_dumb_allocation info dumb))
                       (destroy_dumb_best_effort (cd_handle dumb)) in
  let! pitch := lift (expect (nonzero (cd_pitch dumb))) in
  let! size := lift (expect (nonzero (cd_size dumb))) in
  let layout := {| la_width := si_width info; la_height := si_height info;
                   la_format := DRM_FORMAT_XRGB8888; la_modifier := DRM_FORMAT_MOD_LINEAR;
                   la_pitch := pitch; la_size := size |} in
  let fb := {| fb_fb_id := 0; fb_width := la_width layout; fb_height := la_height layout;
               fb_pixel_format := la_format layout; fb_flags := 0;
               fb_handles := [gem_handle; 0; 0; 0]; fb_pitches := [la_pitch layout; 0; 0; 0];
               fb_offsets := [0; 0; 0; 0]; fb_modifier := [la_modifier layout; 0; 0; 0] |} in
  let! r := issue (fun log => k_addfb2 log fb) (IoAddFb2 fb) in
  let! fb := or_unwind (check AddFramebuffer r) (destroy_dumb_best_effort gem_handle) in
  let! framebuffer_id :=
    or_unwind (lift (validate_framebuffer_result fb layout gem_handle))
      (do! remove_framebuffer_best_effort (fb_fb_id fb); destroy_dumb_best_effort gem_handle) in
  let unwind := do! remove_framebuffer_best_effort framebuffer_id;
                destroy_dumb_best_effort gem_handle in
  let prime := {| ph_handle := gem_handle; ph_flags := Z.lor DRM_CLOEXEC DRM_RDWR; ph_fd := -1 |} in
  let! r := issue (fun log => k_prime log prime) (IoPrimeHandleToFd prime) in
  let! prime := or_unwind (check ExportDmaBuf r) unwind in
  let! dma_buf :=
    or_unwind (owned_fd_from_kernel (ph_fd prime)
                 ((ph_handle prime =? gem_handle)
                  && (ph_flags prime =? Z.lor DRM_CLOEXEC DRM_RDWR)) "DMA-BUF export") unwind in
  let owned := {| of_gem_handle := gem_handle; of_layout := layout; of_dma_buf := dma_buf |} in
  let! registered := or_unwind (register_capture_buffer framebuffer_id synchronization)
                       (do! cleanup_owned_framebuffer framebuffer_id owned; mret tt) in
  let! s := expect_active in
  let! b := lift (expect (buffer s (bi_buffer_id registered))) in
  do! put_active (buffer_mut s (bi_buffer_id registered) (fun b => with_owned b owned));
  mret (buffer_info (with_owned b owned) (bi_stream_id registered)).

(** The stream and the buffer an operation names. *)
Definition named_buffer (stream_id buffer_id : Z) : M (TrackedStream * TrackedBuffer) :=
  let! t := tracker in
  let! s := lift (ok_or (stream t stream_id) (UnknownRetiredStream stream_id)) in
  let! b := lift (ok_or (buffer s buffer_id) (UnknownBuffer buffer_id)) in
  mret (s, b).

Definition capture_dma_buf (stream_id buffer_id : Z) : M Z :=
  let! '(_, b) := named_buffer stream_id buffer_id in
  let! owned := lift (ok_or (tb_owned_framebuffer b) (ExternalBuffer buffer_id)) in
  mret (of_dma_buf owned).

(** The exported descriptors: the DMA-BUF, and the ready and reuse timelines. *)
Record CaptureBufferExport := {
  ex_stream_id : Z; ex_buffer_id : Z; ex_layout : CaptureBufferLayout; ex_dma_buf : Z;
  ex_synchronization : CaptureSynchronization; ex_timelines : option (Z * Z) }.

Definition export_capture_buffer (stream_id buffer_id : Z) : M CaptureBufferExport :=
  let! '(_, b) := named_buffer stream_id buffer_id in
  let! owned := lift (ok_or (tb_owned_framebuffer b) (ExternalBuffer buffer_id)) in
  let! r := issue (fun log => k_dup log (of_dma_buf owned)) (IoDup (of_dma_buf owned)) in
  let! dma_buf := check DuplicateDmaBuf r in
  let! '(sync, timelines) :=
    match tb_synchronization b with
    | TImplicit => mret (Implicit, None)
    | TExplicit p =>
        let! ready := or_unwind (export_syncobj_fd (sp_ready_handle p) ExportReadySyncobj)
                        (close dma_buf) in
        let! reuse := or_unwind (export_syncobj_fd (sp_reuse_handle p) ExportReuseSyncobj)
                        (do! close ready; close dma_buf) in
        mret (Explicit, Some (ready, reuse))
    end in
  mret {| ex_stream_id := stream_id; ex_buffer_id := buffer_id; ex_layout := of_layout owned;
          ex_dma_buf := dma_buf; ex_synchronization := sync; ex_timelines := timelines |}.

Definition queued_of (b : TrackedBuffer) (buffer_id : Z) : outcome CaptureError CaptureQueue :=
  match tb_state b with
  | TQueued q => Ok q
  | state => Err (InvalidBufferState buffer_id Queued (state_public state))
  end.

Definition export_implicit_capture_fence (stream_id buffer_id : Z) : M ImplicitCaptureFence :=
  let! '(_, b) := named_buffer stream_id buffer_id in
  do! match tb_synchronization b with
      | TImplicit => mret tt
      | TExplicit _ => raise (NotImplicitBuffer buffer_id)
      end;
  let! queue := lift (queued_of b buffer_id) in
  let! owned := lift (ok_or (tb_owned_framebuffer b) (ExternalBuffer buffer_id)) in
  let args := {| es_flags := DMA_BUF_EXPORT_SYNC_WRITE; es_fd := -1 |} in
  let! r := issue (fun log => k_export_sync_file log (of_dma_buf owned) args)
              (IoExportSyncFile (of_dma_buf owned) args) in
  let! out := check ExportImplicitFence r in
  let! fence := owned_fd_from_kernel (es_fd out) (es_flags out =? DMA_BUF_EXPORT_SYNC_WRITE)
                  "implicit fence export" in
  mret {| if_stream_id := stream_id; if_buffer_id := buffer_id; if_user_data := q_user_data queue;
          if_fence := fence |}.

Definition arm_explicit_capture_fence (stream_id buffer_id : Z) : M ExplicitCaptureFence :=
  let! '(_, b) := named_buffer stream_id buffer_id in
  let! p := match tb_synchronization b with
            | TExplicit p => mret p
            | TImplicit => raise (NotExplicitBuffer buffer_id)
            end in
  let! queue := lift (queued_of b buffer_id) in
  let! ready_point := lift (ok_or (q_ready_point queue)
                              (InvalidKernelResult "explicit queue has no ready point")) in
  let! r := issue k_eventfd IoEventFd in
  let! event := check CreateExplicitEventFd r in
  let args := {| sv_handle := sp_ready_handle p; sv_flags := 0; sv_point := ready_point;
                 sv_fd := event; sv_pad := 0 |} in
  let! r := issue (fun log => k_syncobj_eventfd log args) (IoSyncobjEventfd args) in
  let! out := or_unwind (check ArmExplicitFence r) (close event) in
  if negb (sv_handle out =? sp_ready_handle p) || negb (sv_flags out =? 0)
     || negb (sv_point out =? ready_point) || negb (sv_fd out =? event) || negb (sv_pad out =? 0)
  then
    do! close event;
    raise (InvalidKernelResult "syncobj eventfd registration modified immutable fields")
  else
    mret {| ef_stream_id := stream_id; ef_buffer_id := buffer_id;
            ef_user_data := q_user_data queue; ef_ready_point := ready_point; ef_event := event |}.

Definition unregister_capture_buffer (buffer_id : Z) : M CaptureBufferInfo :=
  let! s := active_stream in
  let! i := lift (ok_or (buffer_index s buffer_id) (UnknownBuffer buffer_id)) in
  let! b := lift (index (ts_buffers s) i) in
  do! lift (require_buffer_state b Idle);
  let info := ts_info s in
  let! r := issue (fun log => k_unregister log (si_stream_id info) buffer_id)
              (IoUnregister (si_stream_id info) buffer_id) in
  do! check UnregisterBuffer r;
  let! s := expect_active in
  let! removed := lift (index (ts_buffers s) i) in
  do! put_active (with_buffers s (delete i (ts_buffers s)));
  let! cleanup_error := cleanup_tracked_buffer_resources removed in
  do! fail_with cleanup_error;
  mret (buffer_info b (si_stream_id info)).

Definition queue_capture_buffer (buffer_id user_data : Z) : M CaptureQueue :=
  let! s := active_stream in
  do! lift (reject (ts_stale s) StaleStream);
  do! lift (reject (negb (has_capture_queue_capacity s)) CaptureQueueFull);
  do! lift (reject (existsb (uses_user_data user_data) (ts_buffers s)) (DuplicateUserData user_data));
  let! b := lift (ok_or (buffer s buffer_id) (UnknownBuffer buffer_id)) in
  do! lift (require_buffer_state b Idle);
  let! points := lift (queue_points b) in
  let info := ts_info s in
  let flags := match sync_public (tb_synchronization b) with
               | Implicit => CAPTURE_QUEUE_IMPLICIT_SYNC
               | Explicit => CAPTURE_QUEUE_EXPLICIT_SYNC
               end in
  let queue := {| q_stream_id := si_stream_id info; q_buffer_id := buffer_id;
                  q_user_data := user_data; q_ready_point := qp_ready points;
                  q_reuse_point := qp_reuse points |} in
  let args := {| qb_stream_id := si_stream_id info; qb_buffer_id := buffer_id; qb_flags := flags;
                 qb_user_data := user_data; qb_mode_generation := si_mode_generation info;
                 qb_ready_point := default 0 (qp_ready points);
                 qb_reuse_point := default 0 (qp_reuse points) |} in
  let! r := issue (fun log => k_queue log args) (IoQueue args) in
  match r with
  | Failed errno =>
      do! (if errno =? ESTALE then
             let! t := tracker in set_tracker (mark_active_stale t (si_stream_id info))
           else mret tt);
      raise (QueueBuffer errno)
  | Done _ =>
      let! s := expect_active in
      let! b := lift (expect (buffer s buffer_id)) in
      do! put_active (buffer_mut s buffer_id (fun b =>
            with_state (match qp_next_ready points with
                        | Some p => with_next_ready b p
                        | None => b
                        end) (TQueued queue)));
      mret queue
  end.

Definition take_capture_completion (ready : CaptureReady) : M CaptureCompletion :=
  let stream_id := cr_stream_id ready in
  let buffer_id := cr_buffer_id ready in
  let! '(s, b) := named_buffer stream_id buffer_id in
  let! completion := lift match tb_state b with
                          | TCompleted c => Ok c
                          | state => Err (InvalidBufferState buffer_id Completed (state_public state))
                          end in
  do! lift (reject (negb (q_user_data (cm_queue completion) =? cr_user_data ready))
              (ReadyUserDataMismatch (q_user_data (cm_queue completion)) (cr_user_data ready)));
  do! lift (reject (negb (bool_decide (q_ready_point (cm_queue completion) = cr_ready_point ready)))
              (ReadyPointMismatch (q_ready_point (cm_queue completion)) (cr_ready_point ready)));
  let! t := tracker in
  do! set_tracker (set_stream t stream_id
        (buffer_mut s buffer_id (fun b => with_state b (TConsumerOwned completion))));
  mret completion.

Definition delegate_explicit_capture_completion (fence : ExplicitCaptureFence)
    : M CaptureCompletion :=
  do! close (ef_event fence);
  take_capture_completion
    {| cr_stream_id := ef_stream_id fence; cr_buffer_id := ef_buffer_id fence;
       cr_user_data := ef_user_data fence; cr_ready_point := Some (ef_ready_point fence) |}.

Definition release_capture_buffer (stream_id buffer_id : Z) : M CaptureRelease :=
  let! '(_, b) := named_buffer stream_id buffer_id in
  do! lift (require_buffer_state b ConsumerOwned);
  let! point := lift (next_reuse_point b) in
  let '(reuse_handle, reuse_point) :=
    match tb_synchronization b with
    | TImplicit => (None, None)
    | TExplicit p => (Some (sp_reuse_handle p), point)
    end in
  do! match reuse_handle, reuse_point with
      | Some handle, Some point => signal_syncobj_point handle point
      | _, _ => mret tt
      end;
  let! t := tracker in
  let! s := lift (expect (stream t stream_id)) in
  let! b := lift (expect (buffer s buffer_id)) in
  do! set_tracker (set_stream t stream_id (buffer_mut s buffer_id (fun b =>
        with_state (match reuse_point with
                    | Some p => with_last_release b p
                    | None => b
                    end) TIdle)));
  mret {| rl_stream_id := stream_id; rl_buffer_id := buffer_id; rl_reuse_point := reuse_point |}.

Definition retire_cancelled_capture_buffer (queue : CaptureQueue) : M unit :=
  let! t := tracker in
  let! s := lift (ok_or (keep (named (q_stream_id queue)) (retired t))
                    (UnknownRetiredStream (q_stream_id queue))) in
  let! b := lift (ok_or (buffer s (q_buffer_id queue)) (UnknownBuffer (q_buffer_id queue))) in
  match tb_state b with
  | TQueued actual =>
      if bool_decide (actual = queue) then
        set_tracker {| active := active t;
          retired := Some (buffer_mut s (q_buffer_id queue) (fun b => with_state b TIdle)) |}
      else raise CancelledQueueMismatch
  | state => raise (InvalidBufferState (q_buffer_id queue) Queued (state_public state))
  end.

Fixpoint cleanup_all (buffers : list TrackedBuffer) (cleanup_error : option CaptureError)
    : M (option CaptureError) :=
  match buffers with
  | [] => mret cleanup_error
  | b :: rest =>
      let! e := cleanup_tracked_buffer_resources b in
      cleanup_all rest (get_or_insert cleanup_error e)
  end.

Definition finish_retired_capture (stream_id : Z) : M RetiredCaptureStream :=
  let! t := tracker in
  let! s := lift (ok_or (keep (named stream_id) (retired t)) (UnknownRetiredStream stream_id)) in
  do! lift (reject (existsb is_busy (ts_buffers s)) RetiredStreamBusy);
  do! set_tracker {| active := active t; retired := None |};
  let! cleanup_error := cleanup_all (ts_buffers s) None in
  do! fail_with cleanup_error;
  mret {| rs_stream := ts_info s; rs_buffers := buffer_infos s |}.

(** [record_capture_frame], as an operation on the client's state. *)
Definition record_capture_frame (event : CaptureFrameEvent)
    : capture_state -> capture_state * outcome CaptureProtocolError unit :=
  fun s => let '(t, r) := record_frame (cs_tracker s) event in
           ({| cs_tracker := t; cs_log := cs_log s |}, r).

(** ** One operation of the owner of a client *)

Inductive operation :=
  | OpStart (capabilities : CaptureCapabilities) (cursor_mode : CursorCaptureMode)
  | OpStop
  | OpRetireInvalidated
  | OpReconcile (evidence : GrantStateEvidence)
  | OpRegister (framebuffer_id : Z) (synchronization : CaptureSynchronization)
  | OpAllocate (synchronization : CaptureSynchronization)
  | OpExport (stream_id buffer_id : Z)
  | OpExportFence (stream_id buffer_id : Z)
  | OpArmFence (stream_id buffer_id : Z)
  | OpUnregister (buffer_id : Z)
  | OpQueue (buffer_id user_data : Z)
  | OpTake (ready : CaptureReady)
  | OpDelegate (fence : ExplicitCaptureFence)
  | OpRelease (stream_id buffer_id : Z)
  | OpRetireCancelled (queue : CaptureQueue)
  | OpFinish (stream_id : Z)
  | OpFrame (event : CaptureFrameEvent).

Definition forget {A} (m : M A) : M unit := do! m; mret tt.

Definition perform (op : operation) : M unit :=
  match op with
  | OpStart c m => forget (start_capture c m)
  | OpStop => forget stop_capture
  | OpRetireInvalidated => forget retire_invalidated_capture
  | OpReconcile e => forget (reconcile_grant_state e)
  | OpRegister f s => forget (register_capture_buffer f s)
  | OpAllocate s => forget (allocate_linear_xrgb8888_buffer s)
  | OpExport s b => forget (export_capture_buffer s b)
  | OpExportFence s b => forget (export_implicit_capture_fence s b)
  | OpArmFence s b => forget (arm_explicit_capture_fence s b)
  | OpUnregister b => forget (unregister_capture_buffer b)
  | OpQueue b u => forget (queue_capture_buffer b u)
  | OpTake r => forget (take_capture_completion r)
  | OpDelegate f => forget (delegate_explicit_capture_completion f)
  | OpRelease s b => forget (release_capture_buffer s b)
  | OpRetireCancelled q => forget (retire_cancelled_capture_buffer q)
  | OpFinish s => forget (finish_retired_capture s)
  | OpFrame e => fun s => let '(s', r) := record_capture_frame e s in
                          (s', match r with Panic => Panic | _ => Ok tt end)
  end.

(** The states a client reaches by operations, failed ones included. *)
Inductive capture_reachable : capture_state -> Prop :=
  | reach_new : capture_reachable {| cs_tracker := CaptureTracker_default; cs_log := [] |}
  | reach_op op s : capture_reachable s -> capture_reachable (perform op s).1.
End Client.
