(* ===== verification/CaptureInvariant.v ===== *)
(** * Ownership invariants of capture

    Program logic for the capture monad, the invariant of the tracker, the
    ownership protocol of capture buffers as an abstract transition system,
    and the refinement: every operation of the client, in every reachable
    state and for every kernel, keeps the invariant, does not panic, and
    follows the protocol. *)

From S2P Require Import Prelude Bytes Text CastkmsSys Grant Castkms CastkmsEvent.
From S2P Require Import CastkmsCapture CaptureClient.

(** ** Program logic

    [wp m Q E s]: from [s], [m] does not panic; it returns a value and a state
    satisfying [Q], or an error in a state satisfying [E]. *)
Definition wp {A} (m : M A) (Q : A -> capture_state -> Prop) (E : capture_state -> Prop)
    (s : capture_state) : Prop :=
  match m s with
  | (s', Ok a) => Q a s'
  | (s', Err _) => E s'
  | (_, Panic) => False
  end.

Lemma wp_ret {A} (a : A) Q E s : Q a s -> wp (mret a) Q E s.
Proof. done. Qed.

Lemma wp_raise {A} e (Q : A -> _) (E : _ -> Prop) s : E s -> wp (raise e) Q E s.
Proof. done. Qed.

Lemma wp_bind {A B} (m : M A) (k : A -> M B) Q E s :
  wp m (fun a s' => wp (k a) Q E s') E s -> wp (mbind m k) Q E s.
Proof. unfold wp, mbind. by destruct (m s) as [s' [a|e|]]. Qed.

Lemma wp_weaken {A} (m : M A) (Q Q' : A -> _ -> Prop) (E E' : _ -> Prop) s :
  wp m Q E s -> (forall a s', Q a s' -> Q' a s') -> (forall s', E s' -> E' s') -> wp m Q' E' s.
Proof. unfold wp. destruct (m s) as [s' [a|e|]]; auto. Qed.

Lemma wp_tracker Q E s : Q (cs_tracker s) s -> wp tracker Q E s.
Proof. done. Qed.

Lemma wp_set_tracker t (Q : unit -> _ -> Prop) E s :
  Q tt {| cs_tracker := t; cs_log := cs_log s |} -> wp (set_tracker t) Q E s.
Proof. done. Qed.

Lemma wp_lift {A} (o : outcome CaptureError A) (Q : A -> _ -> Prop) (E : _ -> Prop) s :
  o <> Panic -> (forall a, o = Ok a -> Q a s) -> E s -> wp (lift o) Q E s.
Proof. unfold wp, lift. destruct o; naive_solver. Qed.

Lemma wp_reject (c : bool) e (Q : unit -> _ -> Prop) (E : _ -> Prop) s :
  E s -> (c = false -> Q tt s) -> wp (lift (reject c e)) Q E s.
Proof. intros. apply wp_lift; [by destruct c| |done]. intros [] ?%reject_ok; auto. Qed.

Lemma wp_ok_or {A} (o : option A) e (Q : A -> _ -> Prop) (E : _ -> Prop) s :
  E s -> (forall a, o = Some a -> Q a s) -> wp (lift (ok_or o e)) Q E s.
Proof. intros. apply wp_lift; [by destruct o| |done]. intros a ?%ok_or_ok; auto. Qed.

Lemma wp_expect {A} (o : option A) a (Q : A -> _ -> Prop) E s :
  o = Some a -> Q a s -> wp (lift (expect o)) Q E s.
Proof. by intros ->. Qed.

Lemma wp_check {A} f (r : reply A) (Q : A -> _ -> Prop) (E : _ -> Prop) s :
  E s -> (forall a, r = Done a -> Q a s) -> wp (check f r) Q E s.
Proof. intros ? HQ. destruct r; [by apply HQ|done]. Qed.

Lemma wp_or_unwind {A} (m : M A) (u : M unit) (Q : A -> _ -> Prop) (E : _ -> Prop) s :
  wp m Q (fun s' => wp u (fun _ => E) E s') s -> wp (or_unwind m u) Q E s.
Proof.
  unfold wp, or_unwind, mbind, attempt. destruct (m s) as [s' [a|e|]]; [done| |done].
  by destruct (u s') as [s2 [a|e'|]].
Qed.

(** *** Computations that leave the tracker alone *)

Definition quiet {A} (m : M A) : Prop :=
  forall s, cs_tracker (m s).1 = cs_tracker s /\ (m s).2 <> Panic.

Lemma wp_quiet {A} (m : M A) (Q : A -> _ -> Prop) (E : _ -> Prop) s :
  quiet m ->
  (forall a s', cs_tracker s' = cs_tracker s -> Q a s') ->
  (forall s', cs_tracker s' = cs_tracker s -> E s') -> wp m Q E s.
Proof.
  intros Hq HQ HE. destruct (Hq s) as [Ht Hp]. unfold wp.
  destruct (m s) as [s' [a|e|]]; simpl in *; auto.
Qed.

Lemma quiet_ret {A} (a : A) : quiet (mret a).
Proof. by intros s. Qed.
Lemma quiet_raise {A} e : quiet (raise (A:=A) e).
Proof. by intros s. Qed.
Lemma quiet_issue {A} f entry : quiet (issue (A:=A) f entry).
Proof. by intros s. Qed.
Lemma quiet_ask {A} f : quiet (ask (A:=A) f).
Proof. by intros s. Qed.
Lemma quiet_close fd : quiet (close fd).
Proof. by intros s. Qed.
Lemma quiet_check {A} f r : quiet (check (A:=A) f r).
Proof. by destruct r. Qed.
Lemma quiet_lift {A} (o : outcome CaptureError A) : o <> Panic -> quiet (lift o).
Proof. by intros Ho s. Qed.
Lemma quiet_fail_with o : quiet (fail_with o).
Proof. by destruct o. Qed.

Lemma quiet_bind {A B} (m : M A) (k : A -> M B) :
  quiet m -> (forall a, quiet (k a)) -> quiet (mbind m k).
Proof.
  intros Hm Hk s. destruct (Hm s) as [Ht Hp]. unfold mbind.
  destruct (m s) as [s' [a|e|]]; simpl in *; [|done..].
  destruct (Hk a s') as [Ht' Hp']. by rewrite Ht'.
Qed.

Lemma quiet_or_unwind {A} (m : M A) u : quiet m -> quiet u -> quiet (or_unwind m u).
Proof.
  intros Hm Hu. apply quiet_bind.
  - intros s. destruct (Hm s) as [Ht Hp]. unfold attempt. by destruct (m s) as [s' [a|e|]].
  - intros [a|e]; [apply quiet_ret|]. apply quiet_bind; [done|]. intros. apply quiet_raise.
Qed.

Lemma quiet_reject c e : quiet (lift (reject c e)).
Proof. apply quiet_lift. by destruct c. Qed.
Lemma quiet_ok_or {A} (o : option A) e : quiet (lift (ok_or o e)).
Proof. apply quiet_lift. by destruct o. Qed.

Lemma quiet_tracker_bind {B} (k : CaptureTracker -> M B) :
  (forall t, quiet (k t)) -> quiet (mbind tracker k).
Proof. intros Hk s. apply (Hk (cs_tracker s) s). Qed.

Create HintDb quiet.
#[export] Hint Resolve quiet_ret quiet_raise quiet_issue quiet_ask quiet_close quiet_check
  quiet_fail_with quiet_reject quiet_ok_or : quiet.
#[export] Hint Extern 1 (quiet (mbind tracker _)) => apply quiet_tracker_bind; intros : quiet.
#[export] Hint Extern 2 (quiet (mbind _ _)) => apply quiet_bind; [|intros] : quiet.
#[export] Hint Extern 2 (quiet (or_unwind _ _)) => apply quiet_or_unwind : quiet.
#[export] Hint Extern 1 (quiet (match ?x with _ => _ end)) => destruct x : quiet.
#[export] Hint Extern 1 (quiet (let '_ := ?x in _)) => destruct x : quiet.

Section Logic.
Context `{K : CaptureKernel} (lease : GrantLease).

Lemma quiet_destroy_syncobj h : quiet (destroy_syncobj h).
Proof. apply quiet_issue. Qed.
Lemma quiet_destroy_syncobj_pair p : quiet (destroy_syncobj_pair p).
Proof. unfold destroy_syncobj_pair, destroy_syncobj. auto 10 with quiet. Qed.
Lemma quiet_destroy_syncobj_best_effort h : quiet (destroy_syncobj_best_effort h).
Proof. unfold destroy_syncobj_best_effort, destroy_syncobj. auto 10 with quiet. Qed.
Lemma quiet_destroy_syncobj_pair_best_effort p : quiet (destroy_syncobj_pair_best_effort p).
Proof.
  destruct p; [apply quiet_ret|]. apply quiet_bind; [apply quiet_destroy_syncobj_pair|].
  intros. apply quiet_ret.
Qed.
Lemma quiet_remove_framebuffer id : quiet (remove_framebuffer_best_effort id).
Proof. unfold remove_framebuffer_best_effort. auto 10 with quiet. Qed.
Lemma quiet_destroy_dumb h : quiet (destroy_dumb_best_effort h).
Proof. unfold destroy_dumb_best_effort. auto 10 with quiet. Qed.
Lemma quiet_stop_stream id : quiet (stop_stream_best_effort id).
Proof. unfold stop_stream_best_effort. auto 10 with quiet. Qed.
Lemma quiet_cleanup_owned id o : quiet (cleanup_owned_framebuffer id o).
Proof. unfold cleanup_owned_framebuffer. auto 10 with quiet. Qed.
Lemma quiet_cleanup_tracked b : quiet (cleanup_tracked_buffer_resources b).
Proof.
  unfold cleanup_tracked_buffer_resources. apply quiet_bind.
  - case_match; [apply quiet_ret|apply quiet_destroy_syncobj_pair].
  - intros e. case_match; [|apply quiet_ret]. apply quiet_bind; [apply quiet_cleanup_owned|].
    intros. apply quiet_ret.
Qed.
Lemma quiet_cleanup_all l e : quiet (cleanup_all l e).
Proof.
  revert e. induction l as [|b l IH]; intros e; [apply quiet_ret|].
  apply quiet_bind; [apply quiet_cleanup_tracked|]. intros. apply IH.
Qed.
Lemma quiet_owned_fd fd v op : quiet (owned_fd_from_kernel fd v op).
Proof. unfold owned_fd_from_kernel. auto 10 with quiet. Qed.
Lemma quiet_create_syncobj f : quiet (create_syncobj f).
Proof.
  unfold create_syncobj. repeat (apply quiet_bind; [auto with quiet|intros]).
  case_match; [|apply quiet_ret]. apply quiet_bind; [apply quiet_destroy_syncobj_best_effort|].
  intros. apply quiet_raise.
Qed.
Lemma quiet_create_syncobj_pair : quiet create_syncobj_pair.
Proof.
  unfold create_syncobj_pair. apply quiet_bind; [apply quiet_create_syncobj|]. intros h.
  apply quiet_bind.
  { intros s. destruct (quiet_create_syncobj CreateReuseSyncobj s) as [Ht Hp]. unfold attempt.
    by destruct (create_syncobj CreateReuseSyncobj s) as [s' [a|e|]]. }
  intros [a|e]; [case_match; [|apply quiet_ret]|];
    (apply quiet_bind; [apply quiet_destroy_syncobj_best_effort|]; intros; apply quiet_raise).
Qed.
Lemma quiet_signal h p : quiet (signal_syncobj_point h p).
Proof. unfold signal_syncobj_point. auto 10 with quiet. Qed.
Lemma quiet_export_syncobj h f : quiet (export_syncobj_fd h f).
Proof.
  unfold export_syncobj_fd. repeat (apply quiet_bind; [auto with quiet|intros]).
  apply quiet_owned_fd.
Qed.

Lemma query_grant_no_panic `{FdQueries} l :
  drm_ioctl_castkms_get_grant (gl_holder l) <> Panic -> query_grant l <> Panic.
Proof.
  intros Hk. unfold query_grant. destruct (drm_ioctl_castkms_get_grant (gl_holder l)); [|done..].
  cbn [omap_err obind].
  repeat match goal with |- context [reject ?c _] => destruct c; cbn [reject obind]; [done|] end.
  unfold GrantState_try_from. repeat case_match; simpl; done.
Qed.

Lemma quiet_query_grant : quiet (capture_query_grant lease).
Proof.
  unfold capture_query_grant. apply quiet_bind; [apply quiet_ask|]. intros r. apply quiet_lift.
  match goal with |- omap_err _ ?q <> _ => assert (q <> Panic) as Hq; [|by destruct q] end.
  apply query_grant_no_panic. by destruct r.
Qed.

Lemma quiet_rights r : quiet (require_capture_rights lease r).
Proof. apply quiet_lift. unfold require_rights. by case_match. Qed.

Lemma quiet_query_crtc_mode c : quiet (query_crtc_mode c).
Proof.
  unfold query_crtc_mode. do 2 (apply quiet_bind; [auto with quiet|intros]). apply quiet_lift.
  repeat first [ match goal with |- context [reject ?c _] => destruct c; cbn [reject obind]; [done|] end
               | match goal with |- context [ok_or ?o _] => destruct o; cbn [ok_or obind]; [|done] end ].
  done.
Qed.
End Logic.

#[export] Hint Resolve quiet_destroy_syncobj quiet_destroy_syncobj_pair
  quiet_destroy_syncobj_best_effort quiet_destroy_syncobj_pair_best_effort
  quiet_remove_framebuffer quiet_destroy_dumb quiet_stop_stream quiet_cleanup_owned
  quiet_cleanup_tracked quiet_cleanup_all quiet_owned_fd quiet_create_syncobj
  quiet_create_syncobj_pair quiet_signal quiet_export_syncobj quiet_query_grant quiet_rights
  quiet_query_crtc_mode : quiet.

(** ** The ownership protocol *)

(** The stream with whether it still runs, and the owner of every buffer. *)
Record owners := { ow_stream : option (Z * bool); ow_buffers : list (Z * CaptureBufferState) }.

(** What can happen to them: to the stream, or to one buffer of it. *)
Inductive own_action :=
  | Started (stream : Z)
  | Stopped
  | Registered (buffer : Z)
  | Unregistered (buffer : Z)
  | QueuedFor (buffer : Z)
  | CompletedOn (stream buffer : Z)
  | TakenFrom (stream buffer : Z)
  | ReleasedTo (stream buffer : Z)
  | CancelledOn (stream buffer : Z)
  | Finished (stream : Z).

Inductive own_step : own_action -> owners -> owners -> Prop :=
  | own_start id : id <> 0 ->
      own_step (Started id) {| ow_stream := None; ow_buffers := [] |}
               {| ow_stream := Some (id, true); ow_buffers := [] |}
  | own_retire id l : l <> [] ->
      own_step Stopped {| ow_stream := Some (id, true); ow_buffers := l |}
               {| ow_stream := Some (id, false); ow_buffers := l |}
  | own_drop id :
      own_step Stopped {| ow_stream := Some (id, true); ow_buffers := [] |}
               {| ow_stream := None; ow_buffers := [] |}
  | own_register id l b : b <> 0 -> b ∉ l.*1 ->
      own_step (Registered b) {| ow_stream := Some (id, true); ow_buffers := l |}
               {| ow_stream := Some (id, true); ow_buffers := l ++ [(b, Idle)] |}
  | own_unregister id l1 b l2 :
      own_step (Unregistered b) {| ow_stream := Some (id, true); ow_buffers := l1 ++ (b, Idle) :: l2 |}
               {| ow_stream := Some (id, true); ow_buffers := l1 ++ l2 |}
  | own_queue id l1 b l2 : Queued ∉ l1.*2 -> Queued ∉ l2.*2 ->
      own_step (QueuedFor b) {| ow_stream := Some (id, true); ow_buffers := l1 ++ (b, Idle) :: l2 |}
               {| ow_stream := Some (id, true); ow_buffers := l1 ++ (b, Queued) :: l2 |}
  | own_complete id runs l1 b l2 :
      own_step (CompletedOn id b) {| ow_stream := Some (id, runs); ow_buffers := l1 ++ (b, Queued) :: l2 |}
               {| ow_stream := Some (id, runs); ow_buffers := l1 ++ (b, Completed) :: l2 |}
  | own_take id runs l1 b l2 :
      own_step (TakenFrom id b) {| ow_stream := Some (id, runs); ow_buffers := l1 ++ (b, Completed) :: l2 |}
               {| ow_stream := Some (id, runs); ow_buffers := l1 ++ (b, ConsumerOwned) :: l2 |}
  | own_release id runs l1 b l2 :
      own_step (ReleasedTo id b) {| ow_stream := Some (id, runs); ow_buffers := l1 ++ (b, ConsumerOwned) :: l2 |}
               {| ow_stream := Some (id, runs); ow_buffers := l1 ++ (b, Idle) :: l2 |}
  | own_cancel id l1 b l2 :
      own_step (CancelledOn id b) {| ow_stream := Some (id, false); ow_buffers := l1 ++ (b, Queued) :: l2 |}
               {| ow_stream := Some (id, false); ow_buffers := l1 ++ (b, Idle) :: l2 |}
  | own_finish id l : Forall (fun p => p.2 = Idle) l ->
      own_step (Finished id) {| ow_stream := Some (id, false); ow_buffers := l |}
               {| ow_stream := None; ow_buffers := [] |}.

(** One action, or none. *)
Definition took (a : option own_action) (o o' : owners) : Prop :=
  match a with Some a => own_step a o o' | None => o' = o end.

(** ** Tracker transitions

    The primitive changes an operation makes to the tracker, each with what it
    is to the owners. *)
Inductive lstep : option own_action -> CaptureTracker -> CaptureTracker -> Prop :=
  | l_start info caps :
      si_stream_id info <> 0 -> si_mode_generation info <> 0 ->
      lstep (Some (Started (si_stream_id info))) {| active := None; retired := None |}
            {| active := Some {| ts_info := info; ts_capabilities := caps; ts_stale := false;
                                 ts_buffers := [] |}; retired := None |}
  | l_retire t t' n : retire_active t = Ok (t', n) -> lstep (Some Stopped) t t'
  | l_stale s r :
      lstep None {| active := Some s; retired := r |} {| active := Some (with_stale s); retired := r |}
  | l_register s r b :
      ts_stale s = false ->
      Z.of_nat (length (ts_buffers s)) < max_registered_buffers (ts_capabilities s) ->
      tb_id b <> 0 -> existsb (fun x => tb_id x =? tb_id b) (ts_buffers s) = false ->
      tb_state b = TIdle -> tb_next_ready_point b = 1 -> tb_last_release_point b = 0 ->
      lstep (Some (Registered (tb_id b))) {| active := Some s; retired := r |}
            {| active := Some (with_buffers s (ts_buffers s ++ [b])); retired := r |}
  | l_own s r id o :
      lstep None {| active := Some s; retired := r |}
            {| active := Some (buffer_mut s id (fun b => with_owned b o)); retired := r |}
  | l_remove s r i b :
      ts_buffers s !! i = Some b -> tb_state b = TIdle ->
      lstep (Some (Unregistered (tb_id b))) {| active := Some s; retired := r |}
            {| active := Some (with_buffers s (delete i (ts_buffers s))); retired := r |}
  | l_queue s r id b points user_data :
      ts_stale s = false -> has_capture_queue_capacity s = true ->
      existsb (uses_user_data user_data) (ts_buffers s) = false ->
      buffer s id = Some b -> tb_state b = TIdle -> queue_points b = Ok points ->
      lstep (Some (QueuedFor id)) {| active := Some s; retired := r |}
            {| active := Some (buffer_mut s id (fun b =>
                 with_state (match qp_next_ready points with
                             | Some p => with_next_ready b p | None => b end)
                   (TQueued {| q_stream_id := si_stream_id (ts_info s); q_buffer_id := id;
                               q_user_data := user_data; q_ready_point := qp_ready points;
                               q_reuse_point := qp_reuse points |}))); retired := r |}
  | l_frame t event t' : record_frame t event = (t', Ok tt) -> lstep (Some (CompletedOn (fe_stream_id event) (fe_buffer_id event))) t t'
  | l_take t stream_id s id b c :
      stream t stream_id = Some s -> buffer s id = Some b -> tb_state b = TCompleted c ->
      lstep (Some (TakenFrom stream_id id)) t (set_stream t stream_id
                 (buffer_mut s id (fun b => with_state b (TConsumerOwned c))))
  | l_release t stream_id s id b c point :
      stream t stream_id = Some s -> buffer s id = Some b -> tb_state b = TConsumerOwned c ->
      next_reuse_point b = Ok point ->
      lstep (Some (ReleasedTo stream_id id)) t (set_stream t stream_id (buffer_mut s id (fun b =>
                 with_state (match point with
                             | Some p => with_last_release b p | None => b end) TIdle)))
  | l_cancel a s q b :
      buffer s (q_buffer_id q) = Some b -> tb_state b = TQueued q ->
      lstep (Some (CancelledOn (si_stream_id (ts_info s)) (q_buffer_id q))) {| active := a; retired := Some s |}
            {| active := a;
               retired := Some (buffer_mut s (q_buffer_id q) (fun b => with_state b TIdle)) |}
  | l_finish a s :
      existsb is_busy (ts_buffers s) = false ->
      lstep (Some (Finished (si_stream_id (ts_info s)))) {| active := a; retired := Some s |} {| active := a; retired := None |}.

Definition tstep (t t' : CaptureTracker) : Prop := exists a, lstep a t t'.

(** ** The invariant *)

Definition user_datas (l : list TrackedBuffer) : list Z :=
  omap (fun b => q_user_data <$> in_flight b) l.

(** A buffer in flight carries its own queue; the queue of an explicitly
    synchronized buffer has the ready point before the next one, that of an
    implicitly synchronized one has no points. *)
Record buffer_ok (stream_id : Z) (b : TrackedBuffer) : Prop := {
  bo_id : tb_id b <> 0;
  bo_queue q : in_flight b = Some q ->
    q_stream_id q = stream_id /\ q_buffer_id q = tb_id b /\
    match tb_synchronization b with
    | TImplicit => q_ready_point q = None /\ q_reuse_point q = None
    | TExplicit _ => q_ready_point q = Some (tb_next_ready_point b - 1)
    end;
  bo_next : 1 <= tb_next_ready_point b <= u64_MAX;
  bo_last : 0 <= tb_last_release_point b <= u64_MAX }.

Record stream_ok (s : TrackedStream) : Prop := {
  so_id : si_stream_id (ts_info s) <> 0;
  so_buffers : Forall (buffer_ok (si_stream_id (ts_info s))) (ts_buffers s);
  so_ids : NoDup (tb_id <$> ts_buffers s);
  so_user_data : NoDup (user_datas (ts_buffers s));
  so_queued : (length (List.filter is_queued (ts_buffers s)) <= MAX_OUTSTANDING_CAPTURE_REQUESTS)%nat;
  so_limit : Z.of_nat (length (ts_buffers s)) <= Z.max 0 (max_registered_buffers (ts_capabilities s)) }.

Record tracker_ok (t : CaptureTracker) : Prop := {
  to_one : active t = None \/ retired t = None;
  to_active s : active t = Some s -> stream_ok s;
  to_retired s : retired t = Some s -> stream_ok s /\ ts_buffers s <> [] }.

(** ** The owners of a tracker *)

Definition owner_of (b : TrackedBuffer) : Z * CaptureBufferState :=
  (tb_id b, state_public (tb_state b)).

Definition owners_of (t : CaptureTracker) : owners :=
  match active t, retired t with
  | Some s, _ => {| ow_stream := Some (si_stream_id (ts_info s), true);
                    ow_buffers := owner_of <$> ts_buffers s |}
  | None, Some s => {| ow_stream := Some (si_stream_id (ts_info s), false);
                       ow_buffers := owner_of <$> ts_buffers s |}
  | None, None => {| ow_stream := None; ow_buffers := [] |}
  end.

(** ** Lemmas on one buffer of a stream *)

Lemma buffer_split s id b f : buffer s id = Some b ->
  exists l1 l2, ts_buffers s = l1 ++ b :: l2 /\
    ts_buffers (buffer_mut s id f) = l1 ++ f b :: l2 /\ tb_id b = id.
Proof.
  unfold buffer, buffer_mut, with_buffers. cbn [ts_buffers].
  induction (ts_buffers s) as [|x l IH]; [done|]. cbn [List.find update_first].
  destruct (tb_id x =? id) eqn:Hx.
  - intros [= <-]. exists [], l. breflect. done.
  - intros H. destruct (IH H) as (l1 & l2 & -> & -> & Hid). by exists (x :: l1), l2.
Qed.

Lemma buffer_none s id f : buffer s id = None -> buffer_mut s id f = s.
Proof.
  unfold buffer, buffer_mut, with_buffers. destruct s as [info caps stale bufs]. simpl.
  intros H. f_equal. induction bufs as [|x l IH]; [done|]. simpl in *.
  destruct (tb_id x =? id); [done|]. by rewrite IH.
Qed.

Lemma filter_middle {A} (p : A -> bool) l1 b l2 :
  length (List.filter p (l1 ++ b :: l2))
  = (length (List.filter p l1) + (if p b then 1 else 0) + length (List.filter p l2))%nat.
Proof. rewrite List.filter_app, length_app. simpl. destruct (p b); simpl; lia. Qed.

Lemma user_datas_middle l1 b l2 :
  user_datas (l1 ++ b :: l2)
  = user_datas l1 ++ option_list (q_user_data <$> in_flight b) ++ user_datas l2.
Proof.
  unfold user_datas. rewrite omap_app. f_equal. simpl. by destruct (in_flight b).
Qed.

(** Replacing one buffer by another with the same identifier, which is not
    queued unless the old one was and whose queue is the old one's if any. *)
Lemma stream_ok_replace s l1 b b' l2 s' :
  stream_ok s -> ts_buffers s = l1 ++ b :: l2 -> ts_buffers s' = l1 ++ b' :: l2 ->
  ts_info s' = ts_info s -> ts_capabilities s' = ts_capabilities s ->
  tb_id b' = tb_id b -> buffer_ok (si_stream_id (ts_info s)) b' ->
  (is_queued b' = true -> is_queued b = true) ->
  (in_flight b' = None \/ in_flight b' = in_flight b) -> stream_ok s'.
Proof.
  intros [Hid Hbs Hids Hud Hq Hl] Hs Hs' Hi Hc Hbid Hb' Hqb Hfl.
  split; rewrite ?Hi, ?Hc, ?Hs' in *; rewrite ?Hs in *.
  - done.
  - apply Forall_app in Hbs as [H1 H2]. inversion H2; subst. apply Forall_app. split; [done|].
    by constructor.
  - rewrite fmap_app, fmap_cons in *. by rewrite Hbid.
  - rewrite user_datas_middle in *. destruct Hfl as [->| ->]; [|done]. simpl.
    apply NoDup_app in Hud as (? & Hd & Hud). apply NoDup_app in Hud as (_ & _ & ?).
    apply NoDup_app. split_and!; [done| |done]. intros x Hx1 Hx2. apply (Hd x Hx1).
    apply elem_of_app. by right.
  - rewrite filter_middle in *. destruct (is_queued b') eqn:E; [rewrite Hqb in Hq by done; lia|lia].
  - rewrite length_app in *. simpl in *. lia.
Qed.

Lemma stream_cases t id s : stream t id = Some s ->
  (active t = Some s /\ named id s = true) \/
  (keep (named id) (active t) = None /\ retired t = Some s /\ named id s = true).
Proof.
  unfold stream. destruct (active t) as [a|]; simpl.
  - destruct (named id a) eqn:Ha; [intros [= <-]; by left|].
    destruct (retired t) as [r|]; simpl; [|done]. destruct (named id r) eqn:Hr; [|done].
    intros [= <-]. by right.
  - destruct (retired t) as [r|]; simpl; [|done]. destruct (named id r) eqn:Hr; [|done].
    intros [= <-]. by right.
Qed.

Lemma stream_is_ok t id s : tracker_ok t -> stream t id = Some s -> stream_ok s.
Proof. intros Ht [[? _]|(_ & ? & _)]%stream_cases; [by eapply to_active|by eapply to_retired]. Qed.

Lemma set_stream_ok t id s s' :
  tracker_ok t -> stream t id = Some s -> stream_ok s' ->
  (ts_buffers s <> [] -> ts_buffers s' <> []) -> tracker_ok (set_stream t id s').
Proof.
  intros Ht Hs Hs' Hne. destruct (stream_cases _ _ _ Hs) as [[Ha Hn]|(Hk & Hr & Hn)];
    unfold set_stream.
  - rewrite Ha. simpl. rewrite Hn. destruct (to_one _ Ht) as [?|Hone]; [congruence|].
    split; simpl; [by right|by intros ? [= <-]|by rewrite Hone].
  - rewrite Hk. destruct (to_one _ Ht) as [Hone|?]; [|congruence].
    split; simpl; [by left|by rewrite Hone|]. intros ? [= <-]. split; [done|].
    apply Hne. by eapply to_retired.
Qed.

Lemma owners_stream t id s s' :
  tracker_ok t -> stream t id = Some s -> ts_info s' = ts_info s ->
  exists runs, owners_of t = {| ow_stream := Some (id, runs); ow_buffers := owner_of <$> ts_buffers s |} /\
    owners_of (set_stream t id s')
    = {| ow_stream := Some (id, runs); ow_buffers := owner_of <$> ts_buffers s' |}.
Proof.
  intros Ht Hs Hi. destruct (stream_cases _ _ _ Hs) as [[Ha Hn]|(Hk & Hr & Hn)];
    unfold set_stream, owners_of; assert (si_stream_id (ts_info s) = id) as Hid by (by apply Z.eqb_eq).
  - rewrite Ha. simpl. rewrite Hn. simpl. rewrite Hi, Hid. by eexists.
  - rewrite Hk. destruct (to_one _ Ht) as [Hone|?]; [|congruence].
    rewrite Hone, Hr. simpl. rewrite Hi, Hid. by eexists.
Qed.

(** Moving one buffer of a stream from one owner to another. *)
Lemma move_buffer t stream_id s id b f :
  tracker_ok t -> stream t stream_id = Some s -> buffer s id = Some b ->
  tb_id (f b) = tb_id b ->
  (buffer_ok (si_stream_id (ts_info s)) b -> buffer_ok (si_stream_id (ts_info s)) (f b)) ->
  (is_queued (f b) = true -> is_queued b = true) ->
  (in_flight (f b) = None \/ in_flight (f b) = in_flight b) ->
  forall s', ts_info s' = ts_info s -> ts_capabilities s' = ts_capabilities s ->
    ts_buffers s' = ts_buffers (buffer_mut s id f) ->
  tracker_ok (set_stream t stream_id s') /\
  exists runs l1 l2,
    owners_of t = {| ow_stream := Some (stream_id, runs);
                     ow_buffers := l1 ++ (id, state_public (tb_state b)) :: l2 |} /\
    owners_of (set_stream t stream_id s')
    = {| ow_stream := Some (stream_id, runs); ow_buffers := l1 ++ (id, state_public (tb_state (f b))) :: l2 |}.
Proof.
  intros Ht Hs Hb Hid Hok Hq Hfl s' Hi Hc Hbs.
  destruct (buffer_split s id b f Hb) as (l1 & l2 & Hl & Hl' & Hbid). rewrite Hl' in Hbs.
  pose proof (stream_is_ok _ _ _ Ht Hs) as Hso.
  assert (buffer_ok (si_stream_id (ts_info s)) b) as Hbo.
  { pose proof (so_buffers _ Hso) as Hall. rewrite Hl in Hall. apply Forall_app in Hall as [_ Hall].
    by inversion Hall. }
  split.
  - eapply set_stream_ok; [done..| |].
    + by eapply (stream_ok_replace s l1 b (f b) l2); auto.
    + intros _. rewrite Hbs. by destruct l1.
  - destruct (owners_stream t stream_id s s' Ht Hs Hi) as (runs & H1 & H2).
    exists runs, (owner_of <$> l1), (owner_of <$> l2). rewrite H1, H2, Hl, Hbs, !fmap_app, !fmap_cons.
    unfold owner_of. by rewrite Hid, Hbid.
Qed.

Lemma queue_points_inv b points : queue_points b = Ok points ->
  match tb_synchronization b with
  | TImplicit => points = {| qp_ready := None; qp_reuse := None; qp_next_ready := None |}
  | TExplicit _ => tb_next_ready_point b + 1 <= u64_MAX /\
      points = {| qp_ready := Some (tb_next_ready_point b);
                  qp_reuse := nonzero (tb_last_release_point b);
                  qp_next_ready := Some (tb_next_ready_point b + 1) |}
  end.
Proof.
  unfold queue_points. destruct (tb_synchronization b); [by intros [= <-]|]. intros H. ok_inv.
  match goal with E : nonzero _ = _ |- _ => apply nonzero_some in E as [-> _] end.
  unfold checked_add64 in *. destruct (_ <=? _) eqn:Hle; [|done]. ok_inv. subst. breflect. done.
Qed.

Lemma next_reuse_inv b point : next_reuse_point b = Ok point ->
  match tb_synchronization b with
  | TImplicit => point = None
  | TExplicit _ => tb_last_release_point b + 1 <= u64_MAX /\
                   point = Some (tb_last_release_point b + 1)
  end.
Proof.
  unfold next_reuse_point. destruct (tb_synchronization b); [by intros [= <-]|]. intros H. ok_inv.
  unfold checked_add64 in *. destruct (_ <=? _) eqn:Hle; [|done]. breflect.
  match goal with E : nonzero _ = _ |- _ => apply nonzero_some in E as [-> _] end. by subst.
Qed.

Lemma record_frame_inv t event t' :
  record_frame t event = (t', Ok tt) ->
  exists stream_id s id b q, stream t stream_id = Some s /\ buffer s id = Some b /\
    tb_state b = TQueued q /\
    check_frame_generation event (si_mode_generation (ts_info s)) = Ok tt /\
    q_user_data q = fe_user_data event /\ stream_id = fe_stream_id event /\ id = fe_buffer_id event /\
    let s1 := buffer_mut s id
                (fun b => with_state b (TCompleted {| cm_queue := q; cm_frame := event |})) in
    t' = set_stream t stream_id (if frame_changes_mode event then with_stale s1 else s1).
Proof.
  unfold record_frame. intros H.
  match type of H with (match ?m with _ => _ end) = _ => destruct m as [t1|e|] eqn:Hm end;
    simplify_eq. ok_inv.
  repeat match goal with E : nonzero _ = Some _ |- _ => apply nonzero_some in E as [-> ?] end.
  match goal with S : stream t _ = Some ?s, B : buffer ?s _ = Some ?b |- _ =>
    destruct (tb_state b) as [|q| |] eqn:Hst; try done; exists (fe_stream_id event), s, (fe_buffer_id event), b, q end.
  ok_inv. subst. breflect. repeat match goal with x : unit |- _ => destruct x end. by split_and!.
Qed.

(** *** Each transition keeps the invariant and follows the protocol *)

Definition follows (a : option own_action) (t t' : CaptureTracker) : Prop :=
  tracker_ok t -> tracker_ok t' /\ took a (owners_of t) (owners_of t').

Lemma start_follows info caps : si_stream_id info <> 0 ->
  follows (Some (Started (si_stream_id info))) {| active := None; retired := None |}
          {| active := Some {| ts_info := info; ts_capabilities := caps; ts_stale := false;
                               ts_buffers := [] |}; retired := None |}.
Proof.
  intros Hid _. split; [|by apply own_start]. split; simpl; [by right| |done].
  intros ? [= <-]. split; simpl; [done|constructor|apply NoDup_nil_2|apply NoDup_nil_2|lia|lia].
Qed.

Lemma retire_follows t t' n : retire_active t = Ok (t', n) -> follows (Some Stopped) t t'.
Proof.
  intros Hr Ht. unfold retire_active in Hr. destruct (active t) as [s|] eqn:Ha; [|done].
  destruct (retired t) eqn:Hre; [done|]. injection Hr as <- <-.
  pose proof (to_active _ Ht _ Ha) as Hs. unfold owners_of. rewrite Ha. simpl.
  case_bool_decide as He; simpl.
  - split; [by split; simpl; [left| |]|]. rewrite He. apply own_drop.
  - split; [|apply own_retire; by destruct (ts_buffers s)].
    split; simpl; [by left|done|]. by intros ? [= <-].
Qed.

Lemma stale_follows s r :
  follows None {| active := Some s; retired := r |} {| active := Some (with_stale s); retired := r |}.
Proof.
  intros [Hone Ha Hre]. split; [|done]. split; simpl in *; [by destruct Hone; [|right]| |done].
  intros ? [= <-]. by destruct (Ha _ eq_refl).
Qed.

Lemma fresh_id l id : existsb (fun x => tb_id x =? id) l = false -> id ∉ tb_id <$> l.
Proof.
  intros Hdup (y & -> & Hy)%list_elem_of_fmap. apply not_true_iff_false in Hdup.
  apply Hdup, existsb_exists. exists y. split; [by apply list_elem_of_In|]. by apply Z.eqb_eq.
Qed.

Lemma register_follows s r b :
  Z.of_nat (length (ts_buffers s)) < max_registered_buffers (ts_capabilities s) ->
  tb_id b <> 0 -> existsb (fun x => tb_id x =? tb_id b) (ts_buffers s) = false ->
  tb_state b = TIdle -> tb_next_ready_point b = 1 -> tb_last_release_point b = 0 ->
  follows (Some (Registered (tb_id b))) {| active := Some s; retired := r |}
          {| active := Some (with_buffers s (ts_buffers s ++ [b])); retired := r |}.
Proof.
  intros Hlen Hid Hdup%fresh_id Hidle Hn Hl [Hone Ha Hre]. specialize (Ha _ eq_refl).
  assert (in_flight b = None) as Hfl by (unfold in_flight; by rewrite Hidle). split.
  - split; simpl in *; [by destruct Hone; [|right]| |done]. intros ? [= <-].
    destruct Ha as [? Hbs Hids Hu Hq Hlim]. split; simpl; [done| | | | |].
    + apply Forall_app. split; [done|]. apply Forall_singleton.
      split; rewrite ?Hfl, ?Hn, ?Hl; unfold u64_MAX; [done|done|lia|lia].
    + rewrite fmap_app. apply NoDup_app. split_and!; [done| |apply NoDup_singleton].
      intros x Hx ->%list_elem_of_singleton. done.
    + rewrite user_datas_middle, Hfl. simpl. by rewrite app_nil_r.
    + rewrite filter_middle. unfold is_queued at 2. rewrite Hidle. simpl. lia.
    + rewrite length_app. simpl. lia.
  - unfold owners_of. simpl. rewrite fmap_app. simpl.
    replace (owner_of b) with (tb_id b, Idle) by (unfold owner_of; by rewrite Hidle).
    apply own_register; [done|]. by rewrite <- list_fmap_compose.
Qed.

Lemma own_buffer_follows s r id o :
  follows None {| active := Some s; retired := r |}
          {| active := Some (buffer_mut s id (fun b => with_owned b o)); retired := r |}.
Proof.
  intros Ht. destruct (buffer s id) as [b|] eqn:Hb;
    [|by rewrite buffer_none by done; split].
  assert (stream {| active := Some s; retired := r |} (si_stream_id (ts_info s)) = Some s) as Hstr
    by (unfold stream; simpl; unfold named; by rewrite Z.eqb_refl).
  destruct (move_buffer _ _ _ _ _ (fun b => with_owned b o) Ht Hstr Hb) with
    (s' := buffer_mut s id (fun b => with_owned b o)) as [Hok (runs & l1 & l2 & E1 & E2)];
    try done; [by intros [? ? ? ?]|by right|].
  unfold set_stream in Hok, E2. simpl in Hok, E2. unfold named in Hok, E2.
  rewrite Z.eqb_refl in Hok, E2. split; [done|]. simpl. by rewrite E1, E2.
Qed.

Lemma remove_follows s r i b :
  ts_buffers s !! i = Some b -> tb_state b = TIdle ->
  follows (Some (Unregistered (tb_id b))) {| active := Some s; retired := r |}
          {| active := Some (with_buffers s (delete i (ts_buffers s))); retired := r |}.
Proof.
  intros Hi Hidle [Hone Ha Hre]. specialize (Ha _ eq_refl).
  apply list_elem_of_split_length in Hi as (l1 & l2 & Hl & Hlen).
  assert (delete i (ts_buffers s) = l1 ++ l2) as Hd
    by (rewrite Hl, Hlen; by rewrite delete_middle).
  split.
  - split; simpl in *; [by destruct Hone; [|right]| |done]. intros ? [= <-].
    destruct Ha as [? Hbs Hids Hu Hq Hlim].
    rewrite Hl in Hbs, Hids, Hu, Hq, Hlim. split; simpl; rewrite ?Hd; [done| | | | |].
    + apply Forall_app in Hbs as [? Hbs]. inversion Hbs; subst. by apply Forall_app.
    + rewrite fmap_app in *. apply NoDup_app in Hids as (? & Hx & Hids).
      apply NoDup_cons in Hids as [_ ?]. apply NoDup_app. split_and!; [done| |done].
      intros x Hx1 Hx2. apply (Hx x Hx1). by right.
    + rewrite user_datas_middle in Hu. unfold in_flight in Hu. rewrite Hidle in Hu.
      simpl in Hu. unfold user_datas in *. by rewrite omap_app.
    + rewrite filter_middle in Hq. rewrite List.filter_app, length_app. lia.
    + rewrite length_app in *. simpl in *. lia.
  - unfold owners_of. simpl. rewrite Hd, Hl, !fmap_app. simpl.
    replace (owner_of b) with (tb_id b, Idle) by (unfold owner_of; by rewrite Hidle).
    apply own_unregister.
Qed.

Lemma no_queued l : length (List.filter is_queued l) = O -> Queued ∉ (owner_of <$> l).*2.
Proof.
  intros Hl Hin. rewrite <- list_fmap_compose in Hin. apply list_elem_of_fmap in Hin as (b & Hb & Hin).
  unfold compose in Hb. simpl in Hb. apply nil_length_inv in Hl.
  assert (is_queued b = true) as Hq by (unfold is_queued; destruct (tb_state b); done).
  assert (In b (List.filter is_queued l)) as Hf
    by (apply filter_In; split; [by apply list_elem_of_In|done]).
  by rewrite Hl in Hf.
Qed.

Lemma queue_follows s r id b points user_data :
  has_capture_queue_capacity s = true ->
  existsb (uses_user_data user_data) (ts_buffers s) = false ->
  buffer s id = Some b -> tb_state b = TIdle -> queue_points b = Ok points ->
  follows (Some (QueuedFor id)) {| active := Some s; retired := r |}
          {| active := Some (buffer_mut s id (fun b =>
               with_state (match qp_next_ready points with
                           | Some p => with_next_ready b p | None => b end)
                 (TQueued {| q_stream_id := si_stream_id (ts_info s); q_buffer_id := id;
                             q_user_data := user_data; q_ready_point := qp_ready points;
                             q_reuse_point := qp_reuse points |}))); retired := r |}.
Proof.
  intros Hcap Hud Hb Hidle Hp [Hone Ha Hre]. specialize (Ha _ eq_refl).
  match goal with |- context [buffer_mut s id ?f] => set (g := f) end.
  destruct (buffer_split s id b g Hb) as (l1 & l2 & Hl & Hl' & Hbid).
  apply queue_points_inv in Hp. destruct Ha as [Hsid Hbs Hids Hu Hq Hlim].
  assert (tb_id (g b) = tb_id b) as Hgid by (unfold g; by destruct (qp_next_ready points)).
  assert (in_flight (g b) = Some {| q_stream_id := si_stream_id (ts_info s); q_buffer_id := id;
            q_user_data := user_data; q_ready_point := qp_ready points;
            q_reuse_point := qp_reuse points |}) as Hfl by done.
  unfold has_capture_queue_capacity in Hcap. apply bool_decide_eq_true in Hcap.
  unfold MAX_OUTSTANDING_CAPTURE_REQUESTS in Hcap. rewrite Hl, filter_middle in Hcap.
  assert (is_queued b = false) as Hbq by (unfold is_queued; by rewrite Hidle).
  rewrite Hbq in Hcap. simpl in Hone, Hre. split.
  - split; cbn [active retired]; [by destruct Hone; [|right]| |done]. intros ? [= <-].
    split; rewrite ?Hl'; cbn [ts_info ts_capabilities buffer_mut with_buffers]; [done| | | | |].
    + rewrite Hl in Hbs. apply Forall_app in Hbs as [? Hbs]. inversion Hbs as [|? ? Hbo ?]; subst.
      apply Forall_app. split; [done|]. constructor; [|done]. destruct Hbo as [? _ ? ?].
      split; rewrite ?Hgid; [done| | |].
      * rewrite Hfl. intros ? [= <-]. simpl. split_and!; [done|done|]. unfold g.
        destruct (tb_synchronization b) eqn:Hs; [by subst points; simpl; rewrite Hs|].
        destruct Hp as [_ ->]. simpl. rewrite Hs. f_equal. lia.
      * unfold g. destruct (tb_synchronization b) eqn:Hs; [by subst points|].
        destruct Hp as [? ->]. simpl. lia.
      * unfold g. by destruct (qp_next_ready points).
    + rewrite Hl in Hids. rewrite fmap_app, fmap_cons in *. by rewrite Hgid.
    + rewrite Hl in Hud, Hu. rewrite user_datas_middle in *. rewrite Hfl.
      unfold in_flight in Hu. rewrite Hidle in Hu. simpl in *.
      assert (user_data ∉ user_datas (l1 ++ b :: l2)) as Hfresh.
      { intros Hin. apply not_true_iff_false in Hud. apply Hud. unfold user_datas in Hin.
        apply list_elem_of_omap in Hin as (x & Hx & Hxu). apply existsb_exists. exists x.
        split; [by apply list_elem_of_In|]. unfold uses_user_data.
        destruct (in_flight x); [|done]. injection Hxu as <-. apply Z.eqb_refl. }
      rewrite user_datas_middle in Hfresh. unfold in_flight in Hfresh. rewrite Hidle in Hfresh.
      simpl in Hfresh. rewrite elem_of_app in Hfresh. apply NoDup_app in Hu as (? & Hd & ?).
      apply NoDup_app. split_and!; [done| |apply NoDup_cons; split; [tauto|done]].
      intros x Hx1 [->|Hx2]%elem_of_cons; [tauto|]. by apply (Hd x).
    + rewrite filter_middle. assert (is_queued (g b) = true) as -> by done.
      unfold MAX_OUTSTANDING_CAPTURE_REQUESTS. lia.
    + rewrite Hl in Hlim. rewrite length_app in *. simpl in *. lia.
  - unfold owners_of. simpl. cbn [ts_buffers buffer_mut with_buffers] in Hl'.
    rewrite Hl', Hl, !fmap_app, !fmap_cons.
    replace (owner_of b) with (id, Idle) by (unfold owner_of; by rewrite Hidle, Hbid).
    replace (owner_of (g b)) with (id, Queued) by (unfold owner_of; by rewrite Hgid, Hbid).
    apply own_queue; apply no_queued; lia.
Qed.

Lemma frame_follows t event t' :
  record_frame t event = (t', Ok tt) -> follows (Some (CompletedOn (fe_stream_id event) (fe_buffer_id event))) t t'.
Proof.
  intros (sid & s & id & b & q & Hs & Hb & Hq & _ & _ & <- & <- & ->)%record_frame_inv Ht.
  set (f := fun b => with_state b (TCompleted {| cm_queue := q; cm_frame := event |})).
  destruct (move_buffer t sid s id b f Ht Hs Hb) with
    (s' := if frame_changes_mode event then with_stale (buffer_mut s id f) else buffer_mut s id f)
    as [Hok (runs & l1 & l2 & E1 & E2)]; try (by destruct (frame_changes_mode event)).
  - intros [? Hbq ? ?]. split; [done| |done|done]. intros q' Hq'. apply (Hbq q').
    unfold in_flight in *. simpl in Hq'. by rewrite Hq.
  - right. unfold in_flight. by rewrite Hq.
  - split; [done|]. rewrite E1, E2, Hq. apply own_complete.
Qed.

Lemma take_follows t sid s id b c :
  stream t sid = Some s -> buffer s id = Some b -> tb_state b = TCompleted c ->
  follows (Some (TakenFrom sid id)) t (set_stream t sid (buffer_mut s id (fun b => with_state b (TConsumerOwned c)))).
Proof.
  intros Hs Hb Hc Ht.
  destruct (move_buffer t sid s id b (fun b => with_state b (TConsumerOwned c)) Ht Hs Hb) with
    (s' := buffer_mut s id (fun b => with_state b (TConsumerOwned c)))
    as [Hok (runs & l1 & l2 & E1 & E2)]; try done.
  - intros [? Hbq ? ?]. split; [done| |done|done]. intros q' Hq'. apply (Hbq q').
    unfold in_flight in *. simpl in Hq'. by rewrite Hc.
  - right. unfold in_flight. by rewrite Hc.
  - split; [done|]. rewrite E1, E2, Hc. apply own_take.
Qed.

Lemma release_follows t sid s id b c point :
  stream t sid = Some s -> buffer s id = Some b -> tb_state b = TConsumerOwned c ->
  next_reuse_point b = Ok point ->
  follows (Some (ReleasedTo sid id)) t (set_stream t sid (buffer_mut s id (fun b =>
               with_state (match point with
                           | Some p => with_last_release b p | None => b end) TIdle))).
Proof.
  intros Hs Hb Hc Hp%next_reuse_inv Ht.
  set (f := fun b => with_state (match point with
                                 | Some p => with_last_release b p | None => b end) TIdle).
  destruct (move_buffer t sid s id b f Ht Hs Hb) with (s' := buffer_mut s id f)
    as [Hok (runs & l1 & l2 & E1 & E2)]; try done.
  - unfold f. by destruct point.
  - intros [? _ ? ?]. unfold f. split; simpl; [by destruct point|done|by destruct point|].
    destruct (tb_synchronization b); [by subst|]. destruct Hp as [? ->]. simpl. lia.
  - by left.
  - split; [done|]. rewrite E1, E2, Hc. apply own_release.
Qed.

Lemma cancel_follows a s q b :
  buffer s (q_buffer_id q) = Some b -> tb_state b = TQueued q ->
  follows (Some (CancelledOn (si_stream_id (ts_info s)) (q_buffer_id q))) {| active := a; retired := Some s |}
          {| active := a;
             retired := Some (buffer_mut s (q_buffer_id q) (fun b => with_state b TIdle)) |}.
Proof.
  intros Hb Hq Ht. pose proof Ht as [Hone _ _]. simpl in Hone. destruct Hone as [->|?]; [|done].
  assert (stream {| active := None; retired := Some s |} (si_stream_id (ts_info s)) = Some s) as Hstr
    by (unfold stream; simpl; unfold named; by rewrite Z.eqb_refl).
  destruct (move_buffer _ _ _ _ _ (fun b => with_state b TIdle) Ht Hstr Hb) with
    (s' := buffer_mut s (q_buffer_id q) (fun b => with_state b TIdle))
    as [Hok (runs & l1 & l2 & E1 & E2)]; try done; [by intros [? ? ? ?]|by left|].
  split; [done|]. unfold set_stream in E2. simpl in E2. rewrite E1, E2, Hq.
  unfold owners_of in E1. simpl in E1. injection E1 as <- _. apply own_cancel.
Qed.

Lemma finish_follows a s :
  existsb is_busy (ts_buffers s) = false ->
  follows (Some (Finished (si_stream_id (ts_info s)))) {| active := a; retired := Some s |}
    {| active := a; retired := None |}.
Proof.
  intros Hb [Hone _ Hre]. simpl in Hone. destruct Hone as [->|?]; [|done].
  split; [by split; simpl; [left| |]|]. apply own_finish.
  apply Forall_fmap, Forall_forall. intros x Hx. unfold compose, owner_of. simpl.
  apply not_true_iff_false in Hb.
  destruct (decide (state_public (tb_state x) = Idle)) as [?|Hn]; [done|].
  destruct Hb. apply existsb_exists. exists x. split; [by apply list_elem_of_In|].
  unfold is_busy. by rewrite bool_decide_eq_false_2.
Qed.

Lemma lstep_follows a t t' : lstep a t t' -> follows a t t'.
Proof.
  destruct 1; eauto using start_follows, retire_follows, stale_follows, register_follows,
    own_buffer_follows, remove_follows, queue_follows, frame_follows, take_follows,
    release_follows, cancel_follows, finish_follows.
Qed.

Lemma tsteps_follow t t' : rtc tstep t t' -> tracker_ok t -> tracker_ok t'.
Proof. induction 1 as [|t t1 t2 [a H1] _ IH]; [done|]. intros Ht. by apply IH, (lstep_follows _ _ _ H1). Qed.

(** ** Every operation is a sequence of tracker transitions *)

(** The private kernel resources of a buffer: its two syncobjs, and its
    framebuffer and GEM handle when the client allocated them. *)
Inductive resource := RSyncobj (h : Z) | RGem (h : Z) | RFramebuffer (id : Z).

Definition sync_resources (sync : TrackedSynchronization) : list resource :=
  match sync with
  | TImplicit => []
  | TExplicit p => [RSyncobj (sp_ready_handle p); RSyncobj (sp_reuse_handle p)]
  end.
Definition buffer_resources (b : TrackedBuffer) : list resource :=
  sync_resources (tb_synchronization b) ++
  match tb_owned_framebuffer b with
  | Some o => [RFramebuffer (tb_framebuffer_id b); RGem (of_gem_handle o)]
  | None => []
  end.
Definition stream_resources (s : TrackedStream) : list resource :=
  concat (buffer_resources <$> ts_buffers s).
Definition owned (t : CaptureTracker) : list resource :=
  concat (stream_resources <$> option_list (active t)) ++
  concat (stream_resources <$> option_list (retired t)).

(** A transition that keeps the resources the tracker owns. *)
Definition nlstep (a : option own_action) (t t' : CaptureTracker) : Prop := lstep a t t' /\ owned t' = owned t.

Definition nstep (t t' : CaptureTracker) : Prop := exists a, nlstep a t t'.

Definition reaches (R : relation CaptureTracker) (t : CaptureTracker) (s : capture_state) : Prop :=
  rtc R t (cs_tracker s).

(** *** Transitions that keep the owned resources *)

Lemma update_first_resources id f l :
  (forall b, buffer_resources (f b) = buffer_resources b) ->
  buffer_resources <$> update_first id f l = buffer_resources <$> l.
Proof.
  intros Hf. induction l as [|b l IH]; [done|]. simpl.
  destruct (tb_id b =? id); simpl; [by rewrite Hf|]. f_equal. exact IH.
Qed.

Lemma buffer_mut_resources s id f :
  (forall b, buffer_resources (f b) = buffer_resources b) ->
  stream_resources (buffer_mut s id f) = stream_resources s.
Proof. intros Hf. unfold stream_resources. simpl. by rewrite update_first_resources. Qed.

Lemma set_stream_owned t id s s' :
  stream t id = Some s -> stream_resources s' = stream_resources s ->
  owned (set_stream t id s') = owned t.
Proof.
  intros [[Ha Hn]|(Hk & Hr & Hn)]%stream_cases Hs; unfold set_stream, owned.
  - rewrite Ha. simpl. rewrite Hn. simpl. by rewrite Hs.
  - rewrite Hk, Hr. simpl. by rewrite Hs.
Qed.

Lemma nl_start info caps :
  si_stream_id info <> 0 -> si_mode_generation info <> 0 ->
  nlstep (Some (Started (si_stream_id info))) {| active := None; retired := None |}
        {| active := Some {| ts_info := info; ts_capabilities := caps; ts_stale := false;
                             ts_buffers := [] |}; retired := None |}.
Proof. intros. split; [by apply l_start|done]. Qed.

Lemma nl_retire t t' n : retire_active t = Ok (t', n) -> nlstep (Some Stopped) t t'.
Proof.
  intros Hr. split; [by eapply l_retire|]. unfold retire_active in Hr.
  destruct (active t) as [s|] eqn:Ha; [|done]. destruct (retired t) eqn:Hre; [done|].
  injection Hr as <- <-. unfold owned. rewrite Ha, Hre. simpl.
  case_bool_decide as He; simpl; rewrite !app_nil_r; [|done].
  unfold stream_resources. by rewrite He.
Qed.

Lemma nl_stale s r :
  nlstep None {| active := Some s; retired := r |} {| active := Some (with_stale s); retired := r |}.
Proof. split; [apply l_stale|done]. Qed.

Lemma nl_queue s r id b points user_data :
  ts_stale s = false -> has_capture_queue_capacity s = true ->
  existsb (uses_user_data user_data) (ts_buffers s) = false ->
  buffer s id = Some b -> tb_state b = TIdle -> queue_points b = Ok points ->
  nlstep (Some (QueuedFor id)) {| active := Some s; retired := r |}
        {| active := Some (buffer_mut s id (fun b =>
             with_state (match qp_next_ready points with
                         | Some p => with_next_ready b p | None => b end)
               (TQueued {| q_stream_id := si_stream_id (ts_info s); q_buffer_id := id;
                           q_user_data := user_data; q_ready_point := qp_ready points;
                           q_reuse_point := qp_reuse points |}))); retired := r |}.
Proof.
  intros. split; [by eapply l_queue|]. unfold owned. simpl. rewrite buffer_mut_resources; [done|].
  intros x. by destruct (qp_next_ready points).
Qed.

Lemma nl_frame t event t' : record_frame t event = (t', Ok tt) -> nlstep (Some (CompletedOn (fe_stream_id event) (fe_buffer_id event))) t t'.
Proof.
  intros Hf. split; [by eapply l_frame|].
  apply record_frame_inv in Hf as (sid & s & id & b & q & Hs & _ & _ & _ & _ & _ & _ & ->).
  apply (set_stream_owned t sid s); [done|].
  transitivity (stream_resources (buffer_mut s id (fun b =>
    with_state b (TCompleted {| cm_queue := q; cm_frame := event |})))); [by case_match|].
  by apply buffer_mut_resources.
Qed.

Lemma nl_take t stream_id s id b c :
  stream t stream_id = Some s -> buffer s id = Some b -> tb_state b = TCompleted c ->
  nlstep (Some (TakenFrom stream_id id)) t (set_stream t stream_id (buffer_mut s id (fun b => with_state b (TConsumerOwned c)))).
Proof.
  intros. split; [by eapply l_take|]. apply (set_stream_owned _ _ s); [done|].
  by apply buffer_mut_resources.
Qed.

Lemma nl_release t stream_id s id b c point :
  stream t stream_id = Some s -> buffer s id = Some b -> tb_state b = TConsumerOwned c ->
  next_reuse_point b = Ok point ->
  nlstep (Some (ReleasedTo stream_id id)) t (set_stream t stream_id (buffer_mut s id (fun b =>
             with_state (match point with
                         | Some p => with_last_release b p | None => b end) TIdle))).
Proof.
  intros. split; [by eapply l_release|]. apply (set_stream_owned _ _ s); [done|].
  apply buffer_mut_resources. intros x. by destruct point.
Qed.

Lemma nl_cancel a s q b :
  buffer s (q_buffer_id q) = Some b -> tb_state b = TQueued q ->
  nlstep (Some (CancelledOn (si_stream_id (ts_info s)) (q_buffer_id q))) {| active := a; retired := Some s |}
        {| active := a;
           retired := Some (buffer_mut s (q_buffer_id q) (fun b => with_state b TIdle)) |}.
Proof.
  intros. split; [by eapply l_cancel|]. unfold owned. simpl. by rewrite buffer_mut_resources.
Qed.

Lemma n_retire t t' n : retire_active t = Ok (t', n) -> nstep t t'.
Proof. intros Hr. eexists. by eapply nl_retire. Qed.

Lemma n_stale s r :
  nstep {| active := Some s; retired := r |} {| active := Some (with_stale s); retired := r |}.
Proof. eexists. apply nl_stale. Qed.

Lemma nsteps_tsteps t s : reaches nstep t s -> reaches tstep t s.
Proof. unfold reaches. apply rtc_subrel. intros ? ? [a [? _]]. by exists a. Qed.

Lemma nsteps_owned t s : reaches nstep t s -> owned (cs_tracker s) = owned t.
Proof. unfold reaches. induction 1 as [|t t1 t2 [a [_ H1]] _ IH]; congruence. Qed.

(** What an operation did: an action that is one transition of the tracker, or
    none, when only a stream may have become stale. *)
Definition did_as (a : option own_action) (t : CaptureTracker) (s : capture_state) : Prop :=
  match a with Some _ => nlstep a t (cs_tracker s) | None => reaches (nlstep None) t s end.

Definition acts {A} (P : option own_action -> Prop) (m : M A) (s : capture_state) : Prop :=
  wp m (fun _ s' => exists a, P a /\ did_as a (cs_tracker s) s') (reaches (nlstep None) (cs_tracker s)) s.

Lemma stills_nsteps t s : reaches (nlstep None) t s -> reaches nstep t s.
Proof. unfold reaches. apply rtc_subrel. intros ? ? H. by exists None. Qed.

Lemma did_nsteps a t s : did_as a t s -> reaches nstep t s.
Proof. destruct a as [a|]; [|apply stills_nsteps]. intros H. apply rtc_once. by exists (Some a). Qed.

Lemma acts_nsteps {A} P (m : M A) s :
  acts P m s -> wp m (fun _ => reaches nstep (cs_tracker s)) (reaches nstep (cs_tracker s)) s.
Proof. intros H. eapply wp_weaken; [exact H|intros _ s' (a & _ & Ha); by eapply did_nsteps|apply stills_nsteps]. Qed.

(** *** Transitions of an allocation

    They use no buffer, and the active stream they leave is the one they found. *)

Definition unused (t : CaptureTracker) : Prop :=
  forall s b, active t = Some s \/ retired t = Some s -> b ∈ ts_buffers s -> tb_state b = TIdle.

Definition same_active (t t' : CaptureTracker) : Prop :=
  forall s', active t' = Some s' -> exists s, active t = Some s /\ ts_info s' = ts_info s.

Definition astep (t t' : CaptureTracker) : Prop :=
  tstep t t' /\ (unused t -> unused t') /\ same_active t t'.

Lemma same_active_refl t : same_active t t.
Proof. intros s Hs. by exists s. Qed.

Lemma same_active_trans t1 t2 t3 : same_active t1 t2 -> same_active t2 t3 -> same_active t1 t3.
Proof. intros H1 H2 s (s2 & Hs2 & ->)%H2. by apply H1. Qed.

Lemma a_retire t t' n : retire_active t = Ok (t', n) -> astep t t'.
Proof.
  intros Hr. split; [eexists; by eapply l_retire|]. unfold retire_active in Hr.
  destruct (active t) as [s|] eqn:Ha; [|done]. destruct (retired t) eqn:Hre; [done|].
  injection Hr as <- <-. split; [|done]. intros Hu s' b [?|Hs] Hb; [done|]. simpl in Hs.
  case_bool_decide; [done|]. injection Hs as <-. eauto.
Qed.

Lemma a_stale s r :
  astep {| active := Some s; retired := r |} {| active := Some (with_stale s); retired := r |}.
Proof.
  split; [eexists; apply l_stale|]. split.
  - intros Hu s' b [Hs|Hs] Hb; [injection Hs as <-; by apply (Hu s b); [left|]|eauto].
  - intros s' Hs. injection Hs as <-. by exists s.
Qed.

Lemma a_register s r b :
  ts_stale s = false ->
  Z.of_nat (length (ts_buffers s)) < max_registered_buffers (ts_capabilities s) ->
  tb_id b <> 0 -> existsb (fun x => tb_id x =? tb_id b) (ts_buffers s) = false ->
  tb_state b = TIdle -> tb_next_ready_point b = 1 -> tb_last_release_point b = 0 ->
  astep {| active := Some s; retired := r |}
        {| active := Some (with_buffers s (ts_buffers s ++ [b])); retired := r |}.
Proof.
  intros. split; [eexists; by apply l_register|]. split.
  - intros Hu s' b' [Hs|Hs] Hb; [|eauto]. injection Hs as <-. simpl in Hb.
    apply elem_of_app in Hb as [Hb|Hb]; [by apply (Hu s b'); [left|]|].
    by apply list_elem_of_singleton in Hb as ->.
  - intros s' Hs. injection Hs as <-. by exists s.
Qed.

Lemma a_own s r id o :
  astep {| active := Some s; retired := r |}
        {| active := Some (buffer_mut s id (fun b => with_owned b o)); retired := r |}.
Proof.
  split; [eexists; apply l_own|]. split.
  - intros Hu s' b [Hs|Hs] Hb; [|eauto]. injection Hs as <-.
    assert (forall x, x ∈ ts_buffers s -> tb_state x = TIdle) as Hi by (intros; eapply Hu; eauto).
    clear Hu. simpl in Hb. revert Hi Hb. induction (ts_buffers s) as [|x l IH]; simpl; intros Hi Hb; [set_solver|].
    destruct (tb_id x =? id); apply elem_of_cons in Hb as [->|Hb]; simpl;
      [apply Hi; left|apply Hi; by right|apply Hi; left|apply IH; [set_solver|done]].
  - intros s' Hs. injection Hs as <-. by exists s.
Qed.

(** What a registration that fails may have done: the stream is stale, or gone. *)
Definition dstep (t t' : CaptureTracker) : Prop := astep t t' /\ (lstep None t t' \/ lstep (Some Stopped) t t').

Lemma d_retire t t' n : retire_active t = Ok (t', n) -> dstep t t'.
Proof. intros Hr. split; [by eapply a_retire|right; by eapply l_retire]. Qed.

Lemma d_stale s r :
  dstep {| active := Some s; retired := r |} {| active := Some (with_stale s); retired := r |}.
Proof. split; [apply a_stale|left; apply l_stale]. Qed.

Lemma dstep_active t t' : dstep t t' -> active t <> None.
Proof. intros [_ [H|H]]; inversion H as [|? ? n Hr| | | | | | | | | |]; try done. intros E. unfold retire_active in Hr. by rewrite E in Hr. Qed.

Lemma dsteps_took t t' : rtc dstep t t' -> tracker_ok t ->
  exists a, (a = None \/ a = Some Stopped) /\ took a (owners_of t) (owners_of t').
Proof.
  induction 1 as [t|t t1 t2 H1 H2 IH]; intros Ht; [exists None; by split; [left|]|].
  destruct H1 as [_ [H1|H1]]; destruct (lstep_follows _ _ _ H1 Ht) as [Ht1 Ho].
  - destruct (IH Ht1) as (a & Ha & Hto). exists a. split; [done|]. cbn in Ho. by rewrite <- Ho.
  - exists (Some Stopped). split; [by right|]. inversion H1 as [|? ? n Hr| | | | | | | | | |]; subst.
    assert (active t1 = None) as Hn.
    { unfold retire_active in Hr. by destruct (active t), (retired t); simplify_eq. }
    destruct H2 as [|t1 t2 t3 H2 _]; [done|]. by apply dstep_active in H2.
Qed.

Lemma dsteps_asteps t s : reaches dstep t s -> reaches astep t s.
Proof. unfold reaches. apply rtc_subrel. by intros ? ? [? _]. Qed.

(** The transition an operation makes when it makes one. *)
Definition from (a : own_action) (t x y : CaptureTracker) : Prop := x = t /\ lstep (Some a) t y.

Lemma from_once a t s : reaches (from a t) t s -> cs_tracker s = t \/ lstep (Some a) t (cs_tracker s).
Proof. unfold reaches. intros [->|(x & _ & _ & H)]%rtc_inv_r; [by left|by right]. Qed.

Lemma froms_tsteps a t t0 s : reaches (from a t) t0 s -> reaches tstep t0 s.
Proof. unfold reaches. apply rtc_subrel. intros ? ? [-> H]. by exists (Some a). Qed.

Lemma asteps_tsteps t s : reaches astep t s -> reaches tstep t s.
Proof. unfold reaches. apply rtc_subrel. by intros ? ? [? _]. Qed.

Lemma asteps_allocate t s : reaches astep t s ->
  (unused t -> unused (cs_tracker s)) /\ same_active t (cs_tracker s).
Proof.
  unfold reaches. induction 1 as [t|t t1 t2 (_ & Hu & Hs) _ [IHu IHs]]; [by split; [|apply same_active_refl]|].
  split; [auto|]. by eapply same_active_trans.
Qed.

Lemma reaches_refl {R : relation CaptureTracker} s : reaches R (cs_tracker s) s.
Proof. apply rtc_refl. Qed.

Lemma reaches_same {R : relation CaptureTracker} t s : cs_tracker s = t -> reaches R t s.
Proof. intros <-. apply rtc_refl. Qed.

(** A quiet computation before the rest of an operation that has not changed
    the tracker yet. *)
Lemma wp_bind_quiet {R : relation CaptureTracker} {A B} (m : M A) (k : A -> M B) Q t s :
  quiet m -> cs_tracker s = t ->
  (forall a s', cs_tracker s' = t -> wp (k a) Q (reaches R t) s') ->
  wp (mbind m k) Q (reaches R t) s.
Proof.
  intros Hq Hs Hk. apply wp_bind, wp_quiet; [done| |].
  - intros a s' Hs'. apply Hk. congruence.
  - intros s' Hs'. apply reaches_same. congruence.
Qed.

(** The same for a check that gives a fact. *)
Lemma wp_bind_reject {R : relation CaptureTracker} {B} (c : bool) e (k : unit -> M B) Q t s :
  cs_tracker s = t -> (c = false -> wp (k tt) Q (reaches R t) s) ->
  wp (mbind (lift (reject c e)) k) Q (reaches R t) s.
Proof. intros Hs Hk. apply wp_bind, wp_reject; [by apply reaches_same|done]. Qed.

Lemma wp_bind_ok_or {R : relation CaptureTracker} {A B} (o : option A) e (k : A -> M B) Q t s :
  cs_tracker s = t -> (forall a, o = Some a -> wp (k a) Q (reaches R t) s) ->
  wp (mbind (lift (ok_or o e)) k) Q (reaches R t) s.
Proof. intros Hs Hk. apply wp_bind, wp_ok_or; [by apply reaches_same|done]. Qed.

Lemma wp_bind_tracker {B} (k : CaptureTracker -> M B) Q E t s :
  cs_tracker s = t -> wp (k t) Q E s -> wp (mbind tracker k) Q E s.
Proof. intros <- Hk. by apply wp_bind, wp_tracker. Qed.

Lemma wp_bind_lift {R : relation CaptureTracker} {A B} (o : outcome CaptureError A) (k : A -> M B) Q t s :
  o <> Panic -> cs_tracker s = t -> (forall a, o = Ok a -> wp (k a) Q (reaches R t) s) ->
  wp (mbind (lift o) k) Q (reaches R t) s.
Proof. intros Ho Hs Hk. apply wp_bind, wp_lift; [done|done|by apply reaches_same]. Qed.

(** A quiet computation after the tracker was changed. *)
Lemma wp_after {R : relation CaptureTracker} {A} (m : M A) t s :
  quiet m -> reaches R t s -> wp m (fun _ => reaches R t) (reaches R t) s.
Proof.
  intros Hq Hr. apply wp_quiet; [done| |]; unfold reaches; intros; by match goal with
    H : cs_tracker _ = _ |- _ => rewrite H end.
Qed.

Lemma wp_forget {R : relation CaptureTracker} {A} (m : M A) t s :
  wp m (fun _ => reaches R t) (reaches R t) s -> wp (forget m) (fun _ => reaches R t) (reaches R t) s.
Proof. intros H. apply wp_bind. eapply wp_weaken; [exact H|done|done]. Qed.

(** A quiet computation that ends in an error. *)
Lemma wp_quiet_raise {R : relation CaptureTracker} {A B} (m : M A) e (Q : B -> _ -> Prop) t s :
  quiet m -> cs_tracker s = t -> wp (do! m; raise e) Q (reaches R t) s.
Proof.
  intros Hq Hs. apply wp_bind_quiet; [done|done|]. intros a s' Hs'. apply wp_raise. by apply reaches_same.
Qed.

(** The last change of an operation. *)
Lemma did_once a t s : nlstep (Some a) t (cs_tracker s) -> exists b, b = Some a /\ did_as b t s.
Proof. intros H. by exists (Some a). Qed.

(** The release of resources after the last change, which may fail, and the result. *)
Lemma quiet_end {A} a (m : M (option CaptureError)) (v : A) t s :
  quiet m -> lstep (Some a) t (cs_tracker s) ->
  wp (let! e := m in do! fail_with e; mret v) (fun _ s' => lstep (Some a) t (cs_tracker s')) (reaches (from a t) t) s.
Proof.
  intros Hq Hl. assert (He : forall s', cs_tracker s' = cs_tracker s -> reaches (from a t) t s').
  { intros s' Hs. apply rtc_once. by rewrite Hs. }
  apply wp_bind, wp_quiet; [done|intros e y Hy|by intros y Hy; apply He].
  apply wp_bind, wp_quiet; [auto with quiet|intros v' x Hx; apply wp_ret; by rewrite Hx, Hy|].
  intros x Hx. apply He. congruence.
Qed.

Ltac wq := apply wp_bind_quiet; [auto 10 with quiet|assumption|intros ? ? ?].
Tactic Notation "wqn" ident(x) := apply wp_bind_quiet; [auto 10 with quiet|assumption|intros x ? ?].
Ltac wif H := match goal with |- wp (if ?c then _ else _) _ _ _ => destruct c eqn:H end.
(** The rest of the operation leaves the tracker as it is. *)
Ltac wend := apply wp_after; [auto 20 with quiet|first [assumption|by apply reaches_same]].
Ltac wrej H := apply wp_bind_reject; [assumption|intros H].

Section Operations.
Context `{K : CaptureKernel} (lease : GrantLease).

Lemma wp_active_stream {R : relation CaptureTracker} {B} (k : TrackedStream -> M B) Q t s :
  cs_tracker s = t -> (forall st, active t = Some st -> wp (k st) Q (reaches R t) s) ->
  wp (mbind active_stream k) Q (reaches R t) s.
Proof.
  intros Hs Hk. apply wp_bind. unfold active_stream. apply (wp_bind_tracker _ _ _ t); [done|].
  apply wp_ok_or; [by apply reaches_same|done].
Qed.

Lemma wp_expect_active {B} (k : TrackedStream -> M B) Q E t st s :
  cs_tracker s = t -> active t = Some st -> wp (k st) Q E s -> wp (mbind expect_active k) Q E s.
Proof.
  intros Hs Ha Hk. apply wp_bind. unfold expect_active. apply (wp_bind_tracker _ _ _ t); [done|].
  by eapply wp_expect.
Qed.

Lemma wp_put_active {B} st (k : unit -> M B) Q E t s :
  cs_tracker s = t ->
  (forall s', cs_tracker s' = {| active := Some st; retired := retired t |} -> wp (k tt) Q E s') ->
  wp (mbind (put_active st) k) Q E s.
Proof.
  intros Hs Hk. apply wp_bind. unfold put_active. apply (wp_bind_tracker _ _ _ t); [done|].
  apply wp_set_tracker. by apply Hk.
Qed.

Lemma wp_retire {B} (k : nat -> M B) Q E t s :
  cs_tracker s = t -> tracker_ok t -> is_Some (active t) ->
  (forall n s' t', retire_active t = Ok (t', n) -> cs_tracker s' = t' -> wp (k n) Q E s') ->
  wp (mbind retire k) Q E s.
Proof.
  intros Hs Ht [st Ha] Hk. apply wp_bind. unfold retire. apply (wp_bind_tracker _ _ _ t); [done|].
  assert (retired t = None) as Hr by (destruct (to_one _ Ht); [congruence|done]).
  assert (exists t' n, retire_active t = Ok (t', n)) as (t' & n & Hra).
  { unfold retire_active. rewrite Ha, Hr. by do 2 eexists. }
  rewrite Hra. apply wp_bind. unfold wp, lift. apply wp_bind, wp_set_tracker, wp_ret.
  by eapply Hk.
Qed.

Lemma start_acts caps mode s : acts (fun a => exists id, a = Some (Started id)) (start_capture lease caps mode) s.
Proof.
  unfold acts. remember (cs_tracker s) as t eqn:Hs. symmetry in Hs. unfold start_capture.
  apply (wp_bind_tracker _ _ _ t); [done|]. wrej Ha. wrej Hr.
  assert (t = {| active := None; retired := None |}) as Ht.
  { breflect. destruct t as [[a|] [r|]]; simpl in *; try done; exfalso; eauto. }
  wq. wq. wq. wrej Hact. wqn mode3. destruct mode3 as [[w h] hz]. wq. wqn out.
  wif Hc; [apply wp_quiet_raise; [auto with quiet|done]|].
  apply wp_bind_ok_or; [done|]. intros sid [-> Hsid]%nonzero_some.
  destruct (nonzero (cs_mode_generation out)) as [g|] eqn:Hg; [|apply wp_quiet_raise; [auto with quiet|done]].
  apply nonzero_some in Hg as [-> Hg].
  eapply wp_put_active; [done|]. intros z Hz. apply wp_ret.
  eexists (Some (Started _)). split; [by eexists|]. cbn [did_as]. rewrite Hz, Ht. by apply nl_start.
Qed.

Lemma wp_start caps mode s :
  wp (start_capture lease caps mode) (fun _ => reaches nstep (cs_tracker s)) (reaches nstep (cs_tracker s)) s.
Proof. by eapply acts_nsteps, start_acts. Qed.

Lemma retire_acts {B} (v : nat -> B) t s :
  cs_tracker s = t -> tracker_ok t -> is_Some (active t) ->
  wp (let! n := retire in mret (v n)) (fun _ s' => exists a, a = Some Stopped /\ did_as a t s')
    (reaches (nlstep None) t) s.
Proof.
  intros Hs Ht Ha. eapply wp_retire; [done..|]. intros n z t' Hr Hz. apply wp_ret.
  apply did_once. rewrite Hz. by eapply nl_retire.
Qed.

Lemma stop_acts s : tracker_ok (cs_tracker s) -> acts (fun a => a = Some Stopped) stop_capture s.
Proof.
  unfold acts. remember (cs_tracker s) as t eqn:Hs. symmetry in Hs. intros Ht. unfold stop_capture.
  apply wp_active_stream; [done|]. intros st Ha. wq. wq. apply retire_acts; [done..|by eexists].
Qed.

Lemma wp_stop s : tracker_ok (cs_tracker s) ->
  wp stop_capture (fun _ => reaches nstep (cs_tracker s)) (reaches nstep (cs_tracker s)) s.
Proof. intros Ht. by eapply acts_nsteps, stop_acts. Qed.

Lemma retire_invalidated_acts s :
  tracker_ok (cs_tracker s) -> acts (fun a => a = Some Stopped) retire_invalidated_capture s.
Proof.
  unfold acts. remember (cs_tracker s) as t eqn:Hs. symmetry in Hs. intros Ht.
  unfold retire_invalidated_capture. apply wp_active_stream; [done|]. intros st Ha.
  apply retire_acts; [done..|by eexists].
Qed.

Lemma wp_retire_invalidated s : tracker_ok (cs_tracker s) ->
  wp retire_invalidated_capture (fun _ => reaches nstep (cs_tracker s)) (reaches nstep (cs_tracker s)) s.
Proof. intros Ht. by eapply acts_nsteps, retire_invalidated_acts. Qed.

Lemma evidence_no_panic g e : validate_grant_state_evidence g e <> Panic.
Proof.
  unfold validate_grant_state_evidence. destruct e as [|e|n]; [done| |by case_match].
  destruct (negb _); [done|]. cbn [reject obind]. destruct (gse_state e); cbn [obind]; try done;
    by destruct (negb _).
Qed.

Lemma reconcile_acts evidence s : tracker_ok (cs_tracker s) ->
  acts (fun a => a = None \/ a = Some Stopped) (reconcile_grant_state lease evidence) s.
Proof.
  unfold acts. remember (cs_tracker s) as t eqn:Hs. symmetry in Hs. intros Ht. unfold reconcile_grant_state.
  apply wp_bind_lift; [apply evidence_no_panic|done|]. intros _ _.
  wq. apply (wp_bind_tracker _ _ _ t); [done|]. apply wp_bind.
  set (Q := fun z => exists a, (a = None \/ a = Some Stopped) /\ did_as a t z).
  eapply (wp_weaken _ (fun _ => Q)); [|intros ? ? ?; by apply wp_ret|done].
  assert (Hsame : forall z, cs_tracker z = t -> Q z).
  { intros z Hz. exists None. split; [by left|]. by apply reaches_same. }
  destruct (active t) as [st|] eqn:Ha; [|destruct (retired t); apply wp_ret; by apply Hsame].
  destruct (capture_restart_required _ _); [|apply wp_ret; by apply Hsame].
  apply wp_bind. eapply (wp_weaken _ (fun _ z => exists a, a = Some Stopped /\ did_as a t z));
    [|intros ? ? (b & -> & ?); apply wp_ret; exists (Some Stopped); by split; [right|]|done].
  rewrite <- H. destruct (is_terminal _); [apply retire_invalidated_acts|apply stop_acts]; by rewrite H.
Qed.

Lemma wp_reconcile evidence s : tracker_ok (cs_tracker s) ->
  wp (reconcile_grant_state lease evidence) (fun _ => reaches nstep (cs_tracker s))
     (reaches nstep (cs_tracker s)) s.
Proof. intros Ht. by eapply acts_nsteps, reconcile_acts. Qed.

Lemma limit_no_wrap st : stream_ok st ->
  (max_registered_buffers (ts_capabilities st) <=? wrap 32 (Z.of_nat (length (ts_buffers st)))) = false ->
  Z.of_nat (length (ts_buffers st)) < max_registered_buffers (ts_capabilities st).
Proof.
  intros Hok Hl. breflect. pose proof (so_limit _ Hok) as Hlim.
  unfold max_registered_buffers, MAX_TRACKED_CAPTURE_BUFFERS in *.
  rewrite wrap_id in Hl by (unfold uint; lia). done.
Qed.

Lemma wp_abandon {A} stream_id sync e (Q : A -> capture_state -> Prop) t s :
  cs_tracker s = t -> tracker_ok t -> is_Some (active t) ->
  wp (abandon_registration stream_id sync e) Q (reaches dstep t) s.
Proof.
  intros Hs Ht Ha. unfold abandon_registration. wq.
  eapply wp_retire; [done|done|done|]. intros n z t' Hr Hz.
  apply wp_bind, wp_quiet; [auto with quiet| |]; intros;
    [apply wp_raise|]; unfold reaches;
    match goal with E : cs_tracker ?x = cs_tracker z |- context [?x] => rewrite E, Hz end;
    by eapply rtc_once, d_retire.
Qed.

(** After an [ESTALE] the stream is stale; the pair is released either way. *)
Lemma wp_stale_raise {A} (Q : A -> capture_state -> Prop) errno sid e (k : M unit) t s :
  cs_tracker s = t -> quiet k ->
  wp (do! (if errno =? ESTALE then
             let! t := tracker in set_tracker (mark_active_stale t sid)
           else mret tt); do! k; raise e) Q (reaches dstep t) s.
Proof.
  intros Hs Hk. apply wp_bind. destruct (errno =? ESTALE).
  - apply (wp_bind_tracker _ _ _ t); [done|]. apply wp_set_tracker.
    assert (rtc dstep t (mark_active_stale t sid)) as Hr.
    { unfold mark_active_stale. destruct t as [[st|] r]; simpl; [|apply rtc_refl].
      destruct (named sid st); [|apply rtc_refl]. by apply rtc_once, d_stale. }
    apply wp_bind, wp_quiet; [done| |]; intros; [apply wp_raise|]; unfold reaches;
      match goal with E : cs_tracker ?x = _ |- context [cs_tracker ?x] => by rewrite E end.
  - apply wp_ret. apply wp_bind, wp_quiet; [done| |]; intros; [apply wp_raise|];
      apply reaches_same; congruence.
Qed.

(** The active stream has the registered buffer, over this framebuffer. *)
Definition registered (fb : Z) (info : CaptureBufferInfo) (s : capture_state) : Prop :=
  exists st b, active (cs_tracker s) = Some st /\ buffer st (bi_buffer_id info) = Some b /\
    tb_framebuffer_id b = fb /\ tb_owned_framebuffer b = None.

Lemma buffer_app_new s b : existsb (fun x => tb_id x =? tb_id b) (ts_buffers s) = false ->
  buffer (with_buffers s (ts_buffers s ++ [b])) (tb_id b) = Some b.
Proof.
  unfold buffer. simpl. induction (ts_buffers s) as [|x l IH]; simpl; [by rewrite Z.eqb_refl|].
  intros [Hx Hl]%orb_false_iff. rewrite Hx. auto.
Qed.

Lemma wp_register fb sync s : tracker_ok (cs_tracker s) ->
  wp (register_capture_buffer fb sync)
     (fun info s' => (astep (cs_tracker s) (cs_tracker s') /\
        lstep (Some (Registered (bi_buffer_id info))) (cs_tracker s) (cs_tracker s')) /\ registered fb info s')
     (reaches dstep (cs_tracker s)) s.
Proof.
  remember (cs_tracker s) as t eqn:Hs. symmetry in Hs. intros Ht. unfold register_capture_buffer.
  apply wp_active_stream; [done|]. intros st Ha. wrej Hst. wrej Hlim.
  apply limit_no_wrap in Hlim; [|by eapply to_active].
  apply wp_bind_quiet; [destruct sync; auto 10 with quiet|done|]. intros ts z1 Hz1.
  destruct (match ts with TImplicit => _ | TExplicit p => _ end) as [[flags ready] reuse].
  wqn r. destruct r as [out|errno].
  2: { apply wp_stale_raise; [done|auto with quiet]. }
  destruct (nonzero (rb_buffer_id out)) as [id|] eqn:Hid; [|eapply wp_abandon; [done..|by eexists]].
  apply nonzero_some in Hid as [-> Hid].
  wif Hc; [eapply wp_abandon; [done..|by eexists]|].
  eapply wp_expect_active; [done|done|]. wif Hdup; [eapply wp_abandon; [done..|by eexists]|].
  eapply wp_put_active; [done|]. intros z Hz. apply wp_ret. split.
  - rewrite Hz. destruct t as [a r]. simpl in *. subst a. split; [by apply a_register|].
    match goal with |- lstep _ _ {| active := Some (with_buffers _ (_ ++ [?b])); retired := _ |} =>
      by apply (l_register st r b) end.
  - unfold registered. rewrite Hz. cbn [active bi_buffer_id]. do 2 eexists. split; [done|].
    match goal with |- buffer (with_buffers _ (_ ++ [?b])) _ = _ /\ _ =>
      split; [apply (buffer_app_new st b); exact Hdup|done] end.
Qed.

Lemma dumb_nonzero info dumb h : validate_dumb_allocation info dumb = Ok h ->
  nonzero (cd_pitch dumb) = Some (cd_pitch dumb) /\ nonzero (cd_size dumb) = Some (cd_size dumb).
Proof.
  unfold validate_dumb_allocation. intros H. ok_inv.
  repeat match goal with E : nonzero _ = Some _ |- _ => apply nonzero_some in E as [-> ?] end.
  by rewrite !nonzero_ne.
Qed.

Lemma dumb_no_panic info dumb : validate_dumb_allocation info dumb <> Panic.
Proof.
  unfold validate_dumb_allocation.
  repeat first [ match goal with |- context [reject ?c _] => destruct c; cbn [reject obind]; [done|] end
               | match goal with |- context [ok_or ?o _] => destruct o; cbn [ok_or obind]; [|done] end ].
  done.
Qed.

Lemma framebuffer_no_panic fb layout h : validate_framebuffer_result fb layout h <> Panic.
Proof.
  unfold validate_framebuffer_result. destruct (_ || _); cbn [reject obind]; [done|].
  by destruct (nonzero _).
Qed.

Lemma allocate_acts sync s : tracker_ok (cs_tracker s) ->
  wp (allocate_linear_xrgb8888_buffer sync) (fun _ s' => reaches astep (cs_tracker s) s' /\
       exists id t', lstep (Some (Registered id)) (cs_tracker s) t' /\ lstep None t' (cs_tracker s'))
     (reaches dstep (cs_tracker s)) s.
Proof.
  remember (cs_tracker s) as t eqn:Hs. symmetry in Hs. intros Ht.
  unfold allocate_linear_xrgb8888_buffer. apply wp_active_stream; [done|]. intros st Ha.
  wrej Hst. wrej Hlim. wrej Hfmt. wq. wqn dumb.
  apply wp_bind, wp_or_unwind, wp_lift; [apply dumb_no_panic| |wend].
  intros gem Hgem. destruct (dumb_nonzero _ _ _ Hgem) as [Hp Hsz].
  apply wp_bind. eapply wp_expect; [done|]. apply wp_bind. eapply wp_expect; [done|].
  wq. wqn fb.
  apply wp_bind, wp_or_unwind, wp_lift; [apply framebuffer_no_panic| |wend].
  intros fbid _. wq. wqn prime. wqn fd.
  apply wp_bind, wp_or_unwind.
  match goal with |- wp _ _ _ ?z => assert (cs_tracker z = t) as Hz by done end.
  eapply wp_weaken; [rewrite <- Hz; apply wp_register; by rewrite Hz| |].
  - cbn beta. intros info z1 [Hr (st1 & b & Ha1 & Hb & _)].
    eapply wp_expect_active; [done|done|]. apply wp_bind. eapply wp_expect; [done|].
    eapply wp_put_active; [done|]. intros z2 Hz2. apply wp_ret. unfold reaches in *. rewrite Hz2.
    rewrite Hz in Hr. destruct Hr as [Hr Hl]. destruct (cs_tracker z1) as [act ret]. simpl in *. subst act. split.
    + eapply rtc_l; [exact Hr|]. apply rtc_once, a_own.
    + do 2 eexists. split; [exact Hl|apply l_own].
  - intros z1 Hr. rewrite Hz in Hr. wend.
Qed.

Lemma wp_allocate sync s : tracker_ok (cs_tracker s) ->
  wp (allocate_linear_xrgb8888_buffer sync) (fun _ => reaches astep (cs_tracker s))
     (reaches astep (cs_tracker s)) s.
Proof.
  intros Ht. eapply wp_weaken; [by apply allocate_acts|by intros ? ? [? _]|apply dsteps_asteps].
Qed.

Lemma quiet_named_buffer sid id : quiet (named_buffer sid id).
Proof. unfold named_buffer. auto 10 with quiet. Qed.

Lemma quiet_export sid id : quiet (export_capture_buffer sid id).
Proof.
  unfold export_capture_buffer. apply quiet_bind; [apply quiet_named_buffer|]. intros [st b].
  repeat (apply quiet_bind; [auto with quiet|intros]).
  - destruct (tb_synchronization b); auto 10 with quiet.
  - destruct a2. auto with quiet.
Qed.

Lemma quiet_queued_of b id : quiet (lift (queued_of b id)).
Proof. apply quiet_lift. unfold queued_of. by destruct (tb_state b). Qed.

Lemma quiet_export_fence sid id : quiet (export_implicit_capture_fence sid id).
Proof.
  unfold export_implicit_capture_fence. apply quiet_bind; [apply quiet_named_buffer|].
  intros [st b]. apply quiet_bind; [destruct (tb_synchronization b); auto with quiet|intros].
  apply quiet_bind; [apply quiet_queued_of|intros]. auto 10 with quiet.
Qed.

Lemma quiet_arm sid id : quiet (arm_explicit_capture_fence sid id).
Proof.
  unfold arm_explicit_capture_fence. apply quiet_bind; [apply quiet_named_buffer|].
  intros [st b]. apply quiet_bind; [destruct (tb_synchronization b); auto with quiet|intros].
  apply quiet_bind; [apply quiet_queued_of|intros]. auto 10 with quiet.
Qed.

Lemma position_lookup id l i : position id l = Some i -> exists b, l !! i = Some b /\ tb_id b = id.
Proof.
  revert i. induction l as [|b l IH]; intros i; simpl; [done|].
  destruct (tb_id b =? id) eqn:Hb; [intros [= <-]; breflect; by exists b|].
  destruct (position id l) as [j|] eqn:Hj; [|done]. intros [= <-]. by apply IH.
Qed.

Lemma require_state_ok b expected u : require_buffer_state b expected = Ok u ->
  state_public (tb_state b) = expected.
Proof. unfold require_buffer_state. by case_bool_decide. Qed.

Lemma require_state_no_panic b expected : require_buffer_state b expected <> Panic.
Proof. unfold require_buffer_state. by case_bool_decide. Qed.

Lemma state_idle st : state_public st = Idle -> st = TIdle.
Proof. by destruct st. Qed.

Lemma unregister_acts id s : tracker_ok (cs_tracker s) ->
  wp (unregister_capture_buffer id) (fun _ s' => lstep (Some (Unregistered id)) (cs_tracker s) (cs_tracker s'))
     (reaches (from (Unregistered id) (cs_tracker s)) (cs_tracker s)) s.
Proof.
  remember (cs_tracker s) as t eqn:Hs. symmetry in Hs. intros Ht. unfold unregister_capture_buffer.
  apply wp_active_stream; [done|]. intros st Ha. apply wp_bind_ok_or; [done|]. intros i Hi.
  destruct (position_lookup _ _ _ Hi) as (b & Hb & <-).
  apply wp_bind. eapply wp_expect; [exact Hb|].
  apply wp_bind_lift; [apply require_state_no_panic|done|]. intros u Hidle%require_state_ok%state_idle.
  wq. wq. eapply wp_expect_active; [done|done|]. apply wp_bind. eapply wp_expect; [exact Hb|].
  eapply wp_put_active; [done|]. intros z Hz.
  assert (lstep (Some (Unregistered (tb_id b))) t (cs_tracker z)) as Hr.
  { rewrite Hz. destruct t as [act ret]. simpl in *. subst act. by eapply l_remove. }
  apply quiet_end; [auto with quiet|done].
Qed.

Lemma wp_from {A} a (m : M A) s :
  wp m (fun _ s' => lstep (Some a) (cs_tracker s) (cs_tracker s')) (reaches (from a (cs_tracker s)) (cs_tracker s)) s ->
  wp m (fun _ => reaches tstep (cs_tracker s)) (reaches tstep (cs_tracker s)) s.
Proof.
  intros H. eapply wp_weaken; [exact H| |apply froms_tsteps]. intros v s' Hl. apply rtc_once. by exists (Some a).
Qed.

Lemma wp_unregister id s : tracker_ok (cs_tracker s) ->
  wp (unregister_capture_buffer id) (fun _ => reaches tstep (cs_tracker s)) (reaches tstep (cs_tracker s)) s.
Proof. intros Ht. by eapply wp_from, unregister_acts. Qed.

Lemma queue_points_no_panic b : queue_points b <> Panic.
Proof.
  unfold queue_points. destruct (tb_synchronization b); [done|].
  destruct (nonzero _); cbn [ok_or obind]; [|done]. by destruct (checked_add64 _ _).
Qed.

Lemma queue_acts id ud s :
  acts (fun a => a = Some (QueuedFor id)) (queue_capture_buffer id ud) s.
Proof.
  unfold acts. remember (cs_tracker s) as t eqn:Hs. symmetry in Hs. unfold queue_capture_buffer.
  apply wp_active_stream; [done|]. intros st Ha. wrej Hst. wrej Hcap. wrej Hud.
  apply wp_bind_ok_or; [done|]. intros b Hb.
  apply wp_bind_lift; [apply require_state_no_panic|done|]. intros u Hidle%require_state_ok%state_idle.
  apply wp_bind_lift; [apply queue_points_no_panic|done|]. intros points Hp.
  wqn r. destruct r as [u'|errno].
  - eapply wp_expect_active; [done|done|]. apply wp_bind. eapply wp_expect; [exact Hb|].
    eapply wp_put_active; [done|]. intros z Hz. apply wp_ret. apply did_once. rewrite Hz.
    destruct t as [act ret]. simpl in *. subst act.
    apply negb_false_iff in Hcap. by eapply nl_queue.
  - apply wp_bind. destruct (errno =? ESTALE); [|apply wp_ret, wp_raise; by apply reaches_same].
    apply (wp_bind_tracker _ _ _ t); [done|]. apply wp_set_tracker, wp_raise.
    unfold reaches. simpl. unfold mark_active_stale. rewrite Ha. simpl.
    destruct (named _ _); [|apply rtc_refl]. destruct t as [act ret]. simpl in *. subst act.
    apply rtc_once, nl_stale.
Qed.

Lemma wp_queue id ud s :
  wp (queue_capture_buffer id ud) (fun _ => reaches nstep (cs_tracker s)) (reaches nstep (cs_tracker s)) s.
Proof. by eapply acts_nsteps, queue_acts. Qed.

Lemma wp_named_buffer {R : relation CaptureTracker} {B} sid id (k : TrackedStream * TrackedBuffer -> M B) Q t s :
  cs_tracker s = t ->
  (forall st b, stream t sid = Some st -> buffer st id = Some b -> wp (k (st, b)) Q (reaches R t) s) ->
  wp (mbind (named_buffer sid id) k) Q (reaches R t) s.
Proof.
  intros Hs Hk. apply wp_bind. unfold named_buffer. apply (wp_bind_tracker _ _ _ t); [done|].
  apply wp_bind_ok_or; [done|]. intros st Hst. apply wp_bind_ok_or; [done|]. intros b Hb.
  apply wp_ret. by apply Hk.
Qed.

Lemma take_acts ready s :
  acts (fun a => a = Some (TakenFrom (cr_stream_id ready) (cr_buffer_id ready))) (take_capture_completion ready) s.
Proof.
  unfold acts. remember (cs_tracker s) as t eqn:Hs. symmetry in Hs. unfold take_capture_completion.
  apply wp_named_buffer; [done|]. intros st b Hst Hb.
  apply wp_bind_lift; [by destruct (tb_state b)|done|]. intros c Hc. wrej Hu. wrej Hp.
  apply (wp_bind_tracker _ _ _ t); [done|]. apply wp_bind, wp_set_tracker, wp_ret.
  apply did_once. cbn [cs_tracker]. eapply nl_take; [done..|].
  destruct (tb_state b); try done. by injection Hc as ->.
Qed.

Lemma wp_take ready s :
  wp (take_capture_completion ready) (fun _ => reaches nstep (cs_tracker s)) (reaches nstep (cs_tracker s)) s.
Proof. by eapply acts_nsteps, take_acts. Qed.

Lemma delegate_acts fence s :
  acts (fun a => a = Some (TakenFrom (ef_stream_id fence) (ef_buffer_id fence)))
    (delegate_explicit_capture_completion fence) s.
Proof.
  unfold acts. remember (cs_tracker s) as t eqn:Hs. symmetry in Hs. unfold delegate_explicit_capture_completion.
  wqn u. match goal with E : cs_tracker ?z = t |- wp _ _ _ ?z => rewrite <- E end.
  match goal with |- context [take_capture_completion ?r] => exact (take_acts r _) end.
Qed.

Lemma wp_delegate fence s :
  wp (delegate_explicit_capture_completion fence) (fun _ => reaches nstep (cs_tracker s)) (reaches nstep (cs_tracker s)) s.
Proof. by eapply acts_nsteps, delegate_acts. Qed.

Lemma reuse_no_panic b : next_reuse_point b <> Panic.
Proof.
  unfold next_reuse_point. destruct (tb_synchronization b); [done|].
  destruct (checked_add64 _ _) as [p|]; [|done]. by destruct (nonzero p).
Qed.

Lemma release_acts sid id s :
  acts (fun a => a = Some (ReleasedTo sid id)) (release_capture_buffer sid id) s.
Proof.
  unfold acts. remember (cs_tracker s) as t eqn:Hs. symmetry in Hs. unfold release_capture_buffer.
  apply wp_named_buffer; [done|]. intros st b Hst Hb.
  apply wp_bind_lift; [apply require_state_no_panic|done|]. intros u Hc%require_state_ok.
  apply wp_bind_lift; [apply reuse_no_panic|done|]. intros point Hp.
  assert (exists c, tb_state b = TConsumerOwned c) as [c Hc']
    by (destruct (tb_state b); try done; by eexists).
  pose proof (next_reuse_inv _ _ Hp) as Hpi.
  set (hr := match tb_synchronization b with TImplicit => (None, None)
             | TExplicit p => (Some (sp_reuse_handle p), point) end).
  assert (hr.2 = point) as Hhr by (unfold hr; destruct (tb_synchronization b); done).
  destruct hr as [handle rp]. simpl in Hhr. subst rp.
  apply wp_bind_quiet; [destruct handle, point; auto with quiet|done|]. intros u' z Hz.
  apply (wp_bind_tracker _ _ _ t); [done|]. apply wp_bind. eapply wp_expect; [done|].
  apply wp_bind. eapply wp_expect; [done|]. apply wp_bind, wp_set_tracker, wp_ret.
  apply did_once. cbn [cs_tracker]. by eapply nl_release.
Qed.

Lemma wp_release sid id s :
  wp (release_capture_buffer sid id) (fun _ => reaches nstep (cs_tracker s)) (reaches nstep (cs_tracker s)) s.
Proof. by eapply acts_nsteps, release_acts. Qed.

Lemma keep_some {A} (p : A -> bool) o a : keep p o = Some a -> o = Some a.
Proof. destruct o as [x|]; simpl; [|done]. by destruct (p x). Qed.

Lemma keep_named sid o st : keep (named sid) o = Some st -> o = Some st /\ si_stream_id (ts_info st) = sid.
Proof. destruct o as [x|]; simpl; [|done]. destruct (named sid x) eqn:E; [|done]. intros [= <-]. split; [done|]. by apply Z.eqb_eq. Qed.

Lemma cancelled_acts q s :
  acts (fun a => a = Some (CancelledOn (q_stream_id q) (q_buffer_id q))) (retire_cancelled_capture_buffer q) s.
Proof.
  unfold acts. remember (cs_tracker s) as t eqn:Hs. symmetry in Hs. unfold retire_cancelled_capture_buffer.
  apply (wp_bind_tracker _ _ _ t); [done|]. apply wp_bind_ok_or; [done|]. intros st [Hst Hsid]%keep_named.
  apply wp_bind_ok_or; [done|]. intros b Hb.
  destruct (tb_state b) as [|q'| |] eqn:Hq; try (apply wp_raise; by apply reaches_same).
  case_bool_decide as Heq; [|apply wp_raise; by apply reaches_same]. subst q'.
  apply wp_set_tracker, did_once. cbn [cs_tracker]. destruct t as [act ret]. simpl in *. subst ret.
  rewrite <- Hsid. by eapply nl_cancel.
Qed.

Lemma wp_cancelled q s :
  wp (retire_cancelled_capture_buffer q) (fun _ => reaches nstep (cs_tracker s)) (reaches nstep (cs_tracker s)) s.
Proof. by eapply acts_nsteps, cancelled_acts. Qed.

Lemma finish_acts sid s :
  wp (finish_retired_capture sid) (fun _ s' => lstep (Some (Finished sid)) (cs_tracker s) (cs_tracker s'))
     (reaches (from (Finished sid) (cs_tracker s)) (cs_tracker s)) s.
Proof.
  remember (cs_tracker s) as t eqn:Hs. symmetry in Hs. unfold finish_retired_capture.
  apply (wp_bind_tracker _ _ _ t); [done|]. apply wp_bind_ok_or; [done|]. intros st [Hst Hsid]%keep_named.
  wrej Hbusy. apply wp_bind, wp_set_tracker.
  assert (lstep (Some (Finished sid)) t {| active := active t; retired := None |}) as Hr.
  { destruct t as [act ret]. simpl in *. subst ret. rewrite <- Hsid. by apply l_finish. }
  apply quiet_end; [auto with quiet|exact Hr].
Qed.

Lemma wp_finish sid s :
  wp (finish_retired_capture sid) (fun _ => reaches tstep (cs_tracker s)) (reaches tstep (cs_tracker s)) s.
Proof. eapply wp_from, finish_acts. Qed.

Lemma record_frame_refused t event t' r : record_frame t event = (t', r) -> r <> Ok tt -> t' = t.
Proof. unfold record_frame. intros H Hr. case_match; by simplify_eq. Qed.

Lemma wp_frame event s :
  wp (perform lease (OpFrame event)) (fun _ => reaches nstep (cs_tracker s)) (reaches nstep (cs_tracker s)) s.
Proof.
  unfold wp, perform, record_capture_frame.
  destruct (record_frame (cs_tracker s) event) as [t' r] eqn:Hf. cbn beta iota.
  destruct r as [[]|e|].
  - unfold reaches. simpl. apply rtc_once. eexists. by eapply nl_frame.
  - unfold record_frame in Hf.
    match type of Hf with (match ?m with _ => _ end) = _ => destruct m eqn:Hm end; simplify_eq.
    apply rtc_refl.
  - unfold record_frame in Hf.
    match type of Hf with (match ?m with _ => _ end) = _ => destruct m eqn:Hm end; simplify_eq.
    clear -Hm. unfold check_frame_generation in Hm.
    repeat first
      [ match type of Hm with context [reject ?c _] => destruct c; cbn [reject obind] in Hm; [done|] end
      | match type of Hm with context [ok_or ?o _] => destruct o; cbn [ok_or obind] in Hm; [|done] end
      | match type of Hm with context [if ?c then _ else _] => destruct c; cbn [obind] in Hm end
      | match type of Hm with context [match ?c with _ => _ end] => destruct c; cbn [obind] in Hm end ];
      done.
Qed.

(** The operations that neither acquire nor release a resource. *)
Definition neutral (op : operation) : bool :=
  match op with
  | OpRegister _ _ | OpAllocate _ | OpUnregister _ | OpFinish _ => false
  | _ => true
  end.

Lemma perform_neutral op s : neutral op = true -> tracker_ok (cs_tracker s) ->
  wp (perform lease op) (fun _ => reaches nstep (cs_tracker s)) (reaches nstep (cs_tracker s)) s.
Proof.
  intros Hn Ht. destruct op; try done; cbn [perform]; try (apply wp_frame); apply wp_forget;
    auto using wp_start, wp_stop, wp_retire_invalidated, wp_reconcile, wp_queue, wp_take,
      wp_delegate, wp_release, wp_cancelled.
  - apply wp_after; [apply quiet_export|apply reaches_refl].
  - apply wp_after; [apply quiet_export_fence|apply reaches_refl].
  - apply wp_after; [apply quiet_arm|apply reaches_refl].
Qed.

Lemma perform_reaches op s : tracker_ok (cs_tracker s) ->
  wp (perform lease op) (fun _ => reaches tstep (cs_tracker s)) (reaches tstep (cs_tracker s)) s.
Proof.
  intros Ht. destruct (neutral op) eqn:Hn.
  { eapply wp_weaken; [by apply perform_neutral|intros ? ?; apply nsteps_tsteps|apply nsteps_tsteps]. }
  destruct op; try done; cbn [perform]; apply wp_forget; auto using wp_unregister, wp_finish.
  - eapply wp_weaken; [by apply wp_register|intros ? ? [[[? _] _] _]; by apply rtc_once|].
    intros ? ?%dsteps_asteps. by apply asteps_tsteps.
  - eapply wp_weaken; [by apply wp_allocate|intros ? ?; apply asteps_tsteps|intros ?; apply asteps_tsteps].
Qed.

Lemma perform_follows op s : tracker_ok (cs_tracker s) ->
  (perform lease op s).2 <> Panic /\ tracker_ok (cs_tracker (perform lease op s).1).
Proof.
  intros Ht. pose proof (perform_reaches op s Ht) as H. unfold wp, reaches in H.
  destruct (perform lease op s) as [s' [u|e|]]; simpl; [| |done]; (split; [done|by eapply tsteps_follow]).
Qed.

Lemma reachable_ok s : capture_reachable lease s -> tracker_ok (cs_tracker s).
Proof.
  induction 1 as [|op s _ IH]; [by split; simpl; [left| |]|].
  by destruct (perform_follows op s IH) as (_ & ?).
Qed.

(** *** What every operation does *)

(** Whether it succeeded; the result of a frame is the check's of its event. *)
Definition succeeded (op : operation) (s : capture_state) : bool :=
  match op with
  | OpFrame event => is_ok (record_capture_frame event s).2
  | _ => is_ok (perform lease op s).2
  end.

(** The one action of an operation that succeeds, and what one that fails may
    still have done: a registration can cost the stream, and the kernel may
    refuse to release what an unregistered buffer or a finished stream owned. *)
Definition does (op : operation) (ok : bool) (a : option own_action) : Prop :=
  match op, ok with
  | OpStart _ _, true => exists id, a = Some (Started id)
  | OpStop, true | OpRetireInvalidated, true => a = Some Stopped
  | OpReconcile _, true => a = None \/ a = Some Stopped
  | OpRegister _ _, true | OpAllocate _, true => exists id, a = Some (Registered id)
  | OpRegister _ _, false | OpAllocate _, false => a = None \/ a = Some Stopped
  | OpUnregister b, true => a = Some (Unregistered b)
  | OpUnregister b, false => a = None \/ a = Some (Unregistered b)
  | OpQueue b _, true => a = Some (QueuedFor b)
  | OpTake r, true => a = Some (TakenFrom (cr_stream_id r) (cr_buffer_id r))
  | OpDelegate f, true => a = Some (TakenFrom (ef_stream_id f) (ef_buffer_id f))
  | OpRelease sid b, true => a = Some (ReleasedTo sid b)
  | OpRetireCancelled q, true => a = Some (CancelledOn (q_stream_id q) (q_buffer_id q))
  | OpFinish sid, true => a = Some (Finished sid)
  | OpFinish sid, false => a = None \/ a = Some (Finished sid)
  | OpFrame event, true => a = Some (CompletedOn (fe_stream_id event) (fe_buffer_id event))
  | _, _ => a = None
  end.

Definition performed (op : operation) (s : capture_state) : Prop :=
  exists a, does op (succeeded op s) a /\
    took a (owners_of (cs_tracker s)) (owners_of (cs_tracker (perform lease op s).1)).

Lemma stills_took t t' : rtc (nlstep None) t t' -> tracker_ok t -> owners_of t' = owners_of t.
Proof.
  induction 1 as [|t t1 t2 [H1 _] _ IH]; [done|]. intros Ht.
  destruct (lstep_follows _ _ _ H1 Ht) as [Ht1 Ho]. cbn in Ho. rewrite <- Ho. by apply IH.
Qed.

Lemma did_took a t s : did_as a t s -> tracker_ok t -> took a (owners_of t) (owners_of (cs_tracker s)).
Proof. destruct a as [a|]; [intros [H _] Ht; by apply (lstep_follows _ _ _ H)|apply stills_took]. Qed.

(** The condition on the result, through [forget]. *)
Definition after_result {A} (m : M A) (Q E : owners -> Prop) (s : capture_state) : Prop :=
  let '(s', r) := forget m s in if is_ok r then Q (owners_of (cs_tracker s')) else E (owners_of (cs_tracker s')).

Lemma after_wp {A} (m : M A) (Q : A -> capture_state -> Prop) E s (Q' E' : owners -> Prop) :
  wp m Q E s -> (forall v s', Q v s' -> Q' (owners_of (cs_tracker s'))) ->
  (forall s', E s' -> E' (owners_of (cs_tracker s'))) -> after_result m Q' E' s.
Proof. unfold wp, after_result, forget, mbind. intros H HQ HE. destruct (m s) as [s' [v|e|]]; cbn; eauto. done. Qed.

Lemma performed_by {A} op (m : M A) s :
  perform lease op s = forget m s -> succeeded op s = is_ok (perform lease op s).2 ->
  after_result m (fun o => exists a, does op true a /\ took a (owners_of (cs_tracker s)) o)
    (fun o => exists a, does op false a /\ took a (owners_of (cs_tracker s)) o) s -> performed op s.
Proof.
  unfold performed, after_result. intros H1 H2. rewrite H2, H1. destruct (forget m s) as [s' r]. cbn.
  by destruct (is_ok r).
Qed.

Lemma performed_acts {A} op P (m : M A) s :
  perform lease op s = forget m s -> succeeded op s = is_ok (perform lease op s).2 ->
  tracker_ok (cs_tracker s) -> acts P m s -> (forall a, P a -> does op true a) -> does op false None -> performed op s.
Proof.
  intros H1 H2 Ht Ha HP Hn. eapply (performed_by _ m); [done..|]. eapply after_wp; [exact Ha|..].
  - intros _ s' (a & Hpa & Hd). exists a. split; [by apply HP|by apply did_took].
  - intros s' Hd. exists None. split; [done|by apply (did_took None)].
Qed.

Lemma performed_quiet {A} op (m : M A) s :
  perform lease op s = forget m s -> succeeded op s = is_ok (perform lease op s).2 ->
  tracker_ok (cs_tracker s) -> quiet m -> (forall ok, does op ok None) -> performed op s.
Proof.
  intros H1 H2 Ht Hq Hd. eapply (performed_acts _ (fun a => a = None) m); [done..| |intros a ->; apply Hd|apply Hd].
  apply wp_quiet; [done|..]; [intros _ s' Hs; exists None; split; [done|]|intros s' Hs]; by apply reaches_same.
Qed.

Lemma perform_does op s : tracker_ok (cs_tracker s) -> performed op s.
Proof.
  intros Ht. assert (Hown : forall a t', lstep a (cs_tracker s) t' -> took a (owners_of (cs_tracker s)) (owners_of t')).
  { intros a t' Hl. by apply (lstep_follows _ _ _ Hl). }
  assert (Hlost : forall t', rtc dstep (cs_tracker s) t' ->
    exists a, (a = None \/ a = Some Stopped) /\ took a (owners_of (cs_tracker s)) (owners_of t')).
  { intros t' Hd. by apply dsteps_took. }
  assert (Hfrom : forall b s', reaches (from b (cs_tracker s)) (cs_tracker s) s' -> exists a, (a = None \/ a = Some b) /\
    took a (owners_of (cs_tracker s)) (owners_of (cs_tracker s'))).
  { intros b s' [E|Hl]%from_once; [exists None|exists (Some b)]; (split; [by (left + right)|]); [by rewrite E|by apply Hown]. }
  destruct op.
  1: by eapply performed_acts; [done..|apply start_acts| |].
  1: by eapply performed_acts; [done..|by apply stop_acts| |].
  1: by eapply performed_acts; [done..|by apply retire_invalidated_acts| |].
  1: by eapply performed_acts; [done..|by apply reconcile_acts| |].
  3: eapply performed_quiet; [done..|apply quiet_export|by intros []].
  3: eapply performed_quiet; [done..|apply quiet_export_fence|by intros []].
  3: eapply performed_quiet; [done..|apply quiet_arm|by intros []].
  4: by eapply performed_acts; [done..|apply queue_acts| |].
  4: by eapply performed_acts; [done..|apply take_acts| |].
  4: by eapply performed_acts; [done..|apply delegate_acts| |].
  4: by eapply performed_acts; [done..|apply release_acts| |].
  4: by eapply performed_acts; [done..|apply cancelled_acts| |].
  - eapply performed_by; [done..|]. eapply after_wp; [by apply wp_register| |intros s' Hd; by apply Hlost].
    intros v s' [[_ Hl] _]. eexists. split; [by eexists|by apply Hown].
  - eapply performed_by; [done..|]. eapply after_wp; [by apply allocate_acts| |intros s' Hd; by apply Hlost].
    intros v s' [_ (id & t' & Hl & Hn)]. exists (Some (Registered id)). split; [by eexists|].
    destruct (lstep_follows _ _ _ Hl Ht) as [Ht' Ho]. destruct (lstep_follows _ _ _ Hn Ht') as [_ Hsame].
    cbn in Hsame. by rewrite Hsame.
  - eapply performed_by; [done..|]. eapply after_wp; [by apply unregister_acts| |intros s' Hf; by apply Hfrom].
    intros v s' Hl. eexists. split; [done|by apply Hown].
  - eapply performed_by; [done..|]. eapply after_wp; [apply finish_acts| |intros s' Hf; by apply Hfrom].
    intros v s' Hl. eexists. split; [done|by apply Hown].
  - unfold performed, succeeded. cbn [perform]. unfold record_capture_frame.
    destruct (record_frame (cs_tracker s) event) as [t' r] eqn:Hf. cbn. destruct r as [[]|e|].
    + eexists. split; [done|]. by apply Hown, l_frame.
    + exists None. split; [done|]. by rewrite (record_frame_refused _ _ _ _ Hf).
    + exists None. split; [done|]. by rewrite (record_frame_refused _ _ _ _ Hf).
Qed.
End Operations.

(** C26: Capture ownership refines its protocol, operation by operation: from
    every reachable state and for every kernel, an operation of the client that
    succeeds takes exactly the one step of the protocol that is its own, for the
    stream and the buffer it names, and one that fails takes none, apart from a
    registration that costs the stream and a release of resources that fails
    after the step.  So a buffer goes Idle, Queued, Completed, ConsumerOwned and
    back to Idle, each by the operation that names it; is queued only on a running
    stream that has no other queued buffer, cancelled only on a retired one and
    unregistered only when idle; and a retired stream is dropped only with every
    buffer idle. *)
Theorem capture_refines_protocol `{K : CaptureKernel} lease s op :
  capture_reachable lease s ->
  exists a, does op (succeeded lease op s) a /\
    took a (owners_of (cs_tracker s)) (owners_of (cs_tracker (perform lease op s).1)).
Proof. intros Hr%reachable_ok. by apply perform_does. Qed.

(** In every reachable state, for every kernel: no operation panics (no
    [expect] or debug assertion fails, whatever the kernel answers); at most one
    of an active and a retired stream exists; buffer identifiers are distinct
    and at most 64, or the kernel's limit; at most one buffer is queued; and
    the requests in flight have distinct user data and belong to their own
    stream and buffer. *)
Theorem capture_reachable_sound `{K : CaptureKernel} lease s op :
  capture_reachable lease s ->
  (perform lease op s).2 <> Panic /\
  (active (cs_tracker s) = None \/ retired (cs_tracker s) = None) /\
  (forall st, active (cs_tracker s) = Some st \/ retired (cs_tracker s) = Some st ->
     NoDup (tb_id <$> ts_buffers st) /\ (length (ts_buffers st) <= 64)%nat /\
     Z.of_nat (length (ts_buffers st)) <= Z.max 0 (ca_max_registered_buffers (ts_capabilities st)) /\
     (length (List.filter is_queued (ts_buffers st)) <= 1)%nat /\
     NoDup (user_datas (ts_buffers st)) /\
     forall b q, b ∈ ts_buffers st -> in_flight b = Some q ->
       q_stream_id q = si_stream_id (ts_info st) /\ q_buffer_id q = tb_id b).
Proof.
  intros Hr%reachable_ok. destruct (perform_follows lease op s Hr) as [Hp _].
  destruct Hr as [Hone Ha Hre]. split_and!; [done|done|]. intros st Hst.
  assert (stream_ok st) as [_ Hb Hids Hu Hq Hl] by (destruct Hst; [auto|by apply Hre]).
  unfold max_registered_buffers, MAX_TRACKED_CAPTURE_BUFFERS in Hl.
  split_and!; try done; try lia. intros b q Hin Hfl. rewrite Forall_forall in Hb.
  destruct (Hb b Hin) as [_ Hbq _ _]. destruct (Hbq q Hfl) as (? & ? & _). done.
Qed.
