(* ===== verification/CaptureResources.v ===== *)
(** * Kernel resources of capture

    Accounting of the syncobjs, GEM handles and framebuffers that the capture
    client creates, over the log of system calls: every resource the kernel
    handed out is owned by one tracked buffer or has been released once.  Also
    what a stale stream may still ask of the kernel. *)

From S2P Require Import Prelude Bytes Text CastkmsSys Grant Castkms CastkmsEvent.
From S2P Require Import CastkmsCapture CaptureClient CaptureInvariant.

(** ** What a system call acquires and releases *)

Definition acquired (e : ioctl) : list resource :=
  match e with
  | IoSyncobjCreate (Done a) => if sc_handle a =? 0 then [] else [RSyncobj (sc_handle a)]
  | IoCreateDumb _ (Done d) => if cd_handle d =? 0 then [] else [RGem (cd_handle d)]
  | IoAddFb2 _ (Done f) => if fb_fb_id f =? 0 then [] else [RFramebuffer (fb_fb_id f)]
  | _ => []
  end.

(** A release is attempted once, whatever the kernel answers. *)
Definition released (e : ioctl) : list resource :=
  match e with
  | IoSyncobjDestroy h _ => [RSyncobj h]
  | IoDestroyDumb h _ => [RGem h]
  | IoRmFb id _ => [RFramebuffer id]
  | _ => []
  end.

Definition all_acquired (log : list ioctl) : list resource := concat (acquired <$> log).
Definition all_released (log : list ioctl) : list resource := concat (released <$> log).

(** Every acquired resource is owned by the tracker, held by the operation in
    progress, or released: as multisets. *)
Definition balanced (held : list resource) (s : capture_state) : Prop :=
  all_acquired (cs_log s) ≡ₚ owned (cs_tracker s) ++ held ++ all_released (cs_log s).

Lemma all_acquired_snoc log e : all_acquired (log ++ [e]) = all_acquired log ++ acquired e.
Proof. unfold all_acquired. rewrite fmap_app, concat_app. simpl. by rewrite app_nil_r. Qed.
Lemma all_released_snoc log e : all_released (log ++ [e]) = all_released log ++ released e.
Proof. unfold all_released. rewrite fmap_app, concat_app. simpl. by rewrite app_nil_r. Qed.

(** ** Computations that log only calls of one kind *)

Definition emits {A} (P : ioctl -> Prop) (m : M A) : Prop :=
  forall s, exists l, cs_log (m s).1 = cs_log s ++ l /\ Forall P l.

Section Emits.
Context {P : ioctl -> Prop}.

Lemma emits_same {A} (m : M A) : (forall s, cs_log (m s).1 = cs_log s) -> emits P m.
Proof. intros H s. exists []. by rewrite H, app_nil_r. Qed.
Lemma emits_ret {A} (a : A) : emits P (mret a).
Proof. by apply emits_same. Qed.
Lemma emits_raise {A} e : emits P (raise (A:=A) e).
Proof. by apply emits_same. Qed.
Lemma emits_lift {A} (o : outcome CaptureError A) : emits P (lift o).
Proof. by apply emits_same. Qed.
Lemma emits_tracker : emits P tracker.
Proof. by apply emits_same. Qed.
Lemma emits_set_tracker t : emits P (set_tracker t).
Proof. by apply emits_same. Qed.
Lemma emits_ask {A} f : emits P (ask (A:=A) f).
Proof. by apply emits_same. Qed.
Lemma emits_check {A} f r : emits P (check (A:=A) f r).
Proof. destruct r; [apply emits_ret|apply emits_raise]. Qed.
Lemma emits_fail_with o : emits P (fail_with o).
Proof. destruct o; [apply emits_raise|apply emits_ret]. Qed.
Lemma emits_issue {A} f entry : (forall r, P (entry r)) -> emits P (issue (A:=A) f entry).
Proof. intros HP s. eexists. split; [done|]. by apply Forall_singleton. Qed.
Lemma emits_close fd : P (CloseFd fd) -> emits P (close fd).
Proof. intros HP s. exists [CloseFd fd]. split; [done|]. by apply Forall_singleton. Qed.

Lemma emits_bind {A B} (m : M A) (k : A -> M B) :
  emits P m -> (forall a, emits P (k a)) -> emits P (mbind m k).
Proof.
  intros Hm Hk s. destruct (Hm s) as (l & Hl & HP). unfold mbind.
  destruct (m s) as [s' [a|e|]]; simpl in *; [|by exists l..].
  destruct (Hk a s') as (l' & Hl' & HP'). exists (l ++ l').
  rewrite Hl', Hl, app_assoc. split; [done|]. by apply Forall_app.
Qed.

Lemma emits_or_unwind {A} (m : M A) u : emits P m -> emits P u -> emits P (or_unwind m u).
Proof.
  intros Hm Hu. apply emits_bind.
  - intros s. destruct (Hm s) as (l & Hl & HP). unfold attempt.
    by destruct (m s) as [s' [a|e|]]; exists l.
  - intros [a|e]; [apply emits_ret|]. apply emits_bind; [done|]. intros. apply emits_raise.
Qed.
End Emits.

Create HintDb emits.
#[export] Hint Resolve emits_ret emits_raise emits_lift emits_tracker emits_set_tracker emits_ask
  emits_check emits_fail_with : emits.
#[export] Hint Extern 1 (emits _ (issue _ _)) => apply emits_issue; done : emits.
#[export] Hint Extern 1 (emits _ (close _)) => apply emits_close; done : emits.
#[export] Hint Extern 2 (emits _ (mbind _ _)) => apply emits_bind; [|intros] : emits.
#[export] Hint Extern 2 (emits _ (or_unwind _ _)) => apply emits_or_unwind : emits.
#[export] Hint Extern 1 (emits _ (match ?x with _ => _ end)) => destruct x : emits.
#[export] Hint Extern 1 (emits _ (let '_ := ?x in _)) => destruct x : emits.

(** A call that moves no resource. *)
Definition moves_nothing (e : ioctl) : Prop := acquired e = [] /\ released e = [].

Section Neutral.
Context `{K : CaptureKernel} (lease : GrantLease).

Lemma emits_frame P event : emits P (perform lease (OpFrame event)).
Proof.
  apply emits_same. intros s. unfold perform, record_capture_frame.
  by destruct (record_frame (cs_tracker s) event) as [t' r].
Qed.

Lemma emits_neutral op : neutral op = true -> emits moves_nothing (perform lease op).
Proof.
  assert (forall A (m : M A), emits moves_nothing m -> emits moves_nothing (forget m)) as Hf
    by (intros A m Hm; apply emits_bind; [done|intros; apply emits_ret]).
  assert (emits moves_nothing retire) as Hr by (unfold retire; auto 10 with emits).
  assert (emits moves_nothing stop_capture) as Hs
    by (unfold stop_capture, active_stream; auto 20 with emits).
  assert (emits moves_nothing retire_invalidated_capture) as Hi
    by (unfold retire_invalidated_capture, active_stream; auto 20 with emits).
  destruct op; try done; intros _; try apply emits_frame; cbn [perform]; apply Hf; auto.
  - unfold start_capture, require_capture_rights, capture_query_grant, query_crtc_mode,
      stop_stream_best_effort, put_active. auto 40 with emits.
  - unfold reconcile_grant_state, capture_query_grant. auto 40 with emits.
  - unfold export_capture_buffer, named_buffer, export_syncobj_fd, owned_fd_from_kernel.
    auto 40 with emits.
  - unfold export_implicit_capture_fence, named_buffer, owned_fd_from_kernel. auto 40 with emits.
  - unfold arm_explicit_capture_fence, named_buffer. auto 40 with emits.
  - unfold queue_capture_buffer, active_stream, expect_active, put_active. auto 40 with emits.
  - unfold take_capture_completion, named_buffer. auto 40 with emits.
  - unfold delegate_explicit_capture_completion, take_capture_completion, named_buffer.
    auto 40 with emits.
  - unfold release_capture_buffer, named_buffer, signal_syncobj_point. auto 40 with emits.
  - unfold retire_cancelled_capture_buffer. auto 40 with emits.
Qed.
End Neutral.

(** ** The accounting of each operation that moves resources *)

Global Instance resource_eq_dec : EqDecision resource.
Proof. solve_decision. Defined.

(** Solve a permutation of appends and conses by counting. *)
Ltac perm :=
  apply (Permutation_count_occ resource_eq_dec); intros ?;
  repeat match goal with
  | H : Permutation ?l ?k |- context [count_occ _ _ ?x] =>
      apply (proj1 (Permutation_count_occ resource_eq_dec l k)) with (x := x) in H
  end;
  rewrite ?count_occ_app in *; cbn [count_occ] in *;
  repeat match goal with
  | |- context [resource_eq_dec ?a ?b] => destruct (resource_eq_dec a b)
  | H : context [resource_eq_dec ?a ?b] |- _ => destruct (resource_eq_dec a b)
  end; rewrite ?count_occ_app in *; cbn [count_occ] in *; lia.

(** The state before a call is logged, its tracker kept. *)
Definition at_tracker (t : CaptureTracker) (held : list resource) (s : capture_state) : Prop :=
  cs_tracker s = t /\ balanced held s.

Lemma balanced_perm held held' s : held ≡ₚ held' -> balanced held s -> balanced held' s.
Proof. unfold balanced. by intros ->. Qed.

Lemma balanced_log held t log e :
  balanced held {| cs_tracker := t; cs_log := log |} ->
  forall held', acquired e ++ held ≡ₚ held' ++ released e ->
  balanced held' {| cs_tracker := t; cs_log := log ++ [e] |}.
Proof.
  unfold balanced. simpl. intros Hb held' Hh. rewrite all_acquired_snoc, all_released_snoc, Hb.
  transitivity (owned t ++ (acquired e ++ held) ++ all_released log); [perm|].
  rewrite Hh. perm.
Qed.

Section Accounting.
Context `{K : CaptureKernel} (lease : GrantLease).

(** Issue a call whose entries acquire and release what the equation says. *)
Lemma wp_issue_bal {A} (f : list ioctl -> reply A) entry t held held' (Q : reply A -> _ -> Prop) E s :
  at_tracker t held s ->
  (forall r, r = f (cs_log s) -> acquired (entry r) ++ held ≡ₚ held' r ++ released (entry r)) ->
  (forall r s', r = f (cs_log s) -> at_tracker t (held' r) s' -> Q r s') ->
  wp (issue f entry) Q E s.
Proof.
  intros [Ht Hb] Hh HQ. unfold wp, issue. apply HQ; [done|]. split; [done|].
  destruct s as [t' log]. eapply balanced_log; [exact Hb|]. by apply Hh.
Qed.

(** A call that releases one held resource. *)
Lemma wp_issue_release {A} (f : list ioctl -> reply A) entry x t held (Q : reply A -> _ -> Prop) E s :
  (forall r, acquired (entry r) = [] /\ released (entry r) = [x]) ->
  at_tracker t (x :: held) s ->
  (forall r s', at_tracker t held s' -> Q r s') -> wp (issue f entry) Q E s.
Proof.
  intros He Hs HQ. eapply (wp_issue_bal _ _ t (x :: held) (fun _ => held)); [done| |eauto].
  intros r _. destruct (He r) as [-> ->]. perm.
Qed.

Lemma wp_destroy_syncobj h t held (Q : reply unit -> _ -> Prop) E s :
  at_tracker t (RSyncobj h :: held) s ->
  (forall r s', at_tracker t held s' -> Q r s') -> wp (destroy_syncobj h) Q E s.
Proof. intros Hs HQ. by eapply wp_issue_release. Qed.

Lemma wp_destroy_syncobj_best_effort h t held (Q : unit -> _ -> Prop) E s :
  at_tracker t (RSyncobj h :: held) s ->
  (forall s', at_tracker t held s' -> Q tt s') -> wp (destroy_syncobj_best_effort h) Q E s.
Proof.
  intros Hs HQ. apply wp_bind. eapply wp_destroy_syncobj; [done|]. intros. apply wp_ret. auto.
Qed.

Lemma wp_destroy_syncobj_pair p t held (Q : option CaptureError -> _ -> Prop) E s :
  at_tracker t (RSyncobj (sp_ready_handle p) :: RSyncobj (sp_reuse_handle p) :: held) s ->
  (forall e s', at_tracker t held s' -> Q e s') -> wp (destroy_syncobj_pair p) Q E s.
Proof.
  intros Hs HQ. apply wp_bind. eapply wp_destroy_syncobj; [done|]. intros r1 s1 H1.
  apply wp_bind. eapply wp_destroy_syncobj; [done|]. intros r2 s2 H2. apply wp_ret. auto.
Qed.

Lemma wp_destroy_sync sync t held (Q : unit -> _ -> Prop) E s :
  at_tracker t (sync_resources sync ++ held) s ->
  (forall s', at_tracker t held s' -> Q tt s') -> wp (destroy_syncobj_pair_best_effort sync) Q E s.
Proof.
  intros Hs HQ. destruct sync as [|p]; [apply wp_ret; auto|].
  apply wp_bind. eapply wp_destroy_syncobj_pair; [exact Hs|]. intros. apply wp_ret. auto.
Qed.

Lemma wp_cleanup_owned id o t held (Q : option CaptureError -> _ -> Prop) E s :
  at_tracker t (RFramebuffer id :: RGem (of_gem_handle o) :: held) s ->
  (forall e s', at_tracker t held s' -> Q e s') -> wp (cleanup_owned_framebuffer id o) Q E s.
Proof.
  intros [Ht Hb] HQ. unfold cleanup_owned_framebuffer. apply wp_bind. unfold wp at 1, close.
  apply wp_bind. eapply (wp_issue_release _ _ (RFramebuffer id) t (RGem (of_gem_handle o) :: held)); [done| |].
  { split; [exact Ht|]. destruct s as [t' log]. eapply balanced_log; [exact Hb|].
    simpl. by rewrite app_nil_r. }
  intros r1 s1 H1. apply wp_bind. eapply (wp_issue_release _ _ (RGem _)); [done|exact H1|].
  intros r2 s2 H2. apply wp_ret. auto.
Qed.

Lemma wp_cleanup_tracked b t held (Q : option CaptureError -> _ -> Prop) E s :
  at_tracker t (buffer_resources b ++ held) s ->
  (forall e s', at_tracker t held s' -> Q e s') -> wp (cleanup_tracked_buffer_resources b) Q E s.
Proof.
  intros Hs HQ. unfold cleanup_tracked_buffer_resources, buffer_resources in *. apply wp_bind.
  set (rest := match tb_owned_framebuffer b with Some o => _ | None => _ end) in Hs.
  assert (forall e s', at_tracker t (rest ++ held) s' -> wp (match tb_owned_framebuffer b with
    | Some o => let! e' := cleanup_owned_framebuffer (tb_framebuffer_id b) o in
                mret (get_or_insert e e')
    | None => mret e end) Q E s') as Hrest.
  { intros e s' Hs'. unfold rest in Hs'. destruct (tb_owned_framebuffer b) as [o|].
    - apply wp_bind. eapply wp_cleanup_owned; [exact Hs'|]. intros. apply wp_ret. auto.
    - apply wp_ret. auto. }
  destruct (tb_synchronization b) as [|p]; simpl in Hs.
  - apply wp_ret. by apply Hrest.
  - eapply wp_destroy_syncobj_pair; [exact Hs|]. exact Hrest.
Qed.

Lemma wp_cleanup_all l e0 t held (Q : option CaptureError -> _ -> Prop) E s :
  at_tracker t (concat (buffer_resources <$> l) ++ held) s ->
  (forall e s', at_tracker t held s' -> Q e s') -> wp (cleanup_all l e0) Q E s.
Proof.
  intros Hs HQ. revert e0 s Hs. induction l as [|b l IH]; intros e0 s Hs.
  - apply wp_ret. by apply HQ.
  - cbn [cleanup_all]. apply wp_bind. cbn [fmap list_fmap concat] in Hs. rewrite <- app_assoc in Hs.
    eapply wp_cleanup_tracked; [exact Hs|]. intros e s' Hs'. by apply IH.
Qed.

(** Linux never hands out a syncobj handle that is still live. *)
Definition syncobj_handles_fresh : Prop :=
  forall log a live, k_syncobj_create log = Done a -> sc_handle a <> 0 ->
    all_acquired log ≡ₚ live ++ all_released log -> RSyncobj (sc_handle a) ∉ live.

Lemma wp_create_syncobj f t held (Q : Z -> _ -> Prop) (E : _ -> Prop) s :
  syncobj_handles_fresh -> at_tracker t held s ->
  (forall h s', RSyncobj h ∉ held -> at_tracker t (RSyncobj h :: held) s' -> Q h s') ->
  (forall s', at_tracker t held s' -> E s') -> wp (create_syncobj f) Q E s.
Proof.
  intros Hfresh Hs HQ HE. unfold create_syncobj. apply wp_bind.
  eapply (wp_issue_bal _ _ t held (fun r => acquired (IoSyncobjCreate r) ++ held)); [done| |].
  { intros r _. simpl. by rewrite app_nil_r. }
  intros r s1 Hr H1. apply wp_bind. destruct r as [a|errno]; [apply wp_ret|by apply wp_raise, HE].
  cbn [acquired] in H1. apply wp_bind. destruct (sc_handle a =? 0) eqn:H0.
  { unfold nonzero. rewrite H0. apply HE. done. }
  unfold nonzero. rewrite H0. cbn [ok_or]. unfold wp at 1, lift. breflect.
  destruct (negb (sc_flags a =? 0)).
  - apply wp_bind. eapply wp_destroy_syncobj_best_effort; [exact H1|]. intros s2 H2.
    apply wp_raise. by apply HE.
  - apply wp_ret. apply HQ; [|done]. intros Hin. destruct Hs as [Ht Hb].
    eapply (Hfresh (cs_log s) a (owned t ++ held)); [done|done| |by apply elem_of_app; right].
    unfold balanced in Hb. rewrite Hb, Ht. by rewrite app_assoc.
Qed.

Lemma wp_create_syncobj_pair t held (Q : OwnedSyncobjPair -> _ -> Prop) (E : _ -> Prop) s :
  syncobj_handles_fresh -> at_tracker t held s ->
  (forall p s', at_tracker t (sync_resources (TExplicit p) ++ held) s' -> Q p s') ->
  (forall s', at_tracker t held s' -> E s') -> wp create_syncobj_pair Q E s.
Proof.
  intros Hfresh Hs HQ HE. unfold create_syncobj_pair. apply wp_bind.
  eapply wp_create_syncobj; [done|exact Hs| |done]. intros h1 s1 _ H1.
  pose proof (wp_create_syncobj CreateReuseSyncobj t (RSyncobj h1 :: held)
    (fun h s' => RSyncobj h ∉ RSyncobj h1 :: held /\ at_tracker t (RSyncobj h :: RSyncobj h1 :: held) s')
    (at_tracker t (RSyncobj h1 :: held)) s1 Hfresh H1) as H2.
  assert (wp (create_syncobj CreateReuseSyncobj)
    (fun h s' => RSyncobj h ∉ RSyncobj h1 :: held /\ at_tracker t (RSyncobj h :: RSyncobj h1 :: held) s')
    (at_tracker t (RSyncobj h1 :: held)) s1) as H3 by auto. clear H2.
  unfold wp, mbind, attempt in *.
  destruct (create_syncobj CreateReuseSyncobj s1) as [s2 [h2|e|]]; [|  |done].
  - destruct H3 as [Hne H3]. destruct (h1 =? h2) eqn:Heq; breflect.
    { subst. destruct Hne. by left. }
    apply HQ. destruct H3 as [? H3]. split; [done|]. eapply balanced_perm; [|exact H3].
    simpl. apply Permutation_swap.
  - pose proof (wp_destroy_syncobj_best_effort h1 t held (fun _ => E) E s2 H3 HE) as H4.
    unfold wp in H4. destruct (destroy_syncobj_best_effort h1 s2) as [s3 [u|e'|]]; done.
Qed.

(** Releasing what the operation held, after the tracker was retired. *)
Lemma nstep_at t t' held s : rtc nstep t t' -> at_tracker t held s ->
  at_tracker t' held {| cs_tracker := t'; cs_log := cs_log s |}.
Proof.
  intros Hn [Ht Hb]. split; [done|]. unfold balanced in *. simpl. rewrite Hb, Ht.
  pose proof (nsteps_owned t {| cs_tracker := t'; cs_log := [] |} Hn) as Ho. simpl in Ho. by rewrite Ho.
Qed.

Lemma wp_stop_stream_bal id t held (Q : unit -> _ -> Prop) E s :
  at_tracker t held s -> (forall s', at_tracker t held s' -> Q tt s') ->
  wp (stop_stream_best_effort id) Q E s.
Proof.
  intros Hs HQ. unfold stop_stream_best_effort. destruct (id =? 0); [apply wp_ret; auto|].
  apply wp_bind. eapply (wp_issue_bal _ _ t held (fun _ => held)); [done| |].
  - intros r _. simpl. by rewrite app_nil_r.
  - intros r s' _ Hs'. apply wp_ret. auto.
Qed.

Lemma wp_abandon_bal {A} stream_id sync e held (Q : A -> _ -> Prop) (E : _ -> Prop) t s :
  tracker_ok t -> is_Some (active t) -> at_tracker t (sync_resources sync ++ held) s ->
  (forall s', balanced held s' -> E s') -> wp (abandon_registration stream_id sync e) Q E s.
Proof.
  intros Ht Ha Hs HE. unfold abandon_registration. apply wp_bind.
  eapply wp_stop_stream_bal; [exact Hs|]. intros s1 H1. pose proof H1 as [H1t _].
  apply wp_bind. unfold retire. apply (wp_bind_tracker _ _ _ t); [done|]. destruct Ha as [st Ha].
  assert (retired t = None) as Hr by (destruct (to_one _ Ht); [congruence|done]).
  assert (exists t' n, retire_active t = Ok (t', n)) as (t' & n & Hra).
  { unfold retire_active. rewrite Ha, Hr. by do 2 eexists. }
  rewrite Hra. apply wp_bind. unfold wp at 1, lift. apply wp_bind, wp_set_tracker, wp_ret.
  apply wp_bind. eapply (wp_destroy_sync _ t').
  - eapply nstep_at; [by eapply rtc_once, n_retire|exact H1].
  - intros s2 [_ H2]. apply wp_raise. by apply HE.
Qed.

Lemma stale_at t held sid s : at_tracker t held s ->
  at_tracker (mark_active_stale t sid) held
    {| cs_tracker := mark_active_stale t sid; cs_log := cs_log s |}.
Proof.
  intros Hs. eapply nstep_at; [|exact Hs]. unfold mark_active_stale.
  destruct t as [[st|] r]; simpl; [|apply rtc_refl].
  destruct (named sid st); [|apply rtc_refl]. apply rtc_once, n_stale.
Qed.

Lemma owned_register st r b :
  owned {| active := Some (with_buffers st (ts_buffers st ++ [b])); retired := r |}
  ≡ₚ owned {| active := Some st; retired := r |} ++ buffer_resources b.
Proof.
  unfold owned. simpl. unfold stream_resources at 1 3. simpl. rewrite fmap_app, concat_app. simpl.
  perm.
Qed.

Lemma wp_register_bal fb sync held s :
  syncobj_handles_fresh -> tracker_ok (cs_tracker s) -> balanced held s ->
  wp (register_capture_buffer fb sync)
     (fun info s' => balanced held s' /\ registered fb info s') (balanced held) s.
Proof.
  intros Hfresh. remember (cs_tracker s) as t eqn:Hs. symmetry in Hs. intros Ht Hb0.
  assert (at_tracker t held s) as Hb by (by split). clear Hb0. unfold register_capture_buffer.
  apply wp_bind. unfold active_stream. apply (wp_bind_tracker _ _ _ t); [done|].
  apply wp_ok_or; [apply Hb|]. intros st Ha.
  apply wp_bind, wp_reject; [apply Hb|]. intros Hst.
  apply wp_bind, wp_reject; [apply Hb|]. intros _.
  apply wp_bind. eapply (wp_weaken _ (fun ts s' => at_tracker t (sync_resources ts ++ held) s')
    _ (at_tracker t held)); [| |by intros ? [_ ?]].
  { destruct sync; apply wp_bind, wp_reject; [done|intros _; by apply wp_ret|done|intros _].
    apply wp_bind. eapply wp_create_syncobj_pair; [done|exact Hb| |done]. intros p s1 H1.
    by apply wp_ret. }
  cbn beta. intros ts s1 H1. destruct (match ts with TImplicit => _ | TExplicit p => _ end)
    as [[flags ready] reuse]. apply wp_bind.
  eapply (wp_issue_bal _ _ t _ (fun _ => sync_resources ts ++ held)); [exact H1| |].
  { intros r _. simpl. by rewrite app_nil_r. }
  intros r s2 _ H2. destruct r as [out|errno].
  2: { apply wp_bind. destruct (errno =? ESTALE); [|apply wp_ret].
       - apply (wp_bind_tracker _ _ _ t); [apply H2|]. apply wp_set_tracker. apply wp_bind.
         eapply wp_destroy_sync; [apply stale_at; exact H2|]. intros s3 [_ ?]. by apply wp_raise.
       - apply wp_bind. eapply wp_destroy_sync; [exact H2|]. intros s3 [_ ?]. by apply wp_raise. }
  destruct (nonzero (rb_buffer_id out)) as [id|] eqn:Hid;
    [|eapply wp_abandon_bal; [done|by eexists|exact H2|done]].
  wif Hc; [eapply wp_abandon_bal; [done|by eexists|exact H2|done]|].
  eapply wp_expect_active; [apply H2|done|].
  wif Hdup; [eapply wp_abandon_bal; [done|by eexists|exact H2|done]|].
  destruct H2 as [H2t H2b]. apply wp_bind. unfold put_active.
  apply (wp_bind_tracker _ _ _ t); [done|]. apply wp_set_tracker, wp_ret.
  match goal with |- context [ts_buffers st ++ [?b]] => set (nb := b) in * end. split.
  - unfold balanced in *. simpl. rewrite H2b, H2t. destruct t as [act ret]. simpl in Ha. subst act.
    simpl retired. rewrite (owned_register st ret nb).
    assert (buffer_resources nb = sync_resources ts) as -> by (unfold buffer_resources; simpl; by rewrite app_nil_r).
    by rewrite <- !app_assoc.
  - unfold registered. cbn [cs_tracker active bi_buffer_id]. exists (with_buffers st (ts_buffers st ++ [nb])), nb.
    split_and!; [done| |done|done]. apply (buffer_app_new st nb). exact Hdup.
Qed.

Lemma wp_destroy_dumb_bal h t held (Q : unit -> _ -> Prop) E s :
  at_tracker t ((if h =? 0 then [] else [RGem h]) ++ held) s ->
  (forall s', at_tracker t held s' -> Q tt s') -> wp (destroy_dumb_best_effort h) Q E s.
Proof.
  intros Hs HQ. unfold destroy_dumb_best_effort. destruct (h =? 0); [apply wp_ret; auto|].
  apply wp_bind. eapply (wp_issue_release _ _ (RGem h)); [done|exact Hs|]. intros. apply wp_ret. auto.
Qed.

Lemma wp_remove_fb_bal id t held (Q : unit -> _ -> Prop) E s :
  at_tracker t ((if id =? 0 then [] else [RFramebuffer id]) ++ held) s ->
  (forall s', at_tracker t held s' -> Q tt s') -> wp (remove_framebuffer_best_effort id) Q E s.
Proof.
  intros Hs HQ. unfold remove_framebuffer_best_effort. destruct (id =? 0); [apply wp_ret; auto|].
  apply wp_bind. eapply (wp_issue_release _ _ (RFramebuffer id)); [done|exact Hs|].
  intros. apply wp_ret. auto.
Qed.

(** The unwinding of an allocation that has a framebuffer. *)
Lemma wp_unwind_bal id h t (E : _ -> Prop) s :
  id <> 0 -> h <> 0 -> at_tracker t [RFramebuffer id; RGem h] s ->
  (forall s', balanced [] s' -> E s') ->
  wp (do! remove_framebuffer_best_effort id; destroy_dumb_best_effort h) (fun _ => E) E s.
Proof.
  intros Hid Hh Hs HE. apply Z.eqb_neq in Hid, Hh.
  apply wp_bind. apply (wp_remove_fb_bal _ t [RGem h]); [by rewrite Hid|]. intros s1 H1.
  apply (wp_destroy_dumb_bal _ t []); [by rewrite Hh|]. intros s2 [_ ?]. by apply HE.
Qed.

(** A quiet call that moves nothing, then a check of its reply. *)
Lemma wp_issue_check {A} (f : list ioctl -> reply A) entry g t held (Q : A -> _ -> Prop) E s :
  (forall r, moves_nothing (entry r)) -> at_tracker t held s ->
  (forall s', at_tracker t held s' -> E s') -> (forall a s', at_tracker t held s' -> Q a s') ->
  wp (let! r := issue f entry in check g r) Q E s.
Proof.
  intros He Hs HE HQ. apply wp_bind. eapply (wp_issue_bal _ _ t held (fun _ => held)); [done| |].
  { intros r _. destruct (He r) as [-> ->]. by rewrite app_nil_r. }
  intros r s1 _ H1. apply wp_check; [auto|]. auto.
Qed.

Lemma owned_own st r id b o :
  buffer st id = Some b -> tb_owned_framebuffer b = None ->
  owned {| active := Some (buffer_mut st id (fun b => with_owned b o)); retired := r |}
  ≡ₚ owned {| active := Some st; retired := r |}
     ++ [RFramebuffer (tb_framebuffer_id b); RGem (of_gem_handle o)].
Proof.
  intros Hb Hn. destruct (buffer_split st id b (fun b => with_owned b o) Hb) as (l1 & l2 & Hl & Hl' & _).
  unfold owned. simpl. unfold stream_resources at 1 3. rewrite Hl', Hl, !fmap_app, !concat_app. simpl.
  unfold buffer_resources at 2 5. simpl. rewrite Hn. perm.
Qed.

Lemma dumb_handle info dumb h : validate_dumb_allocation info dumb = Ok h ->
  h = cd_handle dumb /\ h <> 0.
Proof.
  unfold validate_dumb_allocation. intros H. ok_inv.
  repeat match goal with E : nonzero _ = Some _ |- _ => apply nonzero_some in E as [-> ?] end.
  by subst.
Qed.

Lemma framebuffer_id_ok fb layout h id : validate_framebuffer_result fb layout h = Ok id ->
  id = fb_fb_id fb /\ id <> 0.
Proof. unfold validate_framebuffer_result. intros H. ok_inv. by apply nonzero_some in H as [-> ?]. Qed.

(** Exporting the DMA-BUF of the new framebuffer, and registering it. *)
Lemma wp_allocate_tail sync fbid gem (layout : CaptureBufferLayout) t s :
  syncobj_handles_fresh -> tracker_ok t -> fbid <> 0 -> gem <> 0 ->
  at_tracker t [RFramebuffer fbid; RGem gem] s ->
  let unwind := do! remove_framebuffer_best_effort fbid; destroy_dumb_best_effort gem in
  let prime := {| ph_handle := gem; ph_flags := Z.lor DRM_CLOEXEC DRM_RDWR; ph_fd := -1 |} in
  wp (let! r := issue (fun log => k_prime log prime) (IoPrimeHandleToFd prime) in
      let! prime := or_unwind (check ExportDmaBuf r) unwind in
      let! dma_buf :=
        or_unwind (owned_fd_from_kernel (ph_fd prime)
                     ((ph_handle prime =? gem)
                      && (ph_flags prime =? Z.lor DRM_CLOEXEC DRM_RDWR)) "DMA-BUF export") unwind in
      let owned := {| of_gem_handle := gem; of_layout := layout; of_dma_buf := dma_buf |} in
      let! registered := or_unwind (register_capture_buffer fbid sync)
                           (do! cleanup_owned_framebuffer fbid owned; mret tt) in
      let! s := expect_active in
      let! b := lift (expect (buffer s (bi_buffer_id registered))) in
      do! put_active (buffer_mut s (bi_buffer_id registered) (fun b => with_owned b owned));
      mret (buffer_info (with_owned b owned) (bi_stream_id registered)))
    (fun _ => balanced []) (balanced []) s.
Proof.
  intros Hfresh Ht Hfb Hgem Hs unwind prime. apply wp_bind.
  eapply (wp_issue_bal _ _ t _ (fun _ => [RFramebuffer fbid; RGem gem])); [exact Hs|done|].
  intros r s1 _ H1. apply wp_bind, wp_or_unwind, wp_check; [by eapply wp_unwind_bal|].
  intros out _. apply wp_bind, wp_or_unwind. unfold owned_fd_from_kernel.
  wif Hfd; [apply wp_raise; by eapply wp_unwind_bal|].
  wif Hval.
  { apply wp_bind. unfold wp at 1, close. apply wp_raise. eapply wp_unwind_bal; [done|done| |done].
    destruct H1 as [H1 Hb]. split; [exact H1|]. destruct s1. eapply balanced_log; [exact Hb|done]. }
  apply wp_ret. apply wp_bind, wp_or_unwind. destruct H1 as [H1t H1b].
  eapply wp_weaken; [apply wp_register_bal; [done|by rewrite H1t|exact H1b]| |].
  - cbn beta. intros info s2 [Hb2 (st & b & Ha & Hb & Hfbid & Hown)].
    eapply wp_expect_active; [done|exact Ha|]. apply wp_bind. eapply wp_expect; [exact Hb|].
    apply wp_bind. unfold put_active. apply (wp_bind_tracker _ _ _ (cs_tracker s2)); [done|].
    apply wp_set_tracker, wp_ret. unfold balanced in *. simpl. rewrite Hb2.
    destruct (cs_tracker s2) as [act ret]. simpl in Ha. subst act. simpl retired.
    rewrite (owned_own _ _ _ _ _ Hb Hown). rewrite Hfbid. cbn [of_gem_handle]. by rewrite <- app_assoc.
  - intros s2 Hb2. apply wp_bind. eapply (wp_cleanup_owned _ _ (cs_tracker s2) []); [done|].
    intros e s3 [_ ?]. by apply wp_ret.
Qed.

Lemma wp_allocate_bal sync s :
  syncobj_handles_fresh -> tracker_ok (cs_tracker s) -> balanced [] s ->
  wp (allocate_linear_xrgb8888_buffer sync) (fun _ => balanced []) (balanced []) s.
Proof.
  intros Hfresh. remember (cs_tracker s) as t eqn:Hs. symmetry in Hs. intros Ht Hb0.
  assert (at_tracker t [] s) as Hb by (by split). clear Hb0.
  unfold allocate_linear_xrgb8888_buffer. apply wp_bind. unfold active_stream.
  apply (wp_bind_tracker _ _ _ t); [done|]. apply wp_ok_or; [apply Hb|]. intros st Ha.
  do 3 (apply wp_bind, wp_reject; [apply Hb|]; intros _). apply wp_bind.
  eapply (wp_issue_bal _ _ t [] (fun r => match r with
    | Done d => if cd_handle d =? 0 then [] else [RGem (cd_handle d)] | Failed _ => [] end));
    [exact Hb| |].
  { intros r _. by destruct r; simpl; rewrite ?app_nil_r. }
  intros r s1 _ H1. apply wp_bind. destruct r as [dumb|errno]; [apply wp_ret|apply wp_raise, H1].
  apply wp_bind, wp_or_unwind, wp_lift; [apply dumb_no_panic| |].
  2: { eapply (wp_destroy_dumb_bal _ t []); [by rewrite app_nil_r|]. by intros s2 [_ ?]. }
  intros gem Hgem. destruct (dumb_nonzero _ _ _ Hgem) as [Hp Hsz].
  destruct (dumb_handle _ _ _ Hgem) as [-> Hg0]. pose proof Hg0 as Hg0b. apply Z.eqb_neq in Hg0b.
  apply wp_bind. eapply wp_expect; [exact Hp|]. apply wp_bind. eapply wp_expect; [exact Hsz|].
  rewrite Hg0b in H1. simpl in H1. apply wp_bind.
  eapply (wp_issue_bal _ _ t _ (fun r => match r with
    | Done f => if fb_fb_id f =? 0 then [] else [RFramebuffer (fb_fb_id f)] | Failed _ => [] end
    ++ [RGem (cd_handle dumb)])); [exact H1| |].
  { intros r _. by destruct r; simpl; rewrite ?app_nil_r. }
  intros r s2 _ H2. apply wp_bind, wp_or_unwind. destruct r as [fb|errno].
  2: { apply wp_raise. eapply (wp_destroy_dumb_bal _ t []); [by rewrite Hg0b|]. by intros ? [_ ?]. }
  apply wp_ret. apply wp_bind, wp_or_unwind, wp_lift;
    [apply framebuffer_no_panic| |].
  2: { apply wp_bind. eapply wp_remove_fb_bal; [exact H2|]. intros s3 H3.
       eapply (wp_destroy_dumb_bal _ t []); [by rewrite Hg0b|]. by intros ? [_ ?]. }
  intros fbid Hfb. destruct (framebuffer_id_ok _ _ _ _ Hfb) as [-> Hf0].
  pose proof Hf0 as Hf0b. apply Z.eqb_neq in Hf0b. rewrite Hf0b in H2. simpl in H2.
  by eapply wp_allocate_tail.
Qed.

Lemma owned_remove st r i b : ts_buffers st !! i = Some b ->
  owned {| active := Some st; retired := r |}
  ≡ₚ owned {| active := Some (with_buffers st (delete i (ts_buffers st))); retired := r |}
     ++ buffer_resources b.
Proof.
  intros Hi. apply list_elem_of_split_length in Hi as (l1 & l2 & Hl & Hlen).
  unfold owned. simpl. unfold stream_resources at 1 3. simpl. rewrite Hl, Hlen, delete_middle.
  rewrite !fmap_app, fmap_cons, !concat_app. cbn [concat]. perm.
Qed.

Lemma wp_unregister_bal id s :
  tracker_ok (cs_tracker s) -> balanced [] s ->
  wp (unregister_capture_buffer id) (fun _ => balanced []) (balanced []) s.
Proof.
  remember (cs_tracker s) as t eqn:Hs. symmetry in Hs. intros Ht Hb0.
  assert (at_tracker t [] s) as Hb by (by split). clear Hb0. unfold unregister_capture_buffer.
  apply wp_bind. unfold active_stream. apply (wp_bind_tracker _ _ _ t); [done|].
  apply wp_ok_or; [apply Hb|]. intros st Ha. apply wp_bind, wp_ok_or; [apply Hb|]. intros i Hi.
  destruct (position_lookup _ _ _ Hi) as (b & Hlk & _).
  apply wp_bind. eapply wp_expect; [exact Hlk|].
  apply wp_bind, wp_lift; [apply require_state_no_panic| |apply Hb]. intros u _.
  apply wp_bind. eapply (wp_issue_bal _ _ t [] (fun _ => [])); [exact Hb|done|].
  intros r s1 _ H1. apply wp_bind, wp_check; [apply H1|]. intros u' _.
  eapply wp_expect_active; [apply H1|exact Ha|]. apply wp_bind. eapply wp_expect; [exact Hlk|].
  apply wp_bind. unfold put_active. apply (wp_bind_tracker _ _ _ t); [apply H1|].
  apply wp_set_tracker. apply wp_bind.
  eapply (wp_cleanup_tracked b {| active := _; retired := retired t |} []).
  - split; [reflexivity|]. destruct H1 as [H1t H1b]. unfold balanced in *. simpl. rewrite H1b, H1t.
    destruct t as [act ret]. simpl in Ha. subst act. simpl retired.
    rewrite (owned_remove st ret i b Hlk). perm.
  - intros e s2 [_ H2]. apply wp_bind. destruct e; [by apply wp_raise|]. apply wp_ret. by apply wp_ret.
Qed.

Lemma wp_finish_bal sid s :
  tracker_ok (cs_tracker s) -> balanced [] s ->
  wp (finish_retired_capture sid) (fun _ => balanced []) (balanced []) s.
Proof.
  remember (cs_tracker s) as t eqn:Hs. symmetry in Hs. intros Ht Hb.
  unfold finish_retired_capture. apply (wp_bind_tracker _ _ _ t); [done|].
  apply wp_bind, wp_ok_or; [done|]. intros st Hst%keep_some. apply wp_bind, wp_reject; [done|]. intros _.
  apply wp_bind, wp_set_tracker. apply wp_bind.
  eapply (wp_cleanup_all _ _ {| active := active t; retired := None |} []).
  - split; [reflexivity|]. unfold balanced in *. simpl. rewrite Hb, Hs.
    destruct t as [act ret]. simpl in *. subst ret. unfold owned. simpl. unfold stream_resources at 2.
    perm.
  - intros e s2 [_ H2]. apply wp_bind. destruct e; [by apply wp_raise|]. apply wp_ret. by apply wp_ret.
Qed.

Lemma perform_balanced op s :
  syncobj_handles_fresh -> tracker_ok (cs_tracker s) -> balanced [] s ->
  balanced [] (perform lease op s).1.
Proof.
  intros Hfresh Ht Hb. destruct (neutral op) eqn:Hn.
  - pose proof (perform_neutral lease op s Hn Ht) as Hw.
    destruct (emits_neutral lease op Hn s) as (l & Hl & Hm). unfold wp in Hw.
    assert (reaches nstep (cs_tracker s) (perform lease op s).1) as Hr
      by (destruct (perform lease op s) as [s' [u|e|]]; done).
    apply nsteps_owned in Hr. unfold balanced in *. rewrite Hr, Hl.
    assert (all_acquired (cs_log s ++ l) = all_acquired (cs_log s)) as ->.
    { unfold all_acquired. rewrite fmap_app, concat_app. clear -Hm.
      induction Hm as [|e l [He _] _ IH]; [by rewrite app_nil_r|]. simpl. by rewrite He. }
    assert (all_released (cs_log s ++ l) = all_released (cs_log s)) as ->; [|done].
    unfold all_released. rewrite fmap_app, concat_app. clear -Hm.
    induction Hm as [|e l [_ He] _ IH]; [by rewrite app_nil_r|]. simpl. by rewrite He.
  - assert (forall A (m : M A), wp m (fun _ => balanced []) (balanced []) s ->
      balanced [] (forget m s).1) as Hf.
    { intros A m Hm. unfold wp in Hm. unfold forget, mbind.
      destruct (m s) as [s' [a|e|]]; done. }
    destruct op; try done; cbn [perform]; apply Hf;
      auto using wp_allocate_bal, wp_unregister_bal, wp_finish_bal.
    eapply wp_weaken; [by apply wp_register_bal|by intros ? ? [? _]|done].
Qed.
End Accounting.

(** C25: No capture resource leaks or is released twice: on a kernel that never
    hands out a syncobj handle that is still live, in every reachable state the
    syncobjs, GEM handles and framebuffers the kernel handed out are exactly
    those owned by a tracked buffer together with those released, each counted
    once; in particular with no active and no retired stream all of them have
    been released, whatever failed on the way. *)
Theorem capture_no_leak `{K : CaptureKernel} lease s :
  syncobj_handles_fresh -> capture_reachable lease s ->
  all_acquired (cs_log s) ≡ₚ owned (cs_tracker s) ++ all_released (cs_log s) /\
  (cs_tracker s = CaptureTracker_default -> all_acquired (cs_log s) ≡ₚ all_released (cs_log s)).
Proof.
  intros Hfresh Hr.
  assert (balanced [] s) as Hb.
  { induction Hr as [|op s Hr IH]; [exact (perm_nil _)|]. eapply perform_balanced; [done| |done].
    by eapply reachable_ok. }
  split; [exact Hb|]. intros Ht. unfold balanced in Hb. by rewrite Ht in Hb.
Qed.

(** ** Stale streams *)

(** A call that asks for a new frame, buffer or stream. *)
Definition asks_more (e : ioctl) : bool :=
  match e with
  | IoStart _ _ | IoRegister _ _ | IoQueue _ _ | IoCreateDumb _ _ => true
  | _ => false
  end.

Section Stale.
Context `{K : CaptureKernel} (lease : GrantLease).

Lemma emits_quiet_ops op :
  match op with OpStart _ _ | OpRegister _ _ | OpAllocate _ | OpQueue _ _ => false | _ => true end
  = true -> emits (fun e => asks_more e = false) (perform lease op).
Proof.
  assert (forall A (m : M A), emits (fun e => asks_more e = false) m ->
    emits (fun e => asks_more e = false) (forget m)) as Hf
    by (intros A m Hm; apply emits_bind; [done|intros; apply emits_ret]).
  assert (emits (fun e => asks_more e = false) retire) as Hr by (unfold retire; auto 10 with emits).
  assert (emits (fun e => asks_more e = false) stop_capture) as Hs
    by (unfold stop_capture, active_stream; auto 20 with emits).
  assert (emits (fun e => asks_more e = false) retire_invalidated_capture) as Hi
    by (unfold retire_invalidated_capture, active_stream; auto 20 with emits).
  assert (forall b, emits (fun e => asks_more e = false) (cleanup_tracked_buffer_resources b)) as Hc.
  { intros b. unfold cleanup_tracked_buffer_resources, destroy_syncobj_pair, destroy_syncobj,
      cleanup_owned_framebuffer. auto 20 with emits. }
  destruct op; try done; intros _; try apply emits_frame; cbn [perform]; apply Hf; auto.
  - unfold reconcile_grant_state, capture_query_grant. auto 40 with emits.
  - unfold export_capture_buffer, named_buffer, export_syncobj_fd, owned_fd_from_kernel.
    auto 40 with emits.
  - unfold export_implicit_capture_fence, named_buffer, owned_fd_from_kernel. auto 40 with emits.
  - unfold arm_explicit_capture_fence, named_buffer. auto 40 with emits.
  - unfold unregister_capture_buffer, active_stream, expect_active, put_active. auto 40 with emits.
  - unfold take_capture_completion, named_buffer. auto 40 with emits.
  - unfold delegate_explicit_capture_completion, take_capture_completion, named_buffer.
    auto 40 with emits.
  - unfold release_capture_buffer, named_buffer, signal_syncobj_point. auto 40 with emits.
  - unfold retire_cancelled_capture_buffer. auto 40 with emits.
  - unfold finish_retired_capture.
    assert (forall l e, emits (fun e => asks_more e = false) (cleanup_all l e)) as Hall.
    { induction l as [|b l IH]; intros e; [apply emits_ret|]. apply emits_bind; [apply Hc|]. auto. }
    auto 40 with emits.
Qed.

(** The operations that ask for more are refused before any call. *)
Lemma stale_refused {A} (k : TrackedStream -> M A) s st :
  active (cs_tracker s) = Some st -> ts_stale st = true ->
  (let! s := active_stream in do! lift (reject (ts_stale s) StaleStream); k s) s
  = (s, Err StaleStream).
Proof.
  intros Ha Hs. unfold active_stream, mbind, tracker, lift. rewrite Ha. simpl. by rewrite Hs.
Qed.
End Stale.

(** A stream known to be stale is not fed: once a mode change or an
    [ESTALE] has marked the active stream, no operation of the client starts a
    stream, allocates, registers or queues a buffer until it is retired, and
    queueing, registering and allocating report exactly that. *)
Theorem stale_asks_nothing `{K : CaptureKernel} lease s st op :
  active (cs_tracker s) = Some st -> ts_stale st = true ->
  (exists l : list ioctl, cs_log (perform lease op s).1 = (cs_log s ++ l)%list /\
  Forall (fun e => asks_more e = false) l) /\
  match op with
  | OpRegister _ _ | OpAllocate _ | OpQueue _ _ => perform lease op s = (s, Err StaleStream)
  | _ => True
  end.
Proof.
  intros Ha Hs.
  assert (forall A (m : M A), m s = (s, Err StaleStream) -> forget m s = (s, Err StaleStream)) as Hf
    by (intros A m Hm; unfold forget, mbind; by rewrite Hm).
  assert (forall x, x = (s, Err StaleStream) ->
    exists l : list ioctl, cs_log (x : capture_state * outcome CaptureError unit).1 = (cs_log s ++ l)%list /\
      Forall (fun e => asks_more e = false) l) as Hx.
  { intros x ->. exists []. by rewrite app_nil_r. }
  destruct op; try (split; [by apply emits_quiet_ops|done]).
  - split; [|done]. exists []. rewrite app_nil_r. split; [|done]. cbn [perform].
    unfold forget, start_capture, mbind, tracker, lift. rewrite Ha.
    by rewrite bool_decide_eq_true_2 by eauto.
  - assert (perform lease (OpRegister framebuffer_id synchronization) s = (s, Err StaleStream)) as H
      by (apply Hf; by eapply stale_refused). split; [by apply Hx|exact H].
  - assert (perform lease (OpAllocate synchronization) s = (s, Err StaleStream)) as H
      by (apply Hf; by eapply stale_refused). split; [by apply Hx|exact H].
  - assert (perform lease (OpQueue buffer_id user_data) s = (s, Err StaleStream)) as H
      by (apply Hf; by eapply stale_refused). split; [by apply Hx|exact H].
Qed.

(** ** A kernel, and a session on it *)

Definition resource_handle (r : resource) : Z :=
  match r with RSyncobj h | RGem h | RFramebuffer h => h end.
Definition next_handle (log : list ioctl) : Z :=
  1 + foldr (fun r acc => Z.max (resource_handle r) acc) 0 (all_acquired log).
Definition registrations (log : list ioctl) : Z :=
  Z.of_nat (length (List.filter (fun e => match e with IoRegister _ _ => true | _ => false end) log)).

(** An orderly kernel: one 64x32 stream, fresh handles. *)
Definition orderly_kernel : CaptureKernel :=
  {| k_get_grant := fun _ => Done {| gg_grant_id := 1; gg_connector_id := 42;
       gg_rights := DISPLAY_V1_RIGHTS; gg_state := GRANT_STATE_ACTIVE; gg_flags := 0;
       gg_output_index := 0; gg_reserved := 0 |};
     k_query_caps := fun _ _ _ => Failed 0;
     k_getcrtc := fun _ c => Done {| cr_crtc_id := c; cr_mode_valid := 1;
       cr_mode := {| mi_hdisplay := 64; mi_vdisplay := 32; mi_vrefresh := 60; mi_flags := 0 |} |};
     k_start := fun _ a => Done {| cs_crtc_id := cs_crtc_id a; cs_flags := cs_flags a;
       cs_stream_id := 7; cs_reserved := 0; cs_mode_generation := 3 |};
     k_stop := fun _ _ => Done tt;
     k_register := fun log a => Done {| rb_stream_id := rb_stream_id a; rb_fb_id := rb_fb_id a;
       rb_ready_syncobj_handle := rb_ready_syncobj_handle a;
       rb_reuse_syncobj_handle := rb_reuse_syncobj_handle a; rb_flags := rb_flags a;
       rb_buffer_id := 1 + registrations log; rb_mode_generation := rb_mode_generation a |};
     k_unregister := fun _ _ _ => Done tt;
     k_queue := fun _ _ => Done tt;
     k_create_dumb := fun log d => Done {| cd_height := cd_height d; cd_width := cd_width d;
       cd_bpp := cd_bpp d; cd_flags := 0; cd_handle := next_handle log; cd_pitch := 256;
       cd_size := 8192 |};
     k_destroy_dumb := fun _ _ => Done tt;
     k_addfb2 := fun log f => Done {| fb_fb_id := next_handle log; fb_width := fb_width f;
       fb_height := fb_height f; fb_pixel_format := fb_pixel_format f; fb_flags := fb_flags f;
       fb_handles := fb_handles f; fb_pitches := fb_pitches f; fb_offsets := fb_offsets f;
       fb_modifier := fb_modifier f |};
     k_rmfb := fun _ _ => Done tt;
     k_prime := fun _ p => Done {| ph_handle := ph_handle p; ph_flags := ph_flags p; ph_fd := 20 |};
     k_export_sync_file := fun _ _ _ => Failed 22;
     k_syncobj_create := fun log => Done {| sc_handle := next_handle log; sc_flags := 0 |};
     k_syncobj_destroy := fun _ _ => Done tt;
     k_syncobj_to_fd := fun _ a => Failed 22;
     k_syncobj_eventfd := fun _ a => Done a;
     k_signal := fun _ a => Done a;
     k_eventfd := fun _ => Done 30;
     k_dup := fun _ _ => Done 21 |}.

Lemma orderly_fresh : syncobj_handles_fresh (K := orderly_kernel).
Proof.
  intros log a live [= <-] _ Hp Hin. cbn [sc_handle] in Hin.
  assert (RSyncobj (next_handle log) ∈ all_acquired log) as H
    by (rewrite Hp; apply elem_of_app; by left).
  unfold next_handle in H. revert H. generalize (all_acquired log) as l.
  assert (forall l h, RSyncobj h ∈ l -> h <= foldr (fun r acc => Z.max (resource_handle r) acc) 0 l)
    as Hmax.
  { induction l as [|r l IH]; intros h; [by intros ?%elem_of_nil|].
    intros [<-|H]%elem_of_cons; simpl; [lia|]. apply IH in H. lia. }
  intros l H%Hmax. lia.
Qed.

Definition session_lease : GrantLease :=
  {| gl_holder := 3; gl_lifetime := ExternalGrantor;
     gl_metadata := {| gm_grant_id := 1; gm_connector_id := 42; gm_output_index := 0;
       gm_rights := DISPLAY_V1_RIGHTS; gm_flags := 0; gm_initial_state := 1;
       gm_capture_uapi_major := 0; gm_capture_uapi_minor := 12 |} |}.

Definition session_caps : CaptureCapabilities :=
  {| ca_uapi_major := 0; ca_uapi_minor := 12; ca_crtc_id := 9;
     ca_flags := CAPTURE_CAP_SYNCOBJ_TIMELINE;
     ca_formats := [{| fm_format := DRM_FORMAT_XRGB8888; fm_modifier := DRM_FORMAT_MOD_LINEAR |}];
     ca_max_registered_buffers := 4 |}.

Definition session_frame (flags status generation : Z) : CaptureFrameEvent :=
  {| fe_user_data := 100; fe_sequence := 1; fe_timestamp_ns := 5; fe_mode_generation := generation;
     fe_stream_id := 7; fe_buffer_id := 1; fe_status := status; fe_flags := flags;
     fe_dropped_frames := 0; fe_damage_x := 0; fe_damage_y := 0; fe_damage_width := 64;
     fe_damage_height := 32; fe_cursor_serial := 0; fe_cursor_flags := 0; fe_cursor_x := 0;
     fe_cursor_y := 0; fe_cursor_hotspot_x := 0; fe_cursor_hotspot_y := 0; fe_cursor_width := 0;
     fe_cursor_height := 0 |}.

(** Allocate two buffers, capture a frame into the first that reports a mode
    change, consume it, stop and finish. *)
Definition session_ops : list operation :=
  [OpStart session_caps IncludeInFrame; OpAllocate Explicit; OpAllocate Explicit; OpQueue 1 100;
   OpFrame (session_frame CAPTURE_FRAME_MODE_CHANGED (- ESTALE) 4);
   OpTake {| cr_stream_id := 7; cr_buffer_id := 1; cr_user_data := 100; cr_ready_point := Some 1 |};
   OpRelease 7 1; OpStop; OpFinish 7].

Definition session (n : nat) : capture_state :=
  foldl (fun s op => (perform (K := orderly_kernel) session_lease op s).1)
    {| cs_tracker := CaptureTracker_default; cs_log := [] |} (take n session_ops).

Lemma session_reachable n : capture_reachable (K := orderly_kernel) session_lease (session n).
Proof.
  unfold session. generalize (take n session_ops) as l. intros l.
  induction l as [|op l IH] using rev_ind; [apply reach_new|].
  rewrite foldl_app. simpl. by apply reach_op.
Qed.

Lemma capture_refines_protocol_witness :
  owners_of (cs_tracker (session 3)) = {| ow_stream := Some (7, true); ow_buffers := [(1, Idle); (2, Idle)] |} /\
  owners_of (cs_tracker (session 4)) = {| ow_stream := Some (7, true); ow_buffers := [(1, Queued); (2, Idle)] |} /\
  own_step (QueuedFor 1) (owners_of (cs_tracker (session 3)))
    (owners_of (cs_tracker (perform (K := orderly_kernel) session_lease (OpQueue 1 100) (session 3)).1)).
Proof.
  split; [vm_compute; reflexivity|]. split; [vm_compute; reflexivity|].
  assert (Hok : succeeded (K := orderly_kernel) session_lease (OpQueue 1 100) (session 3) = true) by (vm_compute; reflexivity).
  destruct (capture_refines_protocol (K := orderly_kernel) session_lease (session 3) (OpQueue 1 100)
           (session_reachable 3)) as (a & Ha & Hs).
  rewrite Hok in Ha. cbn [does] in Ha. rewrite Ha in Hs. exact Hs.
Defined.

Lemma capture_reachable_sound_witness :
  (perform (K := orderly_kernel) session_lease OpStop (session 7)).2 <> Panic /\
  length (List.filter is_queued (default [] (ts_buffers <$> active (cs_tracker (session 4))))) = 1%nat.
Proof.
  split; [|vm_compute; reflexivity].
  exact (proj1 (capture_reachable_sound (K := orderly_kernel) session_lease (session 7) OpStop
           (session_reachable 7))).
Defined.

Lemma capture_no_leak_witness :
  cs_tracker (session 9) = CaptureTracker_default /\
  length (all_acquired (cs_log (session 9))) = 8%nat /\
  all_acquired (cs_log (session 9)) ≡ₚ all_released (cs_log (session 9)).
Proof.
  split; [vm_compute; reflexivity|]. split; [vm_compute; reflexivity|].
  apply (capture_no_leak (K := orderly_kernel) session_lease (session 9) orderly_fresh
           (session_reachable 9)).
  vm_compute. reflexivity.
Defined.

Lemma stale_asks_nothing_witness :
  perform (K := orderly_kernel) session_lease (OpQueue 2 101) (session 5)
  = (session 5, Err StaleStream).
Proof.
  destruct (active (cs_tracker (session 5))) as [st|] eqn:Ha; [|vm_compute in Ha; discriminate].
  assert (ts_stale st = true) as Hs by (vm_compute in Ha; injection Ha as <-; reflexivity).
  exact (proj2 (stale_asks_nothing (K := orderly_kernel) session_lease (session 5) st
           (OpQueue 2 101) Ha Hs)).
Defined.
