(* ===== verification/CapturePhases.v ===== *)
(** * What the owner of the pool knows of its buffers

    For the consumer of a capture stream a buffer is one of three things: free,
    being filled by the kernel, or shown to the consumer.  [phase_in] reads that
    from the tracker of CastkmsCapture; the lemmas say what each operation of
    CaptureClient that runs while a stream is shown does to it. *)

From S2P Require Import Prelude Bytes Text CastkmsSys Grant Castkms CastkmsEvent CastkmsCapture CaptureClient CaptureInvariant.

Inductive phase := Filling | Shown.

Global Instance phase_eq_dec : EqDecision phase.
Proof. solve_decision. Defined.

(** A free buffer has no phase. *)
Definition phase_of (s : TrackedBufferState) : option phase :=
  match s with
  | TIdle => None
  | TQueued _ | TCompleted _ => Some Filling
  | TConsumerOwned _ => Some Shown
  end.

Definition phase_at (t : CaptureTracker) (stream_id id : Z) : option TrackedBufferState :=
  match stream t stream_id with
  | Some s => tb_state <$> buffer s id
  | None => None
  end.

Definition phase_in (t : CaptureTracker) (stream_id id : Z) : option phase :=
  match phase_at t stream_id id with Some s => phase_of s | None => None end.

(** ** What an operation does to the phases *)

Definition keeps_phases (t t' : CaptureTracker) : Prop :=
  same_active t t' /\ forall sid id, phase_in t' sid id = phase_in t sid id.

(** Only this buffer changes. *)
Definition moves (t t' : CaptureTracker) (sid id : Z) (p : option phase) : Prop :=
  same_active t t' /\
  forall id', phase_in t' sid id' = if id' =? id then p else phase_in t sid id'.

Lemma keeps_refl t : keeps_phases t t.
Proof. split; [apply same_active_refl|done]. Qed.

Lemma keeps_trans t1 t2 t3 : keeps_phases t1 t2 -> keeps_phases t2 t3 -> keeps_phases t1 t3.
Proof.
  intros [H1 H1'] [H2 H2']. split; [by eapply same_active_trans|].
  intros sid id. by rewrite H2', H1'.
Qed.

Lemma buffer_mut_lookup s id b f id' : buffer s id = Some b -> (forall x, tb_id (f x) = tb_id x) ->
  buffer (buffer_mut s id f) id' = if id' =? id then Some (f b) else buffer s id'.
Proof.
  unfold buffer, buffer_mut. simpl. intros Hb Hf.
  induction (ts_buffers s) as [|x l IH]; simpl in *; [done|].
  destruct (tb_id x =? id) eqn:Hx; simpl.
  - injection Hb as ->. rewrite Hf. destruct (id' =? id) eqn:Hi; breflect.
    + subst. by rewrite Z.eqb_refl.
    + destruct (tb_id b =? id') eqn:He; breflect; [congruence|]. done.
  - rewrite (IH Hb). destruct (id' =? id) eqn:Hi; breflect; [|done].
    subst. by rewrite (proj2 (Z.eqb_neq _ _) Hx).
Qed.

Lemma stream_set t sid s s' sid' : tracker_ok t -> stream t sid = Some s -> ts_info s' = ts_info s ->
  stream (set_stream t sid s') sid' = if sid' =? sid then Some s' else stream t sid'.
Proof.
  intros Ht Hs Hi. assert (forall i, named i s' = named i s) as Hn by (intros; unfold named; by rewrite Hi).
  destruct (stream_cases _ _ _ Hs) as [[Ha Hk]|(Hk & Hr & Hk')]; unfold set_stream, stream.
  - rewrite Ha. simpl. rewrite Hk. simpl. rewrite Hn.
    destruct (to_one _ Ht) as [He|He]; [congruence|]. rewrite He. simpl. unfold named in *.
    apply Z.eqb_eq in Hk. rewrite Hk, (Z.eqb_sym sid' sid). by destruct (sid =? sid').
  - rewrite Hk. simpl. destruct (to_one _ Ht) as [He|He]; [|congruence]. rewrite He, Hr. simpl.
    rewrite Hn. unfold named in *. apply Z.eqb_eq in Hk'. rewrite Hk', (Z.eqb_sym sid' sid).
    by destruct (sid =? sid').
Qed.

Lemma set_same_active t sid s s' : stream t sid = Some s -> ts_info s' = ts_info s ->
  same_active t (set_stream t sid s').
Proof.
  intros [[Ha Hk]|(Hk & _ & _)]%stream_cases Hi st; unfold set_stream.
  - rewrite Ha. simpl. rewrite Hk. simpl. intros E. injection E as <-. by exists s.
  - rewrite Hk. simpl. intros Hst. by exists st.
Qed.

(** A new state for one buffer. *)
Lemma set_phase t sid s id b f : tracker_ok t ->
  stream t sid = Some s -> buffer s id = Some b -> (forall x, tb_id (f x) = tb_id x) ->
  moves t (set_stream t sid (buffer_mut s id f)) sid id (phase_of (tb_state (f b))).
Proof.
  intros Ht Hs Hb Hf. split; [by eapply set_same_active|]. intros id'.
  unfold phase_in, phase_at. rewrite (stream_set _ _ s), Z.eqb_refl by done.
  rewrite (buffer_mut_lookup _ _ b) by done. rewrite Hs. by destruct (id' =? id).
Qed.

Lemma phase_is t sid s id b : stream t sid = Some s -> buffer s id = Some b ->
  phase_in t sid id = phase_of (tb_state b).
Proof. intros Hs Hb. unfold phase_in, phase_at. by rewrite Hs, Hb. Qed.

(** A move to the phase the buffer had. *)
Lemma moves_keeps t s' sid s id b f : tracker_ok t ->
  stream t sid = Some s -> buffer s id = Some b -> (forall x, tb_id (f x) = tb_id x) ->
  ts_info s' = ts_info s -> ts_buffers s' = ts_buffers (buffer_mut s id f) ->
  phase_of (tb_state (f b)) = phase_of (tb_state b) ->
  keeps_phases t (set_stream t sid s').
Proof.
  intros Ht Hs Hb Hf Hi Hbs Hp. split; [by eapply set_same_active|]. intros sid' id'.
  unfold phase_in, phase_at. rewrite (stream_set _ _ s) by done.
  destruct (sid' =? sid) eqn:Hd; breflect; [|done]. subst. rewrite Hs.
  assert (buffer s' id' = buffer (buffer_mut s id f) id') as -> by (unfold buffer; by rewrite Hbs).
  rewrite (buffer_mut_lookup _ _ b) by done.
  destruct (id' =? id) eqn:He; breflect; [|done]. subst. by rewrite Hb.
Qed.

Lemma stale_keeps s r :
  keeps_phases {| active := Some s; retired := r |} {| active := Some (with_stale s); retired := r |}.
Proof.
  split; [intros s' Hs; injection Hs as <-; by exists s|]. intros sid id.
  unfold phase_in, phase_at, stream. simpl. unfold named, buffer. simpl. by destruct (_ =? sid).
Qed.

Lemma mark_stale_keeps t sid : keeps_phases t (mark_active_stale t sid).
Proof.
  unfold mark_active_stale. destruct t as [[s|] r]; simpl; [|apply keeps_refl].
  destruct (named sid s); [apply stale_keeps|apply keeps_refl].
Qed.

Lemma retire_keeps t t' n : retire_active t = Ok (t', n) -> keeps_phases t t'.
Proof.
  unfold retire_active. destruct (active t) as [s|] eqn:Ha; [|done].
  destruct (retired t) eqn:Hr; [done|]. intros E. injection E as <- <-. split; [done|]. intros sid id.
  unfold phase_in, phase_at, stream. simpl. rewrite Ha, Hr. simpl.
  case_bool_decide as Hb; simpl; [|by destruct (named sid s)].
  destruct (named sid s); [|done]. unfold buffer. by rewrite Hb.
Qed.

Lemma frame_keeps t event : tracker_ok t -> keeps_phases t (record_frame t event).1.
Proof.
  intros Ht. destruct (record_frame t event) as [t' r] eqn:Hf. simpl.
  destruct r as [[]|e|]; [|unfold record_frame in Hf; case_match; simplify_eq; apply keeps_refl..].
  apply record_frame_inv in Hf as (sid & s & id & b & q & Hs & Hb & Hq & _ & _ & _ & _ & ->).
  eapply (moves_keeps _ _ _ s id b (fun b => with_state b (TCompleted {| cm_queue := q; cm_frame := event |})));
    try done; [by case_match..|]. simpl. by rewrite Hq.
Qed.

Lemma events_keep l : forall t, tracker_ok t ->
  tracker_ok (record_capture_events t l).1 /\ keeps_phases t (record_capture_events t l).1.
Proof.
  induction l as [|e l IH]; intros t Ht; [by split; [|apply keeps_refl]|]. simpl.
  destruct e as [frame| | | |]; auto.
  pose proof (frame_keeps t frame Ht) as Hk. destruct (record_frame t frame) as [t' r] eqn:Hf. simpl in Hk.
  destruct r as [[]|e|]; simpl; [|unfold record_frame in Hf; case_match; by simplify_eq..].
  assert (tracker_ok t') as Ht' by (by eapply lstep_follows; [by eapply l_frame|]).
  destruct (IH t' Ht') as [? ?]. split; [done|]. by eapply keeps_trans.
Qed.

Lemma rtc_keeps t s : reaches keeps_phases t s -> keeps_phases t (cs_tracker s).
Proof. unfold reaches. induction 1 as [|t t1 t2 Hk _ IH]; [apply keeps_refl|by eapply keeps_trans]. Qed.

(** ** The operations *)

Section Operations.
Context `{K : CaptureKernel} (lease : GrantLease).

Lemma queue_moves id ud s : tracker_ok (cs_tracker s) ->
  wp (queue_capture_buffer id ud)
     (fun q s' => exists st, active (cs_tracker s) = Some st /\ q_buffer_id q = id /\
        q_stream_id q = si_stream_id (ts_info st) /\
        phase_in (cs_tracker s) (si_stream_id (ts_info st)) id = None /\
        moves (cs_tracker s) (cs_tracker s') (si_stream_id (ts_info st)) id (Some Filling))
     (reaches keeps_phases (cs_tracker s)) s.
Proof.
  remember (cs_tracker s) as t eqn:Hs. symmetry in Hs. intros Ht. unfold queue_capture_buffer.
  apply wp_active_stream; [done|]. intros st Ha. wrej Hst. wrej Hcap. wrej Hud.
  assert (stream t (si_stream_id (ts_info st)) = Some st) as Hstr.
  { unfold stream. rewrite Ha. simpl. unfold named. by rewrite Z.eqb_refl. }
  apply wp_bind_ok_or; [done|]. intros b Hb.
  apply wp_bind_lift; [apply require_state_no_panic|done|]. intros u Hidle%require_state_ok%state_idle.
  apply wp_bind_lift; [apply queue_points_no_panic|done|]. intros points Hp.
  wqn r. destruct r as [u'|errno].
  - eapply wp_expect_active; [done|done|]. apply wp_bind. eapply wp_expect; [exact Hb|].
    eapply wp_put_active; [done|]. intros z Hz. apply wp_ret. exists st. rewrite Hz.
    rewrite (phase_is t _ st id b), Hidle by done. split_and!; try done.
    match goal with |- moves _ {| active := Some (buffer_mut _ _ ?f); retired := _ |} _ _ _ =>
      pose proof (set_phase t _ st id b f Ht Hstr Hb) as Hm end.
    unfold set_stream in Hm. rewrite Ha in Hm. simpl in Hm. unfold named in Hm. rewrite Z.eqb_refl in Hm.
    apply Hm. intros x. by destruct (qp_next_ready points).
  - apply wp_bind. destruct (errno =? ESTALE); [|apply wp_ret, wp_raise; by apply reaches_same].
    apply (wp_bind_tracker _ _ _ t); [done|]. apply wp_set_tracker, wp_raise.
    unfold reaches. simpl. apply rtc_once, mark_stale_keeps.
Qed.

Lemma take_moves ready s : tracker_ok (cs_tracker s) ->
  wp (take_capture_completion ready)
     (fun c s' => q_buffer_id (cm_queue c) = cr_buffer_id ready /\
        q_stream_id (cm_queue c) = cr_stream_id ready /\
        phase_in (cs_tracker s) (cr_stream_id ready) (cr_buffer_id ready) = Some Filling /\
        moves (cs_tracker s) (cs_tracker s') (cr_stream_id ready) (cr_buffer_id ready) (Some Shown))
     (reaches keeps_phases (cs_tracker s)) s.
Proof.
  remember (cs_tracker s) as t eqn:Hs. symmetry in Hs. intros Ht. unfold take_capture_completion.
  apply wp_named_buffer; [done|]. intros st b Hst Hb.
  apply wp_bind_lift; [by destruct (tb_state b)|done|]. intros c Hc. wrej Hu. wrej Hp.
  apply (wp_bind_tracker _ _ _ t); [done|]. apply wp_bind, wp_set_tracker, wp_ret. simpl.
  assert (tb_state b = TCompleted c) as Hbs by (destruct (tb_state b); try done; by injection Hc as ->).
  pose proof (stream_is_ok _ _ _ Ht Hst) as Hok.
  assert (buffer_ok (si_stream_id (ts_info st)) b) as Hbo.
  { eapply Forall_forall; [apply so_buffers; exact Hok|]. apply find_some in Hb as [Hb _].
    by apply list_elem_of_In. }
  destruct (bo_queue _ _ Hbo (cm_queue c)) as (Hq1 & Hq2 & _); [unfold in_flight; by rewrite Hbs|].
  apply find_some in Hb as Hb'. destruct Hb' as [_ Hid%Z.eqb_eq].
  rewrite (phase_is t _ st _ b), Hbs by done.
  split_and!; [congruence| |done|].
  2: { by apply (set_phase t _ st _ b (fun b => with_state b (TConsumerOwned c)) Ht Hst Hb). }
  rewrite Hq1. destruct (stream_cases _ _ _ Hst) as [[_ Hn]|(_ & _ & Hn)]; unfold named in Hn; by apply Z.eqb_eq in Hn.
Qed.

Lemma delegate_moves fence s : tracker_ok (cs_tracker s) ->
  wp (delegate_explicit_capture_completion fence)
     (fun c s' => q_buffer_id (cm_queue c) = ef_buffer_id fence /\
        q_stream_id (cm_queue c) = ef_stream_id fence /\
        phase_in (cs_tracker s) (ef_stream_id fence) (ef_buffer_id fence) = Some Filling /\
        moves (cs_tracker s) (cs_tracker s') (ef_stream_id fence) (ef_buffer_id fence) (Some Shown))
     (reaches keeps_phases (cs_tracker s)) s.
Proof.
  remember (cs_tracker s) as t eqn:Hs. symmetry in Hs. intros Ht.
  unfold delegate_explicit_capture_completion.
  wqn u. match goal with E : cs_tracker ?z = t |- wp _ _ _ ?z =>
    rewrite <- E in Ht |- *; by apply take_moves end.
Qed.

Lemma release_moves sid id s : tracker_ok (cs_tracker s) ->
  wp (release_capture_buffer sid id)
     (fun _ s' => phase_in (cs_tracker s) sid id = Some Shown /\ moves (cs_tracker s) (cs_tracker s') sid id None)
     (reaches keeps_phases (cs_tracker s)) s.
Proof.
  remember (cs_tracker s) as t eqn:Hs. symmetry in Hs. intros Ht. unfold release_capture_buffer.
  apply wp_named_buffer; [done|]. intros st b Hst Hb.
  apply wp_bind_lift; [apply require_state_no_panic|done|]. intros u Hc%require_state_ok.
  apply wp_bind_lift; [apply reuse_no_panic|done|]. intros point Hp.
  destruct (match tb_synchronization b with TImplicit => _ | TExplicit p => _ end) as [handle rp].
  apply wp_bind_quiet; [destruct handle, rp; auto with quiet|done|]. intros u' z Hz.
  apply (wp_bind_tracker _ _ _ t); [done|]. apply wp_bind. eapply wp_expect; [done|].
  apply wp_bind. eapply wp_expect; [done|]. apply wp_bind, wp_set_tracker, wp_ret. simpl.
  rewrite (phase_is t _ st _ b) by done. split; [by destruct (tb_state b)|].
  match goal with |- moves _ (set_stream _ _ (buffer_mut _ _ ?f)) _ _ _ =>
    apply (set_phase t _ st id b f Ht Hst Hb) end.
  intros x. by destruct rp.
Qed.

Lemma stop_keeps s : tracker_ok (cs_tracker s) ->
  wp stop_capture (fun _ => reaches keeps_phases (cs_tracker s)) (reaches keeps_phases (cs_tracker s)) s.
Proof.
  remember (cs_tracker s) as t eqn:Hs. symmetry in Hs. intros Ht. unfold stop_capture.
  apply wp_active_stream; [done|]. intros st Ha. wq. wq.
  eapply wp_retire; [done|done|by eexists|]. intros n z t' Hr Hz. apply wp_ret.
  unfold reaches. rewrite Hz. by eapply rtc_once, retire_keeps.
Qed.

Lemma retire_invalidated_keeps s : tracker_ok (cs_tracker s) ->
  wp retire_invalidated_capture (fun _ => reaches keeps_phases (cs_tracker s)) (reaches keeps_phases (cs_tracker s)) s.
Proof.
  remember (cs_tracker s) as t eqn:Hs. symmetry in Hs. intros Ht.
  unfold retire_invalidated_capture. apply wp_active_stream; [done|]. intros st Ha.
  eapply wp_retire; [done|done|by eexists|]. intros n z t' Hr Hz. apply wp_ret.
  unfold reaches. rewrite Hz. by eapply rtc_once, retire_keeps.
Qed.

Lemma reconcile_keeps evidence s : tracker_ok (cs_tracker s) ->
  wp (reconcile_grant_state lease evidence) (fun _ => reaches keeps_phases (cs_tracker s))
     (reaches keeps_phases (cs_tracker s)) s.
Proof.
  remember (cs_tracker s) as t eqn:Hs. symmetry in Hs. intros Ht. unfold reconcile_grant_state.
  apply wp_bind_lift; [apply evidence_no_panic|done|]. intros _ _.
  wq. apply (wp_bind_tracker _ _ _ t); [done|]. apply wp_bind.
  eapply (wp_weaken _ (fun _ => reaches keeps_phases t)); [|intros ? ? ?; by apply wp_ret|done].
  destruct (active t) as [st|] eqn:Ha; [|destruct (retired t); apply wp_ret; by apply reaches_same].
  destruct (capture_restart_required _ _); [|apply wp_ret; by apply reaches_same].
  apply wp_bind. eapply (wp_weaken _ (fun _ => reaches keeps_phases t)); [|intros ? ? ?; by apply wp_ret|done].
  destruct (is_terminal _).
  - rewrite <- H. apply retire_invalidated_keeps. by rewrite H.
  - rewrite <- H. apply stop_keeps. by rewrite H.
Qed.

(** A stream that was just started or allocated in has no phases. *)
Lemma unused_phase t sid id : unused t -> phase_in t sid id = None.
Proof.
  intros Hu. unfold phase_in, phase_at. destruct (stream t sid) as [s|] eqn:Hs; [|done].
  destruct (buffer s id) as [b|] eqn:Hb; [|done]. simpl.
  apply find_some in Hb as [Hb _]. rewrite (Hu s b); [done| |by apply list_elem_of_In].
  destruct (stream_cases _ _ _ Hs) as [[? _]|(_ & ? & _)]; auto.
Qed.

Lemma start_unused caps mode s :
  wp (start_capture lease caps mode)
     (fun info s' => unused (cs_tracker s') /\
        exists st, active (cs_tracker s') = Some st /\ ts_info st = info)
     (reaches keeps_phases (cs_tracker s)) s.
Proof.
  remember (cs_tracker s) as t eqn:Hs. symmetry in Hs. unfold start_capture.
  apply (wp_bind_tracker _ _ _ t); [done|]. wrej Ha. wrej Hr.
  wq. wq. wq. wrej Hact. wqn mode3. destruct mode3 as [[w h] hz]. wq. wqn out.
  wif Hc; [wq; apply wp_raise; by apply reaches_same|].
  apply wp_bind_ok_or; [done|]. intros sid _.
  destruct (nonzero (cs_mode_generation out)) as [g|];
    [|wq; apply wp_raise; by apply reaches_same].
  eapply wp_put_active; [done|]. intros z Hz. apply wp_ret. rewrite Hz. breflect.
  split; [|by eexists]. intros st b [Hst|Hst] Hb; simpl in Hst.
  - injection Hst as <-. by apply not_elem_of_nil in Hb.
  - exfalso. apply Hr. by eexists.
Qed.
End Operations.
