(* ===== verification/DisplayState.v ===== *)
(** * Cast-display runtime state

    [DisplayRuntimeState] of [pronk/src/display_state.rs]: the snapshot that
    actors publish.  Observers compare revisions and route generations instead
    of snapshots, so the theorems are about what equal counters imply. *)

From S2P Require Import Prelude Bytes.

(** ** Data *)

Inductive AttachmentState := Attached | Detached | UnknownAttachment.

Record RoutedMode := {
  rm_width : Z; rm_height : Z; rm_refresh_millihz : Z; rm_flags : Z }.

(** [RouteTarget] wraps a [NonZeroU32]. *)
Record ActiveRoute := { ar_target : Z; ar_mode : RoutedMode }.

Record DisplayTopology := { dt_attachment : AttachmentState; dt_route : option ActiveRoute }.

Inductive RouteState := Disabled | Active (route : ActiveRoute).

Inductive MediaState :=
  | Idle | StartingCapture | StartingMedia | Running | Suspended | Reconfiguring
  | Reconnecting | Stopping | Failed.

Record DisplayRuntimeState := {
  revision : Z;
  route_generation : Z;
  attachment : AttachmentState;
  route : RouteState;
  media_generation : Z;
  media : MediaState;
  last_error : option (list Z) }.

Global Instance AttachmentState_eq_dec : EqDecision AttachmentState.
Proof. solve_decision. Defined.
Global Instance RoutedMode_eq_dec : EqDecision RoutedMode.
Proof. solve_decision. Defined.
Global Instance ActiveRoute_eq_dec : EqDecision ActiveRoute.
Proof. solve_decision. Defined.
Global Instance RouteState_eq_dec : EqDecision RouteState.
Proof. solve_decision. Defined.
Global Instance MediaState_eq_dec : EqDecision MediaState.
Proof. solve_decision. Defined.

(** ** Operations *)

Definition attached (initial_revision : Z) : DisplayRuntimeState :=
  {| revision := Z.max initial_revision 1; route_generation := 0; attachment := Attached;
     route := Disabled; media_generation := 0; media := Idle; last_error := None |}.

Definition advance (s : DisplayRuntimeState) : DisplayRuntimeState :=
  {| revision := saturating_add64 (revision s) 1; route_generation := route_generation s;
     attachment := attachment s; route := route s; media_generation := media_generation s;
     media := media s; last_error := last_error s |}.

(** The route a topology allows: none unless the connector is attached. *)
Definition effective_route (t : DisplayTopology) : RouteState :=
  if bool_decide (dt_attachment t = Attached)
  then match dt_route t with None => Disabled | Some r => Active r end
  else Disabled.

Definition observe_topology (s : DisplayRuntimeState) (t : DisplayTopology)
  : DisplayRuntimeState * bool :=
  let attachment' := dt_attachment t in
  let route' := effective_route t in
  if bool_decide (attachment s = attachment') && bool_decide (route s = route') then (s, false)
  else
    (advance {| revision := revision s;
       route_generation := if bool_decide (route s <> route')
                           then saturating_add64 (route_generation s) 1 else route_generation s;
       attachment := attachment'; route := route'; media_generation := media_generation s;
       media := media s; last_error := last_error s |}, true).

Definition observe_media (s : DisplayRuntimeState) (generation : Z) (state : MediaState)
    (error : option (list Z)) : DisplayRuntimeState * bool :=
  if (media_generation s =? generation) && bool_decide (media s = state)
     && bool_decide (last_error s = error) then (s, false)
  else
    (advance {| revision := revision s; route_generation := route_generation s;
       attachment := attachment s; route := route s; media_generation := generation;
       media := state; last_error := error |}, true).

Definition advance_to_at_least (s : DisplayRuntimeState) (r : Z) : DisplayRuntimeState :=
  if revision s <? r then
    {| revision := r; route_generation := route_generation s; attachment := attachment s;
       route := route s; media_generation := media_generation s; media := media s;
       last_error := last_error s |}
  else s.

(** ** Histories *)

Inductive observation :=
  | Topology (t : DisplayTopology)
  | Media (generation : Z) (state : MediaState) (error : option (list Z))
  | AtLeast (r : Z).

Definition observe (s : DisplayRuntimeState) (o : observation) : DisplayRuntimeState * bool :=
  match o with
  | Topology t => observe_topology s t
  | Media g st e => observe_media s g st e
  | AtLeast r => (advance_to_at_least s r, false)
  end.

Definition observe_all (s : DisplayRuntimeState) (os : list observation) : DisplayRuntimeState :=
  foldl (fun s o => (observe s o).1) s os.

(** Everything a snapshot says apart from the counters. *)
Definition content (s : DisplayRuntimeState) :=
  (attachment s, route s, media_generation s, media s, last_error s).

(** How two snapshots of one display relate in time. *)
Record later (s s' : DisplayRuntimeState) : Prop := {
  later_revision : revision s <= revision s';
  later_generation : route_generation s <= route_generation s';
  later_same : revision s' = revision s -> revision s < u64_MAX -> s' = s;
  later_route : route_generation s' = route_generation s -> route_generation s < u64_MAX ->
                route s' = route s }.

Lemma later_refl s : later s s.
Proof. by split. Qed.

Lemma later_trans s1 s2 s3 : later s1 s2 -> later s2 s3 -> later s1 s3.
Proof.
  intros [Hr Hg Hs Ho] [Hr' Hg' Hs' Ho']. split; [lia|lia| |].
  - intros E H. rewrite Hs' by lia. apply Hs; lia.
  - intros E H. rewrite Ho' by lia. apply Ho; lia.
Qed.

Definition counters_ok (s : DisplayRuntimeState) : Prop :=
  1 <= revision s <= u64_MAX /\ 0 <= route_generation s <= u64_MAX /\
  (attachment s = Attached \/ route s = Disabled).

Definition observation_ok (o : observation) : Prop :=
  match o with AtLeast r => u64 r | _ => True end.

Lemma observe_later s o :
  counters_ok s -> observation_ok o -> counters_ok (observe s o).1 /\ later s (observe s o).1.
Proof.
  intros ((? & ?) & (? & ?) & Hr) Ho.
  destruct o as [t|g st e|r]; cbn [observe observation_ok fst] in *.
  - unfold observe_topology. destruct (_ && _) eqn:E; [by split; [|apply later_refl]|].
    split; [split_and!; simpl; unfold saturating_add64, effective_route;
            repeat case_bool_decide; eauto; lia|].
    split; simpl; unfold saturating_add64; repeat case_bool_decide; intros; try lia.
    all: symmetry; first [done | by apply dec_stable].
  - unfold observe_media. destruct (_ && _) eqn:E; [by split; [|apply later_refl]|].
    split; [split_and!; simpl; unfold saturating_add64; auto; lia|].
    split; simpl; unfold saturating_add64; intros; try lia; done.
  - unfold advance_to_at_least, uint in *. destruct (revision s <? r) eqn:E; breflect;
      [|by split; [|apply later_refl]].
    split; [split_and!; simpl; auto; unfold u64_MAX in *; lia|].
    split; simpl; intros; try lia; done.
Qed.

Lemma observe_all_later os s :
  counters_ok s -> Forall observation_ok os ->
  counters_ok (observe_all s os) /\ later s (observe_all s os).
Proof.
  revert s. induction os as [|o os IH]; intros s Hs Hos; [by split; [|apply later_refl]|].
  inversion Hos; subst. destruct (observe_later s o) as [Hk1 L1]; [done..|].
  destruct (IH (observe s o).1) as [Hk2 L2]; [done..|].
  split; [done|]. by eapply later_trans.
Qed.

Lemma attached_ok r : u64 r -> counters_ok (attached r).
Proof. unfold uint, counters_ok, u64_MAX. simpl. intros. split_and!; auto; lia. Qed.

(** A display's counters identify what they count.  From any start and over
    any observations, revision and route generation never go back; two
    snapshots with the same revision are the same snapshot, and two with the
    same route generation have the same route (both until a counter reaches
    its 64-bit maximum); a route is active only on an attached connector; and
    an observation reports a change exactly when the content changed. *)
Theorem revision_identifies r os os' o :
  u64 r -> Forall observation_ok (os ++ os') ->
  let s := observe_all (attached r) os in
  let s' := observe_all s os' in
  revision s <= revision s' /\ route_generation s <= route_generation s' /\
  (revision s' = revision s -> revision s < u64_MAX -> s' = s) /\
  (route_generation s' = route_generation s -> route_generation s < u64_MAX ->
   route s' = route s) /\
  (forall active, route s = Active active -> attachment s = Attached) /\
  ((observe s o).2 = true <-> content (observe s o).1 <> content s).
Proof.
  intros Hr [Hos Hos']%Forall_app s s'.
  destruct (observe_all_later os (attached r)) as [Hs _]; [by apply attached_ok|done|].
  destruct (observe_all_later os' s) as [_ [? ? ? ?]]; [done..|].
  split_and!; auto.
  - intros a Ha. destruct Hs as (_ & _ & [Hs|Hs]); [done|]. fold s in Hs. congruence.
  - generalize s. clear. intros s. destruct o as [t|g st e|r]; cbn [observe snd fst].
    + unfold observe_topology. destruct (_ && _) eqn:E; simpl; [split; [done|naive_solver]|].
      split; [|done]. intros _. unfold content. simpl. intros [= E1 E2].
      by rewrite E1, E2, !bool_decide_eq_true_2 in E.
    + unfold observe_media. destruct (_ && _) eqn:E; simpl; [split; [done|naive_solver]|].
      split; [|done]. intros _. unfold content. simpl. intros [= E1 E2 E3].
      by rewrite E1, E2, E3, Z.eqb_refl, !bool_decide_eq_true_2 in E.
    + unfold advance_to_at_least. destruct (_ <? _); split; done.
Qed.

Definition ex_topology (a : AttachmentState) : DisplayTopology :=
  {| dt_attachment := a;
     dt_route := Some {| ar_target := 7; ar_mode := {| rm_width := 1920; rm_height := 1080;
       rm_refresh_millihz := 60000; rm_flags := 0 |} |} |}.

Lemma revision_identifies_witness :
  revision (observe_all (attached 10) [Topology (ex_topology Attached)]) = 11 /\
  route (observe_all (attached 10) [Topology (ex_topology Attached); Topology (ex_topology Detached)])
    = Disabled /\
  observe_all (observe_all (attached 10) [Topology (ex_topology Attached)])
      [Topology (ex_topology Attached)]
    = observe_all (attached 10) [Topology (ex_topology Attached)].
Proof.
  split; [reflexivity|]. split; [reflexivity|].
  refine (proj1 (proj2 (proj2 (revision_identifies 10 [Topology (ex_topology Attached)]
    [Topology (ex_topology Attached)] (AtLeast 0) _ _))) _ _).
  - unfold uint. lia.
  - repeat constructor.
  - reflexivity.
  - vm_compute. reflexivity.
Defined.
