(* ===== verification/Ordering.v ===== *)
(** * Total orders, stable sorting and paths

    The [Ord] instances the program derives, as a class with the laws sorted
    collections rely on; [sort_by_key] and [min_by] of the standard library;
    and [PathBuf], whose [Eq], [Ord] and [Hash] are those of its sequence of
    components. *)

From S2P Require Import Prelude Bytes.
From Stdlib Require Import Sorted.

(** ** [Ord] *)

Class Ordered (A : Type) := {
  cmp : A -> A -> comparison;
  cmp_eq x y : cmp x y = Eq <-> x = y;
  cmp_flip x y : cmp y x = CompOpp (cmp x y);
  cmp_trans x y z : cmp x y = Lt -> cmp y z = Lt -> cmp x z = Lt }.

Lemma cmp_refl `{Ordered A} x : cmp x x = Eq.
Proof. by apply cmp_eq. Qed.

Definition lt_of {A} `{Ordered A} (x y : A) : Prop := cmp x y = Lt.
Definition le_of {A} `{Ordered A} (x y : A) : Prop := cmp x y <> Gt.

Lemma le_of_cases `{Ordered A} x y : le_of x y <-> lt_of x y \/ x = y.
Proof.
  unfold le_of, lt_of. rewrite <- cmp_eq. destruct (cmp x y); naive_solver.
Qed.

Lemma cmp_gt `{Ordered A} x y : cmp x y = Gt <-> lt_of y x.
Proof. unfold lt_of. rewrite (cmp_flip x y). destruct (cmp x y); naive_solver. Qed.

Lemma le_of_trans `{Ordered A} x y z : le_of x y -> le_of y z -> le_of x z.
Proof.
  rewrite !le_of_cases. intros [Hx|<-] [Hy|<-]; auto. left. by eapply cmp_trans.
Qed.

Lemma not_le_of `{Ordered A} x y : cmp x y = Gt -> le_of y x.
Proof. rewrite cmp_gt. intros H'. apply le_of_cases. by left. Qed.

Global Instance Z_ordered : Ordered Z.
Proof.
  refine {| cmp := Z.compare |}.
  - apply Z.compare_eq_iff.
  - intros. apply Z.compare_antisym.
  - intros x y z. rewrite !Z.compare_lt_iff. lia.
Defined.

(** Lexicographic order: tuples of a derived [Ord], slices and byte strings. *)
Definition then_cmp (c d : comparison) : comparison := match c with Eq => d | _ => c end.

Global Instance prod_ordered {A B} `{Ordered A, Ordered B} : Ordered (A * B).
Proof.
  refine {| cmp := fun x y => then_cmp (cmp x.1 y.1) (cmp x.2 y.2) |}.
  - intros [a b] [a' b']. unfold then_cmp. simpl.
    pose proof (cmp_eq a a') as Ha. pose proof (cmp_eq b b') as Hb.
    destruct (cmp a a'); naive_solver.
  - intros [a b] [a' b']. simpl. rewrite (cmp_flip a a'), (cmp_flip b b').
    by destruct (cmp a a'), (cmp b b').
  - intros [a b] [a' b'] [a'' b'']. unfold then_cmp. simpl.
    destruct (cmp a a') eqn:E1; try discriminate; destruct (cmp a' a'') eqn:E2; try discriminate;
      try (apply cmp_eq in E1; subst a'); try (apply cmp_eq in E2; subst a''); intros E3 E4.
    + rewrite cmp_refl. by eapply cmp_trans.
    + by rewrite E2.
    + by rewrite E1.
    + by rewrite (cmp_trans _ _ _ E1 E2).
Defined.

Lemma pair_lt_l {A B} `{Ordered A, Ordered B} (a a' : A) (b b' : B) : lt_of a a' -> lt_of (a, b) (a', b').
Proof. unfold lt_of. simpl. by intros ->. Qed.

Lemma pair_lt_r {A B} `{Ordered A, Ordered B} (a : A) (b b' : B) : lt_of b b' -> lt_of (a, b) (a, b').
Proof. unfold lt_of. simpl. by rewrite cmp_refl. Qed.

Fixpoint lex {A} (c : A -> A -> comparison) (l k : list A) : comparison :=
  match l, k with
  | [], [] => Eq
  | [], _ :: _ => Lt
  | _ :: _, [] => Gt
  | a :: l', b :: k' => then_cmp (c a b) (lex c l' k')
  end.

Global Instance list_ordered {A} `{Ordered A} : Ordered (list A).
Proof.
  refine {| cmp := lex cmp |}.
  - induction x as [|a l IH]; intros [|b k]; try done. cbn [lex]. unfold then_cmp.
    pose proof (cmp_eq a b). pose proof (IH k). destruct (cmp a b); naive_solver.
  - induction x as [|a l IH]; intros [|b k]; try done. cbn [lex].
    rewrite (cmp_flip a b), IH. by destruct (cmp a b).
  - induction x as [|a l IH]; intros [|b k] [|c m]; try done. cbn [lex]. unfold then_cmp.
    destruct (cmp a b) eqn:E1; try discriminate; destruct (cmp b c) eqn:E2; try discriminate;
      try (apply cmp_eq in E1; subst b); try (apply cmp_eq in E2; subst c); intros E3 E4.
    + rewrite cmp_refl. by eapply IH.
    + by rewrite E2.
    + by rewrite E1.
    + by rewrite (cmp_trans _ _ _ E1 E2).
Defined.

(** An order through an injective key, as a derived [Ord] reads its fields. *)
Definition key_ordered {A K} `{Ordered K} (key : A -> K) (Hkey : Inj (=) (=) key) : Ordered A.
Proof.
  refine {| cmp := fun x y => cmp (key x) (key y) |}.
  - intros. rewrite cmp_eq. split; [apply Hkey|by intros ->].
  - intros. apply cmp_flip.
  - intros x y z. apply cmp_trans.
Defined.

(** ** Sorting *)

Section Sort.
Context {A K : Type} `{Ordered K} (key : A -> K).

Fixpoint insert_by (x : A) (l : list A) : list A :=
  match l with
  | [] => [x]
  | y :: l' => match cmp (key x) (key y) with
               | Gt => y :: insert_by x l'
               | _ => x :: l
               end
  end.

(** [sort_by_key] (stable). *)
Fixpoint sort_by_key (l : list A) : list A :=
  match l with [] => [] | x :: l' => insert_by x (sort_by_key l') end.

Lemma insert_by_perm x l : insert_by x l ≡ₚ x :: l.
Proof.
  induction l as [|y l IH]; simpl; [done|]. destruct (cmp (key x) (key y)); try done.
  rewrite IH. apply Permutation_swap.
Qed.

Lemma sort_by_key_perm l : sort_by_key l ≡ₚ l.
Proof. induction l as [|x l IH]; simpl; [done|]. by rewrite insert_by_perm, IH. Qed.

Lemma insert_by_sorted x l :
  StronglySorted (fun a b => le_of (key a) (key b)) l ->
  StronglySorted (fun a b => le_of (key a) (key b)) (insert_by x l).
Proof.
  induction 1 as [|y l Hl IH Hy]; simpl; [by repeat constructor|].
  destruct (cmp (key x) (key y)) eqn:E; constructor; auto; try (by constructor).
  - constructor; [by unfold le_of; rewrite E|].
    eapply Forall_impl; [exact Hy|]. intros a Ha. by apply cmp_eq in E as ->.
  - constructor; [by unfold le_of; rewrite E|].
    eapply Forall_impl; [exact Hy|]. intros a. apply le_of_trans. by unfold le_of; rewrite E.
  - rewrite insert_by_perm. constructor; [by apply not_le_of|done].
Qed.

Lemma sort_by_key_sorted l : StronglySorted (fun a b => le_of (key a) (key b)) (sort_by_key l).
Proof. induction l; simpl; [constructor|]. by apply insert_by_sorted. Qed.

(** A sorted list without equal keys is strictly sorted. *)
Lemma sorted_strict l :
  StronglySorted (fun a b => le_of (key a) (key b)) l -> NoDup (key <$> l) ->
  StronglySorted (fun a b => lt_of (key a) (key b)) l.
Proof.
  induction 1 as [|x l Hl IH Hx]; [constructor|]. cbn. intros [Hn Hd]%NoDup_cons.
  constructor; [by apply IH|]. apply Forall_forall. intros y Hy.
  eapply Forall_forall in Hx; [|done]. apply le_of_cases in Hx as [Hx|Hx]; [done|].
  destruct Hn. rewrite Hx. by apply list_elem_of_fmap_2.
Qed.

(** [Iterator::min_by]: the first of the least elements. *)
Definition min_by (l : list A) : option A :=
  match l with
  | [] => None
  | x :: l' => Some (foldl (fun acc y => match cmp (key acc) (key y) with Gt => y | _ => acc end) x l')
  end.

Lemma min_by_spec l : 
  match min_by l with
  | None => l = []
  | Some x => x ∈ l /\ Forall (fun y => le_of (key x) (key y)) l
  end.
Proof.
  destruct l as [|x l]; simpl; [done|].
  assert (forall l x, let m := foldl (fun acc y => match cmp (key acc) (key y) with
      Gt => y | _ => acc end) x l in
    (m = x \/ m ∈ l) /\ le_of (key m) (key x) /\ Forall (fun y => le_of (key m) (key y)) l) as Hm.
  { clear x l. induction l as [|y l IH]; intros x; cbn.
    - split_and!; [by left| |done]. apply le_of_cases. by right.
    - destruct (IH (match cmp (key x) (key y) with Gt => y | _ => x end)) as (Hi & Hx & Hf).
      destruct (cmp (key x) (key y)) eqn:E.
      + split_and!; [|done|constructor; [|done]].
        * destruct Hi; [by left|right; by constructor].
        * apply cmp_eq in E. by rewrite <- E.
      + split_and!; [|done|constructor; [|done]].
        * destruct Hi; [by left|right; by constructor].
        * eapply le_of_trans; [exact Hx|]. by unfold le_of; rewrite E.
      + split_and!; [| |constructor; [done|done]].
        * right. destruct Hi as [->|]; by constructor.
        * eapply le_of_trans; [exact Hx|]. by apply not_le_of. }
  destruct (Hm l x) as (Hi & Hx & Hf). split; [|by constructor].
  destruct Hi as [->|]; by constructor.
Qed.
End Sort.

(** ** [BTreeMap]

    A map with the entries listed in the order of the keys. *)
Section Entries.
Context {K V : Type} `{Countable K} `{Ordered K}.
Implicit Types m : gmap K V.

Definition entries (m : gmap K V) : list (K * V) := sort_by_key fst (map_to_list m).

(** [BTreeMap::values]. *)
Definition values (m : gmap K V) : list V := snd <$> entries m.

Lemma elem_of_entries m k v : (k, v) ∈ entries m <-> m !! k = Some v.
Proof. unfold entries. rewrite sort_by_key_perm. apply elem_of_map_to_list. Qed.

Lemma elem_of_values m v : v ∈ values m <-> exists k, m !! k = Some v.
Proof.
  unfold values. rewrite list_elem_of_fmap. split.
  - intros ([k w] & -> & Hin). exists k. by apply elem_of_entries.
  - intros (k & Hk). exists (k, v). split; [done|]. by apply elem_of_entries.
Qed.

Lemma entries_nodup m : NoDup (fst <$> entries m).
Proof. unfold entries. rewrite sort_by_key_perm. apply NoDup_fst_map_to_list. Qed.

Lemma entries_sorted m : StronglySorted (fun a b => lt_of a.1 b.1) (entries m).
Proof. apply sorted_strict; [apply sort_by_key_sorted|apply entries_nodup]. Qed.

Lemma length_entries m : length (entries m) = size m.
Proof. unfold entries. rewrite sort_by_key_perm. apply length_map_to_list. Qed.

Lemma length_values m : length (values m) = size m.
Proof. unfold values. by rewrite length_fmap, length_entries. Qed.
End Entries.

(** ** Paths *)

Inductive component := RootDir | CurDir | ParentDir | Normal (name : list Z).
Definition Path := list component.

Global Instance component_eq_dec : EqDecision component.
Proof. solve_decision. Defined.

(** [Component]'s derived order: declaration order, then the name's bytes. *)
Definition component_key (c : component) : Z * list Z :=
  match c with RootDir => (0, []) | CurDir => (1, []) | ParentDir => (2, []) | Normal n => (3, n) end.

Global Instance component_key_inj : Inj (=) (=) component_key.
Proof. intros [] []; simpl; naive_solver. Qed.

Global Instance component_ordered : Ordered component := key_ordered component_key _.

Definition component_of_key (k : Z * list Z) : option component :=
  match k.1 with
  | 0 => Some RootDir | 1 => Some CurDir | 2 => Some ParentDir | 3 => Some (Normal k.2) | _ => None
  end.
Global Instance component_countable : Countable component.
Proof. apply (inj_countable component_key component_of_key). by intros []. Defined.

(** [Path::is_absolute] (Unix): the path starts with [/]. *)
Definition is_absolute (p : Path) : bool :=
  match p with RootDir :: _ => true | _ => false end.

(** [Path::join] with a relative path. *)
Definition path_join (p : Path) (names : list (list Z)) : Path := p ++ (Normal <$> names).

Lemma path_join_absolute p names : is_absolute p = true -> is_absolute (path_join p names) = true.
Proof. by destruct p as [|[] p]. Qed.
