(* ===== verification/Output.v ===== *)
(** * CastKMS output discovery

    [pronk-core/src/output.rs]: enumerating the virtual connectors of every
    CastKMS card.  The file system and the DRM ioctls are the class
    [Machine]; a [readdir] entry, a kernel answer and an inventory that changes
    between two resource queries are all values of it. *)

From S2P Require Import Prelude Bytes Text CastkmsSys Ordering.
From stdpp Require Import pretty.
From Stdlib Require Import Sorted.

Global Open Scope Z_scope.

Definition MAX_DRM_PRIMARY_NODES : nat := 64.
Definition MAX_CASTKMS_OUTPUTS : nat := 64.
Definition DRM_DRIVER_NAME_CAPACITY : nat := 32.
Definition RESOURCE_RETRIES : nat := 4.

(** ** Data *)

Record CastKmsOutputId := { device_path : Path; output_index : Z }.

Inductive OutputConnection := Connected | Disconnected | UnknownConnectionState.

Definition connection_is_available (c : OutputConnection) : bool :=
  match c with Disconnected => true | _ => false end.

Record CastKmsOutput := {
  id : CastKmsOutputId;
  node_path : Path;
  device_major : Z;
  device_minor : Z;
  connector_id : Z;
  connector_name : string;
  connection : OutputConnection }.

Definition is_available (o : CastKmsOutput) : bool := connection_is_available (connection o).

Inductive CardProbeError :=
  | NodeMetadata (errno : Z)
  | OpenNode (errno : Z)
  | Version (errno : Z)
  | DriverNameTooLong (length : Z)
  | DeviceIdentity (errno : Z)
  | InvalidDeviceNumber
  | Resources (errno : Z)
  | TooManyConnectors (count : Z)
  | UnstableResources
  | ZeroConnectorId
  | Connector (errno : Z)
  | ConnectorIdentity (expected actual : Z)
  | ConnectorPadding
  | UnknownConnection (value : Z)
  | OutputIndex (errno : Z)
  | InvalidOutputQuery (what : string).

Inductive OutputDiscoveryError :=
  | ReadDeviceDirectory (path : Path) (errno : Z)
  | TooManyPrimaryNodes (count : nat)
  | ProbeNode (path : Path) (source : CardProbeError)
  | TooManyOutputs (count : nat)
  | DuplicateOutput (output : CastKmsOutputId)
  | DuplicateConnector (path : Path) (connector : Z).

(** The derived order of output identities. *)
Definition id_key (i : CastKmsOutputId) : Path * Z := (device_path i, output_index i).

Global Instance id_key_inj : Inj (=) (=) id_key.
Proof. intros [] []; unfold id_key; simpl; naive_solver. Qed.
Global Instance CastKmsOutputId_ordered : Ordered CastKmsOutputId := key_ordered id_key _.
Global Instance CastKmsOutputId_eq_dec : EqDecision CastKmsOutputId.
Proof. solve_decision. Defined.
Global Instance CastKmsOutputId_countable : Countable CastKmsOutputId.
Proof.
  apply (inj_countable' id_key (fun k => {| device_path := k.1; output_index := k.2 |})).
  by intros [].
Defined.

(** ** The machine *)

(** The answer of a system call: a value or an [errno]. *)
Definition io (A : Type) : Type := A + Z.
Definition check_io {E A} (f : Z -> E) (r : io A) : outcome E A :=
  match r with inl a => Ok a | inr e => Err (f e) end.

Record NodeStat := { is_char_device : bool; rdev : Z }.

Class Machine := {
  read_dir : Path -> io (list (io (list Z)));
  symlink_metadata : Path -> io NodeStat;
  open_node : Path -> io Z;
  read_to_string : Path -> io (list Z);
  canonicalize : Path -> io Path;
  dev_major : Z -> Z;
  dev_minor : Z -> Z;
  (* file -> name_len and the bytes written at name *)
  ioctl_version : Z -> io (Z * list Z);
  (* file -> number of earlier queries -> capacity -> count and ids written *)
  ioctl_getresources : Z -> nat -> Z -> io (Z * list Z);
  ioctl_getconnector : Z -> Z -> io DrmModeGetConnector;
  ioctl_get_output : Z -> Z -> io DrmCastkmsGetOutput }.

(** What a kernel leaves in an array of [n] elements when it writes [l]. *)
Definition fill (n : nat) (l : list Z) : list Z := take n (l ++ replicate n 0).

(** ** Names *)

(** [u32::from_str] on decimal digits. *)
Fixpoint parse_u32 (acc : Z) (digits : list Z) : option Z :=
  match digits with
  | [] => Some acc
  | d :: rest =>
      let acc' := acc * 10 + (d - 48) in
      if u32_MAX <? acc' then None else parse_u32 acc' rest
  end.

Definition is_ascii_digit (b : Z) : bool := (48 <=? b) && (b <=? 57).

Definition primary_node_index (file_name : list Z) : option Z :=
  match file_name with
  | 99 :: 97 :: 114 :: 100 :: digits =>
      if bool_decide (digits = []) || negb (forallb is_ascii_digit digits) then None
      else parse_u32 0 digits
  | _ => None
  end.

Definition connector_label (type_id : Z) : string :=
  String.append "Virtual-" (pretty type_id).

(** ** Probing one card *)

Section Probe.
Context `{W : Machine}.

Definition sysfs_declares_castkms (file_name : list Z) (drm_sysfs_class : Path) : bool :=
  match read_to_string (path_join drm_sysfs_class [file_name; codes "device"; codes "uevent"]) with
  | inl contents => existsb (fun line => bool_decide (line = codes "DRIVER=castkms"))
                      (lines_from [] contents)
  | inr _ => false
  end.

Definition is_castkms (file : Z) : outcome CardProbeError bool :=
  let? '(name_len, written) := check_io Version (ioctl_version file) in
  let name := fill DRM_DRIVER_NAME_CAPACITY written in
  try? reject (Z.of_nat (length name) <? name_len) (DriverNameTooLong name_len);
  let? prefix := slice name 0 (Z.to_nat name_len) in
  Ok (bool_decide (prefix = codes "castkms")).

(** The retry loop: [count] connectors were reported by query number [n - 1]. *)
Fixpoint connector_ids_loop (retries : nat) (n : nat) (file count : Z)
  : outcome CardProbeError (list Z) :=
  match retries with
  | O => Err UnstableResources
  | S retries' =>
      try? reject (Z.of_nat MAX_CASTKMS_OUTPUTS <? count) (TooManyConnectors count);
      if count =? 0 then Ok []
      else
        let? '(actual, written) := check_io Resources (ioctl_getresources file n count) in
        if actual <=? count then
          let ids := take (Z.to_nat actual) (fill (Z.to_nat count) written) in
          try? reject (existsb (Z.eqb 0) ids) ZeroConnectorId;
          Ok ids
        else connector_ids_loop retries' (S n) file actual
  end.

Definition connector_ids (file : Z) : outcome CardProbeError (list Z) :=
  let? '(count, _) := check_io Resources (ioctl_getresources file 0 0) in
  connector_ids_loop RESOURCE_RETRIES 1 file count.

Definition connector_metadata (file connector : Z) : outcome CardProbeError DrmModeGetConnector :=
  let? c := check_io Connector (ioctl_getconnector file connector) in
  try? reject (negb (gc_connector_id c =? connector))
         (ConnectorIdentity connector (gc_connector_id c));
  try? reject (negb (gc_pad c =? 0)) ConnectorPadding;
  Ok c.

Definition query_output_index (file connector : Z) : outcome CardProbeError Z :=
  let? q := check_io OutputIndex (ioctl_get_output file connector) in
  try? reject (negb (go_connector_id q =? connector) || negb (go_flags q =? 0)
               || negb (go_reserved q =? 0))
         (InvalidOutputQuery "identity or reserved fields");
  Ok (go_output_index q).

Definition output_connection (value : Z) : outcome CardProbeError OutputConnection :=
  if value =? DRM_MODE_CONNECTED then Ok Connected
  else if value =? DRM_MODE_DISCONNECTED then Ok Disconnected
  else if value =? DRM_MODE_UNKNOWN_CONNECTION then Ok UnknownConnectionState
  else Err (UnknownConnection value).

(** The loop over the connectors of one card. *)
Fixpoint card_outputs (file : Z) (node device : Path) (dmajor dminor : Z) (ids : list Z)
  : outcome CardProbeError (list CastKmsOutput) :=
  match ids with
  | [] => Ok []
  | connector :: ids' =>
      let? c := connector_metadata file connector in
      if negb (gc_connector_type c =? DRM_MODE_CONNECTOR_VIRTUAL)
      then card_outputs file node device dmajor dminor ids'
      else
        let? state := output_connection (gc_connection c) in
        let? index := query_output_index file connector in
        let? rest := card_outputs file node device dmajor dminor ids' in
        Ok ({| id := {| device_path := device; output_index := index |}; node_path := node;
               device_major := dmajor; device_minor := dminor; connector_id := connector;
               connector_name := connector_label (gc_connector_type_id c);
               connection := state |} :: rest)
  end.

(** [u32::try_from]. *)
Definition u32_try_from (v : Z) : option Z := if v <=? u32_MAX then Some v else None.

Definition probe_opened (file : Z) (metadata : NodeStat) (node : Path) (file_name : list Z)
    (drm_sysfs_class : Path) : outcome CardProbeError (option (list CastKmsOutput)) :=
  let? castkms := is_castkms file in
  if negb castkms then Ok None
  else
    let? device := check_io DeviceIdentity
                     (canonicalize (path_join drm_sysfs_class [file_name; codes "device"])) in
    let? dmajor := ok_or (u32_try_from (dev_major (rdev metadata))) InvalidDeviceNumber in
    let? dminor := ok_or (u32_try_from (dev_minor (rdev metadata))) InvalidDeviceNumber in
    let? ids := connector_ids file in
    let? outputs := card_outputs file node device dmajor dminor ids in
    Ok (Some outputs).

Definition probe_primary_node (node : Path) (file_name : list Z) (drm_sysfs_class : Path)
  : outcome CardProbeError (option (list CastKmsOutput)) :=
  let? metadata := check_io NodeMetadata (symlink_metadata node) in
  if negb (is_char_device metadata) then Ok None
  else
    match open_node node with
    | inl file => probe_opened file metadata node file_name drm_sysfs_class
    | inr errno =>
        if negb (sysfs_declares_castkms file_name drm_sysfs_class) then Ok None
        else Err (OpenNode errno)
    end.

(** ** The inventory *)

Fixpoint collect_nodes (directory : Path) (entries : list (io (list Z)))
    (nodes : list (Z * Path * list Z)) : outcome OutputDiscoveryError (list (Z * Path * list Z)) :=
  match entries with
  | [] => Ok nodes
  | entry :: entries' =>
      let? file_name := check_io (ReadDeviceDirectory directory) entry in
      match primary_node_index file_name with
      | None => collect_nodes directory entries' nodes
      | Some index =>
          let nodes' := nodes ++ [(index, path_join directory [file_name], file_name)] in
          try? reject (MAX_DRM_PRIMARY_NODES <? length nodes')%nat
                 (TooManyPrimaryNodes (length nodes'));
          collect_nodes directory entries' nodes'
      end
  end.

Fixpoint probe_nodes (drm_sysfs_class : Path) (nodes : list (Z * Path * list Z))
    (outputs : list CastKmsOutput) : outcome OutputDiscoveryError (list CastKmsOutput) :=
  match nodes with
  | [] => Ok outputs
  | (_, node, file_name) :: nodes' =>
      let? found := omap_err (ProbeNode node) (probe_primary_node node file_name drm_sysfs_class) in
      let outputs' := outputs ++ default [] found in
      try? reject (MAX_CASTKMS_OUTPUTS <? length outputs')%nat (TooManyOutputs (length outputs'));
      probe_nodes drm_sysfs_class nodes' outputs'
  end.

(** The two [HashSet]s of identities and connectors seen so far. *)
Fixpoint check_unique (ids : list CastKmsOutputId) (connectors : list (Path * Z))
    (outputs : list CastKmsOutput) : outcome OutputDiscoveryError unit :=
  match outputs with
  | [] => Ok tt
  | o :: outputs' =>
      let connector := (device_path (id o), connector_id o) in
      try? reject (bool_decide (id o ∈ ids)) (DuplicateOutput (id o));
      try? reject (bool_decide (connector ∈ connectors))
             (DuplicateConnector (device_path (id o)) (connector_id o));
      check_unique (id o :: ids) (connector :: connectors) outputs'
  end.

Definition finish_output_inventory (outputs : list CastKmsOutput)
  : outcome OutputDiscoveryError (list CastKmsOutput) :=
  let sorted := sort_by_key id outputs in
  try? check_unique [] [] sorted;
  Ok sorted.

Definition discover_castkms_outputs_at (device_directory drm_sysfs_class : Path)
  : outcome OutputDiscoveryError (list CastKmsOutput) :=
  match read_dir device_directory with
  | inr errno => if errno =? ENOENT then Ok [] else Err (ReadDeviceDirectory device_directory errno)
  | inl entries =>
      let? nodes := collect_nodes device_directory entries [] in
      let? outputs := probe_nodes drm_sysfs_class (sort_by_key (fun n => n.1.1) nodes) [] in
      finish_output_inventory outputs
  end.

Definition discover_castkms_outputs : outcome OutputDiscoveryError (list CastKmsOutput) :=
  discover_castkms_outputs_at
    [RootDir; Normal (codes "dev"); Normal (codes "dri")]
    [RootDir; Normal (codes "sys"); Normal (codes "class"); Normal (codes "drm")].
End Probe.

(** ** What discovery returns *)

Lemma check_io_ok {E A} (f : Z -> E) (r : io A) a : check_io f r = Ok a <-> r = inl a.
Proof. destruct r; simpl; naive_solver. Qed.

Lemma check_io_safe {E A} (f : Z -> E) (r : io A) : safe (check_io f r) (fun a => r = inl a).
Proof. by destruct r. Qed.

Lemma check_unique_ok ids connectors outputs u :
  check_unique ids connectors outputs = Ok u ->
  (forall o, o ∈ outputs -> id o ∉ ids) /\ NoDup (id <$> outputs) /\
  (forall o, o ∈ outputs -> (device_path (id o), connector_id o) ∉ connectors) /\
  NoDup ((fun o => (device_path (id o), connector_id o)) <$> outputs).
Proof.
  revert ids connectors. induction outputs as [|o outputs IH]; intros ids connectors; cbn.
  { intros _. split_and!; try constructor; by intros ? ?%elem_of_nil. }
  rewrite !reject_seq_ok. intros (Hi & Hc & H).
  apply bool_decide_eq_false in Hi, Hc. destruct (IH _ _ H) as (H1 & H2 & H3 & H4).
  split_and!.
  - intros o' [->|Ho]%elem_of_cons; [done|]. specialize (H1 o' Ho). set_solver.
  - constructor; [|done]. intros (o' & Heq & Ho)%list_elem_of_fmap. apply (H1 o' Ho).
    rewrite <- Heq. by constructor.
  - intros o' [->|Ho]%elem_of_cons; [done|]. specialize (H3 o' Ho). set_solver.
  - constructor; [|done]. intros (o' & Heq & Ho)%list_elem_of_fmap. apply (H3 o' Ho).
    rewrite <- Heq. by constructor.
Qed.

Section DiscoveryFacts.
Context `{W : Machine}.

(** A connector of a CastKMS card, as the kernel describes it, reported as [o]. *)
Definition reports (file : Z) (o : CastKmsOutput) : Prop :=
  exists c q,
    ioctl_getconnector file (connector_id o) = inl c /\
    gc_connector_id c = connector_id o /\ gc_connector_type c = DRM_MODE_CONNECTOR_VIRTUAL /\
    output_connection (gc_connection c) = Ok (connection o) /\
    ioctl_get_output file (connector_id o) = inl q /\ go_connector_id q = connector_id o /\
    go_output_index q = output_index (id o).

Lemma connector_metadata_ok file connector c :
  connector_metadata file connector = Ok c ->
  ioctl_getconnector file connector = inl c /\ gc_connector_id c = connector.
Proof.
  unfold connector_metadata. intros H. apply obind_ok in H as (c' & Hc & H).
  apply check_io_ok in Hc. rewrite !reject_seq_ok in H. destruct H as (? & _ & [= <-]).
  breflect. done.
Qed.

Lemma query_output_index_ok file connector index :
  query_output_index file connector = Ok index ->
  exists q, ioctl_get_output file connector = inl q /\ go_connector_id q = connector /\
            go_output_index q = index.
Proof.
  unfold query_output_index. intros H. apply obind_ok in H as (q & Hq & H).
  apply check_io_ok in Hq. rewrite reject_seq_ok in H. destruct H as (Hc & [= <-]).
  breflect. eauto.
Qed.

Lemma card_outputs_ok file node device dmajor dminor ids outs :
  card_outputs file node device dmajor dminor ids = Ok outs ->
  Forall (fun o => connector_id o ∈ ids /\ reports file o /\ node_path o = node /\
                   device_path (id o) = device /\ device_major o = dmajor /\
                   device_minor o = dminor /\ connector_name o <> EmptyString) outs /\
  forall connector c, connector ∈ ids -> ioctl_getconnector file connector = inl c ->
    gc_connector_type c = DRM_MODE_CONNECTOR_VIRTUAL ->
    exists o, o ∈ outs /\ connector_id o = connector.
Proof.
  revert outs. induction ids as [|k ids IH]; intros outs; cbn [card_outputs].
  { intros [= <-]. split; [done|]. by intros ? ? ?%elem_of_nil. }
  intros H. apply obind_ok in H as (c & Hc & H). apply connector_metadata_ok in Hc as [Hk Hid].
  destruct (negb _) eqn:Ht; breflect.
  - destruct (IH _ H) as [Hf Hall]. split.
    + eapply Forall_impl; [exact Hf|]. intros o (? & ?). split; [by constructor|done].
    + intros k' c' [->|Hk']%elem_of_cons Hc' Ht'; [rewrite Hk in Hc'; injection Hc' as <-; done|eauto].
  - apply obind_ok in H as (st & Hst & H). apply obind_ok in H as (ix & Hix & H).
    apply obind_ok in H as (rest & Hrest & [= <-]).
    apply query_output_index_ok in Hix as (q & ? & ? & ?).
    destruct (IH _ Hrest) as [Hf Hall]. split.
    + constructor.
      * split_and!; try done; simpl; [by constructor|]. exists c, q. by split_and!.
      * eapply Forall_impl; [exact Hf|]. intros o (? & ?). split; [by constructor|done].
    + intros k' c' [->|Hk']%elem_of_cons Hc' Ht'.
      * eexists. split; [by constructor|done].
      * destruct (Hall k' c') as (o & ? & ?); try done. exists o. split; [by constructor|done].
Qed.

Lemma connector_ids_loop_ok retries n file count ids :
  connector_ids_loop retries n file count = Ok ids -> 0 ∉ ids.
Proof.
  revert n count. induction retries as [|retries IH]; intros n count; cbn [connector_ids_loop];
    [done|]. rewrite reject_seq_ok. intros [_ H].
  destruct (count =? 0); [injection H as <-; apply not_elem_of_nil|].
  apply obind_ok in H as ([actual written] & _ & H).
  destruct (actual <=? count); [|by eapply IH].
  rewrite reject_seq_ok in H. destruct H as [Hz [= <-]]. intros Hin.
  enough (existsb (Z.eqb 0) (take (Z.to_nat actual) (fill (Z.to_nat count) written)) = true)
    by congruence.
  apply existsb_exists. exists 0. split; [by apply list_elem_of_In|done].
Qed.

Lemma connector_ids_ok file ids : connector_ids file = Ok ids -> 0 ∉ ids.
Proof.
  unfold connector_ids. intros H. apply obind_ok in H as ([count ?] & _ & H).
  by eapply connector_ids_loop_ok.
Qed.

(** The outputs of one card. *)
Record card (node : Path) (file_name : list Z) (sysfs : Path) (o : CastKmsOutput) : Prop := {
  card_file : exists file, open_node node = inl file /\ is_castkms file = Ok true /\ reports file o;
  card_node : node_path o = node;
  card_device : canonicalize (path_join sysfs [file_name; codes "device"])
                = inl (device_path (id o));
  card_major : exists m, symlink_metadata node = inl m /\ is_char_device m = true /\
                 device_major o = dev_major (rdev m) /\ device_minor o = dev_minor (rdev m);
  card_connector : connector_id o <> 0;
  card_name : connector_name o <> EmptyString }.

Lemma probe_primary_node_ok node file_name sysfs outs :
  probe_primary_node node file_name sysfs = Ok (Some outs) ->
  Forall (card node file_name sysfs) outs.
Proof.
  unfold probe_primary_node. intros H. apply obind_ok in H as (m & Hm & H).
  apply check_io_ok in Hm. destruct (is_char_device m) eqn:Hchar; [|done]. simpl in H.
  destruct (open_node node) as [file|e] eqn:Hopen; [|by destruct (negb _)].
  unfold probe_opened in H. apply obind_ok in H as ([] & Hk & H); [|done]. cbn [negb] in H.
  apply obind_ok in H as (device & Hd & H). apply check_io_ok in Hd.
  apply obind_ok in H as (ma & Hma & H). apply obind_ok in H as (mi & Hmi & H).
  apply obind_ok in H as (ids & Hids & H). apply obind_ok in H as (outs' & Hout & [= <-]).
  apply ok_or_ok in Hma, Hmi. unfold u32_try_from in Hma, Hmi.
  repeat case_match; try discriminate. injection Hma as <-. injection Hmi as <-.
  apply connector_ids_ok in Hids. apply card_outputs_ok in Hout as [Hf _].
  eapply Forall_impl; [exact Hf|]. intros o (Hin & Hr & Hn & Hdev & Hma & Hmi & Hname).
  split; try done; eauto 10.
  - by rewrite Hdev.
  - intros E. apply Hids. by rewrite <- E.
Qed.

Lemma collect_nodes_ok directory entries nodes res :
  collect_nodes directory entries nodes = Ok res ->
  forall n, n ∈ res <-> n ∈ nodes \/
    exists file_name index, inl file_name ∈ entries /\ primary_node_index file_name = Some index /\
      n = (index, path_join directory [file_name], file_name).
Proof.
  revert nodes. induction entries as [|e entries IH]; intros nodes; cbn [collect_nodes].
  { intros [= <-] n. split; [by left|]. by intros [?|(? & ? & ?%elem_of_nil & _)]. }
  intros H n. apply obind_ok in H as (name & Hname & H). apply check_io_ok in Hname as ->.
  destruct (primary_node_index name) as [index|] eqn:Hi.
  - rewrite reject_seq_ok in H. destruct H as [_ H]. rewrite (IH _ H n), elem_of_app,
      list_elem_of_singleton. split.
    + intros [[?| ->]|(f & i & ? & ? & ?)]; [by left| |].
      * right. exists name, index. split; [by constructor|done].
      * right. exists f, i. split; [by constructor|done].
    + intros [?|(f & i & [[= ->]|?]%elem_of_cons & Hi' & ->)]; [by left; left| |].
      * left. right. by simplify_eq.
      * right. eauto.
  - rewrite (IH _ H n). split.
    + intros [?|(f & i & ? & ? & ?)]; [by left|]. right. exists f, i. split; [by constructor|done].
    + intros [?|(f & i & [[= ->]|?]%elem_of_cons & Hi' & ->)]; [by left|congruence|]. right. eauto.
Qed.

Lemma probe_nodes_ok sysfs nodes outputs res :
  probe_nodes sysfs nodes outputs = Ok res -> (length outputs <= MAX_CASTKMS_OUTPUTS)%nat ->
  (length res <= MAX_CASTKMS_OUTPUTS)%nat /\
  forall o, o ∈ res <-> o ∈ outputs \/
    exists n outs, n ∈ nodes /\ probe_primary_node n.1.2 n.2 sysfs = Ok (Some outs) /\ o ∈ outs.
Proof.
  revert outputs. induction nodes as [|[[i node] name] nodes IH]; intros outputs; cbn [probe_nodes].
  { intros [= <-] Hl. split; [done|]. intros o. split; [by left|].
    by intros [?|(? & ? & ?%elem_of_nil & _)]. }
  intros H Hl. apply obind_ok in H as (found & Hf & H). rewrite reject_seq_ok in H.
  destruct H as [Hmax H]. apply Nat.ltb_ge in Hmax. destruct (IH _ H Hmax) as [Hres Hall].
  split; [done|]. intros o. rewrite Hall, elem_of_app.
  assert (probe_primary_node node name sysfs = Ok found) as Hp
    by (destruct (probe_primary_node node name sysfs); simpl in Hf; congruence).
  split.
  - intros [[?|Ho]|(n & outs & ? & ? & ?)]; [by left| |].
    + right. destruct found as [outs|]; [|by apply elem_of_nil in Ho].
      exists (i, node, name), outs. split; [by constructor|done].
    + right. exists n, outs. split; [by constructor|done].
  - intros [?|(n & outs & [->|?]%elem_of_cons & Hq & Ho)]; [by left; left| |].
    + simpl in Hq. left. right. rewrite Hp in Hq. by injection Hq as ->.
    + right. eauto.
Qed.

Lemma connector_ids_safe file : safe (connector_ids file) (fun _ => True).
Proof.
  unfold connector_ids. eapply safe_bind; [apply check_io_safe|]. intros [count l] _.
  generalize 1%nat as n. generalize RESOURCE_RETRIES as retries. intros retries. revert count.
  induction retries as [|retries IH]; intros count n; cbn [connector_ids_loop]; [done|].
  apply safe_reject_seq. intros _. destruct (count =? 0); [done|].
  eapply safe_bind; [apply check_io_safe|]. intros [actual written] _.
  destruct (actual <=? count); [|apply IH]. by apply safe_reject_seq.
Qed.

Lemma card_outputs_safe file node device dmajor dminor ids :
  safe (card_outputs file node device dmajor dminor ids) (fun _ => True).
Proof.
  induction ids as [|k ids IH]; cbn [card_outputs]; [done|].
  eapply safe_bind with (Q := fun _ => True).
  { unfold connector_metadata. eapply safe_bind; [apply check_io_safe|]. intros c _.
    apply safe_reject_seq. intros _. by apply safe_reject_seq. }
  intros c _. destruct (negb _); [done|].
  eapply safe_bind with (Q := fun _ => True);
    [by unfold output_connection; repeat case_match|].
  intros st _. eapply safe_bind with (Q := fun _ => True).
  { unfold query_output_index. eapply safe_bind; [apply check_io_safe|]. intros q _.
    by apply safe_reject_seq. }
  intros ix _. eapply safe_bind; [exact IH|]. done.
Qed.

Lemma is_castkms_safe file : safe (is_castkms file) (fun _ => True).
Proof.
  unfold is_castkms. eapply safe_bind; [apply check_io_safe|]. intros [len written] _.
  apply safe_reject_seq. intros Hl. breflect.
  rewrite slice_ok by lia. done.
Qed.

Lemma probe_primary_node_safe node name sysfs :
  safe (probe_primary_node node name sysfs) (fun _ => True).
Proof.
  unfold probe_primary_node. eapply safe_bind; [apply check_io_safe|]. intros m _.
  destruct (negb _); [done|]. destruct (open_node node); [|by destruct (negb _)].
  unfold probe_opened. eapply safe_bind; [apply is_castkms_safe|]. intros [] _; [|done].
  cbn [negb]. eapply safe_bind; [apply check_io_safe|]. intros d _.
  eapply safe_bind; [apply safe_ok_or|]. intros ma _.
  eapply safe_bind; [apply safe_ok_or|]. intros mi _.
  eapply safe_bind; [apply connector_ids_safe|]. intros ids _.
  eapply safe_bind; [apply card_outputs_safe|]. done.
Qed.

Lemma discover_safe directory sysfs :
  safe (discover_castkms_outputs_at directory sysfs) (fun _ => True).
Proof.
  unfold discover_castkms_outputs_at. destruct (read_dir directory) as [entries|e];
    [|by destruct (e =? ENOENT)].
  eapply safe_bind with (Q := fun _ => True).
  { generalize ([] : list (Z * Path * list Z)) as nodes.
    induction entries as [|e entries IH]; intros nodes; cbn [collect_nodes]; [done|].
    eapply safe_bind; [apply check_io_safe|]. intros name _.
    destruct (primary_node_index name); [|apply IH]. apply safe_reject_seq. intros _. apply IH. }
  intros nodes _. eapply safe_bind with (Q := fun _ => True).
  { generalize (sort_by_key (fun n : Z * Path * list Z => n.1.1) nodes) as ns.
    generalize ([] : list CastKmsOutput) as acc. intros acc ns. revert acc.
    induction ns as [|[[i node] name] ns IH]; intros acc; cbn [probe_nodes]; [done|].
    eapply safe_bind; [apply safe_map_err, probe_primary_node_safe|]. intros found _.
    apply safe_reject_seq. intros _. apply IH. }
  intros outs _. unfold finish_output_inventory. eapply safe_bind with (Q := fun _ => True).
  { generalize (sort_by_key id outs). intros l.
    generalize ([] : list CastKmsOutputId) ([] : list (Path * Z)).
    induction l as [|o l IH]; intros ids cs; cbn [check_unique]; [done|].
    apply safe_reject_seq. intros _. apply safe_reject_seq. intros _. apply IH. }
  done.
Qed.

Lemma discover_ok directory sysfs l :
  discover_castkms_outputs_at directory sysfs = Ok l ->
  (length l <= MAX_CASTKMS_OUTPUTS)%nat /\
  StronglySorted (fun a b => lt_of (id a) (id b)) l /\
  NoDup ((fun o => (device_path (id o), connector_id o)) <$> l) /\
  forall o, o ∈ l <-> exists entries name index outs,
    read_dir directory = inl entries /\ inl name ∈ entries /\
    primary_node_index name = Some index /\
    probe_primary_node (path_join directory [name]) name sysfs = Ok (Some outs) /\ o ∈ outs.
Proof.
  unfold discover_castkms_outputs_at. destruct (read_dir directory) as [entries|e] eqn:Hdir.
  2: { destruct (e =? ENOENT); intros [= <-]. split_and!; try constructor; try (by intros ?%elem_of_nil).
       { vm_compute. lia. } by intros (? & ? & ? & ? & [= ] & _). }
  intros H. apply obind_ok in H as (nodes & Hn & H). apply obind_ok in H as (outs & Ho & H).
  unfold finish_output_inventory in H. apply seq_ok in H as [Hu [= <-]].
  apply check_unique_ok in Hu as (_ & Hids & _ & Hconn).
  apply probe_nodes_ok in Ho as [Hlen Ho]; [|apply Nat.le_0_l].
  pose proof (collect_nodes_ok _ _ _ _ Hn) as Hin.
  split; [by rewrite sort_by_key_perm|].
  split; [by apply sorted_strict; [apply sort_by_key_sorted|]|]. split; [done|].
  intros o. rewrite sort_by_key_perm, Ho. split.
  - intros [?%elem_of_nil|(n & os & Hn' & Hp & ?)]; [done|]. rewrite sort_by_key_perm in Hn'.
    apply Hin in Hn' as [?%elem_of_nil|(name & index & ? & ? & ->)]; [done|].
    exists entries, name, index, os. done.
  - intros (entries' & name & index & os & [= <-] & ? & ? & ? & ?). right.
    exists (index, path_join directory [name], name), os. rewrite sort_by_key_perm, Hin.
    split; [|done]. right. eauto.
Qed.

Lemma probe_nodes_all sysfs nodes outputs res n :
  probe_nodes sysfs nodes outputs = Ok res -> n ∈ nodes ->
  exists found, probe_primary_node n.1.2 n.2 sysfs = Ok found.
Proof.
  revert outputs. induction nodes as [|[[i node] name] nodes IH]; intros outputs; cbn [probe_nodes];
    [by intros _ ?%elem_of_nil|].
  intros H. apply obind_ok in H as (found & Hf & H). rewrite reject_seq_ok in H.
  destruct H as [_ H]. intros [->|Hn]%elem_of_cons; [|by eapply IH].
  simpl. destruct (probe_primary_node node name sysfs); simpl in Hf; [eauto|done|done].
Qed.

(** The virtual connectors a card answers for. *)
Definition offers (node : Path) (connector : Z) : Prop :=
  exists m file ids c,
    symlink_metadata node = inl m /\ is_char_device m = true /\ open_node node = inl file /\
    is_castkms file = Ok true /\ connector_ids file = Ok ids /\ connector ∈ ids /\
    ioctl_getconnector file connector = inl c /\ gc_connector_type c = DRM_MODE_CONNECTOR_VIRTUAL.

Lemma probe_complete node name sysfs found connector :
  probe_primary_node node name sysfs = Ok found -> offers node connector ->
  exists outs o, found = Some outs /\ o ∈ outs /\ connector_id o = connector /\ node_path o = node.
Proof.
  intros H (m & file & ids & c & Hm & Hchar & Hopen & Hk & Hids & Hin & Hc & Ht).
  unfold probe_primary_node in H. rewrite Hm in H. cbn [check_io obind] in H.
  rewrite Hchar, Hopen in H. cbn [negb] in H. unfold probe_opened in H.
  rewrite Hk in H. cbn [obind negb] in H.
  apply obind_ok in H as (device & _ & H).
  apply obind_ok in H as (ma & _ & H). apply obind_ok in H as (mi & _ & H).
  rewrite Hids in H. cbn [obind] in H. apply obind_ok in H as (outs & Hout & [= <-]).
  apply card_outputs_ok in Hout as [Hf Hall].
  destruct (Hall connector c) as (o & Ho & ?); [done..|]. exists outs, o. split_and!; try done.
  eapply Forall_forall in Hf; [|exact Ho]. by destruct Hf as (_ & _ & ? & _).
Qed.

Lemma discover_complete directory sysfs l entries name index connector :
  discover_castkms_outputs_at directory sysfs = Ok l ->
  read_dir directory = inl entries -> inl name ∈ entries -> primary_node_index name = Some index ->
  offers (path_join directory [name]) connector ->
  exists o, o ∈ l /\ connector_id o = connector /\ node_path o = path_join directory [name].
Proof.
  intros H Hdir Hin Hi Hoff. destruct (discover_ok _ _ _ H) as (_ & _ & _ & Hall).
  unfold discover_castkms_outputs_at in H. rewrite Hdir in H.
  apply obind_ok in H as (nodes & Hn & H). apply obind_ok in H as (outs & Ho & _).
  destruct (probe_nodes_all _ _ _ _ (index, path_join directory [name], name) Ho) as [found Hp].
  { rewrite sort_by_key_perm. apply (collect_nodes_ok _ _ _ _ Hn). right. eauto. }
  destruct (probe_complete _ _ _ _ _ Hp Hoff) as (os & o & -> & ? & ? & ?).
  exists o. split_and!; try done. apply Hall. exists entries, name, index, os. done.
Qed.
End DiscoveryFacts.

(** Discovery reports exactly the virtual connectors of the CastKMS cards.
    When it returns an inventory, the inventory holds at most 64 outputs,
    strictly ordered by device path and stable index, no device lists a
    connector twice; every output was described by the kernel on the card it
    names, under that card's canonical device path, with a nonzero connector;
    and every virtual connector a card of the directory offers is in it. *)
Theorem discovery_exact `{Machine} directory sysfs l :
  discover_castkms_outputs_at directory sysfs = Ok l ->
  (length l <= 64)%nat /\
  StronglySorted (fun a b => lt_of (id a) (id b)) l /\
  NoDup ((fun o => (device_path (id o), connector_id o)) <$> l) /\
  (forall o, o ∈ l -> exists name index, primary_node_index name = Some index /\
     card (path_join directory [name]) name sysfs o) /\
  (forall entries name index connector,
     read_dir directory = inl entries -> inl name ∈ entries ->
     primary_node_index name = Some index -> offers (path_join directory [name]) connector ->
     exists o, o ∈ l /\ connector_id o = connector /\ node_path o = path_join directory [name]).
Proof.
  intros Hl. destruct (discover_ok _ _ _ Hl) as (Hlen & Hs & Hd & Hall).
  split_and!; try done.
  - intros o (entries & name & index & outs & _ & _ & Hi & Hp & Ho)%Hall.
    exists name, index. split; [done|]. apply probe_primary_node_ok in Hp.
    by eapply Forall_forall in Hp.
  - intros. by eapply discover_complete.
Qed.

(** Discovery ends in an inventory or an error: whatever the file system
    and the kernel answer, and however the connector count changes between
    queries, it returns within its retries and reads no buffer out of range. *)
Theorem discovery_never_panics `{Machine} directory sysfs :
  discover_castkms_outputs_at directory sysfs <> Panic.
Proof. eapply safe_no_panic, discover_safe. Qed.

(** Two cards, the second not CastKMS; the connector count of the first grows
    between the queries, and its last connector is not virtual. *)
Definition two_cards : Machine :=
  {| read_dir := fun _ => inl [inl (codes "renderD128"); inl (codes "card10"); inl (codes "card9")];
     symlink_metadata := fun _ => inl {| is_char_device := true; rdev := 57865 |};
     open_node := fun p => inl (if bool_decide (p = path_join [RootDir] [codes "card9"]) then 9 else 10);
     read_to_string := fun _ => inr ENOENT;
     canonicalize := fun _ => inl [RootDir; Normal (codes "castkms")];
     dev_major := fun d => d / 256;
     dev_minor := fun d => d mod 256;
     ioctl_version := fun f => inl (7, if f =? 9 then codes "castkms" else codes "amdgpu ");
     ioctl_getresources := fun _ n _ => inl (match n with O => 1 | _ => 3 end, [42; 41; 50]);
     ioctl_getconnector := fun _ c => inl {| gc_encoder_id := 1; gc_connector_id := c;
       gc_connector_type := if c =? 50 then 18 else 15; gc_connector_type_id := c - 40;
       gc_connection := if c =? 41 then 1 else 2; gc_pad := 0 |};
     ioctl_get_output := fun _ c => inl {| go_connector_id := c; go_flags := 0;
       go_output_index := c - 41; go_reserved := 0 |} |}.

Definition two_outputs : list CastKmsOutput :=
  [{| id := {| device_path := [RootDir; Normal (codes "castkms")]; output_index := 0 |};
      node_path := [RootDir; Normal (codes "card9")]; device_major := 226; device_minor := 9;
      connector_id := 41; connector_name := "Virtual-1"; connection := Connected |};
   {| id := {| device_path := [RootDir; Normal (codes "castkms")]; output_index := 1 |};
      node_path := [RootDir; Normal (codes "card9")]; device_major := 226; device_minor := 9;
      connector_id := 42; connector_name := "Virtual-2"; connection := Disconnected |}].

Lemma discovery_exact_witness :
  discover_castkms_outputs_at (W := two_cards) [RootDir] [RootDir] = Ok two_outputs /\
  NoDup ((fun o => (device_path (id o), connector_id o)) <$> two_outputs).
Proof.
  assert (discover_castkms_outputs_at (W := two_cards) [RootDir] [RootDir] = Ok two_outputs) as E
    by (vm_compute; reflexivity).
  split; [exact E|].
  exact (proj1 (proj2 (proj2 (discovery_exact (H := two_cards) [RootDir] [RootDir] two_outputs E)))).
Defined.
