(* ===== verification/Slot.v ===== *)
(** * Output slots

    [OutputSlotPool] of [pronk/src/slot.rs]: which device holds which CastKMS
    output.  The two [BTreeMap]s are [gmap]s (the keys' [Ord] agrees with
    equality, [cmp_eq]).  The pool is compared with an abstract one that is
    only the set of live reservations. *)

From S2P Require Import Prelude Bytes Text Ordering Output.
From Stdlib Require Import Sorted.

(** ** Data *)

(** The fields of the D-Bus device record that name it. *)
Record DeviceInfo := { di_backend_id : list Z; di_device_id : list Z }.

Record DeviceKey := { backend_id : list Z; device_id : list Z }.

Definition from_device (d : DeviceInfo) : DeviceKey :=
  {| backend_id := di_backend_id d; device_id := di_device_id d |}.

Global Instance DeviceKey_eq_dec : EqDecision DeviceKey.
Proof. solve_decision. Defined.
Global Instance DeviceKey_countable : Countable DeviceKey.
Proof.
  apply (inj_countable' (fun k => (backend_id k, device_id k))
           (fun k => {| backend_id := k.1; device_id := k.2 |})). by intros [].
Defined.

Record OutputReservation := {
  or_token : Z; or_device : DeviceKey; or_output : CastKmsOutput }.

Record OutputReservationRelease := {
  rel_token : Z; rel_device : DeviceKey; rel_output_id : CastKmsOutputId }.

Definition reservation_release (r : OutputReservation) : OutputReservationRelease :=
  {| rel_token := or_token r; rel_device := or_device r; rel_output_id := id (or_output r) |}.

Record OutputClaim := { cl_token : Z; cl_device : DeviceKey }.

Record OutputSlotPool := {
  next_token : Z;
  claims : gmap CastKmsOutputId OutputClaim;
  devices : gmap DeviceKey CastKmsOutputId }.

Definition OutputSlotPool_default : OutputSlotPool :=
  {| next_token := 0; claims := ∅; devices := ∅ |}.

Inductive OutputReservationError :=
  | InvalidInventory
  | DeviceAlreadyClaimed (backend device : list Z)
  | CapacityExhausted
  | TokenExhausted.

(** ** Operations *)

Definition well_described (o : CastKmsOutput) : bool :=
  is_absolute (node_path o) && is_absolute (device_path (id o)) && negb (device_major o =? 0)
  && negb (connector_id o =? 0) && negb (bool_decide (connector_name o = EmptyString)).

(** The loop of [validate_inventory]: [identities] and [connectors] are the two
    [HashSet]s. *)
Fixpoint validate_outputs (identities : list CastKmsOutputId) (connectors : list (Path * Z))
    (outputs : list CastKmsOutput) : outcome OutputReservationError unit :=
  match outputs with
  | [] => Ok tt
  | o :: outputs' =>
      try? reject (negb (well_described o)) InvalidInventory;
      try? reject (bool_decide (id o ∈ identities)) InvalidInventory;
      let connector := (device_path (id o), connector_id o) in
      try? reject (bool_decide (connector ∈ connectors)) InvalidInventory;
      validate_outputs (id o :: identities) (connector :: connectors) outputs'
  end.

Definition validate_inventory (outputs : list CastKmsOutput) : outcome OutputReservationError unit :=
  validate_outputs [] [] outputs.

Definition available (p : OutputSlotPool) (o : CastKmsOutput) : bool :=
  is_available o && negb (bool_decide (is_Some (claims p !! id o))).

Definition select_output (p : OutputSlotPool) (outputs : list CastKmsOutput)
    (preferred : option CastKmsOutputId) : option CastKmsOutput :=
  match
    match preferred with
    | None => None
    | Some want => List.find (fun o => bool_decide (id o = want) && available p o) outputs
    end
  with
  | Some o => Some o
  | None => min_by id (List.filter (available p) outputs)
  end.

Definition reserve (p : OutputSlotPool) (device : DeviceInfo) (outputs : list CastKmsOutput)
    (preferred : option CastKmsOutputId)
  : OutputSlotPool * outcome OutputReservationError OutputReservation :=
  let device_key := from_device device in
  let checked :=
    try? reject (bool_decide (is_Some (devices p !! device_key)))
           (DeviceAlreadyClaimed (di_backend_id device) (di_device_id device));
    try? validate_inventory outputs;
    let? selected := ok_or (select_output p outputs preferred) CapacityExhausted in
    let? token := ok_or (checked_add64 (next_token p) 1) TokenExhausted in
    Ok (selected, token) in
  match checked with
  | Err e => (p, Err e)
  | Panic => (p, Panic)
  | Ok (selected, token) =>
      let p' := {| next_token := token;
                   claims := <[id selected := {| cl_token := token; cl_device := device_key |}]> (claims p);
                   devices := <[device_key := id selected]> (devices p) |} in
      (* the two debug assertions: nothing was replaced *)
      if bool_decide (is_Some (claims p !! id selected)) ||
         bool_decide (is_Some (devices p !! device_key)) then (p', Panic)
      else (p', Ok {| or_token := token; or_device := device_key; or_output := selected |})
  end.

Definition release (p : OutputSlotPool) (r : OutputReservationRelease) : OutputSlotPool * bool :=
  let matches :=
    match claims p !! rel_output_id r with
    | Some claim => (cl_token claim =? rel_token r) && bool_decide (cl_device claim = rel_device r)
    | None => false
    end in
  if negb matches then (p, false)
  else ({| next_token := next_token p; claims := delete (rel_output_id r) (claims p);
           devices := delete (rel_device r) (devices p) |}, true).

(** ** The abstract pool

    The live reservations, each a token, a device and an output, and the last
    token given out. *)

Global Instance OutputReservationRelease_eq_dec : EqDecision OutputReservationRelease.
Proof. solve_decision. Defined.

Record ledger := { live : OutputReservationRelease -> Prop; last_token : Z }.

Definition ledger_init : ledger := {| live := fun _ => False; last_token := 0 |}.

Inductive slot_label :=
  | Reserved (r : OutputReservationRelease)
  | Refused
  | Released (r : OutputReservationRelease)
  | Ignored (r : OutputReservationRelease).

(** What the pool promises: a reservation is new, and its device and its output
    are free; a release names a live reservation and ends exactly that one. *)
Inductive ledger_step : ledger -> slot_label -> ledger -> Prop :=
  | ledger_reserve l r :
      last_token l < rel_token r ->
      (forall r', live l r' -> rel_device r' <> rel_device r /\ rel_output_id r' <> rel_output_id r) ->
      ledger_step l (Reserved r)
        {| live := fun r' => r' = r \/ live l r'; last_token := rel_token r |}
  | ledger_refuse l : ledger_step l Refused l
  | ledger_release l r :
      live l r ->
      ledger_step l (Released r)
        {| live := fun r' => r' <> r /\ live l r'; last_token := last_token l |}
  | ledger_ignore l r : ~ live l r -> ledger_step l (Ignored r) l.

Inductive slot_op :=
  | Reserve (device : DeviceInfo) (outputs : list CastKmsOutput) (preferred : option CastKmsOutputId)
  | Release (r : OutputReservationRelease).

Definition slot_run (p : OutputSlotPool) (op : slot_op) : OutputSlotPool * slot_label :=
  match op with
  | Reserve d os pref =>
      match reserve p d os pref with
      | (p', Ok r) => (p', Reserved (reservation_release r))
      | (p', _) => (p', Refused)
      end
  | Release r =>
      match release p r with
      | (p', true) => (p', Released r)
      | (p', false) => (p', Ignored r)
      end
  end.

Definition slot_history (ops : list slot_op) : OutputSlotPool :=
  foldl (fun p op => (slot_run p op).1) OutputSlotPool_default ops.

(** The live reservations a pool stands for. *)
Definition ledger_of (p : OutputSlotPool) : ledger :=
  {| live := fun r => claims p !! rel_output_id r
                      = Some {| cl_token := rel_token r; cl_device := rel_device r |};
     last_token := next_token p |}.

(** Ledgers are compared by what is live. *)
Definition same_ledger (l l' : ledger) : Prop :=
  (forall r, live l r <-> live l' r) /\ last_token l = last_token l'.

(** ** Invariant *)

Record pool_ok (p : OutputSlotPool) : Prop := {
  pool_inverse o d :
    devices p !! d = Some o <-> exists t, claims p !! o = Some {| cl_token := t; cl_device := d |};
  pool_tokens o c : claims p !! o = Some c -> cl_token c <= next_token p;
  pool_bound : 0 <= next_token p <= u64_MAX }.

Lemma default_ok : pool_ok OutputSlotPool_default.
Proof.
  split; cbn.
  - intros. rewrite !lookup_empty. naive_solver.
  - intros o c. by rewrite lookup_empty.
  - unfold u64_MAX. lia.
Qed.

Lemma select_output_spec p outputs preferred o :
  select_output p outputs preferred = Some o -> o ∈ outputs /\ available p o = true.
Proof.
  unfold select_output.
  set (first := match preferred with None => None | Some w => List.find _ outputs end).
  destruct first as [o'|] eqn:Hf.
  - intros [= ->]. unfold first in Hf. destruct preferred as [w|]; [|done].
    apply List.find_some in Hf as [Hin H]. apply andb_true_iff in H as [_ H].
    split; [by apply list_elem_of_In|done].
  - pose proof (min_by_spec id (List.filter (available p) outputs)) as Hm. intros Hs.
    rewrite Hs in Hm. destruct Hm as [Hin _]. apply list_elem_of_In, List.filter_In in Hin as [? ?].
    split; [by apply list_elem_of_In|done].
Qed.

Lemma available_free p o : available p o = true -> is_available o = true /\ claims p !! id o = None.
Proof.
  unfold available. intros [? H]%andb_true_iff. breflect. split; [done|].
  by apply eq_None_not_Some.
Qed.

Lemma validate_outputs_safe ids cs l : safe (validate_outputs ids cs l) (fun _ => True).
Proof.
  revert ids cs. induction l as [|o l IH]; intros ids cs; cbn [validate_outputs]; [done|].
  do 3 (apply safe_reject_seq; intros _). apply IH.
Qed.

Lemma reserve_cases p device outputs preferred :
  (exists e, reserve p device outputs preferred = (p, Err e)) \/
  (exists o, o ∈ outputs /\ is_available o = true /\ claims p !! id o = None /\
     devices p !! from_device device = None /\ next_token p < u64_MAX /\
     select_output p outputs preferred = Some o /\ validate_inventory outputs = Ok tt /\
     reserve p device outputs preferred
     = ({| next_token := next_token p + 1;
           claims := <[id o := {| cl_token := next_token p + 1;
                                  cl_device := from_device device |}]> (claims p);
           devices := <[from_device device := id o]> (devices p) |},
        Ok {| or_token := next_token p + 1; or_device := from_device device; or_output := o |})).
Proof.
  unfold reserve. case_bool_decide as Hd; cbn [reject obind]; [by left; eauto|].
  pose proof (validate_outputs_safe [] [] outputs) as Hv. unfold validate_inventory.
  destruct (validate_outputs [] [] outputs) as [[]|e|]; cbn [obind]; [|by left; eauto|done].
  destruct (select_output p outputs preferred) as [o|] eqn:Hs; cbn [ok_or obind]; [|by left; eauto].
  unfold checked_add64. destruct (_ <=? _) eqn:Ht; cbn [ok_or obind]; [|by left; eauto].
  right. apply select_output_spec in Hs as Hsel. destruct Hsel as [Hin [Hav Hfree]%available_free].
  exists o. rewrite Hfree. cbn. breflect.
  split_and!; try done; [by apply eq_None_not_Some|lia].
Qed.

Lemma release_cases p r :
  (release p r = (p, false) /\ ~ live (ledger_of p) r) \/
  (live (ledger_of p) r /\
   release p r = ({| next_token := next_token p; claims := delete (rel_output_id r) (claims p);
                     devices := delete (rel_device r) (devices p) |}, true)).
Proof.
  unfold release. cbn. destruct (claims p !! rel_output_id r) as [[t d]|] eqn:Hc; cbn.
  - destruct (t =? rel_token r) eqn:Ht; [case_bool_decide as Hd|]; cbn; breflect; subst.
    + by right.
    + left. split; [done|]. by intros [= ?].
    + left. split; [done|]. by intros [= ?].
  - left. split; [done|]. by intros [=].
Qed.

(** ** Refinement *)

Lemma reserve_ok p device outputs preferred :
  pool_ok p -> pool_ok (reserve p device outputs preferred).1.
Proof.
  intros Hp. destruct (reserve_cases p device outputs preferred)
    as [[e ->]|(o & _ & _ & Hc & Hd & Ht & _ & _ & ->)]; [done|].
  destruct Hp as [Hinv Htok Hb]. set (k := from_device device) in *. split; cbn.
  - intros o' d'. destruct (decide (d' = k)) as [->|Hne]; destruct (decide (o' = id o)) as [->|Ho].
    + rewrite !lookup_insert_eq. naive_solver.
    + rewrite lookup_insert_eq, lookup_insert_ne by done. split; [naive_solver|].
      intros [t Hx]. assert (devices p !! k = Some o') by (apply Hinv; eauto). congruence.
    + rewrite lookup_insert_ne, lookup_insert_eq by done. split; [|naive_solver].
      intros [t Hx]%Hinv. congruence.
    + rewrite !lookup_insert_ne by done. apply Hinv.
  - intros o' c. destruct (decide (o' = id o)) as [->|Ho].
    + rewrite lookup_insert_eq. intros [= <-]. simpl. lia.
    + rewrite lookup_insert_ne by done. intros ?%Htok. lia.
  - lia.
Qed.

Lemma release_ok p r : pool_ok p -> pool_ok (release p r).1.
Proof.
  intros Hp. destruct (release_cases p r) as [[-> _]|[Hl ->]]; [done|].
  destruct Hp as [Hinv Htok Hb]. cbn in Hl. split; cbn; [|intros o' c|done].
  - intros o' d'. destruct (decide (o' = rel_output_id r)) as [->|Ho];
      destruct (decide (d' = rel_device r)) as [->|Hd].
    + rewrite !lookup_delete_eq. naive_solver.
    + rewrite lookup_delete_ne, lookup_delete_eq by done. split; [|naive_solver].
      intros [t Hx]%Hinv. congruence.
    + rewrite lookup_delete_eq, lookup_delete_ne by done. split; [done|]. intros [t Hx].
      assert (devices p !! rel_device r = Some o') by (apply Hinv; eauto).
      assert (devices p !! rel_device r = Some (rel_output_id r)) by (apply Hinv; eauto).
      congruence.
    + rewrite !lookup_delete_ne by done. apply Hinv.
  - rewrite lookup_delete_Some. intros [_ ?]. by eapply Htok.
Qed.

Lemma slot_run_ok p op : pool_ok p -> pool_ok (slot_run p op).1.
Proof.
  intros Hp. destruct op as [d os pref|r]; cbn [slot_run].
  - pose proof (reserve_ok p d os pref Hp). by destruct (reserve p d os pref) as [p' []].
  - pose proof (release_ok p r Hp). by destruct (release p r) as [p' []].
Qed.

Lemma slot_history_ok ops : pool_ok (slot_history ops).
Proof.
  unfold slot_history. induction ops as [|op ops IH] using rev_ind; [apply default_ok|].
  rewrite foldl_app. cbn. by apply slot_run_ok.
Qed.

Lemma slot_run_refines p op :
  pool_ok p ->
  exists l, ledger_step (ledger_of p) (slot_run p op).2 l /\ same_ledger (ledger_of (slot_run p op).1) l.
Proof.
  intros Hp. destruct op as [d os pref|r]; cbn [slot_run].
  - destruct (reserve_cases p d os pref) as [[e ->]|(o & _ & _ & Hc & Hd & Ht & _ & _ & ->)].
    { exists (ledger_of p). by split; [constructor|]. }
    eexists. split; [apply ledger_reserve|].
    + simpl. lia.
    + intros r' Hr'. cbn in Hr' |- *. split; intros E; [|congruence].
      assert (devices p !! rel_device r' = Some (rel_output_id r')) by (eapply pool_inverse; eauto).
      congruence.
    + split; [|done]. intros [t dv oid]. cbn. destruct (decide (oid = id o)) as [->|Ho].
      * rewrite lookup_insert_eq. split; [intros [= <- <-]; by left|].
        intros [[= -> ->]|?]; [done|congruence].
      * rewrite lookup_insert_ne by done. split; [by right|]. by intros [[= ]|?].
  - destruct (release_cases p r) as [[-> Hn]|[Hl ->]].
    + exists (ledger_of p). split; [by constructor|done].
    + eexists. split; [by apply ledger_release|]. split; [|done]. intros [t dv oid]. cbn.
      rewrite lookup_delete_Some. cbn in Hl. split.
      * intros [Hne ?]. split; [|done]. intros <-. by apply Hne.
      * intros [Hne Hx]. split; [|done]. intros <-. apply Hne. rewrite Hl in Hx. destruct r.
        cbn in *. congruence.
Qed.

(** The slot pool implements the ledger of live reservations, in every
    state it can reach: a reservation carries a token above every earlier one
    and takes a device and an output that no live reservation holds, a
    release ends exactly the live reservation it names, and a release that
    names none (a repeated or delayed cleanup) changes nothing. *)
Theorem slot_pool_refines ops op :
  let p := slot_history ops in
  exists l, ledger_step (ledger_of p) (slot_run p op).2 l /\
    same_ledger (ledger_of (slot_run p op).1) l.
Proof. apply slot_run_refines, slot_history_ok. Qed.

(** ** Stale releases *)

(** Reservations that are over: their token was given out and they are not live. *)
Definition over (p : OutputSlotPool) (r : OutputReservationRelease) : Prop :=
  rel_token r <= next_token p /\ ~ live (ledger_of p) r.

Lemma slot_run_over p op r : pool_ok p -> over p r -> over (slot_run p op).1 r.
Proof.
  intros Hp [Ht Hl]. destruct (slot_run_refines p op Hp) as (l & Hstep & Hsame & Hlast).
  unfold over. rewrite Hsame. cbn in Hlast. rewrite Hlast. revert Ht Hl.
  inversion Hstep; subst; cbn in *; intros Ht Hl; try (split; [done|]; try done; tauto).
  split; [lia|]. intros [->|?]; [lia|done].
Qed.

Lemma slot_runs_over ops p r :
  pool_ok p -> over p r -> over (foldl (fun p op => (slot_run p op).1) p ops) r.
Proof.
  revert p. induction ops as [|op ops IH]; intros p Hp Hr; [done|].
  apply IH; [by apply slot_run_ok|by apply slot_run_over].
Qed.

(** A released reservation stays released: after its release took effect,
    whatever is reserved and released afterwards (the same device and output
    included), releasing it again leaves the pool as it is. *)
Theorem stale_release_ignored ops r rest :
  (slot_run (slot_history ops) (Release r)).2 = Released r ->
  let p := slot_history (ops ++ Release r :: rest) in
  release p r = (p, false).
Proof.
  intros Hr p.
  assert (over p r) as [_ Hover].
  { unfold p, slot_history. rewrite foldl_app. cbn [foldl]. apply slot_runs_over.
    - apply slot_run_ok, slot_history_ok.
    - fold (slot_history ops). pose proof (slot_history_ok ops) as Hp.
      cbn [slot_run] in Hr |- *.
      destruct (release_cases (slot_history ops) r) as [[E _]|[Hl E]]; rewrite E in Hr |- *;
        [done|]. split.
      + cbn. cbn in Hl. by apply (pool_tokens _ Hp) in Hl.
      + cbn. by rewrite lookup_delete_eq. }
  by destruct (release_cases p r) as [[-> _]|[Hl _]].
Qed.

(** ** Selection *)

(** What [validate_inventory] asks for. *)
Definition inventory_ok (outputs : list CastKmsOutput) : Prop :=
  Forall (fun o => well_described o = true) outputs /\ NoDup (id <$> outputs) /\
  NoDup ((fun o => (device_path (id o), connector_id o)) <$> outputs).

Lemma validate_outputs_ok ids cs l :
  validate_outputs ids cs l = Ok tt <->
  Forall (fun o => well_described o = true) l /\
  NoDup (id <$> l) /\ (forall o, o ∈ l -> id o ∉ ids) /\
  NoDup ((fun o => (device_path (id o), connector_id o)) <$> l) /\
  (forall o, o ∈ l -> (device_path (id o), connector_id o) ∉ cs).
Proof.
  revert ids cs. induction l as [|o l IH]; intros ids cs; cbn [validate_outputs fmap list_fmap].
  { split; [|done]. intros _. split_and!; try (by intros ? ?%elem_of_nil); constructor. }
  rewrite !reject_seq_ok, IH, negb_false_iff, !bool_decide_eq_false, !Forall_cons, !NoDup_cons.
  assert (forall {B} `{EqDecision B} (f : CastKmsOutput -> B) seen,
    (forall o', o' ∈ l -> f o' ∉ f o :: seen) <->
    f o ∉ f <$> l /\ (forall o', o' ∈ l -> f o' ∉ seen)) as Hseen.
  { intros B ? f seen. setoid_rewrite not_elem_of_cons. rewrite list_elem_of_fmap.
    split; [intros Hn; split; [intros (y & E & Hy); by destruct (Hn y Hy)|intros y Hy; by destruct (Hn y Hy)]|].
    intros [Hn Hs] o' Ho'. split; [|auto]. intros E. apply Hn. by exists o'. }
  rewrite (Hseen _ _ id), (Hseen _ _ (fun o => (device_path (id o), connector_id o))).
  setoid_rewrite elem_of_cons. naive_solver.
Qed.

Lemma validate_inventory_ok outputs : validate_inventory outputs = Ok tt <-> inventory_ok outputs.
Proof.
  unfold validate_inventory, inventory_ok. rewrite validate_outputs_ok.
  split; [tauto|]. intros (? & ? & ?). split_and!; try done; intros; apply not_elem_of_nil.
Qed.

Lemma validate_outputs_err ids cs l e : validate_outputs ids cs l = Err e -> e = InvalidInventory.
Proof.
  revert ids cs. induction l as [|o l IH]; intros ids cs; cbn [validate_outputs]; [done|].
  unfold reject. repeat (case_match; cbn [obind]; [naive_solver|]). apply IH.
Qed.

Lemma select_preferred p outputs want o :
  o ∈ outputs -> id o = want -> available p o = true ->
  exists o', select_output p outputs (Some want) = Some o' /\ id o' = want.
Proof.
  intros Hin Hid Hav. unfold select_output.
  destruct (List.find _ outputs) as [o'|] eqn:Hf.
  - apply List.find_some in Hf as [_ H]. apply andb_true_iff in H as [H _]. breflect. eauto.
  - apply list_elem_of_In in Hin. apply (List.find_none _ _ Hf) in Hin.
    by rewrite Hav, bool_decide_eq_true_2 in Hin by done.
Qed.

Lemma select_none p outputs preferred :
  select_output p outputs preferred = None -> Forall (fun o => available p o = false) outputs.
Proof.
  unfold select_output. case_match; [done|]. intros Hm.
  pose proof (min_by_spec id (List.filter (available p) outputs)) as H'. rewrite Hm in H'.
  apply Forall_forall. intros o Ho. destruct (available p o) eqn:Ha; [|done].
  assert (List.In o (List.filter (available p) outputs)) as Hin
    by (apply List.filter_In; split; [by apply list_elem_of_In|done]).
  by rewrite H' in Hin.
Qed.

Lemma select_least p outputs preferred o o' :
  select_output p outputs preferred = Some o -> Some (id o) <> preferred ->
  o' ∈ outputs -> available p o' = true -> le_of (id o) (id o').
Proof.
  unfold select_output.
  set (first := match preferred with None => None | Some w => List.find _ outputs end).
  destruct first as [f|] eqn:Hf; intros Hs Hne Hin Hav.
  - injection Hs as ->. unfold first in Hf. destruct preferred as [w|]; [|done].
    apply List.find_some in Hf as [_ H]. apply andb_true_iff in H as [H _]. breflect. congruence.
  - pose proof (min_by_spec id (List.filter (available p) outputs)) as Hm. rewrite Hs in Hm.
    destruct Hm as [_ Hall]. eapply Forall_forall in Hall; [exact Hall|].
    apply list_elem_of_In, List.filter_In. split; [by apply list_elem_of_In|done].
Qed.

(** Reserving an output, branch by branch, in every reachable pool: the
    assertions hold; a reservation gives a disconnected, unclaimed output of a
    valid inventory, the preferred one when that is free and otherwise the
    first free one in the stable order; an already claimed device, an invalid
    inventory, an inventory with nothing free and an exhausted token counter
    each give their error and leave the pool unchanged. *)
Theorem reserve_selects ops device outputs preferred :
  let p := slot_history ops in
  match reserve p device outputs preferred with
  | (_, Ok r) =>
      or_output r ∈ outputs /\ available p (or_output r) = true /\ inventory_ok outputs /\
      devices p !! from_device device = None /\
      (forall o, o ∈ outputs -> available p o = true ->
         (preferred = Some (id o) -> id (or_output r) = id o) /\
         (Some (id (or_output r)) <> preferred -> le_of (id (or_output r)) (id o)))
  | (p', Err e) =>
      p' = p /\
      match e with
      | DeviceAlreadyClaimed _ _ => is_Some (devices p !! from_device device)
      | InvalidInventory => ~ inventory_ok outputs
      | CapacityExhausted => inventory_ok outputs /\ Forall (fun o => available p o = false) outputs
      | TokenExhausted => next_token p = u64_MAX
      end
  | (_, Panic) => False
  end.
Proof.
  intros p. pose proof (slot_history_ok ops) as Hp. fold p in Hp.
  destruct (reserve_cases p device outputs preferred)
    as [[e E]|(o & Hin & Hav & Hc & Hd & Ht & Hs & Hv & ->)].
  - rewrite E. split; [done|]. unfold reserve in E. case_bool_decide as Hd; cbn in E;
      [by injection E as <-|].
    destruct (validate_inventory outputs) as [[]|e'|] eqn:Hv; cbn in E; [| |done].
    + apply validate_inventory_ok in Hv.
      destruct (select_output p outputs preferred) as [o|] eqn:Hs; cbn in E.
      * unfold checked_add64 in E. destruct (_ <=? _) eqn:Ht; cbn in E; [by case_match|].
        injection E as <-. breflect. pose proof (pool_bound _ Hp). lia.
      * injection E as <-. split; [done|]. by apply select_none in Hs.
    + apply validate_outputs_err in Hv as He. subst. injection E as <-.
      intros H%validate_inventory_ok. congruence.
  - cbn. split_and!; try done.
    + unfold available. rewrite Hav, Hc. done.
    + by apply validate_inventory_ok.
    + intros o' Ho' Hav'. split.
      * intros ->. destruct (select_preferred p outputs (id o') o') as (o2 & Hs2 & ?); [done..|].
        by rewrite Hs in Hs2; injection Hs2 as ->.
      * intros Hne. by eapply select_least.
Qed.

(** What discovery reports can be reserved from: an inventory returned by
    discovery is valid for the slot pool, on machines that resolve canonical
    paths to absolute ones and give device nodes a nonzero major number. *)
Theorem discovered_is_valid `{Machine} directory sysfs outputs :
  is_absolute directory = true ->
  (forall p d, canonicalize p = inl d -> is_absolute d = true) ->
  (forall p m, symlink_metadata p = inl m -> is_char_device m = true -> dev_major (rdev m) <> 0) ->
  discover_castkms_outputs_at directory sysfs = Ok outputs ->
  validate_inventory outputs = Ok tt.
Proof.
  intros Habs Hcanon Hmajor Hd. apply validate_inventory_ok.
  destruct (discover_ok _ _ _ Hd) as (_ & Hs & Hnd & Hall). split_and!; [| |done].
  - apply Forall_forall. intros o (? & name & ? & outs & _ & _ & _ & Hp & Ho)%Hall.
    apply probe_primary_node_ok in Hp. eapply Forall_forall in Hp; [|exact Ho].
    destruct Hp as [_ Hn Hdev (m & Hm & Hch & Hma & _) Hc Hname]. unfold well_described.
    rewrite Hn, path_join_absolute, (Hcanon _ _ Hdev), Hma by done.
    rewrite (proj2 (Z.eqb_neq _ _)) by eauto. rewrite (proj2 (Z.eqb_neq _ _)) by done.
    by rewrite bool_decide_eq_false_2.
  - clear -Hs. induction Hs as [|o l Hl IH Ho]; cbn; constructor; [|done].
    intros (o' & E & Ho')%list_elem_of_fmap. eapply Forall_forall in Ho; [|exact Ho'].
    unfold lt_of in Ho. rewrite E, cmp_refl in Ho. done.
Qed.

(** ** A pool in use *)

Definition ex_device (n : Z) : DeviceInfo := {| di_backend_id := [109]; di_device_id := [n] |}.

Definition ex_release : OutputReservationRelease :=
  {| rel_token := 1; rel_device := from_device (ex_device 1);
     rel_output_id := {| device_path := [RootDir; Normal (codes "castkms")]; output_index := 1 |} |}.

Lemma stale_release_ignored_witness :
  let p := slot_history [Reserve (ex_device 1) two_outputs None; Release ex_release;
                         Reserve (ex_device 1) two_outputs None] in
  size (claims p) = 1%nat /\ release p ex_release = (p, false).
Proof.
  split; [vm_compute; reflexivity|].
  apply (stale_release_ignored [Reserve (ex_device 1) two_outputs None] ex_release
           [Reserve (ex_device 1) two_outputs None]).
  vm_compute. reflexivity.
Defined.

Lemma discovered_is_valid_witness : validate_inventory two_outputs = Ok tt.
Proof.
  apply (discovered_is_valid (H := two_cards) [RootDir] [RootDir] two_outputs).
  - reflexivity.
  - intros p d [= <-]. reflexivity.
  - intros p m [= <-] _. vm_compute. discriminate.
  - vm_compute. reflexivity.
Defined.
