(* ===== verification/Time.v ===== *)
(** * Durations and instants

    A [Duration] is its number of nanoseconds, an [Instant] the nanoseconds
    since an arbitrary origin (on Linux a 64-bit signed second count).  Their
    arithmetic is checked or saturating as in the standard library. *)

From S2P Require Import Prelude Bytes Text.

Definition NANOS : Z := 1000000000.
Definition DURATION_MAX : Z := 2 ^ 64 * NANOS - 1.
Definition INSTANT_MAX : Z := 2 ^ 63 * NANOS - 1.

Definition from_secs (n : Z) : Z := n * NANOS.
Definition from_millis (n : Z) : Z := n * 1000000.

Definition duration_checked_add (a b : Z) : option Z :=
  if a + b <=? DURATION_MAX then Some (a + b) else None.
Definition instant_checked_add (a b : Z) : option Z :=
  if a + b <=? INSTANT_MAX then Some (a + b) else None.
Definition duration_checked_mul (a b : Z) : option Z :=
  if a * b <=? DURATION_MAX then Some (a * b) else None.
Definition duration_saturating_mul (a b : Z) : Z := Z.min (a * b) DURATION_MAX.
Definition duration_saturating_add (a b : Z) : Z := Z.min (a + b) DURATION_MAX.
Definition duration_saturating_sub (a b : Z) : Z := Z.max (a - b) 0.

(** [Instant::checked_duration_since]. *)
Definition checked_duration_since (now previous : Z) : option Z :=
  if previous <=? now then Some (now - previous) else None.

(** [Ord::clamp] asserts that the bounds are ordered. *)
Definition clamp {E} (x lo hi : Z) : outcome E Z :=
  if lo <=? hi then Ok (Z.max lo (Z.min x hi)) else Panic.

Lemma clamp_ok {E} x lo hi : lo <= hi -> oks (clamp (E:=E) x lo hi) (fun y => lo <= y <= hi).
Proof. intros. unfold clamp. destruct (Z.leb_spec lo hi); simpl; lia. Qed.

(** [Debug] of [Duration]: the largest unit that gives an integer part, with
    the fraction's digits up to the last one that is not zero. *)
Fixpoint fraction_digits (digits : nat) (fraction divisor : Z) : list Z :=
  match digits with
  | O => []
  | S d => if fraction =? 0 then []
           else (48 + fraction / divisor) :: fraction_digits d (fraction mod divisor) (divisor / 10)
  end.

Definition fmt_decimal (integer fraction divisor : Z) (suffix : list Z) : list Z :=
  display_uint integer
  ++ match fraction_digits 9 fraction divisor with [] => [] | ds => codes "." ++ ds end ++ suffix.

Definition debug_duration (d : Z) : list Z :=
  if NANOS <=? d then fmt_decimal (d / NANOS) (d mod NANOS) 100000000 (codes "s")
  else if 1000000 <=? d then fmt_decimal (d / 1000000) (d mod 1000000) 100000 (codes "ms")
  else if 1000 <=? d then fmt_decimal (d / 1000) (d mod 1000) 100 [194; 181; 115]
  else fmt_decimal d 0 1 (codes "ns").

Example debug_duration_values :
  map debug_duration [from_secs 15; from_millis 250; 1500000000; 2050; 7] =
  [codes "15s"; codes "250ms"; codes "1.5s"; codes "2.05" ++ [194; 181; 115]; codes "7ns"].
Proof. vm_compute. reflexivity. Qed.
