(* ===== verification/Actor.v ===== *)
(** * Actors as state passing

    An actor runs one command to completion before it takes the next, so its
    code is a function of its state.  [actor S A] is the state monad over the
    actor's state [S] (what it owns together with the record of what it did),
    and [runs] is the Hoare triple the invariants are proved with. *)

From S2P Require Import Prelude.

Definition actor (S A : Type) : Type := S -> A * S.

Definition aret {S A} (a : A) : actor S A := fun s => (a, s).
Definition abind {S A B} (m : actor S A) (k : A -> actor S B) : actor S B :=
  fun s => let '(a, s') := m s in k a s'.

Declare Scope actor_scope.
Delimit Scope actor_scope with actor.
Notation "'let*' x := m 'in' k" := (abind m (fun x => k))
  (at level 10, x name, m at level 200, k at level 200,
   format "'[v' 'let*'  x  :=  m  'in' '/' k ']'") : actor_scope.
Notation "'do*' m ; k" := (abind m (fun _ => k))
  (at level 10, m at level 200, k at level 200,
   format "'[v' 'do*'  m ; '/' k ']'") : actor_scope.
Global Open Scope actor_scope.

(** [runs m P Q]: from a state in [P] the code ends with a value and a state in [Q]. *)
Definition runs {S A} (m : actor S A) (P : S -> Prop) (Q : A -> S -> Prop) : Prop :=
  forall s, P s -> Q (m s).1 (m s).2.

Lemma runs_ret {S A} (a : A) (P : S -> Prop) (Q : A -> S -> Prop) :
  (forall s, P s -> Q a s) -> runs (aret a) P Q.
Proof. intros H s Hs. by apply H. Qed.

Lemma runs_bind {S A B} (m : actor S A) (k : A -> actor S B) P Q R :
  runs m P Q -> (forall a, runs (k a) (Q a) R) -> runs (abind m k) P R.
Proof.
  intros Hm Hk s Hs. unfold abind. specialize (Hm s Hs).
  destruct (m s) as [a s'] eqn:E. by apply Hk.
Qed.

Lemma runs_weaken {S A} (m : actor S A) (P P' : S -> Prop) (Q Q' : A -> S -> Prop) :
  runs m P Q -> (forall s, P' s -> P s) -> (forall a s, Q a s -> Q' a s) -> runs m P' Q'.
Proof. intros Hm HP HQ s Hs. by apply HQ, Hm, HP. Qed.

Lemma runs_post {S A} (m : actor S A) (P : S -> Prop) (Q Q' : A -> S -> Prop) :
  runs m P Q -> (forall a s, Q a s -> Q' a s) -> runs m P Q'.
Proof. intros Hm HQ. by eapply runs_weaken. Qed.

Lemma runs_pre {S A} (m : actor S A) (P P' : S -> Prop) (Q : A -> S -> Prop) :
  runs m P Q -> (forall s, P' s -> P s) -> runs m P' Q.
Proof. intros Hm HP. by eapply runs_weaken. Qed.

(** A fact that does not mention the state moves into the context. *)
Lemma runs_fact {S A} (m : actor S A) (F : Prop) (P : S -> Prop) (Q : A -> S -> Prop) :
  (F -> runs m P Q) -> runs m (fun s => F /\ P s) Q.
Proof. intros H s [HF Hs]. by apply H. Qed.

Lemma runs_case {S A} (b : bool) (m1 m2 : actor S A) P Q :
  (b = true -> runs m1 P Q) -> (b = false -> runs m2 P Q) -> runs (if b then m1 else m2) P Q.
Proof. destruct b; auto. Qed.

Lemma runs_at {S A} (m : actor S A) (P : S -> Prop) (Q : A -> S -> Prop) :
  (forall s, P s -> runs m (eq s) Q) -> runs m P Q.
Proof. intros H s Hs. by apply (H s Hs). Qed.
