(* ===== verification/MediaTimeline.v ===== *)
(** * Media timeline

    [GenerationMediaTimeline] of [pronk-media/src/media_timeline.rs]: the
    media timestamps and reference times of independently packetized audio and
    video.  A [Duration] and an [Instant] are nanosecond counts; their checked
    additions fail above the largest value of the type (on Linux an [Instant]
    is a 64-bit signed second count with nanoseconds). *)

From S2P Require Import Prelude Bytes Time.
From Stdlib Require Import Sorted.

(** ** Data *)

Inductive MediaStreamKind := Video | Audio.

Global Instance MediaStreamKind_eq_dec : EqDecision MediaStreamKind.
Proof. solve_decision. Defined.

Record StreamTimeline := {
  st_segment_pts_origin : Z;
  st_segment_media_origin : Z;
  st_next_media_timestamp : Z;
  st_last_pts : option Z }.

Record GenerationMediaTimeline := {
  segment_pts_origin : Z;
  segment_reference_origin : Z;
  reference_time_floor : Z;
  video : StreamTimeline;
  audio : option StreamTimeline }.

(** [MediaGraphError], one constructor per message. *)
Inductive TimelineError :=
  | AudioPresenceChanged
  | AudioOfVideoOnly
  | DidNotAdvance (kind : MediaStreamKind) (previous pts : Z)
  | PrecedesStreamAnchor (kind : MediaStreamKind)
  | PrecedesSegmentAnchor (kind : MediaStreamKind)
  | TimestampOverflow
  | ReferenceOverflow
  | EndTimestampOverflow
  | ReferenceEndOverflow.

(** ** Operations *)

Definition StreamTimeline_new (pts_origin : Z) : StreamTimeline :=
  {| st_segment_pts_origin := pts_origin; st_segment_media_origin := 0;
     st_next_media_timestamp := 0; st_last_pts := None |}.

Definition stream_reanchor (s : StreamTimeline) (pts_origin : Z) : StreamTimeline :=
  {| st_segment_pts_origin := pts_origin; st_segment_media_origin := st_next_media_timestamp s;
     st_next_media_timestamp := st_next_media_timestamp s; st_last_pts := None |}.

Definition earliest (video_pts_origin : Z) (audio_pts_origin : option Z) : Z :=
  match audio_pts_origin with
  | Some audio => Z.min audio video_pts_origin
  | None => video_pts_origin
  end.

Definition timeline_new (video_pts_origin : Z) (audio_pts_origin : option Z)
    (generation_reference_origin : Z) : GenerationMediaTimeline :=
  {| segment_pts_origin := earliest video_pts_origin audio_pts_origin;
     segment_reference_origin := generation_reference_origin;
     reference_time_floor := generation_reference_origin;
     video := StreamTimeline_new video_pts_origin;
     audio := StreamTimeline_new <$> audio_pts_origin |}.

Definition reanchor (t : GenerationMediaTimeline) (video_pts_origin : Z)
    (audio_pts_origin : option Z) (reference_origin : Z)
  : GenerationMediaTimeline * outcome TimelineError unit :=
  if negb (eqb (bool_decide (is_Some (audio t))) (bool_decide (is_Some audio_pts_origin)))
  then (t, Err AudioPresenceChanged)
  else
    ({| segment_pts_origin := earliest video_pts_origin audio_pts_origin;
        segment_reference_origin := Z.max reference_origin (reference_time_floor t);
        reference_time_floor := reference_time_floor t;
        video := stream_reanchor (video t) video_pts_origin;
        audio := match audio t, audio_pts_origin with
                 | Some a, Some origin => Some (stream_reanchor a origin)
                 | a, _ => a
                 end |}, Ok tt).

Definition stream_of (t : GenerationMediaTimeline) (kind : MediaStreamKind) : option StreamTimeline :=
  match kind with Video => Some (video t) | Audio => audio t end.

(** The reads and checks of [timing]: media timestamp and reference time of a
    unit, and the ends of both. *)
Definition timing_checks (t : GenerationMediaTimeline) (kind : MediaStreamKind) (pts duration : Z)
  : outcome TimelineError (Z * Z * Z * Z) :=
  let? stream := ok_or (stream_of t kind) AudioOfVideoOnly in
  try? match st_last_pts stream with
       | Some previous => reject (pts <=? previous) (DidNotAdvance kind previous pts)
       | None => Ok tt
       end;
  let? media_elapsed := ok_or (checked_sub pts (st_segment_pts_origin stream))
                          (PrecedesStreamAnchor kind) in
  let? segment_elapsed := ok_or (checked_sub pts (segment_pts_origin t))
                            (PrecedesSegmentAnchor kind) in
  let? media_timestamp := ok_or (duration_checked_add (st_segment_media_origin stream) media_elapsed)
                            TimestampOverflow in
  let? reference_time := ok_or (instant_checked_add (segment_reference_origin t) segment_elapsed)
                           ReferenceOverflow in
  let? next_media_timestamp := ok_or (duration_checked_add media_timestamp duration)
                                 EndTimestampOverflow in
  let? reference_time_end := ok_or (instant_checked_add reference_time duration)
                               ReferenceEndOverflow in
  Ok (media_timestamp, reference_time, next_media_timestamp, reference_time_end).

Definition advance_stream (s : StreamTimeline) (pts next : Z) : StreamTimeline :=
  {| st_segment_pts_origin := st_segment_pts_origin s;
     st_segment_media_origin := st_segment_media_origin s;
     st_next_media_timestamp := Z.max (st_next_media_timestamp s) next;
     st_last_pts := Some pts |}.

(** The update: [expect] on the audio stream that the checks found. *)
Definition timing (t : GenerationMediaTimeline) (kind : MediaStreamKind) (pts duration : Z)
  : GenerationMediaTimeline * outcome TimelineError (Z * Z) :=
  match timing_checks t kind pts duration with
  | Err e => (t, Err e)
  | Panic => (t, Panic)
  | Ok (media_timestamp, reference_time, next, reference_end) =>
      match kind, audio t with
      | Audio, None => (t, Panic)
      | _, _ =>
          ({| segment_pts_origin := segment_pts_origin t;
              segment_reference_origin := segment_reference_origin t;
              reference_time_floor := Z.max (reference_time_floor t) reference_end;
              video := match kind with Video => advance_stream (video t) pts next | Audio => video t end;
              audio := match kind with Audio => (fun a => advance_stream a pts next) <$> audio t
                                     | Video => audio t end |},
           Ok (media_timestamp, reference_time))
      end
  end.

(** ** Histories *)

Inductive media_op :=
  | Timing (kind : MediaStreamKind) (pts duration : Z)
  | Reanchor (video_origin : Z) (audio_origin : option Z) (reference : Z).

(** A unit that was given its times, and the segment it was in. *)
Record stamped := {
  sp_segment : nat; sp_kind : MediaStreamKind; sp_pts : Z; sp_duration : Z;
  sp_media : Z; sp_reference : Z }.

Record session := { timeline : GenerationMediaTimeline; segment : nat; units : list stamped }.

Definition session_step (s : session) (op : media_op) : session :=
  match op with
  | Timing kind pts duration =>
      match timing (timeline s) kind pts duration with
      | (t, Ok (m, r)) =>
          {| timeline := t; segment := segment s;
             units := units s ++ [{| sp_segment := segment s; sp_kind := kind; sp_pts := pts;
                                     sp_duration := duration; sp_media := m; sp_reference := r |}] |}
      | (t, _) => {| timeline := t; segment := segment s; units := units s |}
      end
  | Reanchor v a r =>
      match reanchor (timeline s) v a r with
      | (t, Ok _) => {| timeline := t; segment := S (segment s); units := units s |}
      | (t, _) => {| timeline := t; segment := segment s; units := units s |}
      end
  end.

Definition session_run (v : Z) (a : option Z) (r : Z) (ops : list media_op) : session :=
  foldl session_step {| timeline := timeline_new v a r; segment := 0; units := [] |} ops.

Definition op_ok (op : media_op) : Prop :=
  match op with Timing _ _ duration => 0 <= duration | Reanchor _ _ _ => True end.

(** [e] was stamped before [e']. *)
Record before (e e' : stamped) : Prop := {
  before_segment : (sp_segment e <= sp_segment e')%nat;
  before_same_segment : sp_segment e = sp_segment e' ->
    sp_reference e' - sp_reference e = sp_pts e' - sp_pts e;
  before_new_segment : (sp_segment e < sp_segment e')%nat ->
    sp_reference e + sp_duration e <= sp_reference e';
  before_same_stream : sp_segment e = sp_segment e' -> sp_kind e = sp_kind e' ->
    sp_pts e < sp_pts e' /\ sp_media e' - sp_media e = sp_pts e' - sp_pts e;
  before_later_stream : (sp_segment e < sp_segment e')%nat -> sp_kind e = sp_kind e' ->
    sp_media e + sp_duration e <= sp_media e' }.

(** What the timeline remembers of a unit it stamped. *)
Record remembers (s : session) (e : stamped) : Prop := {
  rem_segment : (sp_segment e <= segment s)%nat;
  rem_floor : sp_reference e + sp_duration e <= reference_time_floor (timeline s);
  rem_reference : (sp_segment e < segment s)%nat ->
    sp_reference e + sp_duration e <= segment_reference_origin (timeline s);
  rem_here : sp_segment e = segment s ->
    sp_reference e = segment_reference_origin (timeline s)
                     + (sp_pts e - segment_pts_origin (timeline s));
  rem_stream : exists st, stream_of (timeline s) (sp_kind e) = Some st /\
    sp_media e + sp_duration e <= st_next_media_timestamp st /\
    ((sp_segment e < segment s)%nat -> sp_media e + sp_duration e <= st_segment_media_origin st) /\
    (sp_segment e = segment s ->
     sp_media e = st_segment_media_origin st + (sp_pts e - st_segment_pts_origin st) /\
     exists last, st_last_pts st = Some last /\ sp_pts e <= last) }.

Record session_ok (s : session) : Prop := {
  ok_sorted : StronglySorted before (units s);
  ok_remembers : Forall (remembers s) (units s);
  ok_durations : Forall (fun e => 0 <= sp_duration e) (units s);
  ok_origins : forall k st, stream_of (timeline s) k = Some st ->
    segment_pts_origin (timeline s) <= st_segment_pts_origin st }.

Lemma StronglySorted_snoc {A} (R : A -> A -> Prop) l x :
  StronglySorted R l -> Forall (fun y => R y x) l -> StronglySorted R (l ++ [x]).
Proof.
  induction 1 as [|y l Hl IH Hy]; intros Hx; cbn; [by repeat constructor|].
  inversion Hx; subst. constructor; [by apply IH|]. apply Forall_app. by split; [|constructor].
Qed.

Lemma checked_sub_some a b c : checked_sub a b = Some c -> c = a - b /\ b <= a.
Proof. unfold checked_sub. destruct (b <=? a) eqn:E; intros [= <-]. breflect. done. Qed.

Lemma duration_add_some a b c : duration_checked_add a b = Some c -> c = a + b.
Proof. unfold duration_checked_add. by destruct (_ <=? _); intros [= <-]. Qed.

Lemma instant_add_some a b c : instant_checked_add a b = Some c -> c = a + b.
Proof. unfold instant_checked_add. by destruct (_ <=? _); intros [= <-]. Qed.

Lemma timing_checks_ok t kind pts duration m r n e :
  timing_checks t kind pts duration = Ok (m, r, n, e) ->
  exists st, stream_of t kind = Some st /\
    (forall last, st_last_pts st = Some last -> last < pts) /\
    m = st_segment_media_origin st + (pts - st_segment_pts_origin st) /\
    st_segment_pts_origin st <= pts /\
    r = segment_reference_origin t + (pts - segment_pts_origin t) /\
    n = m + duration /\ e = r + duration.
Proof.
  unfold timing_checks. intros H.
  apply obind_ok in H as (st & Hst & H). apply ok_or_ok in Hst.
  apply seq_ok in H as [Hl H]. apply obind_ok in H as (el & Hel & H).
  apply obind_ok in H as (sel & Hsel & H). apply ok_or_ok, checked_sub_some in Hel as [-> ?].
  apply ok_or_ok, checked_sub_some in Hsel as [-> ?].
  apply obind_ok in H as (? & Hm & H). apply obind_ok in H as (? & Hr & H).
  apply obind_ok in H as (? & Hn & H). apply obind_ok in H as (? & He & H).
  apply ok_or_ok, duration_add_some in Hm, Hn. apply ok_or_ok, instant_add_some in Hr, He.
  injection H as <- <- <- <-. subst. exists st. split_and!; try done.
  intros last Hlast. rewrite Hlast in Hl. apply reject_ok in Hl. breflect. lia.
Qed.

Lemma session_eta s : {| timeline := timeline s; segment := segment s; units := units s |} = s.
Proof. by destruct s. Qed.

Lemma timing_step s kind pts duration :
  session_ok s -> 0 <= duration -> session_ok (session_step s (Timing kind pts duration)).
Proof.
  intros [Hsort Hrem Hdur Horg] Hd. cbn [session_step]. unfold timing.
  destruct (timing_checks _ _ _ _) as [[[[m r] n] e]|err|] eqn:Hc;
    [|by rewrite session_eta; split|by rewrite session_eta; split].
  apply timing_checks_ok in Hc as (st & Hst & Hlast & Hm & Hpts & Hr & -> & ->).
  set (t' := {| segment_pts_origin := segment_pts_origin (timeline s);
    segment_reference_origin := segment_reference_origin (timeline s);
    reference_time_floor := Z.max (reference_time_floor (timeline s)) (r + duration);
    video := match kind with Video => advance_stream (video (timeline s)) pts (m + duration)
                           | Audio => video (timeline s) end;
    audio := match kind with Audio => (fun a => advance_stream a pts (m + duration)) <$> audio (timeline s)
                           | Video => audio (timeline s) end |}).
  set (u := {| sp_segment := segment s; sp_kind := kind; sp_pts := pts; sp_duration := duration;
               sp_media := m; sp_reference := r |}).
  set (s' := {| timeline := t'; segment := segment s; units := units s ++ [u] |}).
  assert (session_ok s') as Hgoal.
  2: { destruct kind; [exact Hgoal|]. cbn in Hst. rewrite Hst. exact Hgoal. }
  assert (forall k, stream_of t' k = if decide (k = kind)
    then (fun a => advance_stream a pts (m + duration)) <$> stream_of (timeline s) k
    else stream_of (timeline s) k) as Hstream.
  { intros k. unfold t'. destruct k, kind; cbn; try done; by destruct (audio (timeline s)). }
  split.
  - apply StronglySorted_snoc; [done|]. eapply Forall_impl; [exact Hrem|].
    intros e [Hseg Hfloor Href Hhere (se & Hse & Hnext & Horigin & Hsame)]. split; cbn; try done.
    + intros E. rewrite (Hhere E). lia.
    + intros E. pose proof (Href E). specialize (Horg _ _ Hst). lia.
    + intros E Hk. rewrite Hk, Hst in Hse. injection Hse as <-.
      destruct (Hsame E) as (-> & last & Hl & Hle). pose proof (Hlast _ Hl). lia.
    + intros E Hk. rewrite Hk, Hst in Hse. injection Hse as <-. pose proof (Horigin E). lia.
  - apply Forall_app. split.
    + eapply Forall_impl; [exact Hrem|].
      intros e [Hseg Hfloor Href Hhere (se & Hse & Hnext & Horigin & Hsame)]. split; cbn; try done;
        [lia|]. rewrite Hstream. case_decide as Hk; [|by exists se].
      rewrite Hk, Hst in Hse. injection Hse as <-. rewrite Hk, Hst. cbn. eexists. split; [done|].
      cbn. split_and!; [lia|done|]. intros E. destruct (Hsame E) as (? & last & Hl & Hle).
      split; [done|]. exists pts. split; [done|]. pose proof (Hlast _ Hl). lia.
    + repeat constructor; cbn; try done; try lia. rewrite Hstream, decide_True, Hst by done. cbn.
      eexists. split; [done|]. cbn. split_and!; [lia|lia|]. intros _. split; [done|].
      exists pts. done.
  - apply Forall_app. split; [done|]. by repeat constructor.
  - intros k sk. change (timeline s') with t'. rewrite Hstream. case_decide; [|apply Horg].
    destruct (stream_of (timeline s) k) eqn:E; intros [= <-]. by apply Horg in E.
Qed.

Lemma reanchor_step s v a r : session_ok s -> session_ok (session_step s (Reanchor v a r)).
Proof.
  intros [Hsort Hrem Hdur Horg]. cbn [session_step]. unfold reanchor.
  destruct (negb _) eqn:Hb; [by rewrite session_eta; split|]. breflect. apply eqb_prop in Hb.
  set (t' := {| segment_pts_origin := earliest v a;
    segment_reference_origin := Z.max r (reference_time_floor (timeline s));
    reference_time_floor := reference_time_floor (timeline s);
    video := stream_reanchor (video (timeline s)) v;
    audio := match audio (timeline s), a with
             | Some au, Some origin => Some (stream_reanchor au origin) | au, _ => au end |}).
  assert (forall k, match stream_of (timeline s) k with
    | None => stream_of t' k = None
    | Some st => exists origin, stream_of t' k = Some (stream_reanchor st origin) /\
                   earliest v a <= origin end) as Hstream.
  { intros []; cbn.
    - exists v. split; [done|]. unfold earliest. destruct a; lia.
    - destruct (audio (timeline s)) as [au|], a as [origin|]; cbn in Hb |- *; try done.
      exists origin. split; [done|]. lia. }
  split; [done| |done|].
  - eapply Forall_impl; [exact Hrem|].
    intros e [Hseg Hfloor Href Hhere (se & Hse & Hnext & Horigin & Hsame)]. split; cbn; try done; try lia.
    specialize (Hstream (sp_kind e)). rewrite Hse in Hstream. destruct Hstream as (o & -> & _).
    eexists. split; [done|]. cbn. split_and!; [done|done|]. lia.
  - intros k sk Hk. change (stream_of t' k = Some sk) in Hk. specialize (Hstream k).
    destruct (stream_of (timeline s) k) as [st|]; [|congruence].
    destruct Hstream as (o & Ho & ?). rewrite Ho in Hk. injection Hk as <-. done.
Qed.

Lemma session_run_ok v a r ops : Forall op_ok ops -> session_ok (session_run v a r ops).
Proof.
  unfold session_run. induction ops as [|op ops IH] using rev_ind; intros Hops.
  - split; try constructor. intros []; cbn; [|destruct a; cbn]; intros st [= <-]; cbn;
      unfold earliest; [destruct a|]; lia.
  - rewrite foldl_app. apply Forall_app in Hops as [Hops Hop]. inversion Hop; subst.
    destruct op; cbn [foldl]; [apply timing_step|apply reanchor_step]; auto.
Qed.

(** C34: Stream time survives source clock changes.  Over any sequence of units
    and reanchors of a generation, for any unit stamped before another: in the
    same segment their reference times differ by exactly their presentation
    timestamps, audio against video included; across a reanchor the later
    unit's reference time is not before the end of the earlier unit, of either
    stream.  On one stream, presentation and media timestamps of a segment
    advance strictly and together, and across a reanchor media time continues
    at or after the end of what was already sent. *)
Theorem timeline_monotone v a r ops :
  Forall op_ok ops -> StronglySorted before (units (session_run v a r ops)).
Proof. intros H. apply ok_sorted, session_run_ok, H. Qed.

Lemma timeline_monotone_witness :
  let ops := [Timing Video 1020 20; Timing Audio 1000 20; Timing Video 1040 20; Timing Video 1030 20;
              Reanchor 20 (Some 10) 1000000000; Timing Audio 10 20; Timing Video 20 20] in
  map (fun e => (sp_kind e, sp_media e, sp_reference e)) (units (session_run 1020 (Some 1000) 0 ops))
    = [(Video, 0, 20); (Audio, 0, 0); (Video, 20, 40); (Audio, 20, 1000000000);
       (Video, 40, 1000000010)] /\
  StronglySorted before (units (session_run 1020 (Some 1000) 0 ops)).
Proof.
  split; [vm_compute; reflexivity|]. apply timeline_monotone. repeat constructor; cbn; lia.
Defined.

(** In a running generation a unit is refused only for a reason of its own:
    timing neither panics nor reports a unit before the segment anchor, and it
    succeeds exactly when the stream exists, the unit is after the stream's
    last one and not before its anchor, and both end times are representable. *)
Theorem timing_accepts v a r ops kind pts duration :
  Forall op_ok ops -> 0 <= duration ->
  let t := timeline (session_run v a r ops) in
  (timing t kind pts duration).2 <> Panic /\
  (timing t kind pts duration).2 <> Err (PrecedesSegmentAnchor kind) /\
  (is_ok (timing t kind pts duration).2 = true <->
   exists st, stream_of t kind = Some st /\
     (forall last, st_last_pts st = Some last -> last < pts) /\ st_segment_pts_origin st <= pts /\
     st_segment_media_origin st + (pts - st_segment_pts_origin st) + duration <= DURATION_MAX /\
     segment_reference_origin t + (pts - segment_pts_origin t) + duration <= INSTANT_MAX).
Proof.
  intros Hops Hd t. pose proof (ok_origins _ (session_run_ok v a r ops Hops)) as Horg.
  fold t in Horg. unfold timing, timing_checks.
  destruct (stream_of t kind) as [st|] eqn:Hst; cbn [ok_or obind];
    [|split_and!; [done..|]; split; [done|]; by intros (? & [=] & _)].
  specialize (Horg _ _ Hst).
  assert (kind = Audio -> is_Some (audio t)) as Hau by (intros ->; cbn in Hst; eauto).
  unfold duration_checked_add, instant_checked_add, checked_sub.
  destruct (match st_last_pts st with Some p => _ | None => _ end) as [[]|e|] eqn:Hlast;
    cbn [obind].
  2: { split_and!; [done| |].
       - destruct (st_last_pts st); [|done]. unfold reject in Hlast. case_match; [|done].
         intros [= ->]. done.
       - split; [done|]. intros (st' & [= <-] & Hl & _). destruct (st_last_pts st); [|done].
         specialize (Hl _ eq_refl). unfold reject in Hlast. case_match; [|done]. breflect. lia. }
  2: { destruct (st_last_pts st); [|done]. unfold reject in Hlast. by case_match. }
  assert (forall last, st_last_pts st = Some last -> last < pts) as Hl.
  { intros last E. rewrite E in Hlast. apply reject_ok in Hlast. breflect. lia. }
  destruct (st_segment_pts_origin st <=? pts) eqn:H1; cbn [ok_or obind]; breflect;
    [|split_and!; [done..|]; split; [done|]; intros (? & [= <-] & ?); lia].
  rewrite (proj2 (Z.leb_le _ _)) by lia. cbn [ok_or obind].
  repeat (match goal with |- context [if ?c then Some _ else None] => destruct c eqn:? end;
          cbn [ok_or obind]; breflect;
          [|split_and!; [done..|]; split; [done|]; intros (? & [= <-] & ?); lia]).
  destruct kind; [|destruct (Hau eq_refl) as [? ->]]; (split_and!; [done..|]; split; [|done]);
    intros _; exists st; by split_and!.
Qed.

Lemma timing_accepts_witness :
  let t := timeline (session_run 1020 None 0 [Timing Video 1020 20]) in
  is_ok (timing t Video 1040 20).2 = true /\ is_ok (timing t Video 1020 20).2 = false /\
  (timing t Video 1040 20).2 <> Panic.
Proof.
  split; [vm_compute; reflexivity|]. split; [vm_compute; reflexivity|].
  refine (proj1 (timing_accepts 1020 None 0 [Timing Video 1020 20] Video 1040 20 _ _)).
  - repeat constructor. cbn. lia.
  - lia.
Defined.
