(* ===== verification/EncodedVideo.v ===== *)
(** * Encoded video: access-unit validation and forwarding

    [pronk-media/src/h264.rs], [vp8.rs] and [encoded_output.rs]: the checks an
    encoded frame passes before it leaves the media graph, and the bounded
    channel it leaves through.  The channel is Tokio's bounded [mpsc]: a queue
    with a capacity and a flag that the receiver is gone. *)

From S2P Require Import Prelude Bytes Text.

Definition MAX_MEDIA_ERROR_BYTES : nat := 512.
Definition MAX_ENCODED_ACCESS_UNIT_BYTES : Z := 8 * 1024 * 1024.
Definition VIDEO_FRAME_RATE : Z := 30.
Definition KEY_FRAME_INTERVAL_SECONDS : Z := 2.

Inductive VideoFrameDependency := KeyFrame | Delta.

Global Instance VideoFrameDependency_eq_dec : EqDecision VideoFrameDependency.
Proof. solve_decision. Defined.

(** [MediaGraphError::new]: a message cut at a character boundary. *)
Definition MediaGraphError_new {E} (message : list Z) : outcome E (list Z) :=
  if (MAX_MEDIA_ERROR_BYTES <? length (utf8 message))%nat then
    let? boundary := floor_char_boundary (utf8 message) MAX_MEDIA_ERROR_BYTES in
    slice (utf8 message) 0 boundary
  else Ok (utf8 message).

(** The errors of the encoded-video checks, one constructor per message. *)
Inductive EncodedVideoError :=
  | EmptyAccessUnit
  | OversizedAccessUnit (bytes : Z)
  | NoStartCode
  | DataBeforeStartCode
  | EmptyNalUnit
  | UnspecifiedNalType
  | FirstNotKeyFrame
  | KeyFrameLacks (nal_type : Z)
  | IdrInDelta
  | ShortFrameTag
  | DependencyMismatch (encoded marked : VideoFrameDependency)
  | NoUncompressedStartCode
  | BitrateOutOfRange (bits_per_second : Z)
  | ChannelClosed.

(** ** Encoder settings *)

(** [h264::bitrate_kbits]; the result fits a [u32], so the conversion that
    follows the range check cannot fail. *)
Definition div_ceil (a b : Z) : Z := (a + b - 1) / b.

Definition bitrate_kbits (bits_per_second : Z) : outcome EncodedVideoError Z :=
  let kbits := div_ceil bits_per_second 1000 in
  try? reject (negb ((1 <=? kbits) && (kbits <=? 2048000))) (BitrateOutOfRange bits_per_second);
  ok_or (if kbits <=? u32_MAX then Some kbits else None) (BitrateOutOfRange bits_per_second).

(** [vp8::bitrate]. *)
Definition vp8_bitrate (bits_per_second : Z) : outcome EncodedVideoError Z :=
  ok_or (if bits_per_second <=? 2147483647 then Some bits_per_second else None)
    (BitrateOutOfRange bits_per_second).

(** [key_frame_interval] of both encoders, with the largest value of its type. *)
Definition key_frame_interval (max : Z) : Z :=
  let frames := Z.min (VIDEO_FRAME_RATE * KEY_FRAME_INTERVAL_SECONDS) u64_MAX in
  let clamped := Z.min (Z.max frames 1) max in
  if clamped <=? max then clamped else max.

(** ** H.264 *)

Fixpoint starts_with (prefix l : list Z) : bool :=
  match prefix, l with
  | [], _ => true
  | _ :: _, [] => false
  | p :: prefix', x :: l' => (p =? x) && starts_with prefix' l'
  end.

(** The scan of [find_start_code] over the suffix that begins at [index]. *)
Fixpoint find_code (l : list Z) (index : nat) : option (nat * nat) :=
  match l with
  | [] => None
  | _ :: l' =>
      if starts_with [0; 0; 0; 1] l then Some (index, 4%nat)
      else if starts_with [0; 0; 1] l then Some (index, 3%nat)
      else find_code l' (S index)
  end.

Definition find_start_code (bytes : list Z) (from : nat) : option (nat * nat) :=
  find_code (drop from bytes) from.

(** The loop of [annex_b_nal_types], at a start code of [prefix] bytes at
    [start].  Every round moves past a start code, so a round per byte is
    enough. *)
Fixpoint nal_loop (fuel : nat) (bytes : list Z) (start prefix : nat) (types : list Z)
  : outcome EncodedVideoError (list Z) :=
  match fuel with
  | O => Panic
  | S fuel' =>
      let payload := (start + prefix)%nat in
      let next := find_start_code bytes payload in
      let stop := match next with Some (next_start, _) => next_start | None => length bytes end in
      try? reject (stop <=? payload)%nat EmptyNalUnit;
      let? header := index bytes payload in
      let nal_type := Z.land header 31 in
      try? reject (nal_type =? 0) UnspecifiedNalType;
      match next with
      | None => Ok (types ++ [nal_type])
      | Some (next_start, next_prefix) =>
          nal_loop fuel' bytes next_start next_prefix (types ++ [nal_type])
      end
  end.

Definition annex_b_nal_types (bytes : list Z) : outcome EncodedVideoError (list Z) :=
  match find_start_code bytes 0 with
  | None => Err NoStartCode
  | Some (start, prefix) =>
      let? before := slice bytes 0 start in
      try? reject (existsb (fun b => negb (b =? 0)) before) DataBeforeStartCode;
      nal_loop (S (length bytes)) bytes start prefix []
  end.

Definition contains (types : list Z) (t : Z) : bool := existsb (Z.eqb t) types.

Fixpoint require_types (types required : list Z) : outcome EncodedVideoError unit :=
  match required with
  | [] => Ok tt
  | t :: required' =>
      try? reject (negb (contains types t)) (KeyFrameLacks t);
      require_types types required'
  end.

Definition validate_access_unit (bytes : list Z) (dependency : VideoFrameDependency) (first : bool)
  : outcome EncodedVideoError unit :=
  try? reject (bool_decide (bytes = [])) EmptyAccessUnit;
  try? reject (MAX_ENCODED_ACCESS_UNIT_BYTES <? blen bytes) (OversizedAccessUnit (blen bytes));
  let? nal_types := annex_b_nal_types bytes in
  try? reject (first && negb (bool_decide (dependency = KeyFrame))) FirstNotKeyFrame;
  match dependency with
  | KeyFrame => require_types nal_types [7; 8; 5]
  | Delta => reject (contains nal_types 5) IdrInDelta
  end.

(** ** VP8 *)

Definition validate_frame (bytes : list Z) (dependency : VideoFrameDependency) (first : bool)
  : outcome EncodedVideoError unit :=
  try? reject (blen bytes <? 3) ShortFrameTag;
  try? reject (MAX_ENCODED_ACCESS_UNIT_BYTES <? blen bytes) (OversizedAccessUnit (blen bytes));
  let? tag := index bytes 0 in
  let encoded := if Z.land tag 1 =? 0 then KeyFrame else Delta in
  try? reject (negb (bool_decide (dependency = encoded))) (DependencyMismatch encoded dependency);
  try? reject (first && negb (bool_decide (dependency = KeyFrame))) FirstNotKeyFrame;
  if bool_decide (dependency = KeyFrame) then
    if blen bytes <? 10 then Err NoUncompressedStartCode
    else
      let? code := slice bytes 3 6 in
      reject (negb (bool_decide (code = [0x9d; 0x01; 0x2a]))) NoUncompressedStartCode
  else Ok tt.

(** ** Forwarding *)

Record EncodedVideoAccessUnit := {
  au_media_generation : Z; au_dependency : VideoFrameDependency; au_data : list Z;
  au_media_timestamp : Z; au_reference_time : Z; au_duration : Z }.

Record EncodedAudioPacket := {
  ap_media_generation : Z; ap_data : list Z; ap_media_timestamp : Z; ap_reference_time : Z;
  ap_duration : Z }.

Inductive OutputAdmission := Forwarded | Dropped (request_key_frame : bool).

(** [mpsc]: capacity, messages not yet received, receiver gone. *)
Record channel (A : Type) := { ch_capacity : nat; ch_queue : list A; ch_closed : bool }.
Arguments ch_capacity {A}.
Arguments ch_queue {A}.
Arguments ch_closed {A}.

Inductive TrySendError := Full | Closed.

Definition try_send {A} (ch : channel A) (a : A) : channel A * option TrySendError :=
  if ch_closed ch then (ch, Some Closed)
  else if (ch_capacity ch <=? length (ch_queue ch))%nat then (ch, Some Full)
  else ({| ch_capacity := ch_capacity ch; ch_queue := ch_queue ch ++ [a]; ch_closed := false |}, None).

(** [Receiver::try_recv] and dropping the receiver. *)
Definition recv {A} (ch : channel A) : channel A :=
  {| ch_capacity := ch_capacity ch; ch_queue := tail (ch_queue ch); ch_closed := ch_closed ch |}.
Definition close_receiver {A} (ch : channel A) : channel A :=
  {| ch_capacity := ch_capacity ch; ch_queue := []; ch_closed := true |}.

Record EncodedVideoOutput := { vo_sender : channel EncodedVideoAccessUnit; needs_key_frame : bool }.

Definition EncodedVideoOutput_new (sender : channel EncodedVideoAccessUnit) : EncodedVideoOutput :=
  {| vo_sender := sender; needs_key_frame := false |}.

Definition video_try_forward (o : EncodedVideoOutput) (access_unit : EncodedVideoAccessUnit)
  : EncodedVideoOutput * outcome EncodedVideoError OutputAdmission :=
  if needs_key_frame o && bool_decide (au_dependency access_unit = Delta) then (o, Ok (Dropped false))
  else
    let dependency := au_dependency access_unit in
    match try_send (vo_sender o) access_unit with
    | (ch, None) =>
        ({| vo_sender := ch;
            needs_key_frame := if bool_decide (dependency = KeyFrame) then false
                               else needs_key_frame o |}, Ok Forwarded)
    | (ch, Some Full) =>
        let request := negb (needs_key_frame o) || bool_decide (dependency = KeyFrame) in
        ({| vo_sender := ch; needs_key_frame := true |}, Ok (Dropped request))
    | (ch, Some Closed) => ({| vo_sender := ch; needs_key_frame := needs_key_frame o |}, Err ChannelClosed)
    end.

Definition audio_try_forward (sender : channel EncodedAudioPacket) (packet : EncodedAudioPacket)
  : channel EncodedAudioPacket * outcome EncodedVideoError OutputAdmission :=
  match try_send sender packet with
  | (ch, None) => (ch, Ok Forwarded)
  | (ch, Some Full) => (ch, Ok (Dropped false))
  | (ch, Some Closed) => (ch, Err ChannelClosed)
  end.

(** ** The NAL scan, against the byte-stream format *)

(** A NAL unit of the byte-stream format: not empty, its type specified, no
    start code inside it (emulation prevention), no zero at its end. *)
Fixpoint clean (nal : list Z) : bool :=
  match nal with
  | [] => true
  | a :: nal' =>
      negb (starts_with [0; 0; 1] nal) && negb (bool_decide (nal' = []) && (a =? 0)) && clean nal'
  end.

Definition nal_type (nal : list Z) : Z := Z.land (default 0 (head nal)) 31.

Definition nal_ok (nal : list Z) : Prop :=
  nal <> [] /\ clean nal = true /\ nal_type nal <> 0.

(** A byte stream: every NAL unit behind any number of zeros and a start code. *)
Definition code (zeros : nat) (rest : list Z) : list Z := replicate zeros 0 ++ [0; 0; 1] ++ rest.
Fixpoint byte_stream (units : list (nat * list Z)) : list Z :=
  match units with
  | [] => []
  | (zeros, nal) :: units' => code zeros (nal ++ byte_stream units')
  end.

Lemma find_code_nal nal rest i :
  clean nal = true -> find_code (nal ++ rest) i = find_code rest (i + length nal).
Proof.
  revert i. induction nal as [|a nal IH]; intros i Hc; [cbn; f_equal; lia|].
  cbn [clean] in Hc. apply andb_true_iff in Hc as [[H1 H2]%andb_true_iff Hc].
  apply negb_true_iff in H1, H2.
  assert (starts_with [0; 0; 1] (a :: nal ++ rest) = false) as E3.
  { destruct nal as [|b [|c nal]]; cbn in *; try done.
    - destruct a; by cbn in *.
    - rewrite andb_true_r in Hc. destruct a, b; by cbn in *. }
  assert (starts_with [0; 0; 0; 1] (a :: nal ++ rest) = false) as E4.
  { destruct nal as [|b nal]; [by cbn in H2 |- *; destruct a|].
    cbn [app]. cbn [starts_with]. destruct (0 =? a); [cbn [andb]|done].
    cbn [clean] in Hc. apply andb_true_iff in Hc as [[H3 H4]%andb_true_iff Hc'].
    apply negb_true_iff in H3, H4. destruct nal as [|c [|d nal]]; cbn in *; try done.
    - destruct b; by cbn in *.
    - rewrite andb_true_r in Hc'. destruct b, c; by cbn in *. }
  cbn [app find_code length]. cbn [app] in E3, E4. rewrite E3, E4, IH by done. f_equal. lia.
Qed.

Lemma find_code_code zeros rest i :
  exists s p, find_code (code zeros rest) i = Some (s, p) /\
    (s + p = i + zeros + 3)%nat /\ (i <= s)%nat /\ (s <= i + zeros)%nat.
Proof.
  revert i. induction zeros as [|z IH]; intros i.
  - exists i, 3%nat. cbn. split_and!; [done|lia..].
  - destruct z as [|z].
    + exists i, 4%nat. cbn. split_and!; [done|lia..].
    + destruct (IH (S i)) as (s & p & E & ? & ? & ?). exists s, p. split; [|lia].
      rewrite <- E. clear. unfold code. destruct z as [|[|z]]; reflexivity.
Qed.

Lemma length_code zeros rest : length (code zeros rest) = (zeros + 3 + length rest)%nat.
Proof. unfold code. rewrite !length_app, length_replicate. simpl. lia. Qed.

Lemma byte_stream_long units : (length units <= length (byte_stream units))%nat.
Proof.
  induction units as [|[z nal] units IH]; cbn [byte_stream length]; [lia|].
  rewrite length_code, length_app. lia.
Qed.

Lemma nal_loop_stream units fuel pre nal start prefix types :
  nal_ok nal -> Forall (fun u => nal_ok u.2) units ->
  (start + prefix = length pre)%nat -> (length units < fuel)%nat ->
  nal_loop fuel (pre ++ nal ++ byte_stream units) start prefix types
  = Ok (types ++ nal_type nal :: (nal_type ∘ snd <$> units)).
Proof.
  revert fuel pre nal start prefix types.
  induction units as [|[z nal'] units IH]; intros fuel pre nal start prefix types
    (Hne & Hcl & Hty) Hus Hpre Hfuel; (destruct fuel as [|fuel]; [lia|]); cbn [nal_loop];
    rewrite Hpre; unfold find_start_code; rewrite drop_past by done.
  - cbn [byte_stream]. rewrite find_code_nal by done. cbn [find_code]. rewrite app_nil_r, length_app.
    destruct nal as [|b nal]; [done|]. rewrite (proj2 (Nat.leb_gt _ _)) by (cbn; lia).
    cbn [reject obind]. unfold index. cbn [app]. rewrite list_lookup_middle by done. cbn [expect obind].
    change (Z.land b 31) with (nal_type (b :: nal)). rewrite (proj2 (Z.eqb_neq _ _)) by done. done.
  - cbn [byte_stream]. rewrite find_code_nal by done.
    destruct (find_code_code z (nal' ++ byte_stream units) (length pre + length nal))
      as (s & p & E & Hs & Hs1 & Hs2). rewrite E.
    destruct nal as [|b nal]; [done|]. rewrite (proj2 (Nat.leb_gt _ _)) by (cbn in *; lia).
    cbn [reject obind]. unfold index. cbn [app]. rewrite list_lookup_middle by done. cbn [expect obind].
    change (Z.land b 31) with (nal_type (b :: nal)). rewrite (proj2 (Z.eqb_neq _ _)) by done.
    cbn [reject obind]. inversion Hus; subst.
    replace (pre ++ b :: nal ++ code z (nal' ++ byte_stream units))
      with ((pre ++ (b :: nal) ++ replicate z 0 ++ [0; 0; 1]) ++ nal' ++ byte_stream units)
      by (unfold code; by rewrite <- !app_assoc).
    rewrite IH; [|done|done| |cbn in Hfuel; lia].
    + cbn [fmap list_fmap]. by rewrite <- app_assoc.
    + rewrite !length_app, length_replicate. cbn [length] in *. lia.
Qed.

Lemma existsb_zeros z : existsb (fun b => negb (b =? 0)) (replicate z 0) = false.
Proof. by induction z. Qed.

Lemma annex_b_stream units :
  units <> [] -> Forall (fun u => nal_ok u.2) units ->
  annex_b_nal_types (byte_stream units) = Ok (nal_type ∘ snd <$> units).
Proof.
  destruct units as [|[z nal] units]; [done|]. intros _ Hus. inversion Hus; subst.
  unfold annex_b_nal_types, find_start_code. rewrite drop_0.
  pose proof (byte_stream_long units) as Hlong. cbn [byte_stream] in *.
  destruct (find_code_code z (nal ++ byte_stream units) 0) as (s & p & -> & Hs & _ & Hz).
  rewrite slice_ok by (rewrite length_code; lia). cbn [obind].
  rewrite drop_0, Nat.sub_0_r.
  assert (take s (code z (nal ++ byte_stream units)) = replicate s 0) as ->.
  { unfold code. rewrite take_app_le by (rewrite length_replicate; lia).
    rewrite take_replicate. f_equal. lia. }
  rewrite existsb_zeros. cbn [reject obind].
  set (fuel := S (length (code z (nal ++ byte_stream units)))).
  replace (code z (nal ++ byte_stream units))
    with ((replicate z 0 ++ [0; 0; 1]) ++ nal ++ byte_stream units)
    by (unfold code; by rewrite <- !app_assoc).
  rewrite nal_loop_stream; try done.
  - rewrite length_app, length_replicate. cbn. lia.
  - unfold fuel. rewrite length_code, length_app. lia.
Qed.

Lemma require_types_ok types required :
  require_types types required = Ok tt <-> Forall (fun t => t ∈ types) required.
Proof.
  induction required as [|t required IH]; cbn [require_types]; [split; [constructor|done]|].
  rewrite reject_seq_ok, IH, Forall_cons, negb_false_iff. unfold contains.
  rewrite existsb_exists. split.
  - intros [(x & Hx & ->%Z.eqb_eq) ?]. split; [by apply list_elem_of_In|done].
  - intros [? ?]. split; [|done]. exists t. split; [by apply list_elem_of_In|apply Z.eqb_refl].
Qed.

Lemma contains_false types t : contains types t = false <-> t ∉ types.
Proof.
  unfold contains. split.
  - intros H Hin. enough (existsb (Z.eqb t) types = true) by congruence.
    apply existsb_exists. exists t. split; [by apply list_elem_of_In|apply Z.eqb_refl].
  - intros Hn. destruct (existsb (Z.eqb t) types) eqn:E; [|done]. destruct Hn.
    apply existsb_exists in E as (x & Hx & ->%Z.eqb_eq). by apply list_elem_of_In.
Qed.

(** H.264 validation reads the byte-stream format: for every Annex-B stream
    of NAL units (any number of leading zeros, short and long start codes
    mixed), the scan finds exactly the NAL types in order, and the access unit
    is accepted exactly when it is within the size limit, the first one is a
    key frame, a key frame carries SPS, PPS and an IDR slice, and a delta
    frame carries no IDR slice. *)
Theorem access_unit_accepted units dependency first :
  units <> [] -> Forall (fun u => nal_ok u.2) units ->
  let types := nal_type ∘ snd <$> units in
  annex_b_nal_types (byte_stream units) = Ok types /\
  (validate_access_unit (byte_stream units) dependency first = Ok tt <->
   blen (byte_stream units) <= 8 * 1024 * 1024 /\ (first = true -> dependency = KeyFrame) /\
   match dependency with
   | KeyFrame => 7 ∈ types /\ 8 ∈ types /\ 5 ∈ types
   | Delta => 5 ∉ types
   end).
Proof.
  intros Hne Hus types. pose proof (annex_b_stream units Hne Hus) as Ha. fold types in Ha.
  split; [done|]. unfold validate_access_unit. rewrite Ha. cbn [obind].
  rewrite !reject_seq_ok, bool_decide_eq_false, Z.ltb_ge.
  assert (byte_stream units <> []) as Hb.
  { intros E. destruct units as [|[[|z] nal] units]; done. }
  unfold MAX_ENCODED_ACCESS_UNIT_BYTES.
  destruct dependency.
  - rewrite bool_decide_eq_true_2, andb_false_r, require_types_ok, !Forall_cons by done.
    pose proof (Forall_nil_2 (fun t => t ∈ types)). tauto.
  - rewrite bool_decide_eq_false_2, andb_true_r, reject_ok, contains_false by done.
    destruct first; naive_solver.
Qed.

Lemma access_unit_accepted_witness :
  let units := [(1%nat, [0x67; 0xaa]); (0%nat, [0x68; 0xbb]); (0%nat, [0x65; 0xcc])] in
  byte_stream units = [0; 0; 0; 1; 0x67; 0xaa; 0; 0; 1; 0x68; 0xbb; 0; 0; 1; 0x65; 0xcc] /\
  annex_b_nal_types (byte_stream units) = Ok [7; 8; 5].
Proof.
  split; [reflexivity|].
  exact (proj1 (access_unit_accepted
    [(1%nat, [0x67; 0xaa]); (0%nat, [0x68; 0xbb]); (0%nat, [0x65; 0xcc])] KeyFrame true
    ltac:(discriminate) ltac:(repeat constructor; cbn; discriminate))).
Defined.

(** ** Arbitrary bytes *)

Lemma find_code_range l i s p :
  find_code l i = Some (s, p) -> (i <= s)%nat /\ (0 < p)%nat /\ (s + p <= i + length l)%nat.
Proof.
  assert (forall a b, starts_with a b = true -> (length a <= length b)%nat) as Hlen.
  { induction a as [|x a IHa]; intros [|y b]; cbn; try done; try lia.
    intros [_ H]%andb_true_iff. apply IHa in H. lia. }
  revert i. induction l as [|x l IH]; intros i; cbn [find_code]; [done|].
  destruct (starts_with [0; 0; 0; 1] (x :: l)) eqn:E4.
  { apply Hlen in E4. intros [= <- <-]. cbn [length] in *. lia. }
  destruct (starts_with [0; 0; 1] (x :: l)) eqn:E3.
  { apply Hlen in E3. intros [= <- <-]. cbn [length] in *. lia. }
  intros H%IH. cbn [length]. lia.
Qed.

Lemma nal_loop_safe fuel bytes start prefix types :
  (start + prefix <= length bytes)%nat -> (0 < prefix)%nat -> (length bytes < start + fuel)%nat ->
  safe (nal_loop fuel bytes start prefix types) (fun _ => True).
Proof.
  revert start prefix types. induction fuel as [|fuel IH]; intros start prefix types Hs Hp Hf; [lia|].
  cbn [nal_loop]. unfold find_start_code.
  destruct (find_code (drop (start + prefix) bytes) (start + prefix)) as [[s p]|] eqn:E.
  - apply find_code_range in E as (? & ? & Hr). rewrite length_drop in Hr.
    apply safe_reject_seq. intros Hlt. apply Nat.leb_gt in Hlt.
    unfold index. destruct (lookup_lt_is_Some_2 bytes (start + prefix)) as [b Hb]; [lia|].
    rewrite Hb. cbn [expect obind]. apply safe_reject_seq. intros _.
    apply IH; lia.
  - apply safe_reject_seq. intros Hlt. apply Nat.leb_gt in Hlt.
    unfold index. destruct (lookup_lt_is_Some_2 bytes (start + prefix)) as [b Hb]; [lia|].
    rewrite Hb. cbn [expect obind]. by apply safe_reject_seq.
Qed.

(** Encoder output is checked without a panic and without getting stuck:
    on arbitrary bytes both validators, the H.264 scan included, return
    acceptance or an error. *)
Theorem validation_never_panics bytes dependency first :
  validate_access_unit bytes dependency first <> Panic /\
  validate_frame bytes dependency first <> Panic.
Proof.
  split; apply (safe_no_panic _ (fun _ => True)).
  - unfold validate_access_unit. do 2 (apply safe_reject_seq; intros ?).
    eapply safe_bind with (Q := fun _ => True).
    + unfold annex_b_nal_types, find_start_code. rewrite drop_0.
      destruct (find_code bytes 0) as [[s p]|] eqn:E; [|done].
      apply find_code_range in E as (? & ? & ?). rewrite slice_ok by lia. cbn [obind].
      apply safe_reject_seq. intros _. apply nal_loop_safe; lia.
    + intros types _. apply safe_reject_seq. intros _. destruct dependency.
      * cbn. repeat (apply safe_reject_seq; intros _). done.
      * unfold reject. by case_match.
  - unfold validate_frame. do 2 (apply safe_reject_seq; intros ?). breflect. unfold blen in *.
    destruct bytes as [|b0 bytes]; [cbn in *; lia|]. cbn [index lookup list_lookup expect obind].
    do 2 (apply safe_reject_seq; intros _). case_bool_decide; [|done].
    case_match eqn:E; breflect; [done|]. rewrite slice_ok by lia. cbn [obind].
    unfold reject. by case_match.
Qed.

(** ** Forwarding *)

Inductive output_op :=
  | Forward (access_unit : EncodedVideoAccessUnit)
  | Receive
  | CloseReceiver.

(** What became of each submitted unit, in order. *)
Record forwarding := {
  fw_output : EncodedVideoOutput;
  fw_log : list (VideoFrameDependency * outcome EncodedVideoError OutputAdmission) }.

Definition forward_step (f : forwarding) (op : output_op) : forwarding :=
  match op with
  | Forward au =>
      let '(o, r) := video_try_forward (fw_output f) au in
      {| fw_output := o; fw_log := fw_log f ++ [(au_dependency au, r)] |}
  | Receive =>
      {| fw_output := {| vo_sender := recv (vo_sender (fw_output f));
                         needs_key_frame := needs_key_frame (fw_output f) |};
         fw_log := fw_log f |}
  | CloseReceiver =>
      {| fw_output := {| vo_sender := close_receiver (vo_sender (fw_output f));
                         needs_key_frame := needs_key_frame (fw_output f) |};
         fw_log := fw_log f |}
  end.

Definition forward_run (capacity : nat) (ops : list output_op) : forwarding :=
  foldl forward_step
    {| fw_output := EncodedVideoOutput_new
         {| ch_capacity := capacity; ch_queue := []; ch_closed := false |};
       fw_log := [] |} ops.

Abbreviation entry := (VideoFrameDependency * outcome EncodedVideoError OutputAdmission)%type.
Definition sent (e : entry) : Prop := e.2 = Ok Forwarded.
Definition requested (e : entry) : Prop := e.2 = Ok (Dropped true).

(** The log's tail since the last key frame that was sent, all of it sent. *)
Definition decodable_tail (l : list entry) : Prop :=
  exists before key after, l = before ++ key :: after /\ key.1 = KeyFrame /\
    Forall sent (key :: after).

Record forwarding_ok (f : forwarding) : Prop := {
  fw_sends n e : fw_log f !! n = Some e -> e.1 = Delta -> sent e ->
    (forall first, fw_log f !! 0%nat = Some first -> first.1 = KeyFrame) ->
    decodable_tail (take (S n) (fw_log f));
  fw_suppressed : needs_key_frame (fw_output f) = true ->
    exists before e after, fw_log f = before ++ e :: after /\ requested e /\
      Forall (fun e => ~ sent e) after;
  fw_flowing : needs_key_frame (fw_output f) = false -> ch_closed (vo_sender (fw_output f)) = false ->
    (forall first, fw_log f !! 0%nat = Some first -> first.1 = KeyFrame) ->
    fw_log f = [] \/ decodable_tail (fw_log f);
  fw_capacity : (length (ch_queue (vo_sender (fw_output f))) <= ch_capacity (vo_sender (fw_output f)))%nat }.

Lemma first_of_snoc (l : list entry) x :
  (forall first, (l ++ [x]) !! 0%nat = Some first -> first.1 = KeyFrame) ->
  forall first, l !! 0%nat = Some first -> first.1 = KeyFrame.
Proof. destruct l; [done|]. cbn. auto. Qed.

Lemma decodable_snoc (l : list entry) x : decodable_tail l -> sent x -> decodable_tail (l ++ [x]).
Proof.
  intros (b & k & a & -> & Hk & Hs) Hx. exists b, k, (a ++ [x]). split_and!.
  - by rewrite <- app_assoc.
  - done.
  - rewrite app_comm_cons. apply Forall_app. by split; [|constructor].
Qed.

Lemma take_snoc {A} (l : list A) x n :
  (n < length l)%nat -> take (S n) (l ++ [x]) = take (S n) l.
Proof. intros. by rewrite take_app_le by lia. Qed.

(** Appending an entry to the log: the earlier entries are judged as before. *)
Lemma sends_snoc (l : list entry) x n e :
  (forall n e, l !! n = Some e -> e.1 = Delta -> sent e ->
     (forall first, l !! 0%nat = Some first -> first.1 = KeyFrame) ->
     decodable_tail (take (S n) l)) ->
  (x.1 = Delta -> sent x -> (forall first, (l ++ [x]) !! 0%nat = Some first -> first.1 = KeyFrame) ->
   decodable_tail (l ++ [x])) ->
  (l ++ [x]) !! n = Some e -> e.1 = Delta -> sent e ->
  (forall first, (l ++ [x]) !! 0%nat = Some first -> first.1 = KeyFrame) ->
  decodable_tail (take (S n) (l ++ [x])).
Proof.
  intros Hl Hx Hn He Hs Hf. destruct (decide (n < length l)%nat) as [Hlt|Hge].
  - rewrite take_snoc by done. rewrite lookup_app_l in Hn by done.
    eapply Hl; eauto using first_of_snoc.
  - apply lookup_lt_Some in Hn as Hlt. rewrite length_app in Hlt. cbn in Hlt.
    assert (n = length l) as -> by lia. rewrite lookup_app_r in Hn by lia.
    rewrite Nat.sub_diag in Hn. injection Hn as <-.
    rewrite take_ge by (rewrite length_app; cbn; lia). auto.
Qed.

Lemma suppressed_snoc (l : list entry) x :
  ~ sent x ->
  (exists before e after, l = before ++ e :: after /\ requested e /\ Forall (fun e => ~ sent e) after) ->
  exists before e after, l ++ [x] = before ++ e :: after /\ requested e /\
    Forall (fun e => ~ sent e) after.
Proof.
  intros Hx (b & e & a & -> & He & Ha). exists b, e, (a ++ [x]). split_and!; [by rewrite <- app_assoc|done|].
  apply Forall_app. by split; [|constructor].
Qed.

Lemma forward_ok f au : forwarding_ok f -> forwarding_ok (forward_step f (Forward au)).
Proof.
  intros [Hsend Hsup Hflow Hcap]. cbn [forward_step]. unfold video_try_forward.
  destruct (needs_key_frame (fw_output f)) eqn:Hk; [case_bool_decide as Hd|]; cbn [andb].
  - split; cbn; [|by intros _; apply suppressed_snoc; auto|congruence|done].
    intros n e. apply sends_snoc; [done|]. by intros _ [=].
  - assert (au_dependency au = KeyFrame) as Hkey by by destruct (au_dependency au).
    unfold try_send. destruct (ch_closed (vo_sender (fw_output f))) eqn:Hc;
      [|destruct (ch_capacity _ <=? _)%nat eqn:Hq]; split; cbn; try rewrite Hkey; try done.
    + intros n e. apply sends_snoc; [done|]. by intros [=].
    + intros _. by apply suppressed_snoc; auto.
    + intros n e. apply sends_snoc; [done|]. by intros [=].
    + intros _. exists (fw_log f), (KeyFrame, Ok (Dropped true)), []. done.
    + intros n e. apply sends_snoc; [done|]. by intros [=].
    + intros _ _ _. right. exists (fw_log f), (KeyFrame, Ok Forwarded), []. by repeat constructor.
    + apply Nat.leb_gt in Hq. rewrite length_app. cbn. lia.
  - unfold try_send. destruct (ch_closed (vo_sender (fw_output f))) eqn:Hc;
      [|destruct (ch_capacity _ <=? _)%nat eqn:Hq]; split; cbn; try done; try congruence.
    + intros n e. apply sends_snoc; [done|]. by intros _ [=].
    + intros n e. apply sends_snoc; [done|]. by intros _ [=].
    + intros _. exists (fw_log f), (au_dependency au, Ok (Dropped true)), []. done.
    + intros n e. apply sends_snoc; [done|]. intros Hd Hs Hf.
      destruct (Hflow eq_refl eq_refl (first_of_snoc _ _ Hf)) as [E|?]; [|by apply decodable_snoc].
      rewrite E in Hf. specialize (Hf _ eq_refl). cbn in Hf, Hd. congruence.
    + by case_bool_decide.
    + intros _ _ Hf. right.
      destruct (Hflow eq_refl eq_refl (first_of_snoc _ _ Hf)) as [E|?]; [|by apply decodable_snoc].
      rewrite E in Hf |- *. exists [], (au_dependency au, Ok Forwarded), [].
      specialize (Hf _ eq_refl). by repeat constructor.
    + apply Nat.leb_gt in Hq. rewrite length_app. cbn. lia.
Qed.

Lemma forward_run_ok capacity ops : forwarding_ok (forward_run capacity ops).
Proof.
  unfold forward_run. induction ops as [|op ops IH] using rev_ind.
  - split; cbn; try done; [by left|lia].
  - rewrite foldl_app. cbn [foldl]. destruct op; [by apply forward_ok| |].
    + destruct IH as [? ? ? Hc]. split; try done. cbn. rewrite length_tl. lia.
    + destruct IH as [? ? ? Hc]. split; try done. cbn. lia.
Qed.

(** Overflow never leaves the receiver with an undecodable frame: when the
    encoder starts with a key frame, every delta frame that is forwarded
    follows a forwarded key frame with everything in between forwarded too,
    whatever the receiver does; whenever deltas are being suppressed a key
    frame has been requested since the last forwarded frame; and the channel
    never holds more than its capacity. *)
Theorem forwarded_is_decodable capacity ops n e :
  let f := forward_run capacity ops in
  (forall first, fw_log f !! 0%nat = Some first -> first.1 = KeyFrame) ->
  (fw_log f !! n = Some e -> e.1 = Delta -> sent e -> decodable_tail (take (S n) (fw_log f))) /\
  (needs_key_frame (fw_output f) = true -> exists before r after,
     fw_log f = before ++ r :: after /\ requested r /\ Forall (fun e => ~ sent e) after) /\
  (length (ch_queue (vo_sender (fw_output f))) <= ch_capacity (vo_sender (fw_output f)))%nat.
Proof.
  intros f Hf. destruct (forward_run_ok capacity ops) as [Hsend Hsup _ Hcap].
  split_and!; [|done|done]. intros. by eapply Hsend.
Qed.

Definition ex_unit (d : VideoFrameDependency) : output_op :=
  Forward {| au_media_generation := 1; au_dependency := d; au_data := [0; 0; 0; 1; 0x65];
             au_media_timestamp := 0; au_reference_time := 0; au_duration := 16 |}.

Lemma forwarded_is_decodable_witness :
  let ops := [ex_unit KeyFrame; ex_unit Delta; Receive; ex_unit Delta; ex_unit KeyFrame; Receive;
              ex_unit Delta] in
  map snd (fw_log (forward_run 1 ops))
    = [Ok Forwarded; Ok (Dropped true); Ok (Dropped false); Ok Forwarded; Ok Forwarded] /\
  decodable_tail (take 5 (fw_log (forward_run 1 ops))).
Proof.
  split; [vm_compute; reflexivity|].
  refine (proj1 (forwarded_is_decodable 1 [ex_unit KeyFrame; ex_unit Delta; Receive; ex_unit Delta;
    ex_unit KeyFrame; Receive; ex_unit Delta] 4 (Delta, Ok Forwarded) _) _ _ _).
  - intros first [= <-]. reflexivity.
  - vm_compute. reflexivity.
  - reflexivity.
  - reflexivity.
Defined.
