(* ===== verification/Identity.v ===== *)
(** * Manufacturer identity

    [pronk-core/src/identity.rs]: resolving a manufacturer name to a PNP ID
    through a [pnp.ids] database.  Strings are sequences of scalar values.
    Compatibility normalization and lowercasing (the [unicode-normalization]
    crate and the Unicode tables) are the class [Unicode]. *)

From S2P Require Import Prelude Bytes Text Ordering.

Definition MAX_DATABASE_BYTES : Z := 1024 * 1024.
Definition MAX_DATABASE_ENTRIES : nat := 8192.
Definition MAX_VENDOR_NAME_BYTES : nat := 256.

(** ** PNP IDs *)

Definition PnpId := list Z.

Definition is_ascii_uppercase (b : Z) : bool := (65 <=? b) && (b <=? 90).

Inductive PnpIdError :=
  | InvalidPnpId (value : list Z)
  | DatabaseTooLarge (bytes : Z)
  | MalformedLine (number : nat)
  | InvalidDatabaseName (number : nat)
  | DuplicateDatabaseId (pnp_id : PnpId)
  | TooManyEntries (count : nat)
  | EmptyDatabase
  | InvalidNormalizedDatabaseName (pnp_id : PnpId)
  | UnknownAliasTarget (pnp_id : PnpId)
  | InvalidAlias (name : list Z)
  | DuplicateAlias (key : list Z).

Definition PnpId_parse (value : list Z) : outcome PnpIdError PnpId :=
  let bytes := utf8 value in
  try? reject (negb (length bytes =? 3)%nat) (InvalidPnpId value);
  try? reject (negb (forallb is_ascii_uppercase bytes)) (InvalidPnpId value);
  Ok bytes.

Inductive PnpResolutionSource :=
  | AuthenticatedPnpId | ExactName | LegalSuffixName | ReviewedAlias | SynthesizerFallback.

Record ResolvedPnpId := {
  rp_pnp_id : PnpId; rp_database_name : option (list Z); rp_source : PnpResolutionSource;
  rp_candidate_count : nat }.

Record PnpAlias := { al_manufacturer_name : list Z; al_pnp_id : PnpId }.

Record PnpIdResolver := {
  names_by_id : gmap PnpId (list Z);
  exact_ids_by_name : gmap (list Z) (gset PnpId);
  legal_ids_by_name : gmap (list Z) (gset PnpId);
  aliases : gmap (list Z) PnpId;
  fallback_id : PnpId }.

(** ** Names *)

(** [value.nfkc().flat_map(char::to_lowercase)]. *)
Class Unicode := { nfkc_lowercase : list Z -> list Z }.

(** The loop of [normalize_manufacturer_name]. *)
Fixpoint normalize_loop (normalized : list Z) (pending_space : bool) (s : list Z) : list Z :=
  match s with
  | [] => normalized
  | c :: s' =>
      if c =? 46 then normalize_loop normalized pending_space s'
      else if (c =? 44) || is_whitespace c
      then normalize_loop normalized (negb (bool_decide (normalized = []))) s'
      else normalize_loop (normalized ++ (if pending_space then [32; c] else [c])) false s'
  end.

Definition normalize_manufacturer_name `{Unicode} (value : list Z) : list Z :=
  normalize_loop [] false (nfkc_lowercase value).

(** [str::split_whitespace]; [word] is the word being read, reversed. *)
Fixpoint split_words (word : list Z) (s : list Z) : list (list Z) :=
  match s with
  | [] => if bool_decide (word = []) then [] else [reverse word]
  | c :: s' =>
      if is_whitespace c
      then (if bool_decide (word = []) then [] else [reverse word]) ++ split_words [] s'
      else split_words (c :: word) s'
  end.

(** [words.join(" ")]. *)
Fixpoint join_words (words : list (list Z)) : list Z :=
  match words with
  | [] => []
  | [w] => w
  | w :: words' => w ++ [32] ++ join_words words'
  end.

Definition LEGAL_SUFFIXES_V1 : list (list Z) :=
  codes <$> ["corporation"; "corp"; "incorporated"; "inc"; "company"; "co"; "limited"; "ltd"; "llc";
             "plc"; "gmbh"; "ag"; "sa"; "bv"]%string.

(** The popping loop, on the words in reverse. *)
Fixpoint pop_suffixes (reversed : list (list Z)) : list (list Z) :=
  match reversed with
  | w :: ((_ :: _) as rest) =>
      if bool_decide (w ∈ LEGAL_SUFFIXES_V1) then pop_suffixes rest else reversed
  | _ => reversed
  end.

Definition strip_legal_suffixes (normalized_name : list Z) : list Z :=
  join_words (reverse (pop_suffixes (reverse (split_words [] normalized_name)))).

(** ** The database *)

(** [str::trim_end_matches('\r')]. *)
Fixpoint skip_cr (reversed : list Z) : list Z :=
  match reversed with 13 :: rest => skip_cr rest | _ => reversed end.
Definition trim_end_cr (line : list Z) : list Z := reverse (skip_cr (reverse line)).

Definition is_ascii_whitespace (c : Z) : bool :=
  (c =? 9) || (c =? 10) || (c =? 12) || (c =? 13) || (c =? 32).

(** [split_once] at the first ASCII whitespace. *)
Fixpoint split_once (line : list Z) : option (list Z * list Z) :=
  match line with
  | [] => None
  | c :: line' =>
      if is_ascii_whitespace c then Some ([], line')
      else match split_once line' with Some (a, b) => Some (c :: a, b) | None => None end
  end.

Definition starts_with_hash (line : list Z) : bool :=
  match line with c :: _ => c =? 35 | [] => false end.

Fixpoint parse_lines (number : nat) (lines : list (list Z)) (names : gmap PnpId (list Z))
  : outcome PnpIdError (gmap PnpId (list Z)) :=
  match lines with
  | [] => Ok names
  | raw_line :: lines' =>
      let line := trim_end_cr raw_line in
      if bool_decide (line = []) || starts_with_hash line
      then parse_lines (S number) lines' names
      else
        let? '(raw_id, raw_name) := ok_or (split_once line) (MalformedLine number) in
        let name := trim raw_name in
        match PnpId_parse raw_id with
        | Ok pnp_id =>
            try? reject (bool_decide (name = []) || (MAX_VENDOR_NAME_BYTES <? str_len name)%nat
                         || existsb is_control name) (InvalidDatabaseName number);
            try? reject (bool_decide (is_Some (names !! pnp_id))) (DuplicateDatabaseId pnp_id);
            let names' := <[pnp_id := name]> names in
            try? reject (MAX_DATABASE_ENTRIES <? size names')%nat (TooManyEntries (size names'));
            parse_lines (S number) lines' names'
        | _ => parse_lines (S number) lines' names
        end
  end.

(** [entry(key).or_default().insert(id)]. *)
Definition add_id (index : gmap (list Z) (gset PnpId)) (key : list Z) (pnp_id : PnpId)
  : gmap (list Z) (gset PnpId) :=
  <[key := {[pnp_id]} ∪ default ∅ (index !! key)]> index.

Section Resolver.
Context `{U : Unicode}.

Fixpoint index_names (entries : list (PnpId * list Z)) (exact legal : gmap (list Z) (gset PnpId))
  : outcome PnpIdError (gmap (list Z) (gset PnpId) * gmap (list Z) (gset PnpId)) :=
  match entries with
  | [] => Ok (exact, legal)
  | (pnp_id, name) :: entries' =>
      let key := normalize_manufacturer_name name in
      try? reject (bool_decide (key = [])) (InvalidNormalizedDatabaseName pnp_id);
      index_names entries' (add_id exact key pnp_id)
        (add_id legal (strip_legal_suffixes key) pnp_id)
  end.

Fixpoint index_aliases (names : gmap PnpId (list Z)) (list : list PnpAlias)
    (reviewed : gmap (Datatypes.list Z) PnpId)
  : outcome PnpIdError (gmap (Datatypes.list Z) PnpId) :=
  match list with
  | [] => Ok reviewed
  | alias :: list' =>
      try? reject (negb (bool_decide (is_Some (names !! al_pnp_id alias))))
             (UnknownAliasTarget (al_pnp_id alias));
      let key := strip_legal_suffixes (normalize_manufacturer_name (al_manufacturer_name alias)) in
      try? reject (bool_decide (key = [])) (InvalidAlias (al_manufacturer_name alias));
      try? reject (bool_decide (is_Some (reviewed !! key))) (DuplicateAlias key);
      index_aliases names list' (<[key := al_pnp_id alias]> reviewed)
  end.

(** The entries of the [BTreeMap], in the order of their keys. *)
Definition sorted_entries (names : gmap PnpId (list Z)) : list (PnpId * list Z) :=
  sort_by_key fst (map_to_list names).

Definition from_database (database : list Z) (alias_list : list PnpAlias) (fallback : PnpId)
  : outcome PnpIdError PnpIdResolver :=
  try? reject (MAX_DATABASE_BYTES <? Z.of_nat (str_len database))
         (DatabaseTooLarge (Z.of_nat (str_len database)));
  let? names := parse_lines 1 (lines_from [] database) ∅ in
  try? reject (bool_decide (names = ∅)) EmptyDatabase;
  let? '(exact, legal) := index_names (sorted_entries names) ∅ ∅ in
  let? reviewed := index_aliases names alias_list ∅ in
  Ok {| names_by_id := names; exact_ids_by_name := exact; legal_ids_by_name := legal;
        aliases := reviewed; fallback_id := fallback |}.

(** ** Resolution *)

Definition resolution (r : PnpIdResolver) (pnp_id : PnpId) (source : PnpResolutionSource)
    (candidate_count : nat) : ResolvedPnpId :=
  {| rp_pnp_id := pnp_id; rp_database_name := names_by_id r !! pnp_id; rp_source := source;
     rp_candidate_count := candidate_count |}.

Definition resolver_fallback (r : PnpIdResolver) : ResolvedPnpId :=
  resolution r (fallback_id r) SynthesizerFallback 0.

(** [BTreeSet::first] is the least element. *)
Definition resolution_from_candidates (r : PnpIdResolver) (candidates : gset PnpId)
    (source : PnpResolutionSource) : outcome PnpIdError ResolvedPnpId :=
  let? pnp_id := expect (min_by (fun i => i) (elements candidates)) in
  Ok (resolution r pnp_id source (size candidates)).

Definition resolve (r : PnpIdResolver) (authenticated_pnp_id manufacturer_name : option (list Z))
  : outcome PnpIdError ResolvedPnpId :=
  match authenticated_pnp_id with
  | Some value =>
      let? pnp_id := PnpId_parse value in
      Ok (resolution r pnp_id AuthenticatedPnpId 1)
  | None =>
      match manufacturer_name with
      | None => Ok (resolver_fallback r)
      | Some name =>
          let exact := normalize_manufacturer_name name in
          if bool_decide (exact = []) then Ok (resolver_fallback r)
          else
            match exact_ids_by_name r !! exact with
            | Some candidates => resolution_from_candidates r candidates ExactName
            | None =>
                let legal := strip_legal_suffixes exact in
                match legal_ids_by_name r !! legal with
                | Some candidates => resolution_from_candidates r candidates LegalSuffixName
                | None =>
                    match aliases r !! legal with
                    | Some pnp_id => Ok (resolution r pnp_id ReviewedAlias 1)
                    | None => Ok (resolver_fallback r)
                    end
                end
            end
      end
  end.
End Resolver.

(** ** Normalization, against its definition on words *)

(** The text with the ignored characters dropped and the separators as spaces. *)
Definition separated (s : list Z) : list Z :=
  (fun c => if c =? 44 then 32 else c) <$> List.filter (fun c => negb (c =? 46)) s.

Definition current (word : list Z) : list (list Z) :=
  if bool_decide (word = []) then [] else [reverse word].

Lemma split_words_nil word : split_words word [] = current word.
Proof. done. Qed.

Lemma join_words_snoc ws w :
  join_words (ws ++ [w]) = match ws with [] => w | _ => join_words ws ++ [32] ++ w end.
Proof.
  induction ws as [|v ws IH]; [done|]. destruct ws as [|u ws]; [done|].
  cbn [app] in *. change (join_words (v :: u :: ws ++ [w])) with (v ++ [32] ++ join_words (u :: ws ++ [w])).
  rewrite IH. change (join_words (v :: u :: ws)) with (v ++ [32] ++ join_words (u :: ws)).
  by rewrite <- !app_assoc.
Qed.

Lemma join_words_nil ws : Forall (fun w => w <> []) ws -> join_words ws = [] -> ws = [].
Proof.
  destruct ws as [|w [|u ws]]; [done| |].
  - intros H E. inversion H. by cbn in E.
  - intros H E. cbn in E. by apply app_eq_nil in E as [_ E].
Qed.

Lemma current_open word : word <> [] -> current word = [reverse word].
Proof. intros. unfold current. by rewrite bool_decide_eq_false_2. Qed.

Lemma reverse_nonempty {A} (l : list A) : l <> [] -> reverse l <> [].
Proof. intros H E. apply H. by rewrite <- (reverse_involutive l), E. Qed.

Lemma normalize_loop_spec s ws word :
  Forall (fun w => w <> []) ws ->
  normalize_loop (join_words (ws ++ current word)) (bool_decide (word = [] /\ ws <> [])) s
  = join_words (ws ++ split_words word (separated s)).
Proof.
  revert ws word. induction s as [|c s IH]; intros ws word Hws; [done|].
  cbn [normalize_loop]. unfold separated. cbn [List.filter].
  destruct (c =? 46) eqn:Hdot; cbn [negb]; [by apply IH|]. cbn [fmap list_fmap].
  fold (separated s).
  assert (is_whitespace (if c =? 44 then 32 else c) = (c =? 44) || is_whitespace c) as Hw
    by by destruct (c =? 44) eqn:E; [|].
  cbn [split_words]. rewrite Hw. destruct ((c =? 44) || is_whitespace c) eqn:Hsep.
  - fold (current word). rewrite app_assoc.
    assert (Forall (fun w => w <> []) (ws ++ current word)) as Hws'.
    { apply Forall_app. split; [done|]. unfold current. case_bool_decide; repeat constructor.
      by apply reverse_nonempty. }
    rewrite <- (IH (ws ++ current word) [] Hws'). f_equal.
    + unfold current at 3. rewrite bool_decide_eq_true_2 by done. by rewrite app_nil_r.
    + destruct (decide (ws ++ current word = [])) as [E|E].
      * rewrite E. done.
      * rewrite bool_decide_eq_false_2, bool_decide_eq_true_2; [done|done|].
        intros Hj. by apply E, join_words_nil.
  - assert ((if c =? 44 then 32 else c) = c) as -> by (apply orb_false_iff in Hsep as [-> _]; done).
    rewrite <- (IH ws (c :: word) Hws), (current_open (c :: word)) by done.
    rewrite (bool_decide_eq_false_2 (c :: word = [] /\ ws <> [])) by (intros [? _]; done).
    f_equal. rewrite join_words_snoc. unfold current. destruct word as [|d word].
    + cbn [bool_decide decide_rel]. rewrite bool_decide_eq_true_2, app_nil_r by done.
      destruct ws as [|w ws]; [by rewrite bool_decide_eq_false_2 by naive_solver|].
      rewrite bool_decide_eq_true_2 by done. done.
    + rewrite !bool_decide_eq_false_2 by (try intros [? _]; done). rewrite join_words_snoc.
      rewrite (reverse_cons (d :: word)). destruct ws; [done|]. by rewrite <- !app_assoc.
Qed.

(** Manufacturer names are reduced to their words: normalization is the
    lowercased compatibility form with dots dropped, split at commas and white
    space, joined by single spaces, so two names are compared by their words. *)
Theorem normalize_is_words `{Unicode} value :
  normalize_manufacturer_name value
  = join_words (split_words [] (separated (nfkc_lowercase value))).
Proof. apply (normalize_loop_spec _ [] []). constructor. Qed.

(** ** The indexes *)

Definition holders (index : gmap (list Z) (gset PnpId)) (key : list Z) : gset PnpId :=
  default ∅ (index !! key).

Definition index_ok (index : gmap (list Z) (gset PnpId)) : Prop :=
  forall key ids, index !! key = Some ids -> ids <> ∅.

Lemma add_id_holders index key pnp_id key' i :
  i ∈ holders (add_id index key pnp_id) key' <-> i ∈ holders index key' \/ (key' = key /\ i = pnp_id).
Proof.
  unfold holders, add_id. destruct (decide (key' = key)) as [->|Hne].
  - rewrite lookup_insert_eq. cbn. set_solver.
  - rewrite lookup_insert_ne by done. naive_solver.
Qed.

Lemma add_id_ok index key pnp_id : index_ok index -> index_ok (add_id index key pnp_id).
Proof.
  intros Hi k ids. unfold add_id. destruct (decide (k = key)) as [->|Hne].
  - rewrite lookup_insert_eq. intros [= <-]. set_solver.
  - rewrite lookup_insert_ne by done. apply Hi.
Qed.

Section ResolverFacts.
Context `{U : Unicode}.

Definition exact_key (name : list Z) : list Z := normalize_manufacturer_name name.
Definition legal_key (name : list Z) : list Z := strip_legal_suffixes (exact_key name).

Lemma index_names_ok entries exact legal exact' legal' :
  index_names entries exact legal = Ok (exact', legal') -> index_ok exact -> index_ok legal ->
  index_ok exact' /\ index_ok legal' /\
  (forall k i, i ∈ holders exact' k <-> i ∈ holders exact k \/
     exists name, (i, name) ∈ entries /\ exact_key name = k) /\
  (forall k i, i ∈ holders legal' k <-> i ∈ holders legal k \/
     exists name, (i, name) ∈ entries /\ legal_key name = k).
Proof.
  revert exact legal. induction entries as [|[p name] entries IH]; intros exact legal;
    cbn [index_names].
  { intros [= <- <-] He Hl. split_and!; try done; intros k i; (split; [by left|]);
      by intros [?|(? & ?%elem_of_nil & _)]. }
  rewrite reject_seq_ok. intros [_ H] He Hl.
  destruct (IH _ _ H) as (He' & Hl' & H1 & H2); [by apply add_id_ok..|].
  assert (forall (f : list Z -> list Z) k i,
    ((exists n, (i, n) ∈ (p, name) :: entries /\ f n = k) <->
     (f name = k /\ i = p) \/ exists n, (i, n) ∈ entries /\ f n = k)) as Hc.
  { intros f k i. setoid_rewrite elem_of_cons. split.
    - intros (n & [[= -> ->]|?] & ?); [by left|right; eauto].
    - intros [[? ->]|(n & ? & ?)]; [exists name; auto|exists n; auto]. }
  split_and!; try done; intros k i; [rewrite H1|rewrite H2]; rewrite add_id_holders, Hc;
    unfold exact_key, legal_key; naive_solver.
Qed.

Lemma index_aliases_ok names l reviewed reviewed' :
  index_aliases names l reviewed = Ok reviewed' ->
  (forall k i, reviewed' !! k = Some i -> reviewed !! k = Some i \/
     exists a, a ∈ l /\ legal_key (al_manufacturer_name a) = k /\ al_pnp_id a = i) /\
  (forall k, is_Some (reviewed !! k) -> is_Some (reviewed' !! k)) /\
  (forall a, a ∈ l -> is_Some (reviewed' !! legal_key (al_manufacturer_name a)) /\
     is_Some (names !! al_pnp_id a)).
Proof.
  revert reviewed. induction l as [|a l IH]; intros reviewed; cbn [index_aliases].
  { intros [= <-]. split_and!; [by left|done|by intros ? ?%elem_of_nil]. }
  rewrite !reject_seq_ok. intros (Hk & _ & _ & H). breflect.
  destruct (IH _ H) as (H1 & H2 & H3). fold (exact_key (al_manufacturer_name a)) in *.
  fold (legal_key (al_manufacturer_name a)) in *. split_and!.
  - intros k i Hk'. destruct (H1 _ _ Hk') as [E|(a' & ? & ? & ?)].
    + destruct (decide (k = legal_key (al_manufacturer_name a))) as [->|Hne].
      * rewrite lookup_insert_eq in E. injection E as <-. right. exists a. split; [by constructor|done].
      * rewrite lookup_insert_ne in E by done. by left.
    + right. exists a'. split; [by constructor|done].
  - intros k Hs. apply H2. destruct (decide (k = legal_key (al_manufacturer_name a))) as [->|Hne].
    + rewrite lookup_insert_eq. eauto.
    + by rewrite lookup_insert_ne.
  - intros a' [->|Ha]%elem_of_cons; [|by apply H3]. split; [|done].
    apply H2. rewrite lookup_insert_eq. eauto.
Qed.

(** The database entries a key stands for. *)
Definition matching (r : PnpIdResolver) (key : list Z -> list Z) (k : list Z) (i : PnpId) : Prop :=
  exists name, names_by_id r !! i = Some name /\ key name = k.

Lemma from_database_ok db l fallback r :
  from_database db l fallback = Ok r ->
  fallback_id r = fallback /\ index_ok (exact_ids_by_name r) /\ index_ok (legal_ids_by_name r) /\
  (forall k i, i ∈ holders (exact_ids_by_name r) k <-> matching r exact_key k i) /\
  (forall k i, i ∈ holders (legal_ids_by_name r) k <-> matching r legal_key k i) /\
  (forall k i, aliases r !! k = Some i ->
     exists a, a ∈ l /\ legal_key (al_manufacturer_name a) = k /\ al_pnp_id a = i) /\
  (forall a, a ∈ l -> is_Some (aliases r !! legal_key (al_manufacturer_name a))).
Proof.
  unfold from_database. rewrite reject_seq_ok. intros [_ H].
  apply obind_ok in H as (names & _ & H). rewrite reject_seq_ok in H. destruct H as [_ H].
  apply obind_ok in H as ([exact legal] & Hi & H). apply obind_ok in H as (rv & Ha & [= <-]).
  apply index_names_ok in Hi as (He & Hl & H1 & H2); [|by intros ? ? ?..].
  apply index_aliases_ok in Ha as (A1 & _ & A3).
  assert (forall i n, (i, n) ∈ sorted_entries names <-> names !! i = Some n) as Hin.
  { intros i n. unfold sorted_entries. rewrite sort_by_key_perm. apply elem_of_map_to_list. }
  split_and!; try done.
  - intros k i. rewrite H1. unfold holders. rewrite lookup_empty. cbn. setoid_rewrite Hin. set_solver.
  - intros k i. rewrite H2. unfold holders. rewrite lookup_empty. cbn. setoid_rewrite Hin. set_solver.
  - intros k i Hk. destruct (A1 k i Hk) as [E|?]; [|done]. by rewrite lookup_empty in E.
  - intros a Ha'. by apply A3.
Qed.

(** The least of a set of candidates, and how many there are. *)
Definition least_of (P : PnpId -> Prop) (i : PnpId) (count : nat) : Prop :=
  P i /\ (forall j, P j -> le_of i j) /\
  exists ids : gset PnpId, (forall j, j ∈ ids <-> P j) /\ size ids = count.

Lemma candidates_least r ids source P :
  ids <> ∅ -> (forall j, j ∈ ids <-> P j) ->
  exists i, resolution_from_candidates r ids source = Ok (resolution r i source (size ids)) /\
    least_of P i (size ids).
Proof.
  intros Hne HP. unfold resolution_from_candidates.
  pose proof (min_by_spec (fun i : PnpId => i) (elements ids)) as Hm.
  destruct (min_by (fun i => i) (elements ids)) as [i|] eqn:E; cbn [expect obind].
  - exists i. split; [done|]. destruct Hm as [Hin Hall]. split_and!.
    + apply HP. by apply elem_of_elements.
    + intros j Hj%HP. eapply Forall_forall in Hall; [exact Hall|]. by apply elem_of_elements.
    + by exists ids.
  - destruct Hne. by apply elements_empty_inv in Hm; apply leibniz_equiv.
Qed.

Lemma holders_lookup index k : index_ok index ->
  match index !! k with
  | Some ids => ids <> ∅ /\ holders index k = ids
  | None => holders index k = ∅
  end.
Proof.
  intros Hi. unfold holders. destruct (index !! k) as [ids|] eqn:E; [|done].
  split; [by eapply Hi|done].
Qed.
End ResolverFacts.

(** Name resolution follows its policy, for every database it accepts: it
    always resolves a name, without panicking, to the least ID among the
    entries with the same normalized name; failing that, among those with the
    same name up to legal suffixes; failing that, to a reviewed alias; and
    falls back only when none of the three exists.  Candidate counts are the
    number of matching entries. *)
Theorem resolve_policy `{Unicode} db alias_list fallback r name :
  from_database db alias_list fallback = Ok r ->
  exists res, resolve r None (Some name) = Ok res /\
    rp_database_name res = names_by_id r !! rp_pnp_id res /\
    let none key := forall i, ~ matching r key (key name) i in
    match rp_source res with
    | AuthenticatedPnpId => False
    | ExactName =>
        least_of (matching r exact_key (exact_key name)) (rp_pnp_id res) (rp_candidate_count res)
    | LegalSuffixName =>
        none exact_key /\
        least_of (matching r legal_key (legal_key name)) (rp_pnp_id res) (rp_candidate_count res)
    | ReviewedAlias =>
        none exact_key /\ none legal_key /\
        exists a, a ∈ alias_list /\ legal_key (al_manufacturer_name a) = legal_key name /\
          al_pnp_id a = rp_pnp_id res
    | SynthesizerFallback =>
        rp_pnp_id res = fallback /\
        (exact_key name = [] \/
         none exact_key /\ none legal_key /\
         forall a, a ∈ alias_list -> legal_key (al_manufacturer_name a) <> legal_key name)
    end.
Proof.
  intros Hr. destruct (from_database_ok _ _ _ _ Hr) as (Hfb & He & Hl & HE & HL & HA & HA').
  cbn [resolve]. unfold resolve. fold (exact_key name). case_bool_decide as Hempty.
  { eexists. split; [done|]. split; [done|]. cbn. auto. }
  pose proof (holders_lookup _ (exact_key name) He) as Hle.
  pose proof (holders_lookup _ (legal_key name) Hl) as Hll.
  destruct (exact_ids_by_name r !! exact_key name) as [ids|] eqn:Ee.
  { destruct Hle as [Hne Hh]. destruct (candidates_least r ids ExactName
      (matching r exact_key (exact_key name)) Hne) as (i & -> & Hleast).
    - intros j. rewrite <- Hh. apply HE.
    - eexists. split; [done|]. split; [done|]. exact Hleast. }
  assert (forall i, ~ matching r exact_key (exact_key name) i) as Hnone.
  { intros i Hi%HE. by rewrite Hle in Hi. }
  fold (legal_key name).
  destruct (legal_ids_by_name r !! legal_key name) as [ids|] eqn:El.
  { destruct Hll as [Hne Hh]. destruct (candidates_least r ids LegalSuffixName
      (matching r legal_key (legal_key name)) Hne) as (i & -> & Hleast).
    - intros j. rewrite <- Hh. apply HL.
    - eexists. split; [done|]. split; [done|]. by split. }
  assert (forall i, ~ matching r legal_key (legal_key name) i) as Hnone'.
  { intros i Hi%HL. by rewrite Hll in Hi. }
  destruct (aliases r !! legal_key name) as [i|] eqn:Ea.
  - eexists. split; [done|]. split; [done|]. cbn. auto.
  - eexists. split; [done|]. split; [done|]. cbn. split; [done|]. right. split_and!; try done.
    intros a Ha Hk. apply HA' in Ha as [? Ha]. by rewrite Hk, Ea in Ha.
Qed.

(** A database with two Sonys, resolved with ASCII lowercasing. *)
Definition ascii_unicode : Unicode :=
  {| nfkc_lowercase := map (fun c => if (65 <=? c) && (c <=? 90) then c + 32 else c) |}.

Definition ex_database : list Z :=
  codes "GGL Google Inc." ++ [10] ++ codes "SON Sony" ++ [13; 10] ++ codes "SNY Sony" ++ [10].

Lemma resolve_policy_witness :
  exists r, from_database (U := ascii_unicode) ex_database [] (codes "CKM") = Ok r /\
    resolve (U := ascii_unicode) r None (Some (codes " SONY,"))
      = Ok {| rp_pnp_id := codes "SNY"; rp_database_name := Some (codes "Sony");
              rp_source := ExactName; rp_candidate_count := 2 |} /\
    exists res, resolve (U := ascii_unicode) r None (Some (codes "Google, LLC")) = Ok res /\
      rp_pnp_id res = codes "GGL".
Proof.
  destruct (from_database (U := ascii_unicode) ex_database [] (codes "CKM")) as [r| |] eqn:E;
    [|vm_compute in E; discriminate..].
  exists r. split; [reflexivity|].
  destruct (resolve_policy (H := ascii_unicode) ex_database [] (codes "CKM") r (codes "Google, LLC") E)
    as (res & Hres & _).
  vm_compute in E. injection E as <-. split; [vm_compute; reflexivity|].
  exists res. split; [exact Hres|]. vm_compute in Hres. injection Hres as <-. reflexivity.
Defined.
