(* ===== verification/Edid.v ===== *)
(** * EDID construction

    [pronk-core/src/edid.rs]: the EDID of a cast display, its base block, CTA
    extension and DisplayID extensions.  A mutable sub-slice [&mut b[x..y]] is
    read, updated and written back ([with_slice]); indexing and slicing out of
    range panic.  SHA-256 is the class [Sha256], compatibility normalization
    the class [Unicode] of [Identity]. *)

From S2P Require Import Prelude Bytes Text Castkms Ordering Identity.

Definition EDID_PRODUCT_NAME_MAX_BYTES : nat := 106.
Definition MAX_EDID_MODES : nat := 16.
Definition DISPLAYID_EXTENSION_TAG : Z := 0x70.
Definition DISPLAYID_VERSION_1_3 : Z := 0x13.
Definition DISPLAYID_PRODUCT_TYPE_TV : Z := 4.
Definition DISPLAYID_PRODUCT_IDENTIFICATION_TAG : Z := 0x00.
Definition CTA_EXTENSION_TAG : Z := 0x02.
Definition CTA_REVISION_3 : Z := 0x03.
Definition DISPLAYID_MAX_SECTION_BYTES : nat := 121.
Definition DISPLAYID_PARAMETERS_TAG : Z := 0x01.
Definition DISPLAYID_TYPE_I_TIMING_TAG : Z := 0x03.

Definition PRODUCT_CODE_DOMAIN : list Z :=
  codes "io.github.pronkproject.Pronk.edid-product-code.v1" ++ [0].
Definition SERIAL_DOMAIN : list Z := codes "io.github.pronkproject.Pronk.edid-serial.v1" ++ [0].

(** ** Data *)

Record EdidMode := { width : Z; height : Z; refresh_millihz : Z }.

Global Instance EdidMode_eq_dec : EqDecision EdidMode.
Proof. solve_decision. Defined.

Record CastDisplayEdidRequest := {
  rq_pnp_id : PnpId;
  rq_manufacturer_name : option (list Z);
  rq_product_name : option (list Z);
  rq_display_name : option (list Z);
  rq_backend_id : list Z;
  rq_device_id : list Z;
  rq_modes : list EdidMode;
  rq_audio : bool;
  rq_cec_physical_address : option Z }.

Record EdidNumericIdentity := { pnp_id : PnpId; product_code : Z; serial : Z }.

Record GeneratedCastDisplayEdid := {
  ge_identity : EdidNumericIdentity; ge_display_name : option (list Z); ge_modes : list EdidMode;
  ge_audio : bool; ge_cec_physical_address : option Z; ge_edid : list Z }.

Global Instance EdidNumericIdentity_eq_dec : EqDecision EdidNumericIdentity.
Proof. solve_decision. Defined.

Definition has_same_monitor_configuration (a b : GeneratedCastDisplayEdid) : bool :=
  bool_decide (ge_identity a = ge_identity b) && bool_decide (ge_modes a = ge_modes b)
  && eqb (ge_audio a) (ge_audio b)
  && bool_decide (ge_cec_physical_address a = ge_cec_physical_address b).

Inductive CastDisplayEdidError :=
  | Empty (field : string)
  | TooLong (field : string) (actual maximum : nat)
  | ControlCharacter (field : string)
  | NonPrintableProductName
  | NoModes
  | TooManyModes (count : nat)
  | InvalidCecPhysicalAddress (address : Z)
  | UnsupportedMode (mode : EdidMode)
  | DuplicateMode (mode : EdidMode)
  | MissingRequired640x480
  | Framing (error : EdidError).

Record DetailedTiming := {
  clock_10khz : Z; hactive : Z; hblank : Z; vactive : Z; vblank : Z; hfront : Z; hsync : Z;
  vfront : Z; vsync : Z; features : Z }.

(** ** Modes *)

Definition TIMINGS : list (EdidMode * DetailedTiming) :=
  let mode w h r := {| width := w; height := h; refresh_millihz := r |} in
  let timing c ha hb va vb hf hs vf vs f :=
    {| clock_10khz := c; hactive := ha; hblank := hb; vactive := va; vblank := vb; hfront := hf;
       hsync := hs; vfront := vf; vsync := vs; features := f |} in
  [(mode 640 480 60000, timing 2518 640 160 480 45 16 96 10 2 0x18);
   (mode 1280 720 60000, timing 7425 1280 370 720 30 110 40 5 5 0x1e);
   (mode 800 600 60000, timing 4000 800 256 600 28 40 128 1 4 0x1e);
   (mode 1024 768 60000, timing 6500 1024 320 768 38 24 136 3 6 0x18);
   (mode 1280 800 60000, timing 7100 1280 160 800 23 48 32 3 6 0x1a);
   (mode 1280 1024 60000, timing 10800 1280 408 1024 42 48 112 1 3 0x1e);
   (mode 1366 768 60000, timing 8550 1366 426 768 30 70 143 3 3 0x1e);
   (mode 1440 900 60000, timing 8875 1440 160 900 26 48 32 3 6 0x1a);
   (mode 1600 900 60000, timing 9750 1600 160 900 26 48 32 3 5 0x1a);
   (mode 1680 1050 60000, timing 11900 1680 160 1050 30 48 32 3 6 0x1a);
   (mode 1920 1080 60000, timing 14850 1920 280 1080 45 88 44 4 5 0x1e);
   (mode 1920 1200 60000, timing 15400 1920 160 1200 35 48 32 3 6 0x1a);
   (mode 2560 1440 60000, timing 24150 2560 160 1440 41 48 32 3 5 0x1a);
   (mode 3840 2160 30000, timing 29700 3840 560 2160 90 176 88 8 10 0x1e);
   (mode 3840 2160 60000, timing 59400 3840 560 2160 90 176 88 8 10 0x1e)].

Definition timing_for (mode : EdidMode) : option DetailedTiming :=
  snd <$> List.find (fun e => bool_decide (e.1 = mode)) TIMINGS.

Definition EdidMode_new (w h r : Z) : outcome CastDisplayEdidError EdidMode :=
  let mode := {| width := w; height := h; refresh_millihz := r |} in
  try? match timing_for mode with Some _ => Ok tt | None => Err (UnsupportedMode mode) end;
  Ok mode.

(** The loop of [greatest_common_divisor]: the second number decreases in every
    round. *)
Fixpoint gcd_loop (fuel : nat) (left right : Z) : Z :=
  match fuel with
  | O => left
  | S fuel' => if right =? 0 then left else gcd_loop fuel' right (left mod right)
  end.
Definition greatest_common_divisor (left right : Z) : Z :=
  gcd_loop (S (Z.to_nat right)) left right.

Lemma gcd_loop_gcd fuel left right :
  0 <= left -> 0 <= right < Z.of_nat fuel -> gcd_loop fuel left right = Z.gcd left right.
Proof.
  revert left right. induction fuel as [|fuel IH]; intros left right Hl Hr; [lia|].
  cbn [gcd_loop]. destruct (Z.eqb_spec right 0) as [->|Hne]; [by rewrite Z.gcd_0_r, Z.abs_eq|].
  assert (0 <= left mod right < right) by (apply Z.mod_pos_bound; lia).
  rewrite IH, Z.gcd_comm, Z.gcd_mod by lia. by rewrite Z.gcd_comm.
Qed.

Lemma greatest_common_divisor_gcd left right :
  0 <= left -> 0 <= right -> greatest_common_divisor left right = Z.gcd left right.
Proof. intros. apply gcd_loop_gcd; lia. Qed.

(** Supported modes have a positive size, so the divisor is not zero. *)
Definition reduced_aspect_ratio (mode : EdidMode) : Z * Z :=
  let divisor := greatest_common_divisor (width mode) (height mode) in
  (width mode / divisor, height mode / divisor).

Definition aspect_ratio_code (mode : EdidMode) : Z :=
  match reduced_aspect_ratio mode with (5, 4) => 1 | (4, 3) => 2 | (8, 5) => 5 | _ => 4 end.

Definition aspect_ratio_value (mode : EdidMode) : Z :=
  match reduced_aspect_ratio mode with (5, 4) => 25 | (4, 3) => 33 | (8, 5) => 60 | _ => 78 end.

Definition established_timing_bit (mode : EdidMode) : option (nat * Z) :=
  match (width mode, height mode, refresh_millihz mode) with
  | (640, 480, 60000) => Some (0%nat, 5)
  | (800, 600, 60000) => Some (0%nat, 0)
  | (1024, 768, 60000) => Some (1%nat, 3)
  | _ => None
  end.

Definition standard_timing (mode : EdidMode) : option (list Z) :=
  if negb (refresh_millihz mode =? 60000) || negb (width mode mod 8 =? 0) then None
  else
    let horizontal := width mode / 8 in
    if negb ((31 <=? horizontal) && (horizontal <=? 286)) then None
    else
      match reduced_aspect_ratio mode with
      | (8, 5) => Some [wrap 8 (horizontal - 31); 0]
      | (4, 3) => Some [wrap 8 (horizontal - 31); wrap 8 (Z.shiftl 1 6)]
      | (5, 4) => Some [wrap 8 (horizontal - 31); wrap 8 (Z.shiftl 2 6)]
      | (16, 9) => Some [wrap 8 (horizontal - 31); wrap 8 (Z.shiftl 3 6)]
      | _ => None
      end.

Definition video_identification_code (mode : EdidMode) : option Z :=
  match (width mode, height mode, refresh_millihz mode) with
  | (640, 480, 60000) => Some 1
  | (1280, 720, 60000) => Some 4
  | (1920, 1080, 60000) => Some 16
  | (3840, 2160, 30000) => Some 95
  | (3840, 2160, 60000) => Some 97
  | _ => None
  end.

(** The loop that fills the remaining detailed slots. *)
Fixpoint fill_detailed (selected modes : list EdidMode) : list EdidMode :=
  match modes with
  | [] => selected
  | mode :: modes' =>
      if (length selected =? 4)%nat then selected
      else fill_detailed
             (if bool_decide (mode ∈ selected) then selected else selected ++ [mode]) modes'
  end.

Definition only_detailed (mode : EdidMode) : bool :=
  bool_decide (established_timing_bit mode = None) && bool_decide (standard_timing mode = None).

Definition select_base_detailed_modes (modes : list EdidMode)
  : outcome CastDisplayEdidError (list EdidMode) :=
  let? first := index modes 0 in
  Ok (fill_detailed (first :: take 3 (List.filter only_detailed (tail modes))) modes).

(** ** Validation *)

Definition validate_stable_id (field : string) (value : list Z) (maximum : nat)
  : outcome CastDisplayEdidError unit :=
  try? reject (bool_decide (value = [])) (Empty field);
  try? reject (maximum <? str_len value)%nat (TooLong field (str_len value) maximum);
  reject (existsb is_control value) (ControlCharacter field).

Definition validate_manufacturer_name (value : option (list Z))
  : outcome CastDisplayEdidError (option (list Z)) :=
  match trim <$> value with
  | None | Some [] => Ok None
  | Some value =>
      try? reject (128 <? str_len value)%nat (TooLong "manufacturer name" (str_len value) 128);
      try? reject (existsb is_control value) (ControlCharacter "manufacturer name");
      Ok (Some value)
  end.

Definition validate_product_name (value : option (list Z))
  : outcome CastDisplayEdidError (option (list Z)) :=
  match trim <$> value with
  | None | Some [] => Ok None
  | Some value =>
      try? reject (EDID_PRODUCT_NAME_MAX_BYTES <? str_len value)%nat
             (TooLong "product name" (str_len value) EDID_PRODUCT_NAME_MAX_BYTES);
      try? reject (negb (forallb (fun b => (0x20 <=? b) && (b <=? 0x7e)) (utf8 value)))
             NonPrintableProductName;
      Ok (Some value)
  end.

Fixpoint validate_mode_list (unique : list EdidMode) (modes : list EdidMode)
  : outcome CastDisplayEdidError unit :=
  match modes with
  | [] => Ok tt
  | mode :: modes' =>
      try? reject (bool_decide (timing_for mode = None)) (UnsupportedMode mode);
      try? reject (bool_decide (mode ∈ unique)) (DuplicateMode mode);
      validate_mode_list (mode :: unique) modes'
  end.

Definition mode_640x480 : EdidMode := {| width := 640; height := 480; refresh_millihz := 60000 |}.

Definition validate_modes (modes : list EdidMode) : outcome CastDisplayEdidError unit :=
  try? reject (bool_decide (modes = [])) NoModes;
  try? reject (MAX_EDID_MODES <? length modes)%nat (TooManyModes (length modes));
  try? validate_mode_list [] modes;
  reject (negb (existsb (fun m => (width m =? 640) && (height m =? 480)
                                  && (refresh_millihz m =? 60000)) modes))
    MissingRequired640x480.

Fixpoint check_nibbles (address : Z) (zero_seen : bool) (nibbles : list Z)
  : outcome CastDisplayEdidError unit :=
  match nibbles with
  | [] => Ok tt
  | nibble :: rest =>
      if nibble =? 0 then check_nibbles address true rest
      else if zero_seen then Err (InvalidCecPhysicalAddress address)
      else check_nibbles address zero_seen rest
  end.

Definition validate_cec_physical_address (address : Z) : outcome CastDisplayEdidError unit :=
  try? reject ((address =? 0) || (address =? u16_MAX)) (InvalidCecPhysicalAddress address);
  check_nibbles address false
    [wrap 8 (Z.shiftr address 12); Z.land (Z.shiftr address 8) 0x0f;
     Z.land (Z.shiftr address 4) 0x0f; Z.land address 0x0f].

(** ** Numeric identity *)

Class Sha256 := { sha256 : list Z -> list Z }.

(** The loop of [normalize_hash_field]. *)
Fixpoint hash_field_loop (result : list Z) (pending_space : bool) (s : list Z) : list Z :=
  match s with
  | [] => result
  | c :: s' =>
      if is_whitespace c then hash_field_loop result (negb (bool_decide (result = []))) s'
      else hash_field_loop (result ++ (if pending_space then [32; c] else [c])) false s'
  end.

Definition normalize_hash_field `{Unicode} (value : list Z) : list Z :=
  hash_field_loop [] false (nfkc_lowercase value).

Definition derive_hash `{Sha256} (domain : list Z) (fields : list (list Z)) : list Z :=
  sha256 (domain ++ concat ((fun field => le_bytes 4 (blen field) ++ field) <$> fields)).

Definition nonzero_u16 (hash : list Z) : outcome CastDisplayEdidError Z :=
  let? v := get_le hash 0 2 in Ok (if v =? 0 then 1 else v).
Definition nonzero_u32 (hash : list Z) : outcome CastDisplayEdidError Z :=
  let? v := get_le hash 0 4 in Ok (if v =? 0 then 1 else v).

(** [u8] subtraction and addition with overflow checks. *)
Definition letter (b : Z) : outcome CastDisplayEdidError Z :=
  let? d := sub_checked b 65 in
  if d + 1 <=? 255 then Ok (d + 1) else Panic.

Definition encode_pnp_id (id : PnpId) : outcome CastDisplayEdidError (list Z) :=
  let? b0 := index id 0 in
  let? b1 := index id 1 in
  let? b2 := index id 2 in
  let? l0 := letter b0 in
  let? l1 := letter b1 in
  let? l2 := letter b2 in
  let value := Z.lor (Z.lor (wrap 16 (Z.shiftl l0 10)) (wrap 16 (Z.shiftl l1 5))) l2 in
  Ok (reverse (le_bytes 2 value)).

(** ** Writing blocks *)

(** A call on [&mut block[a..b]]. *)
Definition with_slice (block : list Z) (a b : nat)
    (f : list Z -> outcome CastDisplayEdidError (list Z)) : outcome CastDisplayEdidError (list Z) :=
  let? s := slice block a b in
  let? s' := f s in
  copy_at block a s'.

Definition debug_assert (b : bool) : outcome CastDisplayEdidError unit :=
  if b then Ok tt else Panic.

(** [checksum]: the byte that makes the sum zero. *)
Definition checksum (bytes : list Z) : Z := wrap 8 (0 - sum8 bytes).

Definition write_detailed_timing (descriptor : list Z) (t : DetailedTiming)
  : outcome CastDisplayEdidError (list Z) :=
  let hi v := Z.land (wrap 8 (Z.shiftr v 4)) 0xf0 in
  let lo v := Z.land (wrap 8 (Z.shiftr v 8)) 0x0f in
  let? d := copy_at descriptor 0 (le_bytes 2 (clock_10khz t)) in
  let? d := set_at d 2 (wrap 8 (hactive t)) in
  let? d := set_at d 3 (wrap 8 (hblank t)) in
  let? d := set_at d 4 (Z.lor (hi (hactive t)) (lo (hblank t))) in
  let? d := set_at d 5 (wrap 8 (vactive t)) in
  let? d := set_at d 6 (wrap 8 (vblank t)) in
  let? d := set_at d 7 (Z.lor (hi (vactive t)) (lo (vblank t))) in
  let? d := set_at d 8 (wrap 8 (hfront t)) in
  let? d := set_at d 9 (wrap 8 (hsync t)) in
  let? d := set_at d 10 (Z.lor (wrap 8 (Z.shiftl (Z.land (vfront t) 0x0f) 4)) (Z.land (vsync t) 0x0f)) in
  let? d := set_at d 11
    (Z.lor (Z.lor (Z.lor (wrap 8 (Z.shiftl (Z.land (wrap 8 (Z.shiftr (hfront t) 8)) 3) 6))
                         (wrap 8 (Z.shiftl (Z.land (wrap 8 (Z.shiftr (hsync t) 8)) 3) 4)))
                  (wrap 8 (Z.shiftl (Z.land (Z.shiftr (vfront t) 4) 3) 2)))
           (Z.land (Z.shiftr (vsync t) 4) 3)) in
  set_at d 17 (features t).

Fixpoint write_established_timings (bytes : list Z) (modes : list EdidMode)
  : outcome CastDisplayEdidError (list Z) :=
  match modes with
  | [] => Ok bytes
  | mode :: modes' =>
      let? bytes' :=
        match established_timing_bit mode with
        | Some (byte, bit) => update_at bytes byte (fun v => Z.lor v (wrap 8 (Z.shiftl 1 bit)))
        | None => Ok bytes
        end in
      write_established_timings bytes' modes'
  end.

(** A loop over [chunks_exact_mut(n)] zipped with items, at chunk [i]. *)
Fixpoint write_chunks (count : nat) (n : nat) (i : nat) (bytes : list Z) (items : list (list Z))
  : outcome CastDisplayEdidError (list Z) :=
  match count, items with
  | S count', item :: items' =>
      let? bytes' := with_slice bytes (i * n) (i * n + n) (fun s => copy_at s 0 item) in
      write_chunks count' n (S i) bytes' items'
  | _, _ => Ok bytes
  end.

Definition standard_items (modes detailed : list EdidMode) : list (list Z) :=
  omap standard_timing
    (List.filter (fun m => bool_decide (established_timing_bit m = None))
       (List.filter (fun m => negb (bool_decide (m ∈ detailed))) modes)).

(** The loop over the four descriptors, at descriptor [i]. *)
Fixpoint write_descriptors (count : nat) (i : nat) (block : list Z) (detailed : list EdidMode)
  : outcome CastDisplayEdidError (list Z) :=
  match count with
  | O => Ok block
  | S count' =>
      let? block' := with_slice block (54 + 18 * i) (54 + 18 * i + 18) (fun descriptor =>
        match detailed !! i with
        | Some mode =>
            let? t := expect (timing_for mode) in write_detailed_timing descriptor t
        | None => set_at descriptor 3 0x10
        end) in
      write_descriptors count' (S i) block' detailed
  end.

Definition CHROMATICITY : list Z := [0xee; 0x91; 0xa3; 0x54; 0x4c; 0x99; 0x26; 0x0f; 0x50; 0x54].

Definition write_base_block (block : list Z) (identity : EdidNumericIdentity)
    (modes : list EdidMode) (extension_count : Z) : outcome CastDisplayEdidError (list Z) :=
  try? debug_assert (length block =? EDID_BLOCK_SIZE)%nat;
  let? block := copy_at block 0 EDID_HEADER in
  let? pnp := encode_pnp_id (pnp_id identity) in
  let? block := copy_at block 8 pnp in
  let? block := copy_at block 10 (le_bytes 2 (product_code identity)) in
  let? block := copy_at block 12 (le_bytes 4 (serial identity)) in
  let? block := set_at block 16 0 in
  let? block := set_at block 17 30 in
  let? block := set_at block 18 1 in
  let? block := set_at block 19 4 in
  let? block := set_at block 20 0x80 in
  let? block := set_at block 23 120 in
  let? block := set_at block 24 0x0e in
  let? block := copy_at block 25 CHROMATICITY in
  let? block := with_slice block 35 38 (fun s =>
    try? debug_assert (length s =? 3)%nat; write_established_timings s modes) in
  let? block := with_slice block 38 54 (fun s => write_chunks 8 2 0 s (replicate 8 [0x01; 0x01])) in
  let? detailed := select_base_detailed_modes modes in
  let? block := with_slice block 38 54 (fun s =>
    write_chunks 8 2 0 s (standard_items modes detailed)) in
  let? block := write_descriptors 4 0 block detailed in
  set_at block 126 extension_count.

(** [vec![0; 15 + n]], then the writes. *)
Definition displayid_product_block (identity : EdidNumericIdentity) (product_name : option (list Z))
  : outcome CastDisplayEdidError (list Z) :=
  let name := utf8 (default [] product_name) in
  let product_payload_length := (12 + length name)%nat in
  let block := replicate (3 + product_payload_length) 0 in
  let? block := set_at block 0 DISPLAYID_PRODUCT_IDENTIFICATION_TAG in
  let? block := set_at block 1 0 in
  let? block := set_at block 2 (wrap 8 (Z.of_nat product_payload_length)) in
  let? block := copy_at block 3 (pnp_id identity) in
  let? block := copy_at block 6 (le_bytes 2 (product_code identity)) in
  let? block := copy_at block 8 (le_bytes 4 (serial identity)) in
  let? block := set_at block 12 0 in
  let? block := set_at block 13 0 in
  let? block := set_at block 14 (wrap 8 (blen name)) in
  with_slice block 15 (length block) (fun s =>
    try? debug_assert (length s =? length name)%nat; copy_at s 0 name).

Definition displayid_parameters_block (preferred : EdidMode) (audio : bool)
  : outcome CastDisplayEdidError (list Z) :=
  let block := replicate 15 0 in
  let? block := set_at block 0 DISPLAYID_PARAMETERS_TAG in
  let? block := set_at block 1 0 in
  let? block := set_at block 2 12 in
  let? block := copy_at block 7 (le_bytes 2 (wrap 16 (width preferred))) in
  let? block := copy_at block 9 (le_bytes 2 (wrap 16 (height preferred))) in
  let? block := if audio then set_at block 11 0x80 else Ok block in
  let? block := set_at block 12 120 in
  let? block := set_at block 13 (aspect_ratio_value preferred) in
  set_at block 14 0x77.

Definition write_minus_one_u16 (block : list Z) (a b : nat) (value : Z)
  : outcome CastDisplayEdidError (list Z) :=
  with_slice block a b (fun output =>
    let? v := sub_checked value 1 in
    try? debug_assert (length output =? 2)%nat;
    copy_at output 0 (le_bytes 2 v)).

Definition write_minus_one_sync (block : list Z) (a b : nat) (value : Z) (positive : bool)
  : outcome CastDisplayEdidError (list Z) :=
  with_slice block a b (fun output =>
    let? v := sub_checked value 1 in
    let? output := set_at output 0 (wrap 8 v) in
    set_at output 1 (Z.lor (Z.land (wrap 8 (Z.shiftr v 8)) 0x7f) (if positive then 0x80 else 0))).

Definition displayid_type_i_timing_block (preferred : EdidMode)
  : outcome CastDisplayEdidError (list Z) :=
  let? t := expect (timing_for preferred) in
  let block := replicate 23 0 in
  let? block := set_at block 0 DISPLAYID_TYPE_I_TIMING_TAG in
  let? block := set_at block 1 1 in
  let? block := set_at block 2 20 in
  with_slice block 3 23 (fun s =>
    let? clock := sub_checked (clock_10khz t) 1 in
    let? s := copy_at s 0 (take 3 (le_bytes 4 clock)) in
    let? s := set_at s 3 (Z.lor 0x80 (aspect_ratio_code preferred)) in
    let? s := write_minus_one_u16 s 4 6 (hactive t) in
    let? s := write_minus_one_u16 s 6 8 (hblank t) in
    let? s := write_minus_one_sync s 8 10 (hfront t) (negb (Z.land (features t) 0x02 =? 0)) in
    let? s := write_minus_one_u16 s 10 12 (hsync t) in
    let? s := write_minus_one_u16 s 12 14 (vactive t) in
    let? s := write_minus_one_u16 s 14 16 (vblank t) in
    let? s := write_minus_one_sync s 16 18 (vfront t) (negb (Z.land (features t) 0x04 =? 0)) in
    write_minus_one_u16 s 18 20 (vsync t)).

Definition write_displayid_extension (block : list Z) (product_type extension_count : Z)
    (data : list Z) : outcome CastDisplayEdidError (list Z) :=
  try? debug_assert (length block =? EDID_BLOCK_SIZE)%nat;
  try? debug_assert (length data <=? DISPLAYID_MAX_SECTION_BYTES)%nat;
  let? block := set_at block 0 DISPLAYID_EXTENSION_TAG in
  let? block := set_at block 1 DISPLAYID_VERSION_1_3 in
  let? block := set_at block 2 (wrap 8 (blen data)) in
  let? block := set_at block 3 product_type in
  let? block := set_at block 4 extension_count in
  let? block := copy_at block 5 data in
  let structure_checksum_index := (5 + length data)%nat in
  let? covered := slice block 1 structure_checksum_index in
  set_at block structure_checksum_index (checksum covered).

(** The video identification codes, one byte at a time. *)
Fixpoint write_vics (block : list Z) (position : nat) (vics : list Z)
  : outcome CastDisplayEdidError (list Z * nat) :=
  match vics with
  | [] => Ok (block, position)
  | vic :: vics' =>
      let? block := set_at block position vic in
      write_vics block (position + 1) vics'
  end.

Definition VIDEO_CAPABILITY : list Z := [0xe2; 0x00; 0x4a].
Definition HDMI_VSDB (address : Z) : list Z :=
  [0x65; 0x03; 0x0c; 0x00; wrap 8 (Z.shiftr address 8); wrap 8 address].
Definition AUDIO_DATA : list Z := [0x23; 0x09; 0x04; 0x01].
Definition SPEAKER_ALLOCATION : list Z := [0x83; 0x01; 0x00; 0x00].

Definition write_cta_extension (block : list Z) (modes : list EdidMode) (audio : bool)
    (cec_physical_address : option Z) : outcome CastDisplayEdidError (list Z) :=
  try? debug_assert (length block =? EDID_BLOCK_SIZE)%nat;
  let? block := set_at block 0 CTA_EXTENSION_TAG in
  let? block := set_at block 1 CTA_REVISION_3 in
  let video_modes := omap video_identification_code modes in
  let? block := set_at block 4 (Z.lor 0x40 (wrap 8 (blen video_modes))) in
  let? '(block, position) := write_vics block 5 video_modes in
  let? block := copy_at block position VIDEO_CAPABILITY in
  let position := (position + 3)%nat in
  let? '(block, position) :=
    match cec_physical_address with
    | Some address =>
        let? block := copy_at block position (HDMI_VSDB address) in Ok (block, position + 6)%nat
    | None => Ok (block, position)
    end in
  let? '(block, position) :=
    if audio then
      let? block := copy_at block position AUDIO_DATA in
      let? block := copy_at block (position + 4) SPEAKER_ALLOCATION in
      let? block := update_at block 3 (fun v => Z.lor v 0x40) in
      Ok (block, position + 8)%nat
    else Ok (block, position) in
  let? block := update_at block 3 (fun v => Z.lor v 0x81) in
  let? block := set_at block 2 (wrap 8 (Z.of_nat position)) in
  let? first := index modes 0 in
  with_slice block position (position + 18) (fun s =>
    let? t := expect (timing_for first) in write_detailed_timing s t).

Definition set_block_checksum (block : list Z) : outcome CastDisplayEdidError (list Z) :=
  let? covered := slice block 0 (EDID_BLOCK_SIZE - 1) in
  set_at block (EDID_BLOCK_SIZE - 1) (checksum covered).

(** ** Building *)

(** The blocks of the EDID: [bytes[128 * i..128 * (i + 1)]] of the zeroed
    vector, each written by its own function. *)
Definition zero_block : list Z := replicate EDID_BLOCK_SIZE 0.

Definition build_blocks (identity : EdidNumericIdentity) (display_name : option (list Z))
    (modes : list EdidMode) (audio : bool) (cec : option Z)
  : outcome CastDisplayEdidError (list (list Z)) :=
  let? product_block := displayid_product_block identity display_name in
  let? preferred := index modes 0 in
  let? parameters_block := displayid_parameters_block preferred audio in
  let? timing_block := displayid_type_i_timing_block preferred in
  let required_length := (length parameters_block + length timing_block)%nat in
  let needs_continuation :=
    (DISPLAYID_MAX_SECTION_BYTES <? length product_block + required_length)%nat in
  let displayid_block_count := if needs_continuation then 2 else 1 in
  let total_block_count := 1 + displayid_block_count + 1 in
  let? base := write_base_block zero_block identity modes (wrap 8 (total_block_count - 1)) in
  let? cta := write_cta_extension zero_block modes audio cec in
  if needs_continuation then
    let? first := write_displayid_extension zero_block DISPLAYID_PRODUCT_TYPE_TV 1 product_block in
    let? second := write_displayid_extension zero_block 0 0 (parameters_block ++ timing_block) in
    Ok [base; cta; first; second]
  else
    let? first := write_displayid_extension zero_block DISPLAYID_PRODUCT_TYPE_TV 0
                    (product_block ++ parameters_block ++ timing_block) in
    Ok [base; cta; first].

(** [set_block_checksums], block by block. *)
Fixpoint set_block_checksums (blocks : list (list Z)) : outcome CastDisplayEdidError (list (list Z)) :=
  match blocks with
  | [] => Ok []
  | block :: blocks' =>
      let? block := set_block_checksum block in
      let? rest := set_block_checksums blocks' in
      Ok (block :: rest)
  end.

Definition to_ascii_lowercase (s : list Z) : list Z :=
  (fun c => if (65 <=? c) && (c <=? 90) then c + 32 else c) <$> s.

Definition numeric_identity `{Unicode, Sha256} (pnp : PnpId)
    (manufacturer_name product_name : option (list Z)) (backend_id device_id : list Z)
  : outcome CastDisplayEdidError EdidNumericIdentity :=
  let manufacturer_key :=
    match normalize_manufacturer_name <$> manufacturer_name with
    | Some ((_ :: _) as value) => value
    | _ => to_ascii_lowercase pnp
    end in
  let product_key := default [] (normalize_hash_field <$> product_name) in
  let? code := nonzero_u16 (derive_hash PRODUCT_CODE_DOMAIN [utf8 manufacturer_key; utf8 product_key]) in
  let? number := nonzero_u32 (derive_hash SERIAL_DOMAIN [utf8 backend_id; utf8 device_id]) in
  Ok {| pnp_id := pnp; product_code := code; serial := number |}.

Definition build_cast_display_edid `{Unicode, Sha256} (request : CastDisplayEdidRequest)
  : outcome CastDisplayEdidError GeneratedCastDisplayEdid :=
  try? validate_stable_id "backend ID" (rq_backend_id request) 64;
  try? validate_stable_id "device ID" (rq_device_id request) 256;
  let? manufacturer_name := validate_manufacturer_name (rq_manufacturer_name request) in
  let? product_name := validate_product_name (rq_product_name request) in
  let? display_name := validate_product_name (rq_display_name request) in
  try? validate_modes (rq_modes request);
  try? match rq_cec_physical_address request with
       | Some address => validate_cec_physical_address address
       | None => Ok tt
       end;
  let? identity := numeric_identity (rq_pnp_id request) manufacturer_name product_name
                     (rq_backend_id request) (rq_device_id request) in
  let? blocks := build_blocks identity display_name (rq_modes request) (rq_audio request)
                   (rq_cec_physical_address request) in
  let? blocks := set_block_checksums blocks in
  let? edid := omap_err Framing (ValidatedEdid_new (concat blocks)) in
  Ok {| ge_identity := identity; ge_display_name := display_name; ge_modes := rq_modes request;
        ge_audio := rq_audio request; ge_cec_physical_address := rq_cec_physical_address request;
        ge_edid := edid |}.
