(* ===== verification/EdidLayout.v ===== *)
(** * The layout of a generated EDID

    The writers of [Edid] fill zeroed blocks from low to high offsets.  This
    file gives each block as the concatenation of its fields, decodes the
    fields the way a sink's reader does, and concludes that building succeeds,
    frames, and says what was requested. *)

From S2P Require Import Prelude Bytes Text Castkms Ordering Identity Edid.

(** ** Growing a zeroed buffer *)

(** [b] is [p], of [n] bytes, followed by zeros up to [size]. *)
Definition grown (size : nat) (b p : list Z) (n : nat) : Prop :=
  length p = n /\ (n <= size)%nat /\ b = p ++ replicate (size - n) 0.

Lemma grown_nil size : grown size (replicate size 0) [] 0.
Proof. unfold grown. rewrite Nat.sub_0_r. split_and!; [done|lia|done]. Qed.

Lemma grown_length size b p n : grown size b p n -> length b = size.
Proof. intros (Hp & Hn & ->). rewrite length_app, length_replicate. lia. Qed.

Lemma grown_copy {E} size b p n d :
  grown size b p n -> (n + length d <= size)%nat ->
  oks (copy_at (E:=E) b n d) (fun b' => grown size b' (p ++ d) (n + length d)).
Proof.
  intros (Hp & Hn & ->) Hd. rewrite copy_at_ok by (rewrite length_app, length_replicate; lia).
  cbn. unfold grown, splice. rewrite length_app, Hp. split_and!; [done|done|].
  rewrite take_app_le, take_ge by lia. rewrite <- app_assoc. do 2 f_equal.
  rewrite drop_app_ge by lia. rewrite drop_replicate. f_equal. lia.
Qed.

Lemma grown_set {E} size b p n v :
  grown size b p n -> (n < size)%nat ->
  oks (set_at (E:=E) b n v) (fun b' => grown size b' (p ++ [v]) (S n)).
Proof.
  intros (Hp & Hn & ->) Hd. unfold set_at, update_at, index.
  destruct (size - n)%nat as [|k] eqn:Hk; [lia|]. cbn [replicate].
  rewrite list_lookup_middle by done. cbn. unfold grown. rewrite length_app, Hp. cbn [length].
  split_and!; [lia|lia|]. rewrite insert_app_r_alt, Hp, Nat.sub_diag by lia. cbn.
  replace (size - S n)%nat with k by lia. by rewrite <- app_assoc.
Qed.

Lemma grown_skip size b p n k :
  grown size b p n -> (n + k <= size)%nat -> grown size b (p ++ replicate k 0) (n + k).
Proof.
  intros (Hp & Hn & ->) Hk. unfold grown. rewrite length_app, length_replicate, Hp.
  split_and!; [done|done|]. rewrite <- app_assoc, <- replicate_add. do 2 f_equal. lia.
Qed.

(** A sub-slice of what is still zero. *)
Lemma grown_with size b p n m f d :
  grown size b p n -> (n + m <= size)%nat ->
  f (replicate m 0) = Ok d -> length d = m ->
  oks (with_slice b n (n + m) f) (fun b' => grown size b' (p ++ d) (n + m)).
Proof.
  intros Hg Hm Hf Hd. pose proof (grown_length _ _ _ _ Hg) as Hl. unfold with_slice.
  rewrite slice_ok by lia. cbn [obind].
  replace (take (n + m - n) (drop n b)) with (replicate m 0).
  - rewrite Hf. cbn [obind]. rewrite <- Hd. apply grown_copy; [done|lia].
  - destruct Hg as (Hp & Hn & ->). rewrite drop_app_ge, Hp, Nat.sub_diag, drop_0 by lia.
    rewrite take_replicate. f_equal. lia.
Qed.

(** A sub-slice of what was written last. *)
Lemma grown_again size b p q n m f d :
  grown size b (p ++ q) (n + m) -> length p = n -> length q = m ->
  f q = Ok d -> length d = m ->
  oks (with_slice b n (n + m) f) (fun b' => grown size b' (p ++ d) (n + m)).
Proof.
  intros Hg Hp Hq Hf Hd. pose proof (grown_length _ _ _ _ Hg) as Hl.
  destruct Hg as (Hpq & Hn & ->). unfold with_slice. rewrite slice_ok by lia. cbn [obind].
  replace (take (n + m - n) (drop n ((p ++ q) ++ replicate (size - (n + m)) 0))) with q.
  - rewrite Hf. cbn [obind]. rewrite copy_at_ok by lia. cbn. unfold grown, splice.
    rewrite length_app, Hp, Hd. split_and!; [done|done|]. rewrite <- !app_assoc.
    rewrite take_app_le, take_ge by lia. do 2 f_equal. rewrite !app_assoc, drop_app_ge by lia.
    by rewrite Hpq, Nat.sub_diag, drop_0.
  - rewrite <- app_assoc, drop_app_ge, Hp, Nat.sub_diag, drop_0 by lia.
    rewrite take_app_le, take_ge by lia. done.
Qed.

Lemma grown_full size b p : grown size b p size -> b = p.
Proof. intros (Hp & _ & ->). by rewrite Nat.sub_diag, app_nil_r. Qed.

Lemma oks_eq {E A} (m : outcome E A) a : oks m (fun x => x = a) <-> m = Ok a.
Proof. rewrite oks_ok. naive_solver. Qed.

Lemma length_header : length EDID_HEADER = 8%nat.
Proof. done. Qed.
Lemma length_chromaticity : length CHROMATICITY = 10%nat.
Proof. done. Qed.

Create Rewrite HintDb lens.
#[export] Hint Rewrite length_le_bytes @length_replicate length_header length_chromaticity : lens.

(** One write of a chain. *)
Ltac grow H :=
  eapply oks_bind;
  [first [apply (grown_copy _ _ _ _ _ H) | apply (grown_set _ _ _ _ _ H)]; autorewrite with lens; cbn [length]; lia|];
  clear H; intros ? H; autorewrite with lens in H; cbn [length Nat.add] in H.

(** ** Detailed timings *)

Definition dtd (t : DetailedTiming) : list Z :=
  let hi v := Z.land (wrap 8 (Z.shiftr v 4)) 0xf0 in
  let lo v := Z.land (wrap 8 (Z.shiftr v 8)) 0x0f in
  le_bytes 2 (clock_10khz t) ++
  [wrap 8 (hactive t); wrap 8 (hblank t); Z.lor (hi (hactive t)) (lo (hblank t));
   wrap 8 (vactive t); wrap 8 (vblank t); Z.lor (hi (vactive t)) (lo (vblank t));
   wrap 8 (hfront t); wrap 8 (hsync t);
   Z.lor (wrap 8 (Z.shiftl (Z.land (vfront t) 0x0f) 4)) (Z.land (vsync t) 0x0f);
   Z.lor (Z.lor (Z.lor (wrap 8 (Z.shiftl (Z.land (wrap 8 (Z.shiftr (hfront t) 8)) 3) 6))
                       (wrap 8 (Z.shiftl (Z.land (wrap 8 (Z.shiftr (hsync t) 8)) 3) 4)))
                (wrap 8 (Z.shiftl (Z.land (Z.shiftr (vfront t) 4) 3) 2)))
         (Z.land (Z.shiftr (vsync t) 4) 3); 0; 0; 0; 0; 0; features t].

Lemma write_detailed_timing_ok t : write_detailed_timing (replicate 18 0) t = Ok (dtd t).
Proof.
  apply oks_eq. unfold write_detailed_timing.
  pose proof (grown_nil 18) as H. do 11 (grow H).
  eapply oks_weaken; [apply grown_set|].
  { apply (grown_skip _ _ _ _ 5) in H; [exact H|lia]. }
  { lia. }
  clear H. intros b H. cbn [Nat.add] in H. apply grown_full in H as ->. reflexivity.
Qed.

(** ** The base block *)

Definition dummy_descriptor : list Z := [0; 0; 0; 0x10; 0; 0; 0; 0; 0; 0; 0; 0; 0; 0; 0; 0; 0; 0].

(** Descriptor [i] of the base block. *)
Definition descriptor (detailed : list EdidMode) (i : nat) : list Z :=
  match detailed !! i with
  | Some mode => default dummy_descriptor (dtd <$> timing_for mode)
  | None => dummy_descriptor
  end.

Definition supported (mode : EdidMode) : Prop := is_Some (timing_for mode).

Lemma length_descriptor detailed i : length (descriptor detailed i) = 18%nat.
Proof. unfold descriptor. destruct (detailed !! i); [|done]. by destruct (timing_for _). Qed.

Lemma write_descriptors_ok count i block detailed p :
  grown 128 block p (54 + 18 * i) -> (54 + 18 * (i + count) <= 128)%nat -> Forall supported detailed ->
  oks (write_descriptors count i block detailed)
    (fun b => grown 128 b (p ++ concat (descriptor detailed <$> seq i count)) (54 + 18 * (i + count))).
Proof.
  revert i block p. induction count as [|count IH]; intros i block p Hg Hn Hd.
  { cbn. rewrite app_nil_r. by replace (i + 0)%nat with i by lia. }
  cbn [write_descriptors seq fmap list_fmap concat].
  eapply oks_bind.
  - eapply (grown_with _ _ _ _ 18 _ (descriptor detailed i)); [exact Hg|lia| |apply length_descriptor].
    unfold descriptor. destruct (detailed !! i) as [mode|] eqn:Hi; [|reflexivity].
    eapply Forall_lookup_1 in Hd as [t Ht]; [|exact Hi]. rewrite Ht. cbn [expect obind].
    apply write_detailed_timing_ok.
  - intros b Hb. replace (54 + 18 * i + 18)%nat with (54 + 18 * S i)%nat in Hb by lia.
    eapply oks_weaken; [apply (IH (S i)); [exact Hb|lia|done]|].
    intros b'. rewrite <- app_assoc. by replace (S i + count)%nat with (i + S count)%nat by lia.
Qed.

Lemma write_chunks_ok count n i pre rest items :
  length pre = (i * n)%nat -> length rest = (count * n)%nat -> Forall (fun x => length x = n) items ->
  write_chunks count n i (pre ++ rest) items
  = Ok (pre ++ concat (take count items) ++ drop (n * length (take count items)) rest).
Proof.
  revert i pre rest items. induction count as [|count IH]; intros i pre rest items Hp Hr Hi.
  { cbn. by rewrite Nat.mul_0_r, drop_0. }
  destruct items as [|x items]; [cbn; by rewrite Nat.mul_0_r, drop_0|].
  inversion Hi; subst. cbn [write_chunks]. unfold with_slice.
  rewrite slice_ok by (rewrite length_app; lia). cbn [obind].
  rewrite drop_app_ge, Hp, Nat.sub_diag, drop_0 by lia.
  rewrite copy_at_ok by (rewrite length_take; cbn in *; lia). cbn [obind].
  replace (splice (take (i * length x + length x - i * length x) rest) 0 x) with x.
  2: { unfold splice. rewrite take_0, drop_ge, app_nil_r; [done|]. rewrite length_take. lia. }
  rewrite copy_at_ok by (rewrite length_app; cbn in *; lia). cbn [obind].
  replace (splice (pre ++ rest) (i * length x) x) with ((pre ++ x) ++ drop (length x) rest).
  2: { unfold splice. rewrite take_app_le, take_ge by lia. rewrite <- app_assoc. do 2 f_equal.
       rewrite drop_app_ge by lia. f_equal. lia. }
  rewrite IH; [|rewrite length_app; cbn; lia|rewrite length_drop; cbn in *; lia|done].
  cbn [take concat length]. f_equal. rewrite <- !app_assoc. do 3 f_equal.
  rewrite drop_drop. f_equal. lia.
Qed.

Lemma standard_timing_length mode x : standard_timing mode = Some x -> length x = 2%nat.
Proof.
  unfold standard_timing. destruct (_ || _); [done|]. destruct (negb _); [done|].
  destruct (reduced_aspect_ratio mode) as [a b].
  repeat (case_match; try done); by intros [= <-].
Qed.

Lemma standard_items_length modes detailed :
  Forall (fun x => length x = 2%nat) (standard_items modes detailed).
Proof.
  apply Forall_forall. intros x (m & _ & Hm)%list_elem_of_omap. by eapply standard_timing_length.
Qed.

(** The eight standard-timing slots, unused ones as 01 01. *)
Definition standard_slots (modes detailed : list EdidMode) : list Z :=
  let items := take 8 (standard_items modes detailed) in
  concat items ++ replicate (16 - 2 * length items) 1.

Lemma length_concat_const {A} n (l : list (list A)) :
  Forall (fun x => length x = n) l -> length (concat l) = (n * length l)%nat.
Proof. induction 1; cbn; [lia|]. rewrite length_app. lia. Qed.

Lemma length_standard_slots modes detailed : length (standard_slots modes detailed) = 16%nat.
Proof.
  unfold standard_slots. rewrite length_app, length_replicate, (length_concat_const 2).
  - pose proof (length_take_le (standard_items modes detailed) 8) as H.
    rewrite length_take. lia.
  - apply Forall_take, standard_items_length.
Qed.

Lemma write_standard modes detailed :
  write_chunks 8 2 0 (replicate 16 1) (standard_items modes detailed)
  = Ok (standard_slots modes detailed).
Proof.
  change (replicate 16 1) with ([] ++ replicate 16 1).
  rewrite (write_chunks_ok 8 2 0 [] (replicate 16 1) _) by (try done; apply standard_items_length).
  unfold standard_slots. cbn [app]. do 2 f_equal. rewrite drop_replicate. f_equal.
Qed.

(** Established timings: every established mode has its bit. *)
Lemma established_cases mode byte bit :
  established_timing_bit mode = Some (byte, bit) -> (byte < 3)%nat /\ 0 <= bit < 8.
Proof.
  unfold established_timing_bit. intros H. repeat (case_match; try done); injection H as <- <-; lia.
Qed.

Lemma write_established_ok l modes :
  length l = 3%nat ->
  oks (write_established_timings l modes) (fun l' => length l' = 3%nat /\
    (forall i v k, l !! i = Some v -> Z.testbit v k = true ->
       exists v', l' !! i = Some v' /\ Z.testbit v' k = true) /\
    (forall m byte bit, m ∈ modes -> established_timing_bit m = Some (byte, bit) ->
       exists v, l' !! byte = Some v /\ Z.testbit v bit = true)).
Proof.
  revert l. induction modes as [|m modes IH]; intros l Hl; cbn [write_established_timings].
  { cbn. split_and!; [done|eauto|]. by intros ? ? ? ?%elem_of_nil. }
  destruct (established_timing_bit m) as [[byte bit]|] eqn:Hm.
  - apply established_cases in Hm as Hr. destruct Hr as [Hbyte Hbit].
    unfold update_at, index. destruct (lookup_lt_is_Some_2 l byte) as [v Hv]; [lia|].
    rewrite Hv. cbn [expect obind].
    set (v' := Z.lor v (wrap 8 (1 ≪ bit))). set (l' := <[byte := v']> l).
    assert (Z.testbit v' bit = true) as Hset.
    { unfold v', wrap. rewrite Z.lor_spec, Z.mod_pow2_bits_low by lia.
      rewrite Z.shiftl_spec, Z.sub_diag by lia. apply orb_true_r. }
    assert (length l' = 3%nat) as Hl' by (unfold l'; by rewrite length_insert).
    eapply oks_weaken; [apply (IH l' Hl')|]. intros r (Hr1 & Hr2 & Hr3). split_and!; [done| |].
    + intros i w k Hw Hk. destruct (decide (i = byte)) as [->|Hne].
      * rewrite Hv in Hw. injection Hw as <-. apply (Hr2 byte v' k).
        { unfold l'. apply list_lookup_insert_eq. lia. }
        unfold v'. by rewrite Z.lor_spec, Hk.
      * apply (Hr2 i w k); [|done]. unfold l'. by rewrite list_lookup_insert_ne.
    + intros m' byte' bit' [->|Hin]%elem_of_cons Hb; [|by eapply Hr3].
      rewrite Hm in Hb. injection Hb as <- <-. apply (Hr2 byte v' bit); [|done].
      unfold l'. apply list_lookup_insert_eq. lia.
  - cbn [obind]. eapply oks_weaken; [apply (IH l Hl)|]. intros r (Hr1 & Hr2 & Hr3).
    split_and!; [done|done|]. intros m' byte bit [->|Hin]%elem_of_cons Hb; [congruence|].
    by eapply Hr3.
Qed.

Definition base_layout (pnp : list Z) (identity : EdidNumericIdentity) (established : list Z)
    (modes detailed : list EdidMode) (extension_count : Z) : list Z :=
  EDID_HEADER ++ pnp ++ le_bytes 2 (product_code identity) ++ le_bytes 4 (serial identity) ++
  [0; 30; 1; 4; 0x80; 0; 0; 120; 0x0e] ++ CHROMATICITY ++ established ++
  standard_slots modes detailed ++ concat (descriptor detailed <$> seq 0 4) ++ [extension_count; 0].

Lemma block_assert : debug_assert (length (replicate EDID_BLOCK_SIZE 0%Z) =? EDID_BLOCK_SIZE)%nat = Ok tt.
Proof. done. Qed.

Lemma write_base_block_ok identity modes extension_count pnp established detailed :
  encode_pnp_id (pnp_id identity) = Ok pnp -> length pnp = 2%nat ->
  write_established_timings [0; 0; 0] modes = Ok established -> length established = 3%nat ->
  select_base_detailed_modes modes = Ok detailed -> Forall supported detailed ->
  write_base_block zero_block identity modes extension_count
  = Ok (base_layout pnp identity established modes detailed extension_count).
Proof.
  intros Hp Hpl He Hel Hs Hd. apply oks_eq. unfold write_base_block, zero_block.
  rewrite block_assert. cbn [obind]. change (replicate EDID_BLOCK_SIZE 0) with (replicate 128 0).
  pose proof (grown_nil 128) as H. grow H. rewrite Hp. cbn [obind].
  eapply oks_bind; [apply (grown_copy _ _ _ _ _ H); rewrite Hpl; lia|].
  clear H. intros b1 H. rewrite Hpl in H. cbn [Nat.add] in H.
  do 7 (grow H). apply (grown_skip _ _ _ _ 2) in H; [|lia]. cbn [Nat.add] in H. do 3 (grow H).
  eapply oks_bind; [apply (grown_with _ _ _ _ 3 _ established H); [lia|exact He|done]|].
  clear H. intros b2 H. cbn [Nat.add] in H.
  eapply oks_bind; [apply (grown_with _ _ _ _ 16 _ (replicate 16 1) H); [lia|reflexivity|done]|].
  clear H. intros b3 H. rewrite Hs. cbn [obind].
  eapply oks_bind; [apply (grown_again _ _ _ _ _ _ _ (standard_slots modes detailed) H);
    [|done|apply write_standard|apply length_standard_slots]|].
  { rewrite !length_app, Hpl, Hel, !length_le_bytes. reflexivity. }
  clear H. intros b4 H. cbn [Nat.add] in H.
  eapply oks_bind; [apply (write_descriptors_ok 4 0 _ _ _ H); [lia|done]|].
  clear H. intros b5 H. cbn [Nat.add Nat.mul] in H.
  eapply oks_weaken; [apply (grown_set _ _ _ _ _ H); lia|].
  clear H. intros b6 H. apply (grown_skip _ _ _ _ 1) in H; [|lia]. cbn [Nat.add] in H.
  apply grown_full in H as ->. unfold base_layout. rewrite <- !app_assoc. reflexivity.
Qed.

(** ** The CTA extension *)

Lemma grown_update {E} size b p n i f v :
  grown size b p n -> p !! i = Some v ->
  oks (update_at (E:=E) b i f) (fun b' => grown size b' (<[i := f v]> p) n).
Proof.
  intros (Hp & Hn & ->) Hi. apply lookup_lt_Some in Hi as Hlt. unfold update_at, index.
  rewrite lookup_app_l, Hi by done. cbn. unfold grown. rewrite length_insert.
  split_and!; [done|done|]. by rewrite insert_app_l.
Qed.

Lemma write_vics_ok b p n vics :
  grown 128 b p n -> (n + length vics <= 128)%nat ->
  oks (write_vics b n vics) (fun r => r.2 = (n + length vics)%nat /\
    grown 128 r.1 (p ++ vics) (n + length vics)).
Proof.
  revert b p n. induction vics as [|v vics IH]; intros b p n Hg Hn; cbn [write_vics length] in *.
  { cbn. rewrite app_nil_r, Nat.add_0_r. done. }
  eapply oks_bind; [apply (grown_set _ _ _ _ _ Hg); lia|]. intros b' Hb'.
  replace (n + 1)%nat with (S n) by lia. eapply oks_weaken; [apply (IH _ _ _ Hb'); lia|].
  intros [r k] [Hk Hr]. cbn in *. replace (n + S (length vics))%nat with (S n + length vics)%nat by lia.
  rewrite <- app_assoc in Hr. done.
Qed.

(** The data blocks, and the extension with its preferred timing. *)
Definition cta_data (vics : list Z) (audio : bool) (cec : option Z) : list Z :=
  [Z.lor 0x40 (wrap 8 (blen vics))] ++ vics ++ VIDEO_CAPABILITY ++
  match cec with Some address => HDMI_VSDB address | None => [] end ++
  (if audio then AUDIO_DATA ++ SPEAKER_ALLOCATION else []).

Definition cta_layout (vics : list Z) (audio : bool) (cec : option Z) (t : DetailedTiming) : list Z :=
  let data := cta_data vics audio cec in
  [CTA_EXTENSION_TAG; CTA_REVISION_3; wrap 8 (4 + blen data);
   Z.lor (if audio then Z.lor 0 0x40 else 0) 0x81] ++ data ++ dtd t ++
  replicate (106 - length data) 0.

Lemma length_cta_data vics audio cec :
  length (cta_data vics audio cec)
  = (4 + length vics + (if cec then 6 else 0) + (if audio then 8 else 0))%nat.
Proof.
  unfold cta_data. rewrite !length_app. cbn [length VIDEO_CAPABILITY HDMI_VSDB].
  destruct cec, audio; cbn; lia.
Qed.

Lemma oks_pair {E} (m : outcome E (list Z * nat)) p n :
  oks m (fun r => r.2 = n /\ grown 128 r.1 p n) -> exists b, m = Ok (b, n) /\ grown 128 b p n.
Proof. intros ([b k] & -> & Hk & Hg)%oks_ok. cbn in *. subst. eauto. Qed.

Lemma oks_some {E A} (m : outcome E A) P : oks m P -> exists a, m = Ok a /\ P a.
Proof. by intros ?%oks_ok. Qed.

Lemma omap_shorter {A B} (f : A -> option B) l : (length (omap f l) <= length l)%nat.
Proof. induction l as [|x l IH]; csimpl; [lia|]. destruct (f x); csimpl; lia. Qed.

(** The optional data blocks of [write_cta_extension]. *)
Lemma cta_cec_ok b l p cec :
  grown 128 b l p -> (p + 6 <= 128)%nat ->
  exists b',
    match cec with
    | Some address =>
        let? block := copy_at (E:=CastDisplayEdidError) b p (HDMI_VSDB address) in Ok (block, p + 6)%nat
    | None => Ok (b, p)
    end = Ok (b', (p + (if cec then 6 else 0))%nat) /\
    grown 128 b' (l ++ match cec with Some a => HDMI_VSDB a | None => [] end)
      (p + (if cec then 6 else 0))%nat.
Proof.
  intros H Hp. destruct cec as [address|].
  - destruct (oks_some _ _ (grown_copy (E:=CastDisplayEdidError) _ _ _ _ (HDMI_VSDB address) H
      ltac:(cbn; lia))) as (b' & -> & H'). cbn [obind]. eauto.
  - exists b. by rewrite app_nil_r, !Nat.add_0_r.
Qed.

Lemma cta_audio_ok b x0 x1 x2 rest p audio :
  grown 128 b ([x0; x1; x2; 0] ++ rest) p -> (p + 8 <= 128)%nat ->
  exists b',
    (if audio : bool then
       let? block := copy_at (E:=CastDisplayEdidError) b p AUDIO_DATA in
       let? block := copy_at block (p + 4) SPEAKER_ALLOCATION in
       let? block := update_at block 3 (fun v => Z.lor v 0x40) in
       Ok (block, p + 8)%nat
     else Ok (b, p)) = Ok (b', (p + (if audio then 8 else 0))%nat) /\
    grown 128 b' ([x0; x1; x2; if audio then Z.lor 0 0x40 else 0] ++ rest ++
      (if audio then AUDIO_DATA ++ SPEAKER_ALLOCATION else [])) (p + (if audio then 8 else 0))%nat.
Proof.
  intros H Hp. destruct audio.
  - destruct (oks_some _ _ (grown_copy (E:=CastDisplayEdidError) _ _ _ _ AUDIO_DATA H
      ltac:(cbn; lia))) as (b4 & -> & H4). cbn [obind]. change (length AUDIO_DATA) with 4%nat in H4.
    destruct (oks_some _ _ (grown_copy (E:=CastDisplayEdidError) _ _ _ _ SPEAKER_ALLOCATION H4
      ltac:(cbn; lia))) as (b5 & -> & H5). cbn [obind].
    change (length SPEAKER_ALLOCATION) with 4%nat in H5.
    destruct (oks_some _ _ (grown_update (E:=CastDisplayEdidError) _ _ _ _ 3 (fun v => Z.lor v 0x40)
      0 H5 ltac:(reflexivity))) as (b6 & -> & H6). cbn [obind]. exists b6. split; [done|].
    cbn [app] in H6 |- *. cbn in H6. rewrite <- !app_assoc in H6.
    replace (p + 8)%nat with (p + 4 + 4)%nat by lia. exact H6.
  - exists b. by rewrite !app_nil_r, Nat.add_0_r.
Qed.

Lemma write_cta_extension_ok modes audio cec first rest t :
  modes = first :: rest -> timing_for first = Some t -> (length modes <= 16)%nat ->
  write_cta_extension zero_block modes audio cec
  = Ok (cta_layout (omap video_identification_code modes) audio cec t).
Proof.
  intros Hm Ht Hlen. apply oks_eq. unfold write_cta_extension, zero_block.
  rewrite block_assert. cbn [obind]. change (replicate EDID_BLOCK_SIZE 0) with (replicate 128 0).
  set (vics := omap video_identification_code modes).
  assert (length vics <= 16)%nat as Hv.
  { etrans; [|exact Hlen]. apply omap_shorter. }
  pose proof (grown_nil 128) as H. do 2 (grow H).
  apply (grown_skip _ _ _ _ 2) in H; [|lia]. cbn [Nat.add app replicate] in H. grow H.
  cbn [app] in H.
  assert (5 + length vics <= 128)%nat as Hroom by lia.
  destruct (oks_pair _ _ _ (write_vics_ok _ _ _ vics H Hroom)) as (b1 & -> & H1). clear H.
  cbn [obind].
  eapply oks_bind; [apply (grown_copy _ _ _ _ _ H1); cbn; lia|]. clear H1. intros b2 H.
  change (length VIDEO_CAPABILITY) with 3%nat in H.
  destruct (cta_cec_ok _ _ _ cec H ltac:(lia)) as (b3 & -> & H3). clear H. cbn [obind].
  rewrite <- !app_assoc in H3. cbn [app] in H3.
  destruct (cta_audio_ok _ _ _ _ _ _ audio H3 ltac:(destruct cec; lia)) as (b4 & -> & H4).
  match type of H4 with grown _ _ (_ ++ ?d) _ =>
    replace d with (cta_data vics audio cec) in H4 by (unfold cta_data; cbn [app]; by rewrite <- !app_assoc)
  end.
  clear H3. cbn [obind].
  eapply oks_bind; [eapply (grown_update _ _ _ _ 3 _ _ H4); reflexivity|]. clear H4. intros b5 H5.
  eapply oks_bind; [eapply (grown_update _ _ _ _ 2 _ _ H5); reflexivity|]. clear H5. intros b6 H6.
  cbn [app insert list_insert] in H6. rewrite Hm at 1. cbn [index lookup list_lookup expect obind].
  eapply oks_weaken; [eapply (grown_with _ _ _ _ 18 _ (dtd t) H6); [|rewrite Ht; apply write_detailed_timing_ok|done]|].
  { destruct cec, audio; lia. }
  intros b7 (Hl & _ & ->). unfold cta_layout. cbn [app]. rewrite <- !app_assoc. cbn [app].
  pose proof (length_cta_data vics audio cec) as Hc. unfold blen. do 3 f_equal; [|f_equal].
  - f_equal. rewrite Hc. lia.
  - do 2 f_equal. rewrite Hc. destruct cec, audio; f_equal; lia.
Qed.

(** ** DisplayID blocks *)

Definition product_layout (identity : EdidNumericIdentity) (product_name : option (list Z)) : list Z :=
  let name := utf8 (default [] product_name) in
  [0; 0; wrap 8 (Z.of_nat (12 + length name))] ++ pnp_id identity ++
  le_bytes 2 (product_code identity) ++ le_bytes 4 (serial identity) ++ [0; 0; wrap 8 (blen name)] ++
  name.

Lemma displayid_product_block_ok identity product_name :
  length (pnp_id identity) = 3%nat ->
  displayid_product_block identity product_name = Ok (product_layout identity product_name).
Proof.
  intros Hp. apply oks_eq. unfold displayid_product_block.
  set (name := utf8 (default [] product_name)).
  pose proof (grown_nil (3 + (12 + length name))) as H. do 3 (grow H).
  eapply oks_bind; [apply (grown_copy _ _ _ _ _ H); rewrite Hp; lia|].
  clear H. intros b1 H. rewrite Hp in H. cbn [Nat.add] in H. do 5 (grow H).
  match goal with |- oks (with_slice ?b _ _ _) _ =>
    rewrite (grown_length _ _ _ _ H);
    replace (S (S (S (12 + length name)))) with (15 + length name)%nat by lia end.
  eapply oks_weaken; [apply (grown_with _ _ _ _ (length name) _ name H); [lia| |done]|].
  - rewrite length_replicate, Nat.eqb_refl. cbn [debug_assert obind]. rewrite copy_at_ok
      by (rewrite length_replicate; lia). f_equal. unfold splice. rewrite take_0, drop_ge, app_nil_r; [done|].
    rewrite length_replicate. lia.
  - clear H. intros b2 H. apply grown_full in H as ->. unfold product_layout. fold name.
    cbn [app]. rewrite <- !app_assoc. reflexivity.
Qed.

Lemma length_product_layout identity product_name :
  length (pnp_id identity) = 3%nat ->
  length (product_layout identity product_name) = (15 + length (utf8 (default [] product_name)))%nat.
Proof. intros Hp. unfold product_layout. rewrite !length_app, Hp, !length_le_bytes. cbn [length]. lia. Qed.

Definition parameters_layout (preferred : EdidMode) (audio : bool) : list Z :=
  [DISPLAYID_PARAMETERS_TAG; 0; 12; 0; 0; 0; 0] ++ le_bytes 2 (wrap 16 (width preferred)) ++
  le_bytes 2 (wrap 16 (height preferred)) ++
  [if audio then 0x80 else 0; 120; aspect_ratio_value preferred; 0x77].

Lemma displayid_parameters_block_ok preferred audio :
  displayid_parameters_block preferred audio = Ok (parameters_layout preferred audio).
Proof. destruct audio; reflexivity. Qed.

(** What holds of the modes of the table holds of every supported mode. *)
Lemma timing_in_table mode t : timing_for mode = Some t -> (mode, t) ∈ TIMINGS.
Proof.
  unfold timing_for. destruct (List.find _ TIMINGS) as [[m t']|] eqn:E; [|done].
  apply List.find_some in E as [Hin Hm]. apply bool_decide_eq_true in Hm. cbn in *. subst.
  intros [= <-]. by apply list_elem_of_In.
Qed.

Lemma table_forall (P : EdidMode -> DetailedTiming -> Prop) :
  Forall (fun e => P e.1 e.2) TIMINGS -> forall mode t, timing_for mode = Some t -> P mode t.
Proof. intros H mode t Ht%timing_in_table. exact (proj1 (Forall_forall _ _) H _ Ht). Qed.

Definition type_i_layout (preferred : EdidMode) (t : DetailedTiming) : list Z :=
  let minus_one v := le_bytes 2 (v - 1) in
  let sync v positive :=
    [wrap 8 (v - 1); Z.lor (Z.land (wrap 8 (Z.shiftr (v - 1) 8)) 0x7f) (if positive : bool then 0x80 else 0)] in
  [DISPLAYID_TYPE_I_TIMING_TAG; 1; 20] ++ take 3 (le_bytes 4 (clock_10khz t - 1)) ++
  [Z.lor 0x80 (aspect_ratio_code preferred)] ++ minus_one (hactive t) ++ minus_one (hblank t) ++
  sync (hfront t) (negb (Z.land (features t) 0x02 =? 0)) ++ minus_one (hsync t) ++
  minus_one (vactive t) ++ minus_one (vblank t) ++
  sync (vfront t) (negb (Z.land (features t) 0x04 =? 0)) ++ minus_one (vsync t).

Lemma displayid_type_i_timing_block_ok preferred t :
  timing_for preferred = Some t ->
  displayid_type_i_timing_block preferred = Ok (type_i_layout preferred t).
Proof.
  revert preferred t. apply (table_forall (fun m t =>
    displayid_type_i_timing_block m = Ok (type_i_layout m t))).
  repeat (constructor; [vm_compute; reflexivity|]). constructor.
Qed.

Lemma length_type_i preferred t : length (type_i_layout preferred t) = 23%nat.
Proof. reflexivity. Qed.

Definition displayid_layout (product_type extension_count : Z) (data : list Z) : list Z :=
  let covered := [DISPLAYID_VERSION_1_3; wrap 8 (blen data); product_type; extension_count] ++ data in
  [DISPLAYID_EXTENSION_TAG] ++ covered ++ [checksum covered] ++ replicate (122 - length data) 0.

Lemma write_displayid_extension_ok product_type extension_count data :
  (length data <= DISPLAYID_MAX_SECTION_BYTES)%nat ->
  write_displayid_extension zero_block product_type extension_count data
  = Ok (displayid_layout product_type extension_count data).
Proof.
  intros Hd. apply oks_eq. unfold write_displayid_extension, zero_block.
  rewrite block_assert, (proj2 (Nat.leb_le _ _)) by done. cbn [obind debug_assert].
  unfold DISPLAYID_MAX_SECTION_BYTES in Hd.
  change (replicate EDID_BLOCK_SIZE 0) with (replicate 128 0).
  pose proof (grown_nil 128) as H. do 5 (grow H).
  eapply oks_bind; [apply (grown_copy _ _ _ _ _ H); lia|]. clear H. intros b1 H.
  pose proof (grown_length _ _ _ _ H) as Hl. rewrite slice_ok by lia. cbn [obind].
  replace (take (5 + length data - 1) (drop 1 b1))
    with ([DISPLAYID_VERSION_1_3; wrap 8 (blen data); product_type; extension_count] ++ data).
  2: { destruct H as (_ & _ & ->). cbn [app drop].
       replace (5 + length data - 1)%nat with (S (S (S (S (length data))))) by lia.
       cbn [take app]. by rewrite take_app_length. }
  eapply oks_weaken; [apply (grown_set _ _ _ _ _ H); lia|]. intros b2 (_ & _ & ->).
  unfold displayid_layout. cbn [app]. rewrite <- !app_assoc. cbn [app]. reflexivity.
Qed.

(** ** Checksums and framing *)

Lemma sum_checksum l : foldr Z.add 0 (l ++ [checksum l]) mod 256 = 0.
Proof.
  rewrite foldr_add_app. cbn. unfold checksum, wrap. rewrite sum8_mod, Z.add_0_r.
  change (2 ^ 8) with 256. Z.to_euclidean_division_equations. lia.
Qed.

(** A block with its checksum in place. *)
Definition sealed (block : list Z) : list Z := take 127 block ++ [checksum (take 127 block)].

Lemma set_block_checksum_ok block :
  length block = 128%nat -> set_block_checksum block = Ok (sealed block).
Proof.
  intros Hl. unfold set_block_checksum. change (EDID_BLOCK_SIZE - 1)%nat with 127%nat.
  rewrite slice_ok by lia. cbn [obind]. rewrite drop_0, Nat.sub_0_r.
  unfold set_at, update_at, index. destruct (lookup_lt_is_Some_2 block 127) as [v Hv]; [lia|].
  rewrite Hv. cbn. f_equal. unfold sealed. rewrite insert_take_drop by lia. do 2 f_equal.
  by rewrite drop_ge by lia.
Qed.

Lemma set_block_checksums_ok blocks :
  Forall (fun b => length b = 128%nat) blocks -> set_block_checksums blocks = Ok (sealed <$> blocks).
Proof.
  induction 1 as [|b blocks Hb Hbs IH]; [done|]. cbn [set_block_checksums].
  rewrite set_block_checksum_ok by done. cbn [obind]. rewrite IH. done.
Qed.

Lemma length_sealed block : length block = 128%nat -> length (sealed block) = 128%nat.
Proof. intros. unfold sealed. rewrite length_app, length_take. cbn [length]. lia. Qed.

Lemma concat_block (blocks : list (list Z)) i (b : list Z) :
  Forall (fun b => length b = 128%nat) blocks -> blocks !! i = Some b ->
  take 128 (drop (i * 128) (concat blocks)) = b.
Proof.
  intros H. revert i. induction H as [|x blocks Hx Hbs IH]; intros i Hi; [done|].
  destruct i as [|i]; cbn [concat]; cbn in Hi.
  - injection Hi as ->. rewrite Nat.mul_0_l, drop_0, take_app_le, take_ge by lia. done.
  - rewrite drop_app_ge by lia. rewrite <- (IH i Hi). f_equal. f_equal. lia.
Qed.

Lemma sealed_take n block :
  length block = 128%nat -> (n <= 127)%nat -> take n (sealed block) = take n block.
Proof.
  intros. unfold sealed. rewrite take_app_le by (rewrite length_take; lia). rewrite take_take. f_equal. lia.
Qed.

(** Sealed blocks that start with the header and count their extensions frame. *)
Lemma sealed_framed base blocks :
  Forall (fun b => length b = 128%nat) (base :: blocks) -> (length blocks <= 3)%nat ->
  take 8 base = EDID_HEADER -> base !! 126%nat = Some (Z.of_nat (length blocks)) ->
  edid_framed (concat (sealed <$> base :: blocks)).
Proof.
  intros Hl Hn Hh Hc. exists (S (length blocks)).
  assert (Forall (fun b => length b = 128%nat) (sealed <$> base :: blocks)) as Hs.
  { apply Forall_fmap. eapply Forall_impl; [exact Hl|]. apply length_sealed. }
  inversion Hl; subst. unfold EDID_MAX_BLOCKS, EDID_BLOCK_SIZE. split_and!.
  - lia.
  - lia.
  - rewrite (length_concat_const 128) by done. rewrite length_fmap. cbn [length]. lia.
  - cbn. rewrite take_app_le by (rewrite length_sealed; lia). by rewrite sealed_take by lia.
  - cbn. rewrite lookup_app_l by (rewrite length_sealed; lia). unfold sealed.
    rewrite lookup_app_l by (rewrite length_take; lia). rewrite lookup_take_lt by lia.
    rewrite Hc. f_equal. lia.
  - intros i Hi. destruct (lookup_lt_is_Some_2 (base :: blocks) i) as [b Hb]; [cbn; lia|].
    rewrite (concat_block _ _ (sealed b) Hs) by (rewrite list_lookup_fmap, Hb; done).
    apply sum_checksum.
Qed.

(** ** Requests *)

Lemma validate_mode_list_ok unique modes :
  validate_mode_list unique modes = Ok tt <->
  Forall supported modes /\ NoDup modes /\ (forall m, m ∈ modes -> m ∉ unique).
Proof.
  revert unique. induction modes as [|m modes IH]; intros unique; cbn [validate_mode_list].
  { split; [|done]. intros _. split_and!; [constructor|constructor|by intros ? ?%elem_of_nil]. }
  rewrite !reject_seq_ok, IH, !bool_decide_eq_false, Forall_cons, NoDup_cons.
  unfold supported at 2. rewrite <- not_eq_None_Some. setoid_rewrite elem_of_cons.
  split.
  - intros (? & ? & ? & ? & Hu). split_and!; try done.
    + intros Hm. apply (Hu m Hm). by left.
    + intros m' [->|Hm']; [done|]. intros ?. apply (Hu m' Hm'). by right.
  - intros ((? & ?) & (Hn & ?) & Hu). split_and!; try done; [by apply Hu; left|].
    intros m' Hm' [->|Hin]; [done|]. by apply (Hu m'); [right|].
Qed.

Definition modes_ok (modes : list EdidMode) : Prop :=
  modes <> [] /\ (length modes <= 16)%nat /\ Forall supported modes /\ NoDup modes /\
  mode_640x480 ∈ modes.

Lemma validate_modes_ok modes : validate_modes modes = Ok tt <-> modes_ok modes.
Proof.
  unfold validate_modes, modes_ok. rewrite !reject_seq_ok, seq_ok, reject_ok, validate_mode_list_ok.
  rewrite bool_decide_eq_false, Nat.ltb_ge, negb_false_iff, existsb_exists.
  assert ((exists x, List.In x modes /\ (width x =? 640) && (height x =? 480)
             && (refresh_millihz x =? 60000) = true) <-> mode_640x480 ∈ modes) as ->.
  { split.
    - intros ([w h r] & Hin & H). cbn in H. apply andb_true_iff in H as [[H1 H2]%andb_true_iff H3].
      breflect. subst. by apply list_elem_of_In.
    - intros H. exists mode_640x480. split; [by apply list_elem_of_In|done]. }
  unfold MAX_EDID_MODES. pose proof (fun m : EdidMode => not_elem_of_nil m). naive_solver.
Qed.

Definition pnp_ok (p : PnpId) : Prop := length p = 3%nat /\ Forall (fun b => 65 <= b <= 90) p.

(** The sink's reading of the manufacturer field. *)
Definition decode_pnp (hi lo : Z) : list Z :=
  let v := hi * 256 + lo in
  [64 + (v / 1024) mod 32; 64 + (v / 32) mod 32; 64 + v mod 32].

Definition letters : list Z := (fun n => 65 + Z.of_nat n) <$> seq 0 26.

Lemma letters_in b : 65 <= b <= 90 -> List.In b letters.
Proof.
  intros Hb. apply list_elem_of_In, list_elem_of_fmap. exists (Z.to_nat (b - 65)).
  split; [lia|]. apply elem_of_seq. lia.
Qed.

Definition pnp_round (p : PnpId) : bool :=
  match encode_pnp_id p with
  | Ok [hi; lo] => bool_decide (decode_pnp hi lo = p)
  | _ => false
  end.

Lemma pnp_rounds :
  forallb (fun a => forallb (fun b => forallb (fun c => pnp_round [a; b; c]) letters) letters) letters
  = true.
Proof. vm_compute. reflexivity. Qed.

Lemma encode_pnp_id_ok p :
  pnp_ok p -> exists hi lo, encode_pnp_id p = Ok [hi; lo] /\ decode_pnp hi lo = p.
Proof.
  intros [Hl Hp]. destruct p as [|a [|b [|c [|]]]]; try done.
  repeat match goal with H : Forall _ (_ :: _) |- _ => inversion H; clear H; subst end.
  pose proof pnp_rounds as H. rewrite forallb_forall in H. specialize (H a (letters_in a ltac:(lia))).
  rewrite forallb_forall in H. specialize (H b (letters_in b ltac:(lia))).
  rewrite forallb_forall in H. specialize (H c (letters_in c ltac:(lia))).
  unfold pnp_round in H. destruct (encode_pnp_id [a; b; c]) as [[|hi [|lo [|]]]| |]; try done.
  apply bool_decide_eq_true in H. eauto.
Qed.

(** Selection keeps supported modes, the first first, at most four. *)
Lemma fill_detailed_spec selected modes :
  (length selected <= 4)%nat ->
  (length (fill_detailed selected modes) <= 4)%nat /\
  (exists extra, fill_detailed selected modes = selected ++ extra /\
     forall m, m ∈ extra -> m ∈ modes).
Proof.
  revert selected. induction modes as [|m modes IH]; intros selected Hl; cbn [fill_detailed].
  { split; [done|]. exists []. by rewrite app_nil_r. }
  destruct (length selected =? 4)%nat eqn:E.
  { split; [done|]. exists []. rewrite app_nil_r. split; [done|]. by intros ? ?%elem_of_nil. }
  apply Nat.eqb_neq in E. case_bool_decide as Hm.
  - destruct (IH selected Hl) as [H1 (extra & Ex & H2)]. rewrite Ex in *. split; [done|]. exists extra. split; [done|].
    intros. apply elem_of_cons. auto.
  - destruct (IH (selected ++ [m])) as [H1 (extra & Ex & H2)]; [rewrite length_app; cbn; lia|].
    rewrite Ex in *.     split; [done|]. exists (m :: extra). rewrite <- app_assoc. split; [done|].
    intros m' [->|Hm']%elem_of_cons; [by constructor|]. apply elem_of_cons. auto.
Qed.

Lemma select_ok first rest :
  exists extra, select_base_detailed_modes (first :: rest)
    = Ok (first :: take 3 (List.filter only_detailed rest) ++ extra) /\
    (length (first :: take 3 (List.filter only_detailed rest) ++ extra) <= 4)%nat /\
    forall m, m ∈ first :: take 3 (List.filter only_detailed rest) ++ extra -> m ∈ first :: rest.
Proof.
  unfold select_base_detailed_modes. cbn [index lookup list_lookup expect obind tail].
  destruct (fill_detailed_spec (first :: take 3 (List.filter only_detailed rest)) (first :: rest))
    as [Hl (extra & Ex & Hextra)].
  { cbn [length]. rewrite length_take. lia. }
  rewrite Ex in *.
  exists extra. split_and!; [done|done|]. intros m [->|[Hm|Hm]%elem_of_app]%elem_of_cons; [by constructor| |auto].
  apply elem_of_cons. right. apply list_elem_of_In. eapply List.filter_In. apply list_elem_of_In.
  apply elem_of_take in Hm as (j & Hm & _). by eapply list_elem_of_lookup_2.
Qed.

(** ** The blocks of a request *)

Lemma length_base_layout hi lo identity established modes detailed ext :
  length established = 3%nat ->
  length (base_layout [hi; lo] identity established modes detailed ext) = 128%nat.
Proof.
  intros He. unfold base_layout. rewrite !length_app, He, length_standard_slots, !length_le_bytes.
  rewrite (length_concat_const 18); [reflexivity|].
  apply Forall_fmap, Forall_forall. intros i _. apply length_descriptor.
Qed.

Lemma length_cta_layout vics audio cec t :
  (length vics <= 16)%nat -> length (cta_layout vics audio cec t) = 128%nat.
Proof.
  intros Hv. pose proof (length_cta_data vics audio cec) as Hd. unfold cta_layout.
  rewrite !length_app, length_replicate. change (length (dtd t)) with 18%nat. cbn [length].
  destruct cec, audio; lia.
Qed.

Lemma length_displayid_layout product_type ext data :
  (length data <= 121)%nat -> length (displayid_layout product_type ext data) = 128%nat.
Proof. intros. unfold displayid_layout. rewrite !length_app, length_replicate. cbn [length]. lia. Qed.

Lemma build_blocks_ok identity name modes audio cec first rest t :
  pnp_ok (pnp_id identity) -> modes = first :: rest -> modes_ok modes -> timing_for first = Some t ->
  (length (utf8 (default [] name)) <= 106)%nat ->
  exists hi lo established detailed displayid,
    encode_pnp_id (pnp_id identity) = Ok [hi; lo] /\ decode_pnp hi lo = pnp_id identity /\
    write_established_timings [0; 0; 0] modes = Ok established /\ length established = 3%nat /\
    select_base_detailed_modes modes = Ok detailed /\ (1 <= length displayid <= 2)%nat /\
    Forall (fun b => length b = 128%nat) displayid /\
    build_blocks identity name modes audio cec
    = Ok (base_layout [hi; lo] identity established modes detailed (1 + Z.of_nat (length displayid))
          :: cta_layout (omap video_identification_code modes) audio cec t :: displayid).
Proof.
  intros Hp -> Hm Ht Hn. set (modes := first :: rest) in *.
  destruct (encode_pnp_id_ok _ Hp) as (hi & lo & Hpe & Hpd).
  destruct (oks_some _ _ (write_established_ok [0; 0; 0] modes eq_refl)) as (est & He & Hel & _).
  destruct (select_ok first rest) as (extra & Hs & _ & Hsub). fold modes in Hs.
  set (detailed := first :: take 3 (List.filter only_detailed rest) ++ extra) in *.
  destruct Hm as (_ & Hlen & Hsup & _).
  assert (Forall supported detailed) as Hd.
  { apply Forall_forall. intros m Hin%Hsub. by eapply Forall_forall in Hsup. }
  pose proof (fun ext => write_base_block_ok identity modes ext [hi; lo] est detailed Hpe eq_refl He Hel Hs Hd)
    as Hbase.
  pose proof (write_cta_extension_ok modes audio cec first rest t eq_refl Ht Hlen) as Hcta.
  unfold build_blocks. rewrite displayid_product_block_ok by apply Hp. cbn [obind].
  replace (index modes 0) with (Ok (E:=CastDisplayEdidError) first) by done. cbn [obind].
  rewrite displayid_parameters_block_ok, (displayid_type_i_timing_block_ok _ _ Ht). cbn [obind].
  pose proof (length_product_layout identity name (proj1 Hp)) as Hpl.
  set (product := product_layout identity name) in *.
  change (length (parameters_layout first audio)) with 15%nat. rewrite length_type_i.
  unfold DISPLAYID_MAX_SECTION_BYTES. destruct (_ <? _)%nat eqn:Hbig.
  - rewrite Hbase, Hcta. cbn [obind].
    rewrite !write_displayid_extension_ok by
      (unfold DISPLAYID_MAX_SECTION_BYTES; rewrite ?length_app, ?length_type_i;
       change (length (parameters_layout first audio)) with 15%nat; lia).
    cbn [obind].
    exists hi, lo, est, detailed, [displayid_layout DISPLAYID_PRODUCT_TYPE_TV 1 product;
      displayid_layout 0 0 (parameters_layout first audio ++ type_i_layout first t)].
    split_and!; try done; cbn [length]; try lia.
    repeat constructor; apply length_displayid_layout; rewrite ?length_app, ?length_type_i;
      change (length (parameters_layout first audio)) with 15%nat; lia.
  - apply Nat.ltb_ge in Hbig. rewrite Hbase, Hcta. cbn [obind].
    rewrite !write_displayid_extension_ok by
      (unfold DISPLAYID_MAX_SECTION_BYTES; rewrite ?length_app, ?length_type_i;
       change (length (parameters_layout first audio)) with 15%nat; lia).
    cbn [obind].
    exists hi, lo, est, detailed, [displayid_layout DISPLAYID_PRODUCT_TYPE_TV 0
      (product ++ parameters_layout first audio ++ type_i_layout first t)].
    split_and!; try done; cbn [length]; try lia.
    repeat constructor; apply length_displayid_layout; rewrite ?length_app, ?length_type_i;
      change (length (parameters_layout first audio)) with 15%nat; lia.
Qed.

(** ** Reading the EDID back *)

(** The detailed-timing descriptor as the standard defines it. *)
Definition decode_dtd (d : list Z) : DetailedTiming :=
  let b i := nth i d 0 in
  {| clock_10khz := b 0%nat + 256 * b 1%nat;
     hactive := b 2%nat + 256 * (b 4%nat / 16); hblank := b 3%nat + 256 * (b 4%nat mod 16);
     vactive := b 5%nat + 256 * (b 7%nat / 16); vblank := b 6%nat + 256 * (b 7%nat mod 16);
     hfront := b 8%nat + 256 * (b 11%nat / 64); hsync := b 9%nat + 256 * ((b 11%nat / 16) mod 4);
     vfront := b 10%nat / 16 + 16 * ((b 11%nat / 4) mod 4);
     vsync := b 10%nat mod 16 + 16 * (b 11%nat mod 4); features := b 17%nat |}.

Lemma decode_dtd_timing mode t :
  timing_for mode = Some t ->
  decode_dtd (dtd t) = t /\ hactive t = width mode /\ vactive t = height mode.
Proof.
  revert mode t. apply (table_forall (fun m t =>
    decode_dtd (dtd t) = t /\ hactive t = width m /\ vactive t = height m)).
  repeat (constructor; [vm_compute; by split_and!|]). constructor.
Qed.

Lemma base_field base blocks a n :
  length base = 128%nat -> (a + n <= 127)%nat ->
  take n (drop a (concat (sealed <$> base :: blocks))) = take n (drop a base).
Proof.
  intros Hb Hn. apply take_drop_ext. intros i Hi. cbn [fmap list_fmap concat].
  rewrite lookup_app_l by (rewrite length_sealed; lia). unfold sealed.
  rewrite lookup_app_l by (rewrite length_take; lia). by rewrite lookup_take_lt by lia.
Qed.

Lemma second_field base block blocks a n :
  length base = 128%nat -> length block = 128%nat -> (a + n <= 127)%nat ->
  take n (drop (128 + a) (concat (sealed <$> base :: block :: blocks))) = take n (drop a block).
Proof.
  intros Hb Hb' Hn. rewrite <- (base_field block blocks a n) by done. cbn [fmap list_fmap concat].
  rewrite (drop_app_ge (sealed base)) by (rewrite length_sealed; lia).
  rewrite length_sealed by done. do 2 f_equal. lia.
Qed.

(** The fields of the base block, at their offsets. *)
Lemma base_descriptor hi lo identity established modes detailed ext i :
  length established = 3%nat -> (i < 4)%nat ->
  take 18 (drop (54 + 18 * i) (base_layout [hi; lo] identity established modes detailed ext))
  = descriptor detailed i.
Proof.
  intros He Hi. unfold base_layout.
  set (pre := EDID_HEADER ++ [hi; lo] ++ le_bytes 2 (product_code identity) ++
    le_bytes 4 (serial identity) ++ [0; 30; 1; 4; 128; 0; 0; 120; 14] ++ CHROMATICITY ++ established ++
    standard_slots modes detailed).
  replace (EDID_HEADER ++ _) with (pre ++ concat (descriptor detailed <$> seq 0 4) ++ [ext; 0])
    by (unfold pre; rewrite <- !app_assoc; done).
  assert (length pre = 54%nat) as Hpre.
  { unfold pre. rewrite !length_app, He, length_standard_slots, !length_le_bytes. reflexivity. }
  rewrite <- drop_drop, (drop_past pre) by done. cbn [seq fmap list_fmap concat].
  pose proof (length_descriptor detailed) as Hl.
  destruct i as [|[|[|[|]]]]; [..|lia]; rewrite <- !app_assoc; cbn [Nat.mul Nat.add].
  - rewrite drop_0, take_app_le, take_ge by (rewrite Hl; lia). done.
  - rewrite drop_past, take_app_le, take_ge by (rewrite ?Hl; lia). done.
  - rewrite (app_assoc (descriptor detailed 0)), drop_past by (rewrite length_app, !Hl; lia).
    rewrite take_app_le, take_ge by (rewrite Hl; lia). done.
  - rewrite (app_assoc (descriptor detailed 0)), (app_assoc (_ ++ descriptor detailed 1)), drop_past
      by (rewrite !length_app, !Hl; lia).
    rewrite take_app_le, take_ge by (rewrite Hl; lia). done.
Qed.

Lemma cta_dtd vics audio cec t :
  (length vics <= 16)%nat ->
  exists off, take 1 (drop 2 (cta_layout vics audio cec t)) = [Z.of_nat off] /\ (off + 18 <= 127)%nat /\
    take 18 (drop off (cta_layout vics audio cec t)) = dtd t.
Proof.
  intros Hv. pose proof (length_cta_data vics audio cec) as Hd.
  set (data := cta_data vics audio cec) in *.
  assert (length data <= 34)%nat as Hdl by (destruct cec, audio; lia).
  exists (4 + length data)%nat. unfold cta_layout. fold data. split_and!.
  - cbn [app drop take]. do 2 f_equal. unfold blen. rewrite wrap_id; [lia|]. unfold uint. lia.
  - lia.
  - rewrite app_assoc, drop_past by (rewrite length_app; cbn [length]; lia).
    rewrite take_app_le, take_ge by (change (length (dtd t)) with 18%nat; lia). done.
Qed.

(** ** Building *)

(** The documented output of SHA-256. *)
Definition sha256_ok `{Sha256} : Prop := forall m, length (sha256 m) = 32%nat /\ bytes_ok (sha256 m).

(** The validators' verdict on a request. *)
Definition request_ok (rq : CastDisplayEdidRequest) : Prop :=
  is_ok (validate_stable_id "backend ID" (rq_backend_id rq) 64) = true /\
  is_ok (validate_stable_id "device ID" (rq_device_id rq) 256) = true /\
  is_ok (validate_manufacturer_name (rq_manufacturer_name rq)) = true /\
  is_ok (validate_product_name (rq_product_name rq)) = true /\
  is_ok (validate_product_name (rq_display_name rq)) = true /\
  modes_ok (rq_modes rq) /\
  match rq_cec_physical_address rq with
  | Some address => is_ok (validate_cec_physical_address address) = true
  | None => True
  end.

Lemma validate_product_name_length name v :
  validate_product_name name = Ok v -> (length (utf8 (default [] v)) <= 106)%nat.
Proof.
  unfold validate_product_name. destruct (trim <$> name) as [[|c s]|]; try (intros [= <-]; cbn; lia).
  rewrite !reject_seq_ok. intros (Hl & _ & [= <-]). apply Nat.ltb_ge in Hl. exact Hl.
Qed.

Lemma nonzero_u16_ok hash :
  length hash = 32%nat -> bytes_ok hash -> exists v, nonzero_u16 hash = Ok v /\ 1 <= v < 65536.
Proof.
  intros Hl Hb. unfold nonzero_u16. destruct (get_le (E:=CastDisplayEdidError) hash 0 2) as [v| |] eqn:E;
    [|rewrite get_le_ok in E by lia; discriminate..].
  apply get_le_range in E; [|done]. cbn [obind]. eexists. split; [done|].
  unfold uint in E. change (2 ^ (8 * Z.of_nat 2)) with 65536 in E. destruct (v =? 0) eqn:E0; breflect; lia.
Qed.

Lemma nonzero_u32_ok hash :
  length hash = 32%nat -> bytes_ok hash -> exists v, nonzero_u32 hash = Ok v /\ 1 <= v < 4294967296.
Proof.
  intros Hl Hb. unfold nonzero_u32. destruct (get_le (E:=CastDisplayEdidError) hash 0 4) as [v| |] eqn:E;
    [|rewrite get_le_ok in E by lia; discriminate..].
  apply get_le_range in E; [|done]. cbn [obind]. eexists. split; [done|].
  unfold uint in E. change (2 ^ (8 * Z.of_nat 4)) with 4294967296 in E. destruct (v =? 0) eqn:E0; breflect; lia.
Qed.

Lemma numeric_identity_ok `{Unicode, Sha256} pnp mn pn backend device :
  sha256_ok ->
  exists identity, numeric_identity pnp mn pn backend device = Ok identity /\ pnp_id identity = pnp /\
    1 <= product_code identity < 65536 /\ 1 <= serial identity < 4294967296.
Proof.
  intros Hs. unfold numeric_identity, derive_hash.
  match goal with |- context [nonzero_u16 (sha256 ?x)] =>
    destruct (nonzero_u16_ok (sha256 x)) as (code & -> & Hc); [apply Hs..|] end.
  cbn [obind].
  match goal with |- context [nonzero_u32 (sha256 ?x)] =>
    destruct (nonzero_u32_ok (sha256 x)) as (number & -> & Hn); [apply Hs..|] end.
  cbn [obind]. eexists. split; [done|]. done.
Qed.

(** What a successful build produced, block by block. *)
Record built (rq : CastDisplayEdidRequest) (g : GeneratedCastDisplayEdid) : Prop := {
  built_modes : modes_ok (rq_modes rq);
  built_fields : ge_modes g = rq_modes rq /\ ge_audio g = rq_audio rq /\
    ge_cec_physical_address g = rq_cec_physical_address rq;
  built_identity : pnp_id (ge_identity g) = rq_pnp_id rq /\
    1 <= product_code (ge_identity g) < 65536 /\ 1 <= serial (ge_identity g) < 4294967296;
  built_bytes : exists first rest t hi lo established detailed displayid,
    rq_modes rq = first :: rest /\ timing_for first = Some t /\
    decode_pnp hi lo = rq_pnp_id rq /\
    write_established_timings [0; 0; 0] (rq_modes rq) = Ok established /\
    length established = 3%nat /\
    select_base_detailed_modes (rq_modes rq) = Ok detailed /\ (1 <= length displayid <= 2)%nat /\
    Forall (fun b => length b = 128%nat) displayid /\
    ge_edid g = concat (sealed <$>
      base_layout [hi; lo] (ge_identity g) established (rq_modes rq) detailed
        (1 + Z.of_nat (length displayid))
      :: cta_layout (omap video_identification_code (rq_modes rq)) (rq_audio rq)
           (rq_cec_physical_address rq) t :: displayid) }.

Lemma blocks_framed base cta displayid :
  Forall (fun b => length b = 128%nat) (base :: cta :: displayid) -> (1 <= length displayid <= 2)%nat ->
  take 8 base = EDID_HEADER -> base !! 126%nat = Some (1 + Z.of_nat (length displayid)) ->
  edid_framed (concat (sealed <$> base :: cta :: displayid)).
Proof.
  intros Hl Hn Hh Hc. apply sealed_framed; try done; cbn [length]; [lia|]. rewrite Hc. f_equal. lia.
Qed.

Lemma base_extension_count hi lo identity established modes detailed ext :
  length established = 3%nat ->
  base_layout [hi; lo] identity established modes detailed ext !! 126%nat = Some ext.
Proof.
  intros He. unfold base_layout.
  set (pre := EDID_HEADER ++ [hi; lo] ++ le_bytes 2 (product_code identity) ++
    le_bytes 4 (serial identity) ++ [0; 30; 1; 4; 128; 0; 0; 120; 14] ++ CHROMATICITY ++ established ++
    standard_slots modes detailed ++ concat (descriptor detailed <$> seq 0 4)).
  replace (EDID_HEADER ++ _) with (pre ++ ext :: [0]) by (unfold pre; rewrite <- !app_assoc; done).
  apply list_lookup_middle. unfold pre.
  rewrite !length_app, He, length_standard_slots, !length_le_bytes, (length_concat_const 18); [done|].
  apply Forall_fmap, Forall_forall. intros i _. apply length_descriptor.
Qed.

Lemma build_ok `{Unicode, Sha256} rq :
  sha256_ok -> pnp_ok (rq_pnp_id rq) -> request_ok rq ->
  exists g, build_cast_display_edid rq = Ok g /\ built rq g /\ edid_framed (ge_edid g).
Proof.
  intros Hsha Hpnp (H1 & H2 & H3 & H4 & H5 & Hm & Hcec). unfold build_cast_display_edid.
  destruct (validate_stable_id "backend ID" _ _) as [[]| |]; try done. cbn [obind].
  destruct (validate_stable_id "device ID" _ _) as [[]| |]; try done. cbn [obind].
  destruct (validate_manufacturer_name _) as [mn| |]; try done. cbn [obind].
  destruct (validate_product_name (rq_product_name rq)) as [pn| |]; try done. cbn [obind].
  destruct (validate_product_name (rq_display_name rq)) as [dn| |] eqn:Hdn; try done. cbn [obind].
  apply validate_product_name_length in Hdn.
  rewrite (proj2 (validate_modes_ok _)) by done. cbn [obind].
  match goal with |- context [obind ?m _] => replace m with (Ok (E:=CastDisplayEdidError) tt) end.
  2: { destruct (rq_cec_physical_address rq) as [a|]; [|done].
       by destruct (validate_cec_physical_address a) as [[]| |]. }
  cbn [obind].
  destruct (numeric_identity_ok (rq_pnp_id rq) mn pn (rq_backend_id rq) (rq_device_id rq) Hsha)
    as (identity & -> & Hid & Hcode & Hser). cbn [obind].
  pose proof Hm as (Hne & Hlen & Hsup & _).
  destruct (rq_modes rq) as [|first rest] eqn:Hmodes; [done|].
  assert (supported first) as [t Ht] by by inversion Hsup.
  destruct (build_blocks_ok identity dn (first :: rest) (rq_audio rq) (rq_cec_physical_address rq)
    first rest t) as (hi & lo & est & det & did & Hpe & Hpd & He & Hel & Hs & Hdl & Hdf & ->);
    [by rewrite Hid|done|done|done|done|]. cbn [obind].
  assert (Forall (fun b => length b = 128%nat)
    (base_layout [hi; lo] identity est (first :: rest) det (1 + Z.of_nat (length did))
     :: cta_layout (omap video_identification_code (first :: rest)) (rq_audio rq)
          (rq_cec_physical_address rq) t :: did)) as Hall.
  { constructor; [by apply length_base_layout|]. constructor; [|done]. apply length_cta_layout.
    etrans; [apply omap_shorter|done]. }
  rewrite set_block_checksums_ok by done. cbn [obind].
  assert (edid_framed (concat (sealed <$>
    base_layout [hi; lo] identity est (first :: rest) det (1 + Z.of_nat (length did))
    :: cta_layout (omap video_identification_code (first :: rest)) (rq_audio rq)
         (rq_cec_physical_address rq) t :: did))) as Hframed.
  { apply blocks_framed; [done|done|done|]. by apply base_extension_count. }
  unfold ValidatedEdid_new. rewrite (proj2 (proj1 (validate_edid_framing _))) by done. cbn [obind omap_err].
  eexists. split; [done|]. split; [|done]. split; cbn.
  - by rewrite Hmodes.
  - by rewrite Hmodes.
  - by rewrite Hid.
  - exists first, rest, t, hi, lo, est, det, did. rewrite Hmodes. rewrite <- Hid.
    split_and!; try done; lia.
Qed.

(** Outcomes other than a panic or a framing error. *)
Definition mild {A} (m : outcome CastDisplayEdidError A) : Prop :=
  match m with Ok _ => True | Err (Framing _) => False | Err _ => True | Panic => False end.

Lemma mild_bind {A B} (m : outcome CastDisplayEdidError A) (k : A -> outcome CastDisplayEdidError B) :
  mild m -> (forall a, m = Ok a -> mild (k a)) -> mild (obind m k).
Proof. destruct m; cbn; auto. Qed.

Lemma mild_reject c e : mild (A:=unit) (Err e) -> mild (reject c e).
Proof. by destruct c. Qed.

Lemma mild_reject_seq {B} c e (k : outcome CastDisplayEdidError B) :
  mild (A:=unit) (Err e) -> mild k -> mild (obind (reject c e) (fun _ => k)).
Proof. destruct c; cbn; [by destruct e|done]. Qed.

Lemma mild_stable_id field value maximum : mild (validate_stable_id field value maximum).
Proof. unfold validate_stable_id. repeat apply mild_reject_seq; try done. by apply mild_reject. Qed.

Lemma mild_manufacturer value : mild (validate_manufacturer_name value).
Proof.
  unfold validate_manufacturer_name. destruct (trim <$> value) as [[]|]; try done.
  by repeat apply mild_reject_seq.
Qed.

Lemma mild_product value : mild (validate_product_name value).
Proof.
  unfold validate_product_name. destruct (trim <$> value) as [[]|]; try done.
  by repeat apply mild_reject_seq.
Qed.

Lemma mild_modes modes : mild (validate_modes modes).
Proof.
  unfold validate_modes. do 2 (apply mild_reject_seq; [done|]). apply mild_bind.
  - generalize ([] : list EdidMode). induction modes as [|m modes IH]; intros u; cbn; [done|].
    do 2 (apply mild_reject_seq; [done|]). apply IH.
  - intros _ _. by apply mild_reject.
Qed.

Lemma mild_cec address : mild (validate_cec_physical_address address).
Proof.
  unfold validate_cec_physical_address. apply mild_reject_seq; [done|].
  generalize false. match goal with |- context [check_nibbles _ _ ?l] => generalize l end.
  induction l as [|n l IH]; intros z; cbn; [done|]. destruct (n =? 0); [done|]. by destruct z.
Qed.

Lemma request_of_ok `{Unicode, Sha256} rq g : build_cast_display_edid rq = Ok g -> request_ok rq.
Proof.
  unfold build_cast_display_edid. intros Hb.
  apply seq_ok in Hb as [H1 Hb]. apply seq_ok in Hb as [H2 Hb].
  apply obind_ok in Hb as (mn & H3 & Hb). apply obind_ok in Hb as (pn & H4 & Hb).
  apply obind_ok in Hb as (dn & H5 & Hb). apply seq_ok in Hb as [H6 Hb]. apply seq_ok in Hb as [H7 _].
  unfold request_ok. rewrite H1, H2, H3, H4, H5. split_and!; try done.
  - by apply validate_modes_ok.
  - destruct (rq_cec_physical_address rq); [|done]. by rewrite H7.
Qed.

Lemma build_built `{Unicode, Sha256} rq g :
  sha256_ok -> pnp_ok (rq_pnp_id rq) -> build_cast_display_edid rq = Ok g -> built rq g.
Proof.
  intros Hs Hp Hb. destruct (build_ok rq Hs Hp (request_of_ok rq g Hb)) as (g' & E & ? & _).
  rewrite Hb in E. by injection E as <-.
Qed.

Lemma build_mild `{Unicode, Sha256} rq :
  sha256_ok -> pnp_ok (rq_pnp_id rq) -> mild (build_cast_display_edid rq).
Proof.
  intros Hs Hp. destruct (build_cast_display_edid rq) as [g|e|] eqn:E; [done| |].
  all: enough (mild (build_cast_display_edid rq)) as Hm by by rewrite E in Hm.
  all: unfold build_cast_display_edid.
  all: apply mild_bind; [apply mild_stable_id|]; intros [] H1.
  all: apply mild_bind; [apply mild_stable_id|]; intros [] H2.
  all: apply mild_bind; [apply mild_manufacturer|]; intros mn H3.
  all: apply mild_bind; [apply mild_product|]; intros pn H4.
  all: apply mild_bind; [apply mild_product|]; intros dn H5.
  all: apply mild_bind; [apply mild_modes|]; intros [] H6.
  all: apply mild_bind; [destruct (rq_cec_physical_address rq); [apply mild_cec|done]|]; intros [] H7.
  all: exfalso; assert (request_ok rq) as Hr.
  all: try (unfold request_ok; rewrite H1, H2, H3, H4, H5; split_and!; try done;
    [by apply validate_modes_ok|]; destruct (rq_cec_physical_address rq); [by rewrite H7|done]).
  all: destruct (build_ok rq Hs Hp Hr) as (g & E' & _); congruence.
Qed.

Lemma built_length rq g : built rq g ->
  length (ge_edid g) = 384%nat \/ length (ge_edid g) = 512%nat.
Proof.
  intros [(_ & Hlen & _) _ _ (first & rest & t & hi & lo & est & det & did & Hm & _ & _ & _ & Hel & _ & Hn & Hf & ->)].
  rewrite (length_concat_const 128).
  - rewrite length_fmap. cbn [length]. lia.
  - apply Forall_fmap. eapply (Forall_impl (fun b => length b = 128%nat)); [|apply length_sealed].
    constructor; [by apply length_base_layout|]. constructor; [|done].
    apply length_cta_layout. etrans; [apply omap_shorter|done].
Qed.

(** EDID generation is total and always frames: for a valid PNP ID it
    returns an EDID exactly when every validator accepts the request (stable
    IDs, names, modes, CEC address), the EDID is well framed (1 to 4 blocks of
    128 bytes, header, extension count, checksums) and has three or four
    blocks; otherwise it returns a validation error.  It never panics and its
    own framing check never fails. *)
Theorem edid_build_total `{Unicode, Sha256} rq :
  sha256_ok -> pnp_ok (rq_pnp_id rq) ->
  (is_ok (build_cast_display_edid rq) = true <-> request_ok rq) /\
  build_cast_display_edid rq <> Panic /\
  (forall e, build_cast_display_edid rq <> Err (Framing e)) /\
  (forall g, build_cast_display_edid rq = Ok g ->
     edid_framed (ge_edid g) /\ (length (ge_edid g) = 384%nat \/ length (ge_edid g) = 512%nat)).
Proof.
  intros Hs Hp. pose proof (build_mild rq Hs Hp) as Hm. split_and!.
  - split.
    + destruct (build_cast_display_edid rq) eqn:E; try done. intros _. by eapply request_of_ok.
    + intros Hr. destruct (build_ok rq Hs Hp Hr) as (g & -> & _). done.
  - intros E. by rewrite E in Hm.
  - intros e E. by rewrite E in Hm.
  - intros g E. destruct (build_ok rq Hs Hp (request_of_ok rq g E)) as (g' & E' & Hb & Hf).
    rewrite E in E'. injection E' as <-. split; [done|]. by eapply built_length.
Qed.

(** A generated EDID says what was requested, read back field by field: the
    base block carries the PNP ID and the nonzero product code and serial of
    the reported identity; its first detailed timing and the detailed timing
    of the CTA extension both decode to the preferred mode's timing, whose
    active size is the mode's width and height. *)
Theorem edid_describes_request `{Unicode, Sha256} rq g :
  sha256_ok -> pnp_ok (rq_pnp_id rq) -> build_cast_display_edid rq = Ok g ->
  pnp_id (ge_identity g) = rq_pnp_id rq /\
  (exists hi lo, take 2 (drop 8 (ge_edid g)) = [hi; lo] /\ decode_pnp hi lo = rq_pnp_id rq) /\
  take 2 (drop 10 (ge_edid g)) = le_bytes 2 (product_code (ge_identity g)) /\
  1 <= product_code (ge_identity g) < 65536 /\
  take 4 (drop 12 (ge_edid g)) = le_bytes 4 (serial (ge_identity g)) /\
  1 <= serial (ge_identity g) < 4294967296 /\
  exists preferred rest t off,
    rq_modes rq = preferred :: rest /\ timing_for preferred = Some t /\
    hactive t = width preferred /\ vactive t = height preferred /\
    decode_dtd (take 18 (drop 54 (ge_edid g))) = t /\
    take 1 (drop 130 (ge_edid g)) = [Z.of_nat off] /\
    decode_dtd (take 18 (drop (128 + off) (ge_edid g))) = t.
Proof.
  intros Hs Hp Hb. destruct (build_built rq g Hs Hp Hb) as [(_ & Hlen & _) _ (Hid & Hc & Hn)
    (first & rest & t & hi & lo & est & det & did & Hm & Ht & Hpd & _ & Hel & Hsel & _ & _ & Hg)].
  rewrite Hg. set (vics := omap video_identification_code (rq_modes rq)).
  assert (length vics <= 16)%nat as Hv by (etrans; [apply omap_shorter|done]).
  pose proof (length_base_layout hi lo (ge_identity g) est (rq_modes rq) det (1 + Z.of_nat (length did)) Hel) as Hbl.
  pose proof (length_cta_layout vics (rq_audio rq) (rq_cec_physical_address rq) t Hv) as Hcl.
  destruct (decode_dtd_timing _ _ Ht) as (Hdec & Hw & Hh).
  destruct (cta_dtd vics (rq_audio rq) (rq_cec_physical_address rq) t Hv) as (off & Ho & Hor & Hod).
  split_and!; try done; try lia.
  - exists hi, lo. split; [|done]. rewrite base_field by lia. reflexivity.
  - exists first, rest, t, off. split_and!; try done.
    + rewrite base_field by lia. rewrite (base_descriptor _ _ _ _ _ _ _ 0) by (done || lia).
      rewrite Hm in Hsel. destruct (select_ok first rest) as (extra & Hsel' & _). rewrite Hsel in Hsel'.
      injection Hsel' as ->. unfold descriptor. cbn [lookup list_lookup]. by rewrite Ht.
    + by rewrite (second_field _ _ _ 2 1) by lia.
    + by rewrite (second_field _ _ _ off 18), Hod by lia.
Qed.

(** ** Every mode is advertised *)

(** A sink's reading: a mode is offered by a detailed descriptor, by its
    established-timing bit, or by a standard-timing slot of the base block. *)
Definition advertises (edid : list Z) (mode : EdidMode) : Prop :=
  (exists i t, (i < 4)%nat /\ timing_for mode = Some t /\
     decode_dtd (take 18 (drop (54 + 18 * i) edid)) = t) \/
  (exists byte bit v, established_timing_bit mode = Some (byte, bit) /\
     take 1 (drop (35 + byte) edid) = [v] /\ Z.testbit v bit = true) \/
  (exists i x, (i < 8)%nat /\ standard_timing mode = Some x /\
     take 2 (drop (38 + 2 * i) edid) = x).

(** The supported modes that only a standard slot can carry. *)
Definition standard_modes : list EdidMode :=
  List.filter (fun m => bool_decide (established_timing_bit m = None) &&
                        bool_decide (is_Some (standard_timing m))) (fst <$> TIMINGS).

Lemma standard_modes_eight : length standard_modes = 8%nat.
Proof. vm_compute. reflexivity. Qed.

Lemma supported_in_table mode : supported mode -> mode ∈ fst <$> TIMINGS.
Proof.
  intros [t Ht%timing_in_table]. change mode with (fst (mode, t)). by apply list_elem_of_fmap_2.
Qed.

Lemma omap_length_filter {A B} (f : A -> option B) l :
  length (omap f l) = length (List.filter (fun x => bool_decide (is_Some (f x))) l).
Proof.
  induction l as [|x l IH]; csimpl; [done|]. destruct (f x); csimpl; by rewrite IH.
Qed.

Lemma filter_filter_NoDup (p : EdidMode -> bool) l : NoDup l -> NoDup (List.filter p l).
Proof. rewrite !NoDup_ListNoDup. apply List.NoDup_filter. Qed.

Lemma standard_items_eight modes detailed :
  Forall supported modes -> NoDup modes -> (length (standard_items modes detailed) <= 8)%nat.
Proof.
  intros Hs Hn. unfold standard_items. rewrite omap_length_filter, <- standard_modes_eight.
  apply NoDup_incl_length.
  - apply NoDup_ListNoDup. by repeat apply filter_filter_NoDup.
  - intros m Hm. apply List.filter_In in Hm as [Hm H1]. apply List.filter_In in Hm as [Hm H2].
    apply List.filter_In in Hm as [Hm _]. apply List.filter_In. rewrite H1, H2. split; [|done].
    apply list_elem_of_In, supported_in_table. eapply Forall_forall in Hs; [exact Hs|].
    by apply list_elem_of_In.
Qed.

Lemma concat_chunk n (l : list (list Z)) i x rest :
  Forall (fun y => length y = n) l -> l !! i = Some x ->
  take n (drop (n * i) (concat l ++ rest)) = x.
Proof.
  intros Hl. revert i. induction Hl as [|y l Hy Hl IH]; intros [|i] Hi; try done; cbn in Hi.
  - injection Hi as ->. rewrite Nat.mul_0_r, drop_0. cbn [concat]. rewrite <- app_assoc.
    rewrite take_app_le, take_ge by lia. done.
  - cbn [concat]. rewrite <- app_assoc, drop_app_ge by lia. rewrite <- (IH i Hi). f_equal. f_equal. lia.
Qed.

(** The standard slots and the established timings, at their offsets. *)
Lemma base_middle hi lo identity established modes detailed ext :
  length established = 3%nat ->
  drop 35 (base_layout [hi; lo] identity established modes detailed ext)
  = established ++ standard_slots modes detailed ++ concat (descriptor detailed <$> seq 0 4) ++ [ext; 0].
Proof. intros He. reflexivity. Qed.

Lemma base_established hi lo identity established modes detailed ext byte v :
  length established = 3%nat -> established !! byte = Some v ->
  take 1 (drop (35 + byte) (base_layout [hi; lo] identity established modes detailed ext)) = [v].
Proof.
  intros He Hv. rewrite <- drop_drop, base_middle by done. apply lookup_lt_Some in Hv as Hlt.
  rewrite drop_app_le by lia. rewrite take_app_le by (rewrite length_drop; lia).
  by rewrite (drop_S _ v).
Qed.

Lemma base_standard hi lo identity established modes detailed ext i x :
  length established = 3%nat -> (i < 8)%nat -> standard_items modes detailed !! i = Some x ->
  take 2 (drop (38 + 2 * i) (base_layout [hi; lo] identity established modes detailed ext)) = x.
Proof.
  intros He Hi Hx. replace (38 + 2 * i)%nat with (35 + (3 + 2 * i))%nat by lia.
  rewrite <- drop_drop, base_middle by done. rewrite <- drop_drop, drop_past by done.
  unfold standard_slots. rewrite <- app_assoc. apply concat_chunk.
  - apply Forall_take, standard_items_length.
  - by rewrite lookup_take_lt.
Qed.

Lemma filter_In_2 {A} (p : A -> bool) l x : x ∈ l -> p x = true -> x ∈ List.filter p l.
Proof. rewrite !list_elem_of_In, List.filter_In. auto. Qed.

(** No mode is lost: when at most three modes after the preferred one fit
    neither an established nor a standard timing, a sink that reads the base
    block finds every requested mode, as a detailed timing that decodes to its
    timing, as its established-timing bit, or in a standard-timing slot (the
    eight slots always suffice for the supported modes). *)
Theorem edid_advertises_modes `{Unicode, Sha256} rq g mode :
  sha256_ok -> pnp_ok (rq_pnp_id rq) -> build_cast_display_edid rq = Ok g ->
  (length (List.filter only_detailed (tail (rq_modes rq))) <= 3)%nat ->
  mode ∈ rq_modes rq -> advertises (ge_edid g) mode.
Proof.
  intros Hs Hp Hb Hfew Hin. destruct (build_built rq g Hs Hp Hb) as [(_ & _ & Hsup & Hnd & _) _ _
    (first & rest & t & hi & lo & est & det & did & Hm & Ht & _ & Hest & Hel & Hsel & _ & _ & Hg)].
  set (modes := rq_modes rq) in *. rewrite Hg.
  pose proof (length_base_layout hi lo (ge_identity g) est modes det (1 + Z.of_nat (length did)) Hel) as Hbl.
  rewrite Hm in Hsel, Hfew. destruct (select_ok first rest) as (extra & Hsel' & Hdl & Hsub).
  rewrite Hsel in Hsel'. injection Hsel' as Hdet. cbn [tail] in Hfew. rewrite <- Hdet in Hdl.
  destruct (decide (mode ∈ det)) as [Hd|Hd].
  { left. apply list_elem_of_lookup_1 in Hd as [i Hi]. apply lookup_lt_Some in Hi as Hlt.
    eapply Forall_forall in Hsup as [tm Htm]; [|exact Hin]. exists i, tm. split_and!; [lia|done|].
    rewrite base_field, base_descriptor by (done || lia). unfold descriptor. rewrite Hi, Htm. cbn.
    by apply decode_dtd_timing in Htm as [? _]. }
  destruct (established_timing_bit mode) as [[byte bit]|] eqn:He.
  { right; left. destruct (oks_some _ _ (write_established_ok [0; 0; 0] modes eq_refl))
      as (est' & Hest' & _ & _ & Hbits). rewrite Hest in Hest'. injection Hest' as <-.
    destruct (Hbits mode byte bit Hin He) as (v & Hv & Hbit). exists byte, bit, v.
    apply established_cases in He as ?. split_and!; [done| |done].
    rewrite base_field by (done || lia). by apply base_established. }
  right; right. destruct (standard_timing mode) as [x|] eqn:Hx.
  - assert (x ∈ standard_items modes det) as Hitem.
    { apply list_elem_of_omap. exists mode. split; [|done].
      apply filter_In_2; [|by rewrite He]. apply filter_In_2; [done|].
      by rewrite bool_decide_eq_false_2. }
    apply list_elem_of_lookup_1 in Hitem as [i Hi]. apply lookup_lt_Some in Hi as Hlt.
    pose proof (standard_items_eight modes det Hsup Hnd).
    exists i, x. split_and!; [lia|done|]. rewrite base_field by (done || lia).
    apply base_standard; [done|lia|done].
  - exfalso. apply Hd. rewrite Hdet. rewrite Hm in Hin. apply elem_of_cons in Hin as [->|Hr];
      [by constructor|]. apply elem_of_cons. right. apply elem_of_app. left.
    rewrite take_ge by done. apply filter_In_2; [done|]. unfold only_detailed. by rewrite He, Hx.
Qed.

(** ** A request *)

Definition constant_sha256 : Sha256 := {| sha256 := fun _ => (fun n => 1 + Z.of_nat n) <$> seq 0 32 |}.

Lemma constant_sha256_ok : sha256_ok (H := constant_sha256).
Proof. intros m. split; [reflexivity|]. apply bytes_okb_ok. vm_compute. reflexivity. Qed.

Definition ex_request : CastDisplayEdidRequest :=
  let mode w h r := {| width := w; height := h; refresh_millihz := r |} in
  {| rq_pnp_id := codes "GGL"; rq_manufacturer_name := Some (codes "Google, Inc.");
     rq_product_name := Some (codes "Chromecast"); rq_display_name := Some (codes "Living Room TV");
     rq_backend_id := codes "cast"; rq_device_id := codes "living-room";
     rq_modes := [mode 1920 1080 60000; mode 3840 2160 30000; mode 2560 1440 60000;
                  mode 1366 768 60000; mode 1680 1050 60000; mode 1280 720 60000;
                  mode 800 600 60000; mode 640 480 60000];
     rq_audio := true; rq_cec_physical_address := Some 0x1000 |}.

Lemma ex_pnp_ok : pnp_ok (rq_pnp_id ex_request).
Proof. split; [reflexivity|]. repeat constructor; discriminate. Qed.

Lemma edid_build_total_witness :
  exists g, build_cast_display_edid (H := ascii_unicode) (H0 := constant_sha256) ex_request = Ok g /\
    edid_framed (ge_edid g).
Proof.
  destruct (build_cast_display_edid (H := ascii_unicode) (H0 := constant_sha256) ex_request)
    as [g| |] eqn:E; [|vm_compute in E; discriminate..].
  exists g. split; [reflexivity|].
  exact (proj1 (proj2 (proj2 (proj2 (edid_build_total (H := ascii_unicode) (H0 := constant_sha256)
    ex_request constant_sha256_ok ex_pnp_ok))) g E)).
Defined.

Lemma edid_describes_request_witness :
  exists g, build_cast_display_edid (H := ascii_unicode) (H0 := constant_sha256) ex_request = Ok g /\
    pnp_id (ge_identity g) = codes "GGL".
Proof.
  destruct (build_cast_display_edid (H := ascii_unicode) (H0 := constant_sha256) ex_request)
    as [g| |] eqn:E; [|vm_compute in E; discriminate..].
  exists g. split; [reflexivity|].
  exact (proj1 (edid_describes_request (H := ascii_unicode) (H0 := constant_sha256) ex_request g
    constant_sha256_ok ex_pnp_ok E)).
Defined.

Lemma edid_advertises_modes_witness :
  exists g, build_cast_display_edid (H := ascii_unicode) (H0 := constant_sha256) ex_request = Ok g /\
    advertises (ge_edid g) {| width := 1680; height := 1050; refresh_millihz := 60000 |}.
Proof.
  destruct (build_cast_display_edid (H := ascii_unicode) (H0 := constant_sha256) ex_request)
    as [g| |] eqn:E; [|vm_compute in E; discriminate..].
  exists g. split; [reflexivity|].
  apply (edid_advertises_modes (H := ascii_unicode) (H0 := constant_sha256) ex_request g _
    constant_sha256_ok ex_pnp_ok E).
  - apply Nat.leb_le. vm_compute. reflexivity.
  - cbn. do 4 right. left.
Defined.
