(* ===== verification/Feedback.v ===== *)
(** * Video feedback control (crates/pronk-chromiacast/src/feedback.rs)

    The generation-local adaptation policy of the Cast backend: from what the
    transport reports about congestion it decides when to ask the encoder for
    a key frame, which bitrate to encode at, and which playout delay to ask the
    receiver for.  The controller holds no handle; the actions it returns are
    applied by its caller.  The pressure record is that of transport.rs.

    The theorems are about every sequence of observations: bounds and pacing of
    the actions, convergence of the bitrate under sustained congestion and its
    recovery, and the retry budget of playout-delay updates. *)

From S2P Require Import Prelude Bytes Time.

Definition DEFAULT_BITRATE_FLOOR : Z := 250000.
Definition KEY_FRAME_REQUEST_INTERVAL : Z := from_millis 500.
Definition BITRATE_EVALUATION_INTERVAL : Z := from_secs 1.
Definition BITRATE_RECOVERY_INTERVAL : Z := from_secs 5.
Definition LOSS_DECREASE_THRESHOLD : Z := 26.
Definition LOSS_RECOVERY_THRESHOLD : Z := 5.
Definition PLAYOUT_DELAY_STEP : Z := from_millis 33.
Definition MAXIMUM_PLAYOUT_DELAY : Z := from_millis 250.
Definition PLAYOUT_ADJUSTMENT_INTERVAL : Z := from_secs 1.
Definition PLAYOUT_UPDATE_RETRY_INTERVAL : Z := from_secs 2.
Definition MAXIMUM_PLAYOUT_UPDATE_ATTEMPTS : Z := 3.
Definition PLAYOUT_RECOVERY_INTERVAL : Z := from_secs 15.
Definition RTT_PLAYOUT_MULTIPLIER : Z := 3.

(** The functions here return no [Result]; what can happen besides a value is a
    panic. *)
Abbreviation panics := (outcome Empty_set).

(** ** Data *)

Record VideoTransportPressure := {
  in_flight_frames : Z;
  in_flight_media_duration : Z;
  max_acceptable_in_flight_duration : Z;
  current_rtt : option Z;
  receiver_playout_delay : option Z;
  nack_count : Z;
  frames_dropped_or_skipped : Z;
  fraction_lost : option Z }.

Definition queue_saturated (p : VideoTransportPressure) : bool :=
  negb (max_acceptable_in_flight_duration p =? 0)
  && (max_acceptable_in_flight_duration p <=? in_flight_media_duration p).

(** The fields of the sender's feedback that the controller reads. *)
Record VideoSenderFeedbackSnapshot := {
  key_frame_requests : Z;
  pressure : option VideoTransportPressure }.

Record AdaptivePlayoutDelayConfiguration := {
  cfg_minimum : Z; cfg_initial : Z; cfg_receiver_maximum : option Z }.

Inductive VideoFeedbackAction :=
  | ForceKeyFrame
  | SetBitrate (bitrate : Z)
  | SetPlayoutDelay (delay : Z)
  | DisableAdaptivePlayoutDelay (requested : Z) (receiver : option Z).

Record AdaptivePlayoutDelayController := {
  minimum : Z;
  maximum : Z;
  pd_current : Z;
  evaluated_nack_count : Z;
  pd_evaluated_transport_drops : Z;
  step_increase_pending : bool;
  confirmed : bool;
  stable_since : option Z;
  last_adjustment : option Z;
  last_update_sent : option Z;
  update_attempts : Z;
  updates_enabled : bool }.

Record VideoFeedbackController := {
  ceiling : Z;
  floor : Z;
  current : Z;
  observed_key_frame_requests : Z;
  evaluated_transport_drops : Z;
  last_key_frame_action : option Z;
  last_bitrate_evaluation : option Z;
  last_bitrate_change : option Z;
  playout_delay : option AdaptivePlayoutDelayController }.

(** ** Time *)

Definition whole_milliseconds (duration : Z) : Z :=
  let milliseconds :=
    saturating_add64
      (saturating_add64 (Z.min (duration / NANOS * 1000) u64_MAX) (duration mod NANOS / 1000000))
      (if (duration mod NANOS) mod 1000000 =? 0 then 0 else 1) in
  from_millis milliseconds.

Definition elapsed_at_least (previous : option Z) (now interval : Z) : bool :=
  match previous with
  | None => true
  | Some previous =>
      match checked_duration_since now previous with
      | Some elapsed => interval <=? elapsed
      | None => false
      end
  end.

(** ** Playout delay *)

Definition playout_new (configuration : AdaptivePlayoutDelayConfiguration)
    : AdaptivePlayoutDelayController :=
  {| minimum := Z.min (cfg_minimum configuration) (cfg_initial configuration);
     maximum := Z.max (Z.min (default MAXIMUM_PLAYOUT_DELAY (cfg_receiver_maximum configuration))
                             MAXIMUM_PLAYOUT_DELAY) (cfg_initial configuration);
     pd_current := cfg_initial configuration;
     evaluated_nack_count := 0; pd_evaluated_transport_drops := 0;
     step_increase_pending := false; confirmed := false; stable_since := None;
     last_adjustment := None; last_update_sent := None; update_attempts := 0;
     updates_enabled := true |}.

Definition set_current (p : AdaptivePlayoutDelayController) (requested now : Z)
    : AdaptivePlayoutDelayController * VideoFeedbackAction :=
  ({| minimum := minimum p; maximum := maximum p; pd_current := requested;
      evaluated_nack_count := evaluated_nack_count p;
      pd_evaluated_transport_drops := pd_evaluated_transport_drops p;
      step_increase_pending := step_increase_pending p; confirmed := false; stable_since := None;
      last_adjustment := Some now; last_update_sent := Some now; update_attempts := 1;
      updates_enabled := updates_enabled p |}, SetPlayoutDelay requested).

(** The bookkeeping before the receiver's delay is looked at. *)
Definition note_pressure (p : AdaptivePlayoutDelayController) (pressure : VideoTransportPressure)
    (step_pressure unstable : bool) : AdaptivePlayoutDelayController :=
  {| minimum := minimum p; maximum := maximum p; pd_current := pd_current p;
     evaluated_nack_count := nack_count pressure;
     pd_evaluated_transport_drops := frames_dropped_or_skipped pressure;
     step_increase_pending := step_increase_pending p || step_pressure;
     confirmed := confirmed p;
     stable_since := if unstable then None else stable_since p;
     last_adjustment := last_adjustment p; last_update_sent := last_update_sent p;
     update_attempts := update_attempts p; updates_enabled := updates_enabled p |}.

(** The receiver does not report the requested delay: send it again after a
    while, and give up after the last attempt. *)
Definition await_receiver (p : AdaptivePlayoutDelayController) (receiver : option Z) (now : Z)
    : panics (AdaptivePlayoutDelayController * option VideoFeedbackAction) :=
  let sent := default now (last_update_sent p) in
  let p' sent attempts enabled :=
    {| minimum := minimum p; maximum := maximum p; pd_current := pd_current p;
       evaluated_nack_count := evaluated_nack_count p;
       pd_evaluated_transport_drops := pd_evaluated_transport_drops p;
       step_increase_pending := step_increase_pending p; confirmed := false; stable_since := None;
       last_adjustment := last_adjustment p; last_update_sent := Some sent;
       update_attempts := attempts; updates_enabled := enabled |} in
  if elapsed_at_least (Some sent) now PLAYOUT_UPDATE_RETRY_INTERVAL then
    if MAXIMUM_PLAYOUT_UPDATE_ATTEMPTS <=? update_attempts p
    then Ok (p' now (update_attempts p) false,
             Some (DisableAdaptivePlayoutDelay (pd_current p) receiver))
    else if update_attempts p + 1 <? 256
    then Ok (p' now (update_attempts p + 1) (updates_enabled p), Some (SetPlayoutDelay (pd_current p)))
    else Panic
  else Ok (p' sent (update_attempts p) (updates_enabled p), None).

Definition confirm (p : AdaptivePlayoutDelayController) (calm : bool) (now : Z)
    : AdaptivePlayoutDelayController :=
  {| minimum := minimum p; maximum := maximum p; pd_current := pd_current p;
     evaluated_nack_count := evaluated_nack_count p;
     pd_evaluated_transport_drops := pd_evaluated_transport_drops p;
     step_increase_pending := step_increase_pending p; confirmed := true;
     stable_since := if calm then Some (default now (stable_since p)) else stable_since p;
     last_adjustment := last_adjustment p;
     last_update_sent := if confirmed p then last_update_sent p else None;
     update_attempts := if confirmed p then update_attempts p else 0;
     updates_enabled := updates_enabled p |}.

Definition clear_step (p : AdaptivePlayoutDelayController) : AdaptivePlayoutDelayController :=
  {| minimum := minimum p; maximum := maximum p; pd_current := pd_current p;
     evaluated_nack_count := evaluated_nack_count p;
     pd_evaluated_transport_drops := pd_evaluated_transport_drops p;
     step_increase_pending := false; confirmed := confirmed p; stable_since := stable_since p;
     last_adjustment := last_adjustment p; last_update_sent := last_update_sent p;
     update_attempts := update_attempts p; updates_enabled := updates_enabled p |}.

(** The receiver reports the requested delay: raise it under pressure, lower it
    after a calm interval. *)
Definition adjust (p : AdaptivePlayoutDelayController) (required_for_rtt : Z) (lossy : bool) (now : Z)
    : AdaptivePlayoutDelayController * option VideoFeedbackAction :=
  let raise := (step_increase_pending p || (pd_current p <? required_for_rtt))
               && elapsed_at_least (last_adjustment p) now PLAYOUT_ADJUSTMENT_INTERVAL in
  let requested :=
    Z.min (Z.max (if step_increase_pending p
                  then duration_saturating_add (pd_current p) PLAYOUT_DELAY_STEP
                  else pd_current p) required_for_rtt) (maximum p) in
  let p := if raise then clear_step p else p in
  if raise && (pd_current p <? requested) then
    let '(p, action) := set_current p requested now in (p, Some action)
  else if (minimum p <? pd_current p) && negb (step_increase_pending p) && negb lossy
          && elapsed_at_least (stable_since p) now PLAYOUT_RECOVERY_INTERVAL then
    let requested :=
      Z.max (Z.max (duration_saturating_sub (pd_current p) PLAYOUT_DELAY_STEP) required_for_rtt)
            (minimum p) in
    if requested <? pd_current p then
      let '(p, action) := set_current p requested now in (p, Some action)
    else (p, None)
  else (p, None).

Definition playout_observe (p : AdaptivePlayoutDelayController) (pressure : VideoTransportPressure)
    (now : Z) : panics (AdaptivePlayoutDelayController * option VideoFeedbackAction) :=
  if negb (updates_enabled p) then Ok (p, None)
  else
    let new_nack := evaluated_nack_count p <? nack_count pressure in
    let new_transport_drop := pd_evaluated_transport_drops p <? frames_dropped_or_skipped pressure in
    let? required_for_rtt :=
      clamp (default (minimum p)
               ((fun rtt => whole_milliseconds (duration_saturating_mul rtt RTT_PLAYOUT_MULTIPLIER))
                <$> current_rtt pressure)) (minimum p) (maximum p) in
    let step_pressure := new_nack || new_transport_drop in
    let deadline_pressure := step_pressure || (pd_current p <? required_for_rtt) in
    let lossy := match fraction_lost pressure with
                 | Some loss => LOSS_RECOVERY_THRESHOLD <? loss
                 | None => false
                 end in
    let p := note_pressure p pressure step_pressure (deadline_pressure || lossy) in
    if negb (bool_decide (receiver_playout_delay pressure = Some (pd_current p)))
    then await_receiver p (receiver_playout_delay pressure) now
    else
      let p := confirm p (negb deadline_pressure && negb lossy) now in
      Ok (adjust p required_for_rtt lossy now).

(** ** Bitrate and key frames *)

Definition controller_new (configured_bitrate : Z) (receiver_minimum : option Z)
    (playout : option AdaptivePlayoutDelayConfiguration) : panics VideoFeedbackController :=
  let receiver_minimum := default 0 receiver_minimum in
  let? floor := expect (nonzero (Z.min (Z.max receiver_minimum DEFAULT_BITRATE_FLOOR)
                                       configured_bitrate)) in
  Ok {| ceiling := configured_bitrate; floor := floor; current := configured_bitrate;
        observed_key_frame_requests := 0; evaluated_transport_drops := 0;
        last_key_frame_action := None; last_bitrate_evaluation := None;
        last_bitrate_change := None; playout_delay := playout_new <$> playout |}.

Definition decreased_bitrate (c : VideoFeedbackController) : option Z :=
  if current c <=? floor c then None
  else
    let decreased := Z.min (current c * 4) u64_MAX / 5 in
    match nonzero (Z.max decreased (floor c)) with
    | Some value => if value <? current c then Some value else None
    | None => None
    end.

Definition can_recover (c : VideoFeedbackController) (p : VideoTransportPressure) (now : Z) : bool :=
  (current c <? ceiling c)
  && elapsed_at_least (last_bitrate_change c) now BITRATE_RECOVERY_INTERVAL
  && negb (queue_saturated p)
  && match duration_checked_mul (in_flight_media_duration p) 2 with
     | Some duration => duration <=? max_acceptable_in_flight_duration p
     | None => false
     end
  && match fraction_lost p with
     | Some loss => loss <=? LOSS_RECOVERY_THRESHOLD
     | None => true
     end.

Definition increased_bitrate (c : VideoFeedbackController) : option Z :=
  let increment := Z.max (current c / 10) 100000 in
  match nonzero (Z.min (saturating_add64 (current c) increment) (ceiling c)) with
  | Some value => if current c <? value then Some value else None
  | None => None
  end.

Definition overloaded (c : VideoFeedbackController) (p : VideoTransportPressure) : bool :=
  queue_saturated p
  || (evaluated_transport_drops c <? frames_dropped_or_skipped p)
  || match fraction_lost p with
     | Some loss => LOSS_DECREASE_THRESHOLD <=? loss
     | None => false
     end.

Definition observe_pressure (c : VideoFeedbackController) (p : VideoTransportPressure) (now : Z)
    : VideoFeedbackController * list VideoFeedbackAction :=
  if negb (elapsed_at_least (last_bitrate_evaluation c) now BITRATE_EVALUATION_INTERVAL)
  then (c, [])
  else
    let requested :=
      if overloaded c p then decreased_bitrate c
      else if can_recover c p now then increased_bitrate c
      else None in
    ({| ceiling := ceiling c; floor := floor c; current := default (current c) requested;
        observed_key_frame_requests := observed_key_frame_requests c;
        evaluated_transport_drops := frames_dropped_or_skipped p;
        last_key_frame_action := last_key_frame_action c;
        last_bitrate_evaluation := Some now;
        last_bitrate_change := if requested then Some now else last_bitrate_change c;
        playout_delay := playout_delay c |},
     match requested with Some b => [SetBitrate b] | None => [] end).

Definition observe_key_frames (c : VideoFeedbackController) (requests now : Z)
    : VideoFeedbackController * list VideoFeedbackAction :=
  if (observed_key_frame_requests c <? requests)
     && elapsed_at_least (last_key_frame_action c) now KEY_FRAME_REQUEST_INTERVAL
  then ({| ceiling := ceiling c; floor := floor c; current := current c;
           observed_key_frame_requests := requests;
           evaluated_transport_drops := evaluated_transport_drops c;
           last_key_frame_action := Some now;
           last_bitrate_evaluation := last_bitrate_evaluation c;
           last_bitrate_change := last_bitrate_change c;
           playout_delay := playout_delay c |}, [ForceKeyFrame])
  else (c, []).

Definition with_playout (c : VideoFeedbackController) (p : option AdaptivePlayoutDelayController)
    : VideoFeedbackController :=
  {| ceiling := ceiling c; floor := floor c; current := current c;
     observed_key_frame_requests := observed_key_frame_requests c;
     evaluated_transport_drops := evaluated_transport_drops c;
     last_key_frame_action := last_key_frame_action c;
     last_bitrate_evaluation := last_bitrate_evaluation c;
     last_bitrate_change := last_bitrate_change c; playout_delay := p |}.

Definition observe (c : VideoFeedbackController) (feedback : VideoSenderFeedbackSnapshot) (now : Z)
    : panics (VideoFeedbackController * list VideoFeedbackAction) :=
  let '(c, key_frames) := observe_key_frames c (key_frame_requests feedback) now in
  match pressure feedback with
  | None => Ok (c, key_frames)
  | Some p =>
      let '(c, bitrates) := observe_pressure c p now in
      match playout_delay c with
      | None => Ok (c, key_frames ++ bitrates)
      | Some playout =>
          let? '(playout, action) := playout_observe playout p now in
          Ok (with_playout c (Some playout),
              key_frames ++ bitrates ++ match action with Some a => [a] | None => [] end)
      end
  end.

(** ** Runs *)

(** Everything the controller decides over a sequence of observations, with the
    time of each decision. *)
Fixpoint observe_all (c : VideoFeedbackController) (obs : list (VideoSenderFeedbackSnapshot * Z))
    : panics (VideoFeedbackController * list (Z * VideoFeedbackAction)) :=
  match obs with
  | [] => Ok (c, [])
  | (feedback, now) :: obs' =>
      let? '(c, actions) := observe c feedback now in
      let? '(c, later) := observe_all c obs' in
      Ok (c, ((fun a => (now, a)) <$> actions) ++ later)
  end.

Definition key_frame_times (l : list (Z * VideoFeedbackAction)) : list Z :=
  omap (fun e => match e.2 with ForceKeyFrame => Some e.1 | _ => None end) l.
Definition bitrate_changes (l : list (Z * VideoFeedbackAction)) : list (Z * Z) :=
  omap (fun e => match e.2 with SetBitrate b => Some (e.1, b) | _ => None end) l.
Definition delays (l : list (Z * VideoFeedbackAction)) : list Z :=
  omap (fun e => match e.2 with SetPlayoutDelay d => Some d | _ => None end) l.

Definition key_frame_gap (t1 t2 : Z) : Prop := t1 + KEY_FRAME_REQUEST_INTERVAL <= t2.

(** The bitrate goes down at most once per evaluation interval and up at most
    once per recovery interval. *)
Definition bitrate_gap (e1 e2 : Z * Z) : Prop :=
  e2.2 < e1.2 /\ e1.1 + BITRATE_EVALUATION_INTERVAL <= e2.1 \/
  e1.2 < e2.2 /\ e1.1 + BITRATE_RECOVERY_INTERVAL <= e2.1.

(** ** Invariants *)

Definition playout_ok (p : AdaptivePlayoutDelayController) : Prop :=
  minimum p <= pd_current p <= maximum p /\
  0 <= update_attempts p <= MAXIMUM_PLAYOUT_UPDATE_ATTEMPTS.

Definition controller_ok (c : VideoFeedbackController) : Prop :=
  (0 < floor c /\ floor c <= current c <= ceiling c /\ ceiling c <= u64_MAX) /\
  match last_bitrate_change c with
  | Some t => exists t', last_bitrate_evaluation c = Some t' /\ t <= t'
  | None => True
  end /\
  match playout_delay c with Some p => playout_ok p | None => True end.

Definition limits (c : VideoFeedbackController) : Z * Z * option (Z * Z) :=
  (floor c, ceiling c, (fun p => (minimum p, maximum p)) <$> playout_delay c).

Lemma elapsed_some t now interval :
  elapsed_at_least (Some t) now interval = true <-> t <= now /\ t + interval <= now.
Proof.
  unfold elapsed_at_least, checked_duration_since.
  destruct (Z.leb_spec t now); [rewrite Z.leb_le|split; [discriminate|]]; lia.
Qed.

Lemma playout_new_ok cfg : playout_ok (playout_new cfg).
Proof. unfold playout_ok, MAXIMUM_PLAYOUT_UPDATE_ATTEMPTS. simpl. lia. Qed.

(** What one observation does to the playout delay. *)
Definition playout_step_ok (p : AdaptivePlayoutDelayController)
    (r : AdaptivePlayoutDelayController * option VideoFeedbackAction) : Prop :=
  playout_ok r.1 /\ minimum r.1 = minimum p /\ maximum r.1 = maximum p /\
  match r.2 with
  | Some (SetPlayoutDelay d) => d = pd_current r.1
  | Some (DisableAdaptivePlayoutDelay d _) => d = pd_current p /\ updates_enabled r.1 = false
  | Some _ => False
  | None => pd_current r.1 = pd_current p
  end.

Lemma set_current_ok p q requested now :
  minimum q = minimum p -> maximum q = maximum p -> minimum p <= requested <= maximum p ->
  let '(p', action) := set_current q requested now in playout_step_ok p (p', Some action).
Proof.
  intros Hmin Hmax Hr. unfold playout_step_ok, playout_ok, MAXIMUM_PLAYOUT_UPDATE_ATTEMPTS. simpl.
  rewrite Hmin, Hmax. split_and!; (done || lia).
Qed.

Lemma adjust_ok p required lossy now :
  playout_ok p -> minimum p <= required <= maximum p -> playout_step_ok p (adjust p required lossy now).
Proof.
  intros [Hc Ha] Hr. unfold adjust. set (requested := Z.min _ _).
  set (raise := _ && elapsed_at_least (last_adjustment p) _ _).
  set (q := if raise then clear_step p else p).
  assert (minimum q = minimum p /\ maximum q = maximum p /\ pd_current q = pd_current p /\
          update_attempts q = update_attempts p) as (Hmin & Hmax & Hcur & Hatt)
    by (by subst q; destruct raise).
  destruct (raise && _) eqn:E1; [|case_match; [case_match|]].
  - apply set_current_ok; [done..|]. breflect. subst requested. lia.
  - apply set_current_ok; [done..|]. breflect. rewrite Hcur in *. lia.
  - unfold playout_step_ok, playout_ok. simpl. by rewrite Hmin, Hmax, Hcur, Hatt.
  - unfold playout_step_ok, playout_ok. simpl. by rewrite Hmin, Hmax, Hcur, Hatt.
Qed.

Lemma await_receiver_ok p receiver now :
  playout_ok p -> oks (await_receiver p receiver now) (playout_step_ok p).
Proof.
  intros [Hc Ha]. unfold await_receiver, MAXIMUM_PLAYOUT_UPDATE_ATTEMPTS in *.
  cbv zeta. destruct (elapsed_at_least _ _ _);
    [destruct (Z.leb_spec 3 (update_attempts p));
       [|destruct (Z.ltb_spec (update_attempts p + 1) 256)]|]; simpl;
    unfold playout_step_ok, playout_ok, MAXIMUM_PLAYOUT_UPDATE_ATTEMPTS; simpl;
    repeat split; (done || lia).
Qed.

Lemma playout_observe_ok p pressure now :
  playout_ok p -> oks (playout_observe p pressure now) (playout_step_ok p).
Proof.
  intros Hp. unfold playout_observe. destruct (updates_enabled p) eqn:Hen; simpl; [|by split_and!].
  eapply oks_bind; [apply clamp_ok; unfold playout_ok in Hp; lia|].
  intros required Hr. cbv zeta. set (q := note_pressure _ _ _ _).
  assert (playout_ok q) as Hq by (by destruct Hp). case_match.
  - eapply oks_weaken; [by apply await_receiver_ok|]. by intros r.
  - simpl. match goal with |- playout_step_ok _ (adjust ?c _ _ _) => assert (playout_ok c) as Hc end.
    { destruct Hq as [? [? ?]]. split; [done|]. simpl.
      destruct (confirmed p); unfold MAXIMUM_PLAYOUT_UPDATE_ATTEMPTS in *; simpl in *; lia. }
    exact (adjust_ok _ required _ now Hc Hr).
Qed.

Lemma decreased_bitrate_some c b :
  controller_ok c -> decreased_bitrate c = Some b -> floor c <= b < current c.
Proof.
  intros [(Hf & Hc & Hm) _]. unfold decreased_bitrate.
  destruct (Z.leb_spec (current c) (floor c)); [done|]. cbv zeta.
  destruct (nonzero _) as [v|] eqn:Hv; [|done]. apply nonzero_some in Hv as [-> _].
  case_match; [|done]. intros [= <-]. breflect. lia.
Qed.

Lemma increased_bitrate_some c b :
  controller_ok c -> increased_bitrate c = Some b -> current c < b <= ceiling c.
Proof.
  intros _. unfold increased_bitrate. cbv zeta.
  destruct (nonzero _) as [v|] eqn:Hv; [|done]. apply nonzero_some in Hv as [-> _].
  case_match; [|done]. intros [= <-]. breflect. lia.
Qed.

Lemma observe_key_frames_ok c requests now :
  controller_ok c ->
  let '(c', l) := observe_key_frames c requests now in
  controller_ok c' /\ limits c' = limits c /\ last_bitrate_change c' = last_bitrate_change c /\
  current c' = current c /\
  (l = [] /\ last_key_frame_action c' = last_key_frame_action c \/
   l = [ForceKeyFrame] /\ last_key_frame_action c' = Some now /\
   paced key_frame_gap (last_key_frame_action c) [now]).
Proof.
  intros Hc. unfold observe_key_frames. destruct (_ && _) eqn:E; [|by intuition].
  apply andb_true_iff in E as [_ E]. split_and!; try done. right. split_and!; [done..|].
  simpl. split; [|done]. destruct (last_key_frame_action c); [|done].
  apply elapsed_some in E. unfold key_frame_gap. lia.
Qed.

(** The last change of bitrate, as [bitrate_gap] sees it. *)
Definition last_change (c : VideoFeedbackController) : option (Z * Z) :=
  (fun t => (t, current c)) <$> last_bitrate_change c.

Lemma observe_pressure_ok c p now :
  controller_ok c ->
  let '(c', l) := observe_pressure c p now in
  controller_ok c' /\ limits c' = limits c /\ playout_delay c' = playout_delay c /\
  last_key_frame_action c' = last_key_frame_action c /\
  (l = [] /\ last_change c' = last_change c \/
   exists b, l = [SetBitrate b] /\ floor c <= b <= ceiling c /\
     last_change c' = Some (now, b) /\ paced bitrate_gap (last_change c) [(now, b)]).
Proof.
  intros Hc. pose proof Hc as ((Hf & Hcur & Hm) & Hlast & Hp). unfold observe_pressure.
  destruct (elapsed_at_least (last_bitrate_evaluation c) now _) eqn:He; simpl; [|by intuition].
  assert (forall t, last_bitrate_change c = Some t -> t + BITRATE_EVALUATION_INTERVAL <= now) as Hchg.
  { intros t Ht. rewrite Ht in Hlast. destruct Hlast as (t' & Ht' & ?). rewrite Ht' in He.
    apply elapsed_some in He. lia. }
  set (requested := if overloaded c p then _ else _).
  assert (match requested with
          | Some b => floor c <= b <= ceiling c /\ paced bitrate_gap (last_change c) [(now, b)]
          | None => True
          end) as Hreq.
  { subst requested. destruct (overloaded c p).
    - destruct (decreased_bitrate c) as [b|] eqn:Hb; [|done].
      apply (decreased_bitrate_some _ _ Hc) in Hb. split; [lia|]. unfold last_change. simpl.
      split; [|done]. destruct (last_bitrate_change c) as [t|]; [|done]. left. simpl.
      specialize (Hchg t eq_refl). lia.
    - destruct (can_recover c p now) eqn:Hrec; [|done].
      destruct (increased_bitrate c) as [b|] eqn:Hb; [|done].
      apply (increased_bitrate_some _ _ Hc) in Hb. split; [lia|]. unfold last_change. simpl.
      split; [|done]. destruct (last_bitrate_change c) as [t|] eqn:Ht; [|done]. right.
      unfold can_recover in Hrec. rewrite Ht in Hrec.
      do 3 (apply andb_true_iff in Hrec as [Hrec _]). apply andb_true_iff in Hrec as [_ Hrec].
      apply elapsed_some in Hrec. simpl. lia. }
  destruct requested as [b|]; simpl.
  - split_and!; [|done|done|done|].
    + unfold controller_ok. simpl. split_and!; try lia; [|done]. exists now. split; [done|lia].
    + right. exists b. destruct Hreq. done.
  - split_and!; [|done|done|done|by left].
    unfold controller_ok. simpl. split_and!; try lia; [|done].
    destruct (last_bitrate_change c) as [t|] eqn:Ht; [|done]. exists now. split; [done|].
    specialize (Hchg t eq_refl). unfold BITRATE_EVALUATION_INTERVAL, from_secs, NANOS in Hchg. lia.
Qed.

(** Every action stays within the limits the controller was made with. *)
Definition action_ok (lim : Z * Z * option (Z * Z)) (e : Z * VideoFeedbackAction) : Prop :=
  match e.2 with
  | ForceKeyFrame => True
  | SetBitrate b => lim.1.1 <= b <= lim.1.2
  | SetPlayoutDelay d | DisableAdaptivePlayoutDelay d _ =>
      match lim.2 with Some (lo, hi) => lo <= d <= hi | None => False end
  end.

Definition step_ok (c : VideoFeedbackController) (now : Z)
    (r : VideoFeedbackController * list VideoFeedbackAction) : Prop :=
  let e := (fun a => (now, a)) <$> r.2 in
  controller_ok r.1 /\ limits r.1 = limits c /\ Forall (action_ok (limits c)) e /\
  (key_frame_times e = [] /\ last_key_frame_action r.1 = last_key_frame_action c \/
   key_frame_times e = [now] /\ last_key_frame_action r.1 = Some now /\
   paced key_frame_gap (last_key_frame_action c) [now]) /\
  (bitrate_changes e = [] /\ last_change r.1 = last_change c \/
   exists b, bitrate_changes e = [(now, b)] /\ last_change r.1 = Some (now, b) /\
     paced bitrate_gap (last_change c) [(now, b)]).

Lemma observe_ok c feedback now :
  controller_ok c -> oks (observe c feedback now) (step_ok c now).
Proof.
  intros Hc. unfold observe.
  pose proof (observe_key_frames_ok c (key_frame_requests feedback) now Hc) as H1.
  destruct (observe_key_frames _ _ _) as [c1 l1]. destruct H1 as (Hc1 & Hl1 & Hb1 & Hcur1 & Hk).
  assert (last_change c1 = last_change c) as Hch by (unfold last_change; by rewrite Hb1, Hcur1).
  destruct (pressure feedback) as [p|]; simpl.
  2:{ unfold step_ok. simpl. split_and!; [done|done|..|by left; destruct Hk as [[-> _]|[-> _]]].
      - destruct Hk as [[-> _]|(-> & _)]; repeat constructor.
      - destruct Hk as [[-> ?]|(-> & ? & ?)]; [by left|by right]. }
  pose proof (observe_pressure_ok c1 p now Hc1) as H2.
  destruct (observe_pressure c1 p now) as [c2 l2].
  destruct H2 as (Hc2 & Hl2 & Hp2 & Hkf2 & Hb). rewrite Hch in Hb.
  assert (limits c2 = limits c) as Hl by congruence.
  assert (floor c1 = floor c /\ ceiling c1 = ceiling c) as [Hf1 Hce1] by (by injection Hl1).
  rewrite Hf1, Hce1 in Hb.
  assert (forall c3 l3, controller_ok c3 -> limits c3 = limits c ->
    last_key_frame_action c3 = last_key_frame_action c2 -> last_change c3 = last_change c2 ->
    Forall (action_ok (limits c)) ((fun a => (now, a)) <$> l3) ->
    key_frame_times ((fun a => (now, a)) <$> l3) = [] ->
    bitrate_changes ((fun a => (now, a)) <$> l3) = [] ->
    step_ok c now (c3, l1 ++ l2 ++ l3)) as Hfinish.
  { intros c3 l3 Hc3 Hl3 Hk3 Hb3 Ha3 Hkt3 Hbt3. unfold step_ok. simpl.
    rewrite Hk3, Hb3, Hkf2. unfold key_frame_times, bitrate_changes in *.
    rewrite !fmap_app, !omap_app, Hkt3, Hbt3.
    split; [done|split; [done|split]].
    - rewrite !Forall_app. split_and!; [| |done].
      + destruct Hk as [[-> _]|(-> & _)]; repeat constructor.
      + destruct Hb as [[-> _]|(b & -> & ? & _)]; repeat constructor; simpl; lia.
    - destruct Hk as [[-> ?]|(-> & ? & ?)], Hb as [[-> ?]|(b & -> & ? & ? & ?)]; simpl; eauto 10. }
  destruct (playout_delay c2) as [q|] eqn:Hq; simpl.
  - assert (playout_ok q) as Hqok by (destruct Hc2 as (_ & _ & H); by rewrite Hq in H).
    eapply oks_bind; [by apply playout_observe_ok|]. intros [q' action] (Hq' & Hmin & Hmax & Ha).
    simpl in *. assert (limits (with_playout c2 (Some q')) = limits c) as Hl3.
    { rewrite <- Hl. unfold limits. simpl. by rewrite Hq, Hmin, Hmax. }
    assert (Some (minimum q, maximum q) = (limits c).2) as Hlim.
    { rewrite <- Hl. unfold limits. simpl. by rewrite Hq. }
    apply Hfinish; try done.
    + destruct Hc2 as (? & ? & _). by split.
    + destruct action as [[]|]; try done; repeat constructor; unfold action_ok; simpl in *;
        rewrite <- Hlim; unfold playout_ok in *; destruct_and?; subst; lia.
    + by destruct action as [[]|].
    + by destruct action as [[]|].
  - replace (l1 ++ l2) with (l1 ++ l2 ++ []) by (by rewrite app_nil_r).
    apply Hfinish; try done; constructor.
Qed.

Lemma observe_all_ok c obs :
  controller_ok c ->
  oks (observe_all c obs) (fun r =>
    controller_ok r.1 /\ limits r.1 = limits c /\ Forall (action_ok (limits c)) r.2 /\
    paced key_frame_gap (last_key_frame_action c) (key_frame_times r.2) /\
    paced bitrate_gap (last_change c) (bitrate_changes r.2)).
Proof.
  revert c. induction obs as [|[feedback now] obs IH]; intros c Hc; simpl.
  { by split_and!. }
  eapply oks_bind; [by apply observe_ok|]. intros [c1 l1] (Hc1 & Hl1 & Ha1 & Hk1 & Hb1).
  eapply oks_bind; [by apply IH|]. intros [c2 l2] (Hc2 & Hl2 & Ha2 & Hk2 & Hb2). simpl in *.
  rewrite Hl1 in *. unfold key_frame_times, bitrate_changes in *. rewrite !omap_app, !paced_app.
  split_and!; try done.
  - by apply Forall_app.
  - destruct Hk1 as [[-> ?]|(-> & ? & ?)]; done.
  - destruct Hk1 as [[-> E]|(-> & E & ?)]; simpl; by rewrite <- ?E.
  - destruct Hb1 as [[-> ?]|(b & -> & ? & ?)]; done.
  - destruct Hb1 as [[-> E]|(b & -> & E & ?)]; simpl; by rewrite <- ?E.
Qed.

Lemma controller_new_ok bitrate receiver_minimum playout :
  0 < bitrate <= u64_MAX -> 0 <= default 0 receiver_minimum ->
  oks (controller_new bitrate receiver_minimum playout) (fun c =>
    controller_ok c /\ current c = bitrate /\ ceiling c = bitrate /\
    floor c = Z.min (Z.max (default 0 receiver_minimum) DEFAULT_BITRATE_FLOOR) bitrate /\
    last_key_frame_action c = None /\ last_change c = None /\
    playout_delay c = playout_new <$> playout).
Proof.
  intros Hb Hr. unfold controller_new. cbv zeta.
  rewrite nonzero_ne by (unfold DEFAULT_BITRATE_FLOOR; lia). simpl. split_and!; try done.
  unfold controller_ok, DEFAULT_BITRATE_FLOOR. simpl. split_and!; try lia; try done.
  destruct playout; [apply playout_new_ok|done].
Qed.

(** C38: Adaptation stays within its limits and its pace.  For every nonzero
    64-bit bitrate, receiver minimum and playout configuration, and every
    sequence of observations at any times, the controller never panics; every
    bitrate it sets is between the floor (the receiver's minimum or 250 kbit/s,
    never above the configured bitrate) and the configured bitrate; every
    playout delay it asks for is between the configured minimum and the larger
    of the initial delay and 250 ms; key frames are forced at least half a
    second apart, the bitrate is lowered at most once a second and raised only
    five seconds after its last change. *)
Theorem feedback_bounded bitrate receiver_minimum playout obs :
  0 < bitrate <= u64_MAX -> 0 <= default 0 receiver_minimum ->
  exists c0 c actions,
    controller_new bitrate receiver_minimum playout = Ok c0 /\
    observe_all c0 obs = Ok (c, actions) /\
    Z.min (Z.max (default 0 receiver_minimum) DEFAULT_BITRATE_FLOOR) bitrate <= current c <= bitrate /\
    (forall t b, (t, SetBitrate b) ∈ actions ->
       Z.min (Z.max (default 0 receiver_minimum) DEFAULT_BITRATE_FLOOR) bitrate <= b <= bitrate) /\
    (forall t d, (t, SetPlayoutDelay d) ∈ actions ->
       exists cfg, playout = Some cfg /\
         Z.min (cfg_minimum cfg) (cfg_initial cfg) <= d <= Z.max MAXIMUM_PLAYOUT_DELAY (cfg_initial cfg)) /\
    paced key_frame_gap None (key_frame_times actions) /\
    paced bitrate_gap None (bitrate_changes actions).
Proof.
  intros Hb Hr. pose proof (controller_new_ok bitrate receiver_minimum playout Hb Hr) as H0.
  apply oks_ok in H0 as (c0 & E0 & Hc0 & Hcur & Hceil & Hfloor & Hk & Hch & Hp).
  pose proof (observe_all_ok c0 obs Hc0) as H1.
  apply oks_ok in H1 as ([c l] & E1 & Hc & Hl & Ha & Hkp & Hbp). simpl in *.
  exists c0, c, l. split; [done|split; [done|]]. rewrite <- Hfloor, <- Hceil. rewrite Hk in Hkp. rewrite Hch in Hbp.
  assert (floor c = floor c0 /\ ceiling c = ceiling c0) as [Hf Hce] by (by injection Hl).
  rewrite Forall_forall in Ha. split_and!; try done.
  - destruct Hc as [(? & ? & ?) _]. lia.
  - destruct Hc as [(? & ? & ?) _]. lia.
  - intros t b Hin. exact (Ha _ Hin).
  - intros t d Hin. specialize (Ha _ Hin). unfold action_ok in Ha. simpl in Ha.
    rewrite Hp in Ha. destruct playout as [cfg|]; [|done]. exists cfg. split; [done|].
    simpl in Ha. lia.
Qed.

(** ** Convergence of the bitrate *)

(** Congestion that does not depend on what was observed before. *)
Definition congested (p : VideoTransportPressure) : bool :=
  queue_saturated p || match fraction_lost p with
                       | Some loss => LOSS_DECREASE_THRESHOLD <=? loss
                       | None => false
                       end.

(** A transport with room and without loss, whose drop counter stands at [k]. *)
Definition calm (k : Z) (p : VideoTransportPressure) : bool :=
  negb (queue_saturated p)
  && (in_flight_media_duration p * 2 <=? DURATION_MAX)
  && (in_flight_media_duration p * 2 <=? max_acceptable_in_flight_duration p)
  && match fraction_lost p with Some loss => loss <=? LOSS_RECOVERY_THRESHOLD | None => true end
  && (frames_dropped_or_skipped p =? k).

(** Observations of the pressures [l] at the given times, no key frame asked. *)
Definition pressures (l : list (VideoTransportPressure * Z)) : list (VideoSenderFeedbackSnapshot * Z) :=
  (fun e => ({| key_frame_requests := 0; pressure := Some e.1 |}, e.2)) <$> l.

Definition apart (gap t1 t2 : Z) : Prop := t1 + gap <= t2.

Lemma observe_bitrate c requests p now :
  controller_ok c -> elapsed_at_least (last_bitrate_evaluation c) now BITRATE_EVALUATION_INTERVAL = true ->
  oks (observe c {| key_frame_requests := requests; pressure := Some p |} now) (fun r =>
    controller_ok r.1 /\ limits r.1 = limits c /\ last_bitrate_evaluation r.1 = Some now /\
    evaluated_transport_drops r.1 = frames_dropped_or_skipped p /\
    current r.1 = default (current c) (if overloaded c p then decreased_bitrate c
                                       else if can_recover c p now then increased_bitrate c else None)).
Proof.
  intros Hc He. pose proof (observe_ok c {| key_frame_requests := requests; pressure := Some p |} now Hc) as H.
  revert H. unfold observe. simpl.
  assert (exists c1 l1, observe_key_frames c requests now = (c1, l1) /\
    last_bitrate_evaluation c1 = last_bitrate_evaluation c /\ overloaded c1 p = overloaded c p /\
    decreased_bitrate c1 = decreased_bitrate c /\ can_recover c1 p now = can_recover c p now /\
    increased_bitrate c1 = increased_bitrate c /\ current c1 = current c) as (c1 & l1 & -> & E1 & E2 & E3 & E4 & E5 & E6)
    by (unfold observe_key_frames; case_match; eauto 12).
  unfold observe_pressure. rewrite E1, He, E2, E3, E4, E5, E6. cbn [negb playout_delay].
  destruct (playout_delay c1) as [q|].
  - destruct (playout_observe q p now) as [[q' a]| |]; simpl; [|done|done].
    intros (? & ? & _). by split_and!.
  - intros (? & ? & _). by split_and!.
Qed.

Lemma congested_step c p now :
  controller_ok c -> elapsed_at_least (last_bitrate_evaluation c) now BITRATE_EVALUATION_INTERVAL = true ->
  congested p = true ->
  oks (observe c {| key_frame_requests := 0; pressure := Some p |} now) (fun r =>
    controller_ok r.1 /\ limits r.1 = limits c /\ last_bitrate_evaluation r.1 = Some now /\
    5 * current r.1 <= Z.max (5 * floor c) (4 * current c)).
Proof.
  intros Hc He Hp. eapply oks_weaken; [by apply observe_bitrate|].
  intros r (Hr & Hl & Ht & _ & Hcur). split_and!; try done. rewrite Hcur.
  replace (overloaded c p) with true.
  2:{ unfold congested, overloaded in *. destruct (queue_saturated p); [done|].
      simpl in *. rewrite Hp. by rewrite orb_true_r. }
  destruct Hc as [(Hf & Hb & Hm) _]. unfold decreased_bitrate.
  destruct (Z.leb_spec (current c) (floor c)); [simpl; lia|]. cbv zeta.
  rewrite nonzero_ne by lia.
  assert (Z.min (current c * 4) u64_MAX / 5 <= current c * 4 / 5)
    by (apply Z.div_le_mono; lia).
  assert (5 * (current c * 4 / 5) <= current c * 4) by (apply Z.mul_div_le; lia).
  destruct (Z.ltb_spec (Z.max (Z.min (current c * 4) u64_MAX / 5) (floor c)) (current c)); simpl; lia.
Qed.

Lemma congested_run c l :
  controller_ok c -> Forall (fun e => congested e.1 = true) l ->
  paced (apart BITRATE_EVALUATION_INTERVAL) (last_bitrate_evaluation c) l.*2 ->
  oks (observe_all c (pressures l)) (fun r =>
    controller_ok r.1 /\ limits r.1 = limits c /\
    5 ^ Z.of_nat (length l) * current r.1
      <= Z.max (5 ^ Z.of_nat (length l) * floor c) (4 ^ Z.of_nat (length l) * current c)).
Proof.
  intros Hc Hl. revert c Hc. induction Hl as [|[p now] l Hp Hl IH]; intros c Hc Hpace.
  { split_and!; try done. simpl. lia. }
  destruct Hpace as [Hgap Hpace]. cbn [pressures fmap list_fmap observe_all].
  assert (elapsed_at_least (last_bitrate_evaluation c) now BITRATE_EVALUATION_INTERVAL = true) as He.
  { destruct (last_bitrate_evaluation c); [|done]. apply elapsed_some.
    unfold apart, BITRATE_EVALUATION_INTERVAL, from_secs, NANOS in *. simpl in *. lia. }
  eapply oks_bind; [by apply congested_step|]. intros [c1 l1] (Hc1 & Hl1 & Ht1 & Hstep). simpl in *.
  rewrite <- Ht1 in Hpace.
  eapply oks_bind; [by apply IH|]. intros [c2 l2] (Hc2 & Hl2 & Hcur). simpl in *.
  split_and!; [done|congruence|].
  assert (floor c1 = floor c) as Hf by (by injection Hl1).
  change (S (length l)) with (1 + length l)%nat. rewrite Nat2Z.inj_add, !Z.pow_add_r by lia.
  change (5 ^ Z.of_nat 1) with 5. change (4 ^ Z.of_nat 1) with 4. rewrite Hf in Hcur.
  assert (0 < 5 ^ Z.of_nat (length l)) by (apply Z.pow_pos_nonneg; lia).
  assert (0 < 4 ^ Z.of_nat (length l)) by (apply Z.pow_pos_nonneg; lia).
  assert (4 ^ Z.of_nat (length l) <= 5 ^ Z.of_nat (length l)) by (apply Z.pow_le_mono_l; lia).
  destruct (Z.max_spec (5 ^ Z.of_nat (length l) * floor c) (4 ^ Z.of_nat (length l) * current c1)) as [[? E]|[? E]];
    rewrite E in Hcur; destruct (Z.max_spec (5 * floor c) (4 * current c)) as [[? E']|[? E']];
    rewrite E' in Hstep; destruct Hc as [(? & ? & ?) _]; nia.
Qed.

Lemma calm_step c k p now :
  controller_ok c -> elapsed_at_least (last_bitrate_evaluation c) now BITRATE_RECOVERY_INTERVAL = true ->
  calm k p = true -> k <= evaluated_transport_drops c ->
  oks (observe c {| key_frame_requests := 0; pressure := Some p |} now) (fun r =>
    controller_ok r.1 /\ limits r.1 = limits c /\ last_bitrate_evaluation r.1 = Some now /\
    evaluated_transport_drops r.1 = k /\
    Z.min (20 * ceiling c) (21 * current c) <= 20 * current r.1).
Proof.
  intros Hc He Hp Hk. unfold calm in Hp. rewrite !andb_true_iff in Hp.
  destruct Hp as ((((Hq & Hd) & Hroom) & Hloss) & Hdrop). apply Z.eqb_eq in Hdrop as <-.
  assert (elapsed_at_least (last_bitrate_evaluation c) now BITRATE_EVALUATION_INTERVAL = true) as He1.
  { destruct (last_bitrate_evaluation c); [|done]. rewrite elapsed_some in He |- *.
    unfold BITRATE_EVALUATION_INTERVAL, BITRATE_RECOVERY_INTERVAL, from_secs, NANOS in *. lia. }
  eapply oks_weaken; [by apply observe_bitrate|].
  intros r (Hr & Hl & Ht & Hev & Hcur). split_and!; try done. rewrite Hcur.
  replace (overloaded c p) with false.
  2:{ unfold overloaded. apply negb_true_iff in Hq. rewrite Hq. simpl.
      destruct (Z.ltb_spec (evaluated_transport_drops c) (frames_dropped_or_skipped p)); [lia|]. simpl.
      destruct (fraction_lost p); [|done]. unfold LOSS_RECOVERY_THRESHOLD, LOSS_DECREASE_THRESHOLD in *.
      breflect. symmetry. apply Z.leb_gt. lia. }
  destruct Hc as [(Hf & Hb & Hm) [Hlast _]].
  replace (can_recover c p now) with (current c <? ceiling c).
  2:{ unfold can_recover, duration_checked_mul. rewrite Hd, Hroom, Hq, Hloss, !andb_true_r.
      replace (elapsed_at_least (last_bitrate_change c) now BITRATE_RECOVERY_INTERVAL) with true;
        [by rewrite andb_true_r|]. symmetry.
      destruct (last_bitrate_change c) as [t|]; [|done]. destruct Hlast as (t' & Ht' & ?).
      rewrite Ht', elapsed_some in He. apply elapsed_some. lia. }
  destruct (Z.ltb_spec (current c) (ceiling c)); [|simpl; lia].
  unfold increased_bitrate, saturating_add64. cbv zeta. rewrite nonzero_ne by lia.
  assert (current c <= 20 * Z.max (current c / 10) 100000).
  { pose proof (Z.mod_pos_bound (current c) 10). pose proof (Z.div_mod (current c) 10). lia. }
  match goal with |- context [if ?b then _ else _] => destruct b eqn:Hlt end; breflect; simpl; lia.
Qed.

Lemma calm_run c k l :
  controller_ok c -> k <= evaluated_transport_drops c -> Forall (fun e => calm k e.1 = true) l ->
  paced (apart BITRATE_RECOVERY_INTERVAL) (last_bitrate_evaluation c) l.*2 ->
  oks (observe_all c (pressures l)) (fun r =>
    controller_ok r.1 /\ limits r.1 = limits c /\
    Z.min (20 ^ Z.of_nat (length l) * ceiling c) (21 ^ Z.of_nat (length l) * current c)
      <= 20 ^ Z.of_nat (length l) * current r.1).
Proof.
  intros Hc Hk Hl. revert c Hc Hk. induction Hl as [|[p now] l Hp Hl IH]; intros c Hc Hk Hpace.
  { split_and!; try done. simpl. lia. }
  destruct Hpace as [Hgap Hpace]. cbn [pressures fmap list_fmap observe_all].
  assert (elapsed_at_least (last_bitrate_evaluation c) now BITRATE_RECOVERY_INTERVAL = true) as He.
  { destruct (last_bitrate_evaluation c); [|done]. apply elapsed_some.
    unfold apart, BITRATE_RECOVERY_INTERVAL, from_secs, NANOS in *. simpl in *. lia. }
  eapply oks_bind; [by apply (calm_step _ k)|]. intros [c1 l1] (Hc1 & Hl1 & Ht1 & Hev1 & Hstep). simpl in *.
  rewrite <- Ht1 in Hpace.
  eapply oks_bind; [apply IH; [done|lia|done]|]. intros [c2 l2] (Hc2 & Hl2 & Hcur). simpl in *.
  split_and!; [done|congruence|].
  assert (ceiling c1 = ceiling c) as Hf by (by injection Hl1).
  change (S (length l)) with (1 + length l)%nat. rewrite Nat2Z.inj_add, !Z.pow_add_r by lia.
  change (20 ^ Z.of_nat 1) with 20. change (21 ^ Z.of_nat 1) with 21. rewrite Hf in Hcur.
  assert (0 < 20 ^ Z.of_nat (length l)) by (apply Z.pow_pos_nonneg; lia).
  assert (0 < 21 ^ Z.of_nat (length l)) by (apply Z.pow_pos_nonneg; lia).
  assert (20 ^ Z.of_nat (length l) <= 21 ^ Z.of_nat (length l)) by (apply Z.pow_le_mono_l; lia).
  destruct (Z.min_spec (20 ^ Z.of_nat (length l) * ceiling c) (21 ^ Z.of_nat (length l) * current c1)) as [[? E]|[? E]];
    rewrite E in Hcur; destruct (Z.min_spec (20 * ceiling c) (21 * current c)) as [[? E']|[? E']];
    rewrite E' in Hstep; destruct Hc as [(? & ? & ?) _]; nia.
Qed.

(** Rounds that are enough for any 64-bit bitrate. *)
Definition CONGESTION_ROUNDS : nat := 144.
Definition RECOVERY_ROUNDS : nat := 656.

Lemma pow_ratio_mono (a b x y : Z) (m n : nat) :
  0 < a <= b -> 0 <= y -> a ^ Z.of_nat m * x <= b ^ Z.of_nat m * y -> (m <= n)%nat -> 
  a ^ Z.of_nat n * x <= b ^ Z.of_nat n * y.
Proof.
  intros Hab Hy H Hmn. replace n with (m + (n - m))%nat by lia.
  rewrite Nat2Z.inj_add, !Z.pow_add_r by lia.
  assert (0 < a ^ Z.of_nat (n - m)) by (apply Z.pow_pos_nonneg; lia).
  assert (a ^ Z.of_nat (n - m) <= b ^ Z.of_nat (n - m)) by (apply Z.pow_le_mono_l; lia).
  assert (0 <= b ^ Z.of_nat m) by (apply Z.pow_nonneg; lia).
  nia.
Qed.

(** The floor is at least the default one, or there is no room to adapt. *)
Definition floor_set (c : VideoFeedbackController) : Prop :=
  DEFAULT_BITRATE_FLOOR <= floor c \/ floor c = ceiling c.

(** C37: Adaptation converges.  After any history, a transport that stays
    congested at [CONGESTION_ROUNDS] evaluations a second apart brings the
    bitrate down to its floor, and a transport that stays calm (no loss, no new
    drops, queue at most half full) at [RECOVERY_ROUNDS] evaluations five
    seconds apart brings it back to the configured bitrate, whatever the
    64-bit bitrate was. *)
Theorem feedback_converges bitrate receiver_minimum playout history c0 c actions l k :
  0 < bitrate <= u64_MAX -> 0 <= default 0 receiver_minimum ->
  controller_new bitrate receiver_minimum playout = Ok c0 ->
  observe_all c0 history = Ok (c, actions) ->
  (Forall (fun e => congested e.1 = true) l ->
   paced (apart BITRATE_EVALUATION_INTERVAL) (last_bitrate_evaluation c) l.*2 ->
   (CONGESTION_ROUNDS <= length l)%nat ->
   oks (observe_all c (pressures l)) (fun r => current r.1 = floor c0)) /\
  (Forall (fun e => calm k e.1 = true) l -> k <= evaluated_transport_drops c ->
   paced (apart BITRATE_RECOVERY_INTERVAL) (last_bitrate_evaluation c) l.*2 ->
   (RECOVERY_ROUNDS <= length l)%nat ->
   oks (observe_all c (pressures l)) (fun r => current r.1 = bitrate)).
Proof.
  intros Hb Hr E0 E1. pose proof (controller_new_ok bitrate receiver_minimum playout Hb Hr) as H0.
  rewrite E0 in H0. destruct H0 as (Hc0 & Hcur0 & Hceil0 & Hfloor0 & _).
  pose proof (observe_all_ok c0 history Hc0) as H1. rewrite E1 in H1.
  destruct H1 as (Hc & Hl & _). simpl in *.
  assert (floor c = floor c0 /\ ceiling c = ceiling c0) as [Hf Hce] by (by injection Hl).
  assert (floor_set c) as Hset by (unfold floor_set, DEFAULT_BITRATE_FLOOR in *; lia).
  pose proof Hc as [(? & ? & ?) _]. split.
  - intros Hcong Hpace Hlen. eapply oks_weaken; [by apply congested_run|].
    intros r (Hr1 & Hl1 & Hrun).
    assert (floor r.1 = floor c /\ ceiling r.1 = ceiling c) as [Hf1 Hce1] by (by injection Hl1).
    destruct Hr1 as [(? & ? & ?) _]. destruct Hset as [Hset|Hset]; [|lia].
    assert (4 ^ Z.of_nat (length l) * current c <= 5 ^ Z.of_nat (length l) * floor c).
    { apply (pow_ratio_mono 4 5 _ _ CONGESTION_ROUNDS); [lia|lia| |done].
      assert (4 ^ Z.of_nat CONGESTION_ROUNDS * u64_MAX
              <= 5 ^ Z.of_nat CONGESTION_ROUNDS * DEFAULT_BITRATE_FLOOR)
        by (apply Z.leb_le; vm_compute; reflexivity).
      assert (0 < 4 ^ Z.of_nat CONGESTION_ROUNDS) by (apply Z.pow_pos_nonneg; lia).
      assert (0 < 5 ^ Z.of_nat CONGESTION_ROUNDS) by (apply Z.pow_pos_nonneg; lia). nia. }
    assert (0 < 5 ^ Z.of_nat (length l)) by (apply Z.pow_pos_nonneg; lia). nia.
  - intros Hcalm Hk Hpace Hlen. eapply oks_weaken; [by apply (calm_run _ k)|].
    intros r (Hr1 & Hl1 & Hrun).
    assert (floor r.1 = floor c /\ ceiling r.1 = ceiling c) as [Hf1 Hce1] by (by injection Hl1).
    destruct Hr1 as [(? & ? & ?) _]. destruct Hset as [Hset|Hset]; [|lia].
    assert (20 ^ Z.of_nat (length l) * ceiling c <= 21 ^ Z.of_nat (length l) * current c).
    { apply (pow_ratio_mono 20 21 _ _ RECOVERY_ROUNDS); [lia|lia| |done].
      assert (20 ^ Z.of_nat RECOVERY_ROUNDS * u64_MAX
              <= 21 ^ Z.of_nat RECOVERY_ROUNDS * DEFAULT_BITRATE_FLOOR)
        by (apply Z.leb_le; vm_compute; reflexivity).
      assert (0 < 20 ^ Z.of_nat RECOVERY_ROUNDS) by (apply Z.pow_pos_nonneg; lia).
      assert (0 < 21 ^ Z.of_nat RECOVERY_ROUNDS) by (apply Z.pow_pos_nonneg; lia). nia. }
    assert (0 < 20 ^ Z.of_nat (length l)) by (apply Z.pow_pos_nonneg; lia). nia.
Qed.

(** ** Playout-delay updates *)

Fixpoint playout_all (p : AdaptivePlayoutDelayController) (obs : list (VideoTransportPressure * Z))
    : panics (AdaptivePlayoutDelayController * list VideoFeedbackAction) :=
  match obs with
  | [] => Ok (p, [])
  | (pressure, now) :: obs' =>
      let? '(p, action) := playout_observe p pressure now in
      let? '(p, later) := playout_all p obs' in
      Ok (p, match action with Some a => a :: later | None => later end)
  end.

Lemma playout_all_ok p obs :
  playout_ok p -> oks (playout_all p obs) (fun r => playout_ok r.1).
Proof.
  revert p. induction obs as [|[pressure now] obs IH]; intros p Hp; [done|]. cbn [playout_all].
  eapply oks_bind; [by apply playout_observe_ok|]. intros [p1 a] (Hp1 & _).
  eapply oks_bind; [by apply IH|]. by intros [p2 l] Hp2.
Qed.

Lemma playout_disabled p obs : updates_enabled p = false -> playout_all p obs = Ok (p, []).
Proof.
  intros Hp. induction obs as [|[pressure now] obs IH]; [done|]. cbn [playout_all].
  unfold playout_observe. rewrite Hp. simpl. by rewrite IH.
Qed.

(** One observation in which the receiver does not report the requested delay. *)
Lemma playout_unconfirmed p pressure now :
  playout_ok p -> updates_enabled p = true -> receiver_playout_delay pressure <> Some (pd_current p) ->
  oks (playout_observe p pressure now) (fun r =>
    playout_ok r.1 /\ pd_current r.1 = pd_current p /\
    if elapsed_at_least (Some (default now (last_update_sent p))) now PLAYOUT_UPDATE_RETRY_INTERVAL then
      last_update_sent r.1 = Some now /\
      if decide (update_attempts p = MAXIMUM_PLAYOUT_UPDATE_ATTEMPTS)
      then r.2 = Some (DisableAdaptivePlayoutDelay (pd_current p) (receiver_playout_delay pressure)) /\
           updates_enabled r.1 = false
      else r.2 = Some (SetPlayoutDelay (pd_current p)) /\ updates_enabled r.1 = true /\
           update_attempts r.1 = update_attempts p + 1
    else r.2 = None /\ updates_enabled r.1 = true /\ update_attempts r.1 = update_attempts p /\
         last_update_sent r.1 = Some (default now (last_update_sent p))).
Proof.
  intros Hp Hen Hr. pose proof (playout_observe_ok p pressure now Hp) as Hok. revert Hok.
  unfold playout_observe. rewrite Hen. cbn [negb].
  destruct (clamp _ _ _) as [required| |]; cbn [obind]; [|done..].
  rewrite bool_decide_eq_false_2 by done. cbn [negb]. unfold await_receiver.
  cbn [last_update_sent update_attempts pd_current note_pressure updates_enabled].
  destruct Hp as [_ Ha]. unfold MAXIMUM_PLAYOUT_UPDATE_ATTEMPTS in *.
  destruct (elapsed_at_least (Some (default now (last_update_sent p))) now PLAYOUT_UPDATE_RETRY_INTERVAL);
    [destruct (Z.leb_spec 3 (update_attempts p)); destruct (decide _); try lia;
     [|destruct (Z.ltb_spec (update_attempts p + 1) 256); [|lia]]|];
    intros (? & _); simpl; by split_and!.
Qed.

Definition remaining (p : AdaptivePlayoutDelayController) : nat :=
  Z.to_nat (MAXIMUM_PLAYOUT_UPDATE_ATTEMPTS - update_attempts p).

Lemma playout_unconfirmed_run p obs :
  playout_ok p -> updates_enabled p = true ->
  Forall (fun e => receiver_playout_delay e.1 <> Some (pd_current p)) obs ->
  oks (playout_all p obs) (fun r =>
    (exists n, r.2 = replicate n (SetPlayoutDelay (pd_current p)) /\ (n <= remaining p)%nat /\
       updates_enabled r.1 = true /\
       ~ (paced (apart PLAYOUT_UPDATE_RETRY_INTERVAL) (last_update_sent p) obs.*2 /\
          (match last_update_sent p with Some _ => 0 | None => 1 end + remaining p + 1 <= length obs)%nat)) \/
    (exists receiver, r.2 = replicate (remaining p) (SetPlayoutDelay (pd_current p)) ++
                            [DisableAdaptivePlayoutDelay (pd_current p) receiver] /\
       updates_enabled r.1 = false)).
Proof.
  revert p. induction obs as [|[pressure now] obs IH]; intros p Hp Hen Hobs; cbn [playout_all].
  { left. exists O. split_and!; [done|lia|done|]. intros [_ Hlen]. simpl in Hlen. lia. }
  apply Forall_cons in Hobs as [Hr Hobs].
  eapply oks_bind; [by apply playout_unconfirmed|]. intros [p1 action] (Hp1 & Hd1 & Hstep). cbn [fst snd] in *.
  destruct (elapsed_at_least _ _ _) eqn:He.
  - destruct Hstep as [Hsent Hstep]. destruct (decide _) as [Hatt|Hatt].
    + destruct Hstep as [-> Hdis]. rewrite playout_disabled by done. simpl. right.
      exists (receiver_playout_delay pressure). unfold remaining. rewrite Hatt. by split.
    + destruct Hstep as (-> & Hen1 & Hatt1).
      eapply oks_bind; [apply (IH p1); [done|done|by rewrite Hd1]|].
      assert (remaining p = S (remaining p1)) as Hrem.
      { unfold remaining. rewrite Hatt1. destruct Hp as [_ Hp]. lia. }
      intros [p2 l] H; simpl in H |- *; destruct H as [(n & -> & Hn & Hen2 & Hno)|(receiver & -> & Hdis)];
        rewrite Hd1.
      * left. exists (S n). split_and!; [done|lia|done|]. intros [[_ Hpace] Hlen]. apply Hno.
        rewrite Hsent. split; [done|]. destruct (last_update_sent p); simpl in Hlen; lia.
      * right. exists receiver. by rewrite Hrem.
  - destruct Hstep as (-> & Hen1 & Hatt1 & Hsent).
    eapply oks_bind; [apply (IH p1); [done|done|by rewrite Hd1]|].
    assert (remaining p1 = remaining p) as Hrem by (unfold remaining; by rewrite Hatt1).
    intros [p2 l] H; simpl in H |- *; destruct H as [(n & -> & Hn & Hen2 & Hno)|(receiver & -> & Hdis)];
      rewrite Hd1, Hrem in *.
    + left. exists n. split_and!; [done|lia|done|]. intros [[Hgap Hpace] Hlen].
      destruct (last_update_sent p) as [t|] eqn:Ht.
      * apply not_true_iff_false in He. apply He, elapsed_some. simpl in *.
        unfold apart, PLAYOUT_UPDATE_RETRY_INTERVAL, from_secs, NANOS in *. lia.
      * apply Hno. rewrite Hsent. simpl. split; [done|]. simpl in Hlen. lia.
    + right. exists receiver. by split.
Qed.

(** C40: A receiver that ignores a delay is asked a bounded number of times.
    After any history that left updates enabled, while the receiver does not
    report the requested delay the controller repeats exactly that request, at
    most three times in all, then disables itself with one last action; five
    observations two seconds apart are enough to get there; and a disabled
    controller does nothing more, whatever is observed. *)
Theorem playout_gives_up cfg history p before obs :
  playout_all (playout_new cfg) history = Ok (p, before) -> updates_enabled p = true ->
  Forall (fun e => receiver_playout_delay e.1 <> Some (pd_current p)) obs ->
  exists p' actions, playout_all p obs = Ok (p', actions) /\
    ((exists n, actions = replicate n (SetPlayoutDelay (pd_current p)) /\ (n <= 3)%nat /\
       ~ (paced (apart PLAYOUT_UPDATE_RETRY_INTERVAL) (last_update_sent p) obs.*2 /\ (5 <= length obs)%nat)) \/
     (exists n receiver, (n <= 3)%nat /\
       actions = replicate n (SetPlayoutDelay (pd_current p)) ++
                 [DisableAdaptivePlayoutDelay (pd_current p) receiver] /\
       forall later, playout_all p' later = Ok (p', []))).
Proof.
  intros E Hen Hobs. pose proof (playout_all_ok _ history (playout_new_ok cfg)) as Hp.
  rewrite E in Hp. simpl in Hp.
  pose proof (playout_unconfirmed_run p obs Hp Hen Hobs) as H.
  apply oks_ok in H as ([p' l] & El & H). exists p', l. split; [done|]. simpl in H.
  assert (remaining p <= 3)%nat as Hrem.
  { unfold remaining, MAXIMUM_PLAYOUT_UPDATE_ATTEMPTS. destruct Hp as [_ Hp]. lia. }
  destruct H as [(n & -> & Hn & _ & Hno)|(receiver & -> & Hdis)].
  - left. exists n. split_and!; [done|lia|]. intros [Hpace Hlen]. apply Hno. split; [done|].
    destruct (last_update_sent p); lia.
  - right. exists (remaining p), receiver. split_and!; [done|done|]. intros later.
    by apply playout_disabled.
Qed.

(** ** Controllers in use *)

Definition ex_pressure (rtt receiver : option Z) (nacks in_flight : Z) : VideoTransportPressure :=
  {| in_flight_frames := 1; in_flight_media_duration := in_flight;
     max_acceptable_in_flight_duration := from_millis 100; current_rtt := rtt;
     receiver_playout_delay := receiver; nack_count := nacks; frames_dropped_or_skipped := 0;
     fraction_lost := None |}.

Definition ex_playout : AdaptivePlayoutDelayConfiguration :=
  {| cfg_minimum := from_millis 17; cfg_initial := from_millis 66; cfg_receiver_maximum := None |}.

(** A retransmission every other second, each delay confirmed by the receiver. *)
Definition ex_nacks : list (VideoTransportPressure * Z) :=
  (fun n => (ex_pressure None (Some (Z.min (from_millis 250) (from_millis (66 + 33 * n)))) (n + 1) 0,
             from_secs (2 * n))) <$> [0; 1; 2; 3; 4; 5; 6].

(** At its maximum, a further retransmission lowers the playout delay: the
    raise has no room, and the recovery branch takes the stability timer that
    the retransmission has just reset for one that has run out. *)
Example nack_at_maximum_lowers_delay :
  (fun r => r.2) <$> (match playout_all (playout_new ex_playout) ex_nacks with
                      | Ok r => Some r | _ => None end)
  = Some [SetPlayoutDelay (from_millis 99); SetPlayoutDelay (from_millis 132);
          SetPlayoutDelay (from_millis 165); SetPlayoutDelay (from_millis 198);
          SetPlayoutDelay (from_millis 231); SetPlayoutDelay (from_millis 250);
          SetPlayoutDelay (from_millis 217)].
Proof. vm_compute. reflexivity. Qed.

Lemma feedback_bounded_witness :
  exists c0 c actions,
    controller_new 5000000 (Some 300000) (Some ex_playout) = Ok c0 /\
    observe_all c0 (pressures ex_nacks) = Ok (c, actions) /\ 300000 <= current c <= 5000000.
Proof.
  destruct (feedback_bounded 5000000 (Some 300000) (Some ex_playout) (pressures ex_nacks))
    as (c0 & c & l & H0 & H1 & H2 & _); [vm_compute; split; congruence|vm_compute; congruence|].
  exists c0, c, l. split; [exact H0|split; [exact H1|exact H2]].
Defined.

(** A minute of congestion every second, then calm. *)
Definition ex_congestion : list (VideoTransportPressure * Z) :=
  (fun n => (ex_pressure None None 0 (from_millis 200), from_secs (Z.of_nat n))) <$> seq 1 150.

Lemma feedback_converges_witness :
  match controller_new 5000000 None None with
  | Ok c0 => oks (observe_all c0 (pressures ex_congestion)) (fun r => current r.1 = 250000)
  | _ => False
  end.
Proof.
  destruct (controller_new 5000000 None None) as [c0| |] eqn:E; [|discriminate E|discriminate E].
  assert (floor c0 = 250000) as <- by (vm_compute in E; injection E as <-; reflexivity).
  apply (feedback_converges 5000000 None None [] c0 c0 [] ex_congestion 0);
    [vm_compute; split; congruence|vm_compute; congruence|exact E|reflexivity| | |].
  - repeat constructor.
  - injection E as <-. vm_compute. repeat split; congruence.
  - apply Nat.leb_le. vm_compute. reflexivity.
Defined.

Lemma playout_gives_up_witness :
  exists p' actions,
    playout_all (playout_new ex_playout)
      ((fun n => (ex_pressure None None 0 0, from_secs (Z.of_nat n * 2))) <$> seq 0 6) = Ok (p', actions) /\
    length actions = 4%nat.
Proof.
  destruct (playout_gives_up ex_playout [] (playout_new ex_playout) []
    ((fun n => (ex_pressure None None 0 0, from_secs (Z.of_nat n * 2))) <$> seq 0 6))
    as (p' & l & E & _); [reflexivity|reflexivity|repeat constructor; discriminate|].
  exists p', l. split; [exact E|]. vm_compute in E. injection E as _ <-. reflexivity.
Defined.
