(* ===== verification/PipewireBuffers.v ===== *)
(** * PipeWire video buffers (crates/pronk-pipewire/src)

    types.rs: the configuration of a video source and its validation, damage;
    model.rs: the tracker of who owns each buffer of the pool, used by the
    PipeWire loop; policy_gate.rs: whether publishing private media is allowed.
    Descriptors are left out of the records: the tracker never touches them,
    and a buffer's timelines count only as present or absent. *)

From S2P Require Import Prelude Bytes Text.

(** ** Configuration (types.rs) *)

Definition MIN_VIDEO_BUFFERS : nat := 2.
Definition MAX_VIDEO_BUFFERS : nat := 64.
Definition MAX_FRAME_DIMENSION : Z := 8192.
Definition MAX_IDENTITY_STRING_BYTES : nat := 256.
Definition i32_MAX : Z := 2147483647.

Record VideoBufferLayout := {
  width : Z; height : Z; pitch : Z; size : Z; modifier : Z }.

Global Instance VideoBufferLayout_eq_dec : EqDecision VideoBufferLayout.
Proof. solve_decision. Defined.

Record VideoBuffer := {
  vb_id : Z; vb_layout : VideoBufferLayout; vb_timelines : bool }.

Record VideoSourceConfig := {
  node_name : list Z; node_description : list Z; session_id : list Z; device_instance : list Z;
  connector_id : Z; output_index : Z; grant_id : Z; cfg_media_generation : Z; refresh_hz : Z }.

Inductive ConfigurationError :=
  | InvalidString (field : string)
  | BufferCount (n : nat)
  | LayoutMismatch (index : nat)
  | SynchronizationMismatch (index : nat)
  | DuplicateBufferId (id : Z)
  | FrameDimensions (width height : Z)
  | NonlinearModifier (modifier : Z)
  | InvalidPitch (pitch : Z)
  | InvalidSize (size : Z).

Definition validate_string (field : string) (value : list Z) : outcome ConfigurationError unit :=
  reject (bool_decide (value = []) || bool_decide (MAX_IDENTITY_STRING_BYTES < str_len value)%nat
          || bool_decide (0 ∈ value)) (InvalidString field).

Definition validate_layout (layout : VideoBufferLayout) : outcome ConfigurationError unit :=
  try? reject ((MAX_FRAME_DIMENSION <? width layout) || (MAX_FRAME_DIMENSION <? height layout))
         (FrameDimensions (width layout) (height layout));
  try? reject (negb (modifier layout =? 0)) (NonlinearModifier (modifier layout));
  try? reject ((pitch layout <? Z.min (width layout * 4) u32_MAX) || (i32_MAX <? pitch layout))
         (InvalidPitch (pitch layout));
  let? minimum_size := expect (checked_mul64 (pitch layout) (height layout)) in
  reject ((size layout <? minimum_size) || (i32_MAX <? size layout)) (InvalidSize (size layout)).

(** The loop over the buffers; [previous] are those before [index]. *)
Fixpoint validate_buffers (expected : VideoBufferLayout) (explicit : bool) (previous : list Z)
    (buffers : list VideoBuffer) : outcome ConfigurationError unit :=
  match buffers with
  | [] => Ok tt
  | b :: buffers' =>
      let index := length previous in
      try? reject (negb (bool_decide (vb_layout b = expected))) (LayoutMismatch index);
      try? reject (negb (eqb (vb_timelines b) explicit)) (SynchronizationMismatch index);
      try? reject (bool_decide (vb_id b ∈ previous)) (DuplicateBufferId (vb_id b));
      validate_buffers expected explicit (previous ++ [vb_id b]) buffers'
  end.

Definition validate (config : VideoSourceConfig) (buffers : list VideoBuffer)
    : outcome ConfigurationError unit :=
  try? validate_string "node name" (node_name config);
  try? validate_string "node description" (node_description config);
  try? validate_string "session ID" (session_id config);
  try? validate_string "device instance" (device_instance config);
  try? reject (bool_decide (length buffers < MIN_VIDEO_BUFFERS)%nat
               || bool_decide (MAX_VIDEO_BUFFERS < length buffers)%nat) (BufferCount (length buffers));
  let? first := index buffers 0 in
  let expected := vb_layout first in
  try? validate_layout expected;
  validate_buffers expected (vb_timelines first) [] buffers.

Record VideoDamage := { dmg_x : Z; dmg_y : Z; dmg_width : Z; dmg_height : Z }.

Definition is_bounded_by (d : VideoDamage) (layout : VideoBufferLayout) : bool :=
  (dmg_x d <=? width layout) && (dmg_width d <=? Z.max (width layout - dmg_x d) 0)
  && (dmg_y d <=? height layout) && (dmg_height d <=? Z.max (height layout - dmg_y d) 0).

Record VideoFrame := {
  buffer_id : Z; sequence : Z; pts_ns : Z; damage : VideoDamage; discontinuity : bool;
  acquire_point : option Z }.

Inductive PipeWireBufferTransport := Waited | SyncTimeline.

Global Instance PipeWireBufferTransport_eq_dec : EqDecision PipeWireBufferTransport.
Proof. solve_decision. Defined.

Inductive VideoSourceRuntimeError :=
  | PipeWire (message : list Z)
  | Core (code : Z) (message : list Z)
  | Stream (message : list Z)
  | NodeRemoved
  | PolicyUnavailable
  | UnsupportedFormat
  | InvalidPipeWireBuffer (what : string)
  | TooManyPipeWireBuffers
  | InvalidOwnership (id : Z)
  | UnknownBuffer (id : Z)
  | InvalidDamage (id : Z)
  | MissingAcquirePoint (id : Z)
  | UnexpectedAcquirePoint (id : Z)
  | ReleasePointMismatch (id expected actual : Z)
  | EventQueueFull
  | ThreadPanicked.

(** ** Ownership (model.rs) *)

Inductive Ownership :=
  | Unbound
  | ServerOwned (frame_submitted : bool) (expected_release : option Z)
  | Available.

Global Instance Ownership_eq_dec : EqDecision Ownership.
Proof. solve_decision. Defined.

Record Slot := {
  sl_id : Z; sl_layout : VideoBufferLayout; has_timelines : bool;
  transport : option PipeWireBufferTransport; ownership : Ownership }.

Inductive BufferReturn :=
  | Initial (id : Z) (t : PipeWireBufferTransport)
  | Released (id : Z).

Record BufferTracker := { slots : list Slot }.

Definition tracker_new (buffers : list VideoBuffer) : BufferTracker :=
  {| slots := (fun b => {| sl_id := vb_id b; sl_layout := vb_layout b; has_timelines := vb_timelines b;
                           transport := None; ownership := Unbound |}) <$> buffers |}.

Definition next_unbound (t : BufferTracker) : option Z :=
  sl_id <$> List.find (fun s => bool_decide (ownership s = Unbound)) (slots t).

(** [slot_mut]: the first slot with that identity. *)
Definition find_slot (t : BufferTracker) (id : Z) : option Slot :=
  List.find (fun s => sl_id s =? id) (slots t).
Fixpoint update_slot (l : list Slot) (id : Z) (s' : Slot) : list Slot :=
  match l with
  | [] => []
  | s :: l' => if sl_id s =? id then s' :: l' else s :: update_slot l' id s'
  end.
Definition slot_mut (t : BufferTracker) (id : Z) : outcome VideoSourceRuntimeError Slot :=
  ok_or (find_slot t id) (UnknownBuffer id).
Definition put_slot (t : BufferTracker) (id : Z) (tr : option PipeWireBufferTransport) (o : Ownership)
    : BufferTracker :=
  match find_slot t id with
  | Some s => {| slots := update_slot (slots t) id
                   {| sl_id := sl_id s; sl_layout := sl_layout s; has_timelines := has_timelines s;
                      transport := tr; ownership := o |} |}
  | None => t
  end.

(** An operation returns the tracker it leaves, errors included. *)
Definition bind (t : BufferTracker) (id : Z) (tr : PipeWireBufferTransport)
    : BufferTracker * outcome VideoSourceRuntimeError unit :=
  match slot_mut t id with
  | Ok s =>
      if negb (bool_decide (ownership s = Unbound))
         || (bool_decide (tr = SyncTimeline) && negb (has_timelines s))
      then (t, Err (InvalidOwnership id))
      else (put_slot t id (Some tr) (ServerOwned false None), Ok tt)
  | Err e => (t, Err e)
  | Panic => (t, Panic)
  end.

Definition unbind (t : BufferTracker) (id : Z) : BufferTracker * outcome VideoSourceRuntimeError unit :=
  match slot_mut t id with
  | Ok _ => (put_slot t id None Unbound, Ok tt)
  | Err e => (t, Err e)
  | Panic => (t, Panic)
  end.

Definition publish (t : BufferTracker) (frame : VideoFrame) : BufferTracker * outcome VideoSourceRuntimeError unit :=
  let id := buffer_id frame in
  let checked :=
    let? s := slot_mut t id in
    try? reject (negb (bool_decide (ownership s = Available))) (InvalidOwnership id);
    try? reject (negb (is_bounded_by (damage frame) (sl_layout s))) (InvalidDamage id);
    let? tr := ok_or (transport s) (InvalidOwnership id) in
    match tr, acquire_point frame with
    | SyncTimeline, None => Err (MissingAcquirePoint id)
    | Waited, Some _ => Err (UnexpectedAcquirePoint id)
    | _, _ => Ok tr
    end in
  match checked with
  | Ok tr => (put_slot t id (Some tr) (ServerOwned true (acquire_point frame)), Ok tt)
  | Err e => (t, Err e)
  | Panic => (t, Panic)
  end.

Definition returned (t : BufferTracker) (id : Z) (actual_release : option Z)
    : BufferTracker * outcome VideoSourceRuntimeError BufferReturn :=
  match slot_mut t id with
  | Err e => (t, Err e)
  | Panic => (t, Panic)
  | Ok s =>
      match ownership s with
      | ServerOwned frame_submitted expected_release =>
          if negb (bool_decide (expected_release = actual_release))
          then (t, Err (ReleasePointMismatch id (default 0 expected_release) (default 0 actual_release)))
          else
            (put_slot t id (transport s) Available,
             match frame_submitted, transport s with
             | false, Some tr => Ok (Initial id tr)
             | true, Some _ => Ok (Released id)
             | _, None => Err (InvalidOwnership id)
             end)
      | _ => (t, Err (InvalidOwnership id))
      end
  end.

(** ** Policy gate (policy_gate.rs) *)

Definition POLICY_METADATA_NAME : list Z := codes "pronk-policy-v1".

Inductive PolicyMarkerChange := Unchanged | Lost.

Record PolicyGate := { required : bool; marker_id : option Z }.

Definition PolicyGate_new (r : bool) : PolicyGate := {| required := r; marker_id := None |}.

Definition observe_metadata (g : PolicyGate) (object_id : Z) (name : option (list Z)) : PolicyGate :=
  if required g && bool_decide (marker_id g = None) && bool_decide (name = Some POLICY_METADATA_NAME)
  then {| required := required g; marker_id := Some object_id |}
  else g.

Definition is_open (g : PolicyGate) : bool := negb (required g) || bool_decide (is_Some (marker_id g)).

Definition remove_object (g : PolicyGate) (object_id : Z) : PolicyGate * PolicyMarkerChange :=
  if bool_decide (marker_id g = Some object_id)
  then ({| required := required g; marker_id := None |}, Lost)
  else (g, Unchanged).

(** ** What validation accepts *)

(** The widths of the fields: [NonZeroU32], [NonZeroU64] and [u64]. *)
Definition layout_typed (l : VideoBufferLayout) : Prop :=
  u32 (width l) /\ u32 (height l) /\ u32 (pitch l) /\ u64 (size l) /\ u64 (modifier l) /\
  width l <> 0 /\ height l <> 0 /\ pitch l <> 0 /\ size l <> 0.

Definition string_ok (s : list Z) : Prop :=
  s <> [] /\ (str_len s <= MAX_IDENTITY_STRING_BYTES)%nat /\ 0 ∉ s.

(** A linear 32-bit layout whose rows and whole size fit signed offsets. *)
Definition layout_ok (l : VideoBufferLayout) : Prop :=
  width l <= MAX_FRAME_DIMENSION /\ height l <= MAX_FRAME_DIMENSION /\ modifier l = 0 /\
  4 * width l <= pitch l /\ pitch l * height l <= size l <= i32_MAX.

Lemma validate_string_ok field s : validate_string field s = Ok tt <-> string_ok s.
Proof.
  unfold validate_string, string_ok. autorewrite with accept.
  rewrite !bool_decide_eq_false, Nat.nlt_ge. tauto.
Qed.

Lemma validate_layout_cases l :
  layout_typed l -> validate_layout l <> Panic /\ (validate_layout l = Ok tt <-> layout_ok l).
Proof.
  intros (Hw & Hh & Hp & Hs & Hm & ? & ? & ? & ?). unfold uint in *.
  unfold validate_layout, layout_ok, checked_mul64, u64_MAX, MAX_FRAME_DIMENSION, i32_MAX, u32_MAX in *.
  destruct ((8192 <? width l) || (8192 <? height l)) eqn:E1; cbn [reject obind].
  { split; [done|]. split; [done|]. apply orb_true_iff in E1. rewrite !Z.ltb_lt in E1. lia. }
  breflect. destruct (Z.eqb_spec (modifier l) 0); cbn [negb reject obind]; [|split; [done|split; [done|lia]]].
  destruct ((pitch l <? Z.min (width l * 4) 4294967295) || (2147483647 <? pitch l)) eqn:E2; cbn [reject obind].
  { split; [done|]. split; [done|]. apply orb_true_iff in E2. rewrite !Z.ltb_lt in E2. nia. }
  breflect. destruct (Z.leb_spec (pitch l * height l) 18446744073709551615); [|nia]. cbn [expect obind].
  destruct ((size l <? pitch l * height l) || (2147483647 <? size l)) eqn:E3; cbn [reject].
  { split; [done|]. split; [done|]. apply orb_true_iff in E3. rewrite !Z.ltb_lt in E3. lia. }
  breflect. split; [done|]. split; [lia|done].
Qed.

Lemma validate_buffers_ok expected explicit previous buffers :
  validate_buffers expected explicit previous buffers <> Panic /\
  (validate_buffers expected explicit previous buffers = Ok tt <->
   Forall (fun b => vb_layout b = expected /\ vb_timelines b = explicit) buffers /\
   NoDup (vb_id <$> buffers) /\ (forall x, x ∈ previous -> x ∉ vb_id <$> buffers)).
Proof.
  revert previous. induction buffers as [|b buffers IH]; intros previous; cbn [validate_buffers].
  { split; [done|]. split; [|done]. intros _. split_and!; [constructor|constructor|].
    intros ? _. apply not_elem_of_nil. }
  destruct (IH (previous ++ [vb_id b])) as [IHp IHo]. clear IH.
  rewrite !reject_seq_ok, IHo, !negb_false_iff, bool_decide_eq_true, eqb_true_iff, bool_decide_eq_false.
  cbn [fmap list_fmap]. rewrite Forall_cons, NoDup_cons. split.
  - repeat (match goal with |- context [reject ?c _] => destruct c end; [done|]; cbn [reject obind]). done.
  - setoid_rewrite not_elem_of_cons. setoid_rewrite elem_of_app. setoid_rewrite list_elem_of_singleton.
    naive_solver.
Qed.

(** A video source is configured with exactly the pools PipeWire can be
    given.  Validation never panics, and accepts exactly when the four strings
    are nonempty, at most 256 bytes and without NUL, there are 2 to 64 buffers
    with distinct identities, one layout and one synchronization mode, and the
    layout is linear, at most 8192 by 8192, with rows of at least four bytes per
    pixel that all fit in a size of at most [i32::MAX]. *)
Theorem config_accepts config buffers :
  Forall (fun b => layout_typed (vb_layout b)) buffers ->
  validate config buffers <> Panic /\
  (validate config buffers = Ok tt <->
   (string_ok (node_name config) /\ string_ok (node_description config) /\
    string_ok (session_id config) /\ string_ok (device_instance config)) /\
   (MIN_VIDEO_BUFFERS <= length buffers <= MAX_VIDEO_BUFFERS)%nat /\
   NoDup (vb_id <$> buffers) /\
   exists layout explicit, layout_ok layout /\
     Forall (fun b => vb_layout b = layout /\ vb_timelines b = explicit) buffers).
Proof.
  intros Hty. unfold validate. split.
  - unfold validate_string. do 4 (destruct (_ || _ || _); [done|]; cbn [reject obind]).
    destruct (bool_decide (length buffers < MIN_VIDEO_BUFFERS)%nat) eqn:E; [done|].
    destruct (bool_decide (MAX_VIDEO_BUFFERS < length buffers)%nat); [done|]. cbn [reject obind orb].
    destruct buffers as [|b buffers]; [done|]. cbn [index lookup list_lookup expect obind].
    apply Forall_cons in Hty as [Hb _]. destruct (validate_layout_cases _ Hb) as [Hp _].
    destruct (validate_layout (vb_layout b)); [|done|done]. simpl.
    apply (validate_buffers_ok (vb_layout b) (vb_timelines b) [] (b :: buffers)).
  - rewrite !seq_ok, !validate_string_ok, reject_ok, orb_false_iff, !bool_decide_eq_false, !Nat.nlt_ge.
    destruct buffers as [|b buffers]; [unfold MIN_VIDEO_BUFFERS; simpl; split; [|]; intros H; destruct_and?; lia|].
    cbn [index lookup list_lookup expect obind]. rewrite seq_ok.
    apply Forall_cons in Hty as [Hb _]. rewrite (proj2 (validate_layout_cases _ Hb)).
    rewrite (proj2 (validate_buffers_ok _ _ _ _)). split.
    + intros (? & ? & ? & ? & [? ?] & Hl & Hf & ? & _). split_and!; try done. by exists (vb_layout b), (vb_timelines b).
    + intros ((? & ? & ? & ?) & [? ?] & ? & layout & explicit & Hl & Hf).
      pose proof Hf as Hf'. apply Forall_cons in Hf' as [[<- <-] _]. split_and!; try done.
      intros x Hx. by apply elem_of_nil in Hx.
Qed.

(** ** Looking slots up *)

Lemma find_slot_id t id s : find_slot t id = Some s -> sl_id s = id /\ s ∈ slots t.
Proof.
  unfold find_slot. intros [Hin Heq]%find_some. apply Z.eqb_eq in Heq.
  by apply list_elem_of_In in Hin.
Qed.

Lemma find_update l id id' s' :
  sl_id s' = id ->
  List.find (fun s => sl_id s =? id') (update_slot l id s')
  = if decide (id' = id) then (fun _ => s') <$> List.find (fun s => sl_id s =? id) l
    else List.find (fun s => sl_id s =? id') l.
Proof.
  intros <-. induction l as [|s l IH]; simpl; [by case_decide|].
  destruct (Z.eqb_spec (sl_id s) (sl_id s')) as [E|E]; simpl.
  - case_decide as D; [subst; by rewrite Z.eqb_refl|].
    destruct (Z.eqb_spec (sl_id s') id'), (Z.eqb_spec (sl_id s) id'); congruence.
  - rewrite IH. case_decide as D; [|done].
    destruct (Z.eqb_spec (sl_id s) id'); congruence.
Qed.

(** The view of a tracker as a map from buffers to their slots. *)
Lemma find_put t id tr o id' :
  find_slot (put_slot t id tr o) id'
  = if decide (id' = id)
    then (fun s => {| sl_id := sl_id s; sl_layout := sl_layout s; has_timelines := has_timelines s;
                      transport := tr; ownership := o |}) <$> find_slot t id
    else find_slot t id'.
Proof.
  unfold put_slot. destruct (find_slot t id) as [s|] eqn:E.
  - apply find_slot_id in E as Hs. unfold find_slot in *. cbn [slots].
    rewrite find_update by apply Hs. by rewrite E.
  - case_decide as D; [by rewrite D, E|done].
Qed.

(** ** The gate over a registry *)

Inductive registry_event := Metadata (id : Z) (name : option (list Z)) | Removed (id : Z).

Definition gate_step (g : PolicyGate) (e : registry_event) : PolicyGate :=
  match e with
  | Metadata id name => observe_metadata g id name
  | Removed id => (remove_object g id).1
  end.

(** The objects that currently carry the policy marker. *)
Definition markers_step (m : gset Z) (e : registry_event) : gset Z :=
  match e with
  | Metadata id name => if bool_decide (name = Some POLICY_METADATA_NAME) then {[id]} ∪ m else m
  | Removed id => m ∖ {[id]}
  end.

(** A required gate is open only while a marker object that the registry
    announced still exists. *)
Lemma gate_open_sound events :
  let g := foldl gate_step (PolicyGate_new true) events in
  is_open g = true ->
  exists id, marker_id g = Some id /\ id ∈ foldl markers_step (∅ : gset Z) events.
Proof.
  cbv zeta.
  assert (required (foldl gate_step (PolicyGate_new true) events) = true /\
    forall id, marker_id (foldl gate_step (PolicyGate_new true) events) = Some id ->
               id ∈ foldl markers_step (∅ : gset Z) events) as [Hr Hm].
  { induction events as [|e events [IHr IHm]] using rev_ind; [done|]. rewrite !foldl_app. simpl.
    destruct e as [id name|id]; simpl.
    - unfold observe_metadata. rewrite IHr. cbn [andb].
      destruct (bool_decide (name = Some POLICY_METADATA_NAME)); rewrite ?andb_true_r, ?andb_false_r.
      + destruct (bool_decide _); (split; [done|]); intros id' Hid; apply elem_of_union.
        * injection Hid as <-. left. by apply elem_of_singleton.
        * right. auto.
      + split; [done|auto].
    - unfold remove_object. case_bool_decide as E; simpl; split; try done.
      intros id' Hid. apply elem_of_difference. split; [auto|]. rewrite elem_of_singleton. congruence. }
  unfold is_open. rewrite Hr. simpl. case_bool_decide as E; [|done]. intros _.
  destruct E as [id Hid]. eauto.
Qed.
