(* ===== verification/VideoSource.v ===== *)
(** * The PipeWire video-source actor (crates/pronk-pipewire/src/video_source_actor.rs)

    One actor owns at most one source generation.  Its inputs are the commands
    of the display, the events of the running source and the return-trigger
    timer; each is one step.  The source is the trait [ManagedSource] of the
    code: here a class of functions of the log of calls made so far, so a call
    may fail at any time.  A started source is named by the number of sources
    started before it.  What the actor sends back (replies and events) is
    recorded in order.

    The second half composes the actor with the buffer tracker that the source
    runs ([PipewireBuffers]). *)

From S2P Require Import Prelude Bytes Text Time Ordering PipewireBuffers.
From Stdlib Require Import Sorted.

Definition RETURN_TRIGGER_DIVISOR : Z := 4.
Definition MIN_RETURN_TRIGGER_INTERVAL : Z := from_millis 2.
Definition MAX_RETURN_TRIGGER_INTERVAL : Z := from_millis 10.

(** ** Data *)

Record VideoSourceGeneration := {
  config : VideoSourceConfig; buffers : list VideoBuffer }.

Record VideoNodeIdentity := {
  ni_node_name : list Z; object_id : Z; object_serial : Z; media_generation : Z }.

Record VideoSourceStopReport := {
  identity : VideoNodeIdentity; reclaimed_buffers : list Z }.

Inductive VideoSourceError :=
  | Configuration (e : ConfigurationError)
  | Spawn
  | Runtime (e : VideoSourceRuntimeError)
  | StartupClosed
  | StartupTimeout (timeout : Z)
  | CommandClosed
  | ReplyClosed
  | Join (message : list Z).

Inductive VideoSourceEvent :=
  | SourceBufferAvailable (id : Z) (t : PipeWireBufferTransport)
  | SourceBufferReleased (id : Z)
  | Failed (e : VideoSourceRuntimeError)
  | Stopped.

Inductive VideoSourceActorRuntimeError :=
  | Source (e : VideoSourceRuntimeError)
  | InvalidBufferEvent (event : string) (id : Z)
  | EventStreamClosed
  | UnexpectedStop
  | ProcessTrigger (e : VideoSourceError).

Inductive VideoSourceActorEvent :=
  | BufferAvailable (generation id : Z) (t : PipeWireBufferTransport)
  | BufferReleased (generation id : Z)
  | GenerationFailed (report : VideoSourceStopReport) (e : VideoSourceActorRuntimeError).

Inductive VideoSourceActorError :=
  | GenerationActive (active requested : Z)
  | NoActiveGeneration
  | GenerationMismatch (active requested : Z)
  | NonMonotonicGeneration (previous requested : Z)
  | ReusedNodeName (name : list Z)
  | ReusedObjectSerial (serial : Z)
  | BufferUnavailable (generation id : Z)
  | SourceError (e : VideoSourceError)
  | Shutdown_ (report : VideoSourceStopReport) (source : VideoSourceError).

Inductive ActorBufferState := AwaitingInitial | ActorAvailable | Submitted.

Global Instance ActorBufferState_eq_dec : EqDecision ActorBufferState.
Proof. solve_decision. Defined.

Record ActiveGeneration := {
  ag_source : nat;
  ag_identity : VideoNodeIdentity;
  ag_buffers : gmap Z ActorBufferState;
  return_trigger_interval_of : Z;
  return_trigger_deadline : option Z }.

Record ActorHistory := {
  h_generation : option Z; h_node_name : option (list Z); h_object_serial : option Z }.

Inductive ActorCommand :=
  | Start (g : VideoSourceGeneration)
  | Publish (generation : Z) (frame : VideoFrame)
  | Stop (generation : Z)
  | Shutdown (with_reply : bool).

Inductive ActorInput :=
  | Command (c : option ActorCommand)
  | SourceEvent (e : option VideoSourceEvent)
  | ReturnTrigger.

(** ** The source *)

(** What the actor sends. *)
Inductive actor_output :=
  | ReplyStart (r : VideoSourceActorError + VideoNodeIdentity)
  | ReplyPublish (r : option VideoSourceActorError)
  | ReplyStop (r : VideoSourceActorError + VideoSourceStopReport)
  | ReplyShutdown (r : VideoSourceActorError + option VideoSourceStopReport)
  | Emit (e : VideoSourceActorEvent)
  | Unreported (r : VideoSourceActorError + VideoSourceStopReport).

(** The calls the actor makes across the trait, with the source they are made
    on ([CallStart] with the source it gave, if it gave one), and what it sends. *)
Inductive actor_action :=
  | CallStart (g : VideoSourceGeneration) (source : option nat)
  | CallPublish (source : nat) (frame : VideoFrame)
  | CallTrigger (source : nat)
  | CallShutdown (source : nat)
  | Sent (o : actor_output).

Abbreviation trace := (list actor_action).

Class ManagedSource := {
  source_start : trace -> VideoSourceGeneration -> VideoSourceError + VideoNodeIdentity;
  source_publish : trace -> nat -> VideoFrame -> option VideoSourceError;
  source_trigger : trace -> nat -> option VideoSourceError;
  source_shutdown : trace -> nat -> option VideoSourceError;
  (* [Instant::now] and whether the owner still receives events *)
  clock : trace -> Z;
  events_open : trace -> bool }.

Definition started_source (c : actor_action) : option nat :=
  match c with CallStart _ s => s | _ => None end.
Definition started_sources (log : trace) : list nat := omap started_source log.

Record actor_state := {
  active : option ActiveGeneration;
  history : ActorHistory;
  running : bool;
  log : trace }.

Definition actor_init : actor_state :=
  {| active := None; history := {| h_generation := None; h_node_name := None; h_object_serial := None |};
     running := true; log := [] |}.

(** ** One generation *)

Definition ActiveGeneration_new (source : nat) (id : VideoNodeIdentity) (buffer_ids : list Z)
    (interval : Z) : ActiveGeneration :=
  {| ag_source := source; ag_identity := id;
     ag_buffers := list_to_map ((fun b => (b, AwaitingInitial)) <$> buffer_ids);
     return_trigger_interval_of := interval; return_trigger_deadline := None |}.

Definition with_buffer (a : ActiveGeneration) (id : Z) (s : ActorBufferState) : ActiveGeneration :=
  {| ag_source := ag_source a; ag_identity := ag_identity a; ag_buffers := <[id := s]> (ag_buffers a);
     return_trigger_interval_of := return_trigger_interval_of a;
     return_trigger_deadline := return_trigger_deadline a |}.

Definition with_deadline (a : ActiveGeneration) (d : option Z) : ActiveGeneration :=
  {| ag_source := ag_source a; ag_identity := ag_identity a; ag_buffers := ag_buffers a;
     return_trigger_interval_of := return_trigger_interval_of a; return_trigger_deadline := d |}.

Definition submitted_ids (a : ActiveGeneration) : list Z :=
  omap (fun e => if bool_decide (e.2 = Submitted) then Some e.1 else None) (map_to_list (ag_buffers a)).

Definition has_submitted_buffers (a : ActiveGeneration) : bool :=
  negb (bool_decide (submitted_ids a = [])).

Definition arm_return_trigger (a : ActiveGeneration) (now : Z) : ActiveGeneration :=
  if bool_decide (return_trigger_deadline a = None) && has_submitted_buffers a
  then with_deadline a (Some (now + return_trigger_interval_of a)) else a.

Definition rearm_return_trigger (a : ActiveGeneration) (now : Z) : ActiveGeneration :=
  with_deadline a (if has_submitted_buffers a then Some (now + return_trigger_interval_of a) else None).

Definition disarm_return_trigger_if_idle (a : ActiveGeneration) : ActiveGeneration :=
  if has_submitted_buffers a then a else with_deadline a None.

Definition stop_report (a : ActiveGeneration) : VideoSourceStopReport :=
  {| identity := ag_identity a; reclaimed_buffers := sort_by_key id (submitted_ids a) |}.

Definition div_ceil (a b : Z) : Z := (a + b - 1) / b.

Definition return_trigger_interval (hz : Z) : Z :=
  let frame_ns := div_ceil 1000000000 hz in
  Z.max MIN_RETURN_TRIGGER_INTERVAL
    (Z.min (div_ceil frame_ns RETURN_TRIGGER_DIVISOR) MAX_RETURN_TRIGGER_INTERVAL).

Definition handle_source_event (a : ActiveGeneration) (event : option VideoSourceEvent)
    : ActiveGeneration * outcome VideoSourceActorRuntimeError (option VideoSourceActorEvent) :=
  let generation := media_generation (ag_identity a) in
  match event with
  | Some (SourceBufferAvailable id t) =>
      match ag_buffers a !! id with
      | Some AwaitingInitial =>
          (with_buffer a id ActorAvailable, Ok (Some (BufferAvailable generation id t)))
      | _ => (a, Err (InvalidBufferEvent "availability" id))
      end
  | Some (SourceBufferReleased id) =>
      match ag_buffers a !! id with
      | Some Submitted =>
          (disarm_return_trigger_if_idle (with_buffer a id ActorAvailable),
           Ok (Some (BufferReleased generation id)))
      | _ => (a, Err (InvalidBufferEvent "release" id))
      end
  | Some (Failed e) => (a, Err (Source e))
  | Some Stopped => (a, Err UnexpectedStop)
  | None => (a, Err EventStreamClosed)
  end.

Section Actor.
Context `{ManagedSource}.

Definition start_generation (log : trace) (g : VideoSourceGeneration) (h : ActorHistory)
    : trace * outcome VideoSourceActorError ActiveGeneration :=
  let requested := cfg_media_generation (config g) in
  let checked : outcome VideoSourceActorError unit :=
    try? omap_err (fun e => SourceError (Configuration e)) (validate (config g) (buffers g));
    try? match h_generation h with
         | Some previous => reject (requested <=? previous) (NonMonotonicGeneration previous requested)
         | None => Ok tt
         end;
    reject (bool_decide (h_node_name h = Some (node_name (config g))))
      (ReusedNodeName (node_name (config g))) in
  match checked with
  | Err e => (log, Err e)
  | Panic => (log, Panic)
  | Ok _ =>
      match source_start log g with
      | inl e => (log ++ [CallStart g None], Err (SourceError e))
      | inr id =>
          let source := length (started_sources log) in
          let log := log ++ [CallStart g (Some source)] in
          if bool_decide (h_object_serial h = Some (object_serial id)) then
            (log ++ [CallShutdown source],
             match source_shutdown log source with
             | Some e => Err (SourceError e)
             | None => Err (ReusedObjectSerial (object_serial id))
             end)
          else (log, Ok (ActiveGeneration_new source id (vb_id <$> buffers g)
                           (return_trigger_interval (refresh_hz (config g)))))
      end
  end.

Definition publish_frame (log : trace) (a : ActiveGeneration) (frame : VideoFrame)
    : trace * ActiveGeneration * option VideoSourceActorError :=
  let unavailable := BufferUnavailable (media_generation (ag_identity a)) (buffer_id frame) in
  match ag_buffers a !! buffer_id frame with
  | Some ActorAvailable =>
      let a := arm_return_trigger (with_buffer a (buffer_id frame) Submitted) (clock log) in
      (log ++ [CallPublish (ag_source a) frame], a,
       SourceError <$> source_publish log (ag_source a) frame)
  | _ => (log, a, Some unavailable)
  end.

Definition stop_generation (log : trace) (a : ActiveGeneration)
    : trace * (VideoSourceActorError + VideoSourceStopReport) :=
  let report := stop_report a in
  (log ++ [CallShutdown (ag_source a)],
   match source_shutdown log (ag_source a) with
   | None => inr report
   | Some e => inl (Shutdown_ report e)
   end).

Definition set (s : actor_state) (a : option ActiveGeneration) (log : trace)
    (out : list actor_output) (running : bool) : actor_state :=
  {| active := a; history := history s; running := running; log := log ++ (Sent <$> out) |}.

(** [report_generation_failure]: the failed source is taken down and the owner
    told; without an owner the actor ends. *)
Definition report_generation_failure (s : actor_state) (a : ActiveGeneration)
    (e : VideoSourceActorRuntimeError) : actor_state :=
  let log := log s ++ [CallShutdown (ag_source a)] in
  set s None log [Emit (GenerationFailed (stop_report a) e)] (events_open log).

(** The end of the actor: its channel closed, or nobody receives its events. *)
Definition abandon (s : actor_state) : actor_state :=
  match active s with
  | Some a => let '(log, r) := stop_generation (log s) a in set s None log [Unreported r] false
  | None => set s None (log s) [] false
  end.

Definition command_step (s : actor_state) (c : ActorCommand) : actor_state :=
  match c with
  | Start g =>
      match active s with
      | Some current =>
          set s (active s) (log s)
            [ReplyStart (inl (GenerationActive (media_generation (ag_identity current))
                                (cfg_media_generation (config g))))] true
      | None =>
          match start_generation (log s) g (history s) with
          | (log, Ok started) =>
              let id := ag_identity started in
              {| active := Some started;
                 history := {| h_generation := Some (media_generation id);
                               h_node_name := Some (ni_node_name id);
                               h_object_serial := Some (object_serial id) |};
                 running := true; log := log ++ [Sent (ReplyStart (inr id))] |}
          | (log, Err e) => set s None log [ReplyStart (inl e)] true
          | (log, Panic) => set s None log [] false
          end
      end
  | Publish generation frame =>
      match active s with
      | Some current =>
          if media_generation (ag_identity current) =? generation then
            let '(log, a, r) := publish_frame (log s) current frame in
            set s (Some a) log [ReplyPublish r] true
          else set s (active s) (log s)
                 [ReplyPublish (Some (GenerationMismatch (media_generation (ag_identity current)) generation))]
                 true
      | None => set s None (log s) [ReplyPublish (Some NoActiveGeneration)] true
      end
  | Stop generation =>
      match active s with
      | Some current =>
          if negb (media_generation (ag_identity current) =? generation)
          then set s (active s) (log s)
                 [ReplyStop (inl (GenerationMismatch (media_generation (ag_identity current)) generation))] true
          else let '(log, r) := stop_generation (log s) current in
               set s None log [ReplyStop r] true
      | None => set s None (log s) [ReplyStop (inl NoActiveGeneration)] true
      end
  | Shutdown with_reply =>
      match active s with
      | Some current =>
          let '(log, r) := stop_generation (log s) current in
          set s None log
            [if with_reply then ReplyShutdown (match r with inr x => inr (Some x) | inl e => inl e end)
             else Unreported r] false
      | None => set s None (log s) (if with_reply then [ReplyShutdown (inr None)] else []) false
      end
  end.

(** One turn of the loop of [run_actor].  An input that its [select!] does not
    offer in the current state changes nothing. *)
Definition actor_step (s : actor_state) (input : ActorInput) : actor_state :=
  if negb (running s) then s
  else
    match input, active s with
    | Command (Some c), _ => command_step s c
    | Command None, _ => abandon s
    | SourceEvent e, Some a =>
        match handle_source_event a e with
        | (a, Ok (Some event)) =>
            let s' := set s (Some a) (log s) [Emit event] true in
            if events_open (log s) then s' else abandon s'
        | (a, Ok None) => set s (Some a) (log s) [] true
        | (a, Err e) => report_generation_failure s a e
        | (a, Panic) => set s (Some a) (log s) [] false
        end
    | ReturnTrigger, Some a =>
        match return_trigger_deadline a with
        | None => s
        | Some _ =>
            let log' := log s ++ [CallTrigger (ag_source a)] in
            match source_trigger (log s) (ag_source a) with
            | None => set s (Some (rearm_return_trigger a (clock log'))) log' [] true
            | Some e => report_generation_failure (set s (active s) log' [] true) a (ProcessTrigger e)
            end
        end
    | _, None => s
    end.

Definition actor_run (inputs : list ActorInput) : actor_state := foldl actor_step actor_init inputs.

End Actor.

(** ** Accounting *)

Definition count (f : actor_action -> nat) (tr : trace) : nat := sum_list_with f tr.

Definition one (b : bool) : nat := if b then 1 else 0.
Definition occurrences (id : Z) (l : list Z) : nat := sum_list_with (fun x => one (x =? id)) l.

(** A buffer crosses to the source. *)
Definition handoff (id : Z) (c : actor_action) : nat :=
  match c with CallPublish _ f => one (buffer_id f =? id) | _ => 0 end.

(** The stop report an output carries. *)
Definition report_of (o : actor_output) : option VideoSourceStopReport :=
  match o with
  | ReplyStop (inr r) | ReplyStop (inl (Shutdown_ r _))
  | ReplyShutdown (inr (Some r)) | ReplyShutdown (inl (Shutdown_ r _))
  | Emit (GenerationFailed r _)
  | Unreported (inr r) | Unreported (inl (Shutdown_ r _)) => Some r
  | _ => None
  end.

(** A buffer comes back: by a release event or in a stop report. *)
Definition give_back (id : Z) (c : actor_action) : nat :=
  match c with
  | Sent (Emit (BufferReleased _ b)) => one (b =? id)
  | Sent o => match report_of o with Some r => occurrences id (reclaimed_buffers r) | None => 0 end
  | _ => 0
  end.

Arguments give_back _ _ : simpl nomatch.

Definition shutdown_of (n : nat) (c : actor_action) : nat :=
  match c with CallShutdown m => one (m =? n)%nat | _ => 0 end.

Definition in_source (a : option ActiveGeneration) (id : Z) : bool :=
  match a with Some a => bool_decide (ag_buffers a !! id = Some Submitted) | None => false end.

Definition is_active (a : option ActiveGeneration) (n : nat) : bool :=
  match a with Some a => (ag_source a =? n)%nat | None => false end.

(** Buffers and sources are conserved, and the return trigger is armed exactly
    while a buffer is out. *)
Record accounts (a : option ActiveGeneration) (tr : trace) : Prop := {
  acc_buffers id : count (handoff id) tr = (count (give_back id) tr + one (in_source a id))%nat;
  acc_started : started_sources tr = seq 0 (length (started_sources tr));
  acc_shutdown n : count (shutdown_of n) tr
    = one ((n <? length (started_sources tr))%nat && negb (is_active a n));
  acc_active g : a = Some g -> (ag_source g < length (started_sources tr))%nat;
  acc_trigger g : a = Some g -> is_Some (return_trigger_deadline g) <-> has_submitted_buffers g = true }.

Lemma count_app f tr tr' : count f (tr ++ tr') = (count f tr + count f tr')%nat.
Proof. apply sum_list_with_app. Qed.

Lemma elem_of_submitted a id : id ∈ submitted_ids a <-> ag_buffers a !! id = Some Submitted.
Proof.
  unfold submitted_ids. rewrite list_elem_of_omap. split.
  - intros ([k s] & Hin & Hs). apply elem_of_map_to_list in Hin. simpl in *.
    case_bool_decide; [|done]. congruence.
  - intros Hid. exists (id, Submitted). by rewrite elem_of_map_to_list.
Qed.

Lemma has_submitted_iff a :
  has_submitted_buffers a = true <-> exists id, ag_buffers a !! id = Some Submitted.
Proof.
  unfold has_submitted_buffers. rewrite negb_true_iff, bool_decide_eq_false.
  setoid_rewrite <- elem_of_submitted. destruct (submitted_ids a) as [|x l].
  - split; [done|]. intros [id Hid]. by apply elem_of_nil in Hid.
  - split; [|done]. exists x. left.
Qed.

Lemma NoDup_submitted a : NoDup (submitted_ids a).
Proof.
  unfold submitted_ids. pose proof (NoDup_fst_map_to_list (ag_buffers a)) as Hnd.
  induction (map_to_list (ag_buffers a)) as [|[k s] l IH]; [constructor|].
  cbn [fmap list_fmap] in Hnd. apply NoDup_cons in Hnd as [Hk Hl]. cbn [omap list_omap].
  destruct (bool_decide _); [|auto]. apply NoDup_cons. split; [|auto].
  rewrite list_elem_of_omap. intros ([k' s'] & Hin & Hs'). apply Hk.
  apply list_elem_of_fmap. exists (k', s'). split; [|done]. simpl in *. case_bool_decide; congruence.
Qed.

Lemma occurrences_perm id l l' : l ≡ₚ l' -> occurrences id l = occurrences id l'.
Proof. unfold occurrences. intros Hp. induction Hp; simpl; lia. Qed.

Lemma occurrences_nodup id l : NoDup l -> occurrences id l = one (bool_decide (id ∈ l)).
Proof.
  unfold occurrences. induction 1 as [|x l Hx Hl IH]; simpl; [done|]. rewrite IH.
  destruct (Z.eqb_spec x id) as [->|Hne].
  - rewrite bool_decide_eq_false_2, bool_decide_eq_true_2 by (done || by left). done.
  - simpl. f_equal. apply bool_decide_ext. rewrite elem_of_cons. naive_solver.
Qed.

Lemma stop_report_occurrences a id :
  occurrences id (reclaimed_buffers (stop_report a)) = one (in_source (Some a) id).
Proof.
  unfold stop_report. cbn [reclaimed_buffers].
  rewrite (occurrences_perm id _ _ (sort_by_key_perm _ _)), occurrences_nodup by apply NoDup_submitted.
  f_equal. apply bool_decide_ext, elem_of_submitted.
Qed.

(** *** Each thing the actor does keeps the accounts *)

Lemma accounts_output a tr o :
  accounts a tr -> report_of o = None -> (forall g b, o <> Emit (BufferReleased g b)) ->
  accounts a (tr ++ [Sent o]).
Proof.
  intros [] Hr Hb. split; unfold started_sources in *; intros; rewrite ?count_app, ?omap_app, ?app_nil_r in *;
    simpl in *; rewrite ?app_nil_r, ?Nat.add_0_r; auto.
  assert (give_back id (Sent o) = 0)%nat as ->; [|by rewrite ?Nat.add_0_r].
  unfold give_back. rewrite Hr. destruct o as [| | | |[]|]; try done. naive_solver.
Qed.

Lemma has_submitted_insert a id s :
  ag_buffers a !! id <> Some Submitted -> s <> Submitted ->
  has_submitted_buffers (with_buffer a id s) = has_submitted_buffers a.
Proof.
  intros Hold Hs. apply eq_true_iff_eq. rewrite !has_submitted_iff. simpl. split; intros [k Hk].
  - exists k. destruct (decide (id = k)) as [->|]; simplify_map_eq; done.
  - exists k. destruct (decide (id = k)) as [->|]; [done|]. by rewrite lookup_insert_ne.
Qed.

(** The accounts see of a generation its source, its submitted buffers and
    whether its trigger is armed. *)
Lemma accounts_change a a' tr :
  accounts (Some a) tr -> ag_source a' = ag_source a ->
  (forall id, in_source (Some a') id = in_source (Some a) id) ->
  (is_Some (return_trigger_deadline a') <-> has_submitted_buffers a' = true) ->
  accounts (Some a') tr.
Proof.
  intros [] Hs Hin Ht. split; auto.
  - intros. by rewrite Hin.
  - intros. unfold is_active in *. by rewrite Hs.
  - intros g [= <-]. rewrite Hs. auto.
  - by intros g [= <-].
Qed.

Lemma accounts_available a tr id :
  accounts (Some a) tr -> ag_buffers a !! id = Some AwaitingInitial ->
  accounts (Some (with_buffer a id ActorAvailable)) tr.
Proof.
  intros Ha Hid. apply (accounts_change a); auto.
  - intros k. simpl. apply bool_decide_ext. destruct (decide (id = k)) as [->|]; simplify_map_eq; done.
  - rewrite has_submitted_insert by congruence. exact (acc_trigger _ _ Ha a eq_refl).
Qed.

Lemma accounts_publish a tr frame now :
  accounts (Some a) tr -> ag_buffers a !! buffer_id frame = Some ActorAvailable ->
  accounts (Some (arm_return_trigger (with_buffer a (buffer_id frame) Submitted) now))
    (tr ++ [CallPublish (ag_source a) frame]).
Proof.
  intros Ha Hid. set (a1 := with_buffer a (buffer_id frame) Submitted).
  set (a2 := arm_return_trigger a1 now).
  assert (ag_source a2 = ag_source a /\ ag_buffers a2 = ag_buffers a1) as [Hs Hb].
  { subst a2. unfold arm_return_trigger. by case_match. }
  destruct Ha as [A1 A2 A3 A4 A5].
  split; intros; unfold started_sources in *; rewrite ?count_app, ?omap_app in *; simpl in *; rewrite ?app_nil_r, ?Nat.add_0_r; auto.
  - rewrite A1. simpl. rewrite Hb. subst a1. simpl. destruct (Z.eqb_spec (buffer_id frame) id) as [<-|Hne].
    + rewrite lookup_insert. rewrite decide_True by done.
      rewrite (bool_decide_eq_true_2 (Some Submitted = Some Submitted)) by done.
      rewrite bool_decide_eq_false_2 by congruence. simpl. lia.
    + by rewrite lookup_insert_ne.
  - rewrite A3. unfold is_active. by rewrite Hs.
  - injection H as <-. rewrite Hs. auto.
  - injection H as <-.
    assert (has_submitted_buffers a2 = true) as Hsub.
    { apply has_submitted_iff. exists (buffer_id frame). rewrite Hb. subst a1. simpl. by simplify_map_eq. }
    rewrite Hsub. split; [done|]. intros _. subst a2. unfold arm_return_trigger in *.
    assert (has_submitted_buffers a1 = true) as ->.
    { apply has_submitted_iff. exists (buffer_id frame). subst a1. simpl. by simplify_map_eq. }
    rewrite andb_true_r. case_bool_decide as E; [done|]. by apply not_eq_None_Some.
Qed.

Lemma accounts_release a tr id g :
  accounts (Some a) tr -> ag_buffers a !! id = Some Submitted ->
  accounts (Some (disarm_return_trigger_if_idle (with_buffer a id ActorAvailable)))
    (tr ++ [Sent (Emit (BufferReleased g id))]).
Proof.
  intros Ha Hid. set (a1 := with_buffer a id ActorAvailable).
  set (a2 := disarm_return_trigger_if_idle a1).
  assert (ag_source a2 = ag_source a /\ ag_buffers a2 = ag_buffers a1) as [Hs Hb].
  { subst a2. unfold disarm_return_trigger_if_idle. by case_match. }
  destruct Ha as [A1 A2 A3 A4 A5].
  split; intros; unfold started_sources in *; rewrite ?count_app, ?omap_app in *; simpl in *; rewrite ?app_nil_r, ?Nat.add_0_r; auto.
  - rewrite A1. simpl. rewrite Hb. subst a1. simpl. destruct (Z.eqb_spec id id0) as [->|Hne].
    + rewrite lookup_insert. rewrite decide_True by done.
      rewrite (bool_decide_eq_true_2 (ag_buffers a !! id0 = _)) by done.
      rewrite bool_decide_eq_false_2 by congruence. simpl. lia.
    + rewrite lookup_insert_ne by done. simpl. lia.
  - rewrite A3. unfold is_active. by rewrite Hs.
  - injection H as <-. rewrite Hs. auto.
  - injection H as <-. subst a2. unfold disarm_return_trigger_if_idle.
    destruct (has_submitted_buffers a1) eqn:E.
    2:{ change (has_submitted_buffers (with_deadline a1 None)) with (has_submitted_buffers a1).
        rewrite E. split; [by intros []|done]. }
    rewrite E. split; [done|]. intros _. simpl. apply (A5 a eq_refl). apply has_submitted_iff. eauto.
Qed.

Lemma accounts_rearm a tr now n :
  accounts (Some a) tr ->
  accounts (Some (rearm_return_trigger a now)) (tr ++ [CallTrigger n]).
Proof.
  intros [A1 A2 A3 A4 A5].
  split; intros; unfold started_sources in *; rewrite ?count_app, ?omap_app in *; simpl in *; rewrite ?app_nil_r, ?Nat.add_0_r; auto.
  - injection H as <-. exact (A4 a eq_refl).
  - injection H as <-. cbn [rearm_return_trigger with_deadline return_trigger_deadline].
    change (has_submitted_buffers (rearm_return_trigger a now)) with (has_submitted_buffers a).
    destruct (has_submitted_buffers a); split; (done || by intros []).
Qed.

Lemma accounts_trigger_failed a tr n : accounts a tr -> accounts a (tr ++ [CallTrigger n]).
Proof.
  intros [].
  split; intros; unfold started_sources in *; rewrite ?count_app, ?omap_app in *; simpl in *; rewrite ?app_nil_r, ?Nat.add_0_r; auto.
Qed.

Lemma accounts_close a tr o :
  accounts (Some a) tr -> report_of o = Some (stop_report a) ->
  accounts None ((tr ++ [CallShutdown (ag_source a)]) ++ [Sent o]).
Proof.
  intros [A1 A2 A3 A4 A5] Ho.
  split; intros; unfold started_sources in *; rewrite ?count_app, ?omap_app in *; simpl in *; rewrite ?app_nil_r, ?Nat.add_0_r; try done.
  - rewrite A1. assert (give_back id (Sent o) = one (in_source (Some a) id)) as E.
    { unfold give_back. rewrite <- stop_report_occurrences. rewrite Ho.
      destruct o as [| | | |[]|]; done. }
    rewrite E. simpl. lia.
  - rewrite A3. simpl. specialize (A4 a eq_refl).
    destruct (Nat.eqb_spec (ag_source a) n) as [E|Hne]; simpl.
    + rewrite andb_false_r. simpl. destruct (Nat.ltb_spec n (length (omap started_source tr))); [done|lia].
    + by rewrite andb_true_r, Nat.add_0_r.
Qed.

Section Runs.
Context `{ManagedSource}.

Lemma accounts_start_failed tr g : accounts None tr -> accounts None (tr ++ [CallStart g None]).
Proof.
  intros []. split; intros; unfold started_sources in *; rewrite ?count_app, ?omap_app in *;
    simpl in *; rewrite ?app_nil_r, ?Nat.add_0_r; try done; auto.
  by rewrite acc_buffers0, Nat.add_0_r.
Qed.

Lemma accounts_start tr g id ids interval :
  accounts None tr ->
  accounts (Some (ActiveGeneration_new (length (started_sources tr)) id ids interval))
    (tr ++ [CallStart g (Some (length (started_sources tr)))]).
Proof.
  intros [A1 A2 A3 A4 A5].
  assert (forall k, list_to_map (M:=gmap Z ActorBufferState) ((fun b => (b, AwaitingInitial)) <$> ids) !! k
                    <> Some Submitted) as Hnew.
  { intros k Hk%elem_of_list_to_map_2. apply list_elem_of_fmap in Hk as (? & ? & _). done. }
  split; intros; unfold started_sources in *; rewrite ?count_app, ?omap_app in *;
    simpl in *; rewrite ?Nat.add_0_r in *.
  - rewrite A1. by rewrite bool_decide_eq_false_2.
  - rewrite length_app. simpl. rewrite seq_app, <- A2. done.
  - rewrite length_app, A3. simpl. rewrite andb_true_r.
    destruct (Nat.eqb_spec (length (omap started_source tr)) n); simpl;
      destruct (Nat.ltb_spec n (length (omap started_source tr))),
               (Nat.ltb_spec n (length (omap started_source tr) + 1)); simpl; lia.
  - injection H0 as <-. simpl. rewrite length_app. simpl. lia.
  - injection H0 as <-. simpl. rewrite has_submitted_iff. simpl. split; [by intros []|].
    intros [k Hk]. by apply Hnew in Hk.
Qed.

Lemma accounts_reused tr g n :
  accounts None tr -> n = length (started_sources tr) ->
  accounts None ((tr ++ [CallStart g (Some n)]) ++ [CallShutdown n]).
Proof.
  intros [A1 A2 A3 A4 A5] ->.
  split; intros; unfold started_sources in *; rewrite ?count_app, ?omap_app in *;
    simpl in *; rewrite ?app_nil_r, ?Nat.add_0_r in *; try done.
  - by rewrite A1, Nat.add_0_r.
  - rewrite length_app. simpl. rewrite seq_app, <- A2. done.
  - rewrite length_app, A3. simpl. rewrite !andb_true_r.
    destruct (Nat.eqb_spec (length (omap started_source tr)) n); simpl;
      destruct (Nat.ltb_spec n (length (omap started_source tr))),
               (Nat.ltb_spec n (length (omap started_source tr) + 1)); simpl; lia.
Qed.

Lemma start_generation_ok tr g h :
  accounts None tr ->
  match start_generation tr g h with
  | (log, Ok started) => accounts (Some started) log
  | (log, Err _) | (log, Panic) => accounts None log
  end.
Proof.
  intros Ha. unfold start_generation. cbv zeta. destruct (obind _ _) as [[]|e|]; [|done|done].
  destruct (source_start tr g) as [e|id]; [by apply accounts_start_failed|].
  case_bool_decide.
  - assert (accounts None ((tr ++ [CallStart g (Some (length (started_sources tr)))]) ++
      [CallShutdown (length (started_sources tr))])) by (by apply accounts_reused).
    by destruct (source_shutdown _ _).
  - by apply accounts_start.
Qed.

Ltac silent := apply accounts_output; [done|done|done].

Lemma command_step_ok s c :
  accounts (active s) (log s) -> accounts (active (command_step s c)) (log (command_step s c)).
Proof.
  intros Ha. destruct c as [g|gen frame|gen|reply]; simpl.
  - destruct (active s) as [a|] eqn:Hact; [simpl; rewrite ?Hact; silent|].
    pose proof (start_generation_ok (log s) g (history s) Ha) as Hst.
    destruct (start_generation _ _ _) as [l [started|e|]]; simpl; [silent|silent|by rewrite app_nil_r].
  - destruct (active s) as [a|] eqn:Hact; [|simpl; silent].
    case_match; [|simpl; rewrite ?Hact; silent].
    unfold publish_frame. destruct (ag_buffers a !! buffer_id frame) as [[]|] eqn:Hb; simpl; try silent.
    apply accounts_output; [|done|done].
    assert (ag_source (arm_return_trigger (with_buffer a (buffer_id frame) Submitted) (clock (log s)))
            = ag_source a) as -> by (unfold arm_return_trigger; by case_match).
    by apply accounts_publish.
  - destruct (active s) as [a|] eqn:Hact; [|simpl; silent].
    destruct (negb _); [simpl; rewrite ?Hact; silent|].
    simpl. apply accounts_close; [done|]. by destruct (source_shutdown _ _).
  - destruct (active s) as [a|] eqn:Hact.
    + simpl. apply accounts_close; [done|]. by destruct reply, (source_shutdown _ _).
    + destruct reply; simpl; [silent|by rewrite app_nil_r].
Qed.

Lemma abandon_ok s : accounts (active s) (log s) -> accounts (active (abandon s)) (log (abandon s)).
Proof.
  intros Ha. unfold abandon. destruct (active s) as [a|]; [|simpl; by rewrite app_nil_r].
  simpl. apply accounts_close; [done|]. by destruct (source_shutdown _ _).
Qed.

Lemma handle_source_event_ok tr a e :
  accounts (Some a) tr ->
  match handle_source_event a e with
  | (a', Ok (Some event)) => accounts (Some a') (tr ++ [Sent (Emit event)])
  | (a', Ok None) | (a', Panic) => False
  | (a', Err _) => a' = a
  end.
Proof.
  intros Ha. destruct e as [[id t|id|e|]|]; simpl; try done.
  - destruct (ag_buffers a !! id) as [[]|] eqn:Hb; try done.
    apply accounts_output; [by apply accounts_available|done|done].
  - destruct (ag_buffers a !! id) as [[]|] eqn:Hb; try done. by apply accounts_release.
Qed.

Lemma actor_step_ok s input :
  accounts (active s) (log s) -> accounts (active (actor_step s input)) (log (actor_step s input)).
Proof.
  intros Ha. unfold actor_step. destruct (running s); simpl; [|done].
  destruct input as [[c|]|e|].
  - by apply command_step_ok.
  - by apply abandon_ok.
  - destruct (active s) as [a|] eqn:Hact; [|by rewrite ?Hact].
    pose proof (handle_source_event_ok (log s) a e Ha) as Hev.
    destruct (handle_source_event a e) as [a' [[event|]|err|]]; [|done| |done].
    + case_match; [done|]. by apply abandon_ok.
    + subst a'. simpl. by apply accounts_close.
  - destruct (active s) as [a|] eqn:Hact; [|by rewrite ?Hact].
    destruct (return_trigger_deadline a); [|by rewrite ?Hact].
    case_match; simpl; rewrite app_nil_r; [|by apply accounts_rearm].
    apply accounts_close; [by apply accounts_trigger_failed|done].
Qed.

Lemma actor_run_ok inputs : accounts (active (actor_run inputs)) (log (actor_run inputs)).
Proof.
  unfold actor_run. induction inputs as [|i inputs IH] using rev_ind.
  - by split.
  - rewrite foldl_app. by apply actor_step_ok.
Qed.

(** C32: The video-source actor gives every buffer back once and closes every
    source once.  After any inputs, for any behaviour of the sources: each
    buffer has been handed to a source exactly as often as it came back (by a
    release event or in the report of a stopped or failed generation), plus one
    while it is submitted; every source that was started has been shut down
    exactly once, except the active one, which has not been; and the timer that
    asks PipeWire for returned buffers is armed exactly while a buffer is out. *)
Theorem video_source_accounts inputs :
  let s := actor_run inputs in
  (forall id, count (handoff id) (log s)
              = (count (give_back id) (log s) + one (in_source (active s) id))%nat) /\
  (forall n, count (shutdown_of n) (log s)
             = one (bool_decide (n ∈ started_sources (log s)) && negb (is_active (active s) n))) /\
  (forall a, active s = Some a -> ag_source a ∈ started_sources (log s) /\
             (is_Some (return_trigger_deadline a) <-> exists id, ag_buffers a !! id = Some Submitted)).
Proof.
  cbv zeta. destruct (actor_run_ok inputs) as [A1 A2 A3 A4 A5].
  assert (forall n, n ∈ started_sources (log (actor_run inputs)) <->
                    (n < length (started_sources (log (actor_run inputs))))%nat) as Hin.
  { intros n. rewrite A2 at 1. rewrite elem_of_seq. lia. }
  split_and!; [done| |].
  - intros n. rewrite A3. do 2 f_equal. apply eq_true_iff_eq.
    rewrite Nat.ltb_lt, bool_decide_eq_true. by rewrite Hin.
  - intros a Ha. rewrite Hin, <- has_submitted_iff. auto.
Qed.

End Runs.

(** ** Generations *)

Definition started_identity (c : actor_action) : option VideoNodeIdentity :=
  match c with Sent (ReplyStart (inr i)) => Some i | _ => None end.
Definition started_identities (tr : trace) : list VideoNodeIdentity := omap started_identity tr.

(** A generation is newer than the one before and shares neither its node name
    nor its object serial. *)
Definition succeeds (i j : VideoNodeIdentity) : Prop :=
  media_generation i < media_generation j /\ ni_node_name i <> ni_node_name j /\
  object_serial i <> object_serial j.

Definition history_of (o : option VideoNodeIdentity) : ActorHistory :=
  {| h_generation := media_generation <$> o; h_node_name := ni_node_name <$> o;
     h_object_serial := object_serial <$> o |}.

Section Generations.
Context `{ManagedSource}.

(** A source runs the generation it was asked for, under the requested name. *)
Definition source_faithful : Prop :=
  forall tr g i, source_start tr g = inr i ->
    media_generation i = cfg_media_generation (config g) /\ ni_node_name i = node_name (config g).

Lemma start_generation_new tr g prev :
  source_faithful ->
  match start_generation tr g (history_of prev) with
  | (tr', Ok started) =>
      started_identities tr' = started_identities tr /\
      match prev with Some i => succeeds i (ag_identity started) | None => True end
  | (tr', _) => started_identities tr' = started_identities tr
  end.
Proof.
  intros Hf. unfold start_generation, started_identities. cbv zeta.
  destruct (obind _ _) as [[]|e|] eqn:Hc; [|done|done].
  rewrite !seq_ok, reject_ok in Hc. destruct Hc as (_ & Hgen & Hname).
  destruct (source_start tr g) as [e|i] eqn:Hs; [by rewrite omap_app, app_nil_r|].
  apply Hf in Hs as [Hg Hn].
  destruct (bool_decide (h_object_serial _ = _)) eqn:Hser.
  - destruct (source_shutdown _ _); cbv iota beta; rewrite !omap_app; simpl; by rewrite !app_nil_r.
  - split; [by rewrite omap_app, app_nil_r|]. destruct prev as [p|]; [|done]. simpl in *.
    apply reject_ok in Hgen. breflect. unfold succeeds. rewrite Hg, Hn. split_and!; [done|congruence|congruence].
Qed.

(** What a step adds to the started generations. *)
Lemma actor_step_generations s input prev :
  source_faithful -> history s = history_of prev ->
  (history (actor_step s input) = history s /\
   started_identities (log (actor_step s input)) = started_identities (log s)) \/
  (exists i, history (actor_step s input) = history_of (Some i) /\
     started_identities (log (actor_step s input)) = started_identities (log s) ++ [i] /\
     match prev with Some p => succeeds p i | None => True end).
Proof.
  intros Hf Hh. unfold actor_step. destruct (running s); simpl; [|by left].
  assert (forall l c, started_identity c = None ->
    started_identities (l ++ [c]) = started_identities l) as Hcall.
  { intros l c Ho. unfold started_identities. rewrite omap_app.
    cbn [omap list_omap]. by rewrite Ho, app_nil_r. }
  assert (forall l, started_identities (l ++ []) = started_identities l) as Hnil
    by (intros l; by rewrite app_nil_r).
  assert (forall s', (history (abandon s') = history s' /\
    started_identities (log (abandon s')) = started_identities (log s'))) as Hab.
  { intros s'. unfold abandon. destruct (active s'); simpl; by rewrite ?Hnil, ?Hcall, ?Hnil. }
  destruct input as [[c|]|e|].
  - destruct c as [g|gen frame|gen|reply]; simpl.
    + destruct (active s); [left; simpl; by rewrite Hcall|].
      rewrite Hh. pose proof (start_generation_new (log s) g prev Hf) as Hst.
      destruct (start_generation _ _ _) as [l [started|e|]]; simpl.
      * destruct Hst as [Hst Hs]. right. exists (ag_identity started). split_and!; [done| |done].
        unfold started_identities in *. rewrite omap_app, Hst. done.
      * left. by rewrite Hcall.
      * left. by rewrite Hnil.
    + left. destruct (active s) as [a|]; [|simpl; by rewrite Hcall]. destruct (_ =? _); [|simpl; by rewrite Hcall].
      unfold publish_frame. destruct (ag_buffers a !! buffer_id frame) as [[]|]; simpl; by rewrite ?Hnil, ?Hcall.
    + left. destruct (active s) as [a|]; [|simpl; by rewrite Hcall].
      destruct (negb _); simpl; by rewrite ?Hnil, ?Hcall.
    + left. destruct (active s) as [a|]; simpl; [destruct reply; by rewrite !Hcall|].
      destruct reply; simpl; by rewrite ?Hnil, ?Hcall.
  - left. apply Hab.
  - left. destruct (active s) as [a|]; [|done]. destruct (handle_source_event a e) as [a' [[ev|]|err|]]; simpl.
    + case_match; [simpl; by rewrite Hcall|]. destruct (Hab (set s (Some a') (log s) [Emit ev] true)) as [-> ->].
      simpl. by rewrite Hcall.
    + by rewrite Hnil.
    + by rewrite !Hcall.
    + by rewrite Hnil.
  - left. destruct (active s) as [a|]; [|done]. destruct (return_trigger_deadline a); [|done].
    case_match; simpl; by rewrite ?Hnil, ?Hcall, ?Hnil, ?Hcall, ?Hnil.
Qed.

(** Media generations never go back.  Over any inputs, the generations that
    the actor reports as started have strictly increasing numbers, and each
    differs from the one before in its node name and its PipeWire object serial,
    so a consumer of an old node cannot mistake the new one for it. *)
Theorem video_source_generations inputs :
  source_faithful ->
  paced succeeds None (started_identities (log (actor_run inputs))).
Proof.
  intros Hf.
  assert (history (actor_run inputs) = history_of (last (started_identities (log (actor_run inputs)))) /\
          paced succeeds None (started_identities (log (actor_run inputs)))) as [_ Hp]; [|exact Hp].
  unfold actor_run. induction inputs as [|i inputs [IHh IHp]] using rev_ind; [done|].
  rewrite foldl_app. simpl.
  destruct (actor_step_generations _ i _ Hf IHh) as [[-> ->]|(id & -> & -> & Hs)]; [done|].
  rewrite last_snoc. split; [done|]. rewrite paced_app. split; [done|].
  destruct (last _); simpl; done.
Qed.

End Generations.

(** ** The actor with the tracker of its source

    The source runs [BufferTracker] on the PipeWire side: PipeWire binds the
    buffers of the pool and returns them, the source queues an event for each
    return, and the actor's publications reach the tracker in order. *)

Record pipeline := {
  pl_actor : ActiveGeneration; pl_tracker : BufferTracker; pl_queue : list VideoSourceEvent }.

Inductive pipeline_input :=
  | Bind (id : Z) (t : PipeWireBufferTransport)
  | Return (id : Z) (release : option Z)
  | PublishTo (frame : VideoFrame)
  | Deliver.

Definition event_of_return (r : BufferReturn) : VideoSourceEvent :=
  match r with
  | Initial id t => SourceBufferAvailable id t
  | Released id => SourceBufferReleased id
  end.

(** What a pipeline step reports: the tracker's verdict on a publication, or
    the actor's on an event. *)
Inductive pipeline_report :=
  | Quiet
  | PublishResult (r : outcome VideoSourceRuntimeError unit)
  | DeliverResult (r : outcome VideoSourceActorRuntimeError (option VideoSourceActorEvent)).

Definition pipeline_step (p : pipeline) (i : pipeline_input) : pipeline * pipeline_report :=
  match i with
  | Bind id t =>
      ({| pl_actor := pl_actor p; pl_tracker := (bind (pl_tracker p) id t).1; pl_queue := pl_queue p |}, Quiet)
  | Return id release =>
      let '(t, r) := returned (pl_tracker p) id release in
      ({| pl_actor := pl_actor p; pl_tracker := t;
          pl_queue := pl_queue p ++ match r with Ok r => [event_of_return r] | _ => [] end |}, Quiet)
  | PublishTo frame =>
      match ag_buffers (pl_actor p) !! buffer_id frame with
      | Some ActorAvailable =>
          let '(t, r) := publish (pl_tracker p) frame in
          ({| pl_actor := arm_return_trigger (with_buffer (pl_actor p) (buffer_id frame) Submitted) 0;
              pl_tracker := t; pl_queue := pl_queue p |}, PublishResult r)
      | _ => (p, Quiet)
      end
  | Deliver =>
      match pl_queue p with
      | [] => (p, Quiet)
      | e :: queue =>
          let '(a, r) := handle_source_event (pl_actor p) (Some e) in
          ({| pl_actor := a; pl_tracker := pl_tracker p; pl_queue := queue |}, DeliverResult r)
      end
  end.

Definition pipeline_init (g : VideoSourceGeneration) (source : nat) (i : VideoNodeIdentity) : pipeline :=
  {| pl_actor := ActiveGeneration_new source i (vb_id <$> buffers g)
                   (return_trigger_interval (refresh_hz (config g)));
     pl_tracker := tracker_new (buffers g); pl_queue := [] |}.

Definition pipeline_run (p : pipeline) (l : list pipeline_input) : pipeline :=
  foldl (fun p i => (pipeline_step p i).1) p l.

(** The events queued for a buffer. *)
Definition event_id (e : VideoSourceEvent) : option Z :=
  match e with
  | SourceBufferAvailable id _ | SourceBufferReleased id => Some id
  | _ => None
  end.
Definition queued (id : Z) (q : list VideoSourceEvent) : list VideoSourceEvent :=
  List.filter (fun e => bool_decide (event_id e = Some id)) q.

(** What the actor thinks, what the tracker knows, and what is on its way. *)
Inductive agree (id : Z) :
    option ActorBufferState -> option Ownership -> list VideoSourceEvent -> Prop :=
  | agree_unknown : agree id None None []
  | agree_unbound : agree id (Some AwaitingInitial) (Some Unbound) []
  | agree_bound : agree id (Some AwaitingInitial) (Some (ServerOwned false None)) []
  | agree_initial t : agree id (Some AwaitingInitial) (Some Available) [SourceBufferAvailable id t]
  | agree_available : agree id (Some ActorAvailable) (Some Available) []
  | agree_submitted r : agree id (Some Submitted) (Some (ServerOwned true r)) []
  | agree_released : agree id (Some Submitted) (Some Available) [SourceBufferReleased id]
  | agree_refused : agree id (Some Submitted) (Some Available) [].

Definition bound_transport (s : Slot) : Prop :=
  ownership s <> Unbound -> is_Some (transport s).

Record pipeline_ok (p : pipeline) : Prop := {
  po_agree id : agree id (ag_buffers (pl_actor p) !! id)
                  (ownership <$> find_slot (pl_tracker p) id) (queued id (pl_queue p));
  po_transport id s : find_slot (pl_tracker p) id = Some s -> bound_transport s;
  po_events e : e ∈ pl_queue p -> is_Some (event_id e) }.

Lemma queued_app id q q' : queued id (q ++ q') = queued id q ++ queued id q'.
Proof. apply List.filter_app. Qed.

Lemma pipeline_init_ok g source i : NoDup (vb_id <$> buffers g) -> pipeline_ok (pipeline_init g source i).
Proof.
  intros Hnd. split; cbn [pipeline_init pl_actor pl_tracker pl_queue].
  - intros id. change (queued id []) with (@nil VideoSourceEvent). simpl. unfold find_slot. simpl.
    clear Hnd. induction (buffers g) as [|b l IH]; [constructor|]. cbn [fmap list_fmap list_to_map foldr].
    simpl. destruct (Z.eqb_spec (vb_id b) id) as [->|Hne].
    + rewrite lookup_insert, decide_True by done. constructor.
    + rewrite lookup_insert_ne by done. apply IH.
  - intros id s (_ & Hs)%find_slot_id. simpl in Hs.
    apply list_elem_of_fmap in Hs as (b & -> & _). by intros [].
  - intros e He. by apply elem_of_nil in He.
Qed.

(** Changing one buffer leaves what is known of the others. *)
Lemma pipeline_ok_update p id a tr t own q :
  pipeline_ok p ->
  (forall k, k <> id -> ag_buffers a !! k = ag_buffers (pl_actor p) !! k) ->
  (forall k, k <> id -> find_slot t k = find_slot (pl_tracker p) k) ->
  (forall k, k <> id -> queued k q = queued k (pl_queue p)) ->
  (forall s, find_slot t id = Some s -> transport s = tr /\ ownership s = own) ->
  (own <> Unbound -> is_Some tr) -> (forall e, e ∈ q -> is_Some (event_id e)) ->
  agree id (ag_buffers a !! id) (ownership <$> find_slot t id) (queued id q) ->
  pipeline_ok {| pl_actor := a; pl_tracker := t; pl_queue := q |}.
Proof.
  intros [P1 P2 P3] Ha Ht Hq Hs Hown He Hid. split; simpl; [|intros k s Hk|done].
  - intros k. destruct (decide (k = id)) as [->|Hne]; [done|].
    rewrite Ha, Ht, Hq by done. apply P1.
  - destruct (decide (k = id)) as [->|Hne].
    + apply Hs in Hk as [<- <-]. exact Hown.
    + rewrite Ht in Hk by done. eapply P2; exact Hk.
Qed.

Lemma queued_ne k id e q : event_id e = Some id -> k <> id -> queued k (q ++ [e]) = queued k q.
Proof.
  intros He Hk. rewrite queued_app. unfold queued at 2. simpl.
  rewrite He, bool_decide_eq_false_2 by congruence. by rewrite app_nil_r.
Qed.

Lemma queued_eq id e q : event_id e = Some id -> queued id (q ++ [e]) = queued id q ++ [e].
Proof.
  intros He. rewrite queued_app. unfold queued at 2. simpl.
  by rewrite He, bool_decide_eq_true_2.
Qed.

Lemma pipeline_bind_ok p id t : pipeline_ok p -> pipeline_ok (pipeline_step p (Bind id t)).1.
Proof.
  intros Hp. pose proof Hp as [P1 P2 P3]. simpl. unfold bind, slot_mut.
  destruct (find_slot (pl_tracker p) id) as [s|] eqn:Hs; simpl; [|by destruct p].
  destruct (negb (bool_decide (ownership s = Unbound)) || _) eqn:Hc; simpl; [by destruct p|].
  apply orb_false_iff in Hc as [Hc _]. breflect.
  eapply (pipeline_ok_update p id _ (Some t) _ (ServerOwned false None)); try done.
  - intros k Hk. by rewrite find_put, decide_False.
  - intros s'. rewrite find_put, decide_True, Hs by done. simpl. by intros [= <-].
  - rewrite find_put, decide_True, Hs by done. simpl. specialize (P1 id). rewrite Hs in P1. simpl in P1.
    rewrite Hc in P1. inversion P1. constructor.
Qed.

Lemma pipeline_return_ok p id r : pipeline_ok p -> pipeline_ok (pipeline_step p (Return id r)).1.
Proof.
  intros Hp. pose proof Hp as [P1 P2 P3]. simpl. unfold returned, slot_mut.
  destruct (find_slot (pl_tracker p) id) as [s|] eqn:Hs; simpl; [|rewrite app_nil_r; by destruct p].
  destruct (ownership s) as [|fs er|] eqn:Ho; simpl; try (rewrite app_nil_r; by destruct p).
  destruct (negb _) eqn:Hr; simpl; [rewrite app_nil_r; by destruct p|].
  destruct (P2 id s Hs) as [t Ht]; [congruence|]. rewrite Ht.
  specialize (P1 id). rewrite Hs in P1. simpl in P1. rewrite Ho in P1.
  destruct fs; simpl;
    (eapply (pipeline_ok_update p id _ (Some t) _ Available); try done;
     [intros k Hk; by rewrite find_put, decide_False
     |intros k Hk; by apply (queued_ne k id)
     |intros s'; rewrite find_put, decide_True, Hs by done; simpl; by intros [= <-]
     |intros e [He|He%list_elem_of_singleton]%elem_of_app; [by apply P3|by subst]
     |rewrite find_put, decide_True, Hs by done; simpl; rewrite queued_eq by done]).
  - inversion P1. constructor.
  - inversion P1. constructor.
Qed.

Lemma publish_available t frame s :
  find_slot t (buffer_id frame) = Some s -> ownership s = Available -> is_Some (transport s) ->
  exists tr, transport s = Some tr /\
  (publish t frame = (put_slot t (buffer_id frame) (Some tr) (ServerOwned true (acquire_point frame)), Ok tt) \/
   exists e, publish t frame = (t, Err e) /\
     (e = InvalidDamage (buffer_id frame) \/ e = MissingAcquirePoint (buffer_id frame) \/
      e = UnexpectedAcquirePoint (buffer_id frame))).
Proof.
  intros Hs Ho [tr Ht]. exists tr. split; [done|]. unfold publish, slot_mut. rewrite Hs. simpl. rewrite Ho.
  rewrite bool_decide_eq_true_2 by done. simpl. destruct (is_bounded_by _ _); simpl; [|by eauto].
  rewrite Ht. simpl. destruct tr, (acquire_point frame); eauto 6.
Qed.

Lemma pipeline_publish_ok p frame :
  pipeline_ok p ->
  pipeline_ok (pipeline_step p (PublishTo frame)).1 /\
  match (pipeline_step p (PublishTo frame)).2 with
  | PublishResult (Ok _) => True
  | PublishResult (Err e) => e = InvalidDamage (buffer_id frame) \/
      e = MissingAcquirePoint (buffer_id frame) \/ e = UnexpectedAcquirePoint (buffer_id frame)
  | PublishResult Panic | DeliverResult _ => False
  | Quiet => True
  end.
Proof.
  intros Hp. pose proof Hp as [P1 P2 P3]. unfold pipeline_step.
  destruct (ag_buffers (pl_actor p) !! buffer_id frame) as [[]|] eqn:Hb; try done.
  specialize (P1 (buffer_id frame)) as Hag. rewrite Hb in Hag.
  destruct (find_slot (pl_tracker p) (buffer_id frame)) as [s|] eqn:Hs; simpl in Hag; [|by inversion Hag].
  assert (ownership s = Available /\ queued (buffer_id frame) (pl_queue p) = []) as [Ho Hq] by (by inversion Hag).
  destruct (publish_available _ _ s Hs Ho) as (tr & Ht & Hpub); [by apply (P2 _ _ Hs); rewrite Ho|].
  assert (forall k, ag_buffers (arm_return_trigger (with_buffer (pl_actor p) (buffer_id frame) Submitted) 0) !! k
    = <[buffer_id frame := Submitted]> (ag_buffers (pl_actor p)) !! k) as Ha
    by (intros k; unfold arm_return_trigger; by case_match).
  destruct Hpub as [->|(e & -> & He)]; (split; [|done]).
  - eapply (pipeline_ok_update p (buffer_id frame) _ (Some tr) _ (ServerOwned true (acquire_point frame)));
      try done.
    + intros k Hk. rewrite Ha. by rewrite lookup_insert_ne.
    + intros k Hk. by rewrite find_put, decide_False.
    + intros s'. rewrite find_put, decide_True, Hs by done. simpl. by intros [= <-].
    + rewrite Ha, lookup_insert, decide_True, find_put, decide_True, Hs, Hq by done. constructor.
  - eapply (pipeline_ok_update p (buffer_id frame) _ (Some tr) _ Available); try done.
    + intros k Hk. rewrite Ha. by rewrite lookup_insert_ne.
    + intros s'. rewrite Hs. by intros [= <-].
    + rewrite Ha, lookup_insert, decide_True, Hs, Hq by done. simpl. rewrite Ho. constructor.
Qed.

Lemma pipeline_deliver_ok p :
  pipeline_ok p ->
  pipeline_ok (pipeline_step p Deliver).1 /\
  match (pipeline_step p Deliver).2 with
  | DeliverResult r => exists event, r = Ok (Some event)
  | PublishResult _ => False
  | Quiet => True
  end.
Proof.
  intros Hp. pose proof Hp as [P1 P2 P3]. unfold pipeline_step.
  destruct (pl_queue p) as [|e q] eqn:Hq; [done|].
  destruct (P3 e) as [id Hid]; [left|].
  specialize (P1 id) as Hag. unfold queued in Hag. simpl in Hag.
  rewrite Hid, bool_decide_eq_true_2 in Hag by done. fold (queued id q) in Hag.
  assert (forall k, k <> id -> queued k q = queued k (pl_queue p)) as Hqk.
  { intros k Hk. rewrite Hq. unfold queued at 2. simpl. rewrite Hid, bool_decide_eq_false_2 by congruence. done. }
  assert (forall e', e' ∈ q -> is_Some (event_id e')) as Hev by (intros e' He'; apply P3; by right).
  destruct (find_slot (pl_tracker p) id) as [s|] eqn:Hs; simpl in Hag; [|by inversion Hag].
  assert (ownership s = Available -> is_Some (transport s)) as Htr by (intros Ho; apply (P2 _ _ Hs); by rewrite Ho).
  inversion Hag as [| | |t E1 E2 E3| | |E1 E2 E3|]; subst; simpl; rewrite <- E1; simpl; (split; [|by eauto]).
  - eapply (pipeline_ok_update p id _ (transport s) _ Available); try done.
    + intros k Hk. simpl. by rewrite lookup_insert_ne.
    + intros s'. rewrite Hs. by intros [= <-].
    + by intros _; apply Htr.
    + simpl. rewrite lookup_insert, decide_True, Hs by done. simpl. rewrite <- E2, <- H. constructor.
  - assert (forall k, ag_buffers (disarm_return_trigger_if_idle (with_buffer (pl_actor p) id ActorAvailable)) !! k
      = <[id := ActorAvailable]> (ag_buffers (pl_actor p)) !! k) as Ha
      by (intros k; unfold disarm_return_trigger_if_idle; by case_match).
    eapply (pipeline_ok_update p id _ (transport s) _ Available); try done.
    + intros k Hk. rewrite Ha. by rewrite lookup_insert_ne.
    + intros s'. rewrite Hs. by intros [= <-].
    + by intros _; apply Htr.
    + rewrite Ha, lookup_insert, decide_True, Hs by done. simpl. rewrite <- E2, <- H. constructor.
Qed.

Lemma pipeline_run_ok p l : pipeline_ok p -> pipeline_ok (pipeline_run p l).
Proof.
  intros Hp. unfold pipeline_run. induction l as [|i l IH] using rev_ind; [done|]. rewrite foldl_app. simpl.
  destruct i; [by apply pipeline_bind_ok|by apply pipeline_return_ok|
               by apply pipeline_publish_ok|by apply pipeline_deliver_ok].
Qed.

(** The two views of buffer ownership never disagree.  For a validated pool,
    whatever PipeWire binds and returns and whatever is published, in any
    interleaving and with events delivered any time later: the actor accepts
    every event that the source's tracker gives rise to (a generation never
    fails for an ownership mismatch), and a publication the actor lets through
    is never refused for ownership, only for damage outside the frame or for a
    synchronization point that does not fit the buffer's transport. *)
Theorem video_source_composes g source i l input :
  validate (config g) (buffers g) = Ok tt ->
  Forall (fun b => layout_typed (vb_layout b)) (buffers g) ->
  match (pipeline_step (pipeline_run (pipeline_init g source i) l) input).2 with
  | Quiet | PublishResult (Ok _) => True
  | PublishResult (Err e) =>
      exists id, e = InvalidDamage id \/ e = MissingAcquirePoint id \/ e = UnexpectedAcquirePoint id
  | DeliverResult r => exists event, r = Ok (Some event)
  | PublishResult Panic => False
  end.
Proof.
  intros Hv Hty. assert (NoDup (vb_id <$> buffers g)) as Hnd.
  { unfold validate in Hv. rewrite !seq_ok in Hv. destruct Hv as (_ & _ & _ & _ & _ & Hv). ok_inv.
    eapply validate_buffers_ok. eassumption. }
  pose proof (pipeline_run_ok _ l (pipeline_init_ok g source i Hnd)) as Hp.
  set (p := pipeline_run _ l) in *. destruct input.
  - done.
  - unfold pipeline_step. by destruct (returned _ _ _).
  - destruct (pipeline_publish_ok p frame Hp) as [_ H].
    destruct (pipeline_step p (PublishTo frame)).2 as [|[|e|]|]; try done. by exists (buffer_id frame).
  - destruct (pipeline_deliver_ok p Hp) as [_ H]. by destruct (pipeline_step p Deliver).2.
Qed.

(** ** A source in use *)

Definition ex_layout : VideoBufferLayout :=
  {| width := 640; height := 480; pitch := 2560; size := 1228800; modifier := 0 |}.
Definition ex_config (generation : Z) : VideoSourceConfig :=
  {| node_name := [110; generation]; node_description := [100]; session_id := [115];
     device_instance := [105]; connector_id := 1; output_index := 0; grant_id := 1;
     cfg_media_generation := generation; refresh_hz := 60 |}.
Definition ex_generation (generation : Z) : VideoSourceGeneration :=
  {| config := ex_config generation;
     buffers := (fun id => {| vb_id := id; vb_layout := ex_layout; vb_timelines := true |}) <$> [1; 2] |}.
Definition ex_frame (id : Z) : VideoFrame :=
  {| buffer_id := id; sequence := 1; pts_ns := 0;
     damage := {| dmg_x := 0; dmg_y := 0; dmg_width := 640; dmg_height := 480 |};
     discontinuity := false; acquire_point := Some 5 |}.
Definition ex_identity (generation : Z) : VideoNodeIdentity :=
  {| ni_node_name := [110; generation]; object_id := 7; object_serial := 100 + generation;
     media_generation := generation |}.

(** A source that starts and does what it is asked. *)
Global Instance ex_source : ManagedSource := {|
  source_start _ g := inr {| ni_node_name := node_name (config g); object_id := 7;
                             object_serial := 100 + cfg_media_generation (config g);
                             media_generation := cfg_media_generation (config g) |};
  source_publish _ _ _ := None; source_trigger _ _ := None; source_shutdown _ _ := None;
  clock _ := 0; events_open _ := true |}.

Lemma config_accepts_witness :
  validate (ex_config 1) (buffers (ex_generation 1)) = Ok tt /\
  NoDup (vb_id <$> buffers (ex_generation 1)).
Proof.
  destruct (config_accepts (ex_config 1) (buffers (ex_generation 1))) as [_ H].
  - repeat constructor; unfold uint; simpl; (lia || discriminate).
  - assert (validate (ex_config 1) (buffers (ex_generation 1)) = Ok tt) as Hv by reflexivity.
    split; [exact Hv|]. apply H in Hv as (_ & _ & Hnd & _). exact Hnd.
Defined.

Lemma video_source_generations_witness :
  started_identities (log (actor_run [Command (Some (Start (ex_generation 1)));
                                      Command (Some (Stop 1)); Command (Some (Start (ex_generation 2)))]))
    = [ex_identity 1; ex_identity 2] /\
  paced succeeds None (started_identities (log (actor_run
    [Command (Some (Start (ex_generation 1))); Command (Some (Stop 1));
     Command (Some (Start (ex_generation 2)))]))).
Proof.
  split; [vm_compute; reflexivity|].
  apply (video_source_generations [Command (Some (Start (ex_generation 1))); Command (Some (Stop 1));
     Command (Some (Start (ex_generation 2)))]).
  intros tr g i [= <-]. split; reflexivity.
Defined.

Definition ex_pipeline : pipeline :=
  pipeline_run (pipeline_init (ex_generation 1) 0 (ex_identity 1))
    [Bind 1 SyncTimeline; Return 1 None; Deliver; PublishTo (ex_frame 1); Return 1 (Some 5)].

Lemma video_source_composes_witness :
  (pipeline_step ex_pipeline Deliver).2 = DeliverResult (Ok (Some (BufferReleased 1 1))) /\
  match (pipeline_step ex_pipeline Deliver).2 with
  | Quiet | PublishResult (Ok _) => True
  | PublishResult (Err e) =>
      exists id, e = InvalidDamage id \/ e = MissingAcquirePoint id \/ e = UnexpectedAcquirePoint id
  | DeliverResult r => exists event, r = Ok (Some event)
  | PublishResult Panic => False
  end.
Proof.
  split; [vm_compute; reflexivity|].
  apply (video_source_composes (ex_generation 1) 0 (ex_identity 1)
    [Bind 1 SyncTimeline; Return 1 None; Deliver; PublishTo (ex_frame 1); Return 1 (Some 5)] Deliver);
    [reflexivity|].
  repeat constructor; unfold uint; simpl; (lia || discriminate).
Defined.
