(* ===== verification/MediaSession.v ===== *)
(** * The media-session actor (crates/pronk/src/media_session.rs)

    The actor owns the order of the media phases of one display: capture is
    started, then the backend's media, and whatever was started is stopped
    before anything else is started.  The driver that carries the phases out is
    the trait [MediaSessionDriver] of the code: here a class of functions of the
    record of what happened so far, so any phase may fail or time out at any
    time.  Text is given by its UTF-8 bytes.

    The file holds the actor, the automaton that says what its users may rely
    on ([Protocol]) with the proof that the actor follows it, the bounds of the
    published error and of the shutdown budget, and the coordinator that lets a
    newer request interrupt the phase of an older one. *)

From S2P Require Import Prelude Bytes Text Time Actor DisplayState.

Definition COMMAND_CAPACITY : Z := 32.
Definition MAX_ERROR_BYTES : nat := 512.
Definition DEFAULT_MEDIA_PHASE_TIMEOUT : Z := from_secs 15.

(** ** Data *)

Record MediaRoute := { mr_route_generation : Z; mr_target : Z; mr_mode : RoutedMode }.

Definition from_display_state (s : DisplayRuntimeState) : option MediaRoute :=
  match DisplayState.route s with
  | Disabled => None
  | Active r =>
      if negb (DisplayState.route_generation s =? 0) then
        Some {| mr_route_generation := DisplayState.route_generation s;
                mr_target := ar_target r; mr_mode := ar_mode r |}
      else None
  end.

Record MediaStartRequest := { sr_media_generation : Z; sr_route : MediaRoute }.

Inductive MediaSuspendReason := GrantUnavailable | DeviceUnavailable | SessionInactive.

Inductive MediaStopReason :=
  | OutputDisabled | ModeChanged | DisplayRemoved | BackendShutdown | TransportFailure.

Record MediaSessionSnapshot := {
  ms_revision : Z;
  ms_media_generation : Z;
  ms_state : MediaState;
  ms_route : option MediaRoute;
  ms_last_error : option (list Z) }.

Definition idle : MediaSessionSnapshot :=
  {| ms_revision := 1; ms_media_generation := 0; ms_state := Idle; ms_route := None;
     ms_last_error := None |}.

Inductive MediaSessionActorError :=
  | NoRuntime
  | InvalidPolicy
  | SessionStopped
  | Join (message : list Z)
  | InvalidRouteGeneration
  | GenerationExhausted
  | ControlGenerationExhausted
  | SuspendUnavailable (state : MediaState)
  | RetryUnavailable (state : MediaState)
  | PhaseTimeout (phase : string) (timeout : Z)
  | Driver (phase : string) (source : list Z)
  | CombinedShutdown (media final_error : list Z).

Global Instance MediaRoute_eq_dec : EqDecision MediaRoute.
Proof. solve_decision. Defined.
Global Instance MediaStartRequest_eq_dec : EqDecision MediaStartRequest.
Proof. solve_decision. Defined.
Global Instance MediaSuspendReason_eq_dec : EqDecision MediaSuspendReason.
Proof. solve_decision. Defined.
Global Instance MediaStopReason_eq_dec : EqDecision MediaStopReason.
Proof. solve_decision. Defined.
Global Instance MediaSessionSnapshot_eq_dec : EqDecision MediaSessionSnapshot.
Proof. solve_decision. Defined.
Global Instance MediaSessionActorError_eq_dec : EqDecision MediaSessionActorError.
Proof. solve_decision. Defined.

(** [MediaDriverError::new]; the field is private, so every driver error was
    made by it. *)
Definition MediaDriverError_new (message : list Z) : list Z := bounded_text message MAX_ERROR_BYTES.

Definition debug_media_state (s : MediaState) : list Z :=
  codes match s with
        | Idle => "Idle" | StartingCapture => "StartingCapture" | StartingMedia => "StartingMedia"
        | Running => "Running" | Suspended => "Suspended" | Reconfiguring => "Reconfiguring"
        | Reconnecting => "Reconnecting" | Stopping => "Stopping" | Failed => "Failed"
        end.

(** [MediaSessionActorError]'s [Display]. *)
Definition error_text (e : MediaSessionActorError) : list Z :=
  match e with
  | NoRuntime => codes "MediaSessionActor requires a running Tokio runtime"
  | InvalidPolicy => codes "media-session policy has a zero phase timeout"
  | SessionStopped => codes "media-session actor stopped"
  | Join m => codes "media-session actor task failed: " ++ m
  | InvalidRouteGeneration => codes "route generation must be nonzero"
  | GenerationExhausted => codes "media generation is exhausted"
  | ControlGenerationExhausted => codes "media control-request generation is exhausted"
  | SuspendUnavailable s => codes "cannot suspend media from " ++ debug_media_state s
  | RetryUnavailable s => codes "cannot retry media from " ++ debug_media_state s
  | PhaseTimeout phase timeout =>
      codes "media phase " ++ codes phase ++ codes " timed out after " ++ debug_duration timeout
  | Driver phase source => codes "media phase " ++ codes phase ++ codes " failed: " ++ source
  | CombinedShutdown media final_error =>
      codes "media cleanup failed: " ++ media
      ++ codes "; final driver shutdown also failed: " ++ final_error
  end.

Inductive CommandKind :=
  | Activate (route : MediaRoute)
  | Deactivate
  | Suspend (reason : MediaSuspendReason)
  | Retry
  | ReportFailure (error : list Z)
  | Shutdown (reason : MediaStopReason).

Record Command := { request_generation : Z; kind : CommandKind }.

(** ** The driver *)

Inductive driver_call :=
  | CallStartCapture (r : MediaStartRequest)
  | CallStartMedia (r : MediaStartRequest)
  | CallSuspend (media_generation : Z) (reason : MediaSuspendReason)
  | CallStop (media_generation : Z) (reason : MediaStopReason)
  | CallShutdown (reason : MediaStopReason).

(** What a phase comes to: the future completes, with success or a message, or
    the timeout elapses first. *)
Inductive phase_result := Completed | Refused (message : list Z) | Elapsed.

Global Instance phase_result_eq_dec : EqDecision phase_result.
Proof. solve_decision. Defined.

Abbreviation session_result := (MediaSessionActorError + unit)%type.

Inductive session_action :=
  | Phase (c : driver_call) (timeout : Z) (r : phase_result)
  | Installed (request_generation : Z)
  | Published (s : MediaSessionSnapshot)
  | Replied (r : session_result).

Abbreviation session_trace := (list session_action).

Class MediaSessionDriver := {
  drive : session_trace -> driver_call -> Z -> phase_result;
  (* [Instant::now] *)
  session_clock : session_trace -> Z }.

Record session := { snapshot : MediaSessionSnapshot; trace : session_trace }.

Definition session_init : session := {| snapshot := idle; trace := [] |}.

Abbreviation ms := (actor session).

(** ** Operations *)

Definition borrow : ms MediaSessionSnapshot := fun s => (snapshot s, s).

Definition record (a : session_action) : ms unit :=
  fun s => (tt, {| snapshot := snapshot s; trace := trace s ++ [a] |}).

Definition modified (s : MediaSessionSnapshot) (media : MediaState) (route : option MediaRoute)
    (generation : option Z) (last_error : option (list Z)) : MediaSessionSnapshot :=
  let generation := default (ms_media_generation s) generation in
  if bool_decide (ms_state s = media) && bool_decide (ms_route s = route)
     && (ms_media_generation s =? generation) && bool_decide (ms_last_error s = last_error)
  then s
  else {| ms_revision := saturating_add64 (ms_revision s) 1; ms_media_generation := generation;
          ms_state := media; ms_route := route; ms_last_error := last_error |}.

Definition set_state (media : MediaState) (route : option MediaRoute) (generation : option Z)
    (last_error : option (list Z)) : ms unit :=
  fun s => let s' := modified (snapshot s) media route generation last_error in
           (tt, {| snapshot := s'; trace := trace s ++ [Published s'] |}).

Definition fail (route : option MediaRoute) (error : MediaSessionActorError) : ms unit :=
  set_state Failed route None (Some (bounded_text (error_text error) MAX_ERROR_BYTES)).

Section Actor.
Context `{MediaSessionDriver}.

Definition now : ms Z := fun s => (session_clock (trace s), s).

Definition run_phase (timeout : Z) (phase : string) (c : driver_call) : ms session_result :=
  fun s =>
    let r := drive (trace s) c timeout in
    (match r with
     | Completed => inr tt
     | Refused message => inl (Driver phase (MediaDriverError_new message))
     | Elapsed => inl (PhaseTimeout phase timeout)
     end, {| snapshot := snapshot s; trace := trace s ++ [Phase c timeout r] |}).

(** [RequestCoordinator::install_phase]; see [Coordinator] below. *)
Definition install_phase (request_generation : Z) : ms unit := record (Installed request_generation).

Definition run_stop (timeout : Z) (reason : MediaStopReason) : ms session_result :=
  let* s := borrow in
  if ms_media_generation s =? 0 then aret (inr tt)
  else run_phase timeout "stop media" (CallStop (ms_media_generation s) reason).

Definition stop_to_idle (timeout : Z) (reason : MediaStopReason) : ms session_result :=
  let* s := borrow in
  if bool_decide (ms_state s = Idle) then
    do* set_state Idle None None None; aret (inr tt)
  else
    do* set_state Stopping None None None;
    let* r := run_stop timeout reason in
    match r with
    | inr _ => do* set_state Idle None None None; aret (inr tt)
    | inl error => do* fail None error; aret (inl error)
    end.

Definition rollback_after_start_failure (timeout : Z) (request : MediaStartRequest)
    (start_error : MediaSessionActorError) : ms unit :=
  let* cleanup := run_phase timeout "roll back media"
                    (CallStop (sr_media_generation request) TransportFailure) in
  let diagnostic :=
    match cleanup with
    | inr _ => error_text start_error
    | inl cleanup =>
        bounded_text (error_text start_error ++ codes "; rollback also failed: " ++ error_text cleanup)
          MAX_ERROR_BYTES
    end in
  set_state Failed (Some (sr_route request)) None (Some diagnostic).

(** The part of [activate] after the previous generation is stopped. *)
Definition activate_fresh (timeout request_generation : Z) (route : MediaRoute) : ms session_result :=
  let* s := borrow in
  match checked_add64 (ms_media_generation s) 1 with
  | None => aret (inl GenerationExhausted)
  | Some generation =>
      let request := {| sr_media_generation := generation; sr_route := route |} in
      do* set_state StartingCapture (Some route) (Some generation) None;
      do* install_phase request_generation;
      let* captured := run_phase timeout "start capture" (CallStartCapture request) in
      match captured with
      | inl error =>
          do* rollback_after_start_failure timeout request error; aret (inl error)
      | inr _ =>
          do* set_state StartingMedia (Some route) None None;
          do* install_phase request_generation;
          let* started := run_phase timeout "start backend media" (CallStartMedia request) in
          match started with
          | inl error =>
              do* rollback_after_start_failure timeout request error; aret (inl error)
          | inr _ => do* set_state Running (Some route) None None; aret (inr tt)
          end
      end
  end.

(** The stop before a fresh generation of [route] is started. *)
Definition activate_over (timeout request_generation : Z) (route : MediaRoute)
    (reason : MediaStopReason) : ms session_result :=
  do* set_state Reconfiguring (Some route) None None;
  let* stopped := run_stop timeout reason in
  match stopped with
  | inl error => do* fail (Some route) error; aret (inl error)
  | inr _ => activate_fresh timeout request_generation route
  end.

Definition activate (timeout request_generation : Z) (route : MediaRoute) : ms session_result :=
  if mr_route_generation route =? 0 then aret (inl InvalidRouteGeneration)
  else
    let* current := borrow in
    if bool_decide (ms_state current = Running) && bool_decide (ms_route current = Some route)
    then aret (inr tt)
    else if bool_decide (ms_state current = Failed)
    then activate_over timeout request_generation route TransportFailure
    else if negb (bool_decide (ms_state current = Idle))
    then activate_over timeout request_generation route ModeChanged
    else activate_fresh timeout request_generation route.

Definition suspend (timeout request_generation : Z) (reason : MediaSuspendReason)
  : ms session_result :=
  let* s := borrow in
  if bool_decide (ms_state s = Suspended) then aret (inr tt)
  else if negb (bool_decide (ms_state s = Running)) then aret (inl (SuspendUnavailable (ms_state s)))
  else
    do* install_phase request_generation;
    let* r := run_phase timeout "suspend media" (CallSuspend (ms_media_generation s) reason) in
    match r with
    | inr _ => do* set_state Suspended (ms_route s) None None; aret (inr tt)
    | inl error => do* fail (ms_route s) error; aret (inl error)
    end.

Definition retry (timeout request_generation : Z) : ms session_result :=
  let* s := borrow in
  match ms_state s, ms_route s with
  | Failed, Some route => activate timeout request_generation route
  | state, _ => aret (inl (RetryUnavailable state))
  end.

Definition report_external_failure (timeout : Z) (error : list Z) : ms session_result :=
  let* s := borrow in
  let* cleanup := run_stop timeout TransportFailure in
  let diagnostic :=
    match cleanup with
    | inr _ => error
    | inl cleanup =>
        bounded_text (error ++ codes "; cleanup also failed: " ++ error_text cleanup) MAX_ERROR_BYTES
    end in
  do* set_state Failed (ms_route s) None (Some diagnostic);
  aret cleanup.

(** [None] is the panic of [Instant::now() + phase_timeout]. *)
Definition shutdown_driver (phase_timeout : Z) (reason : MediaStopReason)
  : ms (option session_result) :=
  let* started := now in
  match instant_checked_add started phase_timeout with
  | None => aret None
  | Some deadline =>
      let final_reserve := Z.max (phase_timeout / 3) 1 in
      let* media_result :=
        stop_to_idle (duration_saturating_sub phase_timeout final_reserve) reason in
      let* finished := now in
      let final_timeout := Z.max (Z.max (deadline - finished) 0) 1 in
      let* final_result := run_phase final_timeout "shut down media driver" (CallShutdown reason) in
      aret (Some match media_result, final_result with
                 | inr _, inr _ => inr tt
                 | inl error, inr _ | inr _, inl error => inl error
                 | inl media, inl final_error =>
                     inl (CombinedShutdown (error_text media) (error_text final_error))
                 end)
  end.

(** One command other than [Shutdown]. *)
Definition handle (timeout : Z) (c : Command) : ms session_result :=
  match kind c with
  | Activate route => activate timeout (request_generation c) route
  | Deactivate => stop_to_idle timeout OutputDisabled
  | Suspend reason => suspend timeout (request_generation c) reason
  | Retry => retry timeout (request_generation c)
  | ReportFailure error => report_external_failure timeout error
  | Shutdown _ => aret (inr tt)
  end.

(** The actor on the commands it receives before every sender is gone: the
    state it ends in, [None] for the panic of [shutdown_driver]. *)
Fixpoint run_actor (timeout : Z) (commands : list Command) : ms (option unit) :=
  match commands with
  | [] =>
      let* r := shutdown_driver timeout BackendShutdown in
      aret (match r with Some _ => Some tt | None => None end)
  | c :: rest =>
      match kind c with
      | Shutdown reason =>
          let* r := shutdown_driver timeout reason in
          match r with
          | None => aret None
          | Some result => do* record (Replied result); aret (Some tt)
          end
      | _ =>
          let* result := handle timeout c in
          do* record (Replied result);
          run_actor timeout rest
      end
  end.

(** [spawn_with_policy] inside a runtime. *)
Definition spawn_with_policy (phase_timeout : Z) : session_result :=
  if phase_timeout =? 0 then inl InvalidPolicy else inr tt.

End Actor.

(** ** What the actor promises *)

(** The automaton a trace of the actor follows.  [shown] is the last published
    snapshot; [stage] is what is known of the media generation it names. *)
Module Protocol.

Inductive stage :=
  | Closed                          (* nothing of any generation is running *)
  | Announced (r : MediaStartRequest)
  | Captured (r : MediaStartRequest)
  | Live (r : MediaStartRequest)
  | Paused (r : MediaStartRequest)
  | Doubtful.                       (* a phase failed: only a stop can follow *)

Global Instance stage_eq_dec : EqDecision stage.
Proof. solve_decision. Defined.

Record state := { shown : MediaSessionSnapshot; at_stage : stage; ended : bool }.

Definition start : state := {| shown := idle; at_stage := Closed; ended := false |}.

Definition names (s : MediaSessionSnapshot) (r : MediaStartRequest) : bool :=
  (ms_media_generation s =? sr_media_generation r) && bool_decide (ms_route s = Some (sr_route r)).

(** The stage after [s] is published over [shown], when it may be. *)
Definition publish (st : stage) (old s : MediaSessionSnapshot) : option stage :=
  let same := ms_media_generation s =? ms_media_generation old in
  let clean := bool_decide (ms_last_error s = None) in
  match ms_state s, st with
  | Idle, Closed => if same && clean && bool_decide (ms_route s = None) then Some st else None
  | StartingCapture, Closed =>
      match ms_route s with
      | Some route =>
          if (ms_media_generation s =? ms_media_generation old + 1)
             && (ms_media_generation s <=? u64_MAX)
             && negb (mr_route_generation route =? 0) && clean
          then Some (Announced {| sr_media_generation := ms_media_generation s; sr_route := route |})
          else None
      | None => None
      end
  | StartingMedia, Captured r => if same && clean && names s r then Some st else None
  | Running, Live r => if same && clean && names s r then Some st else None
  | Suspended, Paused r => if same && clean && names s r then Some st else None
  | (Reconfiguring | Stopping), (Closed | Live _ | Paused _ | Doubtful) =>
      if same && clean then Some st else None
  | Failed, (Closed | Doubtful) => if same && negb clean then Some st else None
  | _, _ => None
  end.

(** The stage after a phase, when the phase may be run. *)
Definition call (st : stage) (s : MediaSessionSnapshot) (c : driver_call) (r : phase_result)
  : option stage :=
  let next ok := match r with Completed => ok | _ => Doubtful end in
  match c, st with
  | CallStartCapture q, Announced q' => if bool_decide (q = q') then Some (next (Captured q)) else None
  | CallStartMedia q, Captured q' => if bool_decide (q = q') then Some (next (Live q)) else None
  | CallSuspend g _, Live q => if g =? sr_media_generation q then Some (next (Paused q)) else None
  | CallStop _ _, Announced _ => None
  | CallStop g _, _ =>
      if (g =? ms_media_generation s) && negb (g =? 0) then Some (next Closed) else None
  | CallShutdown _, (Closed | Doubtful) => Some st
  | _, _ => None
  end.

Definition is_shutdown (c : driver_call) : bool :=
  match c with CallShutdown _ => true | _ => false end.

Definition step (p : state) (a : session_action) : option state :=
  match a with
  | Replied _ => Some p
  | Installed _ => if ended p then None else Some p
  | Published s =>
      if ended p then None
      else if bool_decide (s = shown p)
              || (ms_revision s =? saturating_add64 (ms_revision (shown p)) 1)
      then match publish (at_stage p) (shown p) s with
           | Some st => Some {| shown := s; at_stage := st; ended := false |}
           | None => None
           end
      else None
  | Phase c _ r =>
      if ended p then None
      else match call (at_stage p) (shown p) c r with
           | Some st => Some {| shown := shown p; at_stage := st; ended := is_shutdown c |}
           | None => None
           end
  end.

Definition accept (l : session_trace) : option state :=
  foldl (fun p a => match p with Some p => step p a | None => None end) (Some start) l.

Lemma accept_snoc l a :
  accept (l ++ [a]) = match accept l with Some p => step p a | None => None end.
Proof. unfold accept. by rewrite foldl_app. Qed.

End Protocol.
Import Protocol.

(** The actor's state agrees with the automaton, which is in a stage related to
    the published snapshot by [P]. *)
Definition follows (P : MediaSessionSnapshot -> stage -> Prop) (s : session) : Prop :=
  exists st, accept (trace s) = Some {| shown := snapshot s; at_stage := st; ended := false |} /\
             P (snapshot s) st.

Lemma modified_spec s m r g e :
  let s' := modified s m r g e in
  ms_state s' = m /\ ms_route s' = r /\ ms_media_generation s' = default (ms_media_generation s) g /\
  ms_last_error s' = e /\ (s' = s \/ ms_revision s' = saturating_add64 (ms_revision s) 1).
Proof.
  unfold modified. cbv zeta. case_match eqn:E; [|simpl; by auto 6]. breflect. by split_and!; auto.
Qed.

Lemma runs_set_state m r g e (P Q : MediaSessionSnapshot -> stage -> Prop) :
  (forall s st s', P s st -> ms_state s' = m -> ms_route s' = r ->
     ms_media_generation s' = default (ms_media_generation s) g -> ms_last_error s' = e ->
     exists st', publish st s s' = Some st' /\ Q s' st') ->
  runs (set_state m r g e) (follows P) (fun _ => follows Q).
Proof.
  intros Hpub s (st & Ha & HP). pose proof (modified_spec (snapshot s) m r g e) as Hm.
  simpl in *. destruct Hm as (H1 & H2 & H3 & H4 & H5).
  destruct (Hpub _ _ _ HP H1 H2 H3 H4) as (st' & Hp & HQ).
  exists st'. split; [|done]. simpl. rewrite accept_snoc, Ha. simpl. rewrite Hp.
  destruct H5 as [Heq|Heq]; [rewrite (bool_decide_eq_true_2 _ Heq)|rewrite Heq, Z.eqb_refl, orb_true_r]; done.
Qed.

Lemma runs_install g P : runs (install_phase g) (follows P) (fun _ => follows P).
Proof.
  intros s (st & Ha & HP). exists st. simpl. split; [|done]. by rewrite accept_snoc, Ha.
Qed.

Lemma runs_record_reply r P : runs (record (Replied r)) (follows P) (fun _ => follows P).
Proof.
  intros s (st & Ha & HP). exists st. simpl. split; [|done]. by rewrite accept_snoc, Ha.
Qed.

(** Reading the snapshot: the rest may rely on its value. *)
Lemma runs_borrow {A} (k : MediaSessionSnapshot -> ms A) P Q :
  (forall s0, runs (k s0) (follows (fun s st => s = s0 /\ P s st)) Q) ->
  runs (abind borrow k) (follows P) Q.
Proof.
  intros Hk s (st & Ha & HP). unfold abind, borrow. apply (Hk (snapshot s)).
  by exists st.
Qed.

(** A snapshot property that no phase touches, and one of the stage. *)
Definition on (F : MediaSessionSnapshot -> Prop) (G : stage -> Prop) s st : Prop := F s /\ G st.

Definition stoppable (s : MediaSessionSnapshot) (st : stage) : Prop :=
  (forall r, st <> Announced r) /\ (ms_media_generation s = 0 -> st = Closed).

(** What holds between two commands. *)
Definition settled (s : MediaSessionSnapshot) (st : stage) : Prop :=
  (ms_media_generation s = 0 -> st = Closed) /\ 0 <= ms_media_generation s <= u64_MAX /\
  match ms_state s with
  | Idle => st = Closed
  | Running => exists r, st = Live r /\ names s r = true
  | Suspended => exists r, st = Paused r /\ names s r = true
  | Failed | Reconfiguring => st = Closed \/ st = Doubtful
  | _ => False
  end.

Lemma settled_stoppable s st : settled s st -> stoppable s st.
Proof.
  intros (H0 & _ & Hs). split; [|done]. intros r ->. destruct (ms_state s); naive_solver.
Qed.

Section Follows.
Context `{MediaSessionDriver}.

Lemma runs_phase timeout phase c F G G' :
  is_shutdown c = false ->
  (forall s st r, F s -> G st -> exists st', call st s c r = Some st' /\
     G' (bool_decide (r = Completed)) st') ->
  runs (run_phase timeout phase c) (follows (on F G))
    (fun r => follows (on F (G' (match r with inr _ => true | inl _ => false end)))).
Proof.
  intros Hc Hcall s (st & Ha & HF & HG).
  destruct (Hcall _ _ (drive (trace s) c timeout) HF HG) as (st' & Hst & HG').
  exists st'. unfold run_phase. simpl. rewrite accept_snoc, Ha. simpl. rewrite Hst, Hc.
  split; [done|split; [done|]].
  destruct (drive (trace s) c timeout); exact HG'.
Qed.

Lemma runs_run_stop timeout reason (F : MediaSessionSnapshot -> Prop) :
  runs (run_stop timeout reason) (follows (fun s st => F s /\ stoppable s st))
    (fun r => follows (fun s st => F s /\ stoppable s st /\
                         st = match r with inr _ => Closed | inl _ => Doubtful end)).
Proof.
  unfold run_stop. apply runs_borrow. intros s0. apply runs_case; intros E; breflect.
  - apply runs_ret. intros s (st & Ha & <- & HF & Hst). destruct Hst as [Hst H0].
    assert (st = Closed) as -> by auto. exists Closed. split; [done|]. split; [done|split; [by split|done]].
  - eapply runs_weaken.
    + apply (runs_phase _ _ _ (fun s => s = s0 /\ F s) (fun st => forall r, st <> Announced r)
               (fun b st => st = if b then Closed else Doubtful)); [done|].
      intros s st r [-> _] HG. exists (match r with Completed => Closed | _ => Doubtful end).
      split; [|by destruct r]. simpl. rewrite Z.eqb_refl, (proj2 (Z.eqb_neq _ _) E).
      destruct st; try done. by destruct (HG r0).
    + intros s (st & Ha & <- & HF & [Hst _]). exists st. by split_and!.
    + intros a s (st & Ha & [<- HF] & HG). exists st. split; [done|]. simpl in HG.
      destruct a; subst st; (split; [done|split; [by split|done]]).
Qed.

Definition in_range (s : MediaSessionSnapshot) : Prop := 0 <= ms_media_generation s <= u64_MAX.

(** Nothing runs, or a stop is due. *)
Definition loose (s : MediaSessionSnapshot) (st : stage) : Prop :=
  in_range s /\ stoppable s st /\ (st = Closed \/ st = Doubtful).

Lemma stopped_loose (r : session_result) s st :
  in_range s /\ stoppable s st /\ st = match r with inr _ => Closed | inl _ => Doubtful end ->
  loose s st.
Proof. intros (? & ? & ->). split; [done|split; [done|]]. destruct r; auto. Qed.

Lemma runs_failed route e :
  runs (set_state Failed route None (Some e)) (follows loose) (fun _ => follows settled).
Proof.
  apply runs_set_state. intros s st s' (Hr & [_ H0] & Hst) Hm Hro Hg He.
  exists st. unfold publish, settled. rewrite Hm, Hg, He. simpl. rewrite Z.eqb_refl. simpl.
  split; [by destruct Hst as [-> | ->]|]. unfold in_range in Hr. by split_and!; try lia.
Qed.

Lemma runs_run_stop_then {A} timeout reason (k : session_result -> ms A) P Q :
  (forall s st, P s st -> in_range s /\ stoppable s st) ->
  (forall e, runs (k (inl e)) (follows loose) Q) ->
  runs (k (inr tt)) (follows (fun s st => loose s st /\ st = Closed)) Q ->
  runs (abind (run_stop timeout reason) k) (follows P) Q.
Proof.
  intros HP He Hok. eapply runs_bind.
  - eapply runs_pre; [apply (runs_run_stop _ _ in_range)|].
    intros s (st & Ha & Hs). exists st. split; [done|]. by apply HP.
  - intros [e|[]]; [eapply runs_pre; [apply He|]|eapply runs_pre; [apply Hok|]];
      intros s (st & Ha & Hs); exists st; (split; [done|]).
    + by eapply (stopped_loose (inl e)).
    + split; [by eapply (stopped_loose (inr tt))|]. by destruct Hs as (_ & _ & ->).
Qed.

Lemma follows_weaken (P Q : MediaSessionSnapshot -> stage -> Prop) s :
  (forall s st, P s st -> Q s st) -> follows P s -> follows Q s.
Proof. intros HPQ (st & Ha & HP). exists st. auto. Qed.

Lemma settled_range s st : settled s st -> in_range s /\ stoppable s st.
Proof. intros Hs. split; [apply Hs|by apply settled_stoppable]. Qed.

Lemma runs_stop_to_idle timeout reason :
  runs (stop_to_idle timeout reason) (follows settled) (fun _ => follows settled).
Proof.
  unfold stop_to_idle. apply runs_borrow. intros s0. apply runs_case; intros E; breflect.
  - eapply runs_bind; [apply (runs_set_state _ _ _ _ _ settled)|intros; by apply runs_ret].
    intros s st s' (-> & H0 & Hr & Hs) Hm Hro Hg He. rewrite E in Hs. subst st. exists Closed.
    unfold publish, settled. rewrite Hm, Hg, He, Hro. simpl. by rewrite Z.eqb_refl.
  - eapply runs_bind.
    + apply (runs_set_state _ _ _ _ _ (fun s st => in_range s /\ stoppable s st)).
      intros s st s' [-> Hs] Hm Hro Hg He. exists st. unfold publish, in_range, stoppable.
      pose proof (settled_range _ _ Hs) as [Hr Hst].
      rewrite Hm, Hg, He. simpl. rewrite Z.eqb_refl. simpl. split; [|done].
      destruct Hs as (_ & _ & Hs). destruct (ms_state s0); naive_solver.
    + intros u. apply runs_run_stop_then; [done| |].
      * intros e. eapply runs_bind; [apply runs_failed|]. intros. by apply runs_ret.
      * eapply runs_bind; [apply (runs_set_state _ _ _ _ _ settled)|intros; by apply runs_ret].
        intros s st s' ((Hr & _ & _) & ->) Hm Hro Hg He. exists Closed.
        unfold publish, settled. rewrite Hm, Hg, He, Hro. simpl. by rewrite Z.eqb_refl.
Qed.

(** A snapshot published within a running stage. *)
Lemma runs_progress m route q (st : stage) :
  (m, st) = (StartingMedia, Captured q) \/ (m, st) = (Running, Live q) ->
  sr_route q = route ->
  runs (set_state m (Some route) None None)
    (follows (fun s st' => st' = st /\ ms_media_generation s = sr_media_generation q /\ in_range s))
    (fun _ => follows (fun s st' => st' = st /\ ms_media_generation s = sr_media_generation q /\
                                    in_range s /\ ms_state s = m /\ ms_route s = Some route)).
Proof.
  intros Hm <-. apply runs_set_state. intros s st0 s' (-> & Hgen & Hr) Hs Hro Hg He.
  exists st. unfold publish, names, in_range in *. rewrite Hs, Hg, He, Hro. simpl.
  destruct Hm as [[= -> ->]|[= -> ->]]; rewrite Z.eqb_refl, Hgen, Z.eqb_refl;
    rewrite bool_decide_eq_true_2 by done; (split; [done|]); split_and!; done || lia.
Qed.

(** A start phase of [q] and, when it fails, its rollback. *)
Lemma runs_start_phase {A} timeout phase c q st st' (k : session_result -> ms A) Q :
  is_shutdown c = false -> 0 < sr_media_generation q ->
  (forall s r, call st s c r = Some (match r with Completed => st' | _ => Doubtful end)) ->
  (forall e, runs (k (inl e)) (follows (fun s st => st = Doubtful /\
      ms_media_generation s = sr_media_generation q /\ in_range s)) Q) ->
  runs (k (inr tt)) (follows (fun s st => st = st' /\
      ms_media_generation s = sr_media_generation q /\ in_range s)) Q ->
  runs (abind (run_phase timeout phase c) k)
    (follows (fun s st0 => st0 = st /\ ms_media_generation s = sr_media_generation q /\ in_range s)) Q.
Proof.
  intros Hc Hq Hcall He Hok. eapply runs_bind.
  - eapply runs_pre;
      [apply (runs_phase _ _ _ (fun s => ms_media_generation s = sr_media_generation q /\ in_range s)
                (fun st0 => st0 = st) (fun b st0 => st0 = if b then st' else Doubtful)); [done|]|].
    + intros s st0 r _ ->. rewrite Hcall. eexists. split; [done|]. by destruct r.
    + intros s (st0 & Ha & -> & Hg & Hr). exists st. split; [done|]. by split.
  - intros [e|[]]; [eapply runs_pre; [apply He|]|eapply runs_pre; [apply Hok|]];
      intros s (st0 & Ha & [Hg Hr] & ->); eexists; (split; [done|]); by split.
Qed.

Lemma runs_rollback timeout q e :
  0 < sr_media_generation q ->
  runs (rollback_after_start_failure timeout q e)
    (follows (fun s st => st = Doubtful /\ ms_media_generation s = sr_media_generation q /\ in_range s))
    (fun _ => follows settled).
Proof.
  intros Hq. unfold rollback_after_start_failure. eapply runs_bind.
  - eapply runs_pre;
      [apply (runs_phase _ _ _ (fun s => ms_media_generation s = sr_media_generation q /\ in_range s)
                (fun st0 => st0 = Doubtful) (fun b st0 => st0 = if b then Closed else Doubtful));
         [done|]|].
    + intros s st0 r [Hg _] ->. simpl. rewrite Hg, Z.eqb_refl.
      rewrite (proj2 (Z.eqb_neq _ 0)) by lia. simpl. eexists. split; [done|]. by destruct r.
    + intros s (st0 & Ha & -> & Hg & Hr). by eexists; split; [done|].
  - intros r. eapply runs_pre; [apply runs_failed|]. intros s. apply follows_weaken.
    intros s1 st [[Hg Hr] Hst]. split; [done|]. destruct r as [?|?]; simpl in Hst; subst st;
      (split; [split; [done|lia]|]); auto.
Qed.

Lemma runs_activate_fresh timeout g route :
  mr_route_generation route <> 0 ->
  runs (activate_fresh timeout g route) (follows (fun s st => settled s st /\ st = Closed))
    (fun _ => follows settled).
Proof.
  intros Hroute. unfold activate_fresh. apply runs_borrow. intros s0.
  destruct (checked_add64 (ms_media_generation s0) 1) as [generation|] eqn:Hgen;
    [|apply runs_ret; intros s; apply follows_weaken; by intros ? ? (_ & ? & _)].
  unfold checked_add64 in Hgen. destruct (Z.leb_spec (ms_media_generation s0 + 1) u64_MAX); [|done].
  injection Hgen as <-. set (q := {| sr_media_generation := _; sr_route := route |}).
  eapply runs_bind; [apply (runs_set_state _ _ _ _ _ (fun s st => st = Announced q /\
      ms_media_generation s = sr_media_generation q /\ in_range s /\ 0 < sr_media_generation q))|].
  { intros s st s' (-> & (_ & Hr & _) & ->) Hm Hro Hg He. exists (Announced q).
    unfold publish, in_range. rewrite Hm, Hro, He, Hg. simpl. rewrite Z.eqb_refl.
    rewrite (proj2 (Z.leb_le _ _)) by lia. rewrite (proj2 (Z.eqb_neq _ _)) by done.
    split; [done|]. simpl. split_and!; [done|done|lia|lia|lia]. }
  intros u. apply runs_at. intros s1 (st1 & Ha1 & -> & Hg1 & Hr1 & Hq).
  eapply (runs_pre _ (follows (fun s st0 => st0 = Announced q /\
      ms_media_generation s = sr_media_generation q /\ in_range s)));
    [|intros ? <-; by eexists].
  eapply runs_bind; [apply runs_install|]. intros u1.
  apply (runs_start_phase _ _ _ q _ (Captured q)); [done|done| | |].
  { intros s r. simpl. by rewrite bool_decide_eq_true_2. }
  { intros e. eapply runs_bind; [by apply runs_rollback|]. intros. by apply runs_ret. }
  eapply runs_bind; [apply (runs_progress _ _ q (Captured q)); auto|]. intros u2.
  eapply runs_pre; [|intros s; apply follows_weaken; intros ? ? (H1 & H2 & H3 & _);
                     exact (conj H1 (conj H2 H3))].
  eapply runs_bind; [apply runs_install|]. intros u3.
  apply (runs_start_phase _ _ _ q _ (Live q)); [done|done| | |].
  { intros s r. simpl. by rewrite bool_decide_eq_true_2. }
  { intros e. eapply runs_bind; [by apply runs_rollback|]. intros. by apply runs_ret. }
  eapply runs_bind; [apply (runs_progress _ _ q (Live q)); auto|]. intros u4.
  apply runs_ret. intros s. apply follows_weaken. intros s2 st (-> & Hg & Hr & Hs & Hro).
  split; [lia|]. split; [done|]. rewrite Hs. exists q. split; [done|].
  unfold names. by rewrite Hg, Z.eqb_refl, bool_decide_eq_true_2.
Qed.

Lemma runs_activate_over timeout g route reason :
  mr_route_generation route <> 0 ->
  runs (activate_over timeout g route reason)
    (follows (fun s st => settled s st /\ ms_state s <> Idle)) (fun _ => follows settled).
Proof.
  intros Hroute. unfold activate_over. eapply runs_bind.
  - apply (runs_set_state _ _ _ _ _ (fun s st => in_range s /\ stoppable s st /\ ms_state s = Reconfiguring)).
    intros s st s' [Hs _] Hm Hro Hg He. exists st. unfold publish, in_range, stoppable.
    pose proof (settled_range _ _ Hs) as [Hr Hst]. rewrite Hm, Hg, He. simpl. rewrite Z.eqb_refl.
    simpl. split; [|done]. destruct Hs as (_ & _ & Hs). destruct (ms_state s); naive_solver.
  - intros u. eapply runs_bind.
    + eapply runs_pre; [apply (runs_run_stop _ _ (fun s => in_range s /\ ms_state s = Reconfiguring))|].
      intros s. apply follows_weaken. naive_solver.
    + intros [e|[]].
      * eapply runs_bind; [eapply runs_pre; [apply runs_failed|]|intros; by apply runs_ret].
        intros s. apply follows_weaken. intros ? ? ([? ?] & ? & ->). by apply (stopped_loose (inl e)).
      * eapply runs_pre; [by apply runs_activate_fresh|]. intros s. apply follows_weaken.
        intros s1 st ([? Hs] & [? ?] & ->). split; [|done]. split; [done|]. rewrite Hs. auto.
Qed.

Lemma runs_activate timeout g route :
  runs (activate timeout g route) (follows settled) (fun _ => follows settled).
Proof.
  unfold activate. apply runs_case; intros E; [by apply runs_ret|]. breflect.
  apply runs_borrow. intros s0.
  repeat (apply runs_case; intros ?); breflect;
    [apply runs_ret; intros s; apply follows_weaken; naive_solver
    |eapply runs_pre; [by apply runs_activate_over|]..
    |eapply runs_pre; [by apply runs_activate_fresh|]];
    intros s; apply follows_weaken; intros ? st (-> & Hs); (split; [done|]); [congruence|congruence|].
  destruct Hs as (_ & _ & Hs). by rewrite H2 in Hs.
Qed.

Lemma runs_suspend timeout g reason :
  runs (suspend timeout g reason) (follows settled) (fun _ => follows settled).
Proof.
  unfold suspend. apply runs_borrow. intros s0.
  apply runs_case; intros E; [|apply runs_case; intros E1]; breflect;
    [apply runs_ret; intros s; apply follows_weaken; naive_solver..|].
  eapply runs_bind; [apply runs_install|]. intros u. apply runs_at.
  intros s1 (st1 & Ha & <- & H0 & Hr & Hs). rewrite E1 in Hs. destruct Hs as (q & -> & Hn).
  assert (ms_media_generation (snapshot s1) <> 0) as Hnz by (intros Hz; by apply H0 in Hz).
  unfold names in Hn. breflect.
  eapply (runs_pre _ (follows (fun s st => st = Live q /\
      ms_media_generation s = sr_media_generation q /\ in_range s))); [|intros ? <-; by eexists].
  apply (runs_start_phase _ _ _ q _ (Paused q)); [done| | | |].
  - lia.
  - intros s r. simpl. rewrite H1, Z.eqb_refl. by destruct r.
  - intros e. eapply runs_bind; [eapply runs_pre; [apply runs_failed|]|intros; by apply runs_ret].
    intros s. apply follows_weaken. intros s2 st (-> & Hg & Hr2). split; [done|]. split; [|auto].
    split; [done|lia].
  - eapply runs_bind; [apply (runs_set_state _ _ _ _ _ settled)|intros; by apply runs_ret].
    intros s st s' (-> & Hg & Hr2) Hm Hro Hg' He. exists (Paused q). unfold publish, settled, names.
    rewrite Hm, Hro, He, Hg'. simpl. rewrite Z.eqb_refl, Hg, Z.eqb_refl, Hn.
    rewrite (bool_decide_eq_true_2 (Some (sr_route q) = _)) by done. split; [done|].
    rewrite <- Hg. split; [|split; [done|]].
    + lia.
    + exists q. rewrite Hg, Z.eqb_refl. split; [done|]. by rewrite bool_decide_eq_true_2.
Qed.

Lemma runs_retry timeout g : runs (retry timeout g) (follows settled) (fun _ => follows settled).
Proof.
  unfold retry. apply runs_borrow. intros s0. case_match; try case_match;
    first [apply runs_ret|eapply runs_pre; [apply runs_activate|]];
    intros s; apply follows_weaken; naive_solver.
Qed.

Lemma runs_report timeout e :
  runs (report_external_failure timeout e) (follows settled) (fun _ => follows settled).
Proof.
  unfold report_external_failure. apply runs_borrow. intros s0. eapply runs_bind.
  - eapply runs_pre; [apply (runs_run_stop _ _ in_range)|]. intros s. apply follows_weaken.
    intros ? ? [_ Hs]. by apply settled_range.
  - intros r. eapply runs_bind; [eapply runs_pre; [apply runs_failed|]|intros; by apply runs_ret].
    intros s. apply follows_weaken. intros ? ?. by apply stopped_loose.
Qed.

Lemma runs_handle timeout c : runs (handle timeout c) (follows settled) (fun _ => follows settled).
Proof.
  unfold handle. destruct (kind c).
  - apply runs_activate.
  - apply runs_stop_to_idle.
  - apply runs_suspend.
  - apply runs_retry.
  - apply runs_report.
  - by apply runs_ret.
Qed.


(** *** What each operation leaves published *)

Definition showing (s0 : MediaSessionSnapshot) (s : session) : Prop := snapshot s = s0.

Lemma modified_state s m r g e : ms_state (modified s m r g e) = m.
Proof. apply modified_spec. Qed.
Lemma modified_route s m r g e : ms_route (modified s m r g e) = r.
Proof. apply modified_spec. Qed.

Lemma modified_generation s m r g e :
  ms_media_generation (modified s m r g e) = default (ms_media_generation s) g.
Proof. apply modified_spec. Qed.

Lemma runs_then_set {A} m r g e (k : ms A) s0 Q :
  runs k (showing (modified s0 m r g e)) Q ->
  runs (do* set_state m r g e; k) (showing s0) Q.
Proof. intros Hk s <-. unfold abind, set_state. by apply Hk. Qed.

Lemma runs_then_install {A} g (k : ms A) s0 Q :
  runs k (showing s0) Q -> runs (do* install_phase g; k) (showing s0) Q.
Proof. intros Hk s <-. unfold abind, install_phase, record. by apply Hk. Qed.

Lemma runs_then_borrow {A} (k : MediaSessionSnapshot -> ms A) s0 Q :
  runs (k s0) (showing s0) Q -> runs (abind borrow k) (showing s0) Q.
Proof. intros Hk s Hs. rewrite <- Hs in Hk. unfold abind, borrow. by apply Hk. Qed.

(** A phase's error is the driver's or the timeout's. *)
Definition phase_error (e : MediaSessionActorError) : Prop :=
  (exists p t, e = PhaseTimeout p t) \/ exists p m, e = Driver p (MediaDriverError_new m).

Lemma runs_then_phase {A} timeout phase c (k : session_result -> ms A) s0 Q :
  runs (k (inr tt)) (showing s0) Q ->
  (forall e, phase_error e -> runs (k (inl e)) (showing s0) Q) ->
  runs (abind (run_phase timeout phase c) k) (showing s0) Q.
Proof.
  intros Hok He s <-. unfold abind, run_phase. unfold phase_error in He.
  destruct (drive (trace s) c timeout); [by apply Hok|apply He; eauto..]; done.
Qed.

Lemma runs_then_stop {A} timeout reason (k : session_result -> ms A) s0 Q :
  runs (k (inr tt)) (showing s0) Q ->
  (forall e, phase_error e -> runs (k (inl e)) (showing s0) Q) ->
  runs (abind (run_stop timeout reason) k) (showing s0) Q.
Proof.
  intros Hok He s Hs.
  change (abind (run_stop timeout reason) k s) with
    (abind (if ms_media_generation (snapshot s) =? 0 then aret (inr tt)
            else run_phase timeout "stop media" (CallStop (ms_media_generation (snapshot s)) reason)) k s).
  destruct (ms_media_generation (snapshot s) =? 0); [by apply Hok|].
  by apply (runs_then_phase _ _ _ _ s0).
Qed.

Lemma runs_last_set m r g e s0 {A} (a : A) (Q : A -> MediaSessionSnapshot -> Prop) :
  Q a (modified s0 m r g e) ->
  runs (do* set_state m r g e; aret a) (showing s0) (fun a s => Q a (snapshot s)).
Proof. intros HQ. apply runs_then_set. apply runs_ret. by intros s ->. Qed.

(** How a stop to idle ends when the last generation was [g0]. *)
Definition stop_ends (g0 : Z) (r : session_result) (s : MediaSessionSnapshot) : Prop :=
  ms_media_generation s = g0 /\ ms_route s = None /\
  match r with inr _ => ms_state s = Idle | inl e => phase_error e /\ ms_state s = Failed end.

Lemma stop_to_idle_leaves timeout reason s0 :
  runs (stop_to_idle timeout reason) (showing s0)
    (fun r s => stop_ends (ms_media_generation s0) r (snapshot s)).
Proof.
  unfold stop_to_idle. apply runs_then_borrow. apply runs_case; intros _.
  - apply runs_last_set. unfold stop_ends. by rewrite modified_route, modified_state, modified_generation.
  - apply runs_then_set, runs_then_stop; [|intros e He];
      apply (runs_last_set _ _ _ _ _ _ (stop_ends (ms_media_generation s0)));
      unfold stop_ends; by rewrite modified_route, modified_state, !modified_generation.
Qed.

(** How an activation of [route] ends when the last generation was [g0]. *)
Definition activation_ends (route : MediaRoute) (g0 : Z) (r : session_result)
    (s : MediaSessionSnapshot) : Prop :=
  ms_media_generation s <= g0 + 1 /\
  match r with
  | inr _ => ms_state s = Running /\ ms_route s = Some route
  | inl e =>
      (e = GenerationExhausted /\ u64_MAX <= g0) \/
      (phase_error e /\ ms_state s = Failed /\ ms_route s = Some route)
  end.

Lemma runs_rollback_last timeout q e s0 g0 :
  phase_error e -> ms_media_generation s0 <= g0 + 1 ->
  runs (do* rollback_after_start_failure timeout q e; aret (inl e)) (showing s0)
    (fun r s => activation_ends (sr_route q) g0 r (snapshot s)).
Proof.
  intros He Hg s <-. unfold rollback_after_start_failure, abind, run_phase, set_state. simpl.
  unfold activation_ends. rewrite modified_state, modified_route, modified_generation. auto.
Qed.

Lemma activate_fresh_leaves timeout g route s0 :
  runs (activate_fresh timeout g route) (showing s0)
    (fun r s => activation_ends route (ms_media_generation s0) r (snapshot s)).
Proof.
  unfold activate_fresh. apply runs_then_borrow. unfold checked_add64.
  destruct (Z.leb_spec (ms_media_generation s0 + 1) u64_MAX);
    [|apply runs_ret; intros s ->; split; [lia|left; split; [done|lia]]].
  apply runs_then_set, runs_then_install, runs_then_phase;
    [|intros e He; apply (runs_rollback_last _ {| sr_media_generation := _; sr_route := route |});
      [done|by rewrite modified_generation]].
  apply runs_then_set, runs_then_install, runs_then_phase;
    [|intros e He; apply (runs_rollback_last _ {| sr_media_generation := _; sr_route := route |});
      [done|by rewrite !modified_generation]].
  apply runs_last_set. unfold activation_ends.
  by rewrite modified_state, modified_route, !modified_generation.
Qed.

Lemma activate_over_leaves timeout g route reason s0 :
  runs (activate_over timeout g route reason) (showing s0)
    (fun r s => activation_ends route (ms_media_generation s0) r (snapshot s)).
Proof.
  unfold activate_over. apply runs_then_set, runs_then_stop; [|intros e He].
  - eapply runs_post; [apply activate_fresh_leaves|]. intros r s. by rewrite modified_generation.
  - apply (runs_last_set _ _ _ _ _ _ (activation_ends route (ms_media_generation s0))).
    unfold activation_ends. rewrite modified_state, modified_route, !modified_generation. simpl.
    split; [lia|auto].
Qed.

Lemma activate_leaves timeout g route s0 :
  mr_route_generation route <> 0 ->
  runs (activate timeout g route) (showing s0)
    (fun r s => activation_ends route (ms_media_generation s0) r (snapshot s)).
Proof.
  intros Hr. unfold activate. rewrite (proj2 (Z.eqb_neq _ _) Hr). apply runs_then_borrow.
  repeat (apply runs_case; intros ?); breflect;
    [|apply activate_over_leaves|apply activate_over_leaves|apply activate_fresh_leaves].
  apply runs_ret. intros s ->. split; [lia|done].
Qed.

Lemma suspend_leaves timeout g reason s0 :
  ms_state s0 = Running ->
  runs (suspend timeout g reason) (showing s0)
    (fun r s => ms_media_generation (snapshot s) = ms_media_generation s0 /\
       ms_route (snapshot s) = ms_route s0 /\
       ms_state (snapshot s) = match r with inr _ => Suspended | inl _ => Failed end).
Proof.
  intros Hs. unfold suspend. apply runs_then_borrow. rewrite Hs. simpl.
  apply runs_then_install, runs_then_phase; [|intros e _];
    apply (runs_last_set _ _ _ _ _ _ (fun r s => ms_media_generation s = ms_media_generation s0 /\
       ms_route s = ms_route s0 /\
       ms_state s = match r with inr _ => Suspended | inl _ => Failed end));
    by rewrite modified_route, modified_state, modified_generation.
Qed.

(** After [driver.shutdown] the automaton is in its final state. *)
Definition finished (s : session) : Prop :=
  exists p, accept (trace s) = Some p /\ ended p = true.

Lemma runs_now {A} (k : Z -> ms A) P Q :
  (forall t, runs (k t) (fun s => P s /\ t = session_clock (trace s)) Q) -> runs (abind now k) P Q.
Proof. intros Hk s Hs. unfold abind, now. by apply Hk. Qed.

Lemma runs_stop_to_loose timeout reason :
  runs (stop_to_idle timeout reason) (follows settled)
    (fun _ => follows (fun _ st => st = Closed \/ st = Doubtful)).
Proof.
  intros s Hs. destruct (runs_stop_to_idle timeout reason s Hs) as (st & Ha & _ & _ & Hst).
  destruct (stop_to_idle_leaves timeout reason (snapshot s) s eq_refl) as (_ & _ & Hstate).
  exists st. split; [done|]. revert Hstate Hst.
  destruct (stop_to_idle timeout reason s).1; [intros [_ ->]|intros ->]; auto.
Qed.

Lemma runs_shutdown_driver timeout reason :
  runs (shutdown_driver timeout reason) (follows settled)
    (fun r s => match r with
                | Some _ => finished s
                | None => follows settled s /\ exists l, INSTANT_MAX < session_clock l + timeout
                end).
Proof.
  unfold shutdown_driver. apply runs_now. intros t. unfold instant_checked_add.
  destruct (Z.leb_spec (t + timeout) INSTANT_MAX);
    [|apply runs_ret; intros s [Hs ->]; by eauto].
  eapply runs_bind.
  - eapply runs_pre; [|intros s [Hs _]; exact Hs]. apply runs_stop_to_loose.
  - intros media_result. apply runs_now. intros t'. intros s [(st & Ha & Hst) _].
    unfold abind, run_phase, aret, finished. cbn [fst snd trace]. rewrite accept_snoc, Ha.
    destruct Hst as [-> | ->]; simpl; by eexists.
Qed.

Lemma runs_run_actor timeout commands :
  runs (run_actor timeout commands) (follows settled)
    (fun r s => match r with
                | Some _ => finished s
                | None => follows settled s /\ exists l, INSTANT_MAX < session_clock l + timeout
                end).
Proof.
  induction commands as [|c commands IH]; simpl.
  - eapply runs_bind; [apply runs_shutdown_driver|]. intros [r|]; by apply runs_ret.
  - assert (runs (let* result := handle timeout c in do* record (Replied result); run_actor timeout commands)
              (follows settled) (fun r s => match r with
                | Some _ => finished s
                | None => follows settled s /\ exists l, INSTANT_MAX < session_clock l + timeout
                end)) as Hnext.
    { eapply runs_bind; [apply runs_handle|]. intros r.
      eapply runs_bind; [apply runs_record_reply|]. by intros u. }
    destruct (kind c); try exact Hnext.
    eapply runs_bind; [apply runs_shutdown_driver|]. intros [r|]; [|by apply runs_ret].
    eapply (runs_bind _ _ _ (fun _ => finished)); [|intros; by apply runs_ret].
    intros s (p & Ha & He). exists p. simpl. by rewrite accept_snoc, Ha.
Qed.

End Follows.

(** C27: Whatever the driver does, the actor follows [Protocol] on every list of
    commands: a generation is announced, captured and started in that order and
    under a number one above the last; nothing is started while an earlier
    generation runs or may run; [Running] is shown only when both phases of the
    named generation and route succeeded and [Idle] only when nothing runs; every
    stop names the last generation; every publication keeps the snapshot or
    raises the revision.  It ends with one [shutdown] of the driver, after which
    it calls nothing, unless the clock leaves no room for the deadline. *)
Theorem media_session_follows_protocol `{MediaSessionDriver} timeout commands :
  let '(r, s) := run_actor timeout commands session_init in
  exists p, accept (trace s) = Some p /\
    (ended p = true \/ (r = None /\ exists l, INSTANT_MAX < session_clock l + timeout)).
Proof.
  pose proof (runs_run_actor timeout commands session_init) as Hrun.
  destruct (run_actor timeout commands session_init) as [r s].
  destruct r as [[]|]; simpl in Hrun.
  - destruct Hrun as (p & Ha & He); [|by eauto].
    exists Closed. repeat split; done.
  - destruct Hrun as ((st & Ha & _) & Hl); [|by eauto]. exists Closed. repeat split; done.
Qed.

(** ** The shutdown budget *)

(** The phases of a trace with the time they were given. *)
Definition phase_of (a : session_action) : option (driver_call * Z) :=
  match a with Phase c t _ => Some (c, t) | _ => None end.

(** On shutdown the cleanup and the driver's own shutdown share one phase
    timeout: with a timeout of at least two nanoseconds, and a clock that does
    not run backwards and reaches the end of the cleanup within the time given
    to it, the last call is the driver's [shutdown], it is given at least a third of
    the timeout, and it is due no later than one timeout after the start. *)
Theorem shutdown_keeps_reserve `{MediaSessionDriver} timeout reason s :
  2 <= timeout -> session_clock (trace s) + timeout <= INSTANT_MAX ->
  let cleanup := timeout - Z.max (timeout / 3) 1 in
  let s1 := (stop_to_idle cleanup reason s).2 in
  session_clock (trace s) <= session_clock (trace s1) <= session_clock (trace s) + cleanup ->
  exists final r, trace (shutdown_driver timeout reason s).2
                  = trace s1 ++ [Phase (CallShutdown reason) final r] /\
    timeout / 3 <= final /\ 1 <= final /\
    session_clock (trace s1) + final <= session_clock (trace s) + timeout.
Proof.
  intros Ht Hmax cleanup s1 Hclock.
  assert (0 <= timeout / 3 /\ 3 * (timeout / 3) <= timeout) as [Hp Hd].
  { split; [apply Z.div_pos; lia|apply Z.mul_div_le; lia]. }
  assert (duration_saturating_sub timeout (Z.max (timeout / 3) 1) = cleanup) as Hc
    by (unfold duration_saturating_sub, cleanup; lia).
  unfold shutdown_driver, abind at 1, now at 1, instant_checked_add.
  rewrite (proj2 (Z.leb_le _ _)) by done. cbn -[stop_to_idle Z.div]. rewrite Hc. unfold abind at 1.
  unfold s1 in *. destruct (stop_to_idle cleanup reason s) as [r1 s2]. cbn -[Z.div] in *.
  do 2 eexists. split; [done|]. unfold cleanup in *. split_and!; lia.
Qed.

(** A driver that completes every phase, under a clock that stands still. *)
Definition willing_driver : MediaSessionDriver :=
  {| drive := fun _ _ _ => Completed; session_clock := fun _ => 0 |}.

Lemma shutdown_keeps_reserve_witness :
  exists final r, trace (@shutdown_driver willing_driver (from_secs 15) BackendShutdown session_init).2
    = [Published (snapshot session_init); Phase (CallShutdown BackendShutdown) final r] /\
  from_secs 5 <= final /\ 1 <= final /\ 0 + final <= 0 + from_secs 15.
Proof.
  apply (@shutdown_keeps_reserve willing_driver (from_secs 15) BackendShutdown session_init);
    vm_compute; (done || split; done).
Defined.

(** ** Publication of errors *)

(** A driver whose capture phase fails with a message of 512 bytes. *)
Definition verbose_driver : MediaSessionDriver :=
  {| drive := fun _ c _ => match c with CallStartCapture _ => Refused (replicate 512 97) | _ => Completed end;
     session_clock := fun _ => 0 |}.

Definition ex_route : MediaRoute :=
  {| mr_route_generation := 1; mr_target := 7;
     mr_mode := {| rm_width := 1920; rm_height := 1080; rm_refresh_millihz := 60000; rm_flags := 0 |} |}.

(** A start that fails and is rolled back publishes the whole text of the
    error, 546 bytes here: more than the [MAX_ERROR_BYTES] every other path keeps to. *)
Example rollback_error_exceeds_bound :
  let s := (@activate verbose_driver (from_secs 15) 1 ex_route session_init).2 in
  length <$> ms_last_error (snapshot s) = Some 546%nat.
Proof. vm_compute. reflexivity. Qed.

(** ** Interrupting a phase *)

(** [RequestCoordinator] under interleaving: callers take a request generation
    and then cancel the installed phase, the actor installs the phases of the
    requests it has taken from its queue.  [next_generation] is one atomic
    update; [interrupt_phase] and [install_phase] run under the mutex, and the
    load of the latest generation in the latter is a step of its own. *)
Module Coordinator.

Inductive lock := Free | Installing (request : Z).

Record coordinator := {
  latest_generation : Z;
  installed_phase : nat;            (* the token in the mutex *)
  owner : option Z;                 (* the request it was installed for *)
  cancelled : gset nat;
  made : nat;                       (* tokens made so far *)
  mutex : lock;
  advanced : list Z }.              (* generations whose interrupt is still to come *)

Definition new : coordinator :=
  {| latest_generation := 0; installed_phase := 0; owner := None; cancelled := ∅; made := 1;
     mutex := Free; advanced := [] |}.

(** The new value of the atomic and the generation the caller gets. *)
Definition next_generation (latest : Z) : MediaSessionActorError + Z * Z :=
  match checked_add64 latest 1 with
  | None => inl ControlGenerationExhausted
  | Some latest' =>
      match checked_add64 latest 1 with
      | None => inl ControlGenerationExhausted
      | Some g => inr (latest', g)
      end
  end.

Definition cancel (c : coordinator) : coordinator :=
  {| latest_generation := latest_generation c; installed_phase := installed_phase c;
     owner := owner c; cancelled := {[installed_phase c]} ∪ cancelled c; made := made c;
     mutex := mutex c; advanced := advanced c |}.

(** [request], up to its send: the generation is taken... *)
Definition advance_request (c : coordinator) (latest g : Z) : coordinator :=
  {| latest_generation := latest; installed_phase := installed_phase c; owner := owner c;
     cancelled := cancelled c; made := made c; mutex := mutex c; advanced := g :: advanced c |}.

(** ...and the phase installed by then is cancelled. *)
Definition interrupted (c : coordinator) (g : Z) : coordinator :=
  let c := cancel c in
  {| latest_generation := latest_generation c; installed_phase := installed_phase c;
     owner := owner c; cancelled := cancelled c; made := made c; mutex := mutex c;
     advanced := filter (fun g' => g' <> g) (advanced c) |}.

(** [install_phase] up to the load of the latest generation... *)
Definition swap_phase (c : coordinator) (request : Z) : coordinator :=
  let c := cancel c in
  {| latest_generation := latest_generation c; installed_phase := made c; owner := None;
     cancelled := cancelled c; made := S (made c); mutex := Installing request;
     advanced := advanced c |}.

(** ...and from there to the release of the mutex. *)
Definition settle_phase (c : coordinator) (request : Z) : coordinator :=
  let c := if negb (latest_generation c =? request) then cancel c else c in
  {| latest_generation := latest_generation c; installed_phase := installed_phase c;
     owner := Some request; cancelled := cancelled c; made := made c; mutex := Free;
     advanced := advanced c |}.

Inductive step : coordinator -> coordinator -> Prop :=
  | step_advance c latest g :
      next_generation (latest_generation c) = inr (latest, g) -> step c (advance_request c latest g)
  | step_interrupt c g : mutex c = Free -> g ∈ advanced c -> step c (interrupted c g)
  | step_cancel_phase c : mutex c = Free -> step c (cancel c)
  | step_swap c request :
      mutex c = Free -> 1 <= request <= latest_generation c -> step c (swap_phase c request)
  | step_settle c request : mutex c = Installing request -> step c (settle_phase c request).

(** Tokens are fresh, and a live phase is either the latest request's or about
    to be cancelled by every request after it. *)
Definition live_is_latest (c : coordinator) : Prop :=
  (installed_phase c < made c)%nat /\ (forall t, t ∈ cancelled c -> (t < made c)%nat) /\
  forall request g, mutex c = Free -> owner c = Some request -> installed_phase c ∉ cancelled c ->
    request < g <= latest_generation c -> g ∈ advanced c.

Lemma next_generation_inv latest latest' g :
  next_generation latest = inr (latest', g) -> latest' = latest + 1 /\ g = latest + 1.
Proof. unfold next_generation, checked_add64. repeat case_match; naive_solver. Qed.

Lemma step_live_is_latest c c' : step c c' -> live_is_latest c -> live_is_latest c'.
Proof.
  intros Hstep (Hfresh & Hmade & Hlive). destruct Hstep as [c latest g Hn|c g Hm Hg|c Hm|c r Hm Hr|c r Hm].
  - apply next_generation_inv in Hn as [-> ->]. split_and!; [done|done|]. simpl.
    intros request g Hf Ho Hc Hg. destruct (decide (g = latest_generation c + 1)) as [->|]; [left|].
    right. eapply Hlive; eauto. lia.
  - split_and!; simpl; [done|set_solver|]. intros. set_solver.
  - split_and!; simpl; [done|set_solver|]. intros. set_solver.
  - split_and!; simpl; [lia| |done]. intros t [->%elem_of_singleton|Ht%Hmade]%elem_of_union; lia.
  - unfold settle_phase. destruct (Z.eqb_spec (latest_generation c) r) as [<-|Hne]; simpl.
    + split_and!; [done|done|]. simpl. intros. simplify_eq. lia.
    + split_and!; simpl; [done|set_solver|]. intros. set_solver.
Qed.

Lemma reachable_live_is_latest c : rtc step new c -> live_is_latest c.
Proof.
  intros Hr. assert (live_is_latest new) as H0 by (split_and!; simpl; [lia|set_solver|done]).
  revert H0. induction Hr; eauto using step_live_is_latest.
Qed.

(** What a caller of [request] has done once its interrupt is behind it. *)
Definition requested (c : coordinator) (g : Z) : Prop :=
  1 <= g <= latest_generation c /\ g ∉ advanced c.

End Coordinator.

(** No interrupt of a request is lost, however callers and actor
    interleave: once a request has taken its generation and interrupted, no phase
    installed for an older request runs on uncancelled, whether it was installed
    before the interrupt or is installed after it. *)
Theorem newer_request_interrupts (c : Coordinator.coordinator) (older newer : Z) :
  rtc Coordinator.step Coordinator.new c -> Coordinator.mutex c = Coordinator.Free ->
  Coordinator.owner c = Some older -> Coordinator.requested c newer -> older < newer ->
  Coordinator.installed_phase c ∈ Coordinator.cancelled c.
Proof.
  intros Hr Hf Ho [Hg Ha] Hlt. apply Coordinator.reachable_live_is_latest in Hr as (_ & _ & Hl).
  apply dec_stable. intros Hc. apply Ha. eapply Hl; eauto. lia.
Qed.

(** A run in which the actor installs the first of two requests after the second
    has interrupted. *)
Definition ex_requests : Coordinator.coordinator :=
  Coordinator.interrupted (Coordinator.advance_request
    (Coordinator.interrupted (Coordinator.advance_request Coordinator.new 1 1) 1) 2 2) 2.

Definition ex_stale : Coordinator.coordinator :=
  Coordinator.settle_phase (Coordinator.swap_phase ex_requests 1) 1.

Lemma ex_requests_reached : rtc Coordinator.step Coordinator.new ex_requests.
Proof.
  eapply rtc_l; [by apply (Coordinator.step_advance _ 1 1)|].
  eapply rtc_l; [apply (Coordinator.step_interrupt _ 1); [done|by left]|].
  eapply rtc_l; [by apply (Coordinator.step_advance _ 2 2)|].
  eapply rtc_l; [apply (Coordinator.step_interrupt _ 2); [done|by left]|]. apply rtc_refl.
Qed.

Lemma newer_request_interrupts_witness :
  Coordinator.installed_phase ex_stale ∈ Coordinator.cancelled ex_stale.
Proof.
  apply (newer_request_interrupts ex_stale 1 2); [|done|done|split; [by vm_compute|apply (bool_decide_eq_false_1 (2 ∈ Coordinator.advanced ex_stale)); by vm_compute]|lia].
  etransitivity; [exact ex_requests_reached|].
  eapply rtc_l; [apply (Coordinator.step_swap _ 1); [done|by vm_compute]|].
  eapply rtc_l; [by apply (Coordinator.step_settle _ 1)|]. apply rtc_refl.
Defined.

(** [cancel_phase] takes no generation: one that comes after the request is
    queued and before its phase is installed cancels nothing that is left. *)
Example cancel_phase_before_install_is_lost :
  let c := Coordinator.settle_phase (Coordinator.swap_phase
             (Coordinator.cancel (Coordinator.interrupted
                (Coordinator.advance_request Coordinator.new 1 1) 1)) 1) 1 in
  Coordinator.owner c = Some 1 /\
  bool_decide (Coordinator.installed_phase c ∈ Coordinator.cancelled c) = false.
Proof. by vm_compute. Qed.
