(* ===== verification/MediaPolicy.v ===== *)
(** * The media policy of a display (crates/pronk/src/media_policy.rs)

    The policy actor turns what is observed of a display (attachment, grant,
    device, route) into commands to its media session, with a bounded number of
    retries.  One turn of its loop reads the observation and the session's
    snapshot, decides, and carries the decision out on the session actor of
    [MediaSession]; a change of the observation while a retry sleeps skips the
    command, one that comes later only reaches the driver's answer. *)

From S2P Require Import Prelude Bytes Text Time Actor DisplayState MediaSession.

(** ** Data *)

Inductive DisplayGrantState :=
  | Pending | GrantActive | SuspendedNoMaster | SuspendedOtherMaster | SuspendedForeignContent
  | Revoked.

Record MediaPolicyInput := {
  pi_attachment : AttachmentState;
  pi_grant : DisplayGrantState;
  device_available : bool;
  device_session_ready : bool;
  device_session_generation : Z;
  pi_route : option MediaRoute }.

Global Instance DisplayGrantState_eq_dec : EqDecision DisplayGrantState.
Proof. solve_decision. Defined.
Global Instance MediaPolicyInput_eq_dec : EqDecision MediaPolicyInput.
Proof. solve_decision. Defined.

Record MediaRecoveryPolicy := {
  maximum_attempts : Z; initial_delay : Z; maximum_delay : Z }.

Definition default_recovery : MediaRecoveryPolicy :=
  {| maximum_attempts := 6; initial_delay := from_millis 250; maximum_delay := from_secs 4 |}.

Inductive PolicyDecision :=
  | DecideActivate (route : MediaRoute)
  | DecideDeactivate
  | GiveUp
  | RetryDeactivate (delay : Z)
  | DecideSuspend (reason : MediaSuspendReason)
  | DecideRetry (delay : Z).

Global Instance PolicyDecision_eq_dec : EqDecision PolicyDecision.
Proof. solve_decision. Defined.

(** ** Decisions *)

Definition decide_deactivate (state : MediaState) (retry_delay : option Z) : option PolicyDecision :=
  match state with
  | Idle => None
  | Failed => Some (match retry_delay with None => GiveUp | Some d => RetryDeactivate d end)
  | _ => Some DecideDeactivate
  end.

Definition decide_media (input : MediaPolicyInput) (media : MediaSessionSnapshot)
    (retry_delay : option Z) : option PolicyDecision :=
  match pi_route input with
  | None => decide_deactivate (ms_state media) retry_delay
  | Some route =>
      if negb (bool_decide (pi_attachment input = Attached))
      then decide_deactivate (ms_state media) retry_delay
      else if negb (device_available input) || negb (device_session_ready input)
      then if bool_decide (ms_state media = Running)
           then Some (DecideSuspend DeviceUnavailable) else None
      else if negb (bool_decide (pi_grant input = GrantActive))
      then if bool_decide (ms_state media = Running)
           then Some (DecideSuspend GrantUnavailable) else None
      else if bool_decide (ms_state media = Running) && bool_decide (ms_route media = Some route)
      then None
      else if bool_decide (ms_state media = Failed) && bool_decide (ms_route media = Some route)
      then Some (match retry_delay with None => GiveUp | Some d => DecideRetry d end)
      else Some (DecideActivate route)
  end.

(** ** The retry budget *)

(** [RetryContext] has the fields of the input. *)
Record RetryTracker := { context : option MediaPolicyInput; attempts : Z }.

Definition tracker_default : RetryTracker := {| context := None; attempts := 0 |}.

Definition observe_retry (t : RetryTracker) (input : MediaPolicyInput) (media : MediaSessionSnapshot)
  : RetryTracker :=
  if negb (bool_decide (context t = Some input)) || bool_decide (ms_state media = Running)
  then {| context := Some input; attempts := 0 |} else t.

Definition u32_MAX_attempts : Z := 2 ^ 32 - 1.

Definition next_delay (t : RetryTracker) (policy : MediaRecoveryPolicy) : option Z :=
  if maximum_attempts policy <=? attempts t then None
  else
    let multiplier := Z.shiftl 1 (Z.min (attempts t) 30) in
    Some (Z.min (duration_saturating_mul (initial_delay policy) multiplier) (maximum_delay policy)).

Definition record_attempt (t : RetryTracker) : RetryTracker :=
  {| context := context t; attempts := Z.min (attempts t + 1) u32_MAX_attempts |}.

(** The delays of the default budget. *)
Example default_delays :
  map (fun n => next_delay {| context := None; attempts := n |} default_recovery)
    [0; 1; 2; 3; 4; 5; 6] =
  [Some (from_millis 250); Some (from_millis 500); Some (from_secs 1); Some (from_secs 2);
   Some (from_secs 4); Some (from_secs 4); None].
Proof. reflexivity. Qed.

(** ** The loop *)

Record policy := {
  retries : RetryTracker;
  latest : Z;                       (* the session's request generation *)
  media : session }.

Inductive turn_result :=
  | Waiting                         (* until the observation or the session changes *)
  | RecoveryExhausted (error : list Z)
  | Decided (d : PolicyDecision).

Section Policy.
Context `{MediaSessionDriver}.

(** [MediaSessionHandle::request] and its execution by the actor. *)
Definition request (timeout latest : Z) (k : CommandKind) (s : session) : Z * session :=
  match Coordinator.next_generation latest with
  | inl _ => (latest, s)
  | inr (latest', g) =>
      let '(r, s') := handle timeout {| request_generation := g; kind := k |} s in
      (latest', (record (Replied r) s').2)
  end.

(** [interrupted]: the observation changes during the delay of a retry.
    [None] is the [unreachable!]. *)
Definition apply_decision (timeout latest : Z) (d : PolicyDecision) (interrupted : bool) (s : session)
  : option (Z * session) :=
  match d with
  | DecideActivate route => Some (request timeout latest (Activate route) s)
  | DecideDeactivate => Some (request timeout latest Deactivate s)
  | GiveUp => None
  | RetryDeactivate _ =>
      Some (if interrupted then (latest, s) else request timeout latest Deactivate s)
  | DecideSuspend reason => Some (request timeout latest (Suspend reason) s)
  | DecideRetry _ =>
      Some (if interrupted then (latest, s) else request timeout latest Retry s)
  end.

Definition counts_as_retry (d : PolicyDecision) : bool :=
  match d with DecideRetry _ | RetryDeactivate _ => true | _ => false end.

(** One turn of [run_policy] on the observation [input]. *)
Definition policy_turn (timeout : Z) (recovery : MediaRecoveryPolicy) (input : MediaPolicyInput)
    (interrupted : bool) (p : policy) : option (turn_result * policy) :=
  let snapshot := snapshot (media p) in
  let retry := observe_retry (retries p) input snapshot in
  match decide_media input snapshot (next_delay retry recovery) with
  | None => Some (Waiting, {| retries := retry; latest := latest p; media := media p |})
  | Some GiveUp =>
      let error := default (codes "media recovery budget exhausted") (ms_last_error snapshot) in
      Some (RecoveryExhausted error, {| retries := retry; latest := latest p; media := media p |})
  | Some decision =>
      let retry := if counts_as_retry decision then record_attempt retry else retry in
      match apply_decision timeout (latest p) decision interrupted (media p) with
      | None => None
      | Some (latest', media') =>
          Some (Decided decision, {| retries := retry; latest := latest'; media := media' |})
      end
  end.

(** Turns on an observation that stays the same, until the policy waits or
    gives up. *)
Fixpoint policy_rests (fuel : nat) (timeout : Z) (recovery : MediaRecoveryPolicy)
    (input : MediaPolicyInput) (p : policy) : option (turn_result * policy) :=
  match fuel with
  | O => None
  | S fuel =>
      match policy_turn timeout recovery input false p with
      | Some (Decided _, p') => policy_rests fuel timeout recovery input p'
      | r => r
      end
  end.

(** [DisplayMediaPolicyActor::observe]: the new observation and whether the
    loop is woken. *)
Definition observe_input (current input : MediaPolicyInput) : MediaPolicyInput * bool :=
  if bool_decide (current = input) then (current, false) else (input, true).

End Policy.

Definition policy_init : policy :=
  {| retries := tracker_default; latest := 0; media := session_init |}.

(** ** What decisions depend on *)

(** The observation allows media on [route]. *)
Definition authorized (i : MediaPolicyInput) (route : MediaRoute) : Prop :=
  pi_route i = Some route /\ pi_attachment i = Attached /\ pi_grant i = GrantActive /\
  device_available i = true /\ device_session_ready i = true.

(** There is nothing to show. *)
Definition detached (i : MediaPolicyInput) : Prop :=
  pi_route i = None \/ pi_attachment i <> Attached.

(** There is, but it must not be shown now. *)
Definition withheld (i : MediaPolicyInput) : Prop :=
  ~ detached i /\ forall route, ~ authorized i route.

Definition decision_sound (i : MediaPolicyInput) (s : MediaSessionSnapshot) (delay : option Z)
    (d : PolicyDecision) : Prop :=
  match d with
  | DecideActivate route => authorized i route
  | DecideRetry t =>
      delay = Some t /\ exists route, authorized i route /\ ms_state s = Failed /\ ms_route s = Some route
  | DecideDeactivate => detached i /\ ms_state s <> Idle
  | RetryDeactivate t => delay = Some t /\ detached i /\ ms_state s = Failed
  | DecideSuspend _ => withheld i /\ ms_state s = Running
  | GiveUp => delay = None /\ ms_state s = Failed
  end.

Lemma decide_media_authorized i s delay route :
  authorized i route ->
  decide_media i s delay =
  if bool_decide (ms_state s = Running) && bool_decide (ms_route s = Some route) then None
  else if bool_decide (ms_state s = Failed) && bool_decide (ms_route s = Some route)
  then Some (match delay with None => GiveUp | Some d => DecideRetry d end)
  else Some (DecideActivate route).
Proof.
  intros (Hr & Ha & Hg & Hd & Hs). unfold decide_media. rewrite Hr, Ha, Hg, Hd, Hs. done.
Qed.

Lemma decide_media_detached i s delay :
  detached i -> decide_media i s delay = decide_deactivate (ms_state s) delay.
Proof.
  unfold decide_media. intros [-> | Ha]; [done|]. destruct (pi_route i); [|done].
  by rewrite bool_decide_eq_false_2.
Qed.

Lemma decide_media_withheld i s delay :
  withheld i ->
  exists reason, decide_media i s delay =
    if bool_decide (ms_state s = Running) then Some (DecideSuspend reason) else None.
Proof.
  unfold withheld, detached, authorized, decide_media. intros [Hd Ha].
  destruct (pi_route i) as [route|] eqn:Hr; [|tauto].
  rewrite bool_decide_eq_true_2 by (apply dec_stable; tauto). simpl.
  destruct (device_available i) eqn:E1, (device_session_ready i) eqn:E2; simpl; eauto.
  rewrite bool_decide_eq_false_2; [simpl; by eauto|]. intros Hg.
  apply (Ha route). split_and!; try done. apply dec_stable. tauto.
Qed.

(** Every observation is of one of the three kinds. *)
Lemma input_cases i : detached i \/ withheld i \/ exists route, authorized i route.
Proof.
  destruct (pi_route i) as [route|] eqn:Hr; [|left; by left].
  destruct (decide (pi_attachment i = Attached)) as [Ha|]; [|left; by right].
  destruct (decide (pi_grant i = GrantActive /\ device_available i = true /\
                    device_session_ready i = true)) as [Hy|Hn].
  - right. right. exists route. by split_and!; try apply Hy.
  - right. left. unfold withheld, detached, authorized. split; naive_solver.
Qed.

Lemma decide_media_sound i s delay d : decide_media i s delay = Some d -> decision_sound i s delay d.
Proof.
  destruct (input_cases i) as [Hi|[Hi|(route & Hi)]].
  - rewrite decide_media_detached by done. unfold decide_deactivate.
    destruct (ms_state s) eqn:E, delay; intros [= <-]; simpl; rewrite ?E; by repeat split.
  - destruct (decide_media_withheld i s delay Hi) as (reason & ->).
    case_bool_decide; intros [= <-]. by split.
  - rewrite (decide_media_authorized _ _ _ route) by done.
    destruct (bool_decide (ms_state s = Running) && _); [done|].
    destruct (bool_decide (ms_state s = Failed) && _) eqn:E; [|by intros [= <-]].
    breflect. destruct delay; intros [= <-]; simpl; eauto 6.
Qed.

(** ** A decision is enough *)

(** Nothing is left to do for [i] but to retry. *)
Definition rests_or_retries (i : MediaPolicyInput) (s : MediaSessionSnapshot) : Prop :=
  forall delay, match decide_media i s delay with
                | None | Some GiveUp => True
                | Some d => counts_as_retry d = true
                end.

Lemma rests_activated i route s :
  authorized i route -> ms_state s = Running \/ ms_state s = Failed -> ms_route s = Some route ->
  rests_or_retries i s.
Proof.
  intros Hi Hs Hr delay. rewrite (decide_media_authorized _ _ _ route) by done.
  rewrite Hr, (bool_decide_eq_true_2 (Some route = _)) by done.
  destruct Hs as [-> | ->]; simpl; [done|]. by destruct delay.
Qed.

Lemma rests_stopped i s : detached i -> ms_state s = Idle \/ ms_state s = Failed -> rests_or_retries i s.
Proof.
  intros Hi Hs delay. rewrite decide_media_detached by done.
  destruct Hs as [-> | ->]; simpl; [done|]. by destruct delay.
Qed.

Lemma rests_suspended i s : withheld i -> ms_state s <> Running -> rests_or_retries i s.
Proof.
  intros Hi Hs delay. destruct (decide_media_withheld i s delay Hi) as (reason & ->).
  by rewrite bool_decide_eq_false_2.
Qed.

Section Turns.
Context `{MediaSessionDriver}.

Lemma handle_activate_rests timeout g i route s :
  authorized i route -> mr_route_generation route <> 0 ->
  ms_media_generation (snapshot s) < u64_MAX ->
  let s' := snapshot (activate timeout g route s).2 in
  rests_or_retries i s' /\ ms_media_generation s' <= ms_media_generation (snapshot s) + 1.
Proof.
  intros Hi Hr Hg. pose proof (activate_leaves timeout g route (snapshot s) Hr s eq_refl) as [Hgen Hend].
  split; [|done]. destruct (activate timeout g route s).1 as [e|[]].
  - destruct Hend as [[_ ?]|(_ & ? & ?)]; [lia|]. by eapply rests_activated; eauto.
  - destruct Hend. by eapply rests_activated; eauto.
Qed.

Lemma handle_stop_rests timeout i reason s :
  detached i ->
  let s' := snapshot (stop_to_idle timeout reason s).2 in
  rests_or_retries i s' /\ ms_media_generation s' <= ms_media_generation (snapshot s) + 1.
Proof.
  intros Hi. pose proof (stop_to_idle_leaves timeout reason (snapshot s) s eq_refl) as (Hgen & _ & Hend).
  simpl in *. split; [|lia]. apply rests_stopped; [done|].
  destruct (stop_to_idle timeout reason s).1 as [e|[]]; [right; apply Hend|by left].
Qed.

Lemma handle_suspend_rests timeout g i reason s :
  withheld i -> ms_state (snapshot s) = Running ->
  let s' := snapshot (suspend timeout g reason s).2 in
  rests_or_retries i s' /\ ms_media_generation s' <= ms_media_generation (snapshot s) + 1.
Proof.
  intros Hi Hs. pose proof (suspend_leaves timeout g reason (snapshot s) Hs s eq_refl) as (Hgen & _ & Hend).
  simpl in *. split; [|lia]. apply rests_suspended; [done|]. rewrite Hend.
  by destruct (suspend timeout g reason s).1.
Qed.

Lemma request_rests timeout lat k s (P : MediaSessionSnapshot -> Prop) :
  lat < u64_MAX ->
  (forall g, P (snapshot (handle timeout {| request_generation := g; kind := k |} s).2)) ->
  exists s', request timeout lat k s = (lat + 1, s') /\ P (snapshot s').
Proof.
  intros Hl Hk. unfold request, Coordinator.next_generation, checked_add64.
  destruct (Z.leb_spec (lat + 1) u64_MAX); [|lia]. specialize (Hk (lat + 1)).
  destruct (handle _ _ s) as [r s']. by eexists.
Qed.

Lemma apply_decision_rests timeout lat i delay d s :
  decision_sound i (snapshot s) delay d -> d <> GiveUp ->
  (forall route, pi_route i = Some route -> mr_route_generation route <> 0) ->
  lat < u64_MAX -> ms_media_generation (snapshot s) < u64_MAX ->
  exists s', apply_decision timeout lat d false s = Some (lat + 1, s') /\
    rests_or_retries i (snapshot s') /\
    ms_media_generation (snapshot s') <= ms_media_generation (snapshot s) + 1.
Proof.
  intros Hd Hne Hroute Hl Hg.
  set (P := fun s' => rests_or_retries i s' /\
         ms_media_generation s' <= ms_media_generation (snapshot s) + 1).
  enough (exists k, apply_decision timeout lat d false s = Some (request timeout lat k s) /\
            forall g, P (snapshot (handle timeout {| request_generation := g; kind := k |} s).2))
    as (k & -> & Hk).
  { destruct (request_rests timeout lat k s P Hl Hk) as (s' & -> & HP). by exists s'. }
  destruct d as [route| | | |reason|]; simpl in Hd; try done; eexists; (split; [done|]); intros g;
    unfold handle; simpl.
  - apply handle_activate_rests; [done| |done]. apply Hroute, Hd.
  - apply handle_stop_rests, Hd.
  - apply handle_stop_rests, Hd.
  - by apply handle_suspend_rests; apply Hd.
  - destruct Hd as (_ & route & Hi & Hs & Hr).
    assert (retry timeout g s = activate timeout g route s) as ->
      by (unfold retry, abind, borrow; by rewrite Hs, Hr).
    apply handle_activate_rests; [done| |done]. apply Hroute, Hi.
Qed.

(** How the loop ends on the observation [i]. *)
Definition at_rest (i : MediaPolicyInput) (recovery : MediaRecoveryPolicy) (r : turn_result) (p : policy)
  : Prop :=
  match r with
  | Waiting => forall delay, decide_media i (snapshot (media p)) delay = None
  | RecoveryExhausted _ =>
      ms_state (snapshot (media p)) = Failed /\ maximum_attempts recovery <= attempts (retries p)
  | Decided _ => False
  end.

Lemma decide_media_none i s delay delay' : decide_media i s delay = None -> decide_media i s delay' = None.
Proof. unfold decide_media, decide_deactivate. repeat case_match; done. Qed.

(** One turn: the policy is at rest, or it decided and [i] leaves only retries,
    each of which is counted. *)
Lemma policy_turn_cases timeout recovery i p :
  maximum_attempts recovery <= u32_MAX_attempts ->
  (forall route, pi_route i = Some route -> mr_route_generation route <> 0) ->
  latest p < u64_MAX -> ms_media_generation (snapshot (media p)) < u64_MAX ->
  exists r p', policy_turn timeout recovery i false p = Some (r, p') /\
    (at_rest i recovery r p' \/
     exists d, r = Decided d /\
       (rests_or_retries i (snapshot (media p)) -> counts_as_retry d = true) /\
       latest p' = latest p + 1 /\
       ms_media_generation (snapshot (media p')) <= ms_media_generation (snapshot (media p)) + 1 /\
       rests_or_retries i (snapshot (media p')) /\ context (retries p') = Some i /\
       attempts (retries p') =
         attempts (observe_retry (retries p) i (snapshot (media p)))
         + (if counts_as_retry d then 1 else 0) /\
       (counts_as_retry d = true ->
        ms_state (snapshot (media p)) = Failed /\
        attempts (observe_retry (retries p) i (snapshot (media p))) < maximum_attempts recovery)).
Proof.
  intros Hmax Hroute Hl Hg. unfold policy_turn.
  set (s := snapshot (media p)) in *. set (t := observe_retry (retries p) i s).
  assert (context t = Some i) as Hctx.
  { unfold t, observe_retry. case_match eqn:E; [done|]. breflect. done. }
  assert (forall x, next_delay t recovery = Some x -> attempts t < maximum_attempts recovery) as Hdelay.
  { intros x. unfold next_delay. destruct (Z.leb_spec (maximum_attempts recovery) (attempts t)); done. }
  destruct (decide_media i s (next_delay t recovery)) as [d|] eqn:Hd.
  2: { do 2 eexists. split; [done|]. left. intros delay. by eapply decide_media_none. }
  pose proof (decide_media_sound _ _ _ _ Hd) as Hsound.
  destruct (decide (d = GiveUp)) as [->|Hne].
  { do 2 eexists. split; [done|]. left. destruct Hsound as [Hn Hf]. split; [done|]. simpl.
    unfold next_delay in Hn. destruct (Z.leb_spec (maximum_attempts recovery) (attempts t)); done. }
  destruct (apply_decision_rests timeout (latest p) i _ d (media p) Hsound Hne Hroute Hl Hg)
    as (s' & Happly & Hrest & Hgen).
  rewrite Happly.
  assert (counts_as_retry d = true -> ms_state s = Failed /\ attempts t < maximum_attempts recovery) as Hc.
  { destruct d; try done; intros _; simpl in Hsound;
      [destruct Hsound as (Hx & _ & ?)|destruct Hsound as (Hx & ? & _ & ? & _)]; eauto. }
  assert (rests_or_retries i s -> counts_as_retry d = true) as Hk.
  { intros Hk. specialize (Hk (next_delay t recovery)). rewrite Hd in Hk. by destruct d. }
  destruct d; try done; do 2 eexists; (split; [done|]); right; eexists; (split; [done|]); simpl;
    split_and!; try done; try lia; (specialize (Hc eq_refl); lia).
Qed.

Lemma observe_retry_same t i s :
  context t = Some i -> ms_state s <> Running -> observe_retry t i s = t.
Proof.
  intros Hc Hs. unfold observe_retry. by rewrite bool_decide_eq_true_2, bool_decide_eq_false_2.
Qed.

Lemma policy_rests_retrying n timeout recovery i p :
  maximum_attempts recovery <= u32_MAX_attempts ->
  (forall route, pi_route i = Some route -> mr_route_generation route <> 0) ->
  latest p + Z.of_nat n < u64_MAX ->
  ms_media_generation (snapshot (media p)) + Z.of_nat n < u64_MAX ->
  rests_or_retries i (snapshot (media p)) -> context (retries p) = Some i ->
  maximum_attempts recovery <= attempts (retries p) + Z.of_nat n ->
  exists r p', policy_rests (S n) timeout recovery i p = Some (r, p') /\ at_rest i recovery r p'.
Proof.
  intros Hmax Hroute. revert p. induction n as [|n IH]; intros p Hl Hg Hk Hctx Hn; cbn [policy_rests];
    (destruct (policy_turn_cases timeout recovery i p) as (r & p' & -> & Hcase); [done|done|lia|lia|]);
    (destruct Hcase as [Hrest|(d & -> & Hd & Hl' & Hg' & Hk' & Hctx' & Hat & Hcount)];
      [destruct r; [by eauto..|done]|]); specialize (Hd Hk); rewrite Hd in Hat;
    destruct (Hcount Hd) as [Hf Hlt];
    (rewrite observe_retry_same in Hat, Hlt by (done || by rewrite Hf)).
  - lia.
  - apply IH; try done; lia.
Qed.
End Turns.

(** C31: The policy comes to rest.  On an observation that stays the same, and
    whatever the driver does, the loop ends within two turns more than the retry
    budget: either it waits, with nothing left to decide for this observation, or it
    reports that the budget is spent, with the session failed.  So a driver that
    fails for ever cannot keep it busy.  The counters are assumed to be short of
    exhaustion and a route to have a nonzero generation, as [from_display_state]
    ensures. *)
Theorem policy_comes_to_rest `{MediaSessionDriver} timeout recovery i p :
  0 <= maximum_attempts recovery <= u32_MAX_attempts ->
  (forall route, pi_route i = Some route -> mr_route_generation route <> 0) ->
  0 <= attempts (retries p) ->
  latest p + maximum_attempts recovery + 1 < u64_MAX ->
  ms_media_generation (snapshot (media p)) + maximum_attempts recovery + 1 < u64_MAX ->
  exists r p', policy_rests (2 + Z.to_nat (maximum_attempts recovery)) timeout recovery i p = Some (r, p') /\
    at_rest i recovery r p'.
Proof.
  intros Hmax Hroute H0 Hl Hg. cbn [policy_rests Nat.add].
  destruct (policy_turn_cases timeout recovery i p) as (r & p' & -> & Hcase); [lia|done|lia|lia|].
  destruct Hcase as [Hrest|(d & -> & _ & Hl' & Hg' & Hk' & Hctx' & Hat & _)];
    [destruct r; [by eauto..|done]|].
  apply policy_rests_retrying; try done; try lia.
  assert (0 <= attempts (observe_retry (retries p) i (snapshot (media p))))
    by (unfold observe_retry; destruct (negb _ || _); simpl; lia).
  destruct (counts_as_retry d); lia.
Qed.

(** A driver that fails every start. *)
Definition failing_driver : MediaSessionDriver :=
  {| drive := fun _ c _ => match c with CallStartCapture _ => Refused [] | _ => Completed end;
     session_clock := fun _ => 0 |}.

Definition ex_input : MediaPolicyInput :=
  {| pi_attachment := Attached; pi_grant := GrantActive; device_available := true;
     device_session_ready := true; device_session_generation := 1; pi_route := Some ex_route |}.

Lemma policy_comes_to_rest_witness :
  exists r p', @policy_rests failing_driver (2 + Z.to_nat 6) (from_secs 15) default_recovery ex_input
                 policy_init = Some (r, p') /\ at_rest ex_input default_recovery r p'.
Proof.
  apply (@policy_comes_to_rest failing_driver (from_secs 15) default_recovery ex_input policy_init);
    [by vm_compute| |by vm_compute..]. by intros route [= <-].
Defined.

(** ** What a session starts *)

Definition started (a : session_action) : option MediaStartRequest :=
  match a with Phase (CallStartCapture q) _ _ => Some q | _ => None end.
Definition starts (s : session) : list MediaStartRequest := omap started (trace s).

(** [m] starts nothing; [m] starts at most one capture, of [route]. *)
Definition starts_nothing {A} (m : ms A) : Prop :=
  forall l, runs m (fun s => starts s = l) (fun _ s => starts s = l).

Definition one_start (route : MediaRoute) (l : list MediaStartRequest) (s : session) : Prop :=
  starts s = l \/ exists q, starts s = l ++ [q] /\ sr_route q = route.

Definition starts_only {A} (route : MediaRoute) (m : ms A) : Prop :=
  forall l, runs m (fun s => starts s = l) (fun _ => one_start route l).

Create HintDb starts.

Lemma starts_nothing_bind {A B} (m : ms A) (k : A -> ms B) :
  starts_nothing m -> (forall a, starts_nothing (k a)) -> starts_nothing (abind m k).
Proof. intros Hm Hk l. eapply runs_bind; [apply Hm|]. intros a. apply Hk. Qed.

Lemma starts_nothing_ret {A} (a : A) : starts_nothing (aret a).
Proof. intros l. by apply runs_ret. Qed.

Lemma starts_nothing_borrow : starts_nothing borrow.
Proof. by intros l s. Qed.

Lemma starts_snoc s a l :
  starts {| snapshot := s; trace := l ++ [a] |} = omap started l ++ omap started [a].
Proof. unfold starts. simpl. by rewrite omap_app. Qed.

Lemma starts_nothing_record a : started a = None -> starts_nothing (record a).
Proof. intros Ha l s <-. unfold record. simpl. rewrite starts_snoc. simpl. by rewrite Ha, app_nil_r. Qed.

Lemma starts_nothing_set m r g e : starts_nothing (set_state m r g e).
Proof. intros l s <-. unfold set_state. simpl. by rewrite starts_snoc, app_nil_r. Qed.

Lemma starts_only_weaken {A} route (m : ms A) : starts_nothing m -> starts_only route m.
Proof. intros Hm l. eapply runs_post; [apply Hm|]. by left. Qed.

Lemma starts_only_bind {A B} route (m : ms A) (k : A -> ms B) :
  starts_nothing m -> (forall a, starts_only route (k a)) -> starts_only route (abind m k).
Proof. intros Hm Hk l. eapply runs_bind; [apply Hm|]. intros a. apply Hk. Qed.

Section Starts.
Context `{MediaSessionDriver}.

Lemma starts_nothing_phase timeout phase c :
  (forall q, c <> CallStartCapture q) -> starts_nothing (run_phase timeout phase c).
Proof.
  intros Hc l s <-. unfold run_phase. simpl. rewrite starts_snoc. simpl.
  destruct c; try by rewrite app_nil_r. by destruct (Hc r).
Qed.

Lemma starts_only_phase {A} timeout phase q (k : session_result -> ms A) :
  (forall r, starts_nothing (k r)) ->
  starts_only (sr_route q) (abind (run_phase timeout phase (CallStartCapture q)) k).
Proof.
  intros Hk l s <-. unfold abind, run_phase. right. exists q. split; [|done]. apply Hk.
  by rewrite starts_snoc.
Qed.

Lemma starts_nothing_run_stop timeout reason : starts_nothing (run_stop timeout reason).
Proof.
  apply starts_nothing_bind; [apply starts_nothing_borrow|]. intros s. case_match.
  - apply starts_nothing_ret.
  - by apply starts_nothing_phase.
Qed.

#[local] Hint Resolve starts_nothing_bind starts_nothing_ret starts_nothing_borrow
  starts_nothing_set starts_nothing_run_stop : starts.
#[local] Hint Extern 1 (starts_nothing (record _)) => by apply starts_nothing_record : starts.
#[local] Hint Extern 1 (starts_nothing (install_phase _)) => by apply starts_nothing_record : starts.
#[local] Hint Extern 1 (starts_nothing (run_phase _ _ _)) => by apply starts_nothing_phase : starts.
#[local] Hint Extern 2 (starts_nothing (match ?x with _ => _ end)) => destruct x : starts.

Lemma starts_nothing_rollback timeout q e : starts_nothing (rollback_after_start_failure timeout q e).
Proof. unfold rollback_after_start_failure. eauto with starts. Qed.
#[local] Hint Resolve starts_nothing_rollback : starts.

Lemma starts_nothing_stop_to_idle timeout reason : starts_nothing (stop_to_idle timeout reason).
Proof. unfold stop_to_idle, fail. auto 10 with starts. Qed.

Lemma starts_nothing_suspend timeout g reason : starts_nothing (suspend timeout g reason).
Proof. unfold suspend, fail. auto 10 with starts. Qed.

Lemma starts_only_activate_fresh timeout g route : starts_only route (activate_fresh timeout g route).
Proof.
  unfold activate_fresh. apply starts_only_bind; [auto with starts|]. intros s.
  destruct (checked_add64 _ _); [|apply starts_only_weaken; auto with starts].
  do 2 (apply starts_only_bind; [auto with starts|]; intros ?).
  apply (starts_only_phase _ _ {| sr_media_generation := z; sr_route := route |}).
  intros r. auto 15 with starts.
Qed.

Lemma starts_only_activate_over timeout g route reason :
  starts_only route (activate_over timeout g route reason).
Proof.
  unfold activate_over. do 2 (apply starts_only_bind; [auto with starts|]; intros ?).
  case_match; [apply starts_only_weaken; unfold fail; auto with starts|].
  apply starts_only_activate_fresh.
Qed.

Lemma starts_only_activate timeout g route : starts_only route (activate timeout g route).
Proof.
  unfold activate. case_match; [apply starts_only_weaken; auto with starts|].
  apply starts_only_bind; [auto with starts|]. intros s.
  repeat match goal with |- starts_only _ (if ?b then _ else _) => destruct b end;
    [apply starts_only_weaken; auto with starts|apply starts_only_activate_over..
    |apply starts_only_activate_fresh].
Qed.

(** What a turn on the observation [i] may start. *)
Definition starts_authorized (i : MediaPolicyInput) (s s' : session) : Prop :=
  starts s' = starts s \/ exists q, starts s' = starts s ++ [q] /\ authorized i (sr_route q).

Lemma only_authorized {A} (m : ms A) i route s :
  authorized i route -> starts_only route m -> starts_authorized i s (m s).2.
Proof. intros Hi Hm. destruct (Hm _ s eq_refl) as [|(q & ? & <-)]; [by left|right; by eauto]. Qed.

Lemma nothing_authorized {A} (m : ms A) i s : starts_nothing m -> starts_authorized i s (m s).2.
Proof. intros Hm. left. by apply Hm. Qed.

Lemma request_authorized timeout lat k i s :
  (forall g, starts_authorized i s (handle timeout {| request_generation := g; kind := k |} s).2) ->
  starts_authorized i s (request timeout lat k s).2.
Proof.
  intros Hk. unfold request. destruct (Coordinator.next_generation lat) as [|[lat' g]]; [by left|].
  specialize (Hk g). destruct (handle _ _ s) as [r s']. unfold starts_authorized in *. simpl in *.
  rewrite starts_snoc. simpl. by rewrite app_nil_r.
Qed.

Lemma apply_decision_authorized timeout lat i delay d interrupted s :
  decision_sound i (snapshot s) delay d -> d <> GiveUp ->
  exists lat' s', apply_decision timeout lat d interrupted s = Some (lat', s') /\ starts_authorized i s s'.
Proof.
  intros Hd Hne.
  enough (exists r, apply_decision timeout lat d interrupted s = Some r /\ starts_authorized i s r.2)
    as ([lat' s'] & -> & Hs) by eauto.
  destruct d as [route| | |t|reason|t]; simpl in Hd; try done; simpl; eexists; (split; [done|]);
    try (destruct interrupted; [by left|]); apply request_authorized; intros g; unfold handle; simpl.
  - by eapply only_authorized, starts_only_activate.
  - apply nothing_authorized, starts_nothing_stop_to_idle.
  - apply nothing_authorized, starts_nothing_stop_to_idle.
  - apply nothing_authorized, starts_nothing_suspend.
  - destruct Hd as (_ & route & Hi & Hs & Hr).
    assert (retry timeout g s = activate timeout g route s) as ->
      by (unfold retry, abind, borrow; by rewrite Hs, Hr).
    by eapply only_authorized, starts_only_activate.
Qed.
End Starts.

(** Media is started only with authority.  Every turn of the policy ends
    (the unreachable decision is never applied), and the captures it starts are none
    or one, of the observed route, with the display attached, the grant active and
    the device available with its session ready. *)
Theorem policy_starts_authorized `{MediaSessionDriver} timeout recovery i interrupted p :
  exists r p', policy_turn timeout recovery i interrupted p = Some (r, p') /\
    (starts (media p') = starts (media p) \/
     exists q, starts (media p') = starts (media p) ++ [q] /\ authorized i (sr_route q)).
Proof.
  unfold policy_turn. set (t := observe_retry _ _ _).
  destruct (decide_media i (snapshot (media p)) (next_delay t recovery)) as [d|] eqn:Hd;
    [|do 2 eexists; split; [done|by left]].
  apply decide_media_sound in Hd.
  destruct (decide (d = GiveUp)) as [->|Hne]; [do 2 eexists; split; [done|by left]|].
  destruct (apply_decision_authorized timeout (latest p) i _ d interrupted (media p) Hd Hne)
    as (lat' & s' & Happly & Hs). rewrite Happly.
  destruct d; try done; do 2 eexists; (split; [done|]); exact Hs.
Qed.
