(* ===== verification/BackendProtocol.v ===== *)
(** * The backend protocol's messages (crates/pronk-backend-protocol)

    Every message that crosses the private connection between the daemon and a
    backend is checked by its [validate].  The trait [Validate] of the code is a
    class here; an instance carries, next to the function of the source, the
    declarative meaning of a valid message and the proof that the function
    decides it.  Text is a list of scalar values, limits are in UTF-8 bytes. *)

From S2P Require Import Prelude Bytes Text.

(** ** Limits (lib.rs and session.rs) *)

Definition PROTOCOL_MAJOR : Z := 1.
Definition PROTOCOL_MINOR : Z := 0.
Definition KNOWN_CAPABILITIES : Z := 1.
Definition REQUIRED_CAPABILITIES : Z := 1.
Definition MAX_BACKEND_ID_BYTES : nat := 64.
Definition MAX_DEVICE_TEXT_BYTES : nat := 256.
Definition MAX_DISPLAY_NAME_BYTES : nat := 256.
Definition MAX_BUILD_VERSION_BYTES : nat := 128.
Definition MAX_ACTIVATION_ID_BYTES : nat := 128.
Definition MAX_DISCOVERY_METADATA_ENTRIES : nat := 16.
Definition MAX_DISCOVERY_METADATA_KEY_BYTES : nat := 64.
Definition MAX_DISCOVERY_METADATA_VALUE_BYTES : nat := 256.
Definition MAX_DEVICES : nat := 128.
Definition MAX_ERROR_TEXT_BYTES : nat := 512.
Definition MAX_MODES : nat := 64.
Definition MAX_VIDEO_PROFILES : nat := 16.
Definition MAX_AUDIO_PROFILES : nat := 16.
Definition MAX_ENDPOINTS : nat := 16.
Definition MAX_NODE_NAME_BYTES : nat := 256.
Definition MAX_MANUFACTURER_NAME_BYTES : nat := 128.
Definition MAX_PRODUCT_NAME_BYTES : nat := 106.
Definition SESSION_FEATURE_AUDIO : Z := Z.shiftl 1 0.
Definition SESSION_FEATURE_CONTROL : Z := Z.shiftl 1 1.
Definition KNOWN_SESSION_FEATURES : Z := Z.lor SESSION_FEATURE_AUDIO SESSION_FEATURE_CONTROL.

(** ** Errors *)

Inductive ValidationError :=
  | IncompatibleMajor (major : Z)
  | IncompatibleMinor (minor : Z)
  | MissingCapabilities (missing : Z)
  | UnknownCapabilities (unknown : Z)
  | RequiredCapabilitiesNotAdvertised (missing : Z)
  | Empty (field : string)
  | TooLong (field : string) (actual limit : nat)
  | ControlCharacter (field : string)
  | InvalidToken (field : string)
  | ZeroGeneration (field : string)
  | TooMany (field : string) (actual limit : nat)
  | InvalidBackendId
  | DuplicateMetadataKey (key : list Z)
  | DuplicateDevice (backend_id device_id : list Z)
  | OutOfRange (field : string) (actual minimum maximum : Z)
  | UnexpectedIdentityValue (field : string)
  | MissingIdentityValue (field : string)
  | InvalidPnpId
  | DuplicateIdentifier (field : string) (value : list Z)
  | InvalidSessionId
  | InvalidSessionPath
  | InvalidMediaLayout (reason : string)
  | InvalidControlOperation (reason : string).

Abbreviation checked := (outcome ValidationError unit).

(** ** Scalars *)

Definition is_ascii_lowercase (b : Z) : bool := (97 <=? b) && (b <=? 122).
Definition is_ascii_uppercase (b : Z) : bool := (65 <=? b) && (b <=? 90).
Definition is_ascii_digit (b : Z) : bool := (48 <=? b) && (b <=? 57).
Definition is_ascii_alphanumeric (b : Z) : bool :=
  is_ascii_lowercase b || is_ascii_uppercase b || is_ascii_digit b.
Definition is_lower_hex (b : Z) : bool := is_ascii_digit b || ((97 <=? b) && (b <=? 102)).

Definition validate_text (field : string) (value : list Z) (limit : nat) : checked :=
  try? reject (bool_decide (value = [])) (Empty field);
  try? reject (limit <? str_len value)%nat (TooLong field (str_len value) limit);
  reject (existsb is_control value) (ControlCharacter field).

Definition is_backend_id_byte (b : Z) : bool :=
  is_ascii_lowercase b || is_ascii_digit b || (b =? 45).

Definition validate_backend_id (value : list Z) : checked :=
  try? validate_text "backend ID" value MAX_BACKEND_ID_BYTES;
  reject (negb (forallb is_backend_id_byte (utf8 value))) InvalidBackendId.

(** Letters, digits and [- _ . : @]. *)
Definition is_token_byte (b : Z) : bool :=
  is_ascii_alphanumeric b || (b =? 45) || (b =? 95) || (b =? 46) || (b =? 58) || (b =? 64).

Definition validate_token (field : string) (value : list Z) (limit : nat) : checked :=
  try? validate_text field value limit;
  reject (negb (forallb is_token_byte (utf8 value))) (InvalidToken field).

Definition validate_metadata_key (value : list Z) : checked :=
  validate_token "discovery metadata key" value MAX_DISCOVERY_METADATA_KEY_BYTES.

Definition validate_generation (field : string) (generation : Z) : checked :=
  reject (generation =? 0) (ZeroGeneration field).

Definition validate_count (field : string) (actual limit : nat) : checked :=
  reject (limit <? actual)%nat (TooMany field actual limit).

Definition validate_range (field : string) (actual minimum maximum : Z) : checked :=
  reject (negb ((minimum <=? actual) && (actual <=? maximum)))
    (OutOfRange field actual minimum maximum).

Definition validate_feature_bits (features : Z) : checked :=
  let unknown := Z.land features (Z.ldiff u64_MAX KNOWN_SESSION_FEATURES) in
  reject (negb (unknown =? 0)) (UnknownCapabilities unknown).

Definition validate_profile_id (field : string) (value : list Z) : checked :=
  validate_token field value 128.

Definition validate_error_text (error_text : list Z) : checked :=
  validate_text "backend error text" error_text MAX_ERROR_TEXT_BYTES.

(** ** Data *)

Record BackendInfo := {
  protocol_major : Z; protocol_minor : Z; capabilities : Z; required_capabilities : Z;
  bi_backend_id : list Z; bi_display_name : list Z; build_version : list Z;
  activation_instance : list Z; invocation_id : list Z }.

Definition BackendInfo_v1 (backend_id display_name version activation invocation : list Z) : BackendInfo :=
  {| protocol_major := PROTOCOL_MAJOR; protocol_minor := PROTOCOL_MINOR;
     capabilities := KNOWN_CAPABILITIES; required_capabilities := REQUIRED_CAPABILITIES;
     bi_backend_id := backend_id; bi_display_name := display_name; build_version := version;
     activation_instance := activation; invocation_id := invocation |}.

Record RegistrationReply := { rr_protocol_minor : Z; rr_connection_generation : Z }.

Inductive DeviceAvailability := Available | Busy | Unavailable.

Record DiscoveryMetadataEntry := { key : list Z; value : list Z }.

Record DeviceInfo := {
  backend_id : list Z; device_id : list Z; display_name : list Z;
  availability : DeviceAvailability; metadata : list DiscoveryMetadataEntry }.

Record DeviceSnapshot := {
  ds_discovery_generation : Z; revision : Z; devices : list DeviceInfo }.

Record DeviceIdentity := { di_backend_id : list Z; di_device_id : list Z }.

Record SessionOptions := {
  so_connection_generation : Z; so_discovery_generation : Z; so_session_generation : Z;
  so_requested_features : Z }.

Record DisplayMode := { dm_width : Z; dm_height : Z; dm_refresh_millihz : Z; dm_flags : Z }.

Record VideoProfile := {
  vp_profile_id : list Z; vp_codec : list Z; max_width : Z; max_height : Z; max_refresh_millihz : Z }.

Record AudioProfile := {
  ap_profile_id : list Z; ap_codec : list Z; max_channels : Z; sample_rates : list Z }.

Record PreparationRequest := {
  pr_preparation_generation : Z; candidate_modes : list DisplayMode;
  pr_video_profiles : list VideoProfile; pr_audio_profiles : list AudioProfile;
  pr_requested_features : Z }.

Inductive IdentitySource := Absent | SetupEndpoint | AuthenticatedDeviceInfo | DiscoveryAdvertisement.

Record DisplayIdentity := {
  manufacturer_name : option (list Z); manufacturer_source : IdentitySource;
  product_name : option (list Z); product_source : IdentitySource; pnp_id : option (list Z) }.

Record DeviceCapabilities := {
  preparation_generation : Z; display_identity : DisplayIdentity; modes : list DisplayMode;
  video_profiles : list VideoProfile; audio_profiles : list AudioProfile; features : Z }.

Inductive MediaKind := Video | Audio.

Record PipeWireTarget := {
  pt_kind : MediaKind; node_name : list Z; object_serial : Z; session_id : list Z;
  device_instance : list Z; connector_id : Z; output_index : Z; pt_media_generation : Z;
  caps : list Z }.

Record MediaConfiguration := {
  video_profile_id : list Z; audio_profile_id : option (list Z); mc_mode : DisplayMode;
  video_bitrate : Z }.

Inductive ControlKind := Activate | Deactivate | Power | Standby | KeyDown | KeyUp | Volume | Mute.

Record ControlOperation := {
  co_session_generation : Z; co_kind : ControlKind; code : option (list Z); co_value : Z }.

Record SessionStatistics := {
  ss_session_generation : Z; ss_media_generation : Z; ss_video_bitrate : Z; encoded_frames : Z;
  dropped_frames : Z; queue_delay_micros : Z }.

Global Instance DeviceAvailability_eq_dec : EqDecision DeviceAvailability.
Proof. solve_decision. Defined.
Global Instance DiscoveryMetadataEntry_eq_dec : EqDecision DiscoveryMetadataEntry.
Proof. solve_decision. Defined.
Global Instance DeviceInfo_eq_dec : EqDecision DeviceInfo.
Proof. solve_decision. Defined.
Global Instance DisplayMode_eq_dec : EqDecision DisplayMode.
Proof. solve_decision. Defined.
Global Instance VideoProfile_eq_dec : EqDecision VideoProfile.
Proof. solve_decision. Defined.
Global Instance AudioProfile_eq_dec : EqDecision AudioProfile.
Proof. solve_decision. Defined.
Global Instance IdentitySource_eq_dec : EqDecision IdentitySource.
Proof. solve_decision. Defined.
Global Instance MediaKind_eq_dec : EqDecision MediaKind.
Proof. solve_decision. Defined.

(** ** The trait *)

(** [Validate], with the meaning of a valid message. *)
Class Validate (T : Type) := {
  validate : T -> checked;
  well_formed : T -> Prop;
  validate_iff : forall x, validate x = Ok tt <-> well_formed x }.

(** [for value in values { value.validate()? }]. *)
Fixpoint validate_each {T} (check : T -> checked) (values : list T) : checked :=
  match values with
  | [] => Ok tt
  | v :: values' => try? check v; validate_each check values'
  end.

Definition validate_bounded {T} (check : T -> checked) (field : string) (values : list T)
    (maximum : nat) : checked :=
  try? validate_count field (length values) maximum;
  validate_each check values.

Definition validate_nonempty_bounded {T} (check : T -> checked) (field : string) (values : list T)
    (maximum : nat) : checked :=
  try? reject (bool_decide (values = [])) (Empty field);
  validate_bounded check field values maximum.

(** The loops over a [HashSet] of what was seen. *)
Fixpoint unique_by {T K} `{EqDecision K} (identifier : T -> K) (error : K -> ValidationError)
    (seen : list K) (values : list T) : checked :=
  match values with
  | [] => Ok tt
  | v :: values' =>
      try? reject (bool_decide (identifier v ∈ seen)) (error (identifier v));
      unique_by identifier error (identifier v :: seen) values'
  end.

Definition validate_unique_profiles {T} (field : string) (values : list T) (identifier : T -> list Z)
  : checked := unique_by identifier (DuplicateIdentifier field) [] values.

(** [for value in values { check(value)?; if !seen.insert(id) { Err } }]. *)
Fixpoint validate_distinct {T K} `{EqDecision K} (check : T -> checked) (identifier : T -> K)
    (error : K -> ValidationError) (seen : list K) (values : list T) : checked :=
  match values with
  | [] => Ok tt
  | v :: values' =>
      try? check v;
      try? reject (bool_decide (identifier v ∈ seen)) (error (identifier v));
      validate_distinct check identifier error (identifier v :: seen) values'
  end.

(** ** Messages *)

Definition validate_backend_info (i : BackendInfo) : checked :=
  let not x := Z.ldiff u64_MAX x in
  try? reject (negb (protocol_major i =? PROTOCOL_MAJOR)) (IncompatibleMajor (protocol_major i));
  try? reject (negb (Z.land (capabilities i) REQUIRED_CAPABILITIES =? REQUIRED_CAPABILITIES))
         (MissingCapabilities (Z.land REQUIRED_CAPABILITIES (not (capabilities i))));
  try? reject (negb (Z.land (required_capabilities i) (not KNOWN_CAPABILITIES) =? 0))
         (UnknownCapabilities (Z.land (required_capabilities i) (not KNOWN_CAPABILITIES)));
  try? reject (negb (Z.land (required_capabilities i) (not (capabilities i)) =? 0))
         (RequiredCapabilitiesNotAdvertised
            (Z.land (required_capabilities i) (not (capabilities i))));
  try? validate_backend_id (bi_backend_id i);
  try? validate_text "backend display name" (bi_display_name i) MAX_DISPLAY_NAME_BYTES;
  try? validate_text "build version" (build_version i) MAX_BUILD_VERSION_BYTES;
  try? validate_token "activation instance" (activation_instance i) MAX_ACTIVATION_ID_BYTES;
  validate_token "invocation ID" (invocation_id i) MAX_ACTIVATION_ID_BYTES.

Definition validate_registration_reply (r : RegistrationReply) : checked :=
  try? reject (PROTOCOL_MINOR <? rr_protocol_minor r) (IncompatibleMinor (rr_protocol_minor r));
  validate_generation "connection" (rr_connection_generation r).

Definition validate_metadata_entry (e : DiscoveryMetadataEntry) : checked :=
  try? validate_metadata_key (key e);
  validate_text "discovery metadata value" (value e) MAX_DISCOVERY_METADATA_VALUE_BYTES.

Definition validate_device_info (d : DeviceInfo) : checked :=
  try? validate_backend_id (backend_id d);
  try? validate_text "device ID" (device_id d) MAX_DEVICE_TEXT_BYTES;
  try? validate_text "device display name" (display_name d) MAX_DEVICE_TEXT_BYTES;
  try? validate_count "discovery metadata" (length (metadata d)) MAX_DISCOVERY_METADATA_ENTRIES;
  validate_distinct validate_metadata_entry key DuplicateMetadataKey [] (metadata d).

Definition device_key (d : DeviceInfo) : list Z * list Z := (backend_id d, device_id d).

Definition validate_device_snapshot (s : DeviceSnapshot) : checked :=
  try? validate_generation "discovery" (ds_discovery_generation s);
  try? validate_count "devices" (length (devices s)) MAX_DEVICES;
  validate_distinct validate_device_info device_key (fun k => DuplicateDevice k.1 k.2) [] (devices s).

Definition validate_device_identity (d : DeviceIdentity) : checked :=
  try? validate_backend_id (di_backend_id d);
  validate_text "device ID" (di_device_id d) MAX_DEVICE_TEXT_BYTES.

Definition validate_session_options (o : SessionOptions) : checked :=
  try? validate_generation "connection" (so_connection_generation o);
  try? validate_generation "discovery" (so_discovery_generation o);
  try? validate_generation "session" (so_session_generation o);
  validate_feature_bits (so_requested_features o).

Definition validate_display_mode (m : DisplayMode) : checked :=
  try? validate_range "mode width" (dm_width m) 320 7680;
  try? validate_range "mode height" (dm_height m) 240 4320;
  try? validate_range "mode refresh millihertz" (dm_refresh_millihz m) 1000 240000;
  reject (negb (dm_flags m =? 0)) (OutOfRange "mode flags" (dm_flags m) 0 0).

Definition validate_video_profile (p : VideoProfile) : checked :=
  try? validate_profile_id "video profile ID" (vp_profile_id p);
  try? validate_token "video codec" (vp_codec p) 64;
  try? validate_range "video maximum width" (max_width p) 320 7680;
  try? validate_range "video maximum height" (max_height p) 240 4320;
  validate_range "video maximum refresh millihertz" (max_refresh_millihz p) 1000 240000.

Definition validate_audio_profile (p : AudioProfile) : checked :=
  try? validate_profile_id "audio profile ID" (ap_profile_id p);
  try? validate_token "audio codec" (ap_codec p) 64;
  try? validate_range "audio maximum channels" (max_channels p) 1 8;
  try? validate_count "audio sample rates" (length (sample_rates p)) 16;
  try? reject (bool_decide (sample_rates p = [])) (Empty "audio sample rates");
  validate_distinct (fun rate => validate_range "audio sample rate" rate 8000 192000) (fun rate => rate)
    (fun rate => DuplicateIdentifier "audio sample rate" (display_uint rate)) [] (sample_rates p).

Definition validate_preparation_request (r : PreparationRequest) : checked :=
  try? validate_generation "preparation" (pr_preparation_generation r);
  try? validate_nonempty_bounded validate_display_mode "candidate modes" (candidate_modes r) MAX_MODES;
  try? validate_nonempty_bounded validate_video_profile "video profiles" (pr_video_profiles r)
         MAX_VIDEO_PROFILES;
  try? validate_bounded validate_audio_profile "audio profiles" (pr_audio_profiles r)
         MAX_AUDIO_PROFILES;
  try? validate_unique_profiles "video profile" (pr_video_profiles r) vp_profile_id;
  try? validate_unique_profiles "audio profile" (pr_audio_profiles r) ap_profile_id;
  try? validate_feature_bits (pr_requested_features r);
  reject (negb (Z.land (pr_requested_features r) SESSION_FEATURE_AUDIO =? 0)
          && bool_decide (pr_audio_profiles r = []))
    (InvalidMediaLayout "audio was requested without an audio profile").

Definition validate_sourced_identity (field : string) (value : option (list Z))
    (source : IdentitySource) (limit : nat) : checked :=
  match value, source with
  | None, Absent => Ok tt
  | Some _, Absent => Err (UnexpectedIdentityValue field)
  | None, _ => Err (MissingIdentityValue field)
  | Some value, _ => validate_text field value limit
  end.

(** [SetupEndpoint | AuthenticatedDeviceInfo]. *)
Definition trusted_source (s : IdentitySource) : bool :=
  match s with SetupEndpoint | AuthenticatedDeviceInfo => true | _ => false end.

Definition validate_display_identity (d : DisplayIdentity) : checked :=
  try? validate_sourced_identity "manufacturer name" (manufacturer_name d) (manufacturer_source d)
         MAX_MANUFACTURER_NAME_BYTES;
  try? validate_sourced_identity "product name" (product_name d) (product_source d)
         MAX_PRODUCT_NAME_BYTES;
  match pnp_id d with
  | None => Ok tt
  | Some pnp =>
      try? reject (negb (str_len pnp =? 3)%nat || negb (forallb is_ascii_uppercase (utf8 pnp)))
             InvalidPnpId;
      reject (negb (trusted_source (manufacturer_source d)))
        (InvalidMediaLayout "PNP ID requires setup or authenticated device manufacturer provenance")
  end.

Definition validate_capabilities (c : DeviceCapabilities) : checked :=
  let audio := negb (Z.land (features c) SESSION_FEATURE_AUDIO =? 0) in
  try? validate_generation "preparation" (preparation_generation c);
  try? validate_display_identity (display_identity c);
  try? validate_nonempty_bounded validate_display_mode "device modes" (modes c) MAX_MODES;
  try? validate_nonempty_bounded validate_video_profile "device video profiles" (video_profiles c)
         MAX_VIDEO_PROFILES;
  try? validate_bounded validate_audio_profile "device audio profiles" (audio_profiles c)
         MAX_AUDIO_PROFILES;
  try? validate_unique_profiles "video profile" (video_profiles c) vp_profile_id;
  try? validate_unique_profiles "audio profile" (audio_profiles c) ap_profile_id;
  try? validate_feature_bits (features c);
  try? reject (audio && bool_decide (audio_profiles c = []))
         (InvalidMediaLayout "audio capability has no audio profile");
  reject (negb audio && negb (bool_decide (audio_profiles c = [])))
    (InvalidMediaLayout "audio profiles require the audio capability").

(** The bytes of [validate_session_id]'s loop: dashes at 8, 13, 18 and 23. *)
Fixpoint session_id_bytes (index : nat) (bytes : list Z) : checked :=
  match bytes with
  | [] => Ok tt
  | b :: bytes' =>
      try? if bool_decide (index ∈ [8; 13; 18; 23]%nat) then reject (negb (b =? 45)) InvalidSessionId
           else reject (negb (is_lower_hex b)) InvalidSessionId;
      session_id_bytes (S index) bytes'
  end.

Definition validate_session_id (id : list Z) : checked :=
  try? reject (negb (str_len id =? 36)%nat) InvalidSessionId;
  session_id_bytes 0 (utf8 id).

Definition validate_target (t : PipeWireTarget) : checked :=
  try? validate_text "PipeWire node name" (node_name t) MAX_NODE_NAME_BYTES;
  try? validate_generation "PipeWire object serial" (object_serial t);
  try? validate_session_id (session_id t);
  try? validate_token "device instance" (device_instance t) 128;
  try? validate_range "connector ID" (connector_id t) 1 u32_MAX;
  try? validate_range "output index" (output_index t) 0 127;
  try? validate_generation "media" (pt_media_generation t);
  validate_text "PipeWire caps" (caps t) MAX_NODE_NAME_BYTES.

Definition validate_configuration (c : MediaConfiguration) : checked :=
  try? validate_profile_id "video profile ID" (video_profile_id c);
  try? match audio_profile_id c with
       | Some id => validate_profile_id "audio profile ID" id
       | None => Ok tt
       end;
  try? validate_display_mode (mc_mode c);
  validate_range "video bitrate" (video_bitrate c) 1 1000000000.

Definition validate_media_configuration (remote_count : nat) (targets : list PipeWireTarget)
    (c : MediaConfiguration) (generation : Z) : checked :=
  let expected := match audio_profile_id c with Some _ => 2%nat | None => 1%nat end in
  try? validate_generation "media" generation;
  try? validate_configuration c;
  try? validate_count "PipeWire targets" (length targets) MAX_ENDPOINTS;
  try? reject (negb (remote_count =? length targets)%nat)
         (InvalidMediaLayout "remote count differs from target count");
  try? reject (negb (remote_count =? expected)%nat)
         (InvalidMediaLayout "version 1 requires video, then optional audio");
  try? validate_each (fun t =>
         try? validate_target t;
         reject (negb (pt_media_generation t =? generation))
           (InvalidMediaLayout "target generation differs from ConfigureMedia generation")) targets;
  try? reject (negb (bool_decide (pt_kind <$> targets !! 0%nat = Some Video)))
         (InvalidMediaLayout "first remote must target video");
  reject ((expected =? 2)%nat && negb (bool_decide (pt_kind <$> targets !! 1%nat = Some Audio)))
    (InvalidMediaLayout "second remote must target audio").

Definition require_control_shape (valid : bool) (reason : string) : checked :=
  if valid then Ok tt else Err (InvalidControlOperation reason).

Definition validate_control (o : ControlOperation) : checked :=
  try? validate_generation "session" (co_session_generation o);
  try? match code o with Some c => validate_token "control code" c 64 | None => Ok tt end;
  let coded s := bool_decide (code o = Some (codes s)) in
  let zero := co_value o =? 0 in
  match co_kind o with
  | Activate | Deactivate | Standby =>
      require_control_shape (bool_decide (code o = None) && zero) "simple operation shape"
  | Power =>
      require_control_shape ((coded "on" || coded "toggle") && zero)
        "power requires code on or toggle and zero value"
  | KeyDown | KeyUp =>
      require_control_shape (negb (bool_decide (code o = None)) && zero)
        "key operation requires code and zero value"
  | Volume =>
      if coded "relative" then
        require_control_shape ((-100 <=? co_value o) && (co_value o <=? 100) && negb zero)
          "relative volume must be nonzero in -100..=100"
      else if coded "absolute" then
        require_control_shape ((0 <=? co_value o) && (co_value o <=? 100))
          "absolute volume must be in 0..=100"
      else Err (InvalidControlOperation "volume requires relative or absolute code")
  | Mute =>
      require_control_shape ((coded "on" || coded "off" || coded "toggle") && zero)
        "mute requires code on, off, or toggle and zero value"
  end.

Definition validate_statistics (s : SessionStatistics) : checked :=
  try? validate_generation "session" (ss_session_generation s);
  try? validate_generation "media" (ss_media_generation s);
  try? validate_range "video bitrate" (ss_video_bitrate s) 0 1000000000;
  validate_range "queue delay" (queue_delay_micros s) 0 60000000.

(** ** Session object paths *)

(** [OwnedObjectPath::try_from] of zvariant. *)
Class ObjectPath := { object_path : list Z -> bool }.

Definition hex_digit (n : Z) : Z := if n <? 10 then 48 + n else 87 + n.

(** [{:0n$x}] of a value that has at most [n] digits. *)
Fixpoint hex_digits (n : nat) (g : Z) : list Z :=
  match n with
  | O => []
  | S n' => hex_digits n' (g / 16) ++ [hex_digit (g mod 16)]
  end.

Definition BACKEND_SESSION_PATH_PREFIX : list Z :=
  codes "/io/github/pronkproject/Pronk/Backend/Sessions/".

Definition session_object_path `{ObjectPath} (id : list Z) (generation : Z)
  : outcome ValidationError (list Z) :=
  try? validate_session_id id;
  try? reject (generation =? 0) (ZeroGeneration "session");
  let encoded := filter (fun c => c <> 45) id in
  let path := BACKEND_SESSION_PATH_PREFIX ++ codes "s_" ++ encoded ++ codes "_g"
              ++ hex_digits 16 generation in
  if object_path path then Ok path else Err InvalidSessionPath.

Fixpoint strip_prefix (prefix l : list Z) : option (list Z) :=
  match prefix, l with
  | [], _ => Some l
  | p :: prefix', x :: l' => if p =? x then strip_prefix prefix' l' else None
  | _ :: _, [] => None
  end.

(** A path is ASCII, so byte ranges are character ranges. *)
Definition validate_session_object_path (path : list Z) : checked :=
  match strip_prefix BACKEND_SESSION_PATH_PREFIX path with
  | None => Err InvalidSessionPath
  | Some element =>
      if negb (length element =? 52)%nat then Err InvalidSessionPath
      else
        let? tag := slice element 34 36 in
        let? id := slice element 2 34 in
        let? generation := slice element 36 (length element) in
        reject (negb (bool_decide (take 2 element = codes "s_"))
                || negb (bool_decide (tag = codes "_g"))
                || negb (forallb is_lower_hex id) || negb (forallb is_lower_hex generation)
                || forallb (fun b => b =? 48) generation) InvalidSessionPath
  end.

(** ** What valid means *)

Definition text_ok (value : list Z) (limit : nat) : Prop :=
  value <> [] /\ (str_len value <= limit)%nat /\ Forall (fun c => is_control c = false) value.

Definition backend_id_ok (value : list Z) : Prop :=
  text_ok value MAX_BACKEND_ID_BYTES /\ Forall (fun b => is_backend_id_byte b = true) (utf8 value).

Definition token_ok (value : list Z) (limit : nat) : Prop :=
  text_ok value limit /\ Forall (fun b => is_token_byte b = true) (utf8 value).

(** Only the audio and control bits. *)
Definition features_ok (features : Z) : Prop :=
  Z.land features (Z.ldiff u64_MAX KNOWN_SESSION_FEATURES) = 0.

Definition has_audio (features : Z) : Prop := Z.land features SESSION_FEATURE_AUDIO <> 0.

Create HintDb validation.

Lemma existsb_Forall {A} (p : A -> bool) l : existsb p l = false <-> Forall (fun x => p x = false) l.
Proof.
  induction l as [|x l IH]; simpl; [by split|]. rewrite orb_false_iff, IH, Forall_cons. done.
Qed.

Lemma forallb_Forall {A} (p : A -> bool) l : forallb p l = true <-> Forall (fun x => p x = true) l.
Proof.
  induction l as [|x l IH]; simpl; [by split|]. rewrite andb_true_iff, IH, Forall_cons. done.
Qed.

Lemma bool_decide_false {P} `{Decision P} : bool_decide P = false <-> ~ P.
Proof. apply bool_decide_eq_false. Qed.

Lemma eqb_false_ne a b : (a =? b) = false <-> a <> b.
Proof. apply Z.eqb_neq. Qed.

Lemma validate_text_iff field value limit :
  validate_text field value limit = Ok tt <-> text_ok value limit.
Proof.
  unfold validate_text, text_ok. rewrite !reject_seq_ok, reject_ok, Nat.ltb_ge, existsb_Forall.
  by rewrite bool_decide_false.
Qed.

Lemma validate_token_iff field value limit :
  validate_token field value limit = Ok tt <-> token_ok value limit.
Proof.
  unfold validate_token, token_ok. rewrite seq_ok, validate_text_iff, reject_ok, negb_false_iff.
  by rewrite forallb_Forall.
Qed.

Lemma validate_backend_id_iff value : validate_backend_id value = Ok tt <-> backend_id_ok value.
Proof.
  unfold validate_backend_id, backend_id_ok. rewrite seq_ok, validate_text_iff, reject_ok, negb_false_iff.
  by rewrite forallb_Forall.
Qed.

Lemma validate_generation_iff field g : validate_generation field g = Ok tt <-> g <> 0.
Proof. unfold validate_generation. by rewrite reject_ok, eqb_false_ne. Qed.

Lemma validate_count_iff field n limit : validate_count field n limit = Ok tt <-> (n <= limit)%nat.
Proof. unfold validate_count. by rewrite reject_ok, Nat.ltb_ge. Qed.

Lemma validate_range_iff field x lo hi : validate_range field x lo hi = Ok tt <-> lo <= x <= hi.
Proof.
  unfold validate_range. rewrite reject_ok, negb_false_iff, andb_true_iff, !Z.leb_le. done.
Qed.

Lemma validate_feature_bits_iff features : validate_feature_bits features = Ok tt <-> features_ok features.
Proof. unfold validate_feature_bits. by rewrite reject_ok, negb_false_iff, Z.eqb_eq. Qed.

Lemma validate_each_iff {T} (check : T -> checked) (P : T -> Prop) values :
  (forall x, check x = Ok tt <-> P x) -> validate_each check values = Ok tt <-> Forall P values.
Proof.
  intros H. induction values as [|v values IH]; simpl; [by split|].
  rewrite seq_ok, H, IH, Forall_cons. done.
Qed.

Lemma unique_by_iff {T K} `{EqDecision K} (identifier : T -> K) error seen values :
  unique_by identifier error seen values = Ok tt <->
  NoDup (identifier <$> values) /\ forall x, x ∈ identifier <$> values -> x ∉ seen.
Proof.
  revert seen. induction values as [|v values IH]; intros seen; simpl.
  { split; [|done]. split; [constructor|]. intros x Hx. by apply elem_of_nil in Hx. }
  rewrite reject_seq_ok, bool_decide_false, IH. rewrite NoDup_cons. setoid_rewrite elem_of_cons. naive_solver.
Qed.

Lemma validate_distinct_split {T K} `{EqDecision K} (check : T -> checked) (identifier : T -> K) error seen values :
  validate_distinct check identifier error seen values = Ok tt <->
  validate_each check values = Ok tt /\ unique_by identifier error seen values = Ok tt.
Proof.
  revert seen. induction values as [|v values IH]; intros seen; simpl; [by repeat split|].
  rewrite !seq_ok, IH. tauto.
Qed.

Lemma unique_by_nil {T K} `{EqDecision K} (identifier : T -> K) error values :
  unique_by identifier error [] values = Ok tt <-> NoDup (identifier <$> values).
Proof.
  rewrite unique_by_iff. split; [by intros []|]. intros. split; [done|]. intros x _.
  apply not_elem_of_nil.
Qed.

Lemma validate_distinct_iff {T K} `{EqDecision K} (check : T -> checked) (identifier : T -> K) error
    (P : T -> Prop) values :
  (forall x, check x = Ok tt <-> P x) ->
  validate_distinct check identifier error [] values = Ok tt <->
  Forall P values /\ NoDup (identifier <$> values).
Proof. intros H. by rewrite validate_distinct_split, (validate_each_iff _ P), unique_by_nil. Qed.

Lemma validate_bounded_iff {T} (check : T -> checked) (P : T -> Prop) field values maximum :
  (forall x, check x = Ok tt <-> P x) ->
  validate_bounded check field values maximum = Ok tt <-> (length values <= maximum)%nat /\ Forall P values.
Proof. intros H. unfold validate_bounded. by rewrite seq_ok, validate_count_iff, (validate_each_iff _ P). Qed.

Lemma validate_nonempty_bounded_iff {T} (check : T -> checked) (P : T -> Prop) field values maximum :
  (forall x, check x = Ok tt <-> P x) ->
  validate_nonempty_bounded check field values maximum = Ok tt <->
  values <> [] /\ (length values <= maximum)%nat /\ Forall P values.
Proof.
  intros H. unfold validate_nonempty_bounded.
  rewrite reject_seq_ok, (validate_bounded_iff _ P) by done.
  destruct values; simpl; naive_solver.
Qed.

Ltac validating :=
  repeat first
    [ rewrite reject_seq_ok | rewrite seq_ok | rewrite validate_text_iff | rewrite validate_token_iff
    | rewrite validate_backend_id_iff | rewrite validate_generation_iff | rewrite validate_count_iff
    | rewrite validate_range_iff | rewrite validate_feature_bits_iff | rewrite unique_by_nil
    | rewrite reject_ok | rewrite negb_false_iff | rewrite Z.eqb_eq | rewrite eqb_false_ne ].

(** *** Validators do not panic *)

Definition total {E A} (m : outcome E A) : Prop := safe m (fun _ => True).

Lemma total_bind {E A B} (m : outcome E A) (k : A -> outcome E B) :
  total m -> (forall a, total (k a)) -> total (obind m k).
Proof. destruct m; simpl; auto. Qed.

Lemma total_reject {E} (c : bool) (e : E) : total (reject c e).
Proof. by destruct c. Qed.

Lemma total_text field value limit : total (validate_text field value limit).
Proof. repeat (apply total_bind; [apply total_reject|]; intros _). apply total_reject. Qed.

Lemma total_token field value limit : total (validate_token field value limit).
Proof. apply total_bind; [apply total_text|]. intros _. apply total_reject. Qed.

Lemma total_backend_id value : total (validate_backend_id value).
Proof. apply total_bind; [apply total_text|]. intros _. apply total_reject. Qed.

Lemma total_distinct {T K} `{EqDecision K} (check : T -> checked) (identifier : T -> K) error seen values :
  (forall x, total (check x)) -> total (validate_distinct check identifier error seen values).
Proof.
  intros Hc. revert seen. induction values as [|v values IH]; intros seen; [done|].
  apply total_bind; [done|]. intros _. apply total_bind; [apply total_reject|]. intros _. apply IH.
Qed.

Lemma total_device_info d : total (validate_device_info d).
Proof.
  apply total_bind; [apply total_backend_id|]. intros _.
  do 2 (apply total_bind; [apply total_text|]; intros _).
  apply total_bind; [apply total_reject|]. intros _. apply total_distinct. intros e.
  apply total_bind; [apply total_token|]. intros _. apply total_text.
Qed.

(** *** Discovery *)

Definition metadata_ok (e : DiscoveryMetadataEntry) : Prop :=
  token_ok (key e) MAX_DISCOVERY_METADATA_KEY_BYTES /\
  text_ok (value e) MAX_DISCOVERY_METADATA_VALUE_BYTES.

Lemma validate_metadata_entry_iff e : validate_metadata_entry e = Ok tt <-> metadata_ok e.
Proof. unfold validate_metadata_entry, validate_metadata_key, metadata_ok. by validating. Qed.

Definition device_info_ok (d : DeviceInfo) : Prop :=
  backend_id_ok (backend_id d) /\ text_ok (device_id d) MAX_DEVICE_TEXT_BYTES /\
  text_ok (display_name d) MAX_DEVICE_TEXT_BYTES /\
  (length (metadata d) <= MAX_DISCOVERY_METADATA_ENTRIES)%nat /\
  Forall metadata_ok (metadata d) /\ NoDup (key <$> metadata d).

Lemma validate_device_info_iff d : validate_device_info d = Ok tt <-> device_info_ok d.
Proof.
  unfold validate_device_info, device_info_ok. validating.
  by rewrite (validate_distinct_iff _ _ _ metadata_ok) by apply validate_metadata_entry_iff.
Qed.

Definition device_snapshot_ok (s : DeviceSnapshot) : Prop :=
  ds_discovery_generation s <> 0 /\ (length (devices s) <= MAX_DEVICES)%nat /\
  Forall device_info_ok (devices s) /\ NoDup (device_key <$> devices s).

Lemma validate_device_snapshot_iff s : validate_device_snapshot s = Ok tt <-> device_snapshot_ok s.
Proof.
  unfold validate_device_snapshot, device_snapshot_ok. validating.
  by rewrite (validate_distinct_iff _ _ _ device_info_ok) by apply validate_device_info_iff.
Qed.

(** *** Capabilities *)

Definition display_mode_ok (m : DisplayMode) : Prop :=
  320 <= dm_width m <= 7680 /\ 240 <= dm_height m <= 4320 /\
  1000 <= dm_refresh_millihz m <= 240000 /\ dm_flags m = 0.

Lemma validate_display_mode_iff m : validate_display_mode m = Ok tt <-> display_mode_ok m.
Proof. unfold validate_display_mode, display_mode_ok. by validating. Qed.

Definition video_profile_ok (p : VideoProfile) : Prop :=
  token_ok (vp_profile_id p) 128 /\ token_ok (vp_codec p) 64 /\ 320 <= max_width p <= 7680 /\
  240 <= max_height p <= 4320 /\ 1000 <= max_refresh_millihz p <= 240000.

Lemma validate_video_profile_iff p : validate_video_profile p = Ok tt <-> video_profile_ok p.
Proof. unfold validate_video_profile, validate_profile_id, video_profile_ok. by validating. Qed.

Definition audio_profile_ok (p : AudioProfile) : Prop :=
  token_ok (ap_profile_id p) 128 /\ token_ok (ap_codec p) 64 /\ 1 <= max_channels p <= 8 /\
  (length (sample_rates p) <= 16)%nat /\ sample_rates p <> [] /\
  Forall (fun rate => 8000 <= rate <= 192000) (sample_rates p) /\ NoDup (sample_rates p).

Lemma validate_audio_profile_iff p : validate_audio_profile p = Ok tt <-> audio_profile_ok p.
Proof.
  unfold validate_audio_profile, validate_profile_id, audio_profile_ok. validating.
  rewrite bool_decide_false.
  rewrite (validate_distinct_iff _ _ _ (fun rate => 8000 <= rate <= 192000))
    by (intros; apply validate_range_iff).
  by rewrite list_fmap_id.
Qed.

Definition sourced_ok (value : option (list Z)) (source : IdentitySource) (limit : nat) : Prop :=
  match value with
  | None => source = Absent
  | Some value => source <> Absent /\ text_ok value limit
  end.

Lemma validate_sourced_iff field value source limit :
  validate_sourced_identity field value source limit = Ok tt <-> sourced_ok value source limit.
Proof.
  unfold validate_sourced_identity, sourced_ok.
  destruct value, source; rewrite ?validate_text_iff; naive_solver.
Qed.

Definition identity_ok (d : DisplayIdentity) : Prop :=
  sourced_ok (manufacturer_name d) (manufacturer_source d) MAX_MANUFACTURER_NAME_BYTES /\
  sourced_ok (product_name d) (product_source d) MAX_PRODUCT_NAME_BYTES /\
  match pnp_id d with
  | None => True
  | Some pnp =>
      str_len pnp = 3%nat /\ Forall (fun b => 65 <= b <= 90) (utf8 pnp) /\
      trusted_source (manufacturer_source d) = true
  end.

Lemma validate_display_identity_iff d : validate_display_identity d = Ok tt <-> identity_ok d.
Proof.
  unfold validate_display_identity, identity_ok. rewrite !seq_ok, !validate_sourced_iff.
  destruct (pnp_id d) as [pnp|]; [|naive_solver].
  rewrite reject_seq_ok, reject_ok, orb_false_iff, !negb_false_iff, Nat.eqb_eq, forallb_Forall.
  assert (Forall (fun b => is_ascii_uppercase b = true) (utf8 pnp) <->
          Forall (fun b => 65 <= b <= 90) (utf8 pnp)) as ->; [|tauto].
  apply Forall_proper; [|done]. intros b. unfold is_ascii_uppercase.
  by rewrite andb_true_iff, !Z.leb_le.
Qed.

(** Modes and video there are; audio profiles exactly when audio is offered. *)
Definition capabilities_ok (c : DeviceCapabilities) : Prop :=
  preparation_generation c <> 0 /\ identity_ok (display_identity c) /\
  (modes c <> [] /\ (length (modes c) <= MAX_MODES)%nat /\ Forall display_mode_ok (modes c)) /\
  (video_profiles c <> [] /\ (length (video_profiles c) <= MAX_VIDEO_PROFILES)%nat /\
   Forall video_profile_ok (video_profiles c)) /\
  ((length (audio_profiles c) <= MAX_AUDIO_PROFILES)%nat /\ Forall audio_profile_ok (audio_profiles c)) /\
  NoDup (vp_profile_id <$> video_profiles c) /\ NoDup (ap_profile_id <$> audio_profiles c) /\
  features_ok (features c) /\ (has_audio (features c) <-> audio_profiles c <> []).

Lemma validate_capabilities_iff c : validate_capabilities c = Ok tt <-> capabilities_ok c.
Proof.
  unfold validate_capabilities, validate_unique_profiles, capabilities_ok, has_audio. validating.
  rewrite validate_display_identity_iff.
  rewrite (validate_nonempty_bounded_iff _ display_mode_ok) by apply validate_display_mode_iff.
  rewrite (validate_nonempty_bounded_iff _ video_profile_ok) by apply validate_video_profile_iff.
  rewrite (validate_bounded_iff _ audio_profile_ok) by apply validate_audio_profile_iff.
  destruct (Z.eqb_spec (Z.land (features c) SESSION_FEATURE_AUDIO) 0) as [E|E],
    (decide (audio_profiles c = [])) as [E'|E'];
    rewrite ?(bool_decide_eq_true_2 _ E'), ?(bool_decide_eq_false_2 _ E'); simpl; naive_solver.
Qed.

(** *** Sessions *)

(** The canonical form of a UUID: five groups of lowercase hexadecimal digits. *)
Definition hex_group (n : nat) (l : list Z) : Prop :=
  length l = n /\ Forall (fun b => is_lower_hex b = true) l.

Definition session_id_ok (id : list Z) : Prop :=
  exists a b c d e, utf8 id = a ++ [45] ++ b ++ [45] ++ c ++ [45] ++ d ++ [45] ++ e /\
    hex_group 8 a /\ hex_group 4 b /\ hex_group 4 c /\ hex_group 4 d /\ hex_group 12 e.

(** A run of positions that are not dashes. *)
Lemma session_id_run n index bytes :
  (forall i, (index <= i < index + n)%nat -> i ∉ [8; 13; 18; 23]%nat) -> (n <= length bytes)%nat ->
  session_id_bytes index bytes = Ok tt <->
  Forall (fun b => is_lower_hex b = true) (take n bytes) /\
  session_id_bytes (index + n) (drop n bytes) = Ok tt.
Proof.
  revert index bytes. induction n as [|n IH]; intros index bytes Hn Hl.
  - rewrite Nat.add_0_r. simpl. rewrite drop_0. naive_solver.
  - destruct bytes as [|b bytes]; simpl in Hl; [lia|]. cbn [session_id_bytes take drop].
    rewrite bool_decide_eq_false_2 by (apply Hn; lia).
    rewrite seq_ok, reject_ok, negb_false_iff, Forall_cons, IH by (done || (intros; apply Hn; lia) || lia).
    replace (S index + n)%nat with (index + S n)%nat by lia. tauto.
Qed.

Lemma session_id_dash index b bytes :
  index ∈ [8; 13; 18; 23]%nat ->
  session_id_bytes index (b :: bytes) = Ok tt <-> b = 45 /\ session_id_bytes (S index) bytes = Ok tt.
Proof.
  intros Hi. cbn [session_id_bytes]. rewrite bool_decide_eq_true_2 by done.
  by rewrite seq_ok, reject_ok, negb_false_iff, Z.eqb_eq.
Qed.

Lemma split_at {A} n (l : list A) : (n <= length l)%nat -> exists a b, l = a ++ b /\ length a = n.
Proof. exists (take n l), (drop n l). rewrite take_drop, length_take. split; [done|lia]. Qed.

Lemma session_id_groups a b c d e p q r s :
  length a = 8%nat -> length b = 4%nat -> length c = 4%nat -> length d = 4%nat -> length e = 12%nat ->
  session_id_bytes 0 (a ++ [p] ++ b ++ [q] ++ c ++ [r] ++ d ++ [s] ++ e) = Ok tt <->
  (p = 45 /\ q = 45 /\ r = 45 /\ s = 45) /\
  Forall (fun b => is_lower_hex b = true) a /\ Forall (fun b => is_lower_hex b = true) b /\
  Forall (fun b => is_lower_hex b = true) c /\ Forall (fun b => is_lower_hex b = true) d /\
  Forall (fun b => is_lower_hex b = true) e.
Proof.
  intros Ha Hb Hc Hd He.
  assert (forall i, (0 <= i < 8)%nat -> i ∉ [8; 13; 18; 23]%nat) by (intros; set_solver by lia).
  assert (forall i, (9 <= i < 13)%nat -> i ∉ [8; 13; 18; 23]%nat) by (intros; set_solver by lia).
  assert (forall i, (14 <= i < 18)%nat -> i ∉ [8; 13; 18; 23]%nat) by (intros; set_solver by lia).
  assert (forall i, (19 <= i < 23)%nat -> i ∉ [8; 13; 18; 23]%nat) by (intros; set_solver by lia).
  assert (forall i, (24 <= i < 36)%nat -> i ∉ [8; 13; 18; 23]%nat) by (intros; set_solver by lia).
  rewrite (session_id_run 8) by (done || (rewrite length_app; lia)).
  rewrite take_app_length', drop_app_length' by done. cbn [app Nat.add].
  rewrite session_id_dash by set_solver.
  rewrite (session_id_run 4) by (done || (rewrite length_app; lia)).
  rewrite take_app_length', drop_app_length' by done. cbn [app Nat.add].
  rewrite session_id_dash by set_solver.
  rewrite (session_id_run 4) by (done || (rewrite length_app; lia)).
  rewrite take_app_length', drop_app_length' by done. cbn [app Nat.add].
  rewrite session_id_dash by set_solver.
  rewrite (session_id_run 4) by (done || (rewrite length_app; lia)).
  rewrite take_app_length', drop_app_length' by done. cbn [app Nat.add].
  rewrite session_id_dash by set_solver.
  rewrite (session_id_run 12) by (done || lia).
  rewrite take_ge, drop_ge by lia. cbn [session_id_bytes]. tauto.
Qed.

Lemma validate_session_id_iff id : validate_session_id id = Ok tt <-> session_id_ok id.
Proof.
  unfold validate_session_id, session_id_ok, hex_group, str_len.
  rewrite reject_seq_ok, negb_false_iff, Nat.eqb_eq. split.
  - intros [Hl Hb].
    destruct (split_at 8 (utf8 id)) as (a & l1 & E1 & Ha); [lia|]. rewrite E1 in *. rewrite length_app in Hl.
    destruct l1 as [|p l1]; simpl in Hl; [lia|].
    destruct (split_at 4 l1) as (b & l2 & -> & Hb4); [lia|]. rewrite length_app in Hl.
    destruct l2 as [|q l2]; simpl in Hl; [lia|].
    destruct (split_at 4 l2) as (c & l3 & -> & Hc); [lia|]. rewrite length_app in Hl.
    destruct l3 as [|r l3]; simpl in Hl; [lia|].
    destruct (split_at 4 l3) as (d & e & -> & Hd); [lia|]. rewrite length_app in Hl.
    destruct e as [|s e]; simpl in Hl; [lia|].
    apply (session_id_groups a b c d e p q r s) in Hb; try done; [|lia].
    destruct Hb as ((-> & -> & -> & ->) & ?). exists a, b, c, d, e. split; [done|].
    split_and!; try done; (lia || tauto).
  - intros (a & b & c & d & e & -> & [Ha ?] & [Hb ?] & [Hc ?] & [Hd ?] & [He ?]).
    rewrite session_id_groups by done. rewrite !length_app. simpl. split; [lia|]. by split_and!.
Qed.

Definition target_ok (t : PipeWireTarget) : Prop :=
  text_ok (node_name t) MAX_NODE_NAME_BYTES /\ object_serial t <> 0 /\ session_id_ok (session_id t) /\
  token_ok (device_instance t) 128 /\ 1 <= connector_id t <= u32_MAX /\ 0 <= output_index t <= 127 /\
  pt_media_generation t <> 0 /\ text_ok (caps t) MAX_NODE_NAME_BYTES.

Lemma validate_target_iff t : validate_target t = Ok tt <-> target_ok t.
Proof. unfold validate_target, target_ok. validating. by rewrite validate_session_id_iff. Qed.

Definition configuration_ok (c : MediaConfiguration) : Prop :=
  token_ok (video_profile_id c) 128 /\
  (forall id, audio_profile_id c = Some id -> token_ok id 128) /\
  display_mode_ok (mc_mode c) /\ 1 <= video_bitrate c <= 1000000000.

Lemma validate_configuration_iff c : validate_configuration c = Ok tt <-> configuration_ok c.
Proof.
  unfold validate_configuration, validate_profile_id, configuration_ok. validating.
  rewrite validate_display_mode_iff. destruct (audio_profile_id c); [rewrite validate_token_iff|]; naive_solver.
Qed.

(** The shape each kind of control has on the wire. *)
Definition control_ok (o : ControlOperation) : Prop :=
  co_session_generation o <> 0 /\ (forall c, code o = Some c -> token_ok c 64) /\
  match co_kind o with
  | Activate | Deactivate | Standby => code o = None /\ co_value o = 0
  | Power => (code o = Some (codes "on") \/ code o = Some (codes "toggle")) /\ co_value o = 0
  | KeyDown | KeyUp => code o <> None /\ co_value o = 0
  | Volume =>
      (code o = Some (codes "relative") /\ -100 <= co_value o <= 100 /\ co_value o <> 0) \/
      (code o = Some (codes "absolute") /\ 0 <= co_value o <= 100)
  | Mute =>
      (code o = Some (codes "on") \/ code o = Some (codes "off") \/ code o = Some (codes "toggle")) /\
      co_value o = 0
  end.

Lemma control_shape_iff b reason : require_control_shape b reason = Ok tt <-> b = true.
Proof. by destruct b. Qed.

Lemma validate_control_iff o : validate_control o = Ok tt <-> control_ok o.
Proof.
  unfold validate_control, control_ok. cbv zeta. rewrite !seq_ok, validate_generation_iff.
  assert ((match code o with Some c => validate_token "control code" c 64 | None => Ok tt end) = Ok tt <->
          forall c, code o = Some c -> token_ok c 64) as ->.
  { destruct (code o); [rewrite validate_token_iff|]; naive_solver. }
  destruct (co_kind o);
    rewrite ?control_shape_iff, ?andb_true_iff, ?orb_true_iff, ?negb_true_iff, ?Z.eqb_eq,
      ?bool_decide_eq_true, ?bool_decide_false; try tauto.
  destruct (decide (code o = Some (codes "relative"))) as [E|E];
    [rewrite (bool_decide_eq_true_2 _ E)|rewrite (bool_decide_eq_false_2 _ E)].
  - rewrite control_shape_iff, !andb_true_iff, negb_true_iff, !Z.leb_le, Z.eqb_neq, E. naive_solver.
  - destruct (decide (code o = Some (codes "absolute"))) as [E'|E'];
      [rewrite (bool_decide_eq_true_2 _ E')|rewrite (bool_decide_eq_false_2 _ E')];
      rewrite ?control_shape_iff, ?andb_true_iff, ?Z.leb_le; naive_solver.
Qed.

Definition statistics_ok (s : SessionStatistics) : Prop :=
  ss_session_generation s <> 0 /\ ss_media_generation s <> 0 /\
  0 <= ss_video_bitrate s <= 1000000000 /\ 0 <= queue_delay_micros s <= 60000000.

Lemma validate_statistics_iff s : validate_statistics s = Ok tt <-> statistics_ok s.
Proof. unfold validate_statistics, statistics_ok. by validating. Qed.

Definition session_options_ok (o : SessionOptions) : Prop :=
  so_connection_generation o <> 0 /\ so_discovery_generation o <> 0 /\ so_session_generation o <> 0 /\
  features_ok (so_requested_features o).

Lemma validate_session_options_iff o : validate_session_options o = Ok tt <-> session_options_ok o.
Proof. unfold validate_session_options, session_options_ok. by validating. Qed.

Definition preparation_request_ok (r : PreparationRequest) : Prop :=
  pr_preparation_generation r <> 0 /\
  (candidate_modes r <> [] /\ (length (candidate_modes r) <= MAX_MODES)%nat /\
   Forall display_mode_ok (candidate_modes r)) /\
  (pr_video_profiles r <> [] /\ (length (pr_video_profiles r) <= MAX_VIDEO_PROFILES)%nat /\
   Forall video_profile_ok (pr_video_profiles r)) /\
  ((length (pr_audio_profiles r) <= MAX_AUDIO_PROFILES)%nat /\
   Forall audio_profile_ok (pr_audio_profiles r)) /\
  NoDup (vp_profile_id <$> pr_video_profiles r) /\ NoDup (ap_profile_id <$> pr_audio_profiles r) /\
  features_ok (pr_requested_features r) /\
  (has_audio (pr_requested_features r) -> pr_audio_profiles r <> []).

Lemma validate_preparation_request_iff r :
  validate_preparation_request r = Ok tt <-> preparation_request_ok r.
Proof.
  unfold validate_preparation_request, validate_unique_profiles, preparation_request_ok, has_audio. validating.
  rewrite (validate_nonempty_bounded_iff _ display_mode_ok) by apply validate_display_mode_iff.
  rewrite (validate_nonempty_bounded_iff _ video_profile_ok) by apply validate_video_profile_iff.
  rewrite (validate_bounded_iff _ audio_profile_ok) by apply validate_audio_profile_iff.
  rewrite andb_false_iff, negb_false_iff, Z.eqb_eq, bool_decide_false.
  destruct (decide (Z.land (pr_requested_features r) SESSION_FEATURE_AUDIO = 0)); tauto.
Qed.

Definition backend_info_ok (i : BackendInfo) : Prop :=
  protocol_major i = PROTOCOL_MAJOR /\
  Z.land (capabilities i) REQUIRED_CAPABILITIES = REQUIRED_CAPABILITIES /\
  Z.land (required_capabilities i) (Z.ldiff u64_MAX KNOWN_CAPABILITIES) = 0 /\
  Z.land (required_capabilities i) (Z.ldiff u64_MAX (capabilities i)) = 0 /\
  backend_id_ok (bi_backend_id i) /\ text_ok (bi_display_name i) MAX_DISPLAY_NAME_BYTES /\
  text_ok (build_version i) MAX_BUILD_VERSION_BYTES /\
  token_ok (activation_instance i) MAX_ACTIVATION_ID_BYTES /\
  token_ok (invocation_id i) MAX_ACTIVATION_ID_BYTES.

Lemma validate_backend_info_iff i : validate_backend_info i = Ok tt <-> backend_info_ok i.
Proof. unfold validate_backend_info, backend_info_ok. cbv zeta. by validating. Qed.

Definition registration_reply_ok (r : RegistrationReply) : Prop :=
  rr_protocol_minor r <= PROTOCOL_MINOR /\ rr_connection_generation r <> 0.

Lemma validate_registration_reply_iff r : validate_registration_reply r = Ok tt <-> registration_reply_ok r.
Proof. unfold validate_registration_reply, registration_reply_ok. validating. by rewrite Z.ltb_ge. Qed.

Definition device_identity_ok (d : DeviceIdentity) : Prop :=
  backend_id_ok (di_backend_id d) /\ text_ok (di_device_id d) MAX_DEVICE_TEXT_BYTES.

Lemma validate_device_identity_iff d : validate_device_identity d = Ok tt <-> device_identity_ok d.
Proof. unfold validate_device_identity, device_identity_ok. by validating. Qed.

Global Instance BackendInfo_validate : Validate BackendInfo :=
  {| validate_iff := validate_backend_info_iff |}.
Global Instance RegistrationReply_validate : Validate RegistrationReply :=
  {| validate_iff := validate_registration_reply_iff |}.
Global Instance DeviceInfo_validate : Validate DeviceInfo :=
  {| validate_iff := validate_device_info_iff |}.
Global Instance DeviceSnapshot_validate : Validate DeviceSnapshot :=
  {| validate_iff := validate_device_snapshot_iff |}.
Global Instance DeviceIdentity_validate : Validate DeviceIdentity :=
  {| validate_iff := validate_device_identity_iff |}.
Global Instance SessionOptions_validate : Validate SessionOptions :=
  {| validate_iff := validate_session_options_iff |}.
Global Instance PreparationRequest_validate : Validate PreparationRequest :=
  {| validate_iff := validate_preparation_request_iff |}.
Global Instance DeviceCapabilities_validate : Validate DeviceCapabilities :=
  {| validate_iff := validate_capabilities_iff |}.
Global Instance ControlOperation_validate : Validate ControlOperation :=
  {| validate_iff := validate_control_iff |}.
Global Instance SessionStatistics_validate : Validate SessionStatistics :=
  {| validate_iff := validate_statistics_iff |}.

(** A message that passes is well formed, and one that is well formed passes. *)
Global Instance well_formed_dec `{Validate T} (x : T) : Decision (well_formed x).
Proof.
  refine (match validate x as o return validate x = o -> _ with
          | Ok u => fun E => left _
          | _ => fun E => right _
          end eq_refl).
  - apply validate_iff. by destruct u.
  - intros Hw. apply validate_iff in Hw. congruence.
  - intros Hw. apply validate_iff in Hw. congruence.
Defined.

(** A media configuration is accepted exactly when its descriptors and targets
    line up: one target for video, or one for video and then one for audio when
    an audio profile is selected, as many descriptors as targets, every target well
    formed and of the generation being configured, and the configuration itself
    within its limits. *)
Theorem media_configuration_accepted remote_count targets c generation :
  validate_media_configuration remote_count targets c generation = Ok tt <->
  generation <> 0 /\ configuration_ok c /\ remote_count = length targets /\
  Forall (fun t => target_ok t /\ pt_media_generation t = generation) targets /\
  pt_kind <$> targets = Video :: match audio_profile_id c with Some _ => [Audio] | None => [] end.
Proof.
  unfold validate_media_configuration. cbv zeta. validating.
  rewrite validate_configuration_iff, andb_false_iff, negb_false_iff, !bool_decide_eq_true, !Nat.eqb_eq, Nat.eqb_neq.
  rewrite (validate_each_iff _ (fun t => target_ok t /\ pt_media_generation t = generation))
    by (intros t; validating; by rewrite validate_target_iff).
  destruct targets as [|t [|t' [|t'' targets]]], (audio_profile_id c); simpl; try (unfold MAX_ENDPOINTS; naive_solver lia).
  - split.
    + intros (? & ? & _ & -> & _ & ? & [= ->] & _). done.
    + intros (? & ? & -> & ? & [= ->]). unfold MAX_ENDPOINTS. split_and!; try done; [lia|by left].
  - split.
    + intros (? & ? & _ & -> & _ & ? & [= ->] & [?|[= ->]]); done.
    + intros (? & ? & -> & ? & [= -> ->]). unfold MAX_ENDPOINTS. split_and!; try done; [lia|by right].
Qed.

(** *** Session object paths *)

Lemma hex_digit_lower n : 0 <= n < 16 -> is_lower_hex (hex_digit n) = true.
Proof.
  intros Hn. unfold is_lower_hex, is_ascii_digit, hex_digit.
  destruct (Z.ltb_spec n 10); apply orb_true_iff; rewrite !andb_true_iff, !Z.leb_le; lia.
Qed.

Lemma hex_digit_inj a b : 0 <= a < 16 -> 0 <= b < 16 -> hex_digit a = hex_digit b -> a = b.
Proof. unfold hex_digit. repeat case_match; breflect; lia. Qed.

Lemma hex_digits_group n g : 0 <= g -> hex_group n (hex_digits n g).
Proof.
  revert g. induction n as [|n IH]; intros g Hg; simpl; [by split|].
  destruct (IH (g / 16)) as [Hl Hf]; [by apply Z.div_pos|]. split.
  - rewrite length_app, Hl. simpl. lia.
  - apply Forall_app. split; [done|]. apply Forall_singleton, hex_digit_lower.
    by apply Z.mod_pos_bound.
Qed.

Lemma hex_digits_inj n g g' :
  0 <= g < 16 ^ Z.of_nat n -> 0 <= g' < 16 ^ Z.of_nat n -> hex_digits n g = hex_digits n g' -> g = g'.
Proof.
  revert g g'. induction n as [|n IH]; intros g g' Hg Hg' E; [simpl in *; lia|].
  cbn [hex_digits] in E. rewrite Nat2Z.inj_succ, Z.pow_succ_r in Hg, Hg' by lia.
  apply app_inj_tail in E as [E1 E2].
  apply IH in E1; [|split; [apply Z.div_pos; lia|apply Z.div_lt_upper_bound; lia]..].
  apply hex_digit_inj in E2; [|by apply Z.mod_pos_bound..].
  rewrite (Z.div_mod g 16), (Z.div_mod g' 16) by lia. lia.
Qed.

Lemma hex_digits_zero n g :
  0 <= g < 16 ^ Z.of_nat n -> Forall (fun b => b = 48) (hex_digits n g) -> g = 0.
Proof.
  revert g. induction n as [|n IH]; intros g Hg H0; [simpl in *; lia|].
  cbn [hex_digits] in H0. rewrite Nat2Z.inj_succ, Z.pow_succ_r in Hg by lia.
  apply Forall_app in H0 as [H0 H1]. apply Forall_cons in H1 as [H1 _].
  apply IH in H0; [|split; [apply Z.div_pos; lia|apply Z.div_lt_upper_bound; lia]].
  change 48 with (hex_digit 0) in H1. apply hex_digit_inj in H1; [|by apply Z.mod_pos_bound|lia].
  rewrite (Z.div_mod g 16) by lia. lia.
Qed.

(** Text whose encoding is ASCII is its encoding. *)
Lemma utf8_ascii s : Forall (fun b => 0 <= b < 128) (utf8 s) -> Forall scalar s -> utf8 s = s.
Proof.
  induction s as [|c s IH]; intros Ha Hs; [done|]. rewrite utf8_cons in Ha |- *.
  apply Forall_app in Ha as [Hc Ha]. apply Forall_cons in Hs as [Hsc Hs]. rewrite IH by done.
  unfold utf8_char in *. destruct (Z.ltb_spec c 128); [done|]. exfalso. unfold scalar in Hsc.
  pose proof (Z.div_le_lower_bound c 64 2). pose proof (Z.div_pos c 4096).
  pose proof (Z.div_pos c 262144).
  repeat case_match; breflect; apply Forall_cons in Hc as [Hc _]; lia.
Qed.

Lemma hex_no_dash l : Forall (fun b => is_lower_hex b = true) l -> filter (fun c => c <> 45) l = l.
Proof.
  induction 1 as [|b l Hb Hl IH]; [done|]. rewrite filter_cons_True; [by rewrite IH|].
  intros ->. done.
Qed.

Lemma hex_ascii l : Forall (fun b => is_lower_hex b = true) l -> Forall (fun b => 0 <= b < 128) l.
Proof.
  intros Hl. eapply Forall_impl; [exact Hl|]. intros b. unfold is_lower_hex, is_ascii_digit. rewrite orb_true_iff, !andb_true_iff, !Z.leb_le. lia.
Qed.

(** The encoded identifier is the five groups without their dashes. *)
Lemma session_id_encoded id :
  Forall scalar id -> session_id_ok id ->
  exists a b c d e, id = a ++ [45] ++ b ++ [45] ++ c ++ [45] ++ d ++ [45] ++ e /\
    hex_group 8 a /\ hex_group 4 b /\ hex_group 4 c /\ hex_group 4 d /\ hex_group 12 e /\
    filter (fun c => c <> 45) id = a ++ b ++ c ++ d ++ e.
Proof.
  intros Hs (a & b & c & d & e & Hu & Ha & Hb & Hc & Hd & He).
  assert (utf8 id = id) as Hid.
  { apply utf8_ascii; [|done]. rewrite Hu. 
    repeat (apply Forall_app; split); try (apply hex_ascii; first [apply Ha|apply Hb|apply Hc|apply Hd|apply He]);
      by apply Forall_singleton. }
  rewrite Hid in Hu. exists a, b, c, d, e. split_and!; try done. rewrite Hu.
  rewrite !filter_app. rewrite !(filter_cons_False _ 45) by (intros Hn; by apply Hn). rewrite filter_nil. simpl.
  by rewrite !hex_no_dash by (apply Ha || apply Hb || apply Hc || apply Hd || apply He).
Qed.

Lemma ok_inj {E A} (a b : A) : Ok (E:=E) a = Ok b -> a = b.
Proof. by intros [= ->]. Qed.

Lemma strip_prefix_app p l : strip_prefix p (p ++ l) = Some l.
Proof. induction p as [|x p IH]; simpl; [done|]. by rewrite Z.eqb_refl. Qed.

Lemma hex_path_ok encoded g :
  hex_group 32 encoded -> 0 < g < 2 ^ 64 ->
  validate_session_object_path
    (BACKEND_SESSION_PATH_PREFIX ++ codes "s_" ++ encoded ++ codes "_g" ++ hex_digits 16 g) = Ok tt.
Proof.
  intros [Hl Hf] Hg. unfold validate_session_object_path. rewrite strip_prefix_app.
  destruct (hex_digits_group 16 g) as [Hgl Hgf]; [lia|].
  assert (~ Forall (fun b => b = 48) (hex_digits 16 g)) as Hnz.
  { intros H0. apply hex_digits_zero in H0; [lia|]. change (16 ^ Z.of_nat 16) with (2 ^ 64). lia. }
  set (h := hex_digits 16 g) in *. clearbody h. set (l := codes "s_" ++ encoded ++ codes "_g" ++ h).
  assert (length l = 52)%nat as Hlen.
  { unfold l. rewrite !length_app, Hl, Hgl. done. }
  rewrite Hlen. simpl.
  assert (forall a b, (a <= b <= 52)%nat -> slice (E:=ValidationError) l a b = Ok (take (b - a) (drop a l))) as Hslice.
  { intros a b Hab. apply slice_ok; lia. }
  rewrite !Hslice by lia. cbn [obind Nat.sub].
  assert (drop 34 l = codes "_g" ++ h) as Hd34.
  { unfold l. rewrite (app_assoc (codes "s_")). apply drop_app_length'. rewrite length_app, Hl. done. }
  assert (drop 36 l = h) as Hd36.
  { change 36%nat with (34 + 2)%nat. rewrite <- drop_drop, Hd34. by apply drop_app_length'. }
  rewrite Hd36, Hd34. change (drop 2 l) with (encoded ++ codes "_g" ++ h).
  rewrite (take_app_length' encoded) by done. rewrite take_app_length' by done. rewrite (take_ge h) by lia.
  rewrite (proj2 (forallb_Forall is_lower_hex encoded)), (proj2 (forallb_Forall is_lower_hex h)) by done.
  change (take 2 l) with (codes "s_"). rewrite !bool_decide_eq_true_2 by done. simpl.
  apply reject_ok. apply not_true_iff_false. intros H0. apply Hnz.
  apply forallb_Forall in H0. eapply Forall_impl; [exact H0|]. intros b Hb. simpl in Hb. by breflect.
Qed.

(** The object path of a session is accepted by the validator of such
    paths, and determines the session: two valid sessions with the same path
    have the same identifier and the same generation. *)
Theorem session_path_identifies `{ObjectPath} id id' g g' path :
  Forall scalar id -> Forall scalar id' -> u64 g -> u64 g' ->
  session_object_path id g = Ok path ->
  validate_session_object_path path = Ok tt /\
  (session_object_path id' g' = Ok path -> id' = id /\ g' = g).
Proof.
  intros Hs Hs' Hg Hg' Hp. unfold session_object_path, u64, uint in *.
  apply seq_ok in Hp as [Hid Hp]. apply reject_seq_ok in Hp as [Hnz Hp]. breflect.
  apply validate_session_id_iff in Hid.
  destruct (session_id_encoded id Hs Hid) as (a & b & c & d & e & Eid & Ha & Hb & Hc & Hd & He & Efilter).
  rewrite Efilter in Hp. destruct (object_path _); [|done]. apply ok_inj in Hp as <-. split.
  - apply hex_path_ok; [|lia]. split.
    + rewrite !length_app. destruct Ha, Hb, Hc, Hd, He. lia.
    + repeat (apply Forall_app; split); first [apply Ha|apply Hb|apply Hc|apply Hd|apply He].
  - intros Hp. apply seq_ok in Hp as [Hid' Hp]. apply reject_seq_ok in Hp as [_ Hp].
    apply validate_session_id_iff in Hid'.
    destruct (session_id_encoded id' Hs' Hid') as (a' & b' & c' & d' & e' & Eid' & Ha' & Hb' & Hc' & Hd' & He' & Efilter').
    rewrite Efilter' in Hp. destruct (object_path _); [|done]. apply ok_inj in Hp.
    apply app_inv_head, app_inv_head in Hp.
    destruct Ha as [La _], Hb as [Lb _], Hc as [Lc _], Hd as [Ld _], He as [Le _],
      Ha' as [La' _], Hb' as [Lb' _], Hc' as [Lc' _], Hd' as [Ld' _], He' as [Le' _].
    apply app_inj_1 in Hp as [Henc Hp]; [|rewrite !length_app; lia]. apply app_inv_head in Hp.
    apply app_inj_1 in Henc as [-> Henc]; [|lia]. apply app_inj_1 in Henc as [-> Henc]; [|lia].
    apply app_inj_1 in Henc as [-> Henc]; [|lia]. apply app_inj_1 in Henc as [-> ->]; [|lia].
    split; [congruence|]. by apply hex_digits_inj in Hp.
Qed.

(** A session of the protocol's tests, with an object-path grammar that accepts
    letters, digits, underscores and slashes. *)
Definition ex_object_path : ObjectPath :=
  {| object_path := forallb (fun b => is_ascii_alphanumeric b || (b =? 95) || (b =? 47)) |}.

Definition ex_session_id : list Z := codes "01234567-89ab-cdef-0123-456789abcdef".

Lemma session_path_identifies_witness :
  exists path, session_object_path (H := ex_object_path) ex_session_id 7 = Ok path /\
    validate_session_object_path path = Ok tt /\
    (session_object_path (H := ex_object_path) ex_session_id 8 = Ok path ->
     ex_session_id = ex_session_id /\ 8 = 7).
Proof.
  eexists. split; [by vm_compute|].
  apply (session_path_identifies (H := ex_object_path)); [apply codes_scalar..|by vm_compute| |].
  all: by vm_compute.
Defined.
