(* ===== verification/PublicTypes.v ===== *)
(** * The public session-bus types (crates/pronk-dbus/src/lib.rs)

    What clients of the daemon read: the device inventory, the configured
    displays and their state, the operations that add them and the media
    sessions.  Every type has a validator; the lemmas give the declarative
    meaning of the ones the daemon's own state is projected to. *)

From S2P Require Import Prelude Bytes Text Ordering BackendProtocol.
From Stdlib Require Import Sorted.

Definition MAX_PUBLIC_DEVICES : nat := 128.
Definition MAX_PUBLIC_DISPLAYS : nat := 64.
Definition MAX_METADATA_ENTRIES : nat := 16.
Definition MAX_METADATA_KEY_BYTES : nat := 64.
Definition MAX_METADATA_VALUE_BYTES : nat := 256.
Definition MAX_OPERATION_ERROR_BYTES : nat := 512.
Definition MAX_MEDIA_ERROR_BYTES : nat := 512.

(** ** Data *)

Inductive ValidationError :=
  | Empty (field : string)
  | TooLong (field : string) (actual limit : nat)
  | ControlCharacter (field : string)
  | InvalidBackendId
  | Zero (field : string)
  | TooMany (field : string) (actual limit : nat)
  | DuplicateMetadataKey (key : list Z)
  | DuplicateDevice (backend_id device_id : list Z)
  | FutureDeviceRevision (backend_id device_id : list Z) (device_revision inventory_revision : Z)
  | UnorderedDevices
  | InvalidDisplayId
  | InvalidPnpId
  | DuplicateDisplay (display_id : list Z)
  | UnorderedDisplays
  | InvalidIdentitySource (field : string)
  | InvalidOperationError
  | FutureDisplayDeviceRevision (device_revision state_revision : Z)
  | InvalidDisplayRoute
  | InvalidDisplayMode
  | InvalidMediaGeneration
  | InvalidMediaError.

Inductive DeviceAvailability := Available | Busy | Unavailable.

Record DiscoveryMetadataEntry := { m_key : list Z; m_value : list Z }.

Record DeviceInfo := {
  d_backend_id : list Z; d_device_id : list Z; d_display_name : list Z;
  d_availability : DeviceAvailability; d_connection_generation : Z; d_discovery_generation : Z;
  device_revision : Z; d_metadata : list DiscoveryMetadataEntry }.

Record DeviceSelection := {
  s_backend_id : list Z; s_device_id : list Z; s_connection_generation : Z;
  s_discovery_generation : Z; s_device_revision : Z }.

Record DeviceSnapshot := { inventory_revision : Z; snapshot_devices : list DeviceInfo }.

Inductive OperationStage :=
  | Validating | Authorizing | PreparingDevice | Attaching | Added | Cancelled | OperationFailed.

Inductive OperationErrorCode :=
  | NoError | CancelledByUser | CallerExited | InvalidRequest | DeviceNotFound | DeviceChanged
  | DeviceUnavailable | BackendUnavailable | CapacityExhausted | DeviceAlreadyAdded
  | AuthorizationFailed | DevicePreparationFailed | AttachmentFailed | Internal.

Inductive DisplayIdentitySource :=
  | IdentityAbsent | FromSetupEndpoint | FromAuthenticatedDeviceInfo | FromDiscoveryAdvertisement.

Inductive PnpResolutionSource :=
  | ByAuthenticatedPnpId | ByExactName | ByLegalSuffixName | ByReviewedAlias | BySynthesizerFallback.

Inductive DisplayAttachmentState := DisplayAttached | DisplayDetached | DisplayUnknown.
Inductive DisplayRouteState := RouteDisabled | RouteActive.

Record RoutedDisplayMode := { r_width : Z; r_height : Z; r_refresh_millihz : Z; r_flags : Z }.

Inductive MediaSessionPhase :=
  | Inactive | Starting | PhaseRunning | PhaseSuspended | Recovering | PhaseStopping | PhaseFailed.

Record MediaSessionState := {
  p_revision : Z; phase : MediaSessionPhase; p_media_generation : Z; audio_enabled : bool;
  error : list Z }.

Record OperationState := {
  o_display_id : list Z; stage : OperationStage; error_code : OperationErrorCode;
  o_error : list Z }.

Record CastDisplayInfo := {
  c_display_id : list Z; c_backend_id : list Z; c_device_id : list Z; c_display_name : list Z;
  c_manufacturer_name : list Z; c_manufacturer_source : DisplayIdentitySource;
  c_product_name : list Z; c_product_source : DisplayIdentitySource; c_pnp_id : list Z;
  c_pnp_resolution_source : PnpResolutionSource;
  c_connector_id : Z; c_connector_name : list Z; c_output_index : Z; c_product_code : Z;
  c_serial : Z; c_attachment : DisplayAttachmentState }.

Record CastDisplayState := {
  st_revision : Z; st_device : DeviceInfo; st_attachment : DisplayAttachmentState;
  st_route : DisplayRouteState; st_mode : option RoutedDisplayMode }.

Global Instance DeviceAvailability_eq_dec : EqDecision DeviceAvailability.
Proof. solve_decision. Defined.
Global Instance DiscoveryMetadataEntry_eq_dec : EqDecision DiscoveryMetadataEntry.
Proof. solve_decision. Defined.
Global Instance DeviceInfo_eq_dec : EqDecision DeviceInfo.
Proof. solve_decision. Defined.
Global Instance DisplayIdentitySource_eq_dec : EqDecision DisplayIdentitySource.
Proof. solve_decision. Defined.
Global Instance MediaSessionPhase_eq_dec : EqDecision MediaSessionPhase.
Proof. solve_decision. Defined.
Global Instance OperationErrorCode_eq_dec : EqDecision OperationErrorCode.
Proof. solve_decision. Defined.
Global Instance DisplayAttachmentState_eq_dec : EqDecision DisplayAttachmentState.
Proof. solve_decision. Defined.
Global Instance DisplayRouteState_eq_dec : EqDecision DisplayRouteState.
Proof. solve_decision. Defined.

Abbreviation checked := (outcome ValidationError unit).

(** ** Validators *)

Definition validate_text (field : string) (value : list Z) (limit : nat) : checked :=
  try? reject (bool_decide (value = [])) (Empty field);
  try? reject (limit <? str_len value)%nat (TooLong field (str_len value) limit);
  reject (existsb is_control value) (ControlCharacter field).

Definition validate_optional_text (field : string) (value : list Z) (limit : nat) : checked :=
  if bool_decide (value = []) then Ok tt else validate_text field value limit.

Definition validate_backend_id (value : list Z) : checked :=
  try? validate_text "backend ID" value MAX_BACKEND_ID_BYTES;
  reject (negb (forallb is_backend_id_byte (utf8 value))) InvalidBackendId.

Definition validate_nonzero (field : string) (value : Z) : checked := reject (value =? 0) (Zero field).

Fixpoint validate_metadata (keys : list (list Z)) (entries : list DiscoveryMetadataEntry) : checked :=
  match entries with
  | [] => Ok tt
  | e :: entries' =>
      try? validate_text "metadata key" (m_key e) MAX_METADATA_KEY_BYTES;
      try? validate_text "metadata value" (m_value e) MAX_METADATA_VALUE_BYTES;
      try? reject (bool_decide (m_key e ∈ keys)) (DuplicateMetadataKey (m_key e));
      validate_metadata (m_key e :: keys) entries'
  end.

Definition validate_device (d : DeviceInfo) : checked :=
  try? validate_backend_id (d_backend_id d);
  try? validate_text "device ID" (d_device_id d) MAX_DEVICE_TEXT_BYTES;
  try? validate_text "device display name" (d_display_name d) MAX_DEVICE_TEXT_BYTES;
  try? validate_nonzero "connection" (d_connection_generation d);
  try? validate_nonzero "discovery" (d_discovery_generation d);
  try? validate_nonzero "device revision" (device_revision d);
  try? reject (MAX_METADATA_ENTRIES <? length (d_metadata d))%nat
         (TooMany "discovery metadata" (length (d_metadata d)) MAX_METADATA_ENTRIES);
  validate_metadata [] (d_metadata d).

Definition from_device (d : DeviceInfo) : DeviceSelection :=
  {| s_backend_id := d_backend_id d; s_device_id := d_device_id d;
     s_connection_generation := d_connection_generation d;
     s_discovery_generation := d_discovery_generation d; s_device_revision := device_revision d |}.

Definition validate_selection (s : DeviceSelection) : checked :=
  try? validate_backend_id (s_backend_id s);
  try? validate_text "device ID" (s_device_id s) MAX_DEVICE_TEXT_BYTES;
  try? validate_nonzero "connection" (s_connection_generation s);
  try? validate_nonzero "discovery" (s_discovery_generation s);
  validate_nonzero "device revision" (s_device_revision s).

Definition identity_of (d : DeviceInfo) : list Z * list Z := (d_backend_id d, d_device_id d).

Fixpoint validate_devices (revision : Z) (identities : list (list Z * list Z))
    (previous : option (list Z * list Z)) (devices : list DeviceInfo) : checked :=
  match devices with
  | [] => Ok tt
  | d :: devices' =>
      let identity := identity_of d in
      try? validate_device d;
      try? reject (bool_decide (identity ∈ identities)) (DuplicateDevice identity.1 identity.2);
      try? reject (revision <? device_revision d)
             (FutureDeviceRevision identity.1 identity.2 (device_revision d) revision);
      try? reject (match previous with
                   | Some p => match cmp p identity with Lt => false | _ => true end
                   | None => false
                   end) UnorderedDevices;
      validate_devices revision (identity :: identities) (Some identity) devices'
  end.

Definition validate_snapshot (s : DeviceSnapshot) : checked :=
  try? reject (MAX_PUBLIC_DEVICES <? length (snapshot_devices s))%nat
         (TooMany "devices" (length (snapshot_devices s)) MAX_PUBLIC_DEVICES);
  validate_devices (inventory_revision s) [] None (snapshot_devices s).

Definition validate_media_state (s : MediaSessionState) : checked :=
  try? validate_nonzero "media-session state revision" (p_revision s);
  try? validate_optional_text "media-session error" (error s) MAX_MEDIA_ERROR_BYTES;
  try? reject ((p_media_generation s =? 0)
               && match phase s with Starting | PhaseRunning | PhaseSuspended => true | _ => false end)
         InvalidMediaGeneration;
  if bool_decide (error s = []) then reject (bool_decide (phase s = PhaseFailed)) InvalidMediaError
  else reject (negb (bool_decide (phase s = PhaseFailed))) InvalidMediaError.

Definition is_terminal (s : OperationStage) : bool :=
  match s with Added | Cancelled | OperationFailed => true | _ => false end.

(** [u8::is_ascii_hexdigit]. *)
Definition is_hex (b : Z) : bool :=
  is_ascii_digit b || ((97 <=? b) && (b <=? 102)) || ((65 <=? b) && (b <=? 70)).

(** The bytes that are not dashes. *)
Fixpoint hex_outside_dashes (index : nat) (bytes : list Z) : bool :=
  match bytes with
  | [] => true
  | b :: bytes' =>
      (bool_decide (index ∈ [8; 13; 18; 23]%nat) || is_hex b) && hex_outside_dashes (S index) bytes'
  end.

(** A random UUID: version 4, variant 10. *)
Definition validate_display_id (value : list Z) : checked :=
  let bytes := utf8 value in
  if negb (length bytes =? 36)%nat then Err InvalidDisplayId
  else
    let at_ i := default 0 (bytes !! i) in
    reject (existsb (fun i => negb (at_ i =? 45)) [8; 13; 18; 23]%nat
            || negb (hex_outside_dashes 0 bytes) || negb (at_ 14%nat =? 52)
            || negb (bool_decide (at_ 19%nat ∈ [56; 57; 97; 98; 65; 66]))) InvalidDisplayId.

Definition validate_operation (s : OperationState) : checked :=
  try? validate_display_id (o_display_id s);
  try? validate_optional_text "operation error" (o_error s) MAX_OPERATION_ERROR_BYTES;
  let cancelled := bool_decide (error_code s ∈ [CancelledByUser; CallerExited]) in
  let silent := bool_decide (o_error s = []) in
  let valid_error :=
    match stage s with
    | Cancelled => cancelled && negb silent
    | OperationFailed => negb (bool_decide (error_code s = NoError) || cancelled) && negb silent
    | _ => bool_decide (error_code s = NoError) && silent
    end in
  reject (negb valid_error) InvalidOperationError.

Definition validate_identity_source (field : string) (value : list Z) (source : DisplayIdentitySource)
  : checked :=
  reject (negb (if bool_decide (value = []) then bool_decide (source = IdentityAbsent)
                else bool_decide (source ∈ [FromSetupEndpoint; FromAuthenticatedDeviceInfo])))
    (InvalidIdentitySource field).

Definition validate_display (c : CastDisplayInfo) : checked :=
  try? validate_display_id (c_display_id c);
  try? validate_backend_id (c_backend_id c);
  try? validate_text "device ID" (c_device_id c) MAX_DEVICE_TEXT_BYTES;
  try? validate_text "display name" (c_display_name c) MAX_DEVICE_TEXT_BYTES;
  try? validate_optional_text "manufacturer name" (c_manufacturer_name c) MAX_DEVICE_TEXT_BYTES;
  try? validate_identity_source "manufacturer name" (c_manufacturer_name c) (c_manufacturer_source c);
  try? validate_optional_text "product name" (c_product_name c) MAX_DEVICE_TEXT_BYTES;
  try? validate_identity_source "product name" (c_product_name c) (c_product_source c);
  try? reject (negb (str_len (c_pnp_id c) =? 3)%nat
               || negb (forallb is_ascii_uppercase (utf8 (c_pnp_id c)))) InvalidPnpId;
  try? reject (c_connector_id c =? 0) (Zero "connector ID");
  try? validate_text "connector name" (c_connector_name c) MAX_BACKEND_ID_BYTES;
  try? reject (c_product_code c =? 0) (Zero "EDID product code");
  reject (c_serial c =? 0) (Zero "EDID serial").

Definition validate_display_state (s : CastDisplayState) : checked :=
  try? validate_nonzero "cast-display state revision" (st_revision s);
  try? validate_device (st_device s);
  try? reject (st_revision s <? device_revision (st_device s))
         (FutureDisplayDeviceRevision (device_revision (st_device s)) (st_revision s));
  try? reject (match st_route s, st_mode s with
               | RouteDisabled, None | RouteActive, Some _ => false
               | _, _ => true
               end) InvalidDisplayRoute;
  try? reject (negb (bool_decide (st_attachment s = DisplayAttached))
               && negb (bool_decide (st_route s = RouteDisabled))) InvalidDisplayRoute;
  match st_mode s with
  | Some m =>
      reject ((r_width m =? 0) || (r_height m =? 0) || (8192 <? r_width m) || (8192 <? r_height m)
              || (r_refresh_millihz m =? 0) || (1000000 <? r_refresh_millihz m)) InvalidDisplayMode
  | None => Ok tt
  end.

Fixpoint validate_display_list (identities : list (list Z)) (previous : option (list Z))
    (displays : list CastDisplayInfo) : checked :=
  match displays with
  | [] => Ok tt
  | d :: displays' =>
      try? validate_display d;
      try? reject (bool_decide (c_display_id d ∈ identities)) (DuplicateDisplay (c_display_id d));
      try? reject (match previous with
                   | Some p => match cmp p (c_display_id d) with Lt => false | _ => true end
                   | None => false
                   end) UnorderedDisplays;
      validate_display_list (c_display_id d :: identities) (Some (c_display_id d)) displays'
  end.

Definition validate_displays (displays : list CastDisplayInfo) : checked :=
  try? reject (MAX_PUBLIC_DISPLAYS <? length displays)%nat
         (TooMany "cast displays" (length displays) MAX_PUBLIC_DISPLAYS);
  validate_display_list [] None displays.

(** ** What valid means *)

Lemma public_text_iff field value limit :
  validate_text field value limit = Ok tt <-> text_ok value limit.
Proof.
  unfold validate_text, text_ok. rewrite !reject_seq_ok, reject_ok, Nat.ltb_ge, existsb_Forall.
  by rewrite bool_decide_false.
Qed.

Lemma validate_optional_text_iff field value limit :
  validate_optional_text field value limit = Ok tt <-> value = [] \/ text_ok value limit.
Proof.
  unfold validate_optional_text. case_bool_decide as E; [tauto|].
  rewrite public_text_iff. tauto.
Qed.

Lemma public_backend_id_iff value : validate_backend_id value = Ok tt <-> backend_id_ok value.
Proof.
  unfold validate_backend_id, backend_id_ok. rewrite seq_ok, public_text_iff, reject_ok, negb_false_iff.
  by rewrite forallb_Forall.
Qed.

Lemma validate_nonzero_iff field value : validate_nonzero field value = Ok tt <-> value <> 0.
Proof. unfold validate_nonzero. by rewrite reject_ok, Z.eqb_neq. Qed.

Definition entry_ok (e : DiscoveryMetadataEntry) : Prop :=
  text_ok (m_key e) MAX_METADATA_KEY_BYTES /\ text_ok (m_value e) MAX_METADATA_VALUE_BYTES.

Lemma validate_metadata_iff keys es :
  validate_metadata keys es = Ok tt <->
  Forall entry_ok es /\ NoDup (m_key <$> es) /\ forall k, k ∈ m_key <$> es -> k ∉ keys.
Proof.
  revert keys. induction es as [|e es IH]; intros keys; simpl.
  { split; [|done]. intros _. split; [done|split; [constructor|]]. intros k Hk. by apply elem_of_nil in Hk. }
  rewrite !seq_ok, !public_text_iff, reject_ok, bool_decide_false, IH, Forall_cons, NoDup_cons.
  setoid_rewrite elem_of_cons. unfold entry_ok. split.
  - intros (Hk & Hv & Hn & Hf & Hd & Hr). split_and!; try done.
    + intros Hin. by apply (Hr _ Hin); left.
    + intros k [->|Hin]; [done|]. intros Hin'. by apply (Hr _ Hin); right.
  - intros ([[Hk Hv] Hf] & [Hn Hd] & Hr). split_and!; try done; [apply Hr; by left|].
    intros k Hin [->|Hin']; [done|]. by apply (Hr k); [right|].
Qed.

Definition device_ok (d : DeviceInfo) : Prop :=
  backend_id_ok (d_backend_id d) /\ text_ok (d_device_id d) MAX_DEVICE_TEXT_BYTES /\
  text_ok (d_display_name d) MAX_DEVICE_TEXT_BYTES /\ d_connection_generation d <> 0 /\
  d_discovery_generation d <> 0 /\ device_revision d <> 0 /\
  (length (d_metadata d) <= MAX_METADATA_ENTRIES)%nat /\ Forall entry_ok (d_metadata d) /\
  NoDup (m_key <$> d_metadata d).

Lemma validate_device_iff d : validate_device d = Ok tt <-> device_ok d.
Proof.
  unfold validate_device, device_ok.
  rewrite !seq_ok, public_backend_id_iff, !public_text_iff, !validate_nonzero_iff, reject_ok,
    Nat.ltb_ge, validate_metadata_iff.
  assert (forall k, k ∈ m_key <$> d_metadata d -> k ∉ @nil (list Z)) by (intros; apply not_elem_of_nil).
  tauto.
Qed.

(** Ordered strictly by identity. *)
Definition ordered_devices (devices : list DeviceInfo) : Prop :=
  StronglySorted (fun a b => lt_of (identity_of a) (identity_of b)) devices.

Lemma validate_devices_ok revision devices identities previous :
  ordered_devices devices ->
  Forall (fun d => device_ok d /\ device_revision d <= revision) devices ->
  (forall d, d ∈ devices -> identity_of d ∉ identities) ->
  (forall p d, previous = Some p -> d ∈ devices -> lt_of p (identity_of d)) ->
  validate_devices revision identities previous devices = Ok tt.
Proof.
  intros Hs. revert identities previous.
  induction Hs as [|d devices Hs IH Hd]; intros identities previous Hok Hi Hp; [done|].
  apply Forall_cons in Hok as [[Hok Hr] Hrest]. cbn [validate_devices]. cbv zeta.
  rewrite (proj2 (validate_device_iff d) Hok). cbn [obind].
  rewrite bool_decide_eq_false_2 by (apply Hi; by left). cbn [obind reject].
  rewrite (proj2 (Z.ltb_ge _ _)) by done. cbn [obind reject].
  assert ((match previous with
           | Some p => match cmp p (identity_of d) with Lt => false | _ => true end
           | None => false end) = false) as ->.
  { destruct previous as [p|]; [|done]. assert (cmp p (identity_of d) = Lt) as ->; [|done].
    apply (Hp p d eq_refl). by left. }
  cbn [obind reject]. apply IH; [done| |].
  - intros d' Hd' [Heq|Hin]%elem_of_cons.
    + rewrite Forall_forall in Hd. specialize (Hd d' Hd'). unfold lt_of in Hd.
      by rewrite Heq, cmp_refl in Hd.
    + apply (Hi d'); [by right|done].
  - intros p d' [= <-] Hd'. rewrite Forall_forall in Hd. by apply Hd.
Qed.

(** A snapshot is valid when its devices are, in strict order of identity, at
    most 128 and none newer than the inventory. *)
Lemma validate_snapshot_ok s :
  (length (snapshot_devices s) <= MAX_PUBLIC_DEVICES)%nat -> ordered_devices (snapshot_devices s) ->
  Forall (fun d => device_ok d /\ device_revision d <= inventory_revision s) (snapshot_devices s) ->
  validate_snapshot s = Ok tt.
Proof.
  intros Hl Ho Hd. unfold validate_snapshot. rewrite (proj2 (Nat.ltb_ge _ _)) by done. cbn [obind reject].
  apply validate_devices_ok; [done|done| |done]. intros. apply not_elem_of_nil.
Qed.
