(* ===== verification/DeviceInventory.v ===== *)
(** * A backend's device inventory (crates/pronk-backend-host/src/inventory.rs)

    The host keeps a copy of one backend's devices: a snapshot with a revision,
    and the events that follow it.  The three kinds of event reach the host on
    separate signal streams, so they may come late, twice or out of order; the
    theorem says that the copy is nevertheless always the backend's own state
    at the copy's revision. *)

From S2P Require Import Prelude Bytes Text Ordering BackendProtocol.

(** ** Data *)

Inductive DeviceEvent :=
  | EventAdded (discovery_generation revision : Z) (device : DeviceInfo)
  | EventChanged (discovery_generation revision : Z) (device : DeviceInfo)
  | EventRemoved (discovery_generation revision : Z) (device : DeviceIdentity).

Global Instance DeviceIdentity_eq_dec : EqDecision DeviceIdentity.
Proof. solve_decision. Defined.
Global Instance DeviceEvent_eq_dec : EqDecision DeviceEvent.
Proof. solve_decision. Defined.

Definition event_generation (e : DeviceEvent) : Z :=
  match e with EventAdded g _ _ | EventChanged g _ _ | EventRemoved g _ _ => g end.

Definition event_revision (e : DeviceEvent) : Z :=
  match e with EventAdded _ r _ | EventChanged _ r _ | EventRemoved _ r _ => r end.

Record DeviceInventorySnapshot := {
  is_discovery_generation : Z; is_revision : Z; is_devices : list DeviceInfo }.

(** [BTreeMap<(String, String), DeviceInfo>]; the order of [String]s is that of
    their bytes, which is that of their characters. *)
Abbreviation device_map := (gmap (list Z * list Z) DeviceInfo).

Record DeviceInventory := {
  expected_backend_id : list Z;
  discovery_generation : Z;
  baseline_revision : Z;
  inv_revision : Z;
  inv_devices : device_map;
  last_applied : option DeviceEvent }.

Inductive ApplyOutcome := Changed | IgnoredCoveredBySnapshot | IgnoredDuplicate.

(** Why a record is invalid: its own validation, or an event without a revision. *)
Inductive record_error := Invalid (e : ValidationError) | ZeroRevision.

Inductive InventoryError :=
  | InvalidRecord (e : record_error)
  | WrongBackendId (expected actual : list Z)
  | GenerationMismatch (expected actual : Z)
  | RevisionGap (expected actual : Z)
  | RevisionExhausted
  | ConflictingDuplicate (revision : Z)
  | AlreadyPresent (backend_id device_id : list Z)
  | NotPresent (backend_id device_id : list Z).

(** ** Operations *)

Definition require_backend (expected actual : list Z) : outcome InventoryError unit :=
  reject (negb (bool_decide (expected = actual))) (WrongBackendId expected actual).

Definition invalid_record {A} (m : outcome ValidationError A) : outcome InventoryError A :=
  omap_err (fun e => InvalidRecord (Invalid e)) m.

Fixpoint insert_devices (expected : list Z) (devices : list DeviceInfo) (m : device_map)
  : outcome InventoryError device_map :=
  match devices with
  | [] => Ok m
  | d :: devices' =>
      try? require_backend expected (backend_id d);
      insert_devices expected devices' (<[device_key d := d]> m)
  end.

Definition from_snapshot (expected : list Z) (s : DeviceSnapshot)
  : outcome InventoryError DeviceInventory :=
  try? invalid_record (validate_device_snapshot s);
  let? devices := insert_devices expected (devices s) ∅ in
  Ok {| expected_backend_id := expected; discovery_generation := ds_discovery_generation s;
        baseline_revision := revision s; inv_revision := revision s; inv_devices := devices;
        last_applied := None |}.

Definition inventory_snapshot (i : DeviceInventory) : DeviceInventorySnapshot :=
  {| is_discovery_generation := discovery_generation i; is_revision := inv_revision i;
     is_devices := values (inv_devices i) |}.

Definition validate_event (expected : list Z) (e : DeviceEvent) : outcome InventoryError unit :=
  try? reject (event_revision e =? 0) (InvalidRecord ZeroRevision);
  match e with
  | EventAdded _ _ d | EventChanged _ _ d =>
      try? invalid_record (validate_device_info d); require_backend expected (backend_id d)
  | EventRemoved _ _ d =>
      try? invalid_record (validate_device_identity d); require_backend expected (di_backend_id d)
  end.

(** The change an event makes to the devices. *)
Definition event_effect (m : device_map) (e : DeviceEvent) : outcome InventoryError device_map :=
  match e with
  | EventAdded _ _ d =>
      match m !! device_key d with
      | Some _ => Err (AlreadyPresent (backend_id d) (device_id d))
      | None => Ok (<[device_key d := d]> m)
      end
  | EventChanged _ _ d =>
      match m !! device_key d with
      | None => Err (NotPresent (backend_id d) (device_id d))
      | Some _ => Ok (<[device_key d := d]> m)
      end
  | EventRemoved _ _ d =>
      match m !! (di_backend_id d, di_device_id d) with
      | None => Err (NotPresent (di_backend_id d) (di_device_id d))
      | Some _ => Ok (delete (di_backend_id d, di_device_id d) m)
      end
  end.

(** [apply]: nothing is written before every check has passed, so an error
    leaves the inventory as it was. *)
Definition apply (i : DeviceInventory) (e : DeviceEvent)
  : outcome InventoryError (ApplyOutcome * DeviceInventory) :=
  try? validate_event (expected_backend_id i) e;
  try? reject (negb (event_generation e =? discovery_generation i))
         (GenerationMismatch (discovery_generation i) (event_generation e));
  let r := event_revision e in
  if (r <=? baseline_revision i) || (r <? inv_revision i) then Ok (IgnoredCoveredBySnapshot, i)
  else if r =? inv_revision i then
    if bool_decide (last_applied i = Some e) then Ok (IgnoredDuplicate, i)
    else Err (ConflictingDuplicate r)
  else
    let? expected := ok_or (checked_add64 (inv_revision i) 1) RevisionExhausted in
    try? reject (negb (r =? expected)) (RevisionGap expected r);
    let? devices := event_effect (inv_devices i) e in
    Ok (Changed, {| expected_backend_id := expected_backend_id i;
                    discovery_generation := discovery_generation i;
                    baseline_revision := baseline_revision i; inv_revision := r;
                    inv_devices := devices; last_applied := Some e |}).

(** Events as they are delivered; an error asks for a new snapshot. *)
Definition apply_or_keep (i : DeviceInventory) (e : DeviceEvent) : DeviceInventory :=
  match apply i e with Ok (_, i') => i' | _ => i end.

Definition deliver (i : DeviceInventory) (events : list DeviceEvent) : DeviceInventory :=
  foldl apply_or_keep i events.

(** ** The copy is the original *)

(** A backend's history: its devices before and after each event. *)
Inductive history : Z -> device_map -> list DeviceEvent -> Prop :=
  | history_nil r m : history r m []
  | history_cons r m e m' events :
      event_revision e = r + 1 -> event_effect m e = Ok m' -> history (r + 1) m' events ->
      history r m (e :: events).

(** The devices after the first [n] events. *)
Fixpoint devices_after (m : device_map) (n : nat) (events : list DeviceEvent) : device_map :=
  match n, events with
  | S n', e :: events' =>
      match event_effect m e with Ok m' => devices_after m' n' events' | _ => m end
  | _, _ => m
  end.

Lemma history_revision r m events i e :
  history r m events -> events !! i = Some e -> event_revision e = r + Z.of_nat i + 1.
Proof.
  intros Hh. revert i. induction Hh as [|r m e' m' events Hr He Hh IH]; intros i; [done|].
  destruct i as [|i]; simpl.
  - intros [= <-]. lia.
  - intros Hi. rewrite (IH i Hi). lia.
Qed.

Lemma history_step r m events i e :
  history r m events -> events !! i = Some e ->
  event_effect (devices_after m i events) e = Ok (devices_after m (S i) events).
Proof.
  intros Hh. revert i. induction Hh as [|r m e' m' events Hr He Hh IH]; intros i; [done|].
  destruct i as [|i]; simpl.
  - intros [= <-]. rewrite He. by destruct events.
  - intros Hi. rewrite He. by apply IH.
Qed.

(** The copy [i] of a backend that started at revision [r0] with [m0]. *)
Definition tracks (r0 : Z) (m0 : device_map) (events : list DeviceEvent) (i : DeviceInventory) : Prop :=
  exists n, (n <= length events)%nat /\ baseline_revision i = r0 /\ inv_revision i = r0 + Z.of_nat n /\
            inv_devices i = devices_after m0 n events.

Lemma apply_tracks r0 m0 events i e :
  history r0 m0 events -> e ∈ events -> tracks r0 m0 events i ->
  tracks r0 m0 events (apply_or_keep i e) /\ inv_revision i <= inv_revision (apply_or_keep i e).
Proof.
  intros Hh Hin (n & Hn & Hb & Hr & Hd). unfold apply_or_keep.
  assert (tracks r0 m0 events i) as Hi by (exists n; done).
  destruct (apply i e) as [[o i']| |] eqn:E; try (split; [done|lia]). unfold apply in E.
  apply seq_ok in E as [_ E]. apply seq_ok in E as [_ E]. cbv zeta in E.
  destruct ((event_revision e <=? baseline_revision i) || _); [injection E as <- <-; split; [done|lia]|].
  destruct (event_revision e =? inv_revision i).
  { destruct (bool_decide _); [injection E as <- <-; split; [done|lia]|done]. }
  apply obind_ok in E as (x & Hx & E). apply reject_seq_ok in E as [Hxr E].
  apply obind_ok in E as (m' & Hm & E). injection E as <- <-. simpl.
  apply ok_or_ok in Hx. unfold checked_add64 in Hx. case_match; [|done]. injection Hx as <-. breflect.
  apply list_elem_of_lookup in Hin as [k Hk]. pose proof (history_revision _ _ _ _ _ Hh Hk) as Hrev.
  assert (k = n) as -> by lia. split; [|lia]. exists (S n). simpl.
  apply lookup_lt_Some in Hk as Hlt. split_and!; [lia|done|lia|].
  rewrite Hd, (history_step _ _ _ _ _ Hh Hk) in Hm. injection Hm as <-. done.
Qed.

Lemma deliver_tracks r0 m0 events delivered i :
  history r0 m0 events -> Forall (fun e => e ∈ events) delivered -> tracks r0 m0 events i ->
  tracks r0 m0 events (deliver i delivered) /\ inv_revision i <= inv_revision (deliver i delivered).
Proof.
  intros Hh. revert i. induction delivered as [|e delivered IH]; intros i Hin Hi; [by split|].
  apply Forall_cons in Hin as [He Hin]. destruct (apply_tracks _ _ _ _ _ Hh He Hi) as [Hi' Hle].
  destruct (IH (apply_or_keep i e) Hin Hi') as [Hf Hle']. split; [done|]. simpl in *. lia.
Qed.

Lemma insert_devices_lookup expected ds m m' :
  insert_devices expected ds m = Ok m' -> NoDup (device_key <$> ds) ->
  (forall k d, m' !! k = Some d <->
     (d ∈ ds /\ k = device_key d) \/ (k ∉ device_key <$> ds /\ m !! k = Some d)) /\
  Forall (fun d => backend_id d = expected) ds.
Proof.
  revert m. induction ds as [|d ds IH]; intros m Hi Hn; simpl in Hi.
  { injection Hi as <-. split; [|done]. intros k d. split.
    - intros Hk. right. split; [apply not_elem_of_nil|done].
    - intros [[Hd _]|[_ Hk]]; [by apply elem_of_nil in Hd|done]. }
  apply seq_ok in Hi as [Hb Hi]. apply reject_ok in Hb. breflect.
  apply NoDup_cons in Hn as [Hnin Hn]. destruct (IH _ Hi Hn) as [Hl Hf]. split; [|by constructor].
  intros k d'. rewrite Hl, !elem_of_cons. destruct (decide (k = device_key d)) as [->|Hk].
  - rewrite lookup_insert, decide_True by done. split.
    + intros [[Hin Hk]|[_ [= <-]]]; [left; auto|left; auto].
    + intros [[[->|Hin] Hk]|[Hk _]]; [right; auto|left; auto|]. destruct Hk. by left.
  - rewrite lookup_insert_ne by done. rewrite fmap_cons, elem_of_cons. naive_solver.
Qed.

(** The first copy is the snapshot. *)
Lemma from_snapshot_devices expected s i :
  from_snapshot expected s = Ok i ->
  discovery_generation i = ds_discovery_generation s /\ expected_backend_id i = expected /\
  baseline_revision i = revision s /\ inv_revision i = revision s /\
  (forall k d, inv_devices i !! k = Some d <-> d ∈ devices s /\ k = device_key d) /\
  Forall device_info_ok (devices s) /\ Forall (fun d => backend_id d = expected) (devices s).
Proof.
  unfold from_snapshot. intros Hi. apply seq_ok in Hi as [Hv Hi]. apply obind_ok in Hi as (m & Hm & Hi).
  injection Hi as <-. simpl. unfold invalid_record in Hv.
  assert (validate_device_snapshot s = Ok tt) as Hv' by (destruct (validate_device_snapshot s) as [[]| |]; done).
  apply validate_device_snapshot_iff in Hv' as (_ & _ & Hf & Hn).
  destruct (insert_devices_lookup _ _ _ _ Hm Hn) as [Hl Hb]. split_and!; try done.
  intros k d. rewrite Hl, lookup_empty. naive_solver.
Qed.

(** In order, every event of a valid history is applied. *)
Lemma deliver_in_order r0 m0 all events n i :
  history r0 m0 all -> drop n all = events -> r0 + Z.of_nat (length all) <= u64_MAX ->
  Forall (fun e => validate_event (expected_backend_id i) e = Ok tt /\
                   event_generation e = discovery_generation i) events ->
  baseline_revision i = r0 -> inv_revision i = r0 + Z.of_nat n ->
  inv_devices i = devices_after m0 n all ->
  inv_revision (deliver i events) = inv_revision i + Z.of_nat (length events).
Proof.
  intros Hh. revert n i. induction events as [|e events IH]; intros n i Hdrop Hmax Hv Hb Hr Hd;
    [simpl; lia|].
  apply Forall_cons in Hv as [[Hv Hg] Hvs].
  assert (all !! n = Some e) as Hn by (rewrite <- (Nat.add_0_r n), <- lookup_drop, Hdrop; done).
  pose proof (history_revision _ _ _ _ _ Hh Hn) as Hrev.
  apply lookup_lt_Some in Hn as Hlt.
  assert (apply i e = Ok (Changed, {| expected_backend_id := expected_backend_id i;
            discovery_generation := discovery_generation i; baseline_revision := baseline_revision i;
            inv_revision := event_revision e; inv_devices := devices_after m0 (S n) all;
            last_applied := Some e |})) as Happly.
  { unfold apply. rewrite Hv, Hg, Z.eqb_refl. cbn [obind reject negb]. cbv zeta.
    rewrite (proj2 (Z.leb_gt _ _)), (proj2 (Z.ltb_ge _ _)), (proj2 (Z.eqb_neq _ _)) by lia.
    unfold checked_add64. rewrite (proj2 (Z.leb_le _ _)) by lia. cbn [orb ok_or obind].
    rewrite (proj2 (Z.eqb_eq _ _)) by lia. cbn [obind reject negb].
    by rewrite Hd, (history_step _ _ _ _ _ Hh Hn). }
  cbn [deliver foldl]. unfold apply_or_keep at 2. rewrite Happly. 
  fold (deliver {| expected_backend_id := expected_backend_id i;
            discovery_generation := discovery_generation i; baseline_revision := baseline_revision i;
            inv_revision := event_revision e; inv_devices := devices_after m0 (S n) all;
            last_applied := Some e |} events).
  rewrite (drop_S all e n Hn) in Hdrop. injection Hdrop as Hdrop.
  rewrite (IH (S n)); simpl; try done; lia.
Qed.

(** The host's copy of a backend's inventory is never wrong.  Let the
    backend go through a history of events from the snapshot the copy was made
    of.  Whatever the host is then delivered of it (late, repeated, out of
    order, or not at all), the copy is the backend's inventory as it was at the
    copy's revision, and the revision never goes back; events that do not fit are
    ignored or refused and change nothing.  Delivered in order, a valid history is
    followed to its end. *)
Theorem inventory_tracks_backend expected s i events delivered :
  from_snapshot expected s = Ok i -> history (revision s) (inv_devices i) events ->
  Forall (fun e => e ∈ events) delivered ->
  (forall k d, inv_devices i !! k = Some d <-> d ∈ devices s /\ k = device_key d) /\
  (exists n, (n <= length events)%nat /\
     inv_revision (deliver i delivered) = revision s + Z.of_nat n /\
     inv_devices (deliver i delivered) = devices_after (inv_devices i) n events) /\
  (Forall (fun e => validate_event expected e = Ok tt /\
                    event_generation e = ds_discovery_generation s) events ->
   revision s + Z.of_nat (length events) <= u64_MAX ->
   inv_revision (deliver i events) = revision s + Z.of_nat (length events)).
Proof.
  intros Hi Hh Hin. destruct (from_snapshot_devices _ _ _ Hi) as (Hg & He & Hb & Hr & Hd & _ & _).
  split; [done|]. split.
  - assert (tracks (revision s) (inv_devices i) events i) as Ht
      by (exists O; split_and!; [lia|done|lia|done]).
    destruct (deliver_tracks _ _ _ _ _ Hh Hin Ht) as [(n & Hn & _ & Hrev & Hdev) _]. eauto.
  - intros Hv Hmax. rewrite <- Hr in Hh, Hmax, Hb |- *.
    apply (deliver_in_order (inv_revision i) (inv_devices i) events events 0); try done; try lia.
    by rewrite He, Hg.
Qed.

Definition ex_device (id : string) : DeviceInfo :=
  {| backend_id := codes "mock"; device_id := codes id; display_name := codes "Device";
     availability := Available; metadata := [] |}.

Definition ex_snapshot : DeviceSnapshot :=
  {| ds_discovery_generation := 3; revision := 2; devices := [ex_device "one"; ex_device "two"] |}.

Definition ex_events : list DeviceEvent :=
  [EventAdded 3 3 (ex_device "three");
   EventRemoved 3 4 {| di_backend_id := codes "mock"; di_device_id := codes "one" |}].

Definition ex_inventory : DeviceInventory :=
  match from_snapshot (codes "mock") ex_snapshot with
  | Ok i => i
  | _ => {| expected_backend_id := []; discovery_generation := 0; baseline_revision := 0;
            inv_revision := 0; inv_devices := ∅; last_applied := None |}
  end.

Lemma inventory_tracks_backend_witness :
  inv_revision (deliver ex_inventory ex_events) = 4 /\
  exists n, (n <= 2)%nat /\
    inv_revision (deliver ex_inventory (reverse ex_events)) = 2 + Z.of_nat n /\
    inv_devices (deliver ex_inventory (reverse ex_events)) =
      devices_after (inv_devices ex_inventory) n ex_events.
Proof.
  assert (from_snapshot (codes "mock") ex_snapshot = Ok ex_inventory) as Hi by by vm_compute.
  assert (history (revision ex_snapshot) (inv_devices ex_inventory) ex_events) as Hh.
  { econstructor; [done|by vm_compute|]. econstructor; [done|by vm_compute|]. constructor. }
  destruct (inventory_tracks_backend (codes "mock") ex_snapshot ex_inventory ex_events (reverse ex_events)
              Hi Hh) as (_ & Hany & Hall).
  { repeat constructor. all: set_solver. }
  split; [|exact Hany]. rewrite Hall; [done| |by vm_compute].
  repeat constructor.
Defined.
