(* ===== verification/BackendSession.v ===== *)
(** * Control of one backend session (crates/pronk-backend-host/src/session.rs)

    The daemon's half of a device session: every request is checked before it
    is sent, every reply before it is believed.  The backend at the other end
    of the connection is free to answer anything, late or not at all; a call
    that was made is given by its [reply].  Errors that carry the text of
    another error carry that error. *)

From S2P Require Import Prelude Bytes Text Time BackendProtocol DeviceInventory.

Definition BACKEND_SESSION_CREATE_TIMEOUT : Z := from_secs 5.
Definition BACKEND_SESSION_PREPARE_TIMEOUT : Z := from_secs 30.
Definition BACKEND_SESSION_MEDIA_CONTROL_TIMEOUT : Z := from_secs 15.
Definition BACKEND_SESSION_MEDIA_STOP_TIMEOUT : Z := from_secs 5.
Definition BACKEND_SESSION_CONTROL_TIMEOUT : Z := from_millis 1500.
Definition BACKEND_SESSION_STOP_TIMEOUT : Z := from_secs 5.

(** ** Data *)

Inductive request_error :=
  | Message (e : ValidationError)
  | DeviceIdText
  | ControlGeneration (actual expected : Z).

Inductive completion_error :=
  | ZeroOperation
  | CompletionGeneration (actual expected : Z)
  | CompletionOperation (actual expected : Z)
  | SuccessWithError
  | CompletionText (e : ValidationError).

Inductive BackendSessionError :=
  | InvalidRequest (e : request_error)
  | BackendUnavailable
  | SupervisorStopped
  | MonitorStopped
  | StaleConnectionGeneration (expected actual : Z)
  | StaleDiscoveryGeneration (expected actual : Z)
  | SessionDeviceUnavailable (device_id : list Z)
  | MethodTimeout (method : string)
  | Protocol (message : list Z)
  | UnexpectedObjectPath (expected actual : list Z)
  | InvalidCapabilities (e : ValidationError)
  | StalePreparationGeneration (expected actual : Z)
  | CapabilitiesOutsideOffer (what : string)
  | InvalidStatistics (e : ValidationError)
  | InvalidControlCompletion (e : completion_error)
  | ControlFailed (text : list Z)
  | ControlCompletionStreamClosed
  | StaleStatisticsGeneration (kind : string) (expected actual : Z).

Abbreviation session_result A := (outcome BackendSessionError A).

Record BackendSessionRequest := {
  rq_session_id : list Z; rq_session_device_id : list Z; rq_options : SessionOptions;
  expected_path : list Z }.

Record BackendSessionHandle := {
  bs_backend_id : list Z; bs_session_id : list Z; bs_device_id : list Z; bs_object_path : list Z;
  bs_connection_generation : Z; bs_discovery_generation : Z; bs_session_generation : Z }.

(** What a call comes to: an answer, an error of the connection (building the
    proxy included), or the timeout. *)
Inductive reply (A : Type) := Answer (a : A) | Broken (message : list Z) | Late.
Arguments Answer {A}. Arguments Broken {A}. Arguments Late {A}.

(** [timeout(.., proxy.method(..))]. *)
Definition timed {A} (method : string) (r : reply A) : session_result A :=
  match r with
  | Answer a => Ok a
  | Broken m => Err (Protocol m)
  | Late => Err (MethodTimeout method)
  end.

(** ** Creating *)

Definition BackendSessionRequest_new `{ObjectPath} (session_id device_id : list Z) (options : SessionOptions)
  : session_result BackendSessionRequest :=
  try? omap_err (InvalidRequest ∘ Message) (validate_session_options options);
  let? path := omap_err (InvalidRequest ∘ Message)
                 (session_object_path session_id (so_session_generation options)) in
  try? reject (bool_decide (device_id = []) || (MAX_DEVICE_TEXT_BYTES <? str_len device_id)%nat
               || existsb is_control device_id) (InvalidRequest DeviceIdText);
  Ok {| rq_session_id := session_id; rq_session_device_id := device_id; rq_options := options;
        expected_path := path |}.

Definition create_connected_session (backend_id : list Z) (active_connection_generation : Z)
    (inventory : DeviceInventorySnapshot) (request : BackendSessionRequest) (returned : reply (list Z))
  : session_result BackendSessionHandle :=
  let o := rq_options request in
  try? reject (negb (so_connection_generation o =? active_connection_generation))
         (StaleConnectionGeneration active_connection_generation (so_connection_generation o));
  try? reject (negb (so_discovery_generation o =? is_discovery_generation inventory))
         (StaleDiscoveryGeneration (is_discovery_generation inventory) (so_discovery_generation o));
  try? reject (negb (existsb (fun d => bool_decide (device_id d = rq_session_device_id request)
                                       && bool_decide (availability d = Available)) (is_devices inventory)))
         (SessionDeviceUnavailable (rq_session_device_id request));
  let? path := timed "CreateSession" returned in
  try? reject (negb (bool_decide (path = expected_path request)))
         (UnexpectedObjectPath (expected_path request) path);
  Ok {| bs_backend_id := backend_id; bs_session_id := rq_session_id request;
        bs_device_id := rq_session_device_id request; bs_object_path := path;
        bs_connection_generation := so_connection_generation o;
        bs_discovery_generation := so_discovery_generation o;
        bs_session_generation := so_session_generation o |}.

(** ** Preparing *)

Definition profile_limits (returned offered : VideoProfile) : bool :=
  negb (bool_decide (vp_codec returned = vp_codec offered))
  || (max_width offered <? max_width returned) || (max_height offered <? max_height returned)
  || (max_refresh_millihz offered <? max_refresh_millihz returned).

Definition audio_limits (returned offered : AudioProfile) : bool :=
  negb (bool_decide (ap_codec returned = ap_codec offered))
  || (max_channels offered <? max_channels returned)
  || existsb (fun rate => negb (bool_decide (rate ∈ sample_rates offered))) (sample_rates returned).

Fixpoint check_video_profiles (offered returned : list VideoProfile) : session_result unit :=
  match returned with
  | [] => Ok tt
  | r :: returned' =>
      let? o := ok_or (List.find (fun o => bool_decide (vp_profile_id o = vp_profile_id r)) offered)
                  (CapabilitiesOutsideOffer "video profile ID") in
      try? reject (profile_limits r o) (CapabilitiesOutsideOffer "video profile limits");
      check_video_profiles offered returned'
  end.

Fixpoint check_audio_profiles (offered returned : list AudioProfile) : session_result unit :=
  match returned with
  | [] => Ok tt
  | r :: returned' =>
      let? o := ok_or (List.find (fun o => bool_decide (ap_profile_id o = ap_profile_id r)) offered)
                  (CapabilitiesOutsideOffer "audio profile ID") in
      try? reject (audio_limits r o) (CapabilitiesOutsideOffer "audio profile limits");
      check_audio_profiles offered returned'
  end.

Definition validate_capabilities_against_offer (offer : PreparationRequest) (c : DeviceCapabilities)
  : session_result unit :=
  try? reject (negb (Z.land (features c) (Z.ldiff u64_MAX (pr_requested_features offer)) =? 0))
         (CapabilitiesOutsideOffer "feature bits");
  try? reject (existsb (fun m => negb (bool_decide (m ∈ candidate_modes offer))) (modes c))
         (CapabilitiesOutsideOffer "display mode");
  try? check_video_profiles (pr_video_profiles offer) (video_profiles c);
  check_audio_profiles (pr_audio_profiles offer) (audio_profiles c).

Definition prepare (offer : PreparationRequest) (returned : reply DeviceCapabilities)
  : session_result DeviceCapabilities :=
  try? omap_err (InvalidRequest ∘ Message) (validate_preparation_request offer);
  let? c := timed "Prepare" returned in
  try? omap_err InvalidCapabilities (validate_capabilities c);
  try? reject (negb (preparation_generation c =? pr_preparation_generation offer))
         (StalePreparationGeneration (pr_preparation_generation offer) (preparation_generation c));
  try? validate_capabilities_against_offer offer c;
  Ok c.

(** ** Media *)

Definition configure_media (remotes : nat) (targets : list PipeWireTarget) (c : MediaConfiguration)
    (media_generation : Z) (returned : reply unit) : session_result unit :=
  try? omap_err (InvalidRequest ∘ Message) (validate_media_configuration remotes targets c media_generation);
  timed "ConfigureMedia" returned.

Definition start_media (returned : reply unit) : session_result unit := timed "Start" returned.
Definition suspend_media (returned : reply unit) : session_result unit := timed "Suspend" returned.
Definition resume_media (returned : reply unit) : session_result unit := timed "Resume" returned.
Definition stop_media (returned : reply unit) : session_result unit := timed "StopMedia" returned.
Definition stop (returned : reply unit) : session_result unit := timed "Stop" returned.

Definition get_statistics (h : BackendSessionHandle) (media_generation : Z) (returned : reply SessionStatistics)
  : session_result SessionStatistics :=
  let? s := timed "GetStatistics" returned in
  try? omap_err InvalidStatistics (validate_statistics s);
  try? reject (negb (ss_session_generation s =? bs_session_generation h))
         (StaleStatisticsGeneration "session" (bs_session_generation h) (ss_session_generation s));
  try? reject (negb (ss_media_generation s =? media_generation))
         (StaleStatisticsGeneration "media" media_generation (ss_media_generation s));
  Ok s.

(** ** Control *)

Record control_completed := {
  cc_session_generation : Z; cc_operation_id : Z; succeeded : bool; error_text : list Z }.

(** The subscription, the call, and the first completion signal after them
    ([None]: the stream closed). *)
Definition transmit_control (h : BackendSessionHandle) (operation : ControlOperation)
    (subscribed : reply unit) (submitted : reply Z) (completion : reply (option control_completed))
  : session_result unit :=
  try? omap_err (InvalidRequest ∘ Message) (validate_control operation);
  try? reject (negb (co_session_generation operation =? bs_session_generation h))
         (InvalidRequest (ControlGeneration (co_session_generation operation) (bs_session_generation h)));
  try? timed "SubscribeControlCompleted" subscribed;
  let? id := timed "TransmitControl" submitted in
  try? reject (id =? 0) (InvalidControlCompletion ZeroOperation);
  let? signal := timed "ControlCompleted" completion in
  let? args := ok_or signal ControlCompletionStreamClosed in
  try? reject (negb (cc_session_generation args =? bs_session_generation h))
         (InvalidControlCompletion
            (CompletionGeneration (cc_session_generation args) (bs_session_generation h)));
  try? reject (negb (cc_operation_id args =? id))
         (InvalidControlCompletion (CompletionOperation (cc_operation_id args) id));
  if succeeded args then reject (negb (bool_decide (error_text args = []))) (InvalidControlCompletion SuccessWithError)
  else
    try? omap_err (InvalidControlCompletion ∘ CompletionText) (validate_error_text (error_text args));
    Err (ControlFailed (error_text args)).

(** ** What is believed *)

Definition video_within (offered : list VideoProfile) (r : VideoProfile) : Prop :=
  exists o, o ∈ offered /\ vp_profile_id o = vp_profile_id r /\ vp_codec o = vp_codec r /\
    max_width r <= max_width o /\ max_height r <= max_height o /\ max_refresh_millihz r <= max_refresh_millihz o.

Definition audio_within (offered : list AudioProfile) (r : AudioProfile) : Prop :=
  exists o, o ∈ offered /\ ap_profile_id o = ap_profile_id r /\ ap_codec o = ap_codec r /\
    max_channels r <= max_channels o /\ forall rate, rate ∈ sample_rates r -> rate ∈ sample_rates o.

Record within_offer (offer : PreparationRequest) (c : DeviceCapabilities) : Prop := {
  within_features : Z.land (features c) (Z.ldiff u64_MAX (pr_requested_features offer)) = 0;
  within_modes m : m ∈ modes c -> m ∈ candidate_modes offer;
  within_video r : r ∈ video_profiles c -> video_within (pr_video_profiles offer) r;
  within_audio r : r ∈ audio_profiles c -> audio_within (pr_audio_profiles offer) r }.

(** The first of a list without duplicate keys is the only one. *)
Lemma find_key {A K} `{EqDecision K} (key : A -> K) l k x :
  NoDup (key <$> l) -> List.find (fun o => bool_decide (key o = k)) l = Some x <-> x ∈ l /\ key x = k.
Proof.
  induction l as [|y l IH]; intros Hn.
  { simpl. split; [done|]. by intros [?%not_elem_of_nil _]. }
  rewrite fmap_cons in Hn. apply NoDup_cons in Hn as [Hy Hl]. cbn [List.find]. rewrite elem_of_cons.
  case_bool_decide as E.
  - split; [intros [= <-]; auto|]. intros [[->|Hin] Hk]; [done|]. destruct Hy. rewrite E, <- Hk.
    by apply list_elem_of_fmap_2.
  - rewrite (IH Hl). naive_solver.
Qed.

Lemma check_video_iff offered returned :
  NoDup (vp_profile_id <$> offered) ->
  check_video_profiles offered returned = Ok tt <-> Forall (video_within offered) returned.
Proof.
  intros Hn. induction returned as [|r returned IH]; [by split|].
  cbn [check_video_profiles]. rewrite Forall_cons, <- IH. clear IH. unfold video_within at 1.
  pose proof (fun x => find_key vp_profile_id offered (vp_profile_id r) x Hn) as Hf.
  destruct (List.find _ offered) as [o|]; cbn [ok_or obind].
  - destruct (proj1 (Hf o) eq_refl) as [Ho Hk]. rewrite reject_seq_ok. unfold profile_limits.
    rewrite !orb_false_iff, negb_false_iff, bool_decide_eq_true, !Z.ltb_ge. split.
    + intros ((((? & ?) & ?) & ?) & ?). split; [|done]. by exists o.
    + intros [(o' & Ho' & Hk' & ? & ? & ? & ?) ?]. assert (Some o = Some o') as [= <-] by by apply Hf. done.
  - split; [done|]. intros [(o' & Ho' & Hk' & _) _]. by pose proof (proj2 (Hf o') (conj Ho' Hk')).
Qed.

Lemma check_audio_iff offered returned :
  NoDup (ap_profile_id <$> offered) ->
  check_audio_profiles offered returned = Ok tt <-> Forall (audio_within offered) returned.
Proof.
  intros Hn. induction returned as [|r returned IH]; [by split|].
  cbn [check_audio_profiles]. rewrite Forall_cons, <- IH. clear IH. unfold audio_within at 1.
  pose proof (fun x => find_key ap_profile_id offered (ap_profile_id r) x Hn) as Hf.
  assert (forall o, existsb (fun rate => negb (bool_decide (rate ∈ sample_rates o))) (sample_rates r) = false <->
            forall rate, rate ∈ sample_rates r -> rate ∈ sample_rates o) as Hr.
  { intros o. rewrite <- not_true_iff_false, existsb_exists. setoid_rewrite <- list_elem_of_In. split.
    - intros Hne rate Hin. apply dec_stable. intros Ho. apply Hne. exists rate. by rewrite bool_decide_eq_false_2.
    - intros Hall (rate & Hin & Hb). apply negb_true_iff, bool_decide_eq_false in Hb. by apply Hb, Hall. }
  destruct (List.find _ offered) as [o|]; cbn [ok_or obind].
  - destruct (proj1 (Hf o) eq_refl) as [Ho Hk]. rewrite reject_seq_ok. unfold audio_limits.
    rewrite !orb_false_iff, negb_false_iff, bool_decide_eq_true, Z.ltb_ge, Hr. split.
    + intros (((? & ?) & ?) & ?). split; [|done]. by exists o.
    + intros [(o' & Ho' & Hk' & ? & ? & ?) ?]. assert (Some o = Some o') as [= <-] by by apply Hf. done.
  - split; [done|]. intros [(o' & Ho' & Hk' & _) _]. by pose proof (proj2 (Hf o') (conj Ho' Hk')).
Qed.

Lemma against_offer_iff offer c :
  preparation_request_ok offer ->
  validate_capabilities_against_offer offer c = Ok tt <-> within_offer offer c.
Proof.
  intros Ho. unfold validate_capabilities_against_offer.
  rewrite !reject_seq_ok, seq_ok, negb_false_iff, Z.eqb_eq.
  rewrite check_video_iff, check_audio_iff by (apply Ho). rewrite !Forall_forall.
  rewrite <- not_true_iff_false, existsb_exists. setoid_rewrite <- list_elem_of_In. split.
  - intros (Hf & Hm & Hv & Ha). split; [done| |done|done]. intros m Hin. apply dec_stable. intros Hn.
    apply Hm. exists m. by rewrite bool_decide_eq_false_2.
  - intros [Hf Hm Hv Ha]. split_and!; [done| |done|done]. intros (m & Hin & Hb).
    apply negb_true_iff, bool_decide_eq_false in Hb. by apply Hb, Hm.
Qed.

(** C24: the daemon believes a backend's answer to a preparation exactly when it
    is what it should be: capabilities that are valid, for the generation that
    was asked for, and within the offer (no feature, mode or profile that was
    not offered, no limit raised).  A late or broken answer is an error. *)
Theorem prepare_believes offer returned c :
  validate_preparation_request offer = Ok tt ->
  prepare offer returned = Ok c <->
  returned = Answer c /\ capabilities_ok c /\
  preparation_generation c = pr_preparation_generation offer /\ within_offer offer c.
Proof.
  intros Hoffer. unfold prepare. rewrite Hoffer. cbn [omap_err obind].
  apply validate_preparation_request_iff in Hoffer.
  destruct returned as [c'|m|]; cbn [timed obind]; [|split; [done|]; by intros [? _]..].
  rewrite seq_ok, omap_err_ok, reject_seq_ok, seq_ok, negb_false_iff, Z.eqb_eq.
  rewrite validate_capabilities_iff, against_offer_iff by done. naive_solver.
Qed.

(** *** An exchange *)

Definition ex_mode : DisplayMode :=
  {| dm_width := 640; dm_height := 480; dm_refresh_millihz := 60000; dm_flags := 0 |}.

Definition ex_profile (width : Z) : VideoProfile :=
  {| vp_profile_id := codes "h264"; vp_codec := codes "h264"; max_width := width; max_height := 1080;
     max_refresh_millihz := 60000 |}.

Definition ex_offer : PreparationRequest :=
  {| pr_preparation_generation := 1; candidate_modes := [ex_mode]; pr_video_profiles := [ex_profile 1920];
     pr_audio_profiles := []; pr_requested_features := 2 |}.

Definition ex_answer (width : Z) : DeviceCapabilities :=
  {| preparation_generation := 1;
     display_identity := {| manufacturer_name := None; manufacturer_source := Absent; product_name := None;
                            product_source := Absent; pnp_id := None |};
     modes := [ex_mode]; video_profiles := [ex_profile width]; audio_profiles := []; features := 2 |}.

Lemma prepare_believes_witness :
  within_offer ex_offer (ex_answer 1280) /\ prepare ex_offer (Answer (ex_answer 3840)) <> Ok (ex_answer 3840).
Proof.
  split.
  - apply (prepare_believes ex_offer (Answer (ex_answer 1280)) (ex_answer 1280)); by vm_compute.
  - rewrite (prepare_believes ex_offer (Answer (ex_answer 3840)) (ex_answer 3840)) by by vm_compute.
    intros (_ & _ & _ & [_ _ Hv _]). destruct (Hv (ex_profile 3840)) as (o & Ho & _ & _ & Hw & _); [by left|].
    apply list_elem_of_singleton in Ho as ->. by apply Hw.
Defined.
