(* ===== verification/AggregateInventory.v ===== *)
(** * The aggregate device inventory (crates/pronk/src/manager.rs)

    The manager merges the inventories of all backends into one public
    inventory with one revision.  Every change takes the next revision, which
    becomes the revision of the device it concerns and of the event that
    announces it.  The theorems: the public snapshot is always valid; a client
    that applies the events to the snapshot it had keeps the daemon's inventory;
    and a selection made of a device resolves, later on, to that very record or
    not at all. *)

From S2P Require Import Prelude Bytes Text Ordering BackendProtocol DeviceInventory PublicTypes.
From Stdlib Require Import Sorted.

(** ** Data *)

Record BackendInventory := {
  connection_generation : Z;
  b_discovery_generation : option Z;
  b_devices : gmap (list Z) DeviceInfo }.

Record AggregateInventory := {
  ai_revision : Z;
  backends : gmap (list Z) BackendInventory }.

Definition default_backend : BackendInventory :=
  {| connection_generation := 0; b_discovery_generation := None; b_devices := ∅ |}.

Definition default_inventory : AggregateInventory := {| ai_revision := 0; backends := ∅ |}.

Inductive InventoryEvent :=
  | DeviceAdded (revision : Z) (device : DeviceInfo)
  | DeviceChanged (revision : Z) (device : DeviceInfo)
  | DeviceRemoved (revision : Z) (backend_id device_id : list Z).

Inductive DeviceChange :=
  | ChangeAdded (d : DeviceInfo)
  | ChangeChanged (d : DeviceInfo)
  | ChangeRemoved (device_id : list Z).

Inductive BackendSupervisorEvent :=
  | Connecting (generation : Z)
  | Connected (generation : Z) (inventory : DeviceInventorySnapshot)
  | InventoryChanged (generation : Z) (inventory : DeviceInventorySnapshot)
  | InventoryResynchronized (generation : Z) (inventory : DeviceInventorySnapshot)
  | ConnectionFailed (generation : Z)
  | Disconnected (generation : Z) (unavailable_inventory : DeviceInventorySnapshot)
  | ReconnectScheduled (next_generation : Z)
  | ReconnectExhausted (last_generation : Z)
  | Stopped (last_generation : option Z).

Inductive AggregateError :=
  | ZeroGeneration
  | InvalidDevice (e : BackendProtocol.ValidationError)
  | WrongBackendId (expected actual : list Z)
  | AggregateDuplicateDevice (backend_id device_id : list Z)
  | TooManyDevices (count : nat)
  | RevisionExhausted
  | UnexpectedConnectionGeneration (backend_id : list Z) (expected actual : Z).

Inductive ResolveDeviceError :=
  | InvalidSelection (e : ValidationError)
  | NotFound (backend_id device_id : list Z)
  | StaleSelection (backend_id device_id : list Z)
  | SelectionUnavailable (backend_id device_id : list Z) (availability : DeviceAvailability)
  | SelectionBackendUnavailable (backend_id : list Z)
  | ResolverStopped.

Inductive ApplySupervisorOutcome := Changed (events : list InventoryEvent) | IgnoredStale.

Abbreviation agg A := (outcome AggregateError A).

(** ** Reading *)

Definition snapshot (a : AggregateInventory) : DeviceSnapshot :=
  {| inventory_revision := ai_revision a;
     snapshot_devices := concat ((fun b => values (b_devices b)) <$> values (backends a)) |}.

Definition device_at (a : AggregateInventory) (backend device : list Z) : option DeviceInfo :=
  match backends a !! backend with Some b => b_devices b !! device | None => None end.

Definition with_revision (d : DeviceInfo) (r : Z) : DeviceInfo :=
  {| d_backend_id := d_backend_id d; d_device_id := d_device_id d; d_display_name := d_display_name d;
     d_availability := d_availability d; d_connection_generation := d_connection_generation d;
     d_discovery_generation := d_discovery_generation d; device_revision := r;
     d_metadata := d_metadata d |}.

Definition with_availability (d : DeviceInfo) (x : DeviceAvailability) : DeviceInfo :=
  {| d_backend_id := d_backend_id d; d_device_id := d_device_id d; d_display_name := d_display_name d;
     d_availability := x; d_connection_generation := d_connection_generation d;
     d_discovery_generation := d_discovery_generation d; device_revision := device_revision d;
     d_metadata := d_metadata d |}.

Definition configured_device (a : AggregateInventory) (previous : DeviceInfo) : DeviceInfo :=
  match device_at a (d_backend_id previous) (d_device_id previous) with
  | Some current => current
  | None =>
      with_revision (with_availability previous Unavailable)
        (Z.max (ai_revision a) (device_revision previous))
  end.

Definition configured_device_update (current : DeviceInfo) (e : InventoryEvent) : option DeviceInfo :=
  match e with
  | DeviceAdded _ d | DeviceChanged _ d =>
      if bool_decide (d_backend_id current = d_backend_id d)
         && bool_decide (d_device_id current = d_device_id d) then Some d else None
  | DeviceRemoved r backend device =>
      if bool_decide (d_backend_id current = backend) && bool_decide (d_device_id current = device)
      then Some (with_revision (with_availability current Unavailable) r) else None
  end.

Definition resolve_device (a : AggregateInventory) (s : DeviceSelection)
  : outcome ResolveDeviceError DeviceInfo :=
  try? omap_err InvalidSelection (validate_selection s);
  let? d := ok_or (device_at a (s_backend_id s) (s_device_id s))
              (NotFound (s_backend_id s) (s_device_id s)) in
  try? reject (negb (d_connection_generation d =? s_connection_generation s)
               || negb (d_discovery_generation d =? s_discovery_generation s)
               || negb (device_revision d =? s_device_revision s))
         (StaleSelection (s_backend_id s) (s_device_id s));
  try? reject (negb (bool_decide (d_availability d = Available)))
         (SelectionUnavailable (s_backend_id s) (s_device_id s) (d_availability d));
  Ok d.

(** ** Changing *)

Definition public_availability (x : BackendProtocol.DeviceAvailability) : DeviceAvailability :=
  match x with
  | BackendProtocol.Available => Available
  | BackendProtocol.Busy => Busy
  | BackendProtocol.Unavailable => Unavailable
  end.

Definition public_device (d : BackendProtocol.DeviceInfo) (connection discovery : Z)
    (existing : option DeviceInfo) : DeviceInfo :=
  let metadata :=
    (fun e => {| m_key := BackendProtocol.key e; m_value := BackendProtocol.value e |})
    <$> BackendProtocol.metadata d in
  let fresh :=
    {| d_backend_id := BackendProtocol.backend_id d; d_device_id := BackendProtocol.device_id d;
       d_display_name := BackendProtocol.display_name d;
       d_availability := public_availability (BackendProtocol.availability d);
       d_connection_generation := connection; d_discovery_generation := discovery;
       device_revision := 0; d_metadata := metadata |} in
  match existing with
  | Some x =>
      if bool_decide (d_backend_id x = d_backend_id fresh)
         && bool_decide (d_device_id x = d_device_id fresh)
         && bool_decide (d_display_name x = d_display_name fresh)
         && bool_decide (d_availability x = d_availability fresh)
         && (d_connection_generation x =? connection) && (d_discovery_generation x =? discovery)
         && bool_decide (d_metadata x = metadata)
      then with_revision fresh (device_revision x) else fresh
  | None => fresh
  end.

Definition removed_entry (new : gmap (list Z) DeviceInfo) (e : list Z * DeviceInfo) : option DeviceChange :=
  match new !! e.1 with Some _ => None | None => Some (ChangeRemoved e.1) end.

Definition changed_entry (old : gmap (list Z) DeviceInfo) (e : list Z * DeviceInfo) : option DeviceChange :=
  match old !! e.1 with
  | None => Some (ChangeAdded e.2)
  | Some previous => if bool_decide (previous <> e.2) then Some (ChangeChanged e.2) else None
  end.

(** The changes from [old] to [new]: removals in key order, then the rest. *)
Definition diff_devices (old new : gmap (list Z) DeviceInfo) : list DeviceChange :=
  omap (removed_entry new) (entries old) ++ omap (changed_entry old) (entries new).

Definition device_count (a : AggregateInventory) : nat :=
  sum_list ((fun b => size (b_devices b)) <$> values (backends a)).

Definition ensure_revision_capacity (a : AggregateInventory) (changes : nat) : agg unit :=
  let? _ := ok_or (checked_add64 (ai_revision a) (Z.of_nat changes)) RevisionExhausted in Ok tt.

(** The loop of [revision_events] over the changes of one backend's devices. *)
Fixpoint number_changes (backend : list Z) (changes : list DeviceChange) (revision : Z)
    (devices : gmap (list Z) DeviceInfo) : agg (list InventoryEvent * Z * gmap (list Z) DeviceInfo) :=
  match changes with
  | [] => Ok ([], revision, devices)
  | c :: changes' =>
      let? revision := expect (checked_add64 revision 1) in
      let? '(event, devices) :=
        match c with
        | ChangeAdded d =>
            let? stored := expect (devices !! d_device_id d) in
            Ok (DeviceAdded revision (with_revision d revision),
                <[d_device_id d := with_revision stored revision]> devices)
        | ChangeChanged d =>
            let? stored := expect (devices !! d_device_id d) in
            Ok (DeviceChanged revision (with_revision d revision),
                <[d_device_id d := with_revision stored revision]> devices)
        | ChangeRemoved id => Ok (DeviceRemoved revision backend id, devices)
        end in
      let? '(events, last, devices) := number_changes backend changes' revision devices in
      Ok (event :: events, last, devices)
  end.

(** Commit [devices] as those of [backend], with the given generations. *)
Definition commit (a : AggregateInventory) (backend : list Z) (connection : Z) (discovery : option Z)
    (changes : list DeviceChange) (devices : gmap (list Z) DeviceInfo)
  : agg (list InventoryEvent * AggregateInventory) :=
  let? '(events, revision, devices) := number_changes backend changes (ai_revision a) devices in
  Ok (events, {| ai_revision := revision;
                 backends := <[backend := {| connection_generation := connection;
                                             b_discovery_generation := discovery;
                                             b_devices := devices |}]> (backends a) |}).

Definition mark_device (d : DeviceInfo) : DeviceInfo :=
  if bool_decide (d_availability d = Unavailable) then d
  else with_revision (with_availability d Unavailable) 0.

Definition mark_backend_unavailable (a : AggregateInventory) (backend : list Z)
  : agg (list InventoryEvent * AggregateInventory) :=
  match backends a !! backend with
  | None => Ok ([], a)
  | Some b =>
      let new := mark_device <$> b_devices b in
      let changes := diff_devices (b_devices b) new in
      try? ensure_revision_capacity a (length changes);
      commit a backend (connection_generation b) (b_discovery_generation b) changes new
  end.

Definition current_generation (a : AggregateInventory) (backend : list Z) : Z :=
  match backends a !! backend with Some b => connection_generation b | None => 0 end.

Definition advance_connection (a : AggregateInventory) (backend : list Z) (generation : Z)
  : agg (ApplySupervisorOutcome * AggregateInventory) :=
  if generation <=? current_generation a backend then Ok (IgnoredStale, a)
  else
    let? '(changes, a) := mark_backend_unavailable a backend in
    let b := default default_backend (backends a !! backend) in
    Ok (Changed changes,
        {| ai_revision := ai_revision a;
           backends := <[backend := {| connection_generation := generation;
                                       b_discovery_generation := None;
                                       b_devices := b_devices b |}]> (backends a) |}).

Fixpoint public_devices (backend : list Z) (connection discovery : Z)
    (old : gmap (list Z) DeviceInfo) (devices : list BackendProtocol.DeviceInfo)
    (new : gmap (list Z) DeviceInfo) : agg (gmap (list Z) DeviceInfo) :=
  match devices with
  | [] => Ok new
  | d :: devices' =>
      let id := BackendProtocol.device_id d in
      try? omap_err InvalidDevice (validate_device_info d);
      try? reject (negb (bool_decide (BackendProtocol.backend_id d = backend)))
             (WrongBackendId backend (BackendProtocol.backend_id d));
      try? reject (negb (bool_decide (new !! id = None))) (AggregateDuplicateDevice backend id);
      public_devices backend connection discovery old devices'
        (<[id := public_device d connection discovery (old !! id)]> new)
  end.

Definition replace_backend (a : AggregateInventory) (backend : list Z) (connection : Z)
    (s : DeviceInventorySnapshot) : agg (ApplySupervisorOutcome * AggregateInventory) :=
  if connection <? current_generation a backend then Ok (IgnoredStale, a)
  else
    try? reject ((connection =? 0) || (is_discovery_generation s =? 0) || (is_revision s =? 0))
           ZeroGeneration;
    let old := match backends a !! backend with Some b => b_devices b | None => ∅ end in
    let? new := public_devices backend connection (is_discovery_generation s) old (is_devices s) ∅ in
    let new_total := (device_count a - size old + size new)%nat in
    try? reject (MAX_PUBLIC_DEVICES <? new_total)%nat (TooManyDevices new_total);
    let changes := diff_devices old new in
    try? ensure_revision_capacity a (length changes);
    let? '(events, a) :=
      commit a backend connection (Some (is_discovery_generation s)) changes new in
    Ok (Changed events, a).

Definition apply_supervisor_event (a : AggregateInventory) (backend : list Z)
    (e : BackendSupervisorEvent) : agg (ApplySupervisorOutcome * AggregateInventory) :=
  match e with
  | Connecting g | ConnectionFailed g => advance_connection a backend g
  | Connected g inventory => replace_backend a backend g inventory
  | InventoryChanged g inventory | InventoryResynchronized g inventory | Disconnected g inventory =>
      let current := current_generation a backend in
      if g <? current then Ok (IgnoredStale, a)
      else if current <? g then Err (UnexpectedConnectionGeneration backend current g)
      else replace_backend a backend g inventory
  | Stopped last =>
      if match last with Some l => l <? current_generation a backend | None => false end
      then Ok (IgnoredStale, a)
      else let? '(events, a) := mark_backend_unavailable a backend in Ok (Changed events, a)
  | ReconnectScheduled _ | ReconnectExhausted _ => Ok (Changed [], a)
  end.

Fixpoint mark_each (a : AggregateInventory) (ids : list (list Z))
  : agg (list InventoryEvent * AggregateInventory) :=
  match ids with
  | [] => Ok ([], a)
  | id :: ids' =>
      let? '(events, a) := mark_backend_unavailable a id in
      let? '(rest, a) := mark_each a ids' in
      Ok (events ++ rest, a)
  end.

Definition mark_all_unavailable (a : AggregateInventory) : agg (list InventoryEvent * AggregateInventory) :=
  let required :=
    length (List.filter (fun d => negb (bool_decide (d_availability d = Unavailable)))
              (snapshot_devices (snapshot a))) in
  try? ensure_revision_capacity a required;
  mark_each a (fst <$> entries (backends a)).

(** ** One commit *)

Definition change_id (c : DeviceChange) : list Z :=
  match c with ChangeAdded d | ChangeChanged d => d_device_id d | ChangeRemoved id => id end.

(** The device a change leaves in place. *)
Definition change_device (c : DeviceChange) : option DeviceInfo :=
  match c with ChangeAdded d | ChangeChanged d => Some d | ChangeRemoved _ => None end.

(** What a client does with an event. *)
Definition replay_event (m : gmap (list Z * list Z) DeviceInfo) (e : InventoryEvent)
  : gmap (list Z * list Z) DeviceInfo :=
  match e with
  | DeviceAdded _ d | DeviceChanged _ d => <[identity_of d := d]> m
  | DeviceRemoved _ backend device => delete (backend, device) m
  end.

Definition replay (m : gmap (list Z * list Z) DeviceInfo) (es : list InventoryEvent) :=
  foldl replay_event m es.

Definition inventory_event_revision (e : InventoryEvent) : Z :=
  match e with DeviceAdded r _ | DeviceChanged r _ | DeviceRemoved r _ _ => r end.

(** Numbering a list of changes to different devices of one backend. *)
Record numbered (backend : list Z) (changes : list DeviceChange) (r : Z)
    (devices : gmap (list Z) DeviceInfo) (events : list InventoryEvent) (r' : Z)
    (devices' : gmap (list Z) DeviceInfo) : Prop := {
  numbered_last : r' = r + Z.of_nat (length changes);
  numbered_revisions :
    inventory_event_revision <$> events = (fun n => r + 1 + Z.of_nat n) <$> seq 0 (length changes);
  numbered_other id : id ∉ change_id <$> changes ->
    devices' !! id = devices !! id /\ forall m, replay m events !! (backend, id) = m !! (backend, id);
  numbered_elsewhere b id m : b <> backend -> replay m events !! (b, id) = m !! (b, id);
  numbered_change c : c ∈ changes ->
    match change_device c with
    | Some d => exists n, r < n <= r' /\ devices' !! change_id c = Some (with_revision d n) /\
                          forall m, replay m events !! (backend, change_id c) = Some (with_revision d n)
    | None => devices' !! change_id c = devices !! change_id c /\
              forall m, replay m events !! (backend, change_id c) = None
    end }.

Lemma number_changes_ok backend changes r devices :
  0 <= r -> r + Z.of_nat (length changes) <= u64_MAX -> NoDup (change_id <$> changes) ->
  (forall c d, c ∈ changes -> change_device c = Some d ->
     devices !! d_device_id d = Some d /\ d_backend_id d = backend) ->
  exists events r' devices', number_changes backend changes r devices = Ok (events, r', devices') /\
    numbered backend changes r devices events r' devices'.
Proof.
  revert r devices. induction changes as [|c changes IH]; intros r devices Hr Hmax Hn Hd.
  { do 3 eexists. split; [done|]. split; simpl; try done; [lia|]. intros c Hc. by apply elem_of_nil in Hc. }
  apply NoDup_cons in Hn as [Hnin Hn]. cbn [length] in Hmax.
  cbn [number_changes]. unfold checked_add64. rewrite (proj2 (Z.leb_le _ _)) by lia. cbn [expect obind].
  set (devices1 := match change_device c with
                   | Some d => <[d_device_id d := with_revision d (r + 1)]> devices
                   | None => devices end).
  set (event := match c with
                | ChangeAdded d => DeviceAdded (r + 1) (with_revision d (r + 1))
                | ChangeChanged d => DeviceChanged (r + 1) (with_revision d (r + 1))
                | ChangeRemoved id => DeviceRemoved (r + 1) backend id end).
  match goal with |- context [obind ?x (fun y => _)] => assert (x = Ok (event, devices1)) as -> end.
  { destruct c as [d|d|id]; simpl; [destruct (Hd _ d ltac:(by left) eq_refl) as [-> _]..|]; done. }
  cbn [obind].
  assert (forall id, id <> change_id c -> devices1 !! id = devices !! id) as Hother.
  { intros id Hid. unfold devices1. destruct c as [d|d|i]; simpl in *; try done; by rewrite lookup_insert_ne. }
  destruct (IH (r + 1) devices1) as (events & r' & devices' & -> & HN); [lia|lia|done| |].
  { intros c' d Hc' Hcd. destruct (Hd c' d ltac:(by right) Hcd) as [Hl Hb]. split; [|done].
    rewrite Hother; [done|]. intros Heq. apply Hnin. rewrite <- Heq.
    apply list_elem_of_fmap. exists c'. by destruct c' as [x|x|x]; simplify_eq/=. }
  cbn [obind]. do 3 eexists. split; [done|].
  assert (forall m id, id <> change_id c -> replay_event m event !! (backend, id) = m !! (backend, id)) as Hev.
  { intros m id Hid. unfold event. destruct c as [d|d|i]; simpl in *;
      [destruct (Hd _ d ltac:(by left) eq_refl) as [_ Hb]; unfold identity_of; simpl;
       rewrite lookup_insert_ne by congruence..|rewrite lookup_delete_ne by congruence]; done. }
  destruct HN as [Hlast Hrevs Hoth Helse Hch]. split.
  - cbn [length]. lia.
  - cbn [length seq]. rewrite !fmap_cons, Hrevs. f_equal; [unfold event; destruct c; simpl; lia|].
    rewrite <- fmap_S_seq, <- list_fmap_compose. apply list_fmap_ext. intros i x Hx. simpl. lia.
  - intros id Hid. rewrite fmap_cons, not_elem_of_cons in Hid. destruct Hid as [Hid1 Hid2].
    destruct (Hoth id Hid2) as [E1 E2]. split; [by rewrite E1, Hother|].
    intros m. cbn [replay foldl]. fold (replay (replay_event m event) events). by rewrite E2, Hev.
  - intros b id m Hb. cbn [replay foldl]. fold (replay (replay_event m event) events).
    rewrite Helse by done. unfold event. destruct c as [d|d|i]; simpl;
      [destruct (Hd _ d ltac:(by left) eq_refl) as [_ Hbd]; unfold identity_of; simpl;
       rewrite lookup_insert_ne by congruence..|rewrite lookup_delete_ne by congruence]; done.
  - intros c' [->|Hc']%elem_of_cons.
    + destruct (Hoth (change_id c) Hnin) as [E1 E2].
      destruct c as [d|d|i]; simpl in *;
        [destruct (Hd _ d ltac:(by left) eq_refl) as [_ Hbd]..|].
      * exists (r + 1). split; [lia|]. split.
        -- rewrite E1. unfold devices1. by rewrite lookup_insert, decide_True.
        -- intros m. rewrite E2. simpl. unfold identity_of. simpl. rewrite Hbd.
           by rewrite lookup_insert, decide_True.
      * exists (r + 1). split; [lia|]. split.
        -- rewrite E1. unfold devices1. by rewrite lookup_insert, decide_True.
        -- intros m. rewrite E2. simpl. unfold identity_of. simpl. rewrite Hbd.
           by rewrite lookup_insert, decide_True.
      * split; [by rewrite E1|]. intros m. rewrite E2. simpl. by rewrite lookup_delete, decide_True.
    + assert (change_id c' <> change_id c) as Hne.
      { intros E. apply Hnin. rewrite <- E. by apply list_elem_of_fmap_2. }
      specialize (Hch c' Hc'). destruct (change_device c') as [d|].
      * destruct Hch as (n & Hnr & E1 & E2). exists n. split; [lia|]. split; [done|].
        intros m. apply E2.
      * destruct Hch as [E1 E2]. split; [by rewrite E1, Hother|]. intros m. apply E2.
Qed.

(** ** Differences *)

Lemma NoDup_omap_keys {A B K} (f : A -> option B) (g : B -> K) (h : A -> K) l :
  (forall x y, x ∈ l -> f x = Some y -> g y = h x) -> NoDup (h <$> l) -> NoDup (g <$> omap f l).
Proof.
  induction l as [|x l IH]; intros Hf Hn; [by constructor|].
  rewrite fmap_cons in Hn. apply NoDup_cons in Hn as [Hx Hl].
  assert (NoDup (g <$> omap f l)) as HIH by (apply IH; [intros; apply Hf; [by right|done]|done]).
  cbn [omap list_omap]. destruct (f x) as [y|] eqn:E; [|done].
  rewrite fmap_cons. constructor; [|done]. rewrite (Hf x y); [|by left|done]. intros Hin. apply Hx.
  apply list_elem_of_fmap in Hin as (y' & E' & (x' & Hx' & Ey)%list_elem_of_omap).
  rewrite E', (Hf x' y'); [by apply list_elem_of_fmap_2|by right|done].
Qed.

Section Diff.
Context (old new : gmap (list Z) DeviceInfo).
Hypothesis Hnew : forall id d, new !! id = Some d -> d_device_id d = id.

Lemma diff_elem c :
  c ∈ diff_devices old new <->
  match c with
  | ChangeRemoved id => is_Some (old !! id) /\ new !! id = None
  | ChangeAdded d => old !! d_device_id d = None /\ new !! d_device_id d = Some d
  | ChangeChanged d =>
      exists p, old !! d_device_id d = Some p /\ p <> d /\ new !! d_device_id d = Some d
  end.
Proof.
  unfold diff_devices, removed_entry, changed_entry. rewrite elem_of_app, !list_elem_of_omap. split.
  - intros [([id p] & Hin & E)|([id d] & Hin & E)]; apply elem_of_entries in Hin; simpl in E.
    + destruct (new !! id) eqn:En; [done|]. injection E as <-. by split.
    + pose proof (Hnew _ _ Hin) as <-. destruct (old !! d_device_id d) as [p|] eqn:Eo.
      * case_bool_decide; [|done]. injection E as <-. by exists p.
      * by injection E as <-.
  - destruct c as [d|d|id].
    + intros [Eo En]. right. exists (d_device_id d, d). split; [by apply elem_of_entries|]. simpl.
      by rewrite Eo.
    + intros (p & Eo & Hp & En). right. exists (d_device_id d, d). split; [by apply elem_of_entries|].
      simpl. rewrite Eo. by rewrite bool_decide_eq_true_2.
    + intros [[p Eo] En]. left. exists (id, p). split; [by apply elem_of_entries|]. simpl. by rewrite En.
Qed.

Lemma changed_entry_id e c : e ∈ entries new -> changed_entry old e = Some c -> change_id c = e.1.
Proof.
  destruct e as [i d]. intros Hin%elem_of_entries. apply Hnew in Hin. unfold changed_entry. simpl.
  destruct (old !! i); [case_bool_decide; [|done]|]; by intros [= <-].
Qed.

Lemma removed_entry_id e c : removed_entry new e = Some c -> change_id c = e.1 /\ new !! e.1 = None.
Proof. unfold removed_entry. destruct (new !! e.1); [done|]. by intros [= <-]. Qed.

Lemma diff_nodup : NoDup (change_id <$> diff_devices old new).
Proof.
  unfold diff_devices. rewrite fmap_app. apply NoDup_app. split_and!.
  - apply (NoDup_omap_keys _ change_id fst); [|apply entries_nodup].
    intros e c _ E. by apply removed_entry_id in E as [-> _].
  - intros id Hin Hin'.
    apply list_elem_of_fmap in Hin as (c & -> & (e & _ & E)%list_elem_of_omap).
    apply list_elem_of_fmap in Hin' as (c' & Ec & ([i d] & Hi & E')%list_elem_of_omap).
    apply (changed_entry_id _ _ Hi) in E'. apply elem_of_entries in Hi.
    apply removed_entry_id in E as [E En]. simpl in *. congruence.
  - apply (NoDup_omap_keys _ change_id fst); [apply changed_entry_id|apply entries_nodup].
Qed.

Lemma diff_none id : id ∉ change_id <$> diff_devices old new -> old !! id = new !! id.
Proof.
  intros Hid. apply dec_stable. intros Hne. apply Hid.
  destruct (new !! id) as [d|] eqn:En.
  - pose proof (Hnew _ _ En) as <-. destruct (old !! d_device_id d) as [p|] eqn:Eo.
    + apply list_elem_of_fmap. exists (ChangeChanged d). split; [done|]. apply diff_elem.
      exists p. split_and!; try done. congruence.
    + apply list_elem_of_fmap. exists (ChangeAdded d). split; [done|]. by apply diff_elem.
  - destruct (old !! id) as [p|] eqn:Eo; [|done]. apply list_elem_of_fmap. exists (ChangeRemoved id).
    split; [done|]. apply diff_elem. by rewrite Eo.
Qed.
End Diff.

(** ** Steps of the inventory *)

(** [a] becomes [a'] with [events]: the events are numbered on from [a], take a
    client from [a] to [a'], and every record of [a'] is one of [a] or new. *)
Record stepped (a : AggregateInventory) (events : list InventoryEvent) (a' : AggregateInventory) : Prop := {
  stepped_revisions : inventory_event_revision <$> events
    = (fun n => ai_revision a + 1 + Z.of_nat n) <$> seq 0 (length events);
  stepped_last : ai_revision a' = ai_revision a + Z.of_nat (length events);
  stepped_replay m : (forall b i, m !! (b, i) = device_at a b i) ->
    forall b i, replay m events !! (b, i) = device_at a' b i;
  stepped_fresh b i d : device_at a' b i = Some d ->
    device_at a b i = Some d \/ ai_revision a < device_revision d <= ai_revision a' }.

Lemma stepped_same a a' :
  ai_revision a' = ai_revision a -> (forall b i, device_at a' b i = device_at a b i) -> stepped a [] a'.
Proof.
  intros Hr Hd. split; simpl; [done|lia| |].
  - intros m Hm b i. by rewrite Hm, Hd.
  - intros b i d. rewrite Hd. auto.
Qed.

Lemma stepped_trans a1 e1 a2 e2 a3 :
  stepped a1 e1 a2 -> stepped a2 e2 a3 -> stepped a1 (e1 ++ e2) a3.
Proof.
  intros [R1 L1 P1 F1] [R2 L2 P2 F2]. split.
  - rewrite fmap_app, R1, R2, length_app, seq_app, fmap_app. f_equal. simpl.
    replace (seq (length e1) (length e2)) with (Nat.add (length e1) <$> seq 0 (length e2))
      by (rewrite fmap_add_seq; f_equal; lia).
    rewrite <- list_fmap_compose.
    apply list_fmap_ext. intros k x _. simpl. lia.
  - rewrite length_app. lia.
  - intros m Hm b i. unfold replay. rewrite foldl_app. apply P2. by apply P1.
  - intros b i d Hd. destruct (F2 b i d Hd) as [Hd'|Hr]; [|right; lia].
    destruct (F1 b i d Hd') as [?|Hr]; [by left|right; lia].
Qed.

Definition devices_of (a : AggregateInventory) (backend : list Z) : gmap (list Z) DeviceInfo :=
  match backends a !! backend with Some b => b_devices b | None => ∅ end.

Lemma device_at_devices a b i : device_at a b i = devices_of a b !! i.
Proof. unfold device_at, devices_of. destruct (backends a !! b); [done|]. by rewrite lookup_empty. Qed.

Definition place (a : AggregateInventory) (backend : list Z) (r : Z) (b : BackendInventory)
  : AggregateInventory := {| ai_revision := r; backends := <[backend := b]> (backends a) |}.

Lemma place_device_at a backend r b x i :
  device_at (place a backend r b) x i =
  if decide (x = backend) then b_devices b !! i else device_at a x i.
Proof.
  unfold device_at, place. simpl. destruct (decide (x = backend)) as [->|Hx].
  - by rewrite lookup_insert, decide_True.
  - by rewrite lookup_insert_ne.
Qed.

(** *** Counting *)

Lemma sum_list_perm (l k : list nat) : l ≡ₚ k -> sum_list l = sum_list k.
Proof. induction 1; simpl; lia. Qed.

Lemma device_count_place a backend r b :
  (device_count (place a backend r b) + size (devices_of a backend) = device_count a + size (b_devices b))%nat.
Proof.
  assert (forall m : gmap (list Z) BackendInventory,
    sum_list ((fun b => size (b_devices b)) <$> values m) =
    sum_list ((fun e => size (b_devices e.2)) <$> map_to_list m)) as Hc.
  { intros m. unfold values, entries. rewrite <- list_fmap_compose. apply sum_list_perm.
    by rewrite sort_by_key_perm. }
  unfold device_count, place, devices_of. simpl. rewrite !Hc.
  rewrite <- (insert_delete_eq (backends a) backend b).
  rewrite (sum_list_perm _ _ (fmap_Permutation _ _ _ (map_to_list_insert (delete backend (backends a)) backend b
    (lookup_delete_eq _ _)))). rewrite fmap_cons. cbn [sum_list_with id snd].
  destruct (backends a !! backend) as [old|] eqn:E.
  - rewrite <- (sum_list_perm _ _ (fmap_Permutation _ _ _ (map_to_list_delete (backends a) backend old E))).
    rewrite fmap_cons. cbn [sum_list_with id snd]. lia.
  - rewrite (delete_id (backends a)) by done. rewrite map_size_empty. lia.
Qed.

(** *** The invariant *)

Record aggregate_ok (a : AggregateInventory) : Prop := {
  ok_revision : 0 <= ai_revision a <= u64_MAX;
  ok_count : (device_count a <= MAX_PUBLIC_DEVICES)%nat;
  ok_device b i d : device_at a b i = Some d ->
    device_ok d /\ d_backend_id d = b /\ d_device_id d = i /\ device_revision d <= ai_revision a }.

Lemma device_ok_revision d r : r <> 0 -> device_ok (with_revision d 1) -> device_ok (with_revision d r).
Proof. unfold device_ok. simpl. tauto. Qed.

(** The records a commit may put in place of [old]. *)
Definition may_become (backend : list Z) (old new : gmap (list Z) DeviceInfo) : Prop :=
  forall id d, new !! id = Some d ->
    d_device_id d = id /\ d_backend_id d = backend /\
    (old !! id = Some d \/ device_ok (with_revision d 1)).

(** What numbering the differences makes of [new]. *)
Lemma numbered_diff backend old new r events r' D :
  0 <= r -> may_become backend old new ->
  numbered backend (diff_devices old new) r new events r' D ->
  forall id,
    (forall m, m !! (backend, id) = old !! id -> replay m events !! (backend, id) = D !! id) /\
    (D !! id = None <-> new !! id = None) /\
    (forall d, D !! id = Some d -> d_device_id d = id /\ d_backend_id d = backend /\
       (old !! id = Some d \/ device_ok d /\ r < device_revision d <= r')).
Proof.
  intros Hr Hnew [Hlast Hrevs Hother Helse Hchange] id.
  assert (forall id d, new !! id = Some d -> d_device_id d = id) as Hkey by (intros ? ? Hd; by apply Hnew).
  destruct (decide (id ∈ change_id <$> diff_devices old new)) as [Hin|Hnin].
  - apply list_elem_of_fmap in Hin as (c & -> & Hc). specialize (Hchange c Hc).
    apply (diff_elem old new Hkey) in Hc.
    assert (forall d, change_device c = Some d -> new !! d_device_id d = Some d /\ old !! d_device_id d <> Some d
              /\ change_id c = d_device_id d) as Hput.
    { destruct c; intros ? [= <-]; [destruct Hc as [Ho Hc]|destruct Hc as (p & Ho & Hp & Hc)];
        (split; [done|split; [congruence|done]]). }
    destruct (change_device c) as [d|] eqn:Ec.
    + destruct (Hput d eq_refl) as (Hn & Ho & Eid). destruct Hchange as (n & Hnr & ED & Erep).
      split; [intros m _; by rewrite Erep, ED|]. rewrite ED. split; [split; [done|congruence]|].
      intros d' [= <-]. destruct (Hnew _ _ Hn) as (_ & Hb & Hok). rewrite Eid. simpl.
      split; [done|]. split; [done|]. right. split; [|done].
      destruct Hok as [Hok|Hok]; [done|]. apply device_ok_revision; [lia|done].
    + destruct c as [| |i]; try done. destruct Hchange as [ED Erep], Hc as [Ho Hn]. simpl in *.
      split; [intros m _; by rewrite Erep, ED|]. rewrite ED, Hn. split; [done|]. by intros.
  - destruct (Hother id Hnin) as [ED Erep]. pose proof (diff_none old new Hkey id Hnin) as Hon.
    split; [intros m Hm; by rewrite Erep, Hm, Hon|]. split; [by rewrite ED|].
    intros d. rewrite ED. intros Hd. destruct (Hnew _ _ Hd) as (H1 & H2 & _).
    split; [done|]. split; [done|]. left. congruence.
Qed.

Lemma size_same_dom {A} (m k : gmap (list Z) A) :
  (forall i, m !! i = None <-> k !! i = None) -> size m = size k.
Proof.
  intros Hd. rewrite <- !size_dom. f_equal. apply leibniz_equiv. intros i.
  rewrite !elem_of_dom, <- !not_eq_None_Some. by rewrite Hd.
Qed.

Lemma commit_ok a backend connection discovery new :
  aggregate_ok a -> let old := devices_of a backend in
  may_become backend old new ->
  (device_count a - size old + size new <= MAX_PUBLIC_DEVICES)%nat ->
  ai_revision a + Z.of_nat (length (diff_devices old new)) <= u64_MAX ->
  exists events a', commit a backend connection discovery (diff_devices old new) new = Ok (events, a') /\
    stepped a events a' /\ aggregate_ok a'.
Proof.
  intros [Hrev Hcount Hdev] old Hnew Htotal Hmax.
  assert (forall id d, new !! id = Some d -> d_device_id d = id) as Hkey by (intros id d Hd; by apply Hnew).
  destruct (number_changes_ok backend (diff_devices old new) (ai_revision a) new) as (events & r' & D & E & HN);
    [lia|lia|by apply diff_nodup| |].
  { intros c d Hc Hd. apply (diff_elem old new Hkey) in Hc.
    destruct c; simplify_eq/=; [destruct Hc as [_ Hc]|destruct Hc as (p & _ & _ & Hc)];
      (split; [done|by apply (Hnew _ _ Hc)]). }
  pose proof (numbered_diff backend old new _ _ _ _ (proj1 Hrev) Hnew HN) as HD.
  destruct HN as [Hlast Hrevs _ Helse _].
  set (b := {| connection_generation := connection; b_discovery_generation := discovery; b_devices := D |}).
  exists events, (place a backend r' b). split; [unfold commit; by rewrite E|].
  assert (length events = length (diff_devices old new)) as Hlen.
  { rewrite <- (length_fmap inventory_event_revision events), Hrevs, length_fmap, length_seq. done. }
  split; split.
  - by rewrite Hlen.
  - simpl. lia.
  - intros m Hm x i. rewrite place_device_at. destruct (decide (x = backend)) as [->|Hx].
    + apply HD. rewrite Hm. apply device_at_devices.
    + by rewrite Helse.
  - intros x i d. rewrite place_device_at. destruct (decide (x = backend)) as [->|Hx]; [|by left].
    intros Hd. destruct (HD i) as (_ & _ & HDi). destruct (HDi d Hd) as (_ & _ & [Ho|[_ ?]]); [|by right].
    left. by rewrite device_at_devices.
  - simpl. lia.
  - pose proof (device_count_place a backend r' b). simpl in *.
    assert (size D = size new) by (apply size_same_dom; intros i; apply HD). fold old in H. lia.
  - intros x i d. rewrite place_device_at. simpl. destruct (decide (x = backend)) as [->|Hx].
    + intros Hd. destruct (HD i) as (_ & _ & HDi). destruct (HDi d Hd) as (? & ? & [Ho|[? ?]]).
      * unfold old in Ho. rewrite <- device_at_devices in Ho. destruct (Hdev _ _ _ Ho) as (? & _ & _ & ?).
        split_and!; try done. lia.
      * split_and!; try done. lia.
    + intros Hd. destruct (Hdev _ _ _ Hd) as (? & ? & ? & ?). split_and!; try done. lia.
Qed.

(** ** Every operation is such a step *)

Definition safe_step (a : AggregateInventory) (m : agg (list InventoryEvent * AggregateInventory)) : Prop :=
  safe m (fun '(events, a') => stepped a events a' /\ aggregate_ok a').

Lemma capacity_safe a n : safe (ensure_revision_capacity a n) (fun _ => ai_revision a + Z.of_nat n <= u64_MAX).
Proof.
  unfold ensure_revision_capacity, checked_add64.
  by destruct (Z.leb_spec (ai_revision a + Z.of_nat n) u64_MAX).
Qed.

Lemma mark_device_becomes backend old :
  (forall i d, old !! i = Some d -> device_ok d /\ d_backend_id d = backend /\ d_device_id d = i) ->
  may_become backend old (mark_device <$> old).
Proof.
  intros Hold id d. rewrite lookup_fmap. intros (d0 & Hd & ->)%fmap_Some.
  destruct (Hold _ _ Hd) as (Hok & Hb & Hi). unfold mark_device.
  case_bool_decide; [by auto|]. simpl. split_and!; try done. right. unfold device_ok in *. simpl. assert (1 <> 0) by lia. tauto.
Qed.

Lemma backend_devices a backend b :
  aggregate_ok a -> backends a !! backend = Some b ->
  forall i d, b_devices b !! i = Some d -> device_ok d /\ d_backend_id d = backend /\ d_device_id d = i.
Proof.
  intros [_ _ Hdev] Hb i d Hd. destruct (Hdev backend i d) as (? & ? & ? & _); [|done].
  unfold device_at. by rewrite Hb.
Qed.

Lemma mark_backend_safe a backend : aggregate_ok a -> safe_step a (mark_backend_unavailable a backend).
Proof.
  intros Ha. unfold mark_backend_unavailable, safe_step.
  destruct (backends a !! backend) as [b|] eqn:Hb; [|split; [by apply stepped_same|done]].
  assert (devices_of a backend = b_devices b) as Hold by (unfold devices_of; by rewrite Hb).
  eapply safe_bind; [apply capacity_safe|]. intros u Hcap.
  destruct (commit_ok a backend (connection_generation b) (b_discovery_generation b) (mark_device <$> b_devices b))
    as (events & a' & E & Hs & Ha'); [done|rewrite Hold; by apply mark_device_becomes, (backend_devices a)| |by rewrite Hold|].
  - rewrite Hold, map_size_fmap. pose proof (ok_count a Ha).
    pose proof (device_count_place a backend 0 default_backend) as Hc. rewrite Hold in Hc.
    change (size (b_devices default_backend)) with 0%nat in Hc. lia.
  - rewrite Hold in E. by rewrite E.
Qed.

Lemma public_device_becomes (backend : list Z) (connection discovery : Z) (old : gmap (list Z) DeviceInfo) d :
  device_info_ok d -> BackendProtocol.backend_id d = backend -> connection <> 0 -> discovery <> 0 ->
  let p := public_device d connection discovery (old !! BackendProtocol.device_id d) in
  d_device_id p = BackendProtocol.device_id d /\ d_backend_id p = backend /\
  (old !! BackendProtocol.device_id d = Some p \/ device_ok (with_revision p 1)).
Proof.
  intros (Hb & Hi & Hn & Hl & Hm & Hk) Hbe Hc Hdis. unfold public_device. cbv zeta.
  set (fresh := {| d_backend_id := _; d_device_id := _ |}).
  assert (device_ok (with_revision fresh 1)) as Hok.
  { unfold device_ok, fresh. simpl. rewrite length_fmap, <- list_fmap_compose. split_and!; try done.
    apply Forall_fmap. eapply Forall_impl; [exact Hm|]. intros e [[Hkey _] Hv]. by split. }
  destruct (old !! BackendProtocol.device_id d) as [x|] eqn:Hx; [|by split_and!; [| |right]].
  destruct (_ && _) eqn:E; [|by split_and!; [| |right]]. breflect.
  split_and!; [done|done|]. left. f_equal. destruct x. unfold fresh, with_revision in *. simpl in *. congruence.
Qed.

Lemma public_devices_becomes (backend : list Z) (connection discovery : Z) old ds new0 :
  connection <> 0 -> discovery <> 0 -> may_become backend old new0 ->
  safe (public_devices backend connection discovery old ds new0) (may_become backend old).
Proof.
  intros Hc Hd. revert new0. induction ds as [|d ds IH]; intros new0 Hnew; [done|]. cbn [public_devices]. cbv zeta.
  eapply (safe_bind _ _ (fun _ => device_info_ok d)).
  { apply safe_map_err. pose proof (total_device_info d) as Ht.
    destruct (validate_device_info d) as [[]| |] eqn:E; try done. by apply validate_device_info_iff. }
  intros u Hok. apply safe_reject_seq. intros Hb. apply safe_reject_seq. intros _. breflect.
  apply IH. intros id p. destruct (decide (id = BackendProtocol.device_id d)) as [->|Hid].
  - rewrite lookup_insert, decide_True by done. intros [= <-]. by apply public_device_becomes.
  - rewrite lookup_insert_ne by done. apply Hnew.
Qed.

Definition safe_outcome (a : AggregateInventory) (m : agg (ApplySupervisorOutcome * AggregateInventory)) : Prop :=
  safe m (fun '(o, a') =>
    match o with Changed events => stepped a events a' | IgnoredStale => a' = a end /\ aggregate_ok a').

Lemma replace_backend_safe a backend connection s :
  aggregate_ok a -> safe_outcome a (replace_backend a backend connection s).
Proof.
  intros Ha. unfold replace_backend, safe_outcome. case_match; [by split|].
  apply safe_reject_seq. intros Hz. apply orb_false_iff in Hz as [Hz Hr]. apply orb_false_iff in Hz as [Hc Hd].
  breflect. change (match backends a !! backend with Some b => b_devices b | None => ∅ end)
    with (devices_of a backend).
  eapply safe_bind; [apply public_devices_becomes; [done|done|]|].
  { intros id d Hl. by rewrite lookup_empty in Hl. }
  intros new Hnew. apply safe_reject_seq. intros Htotal. apply Nat.ltb_ge in Htotal.
  eapply safe_bind; [apply capacity_safe|]. intros u Hcap.
  destruct (commit_ok a backend connection (Some (is_discovery_generation s)) new)
    as (events & a' & -> & Hs & Ha'); done.
Qed.

Lemma advance_connection_safe a backend g :
  aggregate_ok a -> safe_outcome a (advance_connection a backend g).
Proof.
  intros Ha. unfold advance_connection, safe_outcome. case_match; [by split|].
  eapply safe_bind; [apply (mark_backend_safe a backend Ha)|]. intros [events a'] [Hs Ha'].
  set (b := {| connection_generation := g |}). change (Build_AggregateInventory _ _) with (place a' backend (ai_revision a') b).
  assert (forall x i, device_at (place a' backend (ai_revision a') b) x i = device_at a' x i) as Hsame.
  { intros x i. rewrite place_device_at. destruct (decide (x = backend)) as [->|]; [|done]. simpl.
    unfold device_at. destruct (backends a' !! backend); simpl; [done|by rewrite lookup_empty]. }
  split.
  - rewrite <- (app_nil_r events). eapply stepped_trans; [exact Hs|]. by apply stepped_same.
  - destruct Ha' as [Hr Hc Hd]. split; [done| |].
    + pose proof (device_count_place a' backend (ai_revision a') b) as Hp. unfold devices_of in Hp. simpl in Hp.
      destruct (backends a' !! backend); simpl in Hp; lia.
    + intros x i d. rewrite Hsame. apply Hd.
Qed.

Lemma apply_supervisor_event_safe a backend e :
  aggregate_ok a -> safe_outcome a (apply_supervisor_event a backend e).
Proof.
  intros Ha. unfold apply_supervisor_event.
  destruct e; try (by apply advance_connection_safe); try (by apply replace_backend_safe);
    try (split; [by apply stepped_same|done]);
    try (repeat (case_match; [first [by split|done]|]); by apply replace_backend_safe).
  case_match; [by split|]. unfold safe_outcome.
  eapply safe_bind; [apply (mark_backend_safe a backend Ha)|]. by intros [events a'] [Hs Ha'].
Qed.

Lemma mark_each_safe a ids : aggregate_ok a -> safe_step a (mark_each a ids).
Proof.
  revert a. induction ids as [|id ids IH]; intros a Ha; [split; [by apply stepped_same|done]|].
  unfold safe_step. cbn [mark_each]. eapply safe_bind; [apply (mark_backend_safe a id Ha)|].
  intros [events a1] [Hs1 Ha1]. eapply safe_bind; [apply (IH a1 Ha1)|].
  intros [rest a2] [Hs2 Ha2]. split; [|done]. by eapply stepped_trans.
Qed.

Lemma mark_all_safe a : aggregate_ok a -> safe_step a (mark_all_unavailable a).
Proof.
  intros Ha. unfold mark_all_unavailable, safe_step. cbv zeta.
  eapply safe_bind; [apply capacity_safe|]. intros u _. by apply mark_each_safe.
Qed.

(** ** The manager's use of it *)

Inductive inventory_input :=
  | Supervised (backend : list Z) (e : BackendSupervisorEvent)
  | AllUnavailable.

Definition apply_input (a : AggregateInventory) (i : inventory_input)
  : agg (list InventoryEvent * AggregateInventory) :=
  match i with
  | Supervised backend e =>
      let? '(o, a) := apply_supervisor_event a backend e in
      Ok (match o with Changed events => events | IgnoredStale => [] end, a)
  | AllUnavailable => mark_all_unavailable a
  end.

(** The events published over a run; an input that is refused changes nothing. *)
Fixpoint run_inputs (a : AggregateInventory) (inputs : list inventory_input)
  : agg (list InventoryEvent * AggregateInventory) :=
  match inputs with
  | [] => Ok ([], a)
  | i :: inputs' =>
      let? '(events, a) :=
        match apply_input a i with Err _ => Ok ([], a) | other => other end in
      let? '(rest, a) := run_inputs a inputs' in
      Ok (events ++ rest, a)
  end.

Lemma aggregate_default_ok : aggregate_ok default_inventory.
Proof.
  split; [done|vm_compute; lia|]. intros b i d. unfold device_at, default_inventory. simpl. by rewrite lookup_empty.
Qed.

Lemma apply_input_safe a i : aggregate_ok a -> safe_step a (apply_input a i).
Proof.
  intros Ha. destruct i as [b e|]; [|by apply mark_all_safe]. unfold safe_step, apply_input.
  eapply safe_bind; [apply (apply_supervisor_event_safe a b e Ha)|].
  intros [[events|] a'] [Hs Ha']; [by split|]. subst. split; [by apply stepped_same|done].
Qed.

Lemma run_inputs_ok a inputs :
  aggregate_ok a ->
  exists events a', run_inputs a inputs = Ok (events, a') /\ stepped a events a' /\ aggregate_ok a'.
Proof.
  revert a. induction inputs as [|i inputs IH]; intros a Ha; [exists [], a; split_and!; try done; by apply stepped_same|].
  cbn [run_inputs]. pose proof (apply_input_safe a i Ha) as Hi. unfold safe_step in Hi.
  destruct (apply_input a i) as [[e1 a1]|e|]; simpl in Hi; [|clear Hi|done]; cbn [obind].
  - destruct Hi as [Hs1 Ha1]. destruct (IH a1 Ha1) as (e2 & a2 & -> & Hs2 & Ha2). exists (e1 ++ e2), a2.
    split_and!; [done|by eapply stepped_trans|done].
  - destruct (IH a Ha) as (e2 & a2 & -> & ?). by exists e2, a2.
Qed.

(** *** The snapshot *)

Lemma elem_of_concat {A} (ls : list (list A)) x : x ∈ concat ls <-> exists l, x ∈ l /\ l ∈ ls.
Proof. setoid_rewrite list_elem_of_In. rewrite in_concat. naive_solver. Qed.

Lemma snapshot_elem a d :
  d ∈ snapshot_devices (snapshot a) <-> exists b i, device_at a b i = Some d.
Proof.
  unfold snapshot. cbn [snapshot_devices]. rewrite elem_of_concat. unfold device_at. split.
  - intros (l & Hd & Hl). apply list_elem_of_fmap in Hl as (bi & -> & Hb).
    apply elem_of_values in Hb as [b Hb]. apply elem_of_values in Hd as [i Hi]. exists b, i. by rewrite Hb.
  - intros (b & i & Hd). destruct (backends a !! b) as [bi|] eqn:Hb; [|done].
    exists (values (b_devices bi)). split; [apply elem_of_values; by exists i|].
    apply list_elem_of_fmap. exists bi. split; [done|]. apply elem_of_values. by exists b.
Qed.

Lemma length_snapshot a : length (snapshot_devices (snapshot a)) = device_count a.
Proof.
  unfold snapshot, device_count. cbn [snapshot_devices]. induction (values (backends a)) as [|b l IH]; [done|].
  cbn [fmap list_fmap concat sum_list_with]. by rewrite length_app, IH, length_values.
Qed.

Lemma strongly_sorted_concat {A} (R : A -> A -> Prop) (ls : list (list A)) :
  Forall (StronglySorted R) ls -> StronglySorted (fun k l => forall x y, x ∈ k -> y ∈ l -> R x y) ls ->
  StronglySorted R (concat ls).
Proof.
  intros Hin Hout. induction Hout as [|l ls Hout IH Hl]; [constructor|].
  apply Forall_cons in Hin as [Hs Hin]. specialize (IH Hin). cbn [concat]. clear Hin.
  induction Hs as [|x l Hs IHs Hx]; [done|]. simpl. constructor.
  - apply IHs. eapply Forall_impl; [exact Hl|]. intros k Hk y z Hy Hz. apply Hk; [by right|done].
  - apply Forall_app. split; [done|]. apply Forall_forall. intros y (k & Hy & Hk)%elem_of_concat.
    rewrite Forall_forall in Hl. apply (Hl k Hk); [by left|done].
Qed.

Lemma strongly_sorted_fmap {A B} (R : A -> A -> Prop) (S : B -> B -> Prop) (f : A -> B) l :
  (forall x y, x ∈ l -> y ∈ l -> R x y -> S (f x) (f y)) -> StronglySorted R l -> StronglySorted S (f <$> l).
Proof.
  intros Hf Hs. induction Hs as [|x l Hs IH Hx]; [constructor|]. rewrite fmap_cons. constructor.
  - apply IH. intros y z Hy Hz. apply Hf; by right.
  - apply Forall_fmap, Forall_forall. intros y Hy. rewrite Forall_forall in Hx. apply Hf; [by left|by right|by apply Hx].
Qed.

Lemma snapshot_ordered a : aggregate_ok a -> ordered_devices (snapshot_devices (snapshot a)).
Proof.
  intros Ha. unfold ordered_devices, snapshot. cbn [snapshot_devices].
  assert (forall b bi, backends a !! b = Some bi -> forall i d, b_devices bi !! i = Some d -> identity_of d = (b, i)) as Hid.
  { intros b bi Hb i d Hd. destruct (backend_devices a b bi Ha Hb i d Hd) as (_ & <- & <-). done. }
  apply strongly_sorted_concat.
  - apply Forall_fmap, Forall_forall. intros bi [b Hb]%elem_of_values. simpl. unfold values.
    eapply strongly_sorted_fmap; [|apply entries_sorted].
    intros [i d] [j d'] Hi%elem_of_entries Hj%elem_of_entries Hlt. simpl in *.
    rewrite (Hid b bi Hb _ _ Hi), (Hid b bi Hb _ _ Hj). by apply pair_lt_r.
  - unfold values at 2. rewrite <- list_fmap_compose. eapply strongly_sorted_fmap; [|apply entries_sorted].
    intros [b bi] [b' bi'] Hb%elem_of_entries Hb'%elem_of_entries Hlt d d'. simpl in *.
    intros [i Hi]%elem_of_values [j Hj]%elem_of_values.
    rewrite (Hid b bi Hb _ _ Hi), (Hid b' bi' Hb' _ _ Hj). by apply pair_lt_l.
Qed.

Lemma snapshot_valid a : aggregate_ok a -> validate_snapshot (snapshot a) = Ok tt.
Proof.
  intros Ha. apply validate_snapshot_ok; [rewrite length_snapshot; apply Ha|by apply snapshot_ordered|].
  apply Forall_forall. intros d (b & i & Hd)%snapshot_elem.
  by destruct (ok_device a Ha b i d Hd) as (? & _ & _ & ?).
Qed.

(** A client's copy of a snapshot, by the identity of the devices. *)
Definition copy_of (s : DeviceSnapshot) : gmap (list Z * list Z) DeviceInfo :=
  list_to_map ((fun d => (identity_of d, d)) <$> snapshot_devices s).

Lemma ordered_nodup ds : ordered_devices ds -> NoDup (identity_of <$> ds).
Proof.
  induction 1 as [|d ds Hs IH Hd]; [constructor|]. rewrite fmap_cons. constructor; [|done].
  intros (d' & E & Hin)%list_elem_of_fmap. rewrite Forall_forall in Hd. specialize (Hd d' Hin).
  rewrite E in Hd. unfold lt_of in Hd. by rewrite cmp_refl in Hd.
Qed.

Lemma copy_lookup a b i : aggregate_ok a -> copy_of (snapshot a) !! (b, i) = device_at a b i.
Proof.
  intros Ha. apply option_eq. intros d. unfold copy_of. rewrite <- elem_of_list_to_map.
  - rewrite list_elem_of_fmap. split.
    + intros (d' & [= Hid ->] & (b' & i' & Hd)%snapshot_elem).
      destruct (ok_device a Ha b' i' d' Hd) as (_ & <- & <- & _). by subst.
    + intros Hd. exists d. destruct (ok_device a Ha b i d Hd) as (_ & <- & <- & _).
      split; [done|]. apply snapshot_elem. by eexists _, _.
  - rewrite <- list_fmap_compose. change (fst ∘ _) with identity_of. by apply ordered_nodup, snapshot_ordered.
Qed.

Lemma from_device_ok d : device_ok d -> validate_selection (from_device d) = Ok tt.
Proof.
  intros Hd. unfold validate_selection, device_ok in *.
  rewrite !seq_ok, public_backend_id_iff, public_text_iff, !validate_nonzero_iff. simpl. tauto.
Qed.

Lemma resolve_device_iff a d d' :
  device_ok d ->
  resolve_device a (from_device d) = Ok d' <->
  device_at a (d_backend_id d) (d_device_id d) = Some d' /\
  d_connection_generation d' = d_connection_generation d /\
  d_discovery_generation d' = d_discovery_generation d /\
  device_revision d' = device_revision d /\ d_availability d' = Available.
Proof.
  intros Hd. unfold resolve_device. rewrite (from_device_ok d Hd). cbn [omap_err obind from_device s_backend_id s_device_id
    s_connection_generation s_discovery_generation s_device_revision].
  destruct (device_at a _ _) as [x|]; cbn [ok_or obind]; [|naive_solver].
  destruct (Z.eqb_spec (d_connection_generation x) (d_connection_generation d)); [|simpl; naive_solver].
  destruct (Z.eqb_spec (d_discovery_generation x) (d_discovery_generation d)); [|simpl; naive_solver].
  destruct (Z.eqb_spec (device_revision x) (device_revision d)); [|simpl; naive_solver].
  case_bool_decide; simpl; naive_solver.
Qed.

(** Whatever the backends' supervisors report, in whatever order and with
    whatever content, applying their events never panics (an event is applied
    or refused without a change) and the inventory the daemon publishes after
    them is one its own public interface accepts. *)
Theorem aggregate_snapshot_valid inputs :
  exists events a, run_inputs default_inventory inputs = Ok (events, a) /\
    validate_snapshot (snapshot a) = Ok tt.
Proof.
  destruct (run_inputs_ok _ inputs aggregate_default_ok) as (events & a & E & _ & Ha).
  exists events, a. split; [done|]. by apply snapshot_valid.
Qed.

(** C28: a client that takes a snapshot and from then on applies the published
    events has at every later point exactly the daemon's inventory, and the
    events it sees carry consecutive revisions, which end at the revision of
    the later snapshot. *)
Theorem inventory_events_replay before after e1 a1 e2 a2 :
  run_inputs default_inventory before = Ok (e1, a1) ->
  run_inputs a1 after = Ok (e2, a2) ->
  replay (copy_of (snapshot a1)) e2 = copy_of (snapshot a2) /\
  inventory_event_revision <$> e2
    = (fun n => inventory_revision (snapshot a1) + 1 + Z.of_nat n) <$> seq 0 (length e2) /\
  inventory_revision (snapshot a2) = inventory_revision (snapshot a1) + Z.of_nat (length e2).
Proof.
  intros E1 E2. destruct (run_inputs_ok _ before aggregate_default_ok) as (? & ? & E1' & _ & Ha1).
  rewrite E1' in E1. apply ok_inj in E1 as [= -> ->].
  destruct (run_inputs_ok _ after Ha1) as (? & ? & E2' & Hs & Ha2).
  rewrite E2' in E2. apply ok_inj in E2 as [= -> ->].
  split_and!; [|apply Hs|apply Hs]. apply map_eq. intros [b i]. rewrite copy_lookup by done.
  apply (stepped_replay _ _ _ Hs). intros b' i'. by apply copy_lookup.
Qed.

(** A selection a client makes of a listed device resolves, at any later
    time, exactly when that very record is still listed and available, and then
    to it; a device that has changed in any way in between, or has been removed
    and found again, is refused. *)
Theorem selection_resolves_same before after e1 a1 e2 a2 d d' :
  run_inputs default_inventory before = Ok (e1, a1) ->
  run_inputs a1 after = Ok (e2, a2) ->
  d ∈ snapshot_devices (snapshot a1) ->
  resolve_device a2 (from_device d) = Ok d' <->
  d' = d /\ d ∈ snapshot_devices (snapshot a2) /\ d_availability d = Available.
Proof.
  intros E1 E2 (b & i & Hd)%snapshot_elem.
  destruct (run_inputs_ok _ before aggregate_default_ok) as (? & ? & E1' & _ & Ha1).
  rewrite E1' in E1. apply ok_inj in E1 as [= -> ->].
  destruct (run_inputs_ok _ after Ha1) as (? & ? & E2' & Hs & Ha2).
  rewrite E2' in E2. apply ok_inj in E2 as [= -> ->].
  destruct (ok_device _ Ha1 _ _ _ Hd) as (Hok & <- & <- & Hr).
  rewrite (resolve_device_iff _ _ _ Hok). split.
  - intros (Hd' & _ & _ & Hrev & Hav).
    destruct (stepped_fresh _ _ _ Hs _ _ _ Hd') as [Ho|Hn]; [|lia].
    assert (d' = d) as -> by congruence. split_and!; try done. apply snapshot_elem. by eexists _, _.
  - intros (-> & (b & i & Hd')%snapshot_elem & Hav).
    by destruct (ok_device _ Ha2 _ _ _ Hd') as (_ & <- & <- & _).
Qed.

(** *** An example run *)

Definition ex_found (id : string) : BackendProtocol.DeviceInfo :=
  {| BackendProtocol.backend_id := codes "mock"; BackendProtocol.device_id := codes id;
     BackendProtocol.display_name := codes "Device"; BackendProtocol.availability := BackendProtocol.Available;
     BackendProtocol.metadata := [] |}.

Definition ex_inputs : list inventory_input :=
  [Supervised (codes "mock") (Connecting 1);
   Supervised (codes "mock") (Connected 1
     {| is_discovery_generation := 1; is_revision := 1; is_devices := [ex_found "one"; ex_found "two"] |})].

Definition ex_later : list inventory_input :=
  [Supervised (codes "mock") (InventoryChanged 1
     {| is_discovery_generation := 1; is_revision := 2; is_devices := [ex_found "two"] |});
   Supervised (codes "mock") (InventoryChanged 1
     {| is_discovery_generation := 1; is_revision := 3; is_devices := [ex_found "two"; ex_found "one"] |})].

Definition ran (a : AggregateInventory) (inputs : list inventory_input) : list InventoryEvent * AggregateInventory :=
  match run_inputs a inputs with Ok x => x | _ => ([], a) end.

Definition ex_first : AggregateInventory := (ran default_inventory ex_inputs).2.

Lemma inventory_events_replay_witness :
  replay (copy_of (snapshot ex_first)) (ran ex_first ex_later).1 = copy_of (snapshot (ran ex_first ex_later).2) /\
  inventory_event_revision <$> (ran ex_first ex_later).1 = [3; 4].
Proof.
  destruct (inventory_events_replay ex_inputs ex_later (ran default_inventory ex_inputs).1 ex_first
              (ran ex_first ex_later).1 (ran ex_first ex_later).2) as (Hr & Hrev & _).
  - by vm_compute.
  - by vm_compute.
  - split; [exact Hr|]. rewrite Hrev. by vm_compute.
Defined.

Definition ex_one : DeviceInfo :=
  {| d_backend_id := codes "mock"; d_device_id := codes "one"; d_display_name := codes "Device";
     d_availability := Available; d_connection_generation := 1; d_discovery_generation := 1;
     device_revision := 1; d_metadata := [] |}.

(** The device found again under the same identity is not the one selected. *)
Lemma selection_resolves_same_witness :
  resolve_device ex_first (from_device ex_one) = Ok ex_one /\
  forall d', resolve_device (ran ex_first ex_later).2 (from_device ex_one) <> Ok d'.
Proof.
  assert (ex_one ∈ snapshot_devices (snapshot ex_first)) as Hin by (apply (bool_decide_eq_true_1 _); by vm_compute).
  split; [by vm_compute|]. intros d' E.
  apply (selection_resolves_same ex_inputs ex_later (ran default_inventory ex_inputs).1 ex_first
           (ran ex_first ex_later).1 (ran ex_first ex_later).2 ex_one d') in E;
    [|by vm_compute|by vm_compute|exact Hin].
  destruct E as (_ & Hin' & _). revert Hin'. apply (bool_decide_eq_true_1 (¬ (_ ∈ _))). by vm_compute.
Defined.
