(* ===== verification/Preparation.v ===== *)
(** * Device preparation (crates/pronk/src/preparation.rs)

    What a backend reports of a device is turned into a monitor: the offer the
    daemon makes to the backend, the modes it takes over, the identity it shows
    in the EDID, and the comparison with a later preparation of the same device
    when its session is replaced in place.

    The theorems compose the components involved ([BackendProtocol],
    [PublicTypes], [Identity], [Edid]): whatever the protocol's validation
    accepts, the EDID can be built of, so a preparation is refused only for the
    reasons [from_capabilities] itself names. *)

From S2P Require Import Prelude Bytes Text Castkms Ordering BackendProtocol PublicTypes Identity Edid EdidLayout.

(** ** The offer *)

Definition offered_modes : list DisplayMode :=
  let mode w h r := {| dm_width := w; dm_height := h; dm_refresh_millihz := r; dm_flags := 0 |} in
  [mode 3840 2160 30000; mode 2560 1440 60000; mode 1920 1200 60000; mode 1920 1080 60000;
   mode 1680 1050 60000; mode 1600 900 60000; mode 1440 900 60000; mode 1366 768 60000;
   mode 1280 1024 60000; mode 1280 800 60000; mode 1280 720 60000; mode 1024 768 60000;
   mode 800 600 60000; mode 640 480 60000].

Definition initial_preparation_offer (audio_enabled : bool) : PreparationRequest :=
  {| pr_preparation_generation := 1; candidate_modes := offered_modes;
     pr_video_profiles :=
       [{| vp_profile_id := codes "h264-high"; vp_codec := codes "h264"; max_width := 3840;
           max_height := 2160; max_refresh_millihz := 60000 |}];
     pr_audio_profiles :=
       if audio_enabled
       then [{| ap_profile_id := codes "opus-stereo"; ap_codec := codes "opus"; max_channels := 2;
                sample_rates := [48000] |}]
       else [];
     pr_requested_features :=
       Z.lor SESSION_FEATURE_CONTROL (if audio_enabled then SESSION_FEATURE_AUDIO else 0) |}.

(** ** Preparing *)

Record PreparedIdentityProvenance := {
  prov_manufacturer_source : IdentitySource; prov_product_source : IdentitySource;
  display_name_omitted_from_edid : bool }.

Record PreparedCastDevice := {
  device : DeviceInfo; prepared_capabilities : DeviceCapabilities; pnp_resolution : ResolvedPnpId;
  provenance : PreparedIdentityProvenance; generated_edid : GeneratedCastDisplayEdid }.

Inductive PrepareCastDeviceError :=
  | InvalidDevice (e : PublicTypes.ValidationError)
  | DeviceUnavailable (availability : DeviceAvailability)
  | InvalidCapabilities (e : BackendProtocol.ValidationError)
  | UnsupportedIdentitySource (field : string) (identity_source : IdentitySource)
  | Pnp (e : PnpIdError)
  | NoSupportedMode
  | PrepareMissingRequired640x480
  | EdidError (e : CastDisplayEdidError).

Inductive PreparedDeviceRecoveryError :=
  | DifferentDevice | EdidChanged | VideoProfileChanged (id : list Z) | AudioProfileChanged (id : list Z).

Definition audio_enabled (p : PreparedCastDevice) : bool :=
  negb (Z.land (BackendProtocol.features (prepared_capabilities p)) SESSION_FEATURE_AUDIO =? 0)
  && negb (bool_decide (audio_profiles (prepared_capabilities p) = [])).

Definition control_enabled (p : PreparedCastDevice) : bool :=
  negb (Z.land (BackendProtocol.features (prepared_capabilities p)) SESSION_FEATURE_CONTROL =? 0).

Definition require_usable_identity_source (field : string) (value : option (list Z))
    (source : IdentitySource) : outcome PrepareCastDeviceError unit :=
  reject (bool_decide (is_Some value)
          && negb match source with SetupEndpoint | AuthenticatedDeviceInfo => true | _ => false end)
    (UnsupportedIdentitySource field source).

Definition edid_safe_product_name (value : list Z) : option (list Z) :=
  let value := trim value in
  if bool_decide (value = []) || (EDID_PRODUCT_NAME_MAX_BYTES <? str_len value)%nat
     || negb (forallb (fun b => (0x20 <=? b) && (b <=? 0x7e)) (utf8 value))
  then None else Some value.

(** The loop of [select_initial_modes]; its set of identities is the set of the
    modes pushed so far. *)
Fixpoint supported_modes (supported : list EdidMode) (modes : list DisplayMode) : list EdidMode :=
  match modes with
  | [] => supported
  | m :: modes' =>
      match EdidMode_new (dm_width m) (dm_height m) (dm_refresh_millihz m) with
      | Ok mode =>
          supported_modes (if bool_decide (mode ∈ supported) then supported else supported ++ [mode]) modes'
      | _ => supported_modes supported modes'
      end
  end.

(** [*selected.last_mut() = mode]. *)
Definition set_last (l : list EdidMode) (mode : EdidMode) : option (list EdidMode) :=
  match l with [] => None | _ => Some (<[pred (length l) := mode]> l) end.

Definition select_initial_modes (c : DeviceCapabilities) : outcome PrepareCastDeviceError (list EdidMode) :=
  let supported := supported_modes [] (modes c) in
  try? reject (bool_decide (supported = [])) NoSupportedMode;
  let? required := match EdidMode_new 640 480 60000 with Ok m => Ok m | _ => Panic end in
  try? reject (negb (bool_decide (required ∈ supported))) PrepareMissingRequired640x480;
  let selected := take MAX_EDID_MODES supported in
  if bool_decide (required ∈ selected) then Ok selected else expect (set_last selected required).

Section Preparation.
Context `{U : Unicode} `{S : Sha256}.

Definition from_capabilities (d : DeviceInfo) (c : DeviceCapabilities) (pnp_resolver : PnpIdResolver)
    (enable_audio : bool) : outcome PrepareCastDeviceError PreparedCastDevice :=
  try? omap_err InvalidDevice (validate_device d);
  try? reject (negb (bool_decide (d_availability d = Available))) (DeviceUnavailable (d_availability d));
  try? omap_err InvalidCapabilities (validate_capabilities c);
  let identity := display_identity c in
  try? require_usable_identity_source "manufacturer" (manufacturer_name identity) (manufacturer_source identity);
  try? require_usable_identity_source "product" (product_name identity) (product_source identity);
  let? resolution := omap_err Pnp
         (resolve pnp_resolver (BackendProtocol.pnp_id identity) (manufacturer_name identity)) in
  let product := match product_name identity with Some p => edid_safe_product_name p | None => None end in
  let name := edid_safe_product_name (d_display_name d) in
  let? modes := select_initial_modes c in
  let audio := enable_audio && negb (Z.land (BackendProtocol.features c) SESSION_FEATURE_AUDIO =? 0) in
  let control := negb (Z.land (BackendProtocol.features c) SESSION_FEATURE_CONTROL =? 0) in
  let? edid := omap_err EdidError (build_cast_display_edid
    {| rq_pnp_id := rp_pnp_id resolution; rq_manufacturer_name := manufacturer_name identity;
       rq_product_name := product; rq_display_name := name; rq_backend_id := d_backend_id d;
       rq_device_id := d_device_id d; rq_modes := modes; rq_audio := audio;
       rq_cec_physical_address := if control then Some 0x1000 else None |}) in
  Ok {| device := d; prepared_capabilities := c; pnp_resolution := resolution;
        provenance := {| prov_manufacturer_source := manufacturer_source identity;
                         prov_product_source := product_source identity;
                         display_name_omitted_from_edid := bool_decide (name = None) |};
        generated_edid := edid |}.

End Preparation.

Definition validate_recovery (p replacement : PreparedCastDevice)
  : outcome PreparedDeviceRecoveryError unit :=
  try? reject (negb (bool_decide (d_backend_id (device p) = d_backend_id (device replacement)))
               || negb (bool_decide (d_device_id (device p) = d_device_id (device replacement))))
         DifferentDevice;
  try? reject (negb (has_same_monitor_configuration (generated_edid p) (generated_edid replacement)))
         EdidChanged;
  let? video := expect (head (video_profiles (prepared_capabilities p))) in
  try? reject (negb (bool_decide (
         List.find (fun v => bool_decide (vp_profile_id v = vp_profile_id video))
           (video_profiles (prepared_capabilities replacement)) = Some video)))
         (VideoProfileChanged (vp_profile_id video));
  match head (audio_profiles (prepared_capabilities p)) with
  | Some audio =>
      reject (negb (bool_decide (
        List.find (fun a => bool_decide (ap_profile_id a = ap_profile_id audio))
          (audio_profiles (prepared_capabilities replacement)) = Some audio)))
        (AudioProfileChanged (ap_profile_id audio))
  | None => Ok tt
  end.

(** ** Text *)

Lemma stable_id_accepts field value limit :
  text_ok value limit -> validate_stable_id field value limit = Ok tt.
Proof.
  intros (Hne & Hl & Hc). unfold validate_stable_id. rewrite bool_decide_eq_false_2 by done.
  rewrite (proj2 (Nat.ltb_ge _ _)) by done. cbn [obind reject]. by rewrite (proj2 (existsb_Forall _ _)).
Qed.

Lemma manufacturer_accepts name source :
  sourced_ok name source MAX_MANUFACTURER_NAME_BYTES -> is_ok (validate_manufacturer_name name) = true.
Proof.
  unfold sourced_ok, validate_manufacturer_name. destruct name as [name|]; [|done]. cbn [fmap option_fmap option_map].
  intros (_ & _ & Hl & Hc). pose proof (trim_len name) as Ht. apply (trim_Forall _ _) in Hc.
  destruct (trim name) as [|c s] eqn:E; [done|]. rewrite (proj2 (Nat.ltb_ge _ _)).
  - cbn [obind reject]. by rewrite (proj2 (existsb_Forall _ _)).
  - etrans; [exact Ht|exact Hl].
Qed.

Lemma safe_name_accepts name : is_ok (validate_product_name (edid_safe_product_name name)) = true.
Proof.
  unfold edid_safe_product_name. cbv zeta. destruct (_ || _) eqn:E; [done|].
  apply orb_false_iff in E as [E Hp]. apply orb_false_iff in E as [_ Hl]. apply Nat.ltb_ge in Hl.
  apply negb_false_iff in Hp. unfold validate_product_name. cbn [fmap option_fmap option_map].
  pose proof (trim_len (trim name)) as Ht. apply forallb_Forall, trim_utf8_Forall in Hp.
  destruct (trim (trim name)) as [|c s] eqn:Es; [done|].
  rewrite (proj2 (Nat.ltb_ge _ _)) by lia. cbn [obind reject].
  by rewrite (proj2 (forallb_Forall _ _) Hp).
Qed.

(** ** Modes *)

Definition edid_mode (m : DisplayMode) : EdidMode :=
  {| width := dm_width m; height := dm_height m; refresh_millihz := dm_refresh_millihz m |}.

Lemma supported_timings m : supported m -> m ∈ TIMINGS.*1.
Proof.
  unfold supported, timing_for. intros [t Ht]. apply fmap_Some in Ht as (e & Hf & _).
  apply find_some in Hf as [Hin He]. apply bool_decide_eq_true in He as <-.
  apply list_elem_of_fmap_2. by apply list_elem_of_In.
Qed.

Lemma EdidMode_new_ok m :
  EdidMode_new (dm_width m) (dm_height m) (dm_refresh_millihz m) =
  if bool_decide (supported (edid_mode m)) then Ok (edid_mode m) else Err (UnsupportedMode (edid_mode m)).
Proof.
  unfold EdidMode_new, supported, edid_mode. cbv zeta. destruct (timing_for _) eqn:E; cbn [obind].
  - by rewrite bool_decide_eq_true_2.
  - by rewrite bool_decide_eq_false_2 by (by intros [? ?]).
Qed.

Lemma supported_modes_spec acc l :
  NoDup acc -> Forall supported acc ->
  NoDup (supported_modes acc l) /\ Forall supported (supported_modes acc l) /\
  forall m, m ∈ supported_modes acc l <-> m ∈ acc \/ supported m /\ m ∈ edid_mode <$> l.
Proof.
  revert acc. induction l as [|d l IH]; intros acc Hn Hs.
  { cbn [supported_modes fmap list_fmap]. set_solver. }
  cbn [supported_modes]. rewrite EdidMode_new_ok. case_bool_decide as Hd.
  - destruct (IH (if bool_decide (edid_mode d ∈ acc) then acc else acc ++ [edid_mode d])) as (H1 & H2 & H3).
    + case_bool_decide; [done|]. apply NoDup_app. split_and!; [done|set_solver|apply NoDup_singleton].
    + case_bool_decide; [done|]. apply Forall_app. split; [done|]. by repeat constructor.
    + split_and!; [done|done|]. intros m. rewrite H3, fmap_cons, elem_of_cons.
      case_bool_decide; [|rewrite elem_of_app, list_elem_of_singleton]; naive_solver.
  - destruct (IH acc Hn Hs) as (H1 & H2 & H3). split_and!; [done|done|]. intros m.
    rewrite H3, fmap_cons, elem_of_cons. naive_solver.
Qed.

Lemma supported_modes_few l : NoDup l -> Forall supported l -> (length l <= MAX_EDID_MODES)%nat.
Proof.
  intros Hn Hs. etrans; [apply (submseteq_length l TIMINGS.*1), NoDup_submseteq; [done|]|vm_compute; lia].
  intros m Hm. apply supported_timings. rewrite Forall_forall in Hs. by apply Hs.
Qed.

(** All supported modes are taken over, if 640x480 is among them: the EDID has
    room for every timing there is. *)
Lemma select_initial_modes_spec c :
  let ms := supported_modes [] (modes c) in
  match select_initial_modes c with
  | Ok selected => selected = ms /\ modes_ok ms
  | Err e => mode_640x480 ∉ ms /\ (e = NoSupportedMode \/ e = PrepareMissingRequired640x480)
  | Panic => False
  end.
Proof.
  intros ms. destruct (supported_modes_spec [] (modes c)) as (Hn & Hs & _); [constructor|constructor|].
  fold ms in Hn, Hs. pose proof (supported_modes_few ms Hn Hs) as Hlen.
  unfold select_initial_modes. fold ms. cbv zeta. case_bool_decide as He; cbn [obind reject].
  { rewrite He. split; [apply not_elem_of_nil|by left]. }
  replace (EdidMode_new 640 480 60000) with (Ok (E:=CastDisplayEdidError) mode_640x480) by by vm_compute.
  cbn [obind]. destruct (bool_decide (mode_640x480 ∈ ms)) eqn:Hin; cbn [obind reject negb].
  - rewrite take_ge by done. rewrite Hin. apply bool_decide_eq_true in Hin. split; [done|]. by split_and!.
  - apply bool_decide_eq_false in Hin. split; [done|by right].
Qed.

(** ** The manufacturer *)

Lemma parse_pnp_ok value i : PnpId_parse value = Ok i -> pnp_ok i.
Proof.
  unfold PnpId_parse. cbv zeta. rewrite !reject_seq_ok, !negb_false_iff, Nat.eqb_eq, forallb_Forall.
  intros (Hl & Hu & [= <-]). split; [done|]. eapply Forall_impl; [exact Hu|].
  intros b Hb. unfold Identity.is_ascii_uppercase in Hb. apply andb_true_iff in Hb as [H1 H2]. breflect. lia.
Qed.

Lemma parse_lines_ids number lines names names' :
  parse_lines number lines names = Ok names' ->
  (forall i, is_Some (names !! i) -> pnp_ok i) -> forall i, is_Some (names' !! i) -> pnp_ok i.
Proof.
  revert number names. induction lines as [|l lines IH]; intros number names; cbn [parse_lines].
  { by intros [= <-]. }
  cbv zeta. case_match; [apply IH|]. intros H0. apply obind_ok in H0 as ([raw_id raw_name] & _ & H0).
  destruct (PnpId_parse raw_id) as [i| |] eqn:Ei; [|by apply (IH _ _ H0)..].
  rewrite !reject_seq_ok in H0. destruct H0 as (_ & _ & _ & H0). intros Hn. apply (IH _ _ H0).
  intros j. destruct (decide (j = i)) as [->|Hj]; [intros _; by apply (parse_pnp_ok raw_id)|].
  rewrite lookup_insert_ne by done. apply Hn.
Qed.

Section Resolver.
Context `{U : Unicode} (db : list Z) (alias_list : list PnpAlias) (fallback : PnpId) (r : PnpIdResolver).
Hypothesis Hdb : from_database db alias_list fallback = Ok r.
Hypothesis Hfallback : pnp_ok fallback.
Hypothesis Haliases : Forall (fun a => pnp_ok (al_pnp_id a)) alias_list.

Lemma names_ids i : is_Some (names_by_id r !! i) -> pnp_ok i.
Proof.
  pose proof Hdb as Hr. unfold from_database in Hr. rewrite reject_seq_ok in Hr. destruct Hr as [_ Hr].
  apply obind_ok in Hr as (names & Hl & Hr). rewrite reject_seq_ok in Hr. destruct Hr as [_ Hr].
  apply obind_ok in Hr as ([exact legal] & _ & Hr). apply obind_ok in Hr as (reviewed & _ & [= <-]). simpl.
  apply (parse_lines_ids _ _ _ _ Hl). intros j [x Hx]. by rewrite lookup_empty in Hx.
Qed.

Lemma candidates_ok ids source :
  ids <> ∅ -> (forall i, i ∈ ids -> is_Some (names_by_id r !! i)) ->
  exists res, resolution_from_candidates r ids source = Ok res /\ pnp_ok (rp_pnp_id res).
Proof.
  intros Hne Hids. destruct (candidates_least r ids source (fun i => i ∈ ids) Hne) as (i & -> & Hi & _); [done|].
  eexists. split; [done|]. by apply names_ids, Hids.
Qed.

(** A resolver answers, with a PNP ID, whatever valid identity it is given. *)
Lemma resolve_ok d :
  identity_ok d ->
  exists res, resolve r (BackendProtocol.pnp_id d) (manufacturer_name d) = Ok res /\ pnp_ok (rp_pnp_id res).
Proof.
  intros (_ & _ & Hp). destruct (from_database_ok _ _ _ _ Hdb) as (Hfb & He & Hl & HE & HL & HA & _).
  unfold resolve. destruct (BackendProtocol.pnp_id d) as [value|].
  { destruct Hp as (Hlen & Hup & _). assert (PnpId_parse value = Ok (utf8 value)) as E.
    - unfold PnpId_parse. cbv zeta. unfold str_len in Hlen. rewrite Hlen. cbn [negb Nat.eqb reject obind].
      rewrite (proj2 (forallb_Forall _ _)); [done|]. eapply Forall_impl; [exact Hup|].
      intros b Hb. simpl in Hb. unfold Identity.is_ascii_uppercase. apply andb_true_iff. lia.
    - rewrite E. eexists. split; [done|]. by apply (parse_pnp_ok value). }
  assert (pnp_ok (rp_pnp_id (resolver_fallback r))) as Hf by (cbn; by rewrite Hfb).
  destruct (manufacturer_name d) as [name|]; [|by eauto]. fold (exact_key name).
  case_bool_decide; [by eauto|]. fold (legal_key name).
  pose proof (holders_lookup _ (exact_key name) He) as Hle.
  destruct (exact_ids_by_name r !! exact_key name) as [ids|].
  { destruct Hle as [Hne Hh]. apply candidates_ok; [done|]. intros i Hi. rewrite <- Hh in Hi.
    apply HE in Hi as (n & Hi & _). by exists n. }
  pose proof (holders_lookup _ (legal_key name) Hl) as Hll.
  destruct (legal_ids_by_name r !! legal_key name) as [ids|].
  { destruct Hll as [Hne Hh]. apply candidates_ok; [done|]. intros i Hi. rewrite <- Hh in Hi.
    apply HL in Hi as (n & Hi & _). by exists n. }
  destruct (aliases r !! legal_key name) as [i|] eqn:Ea; [|by eauto].
  eexists. split; [done|]. apply HA in Ea as (a & Ha & _ & <-). rewrite Forall_forall in Haliases. by apply Haliases.
Qed.
End Resolver.

(** ** Validators do not panic *)

Lemma total_each {T} (check : T -> BackendProtocol.checked) values :
  (forall v, total (check v)) -> total (validate_each check values).
Proof. intros Hc. induction values as [|v values IH]; [done|]. apply total_bind; [done|]. by intros _. Qed.

Lemma total_unique {T K} `{EqDecision K} (identifier : T -> K) error seen values :
  total (unique_by identifier error seen values).
Proof.
  revert seen. induction values as [|v values IH]; intros seen; [done|].
  apply total_bind; [apply total_reject|]. intros _. apply IH.
Qed.

Lemma total_metadata keys es : total (validate_metadata keys es).
Proof.
  revert keys. induction es as [|e es IH]; intros keys; [done|].
  do 2 (apply total_bind; [repeat (apply total_bind; [apply total_reject|]; intros _); apply total_reject|]; intros _).
  apply total_bind; [apply total_reject|]. intros _. apply IH.
Qed.

Ltac totality :=
  repeat first
    [ done | apply total_reject | apply total_metadata | apply total_unique
    | apply total_each; intros ? | apply total_distinct; intros ? | apply total_bind; [|intros ?]
    | case_match ].

Lemma total_device d : total (validate_device d).
Proof. totality. Qed.

Lemma total_capabilities c : total (validate_capabilities c).
Proof.
  unfold validate_capabilities, validate_display_identity, validate_sourced_identity, validate_video_profile,
    validate_audio_profile, validate_display_mode. cbv zeta. totality.
Qed.

Lemma reject_panic {E} (c : bool) (e : E) : reject c e <> Panic.
Proof. by destruct c. Qed.

Lemma reject_seq_panic {E A} (c : bool) (e : E) (k : outcome E A) :
  obind (reject c e) (fun _ => k) = Panic -> k = Panic.
Proof. by destruct c. Qed.

(** ** What makes a device preparable *)

Definition usable_source (value : option (list Z)) (source : IdentitySource) : Prop :=
  is_Some value -> trusted_source source = true.

Definition preparable (d : DeviceInfo) (c : DeviceCapabilities) : Prop :=
  device_ok d /\ d_availability d = Available /\ capabilities_ok c /\
  usable_source (manufacturer_name (display_identity c)) (manufacturer_source (display_identity c)) /\
  usable_source (product_name (display_identity c)) (product_source (display_identity c)) /\
  mode_640x480 ∈ edid_mode <$> modes c.

Lemma usable_source_iff field value source :
  require_usable_identity_source field value source = Ok tt <-> usable_source value source.
Proof.
  unfold require_usable_identity_source, usable_source. rewrite reject_ok, andb_false_iff.
  rewrite bool_decide_eq_false, negb_false_iff. fold (trusted_source source).
  destruct value; naive_solver.
Qed.

Lemma required_supported c :
  mode_640x480 ∈ supported_modes [] (modes c) <-> mode_640x480 ∈ edid_mode <$> modes c.
Proof.
  destruct (supported_modes_spec [] (modes c)) as (_ & _ & ->); [constructor|constructor|].
  assert (supported mode_640x480) by by eexists. pose proof (not_elem_of_nil mode_640x480). tauto.
Qed.

Section Prepared.
Context `{U : Unicode} `{S : Sha256}.

Lemma request_accepted d c id name product audio control ms :
  device_ok d -> identity_ok (display_identity c) -> modes_ok ms ->
  request_ok
    {| rq_pnp_id := id; rq_manufacturer_name := manufacturer_name (display_identity c);
       rq_product_name := match product with Some p => edid_safe_product_name p | None => None end;
       rq_display_name := edid_safe_product_name name; rq_backend_id := d_backend_id d;
       rq_device_id := d_device_id d; rq_modes := ms; rq_audio := audio;
       rq_cec_physical_address := if (control : bool) then Some 0x1000 else None |}.
Proof.
  intros Hd Hi Hm. unfold request_ok. cbn. unfold device_ok in Hd. split_and!.
  - rewrite stable_id_accepts; [done|]. apply Hd.
  - rewrite stable_id_accepts; [done|]. apply Hd.
  - eapply manufacturer_accepts. apply Hi.
  - destruct product; [apply safe_name_accepts|done].
  - apply safe_name_accepts.
  - done.
  - by destruct control.
Qed.

Definition assemble (i : EdidNumericIdentity) (name : option (list Z)) (ms : list EdidMode) (audio : bool)
    (cec : option Z) : outcome CastDisplayEdidError (list Z) :=
  let? blocks := build_blocks i name ms audio cec in
  let? blocks := set_block_checksums blocks in
  omap_err Framing (ValidatedEdid_new (concat blocks)).

Lemma build_inv rq g :
  build_cast_display_edid rq = Ok g ->
  ge_modes g = rq_modes rq /\ ge_audio g = rq_audio rq /\
  ge_cec_physical_address g = rq_cec_physical_address rq /\
  (exists mn pn, validate_manufacturer_name (rq_manufacturer_name rq) = Ok mn /\
     validate_product_name (rq_product_name rq) = Ok pn /\
     numeric_identity (rq_pnp_id rq) mn pn (rq_backend_id rq) (rq_device_id rq) = Ok (ge_identity g)) /\
  assemble (ge_identity g) (ge_display_name g) (ge_modes g) (ge_audio g) (ge_cec_physical_address g) = Ok (ge_edid g).
Proof.
  unfold build_cast_display_edid, assemble. intros Hb.
  apply seq_ok in Hb as [_ Hb]. apply seq_ok in Hb as [_ Hb]. apply obind_ok in Hb as (mn & Hmn & Hb).
  apply obind_ok in Hb as (pn & Hpn & Hb). apply obind_ok in Hb as (dn & _ & Hb). apply seq_ok in Hb as [_ Hb].
  apply seq_ok in Hb as [_ Hb]. apply obind_ok in Hb as (i & Hi & Hb).
  apply obind_ok in Hb as (bs & H1 & Hb). apply obind_ok in Hb as (ss & H2 & Hb).
  apply obind_ok in Hb as (e & H3 & [= <-]). simpl. rewrite H1. cbn [obind]. rewrite H2. cbn [obind]. rewrite H3. eauto 10.
Qed.

Lemma same_configuration g g' :
  has_same_monitor_configuration g g' = true <->
  ge_identity g = ge_identity g' /\ ge_modes g = ge_modes g' /\ ge_audio g = ge_audio g' /\
  ge_cec_physical_address g = ge_cec_physical_address g'.
Proof.
  unfold has_same_monitor_configuration. rewrite !andb_true_iff, !bool_decide_eq_true, eqb_true_iff. tauto.
Qed.

(** The bytes are a function of what is reported with them. *)
Lemma build_bytes rq rq' g g' :
  build_cast_display_edid rq = Ok g -> build_cast_display_edid rq' = Ok g' ->
  has_same_monitor_configuration g g' = true -> ge_display_name g = ge_display_name g' ->
  ge_edid g = ge_edid g'.
Proof.
  intros (_ & _ & _ & _ & Ha)%build_inv (_ & _ & _ & _ & Ha')%build_inv (E1 & E2 & E3 & E4)%same_configuration E5.
  rewrite E1, E2, E3, E4, E5, Ha' in Ha. by apply ok_inj in Ha.
Qed.

(** The configuration is a function of the request without the display name. *)
Lemma build_configuration rq rq' g g' :
  build_cast_display_edid rq = Ok g -> build_cast_display_edid rq' = Ok g' ->
  rq_pnp_id rq = rq_pnp_id rq' -> rq_manufacturer_name rq = rq_manufacturer_name rq' ->
  rq_product_name rq = rq_product_name rq' -> rq_backend_id rq = rq_backend_id rq' ->
  rq_device_id rq = rq_device_id rq' -> rq_modes rq = rq_modes rq' -> rq_audio rq = rq_audio rq' ->
  rq_cec_physical_address rq = rq_cec_physical_address rq' ->
  has_same_monitor_configuration g g' = true.
Proof.
  intros (F1 & F2 & F3 & (mn & pn & Hmn & Hpn & Hi) & _)%build_inv
    (F1' & F2' & F3' & (mn' & pn' & Hmn' & Hpn' & Hi') & _)%build_inv E1 E2 E3 E4 E5 E6 E7 E8.
  apply same_configuration. split_and!; [|congruence..].
  assert (mn = mn') as -> by congruence. assert (pn = pn') as -> by congruence. congruence.
Qed.

(** *** Reading off a successful preparation *)

Lemma prepared_inv d c r audio p :
  from_capabilities d c r audio = Ok p ->
  device p = d /\ prepared_capabilities p = c /\ capabilities_ok c /\
  exists res ms,
    resolve r (BackendProtocol.pnp_id (display_identity c)) (manufacturer_name (display_identity c)) = Ok res /\
    select_initial_modes c = Ok ms /\
    build_cast_display_edid
      {| rq_pnp_id := rp_pnp_id res; rq_manufacturer_name := manufacturer_name (display_identity c);
         rq_product_name := match product_name (display_identity c) with
                            | Some p => edid_safe_product_name p | None => None end;
         rq_display_name := edid_safe_product_name (d_display_name d); rq_backend_id := d_backend_id d;
         rq_device_id := d_device_id d; rq_modes := ms;
         rq_audio := audio && negb (Z.land (BackendProtocol.features c) SESSION_FEATURE_AUDIO =? 0);
         rq_cec_physical_address :=
           if negb (Z.land (BackendProtocol.features c) SESSION_FEATURE_CONTROL =? 0)
           then Some 0x1000 else None |} = Ok (generated_edid p).
Proof.
  unfold from_capabilities. cbv zeta. intros Hp. apply seq_ok in Hp as [_ Hp]. rewrite reject_seq_ok in Hp.
  destruct Hp as [_ Hp]. apply seq_ok in Hp as [Hc Hp]. apply seq_ok in Hp as [_ Hp]. apply seq_ok in Hp as [_ Hp].
  apply obind_ok in Hp as (res & Hres & Hp). apply obind_ok in Hp as (ms & Hms & Hp).
  apply obind_ok in Hp as (e & He & [= <-]). simpl.
  apply omap_err_ok in Hc, Hres, He. apply validate_capabilities_iff in Hc. eauto 10.
Qed.

Lemma find_first {A K} `{EqDecision K} (f : A -> K) l x :
  head l = Some x -> List.find (fun y => bool_decide (f y = f x)) l = Some x.
Proof. destruct l; [done|]. intros [= ->]. simpl. by rewrite bool_decide_eq_true_2. Qed.

(** C23: preparing a device succeeds exactly when the device and its
    capabilities are valid, the device is available, what it says of its
    manufacturer and product comes from a trusted source, and it can show
    640x480 at 60 Hz.  Every other error it names is impossible: no manufacturer
    fails to resolve, no EDID request that passed the protocol's validation is
    refused by the EDID builder, and nothing panics.  The monitor then has
    exactly the modes the device advertised that have a timing, and an EDID in
    the kernel's framing. *)
Theorem preparation_exact db alias_list fallback r d c audio :
  sha256_ok -> from_database db alias_list fallback = Ok r -> pnp_ok fallback ->
  Forall (fun a => pnp_ok (al_pnp_id a)) alias_list ->
  match from_capabilities d c r audio with
  | Ok p =>
      preparable d c /\ device p = d /\ prepared_capabilities p = c /\
      (forall m, m ∈ ge_modes (generated_edid p) <-> supported m /\ m ∈ edid_mode <$> modes c) /\
      edid_framed (ge_edid (generated_edid p))
  | Err e => ~ preparable d c /\ (forall x, e <> Pnp x) /\ (forall x, e <> EdidError x)
  | Panic => False
  end.
Proof.
  intros Hsha Hdb Hfb Hal. unfold from_capabilities, preparable. cbv zeta.
  destruct (validate_device d) as [[]|e|] eqn:Ed; cbn [omap_err obind].
  2: { split; [|done]. intros (Hd & _). apply validate_device_iff in Hd. congruence. }
  2: { pose proof (total_device d) as Ht. by rewrite Ed in Ht. }
  apply validate_device_iff in Ed. case_bool_decide as Hav; cbn [negb reject obind]; [|split; [tauto|done]].
  destruct (validate_capabilities c) as [[]|e|] eqn:Ec; cbn [omap_err obind].
  2: { split; [|done]. intros (_ & _ & Hc & _). apply validate_capabilities_iff in Hc. congruence. }
  2: { pose proof (total_capabilities c) as Ht. by rewrite Ec in Ht. }
  apply validate_capabilities_iff in Ec. pose proof Ec as (_ & Hid & _).
  pose proof (usable_source_iff "manufacturer" (manufacturer_name (display_identity c))
                (manufacturer_source (display_identity c))) as Hmu.
  destruct (require_usable_identity_source "manufacturer" _ _) as [[]|e|] eqn:Em; cbn [obind]; cycle 1.
  { unfold require_usable_identity_source, reject in Em. case_match; [|done]. injection Em as <-.
    split; [|done]. intros (_ & _ & _ & Hx & _). by apply Hmu in Hx. }
  { by apply reject_panic in Em. }
  pose proof (usable_source_iff "product" (product_name (display_identity c))
                (product_source (display_identity c))) as Hpu.
  destruct (require_usable_identity_source "product" _ _) as [[]|e|] eqn:Ep; cbn [obind]; cycle 1.
  { unfold require_usable_identity_source, reject in Ep. case_match; [|done]. injection Ep as <-.
    split; [|done]. intros (_ & _ & _ & _ & Hx & _). by apply Hpu in Hx. }
  { by apply reject_panic in Ep. }
  destruct (resolve_ok db alias_list fallback r Hdb Hfb Hal (display_identity c) Hid) as (res & -> & Hres).
  cbn [omap_err obind]. pose proof (select_initial_modes_spec c) as Hsel. cbv zeta in Hsel.
  pose proof (required_supported c) as Hreq.
  destruct (select_initial_modes c) as [ms|e|]; cbn [obind]; [|split; [tauto|by destruct Hsel as [_ [-> | ->]]]|done].
  destruct Hsel as [-> Hms].
  match goal with |- context [build_cast_display_edid ?rq] =>
    destruct (build_ok rq Hsha Hres) as (g & -> & Hb & Hf); [by apply request_accepted|] end.
  cbn [omap_err obind device prepared_capabilities generated_edid]. split_and!; try done.
  - by apply Hmu.
  - by apply Hpu.
  - apply Hreq. apply Hms.
  - intros m. rewrite (proj1 (built_fields _ _ Hb)). cbn [rq_modes].
    destruct (supported_modes_spec [] (modes c)) as (_ & _ & ->); [constructor|constructor|].
    pose proof (not_elem_of_nil m). tauto.
Qed.

(** Replacing a device's session in place is safe for the attached monitor:
    comparing two preparations never panics; when it accepts the replacement,
    both are of the same device, the monitor's identity, modes, audio and
    control address are unchanged, and so is every byte of the EDID unless the
    device was given another name; and the replacement still offers the
    selected profiles unchanged.  A second preparation of the same device from
    the same capabilities is always accepted, whatever its discovery
    generations, revision, metadata and name have become. *)
Theorem recovery_keeps_monitor r d c audio p d' c' p' :
  from_capabilities d c r audio = Ok p -> from_capabilities d' c' r audio = Ok p' ->
  validate_recovery p p' <> Panic /\
  (validate_recovery p p' = Ok tt ->
     d_backend_id d = d_backend_id d' /\ d_device_id d = d_device_id d' /\
     has_same_monitor_configuration (generated_edid p) (generated_edid p') = true /\
     (ge_display_name (generated_edid p) = ge_display_name (generated_edid p') ->
      ge_edid (generated_edid p) = ge_edid (generated_edid p')) /\
     (forall v, head (video_profiles c) = Some v -> v ∈ video_profiles c') /\
     (forall a, head (audio_profiles c) = Some a -> a ∈ audio_profiles c')) /\
  (d_backend_id d = d_backend_id d' -> d_device_id d = d_device_id d' -> c = c' ->
   validate_recovery p p' = Ok tt).
Proof.
  intros (<- & <- & Hc & res & ms & Hr & Hm & Hb)%prepared_inv
    (<- & <- & Hc' & res' & ms' & Hr' & Hm' & Hb')%prepared_inv.
  assert (exists v, head (video_profiles (prepared_capabilities p)) = Some v) as [v Hv].
  { destruct Hc as (_ & _ & _ & (Hne & _) & _). destruct (video_profiles _) as [|v l]; [done|by exists v]. }
  unfold validate_recovery. rewrite Hv. cbn [expect obind].
  set (audio_check := match head (audio_profiles (prepared_capabilities p)) with Some _ => _ | None => _ end).
  assert (audio_check <> Panic) as Hap.
  { unfold audio_check. destruct (head (audio_profiles (prepared_capabilities p))); [apply reject_panic|done]. }
  split; [|split].
  - intros E. do 3 apply reject_seq_panic in E. done.
  - rewrite !reject_seq_ok, orb_false_iff, !negb_false_iff, !bool_decide_eq_true. intros ((H1 & H2) & H3 & H4 & H5).
    split_and!; [done|done|done| | |].
    + by eapply build_bytes.
    + intros v' [= <-]. apply find_some in H4 as [H4 _]. by apply list_elem_of_In.
    + intros a Ha. unfold audio_check in H5. rewrite Ha in H5. apply reject_ok in H5.
      apply negb_false_iff, bool_decide_eq_true, find_some in H5 as [H5 _]. by apply list_elem_of_In.
  - intros Hbe Hde Hcc. rewrite Hbe, Hde, !bool_decide_eq_true_2 by done. cbn [negb orb reject obind].
    rewrite <- Hcc in Hr', Hm', Hb'. assert (res = res') as <- by congruence. assert (ms = ms') as <- by congruence.
    rewrite (build_configuration _ _ _ _ Hb Hb'); try done. cbn [negb reject obind]. unfold audio_check. rewrite <- Hcc.
    rewrite bool_decide_eq_true_2 by (by apply find_first). cbn [negb reject obind].
    destruct (head (audio_profiles _)) as [a|] eqn:Ha; [|done].
    by rewrite bool_decide_eq_true_2 by (by apply find_first).
Qed.
End Prepared.

(** What the daemon offers is a valid message, and every offered mode has a
    timing. *)
Lemma offer_valid audio :
  validate_preparation_request (initial_preparation_offer audio) = Ok tt /\
  Forall supported (edid_mode <$> offered_modes).
Proof. split; [by destruct audio; vm_compute|]. repeat constructor; by eexists. Qed.

(** ** A device *)

Definition ex_resolver : PnpIdResolver :=
  match from_database (U := ascii_unicode) ex_database [] (codes "CKM") with
  | Ok r => r
  | _ => {| names_by_id := ∅; exact_ids_by_name := ∅; legal_ids_by_name := ∅; aliases := ∅;
            fallback_id := [] |}
  end.

Definition ex_tv (name : string) (revision : Z) : DeviceInfo :=
  {| d_backend_id := codes "cast"; d_device_id := codes "living-room"; d_display_name := codes name;
     d_availability := Available; d_connection_generation := 1; d_discovery_generation := 2;
     device_revision := revision; d_metadata := [] |}.

Definition ex_capabilities : DeviceCapabilities :=
  {| preparation_generation := 1;
     display_identity :=
       {| manufacturer_name := Some (codes "Google"); manufacturer_source := AuthenticatedDeviceInfo;
          product_name := Some (codes "Chromecast"); product_source := SetupEndpoint;
          BackendProtocol.pnp_id := None |};
     modes := [{| dm_width := 1920; dm_height := 1080; dm_refresh_millihz := 60000; dm_flags := 0 |};
               {| dm_width := 1919; dm_height := 1080; dm_refresh_millihz := 60000; dm_flags := 0 |};
               {| dm_width := 640; dm_height := 480; dm_refresh_millihz := 60000; dm_flags := 0 |}];
     video_profiles := pr_video_profiles (initial_preparation_offer true);
     audio_profiles := pr_audio_profiles (initial_preparation_offer true);
     BackendProtocol.features := 3 |}.

Abbreviation ex_prepare d := (from_capabilities (U := ascii_unicode) (S := constant_sha256) d ex_capabilities ex_resolver true).

Lemma preparation_exact_witness :
  exists p, ex_prepare (ex_tv "Living Room TV" 3) = Ok p /\
    preparable (ex_tv "Living Room TV" 3) ex_capabilities /\
    length (ge_modes (generated_edid p)) = 2%nat.
Proof.
  assert (pnp_ok (codes "CKM")) as Hfb by (split; [done|]; repeat constructor; done).
  pose proof (preparation_exact (U := ascii_unicode) (S := constant_sha256) ex_database [] (codes "CKM") ex_resolver
    (ex_tv "Living Room TV" 3) ex_capabilities true constant_sha256_ok eq_refl Hfb (Forall_nil_2 _)) as Hp.
  assert (is_ok (ex_prepare (ex_tv "Living Room TV" 3)) = true) as Hok by by vm_compute.
  assert (match ex_prepare (ex_tv "Living Room TV" 3) with
          | Ok p => length (ge_modes (generated_edid p)) | _ => 0%nat end = 2%nat) as Hl by by vm_compute.
  destruct (ex_prepare (ex_tv "Living Room TV" 3)) as [p| |]; [|done|done].
  exists p. split_and!; [done|apply Hp|exact Hl].
Defined.

Lemma recovery_keeps_monitor_witness :
  exists p p', ex_prepare (ex_tv "Living Room TV" 3) = Ok p /\ ex_prepare (ex_tv "Kitchen" 9) = Ok p' /\
    validate_recovery p p' = Ok tt.
Proof.
  destruct (ex_prepare (ex_tv "Living Room TV" 3)) as [p| |] eqn:E; [|by vm_compute in E..].
  destruct (ex_prepare (ex_tv "Kitchen" 9)) as [p'| |] eqn:E'; [|by vm_compute in E'..].
  exists p, p'. split_and!; [done|done|].
  apply (proj2 (proj2 (recovery_keeps_monitor (U := ascii_unicode) (S := constant_sha256) ex_resolver
    _ _ true p _ _ p' E E'))); reflexivity.
Defined.
