(* ===== verification/DisplayId.v ===== *)
(** * Cast-display identifiers (crates/pronk/src/display.rs)

    [CastDisplayId]: a random UUID of 16 bytes, printed in the canonical form
    and as an object-path segment, and parsed back.  Text is ASCII here, so its
    characters are its bytes; [getrandom] is the sequence of its results. *)

From S2P Require Import Prelude Bytes Text BackendProtocol PublicTypes.

Definition CastDisplayId := list Z.

(** ** Generation *)

Inductive getrandom_result := Filled (bytes : list Z) | Interrupted | RandomFailed (errno : Z) | NoBytes.

(** The filling loop, over the results the calls return; a call never returns
    more than it was asked for. *)
Fixpoint fill_random (filled : list Z) (calls : list getrandom_result) : option (outcome getrandom_result (list Z)) :=
  if (16 <=? length filled)%nat then Some (Ok filled)
  else
    match calls with
    | [] => None
    | Filled bytes :: calls' => fill_random (filled ++ bytes) calls'
    | Interrupted :: calls' => fill_random filled calls'
    | r :: _ => Some (Err r)
    end.

Definition set_version (bytes : list Z) : outcome getrandom_result CastDisplayId :=
  let? b6 := index bytes 6 in
  let? bytes := set_at bytes 6 (Z.lor (Z.land b6 0x0f) 0x40) in
  let? b8 := index bytes 8 in
  set_at bytes 8 (Z.lor (Z.land b8 0x3f) 0x80).

Definition generate (calls : list getrandom_result) : option (outcome getrandom_result CastDisplayId) :=
  match fill_random [] calls with
  | Some (Ok bytes) => Some (set_version bytes)
  | other => other
  end.

(** ** Printing *)

Definition object_segment (id : CastDisplayId) : list Z := concat (hex_digits 2 <$> id).

Definition display_id_text (id : CastDisplayId) : list Z :=
  object_segment (take 4 id) ++ [45] ++ object_segment (take 2 (drop 4 id)) ++ [45]
  ++ object_segment (take 2 (drop 6 id)) ++ [45] ++ object_segment (take 2 (drop 8 id)) ++ [45]
  ++ object_segment (take 6 (drop 10 id)).

(** ** Parsing *)

Definition hex_nibble (value : Z) : option Z :=
  if (48 <=? value) && (value <=? 57) then Some (value - 48)
  else if (97 <=? value) && (value <=? 102) then Some (value - 97 + 10)
  else if (65 <=? value) && (value <=? 70) then Some (value - 65 + 10)
  else None.

(** [while matches!(input, 8 | 13 | 18 | 23) { input += 1; }]: no two of these
    positions are adjacent. *)
Definition skip_dash (input : nat) : nat :=
  if bool_decide (input ∈ [8; 13; 18; 23]%nat) then S input else input.

Fixpoint parse_bytes (count : nat) (input : nat) (bytes : list Z) : outcome unit (list Z) :=
  match count with
  | O => Ok []
  | S count' =>
      let input := skip_dash input in
      let? high := index bytes input in
      let? high := ok_or (hex_nibble high) tt in
      let? low := index bytes (input + 1) in
      let? low := ok_or (hex_nibble low) tt in
      let? rest := parse_bytes count' (input + 2) bytes in
      Ok (Z.lor (Z.shiftl high 4) low :: rest)
  end.

Fixpoint require_dashes (bytes : list Z) (positions : list nat) : outcome unit unit :=
  match positions with
  | [] => Ok tt
  | i :: positions' =>
      let? b := index bytes i in
      try? reject (negb (b =? 45)) tt;
      require_dashes bytes positions'
  end.

Definition from_str (value : list Z) : outcome unit CastDisplayId :=
  let bytes := utf8 value in
  try? reject (negb (length bytes =? 36)%nat) tt;
  try? require_dashes bytes [8; 13; 18; 23]%nat;
  let? identity := parse_bytes 16 0 bytes in
  let? b6 := index identity 6 in
  let? b8 := index identity 8 in
  try? reject (negb (Z.shiftr b6 4 =? 4) || negb (Z.shiftr b8 6 =? 2)) tt;
  Ok identity.

(** ** Round trips *)

(** What [generate] makes: 16 bytes, version 4, variant 10. *)
Definition display_id_ok (id : CastDisplayId) : Prop :=
  length id = 16%nat /\ bytes_ok id /\
  exists b6 b8, id !! 6%nat = Some b6 /\ id !! 8%nat = Some b8 /\ Z.shiftr b6 4 = 4 /\ Z.shiftr b8 6 = 2.

(** Facts about bytes, by trying them all. *)
Lemma all_bytes (P : Z -> bool) :
  forallb P (Z.of_nat <$> seq 0 256) = true -> forall b, 0 <= b < 256 -> P b = true.
Proof.
  intros Hall b Hb. rewrite forallb_forall in Hall. apply Hall. apply list_elem_of_In, list_elem_of_fmap.
  exists (Z.to_nat b). split; [lia|]. apply elem_of_seq. lia.
Qed.

Lemma version_byte b : 0 <= b < 256 -> let v := Z.lor (Z.land b 0x0f) 0x40 in 0 <= v < 256 /\ Z.shiftr v 4 = 4.
Proof.
  intros Hb. pose proof (all_bytes (fun b => let v := Z.lor (Z.land b 0x0f) 0x40 in
    (0 <=? v) && (v <? 256) && (Z.shiftr v 4 =? 4)) eq_refl b Hb) as H0. cbv beta zeta in *. breflect. by split_and!.
Qed.

Lemma variant_byte b : 0 <= b < 256 -> let v := Z.lor (Z.land b 0x3f) 0x80 in 0 <= v < 256 /\ Z.shiftr v 6 = 2.
Proof.
  intros Hb. pose proof (all_bytes (fun b => let v := Z.lor (Z.land b 0x3f) 0x80 in
    (0 <=? v) && (v <? 256) && (Z.shiftr v 6 =? 2)) eq_refl b Hb) as H0. cbv beta zeta in *. breflect. by split_and!.
Qed.

Lemma set_version_ok bytes :
  length bytes = 16%nat -> bytes_ok bytes -> exists id, set_version bytes = Ok id /\ display_id_ok id.
Proof.
  intros Hl Hb. do 16 (destruct bytes as [|? bytes]; [discriminate Hl|]). destruct bytes; [|discriminate Hl].
  clear Hl. unfold set_version. cbn. eexists. split; [done|]. split; [done|].
  rewrite !Forall_cons in Hb. unfold uint in *. change (2 ^ 8) with 256 in *.
  destruct Hb as (? & ? & ? & ? & ? & ? & H6 & ? & H8 & ? & ? & ? & ? & ? & ? & ? & ?).
  destruct (version_byte _ H6) as [? E6], (variant_byte _ H8) as [? E8]. split; [by rewrite !Forall_cons|].
  do 2 eexists. by split_and!.
Qed.

Definition high (b : Z) : Z := (b / 16) mod 16.
Definition low (b : Z) : Z := b mod 16.

Lemma hex_byte b :
  0 <= b < 256 ->
  hex_digits 2 b = [hex_digit (high b); hex_digit (low b)] /\
  hex_nibble (hex_digit (high b)) = Some (high b) /\ hex_nibble (hex_digit (low b)) = Some (low b) /\
  Z.lor (Z.shiftl (high b) 4) (low b) = b.
Proof.
  intros Hb. split; [done|].
  pose proof (all_bytes (fun b => bool_decide (hex_nibble (hex_digit (high b)) = Some (high b)) &&
    bool_decide (hex_nibble (hex_digit (low b)) = Some (low b)) &&
    (Z.lor (Z.shiftl (high b) 4) (low b) =? b)) eq_refl b Hb) as H0. cbv beta in H0. breflect. by split_and!.
Qed.

Lemma utf8_of_ascii s : Forall (fun c => 0 <= c < 128) s -> utf8 s = s.
Proof.
  induction 1 as [|c s Hc Hs IH]; [done|]. rewrite utf8_cons, IH. unfold utf8_char.
  by rewrite (proj2 (Z.ltb_lt c 0x80)) by lia.
Qed.

Lemma hex_digit_ascii n : 0 <= n < 16 -> 0 <= hex_digit n < 128.
Proof. unfold hex_digit. case_match; lia. Qed.

Lemma object_segment_ascii id : bytes_ok id -> Forall (fun c => 0 <= c < 128) (object_segment id).
Proof.
  intros Hb. unfold object_segment. induction Hb as [|b id Hb Hid IH]; [constructor|]. cbn [fmap list_fmap concat].
  unfold uint in Hb. change (2 ^ 8) with 256 in Hb. destruct (hex_byte b Hb) as [-> _]. simpl. unfold high, low.
  rewrite !Forall_cons. split_and!; [apply hex_digit_ascii; apply Z.mod_pos_bound; lia..|done].
Qed.

Lemma display_id_ascii id : bytes_ok id -> Forall (fun c => 0 <= c < 128) (display_id_text id).
Proof.
  intros Hb. unfold display_id_text.
  repeat (apply Forall_app; split); try (by apply Forall_singleton);
    apply object_segment_ascii; auto using Forall_take, Forall_drop.
Qed.

Lemma parse_step count input bytes b :
  0 <= b < 256 -> bytes !! skip_dash input = Some (hex_digit (high b)) ->
  bytes !! (skip_dash input + 1)%nat = Some (hex_digit (low b)) ->
  parse_bytes (S count) input bytes =
  (let? rest := parse_bytes count (skip_dash input + 2) bytes in Ok (b :: rest)).
Proof.
  intros Hb Hh Hl. destruct (hex_byte b Hb) as (_ & Eh & El & E). cbn [parse_bytes]. cbv zeta. unfold index.
  rewrite Hh. cbn [expect obind]. rewrite Eh. cbn [ok_or obind]. rewrite Hl. cbn [expect obind]. rewrite El.
  cbn [ok_or obind]. by rewrite E.
Qed.

Lemma parse_segment seg n l pre post :
  l = pre ++ object_segment seg ++ post -> bytes_ok seg ->
  (forall i, (i < length seg)%nat -> skip_dash (length pre + 2 * i) = (length pre + 2 * i)%nat) ->
  parse_bytes (length seg + n) (length pre) l =
  (let? rest := parse_bytes n (length pre + 2 * length seg) l in Ok (seg ++ rest)).
Proof.
  revert pre. induction seg as [|b seg IH]; intros pre Hl Hb Hi.
  { simpl. rewrite !Nat.add_0_r. by destruct (parse_bytes n (length pre) l). }
  apply Forall_cons in Hb as [Hb Hseg]. unfold uint in Hb. change (2 ^ 8) with 256 in Hb.
  destruct (hex_byte b Hb) as [Eb _].
  assert (l = (pre ++ hex_digits 2 b) ++ object_segment seg ++ post) as Hl' by
    (rewrite Hl; unfold object_segment; cbn [fmap list_fmap concat]; by rewrite <- !app_assoc).
  specialize (Hi O) as H0. rewrite Nat.mul_0_r, Nat.add_0_r in H0. cbn [length Nat.add].
  assert (l = pre ++ hex_digit (high b) :: hex_digit (low b) :: object_segment seg ++ post) as Hsplit.
  { rewrite Hl', Eb. by rewrite <- app_assoc. }
  rewrite (parse_step _ _ _ b); [|done| |]; rewrite H0 by (simpl; lia).
  - replace (length pre + 2)%nat with (length (pre ++ hex_digits 2 b)) by (rewrite length_app, Eb; done).
    rewrite (IH (pre ++ hex_digits 2 b)); [|done|done|].
    + rewrite length_app, Eb. cbn [length].
      replace (length pre + 2 + 2 * length seg)%nat with (length pre + 2 * S (length seg))%nat by lia.
      by destruct (parse_bytes n _ l).
    + intros i Hi'. rewrite length_app, Eb. cbn [length]. specialize (Hi (S i)). cbn [length] in Hi.
      replace (length pre + 2 + 2 * i)%nat with (length pre + 2 * S i)%nat by lia. apply Hi. lia.
  - rewrite Hsplit. by apply list_lookup_middle.
  - rewrite Hsplit, lookup_app_r by lia. by replace (length pre + 1 - length pre)%nat with 1%nat by lia.
Qed.

Lemma length_segment seg : length (object_segment seg) = (2 * length seg)%nat.
Proof. unfold object_segment. induction seg as [|b seg IH]; [done|]. cbn [fmap list_fmap concat]. rewrite length_app, IH. simpl. lia. Qed.

Lemma parse_dash n input l : input ∈ [8; 13; 18; 23]%nat -> parse_bytes (S n) input l = parse_bytes (S n) (S input) l.
Proof.
  intros Hi. assert (skip_dash input = S input /\ skip_dash (S input) = S input) as [E1 E2].
  { repeat (apply elem_of_cons in Hi as [->|Hi]; [by vm_compute|]). by apply not_elem_of_nil in Hi. }
  cbn [parse_bytes]. by rewrite E1, E2.
Qed.

(** Groups of bytes with dashes between them. *)
Fixpoint dashed (groups : list (list Z)) : list Z :=
  match groups with
  | [] => []
  | [g] => object_segment g
  | g :: groups' => object_segment g ++ [45] ++ dashed groups'
  end.

(** The dashes are where the parser skips, and only they. *)
Fixpoint aligned (position : nat) (sizes : list nat) : bool :=
  match sizes with
  | [] => true
  | n :: sizes' =>
      forallb (fun i => bool_decide (skip_dash (position + 2 * i) = position + 2 * i)%nat) (seq 0 n)
      && match sizes' with
         | [] => true
         | m :: _ => bool_decide (position + 2 * n ∈ [8; 13; 18; 23])%nat && bool_decide (m <> 0)%nat
                     && aligned (S (position + 2 * n)) sizes'
         end
  end.

Lemma parse_groups groups l pre :
  l = pre ++ dashed groups -> Forall bytes_ok groups -> aligned (length pre) (length <$> groups) = true ->
  parse_bytes (sum_list (length <$> groups)) (length pre) l = Ok (concat groups).
Proof.
  revert pre. induction groups as [|g groups IH]; intros pre Hl Hok Ha; [done|].
  apply Forall_cons in Hok as [Hg Hok]. rewrite fmap_cons in Ha |- *. cbn [aligned] in Ha.
  apply andb_true_iff in Ha as [Hskip Ha]. rewrite forallb_forall in Hskip.
  assert (exists post, l = pre ++ object_segment g ++ post) as [post Hpost].
  { destruct groups; cbn [dashed] in Hl; [exists []; by rewrite app_nil_r|by eexists]. }
  cbn [sum_list_with id concat]. rewrite (parse_segment g _ l pre post Hpost Hg).
  2: { intros i Hi. apply (bool_decide_eq_true_1 _), Hskip, in_seq. lia. }
  destruct groups as [|h groups]; [cbn; by rewrite app_nil_r|]. rewrite fmap_cons in Ha |- *.
  apply andb_true_iff in Ha as [Ha Haligned]. apply andb_true_iff in Ha as [Hdash Hm].
  apply bool_decide_eq_true in Hdash, Hm.
  assert (S (length pre + 2 * length g) = length (pre ++ object_segment g ++ [45])) as Epos
    by (rewrite !length_app, length_segment; simpl; lia).
  destruct (sum_list (length h :: (length <$> groups))) as [|n] eqn:En; [simpl in En; lia|].
  rewrite parse_dash by done. rewrite <- En, Epos. change (length h :: (length <$> groups)) with (length <$> h :: groups).
  rewrite (IH (pre ++ object_segment g ++ [45])); [done| |done|by rewrite <- Epos].
  rewrite Hl. cbn [dashed]. by rewrite <- !app_assoc.
Qed.

Lemma from_str_text id : display_id_ok id -> from_str (display_id_text id) = Ok id.
Proof.
  intros (Hl & Hb & b6 & b8 & H6 & H8 & E6 & E8). unfold from_str. cbv zeta.
  rewrite (utf8_of_ascii (display_id_text id)) by by apply display_id_ascii.
  pose proof (parse_groups [take 4 id; take 2 (drop 4 id); take 2 (drop 6 id); take 2 (drop 8 id); take 6 (drop 10 id)]
                (display_id_text id) [] eq_refl) as Hp.
  do 16 (destruct id as [|? id]; [discriminate Hl|]). destruct id; [|discriminate Hl]. clear Hl.
  set (text := display_id_text _) in *. assert (length text = 36%nat) as -> by done. cbn [Nat.eqb negb reject obind].
  assert (require_dashes text [8; 13; 18; 23]%nat = Ok tt) as -> by done. cbn [obind].
  eassert (parse_bytes 16 0 text = Ok _) as ->.
  { apply Hp; [|by vm_compute]. repeat (constructor; [auto using Forall_take, Forall_drop|]). constructor. }
  unfold index. cbn in H6, H8 |- *. injection H6 as ->. injection H8 as ->. by rewrite E6, E8.
Qed.

(** ** The public validator *)

Lemma hex_digit_is_hex b : 0 <= b < 256 ->
  is_hex (hex_digit (high b)) = true /\ is_hex (hex_digit (low b)) = true.
Proof.
  intros Hb. pose proof (all_bytes (fun b => is_hex (hex_digit (high b)) && is_hex (hex_digit (low b))) eq_refl b Hb) as H0.
  cbv beta in H0. by breflect.
Qed.

Lemma version_digit b : 0 <= b < 256 -> Z.shiftr b 4 = 4 -> hex_digit (high b) = 52.
Proof.
  intros Hb E. pose proof (all_bytes (fun b => negb (Z.shiftr b 4 =? 4) || (hex_digit (high b) =? 52)) eq_refl b Hb) as H0.
  cbv beta in H0. rewrite E in H0. simpl in H0. by breflect.
Qed.

Lemma variant_digit b : 0 <= b < 256 -> Z.shiftr b 6 = 2 -> hex_digit (high b) ∈ [56; 57; 97; 98; 65; 66].
Proof.
  intros Hb E. pose proof (all_bytes (fun b => negb (Z.shiftr b 6 =? 2) ||
    bool_decide (hex_digit (high b) ∈ [56; 57; 97; 98; 65; 66])) eq_refl b Hb) as H0.
  cbv beta in H0. rewrite E in H0. simpl in H0. by breflect.
Qed.

Lemma outside_segment index seg rest :
  bytes_ok seg -> hex_outside_dashes (index + 2 * length seg) rest = true ->
  hex_outside_dashes index (object_segment seg ++ rest) = true.
Proof.
  intros Hs. revert index. induction Hs as [|b seg Hb Hs IH]; intros index Hr.
  { simpl in *. by rewrite Nat.add_0_r in Hr. }
  unfold uint in Hb. change (2 ^ 8) with 256 in Hb. destruct (hex_digit_is_hex b Hb) as [Hh Hlo].
  destruct (hex_byte b Hb) as [Eb _]. unfold object_segment in *. cbn [fmap list_fmap concat]. rewrite Eb. simpl.
  rewrite Hh, Hlo, !orb_true_r. simpl. apply IH. by replace (S (S index) + 2 * length seg)%nat with (index + 2 * S (length seg))%nat by lia.
Qed.

Lemma outside_dash index rest :
  index ∈ [8; 13; 18; 23]%nat -> hex_outside_dashes (S index) rest = true ->
  hex_outside_dashes index ([45] ++ rest) = true.
Proof. intros Hi Hr. cbn [app hex_outside_dashes]. by rewrite bool_decide_eq_true_2, Hr. Qed.

Lemma display_id_validates id : display_id_ok id -> validate_display_id (display_id_text id) = Ok tt.
Proof.
  intros (Hl & Hb & b6 & b8 & H6 & H8 & E6 & E8). unfold validate_display_id. cbv zeta.
  rewrite (utf8_of_ascii (display_id_text id)) by by apply display_id_ascii.
  assert (hex_outside_dashes 0 (display_id_text id) = true) as Hhex.
  { unfold display_id_text.
    do 4 (apply outside_segment; [auto using Forall_take, Forall_drop|]; apply outside_dash;
      [rewrite length_take, ?length_drop, Hl; apply (bool_decide_eq_true_1 _); by vm_compute|]; rewrite ?length_take, ?length_drop, Hl; cbn [Nat.min Nat.sub Nat.mul Nat.add]).
    rewrite <- (app_nil_r (object_segment _)). apply outside_segment; [auto using Forall_take, Forall_drop|done]. }
  rewrite Hhex. pose proof (Forall_lookup_1 _ _ _ _ Hb H6) as Hr6. pose proof (Forall_lookup_1 _ _ _ _ Hb H8) as Hr8.
  unfold uint in Hr6, Hr8. change (2 ^ 8) with 256 in *.
  pose proof (version_digit b6 Hr6 E6) as D6. pose proof (variant_digit b8 Hr8 E8) as D8. clear Hhex Hb Hr6 Hr8 E6 E8.
  do 16 (destruct id as [|? id]; [discriminate Hl|]). destruct id; [|discriminate Hl]. clear Hl.
  cbn in H6, H8. injection H6 as ->. injection H8 as ->. unfold high in D6, D8. cbn. rewrite D6.
  by rewrite bool_decide_eq_true_2.
Qed.

(** ** Where identifiers come from *)

Lemma parse_bytes_ok n input l bs : parse_bytes n input l = Ok bs -> length bs = n /\ bytes_ok bs.
Proof.
  revert input bs. induction n as [|n IH]; intros input bs; cbn [parse_bytes]; [intros [= <-]; by split|].
  intros H0. apply obind_ok in H0 as (ch & _ & H0). apply obind_ok in H0 as (h & Hh & H0).
  apply obind_ok in H0 as (cl & _ & H0). apply obind_ok in H0 as (lo & Hlo & H0).
  apply obind_ok in H0 as (rest & Hr & [= <-]). apply IH in Hr as [<- Hr]. split; [done|]. constructor; [|done].
  assert (forall c v, ok_or (hex_nibble c) tt = Ok v -> 0 <= v < 16) as Hn.
  { intros c v. unfold hex_nibble. repeat case_match; intros [= <-]; breflect; lia. }
  apply Hn in Hh, Hlo. pose proof (all_bytes (fun x =>
    let v := Z.lor (Z.shiftl (x / 16) 4) (x mod 16) in (0 <=? v) && (v <? 256)) eq_refl (h * 16 + lo)) as Hv.
  cbv beta zeta in Hv. replace ((h * 16 + lo) / 16) with h in Hv by (apply Z.div_unique_pos with lo; lia).
  replace ((h * 16 + lo) mod 16) with lo in Hv by (apply Z.mod_unique_pos with h; lia).
  specialize (Hv ltac:(lia)). breflect. by split.
Qed.

Lemma from_str_ok s id : from_str s = Ok id -> display_id_ok id.
Proof.
  unfold from_str. cbv zeta. rewrite reject_seq_ok. intros [_ H0]. apply seq_ok in H0 as [_ H0].
  apply obind_ok in H0 as (bs & Hp & H0). apply obind_ok in H0 as (b6 & H6 & H0). apply obind_ok in H0 as (b8 & H8 & H0).
  rewrite reject_seq_ok, orb_false_iff, !negb_false_iff, !Z.eqb_eq in H0. destruct H0 as [[E6 E8] [= <-]].
  apply parse_bytes_ok in Hp as [Hl Hb]. split; [done|]. split; [done|]. exists b6, b8. unfold index in *.
  unfold expect in H6, H8. destruct (bs !! 6%nat) as [x6|] eqn:F6; [|done].
  destruct (bs !! 8%nat) as [x8|] eqn:F8; [|done]. apply ok_inj in H6, H8. subst. by split_and!.
Qed.

(** A call returns bytes, and no more than it was asked for. *)
Fixpoint calls_ok (filled : nat) (calls : list getrandom_result) : Prop :=
  match calls with
  | Filled bytes :: calls' =>
      bytes_ok bytes /\ (filled + length bytes <= 16)%nat /\ calls_ok (filled + length bytes) calls'
  | Interrupted :: calls' => calls_ok filled calls'
  | _ => True
  end.

Lemma fill_random_ok filled calls bytes :
  (length filled <= 16)%nat -> bytes_ok filled -> calls_ok (length filled) calls ->
  fill_random filled calls = Some (Ok bytes) -> length bytes = 16%nat /\ bytes_ok bytes.
Proof.
  revert filled. induction calls as [|c calls IH]; intros filled Hl Hb Hc; cbn [fill_random];
    destruct (Nat.leb_spec 16 (length filled)); try (intros [= <-]; split; [lia|done]); [done|].
  destruct c as [more| |e|]; try done; cbn [calls_ok] in Hc.
  - destruct Hc as (Hm & Hlen & Hc). apply IH; rewrite ?length_app; [done|by apply Forall_app|done].
  - by apply IH.
Qed.

Lemma generate_ok calls id : calls_ok 0 calls -> generate calls = Some (Ok id) -> display_id_ok id.
Proof.
  intros Hc. unfold generate. destruct (fill_random [] calls) as [[bytes| |]|] eqn:E; try done. intros [= E'].
  apply fill_random_ok in E as [Hl Hb]; [|simpl; lia|constructor|done].
  destruct (set_version_ok bytes Hl Hb) as (id' & Hid & Hok). rewrite E' in Hid. by injection Hid as ->.
Qed.

(** The text of a display identifier names it: an identifier that the daemon
    generated or parsed is parsed back from its text, its text is one that the
    public interface accepts as a display identifier, and the object-path segment
    of another identifier is different. *)
Theorem display_id_roundtrip calls s id id' :
  calls_ok 0 calls ->
  generate calls = Some (Ok id) \/ from_str s = Ok id ->
  from_str (display_id_text id) = Ok id /\ validate_display_id (display_id_text id) = Ok tt /\
  (display_id_ok id' -> object_segment id' = object_segment id -> id' = id).
Proof.
  intros Hc Hid. assert (display_id_ok id) as Hok
    by (destruct Hid as [Hid|Hid]; [by apply (generate_ok calls)|by apply (from_str_ok s)]).
  split_and!; [by apply from_str_text|by apply display_id_validates|].
  destruct Hok as (Hl & Hb & _). intros (Hl' & Hb' & _). rewrite <- Hl' in Hl. clear Hl' Hid. revert id Hl Hb.
  induction Hb' as [|b' id' Hb0 Hb' IH]; intros [|b id] Hl Hb; try done. apply Forall_cons in Hb as [Hb1 Hb].
  unfold object_segment in *. cbn [fmap list_fmap concat]. intros E. apply app_inj_1 in E as [E1 E2]; [|done].
  unfold uint in *. apply hex_digits_inj in E1; [|change (16 ^ Z.of_nat 2) with (2 ^ 8); lia..].
  subst. f_equal. apply IH; [simpl in Hl; lia|done|done].
Qed.

Lemma display_id_roundtrip_witness :
  exists id, from_str (display_id_text id) = Ok id /\
    display_id_text id = codes "00010203-0405-4607-8809-0a0b0c0d0e0f".
Proof.
  set (calls := [Filled (Z.of_nat <$> seq 0 5); Interrupted; Filled (Z.of_nat <$> seq 5 11)]).
  eexists. split.
  - apply (display_id_roundtrip calls []
      [0; 1; 2; 3; 4; 5; 0x46; 7; 0x88; 9; 10; 11; 12; 13; 14; 15] []).
    + cbn. split_and!; try lia; try (apply bytes_okb_ok; by vm_compute).
    + left. by vm_compute.
  - by vm_compute.
Defined.
