(* ===== verification/DisplaySetup.v ===== *)
(** * Setting up a cast display (crates/pronk/src/display.rs)

    The operation that turns a selected device into an attached monitor.  It
    acquires a grant, creates and prepares a backend session, attaches the
    monitor and starts its kernel actor; it may be cancelled at any of its
    waits, and every step may fail.  What it waits for is the class [World]:
    functions of the record of what was done so far, so any behaviour of the
    outside world is one instance.  A [select!] that prefers cancellation is a
    [raced] result.  An error of another component is that error together with
    its message.

    The theorems: whatever happens, a setup that fails stops the session it
    created and detaches the monitor it attached, and what clients see of the
    operation is an ordered sequence of valid states. *)

From S2P Require Import Prelude Bytes Text Actor Grant Ordering Output Slot BackendProtocol PublicTypes AggregateInventory BackendSession Identity Edid EdidLayout Preparation DisplayId.

Definition INITIAL_SESSION_GENERATION : Z := 1.

(** ** Data *)

Inductive DisplaySetupStage :=
  | StageValidating | StageAuthorizing | StagePreparingDevice | StageAttaching | StageAdded
  | StageCancelled | StageFailed.

Definition stage_is_terminal (s : DisplaySetupStage) : bool :=
  match s with StageAdded | StageCancelled | StageFailed => true | _ => false end.

Record DisplaySetupSnapshot := {
  ds_display_id : CastDisplayId; ds_stage : DisplaySetupStage; ds_error_code : OperationErrorCode;
  ds_error : option (list Z) }.

Record GrantTarget := { gt_major : Z; gt_minor : Z; gt_connector : Z; gt_profile : GrantProfile }.

Inductive GrantAcquisitionError := GrantCancelled | Provider (message : list Z).

Inductive ReserveDisplaySlotError :=
  | ReserveManagerStopped
  | ReserveDevice (e : ResolveDeviceError)
  | DiscoveryTask
  | Discovery
  | ReserveOutput (e : Slot.OutputReservationError).

(** [message]: the text of the error it was made from. *)
Inductive DisplaySetupError :=
  | SetupCancelled
  | SetupCallerExited
  | CallerMonitor (message : list Z)
  | CallerTask (message : list Z)
  | ReservationConsumed
  | Reserve (e : ReserveDisplaySlotError) (message : list Z)
  | Device (e : ResolveDeviceError) (message : list Z)
  | GrantRefused (message : list Z)
  | GrantClient (message : list Z)
  | Backend (e : BackendSessionError) (message : list Z)
  | Prepare (e : PrepareCastDeviceError) (message : list Z)
  | Attach (message : list Z)
  | AttachTask (message : list Z)
  | Monitor (message : list Z).

Definition setup_error_text (e : DisplaySetupError) : list Z :=
  match e with
  | SetupCancelled => codes "display setup was cancelled"
  | SetupCallerExited => codes "display-setup caller exited"
  | CallerMonitor m => codes "wait for display-setup caller exit: " ++ m
  | CallerTask m => codes "caller monitor task failed: " ++ m
  | ReservationConsumed => codes "pending display reservation was already consumed"
  | Reserve _ m => codes "reserve a CastKMS output for the selected Device: " ++ m
  | Device _ m => codes "selected Device changed during display setup: " ++ m
  | GrantRefused m => codes "acquire connector grant: " ++ m
  | GrantClient m => codes "open verified CastKMS grant client: " ++ m
  | Backend _ m => codes "backend display session failed: " ++ m
  | Prepare _ m => codes "prepare selected Device identity and EDID: " ++ m
  | Attach m => codes "attach selected Device EDID: " ++ m
  | AttachTask m => codes "CastKMS attach task failed: " ++ m
  | Monitor m => codes "start CastKMS display monitor: " ++ m
  end.

Definition backend_session_error_code (e : BackendSessionError) : OperationErrorCode :=
  match e with
  | BackendSession.BackendUnavailable | SupervisorStopped | MonitorStopped | MethodTimeout _ | Protocol _
  | InvalidStatistics _ | StaleStatisticsGeneration _ _ _ | InvalidControlCompletion _ | ControlFailed _
  | ControlCompletionStreamClosed => PublicTypes.BackendUnavailable
  | StaleConnectionGeneration _ _ | StaleDiscoveryGeneration _ _ | StalePreparationGeneration _ _ => PublicTypes.DeviceChanged
  | SessionDeviceUnavailable _ => PublicTypes.DeviceUnavailable
  | UnexpectedObjectPath _ _ | BackendSession.InvalidCapabilities _ | CapabilitiesOutsideOffer _ =>
      DevicePreparationFailed
  | BackendSession.InvalidRequest _ => Internal
  end.

Definition prepare_device_error_code (e : PrepareCastDeviceError) : OperationErrorCode :=
  match e with
  | Preparation.DeviceUnavailable _ => PublicTypes.DeviceUnavailable
  | Preparation.InvalidCapabilities _ | UnsupportedIdentitySource _ _ | Pnp _ | NoSupportedMode
  | PrepareMissingRequired640x480 | EdidError _ => DevicePreparationFailed
  | Preparation.InvalidDevice _ => Internal
  end.

Definition resolve_device_error_code (e : ResolveDeviceError) : OperationErrorCode :=
  match e with
  | InvalidSelection _ => PublicTypes.InvalidRequest
  | NotFound _ _ => DeviceNotFound
  | StaleSelection _ _ => PublicTypes.DeviceChanged
  | SelectionUnavailable _ _ _ => PublicTypes.DeviceUnavailable
  | SelectionBackendUnavailable _ => PublicTypes.BackendUnavailable
  | ResolverStopped => Internal
  end.

Definition operation_error_code (e : DisplaySetupError) : OperationErrorCode :=
  match e with
  | SetupCancelled => CancelledByUser
  | SetupCallerExited => CallerExited
  | Reserve (ReserveDevice e) _ | Device e _ => resolve_device_error_code e
  | Reserve (ReserveOutput Slot.CapacityExhausted) _ => PublicTypes.CapacityExhausted
  | Reserve (ReserveOutput (Slot.DeviceAlreadyClaimed _ _)) _ => DeviceAlreadyAdded
  | GrantRefused _ | GrantClient _ => AuthorizationFailed
  | Backend e _ => backend_session_error_code e
  | Prepare e _ => prepare_device_error_code e
  | Attach _ => AttachmentFailed
  | CallerMonitor _ | CallerTask _ | ReservationConsumed | Reserve _ _ | AttachTask _ | Monitor _ => Internal
  end.

(** A reserved slot: what setup reads of it.  It is released when it is dropped,
    so it is held by the result or by nobody. *)
Record ReservedCastDisplaySlot := {
  slot_device : DeviceInfo; slot_output : CastKmsOutput; slot_selection : bool }.

Record AddedCastDisplay := {
  ad_display_id : CastDisplayId; ad_state_revision : Z; ad_device : DeviceInfo;
  ad_prepared : PreparedCastDevice; ad_slot : ReservedCastDisplaySlot;
  ad_video_profile : list Z; ad_audio_profile : option (list Z); ad_session_generation : Z }.

Definition same_identity (d d' : DeviceInfo) : bool :=
  bool_decide (d_backend_id d = d_backend_id d') && bool_decide (d_device_id d = d_device_id d').

(** [Panic]: a failed [debug_assert_eq!]. *)
Definition update_device (a : AddedCastDisplay) (d : DeviceInfo) : outcome unit (AddedCastDisplay * bool) :=
  if negb (same_identity (ad_device a) d) then Panic
  else if bool_decide (ad_device a = d) then Ok (a, false)
  else Ok ({| ad_display_id := ad_display_id a;
              ad_state_revision := Z.max (saturating_add64 (ad_state_revision a) 1) (device_revision d);
              ad_device := d; ad_prepared := ad_prepared a; ad_slot := ad_slot a;
              ad_video_profile := ad_video_profile a; ad_audio_profile := ad_audio_profile a;
              ad_session_generation := ad_session_generation a |}, true).

(** The reasons of the backend protocol. *)
Inductive StopReason := UserRequest | DisplayRemoved | BackendShutdown | TransportFailure.

Global Instance StopReason_eq_dec : EqDecision StopReason.
Proof. solve_decision. Defined.

(** ** The world *)

Inductive raced (A : Type) := CancelledFirst | Done (a : A).
Arguments CancelledFirst {A}. Arguments Done {A}.

(** The end of a task: what it returned, or that it panicked. *)
Inductive joined (A : Type) := Joined (a : A) | JoinFailed (message : list Z).
Arguments Joined {A}. Arguments JoinFailed {A}.

Inductive setup_action :=
  | SetStatus (stage : DisplaySetupStage) (code : OperationErrorCode) (error : option (list Z))
  | ReserveSlot
  | AcquireGrant (target : GrantTarget)
  | RevalidateDevice
  | OpenClient
  | CreateSession (session_generation features : Z) (created : bool)
  | PrepareSession
  | StopSession (reason : StopReason)
  | StartEventMonitor
  | AttachMonitor (edid name : list Z) (attached : bool)
  | DetachMonitor
  | SpawnKernelActor (spawned : bool).

Abbreviation setup_trace := (list setup_action).

Class World := {
  is_cancelled : setup_trace -> bool;
  reserve_display_slot :
    setup_trace -> raced (outcome (ReserveDisplaySlotError * list Z) ReservedCastDisplaySlot);
  acquire_grant : setup_trace -> GrantTarget -> outcome GrantAcquisitionError unit;
  revalidate_device : setup_trace -> raced (outcome (ResolveDeviceError * list Z) unit);
  open_client : setup_trace -> outcome (list Z) unit;
  (* whether cancellation came first, and what the creation came to, which is
     awaited in either case *)
  create_session : setup_trace -> bool * outcome (BackendSessionError * list Z) unit;
  prepare_session : setup_trace -> raced (reply DeviceCapabilities);
  session_error_text : BackendSessionError -> list Z;
  prepare_error_text : PrepareCastDeviceError -> list Z;
  device_session_resolver : setup_trace -> outcome (ResolveDeviceError * list Z) unit;
  start_event_monitor : setup_trace -> raced (outcome (BackendSessionError * list Z) unit);
  attach_monitor : setup_trace -> bool * joined (outcome (list Z) unit);
  classified_paths : setup_trace -> outcome (list Z) unit;
  spawn_kernel_actor : setup_trace -> outcome (list Z) unit;
  (* whether the caller has exited, and how its monitor ended *)
  caller_gone : setup_trace -> bool;
  caller_exit : setup_trace -> joined (outcome (list Z) unit) }.

(** ** A step that may fail *)

Abbreviation setup E A := (actor setup_trace (outcome E A)).

Definition act (a : setup_action) : actor setup_trace unit := fun tr => (tt, tr ++ [a]).
Definition see {A} (f : setup_trace -> A) : actor setup_trace A := fun tr => (f tr, tr).

Definition sbind {E A B} (m : setup E A) (k : A -> setup E B) : setup E B :=
  abind m (fun r => match r with Ok a => k a | Err e => aret (Err e) | Panic => aret Panic end).

Notation "'let!' x := m 'in' k" := (sbind m (fun x => k))
  (at level 10, x name, m at level 200, k at level 200,
   format "'[v' 'let!'  x  :=  m  'in' '/' k ']'") : actor_scope.
Notation "'do!' m ; k" := (sbind m (fun _ => k))
  (at level 10, m at level 200, k at level 200,
   format "'[v' 'do!'  m ; '/' k ']'") : actor_scope.

Definition set_status (stage : DisplaySetupStage) (code : OperationErrorCode) (error : option (list Z))
  : actor setup_trace unit :=
  act (SetStatus stage code ((fun e => bounded_chars e MAX_OPERATION_ERROR_BYTES) <$> error)).

Definition stop_partial_backend : actor setup_trace unit := act (StopSession UserRequest).

(** [stop_partial_backend(session).await; return Err(e)]. *)
Definition abandon_session {E A} (e : E) : setup E A := do* stop_partial_backend; aret (Err e).

(** The two in turn, on the paths after the attachment. *)
Definition abandon_monitor {E A} (e : E) : setup E A :=
  do* stop_partial_backend; do* act DetachMonitor; aret (Err e).

Definition take_selection (s : ReservedCastDisplaySlot) : ReservedCastDisplaySlot :=
  {| slot_device := slot_device s; slot_output := slot_output s; slot_selection := false |}.

Section Setup.
Context `{W : World} `{U : Unicode} `{S : Sha256}.

Definition check_cancelled : setup DisplaySetupError unit :=
  let* c := see is_cancelled in aret (if c : bool then Err SetupCancelled else Ok tt).

Definition revalidate : setup DisplaySetupError unit :=
  let* r := see revalidate_device in
  do* act RevalidateDevice;
  aret match r with
       | CancelledFirst => Err SetupCancelled
       | Done (Ok _) => Ok tt
       | Done (Err (e, m)) => Err (Device e m)
       | Done Panic => Panic
       end.

Record setup_context := {
  cx_display_id : CastDisplayId; cx_pnp_resolver : PnpIdResolver; cx_offer : PreparationRequest;
  cx_audio_enabled : bool }.

(** Up to the verified grant client. *)
Definition authorize (slot : ReservedCastDisplaySlot) (cx : setup_context) : setup DisplaySetupError unit :=
  let output := slot_output slot in
  let target := {| gt_major := device_major output; gt_minor := device_minor output;
                   gt_connector := Output.connector_id output;
                   gt_profile := if cx_audio_enabled cx then DisplayCecAudioV1 else DisplayCecV1 |} in
  do! check_cancelled;
  let* lease := see (fun tr => acquire_grant tr target) in
  do* act (AcquireGrant target);
  do! aret match lease with
           | Ok _ => Ok tt
           | Err GrantCancelled => Err SetupCancelled
           | Err (Provider m) => Err (GrantRefused (codes "grant provider failed: " ++ m))
           | Panic => Panic
           end;
  do! check_cancelled;
  do! revalidate;
  let* client := see open_client in
  do* act OpenClient;
  aret (omap_err GrantClient client).

Definition begin_session (slot : ReservedCastDisplaySlot) (cx : setup_context) : setup DisplaySetupError unit :=
  do* set_status StagePreparingDevice NoError None;
  do! aret (if slot_selection slot then Ok tt else Err ReservationConsumed);
  let* created := see create_session in
  do* act (CreateSession INITIAL_SESSION_GENERATION (pr_requested_features (cx_offer cx)) (is_ok created.2));
  if created.1 : bool then
    if is_ok created.2 then abandon_session SetupCancelled else aret (Err SetupCancelled)
  else aret (omap_err (fun e => Backend e.1 e.2) created.2).

(** Up to the prepared device, its revalidation and the event monitor; the
    session exists. *)
Definition prepare_device (slot : ReservedCastDisplaySlot) (cx : setup_context)
  : setup DisplaySetupError PreparedCastDevice :=
  let* r := see prepare_session in
  do* act PrepareSession;
  match r with
  | CancelledFirst => abandon_session SetupCancelled
  | Done returned =>
      match prepare (cx_offer cx) returned with
      | Panic => aret Panic
      | Err e => abandon_session (Backend e (session_error_text e))
      | Ok capabilities =>
          match from_capabilities (slot_device slot) capabilities (cx_pnp_resolver cx) (cx_audio_enabled cx) with
          | Panic => aret Panic
          | Err e => abandon_session (Prepare e (prepare_error_text e))
          | Ok prepared =>
              let* c := see is_cancelled in
              if c : bool then abandon_session SetupCancelled
              else
                let* checked := revalidate in
                match checked with
                | Panic => aret Panic
                | Err e => abandon_session e
                | Ok _ =>
                    let* resolver := see device_session_resolver in
                    match resolver with
                    | Panic => aret Panic
                    | Err (e, m) => abandon_session (Device e m)
                    | Ok _ =>
                        let* monitor := see start_event_monitor in
                        do* act StartEventMonitor;
                        match monitor with
                        | CancelledFirst => abandon_session SetupCancelled
                        | Done Panic => aret Panic
                        | Done (Err (e, m)) => abandon_session (Backend e m)
                        | Done (Ok _) => aret (Ok prepared)
                        end
                    end
                end
          end
      end
  end.

Definition attach (slot : ReservedCastDisplaySlot) (prepared : PreparedCastDevice) : setup DisplaySetupError unit :=
  do* set_status StageAttaching NoError None;
  let* r := see attach_monitor in
  let attached := match r.2 with Joined (Ok _) => true | _ => false end in
  do* act (AttachMonitor (ge_edid (generated_edid prepared)) (d_display_name (slot_device slot)) attached);
  if r.1 : bool then
    do* stop_partial_backend;
    do* (if attached then act DetachMonitor else aret tt);
    aret (Err SetupCancelled)
  else
    match r.2 with
    | JoinFailed m => aret (Err (AttachTask m))
    | Joined Panic => aret Panic
    | Joined (Err m) => abandon_session (Attach m)
    | Joined (Ok _) =>
        let* c := see is_cancelled in
        if c : bool then abandon_monitor SetupCancelled else aret (Ok tt)
    end.

Definition start_display (slot : ReservedCastDisplaySlot) (cx : setup_context) (prepared : PreparedCastDevice)
  : setup DisplaySetupError AddedCastDisplay :=
  let* paths := see classified_paths in
  match paths with
  | Panic => aret Panic
  | Err m => abandon_monitor (Monitor (codes "construct classified PipeWire paths: " ++ m))
  | Ok _ =>
      match video_profiles (prepared_capabilities prepared) with
      | [] => aret Panic
      | video :: _ =>
          let audio := if cx_audio_enabled cx
                       then ap_profile_id <$> head (audio_profiles (prepared_capabilities prepared)) else None in
          let* kernel := see spawn_kernel_actor in
          do* act (SpawnKernelActor (is_ok kernel));
          match kernel with
          | Panic => aret Panic
          | Err m => do* act (StopSession BackendShutdown); aret (Err (Monitor m))
          | Ok _ =>
              aret (Ok {| ad_display_id := cx_display_id cx;
                          ad_state_revision := device_revision (slot_device slot);
                          ad_device := slot_device slot; ad_prepared := prepared; ad_slot := take_selection slot;
                          ad_video_profile := vp_profile_id video; ad_audio_profile := audio;
                          ad_session_generation := INITIAL_SESSION_GENERATION |})
          end
      end
  end.

Definition run_display_setup_inner (slot : ReservedCastDisplaySlot) (cx : setup_context)
  : setup DisplaySetupError AddedCastDisplay :=
  do! authorize slot cx;
  do! begin_session slot cx;
  let! prepared := prepare_device slot cx in
  do! attach slot prepared;
  start_display slot cx prepared.

(** [ready]: the slot, when it was reserved before the operation started. *)
Definition reserve_slot (ready : option ReservedCastDisplaySlot) : setup DisplaySetupError ReservedCastDisplaySlot :=
  match ready with
  | Some slot => aret (Ok slot)
  | None =>
      let* r := see reserve_display_slot in
      do* act ReserveSlot;
      match r with
      | CancelledFirst => aret (Err SetupCancelled)
      | Done (Ok slot) => do* set_status StageAuthorizing NoError None; aret (Ok slot)
      | Done (Err (e, m)) => aret (Err (Reserve e m))
      | Done Panic => aret Panic
      end
  end.

Definition run_display_setup (ready : option ReservedCastDisplaySlot) (cx : setup_context)
  : setup DisplaySetupError AddedCastDisplay :=
  let* result := (let! slot := reserve_slot ready in run_display_setup_inner slot cx) in
  let* gone := see caller_gone in
  match result with
  | Err SetupCancelled =>
      if gone : bool then
        let* exit := see caller_exit in
        aret match exit with
             | Joined (Ok _) => Err SetupCallerExited
             | Joined (Err m) => Err (CallerMonitor m)
             | Joined Panic => Panic
             | JoinFailed m => Err (CallerTask m)
             end
      else aret result
  | _ => aret result
  end.

(** The task of [spawn_with_caller], with the status it starts with. *)
Definition setup_task (ready : option ReservedCastDisplaySlot) (cx : setup_context)
  : setup DisplaySetupError AddedCastDisplay :=
  do* act (SetStatus (if ready then StageAuthorizing else StageValidating) NoError None);
  let* result := run_display_setup ready cx in
  do* match result with
      | Ok _ => set_status StageAdded NoError None
      | Err ((SetupCancelled | SetupCallerExited) as e) =>
          set_status StageCancelled (operation_error_code e) (Some (setup_error_text e))
      | Err e => set_status StageFailed (operation_error_code e) (Some (setup_error_text e))
      | Panic => aret tt
      end;
  aret result.

End Setup.

(** [spawn_with_caller] up to the spawn: the offer is checked and the identifier
    drawn. *)
Inductive DisplaySetupStartError := InvalidOffer (e : BackendProtocol.ValidationError) | IdentityError (r : getrandom_result).

Definition start_setup (offer : PreparationRequest) (calls : list getrandom_result)
  : option (outcome DisplaySetupStartError CastDisplayId) :=
  match validate_preparation_request offer with
  | Ok _ => omap_err IdentityError <$> generate calls
  | Err e => Some (Err (InvalidOffer e))
  | Panic => Some Panic
  end.

(** ** A replacement session

    [BackendPreparedDeviceSessionFactory]: the session of a later generation,
    for a display that stays attached. *)

Inductive DeviceSessionFactoryError := FactoryCancelled | FactoryFailed (message : list Z).

Definition MAX_RECOVERY_ERROR_BYTES : nat := 512.

Definition failed (message : list Z) : DeviceSessionFactoryError :=
  FactoryFailed (elided_chars message MAX_RECOVERY_ERROR_BYTES).

Section Factory.
Context `{W : World} `{U : Unicode} `{S : Sha256}.

Record session_factory := {
  sf_offer : PreparationRequest; sf_pnp_resolver : PnpIdResolver; sf_audio_enabled : bool }.

Definition create_replacement (f : session_factory) (session_generation : Z)
  : setup DeviceSessionFactoryError unit :=
  let* created := see create_session in
  do* act (CreateSession session_generation (pr_requested_features (sf_offer f)) (is_ok created.2));
  if created.1 : bool then
    if is_ok created.2 then abandon_session FactoryCancelled else aret (Err FactoryCancelled)
  else aret (omap_err (fun e => failed (codes "create replacement Device session: " ++ e.2)) created.2).

Definition prepare_replacement (f : session_factory) (device : DeviceInfo)
  : setup DeviceSessionFactoryError PreparedCastDevice :=
  let* r := see prepare_session in
  do* act PrepareSession;
  match r with
  | CancelledFirst => abandon_session FactoryCancelled
  | Done returned =>
      match prepare (sf_offer f) returned with
      | Panic => aret Panic
      | Err e => abandon_session (failed (codes "prepare replacement Device session: " ++ session_error_text e))
      | Ok capabilities =>
          match from_capabilities device capabilities (sf_pnp_resolver f) (sf_audio_enabled f) with
          | Panic => aret Panic
          | Err e =>
              abandon_session (failed (codes "validate replacement Device preparation: " ++ prepare_error_text e))
          | Ok prepared =>
              let* c := see is_cancelled in
              if c : bool then abandon_session FactoryCancelled
              else
                let* monitor := see start_event_monitor in
                do* act StartEventMonitor;
                match monitor with
                | CancelledFirst => abandon_session FactoryCancelled
                | Done Panic => aret Panic
                | Done (Err (_, m)) =>
                    abandon_session (failed (codes "monitor replacement Device session: " ++ m))
                | Done (Ok _) => aret (Ok prepared)
                end
          end
      end
  end.

Definition create_prepared_session (f : session_factory) (device : DeviceInfo) (session_generation : Z)
  : setup DeviceSessionFactoryError PreparedCastDevice :=
  let* resolved := see revalidate_device in
  do* act RevalidateDevice;
  match resolved with
  | CancelledFirst => aret (Err FactoryCancelled)
  | Done Panic => aret Panic
  | Done (Err (_, m)) => aret (Err (failed (codes "resolve current Device: " ++ m)))
  | Done (Ok _) =>
      do! create_replacement f session_generation;
      prepare_replacement f device
  end.

End Factory.

(** ** What a setup holds

    Counted along the record of what it did: the backend sessions it has not
    stopped, and the monitors it has attached and neither detached nor given to
    a kernel actor ([SpawnKernelActor] takes the client, and closes it when it
    fails). *)

Definition session_change (a : setup_action) : Z :=
  match a with CreateSession _ _ true => 1 | StopSession _ => -1 | _ => 0 end.

Definition monitor_change (a : setup_action) : Z :=
  match a with AttachMonitor _ _ true => 1 | DetachMonitor | SpawnKernelActor _ => -1 | _ => 0 end.

Definition sessions_open (tr : setup_trace) : Z := foldr Z.add 0 (session_change <$> tr).
Definition monitors_open (tr : setup_trace) : Z := foldr Z.add 0 (monitor_change <$> tr).

(** [holds s m tr]: [s] sessions and [m] monitors. *)
Definition holds (s m : Z) (tr : setup_trace) : Prop := sessions_open tr = s /\ monitors_open tr = m.

Lemma sum_app l1 l2 : foldr Z.add 0 (l1 ++ l2) = foldr Z.add 0 l1 + foldr Z.add 0 l2.
Proof. induction l1 as [|x l1 IH]; simpl; lia. Qed.

Lemma holds_act s m tr a : holds s m tr -> holds (s + session_change a) (m + monitor_change a) (tr ++ [a]).
Proof.
  unfold holds, sessions_open, monitors_open. rewrite !fmap_app, !sum_app. simpl. lia.
Qed.

(** What the result says is held: [s] and [m] on success, nothing on an error. *)
Definition settled {E A} (lost : E -> Prop) (s m : Z) (r : outcome E A) (tr : setup_trace) : Prop :=
  match r with Ok _ => holds s m tr | Err e => lost e \/ holds 0 0 tr | Panic => True end.

Lemma runs_sbind {E A B} (m : setup E A) (k : A -> setup E B) P Q R :
  runs m P Q -> (forall a, runs (k a) (Q (Ok a)) R) ->
  (forall e tr, Q (Err e) tr -> R (Err e) tr) -> (forall tr, Q Panic tr -> R Panic tr) ->
  runs (sbind m k) P R.
Proof. intros Hm Hk He Hp. eapply runs_bind; [exact Hm|]. intros [a|e|]; [apply Hk|apply runs_ret; auto..]. Qed.

Lemma settled_bind {E A B} (lost : E -> Prop) (m : setup E A) (k : A -> setup E B) P s m' s' m'' :
  runs m P (settled lost s m') -> (forall a, runs (k a) (holds s m') (settled lost s' m'')) ->
  runs (sbind m k) P (settled lost s' m'').
Proof. intros Hm Hk. eapply runs_sbind; [exact Hm|exact Hk|done|done]. Qed.

(** Straight-line code: take every branch, then count. *)
Ltac walk :=
  repeat match goal with
         | |- context [match ?x with _ => _ end] =>
             lazymatch x with context [match _ with _ => _ end] => fail | _ => destruct x eqn:?; simpl end
         end.
Ltac count :=
  let tr := fresh "tr" in
  intros tr ?; unfold settled, omap_err, is_ok, abandon_session, abandon_monitor, stop_partial_backend, set_status, sbind, abind, see, act, aret;
  simpl; walk; simpl in *; rewrite <- ?app_assoc; try done; try by left.

Ltac settle :=
  try right; match goal with H : holds ?s ?m ?tr |- holds _ _ (?tr ++ ?l) =>
    unfold holds, sessions_open, monitors_open in H |- *; rewrite !fmap_app, !sum_app; cbn [fmap list_fmap session_change monitor_change foldr app]; lia end.

Section Holds.
Context `{W : World} `{U : Unicode} `{S : Sha256}.

Abbreviation lost := (fun e => exists m, e = AttachTask m).

Lemma check_settled s m : runs check_cancelled (holds s m) (fun _ tr => holds s m tr).
Proof. unfold check_cancelled. count. Qed.

Lemma revalidate_settled s m : runs revalidate (holds s m) (fun r tr => holds s m tr).
Proof. unfold revalidate. count; settle. Qed.

Lemma authorize_settled slot cx : runs (authorize slot cx) (holds 0 0) (settled lost 0 0).
Proof.
  unfold authorize. cbv zeta.
  eapply runs_sbind; [apply check_settled| |intros e tr ?; by right|done]. intros ?.
  unfold revalidate, check_cancelled. count; settle.
Qed.

Lemma begin_settled slot cx : runs (begin_session slot cx) (holds 0 0) (settled lost 1 0).
Proof. unfold begin_session. count; settle. Qed.

Lemma prepare_settled slot cx : runs (prepare_device slot cx) (holds 1 0) (settled lost 1 0).
Proof. unfold prepare_device, revalidate. count; settle. Qed.

Lemma attach_settled slot prepared : runs (attach slot prepared) (holds 1 0) (settled lost 1 1).
Proof. unfold attach. count; try settle. left. by eexists. Qed.

Lemma start_settled slot cx prepared : runs (start_display slot cx prepared) (holds 1 1) (settled lost 1 0).
Proof. unfold start_display. count; settle. Qed.

Lemma inner_settled slot cx : runs (run_display_setup_inner slot cx) (holds 0 0) (settled lost 1 0).
Proof.
  unfold run_display_setup_inner.
  eapply settled_bind; [apply authorize_settled|]. intros ?.
  eapply settled_bind; [apply begin_settled|]. intros ?.
  eapply settled_bind; [apply prepare_settled|]. intros prepared.
  eapply settled_bind; [apply attach_settled|]. intros ?. apply start_settled.
Qed.

Lemma reserve_settled ready : runs (reserve_slot ready) (holds 0 0) (settled lost 0 0).
Proof. unfold reserve_slot. count; settle. Qed.

Lemma run_settled ready cx : runs (run_display_setup ready cx) (holds 0 0) (settled lost 1 0).
Proof.
  unfold run_display_setup. eapply runs_bind.
  { eapply settled_bind; [apply reserve_settled|]. intros slot. apply inner_settled. }
  intros r tr Hr. unfold abind, see, aret. simpl.
  destruct r as [a|e|]; [done| |done]. destruct e; simpl; try done. destruct Hr as [[? ?]|Hr]; [done|].
  walk; simpl; first [done | by right].
Qed.

(** C20: whatever its surroundings answer and whenever it is cancelled, a setup
    ends holding what its result says: an added display holds its one backend
    session, and its monitor is with the kernel actor; a setup that was
    cancelled or failed has stopped every session it created, also one whose
    creation was only finished after the cancellation, and has detached the
    monitor it attached.  The exception is an attachment whose blocking task
    dies: its session is left running. *)
Theorem setup_leaves_nothing ready cx :
  let '(r, tr) := setup_task ready cx [] in
  match r with
  | Ok _ => holds 1 0 tr
  | Err (AttachTask _) | Panic => True
  | Err _ => holds 0 0 tr
  end.
Proof.
  unfold setup_task, abind, act. cbn [snd fst app].
  pose proof (run_settled ready cx [SetStatus (if ready then StageAuthorizing else StageValidating) NoError None]
                (conj eq_refl eq_refl)) as Hrun.
  destruct (run_display_setup ready cx _) as [r tr]. cbn [fst snd] in *. unfold set_status, act, aret.
  destruct r as [a|e|]; cbn [settled] in Hrun; [by settle| |done].
  destruct e; try done; (destruct Hrun as [[? ?]|Hrun]; [done|]); settle.
Qed.
End Holds.

(** ** What a setup reports *)

Definition status_of (a : setup_action) : option (DisplaySetupStage * OperationErrorCode * option (list Z)) :=
  match a with SetStatus s c e => Some (s, c, e) | _ => None end.

Definition statuses (tr : setup_trace) := omap status_of tr.

(** The stages before the end, in order. *)
Definition setup_path (ready : option ReservedCastDisplaySlot) : list DisplaySetupStage :=
  (if ready then [] else [StageValidating]) ++ [StageAuthorizing; StagePreparingDevice; StageAttaching].

Definition working (stage : DisplaySetupStage) := (stage, NoError, @None (list Z)).

(** How an operation with this result closes. *)
Definition closing {A} (r : outcome DisplaySetupError A) : option (DisplaySetupStage * OperationErrorCode * option (list Z)) :=
  match r with
  | Ok _ => Some (working StageAdded)
  | Err e =>
      Some (match e with SetupCancelled | SetupCallerExited => StageCancelled | _ => StageFailed end,
            operation_error_code e, Some (bounded_chars (setup_error_text e) MAX_OPERATION_ERROR_BYTES))
  | Panic => None
  end.

(** [reported l n r tr]: the first stages of [l], at least [n] of them, and all
    of them on success. *)
Definition reported {E A} (l : list DisplaySetupStage) (n : nat) (r : outcome E A) (tr : setup_trace) : Prop :=
  match r with
  | Ok _ => statuses tr = working <$> l
  | _ => exists k, (n <= k <= length l)%nat /\ statuses tr = working <$> take k l
  end.

Lemma statuses_app tr1 tr2 : statuses (tr1 ++ tr2) = statuses tr1 ++ statuses tr2.
Proof. unfold statuses. by rewrite omap_app. Qed.

(** [extends l' m]: a phase that reports the stages [l'], all of them when it
    succeeds. *)
Definition extends {E A} (l' : list DisplaySetupStage) (m : setup E A) : Prop :=
  forall tr, exists more : setup_trace, (m tr).2 = tr ++ more /\
    (is_ok (m tr).1 = true -> statuses more = working <$> l') /\
    exists k, (k <= length l')%nat /\ statuses more = working <$> take k l'.

Lemma extends_runs {E A} (m : setup E A) l n l' :
  extends l' m -> (n <= length l)%nat ->
  runs m (fun tr => statuses tr = working <$> l) (reported (l ++ l') n).
Proof.
  intros H Hn tr Htr. destruct (H tr) as (more & -> & Hok & k & Hk & Hm).
  assert (exists k, (n <= k <= length (l ++ l'))%nat /\
                    statuses (tr ++ more) = working <$> take k (l ++ l')) as Hany.
  { exists (length l + k)%nat. rewrite length_app, statuses_app, Htr, Hm, take_app_add', fmap_app by done.
    split; [lia|done]. }
  destruct (m tr).1; cbn [reported]; try done. by rewrite statuses_app, Htr, Hok, fmap_app.
Qed.

Lemma reported_bind {E A B} (m : setup E A) (k : A -> setup E B) P n l l' :
  runs m P (reported l n) -> (forall a, runs (k a) (fun tr => statuses tr = working <$> l) (reported (l ++ l') n)) ->
  runs (sbind m k) P (reported (l ++ l') n).
Proof.
  intros Hm Hk. eapply runs_sbind; [exact Hm|exact Hk|..].
  - intros e tr (j & Hj & Ej). exists j. rewrite Ej, length_app, take_app_le by lia. split; [lia|done].
  - intros tr (j & Hj & Ej). exists j. rewrite Ej, length_app, take_app_le by lia. split; [lia|done].
Qed.

Abbreviation stages_so_far l := (fun tr => statuses tr = working <$> l).

Lemma phase_bind {E A B} (m : setup E A) (k : A -> setup E B) n l l1 l2 :
  extends l1 m -> (n <= length l)%nat ->
  (forall a, runs (k a) (stages_so_far (l ++ l1)) (reported ((l ++ l1) ++ l2) n)) ->
  runs (sbind m k) (stages_so_far l) (reported (l ++ l1 ++ l2) n).
Proof. intros Hm Hn Hk. rewrite app_assoc. eapply reported_bind; [by apply extends_runs|exact Hk]. Qed.

Lemma phase_quiet {E A B} (m : setup E A) (k : A -> setup E B) n l l2 :
  extends [] m -> (n <= length l)%nat ->
  (forall a, runs (k a) (stages_so_far l) (reported (l ++ l2) n)) ->
  runs (sbind m k) (stages_so_far l) (reported (l ++ l2) n).
Proof. intros Hm Hn Hk. apply (phase_bind m k n l [] l2); [done|done|]. by rewrite app_nil_r. Qed.

Ltac extend :=
  let tr := fresh "tr" in
  intros tr;
  unfold abandon_session, abandon_monitor, stop_partial_backend, set_status, sbind, abind, see, act, aret;
  simpl; walk; rewrite <- ?app_assoc;
  (first [eexists; split; [reflexivity|] | exists []; split; [by rewrite app_nil_r|]]);
  (split; [done|first [by exists O; split; [lia|] | by exists 1%nat; split; [lia|]]]).

Section Reports.
Context `{W : World} `{U : Unicode} `{S : Sha256}.

Lemma authorize_extends slot cx : extends [] (authorize slot cx).
Proof. unfold authorize, revalidate, check_cancelled. extend. Qed.

Lemma begin_extends slot cx : extends [StagePreparingDevice] (begin_session slot cx).
Proof. unfold begin_session. extend. Qed.

Lemma prepare_extends slot cx : extends [] (prepare_device slot cx).
Proof. unfold prepare_device, revalidate. extend. Qed.

Lemma attach_extends slot prepared : extends [StageAttaching] (attach slot prepared).
Proof. unfold attach. extend. Qed.

Lemma start_extends slot cx prepared : extends [] (start_display slot cx prepared).
Proof. unfold start_display. extend. Qed.

Lemma reserve_extends (ready : option ReservedCastDisplaySlot) :
  extends (if ready then [] else [StageAuthorizing]) (reserve_slot ready).
Proof. unfold reserve_slot. destruct ready; extend. Qed.

Lemma inner_reports slot cx l n :
  (n <= length l)%nat ->
  runs (run_display_setup_inner slot cx) (stages_so_far l) (reported (l ++ [StagePreparingDevice; StageAttaching]) n).
Proof.
  intros Hn. assert (forall l', n <= length (l ++ l'))%nat as Hn' by (intros; rewrite length_app; lia).
  unfold run_display_setup_inner.
  apply phase_quiet; [apply authorize_extends|done|]. intros ?.
  apply (phase_bind _ _ _ _ [StagePreparingDevice] [StageAttaching]); [apply begin_extends|done|]. intros ?.
  apply phase_quiet; [apply prepare_extends|done|]. intros prepared.
  apply (phase_bind _ _ _ _ [StageAttaching] []); [apply attach_extends|done|]. intros ?.
  apply extends_runs; [apply start_extends|]. rewrite <- app_assoc. apply Hn'.
Qed.

Lemma run_reports (ready : option ReservedCastDisplaySlot) cx
    (first_stage := if ready then StageAuthorizing else StageValidating) :
  runs (run_display_setup ready cx) (stages_so_far [first_stage]) (reported (setup_path ready) 1).
Proof.
  unfold run_display_setup. eapply (runs_bind _ _ _ (reported (setup_path ready) 1)).
  { assert (setup_path ready = [first_stage] ++ (if ready then [] else [StageAuthorizing])
              ++ [StagePreparingDevice; StageAttaching]) as -> by by destruct ready.
    apply phase_bind; [apply reserve_extends|simpl; lia|]. intros slot.
    apply inner_reports. rewrite length_app. simpl. lia. }
  intros r tr Hr. unfold abind, see, aret. cbn [fst snd].
  destruct r as [a|e|]; [done| |done]. destruct e; try done. walk; done.
Qed.

(** The stages, in their order and none skipped, up to the one it stopped in, and
    then one that agrees with the result. *)
Lemma setup_statuses ready cx :
  let '(r, tr) := setup_task ready cx [] in
  exists k, (1 <= k)%nat /\ (is_ok r = true -> (length (setup_path ready) <= k)%nat) /\
  statuses tr = (working <$> take k (setup_path ready)) ++ option_list (closing r).
Proof.
  unfold setup_task, abind, act. cbn [snd fst app].
  pose proof (run_reports ready cx [SetStatus (if ready then StageAuthorizing else StageValidating) NoError None]
                eq_refl) as Hrun.
  destruct (run_display_setup ready cx _) as [r tr]. cbn [fst snd] in *. unfold set_status, act, aret.
  assert (exists k, (1 <= k)%nat /\ (is_ok r = true -> (length (setup_path ready) <= k)%nat) /\
                    statuses tr = working <$> take k (setup_path ready)) as (k & Hk & Hok & Hs).
  { destruct r as [a|e|]; [|by destruct Hrun as (k & [Hk _] & Hs); exists k..]. cbn [reported] in Hrun.
    exists (length (setup_path ready)). rewrite take_ge by done. split; [by destruct ready; simpl; lia|done]. }
  assert (forall st c m, statuses (tr ++ [SetStatus st c m]) = (working <$> take k (setup_path ready)) ++ [(st, c, m)])
    as Hend by (intros st c m; by rewrite statuses_app, Hs).
  destruct r as [a|e|]; [| |by exists k; rewrite app_nil_r].
  - exists k. split_and!; [done|done|]. apply Hend.
  - destruct e; exists k; (split_and!; [done|done|apply Hend]).
Qed.
End Reports.

(** The factory's sessions: the same discipline, with no exception. *)
Lemma factory_settled `{W : World} `{U : Unicode} `{S : Sha256} f device session_generation :
  runs (create_prepared_session f device session_generation) (holds 0 0) (settled (fun _ => False) 1 0).
Proof.
  unfold create_prepared_session. intros tr Htr. unfold abind, see, act, aret. cbn [fst snd].
  destruct (revalidate_device tr) as [|[u|[e m]|]]; cbn [fst snd settled]; try (by settle); [|done].
  apply (settled_bind (fun _ => False) (create_replacement f session_generation) (fun _ => prepare_replacement f device)
           (holds 0 0) 1 0 1 0); [| |settle].
  - unfold create_replacement. count; settle.
  - intros ?. unfold prepare_replacement. count; settle.
Qed.

(** ** Runs *)

Definition ex_slot : ReservedCastDisplaySlot :=
  {| slot_device := ex_tv "Living Room TV" 3;
     slot_output :=
       {| Output.id := {| device_path := [RootDir; Normal (codes "devices"); Normal (codes "castkms")]; Output.output_index := 0 |};
          node_path := [RootDir; Normal (codes "dev"); Normal (codes "card1")]; device_major := 226; device_minor := 1; Output.connector_id := 31;
          Output.connector_name := "Virtual-1"; connection := Output.Disconnected |};
     slot_selection := true |}.

(** A device that can show everything it was offered. *)
Definition ex_offered : DeviceCapabilities :=
  {| preparation_generation := 1; display_identity := display_identity ex_capabilities;
     modes := candidate_modes (initial_preparation_offer true);
     video_profiles := video_profiles ex_capabilities; audio_profiles := audio_profiles ex_capabilities;
     BackendProtocol.features := pr_requested_features (initial_preparation_offer true) |}.

(** Everything succeeds, except what [attached] says of the attachment. *)
Definition ex_world (attached : bool * joined (outcome (list Z) unit)) : World :=
  {| is_cancelled := fun _ => false; reserve_display_slot := fun _ => Done (Ok ex_slot);
     acquire_grant := fun _ _ => Ok tt; revalidate_device := fun _ => Done (Ok tt); open_client := fun _ => Ok tt;
     create_session := fun _ => (false, Ok tt); prepare_session := fun _ => Done (Answer ex_offered);
     session_error_text := fun _ => []; prepare_error_text := fun _ => [];
     device_session_resolver := fun _ => Ok tt; start_event_monitor := fun _ => Done (Ok tt);
     attach_monitor := fun _ => attached; classified_paths := fun _ => Ok tt; spawn_kernel_actor := fun _ => Ok tt;
     caller_gone := fun _ => false; caller_exit := fun _ => Joined (Ok tt) |}.

Definition ex_context : setup_context :=
  {| cx_display_id := repeat 0 16; cx_pnp_resolver := ex_resolver; cx_offer := initial_preparation_offer true;
     cx_audio_enabled := true |}.

Definition ex_setup attached := setup_task (W := ex_world attached) (U := ascii_unicode) (S := constant_sha256) None ex_context [].

(** A display is added. *)
Example setup_succeeds :
  let '(r, tr) := ex_setup (false, Joined (Ok tt)) in
  is_ok r = true /\ sessions_open tr = 1 /\
  (fun s => s.1.1) <$> statuses tr =
    [StageValidating; StageAuthorizing; StagePreparingDevice; StageAttaching; StageAdded].
Proof. by vm_compute. Qed.

(** An attachment whose blocking task dies leaves the backend session it created
    running: nothing stops it. *)
Example attach_task_failure_leaves_session :
  let '(r, tr) := ex_setup (false, JoinFailed (codes "task panicked")) in
  r = Err (AttachTask (codes "task panicked")) /\ sessions_open tr = 1 /\
  Forall (fun a => forall reason, a <> StopSession reason) tr.
Proof. vm_compute. split_and!; [done|done|]. by repeat constructor. Qed.
