(* ===== verification/CastDisplaySlot.v ===== *)
(** * The aggregate actor of one display (crates/pronk/src/cast_display_slot.rs)

    Once a display is added, one actor owns it: it alone changes the display's
    snapshot, it asks for another device session when the present one is lost,
    it tells the media policy what it observes, and it takes everything down at
    the end.  A turn of its loop is a function of the input its [select!] took;
    the answers of the components it waits for are the class [SlotWorld], and
    what it does is recorded.

    The theorems: what it publishes is always a valid public state (with
    [PublicState]), it never waits for a session nobody is preparing, and it
    ends by releasing what it owns in order, exactly once. *)

From S2P Require Import Prelude Bytes Text Actor Output PublicTypes Preparation DisplayId MediaSession MediaPolicy DisplaySetup DisplayState.

Definition SLOT_COMMAND_CAPACITY : Z := 8.

(** ** Data *)

Record AddedCastDisplaySnapshot := {
  sn_display_id : CastDisplayId; sn_state_revision : Z; sn_device : DeviceInfo;
  sn_prepared : PreparedCastDevice; sn_output : CastKmsOutput; sn_grant_id : Z;
  sn_grant_state : DisplayGrantState; sn_runtime : DisplayRuntimeState }.

Record KernelDisplayObservation := { ko_topology : DisplayTopology; ko_grant_state : DisplayGrantState }.

Inductive KernelDisplayEvent :=
  | KernelChanged (observation : KernelDisplayObservation)
  | KernelRevoked
  | KernelMediaFailed (error : list Z).

Inductive DeviceSessionStopReason := StopDisplayRemoved | StopDaemonShutdown.

Inductive DeviceSessionRecoveryEvent :=
  | RecoveryReady (request_generation : Z) (device : DeviceInfo) (session_generation : Z)
      (retired_session_cleanup_error : option (list Z))
  | RecoveryFailed (request_generation : Z) (device : DeviceInfo) (error : list Z)
  | TransportFailed (session_generation : Z) (error : list Z).

Record RemoveCastDisplayError := {
  rm_recovery : option (list Z); rm_media : option (list Z); rm_detach : option (list Z) }.

(** What the slot knows of its device session. *)
Record DeviceSessionPolicyState := {
  ready : bool; bound_connection_generation : Z; session_generation : Z;
  pending_request : option (Z * Z * Z) }.

Inductive DeviceSessionAction := CancelRecovery | RecoverSession (device : DeviceInfo).

(** ** The device session *)

Definition policy_new (device : DeviceInfo) (is_ready : bool) (generation : Z) : DeviceSessionPolicyState :=
  {| ready := is_ready; bound_connection_generation := d_connection_generation device;
     session_generation := generation; pending_request := None |}.

Definition is_available (d : DeviceInfo) : bool := bool_decide (d_availability d = Available).

Definition unready (s : DeviceSessionPolicyState) (pending : option (Z * Z * Z)) : DeviceSessionPolicyState :=
  {| ready := false; bound_connection_generation := bound_connection_generation s;
     session_generation := session_generation s; pending_request := pending |}.

Definition observe_device (s : DeviceSessionPolicyState) (device : DeviceInfo)
  : DeviceSessionPolicyState * option DeviceSessionAction :=
  if ready s && (bound_connection_generation s =? d_connection_generation device) then (s, None)
  else if negb (is_available device) then (unready s None, Some CancelRecovery)
  else (unready s (pending_request s), Some (RecoverSession device)).

Definition session_device_available (s : DeviceSessionPolicyState) (device : DeviceInfo) : bool :=
  ready s || is_available device.

Definition request_key (request_generation : Z) (device : DeviceInfo) : Z * Z * Z :=
  (request_generation, d_connection_generation device, d_discovery_generation device).

Definition begin_request (s : DeviceSessionPolicyState) (request_generation : Z) (device : DeviceInfo)
  : DeviceSessionPolicyState :=
  {| ready := ready s; bound_connection_generation := bound_connection_generation s;
     session_generation := session_generation s;
     pending_request := Some (request_key request_generation device) |}.

Definition complete_request (s : DeviceSessionPolicyState) (request_generation : Z) (recovered : DeviceInfo)
    (generation : Z) (current : DeviceInfo) : DeviceSessionPolicyState * bool :=
  if negb (bool_decide (pending_request s = Some (request_key request_generation recovered)))
     || negb (bool_decide (recovered = current)) || negb (is_available current)
  then (s, false)
  else ({| ready := true; bound_connection_generation := d_connection_generation recovered;
           session_generation := generation; pending_request := None |}, true).

Definition fail_request (s : DeviceSessionPolicyState) (request_generation : Z) (device : DeviceInfo)
  : DeviceSessionPolicyState * bool :=
  if negb (bool_decide (pending_request s = Some (request_key request_generation device))) then (s, false)
  else (unready s None, true).

Definition transport_failed (s : DeviceSessionPolicyState) (generation : Z) : DeviceSessionPolicyState * bool :=
  if negb (ready s) || negb (session_generation s =? generation) then (s, false) else (unready s None, true).

(** ** The snapshot *)

Definition with_runtime (s : AddedCastDisplaySnapshot) (grant : DisplayGrantState) (r : DisplayRuntimeState)
  : AddedCastDisplaySnapshot :=
  {| sn_display_id := sn_display_id s; sn_state_revision := revision r; sn_device := sn_device s;
     sn_prepared := sn_prepared s; sn_output := sn_output s; sn_grant_id := sn_grant_id s;
     sn_grant_state := grant; sn_runtime := r |}.

Definition with_revision (r : DisplayRuntimeState) (value : Z) : DisplayRuntimeState :=
  {| revision := value; route_generation := route_generation r; attachment := attachment r; route := route r;
     media_generation := media_generation r; media := media r; last_error := last_error r |}.

Definition initial_snapshot (a : AddedCastDisplay) (grant_id : Z) (o : KernelDisplayObservation)
  : AddedCastDisplaySnapshot :=
  let runtime := (observe_topology (attached (ad_state_revision a)) (ko_topology o)).1 in
  {| sn_display_id := ad_display_id a; sn_state_revision := revision runtime; sn_device := ad_device a;
     sn_prepared := ad_prepared a; sn_output := slot_output (ad_slot a); sn_grant_id := grant_id;
     sn_grant_state := ko_grant_state o; sn_runtime := runtime |}.

(** [Panic]: a failed [debug_assert_eq!]. *)
Definition slot_update_device (s : AddedCastDisplaySnapshot) (device : DeviceInfo)
  : outcome unit (AddedCastDisplaySnapshot * bool) :=
  if negb (same_identity (sn_device s) device) then Panic
  else if bool_decide (sn_device s = device) then Ok (s, false)
  else
    let r := with_revision (sn_runtime s)
               (Z.max (saturating_add64 (revision (sn_runtime s)) 1) (device_revision device)) in
    Ok ({| sn_display_id := sn_display_id s; sn_state_revision := revision r; sn_device := device;
           sn_prepared := sn_prepared s; sn_output := sn_output s; sn_grant_id := sn_grant_id s;
           sn_grant_state := sn_grant_state s; sn_runtime := r |}, true).

(** The media has failed, in the generation it is in. *)
Definition media_failed (r : DisplayRuntimeState) (error : list Z) : DisplayRuntimeState :=
  (observe_media r (media_generation r) Failed (Some error)).1.

Definition no_topology (a : AttachmentState) : DisplayTopology := {| dt_attachment := a; dt_route := None |}.

Definition apply_kernel_event (s : AddedCastDisplaySnapshot) (event : KernelDisplayEvent) : AddedCastDisplaySnapshot :=
  match event with
  | KernelChanged o =>
      let '(r, topology_changed) := observe_topology (sn_runtime s) (ko_topology o) in
      let grant_changed := negb (bool_decide (sn_grant_state s = ko_grant_state o)) in
      with_runtime s (ko_grant_state o)
        (if grant_changed && negb topology_changed then with_revision r (saturating_add64 (revision r) 1) else r)
  | KernelRevoked =>
      let r := (observe_topology (sn_runtime s) (no_topology Detached)).1 in
      with_runtime s Revoked (media_failed r (codes "CastKMS grant was revoked"))
  | KernelMediaFailed error => with_runtime s (sn_grant_state s) (media_failed (sn_runtime s) error)
  end.

Definition kernel_lost (s : AddedCastDisplaySnapshot) (diagnostic : list Z) : AddedCastDisplaySnapshot :=
  let r := (observe_topology (sn_runtime s) (no_topology UnknownAttachment)).1 in
  with_runtime s (sn_grant_state s) (media_failed r diagnostic).

Definition apply_media (s : AddedCastDisplaySnapshot) (m : MediaSessionSnapshot) : AddedCastDisplaySnapshot * bool :=
  let '(r, changed) := observe_media (sn_runtime s) (ms_media_generation m) (ms_state m) (ms_last_error m) in
  if changed then (with_runtime s (sn_grant_state s) r, true) else (s, false).

Definition media_policy_input (s : AddedCastDisplaySnapshot) (p : DeviceSessionPolicyState) : MediaPolicyInput :=
  {| pi_attachment := attachment (sn_runtime s); pi_grant := sn_grant_state s;
     device_available := session_device_available p (sn_device s); device_session_ready := ready p;
     device_session_generation := session_generation p; pi_route := from_display_state (sn_runtime s) |}.

(** ** The actor *)

Inductive slot_action :=
  | SlotPublished (s : AddedCastDisplaySnapshot)
  | ObservePolicy (input : MediaPolicyInput)
  | ReplyUpdated (changed : bool)
  | CancelPhase
  | Recover (device : DeviceInfo) (accepted : option Z)
  | ReportFailureToPolicy (error : list Z)
  | ShutdownRecovery | ShutdownMedia (reason : MediaStopReason) | DetachKernel | ReleaseSlot
  | ReplyRemoved (result : outcome RemoveCastDisplayError unit)
  | TerminalFailure (error : list Z) (cleanup_error : option RemoveCastDisplayError).

Abbreviation slot_trace := (list slot_action).

Class SlotWorld := {
  (* the request generation, or the text of an error *)
  recover : slot_trace -> DeviceInfo -> list Z + Z;
  shutdown_recovery : slot_trace -> option (list Z);
  shutdown_media : slot_trace -> option (list Z);
  detach_kernel : slot_trace -> option (list Z) }.

Record slot := {
  sl_snapshot : AddedCastDisplaySnapshot; sl_session : DeviceSessionPolicyState;
  sl_media_events_open : bool; sl_trace : slot_trace }.

Inductive slot_input :=
  | UpdateDevice (device : DeviceInfo)
  | Remove (reason : DeviceSessionStopReason)
  | CommandsClosed
  | KernelEvent (event : KernelDisplayEvent)
  | KernelError (diagnostic : list Z)
  | RecoveryEvent (event : DeviceSessionRecoveryEvent)
  | RecoveryStopped
  | MediaChanged (m : MediaSessionSnapshot)
  | MediaClosed
  | RecoveryExhausted (error : list Z)
  | PolicyStopped.

(** How a turn of the loop ends. *)
Inductive turn :=
  | Continue
  | Break (removal : option DeviceSessionStopReason) (terminal_error : option (list Z))
  | SlotPanicked.

Definition did (a : slot_action) : actor slot unit :=
  fun s => (tt, {| sl_snapshot := sl_snapshot s; sl_session := sl_session s;
                   sl_media_events_open := sl_media_events_open s; sl_trace := sl_trace s ++ [a] |}).

Definition set_snapshot (n : AddedCastDisplaySnapshot) : actor slot unit :=
  fun s => (tt, {| sl_snapshot := n; sl_session := sl_session s;
                   sl_media_events_open := sl_media_events_open s; sl_trace := sl_trace s |}).

Definition set_session (p : DeviceSessionPolicyState) : actor slot unit :=
  fun s => (tt, {| sl_snapshot := sl_snapshot s; sl_session := p;
                   sl_media_events_open := sl_media_events_open s; sl_trace := sl_trace s |}).

Definition close_media_events : actor slot unit :=
  fun s => (tt, {| sl_snapshot := sl_snapshot s; sl_session := sl_session s; sl_media_events_open := false;
                   sl_trace := sl_trace s |}).

Definition get : actor slot slot := fun s => (s, s).

Definition publish : actor slot unit := let* s := get in did (SlotPublished (sl_snapshot s)).

Definition observe_policy : actor slot unit :=
  let* s := get in did (ObservePolicy (media_policy_input (sl_snapshot s) (sl_session s))).

Definition publish_media_failure (diagnostic : list Z) : actor slot unit :=
  let* s := get in
  let n := sl_snapshot s in
  do* set_snapshot (with_runtime n (sn_grant_state n) (media_failed (sn_runtime n) diagnostic));
  publish.

Section Slot.
Context `{W : SlotWorld}.

(** [recovery_handle.recover], and the request it begins. *)
Definition start_recovery (device : DeviceInfo) : actor slot (option (list Z)) :=
  let* s := get in
  match recover (sl_trace s) device with
  | inr request_generation =>
      do* did (Recover device (Some request_generation));
      do* set_session (begin_request (sl_session s) request_generation device);
      aret None
  | inl error => do* did (Recover device None); aret (Some error)
  end.

Definition on_update_device (device : DeviceInfo) : actor slot turn :=
  let* s := get in
  let '(session, action) := observe_device (sl_session s) device in
  do* set_session session;
  match slot_update_device (sl_snapshot s) device with
  | Ok (n, changed) =>
      do* set_snapshot n;
      do* (if changed : bool then publish else aret tt);
      do* (if changed || (if action then true else false) then observe_policy else aret tt);
      do* did (ReplyUpdated changed);
      match action with
      | None => aret Continue
      | Some CancelRecovery => do* did CancelPhase; aret Continue
      | Some (RecoverSession device) =>
          let* refused := start_recovery device in
          match refused with
          | None => aret Continue
          | Some error =>
              let diagnostic := codes "start Device-session recovery: " ++ error in
              do* publish_media_failure diagnostic;
              aret (Break None (Some diagnostic))
          end
      end
  | _ => aret SlotPanicked
  end.

Definition on_kernel_event (event : KernelDisplayEvent) : actor slot turn :=
  let* s := get in
  do* set_snapshot (apply_kernel_event (sl_snapshot s) event);
  do* publish;
  do* observe_policy;
  match event with
  | KernelMediaFailed error => do* did (ReportFailureToPolicy error); aret Continue
  | KernelRevoked => aret (Break None (Some (codes "CastKMS grant was revoked")))
  | KernelChanged _ => aret Continue
  end.

Definition on_kernel_error (diagnostic : list Z) : actor slot turn :=
  let* s := get in
  do* set_snapshot (kernel_lost (sl_snapshot s) diagnostic);
  do* publish;
  aret (Break None (Some diagnostic)).

Definition on_transport_failed (generation : Z) (error : list Z) : actor slot turn :=
  let* s := get in
  let '(session, applies) := transport_failed (sl_session s) generation in
  if negb applies then aret Continue
  else
    let diagnostic := codes "Device session transport failed: " ++ error in
    do* set_session session;
    do* publish_media_failure diagnostic;
    do* observe_policy;
    let current := sn_device (sl_snapshot s) in
    let* refused := (if is_available current then start_recovery current else aret None) in
    do* did (ReportFailureToPolicy diagnostic);
    aret match refused with
         | None => Continue
         | Some recovery_error =>
             Break None (Some (codes "start recovery after Device-session transport failure: " ++ recovery_error))
         end.

Definition on_recovery_event (event : DeviceSessionRecoveryEvent) : actor slot turn :=
  let* s := get in
  match event with
  | RecoveryReady request_generation device generation _ =>
      let '(session, applies) :=
        complete_request (sl_session s) request_generation device generation (sn_device (sl_snapshot s)) in
      if negb applies then aret Continue
      else do* set_session session; do* observe_policy; aret Continue
  | RecoveryFailed request_generation device error =>
      let '(session, applies) := fail_request (sl_session s) request_generation device in
      if negb applies then aret Continue
      else
        let diagnostic := codes "Device-session recovery failed: " ++ error in
        do* set_session session;
        do* publish_media_failure diagnostic;
        aret (Break None (Some diagnostic))
  | TransportFailed generation error => on_transport_failed generation error
  end.

Definition on_media_changed (m : MediaSessionSnapshot) : actor slot turn :=
  let* s := get in
  let '(n, changed) := apply_media (sl_snapshot s) m in
  do* set_snapshot n;
  do* (if changed : bool then publish else aret tt);
  aret Continue.

(** A branch that is switched off is not taken: the input is ignored. *)
Definition turn_of (i : slot_input) : actor slot turn :=
  match i with
  | UpdateDevice device => on_update_device device
  | Remove reason => aret (Break (Some reason) None)
  | CommandsClosed => aret (Break None None)
  | KernelEvent event => on_kernel_event event
  | KernelError diagnostic => on_kernel_error diagnostic
  | RecoveryEvent event => on_recovery_event event
  | RecoveryStopped =>
      let diagnostic := codes "Device-session recovery coordinator stopped" in
      do* publish_media_failure diagnostic; aret (Break None (Some diagnostic))
  | MediaChanged m =>
      let* s := get in if sl_media_events_open s then on_media_changed m else aret Continue
  | MediaClosed => do* close_media_events; aret Continue
  | RecoveryExhausted error => aret (Break None (Some error))
  | PolicyStopped => aret (Break None (Some (codes "media recovery policy stopped unexpectedly")))
  end.

Definition stop_reason (removal : option DeviceSessionStopReason) (terminal_error : option (list Z))
  : DeviceSessionStopReason :=
  match removal with
  | Some reason => reason
  | None => match terminal_error with Some _ => StopDisplayRemoved | None => StopDaemonShutdown end
  end.

Definition media_reason (reason : DeviceSessionStopReason) : MediaStopReason :=
  match reason with
  | StopDisplayRemoved => MediaSession.DisplayRemoved
  | StopDaemonShutdown => MediaSession.BackendShutdown
  end.

Definition removal_result (e : RemoveCastDisplayError) : outcome RemoveCastDisplayError unit :=
  match rm_recovery e, rm_media e, rm_detach e with None, None, None => Ok tt | _, _, _ => Err e end.

Definition attempt (answer : slot_trace -> option (list Z)) (a : slot_action) : actor slot (option (list Z)) :=
  let* s := get in do* did a; aret (answer (sl_trace s)).

(** What follows the loop. *)
Definition teardown (removal : option DeviceSessionStopReason) (terminal_error : option (list Z)) : actor slot unit :=
  let* recovery_error := attempt shutdown_recovery ShutdownRecovery in
  let* media_error :=
    attempt shutdown_media (ShutdownMedia (media_reason (stop_reason removal terminal_error))) in
  let* detach_error := attempt detach_kernel DetachKernel in
  let result := removal_result {| rm_recovery := recovery_error; rm_media := media_error; rm_detach := detach_error |} in
  do* did ReleaseSlot;
  match removal, terminal_error with
  | Some _, _ => did (ReplyRemoved result)
  | None, Some error => did (TerminalFailure error match result with Err e => Some e | _ => None end)
  | None, None => aret tt
  end.

(** The inputs it takes, one turn each; [Continue]: it is still running. *)
Fixpoint run_slot (inputs : list slot_input) : actor slot turn :=
  match inputs with
  | [] => aret Continue
  | i :: inputs' =>
      let* t := turn_of i in
      match t with
      | Continue => run_slot inputs'
      | Break removal terminal_error => do* teardown removal terminal_error; aret t
      | SlotPanicked => aret SlotPanicked
      end
  end.

Definition slot_init (a : AddedCastDisplay) (grant_id : Z) (o : KernelDisplayObservation) : slot :=
  let n := initial_snapshot a grant_id o in
  let session := policy_new (device (ad_prepared a)) (is_available (sn_device n)) (ad_session_generation a) in
  {| sl_snapshot := n; sl_session := session; sl_media_events_open := true;
     sl_trace := [ObservePolicy (media_policy_input n session)] |}.

End Slot.

(** ** A session that is missing is being prepared *)

Definition awaited (s : slot) : Prop :=
  exists g, pending_request (sl_session s) = Some (request_key g (sn_device (sl_snapshot s))) /\
            Recover (sn_device (sl_snapshot s)) (Some g) ∈ sl_trace s.

Definition attended (s : slot) : Prop :=
  ready (sl_session s) = false -> is_available (sn_device (sl_snapshot s)) = true -> awaited s.

(** [later_than s s']: nothing was forgotten, and the device and its session are as they were. *)
Definition later_than (s s' : slot) : Prop :=
  sl_session s' = sl_session s /\ sn_device (sl_snapshot s') = sn_device (sl_snapshot s) /\
  exists more, sl_trace s' = sl_trace s ++ more.

Lemma attended_later s s' : later_than s s' -> attended s -> attended s'.
Proof.
  intros (E1 & E2 & more & E3) H. unfold attended, awaited. rewrite E1, E2, E3. intros Hr Ha.
  destruct (H Hr Ha) as (g & Hp & Hin). exists g. split; [done|]. apply elem_of_app. by left.
Qed.

Lemma later_refl_slot s : later_than s s.
Proof. split_and!; [done|done|]. exists []. by rewrite app_nil_r. Qed.

Lemma later_trans_slot s1 s2 s3 : later_than s1 s2 -> later_than s2 s3 -> later_than s1 s3.
Proof.
  intros (E1 & E2 & m & E3) (F1 & F2 & m' & F3). unfold later_than. rewrite F1, F2, E1, E2.
  split_and!; [done|done|]. exists (m ++ m'). by rewrite F3, E3, app_assoc.
Qed.

Lemma update_device_after n d n' changed :
  slot_update_device n d = Ok (n', changed) -> sn_device n' = d /\ same_identity (sn_device n) d = true.
Proof.
  unfold slot_update_device. destruct (same_identity (sn_device n) d) eqn:E; [|done]. cbn [negb].
  case_bool_decide as H; intros [= <- <-]; by split.
Qed.

Section Attended.
Context `{W : SlotWorld}.

Abbreviation keeps m := (forall s, later_than s (m s).2).

Lemma keeps_did a : keeps (did a).
Proof. intros s. split_and!; [done|done|by eexists]. Qed.

Lemma keeps_publish : keeps publish.
Proof. intros s. apply keeps_did. Qed.

Lemma keeps_policy : keeps observe_policy.
Proof. intros s. apply keeps_did. Qed.

Lemma keeps_failure d : keeps (publish_media_failure d).
Proof. intros s. split_and!; [done|done|by eexists]. Qed.

Lemma keeps_ret {A} (a : A) : keeps (@aret slot A a).
Proof. intros s. apply later_refl_slot. Qed.

Lemma keeps_when (b : bool) m : keeps m -> keeps (if b then m else aret tt).
Proof. intros Hm. destruct b; [done|apply keeps_ret]. Qed.

Lemma runs_keeps {A B} s1 (m : actor slot A) (k : A -> actor slot B) Q :
  keeps m -> (forall a, runs (k a) (later_than s1) Q) -> runs (abind m k) (later_than s1) Q.
Proof.
  intros Hm Hk. eapply runs_bind; [|exact Hk]. intros s Hs. by eapply later_trans_slot.
Qed.

Abbreviation attends := (fun t s => t = Continue -> attended s).

Lemma runs_get {A} (k : slot -> actor slot A) P Q :
  (forall s, P s -> runs (k s) (eq s) Q) -> runs (abind get k) P Q.
Proof. intros Hk s Hs. exact (Hk s Hs s eq_refl). Qed.

(** A step that is known. *)
Lemma runs_known {A B} (m : actor slot A) (k : A -> actor slot B) s Q :
  runs (k (m s).1) (eq (m s).2) Q -> runs (abind m k) (eq s) Q.
Proof. intros Hk s' <-. unfold abind. specialize (Hk _ eq_refl). by destruct (m s). Qed.

Lemma runs_from {A} (m : actor slot A) s1 Q : runs m (later_than s1) Q -> runs m (eq s1) Q.
Proof. intros Hm. eapply runs_pre; [exact Hm|]. intros s <-. apply later_refl_slot. Qed.

Lemma runs_still s1 : attended s1 -> runs (aret Continue) (later_than s1) attends.
Proof. intros Hs. apply runs_ret. intros s Hl _. by eapply attended_later. Qed.

Lemma runs_over (P : slot -> Prop) r e : runs (aret (Break r e)) P attends.
Proof. by apply runs_ret. Qed.

(** After [start_recovery] an answer is awaited for that device, or it was refused. *)
Lemma start_recovery_awaits s :
  let '(refused, s') := start_recovery (sn_device (sl_snapshot s)) s in
  (exists more, sl_trace s' = sl_trace s ++ more) /\ (refused = None -> awaited s') /\
  sl_snapshot s' = sl_snapshot s /\ ready (sl_session s') = ready (sl_session s).
Proof.
  unfold start_recovery, abind, get, did, set_session, aret. cbn [fst snd].
  destruct (recover (sl_trace s) _) as [e|g]; cbn; split_and!; try done; try (by eexists).
  intros _. exists g. cbn. split; [done|]. apply elem_of_app. right. by left.
Qed.

Lemma runs_recovery s1 d (Q : option (list Z) -> actor slot turn) :
  sn_device (sl_snapshot s1) = d ->
  (forall e, runs (Q e) (fun s => e = None -> awaited s) attends) ->
  runs (let* refused := start_recovery d in Q refused) (later_than s1) attends.
Proof.
  intros Hd HQ s (E1 & E2 & more & E3). rewrite <- Hd, <- E2. unfold abind.
  pose proof (start_recovery_awaits s) as Hr. destruct (start_recovery _ s) as [e s']. apply HQ, Hr.
Qed.

Lemma awaited_attended s : awaited s -> attended s.
Proof. by intros ? ? ?. Qed.

Lemma update_attended device : runs (on_update_device device) attended attends.
Proof.
  apply runs_get. intros s Hs.
  destruct (observe_device (sl_session s) device) as [session action] eqn:Eo. apply runs_known.
  destruct (slot_update_device (sl_snapshot s) device) as [[n changed]|e|] eqn:Eu; [|by apply runs_ret..].
  apply update_device_after in Eu as [Hd _]. apply runs_known.
  cbn [fst snd set_session set_snapshot sl_snapshot sl_session sl_media_events_open sl_trace].
  set (s1 := {| sl_snapshot := n; sl_session := session; sl_media_events_open := _; sl_trace := sl_trace s |}).
  apply runs_from.
  apply runs_keeps; [apply keeps_when, keeps_publish|intros _].
  apply runs_keeps; [apply keeps_when, keeps_policy|intros _].
  apply runs_keeps; [apply keeps_did|intros _].
  unfold observe_device in Eo. destruct (ready (sl_session s) && _) eqn:Er; [|destruct (is_available device) eqn:Ea].
  - injection Eo as <- <-. apply runs_still. intros Hr. apply andb_true_iff in Er as [Er _]. cbn in Hr. congruence.
  - injection Eo as <- <-. apply runs_recovery; [done|]. intros [e|].
    + apply (runs_bind _ _ _ (fun _ _ => True)); [by intros ? ?|intros ?; apply runs_over].
    + apply runs_ret. intros s' H _. by apply awaited_attended, H.
  - injection Eo as <- <-. apply runs_keeps; [apply keeps_did|intros _].
    apply runs_still. intros _ Ha. cbn in Ha. congruence.
Qed.

Lemma transport_attended g e : runs (on_transport_failed g e) attended attends.
Proof.
  apply runs_get. intros s Hs.
  destruct (transport_failed (sl_session s) g) as [session applies] eqn:Et. destruct applies; [|by intros ? <-].
  cbn [negb]. apply runs_known. cbn [fst snd set_session].
  set (s1 := {| sl_snapshot := sl_snapshot s; sl_session := session; sl_media_events_open := _; sl_trace := _ |}).
  apply runs_from.
  apply runs_keeps; [apply keeps_failure|intros _].
  apply runs_keeps; [apply keeps_policy|intros _].
  destruct (is_available (sn_device (sl_snapshot s))) eqn:Ea.
  - apply runs_recovery; [done|]. intros [r|].
    + apply (runs_bind _ _ _ (fun _ _ => True)); [by intros ? ?|intros ?; apply runs_over].
    + intros s' Hs' _. apply (attended_later s'); [apply keeps_did|]. by apply awaited_attended, Hs'.
  - apply runs_keeps; [apply keeps_ret|intros a]. destruct a; [|]; (apply runs_keeps; [apply keeps_did|intros _]).
    + apply runs_over.
    + apply runs_still. intros _ Ha. cbn in Ha. congruence.
Qed.

Lemma recovery_attended e : runs (on_recovery_event e) attended attends.
Proof.
  apply runs_get. intros s Hs. destruct e as [g d sg c|g d e|g e].
  - unfold complete_request. destruct (_ || negb (is_available _)); intros ? <-; [done|]. intros _ Hr. discriminate Hr.
  - unfold fail_request. destruct (negb _); intros ? <-; [done|]. intros [=].
  - intros ? <-. by apply transport_attended.
Qed.

Lemma turn_attended i : runs (turn_of i) attended attends.
Proof.
  destruct i; cbn [turn_of]; try (by intros s Hs).
  - apply update_attended.
  - intros s Hs _. eapply attended_later; [|exact Hs]. unfold on_kernel_event, abind, get.
    destruct event; (split_and!; [done|cbn|cbn; rewrite <- ?app_assoc; by eexists]); [|done..].
    unfold apply_kernel_event. by destruct (observe_topology _ _).
  - apply recovery_attended.
  - intros s Hs _. eapply attended_later; [|exact Hs]. unfold abind, get. destruct (sl_media_events_open s); [|apply later_refl_slot].
    unfold on_media_changed, abind, get. destruct (apply_media (sl_snapshot s) m) as [n changed] eqn:E.
    assert (sn_device n = sn_device (sl_snapshot s)) as Hn.
    { unfold apply_media in E. destruct (observe_media _ _ _ _) as [r []]; by injection E as <- <-. }
    destruct changed; (split_and!; [done|done|]); [by eexists|exists []; by rewrite app_nil_r].
Qed.

Lemma run_attended inputs : runs (run_slot inputs) attended attends.
Proof.
  induction inputs as [|i inputs IH]; cbn [run_slot]; [by intros s Hs|].
  eapply runs_bind; [apply turn_attended|]. intros [|r e|]; [| |by intros s _].
  - intros s Hs. by apply IH, Hs.
  - apply (runs_bind _ _ _ (fun _ _ => True)); [by intros ? ?|intros ?; apply runs_over].
Qed.

(** C22: a display that lost its device session and can have another is never
    left waiting for nothing.  While the slot runs, if the session is not ready
    and the device is available, a recovery was asked for, for exactly the
    device as it is now; when it succeeds the session is ready, when it fails
    the slot ends, and nothing else that a recovery can report has any effect:
    neither the success nor the failure of an earlier request or for a device
    that has since reconnected or been rediscovered, nor the success for one
    that changed in any way, nor the failure of a session's transport. *)
Theorem missing_session_is_awaited a grant_id o inputs s :
  run_slot inputs (slot_init a grant_id o) = (Continue, s) ->
  let current := sn_device (sl_snapshot s) in
  ready (sl_session s) = false -> is_available current = true ->
  exists g, Recover current (Some g) ∈ sl_trace s /\
    (forall generation cleanup,
       let '(t, s') := turn_of (RecoveryEvent (RecoveryReady g current generation cleanup)) s in
       t = Continue /\ ready (sl_session s') = true /\ session_generation (sl_session s') = generation) /\
    (forall error, exists text,
       (turn_of (RecoveryEvent (RecoveryFailed g current error)) s).1 = Break None (Some text)) /\
    (forall g' device generation cleanup, g' <> g \/ device <> current ->
       turn_of (RecoveryEvent (RecoveryReady g' device generation cleanup)) s = (Continue, s)) /\
    (forall g' device error, request_key g' device <> request_key g current ->
       turn_of (RecoveryEvent (RecoveryFailed g' device error)) s = (Continue, s)) /\
    (forall generation error, turn_of (RecoveryEvent (TransportFailed generation error)) s = (Continue, s)).
Proof.
  intros Hrun current Hr Ha. pose proof (run_attended inputs (slot_init a grant_id o)) as Hinv.
  rewrite Hrun in Hinv. cbn [fst snd] in Hinv. destruct (Hinv) as (g & Hp & Hin); [|done|done|done|].
  { intros H1 H2. cbn in H1, H2. congruence. }
  exists g. fold current in Hp, Hin |- *. split_and!; [done| | | | |].
  - intros generation cleanup. cbn [turn_of]. unfold on_recovery_event, abind, get. cbn [fst snd].
    unfold complete_request. fold current. rewrite Hp, Ha, !bool_decide_eq_true_2 by done. done.
  - intros e. eexists. cbn [turn_of]. unfold on_recovery_event, abind, get. cbn [fst snd].
    unfold fail_request. rewrite Hp, bool_decide_eq_true_2 by done. reflexivity.
  - intros g' d generation cleanup Hne. cbn [turn_of]. unfold on_recovery_event, abind, get. cbn [fst snd].
    unfold complete_request. fold current. rewrite Hp.
    destruct (negb _ || _ || _) eqn:E; [done|]. apply orb_false_iff in E as [[E1 E2]%orb_false_iff _].
    apply negb_false_iff, bool_decide_eq_true in E1, E2. unfold request_key in E1. naive_solver.
  - intros g' d e Hne. cbn [turn_of]. unfold on_recovery_event, abind, get. cbn [fst snd].
    unfold fail_request. rewrite Hp, bool_decide_eq_false_2 by (intros E; apply Hne; congruence). done.
  - intros g' e. cbn [turn_of]. unfold on_recovery_event, on_transport_failed, abind, get. cbn [fst snd].
    unfold transport_failed. by rewrite Hr.
Qed.
End Attended.

(** ** The end *)

Definition is_release (a : slot_action) : bool :=
  match a with
  | ShutdownRecovery | ShutdownMedia _ | DetachKernel | ReleaseSlot | ReplyRemoved _ | TerminalFailure _ _ => true
  | _ => false
  end.

Definition holding (s : slot) : Prop := Forall (fun a => is_release a = false) (sl_trace s).

Section Ends.
Context `{W : SlotWorld}.

Abbreviation busy m := (runs m holding (fun _ => holding)).

Lemma busy_bind {A B} (m : actor slot A) (k : A -> actor slot B) : busy m -> (forall a, busy (k a)) -> busy (abind m k).
Proof. intros Hm Hk. by eapply runs_bind. Qed.

Lemma busy_ret {A} (a : A) : busy (aret a).
Proof. by apply runs_ret. Qed.

Lemma busy_did a : is_release a = false -> busy (did a).
Proof. intros Ha s Hs. apply Forall_app. split; [done|]. by constructor. Qed.

Ltac busily :=
  repeat first
    [ apply busy_ret | apply busy_did; reflexivity | apply busy_bind; [|intros ?]
    | by intros ? ? | case_match ].

Lemma busy_recovery d : busy (start_recovery d).
Proof. unfold start_recovery. busily. Qed.

Lemma busy_transport g e : busy (on_transport_failed g e).
Proof.
  unfold on_transport_failed. apply busy_bind; [by intros ? ?|intros s].
  destruct (transport_failed (sl_session s) g) as [session []]; cbn [negb]; [|apply busy_ret].
  unfold publish_media_failure, publish, observe_policy.
  busily.
Qed.

Lemma busy_turn i : busy (turn_of i).
Proof.
  destruct i as [d|r| |e|e|e| |m| |e|]; cbn [turn_of]; try apply busy_ret.
  - unfold on_update_device. apply busy_bind; [by intros ? ?|intros s].
    destruct (observe_device (sl_session s) d) as [session action]. apply busy_bind; [by intros ? ?|intros ?].
    destruct (slot_update_device (sl_snapshot s) d) as [[n changed]|e|]; [|apply busy_ret..].
    unfold publish_media_failure, publish, observe_policy. repeat (apply busy_bind; [by busily|intros ?]).
    destruct action as [[|d']|]; [busily| |apply busy_ret].
    apply busy_bind; [apply busy_recovery|intros ?]. busily.
  - unfold on_kernel_event, publish, observe_policy. busily.
  - unfold on_kernel_error, publish. busily.
  - unfold on_recovery_event. apply busy_bind; [by intros ? ?|intros s].
    destruct e as [g d sg c|g d e|g e]; [| |apply busy_transport]; unfold publish_media_failure, publish, observe_policy; busily.
  - unfold publish_media_failure, publish. busily.
  - unfold on_media_changed, publish. busily.
  - busily.
Qed.

(** A slot that ends has released what it owned exactly once and in order:
    the recovery actor, then the media, then the monitor, then the output's
    reservation, with the reason the end asks for; it does so after the last
    thing it publishes, and tells the one who asked for the removal, or else
    the manager, only then, with success exactly when the three shutdowns
    succeeded.  A slot that has not ended has released nothing. *)
Theorem slot_ends_in_order a grant_id o inputs :
  let '(t, s) := run_slot inputs (slot_init a grant_id o) in
  match t with
  | Break removal terminal_error =>
      exists before errors,
        Forall (fun a => is_release a = false) before /\
        sl_trace s = before
          ++ [ShutdownRecovery; ShutdownMedia (media_reason (stop_reason removal terminal_error)); DetachKernel; ReleaseSlot]
          ++ match removal, terminal_error with
             | Some _, _ => [ReplyRemoved (removal_result errors)]
             | None, Some error =>
                 [TerminalFailure error match removal_result errors with Err e => Some e | _ => None end]
             | None, None => []
             end /\
        rm_recovery errors = shutdown_recovery before /\
        rm_media errors = shutdown_media (before ++ [ShutdownRecovery]) /\
        rm_detach errors = detach_kernel (before ++ [ShutdownRecovery; ShutdownMedia (media_reason (stop_reason removal terminal_error))])
  | Continue | SlotPanicked => Forall (fun a => is_release a = false) (sl_trace s)
  end.
Proof.
  assert (holding (slot_init a grant_id o)) as H0 by (by repeat constructor).
  revert H0. generalize (slot_init a grant_id o). induction inputs as [|i inputs IH]; intros s Hs; [done|].
  cbn [run_slot]. unfold abind at 1. pose proof (busy_turn i s Hs) as Ht. destruct (turn_of i s) as [[|r e|] s1]; cbn [fst snd] in Ht.
  - by apply IH.
  - unfold teardown, attempt, abind, did, get, aret. cbn [fst snd sl_trace].
    destruct r as [r|]; [|destruct e as [e|]]; cbn [fst snd sl_trace]; rewrite <- ?app_assoc;
      exists (sl_trace s1);
      (eexists {| rm_recovery := _; rm_media := _; rm_detach := _ |}; split; [done|split; [reflexivity|done]]).
  - done.
Qed.
End Ends.

(** ** A run *)

Definition ex_prepared : PreparedCastDevice :=
  {| device := ex_tv "Living Room TV" 3; prepared_capabilities := ex_offered;
     pnp_resolution := {| Identity.rp_pnp_id := codes "GGL"; Identity.rp_database_name := None;
                          Identity.rp_source := Identity.SynthesizerFallback; Identity.rp_candidate_count := 0 |};
     provenance := {| prov_manufacturer_source := BackendProtocol.Absent;
                      prov_product_source := BackendProtocol.Absent; display_name_omitted_from_edid := false |};
     generated_edid := {| Edid.ge_identity := {| Edid.pnp_id := codes "GGL"; Edid.product_code := 1; Edid.serial := 1 |};
                          Edid.ge_display_name := None; Edid.ge_modes := []; Edid.ge_audio := false;
                          Edid.ge_cec_physical_address := None; Edid.ge_edid := [] |} |}.

Definition ex_added : AddedCastDisplay :=
  {| ad_display_id := repeat 0 16; ad_state_revision := 3; ad_device := ex_tv "Living Room TV" 3;
     ad_prepared := ex_prepared; ad_slot := take_selection ex_slot; ad_video_profile := codes "h264";
     ad_audio_profile := None; ad_session_generation := 1 |}.

Definition ex_slot_world : SlotWorld :=
  {| recover := fun tr _ => inr (Z.of_nat (length tr)); shutdown_recovery := fun _ => None;
     shutdown_media := fun _ => Some (codes "media phase stop media timed out"); detach_kernel := fun _ => None |}.

Definition ex_observation : KernelDisplayObservation :=
  {| ko_topology := no_topology Attached; ko_grant_state := GrantActive |}.

Definition ex_inputs : list slot_input :=
  [KernelEvent (KernelChanged ex_observation); RecoveryEvent (TransportFailed 1 (codes "connection closed"))].

Abbreviation ex_run inputs := (run_slot (W := ex_slot_world) inputs (slot_init ex_added 7 ex_observation)).

Lemma missing_session_is_awaited_witness :
  exists g, Recover (ex_tv "Living Room TV" 3) (Some g) ∈ sl_trace (ex_run ex_inputs).2 /\
    (turn_of (W := ex_slot_world) (RecoveryEvent (RecoveryFailed g (ex_tv "Living Room TV" 3) [])) (ex_run ex_inputs).2).1
      <> Continue.
Proof.
  destruct (missing_session_is_awaited (W := ex_slot_world) ex_added 7 ex_observation ex_inputs (ex_run ex_inputs).2)
    as (g & Hin & _ & Hf & _ & _ & _); [by vm_compute|by vm_compute|by vm_compute|].
  exists g. split; [exact Hin|]. destruct (Hf []) as [text Ht]. intros E. pose proof (eq_trans (eq_sym E) Ht) as H. discriminate H.
Defined.

(** Removing it reports the media that could not be stopped. *)
Example removal_reports_media :
  last (sl_trace (ex_run (ex_inputs ++ [Remove StopDisplayRemoved])).2) =
    Some (ReplyRemoved (Err {| rm_recovery := None; rm_media := Some (codes "media phase stop media timed out");
                               rm_detach := None |})).
Proof. by vm_compute. Qed.
