(* ===== verification/PublicState.v ===== *)
(** * What clients see (crates/pronk/src/dbus.rs)

    The functions that turn the daemon's internal snapshots into the types of
    its D-Bus interface.  Whatever a component publishes must pass the
    validation its clients apply; these are the theorems that compose the setup
    operation, the slot actor, the media session and the preparation of a device
    with the validators of [PublicTypes]. *)

From S2P Require Import Prelude Bytes Text Actor Ordering Identity BackendProtocol Edid EdidLayout Preparation DisplayId MediaSession MediaPolicy DisplaySetup CastDisplaySlot Output DisplayState PublicTypes.

(** ** Projections *)

Definition public_stage (s : DisplaySetupStage) : OperationStage :=
  match s with
  | StageValidating => Validating | StageAuthorizing => Authorizing | StagePreparingDevice => PreparingDevice
  | StageAttaching => Attaching | StageAdded => Added | StageCancelled => Cancelled | StageFailed => OperationFailed
  end.

Definition public_operation_state (s : DisplaySetupSnapshot) : OperationState :=
  {| o_display_id := display_id_text (ds_display_id s); stage := public_stage (ds_stage s);
     error_code := ds_error_code s; o_error := default [] (ds_error s) |}.

Definition public_attachment_state (a : AttachmentState) : DisplayAttachmentState :=
  match a with
  | Attached => DisplayAttached | Detached => DisplayDetached | UnknownAttachment => DisplayUnknown
  end.

Definition public_identity_source (s : IdentitySource) : DisplayIdentitySource :=
  match s with
  | Absent => IdentityAbsent | SetupEndpoint => FromSetupEndpoint
  | AuthenticatedDeviceInfo => FromAuthenticatedDeviceInfo
  | DiscoveryAdvertisement => FromDiscoveryAdvertisement
  end.

Definition public_pnp_source (s : Identity.PnpResolutionSource) : PublicTypes.PnpResolutionSource :=
  match s with
  | Identity.AuthenticatedPnpId => ByAuthenticatedPnpId | Identity.ExactName => ByExactName
  | Identity.LegalSuffixName => ByLegalSuffixName | Identity.ReviewedAlias => ByReviewedAlias
  | Identity.SynthesizerFallback => BySynthesizerFallback
  end.

Definition public_display (s : AddedCastDisplaySnapshot) : CastDisplayInfo :=
  let identity := display_identity (prepared_capabilities (sn_prepared s)) in
  let numeric_identity := ge_identity (generated_edid (sn_prepared s)) in
  {| c_display_id := display_id_text (sn_display_id s); c_backend_id := d_backend_id (sn_device s);
     c_device_id := d_device_id (sn_device s); c_display_name := d_display_name (sn_device s);
     c_manufacturer_name := default [] (manufacturer_name identity);
     c_manufacturer_source := public_identity_source (manufacturer_source identity);
     c_product_name := default [] (product_name identity);
     c_product_source := public_identity_source (product_source identity);
     c_pnp_id := rp_pnp_id (pnp_resolution (sn_prepared s));
     c_pnp_resolution_source := public_pnp_source (rp_source (pnp_resolution (sn_prepared s)));
     c_connector_id := Output.connector_id (sn_output s);
     c_connector_name := codes (Output.connector_name (sn_output s));
     c_output_index := Output.output_index (Output.id (sn_output s));
     c_product_code := product_code numeric_identity; c_serial := serial numeric_identity;
     c_attachment := public_attachment_state (attachment (sn_runtime s)) |}.

Definition public_display_state (s : AddedCastDisplaySnapshot) : CastDisplayState :=
  {| st_revision := sn_state_revision s; st_device := sn_device s;
     st_attachment := public_attachment_state (attachment (sn_runtime s));
     st_route := match route (sn_runtime s) with Disabled => RouteDisabled | Active _ => RouteActive end;
     st_mode := match route (sn_runtime s) with
                | Disabled => None
                | Active r => Some {| r_width := rm_width (ar_mode r); r_height := rm_height (ar_mode r);
                                      r_refresh_millihz := rm_refresh_millihz (ar_mode r);
                                      r_flags := rm_flags (ar_mode r) |}
                end |}.

Definition public_phase (m : MediaState) : MediaSessionPhase :=
  match m with
  | Idle => Inactive
  | StartingCapture | StartingMedia => Starting
  | Running => PhaseRunning
  | Suspended => PhaseSuspended
  | Reconfiguring | Reconnecting => Recovering
  | Stopping => PhaseStopping
  | Failed => PhaseFailed
  end.

Definition MISSING_DIAGNOSTIC : list Z := codes "media session failed without diagnostic detail".

Definition public_media_error (error : option (list Z)) : list Z :=
  let error := trim ((fun c => if is_control c then 32 else c) <$> default MISSING_DIAGNOSTIC error) in
  if bool_decide (error = []) then MISSING_DIAGNOSTIC else bounded_chars error MAX_MEDIA_ERROR_BYTES.

(** [Panic]: a failed [debug_assert!]. *)
Definition public_media_session_state (s : AddedCastDisplaySnapshot) : outcome unit MediaSessionState :=
  let phase := public_phase (media (sn_runtime s)) in
  let state :=
    {| p_revision := sn_state_revision s; PublicTypes.phase := phase;
       p_media_generation := media_generation (sn_runtime s);
       PublicTypes.audio_enabled := Preparation.audio_enabled (sn_prepared s);
       PublicTypes.error := if bool_decide (phase = PhaseFailed) then public_media_error (last_error (sn_runtime s))
                            else [] |} in
  if is_ok (validate_media_state state) then Ok state else Panic.

Definition same_media_observation (l r : MediaSessionState) : bool :=
  bool_decide (phase l = phase r) && (p_media_generation l =? p_media_generation r)
  && Bool.eqb (audio_enabled l) (audio_enabled r) && bool_decide (error l = error r).

(** ** An operation *)

Definition uncontrolled (s : list Z) : Prop := Forall (fun c => is_control c = false) s.

Lemma setup_error_nonempty e : setup_error_text e <> [].
Proof. by destruct e. Qed.

(** The class of an error agrees with its code. *)
Lemma setup_error_class e :
  match e with
  | SetupCancelled | SetupCallerExited => operation_error_code e ∈ [CancelledByUser; CallerExited]
  | _ => operation_error_code e <> NoError /\ operation_error_code e ∉ [CancelledByUser; CallerExited]
  end.
Proof.
  assert (forall c, bool_decide (c <> NoError /\ c ∉ [CancelledByUser; CallerExited]) = true ->
    c <> NoError /\ c ∉ [CancelledByUser; CallerExited]) as Hc by (intros c; by rewrite bool_decide_eq_true).
  destruct e as [| | | | |e ?|e ?| | |e ?|e ?| | |]; try (apply Hc; reflexivity).
  - by left.
  - right. by left.
  - destruct e as [|e| | |e]; try (apply Hc; reflexivity); [destruct e; apply Hc; reflexivity|].
    destruct e; apply Hc; reflexivity.
  - destruct e; apply Hc; reflexivity.
  - destruct e; apply Hc; reflexivity.
  - destruct e; apply Hc; reflexivity.
Qed.

Definition published_operation (id : CastDisplayId) (s : DisplaySetupStage * OperationErrorCode * option (list Z))
  : OperationState :=
  public_operation_state {| ds_display_id := id; ds_stage := s.1.1; ds_error_code := s.1.2; ds_error := s.2 |}.

Lemma working_valid id st :
  display_id_ok id -> stage_is_terminal st = false \/ st = StageAdded ->
  validate_operation (published_operation id (working st)) = Ok tt.
Proof.
  intros Hid Hst. unfold validate_operation, published_operation. cbn [o_display_id public_operation_state ds_display_id].
  rewrite display_id_validates by done. destruct Hst as [Hst| ->]; [|done]. by destruct st.
Qed.

Lemma closing_text_ok e :
  uncontrolled (setup_error_text e) ->
  text_ok (bounded_chars (setup_error_text e) MAX_OPERATION_ERROR_BYTES) MAX_OPERATION_ERROR_BYTES.
Proof.
  intros Hc. unfold text_ok. split_and!.
  - apply bounded_chars_nonempty; [apply setup_error_nonempty|]. by vm_compute; lia.
  - apply bounded_chars_le.
  - by apply bounded_chars_Forall.
Qed.

Lemma closing_valid {A} id (r : outcome DisplaySetupError A) st :
  display_id_ok id -> closing r = Some st ->
  (forall e, r = Err e -> uncontrolled (setup_error_text e)) ->
  validate_operation (published_operation id st) = Ok tt.
Proof.
  intros Hid Hst Hc. destruct r as [a|e|]; [| |done].
  { injection Hst as <-. apply working_valid; [done|by right]. }
  pose proof (closing_text_ok e (Hc e eq_refl)) as Ht. cbn [closing] in Hst. apply (inj Some) in Hst. subst st.
  set (text := bounded_chars (setup_error_text e) MAX_OPERATION_ERROR_BYTES) in *.
  unfold validate_operation, published_operation, public_operation_state.
  cbn [o_display_id o_error error_code stage ds_display_id ds_stage ds_error_code ds_error fst snd default].
  rewrite display_id_validates by done. cbn [obind].
  rewrite (proj2 (validate_optional_text_iff _ _ _) (or_intror Ht)). cbn [obind].
  rewrite (bool_decide_eq_false_2 (text = [])) by apply Ht. cbv zeta.
  pose proof (setup_error_class e) as Hcl.
  destruct e; cbn [public_stage]; first
    [ destruct Hcl as [H1 H2]; by rewrite !bool_decide_eq_false_2 | by rewrite bool_decide_eq_true_2 ].
Qed.

(** What clients see of a setup is in order and well formed: the stages in
    their order, none skipped, up to the one it stopped in, and then one terminal
    stage that agrees with the result (added after all of them; cancelled
    exactly when it was cancelled or its caller exited; failed otherwise, with
    the error's code and text), and every one of them is a valid operation
    state, as long as the error's text has no control character. *)
Theorem setup_reports `{W : World} `{U : Unicode} `{S : Sha256} ready cx :
  display_id_ok (cx_display_id cx) ->
  let '(r, tr) := setup_task ready cx [] in
  (exists k, (1 <= k)%nat /\ (is_ok r = true -> (length (setup_path ready) <= k)%nat) /\
     statuses tr = (working <$> take k (setup_path ready)) ++ option_list (closing r)) /\
  ((forall e, r = Err e -> uncontrolled (setup_error_text e)) ->
   Forall (fun s => validate_operation (published_operation (cx_display_id cx) s) = Ok tt) (statuses tr)).
Proof.
  intros Hid. pose proof (setup_statuses ready cx) as Hs. destruct (setup_task ready cx []) as [r tr].
  split; [done|]. intros Hc. destruct Hs as (k & _ & _ & ->). apply Forall_app. split.
  - apply Forall_fmap, Forall_take. unfold compose, setup_path.
    destruct ready; repeat constructor; apply working_valid; auto.
  - destruct (closing r) as [st|] eqn:E; [|constructor]. constructor; [|constructor]. by eapply closing_valid.
Qed.

(** A world in which the monitor cannot be attached, and why. *)
Definition ex_failing (message : list Z) : World := ex_world (false, Joined (Err message)).

Definition ex_valid_id : CastDisplayId := [0; 1; 2; 3; 4; 5; 0x46; 7; 0x88; 9; 10; 11; 12; 13; 14; 15].

Definition ex_valid_context : setup_context :=
  {| cx_display_id := ex_valid_id; cx_pnp_resolver := ex_resolver; cx_offer := initial_preparation_offer true;
     cx_audio_enabled := true |}.

Abbreviation ex_failed message :=
  (setup_task (W := ex_failing message) (U := ascii_unicode) (S := constant_sha256) None ex_valid_context []).

Lemma ex_valid_id_ok : display_id_ok ex_valid_id.
Proof. split; [done|]. split; [repeat constructor; lia|]. exists 0x46, 0x88. by split_and!. Qed.

Lemma setup_reports_witness :
  (ex_failed (codes "Invalid argument")).1 = Err (Attach (codes "Invalid argument")) /\
  Forall (fun s => validate_operation (published_operation ex_valid_id s) = Ok tt)
    (statuses (ex_failed (codes "Invalid argument")).2).
Proof.
  pose proof (setup_reports (W := ex_failing (codes "Invalid argument")) (U := ascii_unicode) (S := constant_sha256)
    None ex_valid_context ex_valid_id_ok) as H.
  assert ((ex_failed (codes "Invalid argument")).1 = Err (Attach (codes "Invalid argument"))) as E by by vm_compute.
  split; [exact E|]. destruct (ex_failed (codes "Invalid argument")) as [r tr]. simpl in E. subst r.
  apply (proj2 H). intros e [= <-]. repeat constructor.
Defined.

(** An error whose text has a control character is published as it is, and no
    client that validates accepts it; the media errors below are cleaned. *)
Example multiline_error_is_refused :
  existsb (fun s => negb (is_ok (validate_operation (published_operation ex_valid_id s))))
    (statuses (ex_failed (codes "first line" ++ [10] ++ codes "second line")).2) = true.
Proof. by vm_compute. Qed.

(** ** The media a session publishes *)

Definition active_generation (state : MediaState) (generation : Z) : Prop :=
  match state with StartingCapture | StartingMedia | Running | Suspended => generation <> 0 | _ => True end.

Definition media_ok (m : MediaSessionSnapshot) : Prop := active_generation (ms_state m) (ms_media_generation m).

(** A snapshot some media session publishes, whatever its driver does. *)
Definition published_by_session (m : MediaSessionSnapshot) : Prop :=
  exists (D : MediaSessionDriver) timeout commands,
    MediaSession.Published m ∈ trace (run_actor timeout commands session_init).2.

Definition numbered (p : Protocol.state) : Prop :=
  0 <= ms_media_generation (Protocol.shown p) /\
  match Protocol.at_stage p with
  | Protocol.Announced r | Protocol.Captured r | Protocol.Live r | Protocol.Paused r => 1 <= sr_media_generation r
  | _ => True
  end.

Lemma publish_numbered st old s st' :
  Protocol.publish st old s = Some st' ->
  numbered {| Protocol.shown := old; Protocol.at_stage := st; Protocol.ended := false |} ->
  numbered {| Protocol.shown := s; Protocol.at_stage := st'; Protocol.ended := false |} /\ media_ok s.
Proof.
  unfold Protocol.publish, Protocol.names, numbered, media_ok, active_generation. cbn [Protocol.shown Protocol.at_stage].
  intros H [H0 H1]. destruct (ms_state s), st; try discriminate H;
    repeat match type of H with context [match ?x with _ => _ end] => destruct x eqn:? end; try discriminate H;
    injection H as <-; breflect; cbn [sr_media_generation]; repeat split; lia.
Qed.

Lemma step_numbered p a p' :
  Protocol.step p a = Some p' -> numbered p ->
  numbered p' /\ forall m, a = MediaSession.Published m -> media_ok m.
Proof.
  destruct a as [c t r|g|s|r]; cbn [Protocol.step]; intros H Hp.
  - destruct (Protocol.ended p); [done|]. split; [|done]. destruct (Protocol.call _ _ _ _) as [st|] eqn:E; [|done].
    injection H as <-. destruct Hp as [H0 H1]. split; [done|]. cbn [Protocol.at_stage].
    unfold Protocol.call in E. destruct c, (Protocol.at_stage p); try discriminate E;
      repeat match type of E with context [match ?x with _ => _ end] => destruct x eqn:? end; try discriminate E;
      injection E as <-; breflect; subst; done.
  - destruct (Protocol.ended p); [done|]. injection H as <-. by split.
  - destruct (Protocol.ended p); [done|]. destruct (_ || _); [|done].
    destruct (Protocol.publish _ _ _) as [st|] eqn:E; [|done]. injection H as <-.
    destruct (publish_numbered _ _ _ _ E) as [Hn Hm]; [exact Hp|]. split; [done|]. by intros m [= <-].
  - injection H as <-. by split.
Qed.

Lemma accepted_media l p :
  Protocol.accept l = Some p -> numbered p /\ forall m, MediaSession.Published m ∈ l -> media_ok m.
Proof.
  revert p. induction l as [|a l IH] using rev_ind; intros p.
  { intros [= <-]. split; [done|]. intros m Hm. by apply not_elem_of_nil in Hm. }
  rewrite Protocol.accept_snoc. destruct (Protocol.accept l) as [q|] eqn:E; [|done]. intros H.
  destruct (IH q eq_refl) as [Hq Hl]. destruct (step_numbered _ _ _ H Hq) as [Hp Ha]. split; [done|].
  intros m [Hm|Hm]%elem_of_app; [by apply Hl|]. apply list_elem_of_singleton in Hm. by apply Ha.
Qed.

(** An active state names a generation. *)
Lemma published_media_ok m : published_by_session m -> media_ok m.
Proof.
  intros (D & timeout & commands & Hm). pose proof (runs_run_actor timeout commands session_init) as Hrun.
  assert (MediaSession.follows MediaSession.settled session_init) as H0 by (exists Protocol.Closed; repeat split; done).
  specialize (Hrun H0).
  assert (exists p, Protocol.accept (trace (run_actor timeout commands session_init).2) = Some p) as [p Hp].
  { destruct (run_actor timeout commands session_init) as [[[]|] s]; simpl in Hrun.
    - destruct Hrun as (p & Ha & _). by exists p.
    - destruct Hrun as [(st & Ha & _) _]. by eexists. }
  by apply (accepted_media _ _ Hp).
Qed.

(** ** A display *)

(** A preparation that clients can be shown. *)
Definition presentable (p : PreparedCastDevice) : Prop :=
  let identity := display_identity (prepared_capabilities p) in
  identity_ok identity /\
  usable_source (manufacturer_name identity) (manufacturer_source identity) /\
  usable_source (product_name identity) (product_source identity) /\
  pnp_ok (rp_pnp_id (pnp_resolution p)) /\
  product_code (ge_identity (generated_edid p)) <> 0 /\ serial (ge_identity (generated_edid p)) <> 0.

Lemma prepared_presentable `{U : Unicode} `{S : Sha256} db alias_list fallback r d c audio p :
  sha256_ok -> from_database db alias_list fallback = Ok r -> pnp_ok fallback ->
  Forall (fun a => pnp_ok (al_pnp_id a)) alias_list ->
  from_capabilities d c r audio = Ok p -> presentable p /\ device p = d.
Proof.
  intros Hsha Hdb Hfb Hal. unfold from_capabilities. cbv zeta. intros Hp. apply seq_ok in Hp as [_ Hp].
  rewrite reject_seq_ok in Hp. destruct Hp as [_ Hp]. apply seq_ok in Hp as [Hc Hp].
  apply seq_ok in Hp as [Hm Hp]. apply seq_ok in Hp as [Hpr Hp].
  apply obind_ok in Hp as (res & Hres & Hp). apply obind_ok in Hp as (ms & _ & Hp).
  apply obind_ok in Hp as (e & He & Hp). apply ok_inj in Hp. subst p. apply omap_err_ok in Hc, Hres, He.
  apply validate_capabilities_iff in Hc. apply usable_source_iff in Hm, Hpr. pose proof Hc as (_ & Hid & _).
  destruct (resolve_ok db alias_list fallback r Hdb Hfb Hal (display_identity c) Hid) as (res' & E & Hok).
  rewrite Hres in E. apply ok_inj in E. subst res'. assert (built _ e) as Hb by (eapply build_built; [done| |exact He]; done).
  destruct (built_identity _ _ Hb) as (_ & Hpc & Hs). split; [|done].
  unfold presentable. cbn [prepared_capabilities pnp_resolution generated_edid]. split_and!; try done; lia.
Qed.

Definition output_ok (o : CastKmsOutput) : Prop :=
  Output.connector_id o <> 0 /\ text_ok (codes (Output.connector_name o)) MAX_BACKEND_ID_BYTES.

Definition mode_ok (m : RoutedMode) : Prop :=
  1 <= rm_width m <= 8192 /\ 1 <= rm_height m <= 8192 /\ 1 <= rm_refresh_millihz m <= 1000000.

Definition route_ok (r : RouteState) : Prop := match r with Disabled => True | Active r => mode_ok (ar_mode r) end.

(** The invariant of a display's snapshot. *)
Record snapshot_ok (n : AddedCastDisplaySnapshot) : Prop := {
  so_id : display_id_ok (sn_display_id n);
  so_device : device_ok (sn_device n);
  so_prepared : presentable (sn_prepared n);
  so_output : output_ok (sn_output n);
  so_revision : sn_state_revision n = revision (sn_runtime n);
  so_counters : counters_ok (sn_runtime n);
  so_current : device_revision (sn_device n) <= revision (sn_runtime n);
  so_route : route_ok (route (sn_runtime n));
  so_media : active_generation (media (sn_runtime n)) (media_generation (sn_runtime n)) }.

Lemma text_ok_le value limit limit' : (limit <= limit')%nat -> text_ok value limit -> text_ok value limit'.
Proof. intros Hl (H1 & H2 & H3). split_and!; [done|lia|done]. Qed.

Lemma sourced_public field value source limit :
  (limit <= MAX_DEVICE_TEXT_BYTES)%nat -> sourced_ok value source limit -> usable_source value source ->
  validate_optional_text field (default [] value) MAX_DEVICE_TEXT_BYTES = Ok tt /\
  validate_identity_source field (default [] value) (public_identity_source source) = Ok tt.
Proof.
  intros Hl Hs Hu. destruct value as [v|]; cbn [default sourced_ok] in *.
  - destruct Hs as [_ Hv]. split; [apply validate_optional_text_iff; right; by eapply text_ok_le|].
    unfold validate_identity_source. rewrite (bool_decide_eq_false_2 (v = [])) by apply Hv.
    specialize (Hu ltac:(by eexists)). by destruct source.
  - by subst source.
Qed.

Lemma public_display_valid n : snapshot_ok n -> validate_display (public_display n) = Ok tt.
Proof.
  intros [Hid (Hb & Hdi & Hdn & _) (Hident & Hum & Hup & [Hl Hupper] & Hpc & Hse) [Hci Hcn] _ _ _ _ _].
  destruct Hident as (Hm & Hp & _). unfold validate_display, public_display.
  cbn [c_display_id c_backend_id c_device_id c_display_name c_manufacturer_name c_manufacturer_source c_product_name
       c_product_source c_pnp_id c_connector_id c_connector_name c_product_code c_serial].
  rewrite display_id_validates by done. rewrite (proj2 (public_backend_id_iff _) Hb).
  rewrite !(proj2 (public_text_iff _ _ _)) by done.
  destruct (sourced_public "manufacturer name" _ _ MAX_MANUFACTURER_NAME_BYTES ltac:(by vm_compute; lia) Hm Hum) as [-> ->].
  destruct (sourced_public "product name" _ _ MAX_PRODUCT_NAME_BYTES ltac:(by vm_compute; lia) Hp Hup) as [-> ->].
  cbn [obind]. unfold str_len. rewrite utf8_of_ascii by (eapply Forall_impl; [exact Hupper|]; cbn; lia).
  rewrite Hl, (proj2 (forallb_Forall _ _)), (proj2 (Z.eqb_neq _ _) Hci), (proj2 (Z.eqb_neq _ _) Hpc),
    (proj2 (Z.eqb_neq _ _) Hse); [done|].
  eapply Forall_impl; [exact Hupper|]. cbn. intros b Hb'. apply andb_true_iff. lia.
Qed.

Lemma public_state_valid n : snapshot_ok n -> validate_display_state (public_display_state n) = Ok tt.
Proof.
  intros [_ Hd _ _ Hr ((H1 & _) & _ & Hroute) Hc Hm _]. unfold validate_display_state, public_display_state.
  cbn [st_revision st_device st_attachment st_route st_mode]. rewrite Hr.
  rewrite (proj2 (validate_nonzero_iff _ _)) by lia. rewrite (proj2 (validate_device_iff _) Hd). cbn [obind].
  rewrite (proj2 (Z.ltb_ge _ _)) by done. cbn [reject obind].
  destruct (route (sn_runtime n)) as [|[t [w h f fl]]]; cbn [reject obind negb andb].
  - by rewrite andb_false_r.
  - destruct Hroute as [-> |[=]]. destruct Hm as (Hw & Hh & Hf). cbn in *.
    apply reject_ok. rewrite !orb_false_iff, !Z.eqb_neq, !Z.ltb_ge. lia.
Qed.

Lemma public_error_ok error : text_ok (public_media_error error) MAX_MEDIA_ERROR_BYTES.
Proof.
  unfold public_media_error. cbv zeta. case_bool_decide as H; [split; [done|split; [by vm_compute; lia|by repeat constructor]]|].
  split_and!.
  - apply bounded_chars_nonempty; [done|]. by vm_compute; lia.
  - apply bounded_chars_le.
  - apply bounded_chars_Forall, trim_Forall, Forall_fmap, Forall_true. intros c. unfold compose.
    by destruct (is_control c) eqn:E.
Qed.

(** The assertion in the projection holds. *)
Lemma public_media_valid n :
  snapshot_ok n -> exists m, public_media_session_state n = Ok m /\ validate_media_state m = Ok tt.
Proof.
  intros [_ _ _ _ Hr ((H1 & _) & _) _ _ Hm]. unfold public_media_session_state. cbv zeta.
  set (st := {| p_revision := sn_state_revision n |}).
  assert (validate_media_state st = Ok tt) as Hv; [|rewrite Hv; by eexists].
  unfold validate_media_state, st. cbn [p_revision phase p_media_generation error]. rewrite Hr.
  rewrite (proj2 (validate_nonzero_iff _ _)) by lia. cbn [obind].
  destruct (media (sn_runtime n)) eqn:Em; cbn [public_phase]; cbn [active_generation] in Hm;
    try (rewrite ?(bool_decide_eq_false_2 (_ = PhaseFailed)) by done; cbn [validate_optional_text];
         rewrite ?(proj2 (Z.eqb_neq _ _) Hm); rewrite ?andb_false_r; reflexivity).
  rewrite bool_decide_eq_true_2 by done. pose proof (public_error_ok (last_error (sn_runtime n))) as He.
  rewrite (proj2 (validate_optional_text_iff _ _ _) (or_intror He)). rewrite andb_false_r. cbn [obind reject].
  by rewrite (bool_decide_eq_false_2 (_ = [])) by apply He.
Qed.

(** ** What the slot publishes *)

Definition runtime_ok (r : DisplayRuntimeState) : Prop :=
  counters_ok r /\ route_ok (route r) /\ active_generation (media r) (media_generation r).

Definition grows (r r' : DisplayRuntimeState) : Prop := runtime_ok r' /\ revision r <= revision r'.

Definition topology_ok (t : DisplayTopology) : Prop := route_ok (effective_route t).

Lemma topology_grows r t : runtime_ok r -> topology_ok t -> grows r (observe_topology r t).1.
Proof.
  intros (Hc & Hr & Hm) Ht. destruct (observe_later r (Topology t) Hc I) as [Hc' [Hl _ _ _]]. cbn [observe] in *.
  split; [split; [done|]|done]. unfold observe_topology. cbv zeta. destruct (_ && _); [done|]. by split.
Qed.

Lemma media_grows r g st e : runtime_ok r -> active_generation st g -> grows r (observe_media r g st e).1.
Proof.
  intros (Hc & Hr & Hm) Ha. destruct (observe_later r (Media g st e) Hc I) as [Hc' [Hl _ _ _]]. cbn [observe] in *.
  split; [split; [done|]|done]. unfold observe_media. destruct (_ && _); [done|]. by split.
Qed.

Lemma failed_grows r e : runtime_ok r -> grows r (media_failed r e).
Proof. intros Hr. by apply media_grows. Qed.

Lemma grows_trans r1 r2 r3 : grows r1 r2 -> grows r2 r3 -> grows r1 r3.
Proof. intros [_ H] [H' H'']. split; [done|lia]. Qed.

(** A counter that is raised, and nothing else. *)
Lemma raised_grows r v : runtime_ok r -> revision r <= v <= u64_MAX -> grows r (with_revision r v).
Proof.
  intros (((H1 & H2) & Hg & Ha) & Hr & Hm) Hv. split; [|by cbn; lia].
  split_and!; [|done|done]. unfold counters_ok. cbn [revision route_generation attachment route with_revision].
  split_and!; try done; lia.
Qed.

Lemma saturating_next r : 1 <= r <= u64_MAX -> r <= saturating_add64 r 1 <= u64_MAX.
Proof. unfold saturating_add64. lia. Qed.

Lemma runtime_of n : snapshot_ok n -> runtime_ok (sn_runtime n).
Proof. by intros [? ? ? ? ? ? ? ? ?]. Qed.

Lemma runtime_snapshot n g r : snapshot_ok n -> grows (sn_runtime n) r -> snapshot_ok (with_runtime n g r).
Proof.
  intros [? ? ? ? ? ? ? ? ?] [(Hc & Hr & Hm) Hl]. split; cbn [with_runtime sn_display_id sn_device sn_prepared sn_output
    sn_state_revision sn_runtime]; try done. lia.
Qed.

Definition kernel_event_ok (e : KernelDisplayEvent) : Prop :=
  match e with KernelChanged o => topology_ok (ko_topology o) | _ => True end.

Lemma kernel_event_snapshot n e : snapshot_ok n -> kernel_event_ok e -> snapshot_ok (apply_kernel_event n e).
Proof.
  intros Hn He. pose proof (runtime_of n Hn) as Hr. destruct e as [o| |e]; cbn [apply_kernel_event].
  - pose proof (topology_grows _ _ Hr He) as Hg. destruct (observe_topology _ _) as [r changed]. cbn [fst] in Hg.
    apply runtime_snapshot; [done|]. destruct (_ && _); [|done]. eapply grows_trans; [exact Hg|].
    destruct Hg as [Hg _]. apply raised_grows; [done|]. apply saturating_next. apply Hg.
  - apply runtime_snapshot; [done|]. eapply grows_trans; [by apply (topology_grows _ (no_topology Detached))|].
    apply failed_grows. by apply (topology_grows _ (no_topology Detached)).
  - apply runtime_snapshot; [done|]. by apply failed_grows.
Qed.

Lemma kernel_lost_snapshot n e : snapshot_ok n -> snapshot_ok (kernel_lost n e).
Proof.
  intros Hn. pose proof (runtime_of n Hn) as Hr. apply runtime_snapshot; [done|].
  eapply grows_trans; [by apply (topology_grows _ (no_topology UnknownAttachment))|].
  apply failed_grows. by apply (topology_grows _ (no_topology UnknownAttachment)).
Qed.

Lemma media_snapshot n m : snapshot_ok n -> media_ok m -> snapshot_ok (apply_media n m).1.
Proof.
  intros Hn Hm. unfold apply_media.
  pose proof (media_grows _ (ms_media_generation m) (ms_state m) (ms_last_error m) (runtime_of n Hn) Hm) as Hg.
  destruct (observe_media _ _ _ _) as [r []]; [|done]. by apply runtime_snapshot.
Qed.

Lemma update_snapshot n d n' changed :
  snapshot_ok n -> device_ok d -> u64 (device_revision d) -> slot_update_device n d = Ok (n', changed) -> snapshot_ok n'.
Proof.
  intros Hn Hd Hu. unfold slot_update_device. destruct (same_identity _ _); cbn [negb]; [|done].
  case_bool_decide; intros H'; apply ok_inj in H'; injection H' as <- <-; [done|].
  pose proof (runtime_of n Hn) as Hr. pose proof Hn as [? ? ? ? ? Hc ? ? ?].
  unfold uint in Hu. assert (grows (sn_runtime n) (with_revision (sn_runtime n)
    (Z.max (saturating_add64 (revision (sn_runtime n)) 1) (device_revision d)))) as [(Hc' & Hr' & Hm') _].
  { apply raised_grows; [done|]. destruct Hc as [Hc _]. apply saturating_next in Hc. unfold u64_MAX in *. lia. }
  split; cbn [sn_display_id sn_device sn_prepared sn_output sn_state_revision sn_runtime]; try done. cbn [with_revision revision]. lia.
Qed.

Definition added_ok (a : AddedCastDisplay) : Prop :=
  display_id_ok (ad_display_id a) /\ device_ok (ad_device a) /\ presentable (ad_prepared a) /\
  output_ok (slot_output (ad_slot a)) /\ u64 (ad_state_revision a) /\
  device_revision (ad_device a) <= ad_state_revision a.

Lemma initial_snapshot_ok a grant_id o :
  added_ok a -> topology_ok (ko_topology o) -> snapshot_ok (initial_snapshot a grant_id o).
Proof.
  intros (Hid & Hd & Hp & Ho & Hu & Hr) Ht. pose proof (attached_ok _ Hu) as Hc.
  assert (runtime_ok (attached (ad_state_revision a))) as Ha by by split_and!.
  destruct (topology_grows _ _ Ha Ht) as [(Hc' & Hr' & Hm') Hl].
  split; cbn [initial_snapshot sn_display_id sn_device sn_prepared sn_output sn_state_revision sn_runtime]; try done.
  cbn [attached revision] in Hl. lia.
Qed.

(** What the components the slot listens to promise. *)
Definition input_ok (d0 : DeviceInfo) (i : slot_input) : Prop :=
  match i with
  | UpdateDevice d => same_identity d0 d = true /\ device_ok d /\ u64 (device_revision d)
  | KernelEvent e => kernel_event_ok e
  | MediaChanged m => published_by_session m
  | _ => True
  end.

Definition publication_ok (a : slot_action) : Prop :=
  match a with SlotPublished n => snapshot_ok n | _ => True end.

Definition publishing (d0 : DeviceInfo) (s : slot) : Prop :=
  snapshot_ok (sl_snapshot s) /\ same_identity d0 (sn_device (sl_snapshot s)) = true /\
  Forall publication_ok (sl_trace s).

Section Publishing.
Context `{W : SlotWorld} (d0 : DeviceInfo).

Abbreviation sound m := (runs m (publishing d0) (fun _ => publishing d0)).
Abbreviation sound_turn m := (runs m (publishing d0) (fun t s => t <> SlotPanicked /\ publishing d0 s)).

Lemma sound_bind {A B} (m : actor slot A) (k : A -> actor slot B) : sound m -> (forall a, sound (k a)) -> sound (abind m k).
Proof. intros Hm Hk. by eapply runs_bind. Qed.

Lemma sound_turn_bind {A} (m : actor slot A) (k : A -> actor slot turn) :
  sound m -> (forall a, sound_turn (k a)) -> sound_turn (abind m k).
Proof. intros Hm Hk. by eapply runs_bind. Qed.

Lemma sound_ret {A} (a : A) : sound (aret a).
Proof. by apply runs_ret. Qed.

Lemma sound_turn_ret (t : turn) : t <> SlotPanicked -> sound_turn (aret t).
Proof. intros Ht. by apply runs_ret. Qed.

Lemma sound_did a : publication_ok a -> sound (did a).
Proof. intros Ha s (H1 & H2 & H3). split_and!; [done|done|]. apply Forall_app. split; [done|by constructor]. Qed.

Lemma sound_publish : sound publish.
Proof. intros s (H1 & H2 & H3). split_and!; [done|done|]. apply Forall_app. split; [done|by constructor]. Qed.

Lemma sound_session p : sound (set_session p).
Proof. by intros s. Qed.

(** Reading the state, and changing the snapshot to one that is as good. *)
Lemma sound_turn_get k :
  (forall s, publishing d0 s -> runs (k s) (fun s' => sl_snapshot s' = sl_snapshot s /\ publishing d0 s')
                                  (fun t s => t <> SlotPanicked /\ publishing d0 s)) ->
  sound_turn (abind get k).
Proof. intros Hk s Hs. exact (Hk s Hs s (conj eq_refl Hs)). Qed.

Lemma sound_set n : snapshot_ok n -> same_identity d0 (sn_device n) = true -> sound (set_snapshot n).
Proof. intros Hn Hd s (_ & _ & H). by split_and!. Qed.

Lemma sound_failure e : sound (publish_media_failure e).
Proof.
  intros s (H1 & H2 & H3). assert (snapshot_ok (with_runtime (sl_snapshot s) (sn_grant_state (sl_snapshot s))
    (media_failed (sn_runtime (sl_snapshot s)) e))) as Hn.
  { apply runtime_snapshot; [done|]. by apply failed_grows, runtime_of. }
  split_and!; [done|done|]. apply Forall_app. split; [done|by constructor].
Qed.

Lemma sound_policy : sound observe_policy.
Proof. intros s Hs. exact (sound_did (ObservePolicy _) I s Hs). Qed.

Lemma sound_get : sound get.
Proof. by intros s. Qed.

Hint Resolve sound_ret sound_get sound_policy sound_publish sound_session sound_failure : sound.
Hint Extern 1 (runs (did _) _ _) => apply sound_did; exact I : sound.

Ltac soundly :=
  repeat first [ solve [auto with sound] | apply sound_turn_ret; discriminate | apply sound_turn_bind; [|intros ?]
               | apply sound_bind; [|intros ?] | case_match ].

Lemma sound_recovery d : sound (start_recovery d).
Proof. unfold start_recovery. apply sound_bind; [by intros s|intros s]. soundly. Qed.
Hint Resolve sound_recovery : sound.

Lemma with_fact {A} (m : actor slot A) (F : slot -> Prop) Q :
  runs m (publishing d0) Q -> runs m (fun s => F s /\ publishing d0 s) Q.
Proof. intros Hm. eapply runs_pre; [exact Hm|]. by intros s [_ ?]. Qed.

Lemma sound_update d : input_ok d0 (UpdateDevice d) -> sound_turn (on_update_device d).
Proof.
  intros (Hi & Hd & Hu). apply sound_turn_get. intros s (H1 & H2 & _). apply with_fact.
  destruct (observe_device (sl_session s) d) as [session action]. apply sound_turn_bind; [apply sound_session|intros ?].
  destruct (slot_update_device (sl_snapshot s) d) as [[n changed]|e|] eqn:E.
  - apply sound_turn_bind; [|intros ?; soundly]. destruct (update_device_after _ _ _ _ E) as [Hn _].
    apply sound_set; [by eapply update_snapshot|by rewrite Hn].
  - exfalso. unfold slot_update_device in E. destruct (same_identity (sn_device (sl_snapshot s)) d); cbn [negb] in E; [|done].
    revert E. by destruct (bool_decide _).
  - exfalso. unfold slot_update_device in E. assert (same_identity (sn_device (sl_snapshot s)) d = true) as Hs.
    { unfold same_identity in *. rewrite andb_true_iff, !bool_decide_eq_true in *. intuition congruence. }
    rewrite Hs in E. cbn [negb] in E. revert E. by destruct (bool_decide _).
Qed.

Lemma sound_one i : input_ok d0 i -> sound_turn (turn_of i).
Proof.
  intros Hi. destruct i as [d|r| |e|e|e| |m| |e|]; cbn [turn_of]; try (by soundly).
  - by apply sound_update.
  - apply sound_turn_get. intros s (H1 & H2 & _). apply with_fact. apply sound_turn_bind; [|intros ?; soundly].
    apply sound_set; [by apply kernel_event_snapshot|]. destruct e; try done. unfold apply_kernel_event.
    by destruct (observe_topology _ _).
  - apply sound_turn_get. intros s (H1 & H2 & _). apply with_fact. apply sound_turn_bind; [|intros ?; soundly].
    apply sound_set; [by apply kernel_lost_snapshot|done].
  - apply sound_turn_get. intros s (H1 & H2 & H3). apply with_fact. destruct (sl_media_events_open s); [|soundly].
    apply sound_turn_get. intros s' (H1' & H2' & _). apply with_fact.
    pose proof (media_snapshot (sl_snapshot s') m H1' (published_media_ok m Hi)) as Hn.
    destruct (apply_media (sl_snapshot s') m) as [n changed] eqn:E. cbn [fst] in Hn.
    apply sound_turn_bind; [|intros ?; soundly]. apply sound_set; [done|].
    unfold apply_media in E. destruct (observe_media _ _ _ _) as [r []]; by injection E as <- <-.
Qed.

Lemma sound_teardown r e : sound (teardown r e).
Proof. unfold teardown, attempt. repeat (apply sound_bind; [by intros s|intros ?] || soundly). Qed.

Lemma sound_run inputs : Forall (input_ok d0) inputs -> sound_turn (run_slot inputs).
Proof.
  induction 1 as [|i inputs Hi Hin IH]; cbn [run_slot]; [by apply sound_turn_ret|].
  eapply runs_bind; [by apply sound_one|]. intros [|r e|].
  - apply runs_fact. by intros _.
  - apply runs_fact. intros _. apply sound_turn_bind; [apply sound_teardown|intros ?]. by apply sound_turn_ret.
  - apply runs_fact. by intros [].
Qed.
End Publishing.

(** C21: a display that was added never shows a client anything invalid.  As long
    as the device updates are valid and of the same device, the routes the kernel
    reports have sane modes, and the media snapshots are some media session's,
    the slot does not panic, and for every snapshot it publishes, and its last
    one, the display, its state and its media state pass the validation of the
    public interface; the assertion on the media state never fails. *)
Theorem slot_publishes_valid `{W : SlotWorld} a grant_id o inputs :
  added_ok a -> topology_ok (ko_topology o) -> Forall (input_ok (ad_device a)) inputs ->
  let '(t, s) := run_slot inputs (slot_init a grant_id o) in
  t <> SlotPanicked /\
  forall n, n = sl_snapshot s \/ SlotPublished n ∈ sl_trace s ->
    validate_display (public_display n) = Ok tt /\
    validate_display_state (public_display_state n) = Ok tt /\
    exists m, public_media_session_state n = Ok m /\ validate_media_state m = Ok tt.
Proof.
  intros Ha Ho Hi. pose proof (sound_run (ad_device a) inputs Hi (slot_init a grant_id o)) as Hrun.
  destruct (run_slot inputs (slot_init a grant_id o)) as [t s]. destruct Hrun as (Ht & Hs & _ & Htr).
  { split_and!; [by apply initial_snapshot_ok| |by repeat constructor]. unfold same_identity.
    by rewrite !bool_decide_eq_true_2. }
  split; [done|]. intros n Hn. assert (snapshot_ok n) as Hok.
  { destruct Hn as [->|Hn]; [done|]. rewrite Forall_forall in Htr. exact (Htr _ Hn). }
  split_and!; [by apply public_display_valid|by apply public_state_valid|by apply public_media_valid].
Qed.

(** ** Setup gives such a display *)

Definition yields {E A} (P : A -> Prop) (m : setup E A) : Prop :=
  forall tr a, (m tr).1 = Ok a -> P a.

Lemma yields_bind {E A B} (P : A -> Prop) (Q : B -> Prop) (m : setup E A) (k : A -> setup E B) :
  yields P m -> (forall a, P a -> yields Q (k a)) -> yields Q (sbind m k).
Proof.
  intros Hm Hk tr b. unfold sbind, abind. pose proof (Hm tr) as H. destruct (m tr) as [[a|e|] tr']; cbn; [|done|done].
  apply Hk. by apply H.
Qed.

Definition slot_ok (s : ReservedCastDisplaySlot) : Prop :=
  device_ok (slot_device s) /\ u64 (device_revision (slot_device s)) /\ output_ok (slot_output s).

Section Added.
Context `{W : World} `{U : Unicode} `{S : Sha256}.
Variables (cx : setup_context) (db : list Z) (alias_list : list PnpAlias) (fallback : PnpId).
Hypothesis (Hsha : sha256_ok) (Hfb : pnp_ok fallback) (Hal : Forall (fun a => pnp_ok (al_pnp_id a)) alias_list).
Hypothesis (Hdb : from_database db alias_list fallback = Ok (cx_pnp_resolver cx)).
Hypothesis (Hid : display_id_ok (cx_display_id cx)).

Lemma prepare_yields slot : yields presentable (prepare_device slot cx).
Proof.
  intros tr p. unfold prepare_device, abandon_session, sbind, abind, see, act, aret. cbn [fst snd].
  destruct (prepare_session tr) as [|returned]; [done|]. destruct (BackendSession.prepare _ _) as [c|e|]; [|done|done].
  destruct (from_capabilities _ c _ _) as [p'|e|] eqn:E; [|done|done].
  destruct (prepared_presentable db alias_list fallback _ _ _ _ _ Hsha Hdb Hfb Hal E) as [Hp _].
  unfold revalidate, abind, see, act, aret. cbn [fst snd].
  repeat (match goal with |- context [match ?x with _ => _ end] =>
    lazymatch x with context [match _ with _ => _ end] => fail | _ => destruct x end end; cbn [fst snd]; try done);
    intros H; apply ok_inj in H; by subst.
Qed.

Lemma any_yields {E A} (m : setup E A) : yields (fun _ => True) m.
Proof. by intros tr a. Qed.

Lemma start_yields slot p : slot_ok slot -> presentable p -> yields added_ok (start_display slot cx p).
Proof.
  intros (Hd & Hu & Ho) Hp tr a. unfold start_display, abandon_monitor, abind, see, act, aret. cbn [fst snd].
  destruct (classified_paths tr) as [[]|m|]; [|done|done].
  destruct (video_profiles _) as [|v l]; [done|]. cbn [fst snd].
  destruct (spawn_kernel_actor tr) as [[]|m|]; cbn [fst snd]; [|done|done].
  intros H. apply ok_inj in H. subst a. unfold added_ok. cbn. by split_and!.
Qed.

Lemma inner_yields slot : slot_ok slot -> yields added_ok (run_display_setup_inner slot cx).
Proof.
  intros Hs. unfold run_display_setup_inner. eapply yields_bind; [apply any_yields|intros ? _].
  eapply yields_bind; [apply any_yields|intros ? _]. eapply yields_bind; [apply prepare_yields|intros p Hp].
  eapply yields_bind; [apply any_yields|intros ? _]. by apply start_yields.
Qed.

Lemma run_yields ready :
  (forall slot, ready = Some slot \/ (exists tr, reserve_display_slot tr = Done (Ok slot)) -> slot_ok slot) ->
  yields added_ok (run_display_setup ready cx).
Proof.
  intros Hslot. assert (yields added_ok (let! slot := reserve_slot ready in run_display_setup_inner slot cx)) as H.
  { apply (yields_bind slot_ok); [|exact inner_yields]. intros tr slot. unfold reserve_slot, abind, see, act, aret.
    destruct ready as [s|]; cbn [fst snd]; [intros E; apply ok_inj in E; subst; apply Hslot; by left|].
    destruct (reserve_display_slot tr) as [|[s|[e m]|]] eqn:Er; [done| |done|done]. cbn [fst snd set_status act].
    intros E. apply ok_inj in E. subst. apply Hslot. right. by exists tr. }
  intros tr a. unfold run_display_setup, abind at 1, abind at 1, see, aret. pose proof (H tr) as Htr.
  destruct ((let! slot := reserve_slot ready in run_display_setup_inner slot cx) tr) as [r tr']. cbn [fst snd] in *.
  destruct r as [a'|e|]; [apply Htr| |done]. destruct e; try done. destruct (caller_gone tr'); [|done].
  unfold abind. cbn [fst snd]. by destruct (caller_exit tr') as [[]|].
Qed.

(** A setup of valid parts gives a display the slot can publish. *)
Lemma setup_added_ok ready a :
  (forall slot, ready = Some slot \/ (exists tr, reserve_display_slot tr = Done (Ok slot)) -> slot_ok slot) ->
  (setup_task ready cx []).1 = Ok a -> added_ok a.
Proof.
  intros Hslot. unfold setup_task, abind, act. cbn [fst snd app]. set (tr0 := [_]).
  pose proof (run_yields ready Hslot tr0) as H. destruct (run_display_setup ready cx tr0) as [r tr]. cbn [fst] in H.
  destruct r as [a'|e|]; [by apply H|by destruct e|done].
Qed.
End Added.

(** ** A display that is shown *)

Definition ex_media : MediaSessionSnapshot :=
  {| ms_revision := 4; ms_media_generation := 1; ms_state := Running; ms_route := Some ex_route; ms_last_error := None |}.

Lemma ex_media_published : published_by_session ex_media.
Proof.
  exists willing_driver, 1000, [{| request_generation := 1; kind := Activate ex_route |}].
  apply (list_elem_of_lookup_2 _ 6). by vm_compute.
Qed.

Definition ex_routed : KernelDisplayObservation :=
  {| ko_topology := {| dt_attachment := Attached; dt_route := Some {| ar_target := 7; ar_mode := mr_mode ex_route |} |};
     ko_grant_state := GrantActive |}.

Definition ex_shown_inputs : list slot_input :=
  [KernelEvent (KernelChanged ex_routed); MediaChanged ex_media; UpdateDevice (ex_tv "Kitchen" 9);
   KernelEvent (KernelMediaFailed (codes "encoder" ++ [10] ++ codes "stopped"))].

Abbreviation ex_shown :=
  (setup_task (W := ex_world (false, Joined (Ok tt))) (U := ascii_unicode) (S := constant_sha256) None ex_valid_context []).

Lemma ex_device_ok name revision :
  text_ok (codes name) MAX_DEVICE_TEXT_BYTES -> revision <> 0 -> device_ok (ex_tv name revision).
Proof.
  intros Hn Hr. unfold device_ok, ex_tv. cbn [d_backend_id d_device_id d_display_name d_connection_generation
    d_discovery_generation device_revision d_metadata].
  split_and!; try done; try (by constructor); [|by apply public_text_iff with (field := "")|cbn; lia].
  apply public_backend_id_iff. by vm_compute.
Qed.

Lemma ex_shown_ok a : ex_shown.1 = Ok a -> added_ok a.
Proof.
  apply (setup_added_ok (W := ex_world _) (U := ascii_unicode) (S := constant_sha256) ex_valid_context ex_database [] (codes "CKM")).
  - exact constant_sha256_ok.
  - split; [done|]. by repeat constructor.
  - constructor.
  - by vm_compute.
  - exact ex_valid_id_ok.
  - intros slot [[=]|[tr [= <-]]]. split_and!; [|by vm_compute|].
    + apply ex_device_ok; [by apply public_text_iff with (field := "")|done].
    + split; [done|]. by apply public_text_iff with (field := "").
Qed.

(** The display [CastDisplaySlot] runs, under a valid identifier. *)
Definition ex_display : AddedCastDisplay :=
  {| ad_display_id := ex_valid_id; ad_state_revision := 3; ad_device := ex_tv "Living Room TV" 3;
     ad_prepared := ex_prepared; ad_slot := take_selection ex_slot; ad_video_profile := codes "h264";
     ad_audio_profile := None; ad_session_generation := 1 |}.

Lemma ex_display_ok : added_ok ex_display.
Proof.
  unfold added_ok, ex_display. cbn [ad_display_id ad_device ad_prepared ad_slot ad_state_revision].
  split_and!; [exact ex_valid_id_ok| | | |by vm_compute|by vm_compute].
  - apply ex_device_ok; [by apply public_text_iff with (field := "")|done].
  - unfold presentable. split_and!; [|by intros _|by intros _| |done|done].
    + apply validate_display_identity_iff. by vm_compute.
    + split; [done|]. by repeat constructor.
  - split; [done|]. by apply public_text_iff with (field := "").
Qed.

Lemma ex_inputs_ok : Forall (input_ok (ad_device ex_display)) ex_shown_inputs.
Proof.
  unfold ex_shown_inputs. apply Forall_cons. split; [by vm_compute|]. apply Forall_cons. split; [exact ex_media_published|].
  apply Forall_cons. split; [|by apply Forall_cons].
  split_and!; [by vm_compute| |by vm_compute]. apply ex_device_ok; [by apply public_text_iff with (field := "")|done].
Qed.

Lemma slot_publishes_valid_witness :
  let s := (run_slot (W := ex_slot_world) ex_shown_inputs (slot_init ex_display 7 ex_observation)).2 in
  media (sn_runtime (sl_snapshot s)) = Failed /\
  validate_display_state (public_display_state (sl_snapshot s)) = Ok tt.
Proof.
  pose proof (slot_publishes_valid (W := ex_slot_world) ex_display 7 ex_observation ex_shown_inputs ex_display_ok I
    ex_inputs_ok) as H. cbv zeta.
  assert (media (sn_runtime (sl_snapshot (run_slot (W := ex_slot_world) ex_shown_inputs
    (slot_init ex_display 7 ex_observation)).2)) = Failed) as E by by vm_compute.
  split; [exact E|]. destruct (run_slot ex_shown_inputs _) as [t s]. apply (proj2 H). by left.
Defined.
