(* ===== verification/ReplaceableSession.v ===== *)
(** * The replaceable device session (crates/pronk/src/replaceable_device_session.rs)

    One prepared session of a device is shared, behind a mutex, by the media
    driver's port, the control port and the recovery actor's replacement handle.
    An operation is what it does while it holds the mutex; any interleaving of
    the three tasks is therefore a list of operations, and the theorems are
    about every such list.  A session is named by a number; the answer it would
    give to the call an operation makes is an argument of the operation.

    [retire_current] and [stop] take the session out and stop it after the
    mutex is released: what they take out is theirs, and is recorded. *)

From S2P Require Import Prelude Bytes Text Ordering.

(** ** Data *)

Record ActiveSession := {
  as_session_generation : Z; as_media_generation : option Z; as_session : Z }.

Record SharedState := {
  current : option ActiveSession; last_session_generation : Z;
  retired_media_generations : gset Z; closed : bool }.

Inductive DeviceSessionReplacementError :=
  | ReplacementStopped
  | Occupied (current : Z)
  | StaleGeneration (current replacement : Z)
  | RejectedCleanup (reason cleanup : list Z).

Record DeviceSessionRetirementReport := {
  retired_session_generation : option Z; retired_media_generation : option Z;
  cleanup_error : option (list Z) }.

(** [DeviceSessionError], its message. *)
Abbreviation port_result := (outcome (list Z) unit).

Definition replaceable_device_session (generation session : Z) : SharedState :=
  {| current := Some {| as_session_generation := generation; as_media_generation := None; as_session := session |};
     last_session_generation := generation; retired_media_generations := ∅; closed := false |}.

(** What is asked of a session. *)
Inductive session_call :=
  | Configure (media_generation : Z)
  | Start (media_generation : Z)
  | Suspend (media_generation : Z)
  | Resume (media_generation : Z)
  | StopMedia (media_generation : Z)
  | Control.

(** ** The port *)

Definition live_session (s : SharedState) : outcome (list Z) ActiveSession :=
  if closed s then Err (codes "Device-session owner has stopped")
  else match current s with
       | Some a => Ok a
       | None => Err (codes "no prepared Device session is installed")
       end.

Definition debug_generation (g : option Z) : list Z :=
  match g with Some g => codes "Some(" ++ display_uint g ++ codes ")" | None => codes "None" end.

Definition matching_session (s : SharedState) (g : Z) (operation : string) : outcome (list Z) ActiveSession :=
  let? a := live_session s in
  try? reject (negb (bool_decide (as_media_generation a = Some g)))
         (codes "cannot " ++ codes operation ++ codes " media generation " ++ display_uint g
          ++ codes "; active generation is " ++ debug_generation (as_media_generation a));
  Ok a.

Definition with_current (s : SharedState) (a : option ActiveSession) : SharedState :=
  {| current := a; last_session_generation := last_session_generation s;
     retired_media_generations := retired_media_generations s; closed := closed s |}.

Definition with_media (a : ActiveSession) (g : option Z) : ActiveSession :=
  {| as_session_generation := as_session_generation a; as_media_generation := g; as_session := as_session a |}.

(** An operation's result, the state it leaves and the call it made. *)
Definition port_step : Type := port_result * SharedState * option (Z * session_call).

Definition refuse (e : list Z) (s : SharedState) : port_step := (Err e, s, None).

(** An operation on the session it finds. *)
Definition on_session (found : outcome (list Z) ActiveSession) (s : SharedState)
    (k : ActiveSession -> port_step) : port_step :=
  match found with Ok a => k a | Err e => refuse e s | Panic => (Panic, s, None) end.

Definition configure_media (s : SharedState) (g : Z) (answer : port_result) : port_step :=
  on_session (live_session s) s (fun a =>
    match as_media_generation a with
    | Some active =>
        refuse (codes "cannot configure media generation " ++ display_uint g ++ codes " while generation "
                ++ display_uint active ++ codes " is active") s
    | None => (answer, with_current s (Some (with_media a (Some g))), Some (as_session a, Configure g))
    end).

Definition start_media (s : SharedState) (g : Z) (answer : port_result) : port_step :=
  on_session (matching_session s g "start") s (fun a => (answer, s, Some (as_session a, Start g))).

Definition suspend_media (s : SharedState) (g : Z) (answer : port_result) : port_step :=
  on_session (matching_session s g "suspend") s (fun a => (answer, s, Some (as_session a, Suspend g))).

Definition resume_media (s : SharedState) (g : Z) (answer : port_result) : port_step :=
  on_session (matching_session s g "resume") s (fun a => (answer, s, Some (as_session a, Resume g))).

Definition transmit_control (s : SharedState) (answer : port_result) : port_step :=
  on_session (live_session s) s (fun a => (answer, s, Some (as_session a, Control))).

Definition stop_media (s : SharedState) (g : Z) (answer : port_result) : port_step :=
  if decide (g ∈ retired_media_generations s) then
    (Ok tt, {| current := current s; last_session_generation := last_session_generation s;
               retired_media_generations := retired_media_generations s ∖ {[g]}; closed := closed s |}, None)
  else
    on_session (live_session s) s (fun a =>
      match as_media_generation a with
      | None => (Ok tt, s, None)
      | Some active =>
          if negb (active =? g) then
            refuse (codes "cannot stop media generation " ++ display_uint g ++ codes "; active generation is "
                    ++ display_uint active) s
          else
            (answer, if is_ok answer then with_current s (Some (with_media a None)) else s,
             Some (as_session a, StopMedia g))
      end).

(** The final stop, up to the end of its critical section: what it took out. *)
Definition stop_taking (s : SharedState) : SharedState * option ActiveSession :=
  if closed s then (s, None)
  else ({| current := None; last_session_generation := last_session_generation s; retired_media_generations := ∅;
           closed := true |}, current s).

(** ** Replacement *)

Definition retire_taking (s : SharedState) : outcome DeviceSessionReplacementError (SharedState * option ActiveSession) :=
  if closed s then Err ReplacementStopped
  else
    let retired := current s in
    Ok ({| current := None; last_session_generation := last_session_generation s;
           retired_media_generations :=
             match retired ≫= as_media_generation with
             | Some g => {[g]} ∪ retired_media_generations s
             | None => retired_media_generations s
             end;
           closed := false |}, retired).

(** The report of a retirement, from what the session's stop came to. *)
Definition retirement (retired : option ActiveSession) (stopped : option (list Z)) : DeviceSessionRetirementReport :=
  {| retired_session_generation := as_session_generation <$> retired;
     retired_media_generation := retired ≫= as_media_generation;
     cleanup_error := match retired with Some _ => stopped | None => None end |}.

Definition install_locked (s : SharedState) (generation session : Z)
  : outcome DeviceSessionReplacementError SharedState :=
  if closed s then Err ReplacementStopped
  else match current s with
       | Some a => Err (Occupied (as_session_generation a))
       | None =>
           if generation <=? last_session_generation s
           then Err (StaleGeneration (last_session_generation s) generation)
           else Ok {| current := Some {| as_session_generation := generation; as_media_generation := None;
                                         as_session := session |};
                      last_session_generation := generation;
                      retired_media_generations := retired_media_generations s; closed := false |}
       end.

(** The error of a rejected session, from what its stop came to; [None] is the
    [unreachable!]. *)
Definition rejected_error (reason : DeviceSessionReplacementError) (cleanup : option (list Z))
  : option DeviceSessionReplacementError :=
  match reason, cleanup with
  | RejectedCleanup _ _, _ => match cleanup with None => Some reason | Some _ => None end
  | _, None => Some reason
  | ReplacementStopped, Some c => Some (RejectedCleanup (codes "Device-session owner has stopped") c)
  | StaleGeneration cur rep, Some c =>
      Some (RejectedCleanup (codes "replacement session generation " ++ display_uint rep ++ codes " is not newer than "
                             ++ display_uint cur) c)
  | Occupied cur, Some c =>
      Some (RejectedCleanup (codes "Device-session generation " ++ display_uint cur
                             ++ codes " still occupies the replacement slot") c)
  end.

(** ** Interleavings *)

Inductive replace_op :=
  | OpConfigure (media_generation : Z) (answer : port_result)
  | OpStart (media_generation : Z) (answer : port_result)
  | OpSuspend (media_generation : Z) (answer : port_result)
  | OpResume (media_generation : Z) (answer : port_result)
  | OpStopMedia (media_generation : Z) (answer : port_result)
  | OpControl (answer : port_result)
  | OpStop
  | OpRetire
  | OpInstall (generation session : Z).

Inductive replace_event :=
  | Called (session : Z) (call : session_call) (ok : bool)
  | Taken (session : Z)
  | Accepted (generation session : Z)
  | TurnedAway (session : Z)
  | Quiet.

Definition called (r : port_step) : SharedState * replace_event :=
  let '(result, s, call) := r in
  (s, match call with Some (x, c) => Called x c (is_ok result) | None => Quiet end).

Definition taken (a : option ActiveSession) : replace_event :=
  match a with Some a => Taken (as_session a) | None => Quiet end.

Definition replace_step (s : SharedState) (op : replace_op) : SharedState * replace_event :=
  match op with
  | OpConfigure g a => called (configure_media s g a)
  | OpStart g a => called (start_media s g a)
  | OpSuspend g a => called (suspend_media s g a)
  | OpResume g a => called (resume_media s g a)
  | OpStopMedia g a => called (stop_media s g a)
  | OpControl a => called (transmit_control s a)
  | OpStop => let '(s', a) := stop_taking s in (s', taken a)
  | OpRetire => match retire_taking s with Ok (s', a) => (s', taken a) | _ => (s, Quiet) end
  | OpInstall generation session =>
      match install_locked s generation session with
      | Ok s' => (s', Accepted generation session)
      | _ => (s, TurnedAway session)
      end
  end.

Definition replace_run (s : SharedState) (ops : list replace_op) : SharedState * list replace_event :=
  foldl (fun '(s, log) op => let '(s', e) := replace_step s op in (s', log ++ [e])) (s, []) ops.

Lemma replace_run_snoc s ops op :
  replace_run s (ops ++ [op]) =
  let '(s1, log) := replace_run s ops in
  let '(s2, e) := replace_step s1 op in (s2, log ++ [e]).
Proof. unfold replace_run. rewrite foldl_app. cbn. by destruct (foldl _ _ ops). Qed.

(** *** Reading a log *)

(** The sessions handed in by a list of operations. *)
Definition handed (op : replace_op) : list Z := match op with OpInstall _ x => [x] | _ => [] end.

(** The sessions handed out. *)
Definition released (e : replace_event) : list Z := match e with Taken x | TurnedAway x => [x] | _ => [] end.

(** The media generation a session was last told of. *)
Definition media_effect (x : Z) (m : option Z) (e : replace_event) : option Z :=
  match e with
  | Called y (Configure g) _ => if y =? x then Some g else m
  | Called y (StopMedia _) true => if y =? x then None else m
  | _ => m
  end.

Definition told (x : Z) (log : list replace_event) : option Z := foldl (media_effect x) None log.

(** What may be asked of a session that was last told of [m]. *)
Definition call_allowed (m : option Z) (c : session_call) : Prop :=
  match c with
  | Configure _ => m = None
  | Start g | Suspend g | Resume g | StopMedia g => m = Some g
  | Control => True
  end.

Definition session_of (s : SharedState) : list Z := option_list (as_session <$> current s).

Lemma told_snoc x log e : told x (log ++ [e]) = media_effect x (told x log) e.
Proof. unfold told. by rewrite foldl_app. Qed.

(** *** One operation *)

(** What a step does, in terms of the session that is current. *)
Record effect_of (s s' : SharedState) (op : replace_op) (e : replace_event) : Prop := {
  eo_owner : session_of s ++ handed op ≡ₚ session_of s' ++ released e;
  eo_call : forall x c ok, e = Called x c ok ->
    exists a, current s = Some a /\ as_session a = x /\ call_allowed (as_media_generation a) c /\
    exists a', current s' = Some a' /\ as_session a' = x /\
               as_media_generation a' = media_effect x (as_media_generation a) e;
  eo_other : (forall x c ok, e <> Called x c ok) ->
    forall a', current s' = Some a' ->
      current s = Some a' \/ (exists g, op = OpInstall g (as_session a') /\ as_media_generation a' = None) }.

Lemma live_session_ok s a : live_session s = Ok a <-> closed s = false /\ current s = Some a.
Proof. unfold live_session. destruct (closed s), (current s); naive_solver. Qed.

Lemma matching_session_ok s g op a :
  matching_session s g op = Ok a -> current s = Some a /\ as_media_generation a = Some g.
Proof.
  unfold matching_session. intros (a' & Hl & H)%obind_ok. rewrite reject_seq_ok in H. destruct H as [H [= <-]].
  apply negb_false_iff, bool_decide_eq_true in H. by apply live_session_ok in Hl as [_ Hc].
Qed.

Lemma quiet_effect s s' op :
  session_of s' = session_of s -> handed op = [] -> current s' = current s -> effect_of s s' op Quiet.
Proof.
  intros E1 E2 E3. split; [by rewrite E1, E2|done|]. intros _ a' H. left. congruence.
Qed.

Lemma on_session_effect found s k op :
  handed op = [] ->
  (forall a, found = Ok a -> current s = Some a /\
     let '(s', e) := called (k a) in effect_of s s' op e) ->
  let '(s', e) := called (on_session found s k) in effect_of s s' op e.
Proof.
  intros Hh Hk. unfold on_session. destruct found as [a|e|]; [by apply Hk|by apply quiet_effect..].
Qed.

Lemma call_effect s s' op x c (answer : port_result) a a' :
  handed op = [] -> current s = Some a -> as_session a = x -> call_allowed (as_media_generation a) c ->
  current s' = Some a' -> as_session a' = x ->
  as_media_generation a' = media_effect x (as_media_generation a) (Called x c (is_ok answer)) ->
  effect_of s s' op (Called x c (is_ok answer)).
Proof.
  intros Hh Hc Hx Hal Hc' Hx' Hm. split.
  - unfold session_of. rewrite Hc, Hc', Hh. cbn. by rewrite Hx, Hx'.
  - intros ? ? ? [= <- <- <-]. exists a. split_and!; try done. by exists a'.
  - intros Hn. by destruct (Hn x c (is_ok answer)).
Qed.

Lemma step_effect s op : let '(s', e) := replace_step s op in effect_of s s' op e.
Proof.
  destruct op as [g an|g an|g an|g an|g an|an| | |gen x]; cbn [replace_step].
  - unfold configure_media. apply on_session_effect; [done|]. intros a [_ Ha]%live_session_ok. split; [done|].
    destruct (as_media_generation a) as [active|] eqn:Em; [by apply quiet_effect|].
    eapply call_effect; try done. cbn. by rewrite Z.eqb_refl.
  - unfold start_media. apply on_session_effect; [done|]. intros a [Ha Hm]%matching_session_ok. split; [done|].
    by eapply call_effect.
  - unfold suspend_media. apply on_session_effect; [done|]. intros a [Ha Hm]%matching_session_ok. split; [done|].
    by eapply call_effect.
  - unfold resume_media. apply on_session_effect; [done|]. intros a [Ha Hm]%matching_session_ok. split; [done|].
    by eapply call_effect.
  - unfold stop_media. destruct (decide _); [by apply quiet_effect|]. apply on_session_effect; [done|].
    intros a [_ Ha]%live_session_ok. split; [done|]. destruct (as_media_generation a) as [active|] eqn:Em; [|by apply quiet_effect].
    destruct (Z.eqb_spec active g) as [->|]; [|by apply quiet_effect]. cbn [negb].
    eapply (call_effect _ _ _ _ _ _ a (if is_ok an then with_media a None else a)); try done.
    + by destruct (is_ok an).
    + by destruct (is_ok an).
    + cbn. destruct (is_ok an); cbn; by rewrite ?Z.eqb_refl.
  - unfold transmit_control. apply on_session_effect; [done|]. intros a [_ Ha]%live_session_ok. split; [done|].
    by eapply call_effect.
  - unfold stop_taking. destruct (closed s); [by apply quiet_effect|]. unfold taken. split; [|by destruct (current s)|done].
    unfold session_of. by destruct (current s).
  - unfold retire_taking. destruct (closed s); [by apply quiet_effect|]. unfold taken. split; [|by destruct (current s)|done].
    unfold session_of. cbn. by destruct (current s).
  - unfold install_locked. destruct (closed s).
    { split; [done|done|]. intros _ a' H. by left. }
    destruct (current s) as [a|] eqn:Ec.
    { split; [done|done|]. intros _ a' H. left. congruence. }
    destruct (gen <=? last_session_generation s).
    { split; [done|done|]. intros _ a' H. left. congruence. }
    split; [unfold session_of; by rewrite Ec|done|]. intros _ a' [= <-]. right. by exists gen.
Qed.

(** *** All interleavings *)

Definition owned (session : Z) (ops : list replace_op) : list Z := session :: concat (handed <$> ops).
Definition let_go (log : list replace_event) : list Z := concat (released <$> log).

Lemma owned_snoc session ops op : owned session (ops ++ [op]) = owned session ops ++ handed op.
Proof. unfold owned. rewrite fmap_app, concat_app. cbn. by rewrite app_nil_r. Qed.

Lemma let_go_snoc log e : let_go (log ++ [e]) = let_go log ++ released e.
Proof. unfold let_go. rewrite fmap_app, concat_app. cbn. by rewrite app_nil_r. Qed.

Lemma run_owners generation session ops :
  let '(s, log) := replace_run (replaceable_device_session generation session) ops in
  owned session ops ≡ₚ session_of s ++ let_go log.
Proof.
  induction ops as [|op ops IH] using rev_ind; [by cbn|]. rewrite replace_run_snoc, owned_snoc.
  destruct (replace_run _ ops) as [s log]. pose proof (step_effect s op) as He.
  destruct (replace_step s op) as [s' e]. destruct He as [Ho _ _]. rewrite let_go_snoc, IH.
  rewrite <- app_assoc, (Permutation_app_comm (let_go log)), app_assoc, Ho.
  rewrite <- app_assoc. apply Permutation_app_head, Permutation_app_comm.
Qed.

Definition call_sound (log : list replace_event) : Prop :=
  forall pre x c ok post, log = pre ++ Called x c ok :: post -> call_allowed (told x pre) c /\ x ∉ let_go pre.

Lemma call_sound_snoc log e :
  call_sound log -> (forall x c ok, e = Called x c ok -> call_allowed (told x log) c /\ x ∉ let_go log) ->
  call_sound (log ++ [e]).
Proof.
  intros Hl He pre x c ok post E. destruct post as [|e' post] using rev_ind.
  - apply app_inj_tail in E as [-> E]. by apply (He _ _ _ E).
  - rewrite app_comm_cons, app_assoc in E. apply app_inj_tail in E as [E _]. by eapply Hl.
Qed.

Lemma run_calls generation session ops :
  NoDup (owned session ops) ->
  let '(s, log) := replace_run (replaceable_device_session generation session) ops in
  call_sound log /\
  (forall a, current s = Some a -> told (as_session a) log = as_media_generation a) /\
  (forall x, x ∉ owned session ops -> told x log = None).
Proof.
  induction ops as [|op ops IH] using rev_ind.
  { intros _. cbn. split_and!; [|by intros a [= <-]|done]. intros pre x c ok post E. by apply app_cons_not_nil in E. }
  rewrite replace_run_snoc, owned_snoc. intros Hnd. pose proof Hnd as (Hnd1 & Hnew & _)%NoDup_app.
  specialize (IH Hnd1). pose proof (run_owners generation session ops) as Hperm.
  destruct (replace_run _ ops) as [s log]. destruct IH as (Hs & Hc & Hf). pose proof (step_effect s op) as He.
  destruct (replace_step s op) as [s' e]. destruct He as [_ Hcall Hother].
  assert (forall a, current s = Some a -> as_session a ∉ let_go log /\ as_session a ∈ owned session ops) as Hcur.
  { intros a Ha. rewrite Hperm in Hnd1. apply NoDup_app in Hnd1 as (_ & Hd & _). unfold session_of in *. rewrite Ha in Hd.
    split; [apply Hd; by left|]. rewrite Hperm, Ha. by left. }
  split_and!.
  - apply call_sound_snoc; [done|]. intros x c ok E. destruct (Hcall _ _ _ E) as (a & Ha & <- & Hal & _).
    rewrite (Hc a Ha). split; [done|]. by apply Hcur.
  - intros a' Ha'. rewrite told_snoc. destruct e as [x c ok| | | |].
    1: { destruct (Hcall _ _ _ eq_refl) as (a & Ha & Hx & _ & a'' & Ha'' & Hx' & Hm).
         assert (a'' = a') as -> by congruence. rewrite Hx', Hm, <- (Hc a Ha). by rewrite Hx. }
    all: cbn; destruct (Hother ltac:(done) a' Ha') as [Ha|(g & -> & Hm)]; [by apply Hc|];
      rewrite Hm; apply Hf; intros Hin; by apply (Hnew _ Hin); left.
  - intros x Hx. rewrite told_snoc. rewrite elem_of_app in Hx.
    destruct e as [y c ok| | | |]; cbn; try (by apply Hf; tauto).
    destruct (Hcall _ _ _ eq_refl) as (a & Ha & <- & _). destruct (Hcur a Ha) as [_ Hin].
    assert ((as_session a =? x) = false) as E by (apply Z.eqb_neq; intros <-; tauto). rewrite Hf by tauto.
    destruct c; cbn; rewrite ?E; by destruct ok.
Qed.

Lemma closed_empty generation session ops :
  let '(s, _) := replace_run (replaceable_device_session generation session) ops in
  closed s = true -> current s = None.
Proof.
  induction ops as [|op ops IH] using rev_ind; [done|]. rewrite replace_run_snoc.
  destruct (replace_run _ ops) as [s log]. pose proof (step_effect s op) as He.
  destruct (replace_step s op) as [s' e] eqn:E. intros Hcl. destruct (closed s) eqn:Ecl.
  - destruct (current s') as [a|] eqn:Ea; [|done]. specialize (IH eq_refl). destruct He as [_ Hcall Hother].
    destruct e as [x c ok| | | |]; [destruct (Hcall _ _ _ eq_refl) as (a' & Ha' & _); congruence|..];
      destruct (Hother ltac:(done) a Ea) as [Ha|(g & -> & _)]; try congruence;
      cbn in E; unfold install_locked in E; rewrite Ecl in E; simplify_eq; congruence.
  - destruct op; cbn in E; unfold configure_media, start_media, suspend_media, resume_media, stop_media,
      transmit_control, stop_taking, retire_taking, install_locked, on_session, called, refuse in E;
      rewrite ?Ecl in E; repeat case_match; simplify_eq; cbn in Hcl |- *; congruence.
Qed.

(** C10: whatever the order in which the driver, the control port and the
    recovery actor take the lock, every session that was handed in is in
    exactly one place: it is the current one, or it was handed back exactly
    once to be stopped (by the final stop, by a retirement, or because its
    installation was refused); after the final stop all of them have been
    handed back.  A call only ever reaches a session that was not handed back,
    and only as its media allows: it is configured when it has no media, and
    started, suspended, resumed or stopped for the very generation it was last
    configured with. *)
Theorem sessions_owned_once generation session ops :
  NoDup (owned session ops) ->
  let '(s, log) := replace_run (replaceable_device_session generation session) ops in
  owned session ops ≡ₚ session_of s ++ let_go log /\
  (closed s = true -> owned session ops ≡ₚ let_go log) /\
  call_sound log.
Proof.
  intros Hnd. pose proof (run_owners generation session ops) as Ho. pose proof (run_calls generation session ops Hnd) as Hc.
  pose proof (closed_empty generation session ops) as He. destruct (replace_run _ ops) as [s log].
  destruct Hc as [Hc _]. split_and!; [done| |done]. intros Hcl. rewrite Ho. unfold session_of. by rewrite He.
Qed.

(** A retirement between two generations, and the end. *)
Definition ex_replacement : list replace_op :=
  [OpConfigure 1 (Ok tt); OpStart 1 (Ok tt); OpRetire; OpStart 1 (Ok tt); OpStopMedia 1 (Ok tt); OpInstall 2 20;
   OpConfigure 2 (Ok tt); OpStop; OpInstall 3 30].

Lemma sessions_owned_once_witness :
  let '(s, log) := replace_run (replaceable_device_session 1 10) ex_replacement in
  log = [Called 10 (Configure 1) true; Called 10 (Start 1) true; Taken 10; Quiet; Quiet; Accepted 2 20;
         Called 20 (Configure 2) true; Taken 20; TurnedAway 30] /\ owned 10 ex_replacement ≡ₚ let_go log.
Proof.
  pose proof (sessions_owned_once 1 10 ex_replacement) as H.
  destruct (replace_run (replaceable_device_session 1 10) ex_replacement) as [s log] eqn:E.
  assert (closed s = true) as Hc by (vm_compute in E; by injection E as <- <-).
  split; [by vm_compute in E; injection E as <- <-|]. apply H; [|done].
  apply (bool_decide_eq_true_1 _). by vm_compute.
Defined.
