(* ===== verification/DeviceSession.v ===== *)
(** * The backend device session (crates/pronk/src/device_session.rs, device_session_port.rs)

    The adapter that carries the daemon's operations on a prepared device to
    the backend process that owns it.  It keeps what the backend knows of the
    current media generation, and the operation that is under way makes that
    knowledge uncertain until its answer has come: an answer that never comes,
    or an error, leaves only the cleanup of that generation possible.

    An operation is a function of the lifecycle and of what the backend's
    answer will be; its result is the caller's, the lifecycle it leaves and the
    call it made, if it made one.  The texts of the errors of other components
    are parameters. *)

From S2P Require Import Prelude Bytes Text Ordering BackendProtocol BackendSession DisplayState CecBridge DisplaySetup ReplaceableSession.

(** ** Data *)

Inductive DeviceMediaKind := DeviceVideo | DeviceAudio.

Record DeviceMediaTarget := {
  dt_kind : DeviceMediaKind; dt_node_name : list Z; dt_object_serial : Z; dt_session_id : list Z;
  dt_device_instance : list Z; dt_connector_id : Z; dt_output_index : Z; dt_media_generation : Z;
  dt_caps : list Z }.

(** An endpoint is a descriptor with its target; the descriptor is a number. *)
Record DeviceMediaEndpoint := { de_remote : Z; de_target : DeviceMediaTarget }.

Record DeviceMediaConfiguration := {
  dc_video_profile_id : list Z; dc_audio_profile_id : option (list Z); dc_mode : RoutedMode;
  dc_video_bitrate : Z }.

Record DeviceMediaSetup := {
  dm_media_generation : Z; dm_endpoints : list DeviceMediaEndpoint;
  dm_configuration : DeviceMediaConfiguration }.

Inductive DeviceMediaSuspendReason := DevOutputDisabled | DevModeChanged | DevDeviceUnavailable | DevSessionInactive.

Inductive DeviceMediaStopReason :=
  | DevStopOutputDisabled | DevStopModeChanged | DevStopDisplayRemoved | DevStopBackendShutdown
  | DevStopTransportFailure.

Inductive DeviceSessionStopReason := DevDisplayRemoved | DevDaemonShutdown.

(** The backend protocol's. *)
Inductive SuspendReason := OutputDisabled | ModeChange | DeviceUnavailable | SessionInactive.

Inductive BackendSessionEvent :=
  | Disconnected (session_generation : Z) (error_text : list Z)
  | FatalError (session_generation : Z) (error_text : list Z)
  | ConnectionClosed (session_generation : Z)
  | MonitorFailed (session_generation : Z) (error_text : list Z).

Record DeviceSessionEvent := { ev_session_generation : Z; ev_error : list Z }.

(** [Panic]: the generation is zero. *)
Definition map_session_event (event : BackendSessionEvent) : outcome unit DeviceSessionEvent :=
  let '(g, error) :=
    match event with
    | Disconnected g e => (g, codes "Device disconnected: " ++ e)
    | FatalError g e => (g, codes "Device session failed: " ++ e)
    | ConnectionClosed g => (g, codes "backend P2P connection closed")
    | MonitorFailed g e => (g, codes "Device-session event monitor failed: " ++ e)
    end in
  if g =? 0 then Panic else Ok {| ev_session_generation := g; ev_error := error |}.

Definition map_configuration (c : DeviceMediaConfiguration) : MediaConfiguration :=
  {| video_profile_id := dc_video_profile_id c; audio_profile_id := dc_audio_profile_id c;
     mc_mode := {| dm_width := rm_width (dc_mode c); dm_height := rm_height (dc_mode c);
                   dm_refresh_millihz := rm_refresh_millihz (dc_mode c); dm_flags := 0 |};
     video_bitrate := dc_video_bitrate c |}.

Definition map_target (t : DeviceMediaTarget) : PipeWireTarget :=
  {| pt_kind := match dt_kind t with DeviceVideo => Video | DeviceAudio => Audio end;
     node_name := dt_node_name t; object_serial := dt_object_serial t; session_id := dt_session_id t;
     device_instance := dt_device_instance t; connector_id := dt_connector_id t;
     output_index := dt_output_index t; pt_media_generation := dt_media_generation t; caps := dt_caps t |}.

Definition map_suspend_reason (r : DeviceMediaSuspendReason) : SuspendReason :=
  match r with
  | DevOutputDisabled => OutputDisabled
  | DevModeChanged => ModeChange
  | DevDeviceUnavailable => DeviceUnavailable
  | DevSessionInactive => SessionInactive
  end.

Definition map_media_stop_reason (r : DeviceMediaStopReason) : StopReason :=
  match r with
  | DevStopOutputDisabled | DevStopModeChanged => UserRequest
  | DevStopDisplayRemoved => DisplayRemoved
  | DevStopBackendShutdown => BackendShutdown
  | DevStopTransportFailure => TransportFailure
  end.

Definition map_stop_reason (r : DeviceSessionStopReason) : StopReason :=
  match r with DevDisplayRemoved => DisplayRemoved | DevDaemonShutdown => BackendShutdown end.

Definition map_control_kind (k : DeviceControlKind) : ControlKind :=
  match k with
  | CecBridge.Activate => BackendProtocol.Activate
  | CecBridge.Deactivate => BackendProtocol.Deactivate
  | CecBridge.Power => BackendProtocol.Power
  | CecBridge.Standby => BackendProtocol.Standby
  | CecBridge.KeyDown => BackendProtocol.KeyDown
  | CecBridge.KeyUp => BackendProtocol.KeyUp
  | CecBridge.Volume => BackendProtocol.Volume
  | CecBridge.Mute => BackendProtocol.Mute
  end.

(** ** The lifecycle *)

Inductive BackendMediaLifecycle :=
  | Prepared (last_completed : Z)
  | Configured (generation : Z)
  | Streaming (generation : Z)
  | LifecycleSuspended (generation : Z)
  | Uncertain (generation : Z).

Inductive BackendMediaPhase := PhaseConfigured | PhaseStreaming | PhaseSuspended.

Definition description (m : BackendMediaLifecycle) : list Z :=
  match m with
  | Prepared last => codes "prepared (last completed generation " ++ display_uint last ++ codes ")"
  | Configured g => codes "configured generation " ++ display_uint g
  | Streaming g => codes "streaming generation " ++ display_uint g
  | LifecycleSuspended g => codes "suspended generation " ++ display_uint g
  | Uncertain g => codes "uncertain generation " ++ display_uint g
  end.

Definition cannot (operation : string) (g : Z) (m : BackendMediaLifecycle) : list Z :=
  codes "cannot " ++ codes operation ++ codes " media generation " ++ display_uint g
  ++ codes " while backend media is " ++ description m.

Definition begin_configure (m : BackendMediaLifecycle) (g : Z) : outcome (list Z) BackendMediaLifecycle :=
  match m with
  | Prepared last =>
      if last <? g then Ok (Uncertain g)
      else Err (codes "media generation " ++ display_uint g ++ codes " is not newer than completed generation "
                ++ display_uint last)
  | _ => Err (cannot "configure" g m)
  end.

Definition in_phase (m : BackendMediaLifecycle) (required : BackendMediaPhase) (g : Z) : bool :=
  match m, required with
  | Configured active, PhaseConfigured | Streaming active, PhaseStreaming
  | LifecycleSuspended active, PhaseSuspended => active =? g
  | _, _ => false
  end.

Definition begin_transition (m : BackendMediaLifecycle) (g : Z) (required : BackendMediaPhase)
    (operation : string) : outcome (list Z) BackendMediaLifecycle :=
  try? reject (negb (in_phase m required g)) (cannot operation g m);
  Ok (Uncertain g).

(** With whether the backend has to be asked. *)
Definition begin_stop (m : BackendMediaLifecycle) (g : Z) : outcome (list Z) (BackendMediaLifecycle * bool) :=
  match m with
  | Prepared last => if last <=? g then Ok (Prepared g, false) else Err (cannot "stop" g m)
  | Configured active | Streaming active | LifecycleSuspended active | Uncertain active =>
      if active =? g then Ok (Uncertain g, true) else Err (cannot "stop" g m)
  end.

(** ** The port *)

(** What is asked of the backend session's handle.  An operation whose caller
    gives up waiting leaves the lifecycle an error leaves. *)
Inductive backend_call :=
  | CallConfigure (generation : Z) (remotes : list Z) (targets : list PipeWireTarget) (c : MediaConfiguration)
  | CallStart (generation : Z)
  | CallSuspend (reason : SuspendReason)
  | CallResume (generation : Z)
  | CallStopMedia (generation : Z) (reason : StopReason)
  | CallControl (operation : ControlOperation)
  | CallStop (reason : StopReason).

Class ErrorTexts := {
  session_text : BackendSessionError -> list Z;
  validation_text : ValidationError -> list Z }.

Definition adapter_step : Type := port_result * BackendMediaLifecycle * option backend_call.

Definition BackendDeviceSession_new : BackendMediaLifecycle := Prepared 0.

Section Port.
Context `{T : ErrorTexts}.

(** The call, made under an uncertain lifecycle, and what its answer settles. *)
Definition crossing (during : BackendMediaLifecycle) (call : backend_call)
    (answer : session_result unit) (after : BackendMediaLifecycle) : adapter_step :=
  let result := omap_err session_text answer in
  (result, if is_ok result then after else during, Some call).

Definition guarded {A} (m : BackendMediaLifecycle) (begun : outcome (list Z) A) (k : A -> adapter_step)
  : adapter_step :=
  match begun with Ok a => k a | Err e => (Err e, m, None) | Panic => (Panic, m, None) end.

Definition configure_media (m : BackendMediaLifecycle) (setup : DeviceMediaSetup) (returned : reply unit)
  : adapter_step :=
  let g := dm_media_generation setup in
  let remotes := de_remote <$> dm_endpoints setup in
  let targets := map_target ∘ de_target <$> dm_endpoints setup in
  let configuration := map_configuration (dm_configuration setup) in
  guarded m (omap_err (fun e => codes "invalid media setup: " ++ validation_text e)
               (validate_media_configuration (length remotes) targets configuration g)) (fun _ =>
  guarded m (begin_configure m g) (fun during =>
  crossing during (CallConfigure g remotes targets configuration)
    (BackendSession.configure_media (length remotes) targets configuration g returned) (Configured g))).

Definition start_media (m : BackendMediaLifecycle) (g : Z) (returned : reply unit) : adapter_step :=
  guarded m (begin_transition m g PhaseConfigured "start") (fun during =>
  crossing during (CallStart g) (BackendSession.start_media returned) (Streaming g)).

Definition suspend_media (m : BackendMediaLifecycle) (g : Z) (reason : DeviceMediaSuspendReason)
    (returned : reply unit) : adapter_step :=
  guarded m (begin_transition m g PhaseStreaming "suspend") (fun during =>
  crossing during (CallSuspend (map_suspend_reason reason)) (BackendSession.suspend_media returned)
    (LifecycleSuspended g)).

Definition resume_media (m : BackendMediaLifecycle) (g : Z) (returned : reply unit) : adapter_step :=
  guarded m (begin_transition m g PhaseSuspended "resume") (fun during =>
  crossing during (CallResume g) (BackendSession.resume_media returned) (Streaming g)).

Definition stop_media (m : BackendMediaLifecycle) (g : Z) (reason : DeviceMediaStopReason)
    (returned : reply unit) : adapter_step :=
  guarded m (begin_stop m g) (fun '(during, ask) =>
  if ask : bool then
    crossing during (CallStopMedia g (map_media_stop_reason reason)) (BackendSession.stop_media returned) (Prepared g)
  else (Ok tt, during, None)).

(** The answers of a control operation are those of its three waits. *)
Definition transmit_control (m : BackendMediaLifecycle) (h : BackendSessionHandle)
    (operation : DeviceControlOperation) (subscribed : reply unit) (submitted : reply Z)
    (completion : reply (option control_completed)) : adapter_step :=
  let o := {| co_session_generation := bs_session_generation h; co_kind := map_control_kind (op_kind operation);
              code := codes <$> op_code operation; co_value := op_value operation |} in
  crossing m (CallControl o) (BackendSession.transmit_control h o subscribed submitted completion) m.

(** It consumes the adapter. *)
Definition stop (reason : DeviceSessionStopReason) (returned : reply unit) : port_result * backend_call :=
  (omap_err session_text (BackendSession.stop returned), CallStop (map_stop_reason reason)).

End Port.

(** ** What the backend sees *)

Inductive adapter_op :=
  | DoConfigure (setup : DeviceMediaSetup) (returned : reply unit)
  | DoStart (generation : Z) (returned : reply unit)
  | DoSuspend (generation : Z) (reason : DeviceMediaSuspendReason) (returned : reply unit)
  | DoResume (generation : Z) (returned : reply unit)
  | DoStopMedia (generation : Z) (reason : DeviceMediaStopReason) (returned : reply unit)
  | DoControl (h : BackendSessionHandle) (operation : DeviceControlOperation) (subscribed : reply unit)
      (submitted : reply Z) (completion : reply (option control_completed)).

Definition adapt `{ErrorTexts} (m : BackendMediaLifecycle) (op : adapter_op) : adapter_step :=
  match op with
  | DoConfigure setup r => configure_media m setup r
  | DoStart g r => start_media m g r
  | DoSuspend g reason r => suspend_media m g reason r
  | DoResume g r => resume_media m g r
  | DoStopMedia g reason r => stop_media m g reason r
  | DoControl h o a b c => transmit_control m h o a b c
  end.

(** Every call with whether it succeeded. *)
Abbreviation call_log := (list (backend_call * bool)).

Definition is_media (c : backend_call) : bool := match c with CallControl _ => false | _ => true end.

(** The media calls an operation made. *)
Definition made (r : adapter_step) : call_log :=
  let '(result, _, call) := r in
  match call with Some c => if is_media c then [(c, is_ok result)] else [] | None => [] end.

Definition adapter_run `{ErrorTexts} (ops : list adapter_op) : BackendMediaLifecycle * call_log :=
  foldl (fun '(m, log) op => ((adapt m op).1.2, log ++ made (adapt m op))) (BackendDeviceSession_new, []) ops.













Lemma begin_transition_ok m g required op during :
  begin_transition m g required op = Ok during ->
  during = Uncertain g /\
  m = match required with
      | PhaseConfigured => Configured g | PhaseStreaming => Streaming g | PhaseSuspended => LifecycleSuspended g
      end.
Proof.
  unfold begin_transition. rewrite reject_seq_ok. intros [Hp [= <-]]. apply negb_false_iff in Hp. split; [done|].
  destruct m, required; cbn in Hp; try done; by apply Z.eqb_eq in Hp as ->.
Qed.




(** ** Behind the replaceable session

    The shared session of ReplaceableSession, whose current session is this
    adapter: the answer to a call is the adapter's.  [live_media] is the
    lifecycle of the session that is installed. *)

Record live := { live_shared : SharedState; live_media : BackendMediaLifecycle }.

Inductive live_op :=
  | LiveMedia (op : adapter_op)
  | LiveStop
  | LiveRetire
  | LiveInstall (generation session : Z).

Definition live_new (generation session : Z) : live :=
  {| live_shared := replaceable_device_session generation session; live_media := BackendDeviceSession_new |}.

Section Live.
Context `{T : ErrorTexts}.

(** The operation on the shared state, with the answer the adapter would give. *)
Definition shared_op (m : BackendMediaLifecycle) (op : live_op) : replace_op :=
  match op with
  | LiveMedia o =>
      let answer := (adapt m o).1.1 in
      match o with
      | DoConfigure setup _ => OpConfigure (dm_media_generation setup) answer
      | DoStart g _ => OpStart g answer
      | DoSuspend g _ _ => OpSuspend g answer
      | DoResume g _ => OpResume g answer
      | DoStopMedia g _ _ => OpStopMedia g answer
      | DoControl _ _ _ _ _ => OpControl answer
      end
  | LiveStop => OpStop
  | LiveRetire => OpRetire
  | LiveInstall generation session => OpInstall generation session
  end.

Definition live_step (l : live) (op : live_op) : live :=
  let '(s, e) := replace_step (live_shared l) (shared_op (live_media l) op) in
  {| live_shared := s;
     live_media := match e, op with
                   | Called _ _ _, LiveMedia o => (adapt (live_media l) o).1.2
                   | Accepted _ _, _ => BackendDeviceSession_new
                   | _, _ => live_media l
                   end |}.

Definition live_run (l : live) (ops : list live_op) : live := foldl live_step l ops.

(** The driver never configures a generation twice, nor an older one. *)
Fixpoint increasing (top : Z) (ops : list live_op) : Prop :=
  match ops with
  | [] => True
  | LiveMedia (DoConfigure setup _) :: ops =>
      top < dm_media_generation setup /\ increasing (dm_media_generation setup) ops
  | _ :: ops => increasing top ops
  end.

(** The end of [g] will not be refused. *)
Definition cleanable (m : BackendMediaLifecycle) (g : Z) : Prop :=
  match m with
  | Prepared l => l <= g
  | Configured g' | Streaming g' | LifecycleSuspended g' | Uncertain g' => g' = g
  end.

Record live_ok (top : Z) (l : live) : Prop := {
  lo_top : 0 <= top;
  lo_closed : closed (live_shared l) = true -> current (live_shared l) = None;
  lo_retired : forall g, g ∈ retired_media_generations (live_shared l) -> g <= top;
  lo_media : forall a, current (live_shared l) = Some a ->
    match as_media_generation a with
    | None => exists k, live_media l = Prepared k /\ k <= top
    | Some g => g <= top /\ g ∉ retired_media_generations (live_shared l) /\ cleanable (live_media l) g
    end }.

(** A call other than an end leaves the end possible. *)
Lemma transition_cleanable m g required op call answer after :
  cleanable m g -> cleanable after g ->
  cleanable (guarded m (begin_transition m g required op) (fun during => crossing during call answer after)).1.2 g.
Proof.
  intros Hm Ha. unfold guarded. destruct (begin_transition m g required op) as [during|e|] eqn:E; [|done..].
  apply begin_transition_ok in E as [-> _]. unfold crossing. cbn. by destruct (is_ok _).
Qed.

Lemma configure_cleanable k setup r :
  k <= dm_media_generation setup -> cleanable (configure_media (Prepared k) setup r).1.2 (dm_media_generation setup).
Proof.
  intros Hk. unfold configure_media, guarded. destruct (omap_err _ _); [|done..]. cbn.
  destruct (k <? _); [|done]. unfold crossing. cbn. by destruct (is_ok _).
Qed.

Lemma stop_cleanable m g reason r :
  cleanable m g ->
  let '(result, m', _) := stop_media m g reason r in
  if is_ok result then m' = Prepared g else cleanable m' g.
Proof.
  intros Hm. unfold stop_media, guarded. destruct m as [l|g'|g'|g'|g']; cbn in Hm |- *;
    [destruct (Z.leb_spec l g); [done|lia]|subst g'; rewrite Z.eqb_refl; unfold crossing; cbn; by destruct (is_ok _)..].
Qed.

(** The step does not move the shared session, or its lifecycle. *)
Lemma live_quiet top l s' :
  live_ok top l -> current s' = current (live_shared l) -> closed s' = closed (live_shared l) ->
  retired_media_generations s' ⊆ retired_media_generations (live_shared l) ->
  live_ok top {| live_shared := s'; live_media := live_media l |}.
Proof.
  intros [Ht Hc Hr Hm] E1 E2 E3. split; cbn; [done|by rewrite E1, E2|by intros g Hg%E3; apply Hr|].
  rewrite E1. intros a Ha. specialize (Hm a Ha). destruct (as_media_generation a); [|done].
  destruct Hm as (? & Hn & ?). split_and!; [done| |done]. by intros ?%E3.
Qed.

(** A call on the session of generation [g]. *)
Lemma live_called top l m' a :
  live_ok top l -> current (live_shared l) = Some a ->
  (forall g, as_media_generation a = Some g -> cleanable m' g) ->
  (as_media_generation a = None -> m' = live_media l) ->
  live_ok top {| live_shared := live_shared l; live_media := m' |}.
Proof.
  intros [Ht Hc Hr Hm] Ha Hg Hn. split; cbn; [done..|]. intros a' Ha'. assert (a' = a) as -> by congruence.
  specialize (Hm a Ha). destruct (as_media_generation a) as [g|]; [naive_solver|]. by rewrite Hn.
Qed.

Lemma live_ok_mono top top' l : top <= top' -> live_ok top l -> live_ok top' l.
Proof.
  intros Ht [H0 Hc Hr Hm]. split; [lia|done|by intros g ?%Hr; lia|]. intros a Ha. specialize (Hm a Ha).
  destruct (as_media_generation a) as [g|]; [|destruct Hm as (k & ? & ?); exists k; split; [done|lia]].
  destruct Hm as (? & ? & ?). split_and!; [lia|done..].
Qed.

Definition next_top (top : Z) (op : live_op) : Z :=
  match op with LiveMedia (DoConfigure setup _) => dm_media_generation setup | _ => top end.

Lemma live_configure_ok top l setup r :
  live_ok top l -> top < dm_media_generation setup ->
  live_ok (dm_media_generation setup) (live_step l (LiveMedia (DoConfigure setup r))).
Proof.
  intros Hl Hg. pose proof (live_ok_mono top (dm_media_generation setup) l ltac:(lia) Hl) as Hq.
  unfold live_step. cbn [shared_op replace_step].
  unfold ReplaceableSession.configure_media, on_session. destruct (live_session (live_shared l)) as [a|e|] eqn:E;
    [|by apply live_quiet..]. apply live_session_ok in E as [Hcl Ha].
  destruct (as_media_generation a) as [active|] eqn:Em; [by apply live_quiet|].
  destruct Hl as [Ht Hc Hr Hm]. specialize (Hm a Ha). rewrite Em in Hm. destruct Hm as (k & Hk & Hle).
  split; cbn; [lia|by rewrite Hcl|by intros g ?%Hr; lia|]. intros a' [= <-]. cbn. split_and!; [lia| |].
  - intros ?%Hr. lia.
  - rewrite Hk. apply configure_cleanable. lia.
Qed.

(** Starting, suspending and resuming. *)
Lemma live_transition_ok top l g op o c answer :
  live_ok top l ->
  replace_step (live_shared l) (shared_op (live_media l) (LiveMedia o)) =
    called (on_session (matching_session (live_shared l) g op) (live_shared l)
              (fun a => (answer, live_shared l, Some (as_session a, c)))) ->
  (cleanable (live_media l) g -> cleanable (adapt (live_media l) o).1.2 g) ->
  live_ok top (live_step l (LiveMedia o)).
Proof.
  intros Hl E Hclean. unfold live_step. rewrite E. unfold on_session.
  destruct (matching_session _ _ _) as [a|e|] eqn:Em; [|by apply live_quiet..].
  apply matching_session_ok in Em as [Ha Hg]. eapply live_called; [done|done| |congruence].
  intros g' ?. assert (g' = g) as -> by congruence. apply Hclean.
  pose proof (lo_media _ _ Hl a Ha) as Hm. rewrite Hg in Hm. tauto.
Qed.

Lemma live_stop_media_ok top l g reason r :
  live_ok top l -> live_ok top (live_step l (LiveMedia (DoStopMedia g reason r))).
Proof.
  intros Hl. unfold live_step. cbn [shared_op replace_step adapt]. unfold ReplaceableSession.stop_media.
  destruct (decide (g ∈ retired_media_generations (live_shared l))).
  { apply live_quiet; cbn; [done..|set_solver]. }
  unfold on_session. destruct (live_session (live_shared l)) as [a|e|] eqn:E; [|by apply live_quiet..].
  apply live_session_ok in E as [Hcl Ha]. destruct (as_media_generation a) as [active|] eqn:Em; [|by apply live_quiet].
  destruct (Z.eqb_spec active g) as [->|]; [|by apply live_quiet]. cbn [negb called].
  pose proof (lo_media _ _ Hl a Ha) as Hm. rewrite Em in Hm. destruct Hm as (Hg & Hr & Hc).
  pose proof (stop_cleanable (live_media l) g reason r Hc) as Hs.
  destruct (stop_media (live_media l) g reason r) as [[result m'] call]. cbn. destruct (is_ok result).
  - subst m'. split; cbn; [apply Hl|by rewrite Hcl|apply Hl|]. intros a' [= <-]. cbn. by exists g.
  - eapply live_called; [done|done| |congruence]. intros g' ?. by assert (g' = g) as -> by congruence.
Qed.

Lemma live_owner_ok top l op :
  live_ok top l -> match op with LiveMedia _ => False | _ => True end -> live_ok top (live_step l op).
Proof.
  intros Hl Hop. destruct op as [o| | |gen x]; [done|..]; unfold live_step; cbn [shared_op replace_step].
  - unfold stop_taking. destruct (closed (live_shared l)) eqn:E; [by apply live_quiet|].
    split; cbn; [apply Hl|done|set_solver|done].
  - unfold retire_taking. destruct (closed (live_shared l)) eqn:E; [by apply live_quiet|].
    split; cbn; [apply Hl|done| |done]. intros g. destruct (current (live_shared l)) as [a|] eqn:Ha; cbn; [|apply Hl].
    pose proof (lo_media _ _ Hl a Ha) as Hm. destruct (as_media_generation a) as [g'|]; [|apply Hl].
    rewrite elem_of_union, elem_of_singleton. intros [->|?]; [tauto|by apply Hl].
  - unfold install_locked. destruct (closed (live_shared l)) eqn:E; [by apply live_quiet|].
    destruct (current (live_shared l)) eqn:Ec; [by apply live_quiet|]. destruct (gen <=? _); [by apply live_quiet|].
    split; cbn; [apply Hl|done|apply Hl|]. intros a [= <-]. cbn. exists 0. split; [done|]. apply (lo_top _ _ Hl).
Qed.

Lemma live_step_ok top l op :
  live_ok top l -> (forall setup r, op = LiveMedia (DoConfigure setup r) -> top < dm_media_generation setup) ->
  live_ok (next_top top op) (live_step l op).
Proof.
  intros Hl Hg. destruct op as [[setup r|g r|g reason r|g r|g reason r|h o a b c]| | |]; cbn [next_top].
  - apply live_configure_ok with top; [done|]. by eapply Hg.
  - eapply (live_transition_ok _ _ g); [done|reflexivity|]. intros Hc. by apply transition_cleanable.
  - eapply (live_transition_ok _ _ g); [done|reflexivity|]. intros Hc. by apply transition_cleanable.
  - eapply (live_transition_ok _ _ g); [done|reflexivity|]. intros Hc. by apply transition_cleanable.
  - by apply live_stop_media_ok.
  - unfold live_step. cbn [shared_op replace_step]. unfold ReplaceableSession.transmit_control, on_session.
    assert (forall op, (adapt (live_media l) (DoControl h op a b c)).1.2 = live_media l) as Eq.
    { intros op. unfold adapt, transmit_control, crossing. cbn. by destruct (is_ok _). }
    destruct (live_session _); [|by apply live_quiet..]. cbn beta iota delta [called]. rewrite Eq. by apply live_quiet.
  - by apply live_owner_ok.
  - by apply live_owner_ok.
  - by apply live_owner_ok.
Qed.

Lemma live_run_ok top l ops : live_ok top l -> increasing top ops -> exists top', live_ok top' (live_run l ops).
Proof.
  revert top l. induction ops as [|op ops IH]; intros top l Hl Hi; [by exists top|]. cbn.
  apply (IH (next_top top op)).
  - apply live_step_ok; [done|]. intros setup r ->. apply Hi.
  - by destruct op as [[]| | |]; try done; apply Hi.
Qed.

(** C7: a display whose driver numbers its media upwards can always clean up.
    Whatever was asked of the device and whatever it answered, with errors,
    timeouts and replacements of the session on the way, the generation that is
    active can be ended: the request is never refused by the daemon's own
    bookkeeping, and once the backend answers it the session is free for a newer
    generation. *)
Theorem cleanup_completes generation session ops a g reason :
  increasing 0 ops ->
  let l := live_run (live_new generation session) ops in
  current (live_shared l) = Some a -> as_media_generation a = Some g ->
  let '(result, _, _) := stop_media (live_media l) g reason (Answer tt) in
  result = Ok tt /\
  live_step l (LiveMedia (DoStopMedia g reason (Answer tt))) =
    {| live_shared := with_current (live_shared l) (Some (with_media a None)); live_media := Prepared g |}.
Proof.
  intros Hi l Ha Hg. assert (live_ok 0 (live_new generation session)) as H0.
  { split; cbn; [lia|done|set_solver|]. intros a' [= <-]. cbn. by exists 0. }
  destruct (live_run_ok 0 _ ops H0 Hi) as [top Hl]. fold l in Hl.
  pose proof (lo_media _ _ Hl a Ha) as Hm. rewrite Hg in Hm. destruct Hm as (Ht & Hr & Hc).
  assert (exists c, stop_media (live_media l) g reason (Answer tt) = (Ok tt, Prepared g, c)) as [c E].
  { unfold stop_media, guarded. destruct (live_media l) as [k|g'|g'|g'|g']; cbn in Hc |- *;
      [destruct (Z.leb_spec k g); [by eexists|lia]|subst g'; rewrite Z.eqb_refl; by eexists..]. }
  rewrite E. split; [done|]. unfold live_step. cbn [shared_op replace_step adapt]. rewrite E. cbn [fst snd].
  unfold ReplaceableSession.stop_media. rewrite decide_False by done. unfold on_session, live_session.
  destruct (closed (live_shared l)) eqn:Ecl; [pose proof (lo_closed _ _ Hl Ecl); congruence|]. rewrite Ha, Hg, Z.eqb_refl.
  done.
Qed.

End Live.

(** ** An instance *)

Definition ex_texts : ErrorTexts := {| session_text := fun _ => codes "error"; validation_text := fun _ => codes "invalid" |}.

Definition ex_target (kind : DeviceMediaKind) (g : Z) : DeviceMediaTarget :=
  {| dt_kind := kind; dt_node_name := codes "pronk.video"; dt_object_serial := 42;
     dt_session_id := codes "123e4567-e89b-42d3-a456-426614174000"; dt_device_instance := codes "tv";
     dt_connector_id := 7; dt_output_index := 0; dt_media_generation := g; dt_caps := codes "video/x-raw" |}.

Definition ex_media_setup (g : Z) : DeviceMediaSetup :=
  {| dm_media_generation := g; dm_endpoints := [{| de_remote := 10; de_target := ex_target DeviceVideo g |}];
     dm_configuration :=
       {| dc_video_profile_id := codes "h264"; dc_audio_profile_id := None;
          dc_mode := {| rm_width := 1920; rm_height := 1080; rm_refresh_millihz := 60000; rm_flags := 5 |};
          dc_video_bitrate := 8000000 |} |}.

(** A stream that starts, is suspended, and then does not resume. *)
Definition ex_operations : list adapter_op :=
  [DoConfigure (ex_media_setup 1) (Answer tt); DoStart 1 (Answer tt); DoSuspend 1 DevOutputDisabled (Answer tt);
   DoResume 1 Late; DoResume 1 (Answer tt); DoConfigure (ex_media_setup 2) (Answer tt);
   DoStopMedia 1 DevStopOutputDisabled (Answer tt); DoConfigure (ex_media_setup 2) (Answer tt)].

Definition call_name (c : backend_call * bool) : string * bool :=
  (match c.1 with
   | CallConfigure _ _ _ _ => "configure" | CallStart _ => "start" | CallSuspend _ => "suspend"
   | CallResume _ => "resume" | CallStopMedia _ _ => "stop media" | CallControl _ => "control" | CallStop _ => "stop"
   end%string, c.2).

Example a_lost_answer_leaves_the_end :
  call_name <$> (adapter_run (H := ex_texts) ex_operations).2 =
  [("configure", true); ("start", true); ("suspend", true); ("resume", false); ("stop media", true);
   ("configure", true)]%string.
Proof. by vm_compute. Qed.

(** The active generation is the second; it never answered. *)
Definition ex_live : list live_op :=
  [LiveMedia (DoConfigure (ex_media_setup 1) (Answer tt)); LiveRetire; LiveInstall 2 20;
   LiveMedia (DoConfigure (ex_media_setup 2) Late)].

Lemma cleanup_completes_witness :
  increasing 0 ex_live /\
  exists a, current (live_shared (live_run (T := ex_texts) (live_new 1 10) ex_live)) = Some a /\
  as_session a = 20 /\
  live_media (live_step (T := ex_texts) (live_run (T := ex_texts) (live_new 1 10) ex_live)
    (LiveMedia (DoStopMedia 2 DevStopTransportFailure (Answer tt)))) = Prepared 2.
Proof.
  split; [by vm_compute|]. eexists. split; [by vm_compute|]. split; [done|].
  pose proof (cleanup_completes (T := ex_texts) 1 10 ex_live
    {| as_session_generation := 2; as_media_generation := Some 2; as_session := 20 |} 2 DevStopTransportFailure
    ltac:(by vm_compute) ltac:(by vm_compute) eq_refl) as H.
  cbv zeta in H. destruct (stop_media _ _ _ _) as [[result m] call]. destruct H as [_ ->]. done.
Defined.
