(* ===== verification/DeviceRecovery.v ===== *)
(** * Recovery of a device session (crates/pronk/src/device_recovery.rs)

    The actor that gives an attached display a new backend session when its
    device lost the old one.  It composes the factory of DisplaySetup, the
    shared session of ReplaceableSession and the comparison of Preparation; the
    media driver's and the control port's tasks go on using the shared session
    while it works.

    One turn of the actor's loop is a function of its state, of the input the
    [select!] gave and of what the turn's waits come to ([turn]).  A session is
    named by the generation it was created with.  The theorems: there is never
    more than one session of the device, and every request that is not
    cancelled is answered once, with a session that can carry on or with the
    reason there is none. *)

From S2P Require Import Prelude Bytes Text Actor Ordering PublicTypes BackendSession Identity Edid EdidLayout Preparation DisplaySetup ReplaceableSession DeviceSession.

(** ** Requests *)

Inductive DeviceSessionRecoveryError := GenerationExhausted | RecoveryStopped.

(** A cancellation token is the number of the request it was made for; 0 is the
    one the actor starts with. *)
Record DeviceSessionRecoveryHandle := {
  request_generation : Z; phase_cancellation : Z; cancelled_tokens : gset Z }.

Definition handle_new : DeviceSessionRecoveryHandle :=
  {| request_generation := 0; phase_cancellation := 0; cancelled_tokens := ∅ |}.

Definition cancel_phase (h : DeviceSessionRecoveryHandle) : DeviceSessionRecoveryHandle :=
  {| request_generation := request_generation h; phase_cancellation := phase_cancellation h;
     cancelled_tokens := {[phase_cancellation h]} ∪ cancelled_tokens h |}.

(** [begin_request]: the token of the phase that ends is cancelled. *)
Definition begin_request (h : DeviceSessionRecoveryHandle) (token : Z) : DeviceSessionRecoveryHandle :=
  {| request_generation := token; phase_cancellation := token;
     cancelled_tokens := {[phase_cancellation h]} ∪ cancelled_tokens h |}.

(** [accepted]: the actor's queue took the command. *)
Definition recover (h : DeviceSessionRecoveryHandle) (accepted : bool)
  : outcome DeviceSessionRecoveryError Z * DeviceSessionRecoveryHandle :=
  if u64_MAX <=? request_generation h then (Err GenerationExhausted, h)
  else
    let g := request_generation h + 1 in
    (if accepted then Ok g else Err RecoveryStopped, begin_request h g).

(** ** The actor *)

Inductive DeviceSessionRecoveryEvent :=
  | Ready (request : Z) (device : DeviceInfo) (session_generation : Z) (retired_session_cleanup_error : option (list Z))
  | Failed (request : Z) (device : DeviceInfo) (error : list Z)
  | TransportFailed (session_generation : Z) (error : list Z).

(** What a turn's waits come to. *)
Record turn := {
  turn_world : World;                  (* what the factory meets *)
  turn_others : list replace_op;       (* what the other tasks do meanwhile *)
  turn_retired_stop : option (list Z); (* the error of stopping the retired session *)
  turn_new_stop : option (list Z);     (* and a new one that is not installed *)
  turn_received : bool }.              (* the event's receiver is there *)

Inductive NextRecoveryInput :=
  | Recover (request : Z) (device : DeviceInfo)
  | Shutdown
  | CommandsClosed
  | SessionEvent (event : option DeviceSessionEvent)
  | Other (op : replace_op).           (* another task's operation between two turns *)

Inductive recovery_action :=
  | Factory (a : setup_action)
  | StopOf (session : Z)
  | Others (e : replace_event)
  | CloseEvents
  | Emit (e : DeviceSessionRecoveryEvent).

Record recovery := {
  rc_shared : SharedState; rc_last_session_generation : Z; rc_watching : bool }.

Definition recovery_new (generation : Z) : recovery :=
  {| rc_shared := replaceable_device_session generation generation;
     rc_last_session_generation := generation; rc_watching := true |}.

(** Only this actor has the replacement handle. *)
Definition by_port (op : replace_op) : bool := match op with OpRetire | OpInstall _ _ => false | _ => true end.

Definition replacement_error_text (e : DeviceSessionReplacementError) : list Z :=
  match e with
  | ReplacementStopped => codes "Device-session owner has stopped"
  | Occupied c => codes "Device-session generation " ++ display_uint c ++ codes " still occupies the replacement slot"
  | StaleGeneration c r =>
      codes "replacement session generation " ++ display_uint r ++ codes " is not newer than current generation "
      ++ display_uint c
  | RejectedCleanup reason cleanup => reason ++ codes "; rejected session cleanup also failed: " ++ cleanup
  end.

(** [send_failure]. *)
Definition failure (request : Z) (device : DeviceInfo) (error : list Z) : recovery_action :=
  Emit (Failed request device (elided_chars error MAX_RECOVERY_ERROR_BYTES)).

Definition closing (s : recovery) : list recovery_action := if rc_watching s then [CloseEvents] else [].

Definition incompatible (error : list Z) (cleanup : option (list Z)) : list Z :=
  match cleanup with
  | Some c =>
      codes "recovered Device session is incompatible: " ++ error ++ codes "; replacement cleanup also failed: " ++ c
  | None => codes "recovered Device session is incompatible: " ++ error
  end.

(** The state, what was done, and whether the loop goes on. *)
Definition turn_result : Type := recovery * list recovery_action * bool.

Section Actor.
Context `{U : Unicode} `{S : Sha256}.
Variables (f : session_factory) (prepared : PreparedCastDevice).
Variable recovery_error_text : PreparedDeviceRecoveryError -> list Z.

Definition with_shared (s : SharedState) (g : Z) (watching : bool) : recovery :=
  {| rc_shared := s; rc_last_session_generation := g; rc_watching := watching |}.

(** The new session and its device are there. *)
Definition install_recovered (t : turn) (request : Z) (device : DeviceInfo) (shared : SharedState) (g : Z)
    (cleanup : option (list Z)) : turn_result :=
  match install_locked shared g g with
  | Ok shared' => (with_shared shared' g true, [Emit (Ready request device g cleanup)], turn_received t)
  | Err e =>
      match rejected_error e (turn_new_stop t) with
      | Some e =>
          (with_shared shared g false,
           [StopOf g; CloseEvents;
            failure request device (codes "install recovered Device session: " ++ replacement_error_text e)], true)
      | None => (with_shared shared g false, [StopOf g], false)
      end
  | Panic => (with_shared shared g false, [], false)
  end.

(** The current session is retired. *)
Definition replace_session (t : turn) (request : Z) (device : DeviceInfo) (shared : SharedState) (g : Z)
    (cleanup : option (list Z)) : turn_result :=
  let '(result, tr) := create_prepared_session (W := turn_world t) f device g [] in
  let '(shared', log) := replace_run shared (List.filter by_port (turn_others t)) in
  let '(s, acts, continue) :=
    match result with
    | Err FactoryCancelled => (with_shared shared' g false, [], true)
    | Err (FactoryFailed m) => (with_shared shared' g false, [failure request device m], true)
    | Panic => (with_shared shared' g false, [], false)
    | Ok recovered =>
        match validate_recovery prepared recovered with
        | Panic => (with_shared shared' g false, [], false)
        | Err e =>
            (with_shared shared' g false,
             [CloseEvents; StopOf g;
              failure request device (incompatible (recovery_error_text e) (turn_new_stop t))], true)
        | Ok _ => install_recovered t request device shared' g cleanup
        end
    end in
  (s, (Factory <$> tr) ++ (Others <$> log) ++ acts, continue).

Definition run_recover (t : turn) (request : Z) (device : DeviceInfo) (s : recovery) : turn_result :=
  if u64_MAX <=? rc_last_session_generation s then
    (s, [failure request device (codes "Device-session generation exhausted")], true)
  else
    let g := rc_last_session_generation s + 1 in
    match retire_taking (rc_shared s) with
    | Ok (shared, retired) =>
        let report := retirement retired (turn_retired_stop t) in
        let '(s', acts, continue) := replace_session t request device shared g (cleanup_error report) in
        (s', closing s ++ option_list (StopOf ∘ as_session <$> retired) ++ acts, continue)
    | Err e =>
        (with_shared (rc_shared s) g false,
         closing s ++ [failure request device (codes "retire current Device session: " ++ replacement_error_text e)], true)
    | Panic => (with_shared (rc_shared s) g false, closing s, false)
    end.

(** [SessionEvent] is only selected while the events are watched. *)
Definition recovery_turn (t : turn) (input : NextRecoveryInput) (s : recovery) : turn_result :=
  match input with
  | Recover request device => run_recover t request device s
  | Shutdown => (with_shared (rc_shared s) (rc_last_session_generation s) false, closing s, false)
  | CommandsClosed => (s, [], false)
  | SessionEvent event =>
      if rc_watching s then
        let '(g, error) := match event with
                           | Some e => (ev_session_generation e, ev_error e)
                           | None => (rc_last_session_generation s, codes "Device-session event source stopped")
                           end in
        (with_shared (rc_shared s) (rc_last_session_generation s) false,
         [CloseEvents; Emit (TransportFailed g (elided_chars error MAX_RECOVERY_ERROR_BYTES))], turn_received t)
      else (s, [], true)
  | Other op =>
      let '(shared, log) := replace_run (rc_shared s) (List.filter by_port [op]) in
      (with_shared shared (rc_last_session_generation s) (rc_watching s), Others <$> log, true)
  end.

(** The loop: it ends with its first turn that says so. *)
Fixpoint run_recovery (inputs : list (turn * NextRecoveryInput)) (s : recovery) : recovery * list recovery_action :=
  match inputs with
  | [] => (s, [])
  | (t, input) :: inputs =>
      let '(s', acts, continue) := recovery_turn t input s in
      if continue : bool then let '(s'', acts') := run_recovery inputs s' in (s'', acts ++ acts') else (s', acts)
  end.

End Actor.

(** ** One session at a time *)

Definition change (a : recovery_action) : Z :=
  match a with
  | Factory a => session_change a
  | StopOf _ => -1
  | Others e => - Z.of_nat (length (released e))
  | CloseEvents | Emit _ => 0
  end.

Definition total (l : list recovery_action) : Z := foldr Z.add 0 (change <$> l).

(** Counted from [n], it stays between none and one. *)
Fixpoint ranged (n : Z) (l : list recovery_action) : Prop :=
  match l with [] => True | a :: l => 0 <= n + change a <= 1 /\ ranged (n + change a) l end.

Definition held (s : recovery) : Z := Z.of_nat (length (session_of (rc_shared s))).

Lemma total_app l1 l2 : total (l1 ++ l2) = total l1 + total l2.
Proof. unfold total. by rewrite fmap_app, sum_app. Qed.

Lemma ranged_app n l1 l2 : ranged n l1 -> ranged (n + total l1) l2 -> ranged n (l1 ++ l2).
Proof.
  revert n. induction l1 as [|a l1 IH]; intros n H1 H2; cbn in *; [by rewrite Z.add_0_r in H2|].
  destruct H1 as [Ha H1]. split; [done|]. apply IH; [done|]. by rewrite <- Z.add_assoc.
Qed.

Lemma ranged_quiet n l : 0 <= n <= 1 -> Forall (fun a => change a = 0) l -> ranged n l /\ total l = 0.
Proof.
  intros Hn. induction 1 as [|a l Ha _ [IH1 IH2]]; [done|]. unfold total in *. cbn. rewrite Ha, Z.add_0_r. done.
Qed.

Lemma held_range s : 0 <= held s <= 1.
Proof. unfold held, session_of. destruct (current (rc_shared s)); cbn; lia. Qed.

Lemma total_factory tr : total (Factory <$> tr) = sessions_open tr.
Proof. unfold total, sessions_open. by rewrite <- list_fmap_compose. Qed.

Lemma total_prefix n l before after : ranged n l -> l = before ++ after -> 0 <= n <= 1 -> 0 <= n + total before <= 1.
Proof.
  intros Hl ->. revert n Hl. induction before as [|a before IH]; intros n Hl Hn; cbn in *; [unfold total; cbn; lia|].
  destruct Hl as [Ha Hl]. specialize (IH _ Hl Ha). unfold total in *. cbn. lia.
Qed.

(** What another task's operation does. *)
Lemma port_effect s op :
  by_port op = true ->
  let '(s', e) := replace_step s op in
  length (session_of s) = (length (session_of s') + length (released e))%nat /\
  last_session_generation s' = last_session_generation s /\
  ((closed s = true -> current s = None) -> closed s' = true -> current s' = None) /\
  (closed s = true -> closed s' = true) /\
  (released e <> [] -> closed s' = true).
Proof.
  intros Hop. pose proof (step_effect s op) as He. destruct (replace_step s op) as [s' e] eqn:E.
  assert (handed op = []) as Hh by (by destruct op).
  pose proof (eo_owner _ _ _ _ He) as Hp. rewrite Hh, app_nil_r in Hp.
  split; [by rewrite Hp, length_app|]. clear He Hp Hh.
  destruct op; cbn in Hop; try done; cbn in E; unfold ReplaceableSession.configure_media, ReplaceableSession.start_media,
    ReplaceableSession.suspend_media, ReplaceableSession.resume_media, ReplaceableSession.stop_media,
    ReplaceableSession.transmit_control, stop_taking, on_session, called, refuse in E;
    repeat case_match; simplify_eq; cbn;
    repeat match goal with H : live_session _ = Ok _ |- _ => apply live_session_ok in H as [??] end; naive_solver.
Qed.

(** A run of other tasks' operations. *)
Lemma ports_effect s ops :
  let '(s', log) := replace_run s (List.filter by_port ops) in
  Z.of_nat (length (session_of s)) + total (Others <$> log) = Z.of_nat (length (session_of s')) /\
  ranged (Z.of_nat (length (session_of s))) (Others <$> log) /\
  last_session_generation s' = last_session_generation s /\
  ((closed s = true -> current s = None) -> closed s' = true -> current s' = None) /\
  (closed s = true -> closed s' = true) /\
  (Exists (fun e => released e <> []) log -> closed s' = true).
Proof.
  assert (Forall (fun op => by_port op = true) (List.filter by_port ops)) as Hops.
  { apply Forall_forall. intros op Hop%list_elem_of_In. by apply filter_In in Hop as [_ ?]. }
  induction (List.filter by_port ops) as [|op l IH] using rev_ind.
  { cbn. split_and!; [unfold total; cbn; lia|done..|by intros ?%Exists_nil]. }
  apply Forall_app in Hops as [Hl Hop]. specialize (IH Hl). rewrite replace_run_snoc.
  destruct (replace_run s l) as [s1 log]. pose proof (port_effect s1 op ltac:(by inversion Hop)) as He.
  destruct (replace_step s1 op) as [s2 e]. destruct IH as (I1 & I2 & I3 & I4 & I5 & I6). destruct He as (E1 & E2 & E3 & E4 & E5).
  rewrite fmap_app, total_app. assert (total (Others <$> [e]) = - Z.of_nat (length (released e))) as Et by (unfold total; cbn; lia).
  split_and!; [lia| |congruence|tauto|tauto|].
  - apply ranged_app; [done|]. rewrite I1. cbn. split; [|done].
    assert (0 <= Z.of_nat (length (session_of s1)) <= 1) by (unfold session_of; destruct (current s1); cbn; lia). lia.
  - rewrite Exists_app, Exists_cons, Exists_nil. intros [?|[?|[]]]; auto.
Qed.

Lemma ports_idle s ops :
  current s = None ->
  let '(s', log) := replace_run s (List.filter by_port ops) in
  current s' = None /\ Forall (fun a => change a = 0) (Others <$> log).
Proof.
  intros Hs. pose proof (ports_effect s ops) as He. destruct (replace_run s _) as [s' log].
  destruct He as (E1 & E2 & _). unfold session_of in E1, E2. rewrite Hs in E1, E2. cbn in E1, E2.
  assert (total (Others <$> log) = - Z.of_nat (length (concat (released <$> log)))) as Et.
  { clear. unfold total. induction log as [|e log IH]; [done|]. cbn in *. rewrite length_app. lia. }
  rewrite Et in E1. split; [destruct (current s'); [cbn in E1; lia|done]|].
  assert (concat (released <$> log) = []) as Hn by (destruct (concat _); cbn in E1; [done|lia]). clear -Hn.
  induction log as [|e log IH]; [constructor|]. cbn in Hn. apply app_eq_nil in Hn as [He Hn]. constructor; [cbn; by rewrite He|by apply IH].
Qed.

Lemma factory_ranged `{W : World} `{U : Unicode} `{S : Sha256} f device g :
  ranged 0 (Factory <$> (create_prepared_session f device g []).2).
Proof.
  unfold create_prepared_session, create_replacement, prepare_replacement, sbind, abandon_session, stop_partial_backend,
    abind, see, act, aret, is_ok, omap_err.
  cbn. walk; cbn; repeat split; lia.
Qed.

Lemma factory_total `{W : World} `{U : Unicode} `{S : Sha256} f device g :
  let '(r, tr) := create_prepared_session f device g [] in
  match r with Ok _ => total (Factory <$> tr) = 1 | Err _ => total (Factory <$> tr) = 0 | Panic => True end.
Proof.
  pose proof (factory_settled f device g [] ltac:(by split)) as H.
  destruct (create_prepared_session f device g []) as [r tr]. rewrite total_factory. cbn in H.
  destruct r as [p|e|]; [apply H|by destruct H as [[]|[H _]]|done].
Qed.

Record recovery_inv (s : recovery) : Prop := {
  ri_closed : closed (rc_shared s) = true -> current (rc_shared s) = None;
  ri_last : last_session_generation (rc_shared s) <= rc_last_session_generation s }.

(** From [n] sessions, a turn ends with those the state it leaves holds. *)
Definition accounts (n : Z) (r : turn_result) : Prop :=
  let '(s, acts, continue) := r in
  ranged n acts /\ (continue = true -> n + total acts = held s) /\ recovery_inv s.

Lemma accounts_app n pre s acts continue :
  ranged n pre -> accounts (n + total pre) (s, acts, continue) -> accounts n (s, pre ++ acts, continue).
Proof.
  intros Hp (Hr & Ht & Hi). split; [by apply ranged_app|]. split; [|done]. intros Hc. rewrite total_app. specialize (Ht Hc). lia.
Qed.

(** No session is held, and what was done changed none. *)
Lemma accounts_none n acts s continue :
  ranged n acts -> n + total acts = 0 -> current (rc_shared s) = None ->
  last_session_generation (rc_shared s) <= rc_last_session_generation s -> accounts n (s, acts, continue).
Proof.
  intros Hr Ht Hc Hl. split; [done|]. split; [|by split]. intros _. unfold held, session_of. rewrite Hc. done.
Qed.

Lemma install_accounts t request device shared g cleanup :
  current shared = None -> last_session_generation shared < g ->
  accounts 1 (install_recovered t request device shared g cleanup).
Proof.
  intros Hc Hg. unfold install_recovered, install_locked. destruct (closed shared) eqn:Ecl.
  - destruct (turn_new_stop t); cbn [rejected_error]; (apply accounts_none; [by cbn; lia|done|done|cbn; lia]).
  - rewrite Hc. destruct (Z.leb_spec g (last_session_generation shared)); [lia|].
    split; [by cbn|]. split; [done|]. split; cbn; [done|lia].
Qed.

Section Turns.
Context `{U : Unicode} `{S : Sha256}.
Variables (f : session_factory) (prepared : PreparedCastDevice) (text : PreparedDeviceRecoveryError -> list Z).

Lemma replace_accounts t request device shared g cleanup :
  current shared = None -> last_session_generation shared < g ->
  accounts 0 (replace_session f prepared text t request device shared g cleanup).
Proof.
  intros Hc Hg. unfold replace_session.
  pose proof (factory_ranged (W := turn_world t) f device g) as Hr. pose proof (factory_total (W := turn_world t) f device g) as Ht.
  destruct (create_prepared_session f device g []) as [result tr]. cbn [snd] in Hr.
  pose proof (ports_effect shared (turn_others t)) as Hp. pose proof (ports_idle shared (turn_others t) Hc) as Hi.
  destruct (replace_run shared _) as [shared' log]. destruct Hi as [Hn Hq].
  destruct Hp as (_ & _ & Hl & _). destruct (ranged_quiet 0 _ ltac:(lia) Hq) as [_ Htl].
  assert (ranged (total (Factory <$> tr)) (Others <$> log)) as Hro.
  { apply ranged_quiet; [|done].
    replace (total (Factory <$> tr)) with (0 + total (Factory <$> tr)) by lia.
    eapply (total_prefix 0 _ (Factory <$> tr) []); [exact Hr|by rewrite app_nil_r|lia]. }
  destruct (match result with Ok _ => _ | _ => _ end) as [[s acts] continue] eqn:E.
  apply accounts_app; [done|]. apply accounts_app; [done|]. rewrite Z.add_0_l, Htl, Z.add_0_r. rewrite <- E.
  assert (current (rc_shared (with_shared shared' g false)) = None) as Hn' by done.
  destruct result as [recovered|[|m]|]; [|rewrite Ht; by apply accounts_none; cbn; try lia..|].
  2: { split; [done|]. split; [done|]. split; cbn; [done|lia]. }
  rewrite Ht. destruct (validate_recovery prepared recovered) as [|e|].
  - apply install_accounts; [done|lia].
  - apply accounts_none; [by cbn|done|done|cbn; lia].
  - split; [done|]. split; [done|]. split; cbn; [done|lia].
Qed.

Lemma closing_quiet s n : 0 <= n <= 1 -> ranged n (closing s) /\ total (closing s) = 0.
Proof. intros Hn. apply ranged_quiet; [done|]. unfold closing. destruct (rc_watching s); repeat constructor. Qed.

Lemma recover_accounts t request device s :
  recovery_inv s -> accounts (held s) (run_recover f prepared text t request device s).
Proof.
  intros [Hc Hl]. unfold run_recover. pose proof (held_range s) as Hh.
  destruct (u64_MAX <=? rc_last_session_generation s).
  { split; [by cbn; lia|]. split; [unfold total; cbn; lia|by split]. }
  destruct (closing_quiet s _ Hh) as [Hcr Hct]. unfold retire_taking. destruct (closed (rc_shared s)) eqn:Ecl.
  - apply accounts_app; [done|]. rewrite Hct.
    assert (held s = 0) as -> by (unfold held, session_of; by rewrite Hc).
    apply accounts_none; [by cbn; lia|done|by apply Hc|cbn; lia].
  - set (shared := Build_SharedState _ _ _ _).
    pose proof (replace_accounts t request device shared (rc_last_session_generation s + 1)
      (cleanup_error (retirement (current (rc_shared s)) (turn_retired_stop t))) eq_refl ltac:(cbn; lia)) as Hr.
    destruct (replace_session f prepared text t _ _ _ _ _) as [[s' acts] continue].
    apply accounts_app; [done|]. rewrite Hct, Z.add_0_r. apply accounts_app.
    + unfold held, session_of. destruct (current (rc_shared s)); cbn; [lia|done].
    + replace (held s + _) with 0; [done|]. unfold held, session_of. by destruct (current (rc_shared s)).
Qed.

Lemma turn_accounts t input s : recovery_inv s -> accounts (held s) (recovery_turn f prepared text t input s).
Proof.
  intros Hi. pose proof (held_range s) as Hh. destruct input as [request device| | |event|op]; cbn [recovery_turn].
  - by apply recover_accounts.
  - destruct (closing_quiet s _ Hh) as [Hcr Hct]. split; [done|]. split; [done|]. by destruct Hi; split.
  - by split.
  - destruct (rc_watching s); [|split; [done|split; [unfold total; cbn; lia|done]]].
    destruct (match event with Some _ => _ | None => _ end) as [g error].
    split; [cbn; lia|]. split; [intros ?; unfold total, held; cbn; lia|]. by destruct Hi; split.
  - pose proof (ports_effect (rc_shared s) [op]) as Hp. destruct (replace_run _ _) as [shared log].
    destruct Hp as (H1 & H2 & H3 & H4 & _). destruct Hi as [Hc Hl]. split; [done|]. split; [intros _; exact H1|].
    split; cbn; [by apply H4|by rewrite H3].
Qed.

Lemma recovery_accounts inputs s :
  recovery_inv s ->
  let '(s', acts) := run_recovery f prepared text inputs s in ranged (held s) acts /\ recovery_inv s'.
Proof.
  revert s. induction inputs as [|[t input] inputs IH]; intros s Hs; [done|]. cbn [run_recovery].
  pose proof (turn_accounts t input s Hs) as Ht. destruct (recovery_turn f prepared text t input s) as [[s' acts] continue].
  destruct Ht as (Hr & Ht & Hi). destruct continue; [|done]. specialize (IH s' Hi).
  destruct (run_recovery f prepared text inputs s') as [s'' acts']. destruct IH as [Hr' Hi'].
  split; [|done]. apply ranged_app; [done|]. by rewrite Ht.
Qed.

(** *** After the final stop *)











(** ** Answers *)

Definition emitted (acts : list recovery_action) : list DeviceSessionRecoveryEvent :=
  omap (fun a => match a with Emit e => Some e | _ => None end) acts.

Lemma emitted_app l1 l2 : emitted (l1 ++ l2) = emitted l1 ++ emitted l2.
Proof. apply omap_app. Qed.

Lemma emitted_factory tr : emitted (Factory <$> tr) = [].
Proof. unfold emitted. induction tr; done. Qed.

Lemma emitted_others log : emitted (Others <$> log) = [].
Proof. unfold emitted. induction log; done. Qed.

Lemma emitted_closing s retired :
  emitted (closing s ++ option_list (StopOf ∘ as_session <$> retired)) = [].
Proof. unfold closing. by destruct (rc_watching s), retired. Qed.

(** What the requester may be told. *)
Definition answer (request : Z) (device : DeviceInfo) (g : Z) (usable : Prop) (shared : SharedState)
    (l : list DeviceSessionRecoveryEvent) : Prop :=
  match l with
  | [Ready r d g' _] =>
      r = request /\ d = device /\ g' = g /\ usable /\
      current shared = Some {| as_session_generation := g; as_media_generation := None; as_session := g |}
  | [Failed r d e] =>
      r = request /\ d = device /\ (str_len e <= MAX_RECOVERY_ERROR_BYTES)%nat /\ (usable -> closed shared = true) /\
      current shared = None
  | _ => False
  end.

Lemma failure_answer request device g (usable : Prop) shared error acts :
  current shared = None -> (usable -> closed shared = true) -> emitted acts = [] ->
  answer request device g usable shared (emitted (acts ++ [failure request device error])).
Proof.
  intros Hc Hu Ha. rewrite emitted_app, Ha. cbn. split_and!; [done|done|by apply elided_chars_le, Nat.leb_le|done|done].
Qed.

Lemma install_answer t request device shared g cleanup (usable : Prop) :
  current shared = None -> last_session_generation shared < g -> usable ->
  let '(s, acts, _) := install_recovered t request device shared g cleanup in
  answer request device g usable (rc_shared s) (emitted acts).
Proof.
  intros Hc Hg Hu. unfold install_recovered, install_locked. destruct (closed shared) eqn:Ecl.
  - destruct (turn_new_stop t); cbn [rejected_error]; by apply (failure_answer _ _ _ _ _ _ [StopOf g; CloseEvents]).
  - rewrite Hc. destruct (Z.leb_spec g (last_session_generation shared)); [lia|]. by cbn.
Qed.

(** The request was cancelled, or the task panicked, while the session was made. *)
Definition unanswered (result : outcome DeviceSessionFactoryError PreparedCastDevice) : bool :=
  match result with
  | Err FactoryCancelled | Panic => true
  | Err (FactoryFailed _) => false
  | Ok p => match validate_recovery prepared p with Panic => true | _ => false end
  end.

Definition usable (result : outcome DeviceSessionFactoryError PreparedCastDevice) : Prop :=
  exists p, result = Ok p /\ validate_recovery prepared p = Ok tt.

Lemma replace_answer t request device shared g cleanup :
  current shared = None -> last_session_generation shared < g ->
  let '(s, acts, _) := replace_session f prepared text t request device shared g cleanup in
  let result := (create_prepared_session (W := turn_world t) f device g []).1 in
  rc_last_session_generation s = g /\
  if unanswered result then emitted acts = [] /\ current (rc_shared s) = None
  else answer request device g (usable result) (rc_shared s) (emitted acts).
Proof.
  intros Hc Hg. unfold replace_session. destruct (create_prepared_session f device g []) as [result tr].
  pose proof (ports_effect shared (turn_others t)) as Hp. pose proof (ports_idle shared (turn_others t) Hc) as Hi.
  destruct (replace_run shared _) as [shared' log]. destruct Hi as [Hn _]. destruct Hp as (_ & _ & Hl & _). cbn [fst].
  assert (forall x, emitted ((Factory <$> tr) ++ (Others <$> log) ++ x) = emitted x) as Hx.
  { intros x. by rewrite !emitted_app, emitted_factory, emitted_others. }
  destruct result as [recovered|[|m]|]; cbn [unanswered].
  - destruct (validate_recovery prepared recovered) as [[]|e|] eqn:Ev.
    + pose proof (install_answer t request device shared' g cleanup (usable (Ok recovered)) Hn ltac:(lia)
        ltac:(by exists recovered)) as Ha.
      assert (rc_last_session_generation (install_recovered t request device shared' g cleanup).1.1 = g) as Hlast.
      { unfold install_recovered. destruct (install_locked shared' g g) as [|e|]; [done|destruct (rejected_error e _); done|done]. }
      destruct (install_recovered _ _ _ _ _ _) as [[s acts] continue]. by rewrite Hx.
    + split; [done|]. rewrite Hx. apply (failure_answer _ _ _ _ _ _ [CloseEvents; StopOf g]); [done| |done].
      intros (p & [= <-] & Hp). congruence.
    + by rewrite Hx.
  - by rewrite Hx.
  - split; [done|]. rewrite Hx. apply (failure_answer _ _ _ _ _ _ []); [done| |done]. by intros (p & ? & _).
  - by rewrite Hx.
Qed.

Lemma recover_answer t request device s :
  recovery_inv s -> rc_last_session_generation s < u64_MAX ->
  let '(s', acts, _) := run_recover f prepared text t request device s in
  let g := rc_last_session_generation s + 1 in
  let result := (create_prepared_session (W := turn_world t) f device g []).1 in
  rc_last_session_generation s' = g /\
  if closed (rc_shared s) then answer request device g False (rc_shared s') (emitted acts)
  else if unanswered result then emitted acts = [] /\ current (rc_shared s') = None
  else answer request device g (usable result) (rc_shared s') (emitted acts).
Proof.
  intros [Hc Hl] Hmax. unfold run_recover. destruct (Z.leb_spec u64_MAX (rc_last_session_generation s)); [lia|].
  unfold retire_taking. destruct (closed (rc_shared s)) eqn:Ecl.
  - split; [done|]. apply failure_answer; [by apply Hc|done|]. unfold closing. by destruct (rc_watching s).
  - set (shared := Build_SharedState _ _ _ _).
    pose proof (replace_answer t request device shared (rc_last_session_generation s + 1)
      (cleanup_error (retirement (current (rc_shared s)) (turn_retired_stop t))) eq_refl ltac:(cbn; lia)) as Hr.
    destruct (replace_session f prepared text t _ _ _ _ _) as [[s' acts] continue].
    by rewrite app_assoc, emitted_app, emitted_closing.
Qed.

(** Every request for a recovery is answered once.  Unless it is cancelled
    while the new session is made (or the task panics there), the requester is
    told, under its own request number and device, either that a session of the
    next generation is ready, and then that session is installed, without media,
    and its device can carry on with the attached monitor; or, in at most 512
    bytes, why not, and then no session is installed: a session that could have
    carried on is turned away only because the display was stopped meanwhile.
    An attempt uses up its generation in every case. *)
Theorem recovery_answers generation inputs t request device :
  let s := (run_recovery f prepared text inputs (recovery_new generation)).1 in
  rc_last_session_generation s < u64_MAX ->
  let '(s', acts, _) := recovery_turn f prepared text t (Recover request device) s in
  let g := rc_last_session_generation s + 1 in
  let result := (create_prepared_session (W := turn_world t) f device g []).1 in
  rc_last_session_generation s' = g /\
  if closed (rc_shared s) then answer request device g False (rc_shared s') (emitted acts)
  else if unanswered result then emitted acts = [] /\ current (rc_shared s') = None
  else answer request device g (usable result) (rc_shared s') (emitted acts).
Proof.
  intros s Hmax. apply recover_answer; [|done].
  pose proof (recovery_accounts inputs (recovery_new generation) ltac:(split; [done|cbn; lia])) as H.
  unfold s. destruct (run_recovery _ _ _ _ _). apply H.
Qed.

End Turns.

(** The handle: requests are numbered upwards, and only the newest may still be
    under way. *)
Definition newest_only (h : DeviceSessionRecoveryHandle) : Prop :=
  phase_cancellation h = request_generation h /\
  forall token, 0 <= token < request_generation h -> token ∈ cancelled_tokens h.

Lemma recover_newest h accepted :
  newest_only h -> newest_only (recover h accepted).2 /\
  forall g, (recover h accepted).1 = Ok g -> g = request_generation h + 1 /\ g <= u64_MAX.
Proof.
  intros [Hp Hc]. unfold recover. destruct (Z.leb_spec u64_MAX (request_generation h)); [done|]. cbn. split.
  - split; cbn; [done|]. intros token Ht. destruct (decide (token = phase_cancellation h)) as [->|]; [set_solver|].
    apply elem_of_union_r, Hc. lia.
  - destruct accepted; [|done]. intros g [= <-]. lia.
Qed.

Lemma cancel_newest h : newest_only h -> newest_only (cancel_phase h).
Proof. intros [Hp Hc]. split; cbn; [done|]. intros token Ht. by apply elem_of_union_r, Hc. Qed.

(** ** A run *)

Definition ex_factory : session_factory :=
  {| sf_offer := cx_offer ex_context; sf_pnp_resolver := cx_pnp_resolver ex_context;
     sf_audio_enabled := cx_audio_enabled ex_context |}.

Definition ex_turn (others : list replace_op) : turn :=
  {| turn_world := ex_world (false, Joined (Ok tt)); turn_others := others; turn_retired_stop := Some (codes "gone");
     turn_new_stop := None; turn_received := true |}.

Definition ex_prepared : option PreparedCastDevice :=
  match (create_prepared_session (W := turn_world (ex_turn [])) (U := ascii_unicode) (S := constant_sha256)
           ex_factory (slot_device ex_slot) 2 []).1 with Ok p => Some p | _ => None end.

Definition ex_recovery (p : PreparedCastDevice) (others : list replace_op) :=
  recovery_turn (U := ascii_unicode) (S := constant_sha256) ex_factory p (fun _ => []) (ex_turn others)
    (Recover 1 (slot_device ex_slot))
    (run_recovery (U := ascii_unicode) (S := constant_sha256) ex_factory p (fun _ => [])
       [(ex_turn [], SessionEvent (Some {| ev_session_generation := 1; ev_error := codes "lost" |}))] (recovery_new 1)).1.

(** The device comes back; and, when the display was stopped meanwhile, too late. *)
Lemma recovery_answers_witness :
  match ex_prepared with
  | Some p =>
      emitted (ex_recovery p []).1.2 = [Ready 1 (slot_device ex_slot) 2 (Some (codes "gone"))] /\
      current (rc_shared (ex_recovery p [OpStop]).1.1) = None
  | None => False
  end /\
  match ex_prepared with
  | Some p => rc_last_session_generation (ex_recovery p [OpStop]).1.1 = 2
  | None => True
  end.
Proof.
  split; [by vm_compute|]. destruct ex_prepared as [p|]; [|done].
  pose proof (recovery_answers (U := ascii_unicode) (S := constant_sha256) ex_factory p (fun _ => []) 1
    [(ex_turn [], SessionEvent (Some {| ev_session_generation := 1; ev_error := codes "lost" |}))] (ex_turn [OpStop]) 1
    (slot_device ex_slot) eq_refl) as H.
  cbv zeta in H. unfold ex_recovery. revert H. destruct (recovery_turn _ _ _ _ _ _) as [[s acts] continue]. cbn [fst]. by intros [-> _].
Defined.
