(* ===== verification/MediaDriver.v ===== *)
(** * The media driver (crates/pronk/src/media_driver.rs, media_pipeline_port.rs)

    The driver carries the phases of MediaSession out on three ports: the
    capture pipeline of the kernel display, the minter of PipeWire connections
    and the device session of DeviceSession.  Every wait of an operation may
    succeed, fail, be cancelled, or never end, in which case the actor's timeout
    drops the operation where it is and what the driver had noted before the
    wait stays; the ports are the class [DriverPorts].

    The record of a run is the list of the port operations that were attempted,
    each with whether it succeeded: an attempt that was cancelled may or may not
    have reached the port.  The theorems: whoever calls the driver, the ports
    are used in order, and nothing new is started before the old is stopped;
    and the actor of MediaSession never calls it out of step. *)

From S2P Require Import Prelude Bytes Text Time Actor DisplayState MediaSession DeviceSession ReplaceableSession.

(** ** Data *)

Record PreparedCaptureMedia := {
  pc_media_generation : Z; pc_video_target : DeviceMediaTarget; pc_audio_target : option DeviceMediaTarget;
  pc_configuration : DeviceMediaConfiguration }.

Record DeviceMediaRemoteSet := { rs_video : Z; rs_audio : option Z }.

Inductive port_call :=
  | CaptureStart (request : MediaStartRequest)
  | Mint (generation : Z) (needs_audio : bool)
  | Configure (setup : DeviceMediaSetup)
  | CaptureActivate (generation : Z)
  | DeviceStart (generation : Z)
  | DeviceSuspend (generation : Z) (reason : DeviceMediaSuspendReason)
  | CaptureSuspend (generation : Z) (reason : MediaSuspendReason)
  | DeviceStopMedia (generation : Z) (reason : DeviceMediaStopReason)
  | CaptureStop (generation : Z) (reason : MediaStopReason)
  | DeviceStop (reason : DeviceSessionStopReason)
  | CaptureShutdown (reason : MediaStopReason).

Abbreviation port_log := (list (port_call * bool)).

(** What a cancellable wait comes to. *)
Inductive waited (A : Type) := Hangs | Cancels | Answers (r : list Z + A).
Arguments Hangs {A}. Arguments Cancels {A}. Arguments Answers {A}.

Class DriverPorts := {
  capture_start : port_log -> waited PreparedCaptureMedia;
  mint : port_log -> waited DeviceMediaRemoteSet;
  port : port_log -> port_call -> waited unit;
  (* the final stop, which is not cancellable; [None] never ends *)
  device_stop : port_log -> option (list Z + unit) }.

(** [device] is whether the driver still has it. *)
Record driver := {
  dr_device : bool; dr_capture_generation : option Z; dr_prepared : option PreparedCaptureMedia;
  dr_backend_generation : option Z; dr_shutdown : bool; dr_log : port_log }.

Definition driver_new : driver :=
  {| dr_device := true; dr_capture_generation := None; dr_prepared := None; dr_backend_generation := None;
     dr_shutdown := false; dr_log := [] |}.

(** ** Operations

    An operation returns a value or the message of its error, or is dropped. *)

Inductive got (A : Type) := Got (a : A) | Refuse (message : list Z) | Dropped.
Arguments Got {A}. Arguments Refuse {A}. Arguments Dropped {A}.

Abbreviation drv A := (actor driver (got A)).

Definition dbind {A B} (m : drv A) (k : A -> drv B) : drv B :=
  abind m (fun r => match r with Got a => k a | Refuse e => aret (Refuse e) | Dropped => aret Dropped end).

Notation "'let^' x := m 'in' k" := (dbind m (fun x => k))
  (at level 10, x name, m at level 200, k at level 200,
   format "'[v' 'let^'  x  :=  m  'in' '/' k ']'") : actor_scope.
Notation "'do^' m ; k" := (dbind m (fun _ => k))
  (at level 10, m at level 200, k at level 200,
   format "'[v' 'do^'  m ; '/' k ']'") : actor_scope.

Definition self : actor driver driver := fun d => (d, d).
Definition got_of {A} (o : outcome (list Z) A) : drv A :=
  aret match o with Ok a => Got a | Err e => Refuse e | Panic => Dropped end.
Definition require (c : bool) (e : list Z) : drv unit := aret (if c then Got tt else Refuse e).

Definition with_capture (g : option Z) (d : driver) : driver :=
  {| dr_device := dr_device d; dr_capture_generation := g; dr_prepared := dr_prepared d;
     dr_backend_generation := dr_backend_generation d; dr_shutdown := dr_shutdown d; dr_log := dr_log d |}.
Definition set_capture (g : option Z) : actor driver unit := fun d => (tt, with_capture g d).
Definition with_prepared (p : option PreparedCaptureMedia) (d : driver) : driver :=
  {| dr_device := dr_device d; dr_capture_generation := dr_capture_generation d; dr_prepared := p;
     dr_backend_generation := dr_backend_generation d; dr_shutdown := dr_shutdown d; dr_log := dr_log d |}.
Definition set_prepared (p : option PreparedCaptureMedia) : actor driver unit := fun d => (tt, with_prepared p d).
Definition with_backend (g : option Z) (d : driver) : driver :=
  {| dr_device := dr_device d; dr_capture_generation := dr_capture_generation d; dr_prepared := dr_prepared d;
     dr_backend_generation := g; dr_shutdown := dr_shutdown d; dr_log := dr_log d |}.
Definition set_backend (g : option Z) : actor driver unit := fun d => (tt, with_backend g d).
Definition with_ended (device shutdown : bool) (d : driver) : driver :=
  {| dr_device := device; dr_capture_generation := dr_capture_generation d; dr_prepared := dr_prepared d;
     dr_backend_generation := dr_backend_generation d; dr_shutdown := shutdown; dr_log := dr_log d |}.
Definition set_ended (device shutdown : bool) : actor driver unit := fun d => (tt, with_ended device shutdown d).
Definition grow (d : driver) (c : port_call) (ok : bool) : driver :=
  {| dr_device := dr_device d; dr_capture_generation := dr_capture_generation d; dr_prepared := dr_prepared d;
     dr_backend_generation := dr_backend_generation d; dr_shutdown := dr_shutdown d;
     dr_log := dr_log d ++ [(c, ok)] |}.
Definition attempted (c : port_call) (ok : bool) : actor driver unit := fun d => (tt, grow d c ok).

Definition nonzero_generation (g : Z) : outcome (list Z) Z :=
  if g =? 0 then Err (codes "media generation must be nonzero") else Ok g.

Definition generation_mismatch (operation : string) (active : option Z) (requested : Z) : list Z :=
  codes operation ++ codes " requested generation " ++ display_uint requested ++ codes "; active generation is "
  ++ debug_generation active.

Definition map_suspend_reason (r : MediaSuspendReason) : DeviceMediaSuspendReason :=
  match r with
  | GrantUnavailable => DevSessionInactive
  | MediaSession.DeviceUnavailable => DevDeviceUnavailable
  | MediaSession.SessionInactive => DevSessionInactive
  end.

Definition map_stop_reason (r : MediaStopReason) : DeviceMediaStopReason :=
  match r with
  | MediaSession.OutputDisabled => DevStopOutputDisabled
  | ModeChanged => DevStopModeChanged
  | DisplayRemoved => DevStopDisplayRemoved
  | BackendShutdown => DevStopBackendShutdown
  | TransportFailure => DevStopTransportFailure
  end.

Definition is_device_video (k : DeviceMediaKind) : bool := match k with DeviceVideo => true | DeviceAudio => false end.

Definition validate_prepared_capture (p : PreparedCaptureMedia) (request : MediaStartRequest) : outcome (list Z) unit :=
  let? g := nonzero_generation (sr_media_generation request) in
  try? reject (negb (pc_media_generation p =? g) || negb (dt_media_generation (pc_video_target p) =? g)
               || match pc_audio_target p with Some t => negb (dt_media_generation t =? g) | None => false end)
         (codes "capture pipeline returned a stale media generation");
  try? reject (negb (is_device_video (dt_kind (pc_video_target p)))
               || match pc_audio_target p with Some t => is_device_video (dt_kind t) | None => false end)
         (codes "capture pipeline returned an invalid target ordering");
  try? reject (negb (eqb (bool_decide (is_Some (pc_audio_target p)))
                         (bool_decide (is_Some (dc_audio_profile_id (pc_configuration p))))))
         (codes "capture targets and negotiated audio profile disagree");
  reject (negb (bool_decide (dc_mode (pc_configuration p) = mr_mode (sr_route request))))
    (codes "capture media mode differs from the active kernel route").

(** The errors' texts, joined: each was made by [MediaDriverError::new]. *)
Fixpoint join_failures (failures : list (list Z)) : list Z :=
  match failures with
  | [] => []
  | [f] => f
  | f :: failures => f ++ codes "; " ++ join_failures failures
  end.

Definition combine_failures (failures : list (list Z)) : got unit :=
  match failures with [] => Got tt | _ => Refuse (join_failures failures) end.

(** An error's text, for the list of failures. *)
Definition collected (r : got unit) : list (list Z) :=
  match r with Refuse m => [MediaDriverError_new m] | _ => [] end.

Section Driver.
Context `{P : DriverPorts}.

(** [cancellable]: cancellation is preferred. *)
Definition cancellable {A} (operation : string) (c : port_call) (answer : port_log -> waited A) : drv A :=
  let* d := self in
  match answer (dr_log d) with
  | Hangs => do* attempted c false; aret Dropped
  | Cancels => do* attempted c false; aret (Refuse (codes operation ++ codes " was cancelled"))
  | Answers (inl e) => do* attempted c false; aret (Refuse (codes operation ++ codes " failed: " ++ e))
  | Answers (inr a) => do* attempted c true; aret (Got a)
  end.

Definition cancellable_unit (operation : string) (c : port_call) : drv unit :=
  cancellable operation c (fun log => port log c).

Definition ensure_live : drv unit :=
  let* d := self in
  require (negb (dr_shutdown d || negb (dr_device d))) (codes "media driver is shut down").

Definition need_device : drv unit :=
  let* d := self in
  require (dr_device d) (codes "Device session is no longer available").

Definition start_capture (request : MediaStartRequest) : drv unit :=
  do^ ensure_live;
  let^ g := got_of (nonzero_generation (sr_media_generation request)) in
  let* d := self in
  do^ require (bool_decide (dr_capture_generation d = None) && bool_decide (dr_backend_generation d = None))
        (codes "a previous media generation still requires cleanup");
  do* set_capture (Some g);
  let^ p := cancellable "start capture pipeline" (CaptureStart request) capture_start in
  do^ got_of (validate_prepared_capture p request);
  do* set_prepared (Some p);
  aret (Got tt).

Definition endpoints (p : PreparedCaptureMedia) (remotes : DeviceMediaRemoteSet) : list DeviceMediaEndpoint :=
  {| de_remote := rs_video remotes; de_target := pc_video_target p |} ::
  match rs_audio remotes, pc_audio_target p with
  | Some remote, Some target => [{| de_remote := remote; de_target := target |}]
  | _, _ => []
  end.

Definition start_media (request : MediaStartRequest) : drv unit :=
  do^ ensure_live;
  let^ g := got_of (nonzero_generation (sr_media_generation request)) in
  let* d := self in
  do^ require (bool_decide (dr_capture_generation d = Some g))
        (generation_mismatch "start backend media" (dr_capture_generation d) g);
  match dr_prepared d with
  | None => aret (Refuse (codes "capture did not return media targets"))
  | Some p =>
      let needs_audio := bool_decide (is_Some (pc_audio_target p)) in
      let^ remotes := cancellable "mint backend PipeWire remotes" (Mint g needs_audio) mint in
      do^ require (eqb (bool_decide (is_Some (rs_audio remotes))) needs_audio)
            (codes "PipeWire remote layout differs from prepared media targets");
      do* set_prepared None;
      do* set_backend (Some g);
      do^ need_device;
      do^ cancellable_unit "configure backend media"
            (Configure {| dm_media_generation := g; dm_endpoints := endpoints p remotes;
                          dm_configuration := pc_configuration p |});
      do^ cancellable_unit "activate capture pipeline" (CaptureActivate g);
      do^ need_device;
      cancellable_unit "start backend media" (DeviceStart g)
  end.

Definition suspend (media_generation : Z) (reason : MediaSuspendReason) : drv unit :=
  do^ ensure_live;
  let^ g := got_of (nonzero_generation media_generation) in
  let* d := self in
  do^ require (bool_decide (dr_backend_generation d = Some g) && bool_decide (dr_capture_generation d = Some g))
        (generation_mismatch "suspend media"
           (match dr_backend_generation d with Some b => Some b | None => dr_capture_generation d end) g);
  do^ need_device;
  do^ cancellable_unit "suspend backend media" (DeviceSuspend g (map_suspend_reason reason));
  cancellable_unit "suspend capture pipeline" (CaptureSuspend g reason).

(** One half of [stop]: its failures, unless the whole operation is dropped. *)
Definition stop_half (operation : string) (active : option Z) (g : Z) (available : bool) (c : port_call)
    (clear : actor driver unit) : drv (list (list Z)) :=
  match active with
  | None => aret (Got [])
  | Some a =>
      if negb (a =? g) then aret (Got [MediaDriverError_new (generation_mismatch operation (Some a) g)])
      else if negb available then aret (Got [codes "Device session is no longer available"])
      else
        let* r := cancellable_unit operation c in
        match r with
        | Got _ => do* clear; aret (Got [])
        | Refuse m => aret (Got [MediaDriverError_new m])
        | Dropped => aret Dropped
        end
  end.

Definition stop (media_generation : Z) (reason : MediaStopReason) : drv unit :=
  let^ g := got_of (nonzero_generation media_generation) in
  let* d := self in
  let^ failures := stop_half "stop backend media" (dr_backend_generation d) g (dr_device d)
                     (DeviceStopMedia g (map_stop_reason reason)) (set_backend None) in
  do* set_prepared None;
  let^ failures' := stop_half "stop capture pipeline" (dr_capture_generation d) g true
                      (CaptureStop g reason) (set_capture None) in
  aret (combine_failures (failures ++ failures')).

Definition final_reason (reason : MediaStopReason) : DeviceSessionStopReason :=
  match reason with DisplayRemoved => DevDisplayRemoved | _ => DevDaemonShutdown end.

(** The device's half of the [join!]: [None] never ends. *)
Definition stop_device (reason : MediaStopReason) (had : bool) : actor driver (option (list (list Z))) :=
  if had then
    let* d := self in
    let r := device_stop (dr_log d) in
    do* attempted (DeviceStop (final_reason reason)) (match r with Some (inr _) => true | _ => false end);
    aret match r with
         | None => None
         | Some (inl e) => Some [codes "final Device-session stop failed: " ++ e]
         | Some (inr _) => Some []
         end
  else aret (Some []).

Definition shutdown (reason : MediaStopReason) : drv unit :=
  let* d := self in
  if dr_shutdown d then aret (Got tt)
  else
    do* set_ended false false;
    let* device_result := stop_device reason (dr_device d) in
    let* capture_result := cancellable_unit "shut down capture pipeline" (CaptureShutdown reason) in
    match device_result, capture_result with
    | None, _ | _, Dropped => aret Dropped
    | Some failures, r =>
        do* set_prepared None;
        do* set_backend None;
        do* set_capture None;
        do* set_ended false true;
        aret (combine_failures (failures ++ collected r))
    end.

(** [MediaSessionDriver for ProductionMediaSessionDriver]. *)
Definition run_call (c : driver_call) : drv unit :=
  match c with
  | CallStartCapture r => start_capture r
  | CallStartMedia r => start_media r
  | MediaSession.CallSuspend g reason => suspend g reason
  | MediaSession.CallStop g reason => stop g reason
  | CallShutdown reason => shutdown reason
  end.

Definition driver_run (calls : list driver_call) : driver :=
  foldl (fun d c => (run_call c d).2) driver_new calls.

End Driver.

(** ** Order at the ports *)

Definition capture_effect (o : option Z) (e : port_call * bool) : option Z :=
  match e with
  | (CaptureStart r, _) => Some (sr_media_generation r)
  | (CaptureStop _ _, true) => None
  | _ => o
  end.

Definition backend_effect (o : option Z) (e : port_call * bool) : option Z :=
  match e with
  | (Configure s, _) => Some (dm_media_generation s)
  | (DeviceStopMedia _ _, true) => None
  | _ => o
  end.

(** The generation whose capture was started, or may have been, and was not
    stopped; and the generation the device was told of. *)
Definition open_capture (log : port_log) : option Z := foldl capture_effect None log.
Definition open_backend (log : port_log) : option Z := foldl backend_effect None log.

(** The last request capture was started for. *)
Definition captured (log : port_log) : option MediaStartRequest :=
  foldl (fun o e => match e with (CaptureStart r, true) => Some r | _ => o end) None log.

Definition final_stop (e : port_call * bool) : bool := match e with (DeviceStop _, _) => true | _ => false end.
Definition device_ended (log : port_log) : bool := existsb final_stop log.

#[local] Arguments open_capture _ : simpl never.
#[local] Arguments open_backend _ : simpl never.
#[local] Arguments captured _ : simpl never.
#[local] Arguments device_ended _ : simpl never.

(** What the device is told is what the request asked for. *)
Record setup_for (r : MediaStartRequest) (s : DeviceMediaSetup) : Prop := {
  sf_generation : dm_media_generation s = sr_media_generation r;
  sf_mode : dc_mode (dm_configuration s) = mr_mode (sr_route r);
  sf_targets : Forall (fun e => dt_media_generation (de_target e) = sr_media_generation r) (dm_endpoints s);
  sf_layout : (fun e => dt_kind (de_target e)) <$> dm_endpoints s =
    DeviceVideo :: match dc_audio_profile_id (dm_configuration s) with Some _ => [DeviceAudio] | None => [] end }.

Definition may_call (before : port_log) (c : port_call) : Prop :=
  match c with
  | CaptureStart r =>
      sr_media_generation r <> 0 /\ open_capture before = None /\ open_backend before = None /\
      device_ended before = false
  | Mint g _ =>
      device_ended before = false /\ open_capture before = Some g /\ open_backend before = None /\
      exists r, captured before = Some r /\ sr_media_generation r = g
  | Configure s =>
      device_ended before = false /\ open_backend before = None /\ open_capture before = Some (dm_media_generation s) /\
      (exists audio, last before = Some (Mint (dm_media_generation s) audio, true)) /\
      exists r, captured before = Some r /\ setup_for r s
  | CaptureActivate g => exists s, last before = Some (Configure s, true) /\ dm_media_generation s = g
  | DeviceStart g => last before = Some (CaptureActivate g, true)
  | DeviceSuspend g _ => device_ended before = false /\ open_backend before = Some g /\ open_capture before = Some g
  | CaptureSuspend g _ => exists r, last before = Some (DeviceSuspend g r, true)
  | DeviceStopMedia g _ => device_ended before = false /\ open_backend before = Some g
  | CaptureStop g _ =>
      open_capture before = Some g /\
      (open_backend before = None \/ device_ended before = true \/
       exists r ok, last before = Some (DeviceStopMedia g r, ok))
  | DeviceStop _ => device_ended before = false
  | CaptureShutdown _ => device_ended before = true
  end.

Definition ports_in_order (log : port_log) : Prop :=
  forall before c ok after, log = before ++ (c, ok) :: after -> may_call before c.

Lemma ports_in_order_snoc log c ok : ports_in_order log -> may_call log c -> ports_in_order (log ++ [(c, ok)]).
Proof.
  intros Hl Hc before c' ok' after E. destruct after as [|x after] using rev_ind.
  - by apply app_inj_tail in E as [-> [= -> ->]].
  - rewrite app_comm_cons, app_assoc in E. apply app_inj_tail in E as [E _]. by eapply Hl.
Qed.

Lemma open_capture_snoc log e : open_capture (log ++ [e]) = capture_effect (open_capture log) e.
Proof. unfold open_capture. by rewrite foldl_app. Qed.
Lemma open_backend_snoc log e : open_backend (log ++ [e]) = backend_effect (open_backend log) e.
Proof. unfold open_backend. by rewrite foldl_app. Qed.
Lemma captured_snoc log e :
  captured (log ++ [e]) = match e with (CaptureStart r, true) => Some r | _ => captured log end.
Proof. unfold captured. by rewrite foldl_app. Qed.
Lemma device_ended_snoc log e : device_ended (log ++ [e]) = device_ended log || final_stop e.
Proof. unfold device_ended. rewrite existsb_app. cbn. by rewrite orb_false_r. Qed.

#[local] Hint Rewrite open_capture_snoc open_backend_snoc captured_snoc device_ended_snoc @last_snoc : driver_log.

(** ** What the driver knows *)

Record synced (d : driver) : Prop := {
  sy_ended : device_ended (dr_log d) = negb (dr_device d);
  sy_capture : dr_capture_generation d = open_capture (dr_log d) \/
               dr_device d = false /\ dr_capture_generation d = None;
  sy_backend : dr_device d = true -> dr_backend_generation d = open_backend (dr_log d);
  sy_shutdown : dr_shutdown d = true -> dr_device d = false;
  sy_pair : forall b c, dr_backend_generation d = Some b -> dr_capture_generation d = Some c -> b = c;
  sy_prepared : forall p, dr_prepared d = Some p ->
    dr_backend_generation d = None /\
    exists r, captured (dr_log d) = Some r /\ dr_capture_generation d = Some (sr_media_generation r) /\
              validate_prepared_capture p r = Ok tt }.

Definition good (d : driver) : Prop := synced d /\ ports_in_order (dr_log d).

Definition is_got {A} (r : got A) : bool := match r with Got _ => true | _ => false end.

Lemma cancellable_eq {A} `{DriverPorts} operation c (answer : port_log -> waited A) d :
  exists r, cancellable operation c answer d = (r, grow d c (is_got r)).
Proof.
  unfold cancellable, self, abind, aret. destruct (answer (dr_log d)) as [| |[e|a]];
    [by exists Dropped|by eexists (Refuse _)|by eexists (Refuse _)|by exists (Got a)].
Qed.

Lemma cancellable_unit_eq `{DriverPorts} operation c d :
  exists r, cancellable_unit operation c d = (r, grow d c (is_got r)).
Proof. apply cancellable_eq. Qed.

Lemma nonzero_ok g g' : nonzero_generation g = Ok g' -> g' = g /\ g <> 0.
Proof. unfold nonzero_generation. destruct (Z.eqb_spec g 0); [done|]. intros [= <-]. done. Qed.

Lemma nonzero_got g : g <> 0 -> nonzero_generation g = Ok g.
Proof. unfold nonzero_generation. by destruct (Z.eqb_spec g 0). Qed.

Lemma prepared_for p r remotes :
  validate_prepared_capture p r = Ok tt ->
  eqb (bool_decide (is_Some (rs_audio remotes))) (bool_decide (is_Some (pc_audio_target p))) = true ->
  setup_for r {| dm_media_generation := sr_media_generation r; dm_endpoints := endpoints p remotes;
                 dm_configuration := pc_configuration p |}.
Proof.
  unfold validate_prepared_capture. intros (g & [-> _]%nonzero_ok & H)%obind_ok Ha.
  rewrite !reject_seq_ok, reject_ok, !orb_false_iff, !negb_false_iff, !Z.eqb_eq, bool_decide_eq_true in H.
  destruct H as (((H1 & H2) & H3) & (H4 & H5) & H6 & H7). apply eqb_prop in Ha, H6.
  split; cbn; [done|done| |]; unfold endpoints; destruct (pc_audio_target p) as [t|] eqn:Et, (rs_audio remotes) as [x|] eqn:Ex;
    try (by compute in Ha).
  - apply negb_false_iff, Z.eqb_eq in H3. by repeat constructor.
  - by repeat constructor.
  - cbn. change (true = bool_decide (is_Some (dc_audio_profile_id (pc_configuration p)))) in H6. symmetry in H6.
    apply bool_decide_eq_true in H6 as [a ->]. by destruct (dt_kind (pc_video_target p)), (dt_kind t).
  - cbn. change (false = bool_decide (is_Some (dc_audio_profile_id (pc_configuration p)))) in H6. symmetry in H6.
    apply bool_decide_eq_false in H6. destruct (dc_audio_profile_id _); [by destruct H6; eexists|].
    by destruct (dt_kind (pc_video_target p)).
Qed.

(** An attempt that opens and closes nothing. *)
Definition neutral (c : port_call) (ok : bool) : bool :=
  match c with
  | Mint _ _ | CaptureActivate _ | DeviceStart _ | DeviceSuspend _ _ | CaptureSuspend _ _ | CaptureShutdown _ => true
  | DeviceStopMedia _ _ | CaptureStop _ _ => negb ok
  | CaptureStart _ | Configure _ | DeviceStop _ => false
  end.

Lemma synced_neutral d c ok : neutral c ok = true -> synced d -> synced (grow d c ok).
Proof.
  intros Hn [H1 H2 H3 H4 H5 H6].
  assert (capture_effect (open_capture (dr_log d)) (c, ok) = open_capture (dr_log d) /\
          backend_effect (open_backend (dr_log d)) (c, ok) = open_backend (dr_log d) /\ final_stop (c, ok) = false /\
          captured (dr_log d ++ [(c, ok)]) = captured (dr_log d)) as (E1 & E2 & E3 & E4).
  { rewrite captured_snoc. destruct c, ok; done. }
  split; cbn; rewrite ?open_capture_snoc, ?open_backend_snoc, ?device_ended_snoc, ?E1, ?E2, ?E3, ?orb_false_r; try done.
  intros p Hp. rewrite E4. auto.
Qed.

Lemma good_neutral d c ok : good d -> neutral c ok = true -> may_call (dr_log d) c -> good (grow d c ok).
Proof. intros [Hs Ho] Hn Hc. split; [by apply synced_neutral|by apply ports_in_order_snoc]. Qed.

(** Straight-line code of the driver. *)
Ltac running := cbv beta iota delta [dbind abind self require got_of aret set_capture set_prepared set_backend set_ended fst snd].

Section Good.
Context `{P : DriverPorts}.

(** The driver is live. *)
Record live_driver (d : driver) : Prop := {
  lv_device : dr_device d = true;
  lv_shutdown : dr_shutdown d = false }.

Lemma ensure_live_eq d : (exists m, ensure_live d = (Refuse m, d)) \/ ensure_live d = (Got tt, d) /\ live_driver d.
Proof.
  unfold ensure_live, require, self, abind, aret. destruct (dr_shutdown d) eqn:Es; [by left; eexists|].
  destruct (dr_device d) eqn:Ed; [by right|by left; eexists].
Qed.

Lemma live_opens d :
  synced d -> live_driver d ->
  device_ended (dr_log d) = false /\ dr_capture_generation d = open_capture (dr_log d) /\
  dr_backend_generation d = open_backend (dr_log d).
Proof.
  intros [H1 H2 H3 _ _ _] [Hd _]. rewrite Hd in *. split_and!; [done| |by apply H3]. destruct H2 as [?|[? _]]; done.
Qed.

Lemma start_capture_good r d : good d -> good (start_capture r d).2.
Proof.
  intros Hg. destruct Hg as [Hs Ho]. unfold start_capture. running.
  destruct (ensure_live_eq d) as [[m ->]|[-> Hl]]; cbn [snd]; [done|].
  destruct (nonzero_generation (sr_media_generation r)) as [g|e|] eqn:Eg; cbn [snd]; [|done..].
  apply nonzero_ok in Eg as [-> Hnz]. destruct (live_opens d Hs Hl) as (He & Hc & Hb).
  destruct (bool_decide (dr_capture_generation d = None) && bool_decide (dr_backend_generation d = None)) eqn:Er; cbn [snd]; [|done].
  rewrite andb_true_iff, !bool_decide_eq_true in Er.
  destruct Er as [Ec Eb]. rewrite Ec in Hc. rewrite Eb in Hb.
  assert (dr_prepared d = None) as Ep.
  { destruct (dr_prepared d) as [p|] eqn:Ep; [|done]. destruct (sy_prepared d Hs p Ep) as (_ & r' & _ & Hr' & _). congruence. }
  destruct (cancellable_eq "start capture pipeline" (CaptureStart r) capture_start
              (with_capture (Some (sr_media_generation r)) d)) as [res ->].
  set (d' := grow _ _ _).
  assert (ports_in_order (dr_log d')) as Ho' by (by apply ports_in_order_snoc).
  assert (device_ended (dr_log d') = negb (dr_device d')) as He'.
  { cbn. autorewrite with driver_log. by rewrite He, (lv_device d Hl). }
  assert (dr_backend_generation d' = open_backend (dr_log d')) as Hb' by (cbn; autorewrite with driver_log; by rewrite Eb).
  assert (dr_capture_generation d' = open_capture (dr_log d')) as Hc' by (cbn; by autorewrite with driver_log).
  assert (synced d') as Hd'.
  { split; try done; cbn; [by left|by apply Hs|by rewrite Eb|by rewrite Ep]. }
  destruct res as [p|m|]; [|done..]. destruct (validate_prepared_capture p r) as [[]|e|] eqn:Ev; [|done..].
  split; [|done]. cbn. destruct Hd' as [? ? ? ? ? ?]. split; try done. cbn. intros p' [= <-]. split; [done|].
  exists r. split_and!; [by autorewrite with driver_log|done|done].
Qed.

Lemma start_media_good r d : good d -> good (start_media r d).2.
Proof.
  intros Hg. pose proof Hg as [Hs Ho]. unfold start_media. running.
  destruct (ensure_live_eq d) as [[m ->]|[-> Hl]]; cbn [snd]; [done|].
  destruct (nonzero_generation (sr_media_generation r)) as [g|e|] eqn:Eg; cbn [snd]; [|done..].
  apply nonzero_ok in Eg as [-> Hnz]. destruct (live_opens d Hs Hl) as (He & Hc & Hb).
  destruct (bool_decide (dr_capture_generation d = Some (sr_media_generation r))) eqn:Er; cbn [snd]; [|done].
  apply bool_decide_eq_true in Er. destruct (dr_prepared d) as [p|] eqn:Ep; cbn [snd]; [|done].
  destruct (sy_prepared d Hs p Ep) as (Hnb & r' & Hcap & Hr' & Hval). rewrite Er in Hc, Hr'. injection Hr' as Hr'.
  rewrite Hnb in Hb.
  destruct (cancellable_eq "mint backend PipeWire remotes" (Mint (sr_media_generation r) (bool_decide (is_Some (pc_audio_target p)))) mint d)
    as [res ->]. cbn [fst snd].
  set (d1 := grow d _ _). assert (good d1) as Hd1.
  { apply good_neutral; [done|done|]. cbn. split_and!; [done..|]. by exists r'. }
  destruct res as [remotes|m|]; cbn [is_got snd]; [|done..].
  destruct (eqb _ _) eqn:Eq; cbn [snd]; [|done].
  unfold need_device. running. cbn [dr_device with_backend with_prepared d1 grow]. rewrite (lv_device d Hl).
  set (d2 := with_backend _ _). set (setup := Build_DeviceMediaSetup _ _ _).
  destruct (cancellable_unit_eq "configure backend media" (Configure setup) d2) as [res ->]. cbn [fst snd].
  assert (setup_for r' setup) as Hsetup.
  { unfold setup. rewrite Hr'. by apply prepared_for. }
  assert (good (grow d2 (Configure setup) (is_got res))) as Hd3.
  { destruct Hd1 as [[H1 H2 H3 H4 H5 H6] Hod1]. split.
    - split; cbn; autorewrite with driver_log; cbn; try done.
      + by rewrite He, (lv_device d Hl).
      + left. congruence.
      + rewrite Er. by intros b c [= <-] [= <-].
    - apply ports_in_order_snoc; [done|]. cbn. autorewrite with driver_log. cbn.
      split_and!; [by rewrite He|done|done|by eexists|]. by exists r'. }
  destruct res as [[]|m|]; cbn [is_got snd] in *; [|done..].
  destruct (cancellable_unit_eq "activate capture pipeline" (CaptureActivate (sr_media_generation r))
    (grow d2 (Configure setup) true)) as [res ->]. cbn [fst snd].
  assert (good (grow (grow d2 (Configure setup) true) (CaptureActivate (sr_media_generation r)) (is_got res))) as Hd4.
  { apply good_neutral; [done|done|]. cbn. exists setup. by autorewrite with driver_log. }
  destruct res as [[]|m|]; cbn [is_got snd] in *; [|done..].
  unfold need_device. running. cbn [dr_device grow d2 with_backend with_prepared d1]. rewrite (lv_device d Hl).
  match goal with |- context [cancellable_unit ?o ?c ?s] => destruct (cancellable_unit_eq o c s) as [res ->] end. cbn [fst snd].
  apply good_neutral; [done|done|]. cbn. by autorewrite with driver_log.
Qed.

Lemma suspend_good g reason d : good d -> good (suspend g reason d).2.
Proof.
  intros Hg. pose proof Hg as [Hs Ho]. unfold suspend. running.
  destruct (ensure_live_eq d) as [[m ->]|[-> Hl]]; cbn [snd]; [done|].
  destruct (nonzero_generation g) as [g'|e|] eqn:Eg; cbn [snd]; [|done..].
  apply nonzero_ok in Eg as [-> Hnz]. destruct (live_opens d Hs Hl) as (He & Hc & Hb).
  destruct (bool_decide (dr_backend_generation d = Some g) && bool_decide (dr_capture_generation d = Some g)) eqn:Er;
    cbn [snd]; [|done]. rewrite andb_true_iff, !bool_decide_eq_true in Er. destruct Er as [Eb Ec].
  unfold need_device. running. rewrite (lv_device d Hl).
  destruct (cancellable_unit_eq "suspend backend media" (DeviceSuspend g (map_suspend_reason reason)) d) as [res ->]. cbn [fst snd].
  assert (good (grow d (DeviceSuspend g (map_suspend_reason reason)) (is_got res))) as Hd1.
  { apply good_neutral; [done|done|]. cbn. split_and!; congruence. }
  destruct res as [[]|m|]; cbn [is_got snd] in *; [|done..].
  match goal with |- context [cancellable_unit ?o ?c ?s] => destruct (cancellable_unit_eq o c s) as [res ->] end. cbn [fst snd].
  apply good_neutral; [done|done|]. cbn. eexists. by autorewrite with driver_log.
Qed.

Lemma good_with_prepared d : good d -> good (with_prepared None d).
Proof. intros [[? ? ? ? ? ?] Ho]. split; [by split|done]. Qed.

(** Ending the backend's generation. *)
Lemma stop_backend_half g reason d :
  good d ->
  let '(r, d1) := stop_half "stop backend media" (dr_backend_generation d) g (dr_device d)
                    (DeviceStopMedia g (map_stop_reason reason)) (set_backend None) d in
  good d1 /\ dr_capture_generation d1 = dr_capture_generation d /\ dr_device d1 = dr_device d /\
  match r with
  | Refuse _ => False
  | Dropped => True
  | Got failures =>
      (failures = [] -> dr_backend_generation d1 = None) /\
      (dr_backend_generation d1 = Some g -> dr_device d = true ->
       exists r ok, last (dr_log d1) = Some (DeviceStopMedia g r, ok))
  end.
Proof.
  intros Hg. pose proof Hg as [Hs Ho]. unfold stop_half. destruct (dr_backend_generation d) as [b|] eqn:Eb.
  2: { cbn. split_and!; try done. by rewrite Eb. }
  destruct (Z.eqb_spec b g) as [->|Hne]; cbn [negb].
  2: { cbn. split_and!; try done. rewrite Eb. by intros [= ->]. }
  destruct (dr_device d) eqn:Ed; cbn [negb]; [|cbn; split_and!; done].
  pose proof (sy_backend d Hs Ed) as Hb. rewrite Eb in Hb.
  pose proof (sy_ended d Hs) as He. rewrite Ed in He.
  running. destruct (cancellable_unit_eq "stop backend media" (DeviceStopMedia g (map_stop_reason reason)) d) as [res ->]. cbn [fst snd].
  assert (may_call (dr_log d) (DeviceStopMedia g (map_stop_reason reason))) as Hmay by (cbn; by rewrite He).
  assert (is_got res = false -> good (grow d (DeviceStopMedia g (map_stop_reason reason)) (is_got res))) as Hd1.
  { intros E. apply good_neutral; [done| |done]. cbn. by rewrite E. }
  destruct res as [[]|m|]; cbn [is_got] in *.
  - split_and!; try done. destruct Hs as [H1 H2 H3 H4 H5 H6]. split; [|by apply ports_in_order_snoc].
    split; cbn; autorewrite with driver_log; cbn; try done.
    + by rewrite orb_false_r, Ed.
    + intros p Hp. destruct (H6 p Hp). split; [done|]. eauto.
  - split_and!; try done; [by apply Hd1|]. intros _ _. do 2 eexists. cbn. by autorewrite with driver_log.
  - split_and!; try done. by apply Hd1.
Qed.

(** Ending the capture's, after it. *)
Lemma stop_capture_half g reason d :
  good d -> dr_prepared d = None ->
  (dr_backend_generation d = Some g -> dr_device d = true -> exists r ok, last (dr_log d) = Some (DeviceStopMedia g r, ok)) ->
  let '(r, d1) := stop_half "stop capture pipeline" (dr_capture_generation d) g true (CaptureStop g reason) (set_capture None) d in
  good d1 /\ dr_backend_generation d1 = dr_backend_generation d /\
  match r with
  | Refuse _ => False
  | Dropped => True
  | Got failures => failures = [] -> dr_capture_generation d1 = None
  end.
Proof.
  intros Hg Hp Hlast. pose proof Hg as [Hs Ho]. unfold stop_half. destruct (dr_capture_generation d) as [c|] eqn:Ec; [|done].
  destruct (Z.eqb_spec c g) as [->|Hne]; cbn [negb]; [|done].
  assert (may_call (dr_log d) (CaptureStop g reason)) as Hmay.
  { cbn. destruct Hs as [H1 H2 H3 H4 H5 H6]. split; [destruct H2 as [H2|[_ ?]]; congruence|].
    destruct (dr_device d) eqn:Ed; [|right; left; by rewrite H1].
    specialize (H3 eq_refl). destruct (dr_backend_generation d) as [b|] eqn:Eb; [|by left].
    right; right. apply Hlast; [|done]. f_equal. by apply H5. }
  running. destruct (cancellable_unit_eq "stop capture pipeline" (CaptureStop g reason) d) as [res ->]. cbn [fst snd].
  assert (is_got res = false -> good (grow d (CaptureStop g reason) (is_got res))) as Hd1.
  { intros E. apply good_neutral; [done| |done]. cbn. by rewrite E. }
  destruct res as [[]|m|]; cbn [is_got] in *.
  - split_and!; try done. destruct Hs as [H1 H2 H3 H4 H5 H6]. split; [|by apply ports_in_order_snoc].
    split; cbn; autorewrite with driver_log; cbn; try done.
    + by rewrite orb_false_r.
    + by left.
    + by rewrite Hp.
  - split_and!; try done. by apply Hd1.
  - split_and!; try done. by apply Hd1.
Qed.

Lemma stop_good g reason d :
  good d ->
  let '(r, d') := stop g reason d in
  good d' /\ (r = Got tt -> dr_capture_generation d' = None /\ dr_backend_generation d' = None).
Proof.
  intros Hg. unfold stop. running. destruct (nonzero_generation g) as [g'|e|] eqn:Eg; [|done..].
  apply nonzero_ok in Eg as [-> Hnz]. pose proof (stop_backend_half g reason d Hg) as H1.
  destruct (stop_half _ _ _ _ _ _ d) as [r1 d1]. destruct H1 as (Hg1 & Hc1 & Hd1 & H1).
  destruct r1 as [failures|m|]; [|done..]. destruct H1 as [Hf1 Hl1].
  pose proof (stop_capture_half g reason (with_prepared None d1) (good_with_prepared d1 Hg1) eq_refl) as H2.
  cbn [dr_capture_generation with_prepared] in H2. rewrite Hc1 in H2.
  destruct (stop_half _ _ _ _ _ _ (with_prepared None d1)) as [r2 d2].
  destruct H2 as (Hg2 & Hb2 & H2); [cbn; by rewrite Hd1|].
  destruct r2 as [failures'|m|]; [|done..]. split; [done|]. unfold combine_failures.
  destruct (failures ++ failures') as [|] eqn:E; [|done]. intros _. apply app_eq_nil in E as [-> ->].
  split; [by apply H2|]. rewrite Hb2. by apply Hf1.
Qed.

Lemma shutdown_good reason d : good d -> good (shutdown reason d).2.
Proof.
  intros Hg. unfold shutdown. running. destruct (dr_shutdown d); [done|].
  set (d0 := with_ended false false d).
  assert (exists r ok, stop_device reason (dr_device d) d0 =
    (r, if dr_device d then grow d0 (DeviceStop (final_reason reason)) ok else d0)) as (device_result & ok & E).
  { unfold stop_device. running. destruct (dr_device d); [by eexists _, _|by eexists _, true]. }
  rewrite E. clear E. set (d1 := if dr_device d then _ else _).
  assert (good d1) as Hd1.
  { destruct Hg as [[H1 H2 H3 H4 H5 H6] Ho]. unfold d1. destruct (dr_device d) eqn:Ed.
    - split; [|apply ports_in_order_snoc; [done|by cbn]].
      split; cbn; autorewrite with driver_log; cbn; try done; [by rewrite orb_true_r|destruct H2 as [?|[? _]]; [by left|done]].
    - split; [|done]. by split. }
  assert (dr_device d1 = false /\ dr_shutdown d1 = false) as [Hdv Hsh] by (unfold d1; by destruct (dr_device d)).
  destruct (cancellable_unit_eq "shut down capture pipeline" (CaptureShutdown reason) d1) as [res ->]. cbn [fst snd].
  assert (good (grow d1 (CaptureShutdown reason) (is_got res))) as Hd2.
  { apply good_neutral; [done|done|]. cbn. destruct Hd1 as [[H1 _ _ _ _ _] _]. by rewrite H1, Hdv. }
  destruct device_result as [failures|]; [|done].
  assert (forall f, good (with_ended false true (with_capture None (with_backend None (with_prepared None
            (grow d1 (CaptureShutdown reason) f))))) <-> good (grow d1 (CaptureShutdown reason) f)) as Hend.
  { intros f. split; [intros _|intros [[? ? ? ? ? ?] ?]; split; [split; try done; cbn|done]].
    - apply good_neutral; [done|done|]. cbn. destruct Hd1 as [[H1 _ _ _ _ _] _]. by rewrite H1, Hdv.
    - cbn in *. by rewrite Hdv in *.
    - by right. }
  destruct res as [[]|m|]; cbn [is_got snd] in *; [by apply Hend..|done].
Qed.

Lemma run_call_good c d : good d -> good (run_call c d).2.
Proof.
  intros Hg. destruct c as [r|r|g reason|g reason|reason]; cbn [run_call];
    [by apply start_capture_good|by apply start_media_good|by apply suspend_good| |by apply shutdown_good].
  pose proof (stop_good g reason d Hg) as H. destruct (stop g reason d). apply H.
Qed.

Lemma driver_run_good calls : good (driver_run calls).
Proof.
  unfold driver_run. assert (good driver_new) as H0.
  { split; [|by intros ? ? ? ? ?%app_cons_not_nil]. split; try done. by left. }
  revert H0. generalize driver_new. induction calls as [|c calls IH]; intros d Hd; [done|]. cbn. by apply IH, run_call_good.
Qed.


End Good.

(** ** Under the media-session actor

    What the actor records of its driver is what the driver does: a phase's
    result is the driver's on the record so far. *)

Definition recorded `{MediaSessionDriver} (tr : session_trace) : Prop :=
  forall pre c timeout r post, tr = pre ++ Phase c timeout r :: post -> r = drive pre c timeout.

Section Recorded.
Context `{D : MediaSessionDriver}.

Lemma recorded_snoc tr a :
  recorded tr -> (forall c timeout r, a = Phase c timeout r -> r = drive tr c timeout) -> recorded (tr ++ [a]).
Proof.
  intros Ht Ha pre c timeout r post E. destruct post as [|x post] using rev_ind.
  - apply app_inj_tail in E as [-> E]. by apply Ha.
  - rewrite app_comm_cons, app_assoc in E. apply app_inj_tail in E as [E _]. by eapply Ht.
Qed.

Definition truthful {A} (m : ms A) : Prop := runs m (fun s => recorded (trace s)) (fun _ s => recorded (trace s)).

Lemma truthful_bind {A B} (m : ms A) (k : A -> ms B) : truthful m -> (forall a, truthful (k a)) -> truthful (abind m k).
Proof. intros Hm Hk. by eapply runs_bind. Qed.

Lemma truthful_ret {A} (a : A) : truthful (aret a).
Proof. by apply runs_ret. Qed.

Lemma truthful_borrow : truthful borrow.
Proof. by intros s. Qed.

Lemma truthful_now : truthful now.
Proof. by intros s. Qed.

Lemma truthful_record a : (forall c timeout r, a <> Phase c timeout r) -> truthful (record a).
Proof. intros Ha s Hs. apply recorded_snoc; [done|]. intros c timeout r ->. by destruct (Ha c timeout r). Qed.

Lemma truthful_set m r g e : truthful (set_state m r g e).
Proof. intros s Hs. by apply recorded_snoc. Qed.

Lemma truthful_phase timeout phase c : truthful (run_phase timeout phase c).
Proof. intros s Hs. apply recorded_snoc; [done|]. by intros c' t' r' [= <- <- <-]. Qed.

Create HintDb truthful.
#[local] Hint Resolve truthful_bind truthful_ret truthful_borrow truthful_now truthful_set truthful_phase : truthful.
#[local] Hint Extern 1 (truthful (record _)) => by apply truthful_record : truthful.
#[local] Hint Extern 1 (truthful (install_phase _)) => by apply truthful_record : truthful.
#[local] Hint Extern 2 (truthful (match ?x with _ => _ end)) => destruct x : truthful.

Lemma truthful_run_stop timeout reason : truthful (run_stop timeout reason).
Proof. unfold run_stop. auto with truthful. Qed.
#[local] Hint Resolve truthful_run_stop : truthful.

Lemma truthful_stop_to_idle timeout reason : truthful (stop_to_idle timeout reason).
Proof. unfold stop_to_idle, fail. auto 10 with truthful. Qed.
#[local] Hint Resolve truthful_stop_to_idle : truthful.

Lemma truthful_activate_fresh timeout g route : truthful (activate_fresh timeout g route).
Proof. unfold activate_fresh, rollback_after_start_failure. auto 20 with truthful. Qed.
#[local] Hint Resolve truthful_activate_fresh : truthful.

Lemma truthful_activate timeout g route : truthful (activate timeout g route).
Proof. unfold activate, activate_over, fail. auto 15 with truthful. Qed.
#[local] Hint Resolve truthful_activate : truthful.

Lemma truthful_handle timeout c : truthful (handle timeout c).
Proof.
  unfold handle, MediaSession.suspend, retry, report_external_failure, fail. destruct (kind c); auto 15 with truthful.
Qed.

Lemma truthful_shutdown timeout reason : truthful (shutdown_driver timeout reason).
Proof. unfold shutdown_driver. auto 15 with truthful. Qed.
#[local] Hint Resolve truthful_handle truthful_shutdown : truthful.

Lemma truthful_actor timeout commands : truthful (run_actor timeout commands).
Proof.
  induction commands as [|c commands IH]; cbn [run_actor]; [auto with truthful|].
  destruct (kind c); auto 10 with truthful.
Qed.

Lemma actor_recorded timeout commands : recorded (trace (run_actor timeout commands session_init).2).
Proof.
  apply (truthful_actor timeout commands session_init). intros pre c t r post E. by apply app_cons_not_nil in E.
Qed.

End Recorded.

(** The driver as the actor's: its state is that of the phases recorded so far. *)
Definition phase_call (a : session_action) : option driver_call :=
  match a with Phase c _ _ => Some c | _ => None end.

Definition replay `{DriverPorts} (tr : session_trace) : driver := driver_run (omap phase_call tr).

Definition phase_of (r : got unit) : phase_result :=
  match r with Got _ => Completed | Refuse m => Refused m | Dropped => Elapsed end.

Definition production `{DriverPorts} (clock : session_trace -> Z) : MediaSessionDriver :=
  {| drive := fun tr c _ => phase_of (run_call c (replay tr)).1; session_clock := clock |}.

(** What the stage of the protocol says of the driver; [g] is the generation
    that is shown. *)
Definition in_step (st : Protocol.stage) (g : Z) (d : driver) : Prop :=
  live_driver d /\ 0 <= g /\
  match st with
  | Protocol.Closed => dr_capture_generation d = None /\ dr_backend_generation d = None
  | Protocol.Announced r =>
      sr_media_generation r = g /\ 0 < g /\ dr_capture_generation d = None /\ dr_backend_generation d = None
  | Protocol.Captured r =>
      sr_media_generation r = g /\ 0 < g /\ dr_capture_generation d = Some g /\ dr_backend_generation d = None /\
      dr_prepared d <> None
  | Protocol.Live r | Protocol.Paused r =>
      sr_media_generation r = g /\ 0 < g /\ dr_capture_generation d = Some g /\ dr_backend_generation d = Some g
  | Protocol.Doubtful =>
      (dr_capture_generation d = None \/ dr_capture_generation d = Some g) /\
      (dr_backend_generation d = None \/ dr_backend_generation d = Some g)
  end.

Section InStep.
Context `{P : DriverPorts}.

Lemma ensure_live_got d : live_driver d -> ensure_live d = (Got tt, d).
Proof. intros [H1 H2]. unfold ensure_live. running. by rewrite H1, H2. Qed.

Lemma log_grows (l : port_log) x l' : l ++ x :: l' <> l.
Proof. intros E. apply (f_equal length) in E. rewrite length_app in E. cbn in E. lia. Qed.

Lemma start_capture_step r d :
  live_driver d -> 0 < sr_media_generation r -> dr_capture_generation d = None -> dr_backend_generation d = None ->
  let '(res, d') := start_capture r d in
  dr_log d' <> dr_log d /\ live_driver d' /\ dr_capture_generation d' = Some (sr_media_generation r) /\
  dr_backend_generation d' = None /\ (res = Got tt -> dr_prepared d' <> None).
Proof.
  intros Hl Hg Hc Hb. unfold start_capture. running. rewrite ensure_live_got by done.
  rewrite nonzero_got by lia. rewrite Hc, Hb. rewrite !bool_decide_eq_true_2 by done. cbn [andb].
  destruct (cancellable_eq "start capture pipeline" (CaptureStart r) capture_start
              (with_capture (Some (sr_media_generation r)) d)) as [res ->].
  destruct res as [p|m|]; [destruct (validate_prepared_capture p r) as [[]|e|]|..]; cbn;
    (split_and!; [apply log_grows|by destruct Hl; split|done|done|done]).
Qed.

Lemma start_media_step r d :
  live_driver d -> 0 < sr_media_generation r -> dr_capture_generation d = Some (sr_media_generation r) ->
  dr_backend_generation d = None -> dr_prepared d <> None ->
  let '(res, d') := start_media r d in
  dr_log d' <> dr_log d /\ live_driver d' /\ dr_capture_generation d' = Some (sr_media_generation r) /\
  (dr_backend_generation d' = None \/ dr_backend_generation d' = Some (sr_media_generation r)) /\
  (res = Got tt -> dr_backend_generation d' = Some (sr_media_generation r)).
Proof.
  intros Hl Hg Hc Hb Hp. destruct (dr_prepared d) as [p|] eqn:Ep; [|done]. unfold start_media, need_device. running.
  rewrite ensure_live_got by done. rewrite nonzero_got by lia. rewrite Hc, bool_decide_eq_true_2, Ep by done.
  match goal with |- context [cancellable ?o ?c ?a ?s] => destruct (cancellable_eq o c a s) as [res ->] end.
  destruct res as [remotes|m|]; cbn [is_got];
    [|cbn; split_and!; [apply log_grows|by destruct Hl; split|done|by left|done]..].
  destruct (eqb _ _); [|cbn; split_and!; [apply log_grows|by destruct Hl; split|done|by left|done]].
  cbn [dr_device with_backend with_prepared grow]. rewrite (lv_device d Hl).
  match goal with |- context [cancellable_unit ?o ?c ?s] => destruct (cancellable_unit_eq o c s) as [res ->] end.
  destruct res as [[]|m|]; cbn [is_got];
    [|cbn; split_and!; [rewrite <- app_assoc; apply log_grows|by destruct Hl; split|done|by right|done]..].
  match goal with |- context [cancellable_unit ?o ?c ?s] => destruct (cancellable_unit_eq o c s) as [res ->] end.
  destruct res as [[]|m|]; cbn [is_got dr_device with_backend with_prepared grow]; rewrite ?(lv_device d Hl);
    [|cbn; split_and!; [rewrite <- !app_assoc; apply log_grows|by destruct Hl; split|done|by right|done]..].
  match goal with |- context [cancellable_unit ?o ?c ?s] => destruct (cancellable_unit_eq o c s) as [res ->] end.
  cbn; split_and!; [rewrite <- !app_assoc; apply log_grows|by destruct Hl; split|done|by right|done].
Qed.

Lemma suspend_step g reason d :
  live_driver d -> 0 < g -> dr_capture_generation d = Some g -> dr_backend_generation d = Some g ->
  let '(_, d') := suspend g reason d in
  dr_log d' <> dr_log d /\ live_driver d' /\ dr_capture_generation d' = Some g /\ dr_backend_generation d' = Some g.
Proof.
  intros Hl Hg Hc Hb. unfold suspend, need_device. running. rewrite ensure_live_got by done. rewrite nonzero_got by lia.
  rewrite Hc, Hb, !bool_decide_eq_true_2 by done. cbn [andb]. rewrite (lv_device d Hl).
  match goal with |- context [cancellable_unit ?o ?c ?s] => destruct (cancellable_unit_eq o c s) as [res ->] end.
  destruct res as [[]|m|]; cbn [is_got];
    [|cbn; split_and!; [apply log_grows|by destruct Hl; split|done|done]..].
  match goal with |- context [cancellable_unit ?o ?c ?s] => destruct (cancellable_unit_eq o c s) as [res ->] end.
  cbn; split_and!; [rewrite <- app_assoc; apply log_grows|by destruct Hl; split|done|done].
Qed.

(** One half, when it is the generation that is asked for. *)
Lemma stop_half_step operation active g c clear d :
  (active = None \/ active = Some g) ->
  let '(r, d') := stop_half operation active g true c clear d in
  (active = None /\ r = Got [] /\ d' = d) \/
  (active = Some g /\ (r = Got [] /\ d' = (clear (grow d c true)).2 \/ r <> Got [] /\ (forall m, r <> Refuse m) /\ d' = grow d c false)).
Proof.
  intros [->| ->]; unfold stop_half; [by left|]. rewrite Z.eqb_refl. cbn [negb]. running.
  destruct (cancellable_unit_eq operation c d) as [res ->].
  destruct res as [[]|m|]; cbn [is_got]; [destruct (clear (grow d c true)); right; split; [done|by left]|right; split; [done|by right]..].
Qed.

Lemma stop_step g reason d :
  live_driver d -> 0 < g -> (dr_capture_generation d = None \/ dr_capture_generation d = Some g) ->
  (dr_backend_generation d = None \/ dr_backend_generation d = Some g) ->
  let '(res, d') := stop g reason d in
  (dr_log d' <> dr_log d \/ res = Got tt) /\ live_driver d' /\
  (dr_capture_generation d' = None \/ dr_capture_generation d' = Some g) /\
  (dr_backend_generation d' = None \/ dr_backend_generation d' = Some g) /\
  (res = Got tt -> dr_capture_generation d' = None /\ dr_backend_generation d' = None).
Proof.
  intros Hl Hg Hc Hb. unfold stop. running. rewrite nonzero_got by lia. rewrite (lv_device d Hl).
  pose proof (stop_half_step "stop backend media" _ g (DeviceStopMedia g (map_stop_reason reason)) (set_backend None) d Hb) as H1.
  destruct (stop_half "stop backend media" _ g true _ _ d) as [r1 d1].
  assert (live_driver d1 /\ dr_capture_generation d1 = dr_capture_generation d /\
          (dr_backend_generation d1 = None \/ dr_backend_generation d1 = Some g) /\
          (r1 = Got [] -> dr_backend_generation d1 = None) /\ (forall m, r1 <> Refuse m) /\
          (d1 = d /\ r1 = Got [] \/ exists x, dr_log d1 = dr_log d ++ [x])) as (Hl1 & Hc1 & Hb1 & Hr1 & Hn1 & Hlog1).
  { destruct H1 as [(Ea & -> & ->)|(Ea & [(-> & ->)|(Hr & Hn & ->)])]; cbn.
    - split_and!; try done. by left.
    - destruct Hl. split_and!; try done; [by left|]. right. by eexists.
    - destruct Hl. split_and!; try done. right. by eexists. }
  clear H1. destruct r1 as [failures|m|]; [|by destruct (Hn1 m)|].
  2: { split_and!; [|done|congruence|done|done]. destruct Hlog1 as [[_ ?]|[x ->]]; [done|left; apply log_grows]. }
  pose proof (stop_half_step "stop capture pipeline" _ g (CaptureStop g reason) (set_capture None) (with_prepared None d1) Hc) as H2.
  destruct (stop_half "stop capture pipeline" _ g true _ _ _) as [r2 d2].
  assert (live_driver d2 /\ dr_backend_generation d2 = dr_backend_generation d1 /\
          (dr_capture_generation d2 = None \/ dr_capture_generation d2 = Some g) /\
          (r2 = Got [] -> dr_capture_generation d2 = None) /\ (forall m, r2 <> Refuse m) /\
          (dr_log d2 = dr_log d1 /\ r2 = Got [] \/ exists x, dr_log d2 = dr_log d1 ++ [x])) as (Hl2 & Hb2 & Hc2 & Hr2 & Hn2 & Hlog2).
  { destruct H2 as [(Ea & -> & ->)|(Ea & [(-> & ->)|(Hr & Hn & ->)])]; cbn.
    - destruct Hl1. rewrite Hc1, Ea. split_and!; try done; by left.
    - destruct Hl1. split_and!; try done; [by left|]. right. by eexists.
    - destruct Hl1. rewrite Hc1, Ea. split_and!; try done; [by right|]. right. by eexists. }
  clear H2. rewrite <- Hb2 in Hb1.
  assert (dr_log d2 <> dr_log d \/ (failures = [] /\ r2 = Got [])) as Hgrow.
  { destruct Hlog1 as [[-> [= ->]]|[x E1]], Hlog2 as [[E2 ->]|[y E2]]; [by right|left..]; rewrite E2, ?E1;
      rewrite <- ?app_assoc; apply log_grows. }
  destruct r2 as [failures'|m|]; [|by destruct (Hn2 m)|split_and!; try done; destruct Hgrow as [?|[_ ?]]; [by left|done]].
  split_and!; try done.
  - destruct Hgrow as [?|[-> [= ->]]]; [by left|by right].
  - unfold combine_failures. destruct (failures ++ failures') eqn:E; [|done]. apply app_eq_nil in E as [-> ->].
    intros _. rewrite Hb2. auto.
Qed.

Lemma shutdown_step reason d : live_driver d -> dr_log (shutdown reason d).2 <> dr_log d.
Proof.
  intros [Hd Hs]. unfold shutdown, stop_device. running. rewrite Hs, Hd. unfold attempted. running.
  match goal with |- context [cancellable_unit ?o ?c ?s] => destruct (cancellable_unit_eq o c s) as [res ->] end.
  destruct (device_stop _) as [[e|u]|]; destruct res as [[]|m|]; cbn; rewrite <- app_assoc; apply log_grows.
Qed.

Lemma publish_in_step st old s st' d :
  Protocol.publish st old s = Some st' -> in_step st (ms_media_generation old) d -> in_step st' (ms_media_generation s) d.
Proof.
  intros E Hi. unfold Protocol.publish in E.
  destruct (ms_state s) eqn:Es, st; try done; repeat case_match; try done; simplify_eq;
    repeat match goal with
           | H : _ && _ = true |- _ => apply andb_true_iff in H as [H ?]
           | H : (ms_media_generation s =? _) = true |- _ => apply Z.eqb_eq in H; rewrite H in *
           end; try exact Hi.
  destruct Hi as (Hl & Hg & Hc & Hb). split; [done|]. split; [lia|]. cbn. split_and!; [done|lia|done|done].
Qed.

(** A phase, from a driver in step. *)
Lemma phase_in_step st shown c r st' d :
  Protocol.call st shown c r = Some st' -> r = phase_of (run_call c d).1 ->
  in_step st (ms_media_generation shown) d ->
  (Protocol.is_shutdown c = false -> in_step st' (ms_media_generation shown) (run_call c d).2) /\
  (dr_log (run_call c d).2 <> dr_log d \/ (r = Completed /\ exists g reason, c = MediaSession.CallStop g reason)).
Proof.
  intros E Hr (Hl & Hg & Hi).
  destruct c as [q|q|g reason|g reason|reason]; cbn [Protocol.call run_call Protocol.is_shutdown] in *.
  - destruct st as [|q'|q'|q'|q'|]; try done. case_bool_decide as Hq; [|done]. injection E as <-. subst q'.
    destruct Hi as (Hq & Hpos & Hc & Hb). pose proof (start_capture_step q d Hl ltac:(lia) Hc Hb) as Hs.
    destruct (start_capture q d) as [res d']. destruct Hs as (Hlog & Hl' & Hc' & Hb' & Hp'). split; [intros _|by left].
    split; [done|]. split; [lia|]. rewrite Hq in *. subst r. destruct res as [[]|m|]; cbn; split_and!; auto.
  - destruct st as [|q'|q'|q'|q'|]; try done. case_bool_decide as Hq; [|done]. injection E as <-. subst q'.
    destruct Hi as (Hq & Hpos & Hc & Hb & Hp). rewrite <- Hq in Hc. pose proof (start_media_step q d Hl ltac:(lia) Hc Hb Hp) as Hs.
    destruct (start_media q d) as [res d']. destruct Hs as (Hlog & Hl' & Hc' & Hb' & Hp'). split; [intros _|by left].
    split; [done|]. split; [lia|]. rewrite Hq in *. subst r. destruct res as [[]|m|]; cbn; split_and!; auto.
  - destruct st as [|q|q|q|q|]; try done. destruct (Z.eqb_spec g (sr_media_generation q)) as [->|]; [|done]. injection E as <-.
    destruct Hi as (Hq & Hpos & Hc & Hb). rewrite Hq in Hr |- *. pose proof (suspend_step _ reason d Hl Hpos Hc Hb) as Hs.
    destruct (suspend _ reason d) as [res d']. destruct Hs as (Hlog & Hl' & Hc' & Hb'). split; [intros _|by left].
    split; [done|]. split; [lia|]. subst r. destruct res as [[]|m|]; cbn; split_and!; auto.
  - assert ((g =? ms_media_generation shown) && negb (g =? 0) = true /\
            st' = match r with Completed => Protocol.Closed | _ => Protocol.Doubtful end) as [Heq ->].
    { destruct st; try done; (destruct ((g =? ms_media_generation shown) && negb (g =? 0)) in E |- *; [by injection E as <-|done]). }
    rewrite andb_true_iff, negb_true_iff, Z.eqb_eq, Z.eqb_neq in Heq. destruct Heq as [-> Hnz].
    set (n := ms_media_generation shown) in *.
    assert ((dr_capture_generation d = None \/ dr_capture_generation d = Some n) /\
            (dr_backend_generation d = None \/ dr_backend_generation d = Some n)) as [Hc Hb].
    { destruct st; try done; destruct_and! Hi; split; auto. }
    pose proof (stop_step n reason d Hl ltac:(lia) Hc Hb) as Hs. destruct (stop n reason d) as [res d'].
    destruct Hs as (Hlog & Hl' & Hc' & Hb' & Hr'). split.
    + intros _. split; [done|]. split; [lia|]. subst r. destruct res as [[]|m|]; cbn; auto.
    + destruct Hlog as [?| ->]; [by left|right]. split; [done|]. by eexists _, _.
  - split; [done|]. left. by apply shutdown_step.
Qed.

Definition productive (pre : session_trace) (c : driver_call) (r : phase_result) : Prop :=
  dr_log (run_call c (replay pre)).2 <> dr_log (replay pre) \/
  (r = Completed /\ exists g reason, c = MediaSession.CallStop g reason).

Lemma replay_snoc tr a :
  replay (tr ++ [a]) = match phase_call a with Some c => (run_call c (replay tr)).2 | None => replay tr end.
Proof.
  unfold replay, driver_run. rewrite omap_app, foldl_app. cbn. by destruct (phase_call a).
Qed.

Lemma trace_in_step clock tr p :
  recorded (H := production clock) tr -> Protocol.accept tr = Some p ->
  (Protocol.ended p = false -> in_step (Protocol.at_stage p) (ms_media_generation (Protocol.shown p)) (replay tr)) /\
  (forall pre c timeout r post, tr = pre ++ Phase c timeout r :: post -> productive pre c r).
Proof.
  revert p. induction tr as [|a tr IH] using rev_ind; intros p Hr Ha.
  { injection Ha as <-. split; [|by intros ? ? ? ? ? ?%app_cons_not_nil]. intros _. split; [by split|]. by cbn. }
  rewrite Protocol.accept_snoc in Ha. destruct (Protocol.accept tr) as [q|] eqn:Eq; [|done].
  assert (recorded (H := production clock) tr) as Hr0.
  { intros pre c t r post ->. apply (Hr pre c t r (post ++ [a])). by rewrite <- app_assoc. }
  destruct (IH q Hr0 eq_refl) as [Hst Hpr]. clear IH. rewrite replay_snoc.
  assert (forall pre c t r post, tr ++ [a] = pre ++ Phase c t r :: post ->
            (pre = tr /\ a = Phase c t r) \/ exists post', tr = pre ++ Phase c t r :: post') as Hcase.
  { intros pre c t r post E. destruct post as [|x post] using rev_ind.
    - apply app_inj_tail in E as [-> ->]. by left.
    - rewrite app_comm_cons, app_assoc in E. apply app_inj_tail in E as [E _]. right. by eexists. }
  destruct a as [c t r|g|s|res]; cbn [phase_call Protocol.step] in *.
  - destruct (Protocol.ended q) eqn:Ee; [done|]. specialize (Hst eq_refl).
    destruct (Protocol.call _ _ c r) as [st|] eqn:Ec; [|done]. injection Ha as <-. cbn.
    pose proof (Hr tr c t r [] eq_refl) as Hd. cbn in Hd.
    destruct (phase_in_step _ _ _ _ _ (replay tr) Ec Hd Hst) as [Hs Hg].
    split; [done|]. intros pre c' t' r' post E. destruct (Hcase _ _ _ _ _ E) as [[-> [= <- <- <-]]|[post' E']]; [done|by eapply Hpr].
  - destruct (Protocol.ended q) eqn:Ee; [done|]. injection Ha as <-. split; [auto|].
    intros pre c' t' r' post E. destruct (Hcase _ _ _ _ _ E) as [[_ ?]|[post' E']]; [done|by eapply Hpr].
  - destruct (Protocol.ended q) eqn:Ee; [done|]. destruct (_ || _); [|done].
    destruct (Protocol.publish _ _ s) as [st|] eqn:Ep; [|done]. injection Ha as <-. cbn. split.
    + intros _. eapply publish_in_step; [exact Ep|auto].
    + intros pre c' t' r' post E. destruct (Hcase _ _ _ _ _ E) as [[_ ?]|[post' E']]; [done|by eapply Hpr].
  - injection Ha as <-. split; [auto|].
    intros pre c' t' r' post E. destruct (Hcase _ _ _ _ _ E) as [[_ ?]|[post' E']]; [done|by eapply Hpr].
Qed.

Lemma shown_in_step clock tr p :
  recorded (H := production clock) tr -> Protocol.accept tr = Some p ->
  forall pre snap post, tr = pre ++ Published snap :: post ->
  exists st, in_step st (ms_media_generation snap) (replay pre) /\
    (ms_state snap = Idle -> st = Protocol.Closed) /\ (ms_state snap = Running -> exists r, st = Protocol.Live r).
Proof.
  intros Hr Ha pre snap post ->. assert (exists q, Protocol.accept (pre ++ [Published snap]) = Some q) as [q Hq].
  { replace (pre ++ Published snap :: post) with ((pre ++ [Published snap]) ++ post) in Ha by (by rewrite <- app_assoc).
    revert Ha. clear. revert p. induction post as [|x post IH] using rev_ind; intros p; [rewrite app_nil_r; by eexists|].
    rewrite app_assoc, Protocol.accept_snoc. destruct (Protocol.accept _) eqn:E; [intros _; by eapply IH|done]. }
  assert (recorded (H := production clock) pre) as Hr0.
  { intros pre' c t r post' ->. apply (Hr pre' c t r (post' ++ Published snap :: post)). by rewrite <- app_assoc. }
  rewrite Protocol.accept_snoc in Hq. destruct (Protocol.accept pre) as [q0|] eqn:E0; [|done].
  destruct (trace_in_step clock pre q0 Hr0 E0) as [Hst _]. cbn [Protocol.step] in Hq.
  destruct (Protocol.ended q0); [done|]. destruct (_ || _); [|done].
  destruct (Protocol.publish _ _ snap) as [st|] eqn:Ep; [|done]. exists st.
  split; [by eapply publish_in_step; [exact Ep|apply Hst]|]. unfold Protocol.publish in Ep.
  split; intros Es; rewrite Es in Ep; destruct (Protocol.at_stage q0); try done; repeat case_match; simplify_eq; eauto.
Qed.

(** C2: the actor and its driver are never out of step.  Whatever the commands
    and whatever the ports do, every phase the actor runs makes the driver use a
    port (only a stop of what is already stopped does not): no phase is refused
    because of what an earlier one left behind.  When the actor shows that it is
    idle, the capture and the device of every generation have been stopped, and
    when it shows that it is running, both are open for the generation it
    shows. *)
Theorem driver_in_step clock timeout commands :
  let tr := trace (run_actor (H := production clock) timeout commands session_init).2 in
  (forall pre c t r post, tr = pre ++ Phase c t r :: post -> productive pre c r) /\
  (forall pre snap post, tr = pre ++ Published snap :: post ->
     let log := dr_log (replay pre) in
     (ms_state snap = Idle -> open_capture log = None /\ open_backend log = None) /\
     (ms_state snap = Running ->
        open_capture log = Some (ms_media_generation snap) /\ open_backend log = Some (ms_media_generation snap))).
Proof.
  intros tr. assert (exists p, Protocol.accept tr = Some p) as [p Hp].
  { unfold tr. pose proof (runs_run_actor (H := production clock) timeout commands session_init) as Hrun.
    destruct (run_actor timeout commands session_init) as [[[]|] s]; cbn in Hrun |- *.
    - destruct Hrun as (p & Ha & _); [|by eauto]. exists Protocol.Closed. repeat split; done.
    - destruct Hrun as ((st & Ha & _) & _); [|by eauto]. exists Protocol.Closed. repeat split; done. }
  assert (recorded (H := production clock) tr) as Hr by apply actor_recorded.
  split; [apply (trace_in_step clock tr p Hr Hp)|]. intros pre snap post E log.
  destruct (shown_in_step clock tr p Hr Hp pre snap post E) as (st & (Hl & _ & Hi) & Hidle & Hrun).
  destruct (live_opens (replay pre) ltac:(apply driver_run_good) Hl) as (_ & Hc & Hb). fold log in Hc, Hb.
  rewrite <- Hc, <- Hb. split; [by intros ->%Hidle|]. intros [r ->]%Hrun. by destruct Hi as (_ & _ & ? & ?).
Qed.

End InStep.

(** ** A run *)

(** Everything succeeds, but the device does not answer its first start. *)
Definition ex_prepared_capture (g : Z) : PreparedCaptureMedia :=
  {| pc_media_generation := g; pc_video_target := ex_target DeviceVideo g; pc_audio_target := None;
     pc_configuration := dm_configuration (ex_media_setup g) |}.

Definition ex_ports : DriverPorts :=
  {| capture_start := fun log => Answers (inr (ex_prepared_capture (1 + Z.of_nat (count_occ Bool.bool_dec
       ((fun e => match e with (CaptureStart _, _) => true | _ => false end) <$> log) true))));
     mint := fun _ => Answers (inr {| rs_video := 10; rs_audio := None |});
     port := fun _ c => match c with DeviceStart 1 => Hangs | _ => Answers (inr tt) end;
     device_stop := fun _ => Some (inr tt) |}.

Definition ex_route : MediaRoute :=
  {| mr_route_generation := 4; mr_target := 9;
     mr_mode := {| rm_width := 1920; rm_height := 1080; rm_refresh_millihz := 60000; rm_flags := 5 |} |}.

Definition ex_media_run : session :=
  (run_actor (H := production (H := ex_ports) (fun _ => 0)) 1000
     [{| MediaSession.request_generation := 1; kind := Activate ex_route |};
      {| MediaSession.request_generation := 2; kind := Retry |};
      {| MediaSession.request_generation := 3; kind := Deactivate |}] session_init).2.

(** The first generation is given up and cleaned up; the second plays. *)
Example retry_plays :
  let log := dr_log (replay (H := ex_ports) (trace ex_media_run)) in
  omap (fun e => match e with (DeviceStart g, ok) => Some (g, ok) | _ => None end) log = [(1, false); (2, true)] /\
  open_capture log = None /\ open_backend log = None /\ length log = 16%nat.
Proof. by vm_compute. Qed.
