(* ===== verification/KernelCapture.v ===== *)
(** * Capture in the kernel actor (crates/pronk/src/castkms_actor.rs)

    The actor that owns the grant's descriptor captures frames into a pool of
    buffers and hands them to the PipeWire source, whose consumer gives them
    back.  The operations here are built on the client of CaptureClient: a
    buffer is idle, queued, completed or with the consumer there, and the actor
    keeps which buffers it may queue next and which it waits for.

    What the actor waits for (the source, the audio source, fences, the event
    stream, cancellation) is the class [KernelWorld], a function of the record
    of what the actor did; the kernel's answers are the class [CaptureKernel].
    KernelActor has the actor's loop over these operations, KernelProtocol the
    theorems. *)

From S2P Require Import Prelude Bytes Text CastkmsSys Grant Castkms CastkmsEvent CastkmsCapture CaptureClient CastkmsCec CecBridge DisplayState PipewireBuffers VideoSource MediaSession DisplaySetup CastDisplaySlot DeviceSession MediaDriver.

Definition CAPTURE_POOL_SIZE : nat := 4.

(** Linux. *)
Definition EBUSY : Z := 16.

(** ** Data *)

Global Instance CaptureStreamInfo_eq_dec : EqDecision CaptureStreamInfo.
Proof. solve_decision. Defined.
Global Instance VideoNodeIdentity_eq_dec : EqDecision VideoNodeIdentity.
Proof. solve_decision. Defined.

Record KernelDisplayError := { ke_operation : string; ke_message : list Z }.

Definition kernel_error_text (e : KernelDisplayError) : list Z := codes (ke_operation e) ++ codes ": " ++ ke_message e.

Record CastKmsActorConfig := {
  ac_session_id : list Z; ac_device_instance : list Z; ac_node_description : list Z; ac_output_index : Z;
  ac_video_profile_id : list Z; ac_audio_profile_id : option (list Z); ac_video_bitrate : Z;
  ac_device_control : bool }.

Record OutstandingCapture := {
  oc_queue : CaptureQueue; oc_fence : ExplicitCaptureFence; oc_transport : PipeWireBufferTransport }.

(** The audio source is its identity. *)
Record ActiveGeneration := {
  ag_media_generation : Z; ag_stream : CaptureStreamInfo; ag_identity : VideoNodeIdentity;
  ag_audio_source : option VideoNodeIdentity; ag_transports : gmap Z PipeWireBufferTransport;
  ag_available : list Z; ag_outstanding : list OutstandingCapture; ag_next_user_data : Z;
  ag_source_active : bool; ag_suspended : bool }.

Inductive QueueFailure := Recoverable (e : KernelDisplayError) | Fatal (e : KernelDisplayError).

(** What the actor does, besides the system calls of the client. *)
Inductive kernel_action :=
  | SourceStart (g : VideoSourceGeneration) (started : bool)
  | SourceStop (generation : Z)
  | AudioStart (generation : Z) (started : bool)
  | AudioStop
  | QueueBuffer (generation buffer_id : Z)
  | Publish (generation : Z) (frame : VideoFrame)
  | ConsumerReturned (generation buffer_id : Z)
  | SourceFailed (generation : Z)
  | Reclaim (buffer_id : Z)
  | StopStream
  | FinishStream (ok : bool)
  | MediaFailed (error : list Z)
  | Activated (generation : Z)
  | Suspend (generation : Z)
  | SendEvent (event : KernelDisplayEvent)
  | SourceShutdown
  | SpawnControl (operation : DeviceControlOperation)
  | AbortControl
  | CecComplete (event : CecTransmitEvent) (completion : CecCompletion) (ok : bool)
  | CecInject (message : list Z) (ok : bool)
  | CecOnline (online ok : bool)
  | CecBind (ok : bool)
  | CecUnbind (ok : bool)
  | Detach (ok : bool)
  | AnswerStart (r : outcome KernelDisplayError PreparedCaptureMedia)
  | Answer (r : outcome KernelDisplayError unit).

Abbreviation kernel_trace := (list kernel_action).

Class KernelWorld := {
  start_cancelled : kernel_trace -> bool;
  producer_remote : kernel_trace -> raced (outcome (list Z) unit);
  source_start : kernel_trace -> outcome (list Z) VideoNodeIdentity;
  source_publish : kernel_trace -> outcome (list Z) unit;
  source_stop : kernel_trace -> VideoSourceStopReport + VideoSourceActorError;
  audio_remote : kernel_trace -> outcome (list Z) unit;
  open_tap : kernel_trace -> outcome (list Z) unit;
  audio_start : kernel_trace -> outcome (list Z) VideoNodeIdentity;
  audio_stop : kernel_trace -> outcome (list Z) unit;
  (* [None]: the timeout came first *)
  fence_ready : kernel_trace -> ExplicitCaptureFence -> option (outcome (list Z) unit);
  (* what is read from the event stream until the drain's deadline; [None]: the
     deadline came first *)
  drain_reads : kernel_trace -> list (option (outcome (list Z) (list CastKmsEvent)));
  (* a read that does not wait *)
  try_read : kernel_trace -> outcome (list Z) (list CastKmsEvent);
  (* whether the caller of a command went away before its answer *)
  reply_dropped : kernel_trace -> bool;
  into_async : kernel_trace -> outcome (list Z) unit;
  source_spawn : kernel_trace -> outcome (list Z) unit;
  source_shutdown : kernel_trace -> outcome (list Z) unit;
  display_queries : kernel_trace -> DrmQueries;
  cec_kernel : kernel_trace -> CecKernel;
  detach_ioctl : kernel_trace -> Z -> outcome Z unit;
  detach_joins : kernel_trace -> joined unit;
  capture_text : CaptureError -> list Z;
  source_text : VideoSourceActorError -> list Z;
  video_text : VideoSourceError -> list Z;
  runtime_text : VideoSourceActorRuntimeError -> list Z;
  castkms_text : CastKmsError -> list Z;
  event_text : EventReadError CaptureProtocolError -> list Z }.

(** The CEC side: the client's tracker, the bridge, and the transmit whose device
    operation runs. *)
Record cec_part := {
  cp_tracker : CecTracker; cp_bridge : option CecBridge; cp_pending : option CecTransmitEvent }.

Record kernel := {
  kn_capture : capture_state; kn_active : option ActiveGeneration; kn_cec : cec_part;
  kn_current : KernelDisplayObservation; kn_trace : kernel_trace }.

Definition with_capture (s : kernel) (c : capture_state) : kernel :=
  {| kn_capture := c; kn_active := kn_active s; kn_cec := kn_cec s; kn_current := kn_current s;
     kn_trace := kn_trace s |}.
Definition with_active (s : kernel) (a : option ActiveGeneration) : kernel :=
  {| kn_capture := kn_capture s; kn_active := a; kn_cec := kn_cec s; kn_current := kn_current s;
     kn_trace := kn_trace s |}.
Definition with_cec (s : kernel) (c : cec_part) : kernel :=
  {| kn_capture := kn_capture s; kn_active := kn_active s; kn_cec := c; kn_current := kn_current s;
     kn_trace := kn_trace s |}.
Definition with_current (s : kernel) (o : KernelDisplayObservation) : kernel :=
  {| kn_capture := kn_capture s; kn_active := kn_active s; kn_cec := kn_cec s; kn_current := o;
     kn_trace := kn_trace s |}.
Definition with_action (s : kernel) (a : kernel_action) : kernel :=
  {| kn_capture := kn_capture s; kn_active := kn_active s; kn_cec := kn_cec s; kn_current := kn_current s;
     kn_trace := kn_trace s ++ [a] |}.

Definition display_int (n : Z) : list Z := if n <? 0 then codes "-" ++ display_uint (- n) else display_uint n.

(** ** The monad *)

Definition KM (A : Type) : Type := kernel -> kernel * outcome KernelDisplayError A.

Definition kret {A} (a : A) : KM A := fun s => (s, Ok a).
Definition kraise {A} (operation : string) (message : list Z) : KM A :=
  fun s => (s, Err {| ke_operation := operation; ke_message := message |}).
Definition kbind {A B} (m : KM A) (k : A -> KM B) : KM B :=
  fun s => match m s with
           | (s', Ok a) => k a s'
           | (s', Err e) => (s', Err e)
           | (s', Panic) => (s', Panic)
           end.

Declare Scope kernel_scope.
Notation "'let@' x := m 'in' k" := (kbind m (fun x => k))
  (at level 10, x name, m at level 200, k at level 200,
   format "'[v' 'let@'  x  :=  m  'in' '/' k ']'") : kernel_scope.
Notation "'do@' m ; k" := (kbind m (fun _ => k))
  (at level 10, m at level 200, k at level 200,
   format "'[v' 'do@'  m ; '/' k ']'") : kernel_scope.
Global Open Scope kernel_scope.

(** The result as a value. *)
Definition kattempt {A} (m : KM A) : KM (A + KernelDisplayError) :=
  fun s => match m s with
           | (s', Ok a) => (s', Ok (inl a))
           | (s', Err e) => (s', Ok (inr e))
           | (s', Panic) => (s', Panic)
           end.

Definition klift {A} (o : outcome KernelDisplayError A) : KM A := fun s => (s, o).
Definition kact (a : kernel_action) : KM unit :=
  fun s => (with_action s a, Ok tt).
Definition ksee {A} (f : kernel_trace -> A) : KM A := fun s => (s, Ok (f (kn_trace s))).
Definition kactive : KM (option ActiveGeneration) := fun s => (s, Ok (kn_active s)).
Definition set_active (a : option ActiveGeneration) : KM unit :=
  fun s => (with_active s a, Ok tt).
Definition ktracker : KM CaptureTracker := fun s => (s, Ok (cs_tracker (kn_capture s))).

(** An operation of the client, with its result as a value. *)
Definition client {A} (m : M A) : KM (A + CaptureError) :=
  fun s =>
    let '(c, r) := m (kn_capture s) in
    (with_capture s c,
     match r with Ok a => Ok (inl a) | Err e => Ok (inr e) | Panic => Panic end).

Definition kerr (operation : string) (message : list Z) : KernelDisplayError :=
  {| ke_operation := operation; ke_message := message |}.

Definition from_text {A} (operation : string) (o : outcome (list Z) A) : outcome KernelDisplayError A :=
  omap_err (kerr operation) o.

(** *** Field updates *)

Definition with_queue (g : ActiveGeneration) (available : list Z) (outstanding : list OutstandingCapture)
    (next_user_data : Z) : ActiveGeneration :=
  {| ag_media_generation := ag_media_generation g; ag_stream := ag_stream g; ag_identity := ag_identity g;
     ag_audio_source := ag_audio_source g; ag_transports := ag_transports g; ag_available := available;
     ag_outstanding := outstanding; ag_next_user_data := next_user_data; ag_source_active := ag_source_active g;
     ag_suspended := ag_suspended g |}.
Definition with_transports (g : ActiveGeneration) (t : gmap Z PipeWireBufferTransport) : ActiveGeneration :=
  {| ag_media_generation := ag_media_generation g; ag_stream := ag_stream g; ag_identity := ag_identity g;
     ag_audio_source := ag_audio_source g; ag_transports := t; ag_available := ag_available g;
     ag_outstanding := ag_outstanding g; ag_next_user_data := ag_next_user_data g;
     ag_source_active := ag_source_active g; ag_suspended := ag_suspended g |}.
Definition with_flags (g : ActiveGeneration) (source_active suspended : bool) : ActiveGeneration :=
  {| ag_media_generation := ag_media_generation g; ag_stream := ag_stream g; ag_identity := ag_identity g;
     ag_audio_source := ag_audio_source g; ag_transports := ag_transports g; ag_available := ag_available g;
     ag_outstanding := ag_outstanding g; ag_next_user_data := ag_next_user_data g;
     ag_source_active := source_active; ag_suspended := suspended |}.

Section Capture.
Context `{K : CaptureKernel} `{W : KernelWorld} (lease : GrantLease) (config : CastKmsActorConfig).

(** [.map_err(|error| KernelDisplayError::new(operation, error.to_string()))?]. *)
Definition must {A} (operation : string) (m : M A) : KM A :=
  let@ r := client m in
  match r with inl a => kret a | inr e => kraise operation (capture_text e) end.

Definition require_not_cancelled (operation : string) : KM unit :=
  let@ c := ksee start_cancelled in
  if c : bool then kraise operation (codes "operation was cancelled") else kret tt.

(** ** Starting a generation *)

Definition validate_stream_route (stream : CaptureStreamInfo) (request : MediaStartRequest)
  : outcome KernelDisplayError unit :=
  let route := sr_route request in
  reject (negb (si_crtc_id stream =? mr_target route) || negb (si_width stream =? rm_width (mr_mode route))
          || negb (si_height stream =? rm_height (mr_mode route)))
    (kerr "validate CastKMS capture route"
       (codes "kernel stream is CRTC " ++ display_uint (si_crtc_id stream) ++ codes " at "
        ++ display_uint (si_width stream) ++ codes "x" ++ display_uint (si_height stream) ++ codes "; route is CRTC "
        ++ display_uint (mr_target route) ++ codes " at " ++ display_uint (rm_width (mr_mode route)) ++ codes "x"
        ++ display_uint (rm_height (mr_mode route)))).

Fixpoint allocate_pool (n : nat) (index : Z) (stream : CaptureStreamInfo) : KM (list CaptureBufferInfo) :=
  match n with
  | O => kret []
  | S n =>
      let@ r := client (allocate_linear_xrgb8888_buffer Explicit) in
      match r with
      | inr e =>
          kraise "allocate CastKMS capture pool"
            (codes "buffer " ++ display_uint index ++ codes ": " ++ capture_text e)
      | inl b =>
          do@ klift (reject (negb (bi_stream_id b =? si_stream_id stream))
                       (kerr "allocate CastKMS capture pool" (codes "buffer belongs to another stream")));
          let@ rest := allocate_pool n (index + 1) stream in
          kret (b :: rest)
      end
  end.

Fixpoint export_video_buffers (stream : CaptureStreamInfo) (buffers : list CaptureBufferInfo) : KM (list VideoBuffer) :=
  match buffers with
  | [] => kret []
  | b :: buffers =>
      let@ e := must "export CastKMS capture buffer"
                  (export_capture_buffer (si_stream_id stream) (bi_buffer_id b)) in
      do@ klift (reject (bool_decide (ex_timelines e = None))
                   (kerr "export CastKMS capture buffer" (codes "explicit buffer has no sync timelines")));
      let@ rest := export_video_buffers stream buffers in
      kret ({| vb_id := ex_buffer_id e;
               vb_layout := {| width := la_width (CaptureClient.ex_layout e); height := la_height (CaptureClient.ex_layout e);
                               pitch := la_pitch (CaptureClient.ex_layout e); size := la_size (CaptureClient.ex_layout e);
                               modifier := la_modifier (CaptureClient.ex_layout e) |};
               vb_timelines := true |} :: rest)
  end.

Definition rollback_unpublished (stream : CaptureStreamInfo) : KM unit :=
  let@ t := ktracker in
  do@ (if bool_decide (ts_info <$> CastkmsCapture.active t = Some stream) then
         do@ must "roll back CastKMS capture" (stop_capture); kact StopStream
       else kret tt);
  let@ t := ktracker in
  if bool_decide (capture_buffers t (si_stream_id stream) = []) then kret tt
  else
    do@ must "destroy rolled-back capture pool" (finish_retired_capture (si_stream_id stream));
    kact (FinishStream true).

(** [rollback_unpublished(..)?; return Err(error)], when [m] fails. *)
Definition or_rollback {A} (stream : CaptureStreamInfo) (m : KM A) : KM A :=
  let@ r := kattempt m in
  match r with
  | inl a => kret a
  | inr e => do@ rollback_unpublished stream; klift (Err e)
  end.

Definition stop_started_source (media_generation : Z) : KM unit :=
  let@ r := ksee source_stop in
  do@ kact (SourceStop media_generation);
  match r with
  | inl _ | inr (Shutdown_ _ _) | inr NoActiveGeneration => kret tt
  | inr e => kraise "roll back PipeWire source" (source_text e)
  end.

(** The source runs: [stop_started_source(..)?; rollback_unpublished(..)?; return Err(error)]. *)
Definition or_rollback_source {A} (stream : CaptureStreamInfo) (media_generation : Z) (m : KM A) : KM A :=
  let@ r := kattempt m in
  match r with
  | inl a => kret a
  | inr e => do@ stop_started_source media_generation; do@ rollback_unpublished stream; klift (Err e)
  end.

Definition raw_video_caps (stream : CaptureStreamInfo) : list Z :=
  codes "video/x-raw,format=BGRx,width=" ++ display_uint (si_width stream) ++ codes ",height="
  ++ display_uint (si_height stream) ++ codes ",framerate=" ++ display_uint (si_refresh_hz stream) ++ codes "/1".

Definition raw_audio_caps : list Z := codes "audio/x-raw,format=S16LE,layout=interleaved,rate=48000,channels=2".

Definition media_target (kind : DeviceMediaKind) (i : VideoNodeIdentity) (media_generation : Z) (caps : list Z)
  : DeviceMediaTarget :=
  {| dt_kind := kind; dt_node_name := ni_node_name i; dt_object_serial := VideoSource.object_serial i;
     dt_session_id := ac_session_id config; dt_device_instance := ac_device_instance config;
     dt_connector_id := lease_connector_id lease; dt_output_index := ac_output_index config;
     dt_media_generation := media_generation; dt_caps := caps |}.

Definition audio_media_target (i : VideoNodeIdentity) (media_generation : Z) : DeviceMediaTarget :=
  media_target DeviceAudio i media_generation raw_audio_caps.

(** The configuration of a source; the names differ by kind. *)
Definition source_config (name description : list Z) (media_generation refresh : Z) : VideoSourceConfig :=
  {| PipewireBuffers.node_name := codes "pronk." ++ name ++ codes "." ++ ac_session_id config ++ codes "."
       ++ display_uint media_generation;
     node_description := description; PipewireBuffers.session_id := ac_session_id config;
     PipewireBuffers.device_instance := ac_device_instance config;
     PipewireBuffers.connector_id := lease_connector_id lease;
     PipewireBuffers.output_index := ac_output_index config; PipewireBuffers.grant_id := lease_grant_id lease;
     cfg_media_generation := media_generation; refresh_hz := refresh |}.

Definition start_optional_kernel_audio_source (media_generation : Z) : KM (option VideoNodeIdentity) :=
  match ac_audio_profile_id config with
  | None => kret None
  | Some _ =>
      let@ remote := ksee audio_remote in
      do@ klift (from_text "connect classified PipeWire audio producer" remote);
      let@ tap := ksee open_tap in
      do@ klift (from_text "open grant-scoped CastKMS audio tap" tap);
      let@ started := ksee audio_start in
      do@ kact (AudioStart media_generation (is_ok started));
      let@ i := klift (from_text "start PipeWire audio source" started) in
      if VideoSource.media_generation i =? media_generation then kret (Some i)
      else
        do@ kact AudioStop;
        kraise "start PipeWire audio source" (codes "audio source returned a stale media generation")
  end.

(** From the stream to the exported pool. *)
Definition prepare_pool (stream : CaptureStreamInfo) (request : MediaStartRequest) : KM (list VideoBuffer) :=
  do@ or_rollback stream (klift (validate_stream_route stream request));
  let@ buffers := or_rollback stream (allocate_pool CAPTURE_POOL_SIZE 0 stream) in
  do@ or_rollback stream (require_not_cancelled "start capture generation");
  do@ or_rollback stream (
    let@ remote := ksee producer_remote in
    match remote with
    | CancelledFirst => kraise "start capture generation" (codes "operation was cancelled")
    | Done r => klift (from_text "connect classified PipeWire producer" r)
    end);
  or_rollback stream (export_video_buffers stream buffers).

(** The sources over the pool. *)
Definition start_sources (stream : CaptureStreamInfo) (media_generation : Z) (buffers : list VideoBuffer)
  : KM (VideoNodeIdentity * option VideoNodeIdentity) :=
  let@ identity := or_rollback stream (
    let@ started := ksee source_start in
    do@ kact (SourceStart {| VideoSource.config := source_config (codes "video") (ac_node_description config)
                                                   media_generation (si_refresh_hz stream);
                             VideoSource.buffers := buffers |} (is_ok started));
    klift (from_text "start PipeWire source" started)) in
  do@ or_rollback_source stream media_generation (require_not_cancelled "start PipeWire source");
  do@ or_rollback_source stream media_generation (
    if VideoSource.media_generation identity =? media_generation then kret tt
    else kraise "start PipeWire source" (codes "source returned a stale media generation"));
  let@ audio := or_rollback_source stream media_generation (start_optional_kernel_audio_source media_generation) in
  do@ or_rollback_source stream media_generation (
    let@ c := ksee start_cancelled in
    if c : bool then
      do@ (match audio with Some _ => kact AudioStop | None => kret tt end);
      kraise "start PipeWire audio source" (codes "operation was cancelled")
    else kret tt);
  kret (identity, audio).

Definition start_generation (request : MediaStartRequest) : KM (ActiveGeneration * PreparedCaptureMedia) :=
  let op := "start capture generation"%string in
  let media_generation := sr_media_generation request in
  do@ klift (reject (media_generation =? 0) (kerr op (codes "media generation is zero")));
  do@ klift (reject (lease_connector_id lease =? 0) (kerr op (codes "CastKMS connector ID is zero")));
  do@ klift (reject (lease_grant_id lease =? 0) (kerr op (codes "CastKMS grant ID is zero")));
  do@ require_not_cancelled op;
  let@ capabilities := must "query CastKMS capture capabilities"
                         (query_capture_capabilities lease (mr_target (sr_route request))) in
  do@ klift (reject (max_registered_buffers capabilities <? Z.of_nat CAPTURE_POOL_SIZE)
               (kerr op (codes "CastKMS supports " ++ display_uint (max_registered_buffers capabilities)
                         ++ codes " buffers; 4 are required")));
  let@ stream := must "start CastKMS capture" (CaptureClient.start_capture lease capabilities IncludeInFrame) in
  let@ buffers := prepare_pool stream request in
  let@ sources := start_sources stream media_generation buffers in
  let audio_target := (fun i => audio_media_target i media_generation) <$> sources.2 in
  kret ({| ag_media_generation := media_generation; ag_stream := stream; ag_identity := sources.1;
           ag_audio_source := sources.2; ag_transports := ∅; ag_available := []; ag_outstanding := [];
           ag_next_user_data := 1; ag_source_active := true; ag_suspended := true |},
        {| pc_media_generation := media_generation;
           pc_video_target := media_target DeviceVideo sources.1 media_generation (raw_video_caps stream);
           pc_audio_target := audio_target;
           pc_configuration :=
             {| dc_video_profile_id := ac_video_profile_id config;
                dc_audio_profile_id := match audio_target with Some _ => ac_audio_profile_id config | None => None end;
                dc_mode := mr_mode (sr_route request); dc_video_bitrate := ac_video_bitrate config |} |}).

(** ** Running *)

Definition source_event_generation (event : VideoSourceActorEvent) : Z :=
  match event with
  | BufferAvailable g _ _ | BufferReleased g _ => g
  | GenerationFailed report _ => VideoSource.media_generation (identity report)
  end.

Definition source_generation_is_current (active requested : Z) : outcome KernelDisplayError bool :=
  match requested ?= active with
  | Lt => Ok false
  | Eq => Ok true
  | Gt => Err (kerr "handle PipeWire source event"
                 (codes "event generation " ++ display_uint requested ++ codes "; active generation is "
                  ++ display_uint active))
  end.

Definition handle_source_event (event : VideoSourceActorEvent) : KM unit :=
  let op := "handle PipeWire source event"%string in
  let@ a := kactive in
  let@ g := klift (ok_or a (kerr op (codes "no active generation"))) in
  let@ current := klift (source_generation_is_current (ag_media_generation g) (source_event_generation event)) in
  if negb current then kret tt
  else
    match event with
    | BufferAvailable _ id transport =>
        do@ klift (reject (bool_decide (is_Some (ag_transports g !! id)))
                     (kerr op (codes "buffer " ++ display_uint id ++ codes " negotiated its transport twice")));
        do@ klift (reject (bool_decide (id ∈ ag_available g))
                     (kerr op (codes "buffer " ++ display_uint id ++ codes " became available twice")));
        set_active (Some (with_queue (with_transports g (<[id := transport]> (ag_transports g)))
                            (ag_available g ++ [id]) (ag_outstanding g) (ag_next_user_data g)))
    | BufferReleased _ id =>
        do@ klift (reject (bool_decide (ag_transports g !! id = None))
                     (kerr op (codes "buffer " ++ display_uint id
                               ++ codes " was released before transport negotiation")));
        do@ must "release CastKMS capture buffer" (release_capture_buffer (si_stream_id (ag_stream g)) id);
        do@ kact (ConsumerReturned (ag_media_generation g) id);
        set_active (Some (with_queue g (ag_available g ++ [id]) (ag_outstanding g) (ag_next_user_data g)))
    | GenerationFailed report e =>
        do@ kact (SourceFailed (ag_media_generation g));
        do@ set_active (Some (with_flags g false (ag_suspended g)));
        kraise "run PipeWire source generation" (runtime_text e)
    end.

Definition capture_queue_needs_retry (a : option ActiveGeneration) : bool :=
  match a with
  | Some g =>
      negb (ag_suspended g) && (length (ag_outstanding g) <? MAX_OUTSTANDING_CAPTURE_REQUESTS)%nat
      && negb (bool_decide (ag_available g = []))
  | None => false
  end.

Definition capture_queue_matches_frame (q : CaptureQueue) (frame : CaptureFrameEvent) : bool :=
  (fe_stream_id frame =? q_stream_id q) && (fe_buffer_id frame =? q_buffer_id q)
  && (fe_user_data frame =? q_user_data q).

Definition queue_op : string := "queue CastKMS capture buffer".

(** [None] is success. *)
Definition maybe_queue : KM (option QueueFailure) :=
  let@ a := kactive in
  match a with
  | None => kret None
  | Some g =>
      if ag_suspended g || (MAX_OUTSTANDING_CAPTURE_REQUESTS <=? length (ag_outstanding g))%nat then kret None
      else
        match ag_available g with
        | [] => kret None
        | id :: available =>
            let popped := with_queue g available (ag_outstanding g) (ag_next_user_data g) in
            do@ set_active (Some popped);
            match ag_transports g !! id with
            | None =>
                kret (Some (Fatal (kerr queue_op (codes "buffer " ++ display_uint id
                                                  ++ codes " has no negotiated PipeWire transport"))))
            | Some transport =>
                if ag_next_user_data g =? 0 then
                  kret (Some (Recoverable (kerr queue_op (codes "user-data counter overflowed"))))
                else
                  let@ queued := client (queue_capture_buffer id (ag_next_user_data g)) in
                  match queued with
                  | inr (CastkmsCapture.QueueBuffer errno) =>
                      if errno =? EBUSY then do@ set_active (Some g); kret None
                      else kret (Some (Recoverable (kerr queue_op (capture_text (CastkmsCapture.QueueBuffer errno)))))
                  | inr e => kret (Some (Recoverable (kerr queue_op (capture_text e))))
                  | inl queue =>
                      let next := default 0 (checked_add64 (ag_next_user_data g) 1) in
                      do@ kact (QueueBuffer (ag_media_generation g) id);
                      do@ set_active (Some (with_queue g available (ag_outstanding g) next));
                      let@ fence := client (arm_explicit_capture_fence (si_stream_id (ag_stream g)) id) in
                      match fence with
                      | inr e => kret (Some (Fatal (kerr "arm CastKMS capture fence" (capture_text e))))
                      | inl fence =>
                          do@ set_active (Some (with_queue g available
                                (ag_outstanding g ++
                                 [{| oc_queue := queue; oc_fence := fence; oc_transport := transport |}]) next));
                          kret None
                      end
                  end
            end
        end
  end.

Fixpoint matching (frame : CaptureFrameEvent) (l : list OutstandingCapture) : option nat :=
  match l with
  | [] => None
  | o :: l => if capture_queue_matches_frame (oc_queue o) frame then Some O else S <$> matching frame l
  end.

Definition published_frame (o : OutstandingCapture) (completion : CaptureCompletion) (frame : CaptureFrameEvent)
  : VideoFrame :=
  {| PipewireBuffers.buffer_id := q_buffer_id (cm_queue completion); sequence := fe_sequence frame;
     pts_ns := fe_timestamp_ns frame;
     damage := {| dmg_x := fe_damage_x frame; dmg_y := fe_damage_y frame; dmg_width := fe_damage_width frame;
                  dmg_height := fe_damage_height frame |};
     discontinuity := negb (fe_dropped_frames frame =? 0);
     acquire_point := match oc_transport o with Waited => None | SyncTimeline => q_ready_point (oc_queue o) end |}.

Definition handle_capture_frame (frame : CaptureFrameEvent) : KM unit :=
  let op := "handle CastKMS capture frame"%string in
  let@ a := kactive in
  let@ g := klift (ok_or a (kerr op (codes "frame arrived without an active media generation"))) in
  let@ i := klift (ok_or (matching frame (ag_outstanding g))
                     (kerr op (codes "frame identity differs from every outstanding buffer"))) in
  let@ o := klift (expect (ag_outstanding g !! i)) in
  do@ klift (reject (negb (fe_status frame =? 0)
                     || negb (fe_mode_generation frame =? si_mode_generation (ag_stream g)))
               (kerr op (codes "capture completed with status " ++ display_int (fe_status frame)
                         ++ codes " at mode generation " ++ display_uint (fe_mode_generation frame))));
  do@ klift (reject (fe_damage_x frame <? 0) (kerr "publish captured frame" (codes "negative damage x coordinate")));
  do@ klift (reject (fe_damage_y frame <? 0) (kerr "publish captured frame" (codes "negative damage y coordinate")));
  do@ klift (reject (fe_damage_width frame =? 0) (kerr "publish captured frame" (codes "zero damage width")));
  do@ klift (reject (fe_damage_height frame =? 0) (kerr "publish captured frame" (codes "zero damage height")));
  do@ (if bool_decide (oc_transport o = Waited) then
         let@ r := ksee (fun tr => fence_ready tr (oc_fence o)) in
         match r with
         | None => kraise "wait for CastKMS capture readiness"
                     (codes "timed out before publishing a waited PipeWire buffer")
         | Some r => klift (from_text "wait for CastKMS capture readiness" r)
         end
       else kret tt);
  do@ set_active (Some (with_queue g (ag_available g) (delete i (ag_outstanding g)) (ag_next_user_data g)));
  let@ completion := must "delegate CastKMS capture completion"
                       (delegate_explicit_capture_completion (oc_fence o)) in
  let@ published := ksee source_publish in
  do@ kact (Publish (ag_media_generation g) (published_frame o completion frame));
  klift (from_text "publish captured PipeWire frame" published).

(** ** Stopping *)

(** One release of the loop over the buffers the consumer had. *)
Definition reclaim (stream : CaptureStreamInfo) (b : CaptureBufferInfo) : KM (list (list Z)) :=
  if bool_decide (bi_state b = ConsumerOwned) then
    let@ r := client (release_capture_buffer (si_stream_id stream) (bi_buffer_id b)) in
    match r with
    | inl _ => do@ kact (Reclaim (bi_buffer_id b)); kret []
    | inr e => kret [codes "release consumer-owned CastKMS buffer " ++ display_uint (bi_buffer_id b) ++ codes ": "
                     ++ capture_text e]
    end
  else kret [].

Fixpoint reclaim_all (stream : CaptureStreamInfo) (l : list CaptureBufferInfo) : KM (list (list Z)) :=
  match l with
  | [] => kret []
  | b :: l => let@ f := reclaim stream b in let@ fs := reclaim_all stream l in kret (f ++ fs)
  end.

Definition release_consumer_owned (stream : CaptureStreamInfo) : KM (list (list Z)) :=
  let@ t := ktracker in
  reclaim_all stream (capture_buffers t (si_stream_id stream)).

(** The frames of a batch reach the tracker before anyone sees the batch. *)
Definition record_events (events : list CastKmsEvent) : KM (unit + list Z) := fun s =>
  let '(t, r) := record_capture_events (cs_tracker (kn_capture s)) events in
  (with_capture s {| cs_tracker := t; cs_log := cs_log (kn_capture s) |},
   match r with Ok _ => Ok (inl tt) | Err e => Ok (inr (event_text e)) | Panic => Panic end).

Definition drain_op : string := "drain CastKMS capture".

(** The loop until the deadline: [reads] are the batches that come before it. *)
Fixpoint drain_outstanding_capture (o : OutstandingCapture) (retire_silent_cancellation : bool)
    (reads : list (option (outcome (list Z) (list CastKmsEvent)))) : KM unit :=
  let q := oc_queue o in
  let@ t := ktracker in
  let@ state := klift (ok_or (bi_state <$> List.find (fun b => bi_buffer_id b =? q_buffer_id q)
                                             (capture_buffers t (q_stream_id q)))
                         (kerr drain_op (codes "queued buffer disappeared during teardown"))) in
  if bool_decide (state = Queued) && retire_silent_cancellation then
    must "retire canceled CastKMS capture" (retire_cancelled_capture_buffer q)
  else
    match reads with
    | [] => kraise drain_op (codes "timed out waiting for canceled capture completion")
    | read :: reads =>
        if bool_decide (state = CastkmsCapture.Completed) then
          let@ r := ksee (fun tr => fence_ready tr (oc_fence o)) in
          do@ match r with
              | None => kraise drain_op (codes "timed out waiting for capture-buffer readiness")
              | Some r => klift (from_text "wait for drained CastKMS capture readiness" r)
              end;
          let@ c := must "take drained CastKMS completion" (take_capture_completion (explicit_wait (oc_fence o))) in
          do@ must "release drained CastKMS completion"
                (release_capture_buffer (q_stream_id (cm_queue c)) (q_buffer_id (cm_queue c)));
          kret tt
        else if negb (bool_decide (state = Queued)) then
          kraise drain_op (codes "queued buffer entered unexpected state "
                           ++ codes match state with
                                    | CastkmsCapture.Idle => "Idle" | Queued => "Queued" | CastkmsCapture.Completed => "Completed"
                                    | ConsumerOwned => "ConsumerOwned"
                                    end)
        else
          let@ read := klift (ok_or read (kerr drain_op (codes "timed out waiting for canceled capture event"))) in
          let@ events := klift (from_text "drain CastKMS event stream" read) in
          let@ r := record_events events in
          do@ match r with inl _ => kret tt | inr e => kraise "drain CastKMS event stream" e end;
          drain_outstanding_capture o retire_silent_cancellation reads
    end.

(** The audio source and then the video source end. *)
Definition stop_generation_sources (g : ActiveGeneration) : KM (list (list Z)) :=
  let@ audio := match ag_audio_source g with
                | Some _ =>
                    let@ r := ksee audio_stop in
                    do@ kact AudioStop;
                    kret match r with
                         | Err e => [codes "shut down PipeWire audio generation: " ++ e]
                         | _ => []
                         end
                | None => kret []
                end in
  let@ video := if ag_source_active g then
                  let@ r := ksee source_stop in
                  do@ kact (SourceStop (ag_media_generation g));
                  kret match r with
                       | inl report =>
                           if bool_decide (identity report = ag_identity g) then []
                           else [codes "PipeWire stop returned another generation identity"]
                       | inr (Shutdown_ report source) =>
                           (if bool_decide (identity report = ag_identity g) then []
                            else [codes "PipeWire failed stop returned another identity"])
                           ++ [codes "shut down PipeWire generation: " ++ video_text source]
                       | inr NoActiveGeneration => []
                       | inr e => [codes "stop PipeWire generation: " ++ source_text e]
                       end
                else kret [] in
  kret (audio ++ video).

(** The wait for the fences of a stopped stream: the failures, and whether every
    fence is ready. *)
Fixpoint wait_fences (l : list OutstandingCapture) : KM (list (list Z) * bool) :=
  match l with
  | [] => kret ([], true)
  | o :: l =>
      let@ r := ksee (fun tr => fence_ready tr (oc_fence o)) in
      let@ rest := wait_fences l in
      kret match r with
           | Some (Ok _) => rest
           | Some (Err e) => ((codes "wait for stopped CastKMS capture fence: " ++ e) :: rest.1, false)
           | _ => (codes "timed out waiting for stopped CastKMS capture fence" :: rest.1, false)
           end
  end.

(** The kernel's stream ends; whether the requests it cancelled may be retired. *)
Definition stop_kernel_stream (g : ActiveGeneration) : KM (list (list Z) * bool) :=
  let@ t := ktracker in
  if bool_decide (ts_info <$> CastkmsCapture.active t = Some (ag_stream g)) then
    let@ r := client stop_capture in
    do@ kact StopStream;
    match r with
    | inr e => kret ([codes "stop CastKMS capture: " ++ capture_text e], false)
    | inl outcome =>
        if so_kernel_stream_was_gone outcome then kret ([], false)
        else
          let@ waited := wait_fences (ag_outstanding g) in
          if waited.2 then
            let@ read := ksee try_read in
            match read with
            | Ok events =>
                let@ r := record_events events in
                kret match r with
                     | inl _ => (waited.1, true)
                     | inr e => (waited.1 ++ [codes "drain completed CastKMS events after stop: " ++ e], false)
                     end
            | Err e => kret (waited.1 ++ [codes "drain completed CastKMS events after stop: " ++ e], false)
            | Panic => klift Panic
            end
          else kret waited
    end
  else kret ([], false).

Fixpoint drain_all (l : list OutstandingCapture) (retire_silent_cancellation : bool) : KM (list (list Z)) :=
  match l with
  | [] => kret []
  | o :: l =>
      let@ reads := ksee drain_reads in
      let@ r := kattempt (drain_outstanding_capture o retire_silent_cancellation reads) in
      let@ rest := drain_all l retire_silent_cancellation in
      kret (match r with inl _ => [] | inr e => [kernel_error_text e] end ++ rest)
  end.

Definition combined_kernel_failures (operation : string) (failures : list (list Z)) : outcome KernelDisplayError unit :=
  match failures with [] => Ok tt | _ => Err (kerr operation (join_failures failures)) end.

(** What is left of a generation that was taken out of the actor. *)
Definition stop_generation (g : ActiveGeneration) : KM unit :=
  let@ f1 := stop_generation_sources g in
  let@ f2 := release_consumer_owned (ag_stream g) in
  let@ stopped := stop_kernel_stream g in
  let@ f4 := drain_all (ag_outstanding g) stopped.2 in
  let@ f5 := release_consumer_owned (ag_stream g) in
  let@ finished := client (finish_retired_capture (si_stream_id (ag_stream g))) in
  do@ kact (FinishStream (match finished with inl _ => true | inr _ => false end));
  let f6 := match finished with
            | inl _ => []
            | inr e => [codes "destroy retired CastKMS capture pool: " ++ capture_text e]
            end in
  klift (combined_kernel_failures "stop capture generation" (f1 ++ f2 ++ stopped.1 ++ f4 ++ f5 ++ f6)).

Definition stop_active : KM unit :=
  let@ a := kactive in
  match a with
  | None => kret tt
  | Some g => do@ set_active None; stop_generation g
  end.

Definition fail_active (error : list Z) : KM unit :=
  let@ cleanup := kattempt stop_active in
  do@ kact (MediaFailed match cleanup with
                        | inl _ => error
                        | inr c => error ++ codes "; cleanup also failed: " ++ kernel_error_text c
                        end);
  match cleanup with
  | inl _ => kret tt
  | inr c => kraise "recover failed media generation"
               (codes "cleanup failed after media error: " ++ kernel_error_text c)
  end.

Definition require_generation (a : option ActiveGeneration) (requested : Z) : outcome KernelDisplayError ActiveGeneration :=
  match a with
  | None => Err (kerr "select capture generation" (codes "no media generation is active"))
  | Some g =>
      if ag_media_generation g =? requested then Ok g
      else Err (kerr "select capture generation"
                  (codes "requested generation " ++ display_uint requested ++ codes "; active generation is "
                   ++ display_uint (ag_media_generation g)))
  end.

End Capture.
