(* ===== verification/KernelActor.v ===== *)
(** * The kernel actor of a display (crates/pronk/src/castkms_actor.rs)

    The loop over the operations of KernelCapture: commands from the media
    driver and the slot, the poll of the display's state, the event stream of
    the grant's descriptor, the PipeWire source, and CEC messages, which become
    operations on the device.  A turn is a function of what the loop's
    [select!] took; it either continues or ends the actor. *)

From S2P Require Import Prelude Bytes Text CastkmsSys Grant Castkms CastkmsEvent CastkmsCapture CaptureClient CastkmsCec CecBridge DisplayState PipewireBuffers VideoSource MediaSession MediaPolicy DisplaySetup CastDisplaySlot DeviceSession MediaDriver KernelCapture.

(** ** Observation (crates/pronk/src/kernel_display.rs) *)

Global Instance DisplayTopology_eq_dec : EqDecision DisplayTopology.
Proof. solve_decision. Defined.
Global Instance KernelDisplayObservation_eq_dec : EqDecision KernelDisplayObservation.
Proof. solve_decision. Defined.

Definition map_route (r : ActiveOutputRoute) : ActiveRoute :=
  {| ar_target := ro_crtc_id r;
     ar_mode := {| rm_width := ro_width r; rm_height := ro_height r; rm_refresh_millihz := ro_refresh_millihz r;
                   rm_flags := ro_mode_flags r |} |}.

Definition map_topology (t : OutputTopology) : DisplayTopology :=
  {| dt_attachment := match ot_attachment t with
                      | Castkms.Attached => Attached
                      | Castkms.Detached => Detached
                      | Castkms.Unknown => UnknownAttachment
                      end;
     dt_route := map_route <$> ot_route t |}.

Definition map_grant_state (s : GrantState) : DisplayGrantState :=
  match s with
  | Castkms.Pending => Pending
  | Castkms.Active => GrantActive
  | Castkms.SuspendedNoMaster => SuspendedNoMaster
  | Castkms.SuspendedOtherMaster => SuspendedOtherMaster
  | Castkms.SuspendedForeignContent => SuspendedForeignContent
  | Castkms.Revoked => Revoked
  end.

Definition grant_state_debug (s : DisplayGrantState) : list Z :=
  codes match s with
        | Pending => "Pending" | GrantActive => "Active" | SuspendedNoMaster => "SuspendedNoMaster"
        | SuspendedOtherMaster => "SuspendedOtherMaster"
        | SuspendedForeignContent => "SuspendedForeignContent" | Revoked => "Revoked"
        end.

(** What the loop's [select!] took. *)
Inductive kernel_input :=
  | InStart (request : MediaStartRequest)
  | InActivate (media_generation : Z)
  | InSuspend (media_generation : Z)
  | InStop (media_generation : Z)
  | InDetach
  | InClosed
  | InPoll
  | InEvents (read : outcome (list Z) (list CastKmsEvent))
  | InControl (result : joined (outcome (list Z) unit))
  | InRetry
  | InSource (event : option VideoSourceActorEvent).

Section Actor.
Context `{K : CaptureKernel} `{W : KernelWorld} (lease : GrantLease) (config : CastKmsActorConfig).

Definition kcec : KM cec_part := fun s => (s, Ok (kn_cec s)).
Definition set_cec (c : cec_part) : KM unit := fun s => (with_cec s c, Ok tt).
Definition kcurrent : KM KernelDisplayObservation := fun s => (s, Ok (kn_current s)).
Definition set_current (o : KernelDisplayObservation) : KM unit := fun s => (with_current s o, Ok tt).

(** [query_grant] on the client the actor owns. *)
Definition actor_query_grant : KM (outcome CastKmsError GrantInfo) := fun s =>
  let W := {| fcntl_getfd := fun _ => Err 0; fcntl_getfl := fun _ => Err 0;
              drm_ioctl_castkms_get_grant := fun _ => reply_outcome (k_get_grant (cs_log (kn_capture s))) |} in
  (s, Ok (query_grant (H := W) lease)).

Definition query_observation : KM KernelDisplayObservation :=
  let op := "query grant-scoped display state"%string in
  let@ r := actor_query_grant in
  let@ grant := klift (omap_err (fun e => kerr op (castkms_text e)) r) in
  let@ topology := ksee (fun tr => query_output_topology (H := display_queries tr) lease) in
  let@ topology := klift (omap_err (fun e => kerr op (castkms_text e)) topology) in
  kret {| ko_topology := map_topology topology; ko_grant_state := map_grant_state (gi_state grant) |}.

Definition publish_observation (observation : KernelDisplayObservation) : KM unit :=
  let@ current := kcurrent in
  if bool_decide (observation = current) then kret tt
  else do@ set_current observation; kact (SendEvent (KernelChanged observation)).

(** ** CEC *)

(** A call on the CEC side of the client, its result as a value. *)
Definition cec_call {A} (f : CecKernel -> CecTracker -> CecTracker * outcome CastKmsError A)
    (entry : bool -> kernel_action) : KM (A + CastKmsError) := fun s =>
  let '(t, r) := f (cec_kernel (kn_trace s)) (cp_tracker (kn_cec s)) in
  (with_action (with_cec s {| cp_tracker := t; cp_bridge := cp_bridge (kn_cec s); cp_pending := cp_pending (kn_cec s) |})
     (entry (is_ok r)),
   match r with Ok a => Ok (inl a) | Err e => Ok (inr e) | Panic => Panic end).

Definition cec_must {A} (operation : string) (m : KM (A + CastKmsError)) : KM A :=
  let@ r := m in
  match r with inl a => kret a | inr e => kraise operation (castkms_text e) end.

Definition complete_transmit (event : CecTransmitEvent) (completion : CecCompletion) : KM (unit + CastKmsError) :=
  cec_call (fun K t => complete_cec_transmit K lease t event completion) (CecComplete event completion).
Definition set_transport_online (online : bool) : KM (unit + CastKmsError) :=
  cec_call (fun K t => set_cec_transport_online K lease t online) (CecOnline online).
Definition inject_message (message : list Z) : KM (unit + CastKmsError) :=
  cec_call (fun K t => (t, inject_cec_message K lease t message)) (CecInject message).
Definition bind_transport (capabilities : CecCapabilities) : KM (CecTransportBinding + CastKmsError) :=
  cec_call (fun K t => bind_cec_transport K lease t capabilities) CecBind.
Definition unbind_transport : KM (unit + CastKmsError) :=
  cec_call (fun K t => unbind_cec_transport K lease t) CecUnbind.

(** Calls that only change the tracker. *)
Definition cec_track {A} (f : CecTracker -> CecTracker * outcome CastKmsError A) : KM (A + CastKmsError) := fun s =>
  let '(t, r) := f (cp_tracker (kn_cec s)) in
  (with_cec s {| cp_tracker := t; cp_bridge := cp_bridge (kn_cec s); cp_pending := cp_pending (kn_cec s) |},
   match r with Ok a => Ok (inl a) | Err e => Ok (inr e) | Panic => Panic end).

Definition set_pending (p : option CecTransmitEvent) : KM unit :=
  let@ c := kcec in
  set_cec {| cp_tracker := cp_tracker c; cp_bridge := cp_bridge c; cp_pending := p |}.

(** [pending.take()]: the operation that ran is aborted when it is dropped. *)
Definition drop_pending : KM unit :=
  let@ c := kcec in
  match cp_pending c with
  | Some _ => do@ kact AbortControl; set_pending None
  | None => kret tt
  end.

Definition synchronize_cec_authority (authority_active : bool) : KM unit :=
  let@ c := kcec in
  if negb (is_bound (cp_tracker c)) then kret tt
  else if authority_active then
    cec_must "resume connector CEC transport authority" (set_transport_online true)
  else
    do@ drop_pending;
    cec_must "suspend connector CEC transport authority" (cec_track record_authority_suspended).

(** [bridge] is the bridge the caller found. *)
Definition handle_cec_transmit (bridge : CecBridge) (event : CecTransmitEvent) : KM unit :=
  let op := "handle CastKMS CEC transmit"%string in
  let@ c := kcec in
  do@ klift (reject (bool_decide (is_Some (cp_pending c)))
               (kerr op (codes "a Device control operation is already pending")));
  let@ admission := cec_must "record CastKMS CEC transmit" (cec_track (fun t => record_cec_transmit lease t event)) in
  match admission with
  | Stale => kret tt
  | Accepted =>
      let@ message := klift (cec_message event) in
      let@ translated := klift (omap_err (fun e : Empty_set => match e with end) (translate bridge message)) in
      let@ c := kcec in
      do@ set_cec {| cp_tracker := cp_tracker c; cp_bridge := Some translated.1; cp_pending := cp_pending c |};
      match translated.2 with
      | Acknowledge => cec_must "acknowledge CastKMS CEC transmit" (complete_transmit event succeeded)
      | NotAcknowledged =>
          cec_must "reject CastKMS CEC transmit" (complete_transmit event (not_acknowledged (te_attempts event)))
      | Reply message =>
          do@ cec_must "acknowledge CastKMS CEC request" (complete_transmit event succeeded);
          cec_must "inject CastKMS CEC response" (inject_message message)
      | Control operation =>
          do@ kact (SpawnControl operation);
          set_pending (Some event)
      end
  end.

Definition teardown_cec : KM (list (list Z)) :=
  let@ c := kcec in
  let@ f1 := match cp_pending c with
             | Some event =>
                 do@ drop_pending;
                 let@ r := complete_transmit event CastkmsCec.failed in
                 kret match r with inl _ => [] | inr e => [codes "fail pending CEC transmit: " ++ castkms_text e] end
             | None => kret []
             end in
  let@ c := kcec in
  if negb (is_bound (cp_tracker c)) then kret f1
  else
    let@ r := set_transport_online false in
    let f2 := match r with inl _ => [] | inr e => [codes "take CEC transport offline: " ++ castkms_text e] end in
    let@ r := unbind_transport in
    let f3 := match r with inl _ => [] | inr e => [codes "unbind CEC transport: " ++ castkms_text e] end in
    kret (f1 ++ f2 ++ f3).

(** ** The loop *)

Definition queue_next : KM unit :=
  let@ failure := maybe_queue in
  match failure with
  | None => kret tt
  | Some (Recoverable e) => fail_active (kernel_error_text e)
  | Some (Fatal e) => klift (Err e)
  end.

(** What a frame or an event of the source is followed by. *)
Definition then_queue (m : KM unit) : KM unit :=
  let@ r := kattempt m in
  match r with
  | inl _ => queue_next
  | inr e => fail_active (kernel_error_text e)
  end.

Definition reconcile (operation : string) (evidence : GrantStateEvidence) : KM unit :=
  do@ must operation (reconcile_grant_state lease evidence); kret tt.

(** The answer; a generation nobody waits for is stopped. *)
Definition answer_start (result : PreparedCaptureMedia + KernelDisplayError) : KM unit :=
  let@ t := ktracker in
  let incomplete_rollback :=
    match result with inl _ => false | inr _ => true end
    && (bool_decide (is_Some (CastkmsCapture.active t)) || bool_decide (is_Some (CastkmsCapture.retired t))) in
  let@ dropped := ksee reply_dropped in
  do@ (if dropped : bool then match result with inl _ => stop_active | inr _ => kret tt end
       else kact (AnswerStart (match result with inl prepared => Ok prepared | inr e => Err e end)));
  klift (reject incomplete_rollback
           (kerr "roll back failed capture start" (codes "capture resources remain owned after startup failure"))).

Definition on_start (request : MediaStartRequest) : KM unit :=
  let@ a := kactive in
  let@ result := kattempt (
    match a with
    | Some _ => kraise "start capture generation" (codes "another media generation is still active")
    | None =>
        let@ started := start_generation lease config request in
        do@ set_active (Some started.1);
        kret started.2
    end) in
  answer_start result.

(** [require_generation(..).map(|generation| generation.suspended = ..)]. *)
Definition on_select (media_generation : Z) (suspended : bool) : KM unit :=
  let@ a := kactive in
  match require_generation a media_generation with
  | Ok g =>
      do@ set_active (Some (with_flags g (ag_source_active g) suspended));
      do@ kact (if suspended then Suspend media_generation else Activated media_generation);
      kact (Answer (Ok tt))
  | Err e => kact (Answer (Err e))
  | Panic => klift Panic
  end.

Definition on_stop (media_generation : Z) : KM unit :=
  let@ a := kactive in
  let@ result := kattempt (
    match a with
    | None => kret tt
    | Some g =>
        if ag_media_generation g =? media_generation then stop_active
        else kraise "stop capture generation"
               (codes "requested generation " ++ display_uint media_generation ++ codes "; active generation is "
                ++ display_uint (ag_media_generation g))
    end) in
  kact (Answer match result with inl _ => Ok tt | inr e => Err e end).

Definition detach_display : KM (list (list Z)) :=
  let@ joined := ksee detach_joins in
  match joined with
  | JoinFailed message => kret [kernel_error_text (kerr "join CastKMS detach" message)]
  | Joined _ =>
      let@ c := kcec in
      let@ r := ksee (fun tr => detach_monitor (detach_ioctl tr) lease (cp_tracker c)) in
      do@ kact (Detach (is_ok r));
      match r with
      | Ok _ => kret []
      | Err e => kret [kernel_error_text (kerr "detach grant-scoped monitor" (castkms_text e))]
      | Panic => klift Panic
      end
  end.

Definition on_detach : KM unit :=
  let@ stopped := kattempt stop_active in
  let f1 := match stopped with inl _ => [] | inr e => [kernel_error_text e] end in
  let@ shut := ksee source_shutdown in
  do@ kact SourceShutdown;
  let f2 := match shut with Err e => [codes "shut down PipeWire source actor: " ++ e] | _ => [] end in
  let@ f3 := teardown_cec in
  let@ f4 := detach_display in
  kact (Answer (combined_kernel_failures "tear down CastKMS actor" (f1 ++ f2 ++ f3 ++ f4))).

Definition on_poll : KM unit :=
  let@ observation := query_observation in
  let@ current := kcurrent in
  let@ a := kactive in
  let grant_changed := negb (bool_decide (ko_grant_state observation = ko_grant_state current)) in
  let grant_active := bool_decide (ko_grant_state observation = GrantActive) in
  do@ (if grant_changed || (negb grant_active && bool_decide (is_Some a))
       then reconcile "reconcile CastKMS grant state" EvQuery else kret tt);
  do@ (if grant_changed then synchronize_cec_authority grant_active else kret tt);
  do@ publish_observation observation;
  if negb grant_active && bool_decide (is_Some a)
  then fail_active (codes "CastKMS grant became " ++ grant_state_debug (ko_grant_state observation))
  else kret tt.

Definition on_grant_state (event : GrantStateEvent) : KM unit :=
  let active := bool_decide (gse_state event = Castkms.Active) in
  do@ reconcile "reconcile CastKMS grant-state event" (EvEvent event);
  do@ synchronize_cec_authority active;
  let@ observation := query_observation in
  do@ publish_observation observation;
  let@ a := kactive in
  if negb active && bool_decide (is_Some a)
  then fail_active (codes "CastKMS grant became " ++ grant_state_debug (map_grant_state (gse_state event)))
  else kret tt.

Definition on_revoked : KM unit :=
  do@ synchronize_cec_authority false;
  do@ kact (SendEvent KernelRevoked);
  let@ a := kactive in
  match a with
  | None => kret tt
  | Some _ =>
      do@ reconcile "reconcile revoked CastKMS grant" EvQuery;
      fail_active (codes "CastKMS grant was revoked")
  end.

Definition on_cec_transmit (event : CecTransmitEvent) : KM unit :=
  let@ c := kcec in
  do@ (if cec_transport_online (cp_tracker c) then kret tt
       else
         let@ r := actor_query_grant in
         let@ grant := klift (omap_err (fun e => kerr "recheck CEC transmit authority" (castkms_text e)) r) in
         do@ reconcile "reconcile CEC transmit authority" EvQuery;
         if bool_decide (gi_state grant = Castkms.Active) then synchronize_cec_authority true else kret tt);
  let@ c := kcec in
  let@ bridge := klift (ok_or (cp_bridge c)
                          (kerr "handle CastKMS CEC transmit"
                             (codes "CEC event arrived without an enabled Device control port"))) in
  do@ klift (if ac_device_control config then Ok tt else Panic);
  handle_cec_transmit bridge event.

Definition on_event (event : CastKmsEvent) : KM unit :=
  match event with
  | CaptureFrame frame => then_queue (handle_capture_frame frame)
  | GrantStateChanged event => on_grant_state event
  | GrantRevoked _ => on_revoked
  | CecTransmit event => on_cec_transmit event
  | UnknownRecord _ => kret tt
  end.

Fixpoint on_batch (batch : list CastKmsEvent) : KM unit :=
  match batch with
  | [] => kret tt
  | event :: batch => do@ on_event event; on_batch batch
  end.

Definition on_events (read : outcome (list Z) (list CastKmsEvent)) : KM unit :=
  let op := "read grant-holder event stream"%string in
  let@ batch := klift (from_text op read) in
  let@ r := record_events batch in
  do@ match r with inl _ => kret tt | inr e => kraise op e end;
  on_batch batch.

Definition on_control (result : joined (outcome (list Z) unit)) : KM unit :=
  let@ c := kcec in
  let@ event := klift (expect (cp_pending c)) in
  do@ set_pending None;
  cec_must "complete Device-backed CEC transmit"
    (complete_transmit event match result with
                             | Joined (Ok _) => succeeded
                             | Joined _ => not_acknowledged (te_attempts event)
                             | JoinFailed _ => CastkmsCec.failed
                             end).

(** The guards of the branches. *)
Definition enabled (s : kernel) (input : kernel_input) : bool :=
  match input with
  | InControl _ => bool_decide (is_Some (cp_pending (kn_cec s)))
  | InRetry => capture_queue_needs_retry (kn_active s)
  | InSource _ => bool_decide (is_Some (kn_active s))
  | _ => true
  end.

(** A turn: whether the loop goes on. *)
Definition turn (input : kernel_input) : KM bool :=
  match input with
  | InStart request => do@ on_start request; kret true
  | InActivate g => do@ on_select g false; kret true
  | InSuspend g => do@ on_select g true; kret true
  | InStop g => do@ on_stop g; kret true
  | InDetach => do@ on_detach; kret false
  | InClosed => kraise "run CastKMS actor" (codes "all command handles closed without orderly detach")
  | InPoll => do@ on_poll; kret true
  | InEvents read => do@ on_events read; kret true
  | InControl result => do@ on_control result; kret true
  | InRetry => do@ queue_next; kret true
  | InSource event =>
      do@ then_queue match event with
                     | Some event => handle_source_event event
                     | None => kraise "observe PipeWire source" (codes "source actor event stream closed")
                     end;
      kret true
  end.

(** [CastKmsKernelActor::spawn] and the head of [run_actor]: the transport is
    bound and brought online when the connector has one. *)
Definition bind_cec : KM unit :=
  if ac_device_control config then
    let@ capabilities := ksee (fun tr => query_cec_capabilities (cec_kernel tr) lease) in
    let@ capabilities := klift (omap_err (fun e => kerr "query connector CEC capabilities" (castkms_text e)) capabilities) in
    match capabilities with
    | None => kret tt
    | Some capabilities =>
        do@ klift (reject (negb (cc_output_index capabilities =? ac_output_index config))
                     (kerr "validate connector CEC identity"
                        (codes "CEC output index " ++ display_uint (cc_output_index capabilities)
                         ++ codes " differs from reserved output " ++ display_uint (ac_output_index config))));
        do@ cec_must "bind connector CEC transport" (bind_transport capabilities);
        cec_must "bring connector CEC transport online" (set_transport_online true)
    end
  else kret tt.

(** The metadata and the first observation are what the display is told. *)
Definition spawn : KM (Z * KernelDisplayObservation) :=
  do@ klift (reject (negb (lease_output_index lease =? ac_output_index config))
               (kerr "validate connector output identity"
                  (codes "grant output index " ++ display_uint (lease_output_index lease)
                   ++ codes " differs from reserved output " ++ display_uint (ac_output_index config))));
  let@ initial := query_observation in
  do@ bind_cec;
  let@ registered := ksee into_async in
  do@ klift (from_text "register grant holder for Tokio readiness" registered);
  let@ video := ksee source_spawn in
  do@ klift (from_text "spawn per-display PipeWire source actor" video);
  kret (lease_grant_id lease, initial).

Definition begin_run : KM unit :=
  let@ c := kcec in
  do@ set_cec {| cp_tracker := cp_tracker c;
                 cp_bridge := if ac_device_control config && is_bound (cp_tracker c) then Some CecBridge_new else None;
                 cp_pending := None |};
  let@ observation := query_observation in
  set_current observation.

(** From the grant to the loop. *)
Definition launch : KM unit := do@ spawn; begin_run.

(** A client that has done nothing. *)
Definition unborn (observation : KernelDisplayObservation) : kernel :=
  {| kn_capture := {| cs_tracker := CaptureTracker_default; cs_log := [] |}; kn_active := None;
     kn_cec := {| cp_tracker := CecTracker_default; cp_bridge := None; cp_pending := None |};
     kn_current := observation; kn_trace := [] |}.

(** The states of the loop before a turn. *)
Inductive kernel_runs : kernel -> Prop :=
  | runs_start o s : launch (unborn o) = (s, Ok tt) -> kernel_runs s
  | runs_turn s input s' :
      kernel_runs s -> enabled s input = true -> turn input s = (s', Ok true) -> kernel_runs s'.

End Actor.
