(* ===== verification/KernelProtocol.v ===== *)
(** * The protocol of the kernel actor

    What the actor of KernelActor does, in the order it does it, follows one
    protocol ([play_next]): a source runs for one generation at a time; a buffer
    of the pool is captured into, shown to the source and given back by its
    consumer in this order, one capture at a time and only while the generation
    is not suspended; the audio source ends before the video source; and the
    kernel's stream and its buffers are taken down only when no source runs.

    The invariant ties the protocol's state to the tracker of the client
    (CapturePhases). *)

From S2P Require Import Prelude Bytes Text CastkmsSys Grant Castkms CastkmsEvent CastkmsCapture CaptureClient CaptureInvariant CaptureResources CapturePhases CastkmsCec CecBridge DisplayState PipewireBuffers VideoSource MediaSession MediaPolicy DisplaySetup CastDisplaySlot DeviceSession MediaDriver KernelCapture KernelActor.

(** ** The protocol *)

(** The source that runs: its generation, and where the buffers of its pool are. *)
Record playing := { pg_generation : Z; pg_suspended : bool; pg_phases : gmap Z phase }.

Record play := { pl_source : option playing; pl_audio : bool }.

Definition at_rest : play := {| pl_source := None; pl_audio := false |}.

(** An action of the running source's generation. *)
Definition in_generation (p : play) (generation : Z) (k : playing -> option playing) : option play :=
  match pl_source p with
  | Some r =>
      if pg_generation r =? generation then
        match k r with Some r' => Some {| pl_source := Some r'; pl_audio := pl_audio p |} | None => None end
      else None
  | None => None
  end.

Definition with_phases (r : playing) (m : gmap Z phase) : playing :=
  {| pg_generation := pg_generation r; pg_suspended := pg_suspended r; pg_phases := m |}.

(** An action that needs that no source runs. *)
Definition when_at_rest (p : play) : option play :=
  match pl_source p with None => if pl_audio p then None else Some p | Some _ => None end.

Definition play_next (p : play) (a : kernel_action) : option play :=
  match a with
  | SourceStart g started =>
      match when_at_rest p with
      | Some _ =>
          Some {| pl_source := if started
                               then Some {| pg_generation := cfg_media_generation (VideoSource.config g);
                                            pg_suspended := true; pg_phases := ∅ |}
                               else None;
                  pl_audio := false |}
      | None => None
      end
  | SourceStop generation =>
      match pl_source p with
      | Some r => if (pg_generation r =? generation) && negb (pl_audio p) then Some at_rest else None
      | None => None
      end
  | SourceFailed generation =>
      match pl_source p with
      | Some r => if pg_generation r =? generation then Some {| pl_source := None; pl_audio := pl_audio p |} else None
      | None => None
      end
  | AudioStart generation started =>
      match pl_source p with
      | Some r =>
          if (pg_generation r =? generation) && negb (pl_audio p)
          then Some {| pl_source := Some r; pl_audio := started |} else None
      | None => None
      end
  | AudioStop => if pl_audio p then Some {| pl_source := pl_source p; pl_audio := false |} else None
  | Activated generation =>
      in_generation p generation (fun r => Some {| pg_generation := pg_generation r; pg_suspended := false;
                                                   pg_phases := pg_phases r |})
  | Suspend generation =>
      in_generation p generation (fun r => Some {| pg_generation := pg_generation r; pg_suspended := true;
                                                   pg_phases := pg_phases r |})
  | QueueBuffer generation id =>
      in_generation p generation (fun r =>
        if negb (pg_suspended r) && bool_decide (pg_phases r !! id = None)
           && bool_decide (map_Forall (fun _ ph => ph <> Filling) (pg_phases r))
        then Some (with_phases r (<[id := Filling]> (pg_phases r))) else None)
  | Publish generation frame =>
      in_generation p generation (fun r =>
        if bool_decide (pg_phases r !! PipewireBuffers.buffer_id frame = Some Filling)
        then Some (with_phases r (<[PipewireBuffers.buffer_id frame := Shown]> (pg_phases r))) else None)
  | ConsumerReturned generation id =>
      in_generation p generation (fun r =>
        if bool_decide (pg_phases r !! id = Some Shown)
        then Some (with_phases r (delete id (pg_phases r))) else None)
  | Reclaim _ | StopStream | FinishStream _ | MediaFailed _ | SourceShutdown | Detach _ => when_at_rest p
  | _ => Some p
  end.

Definition play_of (tr : kernel_trace) : option play :=
  foldl (fun o a => match o with Some p => play_next p a | None => None end) (Some at_rest) tr.

Arguments play_of : simpl never.

Lemma play_snoc tr a p : play_of tr = Some p -> play_of (tr ++ [a]) = play_next p a.
Proof. unfold play_of. rewrite foldl_snoc. by intros ->. Qed.

(** What follows the protocol does so at every moment. *)
Lemma play_prefix tr tr' : is_Some (play_of (tr ++ tr')) -> is_Some (play_of tr).
Proof.
  induction tr' as [|a tr' IH] using rev_ind; [by rewrite app_nil_r|].
  rewrite app_assoc. unfold play_of at 1. rewrite foldl_snoc. fold (play_of (tr ++ tr')).
  intros [p Hp]. apply IH. destruct (play_of (tr ++ tr')); [by eexists|done].
Qed.

(** ** Triples *)

Definition following (s : kernel) : Prop := is_Some (play_of (kn_trace s)).

Definition kwp {A} (m : KM A) (Q : A -> kernel -> Prop) (E : kernel -> Prop) (s : kernel) : Prop :=
  match m s with
  | (s', Ok a) => Q a s'
  | (s', Err _) => E s'
  | (s', Panic) => following s'
  end.

Lemma kwp_ret {A} (a : A) (Q : A -> kernel -> Prop) E s : Q a s -> kwp (kret a) Q E s.
Proof. done. Qed.
Lemma kwp_raise {A} op msg (Q : A -> kernel -> Prop) (E : kernel -> Prop) s : E s -> kwp (kraise op msg) Q E s.
Proof. done. Qed.
Lemma kwp_bind {A B} (m : KM A) (k : A -> KM B) Q E s :
  kwp m (fun a => kwp (k a) Q E) E s -> kwp (kbind m k) Q E s.
Proof. unfold kwp, kbind. by destruct (m s) as [s' [a|e|]]. Qed.
Lemma kwp_weaken {A} (m : KM A) (Q Q' : A -> kernel -> Prop) (E E' : kernel -> Prop) s :
  kwp m Q E s -> (forall a s', Q a s' -> Q' a s') -> (forall s', E s' -> E' s') -> kwp m Q' E' s.
Proof. unfold kwp. destruct (m s) as [s' [a|e|]]; auto. Qed.
Lemma kwp_klift {A} (o : outcome KernelDisplayError A) (Q : A -> kernel -> Prop) (E : kernel -> Prop) s :
  (forall a, o = Ok a -> Q a s) -> E s -> following s -> kwp (klift o) Q E s.
Proof. unfold kwp, klift. destruct o; auto. Qed.
Lemma kwp_reject (c : bool) e (Q : unit -> kernel -> Prop) (E : kernel -> Prop) s :
  E s -> (c = false -> Q tt s) -> kwp (klift (reject c e)) Q E s.
Proof. unfold kwp, klift. destruct c; cbn; auto. Qed.
Lemma kwp_ok_or {A} (o : option A) e (Q : A -> kernel -> Prop) (E : kernel -> Prop) s :
  E s -> (forall a, o = Some a -> Q a s) -> kwp (klift (ok_or o e)) Q E s.
Proof. unfold kwp, klift. destruct o; cbn; auto. Qed.
Lemma kwp_see {A} (f : kernel_trace -> A) Q E s : Q (f (kn_trace s)) s -> kwp (ksee f) Q E s.
Proof. done. Qed.
Lemma kwp_active Q E s : Q (kn_active s) s -> kwp kactive Q E s.
Proof. done. Qed.
Lemma kwp_tracker Q E s : Q (cs_tracker (kn_capture s)) s -> kwp ktracker Q E s.
Proof. done. Qed.
Lemma kwp_set_active a (Q : unit -> kernel -> Prop) E s : Q tt (with_active s a) -> kwp (set_active a) Q E s.
Proof. done. Qed.
Lemma kwp_act a (Q : unit -> kernel -> Prop) E s : Q tt (with_action s a) -> kwp (kact a) Q E s.
Proof. done. Qed.
Lemma kwp_attempt {A} (m : KM A) Q (E : kernel -> Prop) s :
  kwp m (fun a => Q (inl a)) (fun s' => forall e, Q (inr e) s') s -> kwp (kattempt m) Q E s.
Proof. unfold kwp, kattempt. destruct (m s) as [s' [a|e|]]; auto. Qed.
Lemma kwp_client {A} (m : M A) Q (E : kernel -> Prop) s : 
  wp m (fun a c => Q (inl a) (with_capture s c)) (fun c => forall e, Q (inr e) (with_capture s c)) (kn_capture s) ->
  kwp (client m) Q E s.
Proof. unfold kwp, client, wp. by destruct (m (kn_capture s)) as [c [a|e|]]. Qed.

Lemma wp_and {A} (m : M A) Q Q' (E E' : capture_state -> Prop) c :
  wp m Q E c -> wp m Q' E' c -> wp m (fun a c' => Q a c' /\ Q' a c') (fun c' => E c' /\ E' c') c.
Proof. unfold wp. destruct (m c) as [c' [a|e|]]; auto. Qed.

Abbreviation kt s := (cs_tracker (kn_capture s)).

(** An operation of the client, whatever its result. *)
Definition tracked {A} (m : M A) : Prop :=
  forall c, tracker_ok (cs_tracker c) ->
    wp m (fun _ => reaches tstep (cs_tracker c)) (reaches tstep (cs_tracker c)) c.

Lemma reaches_ok t c : tracker_ok t -> reaches tstep t c -> tracker_ok (cs_tracker c).
Proof. intros Ht Hr. by eapply tsteps_follow. Qed.

Section Tracked.
Context `{K : CaptureKernel} (lease : GrantLease).

Lemma tracked_neutral {A} (m : M A) :
  (forall c, tracker_ok (cs_tracker c) ->
     wp m (fun _ => reaches nstep (cs_tracker c)) (reaches nstep (cs_tracker c)) c) -> tracked m.
Proof.
  intros Hm c Hc. eapply wp_weaken; [by apply Hm|intros ? ?; apply nsteps_tsteps|apply nsteps_tsteps].
Qed.

Lemma tracked_quiet {A} (m : M A) : quiet m -> tracked m.
Proof. intros Hm c Hc. apply wp_after; [done|apply reaches_refl]. Qed.

Lemma tracked_queue id ud : tracked (queue_capture_buffer id ud).
Proof. apply tracked_neutral. intros. by apply wp_queue. Qed.
Lemma tracked_take ready : tracked (take_capture_completion ready).
Proof. apply tracked_neutral. intros. by apply wp_take. Qed.
Lemma tracked_delegate fence : tracked (delegate_explicit_capture_completion fence).
Proof. apply tracked_neutral. intros. by apply wp_delegate. Qed.
Lemma tracked_release sid id : tracked (release_capture_buffer sid id).
Proof. apply tracked_neutral. intros. by apply wp_release. Qed.
Lemma tracked_stop : tracked stop_capture.
Proof. apply tracked_neutral. intros. by apply wp_stop. Qed.
Lemma tracked_reconcile e : tracked (reconcile_grant_state lease e).
Proof. apply tracked_neutral. intros. by apply wp_reconcile. Qed.
Lemma tracked_cancelled q : tracked (retire_cancelled_capture_buffer q).
Proof. apply tracked_neutral. intros. by apply wp_cancelled. Qed.
Lemma tracked_start caps mode : tracked (CaptureClient.start_capture lease caps mode).
Proof. apply tracked_neutral. intros. by apply wp_start. Qed.
Lemma tracked_finish sid : tracked (finish_retired_capture sid).
Proof. intros c Hc. apply wp_finish. Qed.
Lemma tracked_allocate sync : tracked (allocate_linear_xrgb8888_buffer sync).
Proof.
  intros c Hc. eapply wp_weaken; [by apply wp_allocate|intros ? ?; apply asteps_tsteps|apply asteps_tsteps].
Qed.
Lemma header_no_panic crtc q : validate_capability_header lease crtc q <> Panic.
Proof.
  unfold validate_capability_header.
  repeat match goal with |- context [reject ?c _] => destruct c; cbn [reject obind]; [done|] end. done.
Qed.
Lemma formats_no_panic raw : check_formats raw <> Panic.
Proof.
  induction raw as [|f raw IH]; simpl; [done|]. destruct (_ || _); cbn [reject obind]; [done|].
  by destruct (check_formats raw).
Qed.
Lemma quiet_capabilities crtc : quiet (query_capture_capabilities lease crtc).
Proof.
  unfold query_capture_capabilities. apply quiet_bind; [auto with quiet|intros _].
  apply quiet_bind; [auto with quiet|intros r1]. apply quiet_bind; [auto with quiet|intros [q l]].
  apply quiet_bind; [apply quiet_lift, header_no_panic|intros _].
  apply quiet_bind; [auto with quiet|intros _]. apply quiet_bind; [auto with quiet|intros _].
  apply quiet_bind; [auto with quiet|intros r2]. apply quiet_bind; [auto with quiet|intros [q' l']].
  apply quiet_bind; [apply quiet_lift, header_no_panic|intros _].
  apply quiet_bind; [auto with quiet|intros _]. apply quiet_bind; [auto with quiet|intros _].
  apply quiet_bind; [apply quiet_lift, formats_no_panic|intros; apply quiet_ret].
Qed.
End Tracked.

Create HintDb tracked.
#[export] Hint Resolve tracked_queue tracked_take tracked_delegate tracked_release tracked_stop
  tracked_reconcile tracked_cancelled tracked_start tracked_finish tracked_allocate : tracked.
#[export] Hint Extern 2 (tracked (query_capture_capabilities _ _)) => apply tracked_quiet, quiet_capabilities : tracked.
#[export] Hint Extern 2 (tracked (export_capture_buffer _ _)) => apply tracked_quiet, quiet_export : tracked.
#[export] Hint Extern 2 (tracked (arm_explicit_capture_fence _ _)) => apply tracked_quiet, quiet_arm : tracked.

(** ** The actor without a generation *)

Definition resting (s : kernel) : Prop :=
  tracker_ok (kt s) /\ play_of (kn_trace s) = Some at_rest /\ kn_active s = None.

Lemma resting_following s : resting s -> following s.
Proof. intros (_ & H & _). by eexists. Qed.

(** An operation that rests before and after. *)
Definition steady {A} (m : KM A) : Prop := forall s, resting s -> kwp m (fun _ => resting) resting s.

Lemma steady_ret {A} (a : A) : steady (kret a).
Proof. by intros s Hs. Qed.
Lemma steady_raise {A} op msg : steady (kraise (A:=A) op msg).
Proof. by intros s Hs. Qed.
Lemma steady_bind {A B} (m : KM A) (k : A -> KM B) : steady m -> (forall a, steady (k a)) -> steady (kbind m k).
Proof.
  intros Hm Hk s Hs. apply kwp_bind. eapply kwp_weaken; [by apply Hm| |done]. intros a s' Hs'. by apply Hk.
Qed.
Lemma steady_klift {A} (o : outcome KernelDisplayError A) : steady (klift o).
Proof. intros s Hs. apply kwp_klift; [done..|by apply resting_following]. Qed.
Lemma steady_see {A} (f : kernel_trace -> A) : steady (ksee f).
Proof. by intros s Hs. Qed.
Lemma steady_tracker : steady ktracker.
Proof. by intros s Hs. Qed.
Lemma steady_active : steady kactive.
Proof. by intros s Hs. Qed.
Lemma steady_attempt {A} (m : KM A) : steady m -> steady (kattempt m).
Proof. intros Hm s Hs. apply kwp_attempt. eapply kwp_weaken; [by apply Hm|done|done]. Qed.
Lemma steady_act a : play_next at_rest a = Some at_rest -> steady (kact a).
Proof. intros Ha s (Ht & Hp & Hn). split_and!; simpl; [done|by rewrite (play_snoc _ _ _ Hp)|done]. Qed.
Lemma steady_client {A} (m : M A) : tracked m -> steady (client m).
Proof.
  intros Hm s (Ht & Hp & Hn). apply kwp_client. eapply wp_weaken; [by apply Hm|..].
  - intros a c Hc. split_and!; [by eapply reaches_ok|done|done].
  - intros c Hc e. split_and!; [by eapply reaches_ok|done|done].
Qed.
Lemma steady_must `{KernelWorld} {A} op (m : M A) : tracked m -> steady (must op m).
Proof.
  intros Hm. apply steady_bind; [by apply steady_client|]. intros [a|e]; [apply steady_ret|apply steady_raise].
Qed.
Lemma steady_record `{KernelWorld} events : steady (record_events events).
Proof.
  intros s (Ht & Hp & Hn). unfold kwp, record_events.
  pose proof (events_keep events (kt s) Ht) as [Ht' _].
  destruct (record_capture_events (kt s) events) as [t [[]|e|]]; simpl in Ht'; [by split_and!..|].
  by eexists.
Qed.

Create HintDb steady.
#[export] Hint Resolve steady_ret steady_raise steady_bind steady_klift steady_see steady_tracker steady_active
  steady_attempt steady_record : steady.
#[export] Hint Extern 2 (steady (client _)) => apply steady_client; auto with tracked : steady.
#[export] Hint Extern 2 (steady (must _ _)) => apply steady_must; auto with tracked : steady.
#[export] Hint Extern 2 (steady (kact _)) => apply steady_act; reflexivity : steady.
#[export] Hint Extern 4 (steady (match ?x with _ => _ end)) => destruct x : steady.
#[export] Hint Extern 1 => progress intros : steady.

Section Protocol.
Context `{K : CaptureKernel} `{W : KernelWorld} (lease : GrantLease) (config : CastKmsActorConfig).

(** *** Rolling back and taking down *)

Lemma steady_rollback stream : steady (rollback_unpublished stream).
Proof. unfold rollback_unpublished. auto 20 with steady. Qed.

Lemma steady_reclaim stream l : steady (reclaim_all stream l).
Proof. induction l as [|b l IH]; simpl; [auto with steady|]. unfold reclaim. auto 20 with steady. Qed.

Lemma steady_release_owned stream : steady (release_consumer_owned stream).
Proof. unfold release_consumer_owned. auto using steady_reclaim with steady. Qed.

Lemma steady_wait l : steady (wait_fences l).
Proof. induction l as [|o l IH]; simpl; auto 20 with steady. Qed.

Lemma steady_stop_stream g : steady (stop_kernel_stream g).
Proof. unfold stop_kernel_stream. auto 30 using steady_wait with steady. Qed.

Lemma steady_drain o retire reads : steady (drain_outstanding_capture o retire reads).
Proof. induction reads as [|r reads IH]; simpl; auto 30 with steady. Qed.

Lemma steady_drain_all l retire : steady (drain_all l retire).
Proof. induction l as [|o l IH]; simpl; [auto with steady|]. auto 20 using steady_drain with steady. Qed.

(** What a stop can start from: the source of the generation runs, or it failed. *)
Definition stoppable (g : ActiveGeneration) (p : play) : Prop :=
  pl_audio p = bool_decide (is_Some (ag_audio_source g)) /\
  match pl_source p with
  | Some r => ag_source_active g = true /\ pg_generation r = ag_media_generation g
  | None => ag_source_active g = false
  end.

Definition can_stop (s : kernel) : Prop :=
  tracker_ok (kt s) /\
  match kn_active s with
  | Some g => exists p, play_of (kn_trace s) = Some p /\ stoppable g p
  | None => play_of (kn_trace s) = Some at_rest
  end.

Lemma stop_sources_rest g p s :
  tracker_ok (kt s) -> kn_active s = None -> play_of (kn_trace s) = Some p -> stoppable g p ->
  kwp (stop_generation_sources g) (fun _ => resting) resting s.
Proof.
  intros Ht Hn Hp [Ha Hs]. unfold stop_generation_sources.
  assert (kwp match ag_audio_source g with
              | Some _ =>
                  let@ r := ksee audio_stop in
                  do@ kact AudioStop;
                  kret match r with
                       | Err e => [codes "shut down PipeWire audio generation: " ++ e]
                       | _ => []
                       end
              | None => kret []
              end
            (fun _ s' => tracker_ok (kt s') /\ kn_active s' = None /\
               play_of (kn_trace s') = Some {| pl_source := pl_source p; pl_audio := false |}) resting s) as Hau.
  { destruct p as [src au]. simpl in Ha. destruct (ag_audio_source g) as [i|].
    - rewrite bool_decide_true in Ha by done. subst au.
      apply kwp_bind, kwp_see, kwp_bind, kwp_act, kwp_ret. split_and!; [done..|].
      simpl. by rewrite (play_snoc _ _ _ Hp).
    - rewrite bool_decide_false in Ha by (by intros []). subst au. by apply kwp_ret. }
  apply kwp_bind. eapply kwp_weaken; [exact Hau| |done]. clear Hau. intros f1 s1 (Ht1 & Hn1 & Hp1).
  apply kwp_bind. destruct (pl_source p) as [r|] eqn:Hsrc.
  - destruct Hs as [Hact Hg]. rewrite Hact. apply kwp_bind, kwp_see, kwp_bind, kwp_act, kwp_ret, kwp_ret.
    split_and!; [done| |done]. simpl. rewrite (play_snoc _ _ _ Hp1). simpl. by rewrite Hg, Z.eqb_refl.
  - rewrite Hs. by apply kwp_ret, kwp_ret.
Qed.

Lemma stop_generation_rests g p s :
  tracker_ok (kt s) -> kn_active s = None -> play_of (kn_trace s) = Some p -> stoppable g p ->
  kwp (stop_generation g) (fun _ => resting) resting s.
Proof.
  intros Ht Hn Hp Hs. unfold stop_generation. apply kwp_bind.
  eapply kwp_weaken; [by eapply stop_sources_rest| |done]. intros f1 s1 H1. revert s1 H1.
  match goal with |- forall s, _ -> kwp ?m _ _ s => change (steady m) end.
  auto 30 using steady_release_owned, steady_stop_stream, steady_drain_all with steady.
Qed.

Lemma stop_active_rests s : can_stop s -> kwp stop_active (fun _ => resting) resting s.
Proof.
  intros [Ht Hs]. apply kwp_bind, kwp_active. destruct (kn_active s) as [g|] eqn:Hg.
  - destruct Hs as (p & Hp & Hst). apply kwp_bind, kwp_set_active. by eapply stop_generation_rests.
  - by apply kwp_ret.
Qed.

Lemma fail_active_rests e s : can_stop s -> kwp (fail_active e) (fun _ => resting) resting s.
Proof.
  intros Hs. apply kwp_bind, kwp_attempt. eapply kwp_weaken; [by apply stop_active_rests| |].
  - intros a s1 H1. revert s1 H1.
    match goal with |- forall s, _ -> kwp ?m _ _ s => change (steady m) end. auto 10 with steady.
  - intros s1 H1 e1. revert s1 H1.
    match goal with |- forall s, _ -> kwp ?m _ _ s => change (steady m) end. auto 10 with steady.
Qed.


(** *** Starting *)

(** The stream has just been started; no buffer was used. *)
Definition untouched (stream : CaptureStreamInfo) (s : kernel) : Prop :=
  unused (kt s) /\ forall st, CastkmsCapture.active (kt s) = Some st -> ts_info st = stream.

Definition fresh (stream : CaptureStreamInfo) (s : kernel) : Prop := resting s /\ untouched stream s.

(** The source of the generation runs. *)
Definition running (generation : Z) (audio : bool) : play :=
  {| pl_source := Some {| pg_generation := generation; pg_suspended := true; pg_phases := ∅ |}; pl_audio := audio |}.

Definition starting (stream : CaptureStreamInfo) (generation : Z) (audio : bool) (s : kernel) : Prop :=
  tracker_ok (kt s) /\ kn_active s = None /\ play_of (kn_trace s) = Some (running generation audio) /\
  untouched stream s.

Lemma starting_following stream g audio s : starting stream g audio s -> following s.
Proof. intros (_ & _ & H & _). by eexists. Qed.

Lemma kwp_rollback {A} stream (m : KM A) Q s : kwp m Q resting s -> kwp (or_rollback stream m) Q resting s.
Proof.
  intros Hm. apply kwp_bind, kwp_attempt. eapply kwp_weaken; [exact Hm|intros; by apply kwp_ret|].
  intros s1 H1 e. apply kwp_bind. eapply kwp_weaken; [by apply steady_rollback| |done].
  intros ? s2 H2. apply kwp_klift; [done|done|by apply resting_following].
Qed.

Lemma stop_started_rests stream g s : starting stream g false s ->
  kwp (stop_started_source g) (fun _ => resting) resting s.
Proof.
  intros (Ht & Hn & Hp & _). apply kwp_bind, kwp_see, kwp_bind, kwp_act.
  assert (resting (with_action s (SourceStop g))) as Hr.
  { split_and!; [done| |done]. simpl. rewrite (play_snoc _ _ _ Hp). simpl. by rewrite Z.eqb_refl. }
  revert Hr. generalize (with_action s (SourceStop g)).
  match goal with |- forall s, _ -> kwp ?m _ _ s => change (steady m) end. auto 10 with steady.
Qed.

Lemma kwp_rollback_source {A} stream g (m : KM A) Q s :
  kwp m Q (starting stream g false) s -> kwp (or_rollback_source stream g m) Q resting s.
Proof.
  intros Hm. apply kwp_bind, kwp_attempt. eapply kwp_weaken; [exact Hm|intros; by apply kwp_ret|].
  intros s1 H1 e. apply kwp_bind. eapply kwp_weaken; [by eapply stop_started_rests| |done].
  intros ? s2 H2. apply kwp_bind. eapply kwp_weaken; [by apply steady_rollback| |done].
  intros ? s3 H3. apply kwp_klift; [done|done|by apply resting_following].
Qed.

Lemma allocate_fresh stream n : forall index s, fresh stream s ->
  kwp (allocate_pool n index stream) (fun _ => fresh stream) resting s.
Proof.
  induction n as [|n IH]; intros index s Hs; [by apply kwp_ret|]. simpl.
  apply kwp_bind, kwp_client. destruct Hs as [(Ht & Hp & Hn) [Hu Hi]].
  assert (forall c, reaches astep (kt s) c -> fresh stream (with_capture s c)) as Hc.
  { intros c Hr. destruct (asteps_allocate _ _ Hr) as [Hu' Hs']. split; split; auto; simpl.
    - eapply reaches_ok; [done|by apply asteps_tsteps].
    - intros st Hst. destruct (Hs' st Hst) as (st0 & H0 & ->). auto. }
  eapply wp_weaken; [by apply wp_allocate|..].
  - intros b c [Hr Hf]%Hc. apply kwp_bind, kwp_reject; [done|]. intros _.
    apply kwp_bind. eapply kwp_weaken; [by apply IH| |done]. intros l s2 H2. by apply kwp_ret.
  - intros c [Hr Hf]%Hc e. by apply kwp_raise.
Qed.

Lemma export_fresh stream l : forall s, fresh stream s ->
  kwp (export_video_buffers stream l) (fun _ => fresh stream) resting s.
Proof.
  induction l as [|b l IH]; intros s Hs; [by apply kwp_ret|]. simpl.
  apply kwp_bind, kwp_bind, kwp_client. apply wp_quiet; [apply quiet_export| |].
  - intros e c Hc. assert (fresh stream (with_capture s c)) as Hf.
    { unfold fresh, resting, untouched in *. simpl. by rewrite Hc. }
    apply kwp_ret. apply kwp_bind, kwp_reject; [by destruct Hf|]. intros _.
    apply kwp_bind. eapply kwp_weaken; [by apply IH| |done]. intros l' s2 H2. by apply kwp_ret.
  - intros c Hc e. apply kwp_raise. destruct Hs as [Hr _]. unfold resting in *. simpl. by rewrite Hc.
Qed.

Lemma prepare_fresh stream request s : fresh stream s ->
  kwp (prepare_pool stream request) (fun _ => fresh stream) resting s.
Proof.
  intros Hs. unfold prepare_pool.
  apply kwp_bind, kwp_rollback, kwp_klift; [|by destruct Hs|by apply resting_following; destruct Hs]. intros _ _.
  apply kwp_bind, kwp_rollback. eapply kwp_weaken; [by apply allocate_fresh| |done]. intros l s1 H1.
  apply kwp_bind, kwp_rollback, kwp_bind, kwp_see.
  destruct (start_cancelled _); [apply kwp_raise; by destruct H1|apply kwp_ret].
  apply kwp_bind, kwp_rollback, kwp_bind, kwp_see.
  destruct (producer_remote _); [apply kwp_raise; by destruct H1|].
  apply kwp_klift; [|by destruct H1|by apply resting_following; destruct H1]. intros _ _.
  by apply kwp_rollback, export_fresh.
Qed.

Lemma audio_starts stream g s : starting stream g false s ->
  kwp (start_optional_kernel_audio_source config g)
      (fun i => starting stream g (bool_decide (is_Some i))) (starting stream g false) s.
Proof.
  intros Hs. unfold start_optional_kernel_audio_source. pose proof (starting_following _ _ _ _ Hs) as Hf.
  destruct (ac_audio_profile_id config); [|by apply kwp_ret].
  apply kwp_bind, kwp_see, kwp_bind, kwp_klift; [intros _ _|done|done].
  apply kwp_bind, kwp_see, kwp_bind, kwp_klift; [intros _ _|done|done].
  apply kwp_bind, kwp_see, kwp_bind, kwp_act, kwp_bind. destruct Hs as (Ht & Hn & Hp & Hu).
  assert (forall b, starting stream g b (with_action s (AudioStart g b))) as Hst.
  { intros b. split_and!; try done. simpl. rewrite (play_snoc _ _ _ Hp). simpl. by rewrite Z.eqb_refl. }
  destruct (audio_start (kn_trace s)) as [i|e|] eqn:Ha; [|exact (Hst false)|].
  2: { apply (starting_following _ _ _ _ (Hst false)). }
  change (kwp (kret i) (fun i => kwp (if VideoSource.media_generation i =? g then kret (Some i)
    else do@ kact AudioStop;
         kraise "start PipeWire audio source" (codes "audio source returned a stale media generation"))
    (fun i => starting stream g (bool_decide (is_Some i))) (starting stream g false)) (starting stream g false)
    (with_action s (AudioStart g true))).
  apply kwp_ret. destruct (_ =? _); [apply kwp_ret, (Hst true)|]. apply kwp_bind, kwp_act, kwp_raise.
  destruct (Hst true) as (Ht' & Hn' & Hp' & Hu'). split_and!; try done.
  simpl in *. by rewrite (play_snoc _ _ _ Hp').
Qed.


Lemma sources_start stream g buffers s : fresh stream s ->
  kwp (start_sources lease config stream g buffers)
      (fun r => starting stream g (bool_decide (is_Some r.2))) resting s.
Proof.
  intros [(Ht & Hp & Hn) Hu]. unfold start_sources.
  apply kwp_bind, kwp_rollback, kwp_bind, kwp_see, kwp_bind, kwp_act.
  match goal with |- kwp _ _ _ (with_action s (SourceStart ?v _)) => set (v0 := v) end.
  assert (cfg_media_generation (VideoSource.config v0) = g) as Hv by done. clearbody v0.
  assert (forall b, play_of (kn_trace s ++ [SourceStart v0 b]) = Some (if b then running g false else at_rest)) as Hb.
  { intros b. rewrite (play_snoc _ _ _ Hp). simpl. rewrite Hv. by destruct b. }
  destruct (source_start (kn_trace s)) as [i|e|];
    [|by split_and!; [|exact (Hb false)|]|by eexists; exact (Hb false)].
  match goal with |- kwp _ ?Q ?E ?z => change (kwp (kret i) Q E z) end. apply kwp_ret. simpl.
  assert (starting stream g false (with_action s (SourceStart v0 true))) as Hs by (by split_and!; [| |exact (Hb true)|]).
  revert Hs. generalize (with_action s (SourceStart v0 true)). clear s Ht Hp Hn Hu Hb. intros s Hs.
  apply kwp_bind, kwp_rollback_source, kwp_bind, kwp_see.
  destruct (start_cancelled _); [by apply kwp_raise|apply kwp_ret].
  apply kwp_bind, kwp_rollback_source. destruct (_ =? _); [apply kwp_ret|by apply kwp_raise].
  apply kwp_bind, kwp_rollback_source. eapply kwp_weaken; [by apply audio_starts| |done]. intros audio s1 H1.
  apply kwp_bind, kwp_rollback_source, kwp_bind, kwp_see.
  destruct (start_cancelled _); [|by apply kwp_ret, kwp_ret].
  apply kwp_bind. destruct audio as [a|].
  - rewrite bool_decide_true in H1 by done. apply kwp_act, kwp_raise. destruct H1 as (Ht & Hn & Hp & Hu).
    split_and!; try done. simpl. by rewrite (play_snoc _ _ _ Hp).
  - rewrite bool_decide_false in H1 by (by intros []). by apply kwp_ret, kwp_raise.
Qed.

(** The invariant of a generation: the actor's view is the tracker's and the protocol's. *)
Definition stream_of (g : ActiveGeneration) : Z := si_stream_id (ag_stream g).

Record showing (g : ActiveGeneration) (t : CaptureTracker) (m : gmap Z phase) : Prop := {
  sh_active st : CastkmsCapture.active t = Some st -> si_stream_id (ts_info st) = stream_of g;
  sh_phase id : phase_in t (stream_of g) id = m !! id;
  sh_filling id : m !! id = Some Filling -> exists o, o ∈ ag_outstanding g /\ q_buffer_id (oc_queue o) = id;
  sh_fence o : o ∈ ag_outstanding g ->
    ef_stream_id (oc_fence o) = stream_of g /\ ef_buffer_id (oc_fence o) = q_buffer_id (oc_queue o);
  sh_one : (length (ag_outstanding g) <= MAX_OUTSTANDING_CAPTURE_REQUESTS)%nat }.

Definition play_with (g : ActiveGeneration) (m : gmap Z phase) : play :=
  {| pl_source := Some {| pg_generation := ag_media_generation g; pg_suspended := ag_suspended g; pg_phases := m |};
     pl_audio := bool_decide (is_Some (ag_audio_source g)) |}.

Definition shows (g : ActiveGeneration) (s : kernel) : Prop :=
  tracker_ok (kt s) /\ ag_source_active g = true /\
  exists m, play_of (kn_trace s) = Some (play_with g m) /\ showing g (kt s) m.

Definition kernel_ok (s : kernel) : Prop :=
  match kn_active s with
  | Some g => shows g s
  | None => resting s
  end.

Lemma generation_starts request s : resting s ->
  kwp (start_generation lease config request)
      (fun r s' => kn_active s' = None /\ shows r.1 s') resting s.
Proof.
  intros Hs. unfold start_generation. pose proof (resting_following _ Hs) as Hf.
  apply kwp_bind, kwp_reject; [done|intros _]. apply kwp_bind, kwp_reject; [done|intros _].
  apply kwp_bind, kwp_reject; [done|intros _]. apply kwp_bind, kwp_bind, kwp_see.
  destruct (start_cancelled _); [by apply kwp_raise|apply kwp_ret].
  apply kwp_bind. eapply kwp_weaken; [apply steady_must; [auto with tracked|exact Hs]| |done].
  intros caps s1 H1. apply kwp_bind, kwp_reject; [done|intros _].
  apply kwp_bind, kwp_bind, kwp_client.
  eapply wp_weaken;
    [apply wp_and; [apply start_unused|apply tracked_start; exact (proj1 H1)]|cbn beta..].
  2: { intros c [_ Hc] e. apply kwp_raise. destruct H1 as (Ht & Hp & Hn).
       split_and!; [by eapply reaches_ok|done|done]. }
  intros stream c [[Hu (st & Hst & Hi)] Hc]. apply kwp_ret.
  assert (fresh stream (with_capture s1 c)) as H2.
  { destruct H1 as (Ht & Hp & Hn). split; split_and!; simpl; try done; [by eapply reaches_ok|].
    intros st' Hst'. rewrite Hst in Hst'. injection Hst' as <-. done. }
  apply kwp_bind. eapply kwp_weaken; [by apply prepare_fresh| |done]. intros buffers s2 H3.
  apply kwp_bind. eapply kwp_weaken; [by apply sources_start| |done].
  intros [identity audio] s3 (Ht3 & Hn3 & Hp3 & Hu3 & Hi3). apply kwp_ret. simpl. split; [done|].
  split_and!; [done|done|]. exists ∅. split; [exact Hp3|]. split; simpl.
  - intros st' Hst'%Hi3. unfold stream_of. simpl. by rewrite Hst'.
  - intros id. rewrite lookup_empty. by apply unused_phase.
  - intros id. by rewrite lookup_empty.
  - intros o Ho. by apply not_elem_of_nil in Ho.
  - lia.
Qed.


(** *** Running *)

Lemma arm_fence sid id c :
  wp (arm_explicit_capture_fence sid id)
     (fun f c' => cs_tracker c' = cs_tracker c /\ ef_stream_id f = sid /\ ef_buffer_id f = id)
     (reaches keeps_phases (cs_tracker c)) c.
Proof.
  remember (cs_tracker c) as t eqn:Hs. symmetry in Hs. unfold arm_explicit_capture_fence.
  apply wp_named_buffer; [done|]. intros st b _ _.
  apply wp_bind_quiet; [destruct (tb_synchronization b); auto with quiet|done|]. intros p c1 H1.
  apply wp_bind_quiet; [apply quiet_queued_of|done|]. intros q c2 H2.
  do 5 wq. wif Hc; [wq; apply wp_raise; by apply reaches_same|]. by apply wp_ret.
Qed.

Lemma showing_keeps g t t' m : showing g t m -> keeps_phases t t' -> showing g t' m.
Proof.
  intros [Ha Hp Hf Ho Hl] [Hs Hk]. split; [|by intros; rewrite Hk|done..].
  intros st (st0 & H0 & ->)%Hs. auto.
Qed.

(** The fields of the generation the invariant does not depend on. *)
Lemma shows_same g g' s :
  ag_media_generation g' = ag_media_generation g -> ag_stream g' = ag_stream g ->
  ag_audio_source g' = ag_audio_source g -> ag_source_active g' = ag_source_active g ->
  ag_suspended g' = ag_suspended g -> ag_outstanding g' = ag_outstanding g ->
  shows g s -> shows g' s.
Proof.
  intros H1 H2 H3 H4 H5 H6 (Ht & Hs & m & Hp & [Ha Hph Hf Ho Hl]). split_and!; [done|congruence|].
  exists m. unfold play_with, stream_of in *. rewrite H1, H3, H5. split; [done|].
  split; unfold stream_of; by rewrite ?H2, ?H6.
Qed.

Lemma shows_following g s : shows g s -> following s.
Proof. intros (_ & _ & m & Hp & _). by eexists. Qed.

Lemma shows_can_stop g s : kn_active s = Some g -> shows g s -> can_stop s.
Proof.
  intros Hg (Ht & Hs & m & Hp & _). split; [done|]. rewrite Hg. exists (play_with g m). by split.
Qed.

Lemma ok_can_stop s : kernel_ok s -> can_stop s.
Proof.
  unfold kernel_ok. destruct (kn_active s) as [g|] eqn:Hg; [by apply shows_can_stop|].
  intros (Ht & Hp & _). split; [done|]. by rewrite Hg.
Qed.

Lemma ok_following s : kernel_ok s -> following s.
Proof. unfold kernel_ok. destruct (kn_active s); [apply shows_following|apply resting_following]. Qed.

Lemma resting_ok s : resting s -> kernel_ok s.
Proof. intros Hr. unfold kernel_ok. by rewrite (proj2 (proj2 Hr)). Qed.

(** An operation that keeps the phases. *)
Lemma kept_ok s c : kernel_ok s -> tracker_ok (cs_tracker c) -> keeps_phases (kt s) (cs_tracker c) ->
  kernel_ok (with_capture s c).
Proof.
  unfold kernel_ok. simpl. destruct (kn_active s) as [g|]; [|intros (_ & Hp & Hn) Ht _; by split_and!].
  intros (_ & Hs & m & Hp & Hm) Ht Hk. split_and!; [done|done|]. exists m. split; [done|]. by eapply showing_keeps.
Qed.

(** What the queue leaves when it succeeded. *)
Lemma queued_shows g id s c t' :
  shows g s -> ag_suspended g = false -> ag_outstanding g = [] ->
  tracker_ok (cs_tracker c) -> phase_in (kt s) (stream_of g) id = None ->
  moves (kt s) (cs_tracker c) (stream_of g) id (Some Filling) ->
  t' = kn_trace s ++ [QueueBuffer (ag_media_generation g) id] ->
  exists m, play_of t' = Some (play_with g (<[id := Filling]> m)) /\
    (forall st, CastkmsCapture.active (cs_tracker c) = Some st -> si_stream_id (ts_info st) = stream_of g) /\
    (forall id', phase_in (cs_tracker c) (stream_of g) id' = <[id := Filling]> m !! id') /\
    (forall id', <[id := Filling]> m !! id' = Some Filling -> id' = id).
Proof.
  intros (Ht & Hsa & m & Hp & [Ha Hph Hf Ho Hl]) Hsus Hout Htc Hnone [Hact Hmv] ->. exists m.
  assert (map_Forall (fun _ ph => ph <> Filling) m) as Hnf.
  { intros i ph Hi ->. destruct (Hf i Hi) as (o & Hin & _). rewrite Hout in Hin. by apply not_elem_of_nil in Hin. }
  rewrite Hph in Hnone. split_and!.
  - rewrite (play_snoc _ _ _ Hp). simpl. unfold in_generation, play_with. simpl. rewrite Z.eqb_refl, Hsus. simpl.
    by rewrite !bool_decide_true by done.
  - intros st (st0 & H0 & ->)%Hact. auto.
  - intros id'. rewrite Hmv. destruct (id' =? id) eqn:Hd; breflect; [subst; by rewrite lookup_insert_eq|].
    rewrite lookup_insert_ne by done. apply Hph.
  - intros id' H'. destruct (decide (id' = id)) as [|Hne]; [done|]. rewrite lookup_insert_ne in H' by done.
    by destruct (Hnf id' Filling H').
Qed.

Definition after_queue (f : option QueueFailure) (s : kernel) : Prop :=
  match f with Some (Fatal _) => following s | _ => kernel_ok s end.

Lemma queue_ok s : kernel_ok s -> kwp maybe_queue after_queue following s.
Proof.
  intros Hs. apply kwp_bind, kwp_active. destruct (kn_active s) as [g|] eqn:Hg; [|by apply kwp_ret].
  destruct (_ || _) eqn:Hc; [by apply kwp_ret|]. apply orb_false_iff in Hc as [Hsus Hlen].
  assert (ag_outstanding g = []) as Hout.
  { apply Nat.leb_gt in Hlen. unfold MAX_OUTSTANDING_CAPTURE_REQUESTS in Hlen.
    by destruct (ag_outstanding g); [|simpl in Hlen; lia]. }
  destruct (ag_available g) as [|id available]; [by apply kwp_ret|].
  assert (shows g s) as Hsh by (unfold kernel_ok in Hs; by rewrite Hg in Hs). clear Hs.
  assert (forall a n s', shows g s' -> kernel_ok (with_active s' (Some (with_queue g a (ag_outstanding g) n)))) as Hrec.
  { intros a n s' Hs'. unfold kernel_ok. simpl. by eapply shows_same, Hs'. }
  apply kwp_bind, kwp_set_active. pose proof (shows_following _ _ Hsh) as Hfol.
  destruct (ag_transports g !! id) as [transport|]; [|by apply kwp_ret].
  destruct (_ =? 0); [by apply kwp_ret, Hrec|]. apply kwp_bind, kwp_client. simpl.
  eapply wp_weaken;
    [apply wp_and; [apply queue_moves; exact (proj1 Hsh)|apply tracked_queue; exact (proj1 Hsh)]|cbn beta..].
  2: { intros c [Hk%rtc_keeps Hr] e.
       assert (shows g (with_capture s c)) as Hsc.
       { destruct Hsh as (Ht & Hsa & m & Hp & Hm). split_and!; [by eapply reaches_ok|done|].
         exists m. split; [done|]. by eapply showing_keeps. }
       assert (forall a n, kernel_ok (with_active (with_capture s c) (Some (with_queue g a (ag_outstanding g) n))))
         by (intros; by apply Hrec).
       destruct e; try (apply kwp_ret; by apply Hrec).
       destruct (_ =? EBUSY); [|apply kwp_ret; by apply Hrec].
       apply kwp_bind, kwp_set_active, kwp_ret. unfold after_queue, kernel_ok. simpl. exact Hsc. }
  intros q c [(st & Hact & Hqid & Hqs & Hnone & Hmv) Hr].
  apply kwp_bind, kwp_act, kwp_bind, kwp_set_active, kwp_bind, kwp_client.
  assert (si_stream_id (ts_info st) = stream_of g) as Hst.
  { destruct Hsh as (_ & _ & m & _ & [Ha _ _ _ _]). by apply Ha. }
  rewrite Hst in *. pose proof (reaches_ok _ _ (proj1 Hsh) Hr) as Htc.
  destruct (queued_shows g id s c _ Hsh Hsus Hout Htc Hnone Hmv eq_refl) as (m & Hp & Ha & Hph & Hf).
  simpl. eapply wp_weaken; [apply arm_fence|cbn beta..].
  2: { intros c' _ e. apply kwp_ret. by eexists. }
  intros fence c' (Hc' & Hfs & Hfi). simpl in Hc'. rewrite <- Hc' in *. apply kwp_bind, kwp_set_active, kwp_ret.
  unfold after_queue, kernel_ok. simpl. split_and!; [exact Htc|exact (proj1 (proj2 Hsh))|].
  exists (<[id := Filling]> m). simpl. split; [exact Hp|]. rewrite Hout. split; simpl; [done|done| | |].
  - intros id' ->%Hf. eexists. split; [apply list_elem_of_singleton; reflexivity|exact Hqid].
  - intros o Ho%list_elem_of_singleton. subst o. simpl. split; [exact Hfs|congruence].
  - unfold MAX_OUTSTANDING_CAPTURE_REQUESTS. lia.
Qed.


Lemma matching_lookup frame l i : matching frame l = Some i -> exists o, l !! i = Some o.
Proof.
  revert i. induction l as [|o l IH]; intros i; simpl; [done|].
  destruct (capture_queue_matches_frame _ _); [intros E; injection E as <-; by exists o|].
  destruct (matching frame l) as [j|]; [|done]. intros E. injection E as <-. by apply IH.
Qed.

(** The frame that was shown. *)
Lemma published_shows g g' o completion s c :
  shows g s -> ag_outstanding g = [o] -> g' = with_queue g (ag_available g) [] (ag_next_user_data g) ->
  tracker_ok (cs_tracker c) ->
  phase_in (kt s) (stream_of g) (ef_buffer_id (oc_fence o)) = Some Filling ->
  moves (kt s) (cs_tracker c) (stream_of g) (ef_buffer_id (oc_fence o)) (Some Shown) ->
  q_buffer_id (cm_queue completion) = ef_buffer_id (oc_fence o) ->
  forall frame, shows g' (with_action (with_capture (with_active s (Some g')) c)
                    (Publish (ag_media_generation g) (published_frame o completion frame))).
Proof.
  intros (Ht & Hsa & m & Hp & [Ha Hph Hf Ho Hl]) Hout -> Htc Hfill [Hact Hmv] Hid frame.
  set (id := ef_buffer_id (oc_fence o)) in *. rewrite Hph in Hfill.
  split_and!; [done|done|]. exists (<[id := Shown]> m). split; simpl.
  - rewrite (play_snoc _ _ _ Hp). simpl. unfold in_generation, play_with. simpl. rewrite Z.eqb_refl, Hid.
    by rewrite bool_decide_true.
  - destruct (Ho o) as [_ Hoid]; [rewrite Hout; apply list_elem_of_singleton; reflexivity|]. split; simpl.
    + intros st (st0 & H0 & ->)%Hact. by apply Ha.
    + intros id'. rewrite Hmv. destruct (id' =? id) eqn:Hd; breflect; [subst id'; by rewrite lookup_insert_eq|].
      rewrite lookup_insert_ne by done. apply Hph.
    + intros id' H'. destruct (decide (id' = id)) as [->|Hne]; [by rewrite lookup_insert_eq in H'|].
      rewrite lookup_insert_ne in H' by done. destruct (Hf id' H') as (o' & Ho' & Hid').
      rewrite Hout in Ho'. apply list_elem_of_singleton in Ho' as ->. unfold id in *. congruence.
    + intros o' Ho'. by apply not_elem_of_nil in Ho'.
    + lia.
Qed.

Lemma frame_ok frame s : kernel_ok s ->
  kwp (handle_capture_frame frame) (fun _ => kernel_ok) can_stop s.
Proof.
  intros Hs. pose proof (ok_can_stop _ Hs) as Hcs. pose proof (ok_following _ Hs) as Hfo.
  unfold handle_capture_frame. apply kwp_bind, kwp_active, kwp_bind, kwp_ok_or; [done|]. intros g Hg.
  assert (shows g s) as Hsh by (unfold kernel_ok in Hs; by rewrite Hg in Hs).
  apply kwp_bind, kwp_ok_or; [done|]. intros i Hi. destruct (matching_lookup _ _ _ Hi) as [o Ho].
  apply kwp_bind. rewrite Ho. apply kwp_klift; [|done|done]. intros o' E. injection E as <-.
  do 5 (apply kwp_bind, kwp_reject; [done|intros _]). apply kwp_bind.
  assert (ag_outstanding g = [o]) as Hout.
  { destruct Hsh as (_ & _ & m & _ & [_ _ _ _ Hl]). unfold MAX_OUTSTANDING_CAPTURE_REQUESTS in Hl.
    destruct (ag_outstanding g) as [|o1 [|o2 l]]; simpl in Hl; [done| |lia].
    destruct i; [by injection Ho as ->|done]. }
  assert (i = O) as -> by (rewrite Hout in Ho; by destruct i).
  match goal with |- kwp ?m ?Q _ s =>
    assert (kwp m (fun _ s' => s' = s) can_stop s) as Hw end.
  { case_bool_decide; [|by apply kwp_ret]. apply kwp_bind, kwp_see. destruct (fence_ready _ _); [|by apply kwp_raise].
    by apply kwp_klift. }
  eapply kwp_weaken; [exact Hw| |done]. clear Hw. intros u s' ->.
  apply kwp_bind, kwp_set_active. rewrite Hout. simpl.
  set (g' := with_queue g (ag_available g) [] (ag_next_user_data g)).
  assert (forall c, tracker_ok (cs_tracker c) -> can_stop (with_capture (with_active s (Some g')) c)) as Hstop.
  { intros c Hc. destruct Hsh as (Ht & Hsa & m & Hp & _). split; [done|]. simpl. eexists. split; [exact Hp|].
    by split. }
  assert (ef_stream_id (oc_fence o) = stream_of g) as Hfs.
  { destruct Hsh as (_ & _ & m & _ & [_ _ _ Hfence _]). apply Hfence. rewrite Hout.
    by apply list_elem_of_singleton. }
  apply kwp_bind, kwp_bind, kwp_client. simpl.
  eapply wp_weaken;
    [apply wp_and; [apply delegate_moves; exact (proj1 Hsh)|apply tracked_delegate; exact (proj1 Hsh)]|cbn beta..].
  2: { intros c [_ Hr] e. apply kwp_raise, Hstop. by eapply reaches_ok; [exact (proj1 Hsh)|]. }
  rewrite Hfs. intros completion c [(Hid & _ & Hfill & Hmv) Hr]. apply kwp_ret.
  pose proof (reaches_ok _ _ (proj1 Hsh) Hr) as Htc.
  pose proof (published_shows g g' o completion s c Hsh Hout eq_refl Htc Hfill Hmv Hid frame) as Hpub.
  apply kwp_bind, kwp_see, kwp_bind, kwp_act, kwp_klift; [by intros _ _| |by eapply shows_following].
  by apply (shows_can_stop g').
Qed.

(** A buffer the consumer gave back. *)
Lemma returned_shows g id s c :
  shows g s -> tracker_ok (cs_tracker c) ->
  phase_in (kt s) (stream_of g) id = Some Shown ->
  moves (kt s) (cs_tracker c) (stream_of g) id None ->
  shows g (with_action (with_capture s c) (ConsumerReturned (ag_media_generation g) id)).
Proof.
  intros (Ht & Hsa & m & Hp & [Ha Hph Hf Ho Hl]) Htc Hsh [Hact Hmv]. rewrite Hph in Hsh.
  split_and!; [done|done|]. exists (delete id m). split; simpl.
  - rewrite (play_snoc _ _ _ Hp). simpl. unfold in_generation, play_with. simpl. rewrite Z.eqb_refl.
    by rewrite bool_decide_true.
  - split; simpl; [|intros id'; rewrite Hmv|intros id' H'|done|done].
    + intros st (st0 & H0 & ->)%Hact. by apply Ha.
    + destruct (id' =? id) eqn:Hd; breflect; [subst id'; by rewrite lookup_delete_eq|].
      rewrite lookup_delete_ne by done. apply Hph.
    + apply Hf. destruct (decide (id' = id)) as [->|Hne]; [by rewrite lookup_delete_eq in H'|].
      by rewrite lookup_delete_ne in H' by done.
Qed.

Lemma source_event_ok event s : kernel_ok s ->
  kwp (handle_source_event event) (fun _ => kernel_ok) can_stop s.
Proof.
  intros Hs. pose proof (ok_can_stop _ Hs) as Hcs. pose proof (ok_following _ Hs) as Hfo.
  unfold handle_source_event. apply kwp_bind, kwp_active, kwp_bind, kwp_ok_or; [done|]. intros g Hg.
  assert (shows g s) as Hsh by (unfold kernel_ok in Hs; by rewrite Hg in Hs).
  apply kwp_bind, kwp_klift; [|done|done]. intros current _. destruct (negb current); [by apply kwp_ret|].
  destruct event as [g0 id transport|g0 id|report e].
  - apply kwp_bind, kwp_reject; [done|intros _]. apply kwp_bind, kwp_reject; [done|intros _].
    apply kwp_set_active. unfold kernel_ok. simpl. by eapply shows_same, Hsh.
  - apply kwp_bind, kwp_reject; [done|intros _]. apply kwp_bind, kwp_bind, kwp_client.
    eapply wp_weaken;
      [apply wp_and; [apply release_moves; exact (proj1 Hsh)|apply tracked_release; exact (proj1 Hsh)]|cbn beta..].
    2: { intros c [Hk%rtc_keeps Hr] e. apply kwp_raise, ok_can_stop, kept_ok; [done| |done].
         by eapply reaches_ok; [exact (proj1 Hsh)|]. }
    intros r c [[Hshown Hmv] Hr]. apply kwp_ret, kwp_bind, kwp_act, kwp_set_active.
    unfold kernel_ok. simpl. eapply shows_same, (returned_shows g id s c); try done.
    by eapply reaches_ok; [exact (proj1 Hsh)|].
  - apply kwp_bind, kwp_act, kwp_bind, kwp_set_active, kwp_raise.
    destruct Hsh as (Ht & Hsa & m & Hp & _). split; [done|]. simpl.
    rewrite (play_snoc _ _ _ Hp). simpl. rewrite Z.eqb_refl. eexists. split; [done|]. by split.
Qed.


(** *** The turns of the loop *)

Definition keeping {A} (m : KM A) : Prop := forall s, kernel_ok s -> kwp m (fun _ => kernel_ok) following s.

Lemma keeping_ret {A} (a : A) : keeping (kret a).
Proof. by intros s Hs. Qed.
Lemma keeping_raise {A} op msg : keeping (kraise (A:=A) op msg).
Proof. intros s Hs. by apply kwp_raise, ok_following. Qed.
Lemma keeping_bind {A B} (m : KM A) (k : A -> KM B) : keeping m -> (forall a, keeping (k a)) -> keeping (kbind m k).
Proof.
  intros Hm Hk s Hs. apply kwp_bind. eapply kwp_weaken; [by apply Hm| |done]. intros a s' Hs'. by apply Hk.
Qed.
Lemma keeping_klift {A} (o : outcome KernelDisplayError A) : keeping (klift o).
Proof. intros s Hs. by apply kwp_klift; [|apply ok_following..]. Qed.
Lemma keeping_see {A} (f : kernel_trace -> A) : keeping (ksee f).
Proof. by intros s Hs. Qed.
Lemma keeping_active : keeping kactive.
Proof. by intros s Hs. Qed.
Lemma keeping_tracker : keeping ktracker.
Proof. by intros s Hs. Qed.
Lemma keeping_cec : keeping kcec.
Proof. by intros s Hs. Qed.
Lemma keeping_current : keeping kcurrent.
Proof. by intros s Hs. Qed.
Lemma keeping_set_cec c : keeping (set_cec c).
Proof. by intros s Hs. Qed.
Lemma keeping_set_current o : keeping (set_current o).
Proof. by intros s Hs. Qed.
Lemma keeping_grant : keeping (actor_query_grant lease).
Proof. by intros s Hs. Qed.

(** An action the protocol does not restrict. *)
Definition free (a : kernel_action) : Prop := forall p, play_next p a = Some p.

Lemma free_ok s a : free a -> kernel_ok s -> kernel_ok (with_action s a).
Proof.
  intros Ha. unfold kernel_ok. simpl. destruct (kn_active s) as [g|].
  - intros (Ht & Hs & m & Hp & Hm). split_and!; [done|done|]. exists m. simpl. by rewrite (play_snoc _ _ _ Hp).
  - intros (Ht & Hp & Hn). split_and!; [done| |done]. simpl. by rewrite (play_snoc _ _ _ Hp).
Qed.

Lemma keeping_act a : free a -> keeping (kact a).
Proof. intros Ha s Hs. by apply kwp_act, free_ok. Qed.

Lemma keeping_cec_call {A} f entry : (forall b, free (entry b)) -> keeping (cec_call (A:=A) f entry).
Proof.
  intros Ha s Hs. unfold kwp, cec_call. destruct (f _ _) as [t r]. simpl.
  pose proof (free_ok _ _ (Ha (is_ok r)) Hs) as Hk.
  destruct r; [exact Hk|exact Hk|]. exact (ok_following _ Hk).
Qed.
Lemma keeping_track {A} f : keeping (cec_track (A:=A) f).
Proof.
  intros s Hs. unfold kwp, cec_track. destruct (f _) as [t [a|e|]]; [done|done|]. exact (ok_following _ Hs).
Qed.
Lemma keeping_must {A} op (m : KM (A + CastKmsError)) : keeping m -> keeping (cec_must op m).
Proof. intros Hm. apply keeping_bind; [done|]. intros []; [apply keeping_ret|apply keeping_raise]. Qed.

Lemma keeping_fail e : keeping (fail_active e).
Proof.
  intros s Hs. eapply kwp_weaken; [by apply fail_active_rests, ok_can_stop|..]; intros.
  - by apply resting_ok.
  - by apply resting_following.
Qed.

Lemma keeping_reconcile op e : keeping (reconcile lease op e).
Proof.
  apply keeping_bind; [|intros; apply keeping_ret]. intros s Hs. pose proof (proj1 (ok_can_stop _ Hs)) as Ht.
  apply kwp_bind, kwp_client.
  eapply wp_weaken; [apply wp_and; [by apply reconcile_keeps|by apply tracked_reconcile]|cbn beta..].
  - intros r c [Hk%rtc_keeps Hr]. apply kwp_ret, kept_ok; [done|by eapply reaches_ok|done].
  - intros c [Hk%rtc_keeps Hr] e'. apply kwp_raise, ok_following, kept_ok; [done|by eapply reaches_ok|done].
Qed.

Lemma keeping_record events : keeping (record_events events).
Proof.
  intros s Hs. pose proof (proj1 (ok_can_stop _ Hs)) as Ht. unfold kwp, record_events.
  pose proof (events_keep events (kt s) Ht) as [Ht' Hk].
  assert (kernel_ok (with_capture s {| cs_tracker := (record_capture_events (kt s) events).1;
                                       cs_log := cs_log (kn_capture s) |})) as Hok by (by apply kept_ok).
  destruct (record_capture_events (kt s) events) as [t [[]|e|]]; [done|done|]. exact (ok_following _ Hok).
Qed.

Lemma keeping_queue : keeping queue_next.
Proof.
  intros s Hs. apply kwp_bind. eapply kwp_weaken; [by apply queue_ok| |done].
  intros [[e|e]|] s' Hs'; simpl in Hs'; [by apply keeping_fail|by apply kwp_klift|by apply kwp_ret].
Qed.

Lemma keeping_then_queue m :
  (forall s, kernel_ok s -> kwp m (fun _ => kernel_ok) can_stop s) -> keeping (then_queue m).
Proof.
  intros Hm s Hs. apply kwp_bind, kwp_attempt. eapply kwp_weaken; [by apply Hm| |].
  - intros u s' Hs'. by apply keeping_queue.
  - intros s' Hs' e. eapply kwp_weaken; [by apply fail_active_rests|..]; intros.
    + by apply resting_ok.
    + by apply resting_following.
Qed.


#[local] Hint Resolve keeping_ret keeping_raise keeping_bind keeping_klift keeping_see keeping_active keeping_tracker
  keeping_cec keeping_current keeping_set_cec keeping_set_current keeping_grant keeping_track keeping_must
  keeping_fail keeping_reconcile keeping_record keeping_queue : keeping.
#[local] Hint Extern 2 (keeping (cec_call _ _)) => apply keeping_cec_call; done : keeping.
#[local] Hint Extern 2 (keeping (kact _)) => apply keeping_act; done : keeping.
#[local] Hint Extern 4 (keeping (match ?x with _ => _ end)) => destruct x : keeping.
#[local] Hint Extern 1 => progress intros : keeping.

Lemma keeping_observe : keeping (query_observation lease).
Proof. unfold query_observation. auto 10 with keeping. Qed.
Lemma keeping_publish o : keeping (publish_observation o).
Proof. unfold publish_observation. auto 10 with keeping. Qed.
Lemma keeping_complete e c : keeping (complete_transmit lease e c).
Proof. unfold complete_transmit. auto with keeping. Qed.
Lemma keeping_online b : keeping (set_transport_online lease b).
Proof. unfold set_transport_online. auto with keeping. Qed.
Lemma keeping_inject m : keeping (inject_message lease m).
Proof. unfold inject_message. auto with keeping. Qed.
Lemma keeping_unbind : keeping (unbind_transport lease).
Proof. unfold unbind_transport. auto with keeping. Qed.
Lemma keeping_pending p : keeping (set_pending p).
Proof. unfold set_pending. auto with keeping. Qed.
Lemma keeping_drop : keeping drop_pending.
Proof. unfold drop_pending. auto using keeping_pending with keeping. Qed.
Lemma keeping_authority b : keeping (synchronize_cec_authority lease b).
Proof. unfold synchronize_cec_authority. auto 10 using keeping_drop, keeping_online with keeping. Qed.
Lemma keeping_transmit b e : keeping (handle_cec_transmit lease b e).
Proof.
  unfold handle_cec_transmit. auto 30 using keeping_complete, keeping_inject, keeping_pending with keeping.
Qed.

Lemma keeping_poll : keeping (on_poll lease).
Proof.
  unfold on_poll. auto 30 using keeping_observe, keeping_authority, keeping_publish with keeping.
Qed.
Lemma keeping_event e : keeping (on_event lease config e).
Proof.
  destruct e as [frame|event|event|event|u]; simpl.
  - apply keeping_then_queue. intros. by apply frame_ok.
  - unfold on_cec_transmit. auto 30 using keeping_authority, keeping_transmit with keeping.
  - unfold on_grant_state. auto 30 using keeping_authority, keeping_observe, keeping_publish with keeping.
  - unfold on_revoked. auto 30 using keeping_authority with keeping.
  - auto with keeping.
Qed.
Lemma keeping_batch l : keeping (on_batch lease config l).
Proof. induction l as [|e l IH]; simpl; auto using keeping_event with keeping. Qed.
Lemma keeping_control r : keeping (on_control lease r).
Proof. unfold on_control. auto 20 using keeping_pending, keeping_complete with keeping. Qed.

Lemma keeping_answer r : keeping (answer_start r).
Proof.
  intros s Hs. apply kwp_bind, kwp_tracker, kwp_bind, kwp_see, kwp_bind.
  assert (forall s1, kernel_ok s1 -> forall b e, kwp (klift (reject b e)) (fun _ => kernel_ok) following s1) as Hend
    by (intros; by apply keeping_klift).
  destruct (reply_dropped _); [destruct r; [|by apply kwp_ret, Hend]|by apply kwp_act, Hend, free_ok].
  eapply kwp_weaken; [by apply stop_active_rests, ok_can_stop|..]; intros.
  - by apply Hend, resting_ok.
  - by apply resting_following.
Qed.

Lemma keeping_start request : keeping (on_start lease config request).
Proof.
  intros s Hs. apply kwp_bind, kwp_active, kwp_bind, kwp_attempt.
  destruct (kn_active s) as [g|] eqn:Hg; [apply kwp_raise; intros; by apply keeping_answer|].
  assert (resting s) as Hr by (unfold kernel_ok in Hs; by rewrite Hg in Hs).
  apply kwp_bind. eapply kwp_weaken;
    [by apply generation_starts| |intros; by apply keeping_answer, resting_ok].
  intros [g prepared] s1 [_ Hsh]. apply kwp_bind, kwp_set_active, kwp_ret, keeping_answer. exact Hsh.
Qed.

Lemma keeping_select g b : keeping (on_select g b).
Proof.
  intros s Hs. apply kwp_bind, kwp_active. destruct (require_generation _ _) as [a|e|] eqn:Hr;
    [|by apply kwp_act, free_ok|by apply ok_following].
  unfold require_generation in Hr. destruct (kn_active s) as [g0|] eqn:Hg; [|done].
  destruct (_ =? _) eqn:Hid; [|done]. injection Hr as <-. apply Z.eqb_eq in Hid. subst g.
  assert (shows g0 s) as (Ht & Hsa & m & Hp & [Ha Hph Hf Ho Hl]) by (unfold kernel_ok in Hs; by rewrite Hg in Hs).
  apply kwp_bind, kwp_set_active, kwp_bind, kwp_act, kwp_act, free_ok; [done|]. unfold kernel_ok. simpl.
  split_and!; [done|done|]. exists m. simpl. split; [|by split].
  rewrite (play_snoc _ _ _ Hp). destruct b; simpl; unfold in_generation, play_with; simpl; by rewrite Z.eqb_refl.
Qed.

Lemma keeping_stop g : keeping (on_stop g).
Proof.
  intros s Hs. apply kwp_bind, kwp_active, kwp_bind, kwp_attempt.
  assert (forall s' r, kernel_ok s' -> kwp (kact (Answer r)) (fun _ => kernel_ok) following s') as Hend
    by (intros; by apply kwp_act, free_ok).
  destruct (kn_active s) as [g0|] eqn:Hg; [|by apply kwp_ret, Hend].
  destruct (_ =? _); [|apply kwp_raise; intros; by apply Hend].
  eapply kwp_weaken; [by apply stop_active_rests, ok_can_stop|..]; intros; by apply Hend, resting_ok.
Qed.

(** *** Detaching *)

Lemma steady_cec : steady kcec.
Proof. by intros s Hs. Qed.
Lemma steady_set_cec c : steady (set_cec c).
Proof. by intros s Hs. Qed.
Lemma steady_cec_call {A} f entry : (forall b, free (entry b)) -> steady (cec_call (A:=A) f entry).
Proof.
  intros Ha s (Ht & Hp & Hn). unfold kwp, cec_call. destruct (f _ _) as [t r]. simpl.
  assert (play_of (kn_trace s ++ [entry (is_ok r)]) = Some at_rest) as Hk by (rewrite (play_snoc _ _ _ Hp); apply Ha).
  destruct r; [by split_and!|by split_and!|]. by eexists.
Qed.
#[local] Hint Resolve steady_cec steady_set_cec : steady.
#[local] Hint Extern 2 (steady (cec_call _ _)) => apply steady_cec_call; done : steady.

Lemma steady_teardown : steady (teardown_cec lease).
Proof.
  unfold teardown_cec, complete_transmit, set_transport_online, unbind_transport, drop_pending, set_pending.
  auto 30 with steady.
Qed.

Lemma steady_detach : steady (detach_display lease).
Proof. unfold detach_display. auto 30 with steady. Qed.

Lemma detach_rests s : kernel_ok s -> kwp (on_detach lease) (fun _ => resting) following s.
Proof.
  intros Hs. apply kwp_bind, kwp_attempt.
  assert (forall s1, resting s1 -> forall m : KM unit, steady m -> kwp m (fun _ => resting) following s1) as Hst.
  { intros s1 H1 m Hm. eapply kwp_weaken; [by apply Hm|done|intros; by apply resting_following]. }
  eapply kwp_weaken; [by apply stop_active_rests, ok_can_stop|..].
  - intros u s1 H1. apply Hst; [done|]. auto 20 using steady_teardown, steady_detach with steady.
  - intros s1 H1 e. apply Hst; [done|]. auto 20 using steady_teardown, steady_detach with steady.
Qed.

Lemma keeping_turn input : keeping (turn lease config input).
Proof.
  destruct input as [request|g|g|g| | | |read|result| |event]; simpl;
    try (apply keeping_bind; [|intros; apply keeping_ret]);
    auto using keeping_start, keeping_select, keeping_stop, keeping_poll, keeping_control with keeping.
  - intros s Hs. eapply kwp_weaken; [by apply detach_rests|intros; by apply resting_ok|done].
  - unfold on_events. auto 20 using keeping_batch with keeping.
  - apply keeping_then_queue. intros s Hs. destruct event; [by apply source_event_ok|].
    by apply kwp_raise, ok_can_stop.
Qed.

Lemma keeping_launch : keeping (launch lease config).
Proof.
  unfold launch, spawn, begin_run, bind_cec, bind_transport.
  auto 40 using keeping_observe, keeping_online with keeping.
Qed.

Lemma runs_ok s : kernel_runs lease config s -> kernel_ok s.
Proof.
  induction 1 as [o s Hl|s input s' _ IH _ Hturn].
  - assert (kernel_ok (unborn o)) as Hu.
    { apply resting_ok. split_and!; [|done|done]. split; simpl; [by left|done|done]. }
    pose proof (keeping_launch _ Hu) as H. unfold kwp in H. by rewrite Hl in H.
  - pose proof (keeping_turn input _ IH) as H. unfold kwp in H. by rewrite Hturn in H.
Qed.

Lemma turn_follows s input : kernel_runs lease config s -> following (turn lease config input s).1.
Proof.
  intros Hs%runs_ok. pose proof (keeping_turn input _ Hs) as H. unfold kwp in H.
  destruct (turn lease config input s) as [s' [b|e|]]; [by apply ok_following|done|done].
Qed.
End Protocol.

(** ** What the protocol means *)

(** The source ended, by request or on its own. *)
Definition ends_source (a : kernel_action) : bool :=
  match a with SourceStop _ | SourceFailed _ => true | _ => false end.

(** While the source runs, a buffer it was shown is its consumer's until the
    consumer gives it back. *)
Lemma shown_until_returned mid : forall p r id,
  pl_source p = Some r -> pg_phases r !! id = Some Shown ->
  Forall (fun a => ends_source a = false /\ a <> ConsumerReturned (pg_generation r) id) mid ->
  forall p', foldl (fun o a => match o with Some p => play_next p a | None => None end) (Some p) mid = Some p' ->
  exists r', pl_source p' = Some r' /\ pg_generation r' = pg_generation r /\ pg_phases r' !! id = Some Shown.
Proof.
  induction mid as [|a mid IH]; intros p r id Hr Hs Hf p' Hp'; simpl in Hp'.
  { injection Hp' as <-. by exists r. }
  apply Forall_cons in Hf as [[Hne Hnr] Hf].
  destruct (play_next p a) as [p1|] eqn:Hn.
  2: { exfalso. clear -Hp'. induction mid; simpl in *; [done|auto]. }
  assert (exists r1, pl_source p1 = Some r1 /\ pg_generation r1 = pg_generation r /\ pg_phases r1 !! id = Some Shown)
    as (r1 & Hr1 & Hg1 & Hs1).
  { destruct a; simpl in Hn, Hne; try done; unfold in_generation, when_at_rest in Hn; rewrite ?Hr in Hn;
      try done; try (by injection Hn as <-; exists r);
      repeat match type of Hn with context [if ?c then _ else _] => destruct c eqn:?; try done end;
      injection Hn as <-; eexists; (split; [done|]); simpl; try (by split).
    - split; [done|]. rewrite lookup_insert_ne; [done|]. intros Hid. rewrite Hid, Hs in *.
      rewrite andb_true_iff, andb_true_iff in *. destruct_and!. by breflect.
    - split; [done|]. rewrite lookup_insert_ne; [done|]. intros Hid. rewrite Hid, Hs in *. by breflect.
    - split; [done|]. rewrite lookup_delete_ne; [done|]. intros Hid. breflect. congruence. }
  rewrite <- Hg1 in Hf. destruct (IH p1 r1 id Hr1 Hs1 Hf p' Hp') as (r' & ? & ? & ?).
  exists r'. split_and!; [done|congruence|done].
Qed.

Lemma play_app tr tr' p : play_of (tr ++ tr') = Some p ->
  exists p1, play_of tr = Some p1 /\
    foldl (fun o a => match o with Some p => play_next p a | None => None end) (Some p1) tr' = Some p.
Proof.
  intros Hp. destruct (play_prefix tr tr') as [p1 H1]; [by eexists|]. exists p1. split; [done|].
  unfold play_of in *. rewrite foldl_app in Hp. by rewrite H1 in Hp.
Qed.

(** Whether the consumer of a buffer was done with it. *)
Definition gives_back (id : Z) (a : kernel_action) : bool :=
  match a with ConsumerReturned _ id' => id' =? id | _ => ends_source a end.

Lemma shown_then_queued tr g f mid g' id post :
  is_Some (play_of (tr ++ Publish g f :: mid ++ QueueBuffer g' id :: post)) ->
  PipewireBuffers.buffer_id f = id -> Exists (fun a => gives_back id a = true) mid.
Proof.
  intros [p Hp] <-. destruct (decide (Exists (fun a => gives_back (PipewireBuffers.buffer_id f) a = true) mid)) as [|Hn];
    [done|exfalso].
  replace (tr ++ Publish g f :: mid ++ QueueBuffer g' (PipewireBuffers.buffer_id f) :: post)
    with ((((tr ++ [Publish g f]) ++ mid) ++ [QueueBuffer g' (PipewireBuffers.buffer_id f)]) ++ post) in Hp
    by (by rewrite <- !app_assoc).
  destruct (play_app _ _ _ Hp) as (p4 & H4 & _). destruct (play_app _ _ _ H4) as (p3 & H3 & Hq).
  destruct (play_app _ _ _ H3) as (p2 & H2 & Hmid). destruct (play_app _ _ _ H2) as (p1 & H1 & Hpub).
  simpl in Hpub, Hq. unfold in_generation in Hpub, Hq.
  destruct (pl_source p1) as [r1|]; [|done]. destruct (_ =? _); [|done].
  destruct (bool_decide _); [|done]. injection Hpub as <-.
  match type of Hmid with foldl _ (Some {| pl_source := Some ?r; pl_audio := _ |}) _ = _ => set (r2 := r) in * end.
  assert (pg_phases r2 !! PipewireBuffers.buffer_id f = Some Shown) as Hs2 by (unfold r2; simpl; by rewrite lookup_insert_eq).
  destruct (shown_until_returned mid {| pl_source := Some r2; pl_audio := pl_audio p1 |} r2
    (PipewireBuffers.buffer_id f) eq_refl Hs2) with (p' := p3)
    as (r3 & Hr3 & _ & Hs3); [|done|].
  { apply Forall_forall. intros a Ha. rewrite Exists_exists in Hn. split.
    - destruct (ends_source a) eqn:He; [|done]. exfalso. apply Hn. exists a. split; [done|]. by destruct a.
    - intros ->. apply Hn. eexists. split; [done|]. simpl. apply Z.eqb_refl. }
  rewrite Hr3 in Hq. destruct (_ =? _); [|done]. rewrite Hs3 in Hq.
  rewrite (bool_decide_false (Some Shown = None)) in Hq by done. by rewrite andb_false_r in Hq.
Qed.

(** ** Stopping leaves nothing *)

Section Stopped.
Context `{K : CaptureKernel} `{W : KernelWorld}.

Lemma finish_clean sid c : tracker_ok (cs_tracker c) ->
  wp (finish_retired_capture sid) (fun _ c' => cs_tracker c' = CaptureTracker_default) (fun _ => True) c.
Proof.
  intros Ht. unfold finish_retired_capture. apply wp_bind, wp_tracker, wp_bind, wp_ok_or; [done|].
  intros st Hst%keep_some. apply wp_bind, wp_reject; [done|]. intros _.
  apply wp_bind, wp_set_tracker, wp_bind.
  assert (CastkmsCapture.active (cs_tracker c) = None) as Ha by (destruct (to_one _ Ht) as [|He]; [done|congruence]).
  apply wp_quiet; [auto with quiet| |done]. intros e c' Hc'. apply wp_bind, wp_quiet; [auto with quiet| |done].
  intros u c'' Hc''. apply wp_ret. by rewrite Hc'', Hc'; simpl; rewrite Ha.
Qed.

Lemma stop_generation_clean g p s :
  tracker_ok (kt s) -> kn_active s = None -> play_of (kn_trace s) = Some p -> stoppable g p ->
  kwp (stop_generation g) (fun _ s' => kt s' = CaptureTracker_default) (fun _ => True) s.
Proof.
  intros Ht Hn Hp Hs. unfold stop_generation.
  assert (forall A B (m : KM A) (k : A -> KM B) Q s, steady m -> resting s ->
    (forall a s', resting s' -> kwp (k a) Q (fun _ => True) s') -> kwp (kbind m k) Q (fun _ => True) s) as Hb.
  { intros A B m k Q s0 Hm H0 Hk. apply kwp_bind. eapply kwp_weaken; [by apply Hm|done|done]. }
  apply kwp_bind. eapply kwp_weaken; [by eapply stop_sources_rest| |done]. intros f1 s1 H1.
  apply Hb; [apply steady_release_owned|done|]. intros f2 s2 H2.
  apply Hb; [apply steady_stop_stream|done|]. intros st s3 H3.
  apply Hb; [apply steady_drain_all|done|]. intros f4 s4 H4.
  apply Hb; [apply steady_release_owned|done|]. intros f5 s5 H5.
  apply kwp_bind, kwp_client. destruct H5 as (Ht5 & Hp5 & _).
  eapply wp_weaken; [apply wp_and; [by eapply finish_clean|by apply tracked_finish]|cbn beta..].
  - intros r c [Hc _]. apply kwp_bind, kwp_act, kwp_klift; [by intros _ _|done|].
    eexists. simpl. rewrite (play_snoc _ _ _ Hp5). reflexivity.
  - intros c _ e. apply kwp_bind, kwp_act.
    assert (exists x, combined_kernel_failures "stop capture generation"
       (f1 ++ f2 ++ st.1 ++ f4 ++ f5 ++ [codes "destroy retired CastKMS capture pool: " ++ capture_text e]) = Err x)
      as [x Hx].
    { unfold combined_kernel_failures. case_match eqn:E; [|by eexists].
      exfalso. apply (f_equal length) in E. rewrite !length_app in E. simpl in E. lia. }
    unfold kwp, klift. cbv beta iota zeta. by rewrite Hx.
Qed.

Lemma stop_active_clean s : can_stop s -> is_Some (kn_active s) ->
  kwp stop_active (fun _ s' => kt s' = CaptureTracker_default) (fun _ => True) s.
Proof.
  intros [Ht Hs] [g Hg]. rewrite Hg in Hs. destruct Hs as (p & Hp & Hst).
  apply kwp_bind, kwp_active. rewrite Hg. apply kwp_bind, kwp_set_active. by eapply stop_generation_clean.
Qed.
End Stopped.

(** ** The theorems *)

(** C3: Capture and presentation follow one protocol: from the launch of the
    actor, through any commands, polls, kernel events, source events and their
    failures, and whatever the kernel, the sources and the callers answer, what
    the actor does is accepted by [play_next]: one generation's source at a
    time; a buffer is queued for capture only in the running generation, while
    it is not suspended, when the buffer is free and no other capture is
    outstanding; a frame is published once, after its capture; the audio source
    starts after and ends before the video source; and the kernel's stream is
    stopped, buffers reclaimed and the pool destroyed only when no source runs.
    The last turn is included, however it ends. *)
Theorem kernel_follows_protocol `{K : CaptureKernel} `{W : KernelWorld} lease config s input :
  kernel_runs lease config s -> enabled s input = true ->
  is_Some (play_of (kn_trace (turn lease config input s).1)).
Proof. intros Hs _. by apply turn_follows. Qed.

(** C6: No capture under the consumer: once a frame was published, its buffer is
    queued for capture again only after the consumer of the source gave it back
    or the source ended, on every path of the actor. *)
Theorem no_capture_under_consumer `{K : CaptureKernel} `{W : KernelWorld} lease config s input pre g f mid g' id post :
  kernel_runs lease config s ->
  kn_trace (turn lease config input s).1 = pre ++ Publish g f :: mid ++ QueueBuffer g' id :: post ->
  PipewireBuffers.buffer_id f = id ->
  Exists (fun a => gives_back id a = true) mid.
Proof.
  intros Hs Htr. apply (shown_then_queued pre g f mid g' id post). rewrite <- Htr. by apply turn_follows.
Qed.

(** C19: A stop leaves nothing: when the stop of an active generation reports
    success, the client has no active and no retired stream, hence owns no
    buffer, and no source runs; also when it reports failure the generation is
    gone and no source runs. *)
Theorem stop_leaves_nothing `{K : CaptureKernel} `{W : KernelWorld} lease config s s' r :
  kernel_runs lease config s -> is_Some (kn_active s) -> stop_active s = (s', r) -> r <> Panic ->
  kn_active s' = None /\ play_of (kn_trace s') = Some at_rest /\
  (r = Ok tt -> cs_tracker (kn_capture s') = CaptureTracker_default).
Proof.
  intros Hs%runs_ok%ok_can_stop Ha Hst Hr.
  pose proof (stop_active_rests s Hs) as H1. pose proof (stop_active_clean s Hs Ha) as H2.
  unfold kwp in H1, H2. rewrite Hst in H1, H2.
  destruct r as [[]|e|]; [| |done]; destruct H1 as (_ & ? & ?); by split_and!.
Qed.

(** ** A run *)

Definition casting_lease : GrantLease := CastkmsCec.ex_lease.

(** The kernel of CaptureResources, which also answers the queries and exports. *)
Definition casting_kernel : CaptureKernel :=
  let K := orderly_kernel in
  {| k_get_grant := fun _ => CaptureClient.Done {| gg_grant_id := 1; gg_connector_id := 42;
       gg_rights := DISPLAY_CEC_V1_RIGHTS; gg_state := GRANT_STATE_ACTIVE; gg_flags := 0; gg_output_index := 0;
       gg_reserved := 0 |};
     k_query_caps := fun _ crtc _ => CaptureClient.Done
       ({| qp_uapi_major := 0; qp_uapi_minor := 12; qp_crtc_id := crtc; qp_format_count := 1;
           qp_flags := Z.lor (Z.lor CAPTURE_CAP_GRANT_FD CAPTURE_CAP_GRANT_CONTROL_FD) CAPTURE_CAP_SYNCOBJ_TIMELINE;
           qp_max_registered_buffers := 4; qp_reserved := 0 |},
        [{| cf_format := DRM_FORMAT_XRGB8888; cf_flags := 0; cf_modifier := DRM_FORMAT_MOD_LINEAR |}]);
     k_getcrtc := k_getcrtc; k_start := k_start; k_stop := k_stop; k_register := k_register;
     k_unregister := k_unregister; k_queue := k_queue; k_create_dumb := k_create_dumb;
     k_destroy_dumb := k_destroy_dumb; k_addfb2 := k_addfb2; k_rmfb := k_rmfb; k_prime := k_prime;
     k_export_sync_file := k_export_sync_file; k_syncobj_create := k_syncobj_create;
     k_syncobj_destroy := k_syncobj_destroy;
     k_syncobj_to_fd := fun _ a => CaptureClient.Done {| sh_handle := sh_handle a; sh_flags := sh_flags a; sh_fd := 25;
       sh_pad := sh_pad a; sh_point := sh_point a |};
     k_syncobj_eventfd := k_syncobj_eventfd; k_signal := k_signal; k_eventfd := k_eventfd; k_dup := k_dup |}.

Definition casting_identity : VideoNodeIdentity := VideoSource.ex_identity 9.

Definition casting_cec : CecKernel :=
  {| drm_ioctl_castkms_cec_query_caps := fun c => Ok
       {| qc_connector_id := c; qc_flags := 0; qc_uapi_major := CEC_UAPI_MAJOR; qc_uapi_minor := CEC_UAPI_MINOR;
          qc_capabilities := CEC_REQUIRED_CAPABILITIES; qc_max_msg_size := 16; qc_output_index := 0;
          qc_has_adapter := 1; qc_reserved := 0 |};
     drm_ioctl_castkms_cec_bind_transport := drm_ioctl_castkms_cec_bind_transport CastkmsCec.ex_kernel;
     drm_ioctl_castkms_cec_set_transport_state := fun _ => Ok tt;
     drm_ioctl_castkms_cec_tx_complete := fun _ => Ok tt;
     drm_ioctl_castkms_cec_receive := fun _ => Ok tt;
     drm_ioctl_castkms_cec_unbind_transport := fun _ => Ok tt |}.

(** [events] are what a read finds after the stream was stopped. *)
Definition casting_world_reading (events : list CastKmsEvent) : KernelWorld :=
  {| start_cancelled := fun _ => false; producer_remote := fun _ => Done (Ok tt);
     source_start := fun _ => Ok casting_identity; source_publish := fun _ => Ok tt;
     source_stop := fun _ => inl {| identity := casting_identity; reclaimed_buffers := [] |};
     audio_remote := fun _ => Ok tt; open_tap := fun _ => Ok tt; audio_start := fun _ => Ok casting_identity;
     audio_stop := fun _ => Ok tt; fence_ready := fun _ _ => Some (Ok tt); drain_reads := fun _ => [];
     try_read := fun _ => Ok events; reply_dropped := fun _ => false; into_async := fun _ => Ok tt;
     source_spawn := fun _ => Ok tt; source_shutdown := fun _ => Ok tt;
     display_queries := fun _ =>
       {| drm_ioctl_mode_getconnector := fun c => Ok {| gc_encoder_id := 0; gc_connector_id := c;
            gc_connector_type := 0; gc_connector_type_id := 0; gc_connection := DRM_MODE_CONNECTED; gc_pad := 0 |};
          drm_ioctl_mode_getencoder := fun _ => Err 0; drm_ioctl_mode_getcrtc := fun _ => Err 0;
          drm_ioctl_castkms_open_audio_tap := fun _ _ => Err 0 |};
     cec_kernel := fun _ => casting_cec; detach_ioctl := fun _ _ => Ok tt; detach_joins := fun _ => Joined tt;
     capture_text := fun _ => []; source_text := fun _ => []; video_text := fun _ => []; runtime_text := fun _ => [];
     castkms_text := fun _ => []; event_text := fun _ => [] |}.
Definition casting_world : KernelWorld := casting_world_reading [].

Definition casting_config : CastKmsActorConfig :=
  {| ac_session_id := codes "s"; ac_device_instance := codes "d"; ac_node_description := codes "n";
     ac_output_index := 0; ac_video_profile_id := codes "v"; ac_audio_profile_id := Some (codes "a");
     ac_video_bitrate := 1; ac_device_control := true |}.

Definition casting_request : MediaStartRequest :=
  {| sr_media_generation := 9;
     sr_route := {| mr_route_generation := 4; mr_target := 9;
                    mr_mode := {| rm_width := 64; rm_height := 32; rm_refresh_millihz := 60000; rm_flags := 0 |} |} |}.

(** The kernel's frame for the request with this user data. *)
Definition casting_frame (user_data : Z) : CaptureFrameEvent :=
  {| fe_user_data := user_data; fe_sequence := 1; fe_timestamp_ns := 5; fe_mode_generation := 3;
     fe_stream_id := 7; fe_buffer_id := 1; fe_status := 0; fe_flags := 0;
     fe_dropped_frames := 0; fe_damage_x := 0; fe_damage_y := 0; fe_damage_width := 64;
     fe_damage_height := 32; fe_cursor_serial := 0; fe_cursor_flags := 0; fe_cursor_x := 0;
     fe_cursor_y := 0; fe_cursor_hotspot_x := 0; fe_cursor_hotspot_y := 0; fe_cursor_width := 0;
     fe_cursor_height := 0 |}.

(** A frame is captured, shown and given back, and its buffer is captured into again. *)
Definition casting_inputs : list kernel_input :=
  [InStart casting_request; InActivate 9; InSource (Some (BufferAvailable 9 1 SyncTimeline));
   InEvents (Ok [CaptureFrame (casting_frame 1)]); InSource (Some (BufferReleased 9 1))].

Fixpoint casting (inputs : list kernel_input) (s : kernel) : option kernel :=
  match inputs with
  | [] => Some s
  | i :: inputs =>
      if enabled s i then
        match turn (K := casting_kernel) (W := casting_world) casting_lease casting_config i s with
        | (s', Ok true) => casting inputs s'
        | _ => None
        end
      else None
  end.

Definition casting_unborn : kernel :=
  unborn {| ko_topology := {| dt_attachment := UnknownAttachment; dt_route := None |}; ko_grant_state := Pending |}.
Definition casting_launched : kernel :=
  (launch (K := casting_kernel) (W := casting_world) casting_lease casting_config casting_unborn).1.
Definition casting_state : kernel := default casting_launched (casting casting_inputs casting_launched).

Lemma casting_runs inputs : forall s s',
  kernel_runs (K := casting_kernel) (W := casting_world) casting_lease casting_config s ->
  casting inputs s = Some s' ->
  kernel_runs (K := casting_kernel) (W := casting_world) casting_lease casting_config s'.
Proof.
  induction inputs as [|i inputs IH]; intros s s' Hs; simpl; [by intros E; injection E as <-|].
  destruct (enabled s i) eqn:He; [|done].
  destruct (turn (K := casting_kernel) casting_lease casting_config i s) as [s1 [[]|e|]] eqn:Ht; try done.
  apply IH. by eapply runs_turn.
Qed.

Lemma casting_launches :
  launch (K := casting_kernel) (W := casting_world) casting_lease casting_config casting_unborn
  = (casting_launched, Ok tt).
Proof. vm_compute. reflexivity. Qed.

(** The state before the last input. *)
Definition casting_before : kernel := default casting_launched (casting (take 4 casting_inputs) casting_launched).
Definition casting_released : kernel_input := InSource (Some (BufferReleased 9 1)).

Lemma casting_before_runs :
  kernel_runs (K := casting_kernel) (W := casting_world) casting_lease casting_config casting_before.
Proof.
  apply (casting_runs (take 4 casting_inputs) casting_launched).
  - exact (runs_start (K := casting_kernel) (W := casting_world) _ _ _ _ casting_launches).
  - vm_compute. reflexivity.
Qed.

Lemma kernel_follows_protocol_witness :
  enabled casting_before casting_released = true /\
  is_Some (play_of (kn_trace (turn (K := casting_kernel) (W := casting_world) casting_lease casting_config
                                casting_released casting_before).1)).
Proof.
  split; [vm_compute; reflexivity|].
  apply (kernel_follows_protocol (K := casting_kernel) (W := casting_world) casting_lease casting_config);
    [exact casting_before_runs|vm_compute; reflexivity].
Defined.

Definition casting_trace : kernel_trace :=
  kn_trace (turn (K := casting_kernel) (W := casting_world) casting_lease casting_config casting_released casting_before).1.

Definition casting_shown : VideoFrame :=
  {| PipewireBuffers.buffer_id := 1; sequence := 1; pts_ns := 5;
     damage := {| dmg_x := 0; dmg_y := 0; dmg_width := 64; dmg_height := 32 |}; discontinuity := false;
     acquire_point := Some 1 |}.

Lemma no_capture_under_consumer_witness :
  kn_trace (turn (K := casting_kernel) (W := casting_world) casting_lease casting_config casting_released casting_before).1
  = take 8 casting_trace ++ Publish 9 casting_shown :: [ConsumerReturned 9 1] ++ QueueBuffer 9 1 :: [] /\
  Exists (fun a => gives_back 1 a = true) [ConsumerReturned 9 1].
Proof.
  assert (kn_trace (turn (K := casting_kernel) (W := casting_world) casting_lease casting_config casting_released
                      casting_before).1
    = take 8 casting_trace ++ Publish 9 casting_shown :: [ConsumerReturned 9 1] ++ QueueBuffer 9 1 :: [])
    as H by (vm_compute; reflexivity).
  split; [exact H|]. revert H. generalize (take 8 casting_trace). intros pre H.
  exact (no_capture_under_consumer (K := casting_kernel) (W := casting_world) casting_lease casting_config
           casting_before casting_released pre 9 casting_shown [ConsumerReturned 9 1] 9 1 []
           casting_before_runs H eq_refl).
Defined.

Lemma stop_leaves_nothing_witness :
  let r := stop_active (K := casting_kernel) (W := casting_world) casting_before in
  r.2 = Ok tt /\ kn_active r.1 = None /\ play_of (kn_trace r.1) = Some at_rest /\
  (r.2 = Ok tt -> cs_tracker (kn_capture r.1) = CaptureTracker_default).
Proof.
  split; [vm_compute; reflexivity|].
  apply (stop_leaves_nothing (K := casting_kernel) (W := casting_world) casting_lease casting_config casting_before);
    [exact casting_before_runs|vm_compute; eexists; reflexivity|apply surjective_pairing|vm_compute; discriminate].
Defined.

(** A start that is refused because another generation plays ends the actor: the
    stream of that generation is taken for one the refused start left behind. *)
Lemma refused_start_ends_actor `{K : CaptureKernel} `{W : KernelWorld} lease config s g st request :
  kn_active s = Some g -> CastkmsCapture.active (kt s) = Some st ->
  exists s', turn lease config (InStart request) s
    = (s', Err (kerr "roll back failed capture start" (codes "capture resources remain owned after startup failure"))).
Proof.
  intros Hg Hst. unfold turn, on_start, answer_start, kbind, kactive, kattempt, kraise, ktracker, ksee.
  rewrite Hg. cbv beta iota. rewrite Hst. rewrite (bool_decide_true (is_Some (Some st))) by done.
  destruct (reply_dropped (kn_trace s)); by eexists.
Qed.
