(* ===== verification/KernelCec.v ===== *)
(** * CEC in the kernel actor

    A CEC message the kernel asks to be sent becomes an operation on the device
    (CecBridge), and the kernel is told how it went.  The actor keeps the message
    whose operation runs, the client of CastkmsCec keeps that a transmit is being
    processed; the theorems tie the two together over every turn of KernelActor. *)

From S2P Require Import Prelude Bytes Text CastkmsSys Grant Castkms CastkmsEvent CastkmsCapture CaptureClient CastkmsCec CecBridge DisplayState PipewireBuffers VideoSource MediaSession MediaPolicy DisplaySetup CastDisplaySlot DeviceSession MediaDriver KernelCapture KernelActor KernelProtocol.

(** ** What does not touch CEC *)

Definition apart {A} (m : KM A) : Prop := forall s, kn_cec (m s).1 = kn_cec s.

Lemma apart_ret {A} (a : A) : apart (kret a).
Proof. done. Qed.
Lemma apart_raise {A} op msg : apart (kraise (A:=A) op msg).
Proof. done. Qed.
Lemma apart_bind {A B} (m : KM A) (k : A -> KM B) : apart m -> (forall a, apart (k a)) -> apart (kbind m k).
Proof.
  intros Hm Hk s. unfold kbind. specialize (Hm s). destruct (m s) as [s' [a|e|]]; simpl in Hm; [|done|done].
  by rewrite (Hk a s').
Qed.
Lemma apart_klift {A} (o : outcome KernelDisplayError A) : apart (klift o).
Proof. done. Qed.
Lemma apart_see {A} (f : kernel_trace -> A) : apart (ksee f).
Proof. done. Qed.
Lemma apart_active : apart kactive.
Proof. done. Qed.
Lemma apart_tracker : apart ktracker.
Proof. done. Qed.
Lemma apart_set_active a : apart (set_active a).
Proof. done. Qed.
Lemma apart_act a : apart (kact a).
Proof. done. Qed.
Lemma apart_attempt {A} (m : KM A) : apart m -> apart (kattempt m).
Proof. intros Hm s. unfold kattempt. specialize (Hm s). by destruct (m s) as [s' [a|e|]]. Qed.
Lemma apart_client {A} (m : M A) : apart (client m).
Proof. intros s. unfold client. by destruct (m (kn_capture s)). Qed.
Lemma apart_record `{KernelWorld} l : apart (record_events l).
Proof. intros s. unfold record_events. by destruct (record_capture_events _ _). Qed.
Lemma apart_current : apart kcurrent.
Proof. done. Qed.
Lemma apart_set_current o : apart (set_current o).
Proof. done. Qed.
Lemma apart_kcec : apart kcec.
Proof. done. Qed.
Lemma apart_grant `{CaptureKernel} lease : apart (actor_query_grant lease).
Proof. done. Qed.

Create HintDb apart.
#[export] Hint Resolve apart_ret apart_raise apart_bind apart_klift apart_see apart_active apart_tracker apart_set_active
  apart_act apart_attempt apart_client apart_record apart_current apart_set_current apart_kcec apart_grant : apart.
#[export] Hint Unfold must require_not_cancelled or_rollback or_rollback_source : apart.
#[export] Hint Extern 4 (apart (match ?x with _ => _ end)) => destruct x : apart.
#[export] Hint Extern 1 => progress intros : apart.

Section Apart.
Context `{K : CaptureKernel} `{W : KernelWorld} (lease : GrantLease) (config : CastKmsActorConfig).

Lemma apart_must {A} op (m : M A) : apart (must op m).
Proof. unfold must. auto with apart. Qed.
Lemma apart_rollback stream : apart (rollback_unpublished stream).
Proof. unfold rollback_unpublished. auto 20 using @apart_must with apart. Qed.
Lemma apart_or_rollback {A} stream (m : KM A) : apart m -> apart (or_rollback stream m).
Proof. unfold or_rollback. auto 10 using apart_rollback with apart. Qed.
Lemma apart_or_rollback_source {A} stream g (m : KM A) : apart m -> apart (or_rollback_source stream g m).
Proof. unfold or_rollback_source, stop_started_source. auto 20 using apart_rollback with apart. Qed.
Lemma apart_allocate stream n : forall i, apart (allocate_pool n i stream).
Proof. induction n as [|n IH]; intros i; simpl; auto 20 with apart. Qed.
Lemma apart_export stream l : apart (export_video_buffers stream l).
Proof. induction l as [|b l IH]; simpl; auto 20 using @apart_must with apart. Qed.
Lemma apart_prepare stream request : apart (prepare_pool stream request).
Proof.
  unfold prepare_pool, require_not_cancelled.
  auto 40 using @apart_or_rollback, apart_allocate, apart_export with apart.
Qed.
Lemma apart_sources stream g buffers : apart (start_sources lease config stream g buffers).
Proof.
  unfold start_sources, require_not_cancelled, start_optional_kernel_audio_source.
  auto 60 using @apart_or_rollback, @apart_or_rollback_source with apart.
Qed.
Lemma apart_start request : apart (start_generation lease config request).
Proof.
  unfold start_generation, require_not_cancelled.
  auto 60 using @apart_must, apart_prepare, apart_sources with apart.
Qed.

Lemma apart_reclaim stream l : apart (reclaim_all stream l).
Proof. induction l as [|b l IH]; simpl; unfold reclaim; auto 20 with apart. Qed.
Lemma apart_drain o retire reads : apart (drain_outstanding_capture o retire reads).
Proof. induction reads as [|r reads IH]; simpl; auto 40 using @apart_must with apart. Qed.
Lemma apart_drain_all l retire : apart (drain_all l retire).
Proof. induction l as [|o l IH]; simpl; auto 20 using apart_drain with apart. Qed.
Lemma apart_wait l : apart (wait_fences l).
Proof. induction l as [|o l IH]; simpl; auto 20 with apart. Qed.
Lemma apart_stop : apart stop_active.
Proof.
  unfold stop_active, stop_generation, stop_generation_sources, release_consumer_owned, stop_kernel_stream.
  auto 60 using apart_reclaim, apart_drain_all, apart_wait with apart.
Qed.
Lemma apart_fail e : apart (fail_active e).
Proof. unfold fail_active. auto 20 using apart_stop with apart. Qed.
Lemma apart_queue : apart queue_next.
Proof. unfold queue_next, maybe_queue. auto 60 using apart_fail with apart. Qed.
Lemma apart_then_queue m : apart m -> apart (then_queue m).
Proof. unfold then_queue. auto 20 using apart_fail, apart_queue with apart. Qed.
Lemma apart_frame f : apart (handle_capture_frame f).
Proof. unfold handle_capture_frame. auto 60 using @apart_must with apart. Qed.
Lemma apart_source e : apart (handle_source_event e).
Proof. unfold handle_source_event. auto 60 using @apart_must with apart. Qed.
Lemma apart_reconcile op e : apart (reconcile lease op e).
Proof. unfold reconcile. auto 20 using @apart_must with apart. Qed.
Lemma apart_observe : apart (query_observation lease).
Proof. unfold query_observation. auto 20 with apart. Qed.
Lemma apart_publish o : apart (publish_observation o).
Proof. unfold publish_observation. auto 20 with apart. Qed.
Lemma apart_on_start r : apart (on_start lease config r).
Proof. unfold on_start, answer_start. auto 40 using apart_start, apart_stop with apart. Qed.
Lemma apart_on_select g b : apart (on_select g b).
Proof. unfold on_select. auto 20 with apart. Qed.
Lemma apart_on_stop g : apart (on_stop g).
Proof. unfold on_stop. auto 20 using apart_stop with apart. Qed.
End Apart.

(** ** The message being processed *)

Definition key_of (e : CecTransmitEvent) : PendingTransmit :=
  {| pt_transport_generation := te_transport_generation e; pt_cookie := te_cookie e |}.

(** The client processes exactly the transmit whose operation runs. *)
Definition agree (lease : GrantLease) (c : cec_part) : Prop :=
  cec_reachable lease (cp_tracker c) /\ ct_pending (cp_tracker c) = key_of <$> cp_pending c.

(** When it returns. *)
Definition cwp {A} (m : KM A) (Q : A -> cec_part -> Prop) (s : kernel) : Prop :=
  match m s with (s', Ok a) => Q a (kn_cec s') | _ => True end.

Lemma cwp_ret {A} (a : A) (Q : A -> cec_part -> Prop) s : Q a (kn_cec s) -> cwp (kret a) Q s.
Proof. done. Qed.
Lemma cwp_bind {A B} (m : KM A) (k : A -> KM B) Q R s :
  cwp m R s -> (forall a s', R a (kn_cec s') -> cwp (k a) Q s') -> cwp (kbind m k) Q s.
Proof. unfold cwp, kbind. intros Hm Hk. destruct (m s) as [s' [a|e|]]; [by apply Hk|done|done]. Qed.
Lemma cwp_apart {A} (m : KM A) (Q : A -> cec_part -> Prop) s : apart m -> (forall a, Q a (kn_cec s)) -> cwp m Q s.
Proof. unfold cwp. intros Ha HQ. specialize (Ha s). destruct (m s) as [s' [a|e|]]; simpl in Ha; [by rewrite Ha|done|done]. Qed.
Lemma cwp_weaken {A} (m : KM A) (Q Q' : A -> cec_part -> Prop) s :
  cwp m Q s -> (forall a c, Q a c -> Q' a c) -> cwp m Q' s.
Proof. unfold cwp. destruct (m s) as [s' [a|e|]]; auto. Qed.

Section Agree.
Context `{K : CaptureKernel} `{W : KernelWorld} (lease : GrantLease) (config : CastKmsActorConfig).

Abbreviation preserving P m := (forall s, P (kn_cec s) -> cwp m (fun _ => P) s).
Abbreviation agreeing m := (preserving (agree lease) m).

Lemma agreeing_apart {P : cec_part -> Prop} {A} (m : KM A) : apart m -> preserving P m.
Proof. intros Hm s Hs. by apply cwp_apart. Qed.
Lemma agreeing_bind {P : cec_part -> Prop} {A B} (m : KM A) (k : A -> KM B) :
  preserving P m -> (forall a, preserving P (k a)) -> preserving P (kbind m k).
Proof. intros Hm Hk s Hs. eapply cwp_bind; [by apply Hm|]. intros a s' Hs'. by apply Hk. Qed.
Lemma agreeing_if {P : cec_part -> Prop} {A} (c : bool) (m n : KM A) :
  preserving P m -> preserving P n -> preserving P (if c then m else n).
Proof. by destruct c. Qed.

(** A CEC call that returned. *)
Lemma cwp_call {A} op f entry (Q : A -> cec_part -> Prop) s :
  (forall t' a, f (cec_kernel (kn_trace s)) (cp_tracker (kn_cec s)) = (t', Ok a) ->
     Q a {| cp_tracker := t'; cp_bridge := cp_bridge (kn_cec s); cp_pending := cp_pending (kn_cec s) |}) ->
  cwp (cec_must op (cec_call f entry)) Q s.
Proof.
  intros HQ. unfold cwp, cec_must, kbind, cec_call. destruct (f _ _) as [t' [a|e|]] eqn:Hf; try done. by apply HQ.
Qed.
Lemma cwp_track {A} op f (Q : A -> cec_part -> Prop) s :
  (forall t' a, f (cp_tracker (kn_cec s)) = (t', Ok a) ->
     Q a {| cp_tracker := t'; cp_bridge := cp_bridge (kn_cec s); cp_pending := cp_pending (kn_cec s) |}) ->
  cwp (cec_must op (cec_track f)) Q s.
Proof.
  intros HQ. unfold cwp, cec_must, kbind, cec_track. destruct (f _) as [t' [a|e|]] eqn:Hf; try done. by apply HQ.
Qed.

Lemma reach_step t l t' : cec_reachable lease t -> cec_step lease t l t' -> cec_reachable lease t'.
Proof. intros [ls H] Hs. eexists. by eapply history_snoc. Qed.

Lemma cwp_online op s : agree lease (kn_cec s) ->
  cwp (cec_must op (set_transport_online lease true))
      (fun _ c => agree lease c /\ cp_pending c = cp_pending (kn_cec s)) s.
Proof.
  intros [Hr Hp]. apply cwp_call. intros t' [] Hf. split; [|done].
  split; simpl; [by eapply reach_step, step_online|].
  rewrite <- Hp. pose proof (cec_reachable_inv _ _ Hr) as Hi.
  apply set_cec_online_inv in Hf as [[-> _]|(_ & _ & Hn & b & _ & ->)]; [done|simpl; congruence|done].
Qed.

Lemma agreeing_online op : agreeing (cec_must op (set_transport_online lease true)).
Proof. intros s Hs. eapply cwp_weaken; [by apply cwp_online|]. by intros a c [? _]. Qed.

Lemma cwp_drop (Q : unit -> cec_part -> Prop) s :
  Q tt {| cp_tracker := cp_tracker (kn_cec s); cp_bridge := cp_bridge (kn_cec s); cp_pending := None |} ->
  cwp drop_pending Q s.
Proof.
  unfold cwp, drop_pending, kbind, kcec. destruct (cp_pending (kn_cec s)) eqn:Hp; [done|].
  unfold kret. simpl. destruct (kn_cec s). simpl in *. by subst.
Qed.

Lemma agreeing_authority b : agreeing (synchronize_cec_authority lease b).
Proof.
  intros s Hs. unfold synchronize_cec_authority. eapply (cwp_bind _ _ _ (fun c c' => agree lease c')); [done|].
  intros c s1 H1. destruct (negb _); [by apply cwp_ret|]. destruct b; [by apply agreeing_online|].
  eapply (cwp_bind _ _ _ (fun _ c => cec_reachable lease (cp_tracker c) /\ cp_pending c = None)).
  { apply cwp_drop. by destruct H1. }
  intros [] s2 [Hr Hn]. apply cwp_track. intros t' [] Hf. split; simpl; [by eapply reach_step, step_suspended|].
  rewrite Hn. unfold record_authority_suspended in Hf. by destruct (ct_binding _); injection Hf as <-.
Qed.

(** The transmit was taken: the kernel is told, or an operation runs for it. *)
Lemma cwp_complete op event completion s :
  cec_reachable lease (cp_tracker (kn_cec s)) -> cp_pending (kn_cec s) = None ->
  cwp (cec_must op (complete_transmit lease event completion)) (fun _ => agree lease) s.
Proof.
  intros Hr Hn. apply cwp_call. intros t' [] Hf. split; simpl; [by eapply reach_step, step_complete|].
  rewrite Hn. by apply complete_inv in Hf as [[_ ?]|(_ & -> & _)].
Qed.

Lemma agreeing_transmit bridge event : agreeing (handle_cec_transmit lease bridge event).
Proof.
  intros s [Hr Hp]. unfold handle_cec_transmit.
  apply (cwp_bind _ _ _ (fun c c' => c = kn_cec s /\ c' = kn_cec s)); [done|]. intros c s1 [-> H1].
  apply (cwp_bind _ _ _ (fun _ c' => c' = kn_cec s /\ cp_pending (kn_cec s) = None)).
  { unfold cwp, klift. case_bool_decide as Hc; [done|]. simpl. split; [done|].
    destruct (cp_pending (kn_cec s)); [exfalso; eauto|done]. }
  intros _ s2 [H2 Hn]. rewrite Hn in Hp.
  apply (cwp_bind _ _ _ (fun a c' => cec_reachable lease (cp_tracker c') /\ cp_pending c' = None /\
     ct_pending (cp_tracker c') = match a with Accepted => Some (key_of event) | Stale => None end)).
  { apply cwp_track. rewrite H2. intros t' a Hf. simpl.
    split_and!; [by eapply reach_step, step_transmit|done|]. unfold record_cec_transmit in Hf.
    destruct (negb _); [done|]. apply record_transmit_inv in Hf as [[-> Ha]|(Ha & _ & b & Hb)].
    - destruct a; [done|]. by rewrite Hp.
    - injection Ha as ->. by destruct Hb as (_ & _ & _ & _ & _ & _ & _ & _ & _ & ->). }
  intros a s3 (Hr3 & Hn3 & Hp3). destruct a; [|apply cwp_ret; split; [done|by rewrite Hn3]].
  eapply cwp_bind; [apply (cwp_apart _ (fun _ c => c = kn_cec s3)); [auto with apart|done]|]. intros m s4 H4.
  eapply cwp_bind; [apply (cwp_apart _ (fun _ c => c = kn_cec s3)); [auto with apart|done]|]. intros tr s5 H5.
  apply (cwp_bind _ _ _ (fun c c' => c = kn_cec s3 /\ c' = kn_cec s3)); [unfold cwp; simpl; by rewrite H5|]. intros c s6 [-> H6].
  apply (cwp_bind _ _ _ (fun _ c' => cp_tracker c' = cp_tracker (kn_cec s3) /\ cp_pending c' = None)); [done|].
  intros _ s7 [H7 Hn7]. rewrite <- H7 in Hr3, Hp3.
  destruct tr.2; [by apply cwp_complete|by apply cwp_complete| |].
  - eapply cwp_bind; [by apply cwp_complete|]. intros _ s8 [Hr8 Hp8]. apply cwp_call. intros t' a Hf.
    injection Hf as <- _. by split.
  - apply (cwp_bind _ _ _ (fun _ c' => c' = kn_cec s7)); [done|]. intros _ s8 H8.
    unfold set_pending. apply (cwp_bind _ _ _ (fun c c' => c = kn_cec s7)); [done|]. intros c s9 ->.
    unfold cwp. simpl. by split.
Qed.

Lemma agreeing_control r : agreeing (on_control lease r).
Proof.
  intros s [Hr Hp]. unfold on_control.
  apply (cwp_bind _ _ _ (fun c c' => c' = kn_cec s)); [done|]. intros c s1 H1.
  apply (cwp_bind _ _ _ (fun _ c' => c' = kn_cec s)); [by apply cwp_apart; [auto with apart|]|]. intros e s2 H2.
  apply (cwp_bind _ _ _ (fun _ c' => cp_tracker c' = cp_tracker (kn_cec s) /\ cp_pending c' = None));
    [unfold cwp; simpl; by rewrite H2|].
  intros _ s3 [H3 Hn3]. apply cwp_complete; [by rewrite H3|done].
Qed.


Lemma agreeing_poll : agreeing (on_poll lease).
Proof.
  unfold on_poll. apply agreeing_bind; [apply agreeing_apart, apart_observe|intros o].
  apply agreeing_bind; [apply agreeing_apart, apart_current|intros cur].
  apply agreeing_bind; [apply agreeing_apart, apart_active|intros a].
  apply agreeing_bind; [apply agreeing_if; apply agreeing_apart; [apply apart_reconcile|apply apart_ret]|intros _].
  apply agreeing_bind; [apply agreeing_if; [apply agreeing_authority|apply agreeing_apart, apart_ret]|intros _].
  apply agreeing_bind; [apply agreeing_apart, apart_publish|intros _].
  apply agreeing_if; apply agreeing_apart; [apply apart_fail|apply apart_ret].
Qed.

Lemma agreeing_event e : agreeing (on_event lease config e).
Proof.
  destruct e as [frame|event|event|event|u]; simpl.
  - apply agreeing_apart, apart_then_queue, apart_frame.
  - unfold on_cec_transmit. apply agreeing_bind; [apply agreeing_apart, apart_kcec|intros c].
    apply agreeing_bind.
    { apply agreeing_if; [apply agreeing_apart, apart_ret|].
      apply agreeing_bind; [apply agreeing_apart, apart_grant|intros r].
      apply agreeing_bind; [apply agreeing_apart, apart_klift|intros g].
      apply agreeing_bind; [apply agreeing_apart, apart_reconcile|intros _].
      apply agreeing_if; [apply agreeing_authority|apply agreeing_apart, apart_ret]. }
    intros _. apply agreeing_bind; [apply agreeing_apart, apart_kcec|intros c'].
    apply agreeing_bind; [apply agreeing_apart, apart_klift|intros b].
    apply agreeing_bind; [apply agreeing_apart, apart_klift|intros _]. apply agreeing_transmit.
  - unfold on_grant_state. apply agreeing_bind; [apply agreeing_apart, apart_reconcile|intros _].
    apply agreeing_bind; [apply agreeing_authority|intros _].
    apply agreeing_apart, apart_bind; [apply apart_observe|intros o].
    apply apart_bind; [apply apart_publish|intros _]. auto 10 using apart_fail with apart.
  - unfold on_revoked. apply agreeing_bind; [apply agreeing_authority|intros _].
    apply agreeing_apart, apart_bind; [apply apart_act|intros _].
    auto 10 using apart_fail, apart_reconcile with apart.
  - apply agreeing_apart, apart_ret.
Qed.

Lemma agreeing_batch l : agreeing (on_batch lease config l).
Proof.
  induction l as [|e l IH]; simpl; [apply agreeing_apart, apart_ret|].
  by apply agreeing_bind; [apply agreeing_event|].
Qed.

Lemma turn_agrees input s : agree lease (kn_cec s) ->
  cwp (turn lease config input) (fun b c => b = true -> agree lease c) s.
Proof.
  assert (forall m : KM unit, agreeing m -> agree lease (kn_cec s) ->
    cwp (do@ m; kret true) (fun b c => b = true -> agree lease c) s) as Hm.
  { intros m Hm Hs. eapply cwp_bind; [by apply Hm|]. intros u s' Hs'. by apply cwp_ret. }
  destruct input as [request|g|g|g| | | |read|result| |event]; simpl.
  - apply Hm, agreeing_apart, apart_on_start.
  - apply Hm, agreeing_apart, apart_on_select.
  - apply Hm, agreeing_apart, apart_on_select.
  - apply Hm, agreeing_apart, apart_on_stop.
  - intros _. eapply (cwp_bind _ _ _ (fun _ _ => True)); [|intros; by apply cwp_ret].
    unfold cwp. by destruct (on_detach lease s) as [s' [[]|e|]].
  - done.
  - apply Hm, agreeing_poll.
  - apply Hm. unfold on_events. apply agreeing_bind; [apply agreeing_apart, apart_klift|intros batch].
    apply agreeing_bind; [apply agreeing_apart, apart_record|intros r].
    apply agreeing_bind; [apply agreeing_apart; auto with apart|intros _]. apply agreeing_batch.
  - apply Hm, agreeing_control.
  - apply Hm, agreeing_apart, apart_queue.
  - apply Hm, agreeing_apart, apart_then_queue. destruct event; [apply apart_source|apply apart_raise].
Qed.

Definition calm (c : cec_part) : Prop := agree lease c /\ cp_pending c = None.

Lemma spawn_agrees : preserving calm (spawn lease config).
Proof.
  unfold spawn, bind_cec. apply agreeing_bind; [apply agreeing_apart, apart_klift|intros _].
  apply agreeing_bind; [apply agreeing_apart, apart_observe|intros o'].
  apply agreeing_bind; [|intros _; apply agreeing_apart; auto 10 with apart].
  apply agreeing_if; [|apply agreeing_apart, apart_ret].
  apply agreeing_bind; [apply agreeing_apart, apart_see|intros caps].
  apply agreeing_bind; [apply agreeing_apart, apart_klift|intros [c|]]; [|apply agreeing_apart, apart_ret].
  apply agreeing_bind; [apply agreeing_apart, apart_klift|intros _].
  apply agreeing_bind.
  - intros s0 [[Hr Hp] Hn]. apply cwp_call. intros t' b Hf. split; [|done].
    split; simpl; [by eapply reach_step, step_bind|].
    rewrite <- Hp. by apply bind_inv in Hf as [[-> _]|(b' & _ & _ & _ & _ & _ & _ & ->)].
  - intros _ s0 [Hs Hn]. eapply cwp_weaken; [by apply cwp_online|]. intros a c' [? Hc]. by split; [|rewrite Hc].
Qed.

Lemma launch_agrees o : cwp (launch lease config) (fun _ => agree lease) (unborn o).
Proof.
  unfold launch. eapply cwp_bind; [apply spawn_agrees|].
  { split; [|done]. split; [exists []; apply history_nil|done]. }
  intros r s1 [[Hr Hp] Hn1]. unfold begin_run.
  apply (cwp_bind _ _ _ (fun c c' => c = kn_cec s1)); [done|]. intros c s2 ->.
  apply (cwp_bind _ _ _ (fun _ c' => agree lease c')).
  - unfold cwp. simpl. split; [done|]. simpl. by rewrite Hp, Hn1.
  - intros _ s3 H3. apply agreeing_apart; [|done]. apply apart_bind; [apply apart_observe|]. auto with apart.
Qed.

Lemma runs_agree s : kernel_runs lease config s -> agree lease (kn_cec s).
Proof.
  induction 1 as [o s Hl|s input s' _ IH _ Hturn].
  - pose proof (launch_agrees o) as H. unfold cwp in H. by rewrite Hl in H.
  - pose proof (turn_agrees input s IH) as H. unfold cwp in H. rewrite Hturn in H. by apply H.
Qed.
End Agree.

(** How a device operation's end is reported. *)
Definition completion_of (r : joined (outcome (list Z) unit)) (e : CecTransmitEvent) : CecCompletion :=
  match r with
  | Joined (Ok _) => succeeded
  | Joined _ => not_acknowledged (te_attempts e)
  | JoinFailed _ => CastkmsCec.failed
  end.

(** C11: Every device operation is answered for: whenever the actor waits for the
    operation of a CEC message, the client still processes that very transmit,
    and when the operation ends, in whatever way, the kernel is told so once,
    with the outcome of that operation; the actor goes on and waits for no
    operation, unless the kernel refuses the completion.  While no operation
    runs, no transmit is being processed. *)
Theorem device_control_answered `{K : CaptureKernel} `{W : KernelWorld} lease config s :
  kernel_runs lease config s ->
  ct_pending (cp_tracker (kn_cec s)) = key_of <$> cp_pending (kn_cec s) /\
  forall e r, cp_pending (kn_cec s) = Some e ->
    (forall a, drm_ioctl_castkms_cec_tx_complete (cec_kernel (kn_trace s)) a = Ok tt) ->
    exists s', turn lease config (InControl r) s = (s', Ok true) /\
      cp_pending (kn_cec s') = None /\ ct_pending (cp_tracker (kn_cec s')) = None /\
      kn_trace s' = kn_trace s ++ [CecComplete e (completion_of r e) true].
Proof.
  intros Hs%runs_agree. destruct Hs as [Hr Hp]. split; [done|]. intros e r He Hk.
  rewrite He in Hp. simpl in Hp. pose proof (cec_reachable_inv _ _ Hr) as Hi.
  destruct (inv_pending _ Hi _ Hp) as (b & Hb & _).
  assert (complete_cec_transmit (cec_kernel (kn_trace s)) lease (cp_tracker (kn_cec s)) e (completion_of r e)
          = (complete (cp_tracker (kn_cec s)), Ok tt)) as Hc.
  { unfold complete_cec_transmit, validate_completion, tracker_binding. rewrite Hp, Hb.
    cbn [ok_or obind key_of pt_transport_generation pt_cookie]. rewrite !Z.eqb_refl. cbn [negb orb reject obind].
    by rewrite Hk. }
  eexists. split.
  - unfold turn, on_control, kbind at 1. unfold kbind, kcec. cbv beta iota. unfold klift. rewrite He. cbn [expect].
    unfold set_pending, kbind, kcec, set_cec. cbv beta iota. unfold cec_must, kbind, complete_transmit, cec_call.
    cbn [kn_trace with_cec kn_cec cp_tracker]. unfold completion_of in Hc. rewrite Hc. reflexivity.
  - done.
Qed.

(** ** A run *)

(** The source asks the television to go to standby. *)
Definition standby_event : CecTransmitEvent :=
  {| te_transport_id := 5; te_transport_generation := 9; te_state_generation := 2; te_cookie := 11;
     te_connector_id := 42; te_output_index := 0; te_attempts := 1; te_signal_free_time := 7;
     te_message_length := 2; te_message := [64; 54] ++ replicate 14 0 |}.

Definition standby_inputs : list kernel_input := [InEvents (Ok [CecTransmit standby_event])].
Definition standby_state : kernel := default casting_launched (casting standby_inputs casting_launched).

Lemma standby_runs :
  kernel_runs (K := casting_kernel) (W := casting_world) casting_lease casting_config standby_state.
Proof.
  apply (casting_runs standby_inputs casting_launched).
  - exact (runs_start (K := casting_kernel) (W := casting_world) _ _ _ _ casting_launches).
  - vm_compute. reflexivity.
Qed.

Lemma device_control_answered_witness :
  cp_pending (kn_cec standby_state) = Some standby_event /\
  exists s', turn (K := casting_kernel) (W := casting_world) casting_lease casting_config
               (InControl (Joined (Err []))) standby_state = (s', Ok true) /\
    cp_pending (kn_cec s') = None /\ ct_pending (cp_tracker (kn_cec s')) = None /\
    kn_trace s' = kn_trace standby_state
      ++ [CecComplete standby_event (completion_of (Joined (Err [])) standby_event) true].
Proof.
  assert (cp_pending (kn_cec standby_state) = Some standby_event) as H by (vm_compute; reflexivity).
  split; [exact H|].
  destruct (device_control_answered (K := casting_kernel) (W := casting_world) casting_lease casting_config
              standby_state standby_runs) as [_ Hc].
  apply (Hc standby_event (Joined (Err [])) H). intros a. reflexivity.
Defined.

(** The events read after a stop reach the tracker of the client only: a CEC
    message among them is neither handled nor answered. *)
Definition is_cec_action (a : kernel_action) : bool :=
  match a with SpawnControl _ | CecComplete _ _ _ | CecInject _ _ => true | _ => false end.

Example transmit_read_at_stop_is_lost :
  let r := turn (K := casting_kernel) (W := casting_world_reading [CecTransmit standby_event]) casting_lease casting_config
             (InStop 9) casting_before in
  r.2 = Ok true /\ existsb is_cec_action (kn_trace r.1) = false /\ ct_pending (cp_tracker (kn_cec r.1)) = None.
Proof. vm_compute. done. Qed.
