(* ===== verification/PortLife.v ===== *)
(** * The life of a port

    An actor is handed ports, one at a time, and has to let go of each of them:
    a port is fresh, then either refused or held, and when it is let go it is
    shut down, once, and not used again.  [life_of] reads the life of a port off
    a log of what was done with the ports, and [owned] ties the log to the port
    that the actor holds. *)

From S2P Require Import Prelude.

Inductive port_note := PortTaken (id : Z) | PortUsed (id : Z) | PortShut (id : Z).

Inductive life := Fresh | Held | Gone | Misused.

Global Instance life_eq_dec : EqDecision life.
Proof. solve_decision. Defined.

Definition life_step (id : Z) (l : life) (n : port_note) : life :=
  match n with
  | PortTaken i => if i =? id then match l with Fresh => Held | _ => Misused end else l
  | PortUsed i => if i =? id then match l with Held => Held | _ => Misused end else l
  | PortShut i => if i =? id then match l with Fresh | Held => Gone | _ => Misused end else l
  end.

Definition life_of (id : Z) (log : list port_note) : life := foldl (life_step id) Fresh log.

Lemma life_of_app id l l' : life_of id (l ++ l') = foldl (life_step id) (life_of id l) l'.
Proof. unfold life_of. by rewrite foldl_app. Qed.

(** What a port's life is, by whether it is held and whether it was handed over. *)
Definition life_by (held : option Z) (given : list Z) (id : Z) : life :=
  if decide (held = Some id) then Held else if decide (id ∈ given) then Gone else Fresh.

Record owned (given : list Z) (log : list port_note) (held : option Z) (running : bool) : Prop := {
  ow_life id : life_of id log = life_by held given id;
  ow_given id : held = Some id -> id ∈ given;
  ow_ended : running = false -> held = None }.

Lemma owned_start : owned [] [] None true.
Proof. by split. Qed.

Lemma owned_used given log held running running' ns :
  owned given log held running -> Forall (fun n => exists id, held = Some id /\ n = PortUsed id) ns ->
  (running' = false -> running = false) -> owned given (log ++ ns) held running'.
Proof.
  intros [Hl Hg He] Hns Hr. split; [|done|auto]. intros id. rewrite life_of_app, Hl.
  induction Hns as [|n ns (i & -> & ->) _ IH]; [done|]. cbn. unfold life_by in *.
  destruct (Z.eqb_spec i id) as [->|Hne]; [by rewrite decide_True in * by done|done].
Qed.

Lemma owned_same given log held running running' :
  owned given log held running -> (running' = false -> held = None) -> owned given log held running'.
Proof. intros [Hl Hg He] Hr. by split. Qed.

Definition shut (held : option Z) : list port_note := match held with Some s => [PortShut s] | None => [] end.

Lemma owned_let_go given log held running running' :
  owned given log held running -> owned given (log ++ shut held) None running'.
Proof.
  intros [Hl Hg He]. split; try done. intros id. rewrite life_of_app, Hl. unfold life_by.
  rewrite (decide_False (P:=None = Some id)) by done.
  destruct held as [s|]; cbn; [|done]. destruct (Z.eqb_spec s id) as [->|Hne].
  - rewrite decide_True by done. rewrite decide_True by auto. done.
  - rewrite decide_False by congruence. done.
Qed.

Lemma owned_took given log s :
  owned given log None true -> s ∉ given -> owned (given ++ [s]) (log ++ [PortTaken s]) (Some s) true.
Proof.
  intros [Hl Hg He] Hs. split; [intros id|intros id; set_solver|done].
  rewrite life_of_app, Hl. cbn. unfold life_by. destruct (Z.eqb_spec s id) as [->|Hne].
  - by rewrite (decide_False (P:=None = Some id)), (decide_False (P:=id ∈ given)), decide_True by done.
  - rewrite (decide_False (P:=Some s = Some id)) by congruence. repeat case_decide; set_solver.
Qed.

Lemma owned_refused given log held running s :
  owned given log held running -> s ∉ given -> owned (given ++ [s]) (log ++ [PortShut s]) held running.
Proof.
  intros [Hl Hg He] Hs. split; [intros id|intros id; set_solver|done].
  rewrite life_of_app, Hl. cbn. unfold life_by. destruct (Z.eqb_spec s id) as [->|Hne].
  - rewrite decide_False by (intros H; by apply Hs, Hg). repeat case_decide; set_solver.
  - repeat case_decide; set_solver.
Qed.
