(* ===== verification/CastVideoSender.v ===== *)
(** * The video sender of the Cast backend (crates/pronk-chromiacast/src/sender_actor.rs, transport.rs)

    An actor that takes the encoded frames of the media graph off a bounded
    channel and hands them to the Cast transport of the current media
    generation.  It answers the commands of the media session, watches what the
    transport reports, and leaves frames out while the transport is congested.

    A run of the actor is a list of events: a command, a frame that is taken off
    the channel, a report of the transport, or the end of one of the channels.
    What the transport answers is part of the event.  The actor's log records
    what it did with its transports and with every frame.

    The theorems: end to end, from the encoder to the transport, no delta frame
    is accepted whose predecessor was not; and a transport that the actor was
    given is shut down exactly once and not used after that. *)

From S2P Require Import Prelude Bytes Text Time PortLife EncodedVideo Feedback.

Definition MAX_TRANSPORT_ERROR_BYTES : nat := 512.
Definition VideoTransportError_new (message : list Z) : list Z := bounded_text message MAX_TRANSPORT_ERROR_BYTES.

Abbreviation result A := (list Z + A)%type.

(** ** Data *)

Inductive VideoCodec := Vp8 | H264.

Inductive VideoSendOutcome := SendAccepted | SendCongested.

(** What a report of the transport says; the terminal error is a text. *)
Record VideoTransportFeedbackSnapshot := {
  tf_revision : Z; tf_key_frame_requests : Z; tf_acknowledged_frames : Z;
  tf_acknowledged_audio_packets : Z; tf_pressure : option VideoTransportPressure;
  tf_terminal_error : option (list Z) }.

(** A negotiated transport's sender ports are named by numbers. *)
Record NegotiatedVideoTransport := {
  nt_video_codec : VideoCodec; nt_sender : Z; nt_audio_sender : option Z; nt_minimum_bitrate : option Z }.

Record VideoSenderStatistics := {
  vs_frames : Z; vs_acknowledged_frames : Z; vs_acknowledged_audio_packets : Z; vs_key_frames : Z;
  vs_encoded_bytes : Z; vs_dropped_frames : Z; vs_queue_delay : Z }.

Definition VideoSenderStatistics_default : VideoSenderStatistics :=
  {| vs_frames := 0; vs_acknowledged_frames := 0; vs_acknowledged_audio_packets := 0; vs_key_frames := 0;
     vs_encoded_bytes := 0; vs_dropped_frames := 0; vs_queue_delay := 0 |}.

Inductive VideoSenderState :=
  | SenderEmpty | SenderConfigured | SenderStreaming | SenderSuspended | SenderFailed | SenderStopped.

Global Instance VideoSenderState_eq_dec : EqDecision VideoSenderState.
Proof. solve_decision. Defined.

Record VideoSenderSnapshot := {
  sn_generation : option Z; sn_state : VideoSenderState; sn_statistics : VideoSenderStatistics;
  sn_last_error : option (list Z) }.

(** [sender_actor::VideoSenderFeedbackSnapshot], all of it. *)
Record SenderFeedback := {
  sf_revision : Z; sf_generation : option Z; sf_key_frame_requests : Z; sf_acknowledged_frames : Z;
  sf_pressure : option VideoTransportPressure; sf_terminal_error : option (list Z) }.

Definition SenderFeedback_default : SenderFeedback :=
  {| sf_revision := 0; sf_generation := None; sf_key_frame_requests := 0; sf_acknowledged_frames := 0;
     sf_pressure := None; sf_terminal_error := None |}.

Inductive Transition := TransitionStart | TransitionSuspend | TransitionResume.

Inductive Command :=
  | CmdConfigure (generation : Z) (transport : NegotiatedVideoTransport)
  | CmdTransition (generation : Z) (transition : Transition)
  | CmdSetTargetPlayoutDelay (generation : Z) (delay : Z)
  | CmdStop (generation : Z)
  | CmdStatistics (generation : Z)
  | CmdShutdown.

Inductive Reply := ReplyUnit (r : result unit) | ReplyStatistics (r : result VideoSenderStatistics).

Record ActiveSender := {
  as_generation : Z; as_state : VideoSenderState; as_sender : option Z; as_feedback_open : bool;
  as_observed_key_frame_requests : Z; as_pressure_limited : bool; as_needs_key_frame : bool;
  as_statistics : VideoSenderStatistics }.

(** What [sender.send] comes to within the five seconds it is given. *)
Inductive send_answer := Sends (o : VideoSendOutcome) | SendFails (e : list Z) | SendTimesOut.

(** The log. [Took] is a transport that became the actor's. *)
Inductive note :=
  | Took (sender : Z)
  | Sent (sender : Z) (unit : EncodedVideoAccessUnit) (answer : send_answer)
  | LeftOut (unit : EncodedVideoAccessUnit)
  | Stale (unit : EncodedVideoAccessUnit)
  | DelaySet (sender : Z) (delay : Z)
  | ShutDown (sender : Z)
  | AudioShutDown (sender : Z).

(** [va_output] is the receiving end of the graph's channel, [va_source] whether
    the graph still has the other one. *)
Record video_actor := {
  va_active : option ActiveSender; va_completed : option Z; va_output : channel EncodedVideoAccessUnit;
  va_source : bool; va_snapshot : VideoSenderSnapshot; va_feedback : SenderFeedback; va_running : bool;
  va_log : list note }.

Definition with_active (x : option ActiveSender) (a : video_actor) : video_actor :=
  {| va_active := x; va_completed := va_completed a; va_output := va_output a; va_source := va_source a;
     va_snapshot := va_snapshot a; va_feedback := va_feedback a; va_running := va_running a; va_log := va_log a |}.
Definition with_completed (x : option Z) (a : video_actor) : video_actor :=
  {| va_active := va_active a; va_completed := x; va_output := va_output a; va_source := va_source a;
     va_snapshot := va_snapshot a; va_feedback := va_feedback a; va_running := va_running a; va_log := va_log a |}.
Definition with_output (x : channel EncodedVideoAccessUnit) (a : video_actor) : video_actor :=
  {| va_active := va_active a; va_completed := va_completed a; va_output := x; va_source := va_source a;
     va_snapshot := va_snapshot a; va_feedback := va_feedback a; va_running := va_running a; va_log := va_log a |}.
Definition with_snapshot (x : VideoSenderSnapshot) (a : video_actor) : video_actor :=
  {| va_active := va_active a; va_completed := va_completed a; va_output := va_output a; va_source := va_source a;
     va_snapshot := x; va_feedback := va_feedback a; va_running := va_running a; va_log := va_log a |}.
Definition with_feedback (x : SenderFeedback) (a : video_actor) : video_actor :=
  {| va_active := va_active a; va_completed := va_completed a; va_output := va_output a; va_source := va_source a;
     va_snapshot := va_snapshot a; va_feedback := x; va_running := va_running a; va_log := va_log a |}.
Definition stopped (a : video_actor) : video_actor :=
  {| va_active := va_active a; va_completed := va_completed a; va_output := close_receiver (va_output a);
     va_source := va_source a; va_snapshot := va_snapshot a; va_feedback := va_feedback a; va_running := false;
     va_log := va_log a |}.
Definition source_closed (a : video_actor) : video_actor :=
  {| va_active := va_active a; va_completed := va_completed a; va_output := va_output a; va_source := false;
     va_snapshot := va_snapshot a; va_feedback := va_feedback a; va_running := va_running a; va_log := va_log a |}.
Definition noted (n : list note) (a : video_actor) : video_actor :=
  {| va_active := va_active a; va_completed := va_completed a; va_output := va_output a; va_source := va_source a;
     va_snapshot := va_snapshot a; va_feedback := va_feedback a; va_running := va_running a;
     va_log := va_log a ++ n |}.

Definition video_sender_spawn (output : channel EncodedVideoAccessUnit) : video_actor :=
  {| va_active := None; va_completed := None; va_output := output; va_source := true;
     va_snapshot := {| sn_generation := None; sn_state := SenderEmpty;
                       sn_statistics := VideoSenderStatistics_default; sn_last_error := None |};
     va_feedback := SenderFeedback_default; va_running := true; va_log := [] |}.

(** ** Operations *)

Definition publish (generation : option Z) (state : VideoSenderState) (statistics : VideoSenderStatistics)
    (last_error : option (list Z)) : video_actor -> video_actor :=
  with_snapshot {| sn_generation := generation; sn_state := state; sn_statistics := statistics;
                   sn_last_error := last_error |}.

(** The current state of the active sender, published. *)
Definition publish_active (x : ActiveSender) : video_actor -> video_actor :=
  publish (Some (as_generation x)) (as_state x) (as_statistics x) None.

Definition publish_feedback (generation : Z) (request_key_frame : bool) (acknowledged_frames : Z)
    (pressure : option VideoTransportPressure) (a : video_actor) : video_actor :=
  let f := va_feedback a in
  with_feedback
    {| sf_revision := saturating_add64 (sf_revision f) 1;
       sf_generation := Some generation;
       sf_key_frame_requests := saturating_add64 (sf_key_frame_requests f) (Z.b2z request_key_frame);
       sf_acknowledged_frames := acknowledged_frames;
       sf_pressure := match pressure with Some _ => pressure | None => sf_pressure f end;
       sf_terminal_error := sf_terminal_error f |} a.

Definition sender_mismatch (active requested : Z) : list Z :=
  VideoTransportError_new (codes "requested video sender generation " ++ display_uint requested
                           ++ codes "; active generation is " ++ display_uint active).

Definition matching_active (a : video_actor) (generation : Z) : result ActiveSender :=
  match va_active a with
  | None => inl (VideoTransportError_new (codes "there is no active video sender generation"))
  | Some x => if negb (as_generation x =? generation) then inl (sender_mismatch (as_generation x) generation)
              else inr x
  end.

Definition debug_option (g : option Z) : list Z :=
  match g with None => codes "None" | Some g => codes "Some(" ++ display_uint g ++ codes ")" end.

Definition not_newer (completed : option Z) (generation : Z) : bool :=
  match completed with Some done => generation <=? done | None => false end.

Definition drained (ch : channel EncodedVideoAccessUnit) : channel EncodedVideoAccessUnit :=
  {| ch_capacity := ch_capacity ch; ch_queue := []; ch_closed := ch_closed ch |}.

Definition configure_active (generation : Z) (t : NegotiatedVideoTransport) (a : video_actor)
  : result unit * video_actor :=
  match nt_audio_sender t with
  | Some audio =>
      (inl (VideoTransportError_new
              (codes "audio sender was not split from negotiated transport before configuring video")),
       noted [AudioShutDown audio; ShutDown (nt_sender t)] a)
  | None =>
      if bool_decide (is_Some (va_active a)) then
        (inl (VideoTransportError_new (codes "a video sender generation is already active")),
         noted [ShutDown (nt_sender t)] a)
      else if not_newer (va_completed a) generation then
        (inl (VideoTransportError_new
                (codes "video sender generation " ++ display_uint generation ++ codes " is not newer than "
                 ++ debug_option (va_completed a))),
         noted [ShutDown (nt_sender t)] a)
      else
        let x := {| as_generation := generation; as_state := SenderConfigured; as_sender := Some (nt_sender t);
                    as_feedback_open := true; as_observed_key_frame_requests := 0; as_pressure_limited := false;
                    as_needs_key_frame := false; as_statistics := VideoSenderStatistics_default |} in
        let a := noted [Took (nt_sender t)] (with_active (Some x) (with_output (drained (va_output a)) a)) in
        let a := with_feedback
                   {| sf_revision := saturating_add64 (sf_revision (va_feedback a)) 1;
                      sf_generation := Some generation; sf_key_frame_requests := 0; sf_acknowledged_frames := 0;
                      sf_pressure := None; sf_terminal_error := None |} a in
        (inr tt, publish_active x a)
  end.

(** What a report changes, and whether a key frame is to be asked for. *)
Definition acknowledge (f : VideoTransportFeedbackSnapshot) (s : VideoSenderStatistics) : VideoSenderStatistics :=
  {| vs_frames := vs_frames s; vs_acknowledged_frames := tf_acknowledged_frames f;
     vs_acknowledged_audio_packets := tf_acknowledged_audio_packets f; vs_key_frames := vs_key_frames s;
     vs_encoded_bytes := vs_encoded_bytes s; vs_dropped_frames := vs_dropped_frames s;
     vs_queue_delay := vs_queue_delay s |}.

Definition report (x : ActiveSender) (f : VideoTransportFeedbackSnapshot) : ActiveSender * bool :=
  let asked := as_observed_key_frame_requests x <? tf_key_frame_requests f in
  let limited := match tf_pressure f with Some p => queue_saturated p | None => as_pressure_limited x end in
  let changed := negb (eqb limited (as_pressure_limited x)) in
  let unacknowledged := match tf_pressure f with
                        | Some p => (tf_acknowledged_frames f =? 0) && negb (in_flight_frames p =? 0)
                        | None => false
                        end in
  ({| as_generation := as_generation x; as_state := as_state x; as_sender := as_sender x;
      as_feedback_open := as_feedback_open x;
      as_observed_key_frame_requests := if asked then tf_key_frame_requests f
                                        else as_observed_key_frame_requests x;
      as_pressure_limited := limited;
      as_needs_key_frame := as_needs_key_frame x || asked || changed || unacknowledged;
      as_statistics := acknowledge f (as_statistics x) |},
   asked || (changed && negb limited) || unacknowledged).

Definition process_transport_feedback (f : VideoTransportFeedbackSnapshot) (a : video_actor)
  : result unit * video_actor :=
  match va_active a with
  | None => (inr tt, a)
  | Some x =>
      match tf_terminal_error f with
      | Some e => (inl e, a)
      | None =>
          let '(x, request_key_frame) := report x f in
          (inr tt,
           publish_active x
             (publish_feedback (as_generation x) request_key_frame (tf_acknowledged_frames f) (tf_pressure f)
                (with_active (Some x) a)))
      end
  end.

Definition with_statistics (s : VideoSenderStatistics) (x : ActiveSender) : ActiveSender :=
  {| as_generation := as_generation x; as_state := as_state x; as_sender := as_sender x;
     as_feedback_open := as_feedback_open x; as_observed_key_frame_requests := as_observed_key_frame_requests x;
     as_pressure_limited := as_pressure_limited x; as_needs_key_frame := as_needs_key_frame x;
     as_statistics := s |}.
Definition with_pressure (limited needs : bool) (x : ActiveSender) : ActiveSender :=
  {| as_generation := as_generation x; as_state := as_state x; as_sender := as_sender x;
     as_feedback_open := as_feedback_open x; as_observed_key_frame_requests := as_observed_key_frame_requests x;
     as_pressure_limited := limited; as_needs_key_frame := needs; as_statistics := as_statistics x |}.
Definition with_state (s : VideoSenderState) (x : ActiveSender) : ActiveSender :=
  {| as_generation := as_generation x; as_state := s; as_sender := as_sender x;
     as_feedback_open := as_feedback_open x; as_observed_key_frame_requests := as_observed_key_frame_requests x;
     as_pressure_limited := as_pressure_limited x; as_needs_key_frame := as_needs_key_frame x;
     as_statistics := as_statistics x |}.

Definition count_dropped (queue_delay : Z) (s : VideoSenderStatistics) : VideoSenderStatistics :=
  {| vs_frames := vs_frames s; vs_acknowledged_frames := vs_acknowledged_frames s;
     vs_acknowledged_audio_packets := vs_acknowledged_audio_packets s; vs_key_frames := vs_key_frames s;
     vs_encoded_bytes := vs_encoded_bytes s; vs_dropped_frames := saturating_add64 (vs_dropped_frames s) 1;
     vs_queue_delay := queue_delay |}.

Definition count_sent (u : EncodedVideoAccessUnit) (queue_delay : Z) (s : VideoSenderStatistics)
  : VideoSenderStatistics :=
  {| vs_frames := saturating_add64 (vs_frames s) 1; vs_acknowledged_frames := vs_acknowledged_frames s;
     vs_acknowledged_audio_packets := vs_acknowledged_audio_packets s;
     vs_key_frames := saturating_add64 (vs_key_frames s) (Z.b2z (bool_decide (au_dependency u = KeyFrame)));
     vs_encoded_bytes := saturating_add64 (vs_encoded_bytes s) (blen (au_data u));
     vs_dropped_frames := vs_dropped_frames s; vs_queue_delay := queue_delay |}.

(** A frame the transport could not admit or the receiver could not decode. *)
Definition leaves_out (x : ActiveSender) (u : EncodedVideoAccessUnit) : bool :=
  (as_pressure_limited x
   && (negb (vs_acknowledged_frames (as_statistics x) =? 0) || negb (bool_decide (au_dependency u = KeyFrame))))
  || (as_needs_key_frame x && bool_decide (au_dependency u = Delta)).

Definition forward_access_unit (u : EncodedVideoAccessUnit) (now : Z) (answer : send_answer) (a : video_actor)
  : result unit * video_actor :=
  match va_active a with
  | None => (inl (VideoTransportError_new (codes "video sender is missing")), a)
  | Some x =>
      let delay := vs_queue_delay (as_statistics x) in
      if negb (au_media_generation u =? as_generation x) then
        (inr tt, noted [Stale u]
                   (with_active (Some (with_statistics (count_dropped delay (as_statistics x)) x)) a))
      else if leaves_out x u then
        let x := with_statistics (count_dropped delay (as_statistics x)) x in
        (inr tt, publish_active x (noted [LeftOut u] (with_active (Some x) a)))
      else
        let queue_delay := default 0 (checked_duration_since now (au_reference_time u)) in
        match as_sender x with
        | None => (inl (VideoTransportError_new (codes "video sender transport is missing")), a)
        | Some sender =>
            let a := noted [Sent sender u answer] a in
            match answer with
            | SendTimesOut => (inl (VideoTransportError_new (codes "timed out enqueueing encoded video")), a)
            | SendFails e => (inl e, a)
            | Sends SendCongested =>
                let x := with_pressure true true (with_statistics (count_dropped queue_delay (as_statistics x)) x) in
                (inr tt,
                 publish_active x
                   (publish_feedback (as_generation x) true (vs_acknowledged_frames (as_statistics x)) None
                      (with_active (Some x) a)))
            | Sends SendAccepted =>
                let x := with_pressure (as_pressure_limited x)
                           (if bool_decide (au_dependency u = KeyFrame) then false else as_needs_key_frame x)
                           (with_statistics (count_sent u queue_delay (as_statistics x)) x) in
                (inr tt, publish_active x (with_active (Some x) a))
            end
        end
  end.

(** The transport of a generation that failed is shut down at once. *)
Definition shut_sender (x : ActiveSender) : list note :=
  match as_sender x with Some sender => [ShutDown sender] | None => [] end.

Definition fail_active (error : list Z) (a : video_actor) : video_actor :=
  match va_active a with
  | None => a
  | Some x =>
      let x' := {| as_generation := as_generation x; as_state := SenderFailed; as_sender := None;
                   as_feedback_open := false;
                   as_observed_key_frame_requests := as_observed_key_frame_requests x;
                   as_pressure_limited := as_pressure_limited x; as_needs_key_frame := as_needs_key_frame x;
                   as_statistics := as_statistics x |} in
      let f := va_feedback a in
      publish (Some (as_generation x)) SenderFailed (as_statistics x) (Some error)
        (with_feedback
           {| sf_revision := saturating_add64 (sf_revision f) 1; sf_generation := Some (as_generation x);
              sf_key_frame_requests := sf_key_frame_requests f;
              sf_acknowledged_frames := sf_acknowledged_frames f; sf_pressure := sf_pressure f;
              sf_terminal_error := Some error |}
           (noted (shut_sender x) (with_active (Some x') a)))
  end.

Definition debug_state (s : VideoSenderState) : list Z :=
  codes match s with
        | SenderEmpty => "Empty" | SenderConfigured => "Configured" | SenderStreaming => "Streaming"
        | SenderSuspended => "Suspended" | SenderFailed => "Failed" | SenderStopped => "Stopped"
        end.

Definition transition_states (t : Transition) : VideoSenderState * VideoSenderState :=
  match t with
  | TransitionStart => (SenderConfigured, SenderStreaming)
  | TransitionSuspend => (SenderStreaming, SenderSuspended)
  | TransitionResume => (SenderSuspended, SenderStreaming)
  end.

Definition transition_active (generation : Z) (t : Transition) (a : video_actor) : result unit * video_actor :=
  match matching_active a generation with
  | inl e => (inl e, a)
  | inr x =>
      let '(required, desired) := transition_states t in
      if negb (bool_decide (as_state x = required)) then
        (inl (VideoTransportError_new
                (codes "video sender generation " ++ display_uint generation ++ codes " is "
                 ++ debug_state (as_state x) ++ codes "; expected " ++ debug_state required)), a)
      else (inr tt, publish_active (with_state desired x) (with_active (Some (with_state desired x)) a))
  end.

(** [answer] is the transport's. *)
Definition set_target_playout_delay (generation delay : Z) (answer : result unit) (a : video_actor)
  : result unit * video_actor :=
  match matching_active a generation with
  | inl e => (inl e, a)
  | inr x =>
      match as_sender x with
      | None => (inl (VideoTransportError_new (codes "video sender transport is missing")), a)
      | Some sender => (answer, noted [DelaySet sender delay] a)
      end
  end.

Definition stop_active (generation : Z) (answer : result unit) (a : video_actor)
  : result VideoSenderStatistics * video_actor :=
  match va_active a with
  | None =>
      (if bool_decide (va_completed a = Some generation) then inr VideoSenderStatistics_default
       else inl (VideoTransportError_new (codes "there is no matching video sender generation to stop")), a)
  | Some x =>
      if negb (as_generation x =? generation) then (inl (sender_mismatch (as_generation x) generation), a)
      else
        let a := noted (shut_sender x) (with_active None a) in
        (match as_sender x, answer with
         | Some _, inl e => inl e
         | _, _ => inr (as_statistics x)
         end, a)
  end.

Definition shutdown_active (answer : result unit) (a : video_actor) : result unit * video_actor :=
  match va_active a with
  | None => (inr tt, a)
  | Some x =>
      (match as_sender x with Some _ => answer | None => inr tt end,
       noted (shut_sender x) (with_active None a))
  end.

Definition active_statistics (generation : Z) (a : video_actor) : result VideoSenderStatistics :=
  match va_active a with
  | Some x =>
      if negb (as_generation x =? generation) then inl (sender_mismatch (as_generation x) generation)
      else if bool_decide (as_state x = SenderFailed) then
        inl (VideoTransportError_new
               (default (codes "video sender failed without diagnostic detail") (sn_last_error (va_snapshot a))))
      else inr (as_statistics x)
  | None =>
      if bool_decide (va_completed a = Some generation) then inr (sn_statistics (va_snapshot a))
      else inl (VideoTransportError_new (codes "there is no matching video sender generation for statistics"))
  end.

(** ** The loop *)

Inductive event :=
  | Commanded (c : Command) (answer : result unit)
  | CommandsClosed
  | UnitReceived (now : Z) (answer : send_answer)
  | FeedbackChanged (f : VideoTransportFeedbackSnapshot)
  | FeedbackClosed
  | UnitArrives (access_unit : EncodedVideoAccessUnit)
  | SourceCloses.

(** The events the [select!] of the loop waits for.  [recv] gives [None] only
    when the channel is empty and its sender gone.  The last two events are the
    graph's: it puts a frame in the channel, and it lets its end go. *)
Definition selects (a : video_actor) (e : event) : bool :=
  va_running a &&
  match e with
  | Commanded _ _ | CommandsClosed => true
  | UnitReceived _ _ =>
      match va_active a with
      | Some x => bool_decide (as_state x = SenderStreaming)
                  && (negb (va_source a) || bool_decide (ch_queue (va_output a) <> []))
      | None => false
      end
  | FeedbackChanged _ | FeedbackClosed =>
      match va_active a with Some x => as_feedback_open x | None => false end
  | UnitArrives _ | SourceCloses => va_source a
  end.

Definition error_of {A} (r : result A) : option (list Z) := match r with inl e => Some e | inr _ => None end.

(** An operation on the active sender whose error ends the generation. *)
Definition or_fail (r : result unit * video_actor) : video_actor :=
  match r with (inl e, a) => fail_active e a | (inr _, a) => a end.

Definition handle_command (c : Command) (answer : result unit) (a : video_actor) : option Reply * video_actor :=
  match c with
  | CmdConfigure generation transport =>
      let '(r, a) := configure_active generation transport a in (Some (ReplyUnit r), a)
  | CmdTransition generation t =>
      let '(r, a) := transition_active generation t a in (Some (ReplyUnit r), a)
  | CmdSetTargetPlayoutDelay generation delay =>
      let '(r, a) := set_target_playout_delay generation delay answer a in (Some (ReplyUnit r), a)
  | CmdStop generation =>
      let '(r, a) := stop_active generation answer a in
      let a := match r with inr _ => with_completed (Some generation) a | inl _ => a end in
      (Some (ReplyStatistics r),
       publish (Some generation) SenderEmpty
         (match r with inr s => s | inl _ => VideoSenderStatistics_default end) (error_of r) a)
  | CmdStatistics generation => (Some (ReplyStatistics (active_statistics generation a)), a)
  | CmdShutdown =>
      let '(r, a) := shutdown_active answer a in
      (Some (ReplyUnit r),
       stopped (publish (va_completed a) SenderStopped VideoSenderStatistics_default (error_of r) a))
  end.

Definition video_handle (e : event) (a : video_actor) : option Reply * video_actor :=
  match e with
  | Commanded c answer => handle_command c answer a
  | CommandsClosed =>
      let '(_, a) := shutdown_active (inr tt) a in
      (None, stopped (publish (va_completed a) SenderStopped VideoSenderStatistics_default None a))
  | UnitReceived now answer =>
      (None,
       or_fail match ch_queue (va_output a) with
               | u :: _ => forward_access_unit u now answer (with_output (recv (va_output a)) a)
               | [] => (inl (VideoTransportError_new (codes "encoded-video source channel closed")), a)
               end)
  | FeedbackChanged f => (None, or_fail (process_transport_feedback f a))
  | FeedbackClosed => (None, fail_active (VideoTransportError_new (codes "Cast sender feedback channel closed")) a)
  | UnitArrives u => (None, with_output (try_send (va_output a) u).1 a)
  | SourceCloses => (None, source_closed a)
  end.

(** An event that the loop is not waiting for does not happen. *)
Definition video_turn (a : video_actor) (e : event) : video_actor :=
  if selects a e then (video_handle e a).2 else a.

Definition video_run (a : video_actor) (es : list event) : video_actor := foldl video_turn a es.

(** ** Waiting for progress *)

(** The wait ends with the time or with the actor. *)
Inductive wait_end := WaitTimesOut | WaitCloses.

(** [between]: what the actor does from one look at its snapshot to the next. *)
Fixpoint wait_for (counter : VideoSenderStatistics -> Z) (changed timed_out : list Z) (generation previous : Z)
    (between : list (list event)) (ending : wait_end) (a : video_actor) : result unit * video_actor :=
  let current := va_snapshot a in
  if negb (bool_decide (sn_generation current = Some generation)) then (inl (VideoTransportError_new changed), a)
  else if bool_decide (sn_state current = SenderFailed) then
    (inl (VideoTransportError_new
            (default (codes "video sender failed without diagnostic detail") (sn_last_error current))), a)
  else if previous <? counter (sn_statistics current) then (inr tt, a)
  else
    match between with
    | [] =>
        (inl match ending with
             | WaitTimesOut => VideoTransportError_new timed_out
             | WaitCloses => VideoTransportError_new (codes "video sender actor stopped")
             end, a)
    | es :: between =>
        wait_for counter changed timed_out generation previous between ending (video_run a es)
    end.

Definition wait_for_frame_after (generation previous : Z)
  : list (list event) -> wait_end -> video_actor -> result unit * video_actor :=
  wait_for vs_frames
    (codes "video sender generation changed while waiting for " ++ display_uint generation)
    (codes "timed out waiting for encoded video delivery") generation previous.

Definition wait_for_receiver_ack_after (generation previous : Z)
  : list (list event) -> wait_end -> video_actor -> result unit * video_actor :=
  wait_for vs_acknowledged_frames
    (codes "video sender generation changed while waiting for " ++ display_uint generation)
    (codes "timed out waiting for Cast receiver video acknowledgement") generation previous.

Definition wait_for_receiver_audio_ack_after (generation previous : Z)
  : list (list event) -> wait_end -> video_actor -> result unit * video_actor :=
  wait_for vs_acknowledged_audio_packets
    (codes "video sender generation changed while waiting for audio acknowledgement for "
     ++ display_uint generation)
    (codes "timed out waiting for Cast receiver audio acknowledgement") generation previous.

(** ** Frames and their predecessors

    A list of frames, each with whether it went through: [prev] is whether the
    frame before the list did. *)

Abbreviation judged := (VideoFrameDependency * bool)%type.

Fixpoint linked (prev : bool) (l : list judged) : Prop :=
  match l with
  | [] => True
  | (d, through) :: l => (d = Delta -> through = true -> prev = true) /\ linked through l
  end.

Definition last_through (prev : bool) (l : list judged) : bool := default prev (snd <$> last l).

Lemma last_through_snoc prev l e : last_through prev (l ++ [e]) = e.2.
Proof. unfold last_through. by rewrite last_snoc. Qed.

Lemma last_through_cons prev e l : last_through prev (e :: l) = last_through e.2 l.
Proof.
  unfold last_through. destruct l as [|e' l]; [done|]. rewrite last_cons_cons.
  by destruct (last (e' :: l)) eqn:E; [|apply last_None in E].
Qed.

Lemma linked_snoc prev l d through :
  linked prev (l ++ [(d, through)]) <->
  linked prev l /\ (d = Delta -> through = true -> last_through prev l = true).
Proof.
  revert prev. induction l as [|[d' t'] l IH]; intros prev; cbn [linked app]; [by unfold last_through; cbn; tauto|].
  rewrite IH, last_through_cons. cbn. tauto.
Qed.

(** In a linked list that starts with a key frame, a frame that went through is
    decodable: back to a key frame, every frame went through. *)
Definition decodable_to (l : list judged) : Prop :=
  exists before key after, l = before ++ key :: after /\ key.1 = KeyFrame /\
    Forall (fun e : judged => e.2 = true) (key :: after).

Lemma linked_decodable l :
  linked true l -> (forall e, l !! 0%nat = Some e -> e.1 = KeyFrame) -> l <> [] ->
  last_through true l = true -> decodable_to l.
Proof.
  induction l as [|[d t] l IH] using rev_ind; [done|]. intros Hl Hf _ Ht.
  apply linked_snoc in Hl as [Hl Hd]. rewrite last_through_snoc in Ht. cbn in Ht. subst t.
  destruct d; [by exists l, (KeyFrame, true), []; repeat constructor|].
  destruct (decide (l = [])) as [->|Hne]; [by specialize (Hf _ eq_refl)|].
  destruct IH as (b & k & a & -> & Hk & Ha); [done| |done|by apply Hd|].
  - intros e He. apply Hf. by destruct l.
  - exists b, k, (a ++ [(Delta, true)]). split_and!; [by rewrite <- app_assoc|done|].
    rewrite app_comm_cons. apply Forall_app. by split; [|repeat constructor].
Qed.

Lemma linked_take prev l n : linked prev l -> linked prev (take n l).
Proof. revert prev n. induction l as [|[d t] l IH]; intros prev [|n]; cbn; intuition. Qed.

(** The fate of each encoded frame: what became of it at the channel, and of
    those that passed, in the same order, at the transport; the frames that are
    still in the channel have not gone through. *)
Fixpoint fates (forwarded received : list judged) : list judged :=
  match forwarded with
  | [] => []
  | (d, false) :: forwarded => (d, false) :: fates forwarded received
  | (d, true) :: forwarded =>
      match received with
      | [] => (d, false) :: fates forwarded []
      | (_, through) :: received => (d, through) :: fates forwarded received
      end
  end.

Lemma fates_nil f p : linked p (fates f []).
Proof. revert p. induction f as [|[d []] f IH]; intros p; cbn; repeat split; try done; auto. Qed.

Lemma fates_linked f r p q :
  map fst r `prefix_of` map fst (filter (fun e : judged => e.2 = true) f) ->
  linked p f -> linked q r -> linked (p && q) (fates f r).
Proof.
  revert r p q. induction f as [|[d []] f IH]; intros r p q Hp Hf Hr; cbn [fates linked] in *; [done| |].
  - destruct r as [|[d' t] r]; [apply (fates_nil ((d, true) :: f))|].
    rewrite filter_cons_True in Hp by done. cbn [map fst] in Hp.
    pose proof Hp as Hd. apply prefix_cons_inv_1 in Hd as <-. apply prefix_cons_inv_2 in Hp.
    cbn [linked] in *. split; [intros -> ->; by rewrite (proj1 Hf), (proj1 Hr)|].
    rewrite <- (andb_true_l t). apply IH; tauto.
  - split; [done|]. rewrite filter_cons_False in Hp by done.
    rewrite <- (andb_false_l q). apply IH; tauto.
Qed.

(** ** From the encoder to the transport

    One media generation: the graph's end of the channel with the actor, from
    the moment the actor was configured for it. *)

Definition verdict (n : note) : option judged :=
  match n with
  | Sent _ u (Sends SendAccepted) => Some (au_dependency u, true)
  | Sent _ u _ | LeftOut u | Stale u => Some (au_dependency u, false)
  | _ => None
  end.

(** What became of the frames taken off the channel since the log was [n] long. *)
Definition received (n : nat) (a : video_actor) : list judged := omap verdict (drop n (va_log a)).

Record pipeline := { pl_needs_key_frame : bool; pl_actor : video_actor; pl_forwarded : list judged }.

Inductive pipeline_event := Encoded (access_unit : EncodedVideoAccessUnit) | SenderEvent (e : event).

Definition pipeline_step (p : pipeline) (e : pipeline_event) : pipeline :=
  match e with
  | Encoded u =>
      let '(o, r) := video_try_forward {| vo_sender := va_output (pl_actor p);
                                          needs_key_frame := pl_needs_key_frame p |} u in
      {| pl_needs_key_frame := needs_key_frame o; pl_actor := with_output (vo_sender o) (pl_actor p);
         pl_forwarded := pl_forwarded p
                         ++ [(au_dependency u, match r with Ok Forwarded => true | _ => false end)] |}
  | SenderEvent e =>
      {| pl_needs_key_frame := pl_needs_key_frame p; pl_actor := video_turn (pl_actor p) e;
         pl_forwarded := pl_forwarded p |}
  end.

Definition pipeline_start (a : video_actor) : pipeline :=
  {| pl_needs_key_frame := needs_key_frame (EncodedVideoOutput_new (va_output a)); pl_actor := a;
     pl_forwarded := [] |}.

Definition pipeline_run (a : video_actor) (es : list pipeline_event) : pipeline :=
  foldl pipeline_step (pipeline_start a) es.

(** The events of one generation: its frames, and no other's configuration. *)
Definition of_generation (g : Z) (e : pipeline_event) : bool :=
  match e with
  | Encoded u => au_media_generation u =? g
  | SenderEvent (Commanded (CmdConfigure _ _) _) | SenderEvent (UnitArrives _) => false
  | SenderEvent _ => true
  end.

Record sending (n : nat) (g : Z) (a : video_actor) : Prop := {
  se_log : (n <= length (va_log a))%nat;
  se_linked : linked true (received n a);
  se_queue : Forall (fun u => au_media_generation u = g) (ch_queue (va_output a));
  se_active x : va_active a = Some x ->
    as_generation x = g /\
    (as_state x <> SenderFailed ->
     is_Some (as_sender x) /\
     (as_needs_key_frame x = false -> as_pressure_limited x = false -> last_through true (received n a) = true)) }.

Lemma received_noted n ns a :
  (n <= length (va_log a))%nat -> received n (noted ns a) = received n a ++ omap verdict ns.
Proof. intros H. unfold received. cbn. by rewrite drop_app_le, omap_app by done. Qed.

Lemma received_mute n ns a :
  (n <= length (va_log a))%nat -> omap verdict ns = [] -> received n (noted ns a) = received n a.
Proof. intros H E. by rewrite received_noted, E, app_nil_r. Qed.

(** The order of the frames: what was received, then what waits. *)
Definition settled (n : nat) (a : video_actor) : list VideoFrameDependency :=
  map fst (received n a) ++ map au_dependency (ch_queue (va_output a)).

(** What an operation that takes no frame keeps. *)
Record quiet (n : nat) (a a' : video_actor) : Prop := {
  qu_log : (length (va_log a) <= length (va_log a'))%nat;
  qu_received : received n a' = received n a;
  qu_output : va_output a' = va_output a \/ va_output a' = close_receiver (va_output a) }.

Definition closed_off (a : video_actor) : Prop := ch_closed (va_output a) = true /\ ch_queue (va_output a) = [].

Definition advanced (n : nat) (a a' : video_actor) : Prop :=
  (settled n a' = settled n a /\ ch_closed (va_output a') = ch_closed (va_output a))
  \/ (received n a' = received n a /\ closed_off a').

Lemma quiet_advanced n a a' : quiet n a a' -> advanced n a a'.
Proof.
  intros [_ Hr [Ho|Ho]]; [left|right]; unfold settled, closed_off; rewrite Hr, Ho; done.
Qed.

(** The active sender after a quiet operation is no readier than before. *)
Definition no_readier (a a' : video_actor) : Prop :=
  forall x', va_active a' = Some x' ->
    exists x, va_active a = Some x /\ as_generation x' = as_generation x /\
      (as_state x' <> SenderFailed -> as_state x <> SenderFailed /\ as_sender x' = as_sender x /\
        (as_needs_key_frame x' = false -> as_pressure_limited x' = false ->
         as_needs_key_frame x = false /\ as_pressure_limited x = false)).

Lemma sending_quiet n g a a' : sending n g a -> quiet n a a' -> no_readier a a' -> sending n g a'.
Proof.
  intros [Hl Hk Hq Ha] [Hl' Hr Ho] Hn. split; [lia|by rewrite Hr| |].
  - destruct Ho as [-> | ->]; [done|]. constructor.
  - intros x' Hx'. destruct (Hn _ Hx') as (x & Hx & Hg & Hs). destruct (Ha _ Hx) as [<- Hax].
    split; [done|]. intros Hf. destruct (Hs Hf) as (Hf' & -> & Hp). destruct (Hax Hf') as [Hs' Hlast].
    split; [done|]. rewrite Hr. intros H1 H2. by apply Hlast; apply (Hp H1 H2).
Qed.

Lemma quiet_fail n g e a : sending n g a -> quiet n a (fail_active e a) /\ no_readier a (fail_active e a).
Proof.
  intros [Hl _ _ _]. unfold fail_active. destruct (va_active a) as [x|] eqn:Hx.
  - split; [split; cbn|].
    + rewrite length_app. lia.
    + apply (received_mute n (shut_sender x) a); [done|]. unfold shut_sender. by case_match.
    + by left.
    + intros x' [= <-]. exists x. split_and!; [done|done|]. by cbn.
  - split; [by split; auto|]. intros x' Hx'. congruence.
Qed.

(** The actor's [shutdown_active] and [stop_active], with whatever is published
    after them: the transport is let go and there is no active sender. *)
Lemma quiet_let_go n x a a' :
  (n <= length (va_log a))%nat -> va_log a' = va_log a ++ shut_sender x -> va_active a' = None ->
  va_output a' = va_output a \/ va_output a' = close_receiver (va_output a) ->
  quiet n a a' /\ no_readier a a'.
Proof.
  intros Hn Hl Ha Ho. split; [split; [| |done]|intros x'; congruence].
  - rewrite Hl, length_app. lia.
  - unfold received. rewrite Hl, drop_app_le, omap_app by done. unfold shut_sender.
    by case_match; rewrite app_nil_r.
Qed.

Lemma quiet_still n a a' :
  va_log a' = va_log a -> va_active a' = va_active a ->
  va_output a' = va_output a \/ va_output a' = close_receiver (va_output a) ->
  quiet n a a' /\ no_readier a a'.
Proof.
  intros Hl Ha Ho. split; [split; [by rewrite Hl|by unfold received; rewrite Hl|done]|].
  intros x Hx. rewrite Ha in Hx. exists x. split_and!; auto.
Qed.

Lemma quiet_command n g c answer a :
  sending n g a -> (forall h t, c <> CmdConfigure h t) ->
  quiet n a (handle_command c answer a).2 /\ no_readier a (handle_command c answer a).2.
Proof.
  intros [Hn _ _ Ha] Hc. destruct c as [h t|h t|h d|h|h|]; cbn [handle_command].
  - by destruct (Hc h t).
  - unfold transition_active, matching_active. destruct (va_active a) as [x|] eqn:Hx; [|by apply quiet_still; auto].
    destruct (negb (as_generation x =? h)); [by apply quiet_still; auto|].
    destruct (transition_states t) as [required desired] eqn:Ht.
    case_bool_decide as Hs; cbn [negb]; [|by apply quiet_still; auto].
    split; [by split; auto|]. intros x' [= <-]. exists x. split_and!; [done..|]. cbn. intros _.
    split_and!; auto. rewrite Hs. destruct t; by injection Ht as <- <-.
  - unfold set_target_playout_delay, matching_active. destruct (va_active a) as [x|] eqn:Hx; [|by apply quiet_still; auto].
    destruct (negb (as_generation x =? h)); [by apply quiet_still; auto|].
    destruct (as_sender x); [|by apply quiet_still; auto].
    split; [split; cbn; [rewrite length_app; lia| |by left]|].
    + by apply (received_mute n [DelaySet z d] a).
    + intros x' Hx'. cbn in Hx'. exists x. rewrite Hx in Hx'. injection Hx' as ->. split_and!; auto.
  - unfold stop_active. destruct (va_active a) as [x|] eqn:Hx.
    + destruct (negb (as_generation x =? h)); [by apply quiet_still; auto|].
      by apply (quiet_let_go n x); destruct (as_sender x), answer; auto.
    + by case_bool_decide; apply quiet_still; auto.
  - by apply quiet_still; auto.
  - unfold shutdown_active. destruct (va_active a) as [x|] eqn:Hx; [|by apply quiet_still; auto].
    by apply (quiet_let_go n x); auto.
Qed.

Lemma quiet_closed n g a :
  sending n g a -> quiet n a (video_handle CommandsClosed a).2 /\ no_readier a (video_handle CommandsClosed a).2.
Proof.
  intros [Hn _ _ Ha]. cbn. unfold shutdown_active. destruct (va_active a) as [x|] eqn:Hx; [|by apply quiet_still; auto].
  by apply (quiet_let_go n x); auto.
Qed.

(** A report never clears the need for a key frame, and lifts the pressure only
    by raising it. *)
Lemma quiet_feedback n g f a :
  sending n g a -> quiet n a (process_transport_feedback f a).2 /\ no_readier a (process_transport_feedback f a).2.
Proof.
  intros Hs. unfold process_transport_feedback. destruct (va_active a) as [x|] eqn:Hx; [|by apply quiet_still; auto].
  destruct (tf_terminal_error f); [by apply quiet_still; auto|].
  split; [by split; auto|]. intros x' [= <-]. exists x. split_and!; [done..|]. cbn. intros Hf.
  split_and!; [done..|]. intros Hk Hl. rewrite Hl in Hk.
  destruct (as_needs_key_frame x); [done|]. by destruct (as_pressure_limited x); [destruct (_ <? _)|].
Qed.

Lemma sending_or_fail n g a r :
  quiet n a r.2 -> no_readier a r.2 -> sending n g a -> sending n g (or_fail r) /\ advanced n a (or_fail r).
Proof.
  destruct r as [[e|[]] a']; cbn [snd or_fail]; intros Hq Hn Hs.
  - assert (Hs' : sending n g a') by by eapply sending_quiet.
    destruct (quiet_fail n g e a' Hs') as [Hq' Hn']. split; [by eapply sending_quiet|].
    apply quiet_advanced. destruct Hq as [L R O], Hq' as [L' R' O']. split; [lia|congruence|].
    destruct O as [O|O]; rewrite O in O'; [done|]. right. by destruct O' as [-> | ->].
  - split; [by eapply sending_quiet|by apply quiet_advanced].
Qed.

(** Taking a frame off the channel: it is judged, and rightly. *)
Lemma settled_judged n a a' u rest j :
  (n <= length (va_log a))%nat -> ch_queue (va_output a) = u :: rest ->
  received n a' = received n a ++ [j] -> j.1 = au_dependency u -> va_output a' = recv (va_output a) ->
  advanced n a a'.
Proof.
  intros Hn Hq Hr Hj Ho. destruct j as [d t]. cbn in Hj. subst d. left. unfold settled. rewrite Hr, Ho. cbn.
  rewrite Hq. cbn. by rewrite map_app, <- app_assoc.
Qed.

Definition forwarded (u : EncodedVideoAccessUnit) (now : Z) (answer : send_answer) (a : video_actor)
  : result unit * video_actor := forward_access_unit u now answer (with_output (recv (va_output a)) a).

Lemma forward_sends n g a u rest now answer x :
  sending n g a -> va_active a = Some x -> as_state x <> SenderFailed ->
  ch_queue (va_output a) = u :: rest ->
  exists j a1, forwarded u now answer a = ((forwarded u now answer a).1, a1) /\
    received n a1 = received n a ++ [j] /\ j.1 = au_dependency u /\ va_output a1 = recv (va_output a) /\
    (j.2 = true -> au_dependency u = Delta -> last_through true (received n a) = true) /\
    (n <= length (va_log a1))%nat /\
    forall x', va_active a1 = Some x' -> as_generation x' = as_generation x /\ is_Some (as_sender x') /\
      ((forwarded u now answer a).1 = inr tt -> as_state x' = as_state x /\
        (as_needs_key_frame x' = false -> as_pressure_limited x' = false -> j.2 = true)).
Proof.
  intros [Hn _ Hq Ha] Hx Hf Hu. destruct (Ha _ Hx) as [Hg Hax]. destruct (Hax Hf) as [[s Hs] Hlast].
  rewrite Hu in Hq. apply Forall_cons_1 in Hq as [Hug _].
  unfold forwarded, forward_access_unit. cbn [va_active with_output]. rewrite Hx.
  rewrite Hug, Hg, Z.eqb_refl. cbn [negb]. destruct (leaves_out x u) eqn:Hout.
  - eexists (_, false), _. split_and!; [done|by apply (received_noted n [LeftOut u] a)|done..|cbn; rewrite length_app; lia|].
    intros x' [= <-]. cbn. split_and!; [done|by rewrite Hs|]. intros _. split; [done|]. intros Hk Hl.
    unfold leaves_out in Hout. by rewrite Hk, Hl in Hout.
  - rewrite Hs. unfold leaves_out in Hout. apply orb_false_iff in Hout as [H1 H2].
    destruct answer as [[]|e|].
    + eexists (_, true), _. split_and!; [done|by apply (received_noted n [Sent s u (Sends SendAccepted)] a)|done..| |cbn; rewrite length_app; lia|].
      * intros _ Hd. rewrite Hd in H1, H2. cbn in H1, H2. apply Hlast.
        -- by rewrite andb_true_r in H2.
        -- by rewrite orb_true_r, andb_true_r in H1.
      * intros x' [= <-]. cbn. by rewrite Hs.
    + eexists (_, false), _. split_and!; [done|by apply (received_noted n [Sent s u (Sends SendCongested)] a)|done..|cbn; rewrite length_app; lia|].
      intros x' [= <-]. cbn. by rewrite Hs.
    + eexists (_, false), _. split_and!; [done|by apply (received_noted n [Sent s u (SendFails e)] a)|done..|cbn; rewrite length_app; lia|].
      intros x' Hx'. cbn in Hx'. rewrite Hx in Hx'. injection Hx' as <-. by rewrite Hs.
    + eexists (_, false), _. split_and!; [done|by apply (received_noted n [Sent s u SendTimesOut] a)|done..|cbn; rewrite length_app; lia|].
      intros x' Hx'. cbn in Hx'. rewrite Hx in Hx'. injection Hx' as <-. by rewrite Hs.
Qed.

Lemma fail_active_spec n e a :
  (n <= length (va_log a))%nat ->
  received n (fail_active e a) = received n a /\ va_output (fail_active e a) = va_output a /\
  (length (va_log a) <= length (va_log (fail_active e a)))%nat /\
  forall x', va_active (fail_active e a) = Some x' ->
    as_state x' = SenderFailed /\ exists x, va_active a = Some x /\ as_generation x' = as_generation x.
Proof.
  intros Hn. unfold fail_active. destruct (va_active a) as [x|] eqn:E; [|by split_and!; [..|intros x'; congruence]].
  split_and!; [|done|cbn; rewrite length_app; lia|intros x' [= <-]; split; [done|by exists x]].
  apply (received_mute n (shut_sender x) a); [done|]. unfold shut_sender. by case_match.
Qed.

Lemma unit_sends n g a now answer :
  sending n g a -> selects a (UnitReceived now answer) = true ->
  sending n g (video_handle (UnitReceived now answer) a).2 /\
  advanced n a (video_handle (UnitReceived now answer) a).2.
Proof.
  intros Hs Hsel. unfold selects in Hsel. apply andb_true_iff in Hsel as [_ Hsel].
  destruct (va_active a) as [x|] eqn:Hx; [|done]. apply andb_true_iff in Hsel as [Hst _].
  apply bool_decide_eq_true_1 in Hst. assert (Hf : as_state x <> SenderFailed) by by rewrite Hst.
  cbn [video_handle snd]. destruct (ch_queue (va_output a)) as [|u rest] eqn:Hu.
  - by apply sending_or_fail; [apply quiet_still; auto|apply (quiet_still n); auto|].
  - change (forward_access_unit u now answer (with_output (recv (va_output a)) a)) with (forwarded u now answer a).
    destruct (forward_sends n g a u rest now answer x) as (j & a1 & E & Hr & Hj & Ho & Hd & Hn & Hact); [done..|].
    assert (Hlink : linked true (received n a1)).
    { rewrite Hr. destruct j as [d t]. apply linked_snoc. split; [apply Hs|]. cbn in *. intros -> ->. auto. }
    assert (Hq : Forall (fun u => au_media_generation u = g) (ch_queue (va_output a1))).
    { rewrite Ho. cbn. rewrite Hu. destruct Hs as [_ _ Hq _]. rewrite Hu in Hq. by apply Forall_cons_1 in Hq as [_ ?]. }
    destruct (se_active _ _ _ Hs _ Hx) as [Hg _].
    destruct (forwarded u now answer a).1 as [e|[]] eqn:Hr1; rewrite E; cbn [or_fail].
    + destruct (fail_active_spec n e a1) as (Hr2 & Hout & Hlen & Hfail); [done|]. split; [split|].
      * lia.
      * by rewrite Hr2.
      * by rewrite Hout.
      * intros x' Hx'. destruct (Hfail _ Hx') as (-> & x1 & Hx1 & ->). by destruct (Hact _ Hx1) as (-> & _).
      * eapply settled_judged; [apply Hs|done|by rewrite Hr2, Hr|done|by rewrite Hout].
    + split; [split; try done|].
      * intros x' Hx'. destruct (Hact _ Hx') as (Hg' & Hs' & Hrest). destruct (Hrest eq_refl) as [_ Hlast].
        split; [congruence|]. intros _. split; [done|]. intros H1 H2.
        destruct j as [d t]. rewrite Hr, last_through_snoc. by apply Hlast.
      * by eapply settled_judged; [apply Hs|..].
Qed.

Lemma turn_sends n g a e :
  sending n g a -> of_generation g (SenderEvent e) = true ->
  sending n g (video_turn a e) /\ advanced n a (video_turn a e).
Proof.
  intros Hs Hg. unfold video_turn. destruct (selects a e) eqn:Hsel; [|by split; [|left]].
  assert (Hquiet : forall a', quiet n a a' /\ no_readier a a' -> sending n g a' /\ advanced n a a').
  { intros a' [Hq Hn]. split; [by eapply sending_quiet|by apply quiet_advanced]. }
  destruct e as [c answer| |now answer|f| |u|].
  - apply Hquiet, (quiet_command n g); [done|]. intros h t ->. done.
  - by apply Hquiet, (quiet_closed n g).
  - by apply unit_sends.
  - destruct (quiet_feedback n g f a Hs). by apply sending_or_fail.
  - by apply Hquiet, (quiet_fail n g).
  - done.
  - apply Hquiet, quiet_still; auto.
Qed.

Abbreviation through := (fun e : judged => e.2 = true).

Record flowing (n : nat) (g : Z) (p : pipeline) : Prop := {
  fl_sending : sending n g (pl_actor p);
  fl_linked : linked true (pl_forwarded p);
  fl_last : ch_closed (va_output (pl_actor p)) = false -> pl_needs_key_frame p = false ->
    last_through true (pl_forwarded p) = true;
  fl_order : settled n (pl_actor p) `prefix_of` map fst (filter through (pl_forwarded p));
  fl_open : ch_closed (va_output (pl_actor p)) = false ->
    settled n (pl_actor p) = map fst (filter through (pl_forwarded p)) }.

Lemma flowing_turn n g p e :
  flowing n g p -> of_generation g (SenderEvent e) = true -> flowing n g (pipeline_step p (SenderEvent e)).
Proof.
  intros [Hs Hl Hla Ho Hop] Hg. destruct (turn_sends n g (pl_actor p) e Hs Hg) as [Hs' [[E C]|[E [C Q]]]].
  - split; cbn; [done|done|by rewrite C|by rewrite E|by rewrite E, C].
  - split; cbn; [done|done|by rewrite C| |by rewrite C]. unfold settled in *. rewrite E, Q, app_nil_r.
    etrans; [|done]. by apply prefix_app_r.
Qed.

(** A frame that the channel does not take. *)
Lemma flowing_kept n g p d needs :
  flowing n g p -> (ch_closed (va_output (pl_actor p)) = false -> needs = true) ->
  flowing n g {| pl_needs_key_frame := needs; pl_actor := with_output (va_output (pl_actor p)) (pl_actor p);
                 pl_forwarded := pl_forwarded p ++ [(d, false)] |}.
Proof.
  intros [[] Hl Hla Ho Hop] Hneeds. split; cbn; [by split| |by intros H; rewrite Hneeds| |].
  - by apply linked_snoc.
  - rewrite filter_app, filter_cons_False, app_nil_r by done. done.
  - rewrite filter_app, filter_cons_False, app_nil_r by done. done.
Qed.

Lemma settled_pushed n a ch u :
  ch_queue ch = ch_queue (va_output a) ++ [u] -> settled n (with_output ch a) = settled n a ++ [au_dependency u].
Proof. intros E. unfold settled. cbn. by rewrite E, map_app, app_assoc. Qed.

Lemma flowing_encoded n g p u :
  flowing n g p -> of_generation g (Encoded u) = true -> flowing n g (pipeline_step p (Encoded u)).
Proof.
  intros Hf Hg. cbn in Hg. apply Z.eqb_eq in Hg. pose proof Hf as [[Hn Hk Hq Ha] Hl Hla Ho Hop].
  cbn [pipeline_step]. unfold video_try_forward. cbn [needs_key_frame vo_sender].
  destruct (pl_needs_key_frame p && bool_decide (au_dependency u = Delta)) eqn:Hskip.
  { apply andb_true_iff in Hskip as [Hneeds _]. by apply flowing_kept. }
  unfold try_send. destruct (ch_closed (va_output (pl_actor p))) eqn:Hc; [apply flowing_kept; [done|congruence]|].
  destruct (ch_capacity _ <=? _)%nat; [by apply flowing_kept|].
  split; cbn.
  - split; [done..| |done]. apply Forall_app. by split; [|constructor].
  - apply linked_snoc. split; [done|]. intros Hd _. apply Hla; [done|].
    by rewrite Hd, andb_true_r in Hskip.
  - intros _ _. apply (last_through_snoc true _ (_, true)).
  - erewrite settled_pushed, filter_app, map_app, filter_cons_True, Hop by done. done.
  - intros _. erewrite settled_pushed, filter_app, map_app, filter_cons_True, Hop by done. done.
Qed.

Lemma flowing_run n g a es :
  flowing n g (pipeline_start a) -> forallb (of_generation g) es = true -> flowing n g (pipeline_run a es).
Proof.
  intros H0. unfold pipeline_run. induction es as [|e es IH] using rev_ind; [done|].
  rewrite forallb_app. intros [H1 H2]%andb_true_iff. rewrite foldl_app. cbn [foldl].
  cbn in H2. rewrite andb_true_r in H2. destruct e; [apply flowing_encoded|apply flowing_turn]; auto.
Qed.

Lemma configured_flows g t a a0 :
  configure_active g t a = (inr tt, a0) -> flowing (length (va_log a0)) g (pipeline_start a0).
Proof.
  intros Hc. assert (H : ch_queue (va_output a0) = [] /\
    exists x, va_active a0 = Some x /\ as_generation x = g /\ is_Some (as_sender x)).
  { revert Hc. unfold configure_active. destruct (nt_audio_sender t); [done|]. case_bool_decide; [done|].
    destruct (not_newer _ _); [done|]. intros [= <-]. split; [done|]. eexists. by split_and!. }
  destruct H as (Hq & x & Hx & Hg & Hs). clear Hc.
  assert (Hr : received (length (va_log a0)) a0 = []) by (unfold received; by rewrite drop_all).
  split; cbn [pipeline_start pl_actor pl_forwarded pl_needs_key_frame]; unfold settled; rewrite ?Hr, ?Hq; try done.
  split; [done|by rewrite Hr|by rewrite Hq|]. intros x' Hx'. rewrite Hx in Hx'. injection Hx' as <-. by rewrite Hr.
Qed.

(** The frames the encoder produced, in order. *)
Definition encoded (es : list pipeline_event) : list EncodedVideoAccessUnit :=
  omap (fun e => match e with Encoded u => Some u | SenderEvent _ => None end) es.

Lemma pipeline_encoded a es : map fst (pl_forwarded (pipeline_run a es)) = map au_dependency (encoded es).
Proof.
  unfold pipeline_run, encoded. induction es as [|e es IH] using rev_ind; [done|].
  rewrite foldl_app, omap_app, map_app, <- IH. destruct e as [u|e]; cbn [foldl pipeline_step];
    [|by rewrite app_nil_r].
  destruct (video_try_forward _ u) as [o r]. cbn. by rewrite map_app.
Qed.

Lemma fates_frames f r : map fst (fates f r) = map fst f.
Proof.
  revert r. induction f as [|[d []] f IH]; intros r; cbn; [done| |by rewrite IH].
  destruct r as [|[d' t] r]; cbn; by rewrite IH.
Qed.

Lemma fates_through f r :
  map fst r `prefix_of` map fst (filter through f) -> filter through (fates f r) = filter through r.
Proof.
  revert r. induction f as [|[d []] f IH]; intros r Hp; cbn [fates].
  - by apply prefix_nil_inv, map_eq_nil in Hp as ->.
  - destruct r as [|[d' t] r]; [rewrite filter_cons_False by done; apply (IH []), prefix_nil|].
    rewrite filter_cons_True in Hp by done. cbn [map fst] in Hp.
    pose proof Hp as Hd. apply prefix_cons_inv_1 in Hd as <-. apply prefix_cons_inv_2 in Hp.
    rewrite !filter_cons. by case_decide; rewrite IH.
  - rewrite !filter_cons_False in * by done. by apply IH.
Qed.

(** C14: From the encoder to the Cast transport no frame is accepted that the
    receiver could not decode.  Take any run of one media generation, from the
    configuration of the sender on: frames the encoder produces, the graph's
    admission of them to its bounded channel, and commands, congestion reports
    and failures at the sender in any order.  Put against each encoded frame
    whether the transport accepted it.  Then exactly the accepted frames are
    marked, and if the encoder began with a key frame, every accepted frame
    follows an accepted key frame with nothing in between left out. *)
Theorem accepted_is_decodable g t a a0 es k d :
  configure_active g t a = (inr tt, a0) ->
  forallb (of_generation g) es = true ->
  (forall u, encoded es !! 0%nat = Some u -> au_dependency u = KeyFrame) ->
  let p := pipeline_run a0 es in
  let r := received (length (va_log a0)) (pl_actor p) in
  let l := fates (pl_forwarded p) r in
  map fst l = map au_dependency (encoded es) /\ filter through l = filter through r /\
  (l !! k = Some (d, true) -> decodable_to (take (S k) l)).
Proof.
  intros Hc Hes Hfirst p r l. destruct (flowing_run _ g a0 es (configured_flows _ _ _ _ Hc) Hes) as [Hs Hl _ Ho _].
  fold p in Hs, Hl, Ho. assert (Hp : map fst r `prefix_of` map fst (filter through (pl_forwarded p))).
  { etrans; [|exact Ho]. by apply prefix_app_r. }
  assert (Hm : map fst l = map au_dependency (encoded es)) by (unfold l; rewrite fates_frames; apply pipeline_encoded).
  split_and!; [done|by apply fates_through|]. intros Hk.
  assert (Htake : take (S k) l = take k l ++ [(d, true)]) by by apply take_S_r.
  apply linked_decodable.
  - apply linked_take. apply (fates_linked _ _ true true); [done|done|apply Hs].
  - intros e He. clear Hk Htake. clearbody l. destruct l as [|e0 l]; [done|]. injection He as <-.
    destruct (encoded es) as [|u us]; [done|]. injection Hm as -> _. by apply Hfirst.
  - rewrite Htake. by destruct (take k l).
  - by rewrite Htake, last_through_snoc.
Qed.

Definition ex_frame (d : VideoFrameDependency) : EncodedVideoAccessUnit :=
  {| au_media_generation := 7; au_dependency := d; au_data := [0; 0; 0; 1; 0x65]; au_media_timestamp := 0;
     au_reference_time := 0; au_duration := 33 |}.

Definition ex_spawned (capacity : nat) : video_actor :=
  video_sender_spawn {| ch_capacity := capacity; ch_queue := []; ch_closed := false |}.

Definition ex_transport (sender : Z) : NegotiatedVideoTransport :=
  {| nt_video_codec := H264; nt_sender := sender; nt_audio_sender := None; nt_minimum_bitrate := None |}.

Definition ex_report (in_flight limit acknowledged : Z) : event :=
  FeedbackChanged
    {| tf_revision := 1; tf_key_frame_requests := 0; tf_acknowledged_frames := acknowledged;
       tf_acknowledged_audio_packets := 0;
       tf_pressure := Some {| in_flight_frames := 1; in_flight_media_duration := in_flight;
                              max_acceptable_in_flight_duration := limit; current_rtt := None;
                              receiver_playout_delay := None; nack_count := 0; frames_dropped_or_skipped := 0;
                              fraction_lost := None |};
       tf_terminal_error := None |}.

(** The channel holds two frames: the third delta overflows it, the transport is
    congested for one frame, and both recover at the next key frame. *)
Definition ex_stream : list pipeline_event :=
  [SenderEvent (Commanded (CmdTransition 7 TransitionStart) (inr tt));
   Encoded (ex_frame KeyFrame); Encoded (ex_frame Delta); Encoded (ex_frame Delta);
   SenderEvent (UnitReceived 40 (Sends SendAccepted)); SenderEvent (UnitReceived 50 (Sends SendCongested));
   SenderEvent (ex_report 10 100 1);
   Encoded (ex_frame Delta); Encoded (ex_frame KeyFrame); Encoded (ex_frame Delta);
   SenderEvent (UnitReceived 60 (Sends SendAccepted)); SenderEvent (UnitReceived 70 (Sends SendAccepted))].

Lemma accepted_is_decodable_witness :
  let a0 := (configure_active 7 (ex_transport 3) (ex_spawned 2)).2 in
  let p := pipeline_run a0 ex_stream in
  let l := fates (pl_forwarded p) (received (length (va_log a0)) (pl_actor p)) in
  map snd l = [true; false; false; false; true; true] /\ decodable_to (take 6 l).
Proof.
  split; [vm_compute; reflexivity|].
  refine (proj2 (proj2 (accepted_is_decodable 7 (ex_transport 3) (ex_spawned 2) _ ex_stream 5 Delta _ _ _)) _).
  - vm_compute. reflexivity.
  - vm_compute. reflexivity.
  - intros u [= <-]. reflexivity.
  - vm_compute. reflexivity.
Defined.

(** ** The transports' lives *)

Definition port_of (n : note) : option port_note :=
  match n with
  | Took i => Some (PortTaken i)
  | Sent i _ _ | DelaySet i _ => Some (PortUsed i)
  | ShutDown i => Some (PortShut i)
  | LeftOut _ | Stale _ | AudioShutDown _ => None
  end.

Definition ports (a : video_actor) : list port_note := omap port_of (va_log a).

Definition held (a : video_actor) : option Z := va_active a ≫= as_sender.

(** The transport that an event hands to the actor. *)
Definition handed_by (a : video_actor) (e : event) : list Z :=
  match e with
  | Commanded (CmdConfigure _ t) _ => if selects a e then [nt_sender t] else []
  | _ => []
  end.

Fixpoint handed (a : video_actor) (es : list event) : list Z :=
  match es with [] => [] | e :: es => handed_by a e ++ handed (video_turn a e) es end.

Lemma handed_snoc a es e : handed a (es ++ [e]) = handed a es ++ handed_by (video_run a es) e.
Proof.
  revert a. induction es as [|e' es IH]; intros a; cbn; [by rewrite app_nil_r|]. by rewrite IH, app_assoc.
Qed.

Definition lives (given : list Z) (a : video_actor) : Prop := owned given (ports a) (held a) (va_running a).

(** The log grows by notes that only use what is held. *)
Lemma lives_used given a a' ns :
  lives given a -> va_log a' = va_log a ++ ns ->
  Forall (fun n => exists id, held a = Some id /\ n = PortUsed id) (omap port_of ns) -> held a' = held a ->
  va_running a' = va_running a -> lives given a'.
Proof.
  unfold lives, ports. intros Ho El Hns Eh Er. rewrite El, Eh, omap_app. eapply owned_used; [done..|congruence].
Qed.

Lemma lives_still given a a' :
  lives given a -> va_log a' = va_log a -> held a' = held a -> va_running a' = va_running a -> lives given a'.
Proof. intros Ho El Eh Er. eapply lives_used; [done|by rewrite El, app_nil_r|constructor|done..]. Qed.

(** Letting the active sender go, with or without the end of the actor. *)
Lemma lives_gone given a a' :
  lives given a -> va_log a' = va_log a ++ match va_active a with Some x => shut_sender x | None => [] end ->
  held a' = None -> lives given a'.
Proof.
  unfold lives, ports. intros Ho El Eh. rewrite El, Eh, omap_app.
  assert (E : omap port_of match va_active a with Some x => shut_sender x | None => [] end = shut (held a)).
  { unfold held, shut_sender. destruct (va_active a) as [x|]; [|done]. cbn. by destruct (as_sender x). }
  rewrite E. by eapply owned_let_go.
Qed.

Lemma lives_fail given e a : lives given a -> lives given (fail_active e a).
Proof.
  intros Ho. unfold fail_active. destruct (va_active a) as [x|] eqn:Hx; [|done].
  eapply lives_gone; [done| |done]. cbn. by rewrite Hx.
Qed.

Lemma lives_configure given g t a :
  lives given a -> va_running a = true -> nt_sender t ∉ given ->
  lives (given ++ [nt_sender t]) (configure_active g t a).2.
Proof.
  unfold lives, ports. intros Ho Hr Hs. unfold configure_active. destruct (nt_audio_sender t) as [audio|].
  { cbn. rewrite omap_app. by eapply owned_refused. }
  case_bool_decide as Ha; [cbn; rewrite omap_app; by eapply owned_refused|].
  destruct (not_newer _ _); [cbn; rewrite omap_app; by eapply owned_refused|].
  cbn. rewrite omap_app, Hr. apply owned_took; [|done]. unfold held in Ho. rewrite Hr in Ho.
  by destruct (va_active a); [destruct Ha; eexists|].
Qed.

Lemma lives_command given c answer a :
  lives given a -> va_running a = true -> NoDup (given ++ handed_by a (Commanded c answer)) ->
  lives (given ++ handed_by a (Commanded c answer)) (handle_command c answer a).2.
Proof.
  intros Ho Hr Hd. pose proof (fun a' => lives_still given a a' Ho) as Hstill.
  destruct c as [h t|h t|h d|h|h|]; cbn [handed_by handle_command] in *; rewrite ?app_nil_r in *.
  - unfold selects in *. rewrite Hr in *. cbn [andb] in *.
    pose proof (lives_configure given h t a Ho Hr) as H. apply NoDup_app in Hd as (_ & Hd & _).
    destruct (configure_active h t a). apply H. set_solver.
  - unfold transition_active, matching_active. destruct (va_active a) as [x|] eqn:Hx; [|by apply Hstill].
    destruct (negb (as_generation x =? h)); [by apply Hstill|]. destruct (transition_states t).
    case_bool_decide; [|by apply Hstill]. apply Hstill; [done| |done]. unfold held. by rewrite Hx.
  - unfold set_target_playout_delay, matching_active. destruct (va_active a) as [x|] eqn:Hx; [|by apply Hstill].
    destruct (negb (as_generation x =? h)); [by apply Hstill|]. destruct (as_sender x) eqn:Hs; [|by apply Hstill].
    eapply lives_used; [done..| |done|done]. repeat constructor. unfold held. rewrite Hx. by eexists.
  - unfold stop_active. destruct (va_active a) as [x|] eqn:Hx.
    + destruct (negb (as_generation x =? h)); [by apply Hstill|].
      by apply (lives_gone given a); rewrite ?Hx; destruct (as_sender x), answer.
    + by case_bool_decide; apply Hstill.
  - by apply Hstill.
  - unfold shutdown_active. destruct (va_active a) as [x|] eqn:Hx; apply (lives_gone given a); rewrite ?Hx; try done.
    + by rewrite app_nil_r.
    + unfold held. cbn. by rewrite Hx.
Qed.

Lemma lives_unit given u now answer a :
  lives given a -> lives given (forward_access_unit u now answer (with_output (recv (va_output a)) a)).2.
Proof.
  intros Ho. unfold forward_access_unit. cbn [va_active with_output].
  destruct (va_active a) as [x|] eqn:Hx; [|by apply (lives_still given a)].
  assert (Hh : held a = as_sender x) by (unfold held; by rewrite Hx).
  destruct (negb _); [by apply (lives_used given a _ [Stale u])|].
  destruct (leaves_out x u); [by apply (lives_used given a _ [LeftOut u])|].
  destruct (as_sender x) as [s|] eqn:Hs; [|by apply (lives_still given a)].
  destruct answer as [[]|e|]; eapply lives_used; try done; try (by repeat econstructor);
    unfold held; cbn; by rewrite ?Hx.
Qed.

Lemma lives_turn given a e :
  lives given a -> NoDup (given ++ handed_by a e) -> lives (given ++ handed_by a e) (video_turn a e).
Proof.
  intros Ho Hd. unfold video_turn. destruct (selects a e) eqn:Hsel.
  2:{ replace (handed_by a e) with (@nil Z); [by rewrite app_nil_r|]. unfold handed_by. rewrite Hsel.
      by repeat case_match. }
  assert (Hr : va_running a = true) by (unfold selects in Hsel; by apply andb_true_iff in Hsel as [? _]).
  destruct e as [c answer| |now answer|f| |u|]; cbn [video_handle snd]; [by apply lives_command|..];
    cbn [handed_by] in *; rewrite app_nil_r in *.
  - unfold shutdown_active. destruct (va_active a) as [x|] eqn:Hx; apply (lives_gone given a); rewrite ?Hx; try done.
    + by rewrite app_nil_r.
    + unfold held. cbn. by rewrite Hx.
  - destruct (ch_queue (va_output a)) as [|u rest]; [by apply lives_fail|].
    pose proof (lives_unit given u now answer a Ho). destruct (forward_access_unit _ _ _ _) as [[e|[]] a'];
      [by apply lives_fail|done].
  - unfold process_transport_feedback. destruct (va_active a) as [x|] eqn:Hx; [|done].
    destruct (tf_terminal_error f); [by apply lives_fail|]. cbn.
    eapply lives_still; [done|done|unfold held; by rewrite Hx|done].
  - by apply lives_fail.
  - by apply (lives_still given a).
  - by apply (lives_still given a).
Qed.

(** Each Cast transport that is handed to the video sender has exactly one
    life, whatever commands, frames, reports and failures come in whatever
    order: at any time it is either held for the active generation, or it has
    been shut down once and was not used after that; and when the actor has
    ended none is held. *)
Theorem video_transport_lives output es id :
  let a := video_run (video_sender_spawn output) es in
  let given := handed (video_sender_spawn output) es in
  NoDup given ->
  life_of id (ports a) = (if decide (held a = Some id) then Held else if decide (id ∈ given) then Gone else Fresh) /\
  (va_running a = false -> held a = None).
Proof.
  intros a given Hd. assert (Ho : lives given a).
  { subst a given. induction es as [|e es IH] using rev_ind; [apply owned_start|]. rewrite handed_snoc in *.
    unfold video_run. rewrite foldl_app. cbn [foldl]. apply lives_turn; [|done].
    apply IH. by apply NoDup_app in Hd as (? & _). }
  split; apply Ho.
Qed.

Lemma video_transport_lives_witness :
  let es := [Commanded (CmdConfigure 1 (ex_transport 3)) (inr tt); Commanded (CmdConfigure 2 (ex_transport 4)) (inr tt);
             FeedbackClosed; Commanded (CmdStop 1) (inr tt);
             Commanded (CmdConfigure 2 (ex_transport 5)) (inr tt)] in
  let a := video_run (ex_spawned 2) es in
  life_of 3 (ports a) = Gone /\ life_of 4 (ports a) = Gone /\ held a = Some 5 /\ life_of 5 (ports a) = Held.
Proof.
  assert (Hd : NoDup (handed (ex_spawned 2)
    [Commanded (CmdConfigure 1 (ex_transport 3)) (inr tt); Commanded (CmdConfigure 2 (ex_transport 4)) (inr tt);
     FeedbackClosed; Commanded (CmdStop 1) (inr tt); Commanded (CmdConfigure 2 (ex_transport 5)) (inr tt)]))
    by (vm_compute; repeat constructor; set_solver).
  intros es a. split_and!.
  - exact (proj1 (video_transport_lives _ es 3 Hd)).
  - exact (proj1 (video_transport_lives _ es 4 Hd)).
  - vm_compute. reflexivity.
  - exact (proj1 (video_transport_lives _ es 5 Hd)).
Defined.
