(* ===== verification/CastAudioSender.v ===== *)
(** * The audio sender of the Cast backend (crates/pronk-chromiacast/src/audio_sender_actor.rs)

    The counterpart of CastVideoSender for the Opus packets of a generation that
    carries sound: the same commands and the same ownership of the transport's
    port, without feedback and without frames that depend on each other.

    The theorem: a port that the actor was given is shut down exactly once and
    not used after that. *)

From S2P Require Import Prelude Bytes Text Time PortLife EncodedVideo CastVideoSender.

(** ** Data *)

Inductive AudioSendOutcome := AudioAccepted | AudioCongested.

Inductive audio_answer := AudioSends (o : AudioSendOutcome) | AudioSendFails (e : list Z) | AudioSendTimesOut.

Record AudioSenderStatistics := {
  as_packets : Z; as_encoded_bytes : Z; as_dropped_packets : Z; as_queue_delay : Z }.

Definition AudioSenderStatistics_default : AudioSenderStatistics :=
  {| as_packets := 0; as_encoded_bytes := 0; as_dropped_packets := 0; as_queue_delay := 0 |}.

Inductive AudioSenderState :=
  | AudioEmpty | AudioConfigured | AudioStreaming | AudioSuspended | AudioFailed | AudioStopped.

Global Instance AudioSenderState_eq_dec : EqDecision AudioSenderState.
Proof. solve_decision. Defined.

Record AudioSenderSnapshot := {
  au_generation : option Z; au_state : AudioSenderState; au_statistics : AudioSenderStatistics;
  au_last_error : option (list Z) }.

Inductive AudioCommand :=
  | AudioConfigure (generation : Z) (sender : Z)
  | AudioTransition (generation : Z) (transition : Transition)
  | AudioStop (generation : Z)
  | AudioStatistics (generation : Z)
  | AudioShutdown.

Inductive AudioReply := AudioReplyUnit (r : result unit) | AudioReplyStatistics (r : result AudioSenderStatistics).

Record ActiveAudioSender := {
  aa_generation : Z; aa_state : AudioSenderState; aa_sender : option Z; aa_statistics : AudioSenderStatistics }.

Inductive audio_note :=
  | AudioTook (sender : Z)
  | PacketSent (sender : Z) (packet : EncodedAudioPacket) (answer : audio_answer)
  | PacketStale (packet : EncodedAudioPacket)
  | AudioPortShut (sender : Z).

Record audio_actor := {
  ac_active : option ActiveAudioSender; ac_completed : option Z; ac_output : channel EncodedAudioPacket;
  ac_source : bool; ac_snapshot : AudioSenderSnapshot; ac_running : bool; ac_log : list audio_note }.

Definition audio_with_active (x : option ActiveAudioSender) (a : audio_actor) : audio_actor :=
  {| ac_active := x; ac_completed := ac_completed a; ac_output := ac_output a; ac_source := ac_source a;
     ac_snapshot := ac_snapshot a; ac_running := ac_running a; ac_log := ac_log a |}.
Definition audio_with_completed (x : option Z) (a : audio_actor) : audio_actor :=
  {| ac_active := ac_active a; ac_completed := x; ac_output := ac_output a; ac_source := ac_source a;
     ac_snapshot := ac_snapshot a; ac_running := ac_running a; ac_log := ac_log a |}.
Definition audio_with_output (x : channel EncodedAudioPacket) (a : audio_actor) : audio_actor :=
  {| ac_active := ac_active a; ac_completed := ac_completed a; ac_output := x; ac_source := ac_source a;
     ac_snapshot := ac_snapshot a; ac_running := ac_running a; ac_log := ac_log a |}.
Definition audio_stopped (a : audio_actor) : audio_actor :=
  {| ac_active := ac_active a; ac_completed := ac_completed a; ac_output := close_receiver (ac_output a);
     ac_source := ac_source a; ac_snapshot := ac_snapshot a; ac_running := false; ac_log := ac_log a |}.
Definition audio_source_closed (a : audio_actor) : audio_actor :=
  {| ac_active := ac_active a; ac_completed := ac_completed a; ac_output := ac_output a; ac_source := false;
     ac_snapshot := ac_snapshot a; ac_running := ac_running a; ac_log := ac_log a |}.
Definition audio_noted (n : list audio_note) (a : audio_actor) : audio_actor :=
  {| ac_active := ac_active a; ac_completed := ac_completed a; ac_output := ac_output a; ac_source := ac_source a;
     ac_snapshot := ac_snapshot a; ac_running := ac_running a; ac_log := ac_log a ++ n |}.

Definition audio_sender_spawn (output : channel EncodedAudioPacket) : audio_actor :=
  {| ac_active := None; ac_completed := None; ac_output := output; ac_source := true;
     ac_snapshot := {| au_generation := None; au_state := AudioEmpty;
                       au_statistics := AudioSenderStatistics_default; au_last_error := None |};
     ac_running := true; ac_log := [] |}.

(** ** Operations *)

Definition audio_publish (generation : option Z) (state : AudioSenderState) (statistics : AudioSenderStatistics)
    (last_error : option (list Z)) (a : audio_actor) : audio_actor :=
  {| ac_active := ac_active a; ac_completed := ac_completed a; ac_output := ac_output a; ac_source := ac_source a;
     ac_snapshot := {| au_generation := generation; au_state := state; au_statistics := statistics;
                       au_last_error := last_error |};
     ac_running := ac_running a; ac_log := ac_log a |}.

Definition audio_mismatch (active requested : Z) : list Z :=
  VideoTransportError_new (codes "requested audio sender generation " ++ display_uint requested
                           ++ codes "; active generation is " ++ display_uint active).

Definition audio_matching_active (a : audio_actor) (generation : Z) : result ActiveAudioSender :=
  match ac_active a with
  | None => inl (VideoTransportError_new (codes "there is no active audio sender generation"))
  | Some x => if negb (aa_generation x =? generation) then inl (audio_mismatch (aa_generation x) generation)
              else inr x
  end.

Definition audio_configure_active (generation sender : Z) (a : audio_actor) : result unit * audio_actor :=
  if bool_decide (is_Some (ac_active a)) then
    (inl (VideoTransportError_new (codes "an audio sender generation is already active")),
     audio_noted [AudioPortShut sender] a)
  else if not_newer (ac_completed a) generation then
    (inl (VideoTransportError_new
            (codes "audio sender generation " ++ display_uint generation ++ codes " is not newer than "
             ++ debug_option (ac_completed a))),
     audio_noted [AudioPortShut sender] a)
  else
    let x := {| aa_generation := generation; aa_state := AudioConfigured; aa_sender := Some sender;
                aa_statistics := AudioSenderStatistics_default |} in
    let ch := {| ch_capacity := ch_capacity (ac_output a); ch_queue := []; ch_closed := ch_closed (ac_output a) |} in
    (inr tt,
     audio_publish (Some generation) AudioConfigured AudioSenderStatistics_default None
       (audio_noted [AudioTook sender] (audio_with_active (Some x) (audio_with_output ch a)))).

Definition audio_debug_state (s : AudioSenderState) : list Z :=
  codes match s with
        | AudioEmpty => "Empty" | AudioConfigured => "Configured" | AudioStreaming => "Streaming"
        | AudioSuspended => "Suspended" | AudioFailed => "Failed" | AudioStopped => "Stopped"
        end.

Definition audio_transition_states (t : Transition) : AudioSenderState * AudioSenderState :=
  match t with
  | TransitionStart => (AudioConfigured, AudioStreaming)
  | TransitionSuspend => (AudioStreaming, AudioSuspended)
  | TransitionResume => (AudioSuspended, AudioStreaming)
  end.

Definition audio_transition_active (generation : Z) (t : Transition) (a : audio_actor) : result unit * audio_actor :=
  match audio_matching_active a generation with
  | inl e => (inl e, a)
  | inr x =>
      let '(required, desired) := audio_transition_states t in
      if negb (bool_decide (aa_state x = required)) then
        (inl (VideoTransportError_new
                (codes "audio sender generation " ++ display_uint generation ++ codes " is "
                 ++ audio_debug_state (aa_state x) ++ codes "; expected " ++ audio_debug_state required)), a)
      else
        (inr tt,
         audio_publish (Some generation) desired (aa_statistics x) None
           (audio_with_active
              (Some {| aa_generation := aa_generation x; aa_state := desired; aa_sender := aa_sender x;
                       aa_statistics := aa_statistics x |}) a))
  end.

Definition with_packet_statistics (s : AudioSenderStatistics) (x : ActiveAudioSender) : ActiveAudioSender :=
  {| aa_generation := aa_generation x; aa_state := aa_state x; aa_sender := aa_sender x; aa_statistics := s |}.

Definition forward_packet (p : EncodedAudioPacket) (now : Z) (answer : audio_answer) (a : audio_actor)
  : result unit * audio_actor :=
  match ac_active a with
  | None => (inl (VideoTransportError_new (codes "audio sender is missing")), a)
  | Some x =>
      let s := aa_statistics x in
      if negb (ap_media_generation p =? aa_generation x) then
        (inr tt,
         audio_noted [PacketStale p]
           (audio_with_active
              (Some (with_packet_statistics
                       {| as_packets := as_packets s; as_encoded_bytes := as_encoded_bytes s;
                          as_dropped_packets := saturating_add64 (as_dropped_packets s) 1;
                          as_queue_delay := as_queue_delay s |} x)) a))
      else
        let queue_delay := default 0 (checked_duration_since now (ap_reference_time p)) in
        match aa_sender x with
        | None => (inl (VideoTransportError_new (codes "audio sender transport is missing")), a)
        | Some sender =>
            let a := audio_noted [PacketSent sender p answer] a in
            match answer with
            | AudioSendTimesOut => (inl (VideoTransportError_new (codes "timed out enqueueing encoded audio")), a)
            | AudioSendFails e => (inl e, a)
            | AudioSends o =>
                let s :=
                  match o with
                  | AudioCongested =>
                      {| as_packets := as_packets s; as_encoded_bytes := as_encoded_bytes s;
                         as_dropped_packets := saturating_add64 (as_dropped_packets s) 1;
                         as_queue_delay := queue_delay |}
                  | AudioAccepted =>
                      {| as_packets := saturating_add64 (as_packets s) 1;
                         as_encoded_bytes := saturating_add64 (as_encoded_bytes s) (blen (ap_data p));
                         as_dropped_packets := as_dropped_packets s; as_queue_delay := queue_delay |}
                  end in
                (inr tt,
                 audio_publish (Some (aa_generation x)) (aa_state x) s None
                   (audio_with_active (Some (with_packet_statistics s x)) a))
            end
        end
  end.

Definition audio_shut_sender (x : ActiveAudioSender) : list audio_note :=
  match aa_sender x with Some sender => [AudioPortShut sender] | None => [] end.

Definition audio_fail_active (error : list Z) (a : audio_actor) : audio_actor :=
  match ac_active a with
  | None => a
  | Some x =>
      audio_publish (Some (aa_generation x)) AudioFailed (aa_statistics x) (Some error)
        (audio_noted (audio_shut_sender x)
           (audio_with_active
              (Some {| aa_generation := aa_generation x; aa_state := AudioFailed; aa_sender := None;
                       aa_statistics := aa_statistics x |}) a))
  end.

Definition audio_stop_active (generation : Z) (answer : result unit) (a : audio_actor)
  : result AudioSenderStatistics * audio_actor :=
  match ac_active a with
  | None =>
      (if bool_decide (ac_completed a = Some generation) then inr AudioSenderStatistics_default
       else inl (VideoTransportError_new (codes "there is no matching audio sender generation to stop")), a)
  | Some x =>
      if negb (aa_generation x =? generation) then (inl (audio_mismatch (aa_generation x) generation), a)
      else
        (match aa_sender x, answer with
         | Some _, inl e => inl e
         | _, _ => inr (aa_statistics x)
         end, audio_noted (audio_shut_sender x) (audio_with_active None a))
  end.

Definition audio_shutdown_active (answer : result unit) (a : audio_actor) : result unit * audio_actor :=
  match ac_active a with
  | None => (inr tt, a)
  | Some x =>
      (match aa_sender x with Some _ => answer | None => inr tt end,
       audio_noted (audio_shut_sender x) (audio_with_active None a))
  end.

Definition audio_active_statistics (generation : Z) (a : audio_actor) : result AudioSenderStatistics :=
  match ac_active a with
  | Some x =>
      if negb (aa_generation x =? generation) then inl (audio_mismatch (aa_generation x) generation)
      else if bool_decide (aa_state x = AudioFailed) then
        inl (VideoTransportError_new
               (default (codes "audio sender failed without diagnostic detail") (au_last_error (ac_snapshot a))))
      else inr (aa_statistics x)
  | None =>
      if bool_decide (ac_completed a = Some generation) then inr (au_statistics (ac_snapshot a))
      else inl (VideoTransportError_new (codes "there is no matching audio sender generation for statistics"))
  end.

(** ** The loop *)

Inductive audio_event :=
  | AudioCommanded (c : AudioCommand) (answer : result unit)
  | AudioCommandsClosed
  | PacketReceived (now : Z) (answer : audio_answer)
  | PacketArrives (packet : EncodedAudioPacket)
  | AudioSourceCloses.

Definition audio_selects (a : audio_actor) (e : audio_event) : bool :=
  ac_running a &&
  match e with
  | AudioCommanded _ _ | AudioCommandsClosed => true
  | PacketReceived _ _ =>
      match ac_active a with
      | Some x => bool_decide (aa_state x = AudioStreaming)
                  && (negb (ac_source a) || bool_decide (ch_queue (ac_output a) <> []))
      | None => false
      end
  | PacketArrives _ | AudioSourceCloses => ac_source a
  end.

Definition audio_handle_command (c : AudioCommand) (answer : result unit) (a : audio_actor)
  : option AudioReply * audio_actor :=
  match c with
  | AudioConfigure generation sender =>
      let '(r, a) := audio_configure_active generation sender a in (Some (AudioReplyUnit r), a)
  | AudioTransition generation t =>
      let '(r, a) := audio_transition_active generation t a in (Some (AudioReplyUnit r), a)
  | AudioStop generation =>
      let '(r, a) := audio_stop_active generation answer a in
      let a := match r with inr _ => audio_with_completed (Some generation) a | inl _ => a end in
      (Some (AudioReplyStatistics r),
       audio_publish (Some generation) AudioEmpty
         (match r with inr s => s | inl _ => AudioSenderStatistics_default end) (error_of r) a)
  | AudioStatistics generation => (Some (AudioReplyStatistics (audio_active_statistics generation a)), a)
  | AudioShutdown =>
      let '(r, a) := audio_shutdown_active answer a in
      (Some (AudioReplyUnit r),
       audio_stopped (audio_publish (ac_completed a) AudioStopped AudioSenderStatistics_default (error_of r) a))
  end.

Definition audio_handle (e : audio_event) (a : audio_actor) : option AudioReply * audio_actor :=
  match e with
  | AudioCommanded c answer => audio_handle_command c answer a
  | AudioCommandsClosed =>
      let '(_, a) := audio_shutdown_active (inr tt) a in
      (None, audio_stopped (audio_publish (ac_completed a) AudioStopped AudioSenderStatistics_default None a))
  | PacketReceived now answer =>
      let '(r, a) :=
        match ch_queue (ac_output a) with
        | p :: _ => forward_packet p now answer (audio_with_output (recv (ac_output a)) a)
        | [] => (inl (VideoTransportError_new (codes "encoded-audio source channel closed")), a)
        end in
      (None, match r with inl e => audio_fail_active e a | inr _ => a end)
  | PacketArrives p => (None, audio_with_output (try_send (ac_output a) p).1 a)
  | AudioSourceCloses => (None, audio_source_closed a)
  end.

Definition audio_turn (a : audio_actor) (e : audio_event) : audio_actor :=
  if audio_selects a e then (audio_handle e a).2 else a.

Definition audio_run (a : audio_actor) (es : list audio_event) : audio_actor := foldl audio_turn a es.

Fixpoint wait_for_packet_after (generation previous : Z) (between : list (list audio_event)) (ending : wait_end)
    (a : audio_actor) : result unit * audio_actor :=
  let current := ac_snapshot a in
  if negb (bool_decide (au_generation current = Some generation)) then
    (inl (VideoTransportError_new
            (codes "audio sender generation changed while waiting for " ++ display_uint generation)), a)
  else if bool_decide (au_state current = AudioFailed) then
    (inl (VideoTransportError_new
            (default (codes "audio sender failed without diagnostic detail") (au_last_error current))), a)
  else if previous <? as_packets (au_statistics current) then (inr tt, a)
  else
    match between with
    | [] =>
        (inl match ending with
             | WaitTimesOut => VideoTransportError_new (codes "timed out waiting for encoded audio delivery")
             | WaitCloses => VideoTransportError_new (codes "audio sender actor stopped")
             end, a)
    | es :: between => wait_for_packet_after generation previous between ending (audio_run a es)
    end.

(** ** The ports' lives *)

Definition audio_port_of (n : audio_note) : option port_note :=
  match n with
  | AudioTook i => Some (PortTaken i)
  | PacketSent i _ _ => Some (PortUsed i)
  | AudioPortShut i => Some (PortShut i)
  | PacketStale _ => None
  end.

Definition audio_ports (a : audio_actor) : list port_note := omap audio_port_of (ac_log a).

Definition audio_held (a : audio_actor) : option Z := ac_active a ≫= aa_sender.

Definition audio_handed_by (a : audio_actor) (e : audio_event) : list Z :=
  match e with
  | AudioCommanded (AudioConfigure _ sender) _ => if audio_selects a e then [sender] else []
  | _ => []
  end.

Fixpoint audio_handed (a : audio_actor) (es : list audio_event) : list Z :=
  match es with [] => [] | e :: es => audio_handed_by a e ++ audio_handed (audio_turn a e) es end.

Lemma audio_handed_snoc a es e :
  audio_handed a (es ++ [e]) = audio_handed a es ++ audio_handed_by (audio_run a es) e.
Proof.
  revert a. induction es as [|e' es IH]; intros a; cbn; [by rewrite app_nil_r|]. by rewrite IH, app_assoc.
Qed.

Definition audio_lives (given : list Z) (a : audio_actor) : Prop :=
  owned given (audio_ports a) (audio_held a) (ac_running a).

Lemma audio_lives_used given a a' ns :
  audio_lives given a -> ac_log a' = ac_log a ++ ns ->
  Forall (fun n => exists id, audio_held a = Some id /\ n = PortUsed id) (omap audio_port_of ns) ->
  audio_held a' = audio_held a -> ac_running a' = ac_running a -> audio_lives given a'.
Proof.
  unfold audio_lives, audio_ports. intros Ho El Hns Eh Er. rewrite El, Eh, omap_app.
  eapply owned_used; [done..|congruence].
Qed.

Lemma audio_lives_still given a a' :
  audio_lives given a -> ac_log a' = ac_log a -> audio_held a' = audio_held a -> ac_running a' = ac_running a ->
  audio_lives given a'.
Proof. intros Ho El Eh Er. eapply audio_lives_used; [done|by rewrite El, app_nil_r|constructor|done..]. Qed.

Lemma audio_lives_gone given a a' :
  audio_lives given a ->
  ac_log a' = ac_log a ++ match ac_active a with Some x => audio_shut_sender x | None => [] end ->
  audio_held a' = None -> audio_lives given a'.
Proof.
  unfold audio_lives, audio_ports. intros Ho El Eh. rewrite El, Eh, omap_app.
  assert (E : omap audio_port_of match ac_active a with Some x => audio_shut_sender x | None => [] end
              = shut (audio_held a)).
  { unfold audio_held, audio_shut_sender. destruct (ac_active a) as [x|]; [|done]. cbn. by destruct (aa_sender x). }
  rewrite E. by eapply owned_let_go.
Qed.

Lemma audio_lives_fail given e a : audio_lives given a -> audio_lives given (audio_fail_active e a).
Proof.
  intros Ho. unfold audio_fail_active. destruct (ac_active a) as [x|] eqn:Hx; [|done].
  eapply audio_lives_gone; [done| |done]. cbn. by rewrite Hx.
Qed.

Lemma audio_lives_configure given g s a :
  audio_lives given a -> ac_running a = true -> s ∉ given ->
  audio_lives (given ++ [s]) (audio_configure_active g s a).2.
Proof.
  unfold audio_lives, audio_ports. intros Ho Hr Hs. unfold audio_configure_active.
  case_bool_decide as Ha; [cbn; rewrite omap_app; by eapply owned_refused|].
  destruct (not_newer _ _); [cbn; rewrite omap_app; by eapply owned_refused|].
  cbn. rewrite omap_app, Hr. apply owned_took; [|done]. unfold audio_held in Ho. rewrite Hr in Ho.
  by destruct (ac_active a); [destruct Ha; eexists|].
Qed.

Lemma audio_lives_end given answer a a' :
  audio_lives given a -> ac_log a' = ac_log (audio_shutdown_active answer a).2 -> ac_active a' = None ->
  audio_lives given a'.
Proof.
  intros Ho El Ea. apply (audio_lives_gone given a); [done| |unfold audio_held; by rewrite Ea].
  rewrite El. unfold audio_shutdown_active. by destruct (ac_active a); [|rewrite app_nil_r].
Qed.

Lemma audio_lives_command given c answer a :
  audio_lives given a -> ac_running a = true -> NoDup (given ++ audio_handed_by a (AudioCommanded c answer)) ->
  audio_lives (given ++ audio_handed_by a (AudioCommanded c answer)) (audio_handle_command c answer a).2.
Proof.
  intros Ho Hr Hd. pose proof (fun a' => audio_lives_still given a a' Ho) as Hstill.
  destruct c as [h s|h t|h|h|]; cbn [audio_handed_by audio_handle_command] in *; rewrite ?app_nil_r in *.
  - unfold audio_selects in *. rewrite Hr in *. cbn [andb] in *.
    pose proof (audio_lives_configure given h s a Ho Hr) as H. apply NoDup_app in Hd as (_ & Hd & _).
    destruct (audio_configure_active h s a). apply H. set_solver.
  - unfold audio_transition_active, audio_matching_active. destruct (ac_active a) as [x|] eqn:Hx; [|by apply Hstill].
    destruct (negb (aa_generation x =? h)); [by apply Hstill|]. destruct (audio_transition_states t).
    case_bool_decide; [|by apply Hstill]. apply Hstill; [done| |done]. unfold audio_held. by rewrite Hx.
  - unfold audio_stop_active. destruct (ac_active a) as [x|] eqn:Hx.
    + destruct (negb (aa_generation x =? h)); [by apply Hstill|].
      by apply (audio_lives_gone given a); rewrite ?Hx; destruct (aa_sender x), answer.
    + by case_bool_decide; apply Hstill.
  - by apply Hstill.
  - destruct (audio_shutdown_active answer a) as [r a'] eqn:E.
    apply (audio_lives_end given answer a); rewrite ?E; [done..|].
    unfold audio_shutdown_active in E. destruct (ac_active a) eqn:Ha; by injection E as <- <-.
Qed.

Lemma audio_lives_packet given p now answer a :
  audio_lives given a ->
  audio_lives given (forward_packet p now answer (audio_with_output (recv (ac_output a)) a)).2.
Proof.
  intros Ho. unfold forward_packet. cbn [ac_active audio_with_output].
  destruct (ac_active a) as [x|] eqn:Hx; [|by apply (audio_lives_still given a)].
  assert (Hh : audio_held a = aa_sender x) by (unfold audio_held; by rewrite Hx).
  destruct (negb _); [by apply (audio_lives_used given a _ [PacketStale p])|].
  destruct (aa_sender x) as [s|] eqn:Hs; [|by apply (audio_lives_still given a)].
  destruct answer as [[]|e|]; eapply audio_lives_used; try done; try (by repeat econstructor);
    unfold audio_held; cbn; by rewrite ?Hx.
Qed.

Lemma audio_lives_turn given a e :
  audio_lives given a -> NoDup (given ++ audio_handed_by a e) ->
  audio_lives (given ++ audio_handed_by a e) (audio_turn a e).
Proof.
  intros Ho Hd. unfold audio_turn. destruct (audio_selects a e) eqn:Hsel.
  2:{ replace (audio_handed_by a e) with (@nil Z); [by rewrite app_nil_r|]. unfold audio_handed_by. rewrite Hsel.
      by repeat case_match. }
  assert (Hr : ac_running a = true) by (unfold audio_selects in Hsel; by apply andb_true_iff in Hsel as [? _]).
  destruct e as [c answer| |now answer|p|]; cbn [audio_handle snd]; [by apply audio_lives_command|..];
    cbn [audio_handed_by] in *; rewrite app_nil_r in *.
  - destruct (audio_shutdown_active (inr tt) a) as [r a'] eqn:E.
    apply (audio_lives_end given (inr tt) a); rewrite ?E; [done..|].
    unfold audio_shutdown_active in E. destruct (ac_active a) eqn:Ha; by injection E as <- <-.
  - destruct (ch_queue (ac_output a)) as [|p rest]; [by apply audio_lives_fail|].
    pose proof (audio_lives_packet given p now answer a Ho). destruct (forward_packet _ _ _ _) as [[e|[]] a'];
      [by apply audio_lives_fail|done].
  - by apply (audio_lives_still given a).
  - by apply (audio_lives_still given a).
Qed.

(** Each audio port of a Cast transport that is handed to the audio sender
    has exactly one life, whatever happens in whatever order: it is held for
    the active generation, or it has been shut down once and was not used after
    that; and when the actor has ended none is held. *)
Theorem audio_port_lives output es id :
  let a := audio_run (audio_sender_spawn output) es in
  let given := audio_handed (audio_sender_spawn output) es in
  NoDup given ->
  life_of id (audio_ports a)
  = (if decide (audio_held a = Some id) then Held else if decide (id ∈ given) then Gone else Fresh) /\
  (ac_running a = false -> audio_held a = None).
Proof.
  intros a given Hd. assert (Ho : audio_lives given a).
  { subst a given. induction es as [|e es IH] using rev_ind; [apply owned_start|]. rewrite audio_handed_snoc in *.
    unfold audio_run. rewrite foldl_app. cbn [foldl]. apply audio_lives_turn; [|done].
    apply IH. by apply NoDup_app in Hd as (? & _). }
  split; apply Ho.
Qed.

Definition ex_audio_spawned : audio_actor :=
  audio_sender_spawn {| ch_capacity := 4; ch_queue := []; ch_closed := false |}.

Lemma audio_port_lives_witness :
  let es := [AudioCommanded (AudioConfigure 1 3) (inr tt); AudioCommanded (AudioConfigure 2 4) (inr tt);
             AudioCommanded (AudioTransition 1 TransitionStart) (inr tt); AudioCommanded AudioShutdown (inr tt)] in
  let a := audio_run ex_audio_spawned es in
  life_of 3 (audio_ports a) = Gone /\ life_of 4 (audio_ports a) = Gone /\ audio_held a = None.
Proof.
  assert (Hd : NoDup (audio_handed ex_audio_spawned
    [AudioCommanded (AudioConfigure 1 3) (inr tt); AudioCommanded (AudioConfigure 2 4) (inr tt);
     AudioCommanded (AudioTransition 1 TransitionStart) (inr tt); AudioCommanded AudioShutdown (inr tt)]))
    by (vm_compute; repeat constructor; set_solver).
  intros es a. split_and!.
  - exact (proj1 (audio_port_lives _ es 3 Hd)).
  - exact (proj1 (audio_port_lives _ es 4 Hd)).
  - exact (proj2 (audio_port_lives _ es 4 Hd) eq_refl).
Defined.
