(* ===== verification/CastMedia.v ===== *)
(** * Media sessions of the Cast backend (crates/pronk-chromiacast/src/media.rs, pronk-media/src/model.rs)

    A session admits one media generation at a time: it checks the request
    against what was negotiated, negotiates a transport with the receiver,
    configures the media graph, and gives the transport's ports to the two
    sender actors (CastVideoSender, CastAudioSender).  It starts, suspends and
    resumes them together, follows the receiver's feedback, and stops what has
    received a generation.

    The media graph, the negotiation and the GStreamer caps parser are the class
    [MediaPorts], whose answers may depend on everything that was asked before.
    The sender actors run on their own: before a command of the session reaches
    one of them, and while the session waits for progress, it handles whatever
    events the class gives.  The branches of [join!] act on different owners and
    are written one after the other.  The theorems are in CastMediaInvariant and
    CastLifecycle. *)

From S2P Require Import Prelude Bytes Text Time Actor PortLife EncodedVideo Feedback BackendProtocol CastVideoSender CastAudioSender.

(** ** Data *)

Definition OPUS_SAMPLE_RATE : Z := 48000.
Definition OPUS_CHANNELS : Z := 2.
Definition OPUS_BITRATE : Z := 128000.
Definition OPUS_FRAME_DURATION : Z := from_millis 20.
Definition INITIAL_PLAYOUT_DELAY : Z := from_millis 66.

(** [SessionState] of the backend protocol. *)
Inductive SessionState :=
  | StateCreated | StatePreparing | StatePrepared | StateConfigured | StateStreaming | StateSuspended
  | StateStopped | StateFailed.

Global Instance SessionState_eq_dec : EqDecision SessionState.
Proof. solve_decision. Defined.

Record PipeWireInput := { pi_remote : Z; pi_node_name : list Z; pi_object_serial : Z; pi_caps : list Z }.

Record PendingMediaGraphConfiguration := {
  pg_media_generation : Z; pg_video : PipeWireInput; pg_audio : option PipeWireInput; pg_video_bitrate : Z }.

Record MediaGraphConfiguration := {
  gc_media_generation : Z; gc_video : PipeWireInput; gc_audio : option PipeWireInput; gc_video_codec : VideoCodec;
  gc_video_bitrate : Z }.

Definition with_video_codec (p : PendingMediaGraphConfiguration) (codec : VideoCodec) : MediaGraphConfiguration :=
  {| gc_media_generation := pg_media_generation p; gc_video := pg_video p; gc_audio := pg_audio p;
     gc_video_codec := codec; gc_video_bitrate := pg_video_bitrate p |}.

Record AudioTransportConfiguration := { at_sample_rate : Z; at_channels : Z; at_bitrate : Z }.

Record VideoTransportConfiguration := {
  vt_width : Z; vt_height : Z; vt_framerate_numerator : Z; vt_framerate_denominator : Z; vt_bitrate : Z;
  vt_target_playout_delay : Z; vt_audio : option AudioTransportConfiguration }.

(** ** Caps

    [gst::Caps]: how many structures, whether they are fixed, and the first one.
    A field that is missing or of another type is [None]. *)

Record gst_structure := {
  st_name : list Z; st_string : string -> option (list Z); st_int : string -> option Z;
  st_fraction : string -> option (Z * Z) }.

Record gst_caps := { caps_size : Z; caps_fixed : bool; caps_structure : option gst_structure }.

(** One constructor for each message; [CapsUnparsed] is that of the parser. *)
Inductive CapsError :=
  | CapsUnparsed (message : list Z)
  | CapsNotFixed | CapsEmpty | CapsNotRaw | CapsNoFormat | CapsFormat (format : list Z) | CapsNoFramerate
  | CapsNumerator | CapsDenominator | CapsNoLayout | CapsLayout (layout : list Z) | CapsInteger (field : string)
  | CapsAudioShape (sample_rate channels : Z).

Record ValidatedVideoCaps := {
  vc_width : Z; vc_height : Z; vc_framerate_numerator : Z; vc_framerate_denominator : Z }.
Record ValidatedAudioCaps := { vc_sample_rate : Z; vc_channels : Z }.

(** [u32::try_from] of an [i32], then [NonZeroU32::new]. *)
Definition positive (value : Z) : option Z := if 0 <? value then Some value else None.

Definition positive_caps_integer (s : gst_structure) (field : string) : outcome CapsError Z :=
  ok_or (st_int s field ≫= positive) (CapsInteger field).

Definition one_fixed_structure (c : gst_caps) (name : string) : outcome CapsError gst_structure :=
  try? reject (negb (caps_size c =? 1) || negb (caps_fixed c)) CapsNotFixed;
  let? s := ok_or (caps_structure c) CapsEmpty in
  try? reject (negb (bool_decide (st_name s = codes name))) CapsNotRaw;
  Ok s.

Definition validate_caps (c : gst_caps) : outcome CapsError ValidatedVideoCaps :=
  let? s := one_fixed_structure c "video/x-raw" in
  let? format := ok_or (st_string s "format") CapsNoFormat in
  try? reject (negb (bool_decide (format = codes "BGRx"))) (CapsFormat format);
  let? width := positive_caps_integer s "width" in
  let? height := positive_caps_integer s "height" in
  let? framerate := ok_or (st_fraction s "framerate") CapsNoFramerate in
  let? numerator := ok_or (positive framerate.1) CapsNumerator in
  let? denominator := ok_or (positive framerate.2) CapsDenominator in
  Ok {| vc_width := width; vc_height := height; vc_framerate_numerator := numerator;
        vc_framerate_denominator := denominator |}.

Definition validate_audio_caps (c : gst_caps) : outcome CapsError ValidatedAudioCaps :=
  let? s := one_fixed_structure c "audio/x-raw" in
  let? format := ok_or (st_string s "format") CapsNoFormat in
  try? reject (negb (bool_decide (format = codes "S16LE"))) (CapsFormat format);
  let? layout := ok_or (st_string s "layout") CapsNoLayout in
  try? reject (negb (bool_decide (layout = codes "interleaved"))) (CapsLayout layout);
  let? sample_rate := positive_caps_integer s "rate" in
  let? channels := positive_caps_integer s "channels" in
  try? reject (negb (sample_rate =? OPUS_SAMPLE_RATE) || negb (channels =? OPUS_CHANNELS))
         (CapsAudioShape sample_rate channels);
  Ok {| vc_sample_rate := sample_rate; vc_channels := channels |}.

(** ** Errors and events

    [InvalidMessage] and [StatisticsRefused] carry the error whose text the code
    keeps, [CapsRefused] that of a graph error. *)
Inductive MediaSessionError :=
  | InvalidRequest (message : list Z)
  | InvalidMessage (e : ValidationError)
  | InvalidTransition (operation : string) (state : SessionState)
  | GraphFailed (message : list Z)
  | CapsRefused (e : CapsError)
  | StatisticsRefused (e : ValidationError)
  | TransportFailed (message : list Z).

Inductive MediaSessionEvent :=
  | KeyFrameRequested (session_generation media_generation : Z)
  | BitrateRequested (session_generation media_generation bitrate : Z).

Abbreviation refused := (outcome MediaSessionError).

(** ** The session *)

Record media_session := {
  me_session_id : list Z; me_session_generation : Z; me_state : SessionState;
  me_capabilities : option DeviceCapabilities; me_active : option Z; me_completed : option Z;
  me_graph_received : bool; me_sender_received : bool; me_audio_received : bool; me_transport_active : bool;
  me_audio_enabled : bool; me_ready : bool; me_video_bitrate : Z;
  me_controller : option VideoFeedbackController; me_sender : bool; me_audio_sender : bool }.

Definition session_new (session_id : list Z) (session_generation : Z) : media_session :=
  {| me_session_id := session_id; me_session_generation := session_generation; me_state := StateCreated;
     me_capabilities := None; me_active := None; me_completed := None; me_graph_received := false;
     me_sender_received := false; me_audio_received := false; me_transport_active := false;
     me_audio_enabled := false; me_ready := false; me_video_bitrate := 0; me_controller := None;
     me_sender := true; me_audio_sender := true |}.

Definition set_state (x : SessionState) (s : media_session) : media_session :=
  {| me_session_id := me_session_id s; me_session_generation := me_session_generation s; me_state := x;
     me_capabilities := me_capabilities s; me_active := me_active s; me_completed := me_completed s;
     me_graph_received := me_graph_received s; me_sender_received := me_sender_received s;
     me_audio_received := me_audio_received s; me_transport_active := me_transport_active s;
     me_audio_enabled := me_audio_enabled s; me_ready := me_ready s; me_video_bitrate := me_video_bitrate s;
     me_controller := me_controller s; me_sender := me_sender s; me_audio_sender := me_audio_sender s |}.

Definition set_prepared (c : DeviceCapabilities) (s : media_session) : media_session :=
  {| me_session_id := me_session_id s; me_session_generation := me_session_generation s; me_state := StatePrepared;
     me_capabilities := Some c; me_active := me_active s; me_completed := me_completed s;
     me_graph_received := me_graph_received s; me_sender_received := me_sender_received s;
     me_audio_received := me_audio_received s; me_transport_active := me_transport_active s;
     me_audio_enabled := me_audio_enabled s; me_ready := me_ready s; me_video_bitrate := me_video_bitrate s;
     me_controller := me_controller s; me_sender := me_sender s; me_audio_sender := me_audio_sender s |}.

(** The owners that have received the generation, and whether it is ready. *)
Definition set_received (graph sender audio transport ready : bool) (s : media_session) : media_session :=
  {| me_session_id := me_session_id s; me_session_generation := me_session_generation s; me_state := me_state s;
     me_capabilities := me_capabilities s; me_active := me_active s; me_completed := me_completed s;
     me_graph_received := graph; me_sender_received := sender; me_audio_received := audio;
     me_transport_active := transport; me_audio_enabled := me_audio_enabled s; me_ready := ready;
     me_video_bitrate := me_video_bitrate s; me_controller := me_controller s; me_sender := me_sender s;
     me_audio_sender := me_audio_sender s |}.

Definition set_control (bitrate : Z) (c : option VideoFeedbackController) (s : media_session) : media_session :=
  {| me_session_id := me_session_id s; me_session_generation := me_session_generation s; me_state := me_state s;
     me_capabilities := me_capabilities s; me_active := me_active s; me_completed := me_completed s;
     me_graph_received := me_graph_received s; me_sender_received := me_sender_received s;
     me_audio_received := me_audio_received s; me_transport_active := me_transport_active s;
     me_audio_enabled := me_audio_enabled s; me_ready := me_ready s; me_video_bitrate := bitrate;
     me_controller := c; me_sender := me_sender s; me_audio_sender := me_audio_sender s |}.

(** A generation is admitted: nobody has received it yet. *)
Definition admitted (generation : Z) (audio_enabled : bool) (bitrate : Z) (s : media_session) : media_session :=
  {| me_session_id := me_session_id s; me_session_generation := me_session_generation s;
     me_state := StateConfigured; me_capabilities := me_capabilities s; me_active := Some generation;
     me_completed := me_completed s; me_graph_received := false; me_sender_received := false;
     me_audio_received := false; me_transport_active := false; me_audio_enabled := audio_enabled; me_ready := false;
     me_video_bitrate := bitrate; me_controller := me_controller s; me_sender := me_sender s;
     me_audio_sender := me_audio_sender s |}.

(** The end of a generation, or of the session. *)
Definition cleared (state : SessionState) (completed : option Z) (senders : bool) (s : media_session)
  : media_session :=
  {| me_session_id := me_session_id s; me_session_generation := me_session_generation s; me_state := state;
     me_capabilities := me_capabilities s; me_active := None; me_completed := completed; me_graph_received := false;
     me_sender_received := false; me_audio_received := false; me_transport_active := false;
     me_audio_enabled := false; me_ready := false; me_video_bitrate := 0; me_controller := None;
     me_sender := senders && me_sender s; me_audio_sender := senders && me_audio_sender s |}.

(** ** Ports *)

Record MediaGraphStatistics := { gs_dropped_frames : Z }.

Inductive media_call :=
  | GraphConfigure (c : MediaGraphConfiguration)
  | GraphStart (generation : Z) | GraphSuspend (generation : Z) | GraphResume (generation : Z)
  | GraphKeyFrame (generation : Z) | GraphBitrate (generation bitrate : Z)
  | GraphStop (generation : Z) | GraphStatistics (generation : Z) | GraphShutdown
  | Negotiate (c : VideoTransportConfiguration) | Negotiated (t : NegotiatedVideoTransport) | StopVideo
  | ToVideo (c : Command) | ToAudio (c : AudioCommand) | AwaitVideo | AwaitAudio
  | ShutVideoPort (sender : Z) | ShutAudioPort (sender : Z).

Abbreviation media_log := (list media_call).

Class MediaPorts := {
  graph_port : media_log -> result unit;
  graph_bitrate : media_log -> result Z;
  graph_statistics : media_log -> result MediaGraphStatistics;
  negotiate_port : media_log -> result NegotiatedVideoTransport;
  stop_video_port : media_log -> result unit;
  (* of a video port *)
  supports_target_playout_delay_updates : Z -> bool;
  maximum_target_playout_delay : Z -> option Z;
  (* what a port answers to the command that a sender actor carries out on it *)
  sender_answer : media_log -> result unit;
  (* what the sender actors do before they take the next command, and during a wait *)
  video_between : media_log -> list event;
  audio_between : media_log -> list audio_event;
  video_waits : media_log -> list (list event) * wait_end;
  audio_waits : media_log -> list (list audio_event) * wait_end;
  instant_now : media_log -> Z;
  gst_parse : list Z -> result gst_caps }.

Record media_world := {
  w_session : media_session; w_video : video_actor; w_audio : audio_actor; w_log : media_log }.

Abbreviation med A := (actor media_world (refused A)).

Definition mbind {A B} (m : med A) (k : A -> med B) : med B :=
  abind m (fun r => match r with Ok a => k a | Err e => aret (Err e) | Panic => aret Panic end).

Notation "'let^' x := m 'in' k" := (mbind m (fun x => k))
  (at level 10, x name, m at level 200, k at level 200,
   format "'[v' 'let^'  x  :=  m  'in' '/' k ']'") : actor_scope.
Notation "'do^' m ; k" := (mbind m (fun _ => k))
  (at level 10, m at level 200, k at level 200,
   format "'[v' 'do^'  m ; '/' k ']'") : actor_scope.

Definition session : actor media_world media_session := fun w => (w_session w, w).
Definition update (f : media_session -> media_session) : actor media_world unit :=
  fun w => (tt, {| w_session := f (w_session w); w_video := w_video w; w_audio := w_audio w; w_log := w_log w |}).
Definition ask {A} (call : media_call) (answer : media_log -> A) : actor media_world A :=
  fun w => (answer (w_log w), {| w_session := w_session w; w_video := w_video w; w_audio := w_audio w;
                                 w_log := w_log w ++ [call] |}).
Definition lift {A} (o : refused A) : med A := aret o.
Definition require (c : bool) (e : MediaSessionError) : med unit := aret (if c then Ok tt else Err e).

(** [From<MediaGraphError>] and [From<VideoTransportError>]. *)
Definition from_graph {A} (r : result A) : refused A := match r with inl e => Err (GraphFailed e) | inr a => Ok a end.
Definition from_transport {A} (r : result A) : refused A :=
  match r with inl e => Err (TransportFailed e) | inr a => Ok a end.

(** ** Configuration *)

Definition minimum_playout_delay (framerate_numerator framerate_denominator : Z) (audio_enabled : bool) : Z :=
  let frame_milliseconds :=
    Z.max (div_ceil (Z.min (framerate_denominator * 1000) u64_MAX) framerate_numerator) 1 in
  Z.max (from_millis frame_milliseconds) (if audio_enabled then OPUS_FRAME_DURATION else 0).

Definition negotiated_audio (capabilities : DeviceCapabilities) (profile_id : list Z) : refused unit :=
  try? reject (Z.land (features capabilities) SESSION_FEATURE_AUDIO =? 0)
         (InvalidRequest (codes "audio was configured without a negotiated audio capability"));
  let? profile := ok_or (List.find (fun p => bool_decide (ap_profile_id p = profile_id)) (audio_profiles capabilities))
                    (InvalidRequest (codes "configured audio profile was not negotiated by Prepare")) in
  reject (negb (bool_decide (ap_codec profile = codes "opus")) || (max_channels profile <? OPUS_CHANNELS)
          || negb (bool_decide (OPUS_SAMPLE_RATE ∈ sample_rates profile)))
    (InvalidRequest (codes "negotiated audio profile cannot carry 48 kHz stereo Opus")).

Definition negotiated_video (capabilities : DeviceCapabilities) (c : MediaConfiguration) : refused unit :=
  try? reject (negb (bool_decide (mc_mode c ∈ modes capabilities)))
         (InvalidRequest (codes "configured mode was not negotiated by Prepare"));
  let? profile := ok_or (List.find (fun p => bool_decide (vp_profile_id p = video_profile_id c))
                           (video_profiles capabilities))
                    (InvalidRequest (codes "configured video profile was not negotiated by Prepare")) in
  reject ((max_width profile <? dm_width (mc_mode c)) || (max_height profile <? dm_height (mc_mode c))
          || (max_refresh_millihz profile <? dm_refresh_millihz (mc_mode c)))
    (InvalidRequest (codes "configured mode exceeds the negotiated video profile")).

Section Ports.
Context `{P : MediaPorts}.

Definition video_caps (text : list Z) : refused ValidatedVideoCaps :=
  match gst_parse text with
  | inl e => Err (CapsRefused (CapsUnparsed e))
  | inr c => omap_err CapsRefused (validate_caps c)
  end.

Definition audio_caps (text : list Z) : refused ValidatedAudioCaps :=
  match gst_parse text with
  | inl e => Err (CapsRefused (CapsUnparsed e))
  | inr c => omap_err CapsRefused (validate_audio_caps c)
  end.

Definition caps_match_mode (c : ValidatedVideoCaps) (mode : DisplayMode) : refused unit :=
  try? reject (negb (vc_width c =? dm_width mode) || negb (vc_height c =? dm_height mode))
         (InvalidRequest (codes "video caps are " ++ display_uint (vc_width c) ++ codes "x"
                          ++ display_uint (vc_height c) ++ codes " but configured mode is "
                          ++ display_uint (dm_width mode) ++ codes "x" ++ display_uint (dm_height mode)));
  let? caps_millihz := ok_or (checked_mul64 (vc_framerate_numerator c) 1000)
                         (InvalidRequest (codes "video refresh overflows")) in
  let? configured_millihz := ok_or (checked_mul64 (dm_refresh_millihz mode) (vc_framerate_denominator c))
                               (InvalidRequest (codes "configured refresh overflows")) in
  reject (negb (caps_millihz =? configured_millihz))
    (InvalidRequest (codes "video caps refresh differs from the configured mode")).

Definition paired (target video_target : PipeWireTarget) : bool :=
  bool_decide (session_id target = session_id video_target)
  && bool_decide (device_instance target = device_instance video_target)
  && (connector_id target =? connector_id video_target) && (output_index target =? output_index video_target)
  && (pt_media_generation target =? pt_media_generation video_target).

Definition input_of (remote : Z) (t : PipeWireTarget) : refused PipeWireInput :=
  let? serial := expect (nonzero (object_serial t)) in
  Ok {| pi_remote := remote; pi_node_name := node_name t; pi_object_serial := serial; pi_caps := caps t |}.

Definition audio_input (video_target : PipeWireTarget) (remotes : list Z) (targets : list PipeWireTarget)
  : refused (PipeWireInput * AudioTransportConfiguration) :=
  let? remote := expect (head remotes) in
  let? target := expect (head targets) in
  try? reject (negb (bool_decide (pt_kind target = Audio)))
         (InvalidRequest (codes "the second PipeWire target is not audio"));
  try? reject (negb (paired target video_target))
         (InvalidRequest (codes "audio target is not paired with the configured video output"));
  let? c := audio_caps (caps target) in
  let? input := input_of remote target in
  let? channels := expect (if vc_channels c <? 256 then Some (vc_channels c) else None) in
  Ok (input, {| at_sample_rate := vc_sample_rate c; at_channels := channels; at_bitrate := OPUS_BITRATE |}).

Definition graph_configuration (s : media_session) (remotes : list Z) (targets : list PipeWireTarget)
    (c : MediaConfiguration) (generation : Z)
  : refused (PendingMediaGraphConfiguration * VideoTransportConfiguration) :=
  let? capabilities := ok_or (me_capabilities s) (InvalidTransition "ConfigureMedia" (me_state s)) in
  try? match audio_profile_id c with
       | Some profile_id => negotiated_audio capabilities profile_id
       | None => Ok tt
       end;
  try? negotiated_video capabilities c;
  let? video_remote := expect (head remotes) in
  let? video_target := expect (head targets) in
  try? reject (negb (bool_decide (pt_kind video_target = Video)))
         (InvalidRequest (codes "the first PipeWire target is not video"));
  try? reject (negb (bool_decide (session_id video_target = me_session_id s)))
         (InvalidRequest (codes "PipeWire target belongs to another session"));
  let? vcaps := video_caps (caps video_target) in
  try? caps_match_mode vcaps (mc_mode c);
  let? audio := match audio_profile_id c with
                | Some _ => let? a := audio_input video_target (tail remotes) (tail targets) in Ok (Some a)
                | None => Ok None
                end in
  let? bitrate := ok_or (if video_bitrate c <=? u32_MAX then Some (video_bitrate c) else None)
                    (InvalidRequest (codes "video bitrate exceeds Cast's u32 range")) in
  let minimum := minimum_playout_delay VIDEO_FRAME_RATE 1 (bool_decide (is_Some audio)) in
  let? video := input_of video_remote video_target in
  let? nonzero_bitrate := expect (nonzero (video_bitrate c)) in
  Ok ({| pg_media_generation := generation; pg_video := video; pg_audio := fst <$> audio;
         pg_video_bitrate := nonzero_bitrate |},
      {| vt_width := vc_width vcaps; vt_height := vc_height vcaps; vt_framerate_numerator := VIDEO_FRAME_RATE;
         vt_framerate_denominator := 1; vt_bitrate := bitrate;
         vt_target_playout_delay := Z.max INITIAL_PLAYOUT_DELAY minimum; vt_audio := snd <$> audio |}).

(** ** The sender actors

    Of the events of the class only those that are not the session's own doing
    happen: the session has the only handle on the actors. *)

Definition video_own (e : event) : bool :=
  match e with Commanded _ _ | CommandsClosed => false | _ => true end.
Definition audio_own (e : audio_event) : bool :=
  match e with AudioCommanded _ _ | AudioCommandsClosed => false | _ => true end.

Definition set_video (a : video_actor) (w : media_world) : media_world :=
  {| w_session := w_session w; w_video := a; w_audio := w_audio w; w_log := w_log w |}.
Definition set_audio (a : audio_actor) (w : media_world) : media_world :=
  {| w_session := w_session w; w_video := w_video w; w_audio := a; w_log := w_log w |}.
Definition called (c : media_call) (w : media_world) : media_world :=
  {| w_session := w_session w; w_video := w_video w; w_audio := w_audio w; w_log := w_log w ++ [c] |}.

(** The handle's [request]: the actor gets to the command after what it was doing. *)
Definition video_request (c : Command) : actor media_world (option Reply) :=
  fun w =>
    let a := video_run (w_video w) (List.filter video_own (video_between (w_log w))) in
    if va_running a then
      let '(reply, a) := handle_command c (sender_answer (w_log w)) a in
      (reply, called (ToVideo c) (set_video a w))
    else (None, called (ToVideo c) (set_video a w)).

Definition audio_request (c : AudioCommand) : actor media_world (option AudioReply) :=
  fun w =>
    let a := audio_run (w_audio w) (List.filter audio_own (audio_between (w_log w))) in
    if ac_running a then
      let '(reply, a) := audio_handle_command c (sender_answer (w_log w)) a in
      (reply, called (ToAudio c) (set_audio a w))
    else (None, called (ToAudio c) (set_audio a w)).

(** A command that is answered with a value of another kind does not exist. *)
Definition video_unit (c : Command) : actor media_world (result unit) :=
  let* r := video_request c in
  aret match r with
       | Some (ReplyUnit r) => r
       | _ => inl (VideoTransportError_new (codes "video sender command channel closed"))
       end.
Definition video_statistics (generation : Z) : actor media_world (result VideoSenderStatistics) :=
  let* r := video_request (CmdStatistics generation) in
  aret match r with
       | Some (ReplyStatistics r) => r
       | _ => inl (VideoTransportError_new (codes "video sender command channel closed"))
       end.
Definition video_stop (generation : Z) : actor media_world (result VideoSenderStatistics) :=
  let* r := video_request (CmdStop generation) in
  aret match r with
       | Some (ReplyStatistics r) => r
       | _ => inl (VideoTransportError_new (codes "video sender command channel closed"))
       end.
Definition audio_unit (c : AudioCommand) : actor media_world (result unit) :=
  let* r := audio_request c in
  aret match r with
       | Some (AudioReplyUnit r) => r
       | _ => inl (VideoTransportError_new (codes "audio sender command channel closed"))
       end.
Definition audio_statistics (generation : Z) : actor media_world (result AudioSenderStatistics) :=
  let* r := audio_request (AudioStatistics generation) in
  aret match r with
       | Some (AudioReplyStatistics r) => r
       | _ => inl (VideoTransportError_new (codes "audio sender command channel closed"))
       end.
Definition audio_stop (generation : Z) : actor media_world (result AudioSenderStatistics) :=
  let* r := audio_request (AudioStop generation) in
  aret match r with
       | Some (AudioReplyStatistics r) => r
       | _ => inl (VideoTransportError_new (codes "audio sender command channel closed"))
       end.

(** [sender] and [audio_sender]: the handle, if the session still has it. *)
Definition with_sender {A} (m : actor media_world (result A)) : med A :=
  let* s := session in
  if me_sender s then let* r := m in aret (from_transport r)
  else aret (Err (TransportFailed (codes "video sender actor is shut down"))).
Definition with_audio_sender {A} (m : actor media_world (result A)) : med A :=
  let* s := session in
  if me_audio_sender s then let* r := m in aret (from_transport r)
  else aret (Err (TransportFailed (codes "audio sender actor is shut down"))).

Definition video_wait (wait : list (list event) -> wait_end -> video_actor -> result unit * video_actor)
  : actor media_world (result unit) :=
  fun w =>
    let '(batches, ending) := video_waits (w_log w) in
    let '(r, a) := wait (List.filter video_own <$> batches) ending (w_video w) in
    (r, called AwaitVideo (set_video a w)).
Definition audio_wait (wait : list (list audio_event) -> wait_end -> audio_actor -> result unit * audio_actor)
  : actor media_world (result unit) :=
  fun w =>
    let '(batches, ending) := audio_waits (w_log w) in
    let '(r, a) := wait (List.filter audio_own <$> batches) ending (w_audio w) in
    (r, called AwaitAudio (set_audio a w)).

(** The transport that the negotiation produced is part of the record. *)
Definition negotiate_video (c : VideoTransportConfiguration) : actor media_world (result NegotiatedVideoTransport) :=
  let* r := ask (Negotiate c) negotiate_port in
  do* match r with inr t => ask (Negotiated t) (fun _ => tt) | inl _ => aret tt end;
  aret r.

Definition graph_call (c : media_call) : med unit :=
  let* r := ask c graph_port in aret (from_graph r).

(** The result of a call that is ignored. *)
Definition ignored {A} (m : actor media_world A) : actor media_world unit := let* _ := m in aret tt.

(** [if let Err(error) = self.sender()?.operation().await { undo; return Err }]. *)
Definition sender_or (m : actor media_world (result unit)) (undo : actor media_world unit) : med unit :=
  let* s := session in
  if negb (me_sender s) then aret (Err (TransportFailed (codes "video sender actor is shut down")))
  else
    let* r := m in
    match r with inl e => do* undo; aret (Err (TransportFailed e)) | inr _ => aret (Ok tt) end.
Definition audio_sender_or (m : actor media_world (result unit)) (undo : actor media_world unit) : med unit :=
  let* s := session in
  if negb (me_audio_sender s) then aret (Err (TransportFailed (codes "audio sender actor is shut down")))
  else
    let* r := m in
    match r with inl e => do* undo; aret (Err (TransportFailed e)) | inr _ => aret (Ok tt) end.

(** ** Operations *)

Definition complete_preparation (c : DeviceCapabilities) : med unit :=
  let* s := session in
  do^ require (bool_decide (me_state s = StateCreated)) (InvalidTransition "Prepare" (me_state s));
  do^ lift (omap_err InvalidMessage (validate_capabilities c));
  do* update (set_prepared c);
  aret (Ok tt).

(** After negotiation: the ports that the senders do not get are shut down. *)
Definition give_ports (generation : Z) (audio_enabled : bool) (t : NegotiatedVideoTransport) : med unit :=
  let shut_video := ask (ShutVideoPort (nt_sender t)) (fun _ => tt) in
  let split := {| nt_video_codec := nt_video_codec t; nt_sender := nt_sender t; nt_audio_sender := None;
                  nt_minimum_bitrate := nt_minimum_bitrate t |} in
  do^ match audio_enabled, nt_audio_sender t with
      | true, Some audio =>
          do^ audio_sender_or (audio_unit (AudioConfigure generation audio)) shut_video;
          do* update (set_received true false true true false);
          aret (Ok tt)
      | true, None =>
          do* shut_video;
          aret (Err (TransportFailed (codes "Cast receiver did not provide the negotiated audio sender")))
      | false, Some audio =>
          do* ask (ShutAudioPort audio) (fun _ => tt);
          do* shut_video;
          aret (Err (TransportFailed (codes "Cast transport provided audio for a video-only generation")))
      | false, None => aret (Ok tt)
      end;
  do^ with_sender (video_unit (CmdConfigure generation split));
  do* update (fun s => set_received true true (me_audio_received s) true true s);
  aret (Ok tt).

Definition playout_configuration (t : NegotiatedVideoTransport) (c : VideoTransportConfiguration)
  : option AdaptivePlayoutDelayConfiguration :=
  if supports_target_playout_delay_updates (nt_sender t) then
    Some {| cfg_minimum := minimum_playout_delay (vt_framerate_numerator c) (vt_framerate_denominator c)
                             (bool_decide (is_Some (vt_audio c)));
            cfg_initial := vt_target_playout_delay c;
            cfg_receiver_maximum := maximum_target_playout_delay (nt_sender t) |}
  else None.

(** A panic of the feedback controller; it has no errors. *)
Definition unpanicked {A} (o : outcome Empty_set A) : refused A :=
  match o with Ok a => Ok a | Err e => match e with end | Panic => Panic end.

Definition configure (remotes : list Z) (targets : list PipeWireTarget) (c : MediaConfiguration)
    (media_generation : Z) : med unit :=
  do^ lift (omap_err InvalidMessage (validate_media_configuration (length remotes) targets c media_generation));
  let* s := session in
  do^ require (bool_decide (me_state s = StatePrepared)) (InvalidTransition "ConfigureMedia" (me_state s));
  do^ require (negb (media_generation =? 0)) (InvalidRequest (codes "media generation must be nonzero"));
  do^ require (negb (not_newer (me_completed s) media_generation))
        (InvalidRequest (codes "media generation " ++ display_uint media_generation
                         ++ codes " is not newer than completed generation " ++ debug_option (me_completed s)));
  let^ configurations := lift (graph_configuration s remotes targets c media_generation) in
  let '(graph, transport) := configurations in
  let audio_enabled := bool_decide (is_Some (pg_audio graph)) in
  do* update (admitted media_generation audio_enabled (pg_video_bitrate graph));
  let* negotiation := negotiate_video transport in
  let^ t := lift (from_transport negotiation) in
  do* update (set_received true false false true false);
  let* configured := ask (GraphConfigure (with_video_codec graph (nt_video_codec t))) graph_port in
  match configured with
  | inl e =>
      do* ask (ShutVideoPort (nt_sender t)) (fun _ => tt);
      aret (Err (GraphFailed e))
  | inr _ =>
      let^ controller := lift (unpanicked (controller_new (pg_video_bitrate graph) (nt_minimum_bitrate t)
                                             (playout_configuration t transport))) in
      do* update (fun s => set_control (me_video_bitrate s) (Some controller) s);
      give_ports media_generation audio_enabled t
  end.

(** The actions of the controller, in order; an error drops the events so far. *)
Fixpoint perform (generation : Z) (actions : list VideoFeedbackAction) : med (list MediaSessionEvent) :=
  match actions with
  | [] => aret (Ok [])
  | action :: actions =>
      let* s := session in
      let^ event :=
        match action with
        | ForceKeyFrame =>
            do^ graph_call (GraphKeyFrame generation);
            aret (Ok [KeyFrameRequested (me_session_generation s) generation])
        | SetBitrate bitrate =>
            let* r := ask (GraphBitrate generation bitrate) graph_bitrate in
            let^ bitrate := lift (from_graph r) in
            do* update (fun s => set_control bitrate (me_controller s) s);
            aret (Ok [BitrateRequested (me_session_generation s) generation bitrate])
        | SetPlayoutDelay delay =>
            do^ with_sender (video_unit (CmdSetTargetPlayoutDelay generation delay));
            aret (Ok [])
        | DisableAdaptivePlayoutDelay _ _ => aret (Ok [])
        end in
      let^ events := perform generation actions in
      aret (Ok (event ++ events))
  end.

Definition handle_feedback (feedback : SenderFeedback) : med (list MediaSessionEvent) :=
  let* s := session in
  match sf_generation feedback with
  | None => aret (Ok [])
  | Some generation =>
      if negb (bool_decide (me_active s = Some generation)) || negb (me_ready s) then aret (Ok [])
      else
        match sf_terminal_error feedback with
        | Some e => aret (Err (TransportFailed e))
        | None =>
            match me_controller s with
            | None => aret (Ok [])
            | Some controller =>
                let* log := fun w => (w_log w, w) in
                let^ observed :=
                  lift (unpanicked (observe controller
                          {| key_frame_requests := sf_key_frame_requests feedback; pressure := sf_pressure feedback |}
                          (instant_now log))) in
                let '(controller, actions) := observed in
                do* update (fun s => set_control (me_video_bitrate s) (Some controller) s);
                perform generation actions
            end
        end
  end.

Definition require_matching_generation (operation : string) (generation : Z) : med unit :=
  let* s := session in
  require (bool_decide (me_active s = Some generation))
    (InvalidRequest (codes operation ++ codes " generation " ++ display_uint generation
                     ++ codes " does not match active generation " ++ debug_option (me_active s))).

Definition require_generation (operation : string) (generation : Z) (required : SessionState) : med unit :=
  let* s := session in
  do^ require (bool_decide (me_state s = required)) (InvalidTransition operation (me_state s));
  do^ require (negb (generation =? 0)) (InvalidRequest (codes "media generation must be nonzero"));
  require_matching_generation operation generation.

Definition suspend_senders_best_effort (generation : Z) : actor media_world unit :=
  let* s := session in
  do* (if me_audio_enabled s && me_audio_sender s
       then ignored (audio_unit (AudioTransition generation TransitionSuspend)) else aret tt);
  if me_sender s then ignored (video_unit (CmdTransition generation TransitionSuspend)) else aret tt.

Definition wait_for_media_confirmation (generation : Z) (previous_video : VideoSenderStatistics)
    (previous_audio : option AudioSenderStatistics) : med unit :=
  do^ with_sender (video_wait (wait_for_frame_after generation (vs_frames previous_video)));
  do^ match previous_audio with
      | Some a => with_audio_sender (audio_wait (wait_for_packet_after generation (as_packets a)))
      | None => aret (Ok tt)
      end;
  do^ with_sender (video_wait (wait_for_receiver_ack_after generation (vs_acknowledged_frames previous_video)));
  match previous_audio with
  | Some _ => with_sender (video_wait (wait_for_receiver_audio_ack_after generation
                                         (vs_acknowledged_audio_packets previous_video)))
  | None => aret (Ok tt)
  end.

(** The common part of [start] and [resume]: the senders, then the graph, then
    the receiver's confirmation. *)
Definition flow (generation : Z) (t : Transition) (graph : media_call) : med unit :=
  let* s := session in
  let^ previous_video := with_sender (video_statistics generation) in
  let^ previous_audio :=
    (if me_audio_enabled s
     then let^ a := with_audio_sender (audio_statistics generation) in aret (Ok (Some a))
     else aret (Ok None)) in
  do^ with_sender (video_unit (CmdTransition generation t));
  do^ (if me_audio_enabled s then
         audio_sender_or (audio_unit (AudioTransition generation t))
           (ignored (with_sender (video_unit (CmdTransition generation TransitionSuspend))))
       else aret (Ok tt));
  let* started := graph_call graph in
  match started with
  | Err e => do* suspend_senders_best_effort generation; aret (Err e)
  | Panic => aret Panic
  | Ok _ =>
      let* confirmation := wait_for_media_confirmation generation previous_video previous_audio in
      match confirmation with
      | Err e =>
          do* ignored (graph_call (GraphSuspend generation));
          do* suspend_senders_best_effort generation;
          aret (Err e)
      | Panic => aret Panic
      | Ok _ => do* update (set_state StateStreaming); aret (Ok tt)
      end
  end.

Definition start (generation : Z) : med unit :=
  do^ require_generation "Start" generation StateConfigured;
  let* s := session in
  do^ require (me_ready s) (GraphFailed (codes "Start cannot follow a failed media configuration"));
  flow generation TransitionStart (GraphStart generation).

Definition resume (generation : Z) : med unit :=
  do^ require_generation "Resume" generation StateSuspended;
  flow generation TransitionResume (GraphResume generation).

Definition suspend : med unit :=
  let* s := session in
  do^ require (bool_decide (me_state s = StateStreaming)) (InvalidTransition "Suspend" (me_state s));
  match me_active s with
  | None => aret (Err (GraphFailed (codes "active media generation is missing")))
  | Some generation =>
      do^ graph_call (GraphSuspend generation);
      do^ (if me_audio_enabled s then
             audio_sender_or (audio_unit (AudioTransition generation TransitionSuspend))
               (ignored (graph_call (GraphResume generation)))
           else aret (Ok tt));
      do^ sender_or (video_unit (CmdTransition generation TransitionSuspend))
            (do* (if me_audio_enabled s
                  then ignored (with_audio_sender (audio_unit (AudioTransition generation TransitionResume)))
                  else aret tt);
             ignored (graph_call (GraphResume generation)));
      do* update (set_state StateSuspended);
      aret (Ok tt)
  end.

Definition dropped_value {A} (r : refused A) : refused unit :=
  match r with Ok _ => Ok tt | Err e => Err e | Panic => Panic end.

(** One branch of the teardown. *)
Definition teardown {A} (received : bool) (m : med A) : med unit :=
  if received then let* r := m in aret (dropped_value r) else aret (Ok tt).

Definition both (r1 r2 : refused unit) : refused unit := try? r1; r2.

(** Every part that has received the generation is told, whatever the others
    answer, and the session is free. *)
Definition tear_down (s : media_session) (generation : Z) : med unit :=
  let* graph := teardown (me_graph_received s)
                  (let* r := ask (GraphStop generation) graph_statistics in aret (from_graph r)) in
  let* audio := teardown (me_audio_received s) (with_audio_sender (audio_stop generation)) in
  let* video := teardown (me_sender_received s) (with_sender (video_stop generation)) in
  let* transport := teardown (me_transport_active s)
                      (let* r := ask StopVideo stop_video_port in aret (from_transport r)) in
  do* update (cleared StatePrepared (Some generation) true);
  aret (both graph (both audio (both video transport))).

Definition stop_media (generation : Z) : med unit :=
  do^ require (negb (generation =? 0)) (InvalidRequest (codes "media generation must be nonzero"));
  let* s := session in
  if bool_decide (me_state s = StatePrepared) && bool_decide (me_completed s = Some generation) then aret (Ok tt)
  else
    do^ require (bool_decide (me_state s = StateConfigured) || bool_decide (me_state s = StateStreaming)
                 || bool_decide (me_state s = StateSuspended)) (InvalidTransition "StopMedia" (me_state s));
    do^ require_matching_generation "StopMedia" generation;
    tear_down s generation.

Definition statistics : med SessionStatistics :=
  let* s := session in
  do^ require (me_ready s
               && (bool_decide (me_state s = StateConfigured) || bool_decide (me_state s = StateStreaming)
                   || bool_decide (me_state s = StateSuspended))) (InvalidTransition "GetStatistics" (me_state s));
  match me_active s with
  | None => aret (Err (GraphFailed (codes "active media generation is missing")))
  | Some generation =>
      let* r := ask (GraphStatistics generation) graph_statistics in
      let^ graph := lift (from_graph r) in
      let^ sender := with_sender (video_statistics generation) in
      let^ audio := (if me_audio_enabled s
                     then let^ a := with_audio_sender (audio_statistics generation) in aret (Ok (Some a))
                     else aret (Ok None)) in
      let queue_delay := match audio with
                         | Some a => Z.max (vs_queue_delay sender) (as_queue_delay a)
                         | None => vs_queue_delay sender
                         end in
      (* [as_micros], at most [u64::MAX] *)
      let queue_delay_micros := Z.min (Z.min (queue_delay / 1000) u64_MAX) 60000000 in
      let statistics :=
        {| ss_session_generation := me_session_generation s; ss_media_generation := generation;
           ss_video_bitrate := me_video_bitrate s; encoded_frames := vs_frames sender;
           dropped_frames := saturating_add64 (gs_dropped_frames graph) (vs_dropped_frames sender);
           queue_delay_micros := queue_delay_micros |} in
      do^ lift (omap_err StatisticsRefused (validate_statistics statistics));
      aret (Ok statistics)
  end.

(** The handles are gone after it, so each actor is shut down once. *)
Definition shutdown : med unit :=
  let* s := session in
  let* graph := graph_call GraphShutdown in
  let* audio := (if me_audio_sender s then let* r := audio_unit AudioShutdown in aret (from_transport r)
                 else aret (Ok tt)) in
  let* video := (if me_sender s then let* r := video_unit CmdShutdown in aret (from_transport r)
                 else aret (Ok tt)) in
  do* update (fun s => cleared StateStopped (me_completed s) false s);
  aret (both graph (both audio video)).

End Ports.

(** ** Runs of a session *)

Inductive media_op :=
  | OpPrepare (c : DeviceCapabilities)
  | OpConfigure (remotes : list Z) (targets : list PipeWireTarget) (c : MediaConfiguration) (generation : Z)
  | OpFeedback (feedback : SenderFeedback)
  | OpStart (generation : Z) | OpSuspend | OpResume (generation : Z) | OpStop (generation : Z)
  | OpStatistics | OpShutdown.

Definition media_start (session_id : list Z) (session_generation : Z) (video : channel EncodedVideoAccessUnit)
    (audio : channel EncodedAudioPacket) : media_world :=
  {| w_session := session_new session_id session_generation; w_video := video_sender_spawn video;
     w_audio := audio_sender_spawn audio; w_log := [] |}.

Section Runs.
Context `{P : MediaPorts}.

Definition perform_op (op : media_op) : med unit :=
  match op with
  | OpPrepare c => complete_preparation c
  | OpConfigure remotes targets c generation => configure remotes targets c generation
  | OpFeedback feedback => let* r := handle_feedback feedback in aret (dropped_value r)
  | OpStart generation => start generation
  | OpSuspend => suspend
  | OpResume generation => resume generation
  | OpStop generation => stop_media generation
  | OpStatistics => let* r := statistics in aret (dropped_value r)
  | OpShutdown => shutdown
  end.

Definition media_run (w : media_world) (ops : list media_op) : media_world :=
  foldl (fun w op => (perform_op op w).2) w ops.

End Runs.
