(* ===== verification/CastMediaInvariant.v ===== *)
(** * What holds of the Cast backend's media sessions

    The invariant of CastMedia's sessions with their two sender actors, the rules
    it is proved with (one for each thing the session does), and the theorems:
    the session and its senders stay in step, every negotiated transport is
    accounted for, and stopping a generation releases it everywhere. *)

From S2P Require Import Prelude Bytes Text Time Actor PortLife EncodedVideo Feedback BackendProtocol CastVideoSender CastAudioSender CastMedia.

Section Runs.
Context `{P : MediaPorts}.

(** ** What holds between the calls *)

(** What is known of a sender: idle, or active for a generation in one of the
    states, unless it has failed. *)
Inductive vspec := VIdle | VGen (generation : Z) (states : list VideoSenderState).
Inductive aspec := AIdle | AGen (generation : Z) (states : list AudioSenderState).

Definition vin (v : vspec) (a : video_actor) : Prop :=
  match v with
  | VIdle => va_active a = None
  | VGen g states => exists x, va_active a = Some x /\ as_generation x = g /\
      (as_state x = SenderFailed \/ as_state x ∈ states)
  end.
Definition ain (v : aspec) (a : audio_actor) : Prop :=
  match v with
  | AIdle => ac_active a = None
  | AGen g states => exists x, ac_active a = Some x /\ aa_generation x = g /\
      (aa_state x = AudioFailed \/ aa_state x ∈ states)
  end.

(** The transports that were negotiated, and those that the session shut down
    itself. *)
Definition negotiated (log : media_log) : list Z :=
  omap (fun c => match c with Negotiated t => Some (nt_sender t) | _ => None end) log.
Definition session_shut (log : media_log) : list Z :=
  omap (fun c => match c with ShutVideoPort s => Some s | _ => None end) log.

(** Every negotiated transport went to the sender or was shut down, but for the
    one in hand. *)
Definition accounted (in_hand : list Z) (w : media_world) : Prop :=
  NoDup (negotiated (w_log w)) -> exists given,
    lives given (w_video w) /\ Permutation (negotiated (w_log w)) (in_hand ++ given ++ session_shut (w_log w)).

Record holds_at (s : media_session) (v : vspec) (a : aspec) (in_hand : list Z) (w : media_world) : Prop := {
  at_session : w_session w = s;
  at_video_handle : me_sender s = va_running (w_video w);
  at_audio_handle : me_audio_sender s = ac_running (w_audio w);
  at_video : vin v (w_video w);
  at_audio : ain a (w_audio w);
  at_ports : accounted in_hand w }.

(** *** The senders on their own *)

Lemma video_own_turn v a e :
  video_own e = true -> vin v a -> vin v (video_turn a e) /\ va_running (video_turn a e) = va_running a.
Proof.
  intros Ho Hv. unfold video_turn. destruct (selects a e) eqn:Hs; [|done].
  assert (Hfail : forall m b, va_active b = va_active a -> va_running b = va_running a ->
    vin v (fail_active m b) /\ va_running (fail_active m b) = va_running a).
  { intros m b Hb Hr. unfold fail_active. rewrite Hb. destruct v as [|g sts]; cbn in *.
    - rewrite Hv. by rewrite Hb.
    - destruct Hv as (x & Hx & Hg & _). rewrite Hx. split; [|done]. eexists. split_and!; [done|done|by left]. }
  assert (Hok : forall b x x', va_active b = Some x -> va_active a = Some x' -> va_running b = va_running a ->
    as_generation x = as_generation x' -> as_state x = as_state x' -> vin v b /\ va_running b = va_running a).
  { intros b x x' Hb Hx' Hr Hg Hst. split; [|done]. destruct v as [|g sts]; cbn in *; [congruence|].
    rewrite Hx' in Hv. destruct Hv as (? & [= <-] & <- & ?). exists x. by rewrite Hst. }
  destruct e as [c answer| |now answer|f| |u|]; cbn in Ho; try done; cbn [video_handle snd].
  - destruct (ch_queue (va_output a)) as [|u rest]; [by apply Hfail|].
    unfold forward_access_unit. cbn [va_active with_output]. destruct (va_active a) as [x|] eqn:Hx; [|by apply Hfail].
    destruct (negb _); [by eapply Hok|]. destruct (leaves_out x u); [by eapply Hok|].
    destruct (as_sender x); [|by apply Hfail].
    destruct answer as [[]|m|]; [by eapply Hok..|by apply Hfail|by apply Hfail].
  - unfold process_transport_feedback. destruct (va_active a) as [x|] eqn:Hx; [|done].
    destruct (tf_terminal_error f); [by apply Hfail|]. by eapply Hok.
  - by apply Hfail.
Qed.

Lemma own_turn_lives given a e : video_own e = true -> lives given a -> NoDup given -> lives given (video_turn a e).
Proof.
  intros Ho Hl Hd. assert (E : handed_by a e = []) by by destruct e.
  pose proof (lives_turn given a e) as H. rewrite E, app_nil_r in H. by apply H.
Qed.

Lemma video_own_run v a es :
  vin v a -> vin v (video_run a (List.filter video_own es)) /\
  va_running (video_run a (List.filter video_own es)) = va_running a /\
  forall given, NoDup given -> lives given a -> lives given (video_run a (List.filter video_own es)).
Proof.
  revert a. induction es as [|e es IH]; intros a Hv; [done|]. cbn. destruct (video_own e) eqn:He; [|by apply IH].
  destruct (video_own_turn v a e He Hv) as [Hv' Hr]. destruct (IH _ Hv') as (? & Hr' & Hl).
  split_and!; [done|by rewrite <- Hr|]. intros given Hd Hg. by apply Hl, own_turn_lives.
Qed.

Lemma audio_own_turn v a e :
  audio_own e = true -> ain v a -> ain v (audio_turn a e) /\ ac_running (audio_turn a e) = ac_running a.
Proof.
  intros Ho Hv. unfold audio_turn. destruct (audio_selects a e) eqn:Hs; [|done].
  assert (Hfail : forall m b, ac_active b = ac_active a -> ac_running b = ac_running a ->
    ain v (audio_fail_active m b) /\ ac_running (audio_fail_active m b) = ac_running a).
  { intros m b Hb Hr. unfold audio_fail_active. rewrite Hb. destruct v as [|g sts]; cbn in *.
    - rewrite Hv. by rewrite Hb.
    - destruct Hv as (x & Hx & Hg & _). rewrite Hx. split; [|done]. eexists. split_and!; [done|done|by left]. }
  assert (Hok : forall b x x', ac_active b = Some x -> ac_active a = Some x' -> ac_running b = ac_running a ->
    aa_generation x = aa_generation x' -> aa_state x = aa_state x' -> ain v b /\ ac_running b = ac_running a).
  { intros b x x' Hb Hx' Hr Hg Hst. split; [|done]. destruct v as [|g sts]; cbn in *; [congruence|].
    rewrite Hx' in Hv. destruct Hv as (? & [= <-] & <- & ?). exists x. by rewrite Hst. }
  destruct e as [c answer| |now answer|p|]; cbn in Ho; try done; cbn [audio_handle snd].
  destruct (ch_queue (ac_output a)) as [|u rest]; [by apply Hfail|].
  unfold forward_packet. cbn [ac_active audio_with_output]. destruct (ac_active a) as [x|] eqn:Hx; [|by apply Hfail].
  destruct (negb _); [by eapply Hok|]. destruct (aa_sender x); [|by apply Hfail].
  destruct answer as [[]|m|]; [by eapply Hok..|by apply Hfail|by apply Hfail].
Qed.

Lemma audio_own_run v a es :
  ain v a -> ain v (audio_run a (List.filter audio_own es)) /\
  ac_running (audio_run a (List.filter audio_own es)) = ac_running a.
Proof.
  revert a. induction es as [|e es IH]; intros a Hv; [done|]. cbn. destruct (audio_own e) eqn:He; [|by apply IH].
  destruct (audio_own_turn v a e He Hv) as [Hv' Hr]. destruct (IH _ Hv') as (? & Hr'). by rewrite <- Hr.
Qed.

(** *** Rules *)

Lemma accounted_nodup hand w given :
  NoDup (negotiated (w_log w)) ->
  Permutation (negotiated (w_log w)) (hand ++ given ++ session_shut (w_log w)) -> NoDup given.
Proof. intros Hd Hp. rewrite Hp in Hd. by apply NoDup_app in Hd as (_ & _ & [? _]%NoDup_app). Qed.

(** A step that moves the video actor by something that keeps lives, and logs a
    call that is not about ports. *)
Lemma accounted_step hand w a c :
  accounted hand w -> negotiated [c] = [] -> session_shut [c] = [] ->
  (forall given, NoDup given -> lives given (w_video w) -> lives given a) ->
  accounted hand (called c (set_video a w)).
Proof.
  unfold accounted. intros H Hn Hs Hl. cbn [called set_video w_log w_video].
  unfold negotiated, session_shut in *. rewrite !omap_app, Hn, Hs, !app_nil_r.
  intros Hd. destruct (H Hd) as (given & Hg & Hp). exists given. split; [|done]. apply Hl; [|done].
  by eapply accounted_nodup.
Qed.

Lemma accounted_log hand w a c :
  accounted hand w -> negotiated [c] = [] -> session_shut [c] = [] -> accounted hand (called c (set_audio a w)).
Proof.
  unfold accounted. intros H Hn Hs. cbn [called set_audio w_log w_video].
  unfold negotiated, session_shut in *. by rewrite !omap_app, Hn, Hs, !app_nil_r.
Qed.

Definition plain (c : Command) : bool :=
  match c with CmdConfigure _ _ | CmdShutdown => false | _ => true end.

Lemma plain_running c answer a : plain c = true -> va_running (handle_command c answer a).2 = va_running a.
Proof.
  destruct c as [h t|h t|h d|h|h|]; intros Hc; try done; cbn [handle_command].
  - unfold transition_active. destruct (matching_active a h); [done|]. destruct (transition_states t).
    by case_bool_decide.
  - unfold set_target_playout_delay. destruct (matching_active a h) as [|x]; [done|]. by destruct (as_sender x).
  - unfold stop_active. destruct (va_active a) as [x|]; [|by case_bool_decide].
    destruct (negb _); [done|]. by destruct (as_sender x), answer.
Qed.

Lemma plain_lives c answer a given :
  plain c = true -> va_running a = true -> NoDup given -> lives given a -> lives given (handle_command c answer a).2.
Proof.
  intros Hc Hr Hd Hl. pose proof (lives_command given c answer a Hl Hr) as H.
  assert (E : handed_by a (Commanded c answer) = []) by by destruct c. rewrite E, app_nil_r in H. by apply H.
Qed.

Lemma video_request_rule c s v post A hand :
  plain c = true -> me_sender s = true ->
  (forall a answer, vin v a -> vin (post (handle_command c answer a).1) (handle_command c answer a).2) ->
  runs (video_request c) (holds_at s v A hand) (fun r => holds_at s (post r) A hand).
Proof.
  intros Hc Hs He w [H1 H2 H3 H4 H5 H6]. unfold video_request.
  destruct (video_own_run v (w_video w) (video_between (w_log w)) H4) as (Hv & Hr & Hl).
  set (a := video_run _ _) in *. rewrite Hr, <- H2, Hs.
  pose proof (He a (sender_answer (w_log w)) Hv) as Hpost.
  pose proof (plain_running c (sender_answer (w_log w)) a Hc) as Hrun.
  pose proof (plain_lives c (sender_answer (w_log w)) a) as Hlives.
  destruct (handle_command c _ a) as [reply a'] eqn:E. cbn [fst snd] in *.
  split; try done; cbn; [congruence|]. apply accounted_step; [done|done|done|].
  intros given Hd Hg. apply Hlives; [done|congruence|done|by apply Hl].
Qed.

Lemma audio_request_rule c s V v post hand :
  c <> AudioShutdown -> me_audio_sender s = true ->
  (forall a answer, ain v a -> ain (post (audio_handle_command c answer a).1) (audio_handle_command c answer a).2) ->
  runs (audio_request c) (holds_at s V v hand) (fun r => holds_at s V (post r) hand).
Proof.
  intros Hc Hs He w [H1 H2 H3 H4 H5 H6]. unfold audio_request.
  destruct (audio_own_run v (w_audio w) (audio_between (w_log w)) H5) as (Hv & Hr).
  set (a := audio_run _ _) in *. rewrite Hr, <- H3, Hs.
  pose proof (He a (sender_answer (w_log w)) Hv) as Hpost.
  assert (Hrun : ac_running (audio_handle_command c (sender_answer (w_log w)) a).2 = ac_running a).
  { destruct c as [h p|h t|h|h|]; cbn [audio_handle_command]; try done.
    - unfold audio_configure_active. case_bool_decide; [done|]. by destruct (not_newer _ _).
    - unfold audio_transition_active. destruct (audio_matching_active a h); [done|].
      destruct (audio_transition_states t). by case_bool_decide.
    - unfold audio_stop_active. destruct (ac_active a) as [x|]; [|by case_bool_decide].
      destruct (negb _); [done|]. by destruct (aa_sender x), (sender_answer (w_log w)). }
  destruct (audio_handle_command c _ a) as [reply a'] eqn:E. cbn [fst snd] in *.
  split; try done; cbn; [congruence|]. by apply accounted_log.
Qed.

(** The states that remain when a transition was refused. *)
Definition vwithout (required : VideoSenderState) (states : list VideoSenderState) : list VideoSenderState :=
  List.filter (fun y => negb (bool_decide (y = required))) states.
Definition awithout (required : AudioSenderState) (states : list AudioSenderState) : list AudioSenderState :=
  List.filter (fun y => negb (bool_decide (y = required))) states.

Lemma video_transition_rule s g t states A hand :
  me_sender s = true ->
  runs (video_unit (CmdTransition g t)) (holds_at s (VGen g states) A hand)
    (fun r => holds_at s (match r with
                          | inr _ => VGen g [(transition_states t).2]
                          | inl _ => VGen g (vwithout (transition_states t).1 states)
                          end) A hand).
Proof.
  intros Hs. unfold video_unit. eapply runs_bind.
  - apply (video_request_rule _ _ _ (fun r => match r with
      | Some (ReplyUnit (inr _)) => VGen g [(transition_states t).2]
      | _ => VGen g (vwithout (transition_states t).1 states) end)); [done|done|].
    intros a answer (x & Hx & Hg & Hst). cbn [handle_command]. unfold transition_active, matching_active.
    rewrite Hx, Hg, Z.eqb_refl. cbn [negb]. destruct (transition_states t) as [required desired].
    case_bool_decide as Hreq; cbn.
    + eexists. split_and!; [done|done|]. right. apply list_elem_of_singleton. done.
    + exists x. split_and!; [done|done|]. destruct Hst as [?|Hin]; [by left|right].
      apply list_elem_of_In, filter_In. split; [by apply list_elem_of_In|]. by rewrite bool_decide_eq_false_2.
  - intros r. apply runs_ret. intros w Hw. by destruct r as [[[]|]|].
Qed.

Lemma audio_transition_rule s g t V states hand :
  me_audio_sender s = true ->
  runs (audio_unit (AudioTransition g t)) (holds_at s V (AGen g states) hand)
    (fun r => holds_at s V (match r with
                            | inr _ => AGen g [(audio_transition_states t).2]
                            | inl _ => AGen g (awithout (audio_transition_states t).1 states)
                            end) hand).
Proof.
  intros Hs. unfold audio_unit. eapply runs_bind.
  - apply (audio_request_rule _ _ _ _ (fun r => match r with
      | Some (AudioReplyUnit (inr _)) => AGen g [(audio_transition_states t).2]
      | _ => AGen g (awithout (audio_transition_states t).1 states) end)); [done|done|].
    intros a answer (x & Hx & Hg & Hst). cbn [audio_handle_command].
    unfold audio_transition_active, audio_matching_active.
    rewrite Hx, Hg, Z.eqb_refl. cbn [negb]. destruct (audio_transition_states t) as [required desired].
    case_bool_decide as Hreq; cbn.
    + eexists. split_and!; [done|done|]. right. apply list_elem_of_singleton. done.
    + exists x. split_and!; [done|done|]. destruct Hst as [?|Hin]; [by left|right].
      apply list_elem_of_In, filter_In. split; [by apply list_elem_of_In|]. by rewrite bool_decide_eq_false_2.
  - intros r. apply runs_ret. intros w Hw. by destruct r as [[[]|]|].
Qed.

Lemma video_keeps_rule c s v A hand :
  (exists h, c = CmdStatistics h) \/ (exists h d, c = CmdSetTargetPlayoutDelay h d) -> me_sender s = true ->
  runs (video_request c) (holds_at s v A hand) (fun _ => holds_at s v A hand).
Proof.
  intros Hc Hs. apply (video_request_rule c s v (fun _ => v)); [|done|].
  - by destruct Hc as [[h ->]|(h & d & ->)].
  - intros a answer Hv. destruct Hc as [[h ->]|(h & d & ->)]; [done|]. cbn [handle_command].
    unfold set_target_playout_delay. destruct (matching_active a h) as [|x]; [done|].
    destruct (as_sender x); [|done]. cbn. by destruct v.
Qed.

Lemma video_statistics_rule g s v A hand :
  me_sender s = true -> runs (video_statistics g) (holds_at s v A hand) (fun _ => holds_at s v A hand).
Proof.
  intros Hs. eapply runs_bind; [apply video_keeps_rule; [left; by eexists|done]|]. intros r. by apply runs_ret.
Qed.

Lemma video_delay_rule g d s v A hand :
  me_sender s = true ->
  runs (video_unit (CmdSetTargetPlayoutDelay g d)) (holds_at s v A hand) (fun _ => holds_at s v A hand).
Proof.
  intros Hs. eapply runs_bind; [apply video_keeps_rule; [right; by do 2 eexists|done]|]. intros r. by apply runs_ret.
Qed.

Lemma audio_statistics_rule g s V v hand :
  me_audio_sender s = true -> runs (audio_statistics g) (holds_at s V v hand) (fun _ => holds_at s V v hand).
Proof.
  intros Hs. eapply runs_bind; [apply (audio_request_rule _ s V v (fun _ => v)); [done|done|by intros]|].
  intros r. by apply runs_ret.
Qed.

Lemma video_stop_rule g s states A hand :
  me_sender s = true ->
  runs (video_stop g) (holds_at s (VGen g states) A hand) (fun _ => holds_at s VIdle A hand).
Proof.
  intros Hs. eapply runs_bind; [apply (video_request_rule _ s _ (fun _ => VIdle)); [done|done|]|].
  - intros a answer (x & Hx & Hg & _). cbn [handle_command]. unfold stop_active. rewrite Hx, Hg, Z.eqb_refl.
    cbn [negb]. by destruct (as_sender x), answer.
  - intros r. by apply runs_ret.
Qed.

Lemma audio_stop_rule g s V states hand :
  me_audio_sender s = true ->
  runs (audio_stop g) (holds_at s V (AGen g states) hand) (fun _ => holds_at s V AIdle hand).
Proof.
  intros Hs. eapply runs_bind; [apply (audio_request_rule _ s V _ (fun _ => AIdle)); [done|done|]|].
  - intros a answer (x & Hx & Hg & _). cbn [audio_handle_command]. unfold audio_stop_active.
    rewrite Hx, Hg, Z.eqb_refl. cbn [negb]. by destruct (aa_sender x), answer.
  - intros r. by apply runs_ret.
Qed.

Lemma audio_configure_rule g p s V hand :
  me_audio_sender s = true ->
  runs (audio_unit (AudioConfigure g p)) (holds_at s V AIdle hand)
    (fun r => holds_at s V (match r with inr _ => AGen g [AudioConfigured] | inl _ => AIdle end) hand).
Proof.
  intros Hs. eapply runs_bind; [apply (audio_request_rule _ s V _ (fun r => match r with
    | Some (AudioReplyUnit (inr _)) => AGen g [AudioConfigured] | _ => AIdle end)); [done|done|]|].
  - intros a answer Ha. cbn in Ha. cbn [audio_handle_command]. unfold audio_configure_active. rewrite Ha.
    rewrite bool_decide_eq_false_2 by (by intros []). destruct (not_newer _ _); [done|]. cbn.
    eexists. split_and!; [done|done|]. right. by apply list_elem_of_singleton.
  - intros r. apply runs_ret. intros w Hw. by destruct r as [[[]|]|].
Qed.

(** The transport in hand goes to the actor, which either holds it or shuts it. *)
Lemma video_configure_rule g t s A :
  me_sender s = true -> nt_audio_sender t = None ->
  runs (video_unit (CmdConfigure g t)) (holds_at s VIdle A [nt_sender t])
    (fun r => holds_at s (match r with inr _ => VGen g [SenderConfigured] | inl _ => VIdle end) A []).
Proof.
  intros Hs Ht w [H1 H2 H3 H4 H5 H6]. unfold video_unit, abind, video_request.
  destruct (video_own_run VIdle (w_video w) (video_between (w_log w)) H4) as (Hv & Hr & Hl).
  set (a := video_run _ _) in *. rewrite Hr, <- H2, Hs. assert (Hra : va_running a = true) by congruence.
  assert (Hlives : forall given, nt_sender t ∉ given -> NoDup given -> lives given a ->
    lives (given ++ [nt_sender t]) (configure_active g t a).2)
    by (intros given Hn Hd Hg; by apply lives_configure).
  assert (Hpost : va_running (configure_active g t a).2 = true /\
    vin (match (configure_active g t a).1 with inr _ => VGen g [SenderConfigured] | inl _ => VIdle end)
      (configure_active g t a).2).
  { unfold configure_active. rewrite Ht. cbn in Hv. rewrite Hv, bool_decide_eq_false_2 by (by intros []).
    destruct (not_newer _ _); [done|]. split; [done|]. eexists. split_and!; [done|done|].
    right. by apply list_elem_of_singleton. }
  cbn [handle_command]. destruct (configure_active g t a) as [r a']. cbn in *. destruct Hpost as [Hrun Hin].
  split; try done; cbn; [congruence|]. unfold accounted in *. cbn [called set_video w_log w_video].
  unfold negotiated, session_shut in *. rewrite !omap_app. cbn [omap list_omap]. rewrite !app_nil_r. intros Hd.
  destruct (H6 Hd) as (given & Hg & Hp). exists (given ++ [nt_sender t]). pose proof Hd as Hd'. rewrite Hp in Hd'.
  apply NoDup_cons in Hd' as [Hn [Hd' _]%NoDup_app]. split.
  - apply Hlives; [set_solver|done|by apply Hl].
  - rewrite Hp. cbn [app]. rewrite <- app_assoc. cbn. apply Permutation_middle.
Qed.

Lemma wait_for_keeps v counter m1 m2 g p batches ending a :
  vin v a ->
  let a' := (wait_for counter m1 m2 g p (List.filter video_own <$> batches) ending a).2 in
  vin v a' /\ va_running a' = va_running a /\ forall given, NoDup given -> lives given a -> lives given a'.
Proof.
  revert a. induction batches as [|es batches IH]; intros a Hv; cbn.
  - repeat (case_bool_decide || destruct (_ <? _)); done.
  - case_bool_decide; [|done]. case_bool_decide; [done|]. cbn. destruct (_ <? _); [done|].
    destruct (video_own_run v a es Hv) as (Hv' & Hr & Hl). destruct (IH _ Hv') as (? & Hr' & Hl').
    split_and!; [done|by rewrite <- Hr|]. intros given Hd Hg. by apply Hl', Hl.
Qed.

Lemma video_wait_rule counter m1 m2 g p s v A hand :
  runs (video_wait (wait_for counter m1 m2 g p)) (holds_at s v A hand) (fun _ => holds_at s v A hand).
Proof.
  intros w [H1 H2 H3 H4 H5 H6]. unfold video_wait. destruct (video_waits (w_log w)) as [batches ending].
  destruct (wait_for_keeps v counter m1 m2 g p batches ending (w_video w) H4) as (Hv & Hr & Hl).
  destruct (wait_for _ _ _ _ _ _ _ _) as [r a]. cbn in *.
  split; try done; cbn; [congruence|]. by apply accounted_step.
Qed.

Lemma audio_wait_rule g p s V v hand :
  runs (audio_wait (wait_for_packet_after g p)) (holds_at s V v hand) (fun _ => holds_at s V v hand).
Proof.
  intros w [H1 H2 H3 H4 H5 H6]. unfold audio_wait. destruct (audio_waits (w_log w)) as [batches ending].
  assert (Hkeep : forall a, ain v a ->
    ain v (wait_for_packet_after g p (List.filter audio_own <$> batches) ending a).2 /\
    ac_running (wait_for_packet_after g p (List.filter audio_own <$> batches) ending a).2 = ac_running a).
  { induction batches as [|es batches IH]; intros a Hv; cbn; repeat (case_bool_decide || destruct (_ <? _)); try done.
    cbn. destruct (audio_own_run v a es Hv) as (Hv' & Hr). rewrite <- Hr. by apply IH. }
  destruct (Hkeep (w_audio w) H5) as [Hv Hr]. destruct (wait_for_packet_after _ _ _ _ _) as [r a]. cbn in *.
  split; try done; cbn; [congruence|]. by apply accounted_log.
Qed.

(** *** Composition *)

Lemma runs_session {A} s v a hand (k : media_session -> actor media_world A) Q :
  runs (k s) (holds_at s v a hand) Q -> runs (abind session k) (holds_at s v a hand) Q.
Proof. intros H w Hw. unfold abind, session. rewrite (at_session _ _ _ _ _ Hw). by apply H. Qed.

Lemma runs_update {A} f s v a hand (k : unit -> actor media_world A) Q :
  me_sender (f s) = me_sender s -> me_audio_sender (f s) = me_audio_sender s ->
  runs (k tt) (holds_at (f s) v a hand) Q -> runs (abind (update f) k) (holds_at s v a hand) Q.
Proof.
  intros H1 H2 H w [Hs Hv Ha ? ? ?]. unfold abind, update. apply H. split; try done; cbn; [by rewrite Hs|congruence..].
Qed.

Lemma runs_ask {A B} c (answer : media_log -> A) s v a hand (k : A -> actor media_world B) Q :
  negotiated [c] = [] -> session_shut [c] = [] -> (forall r, runs (k r) (holds_at s v a hand) Q) ->
  runs (abind (ask c answer) k) (holds_at s v a hand) Q.
Proof.
  intros Hn Hc H w [? ? ? ? ? Hp]. unfold abind, ask. apply H. split; try done.
  exact (accounted_log hand w (w_audio w) c Hp Hn Hc).
Qed.

(** The session shuts the transport in hand itself. *)
Lemma runs_shut {A} sender s v a (k : unit -> actor media_world A) Q :
  runs (k tt) (holds_at s v a []) Q ->
  runs (abind (ask (ShutVideoPort sender) (fun _ => tt)) k) (holds_at s v a [sender]) Q.
Proof.
  intros H w [? ? ? ? ? Hp]. unfold abind, ask. apply H. split; try done. unfold accounted in *. cbn.
  unfold negotiated, session_shut in *. rewrite !omap_app. cbn. rewrite app_nil_r. intros Hd.
  destruct (Hp Hd) as (given & Hg & Hperm). exists given. split; [done|]. rewrite Hperm. cbn.
  rewrite app_assoc. apply Permutation_cons_append.
Qed.

Lemma runs_mbind {A B} (m : med A) (k : A -> med B) P0 (R : refused A -> media_world -> Prop) Q :
  runs m P0 R -> (forall x, runs (k x) (R (Ok x)) Q) -> (forall e w, R (Err e) w -> Q (Err e) w) ->
  (forall w, R Panic w -> Q Panic w) -> runs (mbind m k) P0 Q.
Proof.
  intros Hm Hk He Hp. eapply runs_bind; [exact Hm|]. intros [x|e|]; [apply Hk|by apply runs_ret; intros; apply He|
    by apply runs_ret; intros; apply Hp].
Qed.

(** A step that keeps what holds, and whose errors end the operation. *)
Lemma runs_try {A B} (m : med A) (k : A -> med B) H0 (Q : refused B -> media_world -> Prop) :
  runs m H0 (fun r w => r <> Panic /\ H0 w) -> (forall x, runs (k x) H0 Q) -> (forall e w, H0 w -> Q (Err e) w) ->
  runs (mbind m k) H0 Q.
Proof.
  intros Hm Hk He. eapply runs_mbind; [exact Hm| | |].
  - intros x. eapply runs_pre; [apply Hk|]. by intros w [_ ?].
  - intros e w [_ ?]. by apply He.
  - by intros w [? _].
Qed.

Lemma runs_lift {A B} (o : refused A) (k : A -> med B) (H0 : media_world -> Prop) (Q : refused B -> media_world -> Prop) :
  (forall x, o = Ok x -> runs (k x) H0 Q) -> (forall e w, H0 w -> Q (Err e) w) ->
  (o = Panic -> forall w, H0 w -> Q Panic w) -> runs (mbind (lift o) k) H0 Q.
Proof.
  intros Hk He Hp. unfold mbind, lift. destruct o as [x|e|]; [by apply Hk| |].
  - intros w Hw. by apply He.
  - intros w Hw. by apply Hp.
Qed.

Lemma runs_require {B} c e (k : unit -> med B) (H0 : media_world -> Prop) Q :
  (c = true -> runs (k tt) H0 Q) -> (forall w, H0 w -> Q (Err e) w) -> runs (mbind (require c e) k) H0 Q.
Proof. intros Hk He. unfold require. destruct c; [by apply Hk|]. intros w Hw. by apply He. Qed.

Lemma from_transport_safe {A} (r : result A) : from_transport r <> Panic.
Proof. by destruct r. Qed.
Lemma from_graph_safe {A} (r : result A) : from_graph r <> Panic.
Proof. by destruct r. Qed.

Lemma graph_call_rule c s v a hand :
  negotiated [c] = [] -> session_shut [c] = [] ->
  runs (graph_call c) (holds_at s v a hand) (fun r w => r <> Panic /\ holds_at s v a hand w).
Proof.
  intros. apply runs_ask; [done..|]. intros r. apply runs_ret. intros w Hw. split; [by apply from_graph_safe|done].
Qed.

Lemma with_sender_rule {A} (m : actor media_world (result A)) s v a hand R :
  me_sender s = true -> runs m (holds_at s v a hand) R ->
  runs (with_sender m) (holds_at s v a hand) (fun r w => exists r', r = from_transport r' /\ R r' w).
Proof.
  intros Hs Hm. apply runs_session. rewrite Hs. eapply runs_bind; [exact Hm|]. intros r. apply runs_ret.
  intros w Hw. by exists r.
Qed.
Lemma with_audio_sender_rule {A} (m : actor media_world (result A)) s v a hand R :
  me_audio_sender s = true -> runs m (holds_at s v a hand) R ->
  runs (with_audio_sender m) (holds_at s v a hand) (fun r w => exists r', r = from_transport r' /\ R r' w).
Proof.
  intros Hs Hm. apply runs_session. rewrite Hs. eapply runs_bind; [exact Hm|]. intros r. apply runs_ret.
  intros w Hw. by exists r.
Qed.

(** The same for a call that leaves the senders as they are. *)
Lemma with_sender_keeps {A} (m : actor media_world (result A)) s v a hand :
  me_sender s = true -> runs m (holds_at s v a hand) (fun _ => holds_at s v a hand) ->
  runs (with_sender m) (holds_at s v a hand) (fun r w => r <> Panic /\ holds_at s v a hand w).
Proof.
  intros Hs Hm. eapply runs_post; [by apply with_sender_rule|]. intros r w (r' & -> & Hw).
  split; [by apply from_transport_safe|done].
Qed.
Lemma with_audio_sender_keeps {A} (m : actor media_world (result A)) s v a hand :
  me_audio_sender s = true -> runs m (holds_at s v a hand) (fun _ => holds_at s v a hand) ->
  runs (with_audio_sender m) (holds_at s v a hand) (fun r w => r <> Panic /\ holds_at s v a hand w).
Proof.
  intros Hs Hm. eapply runs_post; [by apply with_audio_sender_rule|]. intros r w (r' & -> & Hw).
  split; [by apply from_transport_safe|done].
Qed.

(** ** The invariant *)

(** A session with an admitted generation. *)
Record admits (g : Z) (s : media_session) : Prop := {
  ad_active : me_active s = Some g;
  ad_handles : me_sender s = true /\ me_audio_sender s = true;
  ad_newer : not_newer (me_completed s) g = false;
  ad_ready : me_ready s = me_sender_received s;
  ad_sender : me_sender_received s = true ->
    me_graph_received s = true /\ me_transport_active s = true /\ me_audio_received s = me_audio_enabled s /\
    is_Some (me_controller s);
  ad_graph : me_audio_received s = true -> me_graph_received s = true /\ me_transport_active s = true;
  ad_audio : me_audio_received s = true -> me_audio_enabled s = true }.

(** Nobody has received anything. *)
Definition unreceived (s : media_session) : Prop :=
  me_active s = None /\ me_graph_received s = false /\ me_sender_received s = false /\
  me_audio_received s = false /\ me_transport_active s = false /\ me_ready s = false.

Definition video_of (g : Z) (s : media_session) (states : list VideoSenderState) : vspec :=
  if me_sender_received s then VGen g states else VIdle.
Definition audio_of (g : Z) (s : media_session) (states : list AudioSenderState) : aspec :=
  if me_audio_received s then AGen g states else AIdle.

(** How the state of the session and of its senders go together: frames flow
    only while the session is streaming. *)
Definition session_ok (s : media_session) (v : vspec) (a : aspec) : Prop :=
  match me_state s with
  | StateCreated | StatePrepared =>
      unreceived s /\ me_sender s = true /\ me_audio_sender s = true /\ v = VIdle /\ a = AIdle
  | StateConfigured => exists g, admits g s /\
      v = video_of g s [SenderConfigured; SenderSuspended] /\ a = audio_of g s [AudioConfigured; AudioSuspended]
  | StateStreaming => exists g, admits g s /\ me_sender_received s = true /\
      v = VGen g [SenderStreaming] /\ a = audio_of g s [AudioStreaming]
  | StateSuspended => exists g, admits g s /\ me_sender_received s = true /\
      v = VGen g [SenderSuspended] /\ a = audio_of g s [AudioSuspended]
  | StateStopped => unreceived s /\ me_sender s = false /\ me_audio_sender s = false /\ v = VIdle /\ a = AIdle
  | StatePreparing | StateFailed => False
  end.

Definition media_inv (w : media_world) : Prop :=
  exists v a, holds_at (w_session w) v a [] w /\ session_ok (w_session w) v a.

Lemma exit_ok s v a w : session_ok s v a -> holds_at s v a [] w -> media_inv w.
Proof. intros Hs Hw. exists v, a. by rewrite (at_session _ _ _ _ _ Hw). Qed.

Lemma op_from {A} (m : actor media_world A) :
  (forall s v a, session_ok s v a -> runs m (holds_at s v a []) (fun _ => media_inv)) ->
  runs m media_inv (fun _ => media_inv).
Proof. intros H w (v & a & Hw & Hs). by apply (H _ _ _ Hs). Qed.

Lemma holds_weaken s v v' a a' hand w :
  (forall x, vin v x -> vin v' x) -> (forall x, ain a x -> ain a' x) -> holds_at s v a hand w -> holds_at s v' a' hand w.
Proof. intros Hv Ha [? ? ? ? ? ?]. split; auto. Qed.

Lemma vin_sub g l l' x : l ⊆ l' -> vin (VGen g l) x -> vin (VGen g l') x.
Proof. intros Hs (y & Hy & Hg & Hst). exists y. split_and!; [done|done|]. destruct Hst; [by left|right; by apply Hs]. Qed.
Lemma ain_sub g l l' x : l ⊆ l' -> ain (AGen g l) x -> ain (AGen g l') x.
Proof. intros Hs (y & Hy & Hg & Hst). exists y. split_and!; [done|done|]. destruct Hst; [by left|right; by apply Hs]. Qed.

Lemma prepare_keeps c s v a :
  session_ok s v a -> runs (complete_preparation c) (holds_at s v a []) (fun _ => media_inv).
Proof.
  intros Hs. apply runs_session. apply runs_require; [|by intros w; apply exit_ok].
  intros Hst%bool_decide_eq_true_1. apply runs_lift; [|by intros e w; apply exit_ok|by intros _ w; apply exit_ok].
  intros [] _. unfold session_ok in Hs. rewrite Hst in Hs. apply runs_update; [done..|].
  apply runs_ret. intros w. by apply exit_ok.
Qed.

Lemma negotiate_rule c s v a :
  runs (negotiate_video c) (holds_at s v a [])
    (fun r => holds_at s v a (match r with inr t => [nt_sender t] | inl _ => [] end)).
Proof.
  apply runs_ask; [done..|]. intros [e|t]; [by apply runs_ret|]. intros w [? ? ? ? ? Hp].
  unfold abind, ask. split; try done. unfold accounted in *. cbn. unfold negotiated, session_shut in *.
  rewrite !omap_app. cbn. rewrite app_nil_r. intros Hd. apply NoDup_app in Hd as (Hd & _ & _).
  destruct (Hp Hd) as (given & Hg & Hperm). exists given. split; [done|]. rewrite Hperm. cbn [app].
  symmetry. apply Permutation_cons_append.
Qed.

Lemma audio_sender_or_rule m undo s v a hand R Q :
  me_audio_sender s = true -> runs m (holds_at s v a hand) R ->
  (forall e, runs undo (R (inl e)) (fun _ w => Q (Err (TransportFailed e)) w)) -> (forall w, R (inr tt) w -> Q (Ok tt) w) ->
  runs (audio_sender_or m undo) (holds_at s v a hand) Q.
Proof.
  intros Hs Hm Hu Hq. apply runs_session. rewrite Hs. cbn [negb]. eapply runs_bind; [exact Hm|]. intros [e|[]].
  - eapply runs_bind; [apply Hu|]. intros u. apply runs_ret. by intros.
  - by apply runs_ret.
Qed.
Lemma sender_or_rule m undo s v a hand R Q :
  me_sender s = true -> runs m (holds_at s v a hand) R ->
  (forall e, runs undo (R (inl e)) (fun _ w => Q (Err (TransportFailed e)) w)) -> (forall w, R (inr tt) w -> Q (Ok tt) w) ->
  runs (sender_or m undo) (holds_at s v a hand) Q.
Proof.
  intros Hs Hm Hu Hq. apply runs_session. rewrite Hs. cbn [negb]. eapply runs_bind; [exact Hm|]. intros [e|[]].
  - eapply runs_bind; [apply Hu|]. intros u. apply runs_ret. by intros.
  - by apply runs_ret.
Qed.

Lemma runs_shut_done s v a sender :
  runs (ask (ShutVideoPort sender) (fun _ => tt)) (holds_at s v a [sender]) (fun _ => holds_at s v a []).
Proof.
  intros w Hw. pose proof (runs_shut sender s v a (fun _ => aret tt) (fun _ => holds_at s v a [])) as H.
  apply H; [|done]. by apply runs_ret.
Qed.

Record fresh_generation (g : Z) (s : media_session) : Prop := {
  fg_state : me_state s = StateConfigured;
  fg_active : me_active s = Some g;
  fg_handles : me_sender s = true /\ me_audio_sender s = true;
  fg_newer : not_newer (me_completed s) g = false;
  fg_ready : me_ready s = false;
  fg_sender : me_sender_received s = false }.

(** A generation that no sender of frames has received can only be stopped. *)
Lemma fresh_ok g s a :
  fresh_generation g s -> (me_audio_received s = true -> me_graph_received s = true /\ me_transport_active s = true /\
    me_audio_enabled s = true) ->
  a = audio_of g s [AudioConfigured; AudioSuspended] -> session_ok s VIdle a.
Proof.
  intros [Hst Ha Hh Hn Hr Hs] Hau ->. unfold session_ok. rewrite Hst. exists g. unfold video_of. rewrite Hs.
  split_and!; [|done|done]. split; try done; try congruence; intros H; by apply Hau in H as (? & ? & ?).
Qed.

Lemma give_video_keeps g t s a sender :
  fresh_generation g s -> me_graph_received s = true -> me_transport_active s = true ->
  me_audio_received s = me_audio_enabled s -> is_Some (me_controller s) -> nt_audio_sender t = None ->
  nt_sender t = sender ->
  a = audio_of g s [AudioConfigured] ->
  runs (mbind (with_sender (video_unit (CmdConfigure g t))) (fun _ =>
          abind (update (fun s => set_received true true (me_audio_received s) true true s)) (fun _ => aret (Ok tt))))
    (holds_at s VIdle a [sender]) (fun _ => media_inv).
Proof.
  intros Hf Hg Ht Hau Hc Hna <- ->.
  assert (Hsub : forall x, ain (audio_of g s [AudioConfigured]) x -> ain (audio_of g s [AudioConfigured; AudioSuspended]) x).
  { intros x. unfold audio_of. destruct (me_audio_received s); [|done]. apply ain_sub. set_solver. }
  assert (Herr : forall w, holds_at s VIdle (audio_of g s [AudioConfigured]) [] w -> media_inv w).
  { intros w Hw. eapply exit_ok; [|eapply holds_weaken; [by intros x Hx; exact Hx|exact Hsub|exact Hw]].
    eapply fresh_ok; [done| |done]. intros H. rewrite Hau in H. done. }
  destruct Hf as [Hst Ha [Hh1 Hh2] Hn Hr Hs].
  eapply runs_mbind; [apply with_sender_rule; [done|by apply video_configure_rule]|..].
  - intros []. apply runs_pre with (P := holds_at s (VGen g [SenderConfigured]) (audio_of g s [AudioConfigured]) []);
      [|by intros w ([e|[]] & Heq & Hw)].
    apply runs_update; [done..|]. apply runs_ret. intros w' Hw'.
    eapply exit_ok; [|eapply holds_weaken; [|exact Hsub|exact Hw']].
    + unfold session_ok. cbn. rewrite Hst. exists g. split_and!; [|done|done]. split; cbn; try done; congruence.
    + intros x. apply vin_sub. set_solver.
  - intros e w ([e'|[]] & Heq & Hw); [|done]. by apply Herr.
  - intros w (r & Heq & _). by destruct r.
Qed.

Lemma give_ports_keeps g audio t s :
  fresh_generation g s -> me_graph_received s = true -> me_transport_active s = true ->
  me_audio_received s = false -> me_audio_enabled s = audio -> is_Some (me_controller s) ->
  runs (give_ports g audio t) (holds_at s VIdle AIdle [nt_sender t]) (fun _ => media_inv).
Proof.
  intros Hf Hg Ht Hnr Hau Hc. pose proof Hf as [Hst Ha [Hh1 Hh2] Hn Hr Hs].
  assert (Hfail : forall w, holds_at s VIdle AIdle [] w -> media_inv w).
  { intros w. apply exit_ok. eapply fresh_ok; [done|congruence|]. unfold audio_of. by rewrite Hnr. }
  unfold give_ports. destruct audio, (nt_audio_sender t) as [p|] eqn:Hp.
  - eapply runs_mbind with (R := fun r w => match r with
      | Ok _ => holds_at (set_received true false true true false s) VIdle (AGen g [AudioConfigured]) [nt_sender t] w
      | Err _ => media_inv w | Panic => False end); [| |by intros|by intros].
    + eapply runs_mbind with (R := fun r w => match r with
        | Ok _ => holds_at s VIdle (AGen g [AudioConfigured]) [nt_sender t] w
        | Err _ => media_inv w | Panic => False end); [| |by intros|by intros].
      * eapply audio_sender_or_rule; [done|by apply audio_configure_rule| |by intros].
        intros e. eapply runs_post; [apply runs_shut_done|]. intros ? w. apply Hfail.
      * intros []. apply runs_update; [done..|]. by apply runs_ret.
    + intros []. apply (give_video_keeps g _ (set_received true false true true false s)); by try split.
  - eapply runs_mbind with (R := fun r w => match r with Err _ => media_inv w | _ => False end);
      [|by intros ? ? []|by intros|by intros].
    apply runs_shut. apply runs_ret. apply Hfail.
  - eapply runs_mbind with (R := fun r w => match r with Err _ => media_inv w | _ => False end);
      [|by intros ? ? []|by intros|by intros].
    apply runs_ask; [done..|]. intros _. apply runs_shut. apply runs_ret. apply Hfail.
  - eapply runs_mbind with (R := fun r w => match r with
      | Ok _ => holds_at s VIdle AIdle [nt_sender t] w | _ => False end); [by apply runs_ret| |by intros|by intros].
    intros []. apply (give_video_keeps g _ s); try done; [congruence|]. unfold audio_of. by rewrite Hnr.
Qed.

(** A validated request does not make [graph_configuration] panic. *)
Lemma safe_structure c name : safe (one_fixed_structure c name) (fun _ => True).
Proof.
  unfold one_fixed_structure. apply safe_reject_seq. intros _. eapply safe_bind; [apply safe_ok_or|]. intros s _.
  by apply safe_reject_seq.
Qed.

Lemma safe_caps text : safe (video_caps text) (fun _ => True).
Proof.
  unfold video_caps. destruct (gst_parse text) as [|c]; [done|]. apply safe_map_err. unfold validate_caps.
  eapply safe_bind; [apply safe_structure|]. intros s _. eapply safe_bind; [apply safe_ok_or|]. intros format _.
  apply safe_reject_seq. intros _. do 2 (eapply safe_bind; [apply safe_ok_or|]; intros ? _).
  do 3 (eapply safe_bind; [apply safe_ok_or|]; intros ? _). done.
Qed.

Lemma safe_audio_caps text : safe (audio_caps text) (fun c => vc_channels c = 2).
Proof.
  unfold audio_caps. destruct (gst_parse text) as [|c]; [done|]. apply safe_map_err. unfold validate_audio_caps.
  eapply safe_bind; [apply safe_structure|]. intros s _. eapply safe_bind; [apply safe_ok_or|]. intros format _.
  apply safe_reject_seq. intros _. eapply safe_bind; [apply safe_ok_or|]. intros layout _.
  apply safe_reject_seq. intros _. do 2 (eapply safe_bind; [apply safe_ok_or|]; intros ? _).
  apply safe_reject_seq. intros [_ H]%orb_false_iff. apply negb_false_iff, Z.eqb_eq in H. done.
Qed.

Lemma safe_input remote t : object_serial t <> 0 -> safe (input_of remote t) (fun _ => True).
Proof. intros H. unfold input_of. by rewrite nonzero_ne. Qed.

Lemma graph_configuration_safe s remotes targets c g :
  validate_media_configuration (length remotes) targets c g = Ok tt ->
  safe (graph_configuration s remotes targets c g) (fun r => pg_video_bitrate r.1 = video_bitrate c /\ 1 <= video_bitrate c).
Proof.
  intros (_ & Hc & Hlen & Ht & Hk)%media_configuration_accepted. destruct Hc as (_ & _ & _ & Hb).
  unfold graph_configuration. eapply safe_bind; [apply safe_ok_or|]. intros cap _.
  eapply safe_bind with (Q := fun _ => True).
  { destruct (audio_profile_id c); [|done]. unfold negotiated_audio. apply safe_reject_seq. intros _.
    eapply safe_bind; [apply safe_ok_or|]. intros p _. by apply (safe_weaken _ _ _ (safe_reject _ _)). }
  intros _ _. eapply safe_bind with (Q := fun _ => True).
  { unfold negotiated_video. apply safe_reject_seq. intros _. eapply safe_bind; [apply safe_ok_or|]. intros p _.
    by apply (safe_weaken _ _ _ (safe_reject _ _)). }
  intros _ _. destruct targets as [|t targets]; [by destruct (audio_profile_id c)|].
  destruct remotes as [|r remotes]; [done|]. cbn in Hlen. injection Hlen as Hlen.
  apply Forall_cons in Ht as [[Ht _] Hts]. cbn [head expect obind].
  apply safe_reject_seq. intros _. apply safe_reject_seq. intros _.
  eapply safe_bind; [apply safe_caps|]. intros vcaps _.
  eapply safe_bind with (Q := fun _ => True).
  { unfold caps_match_mode. apply safe_reject_seq. intros _. eapply safe_bind; [apply safe_ok_or|]. intros ? _.
    eapply safe_bind; [apply safe_ok_or|]. intros ? _. by apply (safe_weaken _ _ _ (safe_reject _ _)). }
  intros _ _. eapply safe_bind with (Q := fun _ => True).
  { destruct (audio_profile_id c); [|done]. eapply safe_bind with (Q := fun _ => True); [|done].
    destruct targets as [|t' targets]; [by injection Hk|]. destruct remotes as [|r' remotes]; [done|].
    apply Forall_cons in Hts as [[Ht' _] _]. unfold audio_input. cbn [tail head expect obind].
    apply safe_reject_seq. intros _. apply safe_reject_seq. intros _.
    eapply safe_bind; [apply safe_audio_caps|]. intros ac Hac. eapply safe_bind; [apply safe_input, Ht'|]. intros ? _.
    by rewrite Hac. }
  intros audio _. eapply safe_bind; [apply safe_ok_or|]. intros bitrate _. cbv zeta.
  eapply safe_bind; [apply safe_input, Ht|]. intros video _. rewrite nonzero_ne by lia. cbn. lia.
Qed.

Lemma configure_keeps remotes targets c g s v a :
  session_ok s v a -> runs (configure remotes targets c g) (holds_at s v a []) (fun _ => media_inv).
Proof.
  intros Hs. pose proof (exit_ok s v a) as Hexit.
  apply runs_lift; [|by intros e w; apply Hexit|by intros _ w; apply Hexit].
  intros [] Hval%omap_err_ok. apply runs_session. apply runs_require; [|by intros w; apply Hexit].
  intros Hst%bool_decide_eq_true_1. apply runs_require; [|by intros w; apply Hexit]. intros _.
  apply runs_require; [|by intros w; apply Hexit]. intros Hn%negb_true_iff.
  pose proof (graph_configuration_safe s remotes targets c g Hval) as Hsafe.
  apply runs_lift; [|by intros e w; apply Hexit|by intros _ w; apply Hexit]. intros [graph transport] E.
  rewrite E in Hsafe. cbn in Hsafe. destruct Hsafe as [Hbit Hpos]. clear E Hval Hexit.
  unfold session_ok in Hs. rewrite Hst in Hs. destruct Hs as ((Ha & _) & Hh1 & Hh2 & -> & ->).
  apply runs_update; [done..|]. set (s1 := admitted g _ _ s).
  assert (Hf : fresh_generation g s1) by by split.
  eapply runs_bind; [apply negotiate_rule|]. intros negotiation. destruct negotiation as [e|t].
  { intros w Hw. eapply exit_ok; [|exact Hw]. by eapply fresh_ok. }
  unfold mbind at 1, lift, from_transport. apply runs_update; [done..|].
  set (s2 := set_received true false false true false s1).
  assert (Hf2 : fresh_generation g s2) by by split.
  apply runs_ask; [done..|]. intros [e|[]].
  { apply runs_shut. apply runs_ret. intros w. apply exit_ok. by eapply fresh_ok. }
  assert (Hc : exists k, controller_new (pg_video_bitrate graph) (nt_minimum_bitrate t)
                           (playout_configuration t transport) = Ok k).
  { unfold controller_new. rewrite nonzero_ne by (unfold DEFAULT_BITRATE_FLOOR; lia). by eexists. }
  destruct Hc as [k ->]. unfold mbind, lift, unpanicked. apply runs_update; [done..|].
  by apply give_ports_keeps.
Qed.

(** What the feedback changes of a session does not matter to it. *)
Lemma session_ok_control b k s v a :
  session_ok s v a -> (is_Some (me_controller s) -> is_Some k) -> session_ok (set_control b k s) v a.
Proof.
  intros Hs Hk. assert (Had : forall g, admits g s -> admits g (set_control b k s)).
  { intros g [? ? ? ? Hsend ? ?]. split; try done. cbn. intros H. destruct (Hsend H) as (? & ? & ? & ?). auto. }
  unfold session_ok in *. cbn. destruct (me_state s); try done; destruct Hs as (g & Hg & ?); exists g; auto.
Qed.

Lemma session_ok_sender s v a : session_ok s v a -> me_ready s = true -> me_sender s = true.
Proof.
  unfold session_ok, unreceived. destruct (me_state s); try done.
  1,2,6: intros ((_ & _ & _ & _ & _ & ?) & _) ?; congruence.
  all: by intros (g & [] & _) _; destruct ad_handles0.
Qed.

Lemma perform_keeps g actions s v a :
  session_ok s v a -> me_sender s = true ->
  runs (perform g actions) (holds_at s v a []) (fun _ => media_inv).
Proof.
  revert s. induction actions as [|action actions IH]; intros s Hs Hsend.
  { apply runs_ret. intros w. by apply exit_ok. }
  cbn [perform]. apply runs_session.
  assert (Hrest : forall s, session_ok s v a -> me_sender s = true -> forall event : list MediaSessionEvent,
    runs (mbind (perform g actions) (fun events => aret (Ok (event ++ events)))) (holds_at s v a []) (fun _ => media_inv)).
  { intros s' Hs' Hse event. eapply runs_mbind; [by apply IH|..]; try by intros.
    intros x. by apply runs_ret. }
  destruct action as [|bitrate|delay|requested receiver].
  - eapply runs_mbind with (R := fun _ => holds_at s v a []); [| |by intros; eapply exit_ok|by intros; eapply exit_ok].
    + eapply runs_try; [by apply graph_call_rule| |by intros]. intros []. by apply runs_ret.
    + intros event. by apply Hrest.
  - eapply runs_mbind with (R := fun r w => match r with
      | Ok _ => exists b, holds_at (set_control b (me_controller s) s) v a [] w | _ => holds_at s v a [] w end);
      [| |by intros; eapply exit_ok|by intros; eapply exit_ok].
    + apply runs_ask; [done..|]. intros [e|b]; [by apply runs_ret|]. unfold mbind, lift, from_graph.
      apply runs_update; [done..|]. apply runs_ret. intros w Hw. by exists b.
    + intros event. intros w [b Hw]. eapply Hrest; [| |exact Hw]; [by apply session_ok_control|done].
  - eapply runs_mbind with (R := fun _ => holds_at s v a []); [| |by intros; eapply exit_ok|by intros; eapply exit_ok].
    + eapply runs_try; [by apply with_sender_keeps, video_delay_rule| |by intros]. intros []. by apply runs_ret.
    + intros event. by apply Hrest.
  - eapply runs_mbind with (R := fun _ => holds_at s v a []); [by apply runs_ret| |by intros; eapply exit_ok|by intros; eapply exit_ok].
    intros event. by apply Hrest.
Qed.

Lemma feedback_keeps f s v a :
  session_ok s v a -> runs (handle_feedback f) (holds_at s v a []) (fun _ => media_inv).
Proof.
  intros Hs. pose proof (exit_ok s v a) as Hexit. apply runs_session.
  destruct (sf_generation f) as [g|]; [|apply runs_ret; intros w; by apply Hexit].
  destruct (negb (bool_decide (me_active s = Some g)) || negb (me_ready s)) eqn:Hr;
    [apply runs_ret; intros w; by apply Hexit|].
  apply orb_false_iff in Hr as [_ Hr%negb_false_iff].
  destruct (sf_terminal_error f); [apply runs_ret; intros w; by apply Hexit|].
  destruct (me_controller s) as [k|]; [|apply runs_ret; intros w; by apply Hexit].
  intros w Hw. unfold abind at 1. revert w Hw. intros w0 Hw0. generalize (w_log w0). intros log. revert w0 Hw0.
  change (runs (mbind (lift (unpanicked (observe k
    {| key_frame_requests := sf_key_frame_requests f; pressure := sf_pressure f |} (instant_now log))))
    (fun observed => let '(controller, actions) := observed in
      abind (update (fun s0 => set_control (me_video_bitrate s0) (Some controller) s0)) (fun _ => perform g actions)))
    (holds_at s v a []) (fun _ => media_inv)).
  apply runs_lift; [|by intros e w; apply Hexit|by intros _ w; apply Hexit]. intros [k' actions] _.
  apply runs_update; [done..|]. apply perform_keeps; [by apply session_ok_control|].
  by apply (session_ok_sender s v a).
Qed.

Lemma require_matching_keeps {B} operation g s v a (k : unit -> med B) Q :
  (me_active s = Some g -> runs (k tt) (holds_at s v a []) Q) -> (forall e w, holds_at s v a [] w -> Q (Err e) w) ->
  runs (mbind (require_matching_generation operation g) k) (holds_at s v a []) Q.
Proof.
  intros Hk He. unfold require_matching_generation.
  eapply runs_mbind with (R := fun r w => match r with
    | Ok _ => me_active s = Some g /\ holds_at s v a [] w | Err _ => holds_at s v a [] w | Panic => False end).
  - apply runs_session. unfold require. case_bool_decide; by apply runs_ret.
  - intros []. by apply runs_fact.
  - intros e w. apply He.
  - done.
Qed.

Lemma require_generation_keeps {B} operation g required s v a (k : unit -> med B) Q :
  (me_state s = required -> me_active s = Some g -> runs (k tt) (holds_at s v a []) Q) ->
  (forall e w, holds_at s v a [] w -> Q (Err e) w) ->
  runs (mbind (require_generation operation g required) k) (holds_at s v a []) Q.
Proof.
  intros Hk He. unfold require_generation.
  eapply runs_mbind with (R := fun r w => match r with
    | Ok _ => (me_state s = required /\ me_active s = Some g) /\ holds_at s v a [] w
    | Err _ => holds_at s v a [] w | Panic => False end).
  - apply runs_session. apply runs_require; [|done]. intros Hst%bool_decide_eq_true_1.
    apply runs_require; [|done]. intros _. apply runs_session. unfold require. case_bool_decide; by apply runs_ret.
  - intros []. apply runs_fact. intros [? ?]. by apply Hk.
  - intros e w. apply He.
  - done.
Qed.

Lemma runs_ignored {A} (m : actor media_world A) H0 H1 :
  runs m H0 (fun _ => H1) -> runs (ignored m) H0 (fun _ => H1).
Proof. intros Hm. eapply runs_bind; [exact Hm|]. intros r. by apply runs_ret. Qed.

(** A sender that was streaming is suspended, or has failed. *)
Lemma video_suspend_rule g s a hand :
  me_sender s = true ->
  runs (video_unit (CmdTransition g TransitionSuspend)) (holds_at s (VGen g [SenderStreaming]) a hand)
    (fun _ => holds_at s (VGen g [SenderSuspended]) a hand).
Proof.
  intros Hs. eapply runs_post; [by apply video_transition_rule|]. intros [e|[]] w Hw; [|done].
  eapply holds_weaken; [|by intros x Hx; exact Hx|exact Hw]. intros x. apply vin_sub. intros y Hy. vm_compute in Hy. inversion Hy.
Qed.
Lemma audio_suspend_rule g s v hand :
  me_audio_sender s = true ->
  runs (audio_unit (AudioTransition g TransitionSuspend)) (holds_at s v (AGen g [AudioStreaming]) hand)
    (fun _ => holds_at s v (AGen g [AudioSuspended]) hand).
Proof.
  intros Hs. eapply runs_post; [by apply audio_transition_rule|]. intros [e|[]] w Hw; [|done].
  eapply holds_weaken; [by intros x Hx; exact Hx| |exact Hw]. intros x. apply ain_sub. intros y Hy. vm_compute in Hy. inversion Hy.
Qed.

Lemma best_effort_rule g s :
  admits g s -> me_sender_received s = true ->
  runs (suspend_senders_best_effort g) (holds_at s (VGen g [SenderStreaming]) (audio_of g s [AudioStreaming]) [])
    (fun _ => holds_at s (VGen g [SenderSuspended]) (audio_of g s [AudioSuspended]) []).
Proof.
  intros [? [Hh1 Hh2] ? ? Hse ? ?] Hr. destruct (Hse Hr) as (_ & _ & Hau & _).
  apply runs_session. rewrite Hh1, Hh2, andb_true_r. unfold audio_of. rewrite Hau. destruct (me_audio_enabled s).
  - eapply runs_bind; [by apply runs_ignored, audio_suspend_rule|]. intros ?.
    by apply runs_ignored, video_suspend_rule.
  - eapply runs_bind with (Q := fun _ => holds_at s (VGen g [SenderStreaming]) AIdle []); [by apply runs_ret|].
    intros ?. by apply runs_ignored, video_suspend_rule.
Qed.

Lemma confirmation_rule g pv pa s v a hand :
  me_sender s = true -> me_audio_sender s = true ->
  runs (wait_for_media_confirmation g pv pa) (holds_at s v a hand) (fun r w => r <> Panic /\ holds_at s v a hand w).
Proof.
  intros Hh1 Hh2. unfold wait_for_media_confirmation.
  eapply runs_try; [by apply with_sender_keeps, video_wait_rule| |by intros].
  intros []. eapply runs_try.
  { destruct pa; [by apply with_audio_sender_keeps, audio_wait_rule|by apply runs_ret]. }
  2:{ by intros. }
  intros []. eapply runs_try; [by apply with_sender_keeps, video_wait_rule| |by intros].
  intros []. destruct pa; [by apply with_sender_keeps, video_wait_rule|by apply runs_ret].
Qed.

(** A session whose senders may be where a failed start leaves them. *)
Record stands (g : Z) (s : media_session) (V : list VideoSenderState) (A : list AudioSenderState) : Prop := {
  sd_admits : admits g s;
  sd_received : me_sender_received s = true;
  sd_ok : session_ok s (VGen g V) (audio_of g s A);
  sd_video : SenderSuspended ∈ V;
  sd_audio : AudioSuspended ∈ A }.

Lemma stands_exit g s V A V' A' w :
  stands g s V A -> V' ⊆ V -> A' ⊆ A -> holds_at s (VGen g V') (audio_of g s A') [] w -> media_inv w.
Proof.
  intros Hs HV HA Hw. eapply exit_ok; [by apply (sd_ok g s V A)|]. eapply holds_weaken; [| |exact Hw].
  - intros x. by apply vin_sub.
  - intros x. unfold audio_of. destruct (me_audio_received s); [by apply ain_sub|done].
Qed.

Lemma vwithout_sub x l : vwithout x l ⊆ l.
Proof. intros y. unfold vwithout. rewrite !list_elem_of_In, filter_In. tauto. Qed.
Lemma awithout_sub x l : awithout x l ⊆ l.
Proof. intros y. unfold awithout. rewrite !list_elem_of_In, filter_In. tauto. Qed.

(** The senders run, and everything that goes wrong from here suspends them. *)
Lemma flow_running g s V A graph pv pa :
  stands g s V A -> negotiated [graph] = [] -> session_shut [graph] = [] ->
  runs (abind (graph_call graph) (fun started => match started with
    | Err e => abind (suspend_senders_best_effort g) (fun _ => aret (Err e))
    | Panic => aret Panic
    | Ok _ => abind (wait_for_media_confirmation g pv pa) (fun confirmation => match confirmation with
        | Err e => abind (ignored (graph_call (GraphSuspend g))) (fun _ =>
                     abind (suspend_senders_best_effort g) (fun _ => aret (Err e)))
        | Panic => aret Panic
        | Ok _ => abind (update (set_state StateStreaming)) (fun _ => aret (Ok tt))
        end)
    end)) (holds_at s (VGen g [SenderStreaming]) (audio_of g s [AudioStreaming]) []) (fun _ => media_inv).
Proof.
  intros Hsd Hg1 Hg2. pose proof Hsd as [Had Hr Hok HV HA]. pose proof Had as [Hact [Hh1 Hh2] ? ? ? ? ?].
  assert (Hback : forall (e : MediaSessionError), runs (abind (suspend_senders_best_effort g) (fun _ => aret (Err (A:=unit) e)))
    (holds_at s (VGen g [SenderStreaming]) (audio_of g s [AudioStreaming]) []) (fun _ => media_inv)).
  { intros e. eapply runs_bind; [by apply best_effort_rule|]. intros ?. apply runs_ret. intros w Hw.
    eapply stands_exit; [exact Hsd| | |exact Hw]; set_solver. }
  eapply runs_bind; [by apply graph_call_rule|]. intros [[]|e|].
  - apply runs_fact. intros _. eapply runs_bind; [by apply confirmation_rule|]. intros [[]|e|].
    + apply runs_fact. intros _. apply runs_update; [done..|]. apply runs_ret. intros w. apply exit_ok.
      unfold session_ok. cbn. exists g. split_and!; [|done|done|done]. by destruct Had.
    + apply runs_fact. intros _. eapply runs_bind; [apply runs_ignored; eapply runs_post; [by apply graph_call_rule|]|].
      * by intros r w [_ ?].
      * intros ?. apply Hback.
    + by apply runs_fact.
  - apply runs_fact. intros _. apply Hback.
  - by apply runs_fact.
Qed.

Lemma flow_keeps g t graph s V A :
  stands g s V A -> (transition_states t).2 = SenderStreaming -> (audio_transition_states t).2 = AudioStreaming ->
  negotiated [graph] = [] -> session_shut [graph] = [] ->
  runs (flow g t graph) (holds_at s (VGen g V) (audio_of g s A) []) (fun _ => media_inv).
Proof.
  intros Hsd Ht Hta Hg1 Hg2. pose proof Hsd as [Had Hr Hok HV HA]. pose proof Had as [Hact [Hh1 Hh2] ? ? Hse ? ?].
  destruct (Hse Hr) as (_ & _ & Hau & _). pose proof (exit_ok s (VGen g V) (audio_of g s A)) as Hexit.
  apply runs_session.
  eapply runs_try; [by apply with_sender_keeps, video_statistics_rule| |by intros e w; apply Hexit]. intros pv.
  eapply runs_try with (H0 := holds_at s (VGen g V) (audio_of g s A) []);
    [|intros pa|by intros e w; apply Hexit].
  { destruct (me_audio_enabled s); [|by apply runs_ret].
    eapply runs_try; [by apply with_audio_sender_keeps, audio_statistics_rule| |by intros]. intros x. by apply runs_ret. }
  eapply runs_mbind; [apply with_sender_rule; [done|by apply video_transition_rule]|..].
  2:{ intros e w ([e'|[]] & Heq & Hw); [|done]. eapply stands_exit; [exact Hsd|apply vwithout_sub| |exact Hw]. done. }
  2:{ by intros w ([] & Heq & _). }
  intros []. rewrite Ht. apply runs_pre with (P := holds_at s (VGen g [SenderStreaming]) (audio_of g s A) []);
    [|by intros w ([e|[]] & Heq & Hw)].
  eapply runs_mbind with (R := fun r w => match r with
    | Ok _ => holds_at s (VGen g [SenderStreaming]) (audio_of g s [AudioStreaming]) [] w
    | Err _ => media_inv w | Panic => False end); [| |by intros|by intros].
  - unfold audio_of in *. rewrite Hau in *. destruct (me_audio_enabled s) eqn:Hen; [|by apply runs_ret].
    eapply audio_sender_or_rule; [done|by apply audio_transition_rule| |by rewrite Hta].
    intros e. apply runs_ignored. eapply runs_post; [apply with_sender_rule; [done|by apply video_suspend_rule]|].
    intros r w (r' & -> & Hw). eapply (stands_exit g s V A); [exact Hsd| | |unfold audio_of; rewrite Hau; exact Hw];
      [set_solver|apply awithout_sub].
  - intros []. by eapply flow_running.
Qed.

Lemma start_keeps g s v a : session_ok s v a -> runs (start g) (holds_at s v a []) (fun _ => media_inv).
Proof.
  intros Hs. apply require_generation_keeps; [|by intros e w; apply exit_ok]. intros Hst Hact.
  apply runs_session. apply runs_require; [|by intros w; apply exit_ok]. intros Hr.
  pose proof Hs as Hok. unfold session_ok in Hs. rewrite Hst in Hs. destruct Hs as (g' & Had & -> & ->).
  pose proof Had as [Hact' ? ? Hrs ? ? ?]. assert (g' = g) as -> by congruence.
  rewrite Hrs in Hr. unfold video_of in *. rewrite Hr in *. apply flow_keeps; [|done..]. split; [done..|set_solver|set_solver].
Qed.

Lemma resume_keeps g s v a : session_ok s v a -> runs (resume g) (holds_at s v a []) (fun _ => media_inv).
Proof.
  intros Hs. apply require_generation_keeps; [|by intros e w; apply exit_ok]. intros Hst Hact.
  pose proof Hs as Hok. unfold session_ok in Hs. rewrite Hst in Hs. destruct Hs as (g' & Had & Hr & -> & ->).
  pose proof Had as [Hact' ? ? Hrs ? ? ?]. assert (g' = g) as -> by congruence.
  apply flow_keeps; [|done..]. split; [done..|set_solver|set_solver].
Qed.

Lemma suspend_keeps s v a : session_ok s v a -> runs suspend (holds_at s v a []) (fun _ => media_inv).
Proof.
  intros Hs. apply runs_session. apply runs_require; [|by intros w; apply exit_ok].
  intros Hst%bool_decide_eq_true_1. pose proof Hs as Hok. unfold session_ok in Hs. rewrite Hst in Hs.
  destruct Hs as (g & Had & Hr & -> & ->). pose proof Had as [Hact [Hh1 Hh2] ? ? Hse ? ?].
  destruct (Hse Hr) as (_ & _ & Hau & _). rewrite Hact.
  assert (Hstay : forall V' A' w, V' ⊆ [SenderStreaming] -> A' ⊆ [AudioStreaming] ->
    holds_at s (VGen g V') (audio_of g s A') [] w -> media_inv w).
  { intros V' A' w HV HA Hw. eapply exit_ok; [exact Hok|]. eapply holds_weaken; [| |exact Hw].
    - intros x. by apply vin_sub.
    - intros x. unfold audio_of. destruct (me_audio_received s); [by apply ain_sub|done]. }
  eapply runs_try; [by apply graph_call_rule| |by intros e w; apply exit_ok]. intros [].
  eapply runs_mbind with (R := fun r w => match r with
    | Ok _ => holds_at s (VGen g [SenderStreaming]) (audio_of g s [AudioSuspended]) [] w
    | Err _ => media_inv w | Panic => False end); [| |by intros|by intros].
  - unfold audio_of in *. rewrite Hau in *. destruct (me_audio_enabled s) eqn:Hen; [|by apply runs_ret].
    eapply audio_sender_or_rule; [done|by apply audio_transition_rule| |done].
    intros e. apply runs_ignored. eapply runs_post; [by apply graph_call_rule|]. intros r w [_ Hw].
    eapply Hstay; [| |exact Hw]; [done|apply awithout_sub].
  - intros []. eapply runs_mbind with (R := fun r w => match r with
      | Ok _ => holds_at s (VGen g [SenderSuspended]) (audio_of g s [AudioSuspended]) [] w
      | Err _ => media_inv w | Panic => False end); [| |by intros|by intros].
    + eapply sender_or_rule; [done|by apply video_transition_rule| |done]. intros e.
      eapply runs_bind with (Q := fun _ => holds_at s (VGen g (vwithout SenderStreaming [SenderStreaming]))
        (audio_of g s [AudioStreaming]) []).
      * unfold audio_of. rewrite Hau. destruct (me_audio_enabled s) eqn:Hen; [|by apply runs_ret].
        apply runs_ignored. eapply runs_post; [apply with_audio_sender_rule; [done|by apply audio_transition_rule]|].
        intros r w (r' & -> & Hw). destruct r' as [e'|[]]; [|done].
        eapply holds_weaken; [by intros x Hx; exact Hx| |exact Hw].
        intros x. apply ain_sub. intros y Hy. vm_compute in Hy. inversion Hy.
      * intros ?. apply runs_ignored. eapply runs_post; [by apply graph_call_rule|]. intros r w [_ Hw].
        eapply Hstay; [| |exact Hw]; [apply vwithout_sub|done].
    + intros []. apply runs_update; [done..|]. apply runs_ret. intros w. apply exit_ok.
      unfold session_ok. cbn. exists g. split_and!; [|done|done|done]. by destruct Had.
Qed.

Lemma active_spec s v a g :
  session_ok s v a -> me_active s = Some g ->
  exists V A, admits g s /\ v = video_of g s V /\ a = audio_of g s A.
Proof.
  unfold session_ok, unreceived. intros Hs Hact.
  destruct (me_state s); try (destruct Hs as [[? _] _]; congruence); try done;
    destruct Hs as (g' & Had & Hs); pose proof Had as [? ? ? ? ? ? ?]; assert (g' = g) as -> by congruence.
  - destruct Hs as [-> ->]. by do 2 eexists.
  - destruct Hs as (Hr & -> & ->). exists [SenderStreaming]. eexists. split_and!; [done| |done].
    unfold video_of. by rewrite Hr.
  - destruct Hs as (Hr & -> & ->). exists [SenderSuspended]. eexists. split_and!; [done| |done].
    unfold video_of. by rewrite Hr.
Qed.

Lemma teardown_rule {A} received (m : med A) H0 H1 :
  (received = true -> runs m H0 (fun _ => H1)) -> (received = false -> forall w, H0 w -> H1 w) ->
  runs (teardown received m) H0 (fun _ => H1).
Proof.
  intros Hm Hn. unfold teardown. destruct received; [|apply runs_ret; by apply Hn].
  eapply runs_bind; [by apply Hm|]. intros r. by apply runs_ret.
Qed.

(** Stopping an active generation ends it in every part of the session. *)
Lemma stop_rule g s v a Q :
  session_ok s v a -> me_active s = Some g ->
  (forall r w, holds_at (cleared StatePrepared (Some g) true s) VIdle AIdle [] w -> Q r w) ->
  runs (tear_down s g) (holds_at s v a []) Q.
Proof.
  intros Hs Hact HQ. destruct (active_spec s v a g Hs Hact) as (V & A & Had & -> & ->).
  pose proof Had as [_ [Hh1 Hh2] _ _ _ _ _]. unfold video_of, audio_of.
  eapply runs_bind; [apply teardown_rule with (H1 := holds_at s (video_of g s V) (audio_of g s A) [])|]; [|done|].
  { intros _. apply runs_ask; [done..|]. intros r. by apply runs_ret. }
  intros graph. eapply runs_bind; [apply teardown_rule with (H1 := holds_at s (video_of g s V) AIdle [])|].
  { intros Hr. unfold audio_of. rewrite Hr. eapply runs_post; [by apply with_audio_sender_rule, audio_stop_rule|].
    by intros r w (r' & _ & ?). }
  { intros Hr w. unfold audio_of. by rewrite Hr. }
  intros audio. eapply runs_bind; [apply teardown_rule with (H1 := holds_at s VIdle AIdle [])|].
  { intros Hr. unfold video_of. rewrite Hr. eapply runs_post; [by apply with_sender_rule, video_stop_rule|].
    by intros r w (r' & _ & ?). }
  { intros Hr w. unfold video_of. by rewrite Hr. }
  intros video. eapply runs_bind; [apply teardown_rule with (H1 := holds_at s VIdle AIdle [])|]; [|done|].
  { intros _. apply runs_ask; [done..|]. intros r. by apply runs_ret. }
  intros transport. apply runs_update; [done..|]. apply runs_ret. intros w. apply HQ.
Qed.

Lemma stop_media_keeps g s v a : session_ok s v a -> runs (stop_media g) (holds_at s v a []) (fun _ => media_inv).
Proof.
  intros Hs. pose proof (exit_ok s v a) as Hexit. apply runs_require; [|by intros w; apply Hexit]. intros _.
  apply runs_session. destruct (_ && _); [apply runs_ret; intros w; by apply Hexit|].
  apply runs_require; [|by intros w; apply Hexit]. intros _.
  apply require_matching_keeps; [|by intros e w; apply Hexit]. intros Hact.
  eapply stop_rule; [exact Hs|done|]. intros r w. apply exit_ok.
  destruct (active_spec s v a g Hs Hact) as (V & A & [_ [Hh1 Hh2] _ _ _ _ _] & _ & _). by split.
Qed.

Lemma statistics_keeps s v a : session_ok s v a -> runs statistics (holds_at s v a []) (fun _ => media_inv).
Proof.
  intros Hs. pose proof (exit_ok s v a) as Hexit. apply runs_session. apply runs_require; [|by intros w; apply Hexit].
  intros _. destruct (me_active s) as [g|] eqn:Hact; [|apply runs_ret; intros w; by apply Hexit].
  destruct (active_spec s v a g Hs Hact) as (V & A & [_ [Hh1 Hh2] _ _ _ _ _] & _ & _).
  apply runs_ask; [done..|]. intros r. apply runs_lift; [|by intros e w; apply Hexit|by intros _ w; apply Hexit].
  intros graph _. eapply runs_try; [by apply with_sender_keeps, video_statistics_rule| |by intros e w; apply Hexit].
  intros sender. eapply runs_try; [| |by intros e w; apply Hexit].
  { destruct (me_audio_enabled s); [|by apply runs_ret].
    eapply runs_try; [by apply with_audio_sender_keeps, audio_statistics_rule| |by intros]. intros x. by apply runs_ret. }
  intros audio. apply runs_lift; [|by intros e w; apply Hexit|by intros _ w; apply Hexit].
  intros [] _. apply runs_ret. intros w. by apply Hexit.
Qed.

(** A sender that is shut down holds nothing and has ended. *)
Lemma video_shutdown_effect v hand w :
  vin v (w_video w) -> va_running (w_video w) = true -> accounted hand w ->
  let w' := (video_unit CmdShutdown w).2 in
  w_session w' = w_session w /\ w_audio w' = w_audio w /\ va_active (w_video w') = None /\
  va_running (w_video w') = false /\ accounted hand w'.
Proof.
  intros Hv Hr Hp. unfold video_unit, abind, video_request.
  destruct (video_own_run v (w_video w) (video_between (w_log w)) Hv) as (_ & Hr' & Hl).
  set (a := video_run _ _) in *. rewrite Hr', Hr.
  assert (Hlives : forall given, NoDup given -> lives given a ->
    lives given (handle_command CmdShutdown (sender_answer (w_log w)) a).2).
  { intros given Hd Hg. pose proof (lives_command given CmdShutdown (sender_answer (w_log w)) a Hg) as H.
    cbn [handed_by] in H. rewrite app_nil_r in H. apply H; [congruence|done]. }
  assert (Hend : va_active (handle_command CmdShutdown (sender_answer (w_log w)) a).2 = None /\
    va_running (handle_command CmdShutdown (sender_answer (w_log w)) a).2 = false).
  { cbn [handle_command]. unfold shutdown_active. by destruct (va_active a) eqn:Ha. }
  destruct (handle_command CmdShutdown _ a) as [reply a']. cbn in *. destruct Hend as [He1 He2].
  split_and!; [done..|]. apply accounted_step; [done|done|done|]. intros given Hd Hg. by apply Hlives, Hl.
Qed.

Lemma audio_shutdown_effect v hand w :
  ain v (w_audio w) -> ac_running (w_audio w) = true -> accounted hand w ->
  let w' := (audio_unit AudioShutdown w).2 in
  w_session w' = w_session w /\ w_video w' = w_video w /\ ac_active (w_audio w') = None /\
  ac_running (w_audio w') = false /\ accounted hand w'.
Proof.
  intros Hv Hr Hp. unfold audio_unit, abind, audio_request.
  destruct (audio_own_run v (w_audio w) (audio_between (w_log w)) Hv) as (_ & Hr').
  set (a := audio_run _ _) in *. rewrite Hr', Hr.
  assert (Hend : ac_active (audio_handle_command AudioShutdown (sender_answer (w_log w)) a).2 = None /\
    ac_running (audio_handle_command AudioShutdown (sender_answer (w_log w)) a).2 = false).
  { cbn [audio_handle_command]. unfold audio_shutdown_active. by destruct (ac_active a) eqn:Ha. }
  destruct (audio_handle_command AudioShutdown _ a) as [reply a']. cbn in *. destruct Hend as [He1 He2].
  split_and!; [done..|]. by apply accounted_log.
Qed.

(** What is left when the session has been shut down. *)
Record all_down (s : media_session) (w : media_world) : Prop := {
  dn_session : w_session w = s;
  dn_video : va_active (w_video w) = None /\ va_running (w_video w) = false;
  dn_audio : ac_active (w_audio w) = None /\ ac_running (w_audio w) = false;
  dn_ports : accounted [] w }.

Lemma handles_agree s v a : session_ok s v a -> me_audio_sender s = me_sender s /\ (me_sender s = false -> v = VIdle /\ a = AIdle).
Proof.
  unfold session_ok. destruct (me_state s); try done.
  1,2,6: intros (_ & -> & -> & ?); done.
  all: intros (g & [_ [-> ->] _ _ _ _ _] & _); done.
Qed.

Lemma shutdown_rule s v a :
  session_ok s v a -> runs shutdown (holds_at s v a []) (fun _ => all_down (cleared StateStopped (me_completed s) false s)).
Proof.
  intros Hs. destruct (handles_agree s v a Hs) as [Hsame Hoff]. apply runs_session.
  eapply runs_bind; [by apply graph_call_rule|]. intros graph. apply runs_fact. intros _.
  rewrite Hsame. destruct (me_sender s) eqn:Hm.
  - eapply runs_bind with (Q := fun _ w => w_session w = s /\ vin v (w_video w) /\ va_running (w_video w) = true /\
      ac_active (w_audio w) = None /\ ac_running (w_audio w) = false /\ accounted [] w).
    { intros w [H1 H2 H3 H4 H5 H6]. unfold abind.
      destruct (audio_shutdown_effect a [] w H5) as (E1 & E2 & E3 & E4 & E5); [congruence|done|].
      destruct (audio_unit AudioShutdown w) as [r w']. cbn in *. by rewrite E1, E2, H1, <- H2. }
    intros audio. eapply runs_bind with (Q := fun _ => all_down s).
    { intros w (H1 & H2 & H3 & H4 & H5 & H6). unfold abind.
      destruct (video_shutdown_effect v [] w H2 H3 H6) as (E1 & E2 & E3 & E4 & E5).
      destruct (video_unit CmdShutdown w) as [r w']. cbn in *. split; [congruence|done| |done]. by rewrite E2. }
    intros video w [H1 H2 H3 H4]. by split; [cbn; rewrite H1|..].
  - destruct (Hoff eq_refl) as [-> ->].
    intros w [H1 H2 H3 H4 H5 H6]. split; cbn; [by rewrite H1|split; [done|congruence]..|done].
Qed.

Lemma shutdown_keeps s v a : session_ok s v a -> runs shutdown (holds_at s v a []) (fun _ => media_inv).
Proof.
  intros Hs. eapply runs_post; [by apply shutdown_rule|]. intros r w [H1 [H2 H3] [H4 H5] H6].
  exists VIdle, AIdle. rewrite H1. split; [by split|]. by split.
Qed.

Lemma perform_op_keeps op : runs (perform_op op) media_inv (fun _ => media_inv).
Proof.
  apply op_from. intros s v a Hs. destruct op; cbn [perform_op].
  - by apply prepare_keeps.
  - by apply configure_keeps.
  - eapply runs_bind; [by apply feedback_keeps|]. intros r. by apply runs_ret.
  - by apply start_keeps.
  - by apply suspend_keeps.
  - by apply resume_keeps.
  - by apply stop_media_keeps.
  - eapply runs_bind; [by apply statistics_keeps|]. intros r. by apply runs_ret.
  - by apply shutdown_keeps.
Qed.

Lemma media_start_inv id g video audio : media_inv (media_start id g video audio).
Proof.
  exists VIdle, AIdle. split; [split; try done|by split].
  intros _. exists []. split; [apply owned_start|done].
Qed.

Lemma media_run_inv w ops : media_inv w -> media_inv (media_run w ops).
Proof.
  revert w. induction ops as [|op ops IH]; intros w Hw; [done|]. cbn. apply IH. by apply (perform_op_keeps op).
Qed.

(** ** Theorems *)





(** C12: No transport that was negotiated with a receiver is lost: in every run of
    a session, each of them is held by the video sender, or has been shut down
    by it, or has been shut down by the session itself, and no two of these, as
    long as no port is negotiated twice. *)
Theorem negotiated_transports_accounted id g video audio ops port :
  let w := media_run (media_start id g video audio) ops in
  NoDup (negotiated (w_log w)) -> port ∈ negotiated (w_log w) ->
  (life_of port (ports (w_video w)) = Held /\ held (w_video w) = Some port /\ port ∉ session_shut (w_log w)) \/
  (life_of port (ports (w_video w)) = Gone /\ port ∉ session_shut (w_log w)) \/
  (life_of port (ports (w_video w)) = Fresh /\ port ∈ session_shut (w_log w)).
Proof.
  intros w Hd Hp. destruct (media_run_inv _ ops (media_start_inv id g video audio)) as (v & a & [_ _ _ _ _ Hacc] & _).
  fold w in Hacc. destruct (Hacc Hd) as (given & [Hl Hg _] & Hperm). specialize (Hl port). unfold life_by in Hl.
  cbn [app] in Hperm. rewrite Hperm in Hd, Hp. apply NoDup_app in Hd as (_ & Hdis & _).
  apply elem_of_app in Hp as [Hin|Hin].
  - assert (Hns : port ∉ session_shut (w_log w)) by by apply Hdis.
    case_decide as Hh; [by left|]. right; left. by rewrite decide_True in Hl.
  - assert (Hng : port ∉ given) by (intros H; by apply (Hdis port)). right; right.
    rewrite decide_False in Hl by (intros H; by apply Hng, Hg). by rewrite decide_False in Hl.
Qed.

(** What stopping asks of the parts that have received the generation. *)
Definition stop_calls (s : media_session) (g : Z) : media_log :=
  (if me_graph_received s then [GraphStop g] else []) ++
  (if me_audio_received s then [ToAudio (AudioStop g)] else []) ++
  (if me_sender_received s then [ToVideo (CmdStop g)] else []) ++
  (if me_transport_active s then [StopVideo] else []).

Definition at_log (s : media_session) (l : media_log) (w : media_world) : Prop := w_session w = s /\ w_log w = l.

Lemma teardown_log {A} (received : bool) (m : med A) c s l :
  runs m (at_log s l) (fun _ => at_log s (l ++ [c])) ->
  runs (teardown received m) (at_log s l) (fun _ => at_log s (l ++ if received then [c] else [])).
Proof. intros Hm. apply teardown_rule; intros ->; [done|]. intros w. by rewrite app_nil_r. Qed.

Lemma stop_log g s l :
  me_sender s = true -> me_audio_sender s = true ->
  runs (with_sender (video_stop g)) (at_log s l) (fun _ => at_log s (l ++ [ToVideo (CmdStop g)])) /\
  runs (with_audio_sender (audio_stop g)) (at_log s l) (fun _ => at_log s (l ++ [ToAudio (AudioStop g)])).
Proof.
  intros H1 H2. split; intros w [Hs <-]; unfold with_sender, with_audio_sender, abind, session; rewrite Hs, ?H1, ?H2.
  - unfold video_stop, abind, video_request. destruct (va_running _); [|done]. by destruct (handle_command _ _ _).
  - unfold audio_stop, abind, audio_request. destruct (ac_running _); [|done]. by destruct (audio_handle_command _ _ _).
Qed.

Lemma stop_calls_log g w s v a :
  session_ok s v a -> holds_at s v a [] w -> me_active s = Some g -> g <> 0 ->
  w_log (stop_media g w).2 = w_log w ++ stop_calls s g /\
  holds_at (cleared StatePrepared (Some g) true s) VIdle AIdle [] (stop_media g w).2.
Proof.
  intros Hs Hw Hact Hg. pose proof (active_spec s v a g Hs Hact) as (V & A & [_ [Hh1 Hh2] _ _ _ _ _] & _ & _).
  pose proof (stop_rule g s v a (fun _ => holds_at (cleared StatePrepared (Some g) true s) VIdle AIdle []) Hs Hact) as Hrule.
  assert (Hst : (me_state s = StateConfigured \/ me_state s = StateStreaming \/ me_state s = StateSuspended)).
  { unfold session_ok, unreceived in Hs. destruct (me_state s); try tauto; destruct Hs as [[? _] _]; congruence. }
  assert (Hreq : stop_media g w = tear_down s g w).
  { unfold stop_media, mbind at 1, abind at 1, require at 1, aret at 1.
    replace (g =? 0) with false by (symmetry; by apply Z.eqb_neq). cbn [negb].
    unfold abind at 1, session. rewrite (at_session _ _ _ _ _ Hw).
    rewrite (bool_decide_eq_false_2 (me_state s = StatePrepared)) by (intros E; rewrite E in Hst; naive_solver).
    cbn [andb]. unfold mbind at 1, abind at 1, require at 1, aret at 1.
    replace (_ || _ || _) with true by (destruct Hst as [-> |[-> | ->]]; done).
    unfold mbind at 1, abind at 1, require_matching_generation, abind at 1, session.
    rewrite (at_session _ _ _ _ _ Hw), Hact. by rewrite bool_decide_eq_true_2. }
  rewrite Hreq. split; [|by apply Hrule]. clear Hreq Hrule Hst.
  destruct (stop_log g s (w_log w ++ if me_graph_received s then [GraphStop g] else []) Hh1 Hh2) as [_ Ha].
  destruct (stop_log g s ((w_log w ++ if me_graph_received s then [GraphStop g] else [])
    ++ if me_audio_received s then [ToAudio (AudioStop g)] else []) Hh1 Hh2) as [Hv _].
  cut (runs (tear_down s g) (at_log s (w_log w)) (fun _ w' => w_log w' = w_log w ++ stop_calls s g)).
  { intros H. apply H. by split; [apply (at_session _ _ _ _ _ Hw)|]. }
  eapply runs_bind; [apply (teardown_log _ _ (GraphStop g)); intros w' [? <-]; by split|]. intros graph.
  eapply runs_bind; [by apply teardown_log|]. intros audio. eapply runs_bind; [by apply teardown_log|]. intros video.
  eapply runs_bind; [apply (teardown_log _ _ StopVideo); intros w' [? <-]; by split|]. intros transport w' [_ E].
  cbn. rewrite E. unfold stop_calls. by rewrite <- !app_assoc.
Qed.

(** The active generation of a Cast media session can always be stopped.
    After any run, whatever the parts answer, stopping it tells exactly the
    parts that have received the generation, once each, and leaves the session
    prepared for the next one with no port held; and stopping it again succeeds
    without asking anybody. *)
Theorem stop_media_releases id sg video audio ops g :
  let w := media_run (media_start id sg video audio) ops in
  me_active (w_session w) = Some g -> g <> 0 ->
  let w' := (stop_media g w).2 in
  w_log w' = w_log w ++ stop_calls (w_session w) g /\
  w_session w' = cleared StatePrepared (Some g) true (w_session w) /\
  held (w_video w') = None /\ audio_held (w_audio w') = None /\
  stop_media g w' = (Ok tt, w').
Proof.
  intros w Hact Hg w'. destruct (media_run_inv _ ops (media_start_inv id sg video audio)) as (v & a & Hw & Hs).
  fold w in Hw, Hs. destruct (stop_calls_log g w _ v a Hs Hw Hact Hg) as [Hlog [Hsess _ _ Hv Ha _]].
  fold w' in Hlog, Hsess, Hv, Ha. cbn in Hv, Ha. split_and!; [done|done|unfold held; by rewrite Hv|unfold audio_held; by rewrite Ha|].
  unfold stop_media, mbind at 1, abind at 1, require at 1, aret at 1.
  replace (g =? 0) with false by (symmetry; by apply Z.eqb_neq). cbn [negb]. unfold abind, session. rewrite Hsess.
  rewrite (bool_decide_eq_true_2 (_ = StatePrepared)), (bool_decide_eq_true_2 (_ = Some g)) by done. done.
Qed.

End Runs.

(** ** An instance

    A receiver that takes everything.  While the session waits the graph encodes
    a key frame, the transport takes it and the receiver acknowledges it. *)

Definition ex_caps : gst_caps :=
  {| caps_size := 1; caps_fixed := true;
     caps_structure := Some
       {| st_name := codes "video/x-raw";
          st_string := fun f => if String.eqb f "format" then Some (codes "BGRx") else None;
          st_int := fun f => if String.eqb f "width" then Some 1920 else if String.eqb f "height" then Some 1080 else None;
          st_fraction := fun f => if String.eqb f "framerate" then Some (60, 1) else None |} |}.

Definition ex_acknowledged : VideoTransportFeedbackSnapshot :=
  {| tf_revision := 1; tf_key_frame_requests := 0; tf_acknowledged_frames := 1; tf_acknowledged_audio_packets := 0;
     tf_pressure := None; tf_terminal_error := None |}.

Definition ex_media_ports : MediaPorts :=
  {| graph_port := fun _ => inr tt; graph_bitrate := fun _ => inr 1000000;
     graph_statistics := fun _ => inr {| gs_dropped_frames := 0 |};
     negotiate_port := fun log => inr {| nt_video_codec := H264; nt_sender := Z.of_nat (length log);
                                         nt_audio_sender := None; nt_minimum_bitrate := None |};
     stop_video_port := fun _ => inr tt; supports_target_playout_delay_updates := fun _ => true;
     maximum_target_playout_delay := fun _ => None; sender_answer := fun _ => inr tt; video_between := fun _ => [];
     audio_between := fun _ => [];
     video_waits := fun _ =>
       ([[UnitArrives (ex_frame KeyFrame)]; [UnitReceived 5 (Sends SendAccepted)]; [FeedbackChanged ex_acknowledged]],
        WaitTimesOut);
     audio_waits := fun _ => ([], WaitTimesOut); instant_now := fun _ => 0; gst_parse := fun _ => inr ex_caps |}.

Definition ex_mode : DisplayMode :=
  {| dm_width := 1920; dm_height := 1080; dm_refresh_millihz := 60000; dm_flags := 0 |}.

Definition ex_capabilities : DeviceCapabilities :=
  {| preparation_generation := 1;
     display_identity := {| manufacturer_name := None; manufacturer_source := Absent; product_name := None;
                            product_source := Absent; pnp_id := None |};
     modes := [ex_mode];
     video_profiles := [{| vp_profile_id := codes "h264-main"; vp_codec := codes "h264"; max_width := 1920;
                           max_height := 1080; max_refresh_millihz := 60000 |}];
     audio_profiles := []; features := 0 |}.

Definition ex_target (generation : Z) : PipeWireTarget :=
  {| pt_kind := Video; node_name := codes "pronk.video"; object_serial := 9; session_id := ex_session_id;
     device_instance := codes "card1"; connector_id := 7; output_index := 0; pt_media_generation := generation;
     caps := codes "video/x-raw" |}.

Definition ex_configuration : MediaConfiguration :=
  {| video_profile_id := codes "h264-main"; audio_profile_id := None; mc_mode := ex_mode;
     video_bitrate := 4000000 |}.

Definition ex_media_start : media_world :=
  media_start ex_session_id 1 {| ch_capacity := 8; ch_queue := []; ch_closed := false |}
    {| ch_capacity := 32; ch_queue := []; ch_closed := false |}.

Definition ex_media_ops : list media_op :=
  [OpPrepare ex_capabilities; OpConfigure [3] [ex_target 7] ex_configuration 7; OpStart 7].

Definition ex_media : media_world := media_run (P := ex_media_ports) ex_media_start ex_media_ops.

Example ex_media_streams :
  me_state (w_session ex_media) = StateStreaming /\
  as_state <$> va_active (w_video ex_media) = Some SenderStreaming /\ held (w_video ex_media) = Some 0 /\
  negotiated (w_log ex_media) = [0].
Proof. vm_compute. done. Qed.

Lemma stop_media_releases_witness :
  me_active (w_session ex_media) = Some 7 /\
  stop_calls (w_session ex_media) 7 = [GraphStop 7; ToVideo (CmdStop 7); StopVideo] /\
  held (w_video (stop_media (P := ex_media_ports) 7 ex_media).2) = None.
Proof.
  split; [by vm_compute|]. split; [by vm_compute|].
  refine (proj1 (proj2 (proj2 (stop_media_releases (P := ex_media_ports) ex_session_id 1
    {| ch_capacity := 8; ch_queue := []; ch_closed := false |}
    {| ch_capacity := 32; ch_queue := []; ch_closed := false |} ex_media_ops 7 _ _)))).
  - by vm_compute.
  - lia.
Defined.

Lemma negotiated_transports_accounted_witness :
  let w := (stop_media (P := ex_media_ports) 7 ex_media).2 in
  negotiated (w_log w) = [0] /\ life_of 0 (ports (w_video w)) = Gone.
Proof.
  split; [by vm_compute|].
  destruct (negotiated_transports_accounted (P := ex_media_ports) ex_session_id 1
    {| ch_capacity := 8; ch_queue := []; ch_closed := false |}
    {| ch_capacity := 32; ch_queue := []; ch_closed := false |} (ex_media_ops ++ [OpStop 7]) 0) as [H|[H|H]].
  - vm_compute. repeat constructor; set_solver.
  - vm_compute. by constructor.
  - destruct H as (_ & H & _). vm_compute in H. discriminate.
  - by vm_compute.
  - destruct H as (H & _). vm_compute in H. discriminate.
Defined.

