(* ===== verification/CastMediaOutcome.v ===== *)
(** * What an operation of a Cast media session leaves

    For each operation of CastMedia: what the session is after it, whether it
    succeeded or failed, and that it is not refused as out of place in the state
    it is meant for.  CastDevice and CastLifecycle build on these. *)

From S2P Require Import Prelude Bytes Text Time Actor PortLife EncodedVideo Feedback BackendProtocol CastVideoSender CastAudioSender CastMedia CastMediaInvariant.

(** ** What an operation does to the session *)

Abbreviation in_session s := (fun w => w_session w = s).

Section Sessions.
Context `{P : MediaPorts}.

Definition untouched {A} (m : actor media_world A) : Prop := forall w, w_session (m w).2 = w_session w.

Lemma untouched_ret {A} (x : A) : untouched (aret x).
Proof. done. Qed.
Lemma untouched_bind {A B} (m : actor media_world A) (k : A -> actor media_world B) :
  untouched m -> (forall x, untouched (k x)) -> untouched (abind m k).
Proof. intros Hm Hk w. unfold abind. specialize (Hm w). destruct (m w) as [x w']. by rewrite Hk. Qed.
Lemma untouched_mbind {A B} (m : med A) (k : A -> med B) :
  untouched m -> (forall x, untouched (k x)) -> untouched (mbind m k).
Proof. intros Hm Hk. apply untouched_bind; [done|]. intros [x|e|]; [apply Hk|done|done]. Qed.
Lemma untouched_session : untouched session.
Proof. done. Qed.
Lemma untouched_ask {A} c (answer : media_log -> A) : untouched (ask c answer).
Proof. done. Qed.
Lemma untouched_video c : untouched (video_request c).
Proof. intros w. unfold video_request. destruct (va_running _); [|done]. by destruct (handle_command _ _ _). Qed.
Lemma untouched_audio c : untouched (audio_request c).
Proof. intros w. unfold audio_request. destruct (ac_running _); [|done]. by destruct (audio_handle_command _ _ _). Qed.
Lemma untouched_video_wait f : untouched (video_wait f).
Proof. intros w. unfold video_wait. destruct (video_waits _). by destruct (f _ _ _). Qed.
Lemma untouched_audio_wait f : untouched (audio_wait f).
Proof. intros w. unfold audio_wait. destruct (audio_waits _). by destruct (f _ _ _). Qed.

Create HintDb untouched.
Hint Resolve untouched_ret untouched_session untouched_ask untouched_video untouched_audio untouched_video_wait
  untouched_audio_wait : untouched.

Ltac untouched :=
  repeat first [progress eauto with untouched nocore | apply untouched_bind; [|intros ?]
    | apply untouched_mbind; [|intros ?] | case_match].

Lemma untouched_video_unit c : untouched (video_unit c).
Proof. unfold video_unit. untouched. Qed.
Lemma untouched_audio_unit c : untouched (audio_unit c).
Proof. unfold audio_unit. untouched. Qed.
Lemma untouched_video_statistics g : untouched (video_statistics g).
Proof. unfold video_statistics. untouched. Qed.
Lemma untouched_audio_statistics g : untouched (audio_statistics g).
Proof. unfold audio_statistics. untouched. Qed.
Lemma untouched_with_sender {A} (m : actor media_world (result A)) : untouched m -> untouched (with_sender m).
Proof. intros Hm. unfold with_sender. untouched. Qed.
Lemma untouched_with_audio_sender {A} (m : actor media_world (result A)) :
  untouched m -> untouched (with_audio_sender m).
Proof. intros Hm. unfold with_audio_sender. untouched. Qed.
Lemma untouched_graph c : untouched (graph_call c).
Proof. unfold graph_call. untouched. Qed.
Lemma untouched_ignored {A} (m : actor media_world A) : untouched m -> untouched (ignored m).
Proof. intros Hm. unfold ignored. untouched. Qed.
Lemma untouched_sender_or m undo : untouched m -> untouched undo -> untouched (sender_or m undo).
Proof. intros Hm Hu. unfold sender_or. untouched. Qed.
Lemma untouched_audio_sender_or m undo : untouched m -> untouched undo -> untouched (audio_sender_or m undo).
Proof. intros Hm Hu. unfold audio_sender_or. untouched. Qed.
Lemma untouched_negotiate c : untouched (negotiate_video c).
Proof. unfold negotiate_video. untouched. Qed.

Hint Resolve untouched_video_unit untouched_audio_unit untouched_video_statistics untouched_audio_statistics
  untouched_with_sender untouched_with_audio_sender untouched_graph untouched_ignored untouched_sender_or
  untouched_audio_sender_or untouched_negotiate : untouched.

Lemma untouched_best_effort g : untouched (suspend_senders_best_effort g).
Proof. unfold suspend_senders_best_effort. untouched. Qed.
Lemma untouched_confirmation g pv pa : untouched (wait_for_media_confirmation g pv pa).
Proof. unfold wait_for_media_confirmation. untouched. Qed.
Lemma untouched_teardown {A} received (m : med A) : untouched m -> untouched (teardown received m).
Proof. intros Hm. unfold teardown. untouched. Qed.
Lemma untouched_stop g : untouched (with_sender (video_stop g)) /\ untouched (with_audio_sender (audio_stop g)).
Proof. unfold video_stop, audio_stop. split; untouched. Qed.
Hint Resolve untouched_best_effort untouched_confirmation untouched_teardown : untouched.

(** ** Outcomes *)

Lemma runs_untouched {A} (m : actor media_world A) s : untouched m -> runs m (in_session s) (fun _ => in_session s).
Proof. intros Hm w <-. apply Hm. Qed.

(** Either it succeeded, with a session changed by [f], or the session is what it was. *)
Definition outcome_of (f : media_session -> media_session) (s : media_session) (r : refused unit) (w : media_world)
  : Prop :=
  (r = Ok tt /\ w_session w = f s) \/ (r <> Ok tt /\ w_session w = s).

Lemma outcome_try {A} (m : med A) (k : A -> med unit) f s :
  untouched m -> (forall x, runs (k x) (in_session s) (outcome_of f s)) ->
  runs (mbind m k) (in_session s) (outcome_of f s).
Proof.
  intros Hm Hk. eapply runs_bind; [by apply runs_untouched|]. intros [x|e|]; [apply Hk|..].
  - apply runs_ret. intros w Hw. by right.
  - apply runs_ret. intros w Hw. by right.
Qed.

Lemma outcome_last f s : runs (abind (update f) (fun _ => aret (Ok tt))) (in_session s) (outcome_of f s).
Proof. intros w <-. by left. Qed.

Lemma outcome_error (m : med unit) f s :
  untouched m -> (forall w, (m w).1 <> Ok tt) -> runs m (in_session s) (outcome_of f s).
Proof. intros Hm He w <-. right. split; [apply He|apply Hm]. Qed.

Lemma flow_outcome g t graph s : runs (flow g t graph) (in_session s) (outcome_of (set_state StateStreaming) s).
Proof.
  unfold flow. eapply runs_bind; [by apply runs_untouched|]. intros s'.
  apply outcome_try; [untouched|]. intros pv. apply outcome_try; [untouched|]. intros pa.
  apply outcome_try; [untouched|]. intros _. apply outcome_try; [untouched|]. intros _.
  eapply runs_bind; [apply runs_untouched; untouched|]. intros [[]|e|].
  - eapply runs_bind; [apply runs_untouched; untouched|]. intros [[]|e|].
    + apply outcome_last.
    + apply outcome_error; [untouched|]. intros w. unfold abind. by repeat case_match.
    + by apply outcome_error.
  - apply outcome_error; [untouched|]. intros w. unfold abind. by repeat case_match.
  - by apply outcome_error.
Qed.

Lemma untouched_require_generation operation g required : untouched (require_generation operation g required).
Proof. unfold require_generation, require_matching_generation, require. untouched. Qed.
Hint Resolve untouched_require_generation : untouched.

Lemma start_outcome g s : runs (start g) (in_session s) (outcome_of (set_state StateStreaming) s).
Proof.
  unfold start. apply outcome_try; [untouched|]. intros _. eapply runs_bind; [by apply runs_untouched|]. intros s'.
  apply outcome_try; [unfold require; untouched|]. intros _. apply flow_outcome.
Qed.

Lemma resume_outcome g s : runs (resume g) (in_session s) (outcome_of (set_state StateStreaming) s).
Proof. unfold resume. apply outcome_try; [untouched|]. intros _. apply flow_outcome. Qed.

Lemma suspend_outcome s : runs suspend (in_session s) (outcome_of (set_state StateSuspended) s).
Proof.
  unfold suspend. eapply runs_bind; [by apply runs_untouched|]. intros s'.
  apply outcome_try; [unfold require; untouched|]. intros _. destruct (me_active s'); [|by apply outcome_error].
  apply outcome_try; [untouched|]. intros _. apply outcome_try; [untouched|]. intros _.
  apply outcome_try; [untouched|]. intros _. apply outcome_last.
Qed.

(** The session has admitted the generation. *)
Definition admitted_as (g : Z) (s s' : media_session) : Prop :=
  me_state s' = StateConfigured /\ me_active s' = Some g /\ me_completed s' = me_completed s /\
  me_capabilities s' = me_capabilities s.

Abbreviation admitted_in g s := (fun w => admitted_as g s (w_session w)).

Definition configure_outcome_of (g : Z) (s : media_session) (r : refused unit) (w : media_world) : Prop :=
  (r <> Ok tt /\ w_session w = s) \/ (admitted_as g s (w_session w) /\ (r = Ok tt -> me_ready (w_session w) = true)).

Lemma admitted_untouched {A} (m : actor media_world A) g s :
  untouched m -> runs m (admitted_in g s) (fun _ => admitted_in g s).
Proof. intros Hm w Hw. cbn. by rewrite Hm. Qed.

Lemma admitted_update f g s :
  (forall s', admitted_as g s s' -> admitted_as g s (f s')) -> runs (update f) (admitted_in g s) (fun _ => admitted_in g s).
Proof. intros Hf w Hw. by apply Hf. Qed.

Lemma admitted_try {A} (m : med A) (k : A -> med unit) g s :
  runs m (admitted_in g s) (fun _ => admitted_in g s) -> (forall x, runs (k x) (admitted_in g s) (configure_outcome_of g s)) ->
  runs (mbind m k) (admitted_in g s) (configure_outcome_of g s).
Proof.
  intros Hm Hk. eapply runs_bind; [exact Hm|]. intros [x|e|]; [apply Hk|..].
  - apply runs_ret. intros w Hw. by right.
  - apply runs_ret. intros w Hw. by right.
Qed.

Lemma give_ports_outcome g audio t s : runs (give_ports g audio t) (admitted_in g s) (configure_outcome_of g s).
Proof.
  unfold give_ports. apply admitted_try.
  { destruct audio, (nt_audio_sender t) as [p|]; [|apply admitted_untouched; untouched..].
    eapply runs_bind; [apply admitted_untouched; untouched|]. intros [[]|e|]; [|by apply runs_ret..].
    eapply runs_bind; [by apply admitted_update|]. intros ?. by apply runs_ret. }
  intros []. apply admitted_try; [apply admitted_untouched; untouched|]. intros [].
  intros w Hw. right. split; [exact Hw|done].
Qed.

Lemma configure_outcome remotes targets c g s :
  runs (configure remotes targets c g) (in_session s) (configure_outcome_of g s).
Proof.
  assert (Hno : forall A (m : med A) (k : A -> med unit), untouched m ->
    (forall x, runs (k x) (in_session s) (configure_outcome_of g s)) ->
    runs (mbind m k) (in_session s) (configure_outcome_of g s)).
  { intros A m k Hm Hk. eapply runs_bind; [by apply runs_untouched|]. intros [x|e|]; [apply Hk|..];
      apply runs_ret; intros w Hw; by left. }
  unfold configure. apply Hno; [unfold lift; untouched|]. intros _. eapply runs_bind; [by apply runs_untouched|].
  intros s0. apply Hno; [unfold require; untouched|]. intros _. apply Hno; [unfold require; untouched|]. intros _.
  apply Hno; [unfold require; untouched|]. intros _. apply Hno; [unfold lift; untouched|]. intros [graph transport].
  eapply runs_bind with (Q := fun _ => admitted_in g s); [by intros w <-|]. intros ?.
  eapply runs_bind; [apply admitted_untouched; untouched|]. intros negotiation.
  apply admitted_try; [apply admitted_untouched; unfold lift; untouched|]. intros t.
  eapply runs_bind; [by apply admitted_update|]. intros ?.
  eapply runs_bind; [apply admitted_untouched; untouched|]. intros [e|[]].
  - eapply runs_bind; [apply admitted_untouched; untouched|]. intros ?. apply runs_ret. intros w Hw. by right.
  - apply admitted_try; [apply admitted_untouched; unfold lift; untouched|]. intros controller.
    eapply runs_bind; [by apply admitted_update|]. intros ?. apply give_ports_outcome.
Qed.

Lemma tear_down_outcome s0 g s :
  runs (tear_down s0 g) (in_session s) (fun _ w => w_session w = cleared StatePrepared (Some g) true s).
Proof.
  destruct (untouched_stop g) as [Hv Ha]. unfold tear_down.
  do 4 (eapply runs_bind; [apply runs_untouched; untouched|]; intros ?). by intros w <-.
Qed.

(** Feedback changes the bitrate and the controller. *)
Definition same_session (s s' : media_session) : Prop :=
  me_state s' = me_state s /\ me_active s' = me_active s /\ me_completed s' = me_completed s /\
  me_ready s' = me_ready s /\ me_capabilities s' = me_capabilities s.

Abbreviation same_in s := (fun w => same_session s (w_session w)).

Lemma same_untouched {A} (m : actor media_world A) s : untouched m -> runs m (same_in s) (fun _ => same_in s).
Proof. intros Hm w Hw. cbn. by rewrite Hm. Qed.

Lemma same_control {A} b k s (m : unit -> actor media_world A) :
  runs (m tt) (same_in s) (fun _ => same_in s) ->
  runs (abind (update (fun s => set_control (b s) (k s) s)) m) (same_in s) (fun _ => same_in s).
Proof. intros Hm. eapply runs_bind with (Q := fun _ => same_in s); [by intros w Hw|]. by intros []. Qed.

Lemma same_mbind {A B} (m : med A) (k : A -> med B) s :
  runs m (same_in s) (fun _ => same_in s) -> (forall x, runs (k x) (same_in s) (fun _ => same_in s)) ->
  runs (mbind m k) (same_in s) (fun _ => same_in s).
Proof. intros Hm Hk. eapply runs_bind; [exact Hm|]. intros [x|e|]; [apply Hk|by apply runs_ret..]. Qed.

Lemma perform_same g actions s : runs (perform g actions) (same_in s) (fun _ => same_in s).
Proof.
  induction actions as [|action actions IH]; [by apply runs_ret|]. cbn [perform].
  eapply runs_bind; [by apply same_untouched|]. intros s0. apply same_mbind.
  - destruct action as [|bitrate|delay|requested receiver]; [apply same_untouched; untouched| |apply same_untouched; untouched..].
    eapply runs_bind; [apply same_untouched; untouched|]. intros r.
    apply same_mbind; [apply same_untouched; unfold lift; untouched|]. intros b.
    apply (same_control (fun _ => b) me_controller). by apply runs_ret.
  - intros e. apply same_mbind; [done|]. intros events. by apply runs_ret.
Qed.

Lemma feedback_same f s : runs (handle_feedback f) (same_in s) (fun _ => same_in s).
Proof.
  unfold handle_feedback. eapply runs_bind; [by apply same_untouched|]. intros s0.
  destruct (sf_generation f) as [g|]; [|by apply runs_ret]. destruct (_ || _); [by apply runs_ret|].
  destruct (sf_terminal_error f); [by apply runs_ret|]. destruct (me_controller s0) as [k|]; [|by apply runs_ret].
  eapply runs_bind with (Q := fun _ => same_in s); [by intros w Hw|]. intros log.
  apply same_mbind; [apply same_untouched; unfold lift; untouched|]. intros [k' actions].
  apply (same_control me_video_bitrate (fun _ => Some k')). apply perform_same.
Qed.

Lemma statistics_same s : runs statistics (same_in s) (fun _ => same_in s).
Proof.
  apply same_untouched. unfold statistics, require, lift. untouched.
Qed.

(** ** Refusals *)

(** The call was not refused as out of place. *)
Definition in_place {A} (r : refused A) : Prop := match r with Err (InvalidTransition _ _) => False | _ => True end.
Definition placed {A} (m : med A) : Prop := forall w, in_place (m w).1.

Lemma placed_ret {A} (r : refused A) : in_place r -> placed (aret r).
Proof. by intros H w. Qed.
Lemma placed_bind {A B} (m : actor media_world A) (k : A -> med B) : (forall x, placed (k x)) -> placed (abind m k).
Proof. intros Hk w. unfold abind. destruct (m w). apply Hk. Qed.
Lemma placed_mbind {A B} (m : med A) (k : A -> med B) :
  placed m -> (forall x, placed (k x)) -> placed (mbind m k).
Proof.
  intros Hm Hk w. unfold mbind, abind. specialize (Hm w). destruct (m w) as [[x|e|] w']; [apply Hk|done|done].
Qed.
Lemma placed_from_transport {A} (r : result A) : placed (aret (from_transport r)).
Proof. by destruct r. Qed.
Lemma placed_from_graph {A} (r : result A) : placed (aret (from_graph r)).
Proof. by destruct r. Qed.
Lemma placed_with_sender {A} (m : actor media_world (result A)) : placed (with_sender m).
Proof. apply placed_bind. intros s. destruct (me_sender s); [|done]. apply placed_bind. apply placed_from_transport. Qed.
Lemma placed_with_audio_sender {A} (m : actor media_world (result A)) : placed (with_audio_sender m).
Proof. apply placed_bind. intros s. destruct (me_audio_sender s); [|done]. apply placed_bind. apply placed_from_transport. Qed.
Lemma placed_graph c : placed (graph_call c).
Proof. apply placed_bind. apply placed_from_graph. Qed.
Lemma placed_sender_or m undo : placed (sender_or m undo).
Proof.
  apply placed_bind. intros s. destruct (me_sender s); [|done]. apply placed_bind. intros [e|[]]; [by apply placed_bind|done].
Qed.
Lemma placed_audio_sender_or m undo : placed (audio_sender_or m undo).
Proof.
  apply placed_bind. intros s. destruct (me_audio_sender s); [|done]. apply placed_bind.
  intros [e|[]]; [by apply placed_bind|done].
Qed.

Lemma placed_confirmation g pv pa : placed (wait_for_media_confirmation g pv pa).
Proof.
  unfold wait_for_media_confirmation. apply placed_mbind; [apply placed_with_sender|]. intros _.
  apply placed_mbind; [destruct pa; [apply placed_with_audio_sender|done]|]. intros _.
  apply placed_mbind; [apply placed_with_sender|]. intros _. destruct pa; [apply placed_with_sender|done].
Qed.

Lemma placed_flow g t graph : placed (flow g t graph).
Proof.
  unfold flow. apply placed_bind. intros s. apply placed_mbind; [apply placed_with_sender|]. intros pv.
  apply placed_mbind. { case_match; [|done]. by apply placed_mbind; [apply placed_with_audio_sender|]. }
  intros pa. apply placed_mbind; [apply placed_with_sender|]. intros _.
  apply placed_mbind; [case_match; [apply placed_audio_sender_or|done]|]. intros _.
  intros w. unfold abind at 1. pose proof (placed_graph graph w) as Hg. destruct (graph_call graph w) as [[[]|e|] w1].
  - unfold abind at 1. pose proof (placed_confirmation g pv pa w1) as Hc.
    destruct (wait_for_media_confirmation g pv pa w1) as [[[]|e|] w2]; [by apply placed_bind| |done].
    assert (placed (abind (ignored (graph_call (GraphSuspend g))) (fun _ => abind (suspend_senders_best_effort g) (fun _ => aret (Err (A:=unit) e))))) as H.
    { apply placed_bind. intros _. apply placed_bind. intros _. by apply placed_ret. }
    apply H.
  - assert (placed (abind (suspend_senders_best_effort g) (fun _ => aret (Err (A:=unit) e)))) as H.
    { apply placed_bind. intros _. by apply placed_ret. }
    apply H.
  - done.
Qed.

Lemma placed_give_ports g audio t : placed (give_ports g audio t).
Proof.
  unfold give_ports. apply placed_mbind.
  - destruct audio, (nt_audio_sender t); [|by apply placed_bind|by do 2 (apply placed_bind; intros ?)|done].
    apply placed_mbind; [apply placed_audio_sender_or|]. intros _. by apply placed_bind.
  - intros _. apply placed_mbind; [apply placed_with_sender|]. intros _. by apply placed_bind.
Qed.

(** [in_place] through the [Result]s of the checks. *)
Lemma in_place_bind {A B} (m : refused A) (k : A -> refused B) :
  in_place m -> (forall x, in_place (k x)) -> in_place (obind m k).
Proof. destruct m; cbn; auto. Qed.
Lemma in_place_reject c e : in_place (Err (A:=unit) e) -> in_place (reject c e).
Proof. by destruct c. Qed.
Lemma in_place_ok_or {A} (o : option A) e : in_place (Err (A:=A) e) -> in_place (ok_or o e).
Proof. by destruct o. Qed.
Lemma in_place_expect {A} (o : option A) : in_place (expect o).
Proof. by destruct o. Qed.
Lemma in_place_caps {A} (o : outcome CapsError A) : in_place (omap_err CapsRefused o).
Proof. by destruct o. Qed.

Ltac in_place :=
  repeat first [done | apply in_place_caps | apply in_place_expect | apply in_place_reject; done
    | apply in_place_ok_or; done | apply in_place_bind; [|intros ?] | case_match ].

Lemma in_place_graph_configuration s remotes targets c g :
  is_Some (me_capabilities s) -> in_place (graph_configuration s remotes targets c g).
Proof.
  intros [cap Hc]. unfold graph_configuration. rewrite Hc. cbn [ok_or obind].
  unfold negotiated_audio, negotiated_video, video_caps, caps_match_mode, audio_input, audio_caps, input_of. in_place.
Qed.

(** Refused with the session as it was, or past the guard. *)
Lemma past_guard {A} (m : med A) (k : A -> med unit) s (Q : media_world -> Prop) :
  untouched m -> (forall x, runs (k x) (in_session s) (fun r w => (r <> Ok tt /\ w_session w = s) \/ Q w)) ->
  runs (mbind m k) (in_session s) (fun r w => (r <> Ok tt /\ w_session w = s) \/ Q w).
Proof.
  intros Hm Hk. eapply runs_bind; [by apply runs_untouched|].
  intros [x|e|]; [apply Hk|..]; apply runs_ret; intros w Hw; by left.
Qed.

Lemma untouched_require b e : untouched (require b e).
Proof. by destruct b. Qed.

Lemma stop_outcome g s :
  runs (CastMedia.stop_media g) (in_session s) (fun r w =>
    (r <> Ok tt /\ w_session w = s) \/
    (me_state (w_session w) = StatePrepared /\ me_completed (w_session w) = Some g
     /\ me_capabilities (w_session w) = me_capabilities s)).
Proof.
  unfold CastMedia.stop_media. apply past_guard; [apply untouched_require|]. intros [].
  eapply runs_bind with (Q := fun s' w => s' = s /\ w_session w = s); [by intros w <-|]. intros s'.
  destruct (_ && _) eqn:E.
  - apply runs_ret. intros w [-> Hw]. apply andb_prop in E as [E1%bool_decide_eq_true_1 E2%bool_decide_eq_true_1].
    right. by rewrite Hw.
  - eapply runs_pre with (P := in_session s); [|by intros w []].
    apply past_guard; [apply untouched_require|]. intros [].
    apply past_guard; [apply untouched_bind; [done|intros ?; apply untouched_require]|]. intros [].
    eapply runs_post; [apply tear_down_outcome|]. intros r w ->. by right.
Qed.

Lemma backend_keeps op w : media_inv w -> media_inv (perform_op op w).2.
Proof. apply perform_op_keeps. Qed.

(** ** Calls that are in place *)

Definition guard_of (m : med unit) (w : media_world) : Prop := m w = (Ok tt, w).

Lemma in_place_guard (m : med unit) (k : unit -> med unit) w :
  guard_of m w -> in_place (k tt w).1 -> in_place (mbind m k w).1.
Proof. intros Hm Hk. unfold mbind, abind. by rewrite Hm. Qed.

Lemma in_place_guarded (m : med unit) (k : unit -> med unit) w :
  placed m -> untouched m -> (forall w', w_session w' = w_session w -> in_place (k tt w').1) -> in_place (mbind m k w).1.
Proof.
  intros Hp Hm Hk. unfold mbind, abind. specialize (Hp w). specialize (Hm w). destruct (m w) as [[[]|e|] w']; cbn in *; auto.
Qed.

Lemma generation_in_place operation g required (k : unit -> med unit) w :
  me_state (w_session w) = required -> me_active (w_session w) = Some g -> g <> 0 ->
  in_place (k tt w).1 -> in_place (mbind (require_generation operation g required) k w).1.
Proof.
  intros H1 H2 H3 Hk. apply in_place_guard; [|done]. unfold guard_of, require_generation, require_matching_generation, mbind, abind, session.
  rewrite bool_decide_eq_true_2 by done. cbn. apply Z.eqb_neq in H3. rewrite H3. cbn. by rewrite bool_decide_eq_true_2.
Qed.

Lemma start_in_place g w :
  me_state (w_session w) = StateConfigured -> me_active (w_session w) = Some g -> me_ready (w_session w) = true ->
  g <> 0 -> in_place (start g w).1.
Proof.
  intros H1 H2 H3 H4. apply generation_in_place; [done..|]. unfold abind, session. rewrite H3.
  apply in_place_guard; [done|]. apply placed_flow.
Qed.

Lemma resume_in_place g w :
  me_state (w_session w) = StateSuspended -> me_active (w_session w) = Some g -> g <> 0 -> in_place (resume g w).1.
Proof. intros H1 H2 H3. apply generation_in_place; [done..|]. apply placed_flow. Qed.

Lemma suspend_in_place g w :
  me_state (w_session w) = StateStreaming -> me_active (w_session w) = Some g -> in_place (suspend w).1.
Proof.
  intros H1 H2. unfold suspend, abind at 1, session. rewrite bool_decide_eq_true_2 by done.
  apply in_place_guard; [done|]. rewrite H2.
  assert (Hp : placed (do^ graph_call (GraphSuspend g);
    do^ (if me_audio_enabled (w_session w) then
           audio_sender_or (audio_unit (AudioTransition g TransitionSuspend)) (ignored (graph_call (GraphResume g)))
         else aret (Ok tt));
    do^ sender_or (video_unit (CmdTransition g TransitionSuspend))
          (do* (if me_audio_enabled (w_session w)
                then ignored (with_audio_sender (audio_unit (AudioTransition g TransitionResume))) else aret tt);
           ignored (graph_call (GraphResume g)));
    do* update (set_state StateSuspended); aret (Ok tt))).
  { apply placed_mbind; [apply placed_graph|]. intros _.
    apply placed_mbind; [case_match; [apply placed_audio_sender_or|done]|]. intros _.
    apply placed_mbind; [apply placed_sender_or|]. intros _. by apply placed_bind. }
  apply Hp.
Qed.

Lemma lift_guard (r : refused unit) (k : unit -> med unit) w :
  in_place r -> in_place (k tt w).1 -> in_place (mbind (lift r) k w).1.
Proof. intros Hr Hk. by destruct r as [[]| |]. Qed.

Lemma configure_in_place remotes targets c g w :
  me_state (w_session w) = StatePrepared -> is_Some (me_capabilities (w_session w)) ->
  in_place (configure remotes targets c g w).1.
Proof.
  intros H1 H2. unfold configure. apply lift_guard; [by destruct (validate_media_configuration _ _ _ _)|].
  unfold abind at 1, session. apply in_place_guard; [by rewrite bool_decide_eq_true_2|].
  apply (in_place_guarded _ _ w); [by destruct (_ =? _)|apply untouched_require|]. intros w' Hw'.
  apply (in_place_guarded _ _ w'); [by destruct (not_newer _ _)|apply untouched_require|]. intros w'' Hw''.
  unfold mbind at 1, abind at 1, lift.
  pose proof (in_place_graph_configuration (w_session w) remotes targets c g H2) as Hg. unfold aret at 1.
  destruct (graph_configuration _ _ _ _ _) as [[graph transport]|e|]; [|done..].
  match goal with |- in_place (?m w'').1 => assert (Hp : placed m); [|apply Hp] end.
  do 2 (apply placed_bind; intros ?). apply placed_mbind; [unfold lift; apply placed_from_transport|]. intros t.
  do 2 (apply placed_bind; intros ?). case_match; [by apply placed_bind|].
  apply placed_mbind; [unfold lift; by apply placed_ret; destruct (controller_new _ _ _)|]. intros k.
  apply placed_bind. intros _. apply placed_give_ports.
Qed.

Lemma stop_active g w :
  media_inv w -> me_active (w_session w) = Some g -> g <> 0 ->
  me_state (w_session (CastMedia.stop_media g w).2) = StatePrepared /\
  me_completed (w_session (CastMedia.stop_media g w).2) = Some g.
Proof.
  intros (v & a & Hw & Hs) Ha Hg. destruct (stop_calls_log g w _ v a Hs Hw Ha Hg) as [_ H].
  by rewrite (at_session _ _ _ _ _ H).
Qed.

Lemma stop_completed g w :
  me_state (w_session w) = StatePrepared -> me_completed (w_session w) = Some g -> g <> 0 ->
  CastMedia.stop_media g w = (Ok tt, w).
Proof.
  intros H1 H2 Hg. apply Z.eqb_neq in Hg. unfold CastMedia.stop_media, mbind, abind, session, require. rewrite Hg. cbn.
  rewrite H1, H2, (bool_decide_eq_true_2 (Some g = Some g)) by done. done.
Qed.

End Sessions.
