(* ===== verification/CastDiscovery.v ===== *)
(** * Discovery in the Cast backend (crates/pronk-chromiacast/src/discovery.rs)

    The actor that looks for Cast devices.  A scan replaces its inventory of the
    current discovery generation, and what changed is sent out, each change with
    the next revision.  The source of the scans (an mDNS library) is given by the
    results of its scans; an input of the loop is a command or a scan.

    The theorem composes it with the daemon's copy (DeviceInventory): from any
    snapshot of the actor, and the events it sends after it, the host arrives at
    the actor's inventory, and every event is valid for it. *)

From S2P Require Import Prelude Bytes Text Ordering Actor BackendProtocol DeviceInventory.

(** ** Data *)

Definition CHROMIACAST_BACKEND_ID : list Z := codes "chromiacast".

(** [SocketAddr]; an address is its bits, from the most significant. *)
Inductive IpAddr := IpV4 (bits : Z) | IpV6 (bits flowinfo scope_id : Z).
Record SocketAddr := { sa_ip : IpAddr; sa_port : Z }.

Definition is_unspecified (ip : IpAddr) : bool := match ip with IpV4 b => b =? 0 | IpV6 b _ _ => b =? 0 end.
Definition is_multicast (ip : IpAddr) : bool :=
  match ip with
  | IpV4 b => Z.shiftr b 28 =? 14
  | IpV6 b _ _ => Z.shiftr b 120 =? 255
  end.

Global Instance SocketAddr_eq_dec : EqDecision SocketAddr.
Proof. intros [[a|a b c] p] [[a'|a' b' c'] p']; unfold Decision; decide equality; try apply Z.eq_dec; decide equality; apply Z.eq_dec. Defined.

Record DeviceRecord := { dr_info : DeviceInfo; dr_endpoints : list SocketAddr }.

Global Instance DeviceRecord_eq_dec : EqDecision DeviceRecord.
Proof. solve_decision. Defined.

Definition record_identity (r : DeviceRecord) : DeviceIdentity :=
  {| di_backend_id := backend_id (dr_info r); di_device_id := device_id (dr_info r) |}.

Inductive DiscoveryActorError :=
  | DiscoveryStopped | NotActive | StaleGeneration (expected actual : Z) | GenerationExhausted
  | DiscoveryRevisionExhausted | TooManyDevices | DuplicateDeviceId (id : list Z)
  | InvalidDeviceInfo (e : ValidationError) | InvalidEndpoints | DuplicateEndpoint | SourceFailed (text : list Z).

Abbreviation discovered := (outcome DiscoveryActorError).

(** The three kinds of change are those the host knows. *)
Inductive DiscoveryEvent := DiscoveryChange (e : DeviceEvent) | DiscoveryFatal (e : DiscoveryActorError).

Abbreviation record_map := (gmap (list Z) DeviceRecord).

Record ActiveDiscovery := { ad_generation : Z; ad_revision : Z; ad_devices : record_map }.

Record DiscoveryState := { ds_next_generation : Z; ds_active : option ActiveDiscovery }.

(** [distinct_endpoint_addresses]: the first of each, in order. *)
Fixpoint distinct_endpoints (seen endpoints : list SocketAddr) : list SocketAddr :=
  match endpoints with
  | [] => []
  | e :: endpoints =>
      if bool_decide (e ∈ seen) then distinct_endpoints seen endpoints else e :: distinct_endpoints (e :: seen) endpoints
  end.

Definition distinct_endpoint_addresses : list SocketAddr -> list SocketAddr := distinct_endpoints [].

(** What the library knows of a device. *)
Record CastDevice := {
  ca_id : list Z; ca_name : list Z; ca_model : list Z; ca_capabilities : Z; ca_protocol_version : option (list Z);
  ca_endpoints : list SocketAddr }.

Definition metadata_entry (k v : list Z) : DiscoveryMetadataEntry := {| key := k; value := v |}.

Definition record_from_cast_device (d : CastDevice) : option DeviceRecord :=
  let metadata :=
    [metadata_entry (codes "device-kind") (codes "google-cast");
     metadata_entry (codes "cast-capabilities") (display_uint (ca_capabilities d))]
    ++ (if bool_decide (ca_model d = []) then [] else [metadata_entry (codes "model") (ca_model d)])
    ++ match ca_protocol_version d with Some v => [metadata_entry (codes "cast-protocol-version") v] | None => [] end in
  let info := {| backend_id := CHROMIACAST_BACKEND_ID; device_id := ca_id d; display_name := ca_name d;
                 availability := Available; metadata := metadata |} in
  if is_ok (validate_device_info info)
  then Some {| dr_info := info; dr_endpoints := distinct_endpoint_addresses (ca_endpoints d) |} else None.

(** [ChromiacastDiscoverySource::scan], of what the library found. *)
Definition source_scan (found : list Z + list CastDevice) : list Z + list DeviceRecord :=
  match found with
  | inl text => inl text
  | inr found => inr (omap record_from_cast_device found)
  end.

(** ** Commands *)

Definition start_discovery (s : DiscoveryState) : discovered Z * DiscoveryState :=
  match ds_active s with
  | Some a => (Ok (ad_generation a), s)
  | None =>
      match checked_add64 (ds_next_generation s) 1 with
      | None => (Err GenerationExhausted, s)
      | Some g => (Ok g, {| ds_next_generation := g;
                            ds_active := Some {| ad_generation := g; ad_revision := 1; ad_devices := ∅ |} |})
      end
  end.

Definition active_of (s : DiscoveryState) : discovered ActiveDiscovery := ok_or (ds_active s) NotActive.

Definition current_of (s : DiscoveryState) (generation : Z) : discovered ActiveDiscovery :=
  let? a := active_of s in
  try? reject (negb (ad_generation a =? generation)) (StaleGeneration (ad_generation a) generation);
  Ok a.

Definition stop_discovery (s : DiscoveryState) (generation : Z) : discovered unit * DiscoveryState :=
  match current_of s generation with
  | Ok _ => (Ok tt, {| ds_next_generation := ds_next_generation s; ds_active := None |})
  | Err e => (Err e, s)
  | Panic => (Panic, s)
  end.

Definition snapshot (s : DiscoveryState) : discovered DeviceSnapshot :=
  let? a := active_of s in
  Ok {| ds_discovery_generation := ad_generation a; revision := ad_revision a;
        devices := dr_info <$> values (ad_devices a) |}.

Definition resolve (s : DiscoveryState) (generation : Z) (id : list Z) : discovered (option DeviceRecord) :=
  let? a := current_of s generation in Ok (ad_devices a !! id).

(** ** Scans *)

Definition bad_endpoint (e : SocketAddr) : bool :=
  (sa_port e =? 0) || is_unspecified (sa_ip e) || is_multicast (sa_ip e).

(** Sorting and removing repeated neighbours leaves each endpoint once. *)
Definition check_record (r : DeviceRecord) : discovered unit :=
  try? omap_err InvalidDeviceInfo (validate_device_info (dr_info r));
  try? reject (negb (bool_decide (backend_id (dr_info r) = CHROMIACAST_BACKEND_ID))
               || bool_decide (dr_endpoints r = []) || (MAX_ENDPOINTS <? length (dr_endpoints r))%nat
               || existsb bad_endpoint (dr_endpoints r)) InvalidEndpoints;
  reject (negb (length (remove_dups (dr_endpoints r)) =? length (dr_endpoints r))%nat) DuplicateEndpoint.

Fixpoint collect_records (records : list DeviceRecord) (next : record_map) : discovered record_map :=
  match records with
  | [] => Ok next
  | r :: records =>
      try? check_record r;
      let id := device_id (dr_info r) in
      try? reject (bool_decide (is_Some (next !! id))) (DuplicateDeviceId id);
      collect_records records (<[id := r]> next)
  end.

Definition next_revision (revision : Z) : discovered Z := ok_or (checked_add64 revision 1) DiscoveryRevisionExhausted.

(** The actor with what it has sent; [None] once it has ended. *)
Record discovery_world := { dw_state : DiscoveryState; dw_events : list DiscoveryEvent; dw_running : bool }.

(** Whether the receiver of the events is gone. *)
Class DiscoveryPorts := { receiver_gone : list DiscoveryEvent -> bool }.

Section Discovery.
Context `{D : DiscoveryPorts}.

(** [events.send(event).await] *)
Definition send_event (event : DiscoveryEvent) : actor (list DiscoveryEvent) (discovered unit) :=
  fun sent => if receiver_gone sent then (Err DiscoveryStopped, sent) else (Ok tt, sent ++ [event]).

(** A change takes the next revision. *)
Definition send_change (revision : Z) (change : Z -> DeviceEvent) : actor (list DiscoveryEvent) (discovered Z) :=
  match next_revision revision with
  | Ok next =>
      let* sent := send_event (DiscoveryChange (change next)) in
      aret (match sent with Ok _ => Ok next | Err e => Err e | Panic => Panic end)
  | Err e => aret (Err e)
  | Panic => aret Panic
  end.

Fixpoint send_removed (generation revision : Z) (removed : list DeviceRecord)
  : actor (list DiscoveryEvent) (discovered Z) :=
  match removed with
  | [] => aret (Ok revision)
  | r :: removed =>
      let* sent := send_change revision (fun next => EventRemoved generation next (record_identity r)) in
      match sent with
      | Ok revision => send_removed generation revision removed
      | Err e => aret (Err e)
      | Panic => aret Panic
      end
  end.

Fixpoint send_updates (generation revision : Z) (present : record_map) (next : list (list Z * DeviceRecord))
  : actor (list DiscoveryEvent) (discovered Z) :=
  match next with
  | [] => aret (Ok revision)
  | (id, r) :: next =>
      let* sent := match present !! id with
                   | None => send_change revision (fun revision => EventAdded generation revision (dr_info r))
                   | Some current =>
                       if bool_decide (current = r) then aret (Ok revision)
                       else send_change revision (fun revision => EventChanged generation revision (dr_info r))
                   end in
      match sent with
      | Ok revision => send_updates generation revision present next
      | Err e => aret (Err e)
      | Panic => aret Panic
      end
  end.

(** The present devices that a scan did not find, in the order of the map. *)
Definition removed_records (present next : record_map) : list DeviceRecord :=
  snd <$> List.filter (fun p => negb (bool_decide (is_Some (next !! p.1)))) (entries present).

(** After an error the actor ends, so the revision it had reached is not kept. *)
Definition apply_scan (s : DiscoveryState) (records : list DeviceRecord)
  : actor (list DiscoveryEvent) (discovered DiscoveryState) :=
  let checked :=
    try? reject (MAX_DEVICES <? length records)%nat TooManyDevices;
    let? next := collect_records records ∅ in
    let? a := active_of s in
    Ok (next, a) in
  match checked with
  | Err e => aret (Err e)
  | Panic => aret Panic
  | Ok (next, a) =>
      let* removed := send_removed (ad_generation a) (ad_revision a) (removed_records (ad_devices a) next) in
      match removed with
      | Err e => aret (Err e)
      | Panic => aret Panic
      | Ok revision =>
          let* updated := send_updates (ad_generation a) revision (ad_devices a) (entries next) in
          aret (let? revision := updated in
                Ok {| ds_next_generation := ds_next_generation s;
                      ds_active := Some {| ad_generation := ad_generation a; ad_revision := revision;
                                           ad_devices := next |} |})
      end
  end.

(** ** The loop *)

Inductive discovery_input :=
  | InStart | InStop (generation : Z) | InSnapshot | InResolve (generation : Z) (device_id : list Z) | InShutdown
  | InHandlesGone
  | InScan (result : list Z + list DeviceRecord).

Inductive discovery_reply :=
  | StartReply (r : discovered Z) | StopReply (r : discovered unit) | SnapshotReply (r : discovered DeviceSnapshot)
  | ResolveReply (r : discovered (option DeviceRecord)) | ShutdownReply.

Definition with_discovery (s : DiscoveryState) (w : discovery_world) : discovery_world :=
  {| dw_state := s; dw_events := dw_events w; dw_running := dw_running w |}.

Definition discovery_ended (s : DiscoveryState) (events : list DiscoveryEvent) : discovery_world :=
  {| dw_state := s; dw_events := events; dw_running := false |}.

(** A scan, which is only made while discovery is active; its failure is the
    actor's end. *)
Definition on_scan (result : list Z + list DeviceRecord) (w : discovery_world) : discovery_world :=
  let '(applied, events) :=
    match result with
    | inr records => apply_scan (dw_state w) records (dw_events w)
    | inl text => (Err (SourceFailed text), dw_events w)
    end in
  match applied with
  | Ok s => {| dw_state := s; dw_events := events; dw_running := true |}
  | Err e => discovery_ended (dw_state w) (send_event (DiscoveryFatal e) events).2
  | Panic => discovery_ended (dw_state w) events
  end.

Definition discovery_step (i : discovery_input) (w : discovery_world) : option discovery_reply * discovery_world :=
  if negb (dw_running w) then (None, w) else
  match i with
  | InStart => let '(r, s) := start_discovery (dw_state w) in (Some (StartReply r), with_discovery s w)
  | InStop g => let '(r, s) := stop_discovery (dw_state w) g in (Some (StopReply r), with_discovery s w)
  | InSnapshot => (Some (SnapshotReply (snapshot (dw_state w))), w)
  | InResolve g id => (Some (ResolveReply (resolve (dw_state w) g id)), w)
  | InShutdown =>
      (Some ShutdownReply,
       discovery_ended {| ds_next_generation := ds_next_generation (dw_state w); ds_active := None |} (dw_events w))
  | InHandlesGone => (None, discovery_ended (dw_state w) (dw_events w))
  | InScan result =>
      (None, match ds_active (dw_state w) with Some _ => on_scan result w | None => w end)
  end.

Definition discovery_run (w : discovery_world) (inputs : list discovery_input) : discovery_world :=
  foldl (fun w i => (discovery_step i w).2) w inputs.

Definition discovery_start : discovery_world :=
  {| dw_state := {| ds_next_generation := 0; ds_active := None |}; dw_events := []; dw_running := true |}.

End Discovery.

(** ** The events describe the changes *)

Definition host_key (id : list Z) : list Z * list Z := (CHROMIACAST_BACKEND_ID, id).

Global Instance host_key_inj : Inj (=) (=) host_key.
Proof. by intros a b [= ->]. Qed.

(** The devices as the host keeps them. *)
Definition host_map (m : record_map) : device_map := kmap host_key (dr_info <$> m).

Lemma host_map_lookup m id : host_map m !! host_key id = dr_info <$> m !! id.
Proof. unfold host_map. by rewrite (lookup_kmap host_key), lookup_fmap. Qed.

Lemma host_map_insert m id r : host_map (<[id := r]> m) = <[host_key id := dr_info r]> (host_map m).
Proof. unfold host_map. by rewrite fmap_insert, (kmap_insert host_key). Qed.

Lemma host_map_delete m id : host_map (delete id m) = delete (host_key id) (host_map m).
Proof. unfold host_map. by rewrite fmap_delete, (kmap_delete host_key). Qed.

Definition record_ok (id : list Z) (r : DeviceRecord) : Prop :=
  device_id (dr_info r) = id /\ backend_id (dr_info r) = CHROMIACAST_BACKEND_ID /\ device_info_ok (dr_info r).

Lemma record_key id r : record_ok id r -> device_key (dr_info r) = host_key id.
Proof. intros (H1 & H2 & _). unfold device_key, host_key. by rewrite H1, H2. Qed.

(** Changes of a generation that lead from one inventory to another. *)
Inductive leads (g : Z) : Z -> device_map -> list DeviceEvent -> Z -> device_map -> Prop :=
  | leads_nil r m : leads g r m [] r m
  | leads_snoc r m events r1 m1 e m2 :
      leads g r m events r1 m1 -> event_revision e = r1 + 1 -> event_generation e = g -> r1 + 1 <= u64_MAX ->
      validate_event CHROMIACAST_BACKEND_ID e = Ok tt -> event_effect m1 e = Ok m2 ->
      leads g r m (events ++ [e]) (r1 + 1) m2.

Lemma leads_app g r m e1 r1 m1 e2 r2 m2 :
  leads g r m e1 r1 m1 -> leads g r1 m1 e2 r2 m2 -> leads g r m (e1 ++ e2) r2 m2.
Proof.
  intros H1 H2. induction H2; [by rewrite app_nil_r|]. rewrite app_assoc. by eapply leads_snoc; eauto.
Qed.

Lemma history_app r m e1 e2 :
  history r m e1 -> history (r + Z.of_nat (length e1)) (devices_after m (length e1) e1) e2 -> history r m (e1 ++ e2).
Proof.
  intros H1 H2. induction H1 as [|r m e m' events Hr He Hh IH]; cbn in *; [by rewrite Z.add_0_r in H2|].
  rewrite He in H2. econstructor; [done..|]. apply IH. by replace (r + 1 + Z.of_nat (length events)) with (r + Z.of_nat (S (length events))) by lia.
Qed.

Lemma devices_after_app m e1 e2 r :
  history r m e1 -> devices_after m (length (e1 ++ e2)) (e1 ++ e2) = devices_after (devices_after m (length e1) e1) (length e2) e2.
Proof. intros Hh. induction Hh as [|r m e m' events Hr He Hh IH]; cbn; [done|]. by rewrite He. Qed.

Lemma leads_history g r m events r' m' :
  leads g r m events r' m' ->
  history r m events /\ r' = r + Z.of_nat (length events) /\ devices_after m (length events) events = m' /\
  Forall (fun e => validate_event CHROMIACAST_BACKEND_ID e = Ok tt /\ event_generation e = g) events /\
  (events <> [] -> r' <= u64_MAX).
Proof.
  induction 1 as [|r m events r1 m1 e m2 Hl (Hh & Hr & Hd & Hf & Hm) He Hg Hb Hv Hef].
  { split_and!; try done; [constructor|cbn; lia]. }
  assert (Hone : history (r + Z.of_nat (length events)) (devices_after m (length events) events) [e]).
  { rewrite Hd. econstructor; [lia|done|constructor]. }
  split; [by apply history_app|]. split; [rewrite length_app; cbn; lia|].
  split; [rewrite (devices_after_app _ _ _ _ Hh), Hd; cbn; by rewrite Hef|].
  split; [apply Forall_app; split; [done|by repeat constructor]|lia].
Qed.

(** *** What a scan sends *)

Section Scans.
Context `{D : DiscoveryPorts}.

Definition sent_changes (sent : list DiscoveryEvent) (events : list DeviceEvent) : list DiscoveryEvent :=
  sent ++ (DiscoveryChange <$> events).

Lemma sent_nil sent : sent_changes sent [] = sent.
Proof. unfold sent_changes. cbn. by rewrite app_nil_r. Qed.
Lemma sent_app sent e1 e2 : sent_changes (sent_changes sent e1) e2 = sent_changes sent (e1 ++ e2).
Proof. unfold sent_changes. by rewrite fmap_app, app_assoc. Qed.

Lemma send_change_ok revision change sent next sent' :
  send_change revision change sent = (Ok next, sent') ->
  next = revision + 1 /\ next <= u64_MAX /\ sent' = sent_changes sent [change next].
Proof.
  unfold send_change, next_revision, checked_add64. destruct (Z.leb_spec (revision + 1) u64_MAX); cbn; [|done].
  unfold abind, send_event, aret. destruct (receiver_gone sent); [done|]. by intros [= <- <-].
Qed.

Lemma removed_event_ok g r1 id r m :
  record_ok id r -> is_Some (m !! id) ->
  event_effect (host_map m) (EventRemoved g (r1 + 1) (record_identity r)) = Ok (host_map (delete id m)).
Proof.
  intros (H1 & H2 & _) [x Hx]. cbn. rewrite H1, H2. fold (host_key id). rewrite host_map_lookup, Hx. cbn.
  by rewrite host_map_delete.
Qed.

Lemma validate_removed g r1 id r : 1 <= r1 -> record_ok id r ->
  validate_event CHROMIACAST_BACKEND_ID (EventRemoved g (r1 + 1) (record_identity r)) = Ok tt.
Proof.
  intros Hr (H1 & H2 & H3 & H4 & _). unfold validate_event. cbn -[validate_device_identity].
  rewrite (proj2 (Z.eqb_neq _ _)) by lia. cbn [reject obind]. unfold validate_device_identity. cbn.
  rewrite (proj2 (validate_backend_id_iff _)) by done. cbn. rewrite (proj2 (validate_text_iff _ _ _)) by done. cbn.
  unfold require_backend. by rewrite H2, bool_decide_eq_true_2.
Qed.

Lemma validate_update (mk : Z -> Z -> DeviceInfo -> DeviceEvent) g r1 id r :
  mk = EventAdded \/ mk = EventChanged -> 1 <= r1 -> record_ok id r ->
  validate_event CHROMIACAST_BACKEND_ID (mk g (r1 + 1) (dr_info r)) = Ok tt.
Proof.
  intros Hmk Hr (H1 & H2 & H3). unfold validate_event.
  destruct Hmk as [-> | ->]; cbn [event_revision]; rewrite (proj2 (Z.eqb_neq _ _)) by lia; cbn [reject obind];
    rewrite (proj2 (validate_device_info_iff _)) by done; cbn; unfold require_backend; by rewrite H2, bool_decide_eq_true_2.
Qed.

Definition delete_all (ids : list (list Z)) (m : record_map) : record_map := foldl (fun m id => delete id m) m ids.

Lemma send_removed_ok g removed m revision sent revision' sent' :
  1 <= revision -> map_Forall record_ok m -> NoDup (device_id ∘ dr_info <$> removed) ->
  Forall (fun r => m !! device_id (dr_info r) = Some r) removed ->
  send_removed g revision removed sent = (Ok revision', sent') ->
  1 <= revision' /\ exists events, sent' = sent_changes sent events /\
    leads g revision (host_map m) events revision' (host_map (delete_all (device_id ∘ dr_info <$> removed) m)).
Proof.
  revert m revision sent. induction removed as [|r removed IH]; intros m revision sent Hr Hm Hn Hin H; cbn in H.
  { injection H as <- <-. split; [done|]. exists []. rewrite sent_nil. split; [done|constructor]. }
  unfold abind in H. destruct (send_change revision _ sent) as [[next|e|] sent1] eqn:Hs; [|done..].
  apply send_change_ok in Hs as (-> & Hb & ->). cbn in Hn. apply NoDup_cons in Hn as [Hnin Hn].
  apply Forall_cons in Hin as [Hr1 Hin]. assert (Hok : record_ok (device_id (dr_info r)) r) by by apply Hm.
  assert (Hin' : Forall (fun x => delete (device_id (dr_info r)) m !! device_id (dr_info x) = Some x) removed).
  { apply Forall_forall. intros x Hx. eapply Forall_forall in Hin as Hxm; [|exact Hx]. rewrite lookup_delete_ne; [done|].
    intros E. apply Hnin, list_elem_of_fmap. exists x. by split. }
  destruct (IH (delete (device_id (dr_info r)) m) (revision + 1) _ ltac:(lia) (map_Forall_delete _ _ _ Hm) Hn Hin' H)
    as (Hr' & events & -> & Hl).
  split; [done|]. exists ([EventRemoved g (revision + 1) (record_identity r)] ++ events). split; [by rewrite sent_app|].
  eapply leads_app; [|exact Hl]. apply (leads_snoc g _ _ [] revision (host_map m)); [constructor|done..|by eapply validate_removed|].
  by eapply removed_event_ok; [exact Hok|eexists].
Qed.

Lemma update_effect g r1 id r m :
  record_ok id r ->
  (m !! id = None -> event_effect (host_map m) (EventAdded g r1 (dr_info r)) = Ok (host_map (<[id := r]> m))) /\
  (is_Some (m !! id) -> event_effect (host_map m) (EventChanged g r1 (dr_info r)) = Ok (host_map (<[id := r]> m))).
Proof.
  intros Hok. cbn. rewrite (record_key _ _ Hok), host_map_lookup, host_map_insert. split; [by intros ->|].
  by intros [x ->].
Qed.

Definition insert_all (l : list (list Z * DeviceRecord)) (m : record_map) : record_map :=
  foldl (fun m p => <[p.1 := p.2]> m) m l.

Lemma send_updates_ok g present l m revision sent revision' sent' :
  1 <= revision -> NoDup l.*1 -> Forall (fun p => record_ok p.1 p.2 /\ m !! p.1 = present !! p.1) l ->
  send_updates g revision present l sent = (Ok revision', sent') ->
  1 <= revision' /\ exists events, sent' = sent_changes sent events /\
    leads g revision (host_map m) events revision' (host_map (insert_all l m)).
Proof.
  revert m revision sent. induction l as [|[id r] l IH]; intros m revision sent Hr Hn Hin H; cbn in H.
  { injection H as <- <-. split; [done|]. exists []. rewrite sent_nil. split; [done|constructor]. }
  cbn in Hn. apply NoDup_cons in Hn as [Hnin Hn]. apply Forall_cons in Hin as [[Hok Hp] Hin]. cbn in Hok, Hp.
  destruct (update_effect g (revision + 1) id r m Hok) as [Hadd Hchange]. rewrite <- Hp in H.
  assert (Hrest : Forall (fun p => record_ok p.1 p.2 /\ <[id := r]> m !! p.1 = present !! p.1) l).
  { apply Forall_forall. intros p Hpl. eapply Forall_forall in Hin as [H1 H2]; [|exact Hpl]. split; [done|].
    rewrite lookup_insert_ne; [done|]. intros ->. apply Hnin, list_elem_of_fmap. by exists p. }
  assert (Hgo : forall mk, mk = EventAdded \/ mk = EventChanged ->
    event_effect (host_map m) (mk g (revision + 1) (dr_info r)) = Ok (host_map (<[id := r]> m)) ->
    forall sent1 rev1, send_change revision (fun revision => mk g revision (dr_info r)) sent = (Ok rev1, sent1) ->
    send_updates g rev1 present l sent1 = (Ok revision', sent') ->
    1 <= revision' /\ exists events, sent' = sent_changes sent events /\
      leads g revision (host_map m) events revision' (host_map (insert_all l (<[id := r]> m)))).
  { intros mk Hmk He sent1 rev1 Hs Hu. apply send_change_ok in Hs as (-> & Hb & ->).
    destruct (IH (<[id := r]> m) (revision + 1) _ ltac:(lia) Hn Hrest Hu) as (Hr' & events & -> & Hl).
    split; [done|]. exists ([mk g (revision + 1) (dr_info r)] ++ events). split; [by rewrite sent_app|].
    eapply leads_app; [|exact Hl].
    apply (leads_snoc g _ _ [] revision (host_map m)); [constructor|by destruct Hmk as [-> | ->]..|done|by eapply validate_update|done]. }
  unfold abind in H. destruct (m !! id) as [current|] eqn:Hc.
  - destruct (bool_decide (current = r)) eqn:Hb.
    + apply bool_decide_eq_true_1 in Hb as ->. cbn in H.
      assert (Hrest' : Forall (fun p => record_ok p.1 p.2 /\ m !! p.1 = present !! p.1) l).
      { eapply Forall_impl; [exact Hrest|]. intros p [H1 H2]. split; [done|]. by rewrite insert_id in H2. }
      destruct (IH m revision sent Hr Hn Hrest' H) as (Hr' & events & -> & Hl).
      split; [done|]. exists events. split; [done|]. cbn. by rewrite insert_id.
    + destruct (send_change revision _ sent) as [[rev1|e|] sent1] eqn:Hs; [|done..].
      by apply (Hgo EventChanged) with (3 := Hs); [right|apply Hchange; eexists|].
  - destruct (send_change revision _ sent) as [[rev1|e|] sent1] eqn:Hs; [|done..].
    by apply (Hgo EventAdded) with (3 := Hs); [left|apply Hadd|].
Qed.

Definition map_ok (m : record_map) : Prop := map_Forall record_ok m /\ (size m <= MAX_DEVICES)%nat.

Lemma check_record_ok r : check_record r = Ok tt -> record_ok (device_id (dr_info r)) r.
Proof.
  unfold check_record. intros (u & Hv & H)%query_seq_ok. destruct u. apply reject_seq_ok in H as [H _].
  repeat (apply orb_false_iff in H as [H _]). apply negb_false_iff, bool_decide_eq_true_1 in H.
  split; [done|]. split; [done|]. by apply validate_device_info_iff.
Qed.

Lemma collect_records_ok records m next :
  collect_records records m = Ok next -> map_Forall record_ok m ->
  map_Forall record_ok next /\ size next = (size m + length records)%nat.
Proof.
  revert m. induction records as [|r records IH]; intros m H Hm; cbn in H; [injection H as <-; split; [done|cbn; lia]|].
  apply seq_ok in H as [Hr H]. apply reject_seq_ok in H as [Hn H]. apply bool_decide_eq_false_1, eq_None_not_Some in Hn.
  destruct (IH _ H) as [H1 H2]; [by apply map_Forall_insert_2; [apply check_record_ok|]|]. split; [done|].
  rewrite H2, map_size_insert_None by done. cbn. lia.
Qed.

Lemma removed_in present next r :
  map_Forall record_ok present ->
  r ∈ removed_records present next <->
  present !! device_id (dr_info r) = Some r /\ next !! device_id (dr_info r) = None.
Proof.
  intros Hp. unfold removed_records. rewrite list_elem_of_fmap. split.
  - intros ([id x] & -> & Hin). apply list_elem_of_In, filter_In in Hin as [Hin Hn]. apply list_elem_of_In, elem_of_entries in Hin.
    cbn in *. destruct (Hp _ _ Hin) as [E _]. rewrite E. split; [done|]. apply negb_true_iff, bool_decide_eq_false_1 in Hn.
    by apply eq_None_not_Some.
  - intros [H1 H2]. exists (device_id (dr_info r), r). split; [done|]. apply list_elem_of_In, filter_In. split.
    + by apply list_elem_of_In, elem_of_entries.
    + cbn. rewrite H2. apply negb_true_iff, bool_decide_eq_false_2. by intros [? ?].
Qed.

Lemma removed_nodup present next :
  map_Forall record_ok present -> NoDup (device_id ∘ dr_info <$> removed_records present next).
Proof.
  intros Hp. unfold removed_records. rewrite <- list_fmap_compose.
  assert (E : forall l, Forall (fun p => record_ok p.1 p.2) l -> (device_id ∘ dr_info) ∘ snd <$> l = l.*1).
  { induction 1 as [|[id r] l [E _] _ IH]; [done|]. cbn in *. by rewrite E, IH. }
  rewrite E.
  - assert (Hsub : forall l : list (list Z * DeviceRecord), NoDup l.*1 -> forall p, NoDup (List.filter p l).*1).
    { induction l as [|x l IH]; intros Hn p; [constructor|]. cbn in *. apply NoDup_cons in Hn as [Hx Hn].
      destruct (p x); cbn; [|by apply IH]. constructor; [|by apply IH]. intros (y & Ey & Hy)%list_elem_of_fmap.
      apply list_elem_of_In, filter_In in Hy as [Hy _]. apply Hx, list_elem_of_fmap. exists y. split; [done|].
      by apply list_elem_of_In. }
    apply Hsub, entries_nodup.
  - apply Forall_forall. intros [id r] Hin. apply list_elem_of_In, filter_In in Hin as [Hin _].
    apply list_elem_of_In, elem_of_entries in Hin. by apply Hp.
Qed.

Lemma delete_all_lookup ids m id :
  delete_all ids m !! id = if decide (id ∈ ids) then None else m !! id.
Proof.
  revert m. induction ids as [|i ids IH]; intros m; cbn; [by rewrite decide_False by set_solver|].
  unfold delete_all in *. rewrite IH. destruct (decide (id = i)) as [->|Hne].
  - rewrite lookup_delete_eq. repeat case_decide; set_solver.
  - rewrite lookup_delete_ne by done. repeat case_decide; set_solver.
Qed.

Lemma insert_all_lookup l m id :
  NoDup l.*1 ->
  insert_all l m !! id = match (list_to_map l : record_map) !! id with Some r => Some r | None => m !! id end.
Proof.
  revert m. induction l as [|[i r] l IH]; intros m Hn; cbn; [by rewrite lookup_empty|].
  cbn in Hn. apply NoDup_cons in Hn as [Hi Hn]. unfold insert_all in *. rewrite IH by done. cbn.
  destruct (decide (id = i)) as [->|Hne].
  - rewrite lookup_insert_eq. rewrite (not_elem_of_list_to_map_1 l i) by done. by rewrite lookup_insert_eq.
  - by rewrite !lookup_insert_ne by done.
Qed.

(** The devices that are left and those of the scan are those of the scan. *)
Lemma scanned_map present next :
  map_Forall record_ok present ->
  insert_all (entries next) (delete_all (device_id ∘ dr_info <$> removed_records present next) present) = next.
Proof.
  intros Hp. apply map_eq. intros id. rewrite insert_all_lookup by apply entries_nodup.
  assert (E : (list_to_map (entries next) : record_map) !! id = next !! id).
  { destruct (next !! id) as [r|] eqn:H.
    - apply elem_of_list_to_map; [apply entries_nodup|by apply elem_of_entries].
    - apply not_elem_of_list_to_map. intros ([i r] & -> & Hin)%list_elem_of_fmap. apply elem_of_entries in Hin.
      cbn in H. congruence. }
  rewrite E. destruct (next !! id) as [r|] eqn:H; [done|]. rewrite delete_all_lookup. case_decide as Hin; [done|].
  destruct (present !! id) as [r|] eqn:Hr; [|done]. exfalso. apply Hin. apply list_elem_of_fmap. exists r.
  destruct (Hp _ _ Hr) as [Ei _]. split; [cbn; by rewrite Ei|]. apply removed_in; [done|]. by rewrite Ei.
Qed.

(** *** Scans *)

Definition active_ok (a : ActiveDiscovery) : Prop :=
  ad_generation a <> 0 /\ 1 <= ad_revision a /\ map_ok (ad_devices a).

Lemma apply_scan_ok s a records sent s' sent' :
  ds_active s = Some a -> active_ok a -> apply_scan s records sent = (Ok s', sent') ->
  ds_next_generation s' = ds_next_generation s /\ exists a' events,
    ds_active s' = Some a' /\ active_ok a' /\ ad_generation a' = ad_generation a /\ sent' = sent_changes sent events /\
    leads (ad_generation a) (ad_revision a) (host_map (ad_devices a)) events (ad_revision a') (host_map (ad_devices a')).
Proof.
  intros Hs (Hg & Hr & Hm & Hsize) H. unfold apply_scan in H. destruct (obind _ _) as [[next a0]|e|] eqn:Hc; [|done..].
  apply reject_seq_ok in Hc as [Hlen Hc]. apply obind_ok in Hc as (next' & Hn & Hc). apply obind_ok in Hc as (a1 & Ha & Hc).
  injection Hc as -> ->. unfold active_of in Ha. rewrite Hs in Ha. injection Ha as <-.
  apply collect_records_ok in Hn as [Hnok Hnsize]; [|apply map_Forall_empty]. rewrite map_size_empty in Hnsize.
  apply Nat.ltb_ge in Hlen. unfold abind in H. destruct (send_removed _ _ _ sent) as [[r1|e|] sent1] eqn:H1; [|done..].
  apply (send_removed_ok _ _ (ad_devices a)) in H1 as (Hr1 & e1 & -> & L1); [|done|done|by apply removed_nodup|].
  2: { apply Forall_forall. intros r Hin. by apply removed_in in Hin as [? _]. }
  destruct (send_updates _ _ _ _ _) as [[r2|e|] sent2] eqn:H2; [|done..]. injection H as <- <-.
  set (mid := delete_all _ _) in L1. apply (send_updates_ok _ _ _ mid) in H2 as (Hr2 & e2 & -> & L2); [|done|apply entries_nodup|].
  2: { apply Forall_forall. intros [id r] Hin. apply elem_of_entries in Hin. cbn. split; [by apply Hnok|].
       unfold mid. rewrite delete_all_lookup. case_decide as Hd; [|done]. exfalso.
       apply list_elem_of_fmap in Hd as (x & -> & Hx). apply removed_in in Hx as [_ Hx]; [|done]. cbn in Hin. congruence. }
  unfold mid in L2. rewrite scanned_map in L2 by done. split; [done|]. do 2 eexists. split; [done|]. cbn.
  split; [split_and!; cbn; [done|lia|split; [done|lia]]|]. split; [done|]. split; [by rewrite sent_app|]. by eapply leads_app.
Qed.

(** *** Runs *)

Definition discovery_ok (w : discovery_world) : Prop :=
  0 <= ds_next_generation (dw_state w) /\ forall a, ds_active (dw_state w) = Some a -> active_ok a.

Lemma start_active s :
  0 <= ds_next_generation s -> (forall a, ds_active s = Some a -> active_ok a) ->
  let s' := (start_discovery s).2 in
  0 <= ds_next_generation s' /\ (forall a, ds_active s' = Some a -> active_ok a) /\
  (ds_active s' = ds_active s /\ ds_next_generation s' = ds_next_generation s \/
   ds_active s = None /\ exists a, ds_active s' = Some a /\ ad_generation a = ds_next_generation s' /\
     ds_next_generation s < ds_next_generation s').
Proof.
  intros Hn Ha. unfold start_discovery. destruct (ds_active s) as [a|] eqn:E; cbn; [rewrite E; auto|].
  unfold checked_add64. destruct (ds_next_generation s + 1 <=? u64_MAX); cbn; [|rewrite E; auto].
  split; [lia|]. split; [|right; split; [done|]; eexists; split; [done|]; cbn; lia].
  intros a [= <-]. split; cbn; [lia|]. split; [lia|]. split; [apply map_Forall_empty|]. rewrite map_size_empty. unfold MAX_DEVICES. lia.
Qed.

Lemma stop_keeps_active s g :
  let s' := (stop_discovery s g).2 in
  ds_next_generation s' = ds_next_generation s /\ (ds_active s' = ds_active s \/ ds_active s' = None).
Proof. unfold stop_discovery. destruct (current_of s g); cbn; auto. Qed.

Lemma on_scan_effect w a result :
  ds_active (dw_state w) = Some a -> active_ok a ->
  dw_running (on_scan result w) = true ->
  ds_next_generation (dw_state (on_scan result w)) = ds_next_generation (dw_state w) /\ exists a' events,
    ds_active (dw_state (on_scan result w)) = Some a' /\ active_ok a' /\ ad_generation a' = ad_generation a /\
    dw_events (on_scan result w) = sent_changes (dw_events w) events /\
    leads (ad_generation a) (ad_revision a) (host_map (ad_devices a)) events (ad_revision a') (host_map (ad_devices a')).
Proof.
  intros Ha Hok. unfold on_scan. destruct result as [text|records]; [done|].
  destruct (apply_scan (dw_state w) records (dw_events w)) as [[s|e|] sent] eqn:E; [|done..]. intros _. cbn.
  by apply (apply_scan_ok _ _ _ _ _ _ Ha Hok E).
Qed.

(** What became of a generation after it was in a given state. *)
Definition followed (a0 : ActiveDiscovery) (sent0 : list DiscoveryEvent) (w : discovery_world) : Prop :=
  dw_running w = true ->
  ad_generation a0 <= ds_next_generation (dw_state w) /\
  forall a, ds_active (dw_state w) = Some a ->
    active_ok a /\
    (ad_generation a0 < ad_generation a \/
     ad_generation a = ad_generation a0 /\ exists events, dw_events w = sent_changes sent0 events /\
       leads (ad_generation a0) (ad_revision a0) (host_map (ad_devices a0)) events (ad_revision a) (host_map (ad_devices a))).

Lemma followed_step a0 sent0 i w :
  0 <= ad_generation a0 -> followed a0 sent0 w -> followed a0 sent0 (discovery_step i w).2.
Proof.
  intros H0 Hf. unfold discovery_step. destruct (dw_running w) eqn:Hr; cbn [negb]; [|cbn; unfold followed; cbn; intros; congruence].
  specialize (Hf Hr) as [Hg Ha]. destruct i as [|g| |g id| | |result]; try (by intros ?); try done.
  - destruct (start_active (dw_state w)) as (H1 & H2 & H3); [lia|intros a Haa; by apply Ha|].
    destruct (start_discovery (dw_state w)) as [r s]. cbn in *. intros _. cbn.
    destruct H3 as [[-> ->]|(Hnone & a & Hsa & Hga & Hlt)]; [done|]. split; [lia|]. intros a' Ha'.
    rewrite Hsa in Ha'. injection Ha' as <-. split; [by apply H2|]. left. lia.
  - pose proof (stop_keeps_active (dw_state w) g) as [H1 H2]. destruct (stop_discovery (dw_state w) g) as [r s]. cbn in *.
    intros _. cbn. rewrite H1. split; [done|]. destruct H2 as [-> | ->]; [done|done].
  - cbn [snd]. destruct (ds_active (dw_state w)) as [a|] eqn:E; [|intros _; by rewrite E].
    destruct (Ha a eq_refl) as [Hok Hcase]. intros Hrun.
    destruct (on_scan_effect w a result E Hok Hrun) as (En & a' & events & Ea' & Hok' & Eg & Ev & Hl).
    rewrite En. split; [done|]. intros x Hx. rewrite Ea' in Hx. injection Hx as <-. split; [done|].
    destruct Hcase as [Hlt|(Hsame & before & Eb & Hb)]; [left; lia|right]. split; [lia|].
    exists (before ++ events). rewrite Ev, Eb, sent_app. split; [done|]. eapply leads_app; [exact Hb|]. by rewrite <- Hsame.
Qed.

Lemma followed_run a0 sent0 inputs w :
  0 <= ad_generation a0 -> followed a0 sent0 w -> followed a0 sent0 (discovery_run w inputs).
Proof.
  intros H0. revert w. induction inputs as [|i inputs IH]; intros w Hf; [done|]. cbn. by apply IH, followed_step.
Qed.

(** Whatever is active was made of the start: [a0] of generation zero. *)
Lemma run_active_ok inputs a :
  dw_running (discovery_run discovery_start inputs) = true ->
  ds_active (dw_state (discovery_run discovery_start inputs)) = Some a ->
  active_ok a /\ 0 < ad_generation a <= ds_next_generation (dw_state (discovery_run discovery_start inputs)).
Proof.
  assert (H : forall w, (dw_running w = true -> 0 <= ds_next_generation (dw_state w) /\ forall a, ds_active (dw_state w) = Some a ->
     active_ok a /\ 0 < ad_generation a <= ds_next_generation (dw_state w)) -> forall inputs,
     dw_running (discovery_run w inputs) = true -> 0 <= ds_next_generation (dw_state (discovery_run w inputs)) /\
       forall a, ds_active (dw_state (discovery_run w inputs)) = Some a ->
       active_ok a /\ 0 < ad_generation a <= ds_next_generation (dw_state (discovery_run w inputs))).
  { intros w Hw inputs'. revert w Hw. induction inputs' as [|i inputs' IH]; intros w Hw; [done|]. cbn. apply IH. clear IH.
    unfold discovery_step. destruct (dw_running w) eqn:Hr; cbn [negb]; [|cbn; unfold followed; cbn; intros; congruence].
    specialize (Hw eq_refl) as [Hn Ha]. destruct i as [|g| |g id| | |result]; try done.
    - destruct (start_active (dw_state w)) as (H1 & H2 & H3); [lia|intros x Hx; by apply Ha|].
      destruct (start_discovery (dw_state w)) as [r s]. cbn in *. intros _.
      destruct H3 as [[E1 E2]|(Hnone & x & Hx & Hgx & Hlt)]; [by rewrite E1, E2|]. split; [done|].
      intros y Hy. rewrite Hx in Hy. injection Hy as <-. split; [by apply H2|lia].
    - pose proof (stop_keeps_active (dw_state w) g) as [H1 H2]. destruct (stop_discovery (dw_state w) g) as [r s]. cbn in *.
      intros _. rewrite H1. destruct H2 as [-> | ->]; done.
    - cbn [snd]. destruct (ds_active (dw_state w)) as [x|] eqn:E; [|intros _; by rewrite E].
      intros Hrun. destruct (Ha x eq_refl) as [Hok Hle].
      destruct (on_scan_effect w x result E Hok Hrun) as (En & a' & events & Ea' & Hok' & Eg & _).
      rewrite En. split; [done|]. intros y Hy. rewrite Ea' in Hy. injection Hy as <-. by rewrite Eg. }
  intros Hr Ha. by apply (H discovery_start) with (inputs := inputs).
Qed.

Lemma run_stays inputs w : dw_running (discovery_run w inputs) = true -> dw_running w = true.
Proof.
  destruct (dw_running w) eqn:E; [done|]. intros H. exfalso.
  assert (Hid : discovery_run w inputs = w).
  { clear H. induction inputs as [|i inputs IH]; [done|]. cbn. unfold discovery_step. by rewrite E. }
  rewrite Hid in H. congruence.
Qed.

(** *** The host's copy *)

Lemma insert_devices_total ds m :
  Forall (fun d => backend_id d = CHROMIACAST_BACKEND_ID) ds -> exists m', insert_devices CHROMIACAST_BACKEND_ID ds m = Ok m'.
Proof.
  revert m. induction ds as [|d ds IH]; intros m Hf; [by eexists|]. apply Forall_cons in Hf as [Hd Hf]. cbn.
  unfold require_backend. rewrite Hd, bool_decide_eq_true_2 by done. cbn. by apply IH.
Qed.

Definition snapshot_of (a : ActiveDiscovery) : DeviceSnapshot :=
  {| ds_discovery_generation := ad_generation a; revision := ad_revision a; devices := dr_info <$> values (ad_devices a) |}.

Lemma snapshot_devices a d :
  map_Forall record_ok (ad_devices a) ->
  (d ∈ devices (snapshot_of a) <-> host_map (ad_devices a) !! device_key d = Some d /\ backend_id d = CHROMIACAST_BACKEND_ID).
Proof.
  intros Hm. cbn. rewrite list_elem_of_fmap. split.
  - intros (r & -> & Hr). apply elem_of_values in Hr as [id Hr]. pose proof (Hm _ _ Hr) as Hok.
    rewrite (record_key _ _ Hok), host_map_lookup, Hr. split; [done|]. apply Hok.
  - intros [Hl Hb]. unfold device_key in Hl. rewrite Hb in Hl. fold (host_key (device_id d)) in Hl. rewrite host_map_lookup in Hl.
    destruct (ad_devices a !! device_id d) as [r|] eqn:Hr; [|done]. injection Hl as Hl. exists r. split; [done|].
    apply elem_of_values. by eexists.
Qed.

(** The snapshot holds the devices of the map, each under its own key. *)
Lemma host_map_devices a k d :
  map_Forall record_ok (ad_devices a) ->
  (host_map (ad_devices a) !! k = Some d <-> d ∈ devices (snapshot_of a) /\ k = device_key d).
Proof.
  intros Hm. rewrite snapshot_devices by done. split; [|by intros [[Hk _] ->]].
  intros Hk. pose proof Hk as Hk0. unfold host_map in Hk. apply (lookup_kmap_Some host_key) in Hk as (id & -> & Hk).
  rewrite lookup_fmap in Hk. destruct (ad_devices a !! id) as [r|] eqn:Hr; [|done]. injection Hk as <-.
  pose proof (Hm _ _ Hr) as Hok. rewrite (record_key _ _ Hok). split; [split; [done|apply Hok]|done].
Qed.

Lemma taken_snapshot_valid a : active_ok a -> validate_device_snapshot (snapshot_of a) = Ok tt.
Proof.
  intros (Hg & Hr & Hm & Hsize). apply validate_device_snapshot_iff. split; [done|]. cbn.
  split; [by rewrite length_fmap, length_values|]. split.
  - apply Forall_forall. intros d (r & -> & Hin)%list_elem_of_fmap. apply elem_of_values in Hin as [id Hin]. by apply (Hm _ _ Hin).
  - unfold values. rewrite <- !list_fmap_compose.
    assert (E : forall l, Forall (fun p => record_ok p.1 p.2) l -> device_key ∘ (dr_info ∘ snd) <$> l = host_key <$> l.*1).
    { induction 1 as [|[id r] l Hok _ IH]; [done|]. cbn in *. by rewrite IH, (record_key _ _ Hok). }
    rewrite E; [apply NoDup_fmap_2; [apply _|apply entries_nodup]|].
    apply Forall_forall. intros [id r] Hin. apply elem_of_entries in Hin. by apply Hm.
Qed.

Lemma snapshot_copied a :
  active_ok a -> exists i, from_snapshot CHROMIACAST_BACKEND_ID (snapshot_of a) = Ok i /\
    inv_devices i = host_map (ad_devices a).
Proof.
  intros Hok. pose proof Hok as (_ & _ & Hm & _). destruct (insert_devices_total (devices (snapshot_of a)) ∅) as [m' Hm'].
  { apply Forall_forall. intros d Hd. by apply snapshot_devices in Hd as [_ ?]. }
  assert (Hi : from_snapshot CHROMIACAST_BACKEND_ID (snapshot_of a) = Ok
    {| expected_backend_id := CHROMIACAST_BACKEND_ID; discovery_generation := ad_generation a;
       baseline_revision := ad_revision a; inv_revision := ad_revision a; inv_devices := m'; last_applied := None |}).
  { unfold from_snapshot. rewrite taken_snapshot_valid by done. cbn [invalid_record omap_err obind]. by rewrite Hm'. }
  eexists. split; [exact Hi|]. destruct (from_snapshot_devices _ _ _ Hi) as (_ & _ & _ & _ & Hd & _). cbn in Hd |- *.
  apply map_eq. intros k. apply option_eq. intros d. rewrite Hd. symmetry. by apply (host_map_devices a).
Qed.

(** C35: The host's copy of the Cast backend's devices follows the discovery actor.
    Take any snapshot of the actor and any later one of the same discovery
    generation: the first is a valid one for the host to start with, every event
    sent in between is a change of that generation that the host accepts, and
    delivered in order they bring the copy to the second snapshot, its devices
    and its revision; delivered in any other way, late, repeated or in part, they
    leave it with the inventory the actor had at some revision in between. *)
Theorem discovery_feeds_host before after s s' :
  let w := discovery_run discovery_start before in
  let w' := discovery_run w after in
  dw_running w' = true -> snapshot (dw_state w) = Ok s -> snapshot (dw_state w') = Ok s' ->
  ds_discovery_generation s' = ds_discovery_generation s ->
  exists i events,
    from_snapshot CHROMIACAST_BACKEND_ID s = Ok i /\ dw_events w' = dw_events w ++ (DiscoveryChange <$> events) /\
    Forall (fun e => validate_event CHROMIACAST_BACKEND_ID e = Ok tt /\ event_generation e = ds_discovery_generation s) events /\
    inv_revision (deliver i events) = revision s' /\
    (forall k d, inv_devices (deliver i events) !! k = Some d <-> d ∈ devices s' /\ k = device_key d) /\
    forall delivered, Forall (fun e => e ∈ events) delivered -> exists n, (n <= length events)%nat /\
      inv_revision (deliver i delivered) = revision s + Z.of_nat n /\
      inv_devices (deliver i delivered) = devices_after (inv_devices i) n events.
Proof.
  intros w w' Hr Hs Hs' Hg. pose proof (run_stays after w Hr) as Hrw.
  unfold snapshot in Hs, Hs'. apply obind_ok in Hs as (a & Ha & [= <-]). apply obind_ok in Hs' as (a' & Ha' & [= <-]).
  apply ok_or_ok in Ha, Ha'. destruct (run_active_ok before a Hrw Ha) as [Hok [Hpos Hle]]. cbn in Hg.
  assert (Hf : followed a (dw_events w) w').
  { apply followed_run; [lia|]. intros _. split; [done|]. intros x Hx. rewrite Ha in Hx. injection Hx as <-. split; [done|].
    right. split; [done|]. exists []. rewrite sent_nil. split; [done|constructor]. }
  destruct (Hf Hr) as [_ Hf']. destruct (Hf' a' Ha') as [Hok' [Hlt|(_ & events & Ev & Hl)]]; [lia|].
  destruct (snapshot_copied a Hok) as (i & Hi & Hdev). apply leads_history in Hl as (Hh & Hrev & Hafter & Hvalid & Hmax).
  exists i, events. split; [exact Hi|]. split; [exact Ev|]. split; [exact Hvalid|].
  assert (Hbound : revision (snapshot_of a) + Z.of_nat (length events) <= u64_MAX \/ events = []).
  { destruct (decide (events = [])) as [->|Hne]; [by right|left]. specialize (Hmax Hne). change (revision (snapshot_of a)) with (ad_revision a). lia. }
  rewrite <- Hdev in Hh, Hafter.
  assert (Htrack : forall delivered, Forall (fun e => e ∈ events) delivered -> exists n, (n <= length events)%nat /\
    inv_revision (deliver i delivered) = ad_revision a + Z.of_nat n /\
    inv_devices (deliver i delivered) = devices_after (inv_devices i) n events).
  { intros delivered Hdel. by destruct (inventory_tracks_backend _ _ _ events delivered Hi Hh Hdel) as (_ & H & _). }
  assert (Hfull : inv_revision (deliver i events) = ad_revision a + Z.of_nat (length events)).
  { destruct Hbound as [Hb| ->].
    - destruct (inventory_tracks_backend _ _ _ events [] Hi Hh ltac:(constructor)) as (_ & _ & H). by apply H.
    - destruct (Htrack [] ltac:(constructor)) as (n & Hn & Hrn & _). cbn in Hn. by replace n with O in Hrn by lia. }
  split; [cbn; lia|]. split; [|exact Htrack].
  destruct (Htrack events) as (n & Hn & Hrn & Hdn); [by apply Forall_forall|].
  assert (n = length events) as -> by lia. rewrite Hdn, Hafter. intros k d. apply (host_map_devices a'), Hok'.
Qed.

End Scans.

(** ** Example *)

Definition ex_discovery_ports : DiscoveryPorts := {| receiver_gone := fun _ => false |}.

Definition ex_cast_device (id name : string) (ports : list Z) : CastDevice :=
  {| ca_id := codes id; ca_name := codes name; ca_model := codes "Chromecast"; ca_capabilities := 4101;
     ca_protocol_version := Some (codes "3");
     ca_endpoints := (fun p => {| sa_ip := IpV4 3232235777; sa_port := p |}) <$> ports |}.

Abbreviation ex_before := [InStart; InScan (source_scan (inr [ex_cast_device "a" "Kitchen" [8009]; ex_cast_device "b" "Hall" [8009]]))].
Abbreviation ex_after :=
  [InScan (source_scan (inr [ex_cast_device "c" "Study" [8009; 8009]; ex_cast_device "a" "Kitchen" [8009; 8010]]));
   InScan (source_scan (inr []))].

Abbreviation ex_discovered := (discovery_run (D := ex_discovery_ports)).

Definition ex_events_of (w : discovery_world) : list (Z * list Z) :=
  omap (fun e => match e with
                 | DiscoveryChange e => Some (event_revision e, match e with
                                                                | EventAdded _ _ d | EventChanged _ _ d => device_id d
                                                                | EventRemoved _ _ i => di_device_id i end)
                 | DiscoveryFatal _ => None end) (dw_events w).

Example ex_scans :
  ex_events_of (ex_discovered discovery_start (ex_before ++ ex_after)) =
  [(2, codes "a"); (3, codes "b"); (4, codes "b"); (5, codes "a"); (6, codes "c"); (7, codes "a"); (8, codes "c")].
Proof. by vm_compute. Qed.

Definition ex_snapshot_after (inputs : list discovery_input) : DeviceSnapshot :=
  match ds_active (dw_state (ex_discovered discovery_start inputs)) with
  | Some a => snapshot_of a
  | None => {| ds_discovery_generation := 0; revision := 0; devices := [] |}
  end.

Lemma discovery_feeds_host_witness :
  exists i events,
    from_snapshot CHROMIACAST_BACKEND_ID (ex_snapshot_after ex_before) = Ok i /\
    inv_revision (deliver i events) = 8.
Proof.
  assert (Hrun : dw_running (ex_discovered (ex_discovered discovery_start ex_before) ex_after) = true) by by vm_compute.
  assert (Hs : snapshot (dw_state (ex_discovered discovery_start ex_before)) = Ok (ex_snapshot_after ex_before))
    by by vm_compute.
  assert (Hs' : snapshot (dw_state (ex_discovered (ex_discovered discovery_start ex_before) ex_after)) =
    Ok (ex_snapshot_after (ex_before ++ ex_after))) by by vm_compute.
  assert (Hg : ds_discovery_generation (ex_snapshot_after (ex_before ++ ex_after)) =
    ds_discovery_generation (ex_snapshot_after ex_before)) by by vm_compute.
  assert (Hrev : revision (ex_snapshot_after (ex_before ++ ex_after)) = 8) by by vm_compute.
  destruct (discovery_feeds_host (D := ex_discovery_ports) ex_before ex_after (ex_snapshot_after ex_before)
    (ex_snapshot_after (ex_before ++ ex_after)) Hrun Hs Hs' Hg) as (i & events & Hi & _ & _ & Hr & _).
  exists i, events. split; [exact Hi|]. by rewrite Hr, Hrev.
Defined.
