(* ===== verification/CastDevice.v ===== *)
(** * The Cast device actor (crates/pronk-chromiacast/src/device.rs)

    The actor owns the connection to one Cast device and the media session that
    runs on it.  Preparation connects, asks the device who it is, and settles
    what the session can do; after that the actor carries out the daemon's
    calls, forwards the receiver's feedback, numbers the control operations and
    reports how each of them ended, and finally shuts everything down.

    What a connection answers is the class [DevicePorts]; a connection is an
    identifier.  The media session is CastMedia's.  [d_log] is what the actor
    did, replies included, in order.  The three queries of [join!] are made
    together, so each answer sees the same log, and the two branches of the
    shutdown act on different owners and are written one after the other.

    The theorems: no connection is lost, control operations are numbered and
    accounted for, what is negotiated is valid, and a display's identity is that
    of the device that was selected. *)

From Stdlib Require Import Sorted.
From S2P Require Import Prelude Bytes Text Actor PortLife PublicTypes EncodedVideo Feedback BackendProtocol CastDiscovery CastVideoSender CastAudioSender CastMedia CastMediaInvariant CastMediaOutcome.

(** ** Data *)

Definition MAX_CONNECTION_ATTEMPTS : nat := 4.

Record ControlDeviceInfo := {
  cd_device_id : list Z; cd_device_model : option (list Z); cd_capabilities : option Z }.

Inductive ControlSetupInfo :=
  | SetupAvailable (manufacturer product_name ssdp_udn : option (list Z))
  | SetupUnsupported.

Inductive MirroringAvailability := MirrorAvailable | MirrorUnavailable.

Inductive DeviceControlError :=
  | ControlConnect (message : list Z) | ControlDeviceInfoError (message : list Z)
  | ControlSetupInfoError (message : list Z) | ControlMirroringError (message : list Z)
  | UnsupportedControl (message : list Z) | ControlRefused (message : list Z) | ControlClose (message : list Z).

(** Their [Display]. *)
Definition control_error_text (e : DeviceControlError) : list Z :=
  match e with
  | ControlConnect m => codes "Cast control connection failed: " ++ m
  | ControlDeviceInfoError m => codes "authenticated device-info query failed: " ++ m
  | ControlSetupInfoError m => codes "setup-endpoint product-info query failed: " ++ m
  | ControlMirroringError m => codes "mirroring availability query failed: " ++ m
  | UnsupportedControl m => codes "Device control operation is not supported: " ++ m
  | ControlRefused m => codes "Cast receiver control failed: " ++ m
  | ControlClose m => codes "Cast control shutdown failed: " ++ m
  end.

(** Where the code keeps the text of another error, the constructor has the error. *)
Inductive DeviceActorError :=
  | DeviceStopped
  | DeviceRequestInvalid (message : list Z)
  | DeviceMessageInvalid (e : ValidationError)
  | AlreadyPrepared
  | ConnectFailed
  | DeviceInfoFailed (e : DeviceControlError)
  | MirroringAvailabilityFailed (e : DeviceControlError)
  | DeviceIdentityChanged
  | MirroringUnavailable
  | VideoUnavailable
  | IdentityTextInvalid (field : string)
  | CastIdInvalid
  | IdentityInvalid (e : ValidationError)
  | NoSupportedMode
  | NoSupportedVideoProfile
  | NoSupportedAudioProfile
  | CloseFailed (e : DeviceControlError)
  | ShutdownFailed (media : MediaSessionError) (control : DeviceControlError)
  | DeviceMedia (e : MediaSessionError).

Abbreviation device_result := (outcome DeviceActorError).

Inductive DeviceEvent :=
  | DeviceKeyFrame (session_generation media_generation : Z)
  | ControlCompleted (session_generation operation_id : Z) (succeeded : bool) (error_text : list Z).

Record DeviceBitrateRequest := { br_session_generation : Z; br_media_generation : Z; br_bitrate : Z }.

(** ** Identity *)

Definition lowercase (s : list Z) : list Z := (fun c => if (65 <=? c) && (c <=? 90) then c + 32 else c) <$> s.

(** The [uuid:] in front of it, in any case; what is left is read byte by byte. *)
Definition without_uuid (bytes : list Z) : list Z :=
  if is_char_boundary bytes 5 && bool_decide (lowercase (take 5 bytes) = codes "uuid:") then drop 5 bytes else bytes.

Definition normalize_cast_device_id (value : list Z) : device_result (list Z) :=
  let normalized := lowercase (List.filter (fun b => negb (b =? 45)) (without_uuid (utf8 (trim value)))) in
  try? reject (negb (str_len normalized =? 32)%nat || negb (forallb is_hex (utf8 normalized))) CastIdInvalid;
  Ok normalized.

Definition bounded_identity (field : string) (value : list Z) (maximum : nat) : device_result (list Z) :=
  let value := trim value in
  try? reject (bool_decide (value = []) || (maximum <? str_len value)%nat || existsb is_control value)
         (IdentityTextInvalid field);
  Ok value.

(** [Option<Result>::transpose]. *)
Definition transposed {A} (o : option (device_result A)) : device_result (option A) :=
  match o with None => Ok None | Some r => let? x := r in Ok (Some x) end.

Record ControlSetupIdentity := { cs_manufacturer : option (list Z); cs_product_name : option (list Z) }.

Definition usable_setup_info (selected : DeviceRecord) (setup : ControlSetupInfo) : option ControlSetupIdentity :=
  match setup with
  | SetupUnsupported => None
  | SetupAvailable manufacturer product_name ssdp_udn =>
      let validated :=
        try? match ssdp_udn with
             | Some udn =>
                 let? a := normalize_cast_device_id (device_id (dr_info selected)) in
                 let? b := normalize_cast_device_id udn in
                 reject (negb (bool_decide (a = b))) DeviceIdentityChanged
             | None => Ok tt
             end;
        let? m := transposed ((fun v => bounded_identity "manufacturer" v MAX_MANUFACTURER_NAME_BYTES) <$> manufacturer) in
        let? p := transposed ((fun v => bounded_identity "product name" v MAX_PRODUCT_NAME_BYTES) <$> product_name) in
        Ok {| cs_manufacturer := m; cs_product_name := p |} in
      match validated with Ok info => Some info | _ => None end
  end.

(** The product the device itself reports. *)
Definition device_product (info : ControlDeviceInfo) : device_result (option (list Z) * IdentitySource) :=
  let? product := transposed ((fun m => bounded_identity "device model" m MAX_PRODUCT_NAME_BYTES) <$> cd_device_model info) in
  Ok (product, match product with Some _ => AuthenticatedDeviceInfo | None => Absent end).

(** The name of the display, from the setup metadata or from the device. *)
Definition name_parts (setup : option ControlSetupIdentity) (info : ControlDeviceInfo)
  : device_result (option (list Z) * (option (list Z) * IdentitySource)) :=
  match setup with
  | Some s =>
      let? product := match cs_product_name s with
                      | Some p => Ok (Some p, SetupEndpoint)
                      | None => device_product info
                      end in
      Ok (cs_manufacturer s, product)
  | None => let? product := device_product info in Ok (None, product)
  end.

(** What is made of the answers to the three queries. *)
Definition identity_of (selected : DeviceRecord) (device_info : DeviceControlError + ControlDeviceInfo)
    (setup_info : DeviceControlError + ControlSetupInfo) (mirroring : DeviceControlError + MirroringAvailability)
  : device_result DisplayIdentity :=
  let? info := match device_info with inl e => Err (DeviceInfoFailed e) | inr i => Ok i end in
  let setup := match setup_info with inl _ => None | inr s => usable_setup_info selected s end in
  let? mirror := match mirroring with inl e => Err (MirroringAvailabilityFailed e) | inr m => Ok m end in
  let? a := normalize_cast_device_id (device_id (dr_info selected)) in
  let? b := normalize_cast_device_id (cd_device_id info) in
  try? reject (negb (bool_decide (a = b))) DeviceIdentityChanged;
  try? reject (match cd_capabilities info with Some c => Z.land c 1 =? 0 | None => false end) VideoUnavailable;
  try? reject (match mirror with MirrorAvailable => false | MirrorUnavailable => true end) MirroringUnavailable;
  let? parts := name_parts setup info in
  let identity :=
    {| manufacturer_name := parts.1;
       manufacturer_source := match parts.1 with Some _ => SetupEndpoint | None => Absent end;
       product_name := parts.2.1; product_source := parts.2.2; pnp_id := None |} in
  try? omap_err IdentityInvalid (validate_display_identity identity);
  Ok identity.

(** ** Capabilities *)

Definition narrow_opus_profile (p : AudioProfile) : option AudioProfile :=
  if negb (bool_decide (ap_codec p = codes "opus")) || (max_channels p <? 2)
     || negb (bool_decide (OPUS_SAMPLE_RATE ∈ sample_rates p)) then None
  else Some {| ap_profile_id := codes "opus-stereo"; ap_codec := codes "opus"; max_channels := 2;
               sample_rates := [OPUS_SAMPLE_RATE] |}.

Definition narrow_h264_profile (p : VideoProfile) : option VideoProfile :=
  if negb (bool_decide (vp_codec p = codes "h264")) then None
  else Some {| vp_profile_id := vp_profile_id p; vp_codec := vp_codec p; max_width := Z.min (max_width p) 3840;
               max_height := Z.min (max_height p) 2160;
               max_refresh_millihz := Z.min (max_refresh_millihz p) 60000 |}.

Definition sender_modes : list (Z * Z * Z) :=
  [(3840, 2160, 30000); (2560, 1440, 60000); (1920, 1080, 60000); (1600, 900, 60000); (1366, 768, 60000);
   (1280, 720, 60000); (640, 480, 60000)].

Definition supported_sender_mode (m : DisplayMode) : bool :=
  (dm_flags m =? 0) && bool_decide ((dm_width m, dm_height m, dm_refresh_millihz m) ∈ sender_modes).

Definition negotiate_capabilities (r : PreparationRequest) (identity : DisplayIdentity) : device_result DeviceCapabilities :=
  let audio_requested := negb (Z.land (pr_requested_features r) SESSION_FEATURE_AUDIO =? 0) in
  let control_requested := negb (Z.land (pr_requested_features r) SESSION_FEATURE_CONTROL =? 0) in
  let offered := List.filter supported_sender_mode (candidate_modes r) in
  try? reject (bool_decide (offered = [])) NoSupportedMode;
  let video := take 1 (omap narrow_h264_profile (pr_video_profiles r)) in
  try? reject (bool_decide (video = [])) NoSupportedVideoProfile;
  let audio := if audio_requested then take 1 (omap narrow_opus_profile (pr_audio_profiles r)) else [] in
  try? reject (audio_requested && bool_decide (audio = [])) NoSupportedAudioProfile;
  let capabilities :=
    {| preparation_generation := pr_preparation_generation r; display_identity := identity; modes := offered;
       video_profiles := video; audio_profiles := audio;
       features := Z.lor (Z.b2z audio_requested * SESSION_FEATURE_AUDIO)
                         (Z.b2z control_requested * SESSION_FEATURE_CONTROL) |} in
  try? omap_err DeviceMessageInvalid (validate_capabilities capabilities);
  Ok capabilities.

(** ** Error texts *)

Definition trim_end (s : list Z) : list Z := reverse (trim_start (reverse s)).

Definition bounded_control_error (e : DeviceControlError) : list Z :=
  let filtered := trim ((fun c => if is_control c then 32 else c) <$> control_error_text e) in
  let filtered := if bool_decide (filtered = []) then codes "Device control operation failed" else filtered in
  if (str_len filtered <=? MAX_ERROR_TEXT_BYTES)%nat then filtered
  else trim_end (bounded_chars filtered MAX_ERROR_TEXT_BYTES).

(** ** The actor *)

Inductive device_reply :=
  | PreparedReply (r : device_result DeviceCapabilities) | UnitReply (r : device_result unit)
  | ControlReply (r : device_result Z) | StatisticsReply (r : device_result SessionStatistics).

Inductive device_note :=
  | Attempted (endpoint : SocketAddr) | Connected (connection : Z) | Queried (connection : Z) | Closed (connection : Z)
  | Transmitted (connection : Z) (operation : ControlOperation)
  | Replied (reply : device_reply)
  | Emitted (event : DeviceEvent) | EventDropped (event : DeviceEvent)
  | FatalSent (session_generation : Z) (e : MediaSessionError).

Abbreviation device_log := (list device_note).

Class DevicePorts := {
  (* [None] for an error, and for no answer within the attempt's time *)
  connect_port : SocketAddr -> device_log -> option Z;
  device_info_port : device_log -> DeviceControlError + ControlDeviceInfo;
  setup_info_port : device_log -> DeviceControlError + ControlSetupInfo;
  mirroring_port : device_log -> DeviceControlError + MirroringAvailability;
  transmit_port : device_log -> DeviceControlError + unit;
  close_port : device_log -> DeviceControlError + unit;
  (* whether [try_send] finds no place, and whether the receiver is gone *)
  events_full : device_log -> bool;
  events_gone : device_log -> bool }.

Inductive device_life := DeviceRunning | DeviceEnded | DevicePanicked.

Global Instance device_life_eq_dec : EqDecision device_life.
Proof. solve_decision. Defined.

(** The locals of [run_actor] and what they own. *)
Record device_world := {
  d_media : media_world; d_control : option Z; d_next_control : Z; d_feedback_open : bool;
  d_fatal_error : bool; d_bitrate_request : option DeviceBitrateRequest; d_life : device_life;
  d_log : device_log }.

Definition d_set_media (m : media_world) (w : device_world) : device_world :=
  {| d_media := m; d_control := d_control w; d_next_control := d_next_control w;
     d_feedback_open := d_feedback_open w; d_fatal_error := d_fatal_error w;
     d_bitrate_request := d_bitrate_request w; d_life := d_life w; d_log := d_log w |}.
Definition d_set_control (c : option Z) (w : device_world) : device_world :=
  {| d_media := d_media w; d_control := c; d_next_control := d_next_control w;
     d_feedback_open := d_feedback_open w; d_fatal_error := d_fatal_error w;
     d_bitrate_request := d_bitrate_request w; d_life := d_life w; d_log := d_log w |}.
Definition d_set_next (n : Z) (w : device_world) : device_world :=
  {| d_media := d_media w; d_control := d_control w; d_next_control := n;
     d_feedback_open := d_feedback_open w; d_fatal_error := d_fatal_error w;
     d_bitrate_request := d_bitrate_request w; d_life := d_life w; d_log := d_log w |}.
Definition d_set_feedback (open fatal : bool) (b : option DeviceBitrateRequest) (w : device_world) : device_world :=
  {| d_media := d_media w; d_control := d_control w; d_next_control := d_next_control w;
     d_feedback_open := open; d_fatal_error := fatal; d_bitrate_request := b; d_life := d_life w;
     d_log := d_log w |}.
Definition d_set_life (l : device_life) (w : device_world) : device_world :=
  {| d_media := d_media w; d_control := d_control w; d_next_control := d_next_control w;
     d_feedback_open := d_feedback_open w; d_fatal_error := d_fatal_error w;
     d_bitrate_request := d_bitrate_request w; d_life := l; d_log := d_log w |}.
Definition d_add (n : device_note) (w : device_world) : device_world :=
  {| d_media := d_media w; d_control := d_control w; d_next_control := d_next_control w;
     d_feedback_open := d_feedback_open w; d_fatal_error := d_fatal_error w;
     d_bitrate_request := d_bitrate_request w; d_life := d_life w; d_log := d_log w ++ [n] |}.

Abbreviation dev A := (actor device_world A).

Definition device : dev device_world := fun w => (w, w).
Definition d_update (f : device_world -> device_world) : dev unit := fun w => (tt, f w).
Definition note (n : device_note) : dev unit := d_update (d_add n).
Definition d_ask {A} (n : device_note) (answer : device_log -> A) : dev A :=
  fun w => (answer (d_log w), d_add n w).
Definition on_media {A} (m : med A) : dev (device_result A) :=
  fun w => let '(r, mw) := m (d_media w) in (omap_err DeviceMedia r, d_set_media mw w).

Section Device.
Context `{P : MediaPorts} `{D : DevicePorts}.

Fixpoint connect_to (endpoints : list SocketAddr) : dev (device_result Z) :=
  match endpoints with
  | [] => aret (Err ConnectFailed)
  | endpoint :: endpoints =>
      let* connected := d_ask (Attempted endpoint) (connect_port endpoint) in
      match connected with
      | Some connection => do* note (Connected connection); aret (Ok connection)
      | None => connect_to endpoints
      end
  end.

Definition connect (selected : DeviceRecord) : dev (device_result Z) :=
  connect_to (take MAX_CONNECTION_ATTEMPTS (dr_endpoints selected)).

Definition close_connection (connection : Z) : dev (DeviceControlError + unit) := d_ask (Closed connection) close_port.

Definition query_identity (selected : DeviceRecord) (connection : Z) : dev (device_result DisplayIdentity) :=
  d_ask (Queried connection) (fun log =>
    identity_of selected (device_info_port log) (setup_info_port log) (mirroring_port log)).

Definition prepare_device (selected : DeviceRecord) (allowed_features : Z) (r : PreparationRequest)
  : dev (device_result DeviceCapabilities) :=
  let* w := device in
  let checked :=
    try? omap_err DeviceMessageInvalid (validate_preparation_request r);
    try? reject (negb (Z.land (pr_requested_features r) (Z.ldiff u64_MAX allowed_features) =? 0))
           (DeviceRequestInvalid (codes "preparation requests features absent from SessionOptions"));
    reject (negb (bool_decide (me_state (w_session (d_media w)) = StateCreated))) AlreadyPrepared in
  match checked with
  | Err e => aret (Err e)
  | Panic => aret Panic
  | Ok _ =>
      let* connected := connect selected in
      match connected with
      | Err e => aret (Err e)
      | Panic => aret Panic
      | Ok connection =>
          let* identity := query_identity selected connection in
          match (let? i := identity in negotiate_capabilities r i) with
          | Err e => do* close_connection connection; aret (Err e)
          | Panic => aret Panic
          | Ok capabilities =>
              let* completed := on_media (complete_preparation capabilities) in
              match completed with
              | Err e => do* close_connection connection; aret (Err e)
              | Panic => aret Panic
              | Ok _ => do* d_update (d_set_control (Some connection)); aret (Ok capabilities)
              end
          end
      end
  end.

(** What needs the connection, and fails without one. *)
Definition with_control {A} (operation : string) (m : med A) : dev (device_result A) :=
  let* w := device in
  match d_control w with
  | Some _ => on_media m
  | None => aret (Err (DeviceRequestInvalid (codes operation ++ codes " requires a prepared device connection")))
  end.

Definition admit_control (allowed_features : Z) (o : ControlOperation) : dev (device_result Z) :=
  let* w := device in
  let session_generation := me_session_generation (w_session (d_media w)) in
  let checked :=
    try? omap_err DeviceMessageInvalid (validate_control o);
    try? reject (Z.land allowed_features SESSION_FEATURE_CONTROL =? 0)
           (DeviceRequestInvalid (codes "control was not requested for this Device session"));
    try? reject (negb (co_session_generation o =? session_generation))
           (DeviceRequestInvalid (codes "control session generation " ++ display_uint (co_session_generation o)
                                  ++ codes " differs from " ++ display_uint session_generation));
    try? reject (negb (bool_decide (is_Some (d_control w))))
           (DeviceRequestInvalid (codes "TransmitControl requires a prepared Device connection"));
    reject (d_next_control w =? u64_MAX) (DeviceRequestInvalid (codes "control operation IDs are exhausted")) in
  match checked with
  | Err e => aret (Err e)
  | Panic => aret Panic
  | Ok _ => do* d_update (d_set_next (d_next_control w + 1)); aret (Ok (d_next_control w))
  end.

(** [events.send(event).await] *)
Definition emit (event : DeviceEvent) : dev unit :=
  let* w := device in
  note (if events_gone (d_log w) then EventDropped event else Emitted event).

(** [events.try_send(event)] *)
Definition try_emit (event : DeviceEvent) : dev unit :=
  let* w := device in
  note (if events_gone (d_log w) || events_full (d_log w) then EventDropped event else Emitted event).

Definition complete_control (operation_id : Z) (o : ControlOperation) : dev unit :=
  let* w := device in
  match d_control w with
  | None => d_update (d_set_life DevicePanicked)
  | Some connection =>
      let* r := d_ask (Transmitted connection o) transmit_port in
      let session_generation := me_session_generation (w_session (d_media w)) in
      emit (match r with
            | inr _ => ControlCompleted session_generation operation_id true []
            | inl e => ControlCompleted session_generation operation_id false (bounded_control_error e)
            end)
  end.

Fixpoint forward_media_events (events : list MediaSessionEvent) : dev unit :=
  match events with
  | [] => aret tt
  | KeyFrameRequested session media :: events => do* try_emit (DeviceKeyFrame session media); forward_media_events events
  | BitrateRequested session media bitrate :: events =>
      do* d_update (fun w => d_set_feedback (d_feedback_open w) (d_fatal_error w)
            (Some {| br_session_generation := session; br_media_generation := media; br_bitrate := bitrate |}) w);
      forward_media_events events
  end.

Definition close_control : dev (device_result unit) :=
  let* w := device in
  match d_control w with
  | None => aret (Ok tt)
  | Some connection =>
      do* d_update (d_set_control None);
      let* r := close_connection connection in
      aret (match r with inl e => Err (CloseFailed e) | inr _ => Ok tt end)
  end.

Definition shutdown_device : dev (device_result unit) :=
  let* media := on_media shutdown in
  let* control := close_control in
  aret (match media, control with
        | Panic, _ | _, Panic => Panic
        | Ok _, Ok _ => Ok tt
        | Err e, Ok _ | Ok _, Err e => Err e
        | Err (DeviceMedia m), Err (CloseFailed c) => Err (ShutdownFailed m c)
        | Err e, Err _ => Err e
        end).

(** The media session's panics are the actor's. *)
Definition answer {A} (reply : device_result A -> device_reply) (m : dev (device_result A)) : dev unit :=
  let* r := m in
  match r with Panic => d_update (d_set_life DevicePanicked) | _ => note (Replied (reply r)) end.

Inductive device_input :=
  | InPrepare (r : PreparationRequest)
  | InConfigure (remotes : list Z) (targets : list PipeWireTarget) (c : MediaConfiguration) (generation : Z)
  | InStart (generation : Z) | InSuspend | InResume (generation : Z) | InStop (generation : Z)
  | InTransmit (o : ControlOperation) (caller_gone : bool)
  | InStatistics | InShutdown
  | InHandlesGone
  | InFeedback (f : SenderFeedback) | InFeedbackClosed.

(** After the loop: what is left is shut down, and nobody asks how that went. *)
Definition leave (m : dev (device_result unit)) : dev unit :=
  let* r := m in d_update (d_set_life (match r with Panic => DevicePanicked | _ => DeviceEnded end)).

Definition on_feedback (f : SenderFeedback) : dev unit :=
  let* r := on_media (handle_feedback f) in
  match r with
  | Ok events => forward_media_events events
  | Panic => d_update (d_set_life DevicePanicked)
  | Err e =>
      let* w := device in
      do* (if d_fatal_error w then
             do* (match e with
                  | DeviceMedia e => note (FatalSent (me_session_generation (w_session (d_media w))) e)
                  | _ => aret tt
                  end);
             d_update (fun w => d_set_feedback (d_feedback_open w) false (d_bitrate_request w) w)
           else aret tt);
      leave shutdown_device
  end.

(** One turn of the loop; what is asked of an actor that has ended is never
    answered. *)
Definition device_step (selected : DeviceRecord) (allowed_features : Z) (i : device_input) : dev unit :=
  let* w := device in
  if negb (bool_decide (d_life w = DeviceRunning)) then aret tt else
  match i with
  | InPrepare r => answer PreparedReply (prepare_device selected allowed_features r)
  | InConfigure remotes targets c generation =>
      answer UnitReply (with_control "ConfigureMedia" (configure remotes targets c generation))
  | InStart generation => answer UnitReply (on_media (start generation))
  | InSuspend => answer UnitReply (on_media suspend)
  | InResume generation => answer UnitReply (on_media (resume generation))
  | InStop generation => answer UnitReply (with_control "StopMedia" (stop_media generation))
  | InTransmit o caller_gone =>
      let* r := admit_control allowed_features o in
      match r with
      | Ok operation_id =>
          if caller_gone : bool then aret tt
          else do* note (Replied (ControlReply r)); complete_control operation_id o
      | Err _ => note (Replied (ControlReply r))
      | Panic => d_update (d_set_life DevicePanicked)
      end
  | InStatistics => answer StatisticsReply (on_media statistics)
  | InShutdown =>
      let* r := shutdown_device in
      match r with
      | Panic => d_update (d_set_life DevicePanicked)
      | _ => do* note (Replied (UnitReply r)); d_update (d_set_life DeviceEnded)
      end
  | InHandlesGone => leave shutdown_device
  | InFeedback f => if d_feedback_open w then on_feedback f else aret tt
  | InFeedbackClosed => d_update (fun w => d_set_feedback false (d_fatal_error w) (d_bitrate_request w) w)
  end.

Definition device_run (selected : DeviceRecord) (allowed_features : Z) (w : device_world) (inputs : list device_input)
  : device_world :=
  foldl (fun w i => (device_step selected allowed_features i w).2) w inputs.

(** [DeviceActor::spawn]. *)
Definition device_start (id : list Z) (session_generation : Z) (video : channel EncodedVideoAccessUnit)
    (audio : channel EncodedAudioPacket) : device_world :=
  {| d_media := media_start id session_generation video audio; d_control := None; d_next_control := 1;
     d_feedback_open := true; d_fatal_error := true; d_bitrate_request := None; d_life := DeviceRunning;
     d_log := [] |}.

End Device.

(** ** Connections and preparation stay in step *)

Section Invariant.
Context `{P : MediaPorts} `{D : DevicePorts}.
Context (selected : DeviceRecord) (allowed_features : Z).

Definition connection_note (n : device_note) : option port_note :=
  match n with
  | Connected c => Some (PortTaken c)
  | Queried c | Transmitted c _ => Some (PortUsed c)
  | Closed c => Some (PortShut c)
  | _ => None
  end.

Definition connection_notes (log : device_log) : list port_note := omap connection_note log.
Definition opened (log : device_log) : list Z := omap (fun n => match n with Connected c => Some c | _ => None end) log.

(** What was opened is held, or was let go, as long as no connection is opened twice. *)
Definition held_as (held : option Z) (w : device_world) : Prop :=
  NoDup (opened (d_log w)) -> owned (opened (d_log w)) (connection_notes (d_log w)) held true.

Definition created (w : device_world) : Prop := me_state (w_session (d_media w)) = StateCreated.

Record live_as (held : option Z) (w : device_world) : Prop := {
  la_running : d_life w = DeviceRunning;
  la_media : media_inv (d_media w);
  la_held : held_as held w }.

Record live_ok (w : device_world) : Prop := {
  lo_live : live_as (d_control w) w;
  lo_prepared : d_control w = None <-> created w }.

Definition device_inv (w : device_world) : Prop :=
  match d_life w with
  | DeviceRunning => live_ok w
  | DeviceEnded => d_control w = None /\ me_state (w_session (d_media w)) = StateStopped /\ media_inv (d_media w)
                   /\ held_as None w
  | DevicePanicked => True
  end.

Lemma held_quiet n held w : connection_note n = None -> held_as held w -> held_as held (d_add n w).
Proof.
  unfold held_as, opened, connection_notes. cbn. rewrite !omap_app. cbn. intros Hn H.
  destruct n; try done; cbn; by rewrite !app_nil_r.
Qed.

Lemma held_used n c w : connection_note n = Some (PortUsed c) -> held_as (Some c) w -> held_as (Some c) (d_add n w).
Proof.
  unfold held_as, opened, connection_notes. cbn. rewrite !omap_app. cbn. intros Hn H.
  destruct n; try done; cbn; injection Hn as ->; rewrite app_nil_r; intros Hd; (eapply owned_used; [by apply H| |done]);
    repeat constructor; by exists c.
Qed.

Lemma held_closed c w : held_as (Some c) w -> held_as None (d_add (Closed c) w).
Proof.
  unfold held_as, opened, connection_notes. cbn. rewrite !omap_app. cbn. rewrite app_nil_r. intros H Hd.
  by apply (owned_let_go _ _ (Some c) true), H.
Qed.

Lemma held_connected c w : held_as None w -> held_as (Some c) (d_add (Connected c) w).
Proof.
  unfold held_as, opened, connection_notes. cbn. rewrite !omap_app. cbn. intros H Hd.
  apply NoDup_app in Hd as (Hd & Hc & _). apply owned_took; [by apply H|]. intros Hin. apply (Hc c); [done|]. by left.
Qed.

Lemma live_note n held w : connection_note n = None -> live_as held w -> live_as held (d_add n w).
Proof. intros Hn [H1 H2 H3]. split; [done|done|by apply held_quiet]. Qed.

Lemma ok_note n : connection_note n = None -> runs (note n) live_ok (fun _ => live_ok).
Proof. intros Hn w [H1 H2]. split; [by apply live_note|done]. Qed.

Lemma inv_note n : connection_note n = None -> runs (note n) live_ok (fun _ => device_inv).
Proof. intros Hn w H. pose proof (ok_note n Hn w H) as H'. unfold device_inv. by rewrite (la_running _ _ (lo_live _ H')). Qed.

Lemma live_inv w : live_ok w -> device_inv w.
Proof. intros H. unfold device_inv. by rewrite (la_running _ _ (lo_live _ H)). Qed.

Lemma inv_panicked : runs (d_update (d_set_life DevicePanicked)) (fun _ => True) (fun _ => device_inv).
Proof. by intros w _. Qed.

(** *** Calls of the media session *)

Definition stays_created {A} (m : med A) : Prop :=
  forall w, media_inv w -> media_inv (m w).2 /\
    (me_state (w_session (m w).2) = StateCreated <-> me_state (w_session w) = StateCreated).

Lemma on_media_ok {A} (m : med A) : stays_created m -> runs (on_media m) live_ok (fun _ => live_ok).
Proof.
  intros Hm w [[H1 H2 H3] H4]. destruct (Hm _ H2) as [Hi Hc]. unfold on_media. destruct (m (d_media w)) as [r mw].
  cbn in *. split; [by split|]. unfold created in *. cbn. by rewrite Hc.
Qed.

Lemma with_control_ok {A} operation (m : med A) :
  (forall w, media_inv w -> me_state (w_session w) <> StateCreated ->
     media_inv (m w).2 /\ me_state (w_session (m w).2) <> StateCreated) ->
  runs (with_control operation m) live_ok (fun _ => live_ok).
Proof.
  intros Hm w Hw. unfold with_control, abind, device. pose proof Hw as [[H1 H2 H3] H4].
  destruct (d_control w) as [c|] eqn:Hc; [|done].
  destruct (Hm (d_media w) H2) as [Hi Hs]; [by intros H%H4|]. unfold on_media. destruct (m (d_media w)) as [r mw].
  cbn in *. split; [split; cbn; by rewrite ?Hc|]. unfold created. cbn. by rewrite Hc.
Qed.

Lemma answer_ok {A} (reply : device_result A -> device_reply) (m : dev (device_result A)) :
  runs m live_ok (fun r w => r = Panic \/ live_ok w) -> runs (answer reply m) live_ok (fun _ => device_inv).
Proof.
  intros Hm. unfold answer. eapply runs_bind; [exact Hm|]. intros [x|e|].
  - intros w [H|H]; [done|]. by apply inv_note.
  - intros w [H|H]; [done|]. by apply inv_note.
  - eapply runs_pre; [apply inv_panicked|done].
Qed.

Lemma answer_keeps {A} (reply : device_result A -> device_reply) (m : dev (device_result A)) :
  runs m live_ok (fun _ => live_ok) -> runs (answer reply m) live_ok (fun _ => device_inv).
Proof. intros Hm. apply answer_ok. eapply runs_post; [exact Hm|]. intros r w. by right. Qed.


Lemma outcome_created (m : med unit) st :
  (forall s, runs m (fun w => w_session w = s) (outcome_of (set_state st) s)) -> st <> StateCreated ->
  (forall w, me_state (w_session w) = StateCreated -> (m w).1 <> Ok tt) ->
  (forall w, media_inv w -> media_inv (m w).2) -> stays_created m.
Proof.
  intros Ho Hst Hr Hi w Hw. split; [by apply Hi|]. specialize (Ho _ w eq_refl). specialize (Hr w).
  destruct (m w) as [r w']. cbn in *. destruct Ho as [[-> ->]|[_ ->]]; [|done]. cbn. naive_solver.
Qed.

Lemma created_requires operation g required (k : unit -> med unit) w :
  me_state (w_session w) = StateCreated -> required <> StateCreated ->
  (mbind (require_generation operation g required) k w).1 <> Ok tt.
Proof.
  intros H1 H2. unfold require_generation, mbind, abind, session, require. rewrite H1, bool_decide_eq_false_2 by congruence.
  done.
Qed.

Lemma start_created g : stays_created (start g).
Proof.
  apply (outcome_created _ StateStreaming); [by apply start_outcome|done| |exact (backend_keeps (OpStart g))].
  intros w H. by apply created_requires.
Qed.

Lemma resume_created g : stays_created (resume g).
Proof.
  apply (outcome_created _ StateStreaming); [by apply resume_outcome|done| |exact (backend_keeps (OpResume g))].
  intros w H. by apply created_requires.
Qed.

Lemma suspend_created : stays_created suspend.
Proof.
  apply (outcome_created _ StateSuspended); [by apply suspend_outcome|done| |exact (backend_keeps OpSuspend)].
  intros w H. unfold suspend, abind at 1, session. rewrite H, bool_decide_eq_false_2 by done. done.
Qed.

Lemma kept_dropped {A} (m : med A) w :
  media_inv ((let* r := m in aret (dropped_value r)) w).2 -> media_inv (m w).2.
Proof. unfold abind. by destruct (m w). Qed.

Lemma same_created {A} (m : med A) :
  (forall s, runs m (fun w => same_session s (w_session w)) (fun _ w => same_session s (w_session w))) ->
  (forall w, media_inv w -> media_inv (m w).2) -> stays_created m.
Proof.
  intros Hs Hi w Hw. split; [by apply Hi|]. destruct (Hs (w_session w) w) as (E & _); [done|]. by rewrite E.
Qed.

Lemma statistics_created : stays_created statistics.
Proof.
  apply same_created; [apply statistics_same|]. intros w Hw. by apply kept_dropped, (backend_keeps OpStatistics).
Qed.

Lemma feedback_created f : stays_created (handle_feedback f).
Proof.
  apply same_created; [apply feedback_same|]. intros w Hw. by apply kept_dropped, (backend_keeps (OpFeedback f)).
Qed.

Lemma configure_prepared remotes targets c g w :
  media_inv w -> me_state (w_session w) <> StateCreated ->
  media_inv (configure remotes targets c g w).2 /\ me_state (w_session (configure remotes targets c g w).2) <> StateCreated.
Proof.
  intros Hi Hs. split; [by apply (backend_keeps (OpConfigure remotes targets c g))|].
  destruct (configure_outcome remotes targets c g (w_session w) w eq_refl) as [[_ ->]|[(E & _) _]]; [done|by rewrite E].
Qed.

Lemma stop_prepared g w :
  media_inv w -> me_state (w_session w) <> StateCreated ->
  media_inv (stop_media g w).2 /\ me_state (w_session (stop_media g w).2) <> StateCreated.
Proof.
  intros Hi Hs. split; [by apply (backend_keeps (OpStop g))|].
  destruct (stop_outcome g (w_session w) w eq_refl) as [[_ ->]|(E & _)]; [done|by rewrite E].
Qed.

(** *** Preparation *)

Lemma live_media held w mw : live_as held w -> media_inv mw -> live_as held (d_set_media mw w).
Proof. by intros [H1 H2 H3] Hi. Qed.

Definition fresh (w : device_world) : Prop := d_control w = None /\ created w.

Lemma connect_to_ok endpoints :
  runs (connect_to endpoints) (fun w => live_as None w /\ fresh w) (fun r w =>
    match r with Ok c => live_as (Some c) w | Err _ => live_as None w | Panic => False end /\ fresh w).
Proof.
  induction endpoints as [|e endpoints IH]; [by apply runs_ret|]. cbn [connect_to].
  eapply runs_bind with (Q := fun _ w => live_as None w /\ fresh w).
  { intros w [H1 H2]. split; [by apply live_note|done]. }
  intros [c|]; [|exact IH]. eapply runs_bind with (Q := fun _ w => live_as (Some c) w /\ fresh w).
  { intros w [[H1 H2 H3] H4]. split; [|done]. split; [done|done|by apply held_connected]. }
  intros _. by apply runs_ret.
Qed.

Lemma closing_ok {A} c (e : DeviceActorError) :
  runs (do* close_connection c; aret (Err (A:=A) e)) (fun w => live_as (Some c) w /\ fresh w) (fun _ => live_ok).
Proof.
  intros w [[H1 H2 H3] [H4 H5]]. cbn. split; cbn; [|done]. rewrite H4. split; [done|done|by apply held_closed].
Qed.

Lemma complete_created c w :
  media_inv w -> me_state (w_session w) = StateCreated ->
  media_inv (complete_preparation c w).2 /\
  match (complete_preparation c w).1 with
  | Ok _ => me_state (w_session (complete_preparation c w).2) = StatePrepared
  | Err _ => me_state (w_session (complete_preparation c w).2) = StateCreated
  | Panic => True
  end.
Proof.
  intros Hi Hs. split; [by apply (backend_keeps (OpPrepare c))|]. unfold complete_preparation, mbind, abind, session, require.
  rewrite Hs, bool_decide_eq_true_2 by done. cbn. by destruct (validate_capabilities c).
Qed.

Lemma prepare_device_ok r :
  runs (prepare_device selected allowed_features r) live_ok (fun r w => r = Panic \/ live_ok w).
Proof.
  unfold prepare_device. eapply runs_bind with (Q := fun w' w => w' = w /\ live_ok w); [done|]. intros w0.
  destruct (obind _ _) as [[]|e|] eqn:Hc; [|apply runs_ret; intros w [_ H]; by right|by apply runs_ret; left].
  eapply runs_bind with (Q := fun r w => match r with Ok c => live_as (Some c) w | Err _ => live_as None w | Panic => False end /\ fresh w).
  { eapply runs_pre; [apply connect_to_ok|]. intros w [-> [H1 H2]].
    apply query_seq_ok in Hc as (_ & _ & Hc). apply reject_seq_ok in Hc as [_ Hc].
    apply reject_ok, negb_false_iff, bool_decide_eq_true_1 in Hc. assert (Hn : d_control w = None) by by apply H2.
    rewrite Hn in H1. by split. }
  intros [c|e|].
  2: { apply runs_ret. intros w [H1 [H2 H3]]. right. split; [by rewrite H2|by split]. }
  2: { apply runs_ret. by intros w []. }
  eapply runs_bind with (Q := fun _ w => live_as (Some c) w /\ fresh w).
  { intros w [[H1 H2 H3] H4]. split; [|done]. split; [done|done|by apply held_used]. }
  intros identity. destruct (obind identity _) as [capabilities|e|].
  2: { eapply runs_post; [apply closing_ok|]. intros r' w. by right. }
  2: { apply runs_ret. by left. }
  eapply runs_bind with (Q := fun r w => live_as (Some c) w /\ d_control w = None /\
      match r with Ok _ => ~ created w | Err _ => created w | Panic => True end).
  { intros w [[H1 H2 H3] [H4 H5]]. destruct (complete_created capabilities (d_media w) H2 H5) as [Hi Hr].
    unfold on_media. destruct (complete_preparation _ _) as [r' mw]. cbn in Hi, Hr |- *. split; [by split|]. split; [done|].
    destruct r'; cbn; unfold created; cbn; by rewrite ?Hr. }
  intros [[]|e|]; [|eapply runs_pre; [eapply runs_post; [apply closing_ok|intros ? ? ?; by right]|]|by apply runs_ret; left].
  - intros w ([H1 H2 H3] & _ & H5). right. cbn. split; [by split|]. split; [done|]. by intros H%H5.
  - intros w (H1 & H2 & H3). by split.
Qed.

(** *** The rest of the loop *)

Lemma admit_ok o : runs (admit_control allowed_features o) live_ok (fun r w => live_ok w /\ (is_ok r = true -> is_Some (d_control w))).
Proof.
  intros w Hw. unfold admit_control, abind, device.
  destruct (obind _ _) as [[]|e|] eqn:Hc; [|by split..].
  apply query_seq_ok in Hc as (_ & _ & Hc). do 2 apply reject_seq_ok in Hc as [_ Hc]. apply reject_seq_ok in Hc as [Hc _].
  apply negb_false_iff, bool_decide_eq_true_1 in Hc. cbn. split; [|done]. destruct Hw as [[H1 H2 H3] H4]. by split.
Qed.

Lemma event_ok (gone : device_log -> bool) event :
  runs (let* w := device in note (if gone (d_log w) then EventDropped event else Emitted event)) live_ok (fun _ => live_ok).
Proof. intros w Hw. unfold abind, device. destruct (gone _); by apply ok_note. Qed.

Lemma complete_control_ok id o :
  runs (complete_control id o) (fun w => live_ok w /\ is_Some (d_control w)) (fun _ => live_ok).
Proof.
  intros w [[[H1 H2 H3] H4] [c Hc]]. unfold complete_control, abind at 1, device. rewrite Hc in *.
  assert (Hw : live_ok (d_add (Transmitted c o) w)).
  { split; cbn; rewrite ?Hc; [|done]. split; [done|done|by apply held_used]. }
  unfold abind at 1, d_ask. destruct (transmit_port (d_log w)); by apply (event_ok events_gone).
Qed.

Lemma forward_events_ok events : runs (forward_media_events events) live_ok (fun _ => live_ok).
Proof.
  induction events as [|[s g|s g b] events IH]; cbn [forward_media_events]; [by apply runs_ret|..].
  - eapply runs_bind; [|intros ?; exact IH]. apply (event_ok (fun log => events_gone log || events_full log)).
  - eapply runs_bind; [|intros ?; exact IH]. intros w [[H1 H2 H3] H4]. by split.
Qed.

(** Nothing is left. *)
Definition left_over (w : device_world) : Prop :=
  d_control w = None /\ me_state (w_session (d_media w)) = StateStopped /\ media_inv (d_media w) /\ held_as None w.

Lemma shutdown_stops w : media_inv w -> media_inv (shutdown w).2 /\ me_state (w_session (shutdown w).2) = StateStopped.
Proof.
  intros Hi. split; [by apply (backend_keeps OpShutdown)|]. destruct Hi as (v & a & Hw & Hs).
  destruct (shutdown_rule _ v a Hs w Hw) as [E _]. by rewrite E.
Qed.

Lemma shutdown_device_ok : runs shutdown_device live_ok (fun _ => left_over).
Proof.
  intros w [[H1 H2 H3] H4]. destruct (shutdown_stops _ H2) as [Hi Hs]. unfold shutdown_device, abind at 1, on_media.
  destruct (shutdown (d_media w)) as [r mw]. cbn in Hi, Hs. unfold close_control, abind, device, d_update, close_connection, d_ask.
  cbn. destruct (d_control w) as [c|] eqn:Hc; cbn; [|done]. split; [done|]. split; [done|]. split; [done|]. by apply held_closed.
Qed.

Lemma leave_ok : runs (leave shutdown_device) live_ok (fun _ => device_inv).
Proof.
  eapply runs_bind; [apply shutdown_device_ok|]. intros r w Hw. destruct r; [exact Hw|exact Hw|done].
Qed.

Lemma on_feedback_ok f : runs (on_feedback f) live_ok (fun _ => device_inv).
Proof.
  unfold on_feedback. eapply runs_bind; [apply on_media_ok, feedback_created|]. intros [events|e|].
  - eapply runs_post; [apply forward_events_ok|]. intros ? w. apply live_inv.
  - eapply runs_bind with (Q := fun _ => live_ok); [by intros w|]. intros w0.
    eapply runs_bind with (Q := fun _ => live_ok); [|intros ?; apply leave_ok].
    destruct (d_fatal_error w0); [|by apply runs_ret]. eapply runs_bind with (Q := fun _ => live_ok).
    { destruct e; try (by apply runs_ret). by apply ok_note. }
    intros _ w [[H1 H2 H3] H4]. by split.
  - eapply runs_pre; [apply inv_panicked|done].
Qed.

Lemma transmit_ok o (gone : bool) :
  runs (let* r := admit_control allowed_features o in
        match r with
        | Ok operation_id =>
            if gone then aret tt
            else do* note (Replied (ControlReply r)); complete_control operation_id o
        | Err _ => note (Replied (ControlReply r))
        | Panic => d_update (d_set_life DevicePanicked)
        end) live_ok (fun _ => device_inv).
Proof.
  eapply runs_bind; [apply admit_ok|]. intros [id|e|].
  - destruct gone; [apply runs_ret; intros w [Hw _]; by apply live_inv|].
    eapply runs_bind with (Q := fun _ w => live_ok w /\ is_Some (d_control w)).
    { intros w [Hw Hc]. split; [by apply ok_note|by apply Hc]. }
    intros _. eapply runs_post; [apply complete_control_ok|]. intros ? w. apply live_inv.
  - eapply runs_pre; [by apply inv_note|]. by intros w [].
  - eapply runs_pre; [apply inv_panicked|done].
Qed.

Lemma device_step_ok i : runs (device_step selected allowed_features i) device_inv (fun _ => device_inv).
Proof.
  intros w Hw. unfold device_step, abind at 1, device. destruct (bool_decide (d_life w = DeviceRunning)) eqn:Hr; [|done].
  apply bool_decide_eq_true_1 in Hr. cbn [negb]. unfold device_inv in Hw. rewrite Hr in Hw. revert w Hr Hw.
  assert (Hgo : forall m : device_world -> dev unit, (forall w', runs (m w') live_ok (fun _ => device_inv)) ->
    forall w, d_life w = DeviceRunning -> live_ok w -> device_inv (m w w).2) by (intros m Hm w _ Hw; by apply Hm).
  apply (Hgo (fun w => match i with InPrepare _ => _ | _ => _ end)). intros w'. destruct i.
  - by apply answer_ok, prepare_device_ok.
  - apply answer_keeps, with_control_ok. intros ?. apply configure_prepared.
  - by apply answer_keeps, on_media_ok, start_created.
  - by apply answer_keeps, on_media_ok, suspend_created.
  - by apply answer_keeps, on_media_ok, resume_created.
  - apply answer_keeps, with_control_ok. intros ?. apply stop_prepared.
  - apply transmit_ok.
  - by apply answer_keeps, on_media_ok, statistics_created.
  - eapply runs_bind; [apply shutdown_device_ok|]. intros [[]|e|]; [| |eapply runs_pre; [apply inv_panicked|done]].
    + intros w (H1 & H2 & H3 & H4). split; [done|]. split; [done|]. split; [done|]. by apply held_quiet.
    + intros w (H1 & H2 & H3 & H4). split; [done|]. split; [done|]. split; [done|]. by apply held_quiet.
  - apply leave_ok.
  - destruct (d_feedback_open w'); [apply on_feedback_ok|]. apply runs_ret. intros ?. apply live_inv.
  - intros w [[H1 H2 H3] H4]. apply live_inv. by split.
Qed.

Lemma device_run_inv w inputs : device_inv w -> device_inv (device_run selected allowed_features w inputs).
Proof.
  revert w. induction inputs as [|i inputs IH]; intros w Hw; [done|]. cbn. by apply IH, device_step_ok.
Qed.

Lemma device_start_inv id g video audio : device_inv (device_start id g video audio).
Proof.
  apply live_inv. split; [|done]. split; [done|apply media_start_inv|]. intros _. apply owned_start.
Qed.

(** ** Control operations *)

Definition accepted_note (n : device_note) : option Z :=
  match n with Replied (ControlReply (Ok id)) => Some id | _ => None end.
Definition completed_note (n : device_note) : option (Z * bool * list Z) :=
  match n with
  | Emitted (ControlCompleted _ id ok text) | EventDropped (ControlCompleted _ id ok text) => Some (id, ok, text)
  | _ => None
  end.

(** The operations that were accepted, and how they were said to have ended. *)
Definition accepted (log : device_log) : list Z := omap accepted_note log.
Definition completed (log : device_log) : list (Z * bool * list Z) := omap completed_note log.

Definition unheard_note (n : device_note) : Prop := accepted_note n = None /\ completed_note n = None.

Definition unheard {A} (m : dev A) : Prop :=
  forall w, d_next_control (m w).2 = d_next_control w /\ accepted (d_log (m w).2) = accepted (d_log w) /\
    completed (d_log (m w).2) = completed (d_log w).

Lemma unheard_add n : unheard_note n -> forall w,
  accepted (d_log (d_add n w)) = accepted (d_log w) /\ completed (d_log (d_add n w)) = completed (d_log w).
Proof. intros [H1 H2] w. unfold accepted, completed. cbn. rewrite !omap_app. cbn. by rewrite H1, H2, !app_nil_r. Qed.

Lemma unheard_ret {A} (x : A) : unheard (aret x).
Proof. done. Qed.
Lemma unheard_bind {A B} (m : dev A) (k : A -> dev B) : unheard m -> (forall x, unheard (k x)) -> unheard (abind m k).
Proof.
  intros Hm Hk w. unfold abind. destruct (Hm w) as (E1 & E2 & E3). destruct (m w) as [x w'].
  destruct (Hk x w') as (F1 & F2 & F3). cbn in *. split_and!; congruence.
Qed.
Lemma unheard_device : unheard device.
Proof. done. Qed.
Lemma unheard_ask {A} n (answer : device_log -> A) : unheard_note n -> unheard (d_ask n answer).
Proof. intros Hn w. destruct (unheard_add n Hn w) as [E1 E2]. by split_and!. Qed.
Lemma unheard_noted n : unheard_note n -> unheard (note n).
Proof. intros Hn w. destruct (unheard_add n Hn w) as [E1 E2]. by split_and!. Qed.
Lemma unheard_media {A} (m : med A) : unheard (on_media m).
Proof. intros w. unfold on_media. by destruct (m (d_media w)). Qed.
Lemma unheard_update f :
  (forall w, d_next_control (f w) = d_next_control w) -> (forall w, d_log (f w) = d_log w) -> unheard (d_update f).
Proof. intros H1 H2 w. cbn. by rewrite H1, H2. Qed.

Hint Resolve unheard_ret unheard_device unheard_media : unheard.

Ltac unheard :=
  repeat first [progress eauto with unheard nocore | apply unheard_bind; [|intros ?] | apply unheard_ask; done
    | apply unheard_noted; done | apply unheard_update; done | case_match].

Lemma unheard_connect_to endpoints : unheard (connect_to endpoints).
Proof. induction endpoints as [|e endpoints IH]; cbn [connect_to]; unheard. Qed.

Lemma unheard_answer {A} (reply : device_result A -> device_reply) (m : dev (device_result A)) :
  (forall r, accepted_note (Replied (reply r)) = None) -> unheard m -> unheard (answer reply m).
Proof.
  intros Hr Hm. unfold answer. apply unheard_bind; [done|].
  intros [x|e|]; [by apply unheard_noted|by apply unheard_noted|by apply unheard_update].
Qed.

Lemma unheard_prepare r : unheard (prepare_device selected allowed_features r).
Proof.
  unfold prepare_device, connect, query_identity, close_connection. apply unheard_bind; [done|]. intros w.
  case_match; [|unheard..]. apply unheard_bind; [apply unheard_connect_to|]. intros [c|e|]; [|unheard..].
  apply unheard_bind; [by apply unheard_ask|]. intros i. destruct (obind i _); unheard.
Qed.

Lemma unheard_with_control {A} operation (m : med A) : unheard (with_control operation m).
Proof. unfold with_control. unheard. Qed.

Lemma unheard_forward events : unheard (forward_media_events events).
Proof. induction events as [|[s g|s g b] events IH]; cbn [forward_media_events]; unfold try_emit; unheard. Qed.

Lemma unheard_shutdown : unheard shutdown_device.
Proof. unfold shutdown_device, close_control, close_connection. unheard. Qed.

Lemma unheard_feedback f : unheard (on_feedback f).
Proof.
  unfold on_feedback. apply unheard_bind; [unheard|]. intros [events|e|]; [apply unheard_forward| |by apply unheard_update].
  apply unheard_bind; [done|]. intros w. apply unheard_bind; [unheard|]. intros _. unfold leave.
  apply unheard_bind; [apply unheard_shutdown|]. intros r. by apply unheard_update.
Qed.

(** Apart from the control operations themselves. *)
Lemma unheard_step i : (forall o gone, i <> InTransmit o gone) -> unheard (device_step selected allowed_features i).
Proof.
  intros Hi. unfold device_step. apply unheard_bind; [done|]. intros w. case_match; [done|]. destruct i.
  - by apply unheard_answer, unheard_prepare.
  - by apply unheard_answer, unheard_with_control.
  - by apply unheard_answer, unheard_media.
  - by apply unheard_answer, unheard_media.
  - by apply unheard_answer, unheard_media.
  - by apply unheard_answer, unheard_with_control.
  - by destruct (Hi o caller_gone).
  - by apply unheard_answer, unheard_media.
  - apply unheard_bind; [apply unheard_shutdown|]. intros r. destruct r; unheard.
  - unfold leave. apply unheard_bind; [apply unheard_shutdown|]. intros r. by apply unheard_update.
  - destruct (d_feedback_open w); [apply unheard_feedback|done].
  - by apply unheard_update.
Qed.

(** *** Texts *)

Definition ended_well (c : Z * bool * list Z) : Prop :=
  if c.1.2 then c.2 = [] else text_ok c.2 MAX_ERROR_TEXT_BYTES.

Lemma trim_start_head s : trim_start s = [] \/ exists c r, trim_start s = c :: r /\ is_whitespace c = false.
Proof.
  induction s as [|c s IH]; [by left|]. cbn [trim_start]. destruct (is_whitespace c) eqn:E; [done|]. right. by exists c, s.
Qed.

(** What [trim_end] leaves of a text that begins with a visible character. *)
Lemma trim_end_head c s : is_whitespace c = false -> exists r, trim_end (c :: s) = c :: r.
Proof.
  intros Hc. unfold trim_end. destruct (trim_start_suffix (reverse (c :: s))) as [a Ha].
  destruct (trim_start (reverse (c :: s))) as [|x l] eqn:E.
  - exfalso. rewrite app_nil_r in Ha. assert (Hall : forall l, trim_start l = [] -> Forall (fun x => is_whitespace x = true) l).
    { clear. induction l as [|y l IH]; [done|]. cbn. destruct (is_whitespace y) eqn:Ey; [|done]. intros H. constructor; auto. }
    apply Hall in E. rewrite Forall_reverse in E. apply Forall_cons in E as [E _]. congruence.
  - apply (f_equal reverse) in Ha. rewrite reverse_involutive, reverse_app in Ha.
    destruct (reverse (x :: l)) as [|y r] eqn:Er; [by apply (f_equal reverse) in Er; rewrite reverse_involutive in Er|].
    cbn in Ha. injection Ha as -> _. by exists r.
Qed.

Lemma trim_end_infix s : exists b, s = trim_end s ++ b.
Proof.
  destruct (trim_start_suffix (reverse s)) as [a Ha]. exists (reverse a). unfold trim_end.
  apply (f_equal reverse) in Ha. by rewrite reverse_involutive, reverse_app in Ha.
Qed.

Lemma trim_head s : trim s = [] \/ exists c r, trim s = c :: r /\ is_whitespace c = false.
Proof.
  destruct (trim_start_head s) as [E|(c & r & E & Hc)]; [left; unfold trim; by rewrite E|]. right.
  destruct (trim_end_head c r Hc) as [r' E']. exists c, r'. unfold trim. rewrite E. by split.
Qed.

Lemma bounded_control_error_ok e : text_ok (bounded_control_error e) MAX_ERROR_TEXT_BYTES.
Proof.
  unfold bounded_control_error. set (raw := (fun c => if is_control c then 32 else c) <$> control_error_text e).
  set (filtered := if bool_decide (trim raw = []) then codes "Device control operation failed" else trim raw).
  assert (Hraw : Forall (fun c => is_control c = false) raw).
  { unfold raw. apply Forall_fmap, Forall_true. intros c. cbn. by destruct (is_control c) eqn:E. }
  assert (Hf : (exists c r, filtered = c :: r /\ is_whitespace c = false) /\ Forall (fun c => is_control c = false) filtered).
  { unfold filtered. destruct (bool_decide (trim raw = [])) eqn:Hb.
    - split; [by do 2 eexists|]. by repeat constructor.
    - apply bool_decide_eq_false_1 in Hb. split; [by destruct (trim_head raw)|by apply trim_Forall]. }
  clearbody filtered. destruct Hf as [(c & r & -> & Hc) Hf]. unfold text_ok.
  destruct (Nat.leb_spec (str_len (c :: r)) MAX_ERROR_TEXT_BYTES); [by split_and!|].
  assert (E : exists r', bounded_chars (c :: r) MAX_ERROR_TEXT_BYTES = c :: r').
  { cbn [bounded_chars]. pose proof (utf8_char_length c). unfold MAX_ERROR_TEXT_BYTES.
    rewrite (proj2 (Nat.leb_le _ _)) by lia. by eexists. }
  pose proof (bounded_chars_le (c :: r) MAX_ERROR_TEXT_BYTES) as Hle.
  pose proof (bounded_chars_Forall _ _ MAX_ERROR_TEXT_BYTES Hf) as Hcs. destruct E as [r' E]. rewrite E in Hle, Hcs |- *.
  destruct (trim_end_infix (c :: r')) as [b Hb]. split_and!.
  - destruct (trim_end_head c r' Hc) as [r'' ->]. done.
  - etransitivity; [|exact Hle]. rewrite Hb at 2. unfold str_len. rewrite utf8_app, length_app. lia.
  - rewrite Hb in Hcs. by apply Forall_app in Hcs as [Hcs _].
Qed.

(** *** Accounting *)

Record control_inv (w : device_world) : Prop := {
  ci_completed : (fun c => c.1.1) <$> completed (d_log w) = accepted (d_log w);
  ci_sorted : StronglySorted Z.lt (accepted (d_log w));
  ci_ids : Forall (fun id => 1 <= id < d_next_control w) (accepted (d_log w));
  ci_next : 1 <= d_next_control w <= u64_MAX;
  ci_texts : Forall ended_well (completed (d_log w)) }.

Lemma control_quiet {A} (m : dev A) : unheard m -> runs m control_inv (fun _ => control_inv).
Proof. intros Hq w [H1 H2 H3 H4 H5]. destruct (Hq w) as (E1 & E2 & E3). split; by rewrite ?E1, ?E2, ?E3. Qed.

Lemma sorted_snoc l x : StronglySorted Z.lt l -> Forall (fun y => y < x) l -> StronglySorted Z.lt (l ++ [x]).
Proof.
  induction 1 as [|y l Hs IH Hy]; intros Hl; cbn; [by repeat constructor|]. apply Forall_cons in Hl as [Hx Hl].
  constructor; [by apply IH|]. apply Forall_app. split; [done|]. by constructor.
Qed.

(** One operation that was accepted and carried out. *)
Lemma control_done c o id ok text s gone w :
  control_inv w -> d_next_control w < u64_MAX -> d_next_control w = id -> ended_well (id, ok, text) ->
  control_inv (d_add (if gone : bool then EventDropped (ControlCompleted s id ok text) else Emitted (ControlCompleted s id ok text))
    (d_add (Transmitted c o) (d_add (Replied (ControlReply (Ok id))) (d_set_next (id + 1) w)))).
Proof.
  intros [H1 H2 H3 H4 H5] Hn <- Ht.
  assert (E : forall w', d_log w' = ((d_log w ++ [Replied (ControlReply (Ok (d_next_control w)))]) ++ [Transmitted c o])
      ++ [if gone then EventDropped (ControlCompleted s (d_next_control w) ok text)
          else Emitted (ControlCompleted s (d_next_control w) ok text)] ->
    accepted (d_log w') = accepted (d_log w) ++ [d_next_control w] /\
    completed (d_log w') = completed (d_log w) ++ [(d_next_control w, ok, text)]).
  { intros w' ->. unfold accepted, completed. rewrite !omap_app. by destruct gone; cbn; rewrite ?app_nil_r. }
  match goal with |- control_inv ?w' => destruct (E w') as [E1 E2]; [done|] end.
  split; rewrite ?E1, ?E2; cbn.
  - by rewrite fmap_app, H1.
  - apply sorted_snoc; [done|]. eapply Forall_impl; [exact H3|]. cbn. lia.
  - apply Forall_app. split; [|by repeat constructor; lia]. eapply Forall_impl; [exact H3|]. cbn. lia.
  - lia.
  - apply Forall_app. split; [done|]. by constructor.
Qed.

Lemma admit_control_effect o w :
  (exists id, admit_control allowed_features o w = (Ok id, d_set_next (id + 1) w) /\ id = d_next_control w /\
     d_next_control w <> u64_MAX) \/
  (exists e, admit_control allowed_features o w = (Err e, w)) \/ (admit_control allowed_features o w = (Panic, w)).
Proof.
  unfold admit_control, abind, device. destruct (obind _ _) as [[]|e|] eqn:Hc; [left|right; left; by eexists|by right; right].
  apply query_seq_ok in Hc as (_ & _ & Hc). do 3 apply reject_seq_ok in Hc as [_ Hc].
  apply reject_ok, Z.eqb_neq in Hc. by eexists.
Qed.

Lemma control_step_ok i w :
  device_inv w -> control_inv w -> control_inv (device_step selected allowed_features i w).2.
Proof.
  intros Hd Hw. assert (Hq : (forall o gone, i <> InTransmit o gone) -> control_inv (device_step selected allowed_features i w).2).
  { intros Hi. by apply (control_quiet _ (unheard_step i Hi)). }
  destruct i as [| | | | | |o gone| | | | |]; try (by apply Hq). clear Hq.
  unfold device_step, abind at 1, device. destruct (bool_decide (d_life w = DeviceRunning)) eqn:Hr; [|done].
  apply bool_decide_eq_true_1 in Hr. unfold device_inv in Hd. rewrite Hr in Hd. cbn [negb].
  pose proof (admit_ok o w Hd) as [Hok Hc]. pose proof Hw as [_ _ _ Hn _].
  destruct (admit_control_effect o w) as [(id & E & Hid & Hne)|[[e E]|E]]; unfold abind at 1; rewrite E in Hok, Hc |- *.
  - destruct gone.
    + destruct Hw as [H1 H2 H3 H4 H5]. split; cbn; [done|done| |lia|done]. eapply Forall_impl; [exact H3|]. cbn. lia.
    + cbn in Hc. destruct (Hc eq_refl) as [c Hcc]. unfold abind at 1, complete_control, note, d_update, device.
      unfold abind at 1. cbn [d_control d_add d_set_next]. rewrite Hcc. unfold abind at 1, d_ask, emit, abind, device, note, d_update.
      destruct (transmit_port _) as [e|[]]; cbn [snd].
      * apply control_done; [done|lia|done|]. apply bounded_control_error_ok.
      * by apply control_done; [|lia|..].
  - apply (control_quiet (note (Replied (ControlReply (Err e))))); [by apply unheard_noted|done].
  - exact (control_quiet _ (unheard_update (d_set_life DevicePanicked) (fun _ => eq_refl) (fun _ => eq_refl)) w Hw).
Qed.

Lemma control_run_ok w inputs :
  device_inv w -> control_inv w -> control_inv (device_run selected allowed_features w inputs).
Proof.
  revert w. induction inputs as [|i inputs IH]; intros w Hd Hw; [done|]. cbn.
  apply IH; [by apply device_step_ok|by apply control_step_ok].
Qed.

Lemma control_start id g video audio : control_inv (device_start id g video audio).
Proof. split; cbn; try constructor; done. Qed.

End Invariant.

(** ** What is negotiated *)











(** ** Who the device is *)

Definition never {A} (F : DeviceActorError -> bool) (m : device_result A) : Prop :=
  match m with Ok _ => True | Err e => F e = false | Panic => False end.

Lemma never_bind {A B} F (m : device_result A) (k : A -> device_result B) :
  never F m -> (forall x, m = Ok x -> never F (k x)) -> never F (obind m k).
Proof. destruct m; cbn; auto. Qed.

Definition refuses_identity (e : DeviceActorError) : bool := match e with IdentityInvalid _ => true | _ => false end.

Lemma bounded_identity_never field v maximum : never refuses_identity (bounded_identity field v maximum).
Proof. unfold bounded_identity. by destruct (_ || _). Qed.
Lemma transposed_never {A B} (f : A -> device_result B) (o : option A) :
  (forall x, never refuses_identity (f x)) -> never refuses_identity (transposed (f <$> o)).
Proof. intros Hf. destruct o as [x|]; [|done]. by apply never_bind; [apply Hf|]. Qed.
Lemma product_never info : never refuses_identity (device_product info).
Proof. unfold device_product. apply never_bind; [|done]. apply transposed_never. intros x. apply bounded_identity_never. Qed.
Lemma normalize_never v : never refuses_identity (normalize_cast_device_id v).
Proof. unfold normalize_cast_device_id. by destruct (_ || _). Qed.
Lemma reject_never (b : bool) e : refuses_identity e = false -> never refuses_identity (reject b e).
Proof. by destruct b. Qed.

Lemma bounded_identity_ok field v maximum x : bounded_identity field v maximum = Ok x -> text_ok x maximum.
Proof.
  unfold bounded_identity. intros [Hc [= <-]]%reject_seq_ok. apply orb_false_iff in Hc as [Hc H3].
  apply orb_false_iff in Hc as [H1%bool_decide_eq_false_1 H2%Nat.ltb_ge]. by rewrite existsb_Forall in H3.
Qed.

Definition bounded_text_ok (o : option (list Z)) (maximum : nat) : Prop :=
  match o with Some x => text_ok x maximum | None => True end.

Lemma transposed_identity_ok field maximum (o : option (list Z)) x :
  transposed ((fun v => bounded_identity field v maximum) <$> o) = Ok x -> bounded_text_ok x maximum.
Proof.
  destruct o as [v|]; cbn; [|by intros [= <-]]. intros (y & Hy & [= <-])%obind_ok. by eapply bounded_identity_ok.
Qed.

Lemma device_product_ok info x : device_product info = Ok x -> sourced_ok x.1 x.2 MAX_PRODUCT_NAME_BYTES.
Proof.
  unfold device_product. intros (y & Hy & [= <-])%obind_ok. apply transposed_identity_ok in Hy. by destruct y.
Qed.

Lemma setup_info_ok selected setup s :
  usable_setup_info selected setup = Some s ->
  bounded_text_ok (cs_manufacturer s) MAX_MANUFACTURER_NAME_BYTES /\ bounded_text_ok (cs_product_name s) MAX_PRODUCT_NAME_BYTES /\
  exists m p u, setup = SetupAvailable m p u /\
    forall udn, u = Some udn -> exists id, normalize_cast_device_id (device_id (dr_info selected)) = Ok id /\
      normalize_cast_device_id udn = Ok id.
Proof.
  unfold usable_setup_info. destruct setup as [m p u|]; [|done]. destruct (obind _ _) as [i| |] eqn:E; [|done..].
  intros [= <-]. apply obind_ok in E as ([] & E1 & E). apply obind_ok in E as (m' & E2 & E).
  apply obind_ok in E as (p' & E3 & [= <-]). split; [by eapply transposed_identity_ok|]. split; [by eapply transposed_identity_ok|].
  exists m, p, u. split; [done|]. intros udn ->. apply obind_ok in E1 as (a & Ha & E1). apply obind_ok in E1 as (b & Hb & E1).
  apply reject_ok, negb_false_iff, bool_decide_eq_true_1 in E1 as ->. by exists b.
Qed.

Lemma name_parts_ok selected (setup_info : DeviceControlError + ControlSetupInfo) info x :
  name_parts (match setup_info with inl _ => None | inr s => usable_setup_info selected s end) info = Ok x ->
  bounded_text_ok x.1 MAX_MANUFACTURER_NAME_BYTES /\ sourced_ok x.2.1 x.2.2 MAX_PRODUCT_NAME_BYTES.
Proof.
  unfold name_parts. destruct (match setup_info with inl _ => _ | inr _ => _ end) as [s|] eqn:Hs.
  - destruct setup_info as [|setup]; [done|]. apply setup_info_ok in Hs as (H1 & H2 & _).
    intros (y & Hy & [= <-])%obind_ok. split; [done|]. destruct (cs_product_name s) as [p|]; [|by eapply device_product_ok].
    by injection Hy as <-.
  - intros (y & Hy & [= <-])%obind_ok. split; [done|]. by eapply device_product_ok.
Qed.

Lemma name_parts_never setup info : never refuses_identity (name_parts setup info).
Proof.
  unfold name_parts. destruct setup as [s|]; (apply never_bind; [|done]); [destruct (cs_product_name s); [done|]|]; apply product_never.
Qed.

(** What is used of the setup endpoint's answer. *)
Definition setup_used (selected : DeviceRecord) (setup_info : DeviceControlError + ControlSetupInfo)
  : option ControlSetupIdentity :=
  match setup_info with inl _ => None | inr s => usable_setup_info selected s end.

(** The checks that come before the name. *)
Definition checked_device (selected : DeviceRecord) (device_info : DeviceControlError + ControlDeviceInfo)
    (mirroring : DeviceControlError + MirroringAvailability) : device_result ControlDeviceInfo :=
  let? info := match device_info with inl e => Err (DeviceInfoFailed e) | inr i => Ok i end in
  let? mirror := match mirroring with inl e => Err (MirroringAvailabilityFailed e) | inr m => Ok m end in
  let? a := normalize_cast_device_id (device_id (dr_info selected)) in
  let? b := normalize_cast_device_id (cd_device_id info) in
  try? reject (negb (bool_decide (a = b))) DeviceIdentityChanged;
  try? reject (match cd_capabilities info with Some c => Z.land c 1 =? 0 | None => false end) VideoUnavailable;
  try? reject (match mirror with MirrorAvailable => false | MirrorUnavailable => true end) MirroringUnavailable;
  Ok info.

(** Of the identity only the name is left to fail. *)
Lemma identity_of_checked selected device_info setup_info mirroring :
  match checked_device selected device_info mirroring with
  | Ok info =>
      match name_parts (setup_used selected setup_info) info with
      | Ok parts => exists i, identity_of selected device_info setup_info mirroring = Ok i /\ identity_ok i
      | Err e => identity_of selected device_info setup_info mirroring = Err e
      | Panic => False
      end
  | Err e => identity_of selected device_info setup_info mirroring = Err e
  | Panic => False
  end.
Proof.
  unfold checked_device, identity_of. destruct device_info as [e|info]; [done|]. destruct mirroring as [e|m]; [done|]. cbn [obind].
  pose proof (normalize_never (device_id (dr_info selected))) as Ha. pose proof (normalize_never (cd_device_id info)) as Hb.
  destruct (normalize_cast_device_id (device_id _)) as [a|e|]; [|done..].
  destruct (normalize_cast_device_id (cd_device_id _)) as [b|e|]; [|done..]. cbn [obind].
  do 3 match goal with |- context [reject ?c _] => destruct c; cbn [reject obind]; [done|] end.
  fold (setup_used selected setup_info). pose proof (name_parts_never (setup_used selected setup_info) info) as Hn.
  pose proof (name_parts_ok selected setup_info info) as Hok. fold (setup_used selected setup_info) in Hok.
  destruct (name_parts _ _) as [parts|e|]; [|done..]. destruct (Hok parts eq_refl) as [H1 H2]. cbn [obind].
  match goal with |- context [validate_display_identity ?i] => assert (Hi : identity_ok i) end.
  { split; cbn; [by destruct parts.1|done]. }
  rewrite (proj2 (validate_display_identity_iff _) Hi). by eexists.
Qed.

Lemma checked_device_ok selected device_info mirroring info :
  checked_device selected device_info mirroring = Ok info ->
  device_info = inr info /\ mirroring = inr MirrorAvailable /\
  (exists id, normalize_cast_device_id (device_id (dr_info selected)) = Ok id /\
     normalize_cast_device_id (cd_device_id info) = Ok id) /\
  forall c, cd_capabilities info = Some c -> Z.land c 1 <> 0.
Proof.
  unfold checked_device. destruct device_info as [e|info']; [done|]. destruct mirroring as [e|m]; [done|]. cbn [obind].
  intros (a & Ha & H)%obind_ok. apply obind_ok in H as (b & Hb & H).
  apply reject_seq_ok in H as [Hab%negb_false_iff%bool_decide_eq_true_1 H]. apply reject_seq_ok in H as [Hc H].
  apply reject_seq_ok in H as [Hm [= <-]]. subst b. split; [done|]. split; [by destruct m|]. split; [by exists a|].
  intros c E. rewrite E in Hc. by apply Z.eqb_neq.
Qed.

(** They refuse neither the identity nor the text of a name. *)
Definition refuses_text (e : DeviceActorError) : bool :=
  match e with IdentityTextInvalid _ | IdentityInvalid _ => true | _ => false end.

Lemma checked_device_never selected device_info mirroring : never refuses_text (checked_device selected device_info mirroring).
Proof.
  unfold checked_device. destruct device_info as [e|info]; [done|]. destruct mirroring as [e|m]; [done|]. cbn [obind].
  unfold normalize_cast_device_id.
  repeat match goal with |- context [reject ?c _] => destruct c; cbn [reject obind]; [done|] end. done.
Qed.

Lemma device_product_refused info e :
  device_product info = Err e -> exists field, e = IdentityTextInvalid field.
Proof.
  unfold device_product, bounded_identity. destruct (cd_device_model info) as [m|]; [|done]. cbn.
  destruct (_ || _); cbn; [|done]. intros [= <-]. by eexists.
Qed.

Lemma name_parts_refused setup info e :
  name_parts setup info = Err e ->
  is_ok (device_product info) = false /\ (exists field, e = IdentityTextInvalid field) /\
  forall s, setup = Some s -> cs_product_name s = None.
Proof.
  assert (Hp : forall (k : option (list Z) * IdentitySource -> device_result (option (list Z) * (option (list Z) * IdentitySource))),
    (forall p, is_ok (k p) = true) -> obind (device_product info) k = Err e ->
    is_ok (device_product info) = false /\ exists field, e = IdentityTextInvalid field).
  { intros k Hk H. destruct (device_product info) as [p|e'|] eqn:E; cbn in H; [|injection H as ->|done].
    - specialize (Hk p). by rewrite H in Hk.
    - split; [done|]. by eapply device_product_refused. }
  unfold name_parts. destruct setup as [s|].
  - destruct (cs_product_name s) as [p|] eqn:Es; [done|]. intros H. apply Hp in H as [H1 H2]; [|done].
    split; [done|]. split; [done|]. by intros ? [= <-].
  - intros H. by apply Hp in H as [H1 H2].
Qed.

Lemma name_parts_given setup info :
  is_ok (device_product info) = true -> exists parts, name_parts setup info = Ok parts.
Proof.
  unfold name_parts. destruct (device_product info) as [p|e|]; [|done..]. intros _.
  destruct setup as [s|]; [|by eexists]. destruct (cs_product_name s); by eexists.
Qed.

(** C36: A display identity is only ever given to the device that was selected: the
    connection's own answer and the selection have the same Cast identifier, and
    the receiver can mirror.  What the identity is built of has been bounded
    already, so the final validation never refuses it.  The setup endpoint, which
    is optional, can only add a name: as long as the device's own model name is
    usable, whether an identity is given, and with what error not, does not
    depend on its answer; and a name is refused only when it is the device's own
    model name and the setup endpoint gave no product name instead. *)
Theorem prepared_identity_is_selected selected device_info setup_info mirroring :
  match identity_of selected device_info setup_info mirroring with
  | Ok i =>
      identity_ok i /\ mirroring = inr MirrorAvailable /\
      exists info id, device_info = inr info /\ normalize_cast_device_id (device_id (dr_info selected)) = Ok id /\
        normalize_cast_device_id (cd_device_id info) = Ok id /\
        forall c, cd_capabilities info = Some c -> Z.land c 1 <> 0
  | Err (IdentityTextInvalid _) =>
      exists info, device_info = inr info /\ is_ok (device_product info) = false /\
        forall s, setup_used selected setup_info = Some s -> cs_product_name s = None
  | Err e => refuses_identity e = false
  | Panic => False
  end /\
  ((forall info, device_info = inr info -> is_ok (device_product info) = true) -> forall other e,
     identity_of selected device_info setup_info mirroring = Err e <->
     identity_of selected device_info other mirroring = Err e).
Proof.
  pose proof (identity_of_checked selected device_info setup_info mirroring) as H1.
  pose proof (checked_device_never selected device_info mirroring) as Ht.
  split.
  - destruct (checked_device selected device_info mirroring) as [info|e|] eqn:Hc; [|rewrite H1; by destruct e|done].
    apply checked_device_ok in Hc as (-> & -> & (id & Ha & Hb) & Hcap).
    destruct (name_parts _ info) as [parts|e|] eqn:Hn; [|rewrite H1; clear H1|done].
    + destruct H1 as (i & -> & Hi). split; [done|]. split; [done|]. by exists info, id.
    + apply name_parts_refused in Hn as (Hp & [field ->] & Hs). by exists info.
  - intros Hp other e. pose proof (identity_of_checked selected device_info other mirroring) as H2.
    destruct (checked_device selected device_info mirroring) as [info|e'|] eqn:Hc; [|by rewrite H1, H2|done].
    apply checked_device_ok in Hc as (Hd & _). specialize (Hp info Hd).
    destruct (name_parts_given (setup_used selected setup_info) info Hp) as [p1 E1].
    destruct (name_parts_given (setup_used selected other) info Hp) as [p2 E2].
    rewrite E1 in H1. rewrite E2 in H2. destruct H1 as (i1 & -> & _), H2 as (i2 & -> & _). done.
Qed.

(** ** Theorems about runs *)

(** C13: No connection to a device is lost: whatever is asked of the actor and
    however the device, the media graph and the receiver answer, every
    connection that was opened is the one that the actor holds, used only while
    it holds it, or has been closed, once.  The actor holds one exactly when the
    session is prepared, and none after it has ended, when the session is
    stopped too.  Connections are told apart by their names, so those of a run
    are taken to be distinct; a run that reached one of the actor's [expect]s is
    left out. *)
Theorem connections_accounted `{P : MediaPorts} `{D : DevicePorts} selected allowed id sg video audio inputs connection :
  let w := device_run selected allowed (device_start id sg video audio) inputs in
  d_life w <> DevicePanicked ->
  (NoDup (opened (d_log w)) -> connection ∈ opened (d_log w) ->
     life_of connection (connection_notes (d_log w)) = (if decide (d_control w = Some connection) then Held else Gone)) /\
  (d_life w = DeviceRunning -> (d_control w = None <-> me_state (w_session (d_media w)) = StateCreated)) /\
  (d_life w = DeviceEnded -> d_control w = None /\ me_state (w_session (d_media w)) = StateStopped).
Proof.
  intros w Hp. pose proof (device_run_inv selected allowed _ inputs (device_start_inv id sg video audio)) as Hi.
  fold w in Hi. unfold device_inv in Hi.
  assert (Hheld : forall held, held_as held w -> NoDup (opened (d_log w)) -> connection ∈ opened (d_log w) ->
    life_of connection (connection_notes (d_log w)) = (if decide (held = Some connection) then Held else Gone)).
  { intros held Hh Hd Hc. destruct (Hh Hd) as [Hl _ _]. rewrite Hl. unfold life_by. by rewrite (decide_True (P := connection ∈ _)). }
  destruct (d_life w) eqn:E; [|destruct Hi as (H1 & H2 & _ & H4)|done].
  - destruct Hi as [[_ _ H3] H4]. split; [by apply Hheld|]. by split.
  - rewrite H1. split; [by apply Hheld|]. by split.
Qed.

(** C17: Control operations are numbered and accounted for: the identifiers the
    actor gives out increase from one, within 64 bits; each operation whose
    caller got its identifier is reported as ended exactly once, in the order of
    the identifiers; and what a failed one is reported with is a valid error
    text of the protocol, a successful one with none. *)
Theorem control_operations_accounted `{P : MediaPorts} `{D : DevicePorts} selected allowed id sg video audio inputs :
  let w := device_run selected allowed (device_start id sg video audio) inputs in
  (fun c => c.1.1) <$> completed (d_log w) = accepted (d_log w) /\
  StronglySorted Z.lt (accepted (d_log w)) /\
  Forall (fun id => 1 <= id < u64_MAX) (accepted (d_log w)) /\
  Forall (fun c : Z * bool * list Z => if c.1.2 : bool then c.2 = [] else text_ok c.2 MAX_ERROR_TEXT_BYTES) (completed (d_log w)).
Proof.
  intros w. destruct (control_run_ok selected allowed _ inputs (device_start_inv id sg video audio) (control_start id sg video audio))
    as [H1 H2 H3 H4 H5]. fold w in H1, H2, H3, H4, H5. split_and!; try done.
  eapply Forall_impl; [exact H3|]. cbn. lia.
Qed.

(** ** A run *)

Definition ex_endpoint (p : Z) : SocketAddr := {| sa_ip := IpV4 3232235777; sa_port := p |}.

Definition ex_device : DeviceRecord :=
  {| dr_info := {| backend_id := codes "cast"; device_id := codes "00112233445566778899aabbccddeeff";
                   display_name := codes "TV"; availability := Available; metadata := [] |};
     dr_endpoints := ex_endpoint <$> [1; 2; 3; 4; 5] |}.

Definition ex_device_info : ControlDeviceInfo :=
  {| cd_device_id := codes "uuid:00112233-4455-6677-8899-AABBCCDDEEFF"; cd_device_model := Some (codes "Model");
     cd_capabilities := Some 5 |}.

Definition ex_setup_info : ControlSetupInfo :=
  SetupAvailable (Some (codes "Sony Corporation")) (Some (codes "BRAVIA 8"))
    (Some (codes "00112233-4455-6677-8899-aabbccddeeff")).

Definition ex_device_ports : DevicePorts :=
  {| connect_port := fun endpoint _ => if sa_port endpoint =? 1 then None else Some (100 + sa_port endpoint);
     device_info_port := fun _ => inr ex_device_info; setup_info_port := fun _ => inr ex_setup_info;
     mirroring_port := fun _ => inr MirrorAvailable;
     transmit_port := fun log => if (length log <? 9)%nat then inr tt else inl (ControlRefused [10; 9]);
     close_port := fun _ => inr tt; events_full := fun _ => false; events_gone := fun _ => false |}.

Definition ex_request : PreparationRequest :=
  {| pr_preparation_generation := 1;
     candidate_modes := [ex_mode; {| dm_width := 1024; dm_height := 768; dm_refresh_millihz := 60000; dm_flags := 0 |}];
     pr_video_profiles := [{| vp_profile_id := codes "h264-main"; vp_codec := codes "h264"; max_width := 7680;
                              max_height := 4320; max_refresh_millihz := 120000 |}];
     pr_audio_profiles := [{| ap_profile_id := codes "opus-6"; ap_codec := codes "opus"; max_channels := 6;
                              sample_rates := [44100; 48000] |}];
     pr_requested_features := 3 |}.

Definition ex_control : ControlOperation :=
  {| co_session_generation := 1; co_kind := Mute; code := Some (codes "on"); co_value := 0 |}.

Abbreviation ex_device_run inputs :=
  (device_run (P := ex_media_ports) (D := ex_device_ports) ex_device 3
    (device_start ex_session_id 1 {| ch_capacity := 8; ch_queue := []; ch_closed := false |}
       {| ch_capacity := 32; ch_queue := []; ch_closed := false |}) inputs).

Definition ex_device_inputs : list device_input :=
  [InTransmit ex_control false; InPrepare ex_request; InTransmit ex_control false; InTransmit ex_control true;
   InTransmit ex_control false; InShutdown].

Example ex_device_log :
  let w := ex_device_run ex_device_inputs in
  opened (d_log w) = [102] /\ accepted (d_log w) = [1; 3] /\
  completed (d_log w) = [(1, true, []); (3, false, codes "Cast receiver control failed:")] /\ d_life w = DeviceEnded.
Proof. vm_compute. done. Qed.

Lemma connections_accounted_witness :
  opened (d_log (ex_device_run ex_device_inputs)) = [102] /\
  life_of 102 (connection_notes (d_log (ex_device_run ex_device_inputs))) = Gone.
Proof.
  split; [by vm_compute|].
  assert (Hin : 102 ∈ opened (d_log (ex_device_run ex_device_inputs))) by (vm_compute; left).
  assert (Hd : NoDup (opened (d_log (ex_device_run ex_device_inputs)))) by (vm_compute; apply NoDup_singleton).
  assert (Hp : d_life (ex_device_run ex_device_inputs) <> DevicePanicked) by by vm_compute.
  pose proof (connections_accounted (P := ex_media_ports) (D := ex_device_ports) ex_device 3 ex_session_id 1
    {| ch_capacity := 8; ch_queue := []; ch_closed := false |} {| ch_capacity := 32; ch_queue := []; ch_closed := false |}
    ex_device_inputs 102) as H.
  cbv zeta in H. rewrite (proj1 (H Hp) Hd Hin). by vm_compute.
Defined.


(** The session is prepared under the model's name when the setup endpoint fails. *)
Lemma prepared_identity_is_selected_witness :
  is_ok (identity_of ex_device (inr ex_device_info) (inr ex_setup_info) (inr MirrorAvailable)) = true /\
  forall e, identity_of ex_device (inr ex_device_info) (inl (ControlRefused [])) (inr MirrorAvailable) <> Err e.
Proof.
  assert (Hok : is_ok (identity_of ex_device (inr ex_device_info) (inr ex_setup_info) (inr MirrorAvailable)) = true)
    by by vm_compute.
  split; [exact Hok|]. intros e He.
  destruct (prepared_identity_is_selected ex_device (inr ex_device_info) (inr ex_setup_info) (inr MirrorAvailable))
    as [_ H].
  assert (Hp : forall info, inr (A := DeviceControlError) ex_device_info = inr info -> is_ok (device_product info) = true).
  { intros info [= <-]. by vm_compute. }
  apply (H Hp (inl (ControlRefused [])) e) in He. rewrite He in Hok. discriminate Hok.
Defined.
