(* ===== verification/CastLifecycle.v ===== *)
(** * The daemon's view of a Cast device session

    DeviceSession keeps, in the daemon, what the backend knows of the current
    media generation; CastDevice is the actor that carries the calls out, with
    the media session of CastMedia.  Here the two run together: a call of the
    daemon's adapter is a turn of the actor, and the daemon gets its reply, or
    never gets it.  Between the calls the actor does what it does on its own: the
    receiver's feedback arrives, which may end it, or it is shut down.

    The theorem: the two agree.  While the actor runs and the daemon is certain,
    the session is in the state the daemon thinks it is in, so no call but the
    stop of a generation is ever refused as out of place; and while the daemon is
    not, the generation it wants to end is the session's, has just been ended, or
    was never admitted by it.  In the last case the session refuses the stop, and
    keeps refusing it, which the daemon is not prepared for.  Once the actor has
    ended, the session is stopped and no call succeeds. *)

From S2P Require Import Prelude Bytes Text Time Actor PortLife EncodedVideo Feedback BackendProtocol BackendSession DisplayState DeviceSession CastVideoSender CastAudioSender CastMedia CastMediaInvariant CastMediaOutcome CastDiscovery CastDevice.

(** ** Together *)

Class DeviceTexts := { device_text : DeviceActorError -> list Z }.

Record joint := { j_daemon : BackendMediaLifecycle; j_backend : device_world }.

(** What reaches the actor without a call of the daemon's adapter. *)
Inductive own_input :=
  | OwnFeedback (f : SenderFeedback) | OwnFeedbackClosed | OwnStatistics
  | OwnPrepare (r : PreparationRequest) | OwnShutdown | OwnHandlesGone.

Definition own_turn (i : own_input) : device_input :=
  match i with
  | OwnFeedback f => InFeedback f
  | OwnFeedbackClosed => InFeedbackClosed
  | OwnStatistics => InStatistics
  | OwnPrepare r => InPrepare r
  | OwnShutdown => InShutdown
  | OwnHandlesGone => InHandlesGone
  end.

(** A call of the daemon, whose answer may be lost, or one of these. *)
Inductive joint_op := Daemon (op : adapter_op) (lost : bool) | Own (i : own_input).

Definition carried_out (lost : bool) (c : backend_call) : device_input :=
  match c with
  | CallConfigure g remotes targets c => InConfigure remotes targets c g
  | CallStart g => InStart g
  | CallSuspend _ => InSuspend
  | CallResume g => InResume g
  | CallStopMedia g _ => InStop g
  | CallControl o => InTransmit o lost
  | CallStop _ => InShutdown
  end.

(** The answers of a control operation, which the lifecycle does not depend on,
    are those of the operation. *)
Definition with_reply (op : adapter_op) (r : BackendSession.reply unit) : adapter_op :=
  match op with
  | DoConfigure setup _ => DoConfigure setup r
  | DoStart g _ => DoStart g r
  | DoSuspend g reason _ => DoSuspend g reason r
  | DoResume g _ => DoResume g r
  | DoStopMedia g reason _ => DoStopMedia g reason r
  | DoControl _ _ _ _ _ => op
  end.

(** What a turn replied. *)
Definition replied (before after : device_world) : option device_reply :=
  match last (drop (length (d_log before)) (d_log after)) with Some (Replied r) => Some r | _ => None end.

Abbreviation session_of j := (w_session (d_media (j_backend j))).

Section Joint.
Context `{P : MediaPorts} `{D : DevicePorts} `{T : ErrorTexts} `{X : DeviceTexts}.
Context (selected : DeviceRecord) (allowed_features : Z).

Definition turn (i : device_input) (w : device_world) : device_world := (device_step selected allowed_features i w).2.

(** An actor that has ended, or that ends without a reply, leaves its caller with
    [DeviceStopped]. *)
Definition answer_of (lost : bool) (r : option device_reply) : BackendSession.reply unit :=
  if lost then Late else
  match r with
  | Some (UnitReply (Ok _)) => Answer tt
  | Some (UnitReply (Err e)) => Broken (device_text e)
  | _ => Broken (device_text DeviceStopped)
  end.

Definition joint_step (j : joint) (op : joint_op) : joint :=
  match op with
  | Daemon op lost =>
      match (adapt (j_daemon j) op).2 with
      | Some call =>
          let w := turn (carried_out lost call) (j_backend j) in
          {| j_daemon := (adapt (j_daemon j) (with_reply op (answer_of lost (replied (j_backend j) w)))).1.2;
             j_backend := w |}
      | None => {| j_daemon := (adapt (j_daemon j) op).1.2; j_backend := j_backend j |}
      end
  | Own i => {| j_daemon := j_daemon j; j_backend := turn (own_turn i) (j_backend j) |}
  end.

(** A device that was asked to prepare, under a daemon that has just adopted it. *)
Definition joint_start (id : list Z) (sg : Z) (video : channel EncodedVideoAccessUnit)
    (audio : channel EncodedAudioPacket) (r : PreparationRequest) : joint :=
  {| j_daemon := BackendDeviceSession_new; j_backend := turn (InPrepare r) (device_start id sg video audio) |}.

Definition joint_run (j : joint) (ops : list joint_op) : joint := foldl joint_step j ops.

(** What the daemon thinks and what the session is. *)
Definition agree (m : BackendMediaLifecycle) (s : media_session) : Prop :=
  match m with
  | Prepared last => me_state s = StatePrepared /\ (forall c, me_completed s = Some c -> c <= last)
  | Configured g => g <> 0 /\ me_state s = StateConfigured /\ me_active s = Some g /\ me_ready s = true
  | Streaming g => g <> 0 /\ me_state s = StateStreaming /\ me_active s = Some g
  | LifecycleSuspended g => g <> 0 /\ me_state s = StateSuspended /\ me_active s = Some g
  | Uncertain g => g <> 0 /\
      (me_active s = Some g \/ (me_state s = StatePrepared /\ me_completed s = Some g)
       \/ (me_state s = StatePrepared /\ not_newer (me_completed s) g = false))
  end.

(** A device that is prepared and runs, and agrees. *)
Record running_ok (m : BackendMediaLifecycle) (w : device_world) : Prop := {
  ro_capabilities : is_Some (me_capabilities (w_session (d_media w)));
  ro_control : d_control w <> None;
  ro_agree : agree m (w_session (d_media w)) }.

Record joint_ok (j : joint) : Prop := {
  jo_backend : device_inv (j_backend j);
  jo_running : d_life (j_backend j) = DeviceRunning -> running_ok (j_daemon j) (j_backend j) }.

(** *** Asking the media session *)

(** What the actor does with a media call: its turn, with a connection. *)
Definition asked (m : med unit) (w : device_world) : device_world := (answer UnitReply (on_media m) w).2.

Definition media_call (i : device_input) : option (med unit) :=
  match i with
  | InConfigure remotes targets c g => Some (configure remotes targets c g)
  | InStart g => Some (start g)
  | InSuspend => Some suspend
  | InResume g => Some (resume g)
  | InStop g => Some (CastMedia.stop_media g)
  | _ => None
  end.

Lemma turn_asked i m w :
  media_call i = Some m -> d_life w = DeviceRunning -> d_control w <> None -> turn i w = asked m w.
Proof.
  intros Hi Hr Hc. unfold turn, device_step, abind at 1, device. rewrite bool_decide_eq_true_2 by done. cbn [negb].
  destruct (d_control w) as [c|] eqn:E; [|done].
  destruct i; try done; injection Hi as <-; try done;
    unfold asked, answer, with_control, abind, device; by rewrite E.
Qed.

Lemma turn_ended i w : d_life w <> DeviceRunning -> turn i w = w.
Proof. intros H. unfold turn, device_step, abind, device. by rewrite bool_decide_eq_false_2. Qed.

Lemma asked_world m w :
  d_control (asked m w) = d_control w /\ d_media (asked m w) = (m (d_media w)).2 /\
  d_life (asked m w) = match (m (d_media w)).1 with Panic => DevicePanicked | _ => d_life w end /\
  replied w (asked m w) = match (m (d_media w)).1 with Panic => None | r => Some (UnitReply (omap_err DeviceMedia r)) end.
Proof.
  unfold asked, answer, on_media, abind, replied, note, d_update. destruct (m (d_media w)) as [r mw].
  destruct r as [[]|e|]; cbn; rewrite ?drop_app_length, ?drop_all; done.
Qed.

Lemma replied_same w : replied w w = None.
Proof. unfold replied. by rewrite drop_all. Qed.

(** The daemon after a call: settled if the session did it and the answer came. *)
Definition settled_to (lost : bool) (r : refused unit) (after during : BackendMediaLifecycle) : BackendMediaLifecycle :=
  if negb lost && is_ok r then after else during.

(** Where the daemon's call of an operation leaves the two. *)
Definition answered (w : device_world) (m : med unit) (lost : bool) (after during : BackendMediaLifecycle) : joint :=
  {| j_daemon := settled_to lost (m (d_media w)).1 after during; j_backend := asked m w |}.

(** The answer decides, and nothing of it but that it is one. *)
Lemma joint_asked j op lost call m after during :
  (adapt (j_daemon j) op).2 = Some call -> media_call (carried_out lost call) = Some m ->
  d_life (j_backend j) = DeviceRunning -> d_control (j_backend j) <> None ->
  (forall r, (adapt (j_daemon j) (with_reply op r)).1.2 = match r with Answer _ => after | _ => during end) ->
  joint_step j (Daemon op lost) = answered (j_backend j) m lost after during.
Proof.
  intros Hc Hm Hr Hk Ha. cbn [joint_step]. rewrite Hc, (turn_asked _ m) by done. unfold answered. f_equal.
  rewrite Ha. destruct (asked_world m (j_backend j)) as (_ & _ & _ & ->). unfold settled_to, answer_of.
  by destruct lost, (m (d_media (j_backend j))).1 as [[]| |].
Qed.

(** A call of an actor that has ended settles nothing. *)
Lemma joint_ended j op lost call during after :
  (adapt (j_daemon j) op).2 = Some call -> d_life (j_backend j) <> DeviceRunning ->
  (forall r, (adapt (j_daemon j) (with_reply op r)).1.2 = match r with Answer _ => after | _ => during end) ->
  joint_step j (Daemon op lost) = {| j_daemon := during; j_backend := j_backend j |}.
Proof.
  intros Hc Hr Ha. cbn [joint_step]. rewrite Hc, turn_ended by done. f_equal. rewrite Ha, replied_same.
  by destruct lost.
Qed.
End Joint.

(** *** The calls of the adapter *)

Section Calls.
Context `{T : ErrorTexts}.

Definition setup_valid (setup : DeviceMediaSetup) : bool :=
  is_ok (validate_media_configuration (length (de_remote <$> dm_endpoints setup))
           (map_target ∘ de_target <$> dm_endpoints setup) (map_configuration (dm_configuration setup))
           (dm_media_generation setup)).

(** The daemon asks for the stop unless it is prepared. *)
Definition stopping (m : BackendMediaLifecycle) (g : Z) : bool :=
  match m with
  | Prepared _ => false
  | Configured a | Streaming a | LifecycleSuspended a | Uncertain a => a =? g
  end.

(** When the adapter makes which call, about which generation, and what it takes
    the backend to be in after its answer; until then it is uncertain. *)
Inductive calls : BackendMediaLifecycle -> adapter_op -> backend_call -> Z -> BackendMediaLifecycle -> Prop :=
  | calls_configure last setup r :
      setup_valid setup = true -> last < dm_media_generation setup ->
      calls (Prepared last) (DoConfigure setup r)
        (CallConfigure (dm_media_generation setup) (de_remote <$> dm_endpoints setup)
           (map_target ∘ de_target <$> dm_endpoints setup) (map_configuration (dm_configuration setup)))
        (dm_media_generation setup) (Configured (dm_media_generation setup))
  | calls_start g r : calls (Configured g) (DoStart g r) (CallStart g) g (Streaming g)
  | calls_suspend g reason r :
      calls (Streaming g) (DoSuspend g reason r) (CallSuspend (map_suspend_reason reason)) g (LifecycleSuspended g)
  | calls_resume g r : calls (LifecycleSuspended g) (DoResume g r) (CallResume g) g (Streaming g)
  | calls_stop m g reason r : stopping m g = true ->
      calls m (DoStopMedia g reason r) (CallStopMedia g (map_media_stop_reason reason)) g (Prepared g).

Definition settles (m : BackendMediaLifecycle) (op : adapter_op) (g : Z) (after : BackendMediaLifecycle) : Prop :=
  forall r, (adapt m (with_reply op r)).1.2 = match r with Answer _ => after | _ => Uncertain g end.

Lemma adapt_configure m setup r call :
  (adapt m (DoConfigure setup r)).2 = Some call -> exists g after,
    calls m (DoConfigure setup r) call g after /\ settles m (DoConfigure setup r) g after.
Proof.
  unfold settles, adapt, with_reply, DeviceSession.configure_media, BackendSession.configure_media.
  intros H. do 2 eexists. split; [|intros r']; revert H; pose proof (calls_configure (match m with Prepared l => l | _ => 0 end) setup r) as Hc;
    unfold setup_valid in Hc; destruct (validate_media_configuration _ _ _ _) as [[]|e|]; cbn [omap_err guarded]; try done;
    unfold begin_configure; destruct m as [last| | | |]; try done; destruct (last <? _) eqn:Hl; cbn; try done.
  - intros [= <-]. apply Hc; [done|lia].
  - intros _. by destruct r'.
Qed.

Lemma adapt_transition m op g required operation call after (ans : BackendSession.reply unit -> session_result unit) :
  (forall r, adapt m (with_reply op r) =
     guarded m (begin_transition m g required operation) (fun during => crossing during call (ans r) after)) ->
  (forall r, is_ok (ans r) = match r with Answer _ => true | _ => false end) ->
  forall r, (adapt m (with_reply op r)).2 <> None ->
  in_phase m required g = true /\ (adapt m (with_reply op r)).2 = Some call /\ settles m op g after.
Proof.
  intros Ha Hok r H. unfold settles. rewrite Ha in *. unfold begin_transition in *.
  destruct (in_phase m required g); cbn [negb reject obind guarded] in *; [|done]. split; [done|]. split; [done|].
  intros r'. rewrite Ha. specialize (Hok r'). unfold crossing. by destruct (ans r') as [[]| |], r'.
Qed.

Lemma in_phase_true m required g :
  in_phase m required g = true ->
  m = match required with PhaseConfigured => Configured g | PhaseStreaming => Streaming g
      | PhaseSuspended => LifecycleSuspended g end.
Proof. destruct m, required; cbn; try done; by intros ->%Z.eqb_eq. Qed.

Lemma adapt_stop m g reason r :
  stopping m g = true ->
  (adapt m (DoStopMedia g reason r)).2 = Some (CallStopMedia g (map_media_stop_reason reason)) /\
  settles m (DoStopMedia g reason r) g (Prepared g).
Proof.
  unfold settles, adapt, with_reply, DeviceSession.stop_media, begin_stop.
  destruct m as [l|a|a|a|a]; [done|..]; intros H; pose proof H as ->%Z.eqb_eq; cbn; rewrite Z.eqb_refl;
    (split; [done|intros r'; by destruct r']).
Qed.

Lemma adapt_calls m op call :
  (adapt m op).2 = Some call -> is_media call = true -> exists g after, calls m op call g after /\ settles m op g after.
Proof.
  destruct op as [setup r|g r|g reason r|g r|g reason r|h o a b c]; intros H Hm.
  - by apply adapt_configure.
  - destruct (adapt_transition m (DoStart g r) g PhaseConfigured "start" (CallStart g) (Streaming g)
      BackendSession.start_media) with (r := r) as (Hp & E & Hs); [done|by intros []|by cbn [with_reply]; rewrite H|].
    cbn [with_reply] in E. rewrite H in E. injection E as ->. apply in_phase_true in Hp as ->. exists g, (Streaming g).
    split; [constructor|done].
  - destruct (adapt_transition m (DoSuspend g reason r) g PhaseStreaming "suspend" (CallSuspend (map_suspend_reason reason))
      (LifecycleSuspended g) BackendSession.suspend_media) with (r := r) as (Hp & E & Hs); [done|by intros []|by cbn [with_reply]; rewrite H|].
    cbn [with_reply] in E. rewrite H in E. injection E as ->. apply in_phase_true in Hp as ->. exists g, (LifecycleSuspended g).
    split; [constructor|done].
  - destruct (adapt_transition m (DoResume g r) g PhaseSuspended "resume" (CallResume g) (Streaming g)
      BackendSession.resume_media) with (r := r) as (Hp & E & Hs); [done|by intros []|by cbn [with_reply]; rewrite H|].
    cbn [with_reply] in E. rewrite H in E. injection E as ->. apply in_phase_true in Hp as ->. exists g, (Streaming g).
    split; [constructor|done].
  - destruct (stopping m g) eqn:Hs.
    + destruct (adapt_stop m g reason r Hs) as [E Hset]. rewrite E in H. injection H as <-. exists g, (Prepared g).
      split; [by constructor|done].
    + exfalso. revert H. cbn. unfold DeviceSession.stop_media, begin_stop.
      destruct m as [l|x|x|x|x]; cbn in Hs |- *; [by destruct (l <=? g)|by rewrite Hs..].
  - cbn in H. injection H as <-. done.
Qed.

(** Without a media call the lifecycle is what it was, or a later generation is
    taken to be over. *)
Lemma adapt_quiet m op :
  match (adapt m op).2 with Some call => is_media call = false | None => True end ->
  (adapt m op).1.2 = m \/ exists last g, m = Prepared last /\ last <= g /\ (adapt m op).1.2 = Prepared g.
Proof.
  destruct op as [setup r|g r|g reason r|g r|g reason r|h o a b c]; cbn.
  - unfold DeviceSession.configure_media. destruct (validate_media_configuration _ _ _ _) as [[]| |]; cbn; [|by left..].
    destruct m; cbn; [|by left..]. destruct (_ <? _); cbn; [done|by left].
  - unfold DeviceSession.start_media, begin_transition. destruct (in_phase _ _ _); cbn; [done|by left].
  - unfold DeviceSession.suspend_media, begin_transition. destruct (in_phase _ _ _); cbn; [done|by left].
  - unfold DeviceSession.resume_media, begin_transition. destruct (in_phase _ _ _); cbn; [done|by left].
  - unfold DeviceSession.stop_media, begin_stop. destruct m as [l|x|x|x|x]; cbn.
    + destruct (Z.leb_spec l g); cbn; [|by left]. intros _. right. by exists l, g.
    + destruct (_ =? _); cbn; [done|by left].
    + destruct (_ =? _); cbn; [done|by left].
    + destruct (_ =? _); cbn; [done|by left].
    + destruct (_ =? _); cbn; [done|by left].
  - intros _. left. by destruct (omap_err _ _).
Qed.
End Calls.

(** ** The two stay in step *)

Section Steps.
Context `{P : MediaPorts} `{D : DevicePorts} `{T : ErrorTexts} `{X : DeviceTexts}.
Context (selected : DeviceRecord) (allowed_features : Z).

Abbreviation turn := (turn selected allowed_features).
Abbreviation joint_step := (joint_step selected allowed_features).
Abbreviation joint_run := (joint_run selected allowed_features).

Lemma agree_same m s s' : same_session s s' -> agree m s -> agree m s'.
Proof.
  intros (E1 & E2 & E3 & E4 & _). unfold agree. destruct m; rewrite ?E1, ?E2, ?E3, ?E4; auto.
Qed.

Lemma not_newer_le c last g : (forall k, c = Some k -> k <= last) -> last < g -> not_newer c g = false.
Proof. intros Hc Hl. destruct c as [k|]; [|done]. cbn. apply Z.leb_gt. specialize (Hc k eq_refl). lia. Qed.

(** *** Media calls *)

(** What an operation leaves of the session, whether or not its answer comes. *)
Definition leaves (m : med unit) (w : media_world) (lost : bool) (after : BackendMediaLifecycle) (g : Z) : Prop :=
  is_Some (me_capabilities (w_session (m w).2)) /\
  agree (settled_to lost (m w).1 after (Uncertain g)) (w_session (m w).2).

Lemma leaves_either (m : med unit) w lost after g :
  is_Some (me_capabilities (w_session (m w).2)) -> agree (Uncertain g) (w_session (m w).2) ->
  ((m w).1 = Ok tt -> agree after (w_session (m w).2)) -> leaves m w lost after g.
Proof.
  intros Hc Hu Ha. split; [done|]. unfold settled_to. destruct (negb lost); [|done].
  destruct (m w) as [[[]|e|] w']; cbn in *; auto.
Qed.

Lemma transition_leaves (m : med unit) w g st lost after :
  g <> 0 -> me_active (w_session w) = Some g -> is_Some (me_capabilities (w_session w)) ->
  runs m (in_session (w_session w)) (outcome_of (set_state st) (w_session w)) ->
  agree after (set_state st (w_session w)) -> leaves m w lost after g.
Proof.
  intros Hg Ha Hc Hm Hafter. specialize (Hm w eq_refl). apply leaves_either.
  - by destruct Hm as [[_ ->]|[_ ->]].
  - destruct Hm as [[_ ->]|[_ ->]]; (split; [done|by left]).
  - intros Hr. destruct Hm as [[_ ->]|[Hn _]]; done.
Qed.

Lemma stopping_uncertain m g s : stopping m g = true -> agree m s -> agree (Uncertain g) s.
Proof. destruct m; cbn; [done|..]; intros ->%Z.eqb_eq; naive_solver. Qed.

Lemma stop_leaves m g w lost :
  stopping m g = true -> agree m (w_session w) -> is_Some (me_capabilities (w_session w)) ->
  leaves (CastMedia.stop_media g) w lost (Prepared g) g.
Proof.
  intros Hm Ha Hc. pose proof (stopping_uncertain _ _ _ Hm Ha) as Hu.
  pose proof (stop_outcome g (w_session w) w eq_refl) as [[Hr Hs]|(H1 & H2 & H3)]; apply leaves_either; rewrite ?Hs, ?H3; try done.
  - split; [apply Hu|]. by right; left.
  - intros _. split; [done|]. rewrite H2. intros c [= ->]. lia.
Qed.

Lemma configure_leaves remotes targets c last g w lost :
  agree (Prepared last) (w_session w) -> is_Some (me_capabilities (w_session w)) -> g <> 0 -> last < g ->
  leaves (configure remotes targets c g) w lost (Configured g) g.
Proof.
  intros [Hst Hle] Hc Hz Hl.
  destruct (configure_outcome remotes targets c g _ w eq_refl) as [[Hr Hs]|[(H1 & H2 & H3 & H4) H5]];
    apply leaves_either; rewrite ?Hs, ?H4; try done.
  - split; [done|]. right; right. split; [done|]. by eapply not_newer_le.
  - split; [done|by left].
  - intros Hr. cbn. auto.
Qed.

Lemma valid_generation setup : setup_valid setup = true -> dm_media_generation setup <> 0.
Proof.
  unfold setup_valid, validate_media_configuration. intros H E. rewrite E in H. revert H.
  by repeat case_match.
Qed.

(** Every call of the adapter is a media call of the actor that keeps the two in step. *)
Lemma called_leaves m op call g after lost w :
  calls m op call g after -> agree m (w_session w) -> is_Some (me_capabilities (w_session w)) ->
  exists mc, media_call (carried_out lost call) = Some mc /\ leaves mc w lost after g.
Proof.
  intros Hcall Ha Hc. destruct Hcall as [last setup r Hv Hl|g r|g reason r|g r|m g reason r Hs]; (eexists; split; [done|]).
  - eapply configure_leaves; [done..|by apply valid_generation|done].
  - destruct Ha as (Hz & H1 & H2 & H3). eapply transition_leaves; [done..|apply start_outcome|done].
  - destruct Ha as (Hz & H1 & H2). eapply transition_leaves; [done..|apply suspend_outcome|done].
  - destruct Ha as (Hz & H1 & H2). eapply transition_leaves; [done..|apply resume_outcome|done].
  - by eapply stop_leaves.
Qed.

Lemma turn_inv i w : device_inv w -> device_inv (turn i w).
Proof. apply device_step_ok. Qed.

Lemma joint_call_ok j op call g after lost :
  joint_ok j -> (adapt (j_daemon j) op).2 = Some call -> calls (j_daemon j) op call g after ->
  settles (j_daemon j) op g after -> joint_ok (joint_step j (Daemon op lost)).
Proof.
  intros [Hi Hrun] Hcall Hc Hs. destruct (decide (d_life (j_backend j) = DeviceRunning)) as [Hr|Hr]; cycle 1.
  { rewrite (joint_ended _ _ j op lost call (Uncertain g) after) by done. by split. }
  destruct (Hrun Hr) as [H1 H2 H3]. destruct (called_leaves _ _ _ _ _ lost _ Hc H3 H1) as (m & Hm & Hl & Ha).
  rewrite (joint_asked _ _ j op lost call m after (Uncertain g)) by done.
  destruct (asked_world m (j_backend j)) as (E1 & E2 & _). split; cbn [answered j_daemon j_backend].
  - rewrite <- (turn_asked selected allowed_features _ _ _ Hm Hr H2). by apply turn_inv.
  - intros _. split; rewrite ?E1, ?E2; done.
Qed.

(** *** What the actor does on its own *)

(** The connection stays, and the session but for the control of its bitrate. *)
Definition kept (w0 w : device_world) : Prop :=
  d_control w = d_control w0 /\ same_session (w_session (d_media w0)) (w_session (d_media w)).

Definition kept_or_over (w0 w : device_world) : Prop := d_life w = DeviceRunning -> kept w0 w.

Lemma kept_refl w : kept w w.
Proof. by split. Qed.

Lemma kept_running w0 w m : kept w0 w -> running_ok m w0 -> running_ok m w.
Proof.
  intros [E1 E2] [H1 H2 H3]. split; [|by rewrite E1|by eapply agree_same].
  destruct E2 as (_ & _ & _ & _ & E). by rewrite E.
Qed.

Lemma kept_note n w0 : runs (note n) (kept w0) (fun _ => kept w0).
Proof. by intros w. Qed.

Lemma over_panicked w0 : runs (d_update (d_set_life DevicePanicked)) (fun _ => True) (fun _ => kept_or_over w0).
Proof. by intros w _. Qed.

Lemma kept_media {A} (m : med A) w0 :
  (forall s, runs m (fun w => same_session s (w_session w)) (fun _ w => same_session s (w_session w))) ->
  runs (on_media m) (kept w0) (fun _ => kept w0).
Proof.
  intros Hm w [E1 E2]. unfold on_media. specialize (Hm _ _ E2). destruct (m (d_media w)) as [r mw]. by split.
Qed.

Lemma kept_answer {A} (reply : device_result A -> device_reply) (m : dev (device_result A)) w0 :
  runs m (kept w0) (fun _ => kept w0) -> runs (answer reply m) (kept w0) (fun _ => kept_or_over w0).
Proof.
  intros Hm. unfold answer. eapply runs_bind; [exact Hm|]. intros [x|e|].
  - eapply runs_post; [apply kept_note|]. by intros ? ? ? ?.
  - eapply runs_post; [apply kept_note|]. by intros ? ? ? ?.
  - eapply runs_pre; [apply over_panicked|done].
Qed.

Lemma kept_forward events w0 : runs (forward_media_events events) (kept w0) (fun _ => kept w0).
Proof.
  induction events as [|[s g|s g b] events IH]; cbn [forward_media_events]; [by apply runs_ret|..].
  - eapply runs_bind with (Q := fun _ => kept w0); [by intros w Hw|intros ?; exact IH].
  - eapply runs_bind with (Q := fun _ => kept w0); [by intros w Hw|intros ?; exact IH].
Qed.

Lemma over_leave (m : dev (device_result unit)) w0 : runs (leave m) (fun _ => True) (fun _ => kept_or_over w0).
Proof.
  unfold leave. eapply runs_bind with (Q := fun _ _ => True); [by intros w|]. intros r w _ H. cbn in H. by destruct r.
Qed.

Lemma kept_feedback f w0 : runs (on_feedback f) (kept w0) (fun _ => kept_or_over w0).
Proof.
  unfold on_feedback. eapply runs_bind; [by apply kept_media, feedback_same|]. intros [events|e|].
  - eapply runs_post; [apply kept_forward|]. by intros ? ? ? ?.
  - eapply runs_bind with (Q := fun _ _ => True); [by intros w|]. intros w.
    eapply runs_bind with (Q := fun _ _ => True); [by intros w'|]. intros ?. apply over_leave.
  - eapply runs_pre; [apply over_panicked|done].
Qed.

(** A device is prepared once. *)
Lemma kept_prepare r w0 :
  me_state (w_session (d_media w0)) <> StateCreated ->
  runs (prepare_device selected allowed_features r) (eq w0) (fun _ => kept w0).
Proof.
  intros Hs w <-. unfold prepare_device, abind at 1, device. rewrite (bool_decide_eq_false_2 (_ = StateCreated)) by done.
  destruct (obind _ _) as [[]|e|] eqn:E; [exfalso|by apply kept_refl..].
  apply query_seq_ok in E as (_ & _ & E). apply reject_seq_ok in E as [_ E]. done.
Qed.

Lemma kept_transmit o (gone : bool) w0 :
  runs (let* r := admit_control allowed_features o in
        match r with
        | Ok operation_id =>
            if gone then aret tt
            else do* note (Replied (ControlReply r)); complete_control operation_id o
        | Err _ => note (Replied (ControlReply r))
        | Panic => d_update (d_set_life DevicePanicked)
        end) (kept w0) (fun _ => kept_or_over w0).
Proof.
  eapply runs_bind with (Q := fun _ => kept w0).
  { intros w Hw. unfold admit_control, abind, device. by destruct (obind _ _) as [[]|e|]. }
  intros [id|e|]; [|eapply runs_post; [apply kept_note|by intros ? ? ? ?]|eapply runs_pre; [apply over_panicked|done]].
  destruct gone; [by intros w Hw ?|]. eapply runs_bind; [apply kept_note|]. intros ? w Hw.
  unfold complete_control, abind at 1, device. destruct (d_control w) as [c|]; [|by apply over_panicked].
  unfold abind at 1, d_ask. intros _. by destruct (transmit_port (d_log w)).
Qed.

Lemma turn_kept i w :
  device_inv w -> d_life w = DeviceRunning -> d_control w <> None -> media_call i = None -> kept_or_over w (turn i w).
Proof.
  intros Hi Hr Hc Hm. pose proof (kept_refl w) as Hk. unfold turn, CastLifecycle.turn, device_step, abind at 1, device.
  rewrite bool_decide_eq_true_2 by done. cbn [negb].
  assert (Hs : me_state (w_session (d_media w)) <> StateCreated).
  { unfold device_inv in Hi. rewrite Hr in Hi. intros E. by apply (lo_prepared _ Hi) in E. }
  destruct i; try done.
  - assert (Ha : runs (answer PreparedReply (prepare_device selected allowed_features r)) (eq w) (fun _ => kept_or_over w)).
    { unfold answer. eapply runs_bind; [by apply kept_prepare|]. intros [x|e|]; [| |eapply runs_pre; [apply over_panicked|done]];
        (eapply runs_post; [apply kept_note|by intros ? ? ? ?]). }
    by apply Ha.
  - by apply kept_transmit.
  - by apply (kept_answer _ _ w); [apply kept_media, statistics_same|].
  - unfold abind. destruct (shutdown_device w) as [[[]|e|] w']; by intros H.
  - by apply over_leave.
  - destruct (d_feedback_open w); [by apply kept_feedback|done].
Qed.

Lemma own_ok m i w :
  device_inv w -> media_call i = None -> (d_life w = DeviceRunning -> running_ok m w) ->
  joint_ok {| j_daemon := m; j_backend := turn i w |}.
Proof.
  intros Hi Hm Hr. split; cbn [j_daemon j_backend]; [by apply turn_inv|]. intros Hl.
  destruct (decide (d_life w = DeviceRunning)) as [E|E]; cycle 1.
  { by rewrite turn_ended in Hl. }
  pose proof (Hr E) as Hok. eapply kept_running; [|exact Hok]. apply turn_kept; [done|done|by destruct Hok|done|done].
Qed.

Lemma agree_later last g s : last <= g -> agree (Prepared last) s -> agree (Prepared g) s.
Proof. intros Hl [H1 H2]. split; [done|]. intros c Hc. specialize (H2 c Hc). lia. Qed.

Lemma joint_quiet_ok j op lost :
  joint_ok j -> match (adapt (j_daemon j) op).2 with Some call => is_media call = false | None => True end ->
  joint_ok (joint_step j (Daemon op lost)).
Proof.
  intros [Hi Hrun] Hq. pose proof (adapt_quiet _ _ Hq) as Ha. cbn [CastLifecycle.joint_step].
  destruct (adapt (j_daemon j) op).2 as [call|] eqn:E.
  - destruct op as [setup r|g r|g reason r|g r|g reason r|h o a b c]; cbn [with_reply].
    1-5: exfalso; revert E Hq; clear; cbn.
    + unfold DeviceSession.configure_media. destruct (validate_media_configuration _ _ _ _) as [[]| |]; cbn; try done.
      destruct (begin_configure _ _); cbn; [by intros [= <-]|done..].
    + unfold DeviceSession.start_media. destruct (begin_transition _ _ _ _); cbn; [by intros [= <-]|done..].
    + unfold DeviceSession.suspend_media. destruct (begin_transition _ _ _ _); cbn; [by intros [= <-]|done..].
    + unfold DeviceSession.resume_media. destruct (begin_transition _ _ _ _); cbn; [by intros [= <-]|done..].
    + unfold DeviceSession.stop_media. destruct (begin_stop _ _) as [[d []]| |]; cbn; [by intros [= <-]|done..].
    + cbn in E. injection E as <-. replace (adapt (j_daemon j) (DoControl h o a b c)).1.2 with (j_daemon j)
        by (cbn; by destruct (omap_err _ _)). by apply own_ok.
  - split; cbn [j_daemon j_backend]; [done|]. intros Hr. destruct (Hrun Hr) as [H1 H2 H3].
    destruct Ha as [-> |(last & g & Em & Hl & ->)]; [done|]. split; [done..|]. rewrite Em in H3. by eapply agree_later.
Qed.

Lemma joint_step_ok j op : joint_ok j -> joint_ok (joint_step j op).
Proof.
  intros Hj. destruct op as [op lost|i].
  - destruct ((adapt (j_daemon j) op).2) as [call|] eqn:E; [destruct (is_media call) eqn:Hm|].
    + destruct (adapt_calls _ _ _ E Hm) as (g & after & Hc & Hs). by eapply joint_call_ok.
    + apply joint_quiet_ok; [done|]. by rewrite E.
    + apply joint_quiet_ok; [done|]. by rewrite E.
  - destruct Hj as [Hi Hr]. apply own_ok; [done|by destruct i|done].
Qed.

Lemma joint_run_ok j ops : joint_ok j -> joint_ok (joint_run j ops).
Proof. revert j. induction ops as [|op ops IH]; intros j Hj; [done|]. by apply IH, joint_step_ok. Qed.

(** *** The start *)

Definition untold {A} (m : dev A) : Prop := forall w, d_media (m w).2 = d_media w.

Lemma untold_bind {A B} (m : dev A) (k : A -> dev B) : untold m -> (forall x, untold (k x)) -> untold (abind m k).
Proof. intros Hm Hk w. unfold abind. specialize (Hm w). destruct (m w) as [x w']. by rewrite Hk. Qed.

Lemma untold_connect endpoints : untold (connect_to endpoints).
Proof.
  induction endpoints as [|e endpoints IH]; [done|]. cbn [connect_to]. apply untold_bind; [done|].
  intros [c|]; [|exact IH]. by apply untold_bind.
Qed.

(** A session that was created is prepared by this turn, or not at all. *)
Definition prepared_or_not (s0 : media_session) (w : device_world) : Prop :=
  w_session (d_media w) = s0 \/ exists c, w_session (d_media w) = set_prepared c s0.

Abbreviation session_is s := (fun w => w_session (d_media w) = s).

Lemma untold_runs {A} (m : dev A) s : untold m -> runs m (session_is s) (fun _ => session_is s).
Proof. intros Hm w Hw. cbn. by rewrite Hm. Qed.

Lemma prepare_session r s :
  runs (prepare_device selected allowed_features r) (session_is s) (fun _ => prepared_or_not s).
Proof.
  assert (Hstay : forall A (m : dev A), untold m -> runs m (session_is s) (fun _ => prepared_or_not s)).
  { intros A m Hm w Hw. left. cbn. by rewrite Hm. }
  unfold prepare_device. eapply runs_bind with (Q := fun _ => session_is s); [by intros w|]. intros w0.
  destruct (obind _ _) as [[]|e|]; [|by apply Hstay..].
  eapply runs_bind; [apply untold_runs, untold_connect|]. intros [connection|e|]; [|by apply Hstay..].
  eapply runs_bind; [by apply untold_runs|]. intros identity.
  destruct (obind identity _) as [c|e|]; [|by apply Hstay..].
  eapply runs_bind with (Q := fun r w => match r with Ok _ => prepared_or_not s w | _ => session_is s w end).
  { intros w <-. unfold on_media, complete_preparation, mbind, abind, session, require, lift, update.
    destruct (bool_decide _); cbn; [|done].
    destruct (validate_capabilities c) as [[]|e|]; cbn; [|done..]. right. by exists c. }
  intros [[]|e|]; [|by apply Hstay..]. by intros w Hw.
Qed.

Lemma joint_start_ok id sg video audio r :
  me_state (session_of (joint_start selected allowed_features id sg video audio r)) = StatePrepared ->
  joint_ok (joint_start selected allowed_features id sg video audio r).
Proof.
  intros Hst. split; cbn [joint_start j_backend j_daemon]; [apply turn_inv, device_start_inv|]. intros Hr.
  set (w := turn _ _) in *.
  assert (Hi : device_inv w) by (apply turn_inv, device_start_inv).
  assert (Hs : prepared_or_not (session_new id sg) w).
  { assert (Ha : runs (answer PreparedReply (prepare_device selected allowed_features r)) (session_is (session_new id sg))
      (fun _ => prepared_or_not (session_new id sg))).
    { unfold answer. eapply runs_bind; [apply prepare_session|]. by intros [x|e|] w'. }
    by apply (Ha (device_start id sg video audio)). }
  change (session_of _) with (w_session (d_media w)) in Hst.
  destruct Hs as [Hs|[c Hs]]; rewrite Hs in Hst; [done|]. split; [rewrite Hs; by eexists| |rewrite Hs; by split].
  unfold device_inv in Hi. rewrite Hr in Hi. intros Hn. apply (lo_prepared _ Hi) in Hn. unfold created in Hn. by rewrite Hs in Hn.
Qed.

(** ** Theorems *)

(** A call but the stop finds the session in the state it is meant for. *)
Lemma called_in_place m op call g after w :
  calls m op call g after -> agree m (w_session w) -> is_Some (me_capabilities (w_session w)) ->
  (forall reason, call <> CallStopMedia g reason) ->
  exists mc, media_call (carried_out false call) = Some mc /\ in_place (mc w).1.
Proof.
  intros Hc Ha Hcap Hst. destruct Hc as [last setup r Hv Hl|g r|g reason r|g r|m g reason r Hs]; [..|by destruct (Hst (map_media_stop_reason reason))];
    (eexists; split; [done|]).
  - by apply configure_in_place; [apply Ha|].
  - destruct Ha as (? & ? & ? & ?). by apply start_in_place.
  - destruct Ha as (? & ? & ?). by apply (suspend_in_place g).
  - destruct Ha as (? & ? & ?). by apply resume_in_place.
Qed.

(** C4: The daemon's device session and the Cast device it drives agree, whatever
    the daemon asks, whichever answers are lost, and however the device, the
    media graph, the negotiation and the receiver behave.  As long as the device's
    actor runs: while the daemon is certain of the generation, the session is in
    the very state it thinks; while it is not, the generation is the session's,
    or has just been completed by it, or was never admitted; so no call other
    than the stop of a generation is ever refused as out of place.  Once the actor
    has ended, because the receiver's feedback was fatal or it was shut down, its
    session is stopped, and a call leaves the daemon uncertain.  (Of an actor that
    has panicked only the last is said.) *)
Theorem daemon_and_session_agree id sg video audio r ops :
  let j0 := joint_start selected allowed_features id sg video audio r in
  me_state (session_of j0) = StatePrepared ->
  let j := joint_run j0 ops in
  match d_life (j_backend j) with
  | DeviceRunning =>
      agree (j_daemon j) (session_of j) /\
      forall op call e, (adapt (j_daemon j) op).2 = Some call -> is_media call = true ->
        (forall g reason, call <> CallStopMedia g reason) ->
        replied (j_backend j) (turn (carried_out false call) (j_backend j)) = Some (UnitReply (Err e)) ->
        exists e', e = DeviceMedia e' /\ in_place (Err (A := unit) e')
  | DeviceEnded => me_state (session_of j) = StateStopped
  | DevicePanicked => True
  end /\
  (d_life (j_backend j) <> DeviceRunning -> forall op lost call,
     (adapt (j_daemon j) op).2 = Some call -> is_media call = true ->
     exists g, joint_step j (Daemon op lost) = {| j_daemon := Uncertain g; j_backend := j_backend j |}).
Proof.
  intros j0 Hst j. pose proof (joint_run_ok _ ops (joint_start_ok id sg video audio r Hst)) as [Hi Hrun].
  fold j0 in Hi, Hrun. fold j in Hi, Hrun. split.
  - unfold device_inv in Hi. destruct (d_life (j_backend j)) eqn:Hr; [|apply Hi|done].
    destruct (Hrun eq_refl) as [H1 H2 H3]. split; [done|]. intros op call e Hcall Hm Hns Hrep.
    destruct (adapt_calls _ _ _ Hcall Hm) as (g & after & Hc & _).
    destruct (called_in_place _ _ _ _ _ _ Hc H3 H1) as (mc & Hmc & Hp); [by intros reason|].
    rewrite (turn_asked selected allowed_features _ _ _ Hmc Hr H2) in Hrep.
    destruct (asked_world mc (j_backend j)) as (_ & _ & _ & Er). rewrite Er in Hrep.
    destruct (mc (d_media (j_backend j))).1 as [[]|e'|]; [done| |done]. injection Hrep as <-. by exists e'.
  - intros Hr op lost call Hcall Hm. destruct (adapt_calls _ _ _ Hcall Hm) as (g & after & _ & Hs). exists g.
    by apply (joint_ended _ _ j op lost call (Uncertain g) after).
Qed.

(** *** Stopping *)

Definition calm {A} (m : med A) : Prop := forall w, (m w).1 <> Panic.

Lemma calm_teardown {A} received (m : med A) : calm m -> calm (teardown received m).
Proof. intros Hm w. unfold teardown. destruct received; [|done]. unfold abind. specialize (Hm w). by destruct (m w) as [[]]. Qed.

Lemma calm_with_sender {A} (m : actor media_world (result A)) : calm (with_sender m).
Proof. intros w. unfold with_sender, abind, session. destruct (me_sender _); [|done]. by destruct (m w) as [[]]. Qed.

Lemma calm_with_audio_sender {A} (m : actor media_world (result A)) : calm (with_audio_sender m).
Proof. intros w. unfold with_audio_sender, abind, session. destruct (me_audio_sender _); [|done]. by destruct (m w) as [[]]. Qed.

Lemma calm_ask {A} c (answer : media_log -> result A) (f : result A -> refused A) :
  (forall r, f r <> Panic) -> calm (let* r := ask c answer in aret (f r)).
Proof. intros Hf w. apply Hf. Qed.

Lemma tear_down_calm s g : calm (tear_down s g).
Proof.
  intros w. unfold tear_down, abind at 1.
  pose proof (calm_teardown (me_graph_received s) _ (calm_ask (GraphStop g) graph_statistics from_graph ltac:(by intros []))) as H1.
  specialize (H1 w). destruct (teardown _ _ w) as [r1 w1]. unfold abind at 1.
  pose proof (calm_teardown (me_audio_received s) _ (calm_with_audio_sender (audio_stop g)) w1) as H2.
  destruct (teardown _ _ w1) as [r2 w2]. unfold abind at 1.
  pose proof (calm_teardown (me_sender_received s) _ (calm_with_sender (video_stop g)) w2) as H3.
  destruct (teardown _ _ w2) as [r3 w3]. unfold abind at 1.
  pose proof (calm_teardown (me_transport_active s) _ (calm_ask StopVideo stop_video_port from_transport ltac:(by intros [])) w3) as H4.
  destruct (teardown _ _ w3) as [r4 w4]. cbn in *. by destruct r1 as [[]| |], r2 as [[]| |], r3 as [[]| |].
Qed.

Lemma calm_mbind {A B} (m : med A) (k : A -> med B) : calm m -> (forall x, calm (k x)) -> calm (mbind m k).
Proof. intros Hm Hk w. unfold mbind, abind. specialize (Hm w). destruct (m w) as [[x|e|] w']; [apply Hk|done|done]. Qed.

Lemma calm_require b e : calm (require b e).
Proof. intros w. by destruct b. Qed.

Lemma stop_calm g : calm (CastMedia.stop_media g).
Proof.
  assert (Ht : forall b e op k, calm (do^ require b e; do^ require_matching_generation op g; tear_down k g)).
  { intros b e op k. apply calm_mbind; [apply calm_require|]. intros _.
    apply calm_mbind; [intros w'; apply calm_require|]. intros _. apply tear_down_calm. }
  unfold CastMedia.stop_media. apply calm_mbind; [apply calm_require|]. intros _ w. unfold abind at 1, session.
  destruct (_ && _); [done|]. apply Ht.
Qed.

Lemma joint_stop j g reason r lost :
  stopping (j_daemon j) g = true -> d_life (j_backend j) = DeviceRunning -> d_control (j_backend j) <> None ->
  joint_step j (Daemon (DoStopMedia g reason r) lost) =
    answered (j_backend j) (CastMedia.stop_media g) lost (Prepared g) (Uncertain g).
Proof.
  intros Hs Hr Hc. destruct (adapt_stop _ _ reason r Hs) as [E Hset]. by eapply joint_asked.
Qed.

(** C15: A generation the session has admitted can always be ended as long as the
    device's actor runs: whatever became of the first attempt to stop it, a second
    one whose answer arrives leaves the daemon certain that it is over. *)
Theorem second_stop_settles id sg video audio pr ops g reason r lost :
  let j0 := joint_start selected allowed_features id sg video audio pr in
  me_state (session_of j0) = StatePrepared ->
  let j := joint_run j0 ops in
  d_life (j_backend j) = DeviceRunning -> j_daemon j = Uncertain g ->
  me_active (session_of j) = Some g \/ me_completed (session_of j) = Some g ->
  j_daemon (joint_run j [Daemon (DoStopMedia g reason r) lost; Daemon (DoStopMedia g reason r) false]) = Prepared g.
Proof.
  intros j0 Hst j Hr Hj Hs. pose proof (joint_run_ok _ ops (joint_start_ok id sg video audio pr Hst)) as [Hi Hrun].
  fold j0 in Hi, Hrun. fold j in Hi, Hrun. destruct (Hrun Hr) as [_ Hc Ha]. unfold device_inv in Hi. rewrite Hr in Hi.
  pose proof (la_media _ _ (lo_live _ Hi)) as Hmi.
  rewrite Hj in Ha. destruct Ha as [Hz Ha]. cbn [CastLifecycle.joint_run foldl].
  rewrite (joint_stop j) by (done || rewrite Hj; apply Z.eqb_refl).
  set (mw := (CastMedia.stop_media g (d_media (j_backend j))).2).
  assert (Hend : me_state (w_session mw) = StatePrepared /\ me_completed (w_session mw) = Some g).
  { unfold mw. destruct Ha as [Ha|[[Ha Hd]|[Ha Hd]]]; [by apply stop_active|by rewrite stop_completed|].
    destruct Hs as [Hs|Hs]; [by apply stop_active|]. rewrite Hs in Hd. cbn in Hd. lia. }
  destruct (asked_world (CastMedia.stop_media g) (j_backend j)) as (E1 & E2 & E3 & _). fold mw in E2.
  assert (El : d_life (asked (CastMedia.stop_media g) (j_backend j)) = DeviceRunning).
  { rewrite E3. pose proof (stop_calm g (d_media (j_backend j))) as Hn. by destruct (CastMedia.stop_media g _).1. }
  unfold answered at 1, settled_to. destruct (negb lost && is_ok _).
  - cbn. unfold DeviceSession.stop_media, begin_stop. by rewrite Z.leb_refl.
  - rewrite joint_stop; cbn [j_daemon j_backend]; [|apply Z.eqb_refl|done|by rewrite E1].
    unfold answered. rewrite E2, stop_completed by (done || apply Hend). done.
Qed.

(** Without a connection the actor refuses the stop itself. *)
Lemma stop_unprepared g w :
  d_life w = DeviceRunning -> d_control w = None ->
  let w' := turn (InStop g) w in
  d_media w' = d_media w /\ d_life w' = d_life w /\ exists e, replied w w' = Some (UnitReply (Err e)).
Proof.
  intros Hr Hc.
  assert (exists e, turn (InStop g) w = d_add (Replied (UnitReply (Err e))) w) as [e E].
  { eexists. unfold CastLifecycle.turn, device_step, abind at 1, device. rewrite bool_decide_eq_true_2 by done. cbn [negb].
    unfold answer, with_control, abind, device. by rewrite Hc. }
  cbv zeta. rewrite E. split_and!; [done..|]. exists e. unfold replied. cbn. by rewrite drop_app_length.
Qed.

(** C18: A generation the session never admitted cannot be ended: when a
    configuration is refused before that, the daemon is left uncertain of a
    generation whose stop the session refuses, and however often the daemon tries,
    nothing changes. *)
Theorem never_admitted_never_stopped j g reason r (lost : list bool) :
  j_daemon j = Uncertain g -> me_state (session_of j) = StatePrepared -> me_completed (session_of j) <> Some g ->
  let j' := joint_run j ((fun l => Daemon (DoStopMedia g reason r) l) <$> lost) in
  j_daemon j' = Uncertain g /\ d_media (j_backend j') = d_media (j_backend j) /\ d_life (j_backend j') = d_life (j_backend j).
Proof.
  intros H1 H2 H3 j'. unfold j'. clear j'. revert j H1 H2 H3. induction lost as [|l lost IH]; intros j H1 H2 H3; [done|].
  cbn [fmap list_fmap CastLifecycle.joint_run foldl]. set (j1 := joint_step j _).
  assert (Hj1 : j_daemon j1 = Uncertain g /\ d_media (j_backend j1) = d_media (j_backend j) /\ d_life (j_backend j1) = d_life (j_backend j)).
  { assert (Hs : stopping (j_daemon j) g = true) by (rewrite H1; apply Z.eqb_refl).
    destruct (adapt_stop _ _ reason r Hs) as [E Hset].
    destruct (decide (d_life (j_backend j) = DeviceRunning)) as [Hr|Hr]; cycle 1.
    { unfold j1. by rewrite (joint_ended _ _ j _ l _ (Uncertain g) (Prepared g) E Hr Hset). }
    assert (Er : exists e, CastMedia.stop_media g (d_media (j_backend j)) = (Err e, d_media (j_backend j))).
    { unfold CastMedia.stop_media, mbind, abind, session, require. destruct (g =? 0); cbn; [by eexists|].
      rewrite (bool_decide_eq_false_2 _ H3), andb_false_r, H2. by eexists. }
    destruct Er as [e Er]. destruct (d_control (j_backend j)) as [c|] eqn:Hc.
    - unfold j1. rewrite joint_stop by (done || by rewrite Hc). unfold answered, settled_to. cbn [j_daemon j_backend].
      destruct (asked_world (CastMedia.stop_media g) (j_backend j)) as (_ & -> & -> & _). rewrite Er. cbn [is_ok fst snd].
      by rewrite andb_false_r.
    - destruct (stop_unprepared g (j_backend j) Hr Hc) as (U1 & U2 & e' & U3). unfold j1. cbn [CastLifecycle.joint_step].
      rewrite E. cbn [carried_out j_daemon j_backend]. rewrite Hset, U1, U2, U3. by destruct l. }
  destruct Hj1 as (E1 & E2 & E3). destruct (IH j1) as (G1 & G2 & G3); [done|by rewrite E2..|].
  split_and!; [exact G1|exact (eq_trans G2 E2)|exact (eq_trans G3 E3)].
Qed.
End Steps.

(** ** Runs

    A device that negotiates H.264, asked for what it offers. *)

#[local] Existing Instances ex_media_ports ex_device_ports.

Definition ex_joint_texts : ErrorTexts := ex_texts.

Definition ex_device_texts : DeviceTexts := {| device_text := fun _ => codes "refused" |}.

Definition ex_joint_setup (profile : string) (g : Z) : DeviceMediaSetup :=
  {| dm_media_generation := g;
     dm_endpoints :=
       [{| de_remote := 3;
           de_target := {| dt_kind := DeviceVideo; dt_node_name := codes "pronk.video"; dt_object_serial := 9;
                           dt_session_id := ex_session_id; dt_device_instance := codes "card1"; dt_connector_id := 7;
                           dt_output_index := 0; dt_media_generation := g; dt_caps := codes "video/x-raw" |} |}];
     dm_configuration :=
       {| dc_video_profile_id := codes profile; dc_audio_profile_id := None;
          dc_mode := {| rm_width := 1920; rm_height := 1080; rm_refresh_millihz := 60000; rm_flags := 0 |};
          dc_video_bitrate := 4000000 |} |}.

#[local] Existing Instances ex_joint_texts ex_device_texts.

Definition ex_video : channel EncodedVideoAccessUnit := {| ch_capacity := 8; ch_queue := []; ch_closed := false |}.

Definition ex_audio : channel EncodedAudioPacket := {| ch_capacity := 32; ch_queue := []; ch_closed := false |}.

Definition ex_joint (ops : list joint_op) : joint :=
  joint_run ex_device 3 (joint_start ex_device 3 ex_session_id 1 ex_video ex_audio ex_request) ops.

(** The answer to the start is lost. *)
Definition ex_joint_ops : list joint_op :=
  [Daemon (DoConfigure (ex_joint_setup "h264-main" 7) Late) false; Daemon (DoStart 7 Late) true].

Example ex_joint_uncertain :
  let j := ex_joint ex_joint_ops in j_daemon j = Uncertain 7 /\ me_state (session_of j) = StateStreaming.
Proof. vm_compute. done. Qed.

(** The receiver loses the stream for good: the actor ends, and nothing the
    daemon does then settles anything. *)
Definition ex_fatal : own_input :=
  OwnFeedback {| sf_revision := 1; sf_generation := Some 7; sf_key_frame_requests := 0; sf_acknowledged_frames := 0;
                 sf_pressure := None; sf_terminal_error := Some (codes "gone") |}.

Definition ex_stop (lost : bool) : joint_op := Daemon (DoStopMedia 7 DevStopTransportFailure Late) lost.

Example ex_fatal_feedback :
  let j := ex_joint [Daemon (DoConfigure (ex_joint_setup "h264-main" 7) Late) false; Daemon (DoStart 7 Late) false; Own ex_fatal] in
  j_daemon j = Streaming 7 /\ d_life (j_backend j) = DeviceEnded /\ me_state (session_of j) = StateStopped /\
  j_daemon (joint_run ex_device 3 j [ex_stop false; ex_stop false]) = Uncertain 7.
Proof. vm_compute. done. Qed.

(** The profile is not one of the device's. *)
Definition ex_refused : joint := ex_joint [Daemon (DoConfigure (ex_joint_setup "vp9" 7) Late) false].

Example ex_never_admitted :
  j_daemon ex_refused = Uncertain 7 /\ me_state (session_of ex_refused) = StatePrepared /\
  me_completed (session_of ex_refused) = None /\ d_life (j_backend ex_refused) = DeviceRunning.
Proof. vm_compute. done. Qed.

Lemma daemon_and_session_agree_witness :
  let j := ex_joint [Daemon (DoConfigure (ex_joint_setup "h264-main" 7) Late) false] in
  j_daemon j = Configured 7 /\ d_life (j_backend j) = DeviceRunning /\ me_state (session_of j) = StateConfigured.
Proof.
  pose proof (daemon_and_session_agree ex_device 3 ex_session_id 1 ex_video ex_audio ex_request
    [Daemon (DoConfigure (ex_joint_setup "h264-main" 7) Late) false]) as H. cbv zeta in H.
  assert (Hst : me_state (session_of (joint_start ex_device 3 ex_session_id 1 ex_video ex_audio ex_request)) = StatePrepared)
    by by vm_compute.
  destruct (H Hst) as [Ha _]. clear H.
  assert (Hr : d_life (j_backend (ex_joint [Daemon (DoConfigure (ex_joint_setup "h264-main" 7) Late) false])) = DeviceRunning)
    by by vm_compute.
  assert (Hd : j_daemon (ex_joint [Daemon (DoConfigure (ex_joint_setup "h264-main" 7) Late) false]) = Configured 7) by by vm_compute.
  cbv zeta. split; [exact Hd|]. split; [exact Hr|]. unfold ex_joint in *. rewrite Hr, Hd in Ha. apply Ha.
Defined.

Lemma second_stop_settles_witness :
  j_daemon (ex_joint ex_joint_ops) = Uncertain 7 /\
  j_daemon (joint_run ex_device 3 (ex_joint ex_joint_ops) [ex_stop true; ex_stop false]) = Prepared 7.
Proof.
  split; [by vm_compute|]. unfold ex_joint.
  refine (second_stop_settles ex_device 3 ex_session_id 1 ex_video ex_audio ex_request ex_joint_ops 7
    DevStopTransportFailure Late true _ _ _ _); [by vm_compute..|]. left. by vm_compute.
Defined.

Lemma never_admitted_never_stopped_witness :
  j_daemon ex_refused = Uncertain 7 /\
  j_daemon (joint_run ex_device 3 ex_refused ((fun l => Daemon (DoStopMedia 7 DevStopTransportFailure Late) l) <$> [false; true; false])) =
    Uncertain 7.
Proof.
  split; [by vm_compute|].
  refine (proj1 (never_admitted_never_stopped ex_device 3 ex_refused 7
    DevStopTransportFailure Late [false; true; false] _ _ _)); by vm_compute.
Defined.
